(* ===== verification/_CoqProject ===== *)
-Q . S2P
Prelude.v
Float64.v
Primitives.v
Wire.v
ApiData.v
ApiCoord.v
ApiAdmin.v
ApiGroup.v
ApiTxn.v
Protocol.v
Idempotence.v
TxnIndex.v
Segment.v
SegmentDir.v
ControlBatch.v
Partition.v
Flush.v
Recovery.v
Cluster.v
Balancer.v
TxnState.v
Group.v
OffsetStore.v
Engine.v
Manager.v
Acls.v
ProducerFence.v
TxnFlow.v
DataPlane.v
GroupHandlers.v
Auth.v
Sasl.v
Retention.v
Election.v
Controller.v
TopicCr.v
TopicWatch.v
TopicAdmin.v
Discovery.v
UserAcls.v
UserCreds.v
Quota.v
MemoryEngine.v
Server.v
AtomicWrite.v
TopicSweep.v
ClusterCr.v
ControlPlane.v
Config.v
