(* ===== verification/Prelude.v ===== *)
(** * Verification of the kaas broker

    kaas is a Kafka-compatible broker in Rust (crates under [src/crates/], the
    server in [src/bins/kaas]).  A client's bytes are cut into frames and decoded
    ([kaas-codec], [kaas-protocol]), pass the authentication gate and version
    negotiation of the dispatcher, are authorized ([kaas-auth]) and reach a
    handler ([kaas-broker]).  Produce and fetch handlers use partitions
    ([kaas-storage]: segments with a sparse index, a deduplication window per
    producer, indexes of open and aborted transactions, a committer task that
    batches fsyncs).  Group and transaction handlers use the coordinators
    ([kaas-coordinator]).  All brokers share one volume: who leads a partition or
    coordinates a group is decided by an elected controller ([kaas-controller]),
    written to an assignment file and read back by every broker.  Topics and users
    are Kubernetes resources: admin requests write them, an operator
    ([kaas-operator-controllers]) turns them into directories, credentials and
    rules on the volume, and watches ([kaas-k8s]) bring them back to the brokers.

    ** Files

    - [Prelude.v]: this header, [result] (Rust's [Result]) with its bind, machine
      integers and their ranges, big-endian byte strings, shared list lemmas,
      tactics and hint databases.  [Float64.v]: Rust's [f64] operations on the
      Standard Library's executable binary64.
    - Codecs.  [Primitives.v]: [primitives.rs] of [kaas-codec]; readers are
      functions on the remaining bytes, writers byte strings or errors, [rt] is
      the round-trip relation and the database [codec] its proof search.
      [Wire.v]: [tagged.rs], [headers.rs], [frame.rs], [api/common.rs], [crc.rs],
      [recordbatch_count.rs]; class [Message], a message with its codec and its
      round-trip law, is the interface between codecs and dispatcher.
      [ApiData.v], [ApiCoord.v], [ApiAdmin.v], [ApiGroup.v], [ApiTxn.v]: every
      module under [api/], a module each, as instances of [Message].
    - [Protocol.v]: [api/registry.rs], [frame.rs], [connstate.rs], [dispatch.rs];
      [Server.v]: [server.rs], a connection from the accepted socket to its end,
      and the table of handlers.
    - Storage ([kaas-storage]).  [Idempotence.v], [TxnIndex.v], [Segment.v]: the
      modules of those names; [SegmentDir.v]: the listing and naming of segment
      files; [Partition.v]: the operations of [partition.rs] under the partition
      mutex; [Flush.v]: what runs beside it (committer, fsync tasks, watchdog,
      re-arm probe) as a machine of interleaved events; [Recovery.v]: manifest,
      checkpoint and snapshots on disk, opening, closing, taking over;
      [Engine.v]: [disk.rs], [topic_identity.rs], [takeover.rs] and moves between
      log directories; [Retention.v]: [cleaner.rs], [topicconfig.rs];
      [MemoryEngine.v]: [memory.rs], and the class [LogEngine] of what every engine
      promises, with the in-memory and the on-disk partition as instances;
      [AtomicWrite.v]: [atomic_write.rs] (storage and coordinator) over a volume
      that a crash can leave between any two operations.
    - Coordination.  [TxnState.v], [Group.v], [OffsetStore.v], [Manager.v]: the
      modules of [kaas-coordinator]; [ControlBatch.v], [ProducerFence.v]
      (producer ids, fence log and watcher, InitProducerId), [TxnFlow.v] (the
      other transaction handlers, markers across brokers and their queue).
    - Cluster.  [Cluster.v]: [assignment.rs], [group_hash.rs], [coordinator.rs],
      [group_takeover.rs]; [Balancer.v]: [balancer.rs]; [Election.v]:
      [kube_election.rs]; [Controller.v]: [assignment_writer.rs], the heartbeat
      server, [endpoints.rs], the sources of [bins/kaas/src/cluster.rs];
      [ControlPlane.v]: the broker's side of it, [heartbeat_client.rs] with its
      status pump and resolver, the write fence, the readiness answer, and
      [run_controller] with its grace period and triggers.
    - Security.  [Acls.v]: [types.rs], [acls.rs], [authorizer.rs] (class
      [Authorizer] is the source's trait); [Auth.v]: credentials, PLAIN, SCRAM,
      OAUTHBEARER, certificates, principal mapping, engines and selector;
      [Sasl.v]: the two SASL handlers on a connection; [Quota.v]: [quota.rs] and
      the two quota handlers; [Config.v]: the broker's environment ([cli.rs]), the
      engine of every listener and the authorizer built from it, the fetches of
      OAuth keys.
    - Handlers.  [DataPlane.v]: Produce, Fetch, ListOffsets, DeleteRecords and the
      topic registry; [GroupHandlers.v]: the eleven group and offset handlers;
      [TopicAdmin.v]: the seven topic, configuration and log-directory handlers;
      [Discovery.v]: Metadata and DescribeCluster.
    - Resources.  [TopicCr.v]: the topic resource, the broker's writer and the
      operator's topic controller; [TopicWatch.v]: the topic watch and its
      callbacks in [bins/kaas/src/main.rs]; [UserAcls.v]: the user resource, its
      access rules, the rules file and the ACL handlers; [UserCreds.v]: the
      operator's user controller, the credentials file, the credential sweep and
      the SCRAM credential handlers; [TopicSweep.v]: the sweep of topic
      directories; [ClusterCr.v]: the cluster resource and the operator's
      controller of external access.

    ** What the theorems show

    - Exactly once.  [exactly_once], [retry_is_duplicate], [fenced_epoch_refused]:
      over every interleaving of produce attempts and fences, the accepted batches
      of a producer epoch carry consecutive sequence numbers, a retry is answered
      with its first offset, a fenced epoch stays refused.
    - The log.  [append_extends_log], [read_returns_log],
      [partition_type_preserved], [indexed_read_complete], [recovery_scan_exact],
      [size_retention_keeps_enough], [fenced_leader_rejected]: the bytes of a
      partition refine a list of batches; every operation keeps the state well
      formed.  [produce_then_fetch], [produce_acknowledged],
      [read_committed_stable], [delete_records_exact]: the same over the wire.
      [memory_disk_agree]: any program of operations gets the same answers from
      both engines.
    - Durability.  [acked_append_durable], [no_lost_flush]; [reopen_after_close],
      [crash_keeps_whole_batches], [fence_survives_reopen],
      [listing_newest_epoch]; [graceful_handoff], [takeover_converges],
      [migration_keeps_log], [data_found_where_it_lies]: what was acknowledged
      survives fsync races, restarts, crashes, changes of leader and moves.
      [atomic_write_never_torn]: after a crash a metadata file reads as before or
      after the write, never as a mixture.
    - Retention.  [retention_pass_exact], [retention_deletes_justified].
    - Transactions.  [lso_isolates_open_txn], [aborted_index_invariant],
      [control_batch_recognised], [markers_cover_transaction],
      [txn_state_machine], [stale_producer_fenced], [producer_ids_unique],
      [init_fences_zombies], [end_txn_places_markers],
      [end_txn_failure_keeps_debt], [marker_queue_delivers].
    - Consumer groups.  [group_round_invariant], [sync_round_delivers],
      [rebalance_barrier], [assignment_delivered], [commit_then_fetch],
      [group_served_once]; offsets: [acked_offset_survives],
      [staged_offsets_atomic], [offsets_survive_restart],
      [committed_offsets_follow_group], [topic_purge_complete].
    - Cluster.  [balance_places_catalog], [cluster_smoothing_levels],
      [group_coordinator_kept], [coordinator_routing],
      [partition_ownership_exact], [published_assignment_sound],
      [assignment_never_rewinds], [fenced_broker_keeps_routing],
      [registry_invariant], [reconnect_wins], [controller_epochs_fence],
      [abdication_bounded], [metadata_routes_to_owner], [catalogues_agree];
      [write_fence_window], [backoff_counts_failures], [status_reaches_controller],
      [ready_means_serving], [grace_ends].
    - Security.  [unauthenticated_isolated], [authenticated_with_evidence],
      [principal_never_changes], [scram_login], [oauth_accepts_only_good],
      [acl_decision]; [created_acls_enforced], [created_acls_described],
      [acls_deleted_exact], [acked_acl_survives], [rotated_password_logs_in],
      [issued_password_logs_in]; [configured_listener_guarded], [pod_is_its_broker],
      [jwks_fetches_paced].
    - Quotas.  [quota_refines_bucket]: on numbers a double holds exactly, at
      multiples of a 512th of a second, the bucket is a token bucket on integers; [quota_budget_shared], [quota_delay_bounds],
      [altered_quotas_described], [over_quota_produce_served].
    - Topics.  [reconcile_prepares_topic], [reconcile_keeps_live],
      [retries_never_reclaim], [placement_sticky], [registry_converges],
      [no_silent_change], [subscriber_follows_cache], [created_configs_described],
      [altered_configs_described], [no_change_without_success],
      [deleted_topic_unserved], [recreated_topic_not_written],
      [metadata_creates_guarded], [topic_sweep_exact].
    - External access.  [external_writes_scoped], [external_endpoint_reaches_broker],
      [external_settles], [disabled_listener_removed].
    - Connections.  [responses_in_order], [advertised_apis_served].
    - Codecs.  [data_messages_roundtrip], [coordinator_messages_roundtrip],
      [admin_messages_roundtrip], [group_messages_roundtrip],
      [request_received], [api_versions_advertises_registry],
      [dispatch_version_range], [header_roundtrip], [uvarint_roundtrip],
      [count_records_correct].
    - Behaviour that departs from what the comments or the Kafka protocol say is
      stated as a theorem next to what it concerns, for instance
      [read_cuts_first_batch], [in_range_misses_earlier_start],
      [short_tail_loses_append], [superseded_take_over_serves],
      [move_in_place_deletes], [commit_before_load_erases],
      [queue_overwrite_loses_marker], [restart_commits_dead_session],
      [interleaved_calls_break_fence], [late_remove_hides_topic],
      [deleted_user_keeps_access], [overlapping_rebuilds_lose_rule],
      [produce_discards_fetch_refill], [shrunk_cluster_keeps_services],
      [late_reconnect_fences], [failed_recompute_not_retried],
      [misspelt_type_is_open], [stale_delete_erases], [trim_keeps_fragment].

    ** Conventions

    - A w-bit integer is a [Z] with its wrap-around or saturation written out; a
      byte string is a [list byte]; a [HashMap] is a [gmap]; a [Vec] is a list.
    - Code under one mutex is one function on the state; code that gives the lock
      up, or calls the API server more than once, is split into one step per
      critical section or call wherever a theorem depends on what comes between.
    - Loops.  The varint loops run at most ten times, as in the code.  The loops
      over a byte string (scan, read, count) take their fuel from its length,
      each round consuming a batch header at least.  The cluster
      smoothing loop has no bound in the code; [length² + 1] rounds are shown to be
      enough.  The per-topic loop has the code's own cap.
    - Parameters: CRC-32C, XXH64, SHA-1, HMAC, PBKDF2, signatures, Base64, JSON,
      X.509 and regular expressions (external crates, with the laws they document
      where a theorem needs them), random bytes, texts of error messages.
      Arguments: the clock, the contents of the files a poll reads, which file
      operation, slot write or API call fails, generated member ids.

    ** Not modelled

    Observability: metrics, gauges, tracing and the per-topic traffic counters
    only record what the modelled code does, and nothing reads them back; the JSON
    of the health endpoints is text.  The accept loop, socket options, TLS and gRPC
    transport, and the streams of the Kubernetes watches belong to the runtime and
    to external crates: what they deliver (bytes, events, failures) is an argument
    of the models.  The wiring of the two binaries starts the tasks modelled
    elsewhere in a fixed order and has no state of its own; [xtask] is a build
    tool.  JSON, hashes and signatures are external (see Conventions).

    What would come next: the order in which the server starts its tasks, as one
    machine over the steps of [ControlPlane.v], [TopicWatch.v] and [Engine.v]; the
    Produce and Fetch handlers against the class [LogEngine] instead of the
    on-disk partition. *)

From stdpp Require Import base gmap strings list sorting.
From Stdlib Require Import Strings.Byte.

(** stdpp's list lemmas, ahead of the Standard Library's of the same names. *)
Export stdpp.list_basics.list stdpp.list_relations.list stdpp.list_monad.list
  stdpp.list_misc.list.

Local Open Scope Z_scope.

(** ** Results: Rust's [Result<T, E>] *)

Inductive result (E A : Type) : Type :=
| Ok (a : A)
| Err (e : E).
Arguments Ok {E A} a.
Arguments Err {E A} e.

(** The [?] operator is the monadic bind of stdpp ([x ← c; k]). *)
#[global] Instance result_ret E : MRet (result E) := λ A a, Ok a.
#[global] Instance result_bind E : MBind (result E) := λ A B f r,
  match r with Ok a => f a | Err e => Err e end.

#[global] Instance result_eq_dec {E A} `{!EqDecision E, !EqDecision A} :
  EqDecision (result E A).
Proof. solve_decision. Defined.

(** [Option::ok_or]. *)
Definition ok_or {E A} (o : option A) (e : E) : result E A :=
  match o with Some a => Ok a | None => Err e end.

Definition is_ok {E A} (r : result E A) : bool :=
  match r with Ok _ => true | Err _ => false end.

(** Injectivity that leaves the payloads folded ([injection] would reduce them). *)
#[global] Instance Ok_inj {E A} : Inj (=) (=) (@Ok E A).
Proof. congruence. Qed.

Lemma bind_ok {E A B} (f : A → result E B) (r : result E A) b :
  r ≫= f = Ok b ↔ ∃ a, r = Ok a ∧ f a = Ok b.
Proof. destruct r; simpl; naive_solver. Qed.

(** ** Machine integers

    A w-bit integer is a [Z]; the operations that can leave the range are
    written with their wrap-around ([wrapping_add] and the two's-complement
    reinterpretations) or with the saturation the source asks for. *)

Definition wrap_u (w z : Z) : Z := z mod 2 ^ w.
Definition wrap_s (w z : Z) : Z := (z + 2 ^ (w - 1)) mod 2 ^ w - 2 ^ (w - 1).

Definition i8_ok (z : Z) : Prop := -128 ≤ z < 128.
Definition i16_ok (z : Z) : Prop := -32768 ≤ z < 32768.
Definition i32_ok (z : Z) : Prop := -2147483648 ≤ z < 2147483648.
Definition i64_ok (z : Z) : Prop := -9223372036854775808 ≤ z < 9223372036854775808.
Definition u8_ok (z : Z) : Prop := 0 ≤ z < 256.
Definition u32_ok (z : Z) : Prop := 0 ≤ z < 4294967296.
Definition u64_ok (z : Z) : Prop := 0 ≤ z < 18446744073709551616.

Definition i16_max : Z := 32767.
Definition i32_max : Z := 2147483647.
Definition i64_max : Z := 9223372036854775807.
Definition u64_max : Z := 18446744073709551615.

(** [i32::wrapping_add], [i64::saturating_add]. *)
Definition wrapping_add32 (a b : Z) : Z := wrap_s 32 (a + b).
Definition sat_i64 (z : Z) : Z := Z.max (- i64_max - 1) (Z.min i64_max z).

Lemma wrap_u_small w z : 0 ≤ z < 2 ^ w → wrap_u w z = z.
Proof. apply Z.mod_small. Qed.

Lemma wrap_s_small w z : 0 < w → - 2 ^ (w - 1) ≤ z < 2 ^ (w - 1) → wrap_s w z = z.
Proof.
  intros Hw Hz. unfold wrap_s.
  assert (2 ^ w = 2 * 2 ^ (w - 1)) by (rewrite <- Z.pow_succ_r by lia; f_equal; lia).
  rewrite Z.mod_small by lia. lia.
Qed.

(** Reinterpreting the bits of a w-bit value. *)
Lemma wrap_s_wrap_u w z : wrap_s w (wrap_u w z) = wrap_s w z.
Proof. unfold wrap_s, wrap_u. by rewrite Zplus_mod_idemp_l. Qed.

Lemma wrap_u_wrap_s w z : 0 < w → wrap_u w (wrap_s w z) = wrap_u w z.
Proof.
  intros Hw. unfold wrap_s, wrap_u.
  rewrite Zminus_mod_idemp_l. f_equal. lia.
Qed.

Lemma wrap_s_shift w z : 0 < w → ∃ k, wrap_s w z = z + k * 2 ^ w.
Proof.
  intros Hw. unfold wrap_s. exists (- ((z + 2 ^ (w - 1)) / 2 ^ w)).
  pose proof (Z.div_mod (z + 2 ^ (w - 1)) (2 ^ w)).
  assert (2 ^ w ≠ 0) by (apply Z.pow_nonzero; lia). lia.
Qed.

Lemma wrap_s_plus w z k : wrap_s w (z + k * 2 ^ w) = wrap_s w z.
Proof.
  unfold wrap_s. replace (z + k * 2 ^ w + 2 ^ (w - 1)) with (z + 2 ^ (w - 1) + k * 2 ^ w) by lia.
  by rewrite Z_mod_plus_full.
Qed.

Lemma wrap_s_range w z : 0 < w → - 2 ^ (w - 1) ≤ wrap_s w z < 2 ^ (w - 1).
Proof.
  intros Hw. unfold wrap_s.
  assert (2 ^ w = 2 * 2 ^ (w - 1)) by (rewrite <- Z.pow_succ_r by lia; f_equal; lia).
  pose proof (Z.pow_pos_nonneg 2 (w - 1)).
  pose proof (Z.mod_pos_bound (z + 2 ^ (w - 1)) (2 ^ w)). lia.
Qed.

(** ** Bytes and big-endian integers *)

Definition b2z (b : byte) : Z := Z.of_N (Byte.to_N b).
Definition z2b (z : Z) : byte :=
  match Byte.of_N (Z.to_N (z mod 256)) with Some b => b | None => x00 end.

#[global] Instance byte_eq_dec : EqDecision byte := Byte.byte_eq_dec.

Lemma b2z_range b : 0 ≤ b2z b < 256.
Proof. unfold b2z. pose proof (Byte.to_N_bounded b). lia. Qed.

Lemma b2z_z2b z : b2z (z2b z) = z mod 256.
Proof.
  unfold b2z, z2b.
  pose proof (Z.mod_pos_bound z 256 eq_refl).
  destruct (Byte.of_N (Z.to_N (z mod 256))) as [b|] eqn:E.
  - apply Byte.to_of_N in E. rewrite E. lia.
  - apply Byte.of_N_None_iff in E. lia.
Qed.

Lemma b2z_inj a b : b2z a = b2z b → a = b.
Proof.
  unfold b2z. intros H%N2Z.inj.
  pose proof (Byte.of_to_N a) as Ha. pose proof (Byte.of_to_N b) as Hb.
  rewrite H in Ha. congruence.
Qed.

Lemma z2b_b2z b : z2b (b2z b) = b.
Proof.
  apply b2z_inj. rewrite b2z_z2b, Z.mod_small; [done|apply b2z_range].
Qed.

(** [to_be_bytes] of an n-byte integer, and its unsigned/signed readings. *)
Fixpoint be (n : nat) (z : Z) : list byte :=
  match n with
  | O => []
  | S n' => z2b (z / 256 ^ Z.of_nat n') :: be n' z
  end.

Fixpoint unbe (l : list byte) : Z :=
  match l with
  | [] => 0
  | b :: l' => b2z b * 256 ^ Z.of_nat (length l') + unbe l'
  end.

Definition sbe (l : list byte) : Z := wrap_s (8 * Z.of_nat (length l)) (unbe l).

Lemma length_be n z : length (be n z) = n.
Proof. induction n; simpl; congruence. Qed.

Lemma pow256 n : 256 ^ Z.of_nat n = 2 ^ (8 * Z.of_nat n).
Proof. rewrite Z.pow_mul_r by lia. done. Qed.

Lemma unbe_range l : 0 ≤ unbe l < 256 ^ Z.of_nat (length l).
Proof.
  induction l as [|b l IH]; simpl; [lia|].
  pose proof (b2z_range b).
  replace (Z.of_nat (S (length l))) with (Z.succ (Z.of_nat (length l))) by lia.
  rewrite Z.pow_succ_r by lia. nia.
Qed.

Lemma unbe_be n z : unbe (be n z) = z mod 256 ^ Z.of_nat n.
Proof.
  induction n as [|n IH]; simpl be; simpl unbe; [by rewrite Z.mod_1_r|].
  rewrite length_be, IH, b2z_z2b.
  replace (Z.of_nat (S n)) with (Z.of_nat n + 1) by lia.
  rewrite Z.pow_add_r, Z.pow_1_r by lia.
  pose proof (Z.pow_pos_nonneg 256 (Z.of_nat n)).
  rewrite Z.rem_mul_r by lia. lia.
Qed.

(** The low n bytes do not see what is added above them. *)
Lemma be_add_high n m c u :
  (n ≤ m)%nat → be n (c * 256 ^ Z.of_nat m + u) = be n u.
Proof.
  intros Hm. induction n as [|n IHn]; simpl; [done|].
  rewrite IHn by lia. f_equal. apply b2z_inj. rewrite !b2z_z2b.
  replace (Z.of_nat m) with ((Z.of_nat m - Z.of_nat n - 1) + 1 + Z.of_nat n) by lia.
  rewrite !Z.pow_add_r, Z.pow_1_r, !Z.mul_assoc by lia.
  rewrite Z.div_add_l by (apply Z.pow_nonzero; lia).
  by rewrite Z.add_comm, Z.mod_add by lia.
Qed.

Lemma be_unbe l : be (length l) (unbe l) = l.
Proof.
  induction l as [|b l IH]; simpl; [done|].
  pose proof (Z.pow_pos_nonneg 256 (Z.of_nat (length l))).
  pose proof (unbe_range l).
  f_equal.
  - rewrite Z.div_add_l, Z.div_small, Z.add_0_r by lia. apply z2b_b2z.
  - by rewrite be_add_high.
Qed.

Lemma sbe_be n z :
  (0 < n)%nat → - 2 ^ (8 * Z.of_nat n - 1) ≤ z < 2 ^ (8 * Z.of_nat n - 1) →
  sbe (be n z) = z.
Proof.
  intros Hn Hz. unfold sbe. rewrite length_be, unbe_be, pow256.
  fold (wrap_u (8 * Z.of_nat n) z).
  rewrite wrap_s_wrap_u. apply wrap_s_small; lia.
Qed.

Lemma unbe_be_small n z : 0 ≤ z < 256 ^ Z.of_nat n → unbe (be n z) = z.
Proof. intros. by rewrite unbe_be, Z.mod_small. Qed.

(** The slice [b[off..off + n]]. *)
Definition slice (off n : nat) (b : list byte) : list byte := take n (drop off b).

(** ** Lists *)


(** [Vec::drain(..overflow)] down to the newest [n] elements. *)
Definition keep_last {A} (n : nat) (l : list A) : list A := drop (length l - n) l.

Lemma length_keep_last {A} n (l : list A) :
  length (keep_last n l) = Nat.min n (length l).
Proof. unfold keep_last. rewrite length_drop. lia. Qed.

Lemma elem_of_keep_last {A} n (l : list A) x : x ∈ keep_last n l → x ∈ l.
Proof.
  intros H. rewrite <- (take_drop (length l - n) l). apply elem_of_app. by right.
Qed.

Lemma keep_last_snoc {A} n (l : list A) x :
  (0 < n)%nat → keep_last n (l ++ [x]) = keep_last (n - 1) l ++ [x].
Proof.
  intros Hn. unfold keep_last. rewrite length_app; simpl.
  rewrite drop_app_le by lia. do 2 f_equal. lia.
Qed.

(** Length of the longest prefix satisfying [p]: the value of
    [partition_point] on a list partitioned by [p]. *)
Fixpoint prefix_len {A} (p : A → bool) (l : list A) : nat :=
  match l with
  | [] => 0
  | x :: l' => if p x then S (prefix_len p l') else 0
  end.

Lemma prefix_len_le {A} (p : A → bool) l : (prefix_len p l ≤ length l)%nat.
Proof. induction l; simpl; [lia|]. destruct (p a); lia. Qed.

(** ** Collecting into a map

    [into_iter().collect::<HashMap<_, _>>()]: a later entry wins. *)

Definition collect {V} (l : list (Z * V)) : gmap Z V := foldl (λ m e, <[e.1 := e.2]> m) ∅ l.

Lemma collect_map_to_list {V} (m : gmap Z V) : collect (map_to_list m) = m.
Proof.
  unfold collect.
  assert (∀ (l : list (Z * V)) (m : gmap Z V),
    foldl (λ m e, <[e.1 := e.2]> m) m l = (list_to_map (reverse l) : gmap Z V) ∪ m) as Hfold.
  { induction l as [|[k v] l IH]; intros m'; simpl; [by rewrite (left_id_L ∅ (∪))|].
    rewrite IH, reverse_cons, list_to_map_app, <- (assoc_L (∪)). f_equal.
    simpl. by rewrite insert_empty, insert_union_singleton_l. }
  rewrite Hfold, (right_id_L ∅ (∪)).
  rewrite <- (list_to_map_to_list m) at 2. apply list_to_map_proper.
  - rewrite fmap_reverse, reverse_Permutation. apply NoDup_fst_map_to_list.
  - apply reverse_Permutation.
Qed.

(** ** Grouping

    [entry(k).or_default().push(v)] over a list of pairs. *)

Definition bucket `{Countable K} {V} (l : list (K * V)) : gmap K (list V) :=
  foldl (λ m kv, <[kv.1 := default [] (m !! kv.1) ++ [kv.2]]> m) ∅ l.

Lemma list_filter_all {A} (P : A → Prop) `{∀ x, Decision (P x)} (l : list A) :
  Forall P l → filter P l = l.
Proof. induction 1 as [|x l Hx _ IH]; [done|]. by rewrite filter_cons_True, IH. Qed.

Lemma elem_of_bucket `{Countable K} {V} (l : list (K * V)) k v :
  (∃ vs, bucket l !! k = Some vs ∧ v ∈ vs) ↔ (k, v) ∈ l.
Proof.
  unfold bucket. induction l as [|[k' v'] l IH] using rev_ind.
  { simpl. setoid_rewrite lookup_empty. rewrite elem_of_nil. naive_solver. }
  rewrite foldl_snoc, elem_of_app, <- IH, list_elem_of_singleton. simpl. clear IH.
  set (m := foldl _ _ l). destruct (decide (k = k')) as [->|Hne].
  - rewrite lookup_insert_eq. destruct (m !! k') as [ws|]; simpl.
    + setoid_rewrite (inj_iff Some). split.
      * intros (? & <- & [Hv|Hv%list_elem_of_singleton]%elem_of_app); [left; by exists ws|right; congruence].
      * intros [(? & <- & Hv)|[= ->]]; eexists; (split; [done|]); apply elem_of_app; [by left|right].
        by apply list_elem_of_singleton.
    + split; [intros (? & [= <-] & Hv%list_elem_of_singleton); right; congruence|].
      intros [(? & [=] & _)|[= ->]]. eexists. split; [done|]. by apply list_elem_of_singleton.
  - rewrite lookup_insert_ne by done. naive_solver.
Qed.

(** ** Strings

    A Rust [String] is a byte sequence: Rocq's [string] is one. *)

Definition as_bytes (s : string) : list byte := String.list_byte_of_string s.
Definition of_bytes (l : list byte) : string := String.string_of_list_byte l.

Lemma of_as_bytes s : of_bytes (as_bytes s) = s.
Proof. apply String.string_of_list_byte_of_string. Qed.

Lemma as_of_bytes l : as_bytes (of_bytes l) = l.
Proof. apply String.list_byte_of_string_of_list_byte. Qed.

Definition str_is_empty (s : string) : bool :=
  match s with EmptyString => true | _ => false end.

(** ** Automation *)

Create HintDb kaas discriminated.
#[export] Hint Resolve b2z_range unbe_range length_be : kaas.
Create Rewrite HintDb kaas.
#[export] Hint Rewrite length_be unbe_be b2z_z2b z2b_b2z : kaas.

(** Splits every [match]/[if] in the goal and in the hypotheses and closes
    what is contradictory. *)
Ltac case_all :=
  repeat (case_match; simplify_eq/=; try done).

(** Unfolds the machine-integer ranges and calls [lia]. *)
Ltac range :=
  unfold i8_ok, i16_ok, i32_ok, i64_ok, u8_ok, u32_ok, u64_ok,
    i16_max, i32_max, i64_max, u64_max in *; simpl in *; lia.
