(* ===== verification/Float64.v ===== *)
(** * Double-precision arithmetic

    The [f64] operations the quota code uses, on the Standard Library's
    executable specification of IEEE 754 ([SpecFloat], binary64: 53 bits of
    mantissa, exponents below 1024): conversions from and to integers as Rust's
    [as] casts (nearest-even, truncating, saturating, NaN to zero), [ceil],
    [trunc], the bit pattern on the wire.  The lemmas show that on numbers [z / 2^d]
    with [z] below [2^53] the operations are exact, and that a quotient of positive
    integers stays positive. *)

From stdpp Require Import base list.
From Stdlib Require Import ZArith Lia Floats.SpecFloat.
From S2P Require Import Prelude.

Local Open Scope Z_scope.

Definition prec : Z := 53.
Definition emax : Z := 1024.
Notation f64 := spec_float (only parsing).

Definition fadd : f64 → f64 → f64 := SFadd prec emax.
Definition fsub : f64 → f64 → f64 := SFsub prec emax.
Definition fmul : f64 → f64 → f64 := SFmul prec emax.
Definition fdiv : f64 → f64 → f64 := SFdiv prec emax.
Definition fneg : f64 → f64 := SFopp.
Definition feq : f64 → f64 → bool := SFeqb.
Definition flt : f64 → f64 → bool := SFltb.
Definition fle : f64 → f64 → bool := SFleb.
Definition is_nan (x : f64) : bool := match x with S754_nan => true | _ => false end.

(** [v as f64] for an integer [v]. *)
Definition f64_of_Z (v : Z) : f64 := binary_normalize prec emax v 0 false.

(** The integer part of a finite number, rounded toward zero. *)
Definition trunc_Z (s : bool) (m : positive) (e : Z) : Z :=
  cond_Zopp s (if 0 <=? e then Zpos m * 2 ^ e else Zpos m / 2 ^ (- e)).

(** [v as i32], [v as i64]: truncation that saturates; NaN is zero. *)
Definition f64_as_int (lo hi : Z) (v : f64) : Z :=
  match v with
  | S754_nan => 0
  | S754_zero _ => 0
  | S754_infinity s => if s then lo else hi
  | S754_finite s m e => Z.max lo (Z.min hi (trunc_Z s m e))
  end.

(** [v.trunc()] and [v.ceil()]; the sign of a zero result is the argument's. *)
Definition of_Z_signed (s : bool) (z : Z) : f64 := if z =? 0 then S754_zero s else f64_of_Z z.
Definition ftrunc (v : f64) : f64 :=
  match v with
  | S754_finite s m e => if 0 <=? e then v else of_Z_signed s (trunc_Z s m e)
  | _ => v
  end.
Definition fceil (v : f64) : f64 :=
  match v with
  | S754_finite s m e =>
    if 0 <=? e then v else of_Z_signed s (- (cond_Zopp (negb s) (Zpos m) / 2 ^ (- e)))
  | _ => v
  end.

(** The 64 bits of the wire. *)
Definition f64_of_bits (b : Z) : f64 :=
  let s := Z.testbit b 63 in
  let ex := Z.shiftr b 52 mod 2048 in
  let m := b mod 2 ^ 52 in
  if ex =? 0 then (if m =? 0 then S754_zero s else S754_finite s (Z.to_pos m) (- 1074))
  else if ex =? 2047 then (if m =? 0 then S754_infinity s else S754_nan)
  else S754_finite s (Z.to_pos (m + 2 ^ 52)) (ex - 1075).
Definition sign_bit (s : bool) : Z := if s then 2 ^ 63 else 0.
Definition f64_to_bits (v : f64) : Z :=
  match v with
  | S754_zero s => sign_bit s
  | S754_infinity s => sign_bit s + 2047 * 2 ^ 52
  | S754_nan => 4095 * 2 ^ 51
  | S754_finite s m e =>
    if Zpos m <? 2 ^ 52 then sign_bit s + Zpos m
    else sign_bit s + (e + 1075) * 2 ^ 52 + (Zpos m - 2 ^ 52)
  end.

#[global] Arguments f64_of_Z : simpl never.
#[global] Arguments f64_of_bits : simpl never.
#[global] Arguments f64_to_bits : simpl never.

(** ** Exactness below [2^53]

    [dyadic d z] is the number [z / 2^d]; [f64_of_Z z] is [dyadic 0 z].  On
    mantissas below [2^53], and scalings away from underflow and overflow, sums,
    differences, products, whole quotients and comparisons are exact. *)

Definition dyadic (d z : Z) : f64 := binary_normalize prec emax z (- d) false.
#[global] Arguments dyadic : simpl never.

(** The number [±z / 2^d] in normal form. *)
Definition norm (d : Z) (s : bool) (z : Z) : f64 :=
  S754_finite s (Z.to_pos (z * 2 ^ (52 - Z.log2 z))) (Z.log2 z - 52 - d).

Definition small (z : Z) : Prop := Z.abs z < 2 ^ 53.
Definition scaling (d : Z) : Prop := - 200 ≤ d ≤ 200.

Lemma digits2_log2 p : Zpos (digits2_pos p) = Z.log2 (Zpos p) + 1.
Proof.
  induction p as [p IH|p IH|]; [| |reflexivity]; cbn [digits2_pos]; rewrite Pos2Z.inj_succ, IH.
  - change (Zpos p~1) with (2 * Zpos p + 1). rewrite Z.log2_succ_double; lia.
  - change (Zpos p~0) with (2 * Zpos p). rewrite Z.log2_double; lia.
Qed.

Lemma Zdigits2_log2 z : 0 < z → Zdigits2 z = Z.log2 z + 1.
Proof. destruct z; try lia. intros _. apply digits2_log2. Qed.

Lemma log2_small z : 0 < z < 2 ^ 53 → 0 ≤ Z.log2 z ≤ 52.
Proof.
  intros H. split; [apply Z.log2_nonneg|]. apply Z.lt_succ_r. apply Z.log2_lt_pow2; [lia|].
  exact (proj2 H).
Qed.

Lemma iter_pos_nat {A} (f : A → A) p x : iter_pos f p x = Nat.iter (Pos.to_nat p) f x.
Proof.
  revert x. induction p as [p IH|p IH|]; intros x; cbn [iter_pos]; [| |reflexivity].
  - rewrite !IH. rewrite <- Nat.iter_succ_r, <- Nat.iter_add. f_equal. lia.
  - rewrite !IH. rewrite <- Nat.iter_add. f_equal. lia.
Qed.

Lemma shr_1_even m : 0 ≤ m →
  shr_1 {| shr_m := 2 * m; shr_r := false; shr_s := false |} =
  {| shr_m := m; shr_r := false; shr_s := false |}.
Proof. intros H. destruct m; [reflexivity|reflexivity|lia]. Qed.

Lemma shr_exact n m : 0 ≤ m → 0 ≤ n →
  ∀ e, shr {| shr_m := m * 2 ^ n; shr_r := false; shr_s := false |} e n =
  ({| shr_m := m; shr_r := false; shr_s := false |}, e + n).
Proof.
  intros Hm Hn e. destruct n as [|p|p]; [|unfold shr|lia].
  { cbn [shr]. rewrite Z.pow_0_r, Z.mul_1_r, Z.add_0_r. reflexivity. }
  rewrite iter_pos_nat. f_equal. rewrite <- (positive_nat_Z p).
  generalize (Pos.to_nat p). intros k. induction k as [|k IH]; [simpl; rewrite Z.mul_1_r; reflexivity|].
  rewrite Nat.iter_succ_r.
  replace (m * 2 ^ Z.of_nat (S k)) with (2 * (m * 2 ^ Z.of_nat k))
    by (rewrite Nat2Z.inj_succ, Z.pow_succ_r by lia; ring).
  rewrite shr_1_even by lia. exact IH.
Qed.

Lemma fexp_eq e : - 1021 ≤ e → fexp prec emax e = e - 53.
Proof. unfold fexp, emin, prec, emax. lia. Qed.

Lemma log2_scale z k : 0 < z → 0 ≤ k → Z.log2 (z * 2 ^ k) = Z.log2 z + k.
Proof. intros. rewrite Z.log2_mul_pow2; lia. Qed.

Lemma aux_exact d s z k e : scaling d → 0 < z < 2 ^ 53 → 52 - Z.log2 z ≤ k → 0 ≤ k → e = - k - d →
  binary_round_aux prec emax s (z * 2 ^ k) e loc_Exact = norm d s z.
Proof.
  unfold scaling. intros Hd Hz Hk Hk0 ->. pose proof (log2_small z Hz) as Hl. unfold binary_round_aux, shr_fexp.
  cbn [shr_record_of_loc].
  assert (0 < z * 2 ^ k) by (apply Z.mul_pos_pos; lia).
  rewrite Zdigits2_log2, log2_scale, fexp_eq by lia.
  replace (z * 2 ^ k) with (z * 2 ^ (52 - Z.log2 z) * 2 ^ (Z.log2 z + k + 1 + (- k - d) - 53 - (- k - d)))
    by (rewrite <- Z.mul_assoc, <- Z.pow_add_r by lia; do 2 f_equal; lia).
  rewrite shr_exact by (try apply Z.mul_nonneg_nonneg; lia).
  cbn [shr_m loc_of_shr_record round_nearest_even].
  assert (0 < z * 2 ^ (52 - Z.log2 z)) by (apply Z.mul_pos_pos; lia).
  rewrite Zdigits2_log2, log2_scale, fexp_eq by lia.
  match goal with |- context [shr _ _ ?n] => replace n with 0 by lia end. cbn [shr shr_m].
  unfold norm. destruct (z * 2 ^ (52 - Z.log2 z)) as [|p|p] eqn:E; [lia| |lia].
  rewrite (proj2 (Z.leb_le _ _)) by (unfold emax, prec; lia). f_equal. lia.
Qed.

Lemma shl_align_neg m e e' : e' < e → shl_align m e e' = (Z.to_pos (Zpos m * 2 ^ (e - e')), e').
Proof.
  intros H. unfold shl_align. destruct (e' - e) as [|p|p] eqn:E; [lia|lia|]. f_equal.
  replace (e - e') with (Zpos p) by lia. clear. apply Pos2Z.inj. rewrite Z2Pos.id by (apply Z.mul_pos_pos; lia).
  rewrite Pos2Nat.inj_iter, <- (positive_nat_Z p).
  generalize (Pos.to_nat p). intros k. induction k as [|k IH]; [simpl; lia|].
  cbn [nat_rect]. rewrite Nat2Z.inj_succ, Z.pow_succ_r, Pos2Z.inj_xO, IH by lia. ring.
Qed.

Lemma shl_align_fst m e e' : e' ≤ e → Zpos (fst (shl_align m e e')) = Zpos m * 2 ^ (e - e').
Proof.
  intros H. destruct (decide (e' = e)) as [->|Hn].
  - unfold shl_align. rewrite Z.sub_diag. simpl. lia.
  - rewrite shl_align_neg by lia. cbn [fst]. rewrite Z2Pos.id; [reflexivity|].
    apply Z.mul_pos_pos; lia.
Qed.

(** Rounding [z * 2^k] at exponent [-k - d] gives [z / 2^d], however it is scaled. *)
Lemma round_exact d s z k p : scaling d → 0 < z < 2 ^ 53 → 0 ≤ k → Zpos p = z * 2 ^ k →
  binary_round prec emax s p (- k - d) = norm d s z.
Proof.
  intros Hd Hz Hk Hp. pose proof (log2_small z Hz) as Hl. unfold binary_round.
  rewrite digits2_log2, Hp, log2_scale, fexp_eq by (unfold scaling in Hd; lia).
  destruct (decide (Z.log2 z + k < 52)) as [Hlt|Hge].
  - rewrite shl_align_neg by lia. rewrite Hp.
    replace (z * 2 ^ k * 2 ^ (- k - d - (Z.log2 z + k + 1 + (- k - d) - 53))) with (z * 2 ^ (52 - Z.log2 z))
      by (rewrite <- Z.mul_assoc, <- Z.pow_add_r by lia; do 2 f_equal; lia).
    rewrite Z2Pos.id by (apply Z.mul_pos_pos; lia).
    apply aux_exact; auto; lia.
  - unfold shl_align.
    destruct (Z.log2 z + k + 1 + (- k - d) - 53 - (- k - d)) eqn:E; [| |lia]; rewrite Hp; apply aux_exact; auto; lia.
Qed.

Lemma normalize_exact d z k e sz : scaling d → small z → 0 ≤ k → z ≠ 0 → e = - k - d →
  binary_normalize prec emax (z * 2 ^ k) e sz = norm d (z <? 0) (Z.abs z).
Proof.
  unfold small. intros Hd Hz Hk Hn ->. unfold binary_normalize.
  destruct (z * 2 ^ k) as [|p|p] eqn:E.
  - apply Z.mul_eq_0 in E as [|E]; [lia|]. pose proof (Z.pow_pos_nonneg 2 k). lia.
  - assert (0 < z) by (destruct (Z.lt_trichotomy z 0) as [|[|]]; try lia;
      pose proof (Z.mul_neg_pos z (2 ^ k)); pose proof (Z.pow_pos_nonneg 2 k); lia).
    rewrite (proj2 (Z.ltb_ge _ _)) by lia. rewrite Z.abs_eq by lia. apply round_exact; auto; lia.
  - assert (z < 0) by (destruct (Z.lt_trichotomy z 0) as [|[|]]; try lia;
      pose proof (Z.mul_pos_pos z (2 ^ k)); pose proof (Z.pow_pos_nonneg 2 k); lia).
    rewrite (proj2 (Z.ltb_lt _ _)) by lia. rewrite Z.abs_neq by lia. apply round_exact; auto; lia.
Qed.

Lemma f64_of_Z_dyadic z : f64_of_Z z = dyadic 0 z.
Proof. reflexivity. Qed.

Lemma dyadic_norm d z : scaling d → small z → z ≠ 0 → dyadic d z = norm d (z <? 0) (Z.abs z).
Proof.
  intros Hd Hz Hn. unfold dyadic. rewrite <- (normalize_exact d z 0 (- d) false) by (auto; lia).
  rewrite Z.pow_0_r, Z.mul_1_r. reflexivity.
Qed.

(** Scaling both ways cancels. *)
Lemma dyadic_shift d k z : scaling d → small z → 0 ≤ k → dyadic (d + k) (z * 2 ^ k) = dyadic d z.
Proof.
  intros Hd Hz Hk. destruct (decide (z = 0)) as [->|Hn]; [reflexivity|].
  unfold dyadic at 1. rewrite (normalize_exact d), dyadic_norm by (auto; lia). reflexivity.
Qed.

Lemma dyadic_shape d z : scaling d → small z → z ≠ 0 → ∃ m e,
  dyadic d z = S754_finite (z <? 0) m e ∧ Zpos m = Z.abs z * 2 ^ (- d - e) ∧
  e = Z.log2 (Z.abs z) - 52 - d ∧ - 52 - d ≤ e ≤ - d.
Proof.
  intros Hd Hz Hn. rewrite dyadic_norm by auto. unfold norm, small in *.
  pose proof (log2_small (Z.abs z) ltac:(lia)). do 2 eexists. split_and!; [reflexivity| |reflexivity|lia|lia].
  rewrite Z2Pos.id by (apply Z.mul_pos_pos; lia). do 2 f_equal. lia.
Qed.

Lemma norm_shape z : small z → z ≠ 0 → ∃ m e,
  f64_of_Z z = S754_finite (z <? 0) m e ∧ Zpos m = Z.abs z * 2 ^ (- e) ∧ e = Z.log2 (Z.abs z) - 52 ∧ - 52 ≤ e ≤ 0.
Proof.
  intros Hz Hn. destruct (dyadic_shape 0 z) as (m & e & E & M & L & R); [unfold scaling; lia|auto..|].
  exists m, e. split_and!; [exact E|exact M|lia..].
Qed.

Lemma signed_scale (z m k : Z) : m = Z.abs z * k → cond_Zopp (z <? 0) m = z * k.
Proof. intros ->. unfold cond_Zopp. destruct (Z.ltb_spec z 0); lia. Qed.

Lemma aligned_scale d z m e e' : Zpos m = Z.abs z * 2 ^ (- d - e) → e' ≤ e ≤ - d →
  cond_Zopp (z <? 0) (Zpos (fst (shl_align m e e'))) = z * 2 ^ (- d - e').
Proof.
  intros Hm He. apply signed_scale. rewrite shl_align_fst, Hm, <- Z.mul_assoc, <- Z.pow_add_r by lia.
  do 2 f_equal. lia.
Qed.

Lemma normalize_scaled d z e : scaling d → small z → e ≤ - d →
  binary_normalize prec emax (z * 2 ^ (- d - e)) e false = dyadic d z.
Proof.
  intros Hd Hz He. destruct (decide (z = 0)) as [->|Hn]; [reflexivity|].
  rewrite (normalize_exact d), dyadic_norm by (auto; lia). reflexivity.
Qed.

Lemma dyadic_add d a b : scaling d → small a → small b → small (a + b) →
  fadd (dyadic d a) (dyadic d b) = dyadic d (a + b).
Proof.
  intros Hd Ha Hb Hab.
  destruct (decide (a = 0)) as [->|Na]; [destruct (decide (b = 0)) as [->|Nb]; [reflexivity|]|].
  { destruct (dyadic_shape d b) as (m & e & E & _); auto. rewrite E. simpl. rewrite <- E. reflexivity. }
  destruct (dyadic_shape d a) as (ma & ea & Ea & Ma & _ & La); auto.
  destruct (decide (b = 0)) as [->|Nb]; [rewrite Z.add_0_r, Ea; reflexivity|].
  destruct (dyadic_shape d b) as (mb & eb & Eb & Mb & _ & Lb); auto.
  rewrite Ea, Eb. unfold fadd, SFadd.
  rewrite (aligned_scale d a), (aligned_scale d b), <- Z.mul_add_distr_r by (auto; lia).
  apply normalize_scaled; auto. lia.
Qed.

Lemma dyadic_neg d a : scaling d → small a → a ≠ 0 → fneg (dyadic d a) = dyadic d (- a).
Proof.
  unfold small. intros Hd Ha Hn. rewrite !dyadic_norm by (auto; unfold small; lia). unfold norm, fneg, SFopp.
  rewrite Z.abs_opp. f_equal. destruct (Z.ltb_spec a 0), (Z.ltb_spec (- a) 0); try reflexivity; lia.
Qed.

Lemma dyadic_sub d a b : scaling d → small a → small b → small (a - b) →
  fsub (dyadic d a) (dyadic d b) = dyadic d (a - b).
Proof.
  intros Hd Ha Hb Hab.
  destruct (decide (b = 0)) as [->|Nb].
  { destruct (decide (a = 0)) as [->|Na]; [reflexivity|].
    destruct (dyadic_shape d a) as (m & e & E & _); auto. rewrite Z.sub_0_r, E. reflexivity. }
  destruct (dyadic_shape d b) as (mb & eb & Eb & Mb & _ & Lb); auto.
  destruct (decide (a = 0)) as [->|Na].
  { change (0 - b) with (- b). rewrite <- dyadic_neg, Eb by auto. reflexivity. }
  destruct (dyadic_shape d a) as (ma & ea & Ea & Ma & _ & La); auto.
  rewrite Ea, Eb. unfold fsub, SFsub.
  rewrite (aligned_scale d a), (aligned_scale d b), <- Z.mul_sub_distr_r by (auto; lia).
  apply normalize_scaled; auto. lia.
Qed.

Lemma log2_mul_ge a b : 0 < a → 0 < b → Z.log2 a + Z.log2 b ≤ Z.log2 (a * b).
Proof. intros. apply Z.log2_mul_below; lia. Qed.

Lemma dyadic_mul c d a b : scaling c → scaling d → scaling (c + d) → 0 < a < 2 ^ 53 → 0 ≤ b → a * b < 2 ^ 53 →
  fmul (dyadic c a) (dyadic d b) = dyadic (c + d) (a * b).
Proof.
  intros Hc Hd Hcd Ha Hb Hab. destruct (dyadic_shape c a) as (ma & ea & Ea & Ma & La & Ra); [auto|unfold small; lia|lia|].
  destruct (decide (b = 0)) as [->|Nb].
  { rewrite Z.mul_0_r, Ea. simpl. rewrite (proj2 (Z.ltb_ge a 0)) by lia. reflexivity. }
  assert (b < 2 ^ 53) by nia.
  destruct (dyadic_shape d b) as (mb & eb & Eb & Mb & Lb & Rb); [auto|unfold small; lia|lia|].
  rewrite Ea, Eb. unfold fmul, SFmul.
  rewrite (proj2 (Z.ltb_ge a 0)), (proj2 (Z.ltb_ge b 0)) by lia. cbn [xorb].
  rewrite Pos2Z.inj_mul, Ma, Mb, !Z.abs_eq in * by lia.
  replace (a * 2 ^ (- c - ea) * (b * 2 ^ (- d - eb))) with (a * b * 2 ^ (- c - ea + (- d - eb)))
    by (rewrite Z.pow_add_r by lia; ring).
  pose proof (log2_mul_ge a b ltac:(lia) ltac:(lia)).
  pose proof (log2_small (a * b) ltac:(nia)).
  rewrite (aux_exact (c + d)) by (auto; nia).
  rewrite dyadic_norm by (auto; unfold small; nia). rewrite (proj2 (Z.ltb_ge (a * b) 0)), Z.abs_eq by nia. reflexivity.
Qed.

Lemma div_eucl_mul q d : d ≠ 0 → Z.div_eucl (q * d) d = (q, 0).
Proof.
  intros Hd. rewrite (surjective_pairing (Z.div_eucl (q * d) d)).
  change (Z.div_eucl (q * d) d).1 with (q * d / d). change (Z.div_eucl (q * d) d).2 with ((q * d) mod d).
  rewrite Z.div_mul, Z.mod_mul by exact Hd. reflexivity.
Qed.

Lemma dyadic_div c d k r : scaling c → scaling d → scaling (c - d) → 0 < r → 0 < k → k * r < 2 ^ 53 →
  fdiv (dyadic c (k * r)) (dyadic d r) = dyadic (c - d) k.
Proof.
  intros Hc Hd Hcd Hr Hk Hkr. assert (r < 2 ^ 53) by nia. assert (k < 2 ^ 53) by nia. assert (0 < k * r) by nia.
  destruct (dyadic_shape c (k * r)) as (ma & ea & Ea & Ma & La & Ra); [auto|unfold small; lia|lia|].
  destruct (dyadic_shape d r) as (mb & eb & Eb & Mb & Lb & Rb); [auto|unfold small; lia|lia|].
  rewrite Ea, Eb. unfold fdiv, SFdiv, SFdiv_core_binary.
  rewrite (proj2 (Z.ltb_ge (k * r) 0)), (proj2 (Z.ltb_ge r 0)) by lia. cbn [xorb].
  rewrite !Z.abs_eq in * by lia.
  rewrite !Zdigits2_log2, Ma, Mb, !log2_scale by lia.
  replace (Z.log2 (k * r) + (- c - ea) + 1 + ea - (Z.log2 r + (- d - eb) + 1 + eb)) with (ea - eb) by lia.
  unfold scaling in *. rewrite fexp_eq by lia. rewrite Z.min_l by lia. replace (ea - eb - (ea - eb - 53)) with 53 by lia.
  cbv beta iota zeta. rewrite Z.shiftl_mul_pow2 by lia.
  pose proof (Z.log2_mul_above k r ltac:(lia) ltac:(lia)). pose proof (Z.log2_nonneg k).
  pose proof (log2_mul_ge k r ltac:(lia) ltac:(lia)).
  assert (Hq : k * r * 2 ^ (- c - ea) * 2 ^ 53 = k * 2 ^ (53 - (ea - eb) - (c - d)) * (r * 2 ^ (- d - eb))).
  { replace (k * 2 ^ (53 - (ea - eb) - (c - d)) * (r * 2 ^ (- d - eb)))
      with (k * r * (2 ^ (53 - (ea - eb) - (c - d)) * 2 ^ (- d - eb))) by ring.
    rewrite <- !Z.mul_assoc, <- !Z.pow_add_r by lia. do 3 f_equal. lia. }
  rewrite Hq, div_eucl_mul by (pose proof (Z.pow_pos_nonneg 2 (- d - eb)); nia).
  replace (new_location _ 0) with loc_Exact by (unfold new_location; destruct (Z.even _); reflexivity).
  rewrite (aux_exact (c - d)) by (unfold scaling; lia).
  rewrite dyadic_norm by (unfold scaling, small; lia). rewrite (proj2 (Z.ltb_ge k 0)), Z.abs_eq by lia. reflexivity.
Qed.

Lemma log2_lt_lt a b : 0 < a → 0 < b → Z.log2 a < Z.log2 b → a < b.
Proof. intros Ha Hb H. destruct (Z.lt_ge_cases a b); [assumption|]. pose proof (Z.log2_le_mono b a). lia. Qed.

Lemma compare_norm d a b ma ea mb eb : 0 < a → 0 < b →
  Zpos ma = a * 2 ^ (- d - ea) → Zpos mb = b * 2 ^ (- d - eb) → ea = Z.log2 a - 52 - d → eb = Z.log2 b - 52 - d →
  match ea ?= eb with Lt => Lt | Gt => Gt | Eq => Pos.compare_cont Eq ma mb end = (a ?= b).
Proof.
  intros Ha Hb Hma Hmb Hea Heb. destruct (Z.compare_spec ea eb) as [He|He|He].
  - change (Pos.compare_cont Eq ma mb) with (Zpos ma ?= Zpos mb). rewrite Hma, Hmb, <- He.
    destruct (decide (0 ≤ - d - ea)).
    + rewrite (Z.mul_comm a), (Z.mul_comm b). symmetry. apply Zmult_compare_compat_l. pose proof (Z.pow_pos_nonneg 2 (- d - ea)). lia.
    + rewrite Z.pow_neg_r in Hma by lia. lia.
  - symmetry. apply Z.compare_lt_iff. apply log2_lt_lt; lia.
  - symmetry. apply Z.compare_gt_iff. apply log2_lt_lt; lia.
Qed.

Lemma dyadic_compare d a b : scaling d → small a → small b → SFcompare (dyadic d a) (dyadic d b) = Some (a ?= b).
Proof.
  intros Hd Ha Hb.
  destruct (decide (a = 0)) as [->|Na]; [destruct (decide (b = 0)) as [->|Nb]; [reflexivity|]|].
  { destruct (dyadic_shape d b) as (m & e & E & _); auto. rewrite E. simpl. destruct b; try done. }
  destruct (dyadic_shape d a) as (ma & ea & Ea & Ma & La & _); auto.
  destruct (decide (b = 0)) as [->|Nb]; [rewrite Ea; simpl; destruct a; done|].
  destruct (dyadic_shape d b) as (mb & eb & Eb & Mb & Lb & _); auto.
  rewrite Ea, Eb. unfold SFcompare. f_equal.
  destruct (Z.ltb_spec a 0), (Z.ltb_spec b 0).
  - pose proof (compare_norm d (- b) (- a) mb eb ma ea) as Hc. rewrite !Z.abs_neq in * by lia.
    rewrite <- (Z.compare_opp b a), <- Hc by (auto; lia). rewrite (Z.compare_antisym ea eb).
    destruct (ea ?= eb); cbn [CompOpp]; try reflexivity.
    change (Pos.compare_cont Eq) with Pos.compare. symmetry. apply Pos.compare_antisym.
  - symmetry. apply Z.compare_lt_iff. lia.
  - symmetry. apply Z.compare_gt_iff. lia.
  - rewrite !Z.abs_eq in * by lia. apply (compare_norm d); auto; lia.
Qed.

Lemma dyadic_flt d a b : scaling d → small a → small b → flt (dyadic d a) (dyadic d b) = (a <? b).
Proof. intros. unfold flt, SFltb. rewrite dyadic_compare by auto. reflexivity. Qed.
Lemma dyadic_fle d a b : scaling d → small a → small b → fle (dyadic d a) (dyadic d b) = (a <=? b).
Proof. intros. unfold fle, SFleb. rewrite dyadic_compare by auto. unfold Z.leb. destruct (a ?= b); reflexivity. Qed.

(** The same on integers. *)
Lemma scaling_0 : scaling 0.
Proof. unfold scaling. lia. Qed.

Lemma fmul_exact a b : 0 < a < 2 ^ 53 → 0 ≤ b → a * b < 2 ^ 53 → fmul (f64_of_Z a) (f64_of_Z b) = f64_of_Z (a * b).
Proof. intros. apply (dyadic_mul 0 0); auto using scaling_0. Qed.
Lemma compare_exact a b : small a → small b → SFcompare (f64_of_Z a) (f64_of_Z b) = Some (a ?= b).
Proof. intros. apply (dyadic_compare 0); auto using scaling_0. Qed.

Lemma feq_exact a b : small a → small b → feq (f64_of_Z a) (f64_of_Z b) = (a =? b).
Proof. intros. unfold feq, SFeqb. rewrite compare_exact, Z.eqb_compare by auto. reflexivity. Qed.
Lemma flt_exact a b : small a → small b → flt (f64_of_Z a) (f64_of_Z b) = (a <? b).
Proof. intros. unfold flt, SFltb. rewrite compare_exact by auto. reflexivity. Qed.
Lemma fle_exact a b : small a → small b → fle (f64_of_Z a) (f64_of_Z b) = (a <=? b).
Proof. intros. unfold fle, SFleb. rewrite compare_exact by auto. unfold Z.leb. destruct (a ?= b); reflexivity. Qed.

Lemma as_int_exact lo hi z : small z → lo ≤ z ≤ hi → f64_as_int lo hi (f64_of_Z z) = z.
Proof.
  intros Hz Hr. destruct (decide (z = 0)) as [->|Hn]; [reflexivity|].
  destruct (norm_shape z) as (m & e & E & M & _ & L); auto. rewrite E. cbn [f64_as_int].
  replace (trunc_Z (z <? 0) m e) with z; [lia|]. symmetry.
  unfold trunc_Z. replace (if 0 <=? e then _ else _) with (Z.abs z).
  { rewrite (signed_scale z _ 1) by lia. lia. }
  rewrite M. destruct (Z.leb_spec 0 e).
  - replace e with 0 by lia. simpl. lia.
  - rewrite Z.div_mul; [reflexivity|]. pose proof (Z.pow_pos_nonneg 2 (- e)). lia.
Qed.

(** Truncating an integer gives the integer. *)
Lemma ftrunc_exact z : small z → ftrunc (f64_of_Z z) = f64_of_Z z.
Proof.
  intros Hz. destruct (decide (z = 0)) as [->|Hn]; [reflexivity|].
  pose proof (as_int_exact (- 2 ^ 53) (2 ^ 53) z Hz ltac:(unfold small in Hz; lia)) as Hi.
  destruct (norm_shape z) as (m & e & E & M & _ & L); auto. rewrite E in *. cbn [f64_as_int ftrunc] in *.
  destruct (Z.leb_spec 0 e) as [|He]; [reflexivity|]. unfold small in Hz.
  replace (trunc_Z (z <? 0) m e) with z by lia. unfold of_Z_signed.
  rewrite (proj2 (Z.eqb_neq z 0)) by lia. exact E.
Qed.

(** [ceil] of [z / 2^d]. *)
Lemma fceil_dyadic d z : 0 ≤ d ≤ 200 → 0 < z < 2 ^ 53 → fceil (dyadic d z) = f64_of_Z (- (- z / 2 ^ d)).
Proof.
  intros Hd Hz. destruct (dyadic_shape d z) as (m & e & E & M & _ & L); [unfold scaling, small; lia..|].
  rewrite E, (proj2 (Z.ltb_ge z 0)) by lia. rewrite Z.abs_eq in M by lia. cbn [fceil negb cond_Zopp].
  destruct (Z.leb_spec 0 e) as [He|He].
  - replace d with 0 in * by lia. rewrite Z.div_1_r, Z.opp_involutive, f64_of_Z_dyadic, E.
    by rewrite (proj2 (Z.ltb_ge z 0)) by lia.
  - replace (2 ^ (- e)) with (2 ^ d * 2 ^ (- d - e)) by (rewrite <- Z.pow_add_r by lia; f_equal; lia).
    pose proof (Z.pow_pos_nonneg 2 (- d - e)). pose proof (Z.pow_pos_nonneg 2 d).
    rewrite M, <- Z.mul_opp_l, Z.div_mul_cancel_r by lia.
    pose proof (Z.div_lt_upper_bound (- z) (2 ^ d) 0 ltac:(lia) ltac:(lia)).
    unfold of_Z_signed. by rewrite (proj2 (Z.eqb_neq _ 0)) by lia.
Qed.

(** ** A quotient of positive integers is positive *)

Lemma shr_1_half r : 0 ≤ shr_m r → shr_m (shr_1 r) = shr_m r / 2.
Proof.
  destruct r as [m r s]. cbn [shr_m shr_1]. intros H. rewrite <- Z.div2_div.
  destruct m as [|[p|p|]|p]; try reflexivity. lia.
Qed.

Lemma shr_half r e n : 0 ≤ shr_m r → 0 ≤ n →
  shr_m (fst (shr r e n)) = shr_m r / 2 ^ n ∧ snd (shr r e n) = e + n.
Proof.
  intros Hr Hn. destruct n as [|p|p]; [cbn; rewrite Z.div_1_r; lia| |lia].
  cbn [shr fst snd]. split; [|reflexivity]. rewrite iter_pos_nat, <- (positive_nat_Z p).
  generalize (Pos.to_nat p). intros k. induction k as [|k IH]; [simpl; rewrite Z.div_1_r; reflexivity|].
  rewrite Nat.iter_succ, shr_1_half, IH, Nat2Z.inj_succ, Z.pow_succ_r, Z.mul_comm, Z.div_div; lia || auto.
  - rewrite IH. apply Z.div_pos; lia.
Qed.

Lemma round_near m l : m ≤ round_nearest_even m l ≤ m + 1.
Proof. destruct l as [|[]]; cbn; try lia. destruct (Z.even m); lia. Qed.

Lemma log2_52 m : 2 ^ 52 ≤ m < 2 ^ 53 → Z.log2 m = 52.
Proof. intros H. apply Z.log2_unique; lia. Qed.

Lemma round_pos s m e l : 0 < m → 52 ≤ Z.log2 m → - 1000 ≤ Z.log2 m + e ≤ 1000 →
  ∃ m' e', binary_round_aux prec emax s m e l = S754_finite s m' e' ∧ Z.log2 (Zpos m') = 52 ∧
    Z.log2 m + e - 52 ≤ e' ≤ Z.log2 m + e - 51.
Proof.
  intros Hm Hl He. unfold binary_round_aux, shr_fexp.
  rewrite Zdigits2_log2, fexp_eq by lia.
  set (n := Z.log2 m + 1 + e - 53 - e).
  destruct (shr_half (shr_record_of_loc m l) e n) as [Hs1 Hs2];
    [destruct l as [|[]]; cbn; lia|subst n; lia|].
  destruct (shr (shr_record_of_loc m l) e n) as [r1 e1]. cbn [fst snd] in *.
  assert (Hm1 : 2 ^ 52 ≤ shr_m r1 < 2 ^ 53).
  { rewrite Hs1. replace (shr_m (shr_record_of_loc m l)) with m by (destruct l as [|[]]; reflexivity).
    destruct (Z.log2_spec m Hm) as [L1 L2]. replace (2 ^ Z.log2 m) with (2 ^ 52 * 2 ^ n) in L1
      by (rewrite <- Z.pow_add_r by (subst n; lia); f_equal; subst n; lia).
    replace (2 ^ Z.succ (Z.log2 m)) with (2 ^ 53 * 2 ^ n) in L2
      by (rewrite <- Z.pow_add_r by (subst n; lia); f_equal; subst n; lia).
    pose proof (Z.pow_pos_nonneg 2 n ltac:(lia) ltac:(subst n; lia)).
    split; [apply Z.div_le_lower_bound|apply Z.div_lt_upper_bound]; lia. }
  pose proof (round_near (shr_m r1) (loc_of_shr_record r1)) as Hr.
  set (m2 := round_nearest_even (shr_m r1) (loc_of_shr_record r1)) in *. clearbody m2.
  rewrite Zdigits2_log2 by lia. cbn [shr_record_of_loc].
  destruct (decide (m2 = 2 ^ 53)) as [->|Hne].
  - change (Z.log2 (2 ^ 53)) with 53. rewrite fexp_eq by (subst n; lia).
    replace (53 + 1 + e1 - 53 - e1) with 1 by lia. cbn [shr]. rewrite iter_pos_nat.
    change (shr_m (Nat.iter (Pos.to_nat 1) shr_1 {| shr_m := 2 ^ 53; shr_r := false; shr_s := false |})) with (2 ^ 52).
    change (2 ^ 52) with (Zpos (2 ^ 52)). cbv iota.
    rewrite (proj2 (Z.leb_le _ _)) by (unfold emax, prec; subst n; lia).
    do 2 eexists. split_and!; [reflexivity|reflexivity|subst n; lia|subst n; lia].
  - rewrite log2_52, fexp_eq by (subst n; lia).
    replace (52 + 1 + e1 - 53 - e1) with 0 by lia. cbn [shr shr_m].
    destruct m2 as [|p|p]; [lia| |lia]. rewrite (proj2 (Z.leb_le _ _)) by (unfold emax, prec; subst n; lia).
    do 2 eexists. split_and!; [reflexivity|apply log2_52; lia|subst n; lia|subst n; lia].
Qed.

(** A positive number away from underflow and overflow. *)
Definition pos_normal (lo hi : Z) (x : f64) : Prop :=
  ∃ m e, x = S754_finite false m e ∧ Z.log2 (Zpos m) = 52 ∧ lo ≤ e ≤ hi.

Lemma dyadic_pos_normal d z : scaling d → 0 < z < 2 ^ 53 → pos_normal (- 52 - d) (- d) (dyadic d z).
Proof.
  intros Hd Hz. destruct (dyadic_shape d z) as (m & e & E & M & L & R); [auto|unfold small; lia|lia|].
  exists m, e. rewrite E, (proj2 (Z.ltb_ge z 0)) by lia. split_and!; [reflexivity| |lia|lia].
  rewrite M, Z.abs_eq, log2_scale by lia. rewrite Z.abs_eq in L; lia.
Qed.

Lemma fmul_pos a b l1 h1 l2 h2 : pos_normal l1 h1 a → pos_normal l2 h2 b →
  - 500 ≤ l1 → - 500 ≤ l2 → h1 ≤ 400 → h2 ≤ 400 → pos_normal (l1 + l2 + 52) (h1 + h2 + 54) (fmul a b).
Proof.
  intros (m1 & e1 & -> & L1 & R1) (m2 & e2 & -> & L2 & R2) ????. unfold fmul, SFmul. cbn [xorb].
  rewrite Pos2Z.inj_mul.
  pose proof (Z.log2_mul_below (Zpos m1) (Zpos m2) ltac:(lia) ltac:(lia)).
  pose proof (Z.log2_mul_above (Zpos m1) (Zpos m2) ltac:(lia) ltac:(lia)).
  destruct (round_pos false (Zpos m1 * Zpos m2) (e1 + e2) loc_Exact) as (m & e & E & L & R); [lia|lia|lia|].
  exists m, e. split_and!; auto; lia.
Qed.

Lemma fdiv_pos a b l1 h1 l2 h2 : pos_normal l1 h1 a → pos_normal l2 h2 b →
  - 200 ≤ l1 → - 200 ≤ l2 → h1 ≤ 200 → h2 ≤ 200 → pos_normal (l1 - h2 - 53) (h1 - l2 - 51) (fdiv a b).
Proof.
  intros (m1 & e1 & -> & L1 & R1) (m2 & e2 & -> & L2 & R2) ????. unfold fdiv, SFdiv, SFdiv_core_binary. cbn [xorb].
  rewrite !Zdigits2_log2, L1, L2 by lia.
  replace (52 + 1 + e1 - (52 + 1 + e2)) with (e1 - e2) by lia. rewrite fexp_eq, Z.min_l by lia.
  replace (e1 - e2 - (e1 - e2 - 53)) with 53 by lia. cbv beta iota zeta. rewrite Z.shiftl_mul_pow2 by lia.
  rewrite (surjective_pairing (Z.div_eucl _ _)).
  set (q := (Z.div_eucl (Zpos m1 * 2 ^ 53) (Zpos m2)).1). set (r := (Z.div_eucl _ _).2).
  assert (Hq : 2 ^ 52 ≤ q < 2 ^ 54).
  { change q with (Zpos m1 * 2 ^ 53 / Zpos m2).
    pose proof (Z.log2_spec (Zpos m1) ltac:(lia)) as A1. pose proof (Z.log2_spec (Zpos m2) ltac:(lia)) as A2.
    rewrite L1 in A1. rewrite L2 in A2.
    split; [apply Z.div_le_lower_bound|apply Z.div_lt_upper_bound]; lia. }
  assert (52 ≤ Z.log2 q ≤ 53).
  { split; [apply Z.log2_le_pow2; lia|]. apply Z.lt_succ_r. apply Z.log2_lt_pow2; lia. }
  destruct (round_pos false q (e1 - e2 - 53) (new_location (Zpos m2) r)) as (m & e & E & L & R); [lia|lia|lia|].
  exists m, e. split_and!; auto; lia.
Qed.

Lemma fceil_pos x lo hi : pos_normal lo hi x → fle (fceil x) (f64_of_Z 0) = false ∧
  ∀ b, 1 ≤ b → 1 ≤ f64_as_int (- b) b (fceil x).
Proof.
  intros (m & e & -> & L & R). cbn [fceil negb cond_Zopp].
  destruct (Z.leb_spec 0 e) as [He|He].
  - split; [reflexivity|]. intros b Hb. cbn [f64_as_int]. unfold trunc_Z, cond_Zopp.
    rewrite (proj2 (Z.leb_le 0 e)) by lia. pose proof (Z.pow_pos_nonneg 2 e). nia.
  - pose proof (Z.log2_spec (Zpos m) ltac:(lia)) as Hm. rewrite L in Hm.
    set (z := - (- Zpos m / 2 ^ (- e))).
    assert (Hz : 1 ≤ z ≤ Zpos m).
    { unfold z. pose proof (Z.pow_pos_nonneg 2 (- e) ltac:(lia) ltac:(lia)).
      pose proof (Z.div_lt_upper_bound (- Zpos m) (2 ^ (- e)) 0 ltac:(lia) ltac:(lia)).
      pose proof (Z.div_le_lower_bound (- Zpos m) (2 ^ (- e)) (- Zpos m) ltac:(lia) ltac:(nia)). lia. }
    unfold of_Z_signed. rewrite (proj2 (Z.eqb_neq z 0)) by lia.
    assert (small z) by (unfold small; lia). split.
    + rewrite fle_exact by (auto; unfold small; lia). apply Z.leb_gt. lia.
    + intros b Hb. destruct (norm_shape z) as (mz & ez & E & M & _ & Lz); [auto|lia|].
      pose proof (as_int_exact (- 2 ^ 53) (2 ^ 53) z ltac:(auto) ltac:(unfold small in *; lia)) as Hi.
      rewrite E in *. cbn [f64_as_int] in *. lia.
Qed.

(** ** The wire *)

Definition valid (x : f64) : Prop := valid_binary prec emax x = true.

Lemma sign_split s b : 0 ≤ b < 2 ^ 63 →
  Z.testbit (sign_bit s + b) 63 = s ∧ Z.shiftr (sign_bit s + b) 52 mod 2048 = Z.shiftr b 52 ∧
  (sign_bit s + b) mod 2 ^ 52 = b mod 2 ^ 52.
Proof.
  intros Hb. unfold sign_bit. rewrite !Z.shiftr_div_pow2 by lia. split_and!.
  - rewrite Z.testbit_eqb by lia.
    destruct s; [apply Z.eqb_eq|apply Z.eqb_neq].
    + replace ((2 ^ 63 + b) / 2 ^ 63) with 1; [reflexivity|]. apply Z.div_unique with b; lia.
    + rewrite Z.add_0_l, Z.div_small by lia. discriminate.
  - assert (0 ≤ b / 2 ^ 52 < 2048)
      by (split; [apply Z.div_pos|apply Z.div_lt_upper_bound]; lia).
    destruct s; [|rewrite Z.add_0_l; apply Z.mod_small; lia].
    replace (2 ^ 63 + b) with (b + 2048 * 2 ^ 52) by lia. rewrite Z.div_add by lia.
    replace (b / 2 ^ 52 + 2048) with (b / 2 ^ 52 + 1 * 2048) by lia. rewrite Z.mod_add by lia. apply Z.mod_small. lia.
  - destruct s; [|f_equal; lia]. replace (2 ^ 63 + b) with (b + 2048 * 2 ^ 52) by lia. apply Z.mod_add. lia.
Qed.

Lemma bits_join s ex m : 0 ≤ ex < 2048 → 0 ≤ m < 2 ^ 52 →
  f64_of_bits (sign_bit s + (ex * 2 ^ 52 + m)) =
  if ex =? 0 then (if m =? 0 then S754_zero s else S754_finite s (Z.to_pos m) (- 1074))
  else if ex =? 2047 then (if m =? 0 then S754_infinity s else S754_nan)
  else S754_finite s (Z.to_pos (m + 2 ^ 52)) (ex - 1075).
Proof.
  intros He Hm. unfold f64_of_bits. destruct (sign_split s (ex * 2 ^ 52 + m)) as (-> & -> & ->); [lia|].
  rewrite Z.shiftr_div_pow2, Z.div_add_l, Z.div_small, Z.add_0_r, Z.add_comm, Z.mod_add, Z.mod_small by lia.
  reflexivity.
Qed.

Lemma valid_finite s m e : valid (S754_finite s m e) →
  Zpos m < 2 ^ 53 ∧ - 1074 ≤ e ≤ 971 ∧ (Zpos m < 2 ^ 52 → e = - 1074).
Proof.
  unfold valid, valid_binary, bounded, canonical_mantissa, fexp, emin, prec, emax.
  rewrite digits2_log2. intros [H1 H2]%andb_true_iff. apply Z.eqb_eq in H1. apply Z.leb_le in H2.
  pose proof (Z.log2_nonneg (Zpos m)).
  assert (Z.log2 (Zpos m) ≤ 52) by lia. split_and!; try lia.
  - apply Z.log2_lt_pow2; lia.
  - intros Hm. apply Z.log2_lt_pow2 in Hm; lia.
Qed.

Lemma f64_bits_roundtrip x : valid x → is_nan x = false → f64_of_bits (f64_to_bits x) = x.
Proof.
  intros Hv Hn. destruct x as [s|s| |s m e]; [destruct s; reflexivity|destruct s; reflexivity|discriminate|].
  apply valid_finite in Hv as (Hm & He & Hs). unfold f64_to_bits.
  destruct (Z.ltb_spec (Zpos m) (2 ^ 52)) as [Hlt|Hge].
  - rewrite (Hs Hlt). change (Zpos m) with (0 * 2 ^ 52 + Zpos m) at 1. rewrite bits_join by lia. reflexivity.
  - rewrite <- Z.add_assoc, bits_join by lia.
    rewrite (proj2 (Z.eqb_neq _ 0)), (proj2 (Z.eqb_neq _ 2047)) by lia.
    f_equal; [rewrite Z.sub_add; reflexivity|lia].
Qed.

Lemma f64_to_bits_u64 x : valid x → u64_ok (f64_to_bits x).
Proof.
  destruct x as [s|s| |s m e]; intros Hv; [destruct s; vm_compute; done|destruct s; vm_compute; done|vm_compute; done|].
  apply valid_finite in Hv as (Hm & He & _). unfold f64_to_bits, u64_ok, sign_bit.
  destruct (Z.ltb_spec (Zpos m) (2 ^ 52)); destruct s; lia.
Qed.

Lemma f64_of_Z_valid z : small z → valid (f64_of_Z z) ∧ is_nan (f64_of_Z z) = false.
Proof.
  intros Hz. destruct (decide (z = 0)) as [->|Hn]; [done|].
  destruct (norm_shape z) as (m & e & E & M & L & R); auto. rewrite E. split; [|reflexivity].
  unfold valid, valid_binary, bounded, canonical_mantissa. rewrite digits2_log2, M, log2_scale, fexp_eq by lia.
  apply andb_true_iff. split; [apply Z.eqb_eq|apply Z.leb_le]; unfold emax, prec; lia.
Qed.
