(* ===== verification/Primitives.v ===== *)
(** * Wire primitives ([crates/kaas-codec/src/primitives.rs], [errors.rs])

    The read side consumes a [Bytes] buffer: a reader maps the remaining bytes
    to a value and the bytes left, or to a [CodecError].  The write side appends
    to a [BytesMut]: a writer is the byte string it appends, or the error it
    returns.  [rt w r v] says that the writer succeeds and that the reader gives
    [v] back from the written bytes, leaving whatever follows them: the round
    trips of every codec above are derivations in that small logic. *)

From stdpp Require Import base gmap strings list.
From Stdlib Require Import Strings.Byte.
From S2P Require Import Prelude.

Local Open Scope Z_scope.

(** ** Errors *)

Inductive codec_error : Type :=
| UnexpectedEof
| InvalidUtf8
| InvalidLength (got max : Z)
| InvalidUvarint
| InvalidUuid
| UnexpectedNull
| LengthOverflow.

(** ** Readers and writers *)

Definition reader (A : Type) : Type := list byte → result codec_error (A * list byte).

#[global] Instance reader_ret : MRet reader := λ A a buf, Ok (a, buf).
#[global] Instance reader_bind : MBind reader := λ A B f r buf,
  match r buf with Ok (a, rest) => f a rest | Err e => Err e end.

Definition fail {A} (e : codec_error) : reader A := λ _, Err e.

Definition enc : Type := result codec_error (list byte).

(** Sequential writes to one buffer; the first error is returned. *)
Definition seq_enc (a b : enc) : enc :=
  match a with
  | Ok x => match b with Ok y => Ok (x ++ y) | Err e => Err e end
  | Err e => Err e
  end.
Infix "+++" := seq_enc (at level 60, right associativity) : stdpp_scope.

(** A field written only under a condition. *)
Definition when_enc (c : bool) (a : enc) : enc := if c then a else Ok [].

(** ** Fixed-width integers *)

Definition require (n : nat) : reader unit := λ buf,
  if (length buf <? n)%nat then Err UnexpectedEof else Ok (tt, buf).

(** [Buf::get_*] / [copy_to_bytes]: the next [n] bytes (the caller has checked
    that they are there). *)
Definition take_bytes (n : nat) : reader (list byte) := λ buf,
  Ok (take n buf, drop n buf).

Definition read_i8 : reader Z := require 1;; b ← take_bytes 1; mret (sbe b).
Definition read_i16 : reader Z := require 2;; b ← take_bytes 2; mret (sbe b).
Definition read_i32 : reader Z := require 4;; b ← take_bytes 4; mret (sbe b).
Definition read_i64 : reader Z := require 8;; b ← take_bytes 8; mret (sbe b).
Definition read_u8 : reader Z := require 1;; b ← take_bytes 1; mret (unbe b).
Definition read_u32 : reader Z := require 4;; b ← take_bytes 4; mret (unbe b).
(** An [f64] is its IEEE 754 bit pattern. *)
Definition read_f64 : reader Z := require 8;; b ← take_bytes 8; mret (unbe b).
Definition read_bool : reader bool := b ← read_u8; mret (negb (b =? 0)).

Definition write_i8 (v : Z) : enc := Ok (be 1 v).
Definition write_i16 (v : Z) : enc := Ok (be 2 v).
Definition write_i32 (v : Z) : enc := Ok (be 4 v).
Definition write_i64 (v : Z) : enc := Ok (be 8 v).
Definition write_u8 (v : Z) : enc := Ok (be 1 v).
Definition write_u32 (v : Z) : enc := Ok (be 4 v).
Definition write_f64 (v : Z) : enc := Ok (be 8 v).
Definition write_bool (v : bool) : enc := Ok (be 1 (if v then 1 else 0)).

(** ** Varints *)

Definition MAX_UVARINT_LEN : nat := 10.

(** The loop [for i in 0..MAX_UVARINT_LEN]; [n] counts the iterations left and
    [shift = 7 * i]. *)
Fixpoint read_uvarint_loop (n i : nat) (x shift : Z) : reader Z :=
  match n with
  | O => fail InvalidUvarint
  | S n' =>
    b ← read_u8;
    if b <? 0x80 then
      if (i =? MAX_UVARINT_LEN - 1)%nat && (1 <? b) then fail InvalidUvarint
      else mret (Z.lor x (wrap_u 64 (Z.shiftl b shift)))
    else
      read_uvarint_loop n' (S i)
        (Z.lor x (wrap_u 64 (Z.shiftl (Z.land b 0x7f) shift))) (shift + 7)
  end.

Definition read_uvarint : reader Z := read_uvarint_loop MAX_UVARINT_LEN 0 0 0.

(** The [while x >= 0x80] loop; ten iterations are enough for a [u64]
    ([write_uvarint_fuel]). *)
Fixpoint write_uvarint_loop (fuel : nat) (x : Z) : list byte :=
  match fuel with
  | O => []
  | S f =>
    if 0x80 <=? x then
      z2b (Z.lor (Z.land x 0x7f) 0x80) :: write_uvarint_loop f (Z.shiftr x 7)
    else [z2b (Z.land x 0x7f)]
  end.

Definition write_uvarint (v : Z) : enc := Ok (write_uvarint_loop MAX_UVARINT_LEN v).

(** [(u >> 1) ^ -(u & 1)] on [u64], reinterpreted as [i64]. *)
Definition zigzag_decode (u : Z) : Z :=
  wrap_s 64 (Z.lxor (Z.shiftr u 1) (wrap_u 64 (- Z.land u 1))).

(** [(n << 1) ^ (n >> 63)] on [i64], reinterpreted as [u64]. *)
Definition zigzag_encode (n : Z) : Z :=
  wrap_u 64 (Z.lxor (wrap_s 64 (Z.shiftl n 1)) (Z.shiftr n 63)).

Definition read_varint : reader Z := u ← read_uvarint; mret (zigzag_decode u).
Definition write_varint (v : Z) : enc := write_uvarint (zigzag_encode v).

(** ** Length helpers ([usize] is 64 bits wide) *)

Definition len_i16 (n : nat) : result codec_error Z :=
  if Z.of_nat n <=? i16_max then Ok (Z.of_nat n) else Err LengthOverflow.
Definition len_i32 (n : nat) : result codec_error Z :=
  if Z.of_nat n <=? i32_max then Ok (Z.of_nat n) else Err LengthOverflow.
Definition compact_len_u64 (n : nat) : result codec_error Z :=
  if Z.of_nat n + 1 <=? u64_max then Ok (Z.of_nat n + 1) else Err LengthOverflow.
Definition checked_compact_len (u : Z) (max : nat) : result codec_error nat :=
  let len := u - 1 in
  if Z.of_nat max <? len then
    Err (InvalidLength (if len <=? i64_max then len else i64_max) (Z.of_nat max))
  else Ok (Z.to_nat len).

(** ** UTF-8 ([std::str::from_utf8]): the well-formed byte sequences *)

Definition in_rng (lo hi b : Z) : bool := (lo <=? b) && (b <=? hi).

Fixpoint valid_utf8 (l : list byte) : bool :=
  match l with
  | [] => true
  | b0 :: l0 =>
    let v0 := b2z b0 in
    if v0 <=? 0x7f then valid_utf8 l0
    else match l0 with
    | [] => false
    | b1 :: l1 =>
      let v1 := b2z b1 in
      if in_rng 0xc2 0xdf v0 then in_rng 0x80 0xbf v1 && valid_utf8 l1
      else match l1 with
      | [] => false
      | b2 :: l2 =>
        let v2 := b2z b2 in
        let ok2 := ((v0 =? 0xe0) && in_rng 0xa0 0xbf v1)
          || ((in_rng 0xe1 0xec v0 || in_rng 0xee 0xef v0) && in_rng 0x80 0xbf v1)
          || ((v0 =? 0xed) && in_rng 0x80 0x9f v1) in
        if ok2 then in_rng 0x80 0xbf v2 && valid_utf8 l2
        else match l2 with
        | [] => false
        | b3 :: l3 =>
          let ok3 := ((v0 =? 0xf0) && in_rng 0x90 0xbf v1)
            || (in_rng 0xf1 0xf3 v0 && in_rng 0x80 0xbf v1)
            || ((v0 =? 0xf4) && in_rng 0x80 0x8f v1) in
          ok3 && in_rng 0x80 0xbf v2 && in_rng 0x80 0xbf (b2z b3) && valid_utf8 l3
        end
      end
    end
  end.

Definition from_utf8 (l : list byte) : reader string :=
  if valid_utf8 l then mret (of_bytes l) else fail InvalidUtf8.

(** ** Strings *)

Definition read_nullable_string : reader (option string) :=
  raw ← read_i16;
  if raw <? 0 then mret None
  else
    let len := Z.to_nat raw in
    require len;; bytes ← take_bytes len; s ← from_utf8 bytes; mret (Some s).

Definition non_null {A} (r : reader (option A)) : reader A :=
  o ← r; match o with Some a => mret a | None => fail UnexpectedNull end.

Definition read_string : reader string := non_null read_nullable_string.

Definition remaining : reader nat := λ buf, Ok (length buf, buf).
Definition lift {A} (r : result codec_error A) : reader A := λ buf,
  match r with Ok a => Ok (a, buf) | Err e => Err e end.

Definition read_compact_nullable_string : reader (option string) :=
  u ← read_uvarint;
  if u =? 0 then mret None
  else
    rem ← remaining; len ← lift (checked_compact_len u rem);
    bytes ← take_bytes len; s ← from_utf8 bytes; mret (Some s).

Definition read_compact_string : reader string := non_null read_compact_nullable_string.

(** A length prefix, then the bytes. *)
Definition prefixed (len : result codec_error Z) (w : Z → enc) (b : list byte) : enc :=
  match len with Ok n => w n +++ Ok b | Err e => Err e end.

Definition write_string (s : string) : enc :=
  prefixed (len_i16 (length (as_bytes s))) write_i16 (as_bytes s).
Definition write_nullable_string (s : option string) : enc :=
  match s with None => write_i16 (-1) | Some s => write_string s end.
Definition write_compact_string (s : string) : enc :=
  prefixed (compact_len_u64 (length (as_bytes s))) write_uvarint (as_bytes s).
Definition write_compact_nullable_string (s : option string) : enc :=
  match s with None => write_uvarint 0 | Some s => write_compact_string s end.

(** ** Byte strings *)

Definition read_nullable_bytes : reader (option (list byte)) :=
  raw ← read_i32;
  if raw <? 0 then mret None
  else let len := Z.to_nat raw in require len;; b ← take_bytes len; mret (Some b).

Definition read_bytes : reader (list byte) := non_null read_nullable_bytes.

Definition read_compact_nullable_bytes : reader (option (list byte)) :=
  u ← read_uvarint;
  if u =? 0 then mret None
  else rem ← remaining; len ← lift (checked_compact_len u rem);
    b ← take_bytes len; mret (Some b).

Definition read_compact_bytes : reader (list byte) := non_null read_compact_nullable_bytes.

Definition write_bytes (b : list byte) : enc := prefixed (len_i32 (length b)) write_i32 b.
Definition write_nullable_bytes (b : option (list byte)) : enc :=
  match b with None => write_i32 (-1) | Some b => write_bytes b end.
Definition write_compact_bytes (b : list byte) : enc :=
  prefixed (compact_len_u64 (length b)) write_uvarint b.
Definition write_compact_nullable_bytes (b : option (list byte)) : enc :=
  match b with None => write_uvarint 0 | Some b => write_compact_bytes b end.

(** ** Raw bytes and UUIDs *)

Definition read_raw (n : nat) : reader (list byte) := require n;; take_bytes n.
Definition write_raw (b : list byte) : enc := Ok b.
Definition read_uuid : reader (list byte) := require 16;; take_bytes 16.
Definition write_uuid (v : list byte) : enc := Ok v.

(** ** Array lengths *)

Definition read_array_len : reader nat :=
  raw ← read_i32; if raw <? 0 then mret 0%nat else mret (Z.to_nat raw).
Definition write_array_len (count : nat) : enc :=
  match len_i32 count with Ok n => write_i32 n | Err e => Err e end.
Definition read_compact_array_len : reader nat :=
  u ← read_uvarint; if u =? 0 then mret 0%nat else mret (Z.to_nat (u - 1)).
Definition write_compact_array_len (count : nat) : enc :=
  match compact_len_u64 count with Ok n => write_uvarint n | Err e => Err e end.

(** [for _ in 0..n { out.push(r(buf)?) }]. *)
Fixpoint read_n {A} (n : nat) (r : reader A) : reader (list A) :=
  match n with
  | O => mret []
  | S n' => x ← r; l ← read_n n' r; mret (x :: l)
  end.

(** [for a in l { w(buf, a)?; }]. *)
Fixpoint write_each {A} (w : A → enc) (l : list A) : enc :=
  match l with [] => Ok [] | a :: l' => w a +++ write_each w l' end.

(** ** Reserve and fix up *)

Definition reserve_i32 (buf : list byte) : nat * list byte :=
  (length buf, buf ++ be 4 0).

(** [buf[pos..pos + 4]] panics out of range: [None]. *)
Definition fixup_i32 (buf : list byte) (pos : nat) (v : Z) : option (list byte) :=
  if (pos + 4 <=? length buf)%nat
  then Some (take pos buf ++ be 4 v ++ drop (pos + 4) buf) else None.

(** ** The round-trip logic *)

Definition rt {A} (w : enc) (r : reader A) (v : A) : Prop :=
  ∃ bs, w = Ok bs ∧ ∀ rest, r (bs ++ rest) = Ok (v, rest).

Lemma rt_ret {A} (v : A) : rt (Ok []) (mret v) v.
Proof. by exists []. Qed.

Lemma rt_bind {A B} w1 w2 (r : reader A) (k : A → reader B) x v :
  rt w1 r x → rt w2 (k x) v → rt (w1 +++ w2) (r ≫= k) v.
Proof.
  intros (b1 & -> & H1) (b2 & -> & H2). exists (b1 ++ b2). split; [done|].
  intros rest. unfold mbind, reader_bind. by rewrite <- app_assoc, H1.
Qed.

(** The last read of a reader. *)
Lemma rt_bind_last {A B} w (r : reader A) (k : A → reader B) x v :
  rt w r x → (∀ rest, k x rest = Ok (v, rest)) → rt w (r ≫= k) v.
Proof.
  intros (b & -> & H) Hk. exists b. split; [done|]. intros rest.
  unfold mbind, reader_bind. by rewrite H.
Qed.

Lemma rt_bind_ret {A B} w (r : reader A) (f : A → B) x :
  rt w r x → rt w (r ≫= λ a, mret (f a)) (f x).
Proof. intros H. by eapply rt_bind_last. Qed.

Lemma rt_when {A B} (c : bool) w1 w2 (r : reader A) (d : A) (k : A → reader B) x v :
  (c = true → rt w1 r x) → (c = false → x = d) → rt w2 (k x) v →
  rt (when_enc c w1 +++ w2) ((if c then r else mret d) ≫= k) v.
Proof.
  intros H1 H2 H. apply rt_bind with x; [|done].
  destruct c; simpl; [by apply H1|]. rewrite H2 by done. apply rt_ret.
Qed.

Lemma rt_skip {B} w (r : reader unit) (k : unit → reader B) w2 v :
  rt w r tt → rt w2 (k tt) v → rt (w +++ w2) (r ≫= k) v.
Proof. apply rt_bind. Qed.

Lemma rt_each {A} (w : A → enc) (r : reader A) (l : list A) :
  Forall (λ a, rt (w a) r a) l → rt (write_each w l) (read_n (length l) r) l.
Proof.
  induction 1 as [|a l Ha _ IH]; simpl; [apply rt_ret|].
  apply rt_bind with a; [done|]. by apply (rt_bind_ret _ _ (cons a)).
Qed.

Create HintDb codec discriminated.
#[export] Hint Resolve rt_ret rt_each : codec.

(** *** Fixed-width integers *)

Lemma take_bytes_bind {A} n bs rest (k : list byte → reader A) :
  length bs = n → (b ← take_bytes n; k b) (bs ++ rest) = k bs rest.
Proof.
  intros <-. unfold take_bytes, mbind, reader_bind.
  by rewrite take_app_length, drop_app_length.
Qed.

Lemma require_bind {A} n bs rest (k : unit → reader A) :
  length bs = n → (require n ≫= k) (bs ++ rest) = k tt (bs ++ rest).
Proof.
  intros <-. unfold require, mbind, reader_bind. rewrite length_app.
  by destruct (Nat.ltb_spec (length bs + length rest) (length bs)); [lia|].
Qed.

Lemma rt_take {A} n bs (f : list byte → A) :
  length bs = n → rt (Ok bs) (require n;; b ← take_bytes n; mret (f b)) (f bs).
Proof.
  intros Hn. exists bs. split; [done|]. intros rest.
  rewrite require_bind by done. by rewrite (take_bytes_bind n bs rest).
Qed.

Lemma rt_sbe n v :
  (0 < n)%nat → - 2 ^ (8 * Z.of_nat n - 1) ≤ v < 2 ^ (8 * Z.of_nat n - 1) →
  rt (Ok (be n v)) (require n;; b ← take_bytes n; mret (sbe b)) v.
Proof.
  intros Hn Hv. rewrite <- (sbe_be n v Hn Hv) at 2. apply rt_take, length_be.
Qed.

Lemma rt_unbe n v :
  0 ≤ v < 256 ^ Z.of_nat n →
  rt (Ok (be n v)) (require n;; b ← take_bytes n; mret (unbe b)) v.
Proof.
  intros Hv. rewrite <- (unbe_be_small n v Hv) at 2. apply rt_take, length_be.
Qed.

Lemma rt_i8 v : i8_ok v → rt (write_i8 v) read_i8 v.
Proof. intros. apply rt_sbe; range. Qed.
Lemma rt_i16 v : i16_ok v → rt (write_i16 v) read_i16 v.
Proof. intros. apply rt_sbe; range. Qed.
Lemma rt_i32 v : i32_ok v → rt (write_i32 v) read_i32 v.
Proof. intros. apply rt_sbe; range. Qed.
Lemma rt_i64 v : i64_ok v → rt (write_i64 v) read_i64 v.
Proof. intros. apply rt_sbe; range. Qed.
Lemma rt_u8 v : u8_ok v → rt (write_u8 v) read_u8 v.
Proof. intros. apply rt_unbe; range. Qed.
Lemma rt_u32 v : u32_ok v → rt (write_u32 v) read_u32 v.
Proof. intros. apply rt_unbe; range. Qed.
Lemma rt_f64 v : u64_ok v → rt (write_f64 v) read_f64 v.
Proof. intros. apply rt_unbe; range. Qed.

Lemma rt_bool v : rt (write_bool v) read_bool v.
Proof.
  destruct v.
  - apply (rt_bind_ret _ _ (λ b, negb (b =? 0)) 1), rt_u8. range.
  - apply (rt_bind_ret _ _ (λ b, negb (b =? 0)) 0), rt_u8. range.
Qed.

#[export] Hint Resolve rt_i8 rt_i16 rt_i32 rt_i64 rt_u8 rt_u32 rt_f64 rt_bool : codec.

(** *** Varints *)

Lemma read_u8_cons b rest : read_u8 (b :: rest) = Ok (b2z b, rest).
Proof.
  unfold read_u8, require, take_bytes, mbind, reader_bind, mret, reader_ret. simpl.
  by rewrite Z.mul_1_r, Z.add_0_r.
Qed.

(** Accumulating the next 7-bit group above [shift] is an addition. *)
Lemma land_low_high x c shift :
  0 ≤ shift → 0 ≤ x < 2 ^ shift → Z.land x (c * 2 ^ shift) = 0.
Proof.
  intros Hs Hx. rewrite <- (Z.mod_small x (2 ^ shift)) by lia.
  rewrite <- Z.shiftl_mul_pow2 by lia.
  apply Z.bits_inj'; intros n Hn. rewrite Z.land_spec, Z.bits_0.
  destruct (Z.ltb_spec n shift).
  - rewrite Z.shiftl_spec_low by lia. apply andb_false_r.
  - by rewrite Z.mod_pow2_bits_high by lia.
Qed.

Lemma lor_group x c shift :
  0 ≤ shift → 0 ≤ x < 2 ^ shift → 0 ≤ c → c * 2 ^ shift < 2 ^ 64 →
  Z.lor x (wrap_u 64 (Z.shiftl c shift)) = x + c * 2 ^ shift.
Proof.
  intros Hs Hx Hc Hlt. rewrite Z.shiftl_mul_pow2 by lia.
  rewrite wrap_u_small by nia. pose proof (land_low_high x c shift Hs Hx).
  by rewrite <- Z.lxor_lor, Z.add_nocarry_lxor by done.
Qed.

Lemma land_7f v : Z.land v 0x7f = v mod 128.
Proof. exact (Z.land_ones v 7 ltac:(lia)). Qed.

Lemma land_1 v : Z.land v 1 = v mod 2.
Proof. exact (Z.land_ones v 1 ltac:(lia)). Qed.

Lemma shiftr_7 v : Z.shiftr v 7 = v / 128.
Proof. exact (Z.shiftr_div_pow2 v 7 ltac:(lia)). Qed.

(** The continuation byte of a group carries the group. *)
Lemma cont_byte v : Z.lor (Z.land v 0x7f) 0x80 = v mod 128 + 128.
Proof.
  rewrite land_7f. pose proof (Z.mod_pos_bound v 128).
  assert (Z.land (v mod 128) 128 = 0) by (apply (land_low_high _ 1 7); simpl; lia).
  by rewrite <- Z.lxor_lor, <- Z.add_nocarry_lxor by done.
Qed.

Lemma read_uvarint_loop_cont n i x shift b rest :
  0x80 ≤ b2z b →
  read_uvarint_loop (S n) i x shift (b :: rest) =
  read_uvarint_loop n (S i)
    (Z.lor x (wrap_u 64 (Z.shiftl (Z.land (b2z b) 0x7f) shift))) (shift + 7) rest.
Proof.
  intros Hb. cbn [read_uvarint_loop]. unfold mbind at 1, reader_bind at 1.
  rewrite read_u8_cons. destruct (Z.ltb_spec (b2z b) 0x80); [lia|done].
Qed.

Lemma read_uvarint_loop_last n i x shift b rest :
  b2z b < 0x80 → ((i = 9)%nat → b2z b ≤ 1) →
  read_uvarint_loop (S n) i x shift (b :: rest) =
  Ok (Z.lor x (wrap_u 64 (Z.shiftl (b2z b) shift)), rest).
Proof.
  intros Hb Hi. cbn [read_uvarint_loop]. unfold mbind at 1, reader_bind at 1.
  rewrite read_u8_cons. destruct (Z.ltb_spec (b2z b) 0x80); [|lia].
  destruct (Nat.eqb_spec i (MAX_UVARINT_LEN - 1)); simpl; [|done].
  destruct (Z.ltb_spec 1 (b2z b)); [|done]. specialize (Hi ltac:(done)). lia.
Qed.

(** Invariant of the two loops: [i] groups are done, [x] holds their value and
    [v] is what remains. *)
Lemma uvarint_loop_rt i n x v rest :
  (i + n = 10)%nat → (0 < n)%nat → 0 ≤ v < 2 ^ (64 - 7 * Z.of_nat i) →
  0 ≤ x < 2 ^ (7 * Z.of_nat i) →
  read_uvarint_loop n i x (7 * Z.of_nat i) (write_uvarint_loop n v ++ rest)
  = Ok (x + v * 2 ^ (7 * Z.of_nat i), rest).
Proof.
  revert i x v. induction n as [|n IH]; intros i x v Hin Hn Hv Hx; [lia|].
  assert (2 ^ (64 - 7 * Z.of_nat i) * 2 ^ (7 * Z.of_nat i) = 2 ^ 64) as Hpow
    by (rewrite <- Z.pow_add_r by lia; f_equal; lia).
  cbn [write_uvarint_loop]. destruct (Z.leb_spec 0x80 v); cbn [app].
  - assert (0 < n)%nat as Hn'.
    { destruct n; [|lia]. assert (i = 9)%nat as -> by lia. simpl in Hv. lia. }
    assert (b2z (z2b (Z.lor (Z.land v 0x7f) 0x80)) = v mod 128 + 128) as Hb.
    { rewrite cont_byte, b2z_z2b. apply Z.mod_small.
      pose proof (Z.mod_pos_bound v 128). lia. }
    pose proof (Z.mod_pos_bound v 128) as Hm.
    pose proof (Z.div_mod v 128) as Hdm.
    rewrite read_uvarint_loop_cont by lia. rewrite Hb, land_7f.
    replace ((v mod 128 + 128) mod 128) with (v mod 128)
      by (rewrite Z.add_mod, Z.mod_same, Z.add_0_r, !Z.mod_mod; lia).
    assert (v mod 128 * 2 ^ (7 * Z.of_nat i) < 2 ^ 64) by nia.
    rewrite lor_group by lia.
    replace (7 * Z.of_nat i + 7) with (7 * Z.of_nat (S i)) by lia.
    assert (2 ^ (7 * Z.of_nat (S i)) = 128 * 2 ^ (7 * Z.of_nat i)) as Hpi.
    { replace (7 * Z.of_nat (S i)) with (7 + 7 * Z.of_nat i) by lia.
      by rewrite Z.pow_add_r by lia. }
    assert (2 ^ (64 - 7 * Z.of_nat i) = 128 * 2 ^ (64 - 7 * Z.of_nat (S i))) as Hpv.
    { replace (64 - 7 * Z.of_nat i) with (7 + (64 - 7 * Z.of_nat (S i))) by lia.
      by rewrite Z.pow_add_r by lia. }
    rewrite shiftr_7, IH; [do 2 f_equal; rewrite Hpi; nia|lia|done| |nia].
    split; [apply Z.div_pos; lia|]. apply Z.div_lt_upper_bound; lia.
  - assert (b2z (z2b (Z.land v 0x7f)) = v) as Hb.
    { rewrite land_7f, b2z_z2b. rewrite (Z.mod_small v 128) by lia.
      apply Z.mod_small. lia. }
    rewrite read_uvarint_loop_last; [rewrite Hb, lor_group by nia; done|lia|].
    intros ->. simpl in Hv. lia.
Qed.

Lemma rt_uvarint v : u64_ok v → rt (write_uvarint v) read_uvarint v.
Proof.
  intros Hv. eexists. split; [done|]. intros rest. unfold read_uvarint.
  pose proof (uvarint_loop_rt 0 10 0 v rest) as H.
  change (7 * Z.of_nat 0) with 0 in H. rewrite Z.pow_0_r, Z.mul_1_r in H.
  apply H; clear H; [done|lia|range|lia].
Qed.

(** *** ZigZag *)

Lemma lxor_ones_u64 a :
  0 ≤ a < 2 ^ 64 → Z.lxor a (2 ^ 64 - 1) = 2 ^ 64 - 1 - a.
Proof.
  intros Ha. change (2 ^ 64 - 1) with (Z.ones 64).
  rewrite Z.sub_nocarry_ldiff.
  - apply Z.bits_inj'; intros n Hn.
    rewrite Z.lxor_spec, Z.ldiff_spec. destruct (Z.ltb_spec n 64).
    + rewrite Z.ones_spec_low by lia. by destruct (Z.testbit a n).
    + rewrite Z.ones_spec_high by lia.
      rewrite <- (Z.mod_small a (2 ^ 64)), Z.mod_pow2_bits_high by lia. done.
  - apply Z.bits_inj'; intros n Hn. rewrite Z.ldiff_spec, Z.bits_0.
    destruct (Z.ltb_spec n 64).
    + rewrite Z.ones_spec_low by lia. apply andb_false_r.
    + rewrite <- (Z.mod_small a (2 ^ 64)), Z.mod_pow2_bits_high by lia. done.
Qed.

Lemma shiftr_63 n :
  i64_ok n → Z.shiftr n 63 = if 0 <=? n then 0 else -1.
Proof.
  intros Hn. rewrite Z.shiftr_div_pow2 by lia.
  destruct (Z.leb_spec 0 n).
  - apply Z.div_small. range.
  - symmetry. apply (Z.div_unique _ _ _ (n + 2 ^ 63)); range.
Qed.

Lemma zigzag_encode_val n :
  i64_ok n → zigzag_encode n = if 0 <=? n then 2 * n else - 2 * n - 1.
Proof.
  intros Hn. unfold zigzag_encode. rewrite shiftr_63 by done.
  rewrite Z.shiftl_mul_pow2 by lia.
  destruct (Z.leb_spec 0 n).
  - rewrite Z.lxor_0_r, wrap_u_wrap_s by lia. rewrite wrap_u_small; range.
  - rewrite Z.lxor_m1_r. unfold Z.lnot, wrap_u. rewrite <- Z.sub_1_r.
    destruct (wrap_s_shift 64 (n * 2 ^ 1)) as [k ->]; [done|].
    replace (- (n * 2 ^ 1 + k * 2 ^ 64) - 1) with (- 2 * n - 1 + (- k) * 2 ^ 64) by lia.
    rewrite Z.mod_add, Z.mod_small; range.
Qed.

Lemma zigzag_rt n : i64_ok n → zigzag_decode (zigzag_encode n) = n.
Proof.
  intros Hn. rewrite zigzag_encode_val by done. unfold zigzag_decode.
  rewrite land_1, Z.shiftr_div_pow2, Z.pow_1_r by lia.
  destruct (Z.leb_spec 0 n).
  - rewrite (Z.mul_comm 2 n), Z.div_mul, Z.mod_mul by lia.
    change (- 0) with 0. unfold wrap_u. rewrite Z.mod_0_l, Z.lxor_0_r by lia.
    apply wrap_s_small; range.
  - assert (- 2 * n - 1 = (- n - 1) * 2 + 1) as -> by lia.
    rewrite Z.div_add_l, (Z.add_comm ((- n - 1) * 2) 1), Z.mod_add by lia.
    change (1 / 2) with 0. change (1 mod 2) with 1. rewrite Z.add_0_r.
    change (wrap_u 64 (- (1))) with (2 ^ 64 - 1).
    rewrite lxor_ones_u64 by range.
    assert (2 ^ 64 - 1 - (- n - 1) = n + 1 * 2 ^ 64) as -> by lia.
    unfold wrap_s. rewrite <- Z.add_assoc, (Z.add_comm (1 * 2 ^ 64)), Z.add_assoc.
    rewrite Z.mod_add by lia. apply (wrap_s_small 64); range.
Qed.

Lemma zigzag_encode_u64 n : i64_ok n → u64_ok (zigzag_encode n).
Proof. intros Hn. rewrite zigzag_encode_val by done. case_match; range. Qed.

Lemma rt_varint v : i64_ok v → rt (write_varint v) read_varint v.
Proof.
  intros Hv. rewrite <- (zigzag_rt v Hv) at 2.
  apply (rt_bind_ret _ _ zigzag_decode), rt_uvarint, zigzag_encode_u64, Hv.
Qed.

#[export] Hint Resolve rt_uvarint rt_varint : codec.

(** *** Strings, bytes, arrays *)

Definition str_ok (s : string) : Prop := valid_utf8 (as_bytes s) = true.

Lemma from_utf8_ok s : str_ok s → from_utf8 (as_bytes s) = mret s.
Proof. unfold str_ok, from_utf8. intros ->. by rewrite of_as_bytes. Qed.

Lemma take_drop_app (bs rest : list byte) :
  take (length bs) (bs ++ rest) = bs ∧ drop (length bs) (bs ++ rest) = rest.
Proof. by rewrite take_app_length, drop_app_length. Qed.

(** A prefixed field round-trips when its prefix does and the reader takes the
    announced number of bytes. *)
Lemma rt_prefixed {A} len n w (r : reader Z) (k : Z → reader A) b v :
  len = Ok n → rt (w n) r n → (∀ rest, k n (b ++ rest) = Ok (v, rest)) →
  rt (prefixed len w b) (r ≫= k) v.
Proof.
  intros -> Hw Hk. apply rt_bind with n; [done|]. by exists b.
Qed.

Lemma rt_nullable_some {A} w (r : reader (option A)) v :
  rt w r (Some v) → rt w (non_null r) v.
Proof.
  intros (b & -> & H). exists b. split; [done|]. intros rest.
  unfold non_null, mbind, reader_bind. by rewrite H.
Qed.

Lemma len_i16_ok n : Z.of_nat n ≤ i16_max → len_i16 n = Ok (Z.of_nat n).
Proof. intros. unfold len_i16. by destruct (Z.leb_spec (Z.of_nat n) i16_max); [|lia]. Qed.
Lemma len_i32_ok n : Z.of_nat n ≤ i32_max → len_i32 n = Ok (Z.of_nat n).
Proof. intros. unfold len_i32. by destruct (Z.leb_spec (Z.of_nat n) i32_max); [|lia]. Qed.
Lemma compact_len_ok n : Z.of_nat n < u64_max → compact_len_u64 n = Ok (Z.of_nat n + 1).
Proof.
  intros. unfold compact_len_u64.
  by destruct (Z.leb_spec (Z.of_nat n + 1) u64_max); [|lia].
Qed.

Lemma checked_compact_len_ok n m :
  (n ≤ m)%nat → checked_compact_len (Z.of_nat n + 1) m = Ok n.
Proof.
  intros. unfold checked_compact_len.
  destruct (Z.ltb_spec (Z.of_nat m) (Z.of_nat n + 1 - 1)); [lia|].
  f_equal. lia.
Qed.

Lemma rt_string_some s :
  str_ok s → Z.of_nat (length (as_bytes s)) ≤ i16_max →
  rt (write_string s) read_nullable_string (Some s).
Proof.
  intros Hs Hl. eapply rt_prefixed; [by apply len_i16_ok|apply rt_i16; range|].
  intros rest. destruct (Z.ltb_spec (Z.of_nat (length (as_bytes s))) 0); [lia|].
  rewrite Nat2Z.id, require_bind, take_bytes_bind by done.
  by rewrite from_utf8_ok.
Qed.

Lemma rt_nullable_string o :
  (∀ s, o = Some s → str_ok s ∧ Z.of_nat (length (as_bytes s)) ≤ i16_max) →
  rt (write_nullable_string o) read_nullable_string o.
Proof.
  destruct o as [s|]; intros H.
  - by apply rt_string_some; apply (H s).
  - destruct (rt_i16 (-1)) as (b & Hb & Hr); [range|]. exists b. split; [done|].
    intros rest. unfold read_nullable_string, mbind, reader_bind. by rewrite Hr.
Qed.

Lemma rt_string s :
  str_ok s → Z.of_nat (length (as_bytes s)) ≤ i16_max →
  rt (write_string s) read_string s.
Proof. intros. by apply rt_nullable_some, rt_string_some. Qed.

(** The common part of the compact readers: prefix, length check, bytes. *)
Lemma rt_compact {A} b (k : list byte → reader A) v :
  Z.of_nat (length b) < u64_max → (∀ rest, k b rest = Ok (v, rest)) →
  rt (prefixed (compact_len_u64 (length b)) write_uvarint b)
    (u ← read_uvarint;
     if u =? 0 then mret None
     else rem ← remaining; len ← lift (checked_compact_len u rem);
       b ← take_bytes len; x ← k b; mret (Some x)) (Some v).
Proof.
  intros Hl Hk. eapply rt_prefixed; [by apply compact_len_ok|apply rt_uvarint; range|].
  intros rest. destruct (Z.eqb_spec (Z.of_nat (length b) + 1) 0); [lia|].
  unfold remaining, lift. unfold mbind at 1 2, reader_bind at 1 2. simpl.
  rewrite checked_compact_len_ok by (rewrite length_app; lia).
  rewrite take_bytes_bind by done. unfold mbind, reader_bind. by rewrite Hk.
Qed.

Lemma rt_compact_string_some s :
  str_ok s → Z.of_nat (length (as_bytes s)) < u64_max →
  rt (write_compact_string s) read_compact_nullable_string (Some s).
Proof. intros Hs Hl. apply rt_compact; [done|]. by rewrite from_utf8_ok. Qed.

Lemma rt_uvarint_null {A} (k : Z → reader A) v :
  (∀ rest, k 0 rest = Ok (v, rest)) → rt (write_uvarint 0) (read_uvarint ≫= k) v.
Proof. apply rt_bind_last, rt_uvarint. range. Qed.

Lemma rt_compact_nullable_string o :
  (∀ s, o = Some s → str_ok s ∧ Z.of_nat (length (as_bytes s)) < u64_max) →
  rt (write_compact_nullable_string o) read_compact_nullable_string o.
Proof.
  destruct o as [s|]; intros H.
  - by apply rt_compact_string_some; apply (H s).
  - by apply rt_uvarint_null.
Qed.

Lemma rt_compact_string s :
  str_ok s → Z.of_nat (length (as_bytes s)) < u64_max →
  rt (write_compact_string s) read_compact_string s.
Proof. intros. by apply rt_nullable_some, rt_compact_string_some. Qed.

Lemma rt_bytes_some b :
  Z.of_nat (length b) ≤ i32_max → rt (write_bytes b) read_nullable_bytes (Some b).
Proof.
  intros Hl. eapply rt_prefixed; [by apply len_i32_ok|apply rt_i32; range|].
  intros rest. destruct (Z.ltb_spec (Z.of_nat (length b)) 0); [lia|].
  by rewrite Nat2Z.id, require_bind, take_bytes_bind by done.
Qed.

Lemma rt_nullable_bytes o :
  (∀ b, o = Some b → Z.of_nat (length b) ≤ i32_max) →
  rt (write_nullable_bytes o) read_nullable_bytes o.
Proof.
  destruct o as [b|]; intros H; [by apply rt_bytes_some, H|].
  destruct (rt_i32 (-1)) as (b & Hb & Hr); [range|]. exists b. split; [done|].
  intros rest. unfold read_nullable_bytes, mbind, reader_bind. by rewrite Hr.
Qed.

Lemma rt_bytes b : Z.of_nat (length b) ≤ i32_max → rt (write_bytes b) read_bytes b.
Proof. intros. by apply rt_nullable_some, rt_bytes_some. Qed.

Lemma rt_compact_bytes_some b :
  Z.of_nat (length b) < u64_max →
  rt (write_compact_bytes b) read_compact_nullable_bytes (Some b).
Proof. intros Hl. exact (rt_compact b mret b Hl (λ _, eq_refl)). Qed.

Lemma rt_compact_nullable_bytes o :
  (∀ b, o = Some b → Z.of_nat (length b) < u64_max) →
  rt (write_compact_nullable_bytes o) read_compact_nullable_bytes o.
Proof.
  destruct o as [b|]; intros H; [by apply rt_compact_bytes_some, H|].
  by apply rt_uvarint_null.
Qed.

Lemma rt_compact_bytes b :
  Z.of_nat (length b) < u64_max → rt (write_compact_bytes b) read_compact_bytes b.
Proof. intros. by apply rt_nullable_some, rt_compact_bytes_some. Qed.

Lemma rt_array_len n : Z.of_nat n ≤ i32_max → rt (write_array_len n) read_array_len n.
Proof.
  intros Hl. unfold write_array_len. rewrite len_i32_ok by done.
  destruct (rt_i32 (Z.of_nat n)) as (b & Hb & Hr); [range|]. exists b. split; [done|].
  intros rest. unfold read_array_len, mbind, reader_bind. rewrite Hr.
  destruct (Z.ltb_spec (Z.of_nat n) 0); [lia|]. by rewrite Nat2Z.id.
Qed.

Lemma rt_compact_array_len n :
  Z.of_nat n < u64_max → rt (write_compact_array_len n) read_compact_array_len n.
Proof.
  intros Hl. unfold write_compact_array_len. rewrite compact_len_ok by done.
  destruct (rt_uvarint (Z.of_nat n + 1)) as (b & Hb & Hr); [range|].
  exists b. split; [done|]. intros rest.
  unfold read_compact_array_len, mbind, reader_bind. rewrite Hr.
  destruct (Z.eqb_spec (Z.of_nat n + 1) 0); [lia|].
  unfold mret, reader_ret. do 2 f_equal. lia.
Qed.

Lemma rt_uuid v : length v = 16%nat → rt (write_uuid v) read_uuid v.
Proof.
  intros Hn. exists v. split; [done|]. intros rest. unfold read_uuid.
  rewrite require_bind by done. unfold take_bytes. rewrite <- Hn.
  by rewrite take_app_length, drop_app_length.
Qed.

#[export] Hint Resolve rt_string rt_nullable_string rt_compact_string
  rt_compact_nullable_string rt_bytes rt_nullable_bytes rt_compact_bytes
  rt_compact_nullable_bytes rt_array_len rt_compact_array_len rt_uuid : codec.

#[global] Arguments write_uvarint : simpl never.
#[global] Arguments read_uvarint : simpl never.

(** *** Bounds of the varint loops *)

Lemma read_u8_inv buf b rest :
  read_u8 buf = Ok (b, rest) → ∃ c, buf = c :: rest ∧ b = b2z c.
Proof.
  destruct buf as [|c buf]; [done|]. rewrite read_u8_cons. naive_solver.
Qed.

(** One group more stays below the width, unless it is the tenth byte. *)
Lemma group_bound x b i :
  (i ≤ 9)%nat → 0 ≤ x < 2 ^ (7 * Z.of_nat i) → 0 ≤ b < 128 → ((i = 9)%nat → b ≤ 1) →
  b * 2 ^ (7 * Z.of_nat i) < 2 ^ 64 ∧ x + b * 2 ^ (7 * Z.of_nat i) < 2 ^ 64.
Proof.
  intros Hi Hx Hb H9. destruct (decide (i = 9%nat)) as [->|Hne].
  - specialize (H9 eq_refl). change (7 * Z.of_nat 9) with 63 in *. lia.
  - assert (2 ^ (7 * Z.of_nat i) ≤ 2 ^ 56) by (apply Z.pow_le_mono_r; lia).
    assert (b * 2 ^ (7 * Z.of_nat i) ≤ 127 * 2 ^ 56) by (apply Z.mul_le_mono_nonneg; lia).
    lia.
Qed.

Lemma read_uvarint_loop_bound n i x buf v rest :
  (i + n = 10)%nat → 0 ≤ x < 2 ^ (7 * Z.of_nat i) →
  read_uvarint_loop n i x (7 * Z.of_nat i) buf = Ok (v, rest) →
  u64_ok v ∧ ∃ pre, buf = pre ++ rest ∧ (1 ≤ length pre ≤ n)%nat.
Proof.
  revert i x buf. induction n as [|n IH]; intros i x buf Hin Hx; [done|].
  cbn [read_uvarint_loop]. unfold mbind at 1, reader_bind at 1.
  destruct (read_u8 buf) as [[b buf']|] eqn:E; [|done].
  apply read_u8_inv in E as (c & -> & ->). pose proof (b2z_range c) as Hc.
  destruct (Z.ltb_spec (b2z c) 0x80) as [Hlt|Hge].
  - destruct (Nat.eqb_spec i (MAX_UVARINT_LEN - 1)) as [H9|H9]; simpl.
    + destruct (Z.ltb_spec 1 (b2z c)); [done|]. intros [= <- <-].
      destruct (group_bound x (b2z c) i) as [? ?]; try lia.
      rewrite lor_group by lia. split; [range|]. exists [c]. split; [done|simpl; lia].
    + intros [= <- <-]. change (MAX_UVARINT_LEN - 1)%nat with 9%nat in H9.
      destruct (group_bound x (b2z c) i) as [? ?]; try lia.
      rewrite lor_group by lia. split; [range|]. exists [c]. split; [done|simpl; lia].
  - destruct (decide (i = 9%nat)) as [->|Hne].
    { assert (n = 0%nat) as -> by lia. done. }
    rewrite land_7f. pose proof (Z.mod_pos_bound (b2z c) 128).
    destruct (group_bound x (b2z c mod 128) i) as [? ?]; try lia.
    rewrite lor_group by lia.
    replace (7 * Z.of_nat i + 7) with (7 * Z.of_nat (S i)) by lia.
    assert (2 ^ (7 * Z.of_nat (S i)) = 128 * 2 ^ (7 * Z.of_nat i)).
    { replace (7 * Z.of_nat (S i)) with (7 + 7 * Z.of_nat i) by lia.
      by rewrite Z.pow_add_r by lia. }
    intros HR. apply IH in HR as [? (pre & -> & ?)]; [|lia|nia].
    split; [done|]. exists (c :: pre). split; [done|simpl; lia].
Qed.

Lemma read_uvarint_loop_err n i x shift buf e :
  read_uvarint_loop n i x shift buf = Err e → e = UnexpectedEof ∨ e = InvalidUvarint.
Proof.
  revert i x shift buf. induction n as [|n IH]; intros i x shift buf.
  { intros [= <-]. by right. }
  cbn [read_uvarint_loop]. unfold mbind at 1, reader_bind at 1.
  destruct buf as [|c buf]; [intros [= <-]; by left|]. rewrite read_u8_cons.
  case_match; [|apply IH]. case_match; [|done]. intros [= <-]. by right.
Qed.

(** The writer's fuel: more iterations change nothing, and it emits at most
    ten bytes. *)
Lemma write_uvarint_fuel n k v :
  (0 < n)%nat → 0 ≤ v < 2 ^ (7 * Z.of_nat n) →
  write_uvarint_loop (n + k) v = write_uvarint_loop n v.
Proof.
  revert v. induction n as [|n IH]; intros v Hn Hv; [lia|].
  simpl. destruct (Z.leb_spec 0x80 v); [|done].
  rewrite shiftr_7. f_equal. destruct n as [|n]; [simpl in *; lia|].
  apply IH; [lia|]. split; [apply Z.div_pos; lia|].
  apply Z.div_lt_upper_bound; [lia|].
  replace (7 * Z.of_nat (S (S n))) with (7 + 7 * Z.of_nat (S n)) in Hv by lia.
  rewrite Z.pow_add_r in Hv by lia. lia.
Qed.

Lemma write_uvarint_length n v :
  (Nat.min 1 n ≤ length (write_uvarint_loop n v) ≤ n)%nat.
Proof.
  revert v. induction n as [|n IH]; intros v; simpl; [lia|].
  case_match; simpl; [specialize (IH (Z.shiftr v 7))|]; lia.
Qed.

(** ** Properties *)

(** Every [u64] survives [write_uvarint] then [read_uvarint], in at most ten
    bytes, and the reader stops exactly where the writer did; the bound of ten
    iterations is enough (more fuel writes the same bytes). *)
Theorem uvarint_roundtrip v :
  u64_ok v →
  ∃ bs, write_uvarint v = Ok bs ∧ (1 ≤ length bs ≤ 10)%nat ∧
    (∀ rest, read_uvarint (bs ++ rest) = Ok (v, rest)) ∧
    (∀ k, write_uvarint_loop (MAX_UVARINT_LEN + k) v = bs).
Proof.
  intros Hv. destruct (rt_uvarint v Hv) as (bs & Hw & Hr). exists bs.
  apply (inj Ok) in Hw. subst bs. split; [done|]. split; [|split; [done|]].
  - exact (write_uvarint_length MAX_UVARINT_LEN v).
  - intros k. apply write_uvarint_fuel; [compute; lia|]. unfold u64_ok in Hv.
    change (2 ^ (7 * Z.of_nat MAX_UVARINT_LEN)) with 1180591620717411303424. lia.
Qed.

Lemma uvarint_roundtrip_witness :
  u64_ok 300 ∧ read_uvarint ([xac; x02] ++ [x07]) = Ok (300, [x07]).
Proof.
  assert (u64_ok 300) as H by (unfold u64_ok; lia). split; [exact H|].
  destruct (uvarint_roundtrip 300 H) as (bs & Hw & _ & Hr & _).
  apply (inj Ok) in Hw. rewrite <- Hw in Hr. exact (Hr [x07]).
Defined.

(** Whatever bytes arrive, [read_uvarint] either reports an error or returns
    a value that fits in a [u64] after consuming between one and ten bytes: a
    malformed varint can neither overflow the accumulator nor run on. *)
Theorem read_uvarint_bounded buf :
  match read_uvarint buf with
  | Ok (v, rest) => u64_ok v ∧ ∃ pre, buf = pre ++ rest ∧ (1 ≤ length pre ≤ 10)%nat
  | Err e => e = UnexpectedEof ∨ e = InvalidUvarint
  end.
Proof.
  destruct (read_uvarint buf) as [[v rest]|e] eqn:E.
  - apply (read_uvarint_loop_bound 10 0 0); [done|simpl; lia|done].
  - exact (read_uvarint_loop_err _ _ _ _ _ _ E).
Qed.

(** ZigZag varints are lossless on the whole [i64] range. *)
Theorem varint_roundtrip v :
  i64_ok v → rt (write_varint v) read_varint v ∧ zigzag_decode (zigzag_encode v) = v.
Proof. auto using rt_varint, zigzag_rt. Qed.

Lemma varint_roundtrip_witness : zigzag_decode (zigzag_encode (-9223372036854775808)) = -9223372036854775808.
Proof. apply (varint_roundtrip (-9223372036854775808)). unfold i64_ok; lia. Defined.

(** Both string encodings, nullable or not, give back every valid UTF-8
    string that fits; the legacy (i16) writer refuses a string of more than
    32767 bytes instead of truncating its length. *)
Theorem string_roundtrip o :
  (∀ s, o = Some s → str_ok s ∧ Z.of_nat (length (as_bytes s)) < u64_max) →
  rt (write_compact_nullable_string o) read_compact_nullable_string o ∧
  match o with
  | Some s =>
    if Z.of_nat (length (as_bytes s)) <=? i16_max
    then rt (write_nullable_string o) read_nullable_string o
    else write_nullable_string o = Err LengthOverflow
  | None => rt (write_nullable_string o) read_nullable_string o
  end.
Proof.
  intros H. split; [by apply rt_compact_nullable_string|].
  destruct o as [s|]; [|by apply rt_nullable_string].
  destruct (H s eq_refl) as [Hs _].
  destruct (Z.leb_spec (Z.of_nat (length (as_bytes s))) i16_max).
  - apply rt_nullable_string. intros ? [= <-]. done.
  - simpl. unfold write_string, len_i16.
    by destruct (Z.leb_spec (Z.of_nat (length (as_bytes s))) i16_max); [lia|].
Qed.

Lemma string_roundtrip_witness :
  rt (write_nullable_string (Some "kaas"%string)) read_nullable_string (Some "kaas"%string).
Proof.
  refine (proj2 (string_roundtrip (Some "kaas"%string) _)).
  intros s [= <-]. split; [reflexivity|vm_compute; reflexivity].
Defined.
