(* ===== verification/Wire.v ===== *)
(** * Framing, headers and shared codec helpers

    [tagged.rs] (KIP-482 tagged fields), [headers.rs] (request and response
    headers), [frame.rs] (length-prefixed frames), [api/common.rs] (helpers that
    switch between the legacy and the flexible encodings), [crc.rs] (the batch
    checksum; the CRC-32C function itself is the [crc32c] crate, a parameter) and
    [recordbatch_count.rs] (counting records without decoding them). *)

From stdpp Require Import base gmap strings list.
From Stdlib Require Import Strings.Byte.
From S2P Require Import Prelude Primitives.

Local Open Scope Z_scope.

(** ** Tagged fields *)

Module Tagged.

Record TaggedField := { tag : Z; value : list byte }.

(** [buf.split_to(size)] after the bound check. *)
Definition split_to (size : Z) : reader (list byte) :=
  rem ← remaining;
  if Z.of_nat rem <? size then fail UnexpectedEof else take_bytes (Z.to_nat size).

Definition read_field : reader TaggedField :=
  t ← read_uvarint; size ← read_uvarint; v ← split_to size;
  mret {| tag := t; value := v |}.

(** [read]: every field is consumed and discarded. *)
Definition read : reader unit :=
  n ← read_uvarint; _ ← read_n (Z.to_nat n) read_field; mret tt.

Definition read_into : reader (list TaggedField) :=
  n ← read_uvarint; read_n (Z.to_nat n) read_field.

Definition write_empty : enc := write_uvarint 0.

Definition write_field (f : TaggedField) : enc :=
  write_uvarint (tag f) +++ write_uvarint (Z.of_nat (length (value f))) +++ Ok (value f).

Definition write (fields : list TaggedField) : enc :=
  write_uvarint (Z.of_nat (length fields)) +++ write_each write_field fields.

Definition field_ok (f : TaggedField) : Prop :=
  u64_ok (tag f) ∧ Z.of_nat (length (value f)) ≤ u64_max.

Lemma rt_split_to b : rt (Ok b) (split_to (Z.of_nat (length b))) b.
Proof.
  exists b. split; [done|]. intros rest.
  unfold split_to, remaining, mbind, reader_bind. rewrite length_app.
  destruct (Z.ltb_spec (Z.of_nat (length b + length rest)) (Z.of_nat (length b))); [lia|].
  unfold take_bytes. by rewrite Nat2Z.id, take_app_length, drop_app_length.
Qed.

Lemma rt_field f : field_ok f → rt (write_field f) read_field f.
Proof.
  intros [Ht Hl]. destruct f as [t v]. unfold write_field, read_field, field_ok in *; cbn [tag value] in *.
  eapply rt_bind; [by apply rt_uvarint|].
  eapply rt_bind; [apply rt_uvarint; range|].
  apply (rt_bind_ret _ _ (λ v, {| tag := t; value := v |})), rt_split_to.
Qed.

Lemma rt_fields fields :
  Z.of_nat (length fields) ≤ u64_max → Forall field_ok fields →
  rt (write fields) read_into fields.
Proof.
  intros Hl Hf. eapply rt_bind; [apply rt_uvarint; range|]. cbn beta.
  rewrite Nat2Z.id. apply rt_each. eapply Forall_impl; [done|]. apply rt_field.
Qed.

(** A block of tagged fields of any content is skipped exactly. *)
Lemma rt_skip_fields fields :
  Z.of_nat (length fields) ≤ u64_max → Forall field_ok fields →
  rt (write fields) read tt.
Proof.
  intros Hl Hf. eapply rt_bind; [apply rt_uvarint; range|]. cbn beta.
  rewrite Nat2Z.id. apply (rt_bind_ret _ _ (λ _, tt) fields), rt_each.
  eapply Forall_impl; [done|]. apply rt_field.
Qed.

Lemma rt_empty : rt write_empty read tt.
Proof. apply (rt_uvarint_null _ tt). done. Qed.

(** The closing tagged block of a flexible message. *)
Lemma rt_tail {A} (flexible : bool) (v : A) :
  rt (when_enc flexible write_empty)
    ((if flexible then read else mret tt);; mret v) v.
Proof.
  destruct flexible; [|apply rt_ret]. apply (rt_bind_ret _ _ (λ _, v) tt), rt_empty.
Qed.

End Tagged.

#[export] Hint Resolve Tagged.rt_empty Tagged.rt_tail Tagged.rt_fields : codec.

(** ** Headers *)

Inductive HeaderVersion := V0 | V1 | V2.

#[global] Instance HeaderVersion_eq_dec : EqDecision HeaderVersion.
Proof. solve_decision. Defined.

Record RequestHeader := {
  api_key : Z; api_version : Z; correlation_id : Z; client_id : option string }.

Record ResponseHeader := { resp_correlation_id : Z }.

Definition decode_request_header (version : HeaderVersion) : reader RequestHeader :=
  k ← read_i16; v ← read_i16; c ← read_i32;
  id ← (if bool_decide (version ≠ V0) then read_nullable_string else mret None);
  (if bool_decide (version = V2) then Tagged.read else mret tt);;
  mret {| api_key := k; api_version := v; correlation_id := c; client_id := id |}.

Definition encode_request_header (hdr : RequestHeader) (version : HeaderVersion) : enc :=
  write_i16 (api_key hdr) +++ write_i16 (api_version hdr) +++
  write_i32 (correlation_id hdr) +++
  when_enc (bool_decide (version ≠ V0)) (write_nullable_string (client_id hdr)) +++
  when_enc (bool_decide (version = V2)) Tagged.write_empty.

Definition decode_response_header (version : HeaderVersion) : reader ResponseHeader :=
  c ← read_i32;
  (if bool_decide (version ≠ V0) then Tagged.read else mret tt);;
  mret {| resp_correlation_id := c |}.

Definition encode_response_header (hdr : ResponseHeader) (version : HeaderVersion) : enc :=
  write_i32 (resp_correlation_id hdr) +++
  when_enc (bool_decide (version ≠ V0)) Tagged.write_empty.

(** ** The API table's row ([registry.rs]) *)

Record ApiSpec := {
  key : Z; min_version : Z; max_version : Z; min_flexible : option Z;
  request_hdr : Z → HeaderVersion; response_hdr : Z → HeaderVersion }.

Definition is_flexible (s : ApiSpec) (version : Z) : bool :=
  match min_flexible s with Some min => min <=? version | None => false end.

(** [header_for] of every API module: flexible versions use the v2 header. *)
Definition header_from (min : Z) (version : Z) : HeaderVersion :=
  if min <=? version then V2 else V1.

Definition spec_row (k lo hi flex : Z) : ApiSpec :=
  {| key := k; min_version := lo; max_version := hi; min_flexible := Some flex;
     request_hdr := header_from flex; response_hdr := header_from flex |}.

(** Rows whose response header has a mapping of its own. *)
Definition row_with (k lo hi : Z) (flex : option Z) (rq rs : Z → HeaderVersion) : ApiSpec :=
  {| key := k; min_version := lo; max_version := hi; min_flexible := flex;
     request_hdr := rq; response_hdr := rs |}.

(** ** Legacy or flexible fields ([api/common.rs]) *)

Module Common.

Definition read_str (flexible : bool) : reader string :=
  if flexible then read_compact_string else read_string.
Definition read_nullable_str (flexible : bool) : reader (option string) :=
  if flexible then read_compact_nullable_string else read_nullable_string.
Definition write_str (s : string) (flexible : bool) : enc :=
  if flexible then write_compact_string s else write_string s.
Definition write_nullable_str (s : option string) (flexible : bool) : enc :=
  if flexible then write_compact_nullable_string s else write_nullable_string s.
Definition read_array_len (flexible : bool) : reader nat :=
  if flexible then read_compact_array_len else Primitives.read_array_len.
Definition write_array_len (count : nat) (flexible : bool) : enc :=
  if flexible then write_compact_array_len count else Primitives.write_array_len count.
Definition read_nullable_bytes (flexible : bool) : reader (option (list byte)) :=
  if flexible then read_compact_nullable_bytes else Primitives.read_nullable_bytes.
Definition write_nullable_bytes (b : option (list byte)) (flexible : bool) : enc :=
  if flexible then write_compact_nullable_bytes b else Primitives.write_nullable_bytes b.

(** Non-nullable bytes: [if flexible { compact } else { legacy }]. *)
Definition read_flex_bytes (flexible : bool) : reader (list byte) :=
  if flexible then read_compact_bytes else read_bytes.
Definition write_flex_bytes (b : list byte) (flexible : bool) : enc :=
  if flexible then write_compact_bytes b else write_bytes b.

(** What fits in either encoding. *)
Definition wire_str (s : string) : Prop :=
  str_ok s ∧ Z.of_nat (length (as_bytes s)) ≤ i16_max.
Definition wire_opt_str (o : option string) : Prop := ∀ s, o = Some s → wire_str s.
Definition wire_len {A} (l : list A) : Prop := Z.of_nat (length l) ≤ i32_max.
Definition wire_opt_bytes (o : option (list byte)) : Prop := ∀ b, o = Some b → wire_len b.
Definition uuid_ok (v : list byte) : Prop := length v = 16%nat.

Lemma rt_str s flexible : wire_str s → rt (write_str s flexible) (read_str flexible) s.
Proof.
  intros [Hs Hl]. destruct flexible; [apply rt_compact_string|apply rt_string]; range || done.
Qed.

Lemma rt_nullable_str s flexible :
  wire_opt_str s → rt (write_nullable_str s flexible) (read_nullable_str flexible) s.
Proof.
  intros H. destruct flexible;
    [apply rt_compact_nullable_string|apply rt_nullable_string];
    intros s' Hs; destruct (H s' Hs); split; range || done.
Qed.

Lemma rt_bytes_flex b flexible :
  wire_opt_bytes b →
  rt (write_nullable_bytes b flexible) (read_nullable_bytes flexible) b.
Proof.
  unfold wire_opt_bytes, wire_len. intros H. destruct flexible;
    [apply rt_compact_nullable_bytes|apply Primitives.rt_nullable_bytes];
    intros x Hx; specialize (H x Hx); range.
Qed.

Lemma rt_flex_bytes b flexible :
  wire_len b → rt (write_flex_bytes b flexible) (read_flex_bytes flexible) b.
Proof.
  unfold wire_len. intros H.
  destruct flexible; [apply rt_compact_bytes|apply rt_bytes]; range.
Qed.

Lemma rt_len {A} (l : list A) flexible :
  wire_len l → rt (write_array_len (length l) flexible) (read_array_len flexible) (length l).
Proof.
  unfold wire_len. intros H.
  destruct flexible; [apply rt_compact_array_len|apply rt_array_len]; range.
Qed.

(** An array: its length, then each element. *)
Definition read_array {A} (flexible : bool) (r : reader A) : reader (list A) :=
  n ← read_array_len flexible; read_n n r.
Definition write_array {A} (w : A → enc) (l : list A) (flexible : bool) : enc :=
  write_array_len (length l) flexible +++ write_each w l.

Lemma rt_array {A} (P : A → Prop) (w : A → enc) (r : reader A) l flexible :
  (∀ a, P a → rt (w a) r a) → wire_len l → Forall P l →
  rt (write_array w l flexible) (read_array flexible r) l.
Proof.
  intros Hw Hl Hf. eapply rt_bind; [by apply rt_len|]. apply rt_each.
  by eapply Forall_impl.
Qed.

(** Two fields under one condition. *)
Lemma rt_pair {A B} w1 w2 (r1 : reader A) (r2 : reader B) x y :
  rt w1 r1 x → rt w2 r2 y → rt (w1 +++ w2) (a ← r1; b ← r2; mret (a, b)) (x, y).
Proof. intros H1 H2. eapply rt_bind; [done|]. by apply (rt_bind_ret _ _ (pair x)). Qed.

Lemma rt_triple {A B C} w1 w2 w3 (r1 : reader A) (r2 : reader B) (r3 : reader C) x y z :
  rt w1 r1 x → rt w2 r2 y → rt w3 r3 z →
  rt (w1 +++ w2 +++ w3) (a ← r1; b ← r2; c ← r3; mret (a, b, c)) (x, y, z).
Proof.
  intros H1 H2 H3. eapply rt_bind; [done|]. eapply rt_bind; [done|].
  by apply (rt_bind_ret _ _ (pair (x, y))).
Qed.

(** A nullable array: length -1, or 0 in the compact form, is [None]
    ([describe_configs::read_nullable_array], [create_partitions::
    read_array_len_nullable] with its loop, [offset_fetch] and
    [describe_log_dirs] inline). *)
Definition read_nullable_array {A} (flexible : bool) (r : reader A) : reader (option (list A)) :=
  if flexible then
    raw ← read_uvarint;
    if raw =? 0 then mret None else l ← read_n (Z.to_nat (raw - 1)) r; mret (Some l)
  else
    raw ← read_i32;
    if raw <? 0 then mret None else l ← read_n (Z.to_nat raw) r; mret (Some l).
Definition write_nullable_array {A} (w : A → enc) (o : option (list A)) (flexible : bool) : enc :=
  match o with
  | None => if flexible then write_uvarint 0 else write_i32 (-1)
  | Some l => write_array_len (length l) flexible +++ write_each w l
  end.
Definition wire_opt_list {A} (P : A → Prop) (o : option (list A)) : Prop :=
  ∀ l, o = Some l → wire_len l ∧ Forall P l.

Lemma rt_nullable_array {A} (P : A → Prop) (w : A → enc) (r : reader A) o flexible :
  (∀ a, P a → rt (w a) r a) → wire_opt_list P o →
  rt (write_nullable_array w o flexible) (read_nullable_array flexible r) o.
Proof.
  intros Hw Ho. destruct o as [l|].
  - destruct (Ho l eq_refl) as [Hl Hf]. unfold wire_len in Hl.
    assert (rt (write_each w l) (read_n (length l) r) l) as Hr
      by (apply rt_each; by eapply Forall_impl).
    destruct flexible; simpl; unfold read_nullable_array, Primitives.write_array_len,
      write_compact_array_len.
    + rewrite compact_len_ok by range. eapply rt_bind; [apply rt_uvarint; range|].
      rewrite (proj2 (Z.eqb_neq _ _)) by lia.
      replace (Z.to_nat (Z.of_nat (length l) + 1 - 1)) with (length l) by lia.
      by apply (rt_bind_ret _ _ Some).
    + rewrite len_i32_ok by range. eapply rt_bind; [apply rt_i32; range|].
      rewrite (proj2 (Z.ltb_ge _ _)) by lia. rewrite Nat2Z.id.
      by apply (rt_bind_ret _ _ Some).
  - destruct flexible; [by apply (rt_uvarint_null _ None)|].
    eapply (rt_bind_last (write_i32 (-1)) read_i32 _ (-1)); [apply rt_i32; range|done].
Qed.

(** A boolean carried as an [i8]: [read_i8(buf)? != 0] and [i8::from(b)]. *)
Definition read_flag : reader bool := b ← read_i8; mret (negb (b =? 0)).
Definition write_flag (v : bool) : enc := write_i8 (if v then 1 else 0).

Lemma rt_flag v : rt (write_flag v) read_flag v.
Proof.
  destruct v.
  - apply (rt_bind_ret _ _ (λ b, negb (b =? 0)) 1), rt_i8. range.
  - apply (rt_bind_ret _ _ (λ b, negb (b =? 0)) 0), rt_i8. range.
Qed.

Lemma rt_topic_id v : uuid_ok v → rt (write_uuid v) read_uuid v.
Proof. apply rt_uuid. Qed.

End Common.

#[export] Hint Resolve Common.rt_nullable_array Common.rt_triple Common.rt_flag Common.rt_topic_id : codec.
#[export] Hint Resolve Common.rt_str Common.rt_nullable_str Common.rt_bytes_flex
  Common.rt_flex_bytes Common.rt_array Common.rt_pair : codec.

(** A version-gated field below its version holds its default. *)
Definition gated {A} (c : bool) (x d : A) : Prop := c = false → x = d.

(** Reads field after field: an unconditional field by [rt_bind], a gated one by
    [rt_when], the closing tagged block by [rt_tail], the last field of an
    untagged struct by [rt_bind_last]. *)
Ltac codec :=
  repeat first
    [ apply Tagged.rt_tail
    | apply rt_ret
    | eapply rt_when; [intros _; solve [eauto 8 with codec]|solve [eauto 8 with codec]|]; cbn beta iota
    | eapply rt_bind; [solve [eauto 8 with codec]|]; cbn beta iota
    | eapply rt_bind_last; [solve [eauto 8 with codec]|intros; reflexivity] ].

(** ** Messages

    What the request and response codecs promise to the layers above: at each
    version, every well-formed message is written and read back. *)
Class Message (M : Type) := {
  encode : M → Z → enc;
  decode : Z → reader M;
  msg_ok : Z → M → Prop;
  msg_rt : ∀ v m, msg_ok v m → rt (encode m v) (decode v) m }.

(** What is decoded from the encoding of a well-formed message is that message. *)
Lemma msg_decode `{Message M} v (m : M) bs :
  msg_ok v m → encode m v = Ok bs → decode v bs = Ok (m, []).
Proof.
  intros Hm He. destruct (msg_rt v m Hm) as (bs' & He' & Hd). rewrite He in He'.
  injection He' as <-. specialize (Hd []). by rewrite app_nil_r in Hd.
Qed.

Lemma msg_encodes `{Message M} v (m : M) :
  msg_ok v m → ∃ bs, encode m v = Ok bs ∧ decode v bs = Ok (m, []).
Proof.
  intros Hm. destruct (msg_rt v m Hm) as (bs & He & _). exists bs. split; [done|].
  by apply (msg_decode v m).
Qed.

(** What an encoder writes, for closed messages that encode. *)
Definition bytes_of (e : enc) : list byte := match e with Ok bs => bs | Err _ => [] end.

(** ** Frames *)

Inductive FrameError :=
| Disconnected
| TooLarge (got max : Z)
| NegativeSize (n : Z)
| Io.

Definition MAX_FRAME_SIZE : Z := 100 * 1024 * 1024.

(** [read_exact] of [n] bytes from the bytes the peer has sent before closing. *)
Definition read_exact (n : nat) (inp : list byte) : option (list byte * list byte) :=
  if (n <=? length inp)%nat then Some (take n inp, drop n inp) else None.

Definition read_frame_with_limit (max : Z) (inp : list byte) :
    result FrameError (list byte * list byte) :=
  match read_exact 4 inp with
  | None => Err Disconnected
  | Some (sz, inp) =>
    let n := sbe sz in
    if n <? 0 then Err (NegativeSize n)
    else if max <? n then Err (TooLarge n max)
    else match read_exact (Z.to_nat n) inp with
         | None => Err Io
         | Some r => Ok r
         end
  end.

Definition read_frame := read_frame_with_limit MAX_FRAME_SIZE.

(** [None]: the body does not fit an [i32] length. *)
Definition write_frame (body : list byte) : option (list byte) :=
  if Z.of_nat (length body) <=? i32_max
  then Some (be 4 (Z.of_nat (length body)) ++ body) else None.

(** ** Checksums *)

Record CrcError := { got : Z; want : Z }.

Section crc.
(** [crc32c::crc32c], the Castagnoli CRC of the [crc32c] crate. *)
Context (crc32c : list byte → Z).

Definition compute (data : list byte) : Z := crc32c data.

Definition validate (data : list byte) (expected : Z) : result CrcError unit :=
  let g := compute data in
  if g =? expected then Ok tt else Err {| got := g; want := expected |}.

(** The CRC field is at 17..21 and covers the bytes from 21 on. *)
Definition verify_batch_crc (batch : list byte) : result CrcError unit :=
  if (length batch <? 21)%nat then Err {| got := 0; want := 0 |}
  else validate (drop 21 batch) (unbe (slice 17 4 batch)).

End crc.

(** ** Counting records *)

Definition BATCH_HEADER_SIZE : Z := 61.
Definition BATCH_LENGTH_OFFSET : nat := 8.
Definition BATCH_PREFIX_SIZE : Z := 12.
Definition BATCH_NUM_RECORDS_OFFSET : nat := 57.
Definition MIN_BATCH_LENGTH_FIELD : Z := 49.

Definition read_be_i32 (b : list byte) (off : nat) : Z := sbe (slice off 4 b).
Definition sat_u64 (z : Z) : Z := Z.min u64_max z.

(** The [while] loop; each turn advances [pos] by at least 61 bytes, so the
    buffer's length bounds the turns ([count_fuel]). *)
Fixpoint count_records_loop (fuel : nat) (b : list byte) (pos total : Z) : Z :=
  match fuel with
  | O => total
  | S f =>
    if pos + BATCH_HEADER_SIZE <=? Z.of_nat (length b) then
      let batch_len := read_be_i32 b (Z.to_nat pos + BATCH_LENGTH_OFFSET) in
      if batch_len <? MIN_BATCH_LENGTH_FIELD then total
      else
        let wire_len := sat_u64 (BATCH_PREFIX_SIZE + batch_len) in
        if Z.of_nat (length b) <? sat_u64 (pos + wire_len) then total
        else
          let records := read_be_i32 b (Z.to_nat pos + BATCH_NUM_RECORDS_OFFSET) in
          let total := if 0 <? records then sat_i64 (total + records) else total in
          count_records_loop f b (sat_u64 (pos + wire_len)) total
    else total
  end.

Definition count_records_in_batches (b : list byte) : Z :=
  count_records_loop (length b) b 0 0.

(** The same walk over a seekable file: only each batch's header is read.  A
    read past the end of the file returns what has been counted. *)
Fixpoint count_records_at_loop (fuel : nat) (file : list byte) (cur end_ total : Z) : Z :=
  match fuel with
  | O => total
  | S f =>
    if sat_u64 (cur + BATCH_HEADER_SIZE) <=? end_ then
      match read_exact 61 (drop (Z.to_nat cur) file) with
      | None => total
      | Some (hdr, _) =>
        let batch_len := read_be_i32 hdr BATCH_LENGTH_OFFSET in
        if batch_len <? MIN_BATCH_LENGTH_FIELD then total
        else
          let wire_len := sat_u64 (BATCH_PREFIX_SIZE + batch_len) in
          if end_ <? sat_u64 (cur + wire_len) then total
          else
            let records := read_be_i32 hdr BATCH_NUM_RECORDS_OFFSET in
            let total := if 0 <? records then sat_i64 (total + records) else total in
            count_records_at_loop f file (sat_u64 (cur + wire_len)) end_ total
      end
    else total
  end.

Definition count_records_in_batches_at (file : list byte) (pos : Z) (length : nat) : Z :=
  count_records_at_loop length file pos (sat_u64 (pos + Z.of_nat length)) 0.

(** *** Lemmas on the walk *)

Lemma slice_app pre b rest off n :
  (off + n ≤ length b)%nat → slice (length pre + off) n (pre ++ b ++ rest) = slice off n b.
Proof.
  intros H. unfold slice.
  rewrite drop_app_add', drop_app_le, take_app_le; [done| |lia|done].
  rewrite length_drop. lia.
Qed.

Lemma read_be_i32_app pre b rest off :
  (off + 4 ≤ length b)%nat →
  read_be_i32 (pre ++ b ++ rest) (length pre + off) = read_be_i32 b off.
Proof. intros. unfold read_be_i32. by rewrite slice_app. Qed.

Lemma read_be_i32_range b off :
  (off + 4 ≤ length b)%nat → i32_ok (read_be_i32 b off).
Proof.
  intros H. unfold read_be_i32, sbe. unfold slice.
  rewrite length_take, length_drop.
  replace (Nat.min 4 (length b - off)) with 4%nat by lia.
  change (8 * Z.of_nat 4) with 32.
  pose proof (wrap_s_range 32 (unbe (take 4 (drop off b))) ltac:(lia)) as Hr.
  change (2 ^ (32 - 1)) with 2147483648 in Hr. unfold i32_ok. lia.
Qed.

(** A complete batch: its header is there and its length field is exact. *)
Definition whole_batch (b : list byte) : Prop :=
  (61 ≤ length b)%nat ∧ read_be_i32 b BATCH_LENGTH_OFFSET = Z.of_nat (length b) - 12.

(** A truncated or foreign tail: no complete batch starts there. *)
Definition no_batch (t : list byte) : Prop :=
  (length t < 61)%nat ∨ read_be_i32 t BATCH_LENGTH_OFFSET < 49 ∨
  Z.of_nat (length t) < 12 + read_be_i32 t BATCH_LENGTH_OFFSET.

Definition records_of (b : list byte) : Z :=
  Z.max 0 (read_be_i32 b BATCH_NUM_RECORDS_OFFSET).
Definition total_records (bs : list (list byte)) : Z := foldr Z.add 0 (records_of <$> bs).

Lemma total_records_nonneg bs : 0 ≤ total_records bs.
Proof.
  induction bs as [|b bs IH]; [done|].
  change (0 ≤ records_of b + total_records bs). unfold records_of at 1. lia.
Qed.

Lemma sat_u64_small z : z ≤ i64_max → sat_u64 z = z.
Proof. unfold sat_u64. range. Qed.

Lemma sat_u64_id z : z ≤ u64_max → sat_u64 z = z.
Proof. unfold sat_u64. lia. Qed.

Lemma length_app3 (a b c : list byte) :
  Z.of_nat (length (a ++ b ++ c)) =
  Z.of_nat (length a) + Z.of_nat (length b) + Z.of_nat (length c).
Proof. rewrite !length_app. lia. Qed.

(** One turn of the loop on a complete batch. *)
Lemma count_step f pre b rest total :
  whole_batch b → Z.of_nat (length (pre ++ b ++ rest)) ≤ i64_max → 0 ≤ total ≤ i64_max →
  count_records_loop (S f) (pre ++ b ++ rest) (Z.of_nat (length pre)) total =
  count_records_loop f (pre ++ b ++ rest) (Z.of_nat (length (pre ++ b)))
    (Z.min i64_max (total + records_of b)).
Proof.
  intros [Hl Hb] Hlen Ht. cbn [count_records_loop].
  rewrite Nat2Z.id, !read_be_i32_app by (unfold BATCH_LENGTH_OFFSET, BATCH_NUM_RECORDS_OFFSET; lia).
  rewrite Hb, length_app3 in *. rewrite length_app, Nat2Z.inj_add.
  unfold BATCH_HEADER_SIZE, MIN_BATCH_LENGTH_FIELD, BATCH_PREFIX_SIZE.
  rewrite (sat_u64_small (12 + _)) by lia. rewrite sat_u64_small by lia.
  destruct (Z.leb_spec (Z.of_nat (length pre) + 61)
    (Z.of_nat (length pre) + Z.of_nat (length b) + Z.of_nat (length rest))); [|lia].
  destruct (Z.ltb_spec (Z.of_nat (length b) - 12) 49); [lia|].
  replace (Z.of_nat (length pre) + (12 + (Z.of_nat (length b) - 12)))
    with (Z.of_nat (length pre) + Z.of_nat (length b)) by lia.
  destruct (Z.ltb_spec (Z.of_nat (length pre) + Z.of_nat (length b) + Z.of_nat (length rest))
    (Z.of_nat (length pre) + Z.of_nat (length b))); [lia|].
  f_equal. unfold records_of, sat_i64.
  destruct (Z.ltb_spec 0 (read_be_i32 b BATCH_NUM_RECORDS_OFFSET)); range.
Qed.

Lemma count_stop f pre t total :
  no_batch t → Z.of_nat (length (pre ++ t)) ≤ i64_max →
  count_records_loop f (pre ++ t) (Z.of_nat (length pre)) total = total.
Proof.
  intros Hn Hlen. destruct f as [|f]; [done|]. cbn [count_records_loop].
  rewrite length_app, Nat2Z.inj_add in *. rewrite Nat2Z.id.
  unfold BATCH_HEADER_SIZE, MIN_BATCH_LENGTH_FIELD, BATCH_PREFIX_SIZE.
  destruct (Z.leb_spec (Z.of_nat (length pre) + 61)
    (Z.of_nat (length pre) + Z.of_nat (length t))); [|done].
  assert (61 ≤ length t)%nat as Ht by lia.
  assert (read_be_i32 (pre ++ t) (length pre + BATCH_LENGTH_OFFSET) =
    read_be_i32 t BATCH_LENGTH_OFFSET) as ->.
  { rewrite <- (app_nil_r t) at 1. apply read_be_i32_app. unfold BATCH_LENGTH_OFFSET. lia. }
  pose proof (read_be_i32_range t BATCH_LENGTH_OFFSET) as Hr.
  destruct (Z.ltb_spec (read_be_i32 t BATCH_LENGTH_OFFSET) 49); [done|].
  unfold no_batch, sat_u64, BATCH_LENGTH_OFFSET in *.
  specialize (Hr ltac:(lia)). unfold i32_ok, i64_max, u64_max in *.
  case_match eqn:E; [done|]. lia.
Qed.

Lemma count_loop_spec f pre bs t total :
  (length bs ≤ f)%nat → Forall whole_batch bs → no_batch t →
  Z.of_nat (length (pre ++ concat bs ++ t)) ≤ i64_max → 0 ≤ total ≤ i64_max →
  count_records_loop f (pre ++ concat bs ++ t) (Z.of_nat (length pre)) total =
  Z.min i64_max (total + total_records bs).
Proof.
  intros Hf Hbs Ht. revert f pre total Hf.
  induction Hbs as [|b bs Hb Hbs IH]; intros f pre total Hf Hlen Htot.
  - cbn [concat app] in *. rewrite count_stop by done. unfold total_records. simpl. lia.
  - destruct f as [|f]; [simpl in Hf; lia|]. cbn [concat] in *.
    rewrite <- app_assoc in *. rewrite count_step by done.
    rewrite app_assoc in Hlen |- *. pose proof (total_records_nonneg bs).
    assert (0 ≤ records_of b) by (unfold records_of; lia).
    rewrite IH; [|simpl in Hf; lia|done|unfold i64_max in *; lia].
    change (total_records (b :: bs)) with (records_of b + total_records bs). lia.
Qed.

Lemma count_fuel bs : Forall whole_batch bs → (length bs ≤ length (concat bs))%nat.
Proof.
  induction 1 as [|b bs [Hb _] _ IH]; simpl; [done|]. rewrite length_app. lia.
Qed.

(** The file walk reads the same headers as the walk over the window. *)
Lemma count_at_eq f file pos w post total :
  file = pos ++ w ++ post → Z.of_nat (length file) ≤ i64_max →
  ∀ k, 0 ≤ k ≤ Z.of_nat (length w) + 4294967296 →
  count_records_at_loop f file (Z.of_nat (length pos) + k)
    (Z.of_nat (length pos + length w)) total =
  count_records_loop f w k total.
Proof.
  intros -> Hlen. rewrite length_app3 in Hlen. revert total.
  induction f as [|f IH]; intros total k Hk; [done|].
  cbn [count_records_at_loop count_records_loop].
  unfold BATCH_HEADER_SIZE, MIN_BATCH_LENGTH_FIELD, BATCH_PREFIX_SIZE.
  destruct (Z.leb_spec (k + 61) (Z.of_nat (length w))) as [Hle|Hgt].
  2:{ destruct (Z.leb_spec (sat_u64 (Z.of_nat (length pos) + k + 61))
        (Z.of_nat (length pos + length w))); [|done].
      unfold sat_u64, i64_max, u64_max in *. lia. }
  rewrite (sat_u64_small (_ + 61)) by lia.
  destruct (Z.leb_spec (Z.of_nat (length pos) + k + 61)
    (Z.of_nat (length pos + length w))); [|lia].
  unfold read_exact. rewrite length_drop, !length_app.
  destruct (Nat.leb_spec 61 (length pos + (length w + length post) -
    Z.to_nat (Z.of_nat (length pos) + k))); [|lia].
  replace (Z.to_nat (Z.of_nat (length pos) + k)) with (length pos + Z.to_nat k)%nat by lia.
  assert (∀ off, (off + 4 ≤ 61)%nat →
    read_be_i32 (take 61 (drop (length pos + Z.to_nat k) (pos ++ w ++ post))) off =
    read_be_i32 w (Z.to_nat k + off)) as Hrd.
  { intros off Hoff. unfold read_be_i32, slice. f_equal.
    rewrite drop_app_add', drop_app_le by lia.
    rewrite take_app_le by (rewrite length_drop; lia).
    rewrite skipn_firstn_comm, take_take, drop_drop.
    by replace (Nat.min 4 (61 - off)) with 4%nat by lia. }
  rewrite !Hrd by (unfold BATCH_LENGTH_OFFSET, BATCH_NUM_RECORDS_OFFSET; lia).
  pose proof (read_be_i32_range w (Z.to_nat k + BATCH_LENGTH_OFFSET)
    ltac:(unfold BATCH_LENGTH_OFFSET; lia)) as Hr. unfold i32_ok in Hr.
  case_match; [done|]. unfold i64_max in Hlen.
  rewrite (sat_u64_id (12 + _)) by (unfold u64_max; lia).
  rewrite !sat_u64_id by (unfold u64_max; lia).
  set (bl := read_be_i32 w _) in *.
  destruct (Z.ltb_spec (Z.of_nat (length w)) (k + (12 + bl))) as [Hw|Hw];
    destruct (Z.ltb_spec (Z.of_nat (length pos + length w))
      (Z.of_nat (length pos) + k + (12 + bl))); try lia; try done.
  rewrite <- Z.add_assoc. apply IH. lia.
Qed.

(** ** Properties *)

(** What a header must satisfy to be representable: the fields are in range, the
    client id fits, and a v0 header has none. *)
Definition header_ok (h : RequestHeader) (v : HeaderVersion) : Prop :=
  i16_ok (api_key h) ∧ i16_ok (api_version h) ∧ i32_ok (correlation_id h) ∧
  Common.wire_opt_str (client_id h) ∧ (v = V0 → client_id h = None).

Lemma rt_request_header h v :
  header_ok h v → rt (encode_request_header h v) (decode_request_header v) h.
Proof.
  destruct h as [k av c id]. unfold header_ok.
  cbn [api_key api_version correlation_id client_id].
  intros (Hk & Hv & Hc & Hid & H0).
  unfold encode_request_header, decode_request_header.
  cbn [api_key api_version correlation_id client_id].
  do 3 (eapply rt_bind; [solve [eauto with codec]|]; cbn beta).
  eapply rt_when with (x := id); [|by rewrite bool_decide_eq_false; intros ->%dec_stable; auto|].
  { intros _. apply (Common.rt_nullable_str id false Hid). }
  apply Tagged.rt_tail.
Qed.

Lemma rt_response_header r v :
  i32_ok (resp_correlation_id r) → rt (encode_response_header r v) (decode_response_header v) r.
Proof.
  destruct r as [rc]. intros Hr. eapply rt_bind; [by apply rt_i32|]. apply Tagged.rt_tail.
Qed.

(** A request header and a response header of any version survive
    encode-then-decode, and the decoder leaves exactly the body that follows. *)
Theorem header_roundtrip h r v :
  header_ok h v → i32_ok (resp_correlation_id r) →
  rt (encode_request_header h v) (decode_request_header v) h ∧
  rt (encode_response_header r v) (decode_response_header v) r.
Proof. auto using rt_request_header, rt_response_header. Qed.

Lemma header_roundtrip_witness :
  rt (encode_request_header
        {| api_key := 22; api_version := 4; correlation_id := 7; client_id := Some "c"%string |} V2)
     (decode_request_header V2)
     {| api_key := 22; api_version := 4; correlation_id := 7; client_id := Some "c"%string |}.
Proof.
  refine (proj1 (header_roundtrip
    {| api_key := 22; api_version := 4; correlation_id := 7; client_id := Some "c"%string |}
    {| resp_correlation_id := 7 |} V2 _ _)); [|unfold i32_ok; simpl; lia].
  unfold header_ok, i16_ok, i32_ok; simpl. repeat split; try lia; try done;
    match goal with H : Some _ = Some _ |- _ => injection H as <- end;
    vm_compute; congruence.
Defined.

(** A frame that fits the limit is read back whole and nothing of the next
    frame is consumed; a frame above the limit is refused from its length
    prefix alone (the body need not even have arrived), a negative prefix is
    refused, and a stream shorter than a prefix is a disconnect. *)
Theorem frame_roundtrip max body rest :
  Z.of_nat (length body) ≤ i32_max →
  ∃ bs, write_frame body = Some bs ∧
    (Z.of_nat (length body) ≤ max →
      read_frame_with_limit max (bs ++ rest) = Ok (body, rest)) ∧
    (max < Z.of_nat (length body) → ∀ k, (4 ≤ k)%nat →
      read_frame_with_limit max (take k bs) =
        Err (TooLarge (Z.of_nat (length body)) max)) ∧
    (∀ k, (k < 4)%nat → read_frame_with_limit max (take k bs) = Err Disconnected).
Proof.
  intros Hb. unfold write_frame.
  destruct (Z.leb_spec (Z.of_nat (length body)) i32_max); [|lia].
  eexists. split; [done|].
  assert (∀ l, sbe (take 4 (be 4 (Z.of_nat (length body)) ++ l)) = Z.of_nat (length body)) as Hs.
  { intros l. rewrite take_app_le by (rewrite length_be; lia).
    rewrite take_ge by (rewrite length_be; lia). apply sbe_be; [lia|].
    unfold i32_max in *. change (2 ^ (8 * Z.of_nat 4 - 1)) with 2147483648. lia. }
  unfold read_frame_with_limit, read_exact. repeat split.
  - intros Hm. rewrite <- app_assoc, !length_app, length_be. cbn [Nat.leb Nat.add].
    rewrite Hs, drop_app_length' by (rewrite length_be; lia).
    destruct (Z.ltb_spec (Z.of_nat (length body)) 0); [lia|].
    destruct (Z.ltb_spec max (Z.of_nat (length body))); [lia|].
    rewrite Nat2Z.id, length_app. destruct (Nat.leb_spec (length body) (length body + length rest)); [|lia].
    by rewrite take_app_length, drop_app_length.
  - intros Hm k Hk.
    rewrite take_app_ge by (rewrite length_be; lia).
    rewrite length_app, length_be. cbn [Nat.leb Nat.add]. rewrite Hs.
    destruct (Z.ltb_spec (Z.of_nat (length body)) 0); [lia|].
    by destruct (Z.ltb_spec max (Z.of_nat (length body))); [|lia].
  - intros k Hk. rewrite length_take.
    by destruct (Nat.leb_spec 4 (k `min` length (be 4 (Z.of_nat (length body)) ++ body))); [lia|].
Qed.

Lemma frame_roundtrip_witness :
  ∃ bs, write_frame [x01; x02] = Some bs ∧ read_frame (bs ++ [xff]) = Ok ([x01; x02], [xff]).
Proof.
  destruct (frame_roundtrip MAX_FRAME_SIZE [x01; x02] [xff]) as (bs & Hw & Hr & _).
  - vm_compute. discriminate.
  - exists bs. split; [exact Hw|]. apply Hr. vm_compute. discriminate.
Defined.

(** Counting records never decodes them: over a stream of complete batches
    with any truncated tail, both walks return the (saturated) sum of the
    headers' record counts, and the walk over a file agrees with the walk over
    the same window in memory. *)
Theorem count_records_correct pre bs tail post :
  Forall whole_batch bs → no_batch tail →
  Z.of_nat (length (pre ++ (concat bs ++ tail) ++ post)) ≤ i64_max →
  count_records_in_batches (concat bs ++ tail) = Z.min i64_max (total_records bs) ∧
  count_records_in_batches_at (pre ++ (concat bs ++ tail) ++ post)
    (Z.of_nat (length pre)) (length (concat bs ++ tail)) =
    Z.min i64_max (total_records bs).
Proof.
  intros Hbs Ht Hlen. pose proof (count_fuel bs Hbs) as Hf.
  pose proof Hlen as Hlen'. rewrite length_app3 in Hlen'.
  assert (count_records_in_batches (concat bs ++ tail) = Z.min i64_max (total_records bs)) as Hc.
  { unfold count_records_in_batches.
    apply (count_loop_spec _ [] bs tail 0); auto; simpl.
    - rewrite length_app. lia.
    - lia.
    - unfold i64_max. lia. }
  split; [done|]. rewrite <- Hc. unfold count_records_in_batches_at, count_records_in_batches.
  rewrite sat_u64_small by lia. rewrite <- Nat2Z.inj_add.
  rewrite <- (Z.add_0_r (Z.of_nat (length pre))).
  apply (count_at_eq _ _ _ _ post); [done|done|lia].
Qed.

(** A header-only batch with one record. *)
Definition tiny_batch : list byte :=
  be 8 0 ++ be 4 49 ++ be 4 0 ++ be 1 2 ++ be 4 0 ++ be 2 0 ++ be 4 0 ++
  be 8 0 ++ be 8 0 ++ be 8 (-1) ++ be 2 (-1) ++ be 4 (-1) ++ be 4 1.

Lemma count_records_correct_witness :
  count_records_in_batches ((tiny_batch ++ tiny_batch ++ []) ++ [x00]) = 2.
Proof.
  refine (proj1 (count_records_correct [] [tiny_batch; tiny_batch] [x00] [] _ _ _)).
  - repeat constructor; vm_compute; reflexivity || lia || (intros; discriminate).
  - left. vm_compute. lia.
  - vm_compute. discriminate.
Defined.
