(* ===== verification/ApiData.v ===== *)
(** * Codecs of the data-plane APIs

    [api/produce.rs], [api/fetch.rs], [api/list_offsets.rs],
    [api/delete_records.rs] and [api/metadata.rs]: the request and response
    shapes at every supported version.  Where the crate has no request encoder
    [request_wire] states the layout a client sends.  Field names repeated by a
    nested struct carry the prefix [p_], [t_], [f_] or [r_]. *)

From stdpp Require Import base gmap strings list.
From Stdlib Require Import Strings.Byte.
From S2P Require Import Prelude Primitives Wire.
Import Common.

Local Open Scope Z_scope.

Module Produce.

Definition VERSIONS : Z * Z := (3, 9).
Definition MIN_FLEXIBLE : Z := 9.
Definition SPEC : ApiSpec := spec_row 0 3 9 MIN_FLEXIBLE.

Record PartitionData := { index : Z; records : option (list byte) }.
Record TopicData := { name : string; partition_data : list PartitionData }.
Record Request := {
  transactional_id : option string; acks : Z; timeout_ms : Z; topic_data : list TopicData }.
Record RecordError := { batch_index : Z; batch_index_error_message : option string }.
Record PartitionResponse := {
  p_index : Z; error_code : Z; base_offset : Z; log_append_time_ms : Z;
  log_start_offset : Z; record_errors : list RecordError; error_message : option string }.
Record TopicResponse := { t_name : string; partition_responses : list PartitionResponse }.
Record Response := { responses : list TopicResponse; throttle_time_ms : Z }.

Definition read_partition_data (flexible : bool) : reader PartitionData :=
  index ← read_i32; records ← read_nullable_bytes flexible;
  (if flexible then Tagged.read else mret tt);;
  mret {| index := index; records := records |}.

Definition read_topic_data (flexible : bool) : reader TopicData :=
  name ← read_str flexible;
  partition_data ← read_array flexible (read_partition_data flexible);
  (if flexible then Tagged.read else mret tt);;
  mret {| name := name; partition_data := partition_data |}.

Definition decode_request (version : Z) : reader Request :=
  let flexible := MIN_FLEXIBLE <=? version in
  transactional_id ← (if 3 <=? version then read_nullable_str flexible else mret None);
  acks ← read_i16; timeout_ms ← read_i32;
  topic_data ← read_array flexible (read_topic_data flexible);
  (if flexible then Tagged.read else mret tt);;
  mret {| transactional_id := transactional_id; acks := acks; timeout_ms := timeout_ms;
          topic_data := topic_data |}.

Definition write_partition_data (flexible : bool) (p : PartitionData) : enc :=
  write_i32 (index p) +++ write_nullable_bytes (records p) flexible +++
  when_enc flexible Tagged.write_empty.

Definition write_topic_data (flexible : bool) (t : TopicData) : enc :=
  write_str (name t) flexible +++
  write_array (write_partition_data flexible) (partition_data t) flexible +++
  when_enc flexible Tagged.write_empty.

Definition request_wire (req : Request) (version : Z) : enc :=
  let flexible := MIN_FLEXIBLE <=? version in
  when_enc (3 <=? version) (write_nullable_str (transactional_id req) flexible) +++
  write_i16 (acks req) +++ write_i32 (timeout_ms req) +++
  write_array (write_topic_data flexible) (topic_data req) flexible +++
  when_enc flexible Tagged.write_empty.

Definition write_record_error (flexible : bool) (r : RecordError) : enc :=
  write_i32 (batch_index r) +++
  write_nullable_str (batch_index_error_message r) flexible +++
  when_enc flexible Tagged.write_empty.

Definition write_partition_response (version : Z) (flexible : bool) (p : PartitionResponse) :
    enc :=
  write_i32 (p_index p) +++ write_i16 (error_code p) +++ write_i64 (base_offset p) +++
  when_enc (2 <=? version) (write_i64 (log_append_time_ms p)) +++
  when_enc (5 <=? version) (write_i64 (log_start_offset p)) +++
  when_enc (8 <=? version)
    (write_array (write_record_error flexible) (record_errors p) flexible +++
     write_nullable_str (error_message p) flexible) +++
  when_enc flexible Tagged.write_empty.

Definition write_topic_response (version : Z) (flexible : bool) (t : TopicResponse) :
    enc :=
  write_str (t_name t) flexible +++
  write_array (write_partition_response version flexible) (partition_responses t) flexible +++
  when_enc flexible Tagged.write_empty.

Definition encode_response (resp : Response) (version : Z) : enc :=
  let flexible := MIN_FLEXIBLE <=? version in
  write_array (write_topic_response version flexible) (responses resp) flexible +++
  when_enc (1 <=? version) (write_i32 (throttle_time_ms resp)) +++
  when_enc flexible Tagged.write_empty.

Definition read_record_error (flexible : bool) : reader RecordError :=
  batch_index ← read_i32; batch_index_error_message ← read_nullable_str flexible;
  (if flexible then Tagged.read else mret tt);;
  mret {| batch_index := batch_index;
          batch_index_error_message := batch_index_error_message |}.

Definition read_partition_response (version : Z) (flexible : bool) :
    reader PartitionResponse :=
  index ← read_i32; error_code ← read_i16; base_offset ← read_i64;
  log_append_time_ms ← (if 2 <=? version then read_i64 else mret (-1));
  log_start_offset ← (if 5 <=? version then read_i64 else mret (-1));
  '(record_errors, error_message) ← (if 8 <=? version then
    record_errors ← read_array flexible (read_record_error flexible);
    error_message ← read_nullable_str flexible;
    mret (record_errors, error_message) else mret ([], None));
  (if flexible then Tagged.read else mret tt);;
  mret {| p_index := index; error_code := error_code; base_offset := base_offset;
          log_append_time_ms := log_append_time_ms; log_start_offset := log_start_offset;
          record_errors := record_errors; error_message := error_message |}.

Definition read_topic_response (version : Z) (flexible : bool) :
    reader TopicResponse :=
  name ← read_str flexible;
  partition_responses ← read_array flexible (read_partition_response version flexible);
  (if flexible then Tagged.read else mret tt);;
  mret {| t_name := name; partition_responses := partition_responses |}.

Definition decode_response (version : Z) : reader Response :=
  let flexible := MIN_FLEXIBLE <=? version in
  responses ← read_array flexible (read_topic_response version flexible);
  throttle_time_ms ← (if 1 <=? version then read_i32 else mret 0);
  (if flexible then Tagged.read else mret tt);;
  mret {| responses := responses; throttle_time_ms := throttle_time_ms |}.

Definition partition_data_ok (p : PartitionData) : Prop :=
  i32_ok (index p) ∧ wire_opt_bytes (records p).
Definition topic_data_ok (t : TopicData) : Prop :=
  wire_str (name t) ∧ wire_len (partition_data t) ∧
  Forall partition_data_ok (partition_data t).
Definition record_error_ok (r : RecordError) : Prop :=
  i32_ok (batch_index r) ∧ wire_opt_str (batch_index_error_message r).
Definition partition_response_ok (version : Z) (p : PartitionResponse) : Prop :=
  i32_ok (p_index p) ∧ i16_ok (error_code p) ∧ i64_ok (base_offset p) ∧
  i64_ok (log_append_time_ms p) ∧ gated (2 <=? version) (log_append_time_ms p) (-1) ∧
  i64_ok (log_start_offset p) ∧ gated (5 <=? version) (log_start_offset p) (-1) ∧
  wire_len (record_errors p) ∧ Forall record_error_ok (record_errors p) ∧
  wire_opt_str (error_message p) ∧
  gated (8 <=? version) (record_errors p, error_message p) ([], None).
Definition topic_response_ok (version : Z) (t : TopicResponse) : Prop :=
  wire_str (t_name t) ∧ wire_len (partition_responses t) ∧
  Forall (partition_response_ok version) (partition_responses t).
Definition request_ok (version : Z) (r : Request) : Prop :=
  wire_opt_str (transactional_id r) ∧ gated (3 <=? version) (transactional_id r) None ∧
  i16_ok (acks r) ∧ i32_ok (timeout_ms r) ∧ wire_len (topic_data r) ∧
  Forall topic_data_ok (topic_data r).
Definition response_ok (version : Z) (r : Response) : Prop :=
  wire_len (responses r) ∧ Forall (topic_response_ok version) (responses r) ∧
  i32_ok (throttle_time_ms r) ∧ gated (1 <=? version) (throttle_time_ms r) 0.

Lemma rt_produce_partition_data flexible p :
  partition_data_ok p →
  rt (write_partition_data flexible p)
    (read_partition_data flexible) p.
Proof.
  destruct p. intros (?&?).
  unfold write_partition_data, read_partition_data. codec.
Qed.
#[local] Hint Resolve rt_produce_partition_data : codec.
Lemma rt_produce_topic_data flexible t :
  topic_data_ok t →
  rt (write_topic_data flexible t)
    (read_topic_data flexible) t.
Proof.
  destruct t. intros (?&?&?).
  unfold write_topic_data, read_topic_data. codec.
Qed.
#[local] Hint Resolve rt_produce_topic_data : codec.
Lemma rt_produce_record_error flexible r :
  record_error_ok r →
  rt (write_record_error flexible r)
    (read_record_error flexible) r.
Proof.
  destruct r. intros (?&?).
  unfold write_record_error, read_record_error. codec.
Qed.
#[local] Hint Resolve rt_produce_record_error : codec.
Lemma rt_produce_partition_response version flexible p :
  partition_response_ok version p →
  rt (write_partition_response version flexible p)
    (read_partition_response version flexible) p.
Proof.
  destruct p. intros (?&?&?&?&?&?&?&?&?&?&?).
  unfold write_partition_response, read_partition_response. codec.
Qed.
#[local] Hint Resolve rt_produce_partition_response : codec.
Lemma rt_produce_topic_response version flexible t :
  topic_response_ok version t →
  rt (write_topic_response version flexible t)
    (read_topic_response version flexible) t.
Proof.
  destruct t. intros (?&?&?).
  unfold write_topic_response, read_topic_response. codec.
Qed.
#[local] Hint Resolve rt_produce_topic_response : codec.

#[global] Instance request_message : Message Request.
Proof.
  refine {| encode := request_wire; decode := decode_request; msg_ok := request_ok |}.
  intros v []. unfold request_ok. simpl. intros (?&?&?&?&?&?).
  unfold request_wire, decode_request;
    cbn [transactional_id acks timeout_ms topic_data].
  codec.
Defined.

#[global] Instance response_message : Message Response.
Proof.
  refine {| encode := encode_response; decode := decode_response; msg_ok := response_ok |}.
  intros v []. unfold response_ok. simpl. intros (?&?&?&?).
  unfold encode_response, decode_response;
    cbn [responses throttle_time_ms].
  codec.
Defined.

End Produce.

Module Fetch.

Definition VERSIONS : Z * Z := (4, 12).
Definition MIN_FLEXIBLE : Z := 12.
Definition SPEC : ApiSpec := spec_row 1 4 12 MIN_FLEXIBLE.

Record Partition := {
  partition_index : Z; current_leader_epoch : Z; fetch_offset : Z; last_fetched_epoch : Z;
  log_start_offset : Z; partition_max_bytes : Z }.
Record Topic := { name : string; partitions : list Partition }.
Record ForgottenTopic := { f_name : string; f_partitions : list Z }.
Record Request := {
  replica_id : Z; max_wait_ms : Z; min_bytes : Z; max_bytes : Z; isolation_level : Z;
  session_id : Z; session_epoch : Z; topics : list Topic;
  forgotten_topics : list ForgottenTopic; rack_id : string }.
Record AbortedTransaction := { producer_id : Z; first_offset : Z }.
Record PartitionResponse := {
  p_partition_index : Z; error_code : Z; high_watermark : Z; last_stable_offset : Z;
  p_log_start_offset : Z; aborted_transactions : list AbortedTransaction;
  preferred_read_replica : Z; records : option (list byte) }.
Record TopicResponse := { t_name : string; t_partitions : list PartitionResponse }.
Record Response := {
  throttle_time_ms : Z; r_error_code : Z; r_session_id : Z; responses : list TopicResponse }.

Definition read_partition (version : Z) (flexible : bool) : reader Partition :=
  partition_index ← read_i32;
  current_leader_epoch ← (if 9 <=? version then read_i32 else mret (-1));
  fetch_offset ← read_i64;
  last_fetched_epoch ← (if 12 <=? version then read_i32 else mret (-1));
  log_start_offset ← (if 5 <=? version then read_i64 else mret (-1));
  partition_max_bytes ← read_i32;
  (if flexible then Tagged.read else mret tt);;
  mret {| partition_index := partition_index; current_leader_epoch := current_leader_epoch;
          fetch_offset := fetch_offset; last_fetched_epoch := last_fetched_epoch;
          log_start_offset := log_start_offset; partition_max_bytes := partition_max_bytes |}.

Definition read_topic (version : Z) (flexible : bool) : reader Topic :=
  name ← read_str flexible;
  partitions ← read_array flexible (read_partition version flexible);
  (if flexible then Tagged.read else mret tt);;
  mret {| name := name; partitions := partitions |}.

Definition read_forgotten_topic (flexible : bool) : reader ForgottenTopic :=
  name ← read_str flexible; partitions ← read_array flexible read_i32;
  (if flexible then Tagged.read else mret tt);;
  mret {| f_name := name; f_partitions := partitions |}.

Definition decode_request (version : Z) : reader Request :=
  let flexible := MIN_FLEXIBLE <=? version in
  replica_id ← read_i32; max_wait_ms ← read_i32; min_bytes ← read_i32;
  max_bytes ← (if 3 <=? version then read_i32 else mret i32_max);
  isolation_level ← (if 4 <=? version then read_i8 else mret 0);
  '(session_id, session_epoch) ← (if 7 <=? version then
    session_id ← read_i32; session_epoch ← read_i32;
    mret (session_id, session_epoch) else mret (0, -1));
  topics ← read_array flexible (read_topic version flexible);
  forgotten_topics ← (if 7 <=? version then
    read_array flexible (read_forgotten_topic flexible) else mret []);
  rack_id ← (if 11 <=? version then read_str flexible else mret ""%string);
  (if flexible then Tagged.read else mret tt);;
  mret {| replica_id := replica_id; max_wait_ms := max_wait_ms; min_bytes := min_bytes;
          max_bytes := max_bytes; isolation_level := isolation_level;
          session_id := session_id; session_epoch := session_epoch; topics := topics;
          forgotten_topics := forgotten_topics; rack_id := rack_id |}.

Definition write_partition (version : Z) (flexible : bool) (p : Partition) : enc :=
  write_i32 (partition_index p) +++
  when_enc (9 <=? version) (write_i32 (current_leader_epoch p)) +++
  write_i64 (fetch_offset p) +++
  when_enc (12 <=? version) (write_i32 (last_fetched_epoch p)) +++
  when_enc (5 <=? version) (write_i64 (log_start_offset p)) +++
  write_i32 (partition_max_bytes p) +++ when_enc flexible Tagged.write_empty.

Definition write_topic (version : Z) (flexible : bool) (t : Topic) : enc :=
  write_str (name t) flexible +++
  write_array (write_partition version flexible) (partitions t) flexible +++
  when_enc flexible Tagged.write_empty.

Definition write_forgotten_topic (flexible : bool) (f : ForgottenTopic) : enc :=
  write_str (f_name f) flexible +++ write_array write_i32 (f_partitions f) flexible +++
  when_enc flexible Tagged.write_empty.

Definition request_wire (req : Request) (version : Z) : enc :=
  let flexible := MIN_FLEXIBLE <=? version in
  write_i32 (replica_id req) +++ write_i32 (max_wait_ms req) +++
  write_i32 (min_bytes req) +++ when_enc (3 <=? version) (write_i32 (max_bytes req)) +++
  when_enc (4 <=? version) (write_i8 (isolation_level req)) +++
  when_enc (7 <=? version)
    (write_i32 (session_id req) +++ write_i32 (session_epoch req)) +++
  write_array (write_topic version flexible) (topics req) flexible +++
  when_enc (7 <=? version)
    (write_array (write_forgotten_topic flexible) (forgotten_topics req) flexible) +++
  when_enc (11 <=? version) (write_str (rack_id req) flexible) +++
  when_enc flexible Tagged.write_empty.

Definition write_aborted_transaction (flexible : bool) (a : AbortedTransaction) :
    enc :=
  write_i64 (producer_id a) +++ write_i64 (first_offset a) +++
  when_enc flexible Tagged.write_empty.

Definition write_partition_response (version : Z) (flexible : bool) (p : PartitionResponse) :
    enc :=
  write_i32 (p_partition_index p) +++ write_i16 (error_code p) +++
  write_i64 (high_watermark p) +++
  when_enc (4 <=? version) (write_i64 (last_stable_offset p)) +++
  when_enc (5 <=? version) (write_i64 (p_log_start_offset p)) +++
  when_enc (4 <=? version)
    (write_array (write_aborted_transaction flexible) (aborted_transactions p) flexible) +++
  when_enc (11 <=? version) (write_i32 (preferred_read_replica p)) +++
  write_nullable_bytes (records p) flexible +++ when_enc flexible Tagged.write_empty.

Definition write_topic_response (version : Z) (flexible : bool) (t : TopicResponse) :
    enc :=
  write_str (t_name t) flexible +++
  write_array (write_partition_response version flexible) (t_partitions t) flexible +++
  when_enc flexible Tagged.write_empty.

Definition encode_response (resp : Response) (version : Z) : enc :=
  let flexible := MIN_FLEXIBLE <=? version in
  when_enc (1 <=? version) (write_i32 (throttle_time_ms resp)) +++
  when_enc (7 <=? version)
    (write_i16 (r_error_code resp) +++ write_i32 (r_session_id resp)) +++
  write_array (write_topic_response version flexible) (responses resp) flexible +++
  when_enc flexible Tagged.write_empty.

Definition read_aborted_transaction (flexible : bool) : reader AbortedTransaction :=
  producer_id ← read_i64; first_offset ← read_i64;
  (if flexible then Tagged.read else mret tt);;
  mret {| producer_id := producer_id; first_offset := first_offset |}.

Definition read_partition_response (version : Z) (flexible : bool) :
    reader PartitionResponse :=
  partition_index ← read_i32; error_code ← read_i16; high_watermark ← read_i64;
  last_stable_offset ← (if 4 <=? version then read_i64 else mret (-1));
  log_start_offset ← (if 5 <=? version then read_i64 else mret (-1));
  aborted_transactions ← (if 4 <=? version then
    read_array flexible (read_aborted_transaction flexible) else mret []);
  preferred_read_replica ← (if 11 <=? version then read_i32 else mret (-1));
  records ← read_nullable_bytes flexible;
  (if flexible then Tagged.read else mret tt);;
  mret {| p_partition_index := partition_index; error_code := error_code;
          high_watermark := high_watermark; last_stable_offset := last_stable_offset;
          p_log_start_offset := log_start_offset;
          aborted_transactions := aborted_transactions;
          preferred_read_replica := preferred_read_replica; records := records |}.

Definition read_topic_response (version : Z) (flexible : bool) :
    reader TopicResponse :=
  name ← read_str flexible;
  partitions ← read_array flexible (read_partition_response version flexible);
  (if flexible then Tagged.read else mret tt);;
  mret {| t_name := name; t_partitions := partitions |}.

Definition decode_response (version : Z) : reader Response :=
  let flexible := MIN_FLEXIBLE <=? version in
  throttle_time_ms ← (if 1 <=? version then read_i32 else mret 0);
  '(error_code, session_id) ← (if 7 <=? version then
    error_code ← read_i16; session_id ← read_i32;
    mret (error_code, session_id) else mret (0, 0));
  responses ← read_array flexible (read_topic_response version flexible);
  (if flexible then Tagged.read else mret tt);;
  mret {| throttle_time_ms := throttle_time_ms; r_error_code := error_code;
          r_session_id := session_id; responses := responses |}.

Definition partition_ok (version : Z) (p : Partition) : Prop :=
  i32_ok (partition_index p) ∧ i32_ok (current_leader_epoch p) ∧
  gated (9 <=? version) (current_leader_epoch p) (-1) ∧ i64_ok (fetch_offset p) ∧
  i32_ok (last_fetched_epoch p) ∧ gated (12 <=? version) (last_fetched_epoch p) (-1) ∧
  i64_ok (log_start_offset p) ∧ gated (5 <=? version) (log_start_offset p) (-1) ∧
  i32_ok (partition_max_bytes p).
Definition topic_ok (version : Z) (t : Topic) : Prop :=
  wire_str (name t) ∧ wire_len (partitions t) ∧
  Forall (partition_ok version) (partitions t).
Definition forgotten_topic_ok (f : ForgottenTopic) : Prop :=
  wire_str (f_name f) ∧ wire_len (f_partitions f) ∧ Forall i32_ok (f_partitions f).
Definition aborted_transaction_ok (a : AbortedTransaction) : Prop :=
  i64_ok (producer_id a) ∧ i64_ok (first_offset a).
Definition partition_response_ok (version : Z) (p : PartitionResponse) : Prop :=
  i32_ok (p_partition_index p) ∧ i16_ok (error_code p) ∧ i64_ok (high_watermark p) ∧
  i64_ok (last_stable_offset p) ∧ gated (4 <=? version) (last_stable_offset p) (-1) ∧
  i64_ok (p_log_start_offset p) ∧ gated (5 <=? version) (p_log_start_offset p) (-1) ∧
  wire_len (aborted_transactions p) ∧
  Forall aborted_transaction_ok (aborted_transactions p) ∧
  gated (4 <=? version) (aborted_transactions p) [] ∧ i32_ok (preferred_read_replica p) ∧
  gated (11 <=? version) (preferred_read_replica p) (-1) ∧ wire_opt_bytes (records p).
Definition topic_response_ok (version : Z) (t : TopicResponse) : Prop :=
  wire_str (t_name t) ∧ wire_len (t_partitions t) ∧
  Forall (partition_response_ok version) (t_partitions t).
Definition request_ok (version : Z) (r : Request) : Prop :=
  i32_ok (replica_id r) ∧ i32_ok (max_wait_ms r) ∧ i32_ok (min_bytes r) ∧
  i32_ok (max_bytes r) ∧ gated (3 <=? version) (max_bytes r) i32_max ∧
  i8_ok (isolation_level r) ∧ gated (4 <=? version) (isolation_level r) 0 ∧
  i32_ok (session_id r) ∧ i32_ok (session_epoch r) ∧
  gated (7 <=? version) (session_id r, session_epoch r) (0, -1) ∧ wire_len (topics r) ∧
  Forall (topic_ok version) (topics r) ∧ wire_len (forgotten_topics r) ∧
  Forall forgotten_topic_ok (forgotten_topics r) ∧
  gated (7 <=? version) (forgotten_topics r) [] ∧ wire_str (rack_id r) ∧
  gated (11 <=? version) (rack_id r) ""%string.
Definition response_ok (version : Z) (r : Response) : Prop :=
  i32_ok (throttle_time_ms r) ∧ gated (1 <=? version) (throttle_time_ms r) 0 ∧
  i16_ok (r_error_code r) ∧ i32_ok (r_session_id r) ∧
  gated (7 <=? version) (r_error_code r, r_session_id r) (0, 0) ∧ wire_len (responses r) ∧
  Forall (topic_response_ok version) (responses r).

Lemma rt_fetch_partition version flexible p :
  partition_ok version p →
  rt (write_partition version flexible p)
    (read_partition version flexible) p.
Proof.
  destruct p. intros (?&?&?&?&?&?&?&?&?).
  unfold write_partition, read_partition. codec.
Qed.
#[local] Hint Resolve rt_fetch_partition : codec.
Lemma rt_fetch_topic version flexible t :
  topic_ok version t →
  rt (write_topic version flexible t)
    (read_topic version flexible) t.
Proof.
  destruct t. intros (?&?&?).
  unfold write_topic, read_topic. codec.
Qed.
#[local] Hint Resolve rt_fetch_topic : codec.
Lemma rt_fetch_forgotten_topic flexible f :
  forgotten_topic_ok f →
  rt (write_forgotten_topic flexible f)
    (read_forgotten_topic flexible) f.
Proof.
  destruct f. intros (?&?&?).
  unfold write_forgotten_topic, read_forgotten_topic. codec.
Qed.
#[local] Hint Resolve rt_fetch_forgotten_topic : codec.
Lemma rt_fetch_aborted_transaction flexible a :
  aborted_transaction_ok a →
  rt (write_aborted_transaction flexible a)
    (read_aborted_transaction flexible) a.
Proof.
  destruct a. intros (?&?).
  unfold write_aborted_transaction, read_aborted_transaction. codec.
Qed.
#[local] Hint Resolve rt_fetch_aborted_transaction : codec.
Lemma rt_fetch_partition_response version flexible p :
  partition_response_ok version p →
  rt (write_partition_response version flexible p)
    (read_partition_response version flexible) p.
Proof.
  destruct p. intros (?&?&?&?&?&?&?&?&?&?&?&?&?).
  unfold write_partition_response, read_partition_response. codec.
Qed.
#[local] Hint Resolve rt_fetch_partition_response : codec.
Lemma rt_fetch_topic_response version flexible t :
  topic_response_ok version t →
  rt (write_topic_response version flexible t)
    (read_topic_response version flexible) t.
Proof.
  destruct t. intros (?&?&?).
  unfold write_topic_response, read_topic_response. codec.
Qed.
#[local] Hint Resolve rt_fetch_topic_response : codec.

#[global] Instance request_message : Message Request.
Proof.
  refine {| encode := request_wire; decode := decode_request; msg_ok := request_ok |}.
  intros v []. unfold request_ok. simpl. intros (?&?&?&?&?&?&?&?&?&?&?&?&?&?&?&?&?).
  unfold request_wire, decode_request;
    cbn [replica_id max_wait_ms min_bytes max_bytes isolation_level session_id session_epoch
    topics forgotten_topics rack_id].
  codec.
Defined.

#[global] Instance response_message : Message Response.
Proof.
  refine {| encode := encode_response; decode := decode_response; msg_ok := response_ok |}.
  intros v []. unfold response_ok. simpl. intros (?&?&?&?&?&?&?).
  unfold encode_response, decode_response;
    cbn [throttle_time_ms r_error_code r_session_id responses].
  codec.
Defined.

End Fetch.

Module ListOffsets.

Definition VERSIONS : Z * Z := (1, 7).
Definition MIN_FLEXIBLE : Z := 6.
Definition SPEC : ApiSpec := spec_row 2 1 7 MIN_FLEXIBLE.

Record Partition := { partition_index : Z; current_leader_epoch : Z; timestamp : Z }.
Record Topic := { name : string; partitions : list Partition }.
Record Request := { replica_id : Z; isolation_level : Z; topics : list Topic }.
Record PartitionResponse := {
  p_partition_index : Z; error_code : Z; p_timestamp : Z; offset : Z; leader_epoch : Z }.
Record TopicResponse := { t_name : string; t_partitions : list PartitionResponse }.
Record Response := { throttle_time_ms : Z; r_topics : list TopicResponse }.

Definition read_partition (version : Z) (flexible : bool) : reader Partition :=
  partition_index ← read_i32;
  current_leader_epoch ← (if 4 <=? version then read_i32 else mret (-1));
  timestamp ← read_i64;
  (if flexible then Tagged.read else mret tt);;
  mret {| partition_index := partition_index; current_leader_epoch := current_leader_epoch;
          timestamp := timestamp |}.

Definition read_topic (version : Z) (flexible : bool) : reader Topic :=
  name ← read_str flexible;
  partitions ← read_array flexible (read_partition version flexible);
  (if flexible then Tagged.read else mret tt);;
  mret {| name := name; partitions := partitions |}.

Definition decode_request (version : Z) : reader Request :=
  let flexible := MIN_FLEXIBLE <=? version in
  replica_id ← read_i32;
  isolation_level ← (if 2 <=? version then read_i8 else mret 0);
  topics ← read_array flexible (read_topic version flexible);
  (if flexible then Tagged.read else mret tt);;
  mret {| replica_id := replica_id; isolation_level := isolation_level; topics := topics |}.

Definition write_partition (version : Z) (flexible : bool) (p : Partition) : enc :=
  write_i32 (partition_index p) +++
  when_enc (4 <=? version) (write_i32 (current_leader_epoch p)) +++
  write_i64 (timestamp p) +++ when_enc flexible Tagged.write_empty.

Definition write_topic (version : Z) (flexible : bool) (t : Topic) : enc :=
  write_str (name t) flexible +++
  write_array (write_partition version flexible) (partitions t) flexible +++
  when_enc flexible Tagged.write_empty.

Definition request_wire (req : Request) (version : Z) : enc :=
  let flexible := MIN_FLEXIBLE <=? version in
  write_i32 (replica_id req) +++
  when_enc (2 <=? version) (write_i8 (isolation_level req)) +++
  write_array (write_topic version flexible) (topics req) flexible +++
  when_enc flexible Tagged.write_empty.

Definition write_partition_response (version : Z) (flexible : bool) (p : PartitionResponse) :
    enc :=
  write_i32 (p_partition_index p) +++ write_i16 (error_code p) +++
  when_enc (1 <=? version)
    (write_i64 (p_timestamp p) +++ write_i64 (offset p)) +++
  when_enc (4 <=? version) (write_i32 (leader_epoch p)) +++
  when_enc flexible Tagged.write_empty.

Definition write_topic_response (version : Z) (flexible : bool) (t : TopicResponse) :
    enc :=
  write_str (t_name t) flexible +++
  write_array (write_partition_response version flexible) (t_partitions t) flexible +++
  when_enc flexible Tagged.write_empty.

Definition encode_response (resp : Response) (version : Z) : enc :=
  let flexible := MIN_FLEXIBLE <=? version in
  when_enc (2 <=? version) (write_i32 (throttle_time_ms resp)) +++
  write_array (write_topic_response version flexible) (r_topics resp) flexible +++
  when_enc flexible Tagged.write_empty.

Definition read_partition_response (version : Z) (flexible : bool) :
    reader PartitionResponse :=
  partition_index ← read_i32; error_code ← read_i16;
  '(timestamp, offset) ← (if 1 <=? version then
    timestamp ← read_i64; offset ← read_i64;
    mret (timestamp, offset) else mret (-1, -1));
  leader_epoch ← (if 4 <=? version then read_i32 else mret (-1));
  (if flexible then Tagged.read else mret tt);;
  mret {| p_partition_index := partition_index; error_code := error_code;
          p_timestamp := timestamp; offset := offset; leader_epoch := leader_epoch |}.

Definition read_topic_response (version : Z) (flexible : bool) :
    reader TopicResponse :=
  name ← read_str flexible;
  partitions ← read_array flexible (read_partition_response version flexible);
  (if flexible then Tagged.read else mret tt);;
  mret {| t_name := name; t_partitions := partitions |}.

Definition decode_response (version : Z) : reader Response :=
  let flexible := MIN_FLEXIBLE <=? version in
  throttle_time_ms ← (if 2 <=? version then read_i32 else mret 0);
  topics ← read_array flexible (read_topic_response version flexible);
  (if flexible then Tagged.read else mret tt);;
  mret {| throttle_time_ms := throttle_time_ms; r_topics := topics |}.

Definition partition_ok (version : Z) (p : Partition) : Prop :=
  i32_ok (partition_index p) ∧ i32_ok (current_leader_epoch p) ∧
  gated (4 <=? version) (current_leader_epoch p) (-1) ∧ i64_ok (timestamp p).
Definition topic_ok (version : Z) (t : Topic) : Prop :=
  wire_str (name t) ∧ wire_len (partitions t) ∧
  Forall (partition_ok version) (partitions t).
Definition partition_response_ok (version : Z) (p : PartitionResponse) : Prop :=
  i32_ok (p_partition_index p) ∧ i16_ok (error_code p) ∧ i64_ok (p_timestamp p) ∧
  i64_ok (offset p) ∧ gated (1 <=? version) (p_timestamp p, offset p) (-1, -1) ∧
  i32_ok (leader_epoch p) ∧ gated (4 <=? version) (leader_epoch p) (-1).
Definition topic_response_ok (version : Z) (t : TopicResponse) : Prop :=
  wire_str (t_name t) ∧ wire_len (t_partitions t) ∧
  Forall (partition_response_ok version) (t_partitions t).
Definition request_ok (version : Z) (r : Request) : Prop :=
  i32_ok (replica_id r) ∧ i8_ok (isolation_level r) ∧
  gated (2 <=? version) (isolation_level r) 0 ∧ wire_len (topics r) ∧
  Forall (topic_ok version) (topics r).
Definition response_ok (version : Z) (r : Response) : Prop :=
  i32_ok (throttle_time_ms r) ∧ gated (2 <=? version) (throttle_time_ms r) 0 ∧
  wire_len (r_topics r) ∧ Forall (topic_response_ok version) (r_topics r).

Lemma rt_list_offsets_partition version flexible p :
  partition_ok version p →
  rt (write_partition version flexible p)
    (read_partition version flexible) p.
Proof.
  destruct p. intros (?&?&?&?).
  unfold write_partition, read_partition. codec.
Qed.
#[local] Hint Resolve rt_list_offsets_partition : codec.
Lemma rt_list_offsets_topic version flexible t :
  topic_ok version t →
  rt (write_topic version flexible t)
    (read_topic version flexible) t.
Proof.
  destruct t. intros (?&?&?).
  unfold write_topic, read_topic. codec.
Qed.
#[local] Hint Resolve rt_list_offsets_topic : codec.
Lemma rt_list_offsets_partition_response version flexible p :
  partition_response_ok version p →
  rt (write_partition_response version flexible p)
    (read_partition_response version flexible) p.
Proof.
  destruct p. intros (?&?&?&?&?&?&?).
  unfold write_partition_response, read_partition_response. codec.
Qed.
#[local] Hint Resolve rt_list_offsets_partition_response : codec.
Lemma rt_list_offsets_topic_response version flexible t :
  topic_response_ok version t →
  rt (write_topic_response version flexible t)
    (read_topic_response version flexible) t.
Proof.
  destruct t. intros (?&?&?).
  unfold write_topic_response, read_topic_response. codec.
Qed.
#[local] Hint Resolve rt_list_offsets_topic_response : codec.

#[global] Instance request_message : Message Request.
Proof.
  refine {| encode := request_wire; decode := decode_request; msg_ok := request_ok |}.
  intros v []. unfold request_ok. simpl. intros (?&?&?&?&?).
  unfold request_wire, decode_request;
    cbn [replica_id isolation_level topics].
  codec.
Defined.

#[global] Instance response_message : Message Response.
Proof.
  refine {| encode := encode_response; decode := decode_response; msg_ok := response_ok |}.
  intros v []. unfold response_ok. simpl. intros (?&?&?&?).
  unfold encode_response, decode_response;
    cbn [throttle_time_ms r_topics].
  codec.
Defined.

End ListOffsets.

Module DeleteRecords.

Definition VERSIONS : Z * Z := (0, 2).
Definition MIN_FLEXIBLE : Z := 2.
Definition SPEC : ApiSpec := spec_row 21 0 2 MIN_FLEXIBLE.

Record DeleteRecordsPartition := { partition_index : Z; offset : Z }.
Record DeleteRecordsTopic := { name : string; partitions : list DeleteRecordsPartition }.
Record Request := { topics : list DeleteRecordsTopic; timeout_ms : Z }.
Record DeleteRecordsPartitionResult := {
  p_partition_index : Z; low_watermark : Z; error_code : Z }.
Record DeleteRecordsTopicResult := {
  t_name : string; t_partitions : list DeleteRecordsPartitionResult }.
Record Response := { throttle_time_ms : Z; r_topics : list DeleteRecordsTopicResult }.

Definition read_partition (flexible : bool) : reader DeleteRecordsPartition :=
  partition_index ← read_i32; offset ← read_i64;
  (if flexible then Tagged.read else mret tt);;
  mret {| partition_index := partition_index; offset := offset |}.

Definition read_topic (flexible : bool) : reader DeleteRecordsTopic :=
  name ← read_str flexible; partitions ← read_array flexible (read_partition flexible);
  (if flexible then Tagged.read else mret tt);;
  mret {| name := name; partitions := partitions |}.

Definition decode_request (version : Z) : reader Request :=
  let flexible := MIN_FLEXIBLE <=? version in
  topics ← read_array flexible (read_topic flexible); timeout_ms ← read_i32;
  (if flexible then Tagged.read else mret tt);;
  mret {| topics := topics; timeout_ms := timeout_ms |}.

Definition write_partition (flexible : bool) (d : DeleteRecordsPartition) : enc :=
  write_i32 (partition_index d) +++ write_i64 (offset d) +++
  when_enc flexible Tagged.write_empty.

Definition write_topic (flexible : bool) (d : DeleteRecordsTopic) : enc :=
  write_str (name d) flexible +++
  write_array (write_partition flexible) (partitions d) flexible +++
  when_enc flexible Tagged.write_empty.

Definition encode_request (req : Request) (version : Z) : enc :=
  let flexible := MIN_FLEXIBLE <=? version in
  write_array (write_topic flexible) (topics req) flexible +++
  write_i32 (timeout_ms req) +++ when_enc flexible Tagged.write_empty.

Definition write_partition_result (flexible : bool) (d : DeleteRecordsPartitionResult) :
    enc :=
  write_i32 (p_partition_index d) +++ write_i64 (low_watermark d) +++
  write_i16 (error_code d) +++ when_enc flexible Tagged.write_empty.

Definition write_topic_result (flexible : bool) (d : DeleteRecordsTopicResult) :
    enc :=
  write_str (t_name d) flexible +++
  write_array (write_partition_result flexible) (t_partitions d) flexible +++
  when_enc flexible Tagged.write_empty.

Definition encode_response (resp : Response) (version : Z) : enc :=
  let flexible := MIN_FLEXIBLE <=? version in
  write_i32 (throttle_time_ms resp) +++
  write_array (write_topic_result flexible) (r_topics resp) flexible +++
  when_enc flexible Tagged.write_empty.

Definition read_partition_result (flexible : bool) :
    reader DeleteRecordsPartitionResult :=
  partition_index ← read_i32; low_watermark ← read_i64; error_code ← read_i16;
  (if flexible then Tagged.read else mret tt);;
  mret {| p_partition_index := partition_index; low_watermark := low_watermark;
          error_code := error_code |}.

Definition read_topic_result (flexible : bool) : reader DeleteRecordsTopicResult :=
  name ← read_str flexible;
  partitions ← read_array flexible (read_partition_result flexible);
  (if flexible then Tagged.read else mret tt);;
  mret {| t_name := name; t_partitions := partitions |}.

Definition decode_response (version : Z) : reader Response :=
  let flexible := MIN_FLEXIBLE <=? version in
  throttle_time_ms ← read_i32;
  topics ← read_array flexible (read_topic_result flexible);
  (if flexible then Tagged.read else mret tt);;
  mret {| throttle_time_ms := throttle_time_ms; r_topics := topics |}.

Definition partition_ok (d : DeleteRecordsPartition) : Prop :=
  i32_ok (partition_index d) ∧ i64_ok (offset d).
Definition topic_ok (d : DeleteRecordsTopic) : Prop :=
  wire_str (name d) ∧ wire_len (partitions d) ∧ Forall partition_ok (partitions d).
Definition partition_result_ok (d : DeleteRecordsPartitionResult) : Prop :=
  i32_ok (p_partition_index d) ∧ i64_ok (low_watermark d) ∧ i16_ok (error_code d).
Definition topic_result_ok (d : DeleteRecordsTopicResult) : Prop :=
  wire_str (t_name d) ∧ wire_len (t_partitions d) ∧
  Forall partition_result_ok (t_partitions d).
Definition request_ok (version : Z) (r : Request) : Prop :=
  wire_len (topics r) ∧ Forall topic_ok (topics r) ∧ i32_ok (timeout_ms r).
Definition response_ok (version : Z) (r : Response) : Prop :=
  i32_ok (throttle_time_ms r) ∧ wire_len (r_topics r) ∧ Forall topic_result_ok (r_topics r).

Lemma rt_delete_records_partition flexible d :
  partition_ok d →
  rt (write_partition flexible d)
    (read_partition flexible) d.
Proof.
  destruct d. intros (?&?).
  unfold write_partition, read_partition. codec.
Qed.
#[local] Hint Resolve rt_delete_records_partition : codec.
Lemma rt_delete_records_topic flexible d :
  topic_ok d →
  rt (write_topic flexible d)
    (read_topic flexible) d.
Proof.
  destruct d. intros (?&?&?).
  unfold write_topic, read_topic. codec.
Qed.
#[local] Hint Resolve rt_delete_records_topic : codec.
Lemma rt_delete_records_partition_result flexible d :
  partition_result_ok d →
  rt (write_partition_result flexible d)
    (read_partition_result flexible) d.
Proof.
  destruct d. intros (?&?&?).
  unfold write_partition_result, read_partition_result. codec.
Qed.
#[local] Hint Resolve rt_delete_records_partition_result : codec.
Lemma rt_delete_records_topic_result flexible d :
  topic_result_ok d →
  rt (write_topic_result flexible d)
    (read_topic_result flexible) d.
Proof.
  destruct d. intros (?&?&?).
  unfold write_topic_result, read_topic_result. codec.
Qed.
#[local] Hint Resolve rt_delete_records_topic_result : codec.

#[global] Instance request_message : Message Request.
Proof.
  refine {| encode := encode_request; decode := decode_request; msg_ok := request_ok |}.
  intros v []. unfold request_ok. simpl. intros (?&?&?).
  unfold encode_request, decode_request;
    cbn [topics timeout_ms].
  codec.
Defined.

#[global] Instance response_message : Message Response.
Proof.
  refine {| encode := encode_response; decode := decode_response; msg_ok := response_ok |}.
  intros v []. unfold response_ok. simpl. intros (?&?&?).
  unfold encode_response, decode_response;
    cbn [throttle_time_ms r_topics].
  codec.
Defined.

End DeleteRecords.

Module Metadata.

Definition VERSIONS : Z * Z := (1, 10).
Definition MIN_FLEXIBLE : Z := 9.
Definition SPEC : ApiSpec := spec_row 3 1 10 MIN_FLEXIBLE.

Record Request := {
  topics : list string; allow_auto_topic_creation : bool;
  include_cluster_authorized_operations : bool; include_topic_authorized_operations : bool }.
Record Broker := { node_id : Z; host : string; port : Z; rack : option string }.
Record Partition := {
  error_code : Z; partition_index : Z; leader_id : Z; leader_epoch : Z;
  replica_nodes : list Z; isr_nodes : list Z; offline_replicas : list Z }.
Record Topic := {
  t_error_code : Z; name : string; topic_id : list byte; is_internal : bool;
  partitions : list Partition; topic_authorized_operations : Z }.
Record Response := {
  throttle_time_ms : Z; brokers : list Broker; cluster_id : option string;
  controller_id : Z; r_topics : list Topic; cluster_authorized_operations : Z }.

Definition NULL_TOPIC_ID : list byte := replicate 16 (z2b 0).

Definition write_broker (version : Z) (flexible : bool) (b : Broker) : enc :=
  write_i32 (node_id b) +++ write_str (host b) flexible +++ write_i32 (port b) +++
  when_enc (1 <=? version) (write_nullable_str (rack b) flexible) +++
  when_enc flexible Tagged.write_empty.

Definition write_partition (version : Z) (flexible : bool) (p : Partition) : enc :=
  write_i16 (error_code p) +++ write_i32 (partition_index p) +++
  write_i32 (leader_id p) +++ when_enc (7 <=? version) (write_i32 (leader_epoch p)) +++
  write_array write_i32 (replica_nodes p) flexible +++
  write_array write_i32 (isr_nodes p) flexible +++
  when_enc (5 <=? version) (write_array write_i32 (offline_replicas p) flexible) +++
  when_enc flexible Tagged.write_empty.

Definition write_topic (version : Z) (flexible : bool) (t : Topic) : enc :=
  write_i16 (t_error_code t) +++ write_str (name t) flexible +++
  when_enc (10 <=? version) (write_uuid (topic_id t)) +++
  when_enc (1 <=? version) (write_flag (is_internal t)) +++
  write_array (write_partition version flexible) (partitions t) flexible +++
  when_enc (8 <=? version) (write_i32 (topic_authorized_operations t)) +++
  when_enc flexible Tagged.write_empty.

Definition encode_response (resp : Response) (version : Z) : enc :=
  let flexible := MIN_FLEXIBLE <=? version in
  when_enc (3 <=? version) (write_i32 (throttle_time_ms resp)) +++
  write_array (write_broker version flexible) (brokers resp) flexible +++
  when_enc (2 <=? version) (write_nullable_str (cluster_id resp) flexible) +++
  when_enc (1 <=? version) (write_i32 (controller_id resp)) +++
  write_array (write_topic version flexible) (r_topics resp) flexible +++
  when_enc ((8 <=? version) && (version <=? 10))
    (write_i32 (cluster_authorized_operations resp)) +++
  when_enc flexible Tagged.write_empty.

Definition read_broker (version : Z) (flexible : bool) : reader Broker :=
  node_id ← read_i32; host ← read_str flexible; port ← read_i32;
  rack ← (if 1 <=? version then read_nullable_str flexible else mret None);
  (if flexible then Tagged.read else mret tt);;
  mret {| node_id := node_id; host := host; port := port; rack := rack |}.

Definition read_partition (version : Z) (flexible : bool) : reader Partition :=
  error_code ← read_i16; partition_index ← read_i32; leader_id ← read_i32;
  leader_epoch ← (if 7 <=? version then read_i32 else mret (-1));
  replica_nodes ← read_array flexible read_i32;
  isr_nodes ← read_array flexible read_i32;
  offline_replicas ← (if 5 <=? version then read_array flexible read_i32 else mret []);
  (if flexible then Tagged.read else mret tt);;
  mret {| error_code := error_code; partition_index := partition_index;
          leader_id := leader_id; leader_epoch := leader_epoch;
          replica_nodes := replica_nodes; isr_nodes := isr_nodes;
          offline_replicas := offline_replicas |}.

Definition read_topic (version : Z) (flexible : bool) : reader Topic :=
  error_code ← read_i16; name ← read_str flexible;
  topic_id ← (if 10 <=? version then read_uuid else mret NULL_TOPIC_ID);
  is_internal ← (if 1 <=? version then read_flag else mret false);
  partitions ← read_array flexible (read_partition version flexible);
  topic_authorized_operations ← (if 8 <=? version then read_i32 else mret 0);
  (if flexible then Tagged.read else mret tt);;
  mret {| t_error_code := error_code; name := name; topic_id := topic_id;
          is_internal := is_internal; partitions := partitions;
          topic_authorized_operations := topic_authorized_operations |}.

Definition decode_response (version : Z) : reader Response :=
  let flexible := MIN_FLEXIBLE <=? version in
  throttle_time_ms ← (if 3 <=? version then read_i32 else mret 0);
  brokers ← read_array flexible (read_broker version flexible);
  cluster_id ← (if 2 <=? version then read_nullable_str flexible else mret None);
  controller_id ← (if 1 <=? version then read_i32 else mret (-1));
  topics ← read_array flexible (read_topic version flexible);
  cluster_authorized_operations ← (if (8 <=? version) && (version <=? 10) then
    read_i32 else mret 0);
  (if flexible then Tagged.read else mret tt);;
  mret {| throttle_time_ms := throttle_time_ms; brokers := brokers;
          cluster_id := cluster_id; controller_id := controller_id; r_topics := topics;
          cluster_authorized_operations := cluster_authorized_operations |}.

Definition broker_ok (version : Z) (b : Broker) : Prop :=
  i32_ok (node_id b) ∧ wire_str (host b) ∧ i32_ok (port b) ∧ wire_opt_str (rack b) ∧
  gated (1 <=? version) (rack b) None.
Definition partition_ok (version : Z) (p : Partition) : Prop :=
  i16_ok (error_code p) ∧ i32_ok (partition_index p) ∧ i32_ok (leader_id p) ∧
  i32_ok (leader_epoch p) ∧ gated (7 <=? version) (leader_epoch p) (-1) ∧
  wire_len (replica_nodes p) ∧ Forall i32_ok (replica_nodes p) ∧ wire_len (isr_nodes p) ∧
  Forall i32_ok (isr_nodes p) ∧ wire_len (offline_replicas p) ∧
  Forall i32_ok (offline_replicas p) ∧ gated (5 <=? version) (offline_replicas p) [].
Definition topic_ok (version : Z) (t : Topic) : Prop :=
  i16_ok (t_error_code t) ∧ wire_str (name t) ∧ uuid_ok (topic_id t) ∧
  gated (10 <=? version) (topic_id t) NULL_TOPIC_ID ∧
  gated (1 <=? version) (is_internal t) false ∧ wire_len (partitions t) ∧
  Forall (partition_ok version) (partitions t) ∧ i32_ok (topic_authorized_operations t) ∧
  gated (8 <=? version) (topic_authorized_operations t) 0.
Definition response_ok (version : Z) (r : Response) : Prop :=
  i32_ok (throttle_time_ms r) ∧ gated (3 <=? version) (throttle_time_ms r) 0 ∧
  wire_len (brokers r) ∧ Forall (broker_ok version) (brokers r) ∧
  wire_opt_str (cluster_id r) ∧ gated (2 <=? version) (cluster_id r) None ∧
  i32_ok (controller_id r) ∧ gated (1 <=? version) (controller_id r) (-1) ∧
  wire_len (r_topics r) ∧ Forall (topic_ok version) (r_topics r) ∧
  i32_ok (cluster_authorized_operations r) ∧
  gated ((8 <=? version) && (version <=? 10)) (cluster_authorized_operations r) 0.

Lemma rt_metadata_broker version flexible b :
  broker_ok version b →
  rt (write_broker version flexible b)
    (read_broker version flexible) b.
Proof.
  destruct b. intros (?&?&?&?&?).
  unfold write_broker, read_broker. codec.
Qed.
#[local] Hint Resolve rt_metadata_broker : codec.
Lemma rt_metadata_partition version flexible p :
  partition_ok version p →
  rt (write_partition version flexible p)
    (read_partition version flexible) p.
Proof.
  destruct p. intros (?&?&?&?&?&?&?&?&?&?&?&?).
  unfold write_partition, read_partition. codec.
Qed.
#[local] Hint Resolve rt_metadata_partition : codec.
Lemma rt_metadata_topic version flexible t :
  topic_ok version t →
  rt (write_topic version flexible t)
    (read_topic version flexible) t.
Proof.
  destruct t. intros (?&?&?&?&?&?&?&?&?).
  unfold write_topic, read_topic. codec.
Qed.
#[local] Hint Resolve rt_metadata_topic : codec.

#[global] Instance response_message : Message Response.
Proof.
  refine {| encode := encode_response; decode := decode_response; msg_ok := response_ok |}.
  intros v []. unfold response_ok. simpl. intros (?&?&?&?&?&?&?&?&?&?&?&?).
  unfold encode_response, decode_response;
    cbn [throttle_time_ms brokers cluster_id controller_id r_topics
    cluster_authorized_operations].
  codec.
Defined.

(** A requested topic's name: from version 10 behind its 16-byte id, nullable. *)
Definition read_topic_name (version : Z) (flexible : bool) : reader string :=
  name ← (if flexible && (10 <=? version) then
            read_raw 16;; o ← read_nullable_str true; mret (default ""%string o)
          else read_str flexible);
  (if flexible then Tagged.read else mret tt);;
  mret name.

Definition decode_request (version : Z) : reader Request :=
  let flexible := MIN_FLEXIBLE <=? version in
  names ← read_array flexible (read_topic_name version flexible);
  allow ← (if 4 <=? version then read_flag else mret true);
  cluster ← (if (8 <=? version) && (version <=? 10) then read_flag else mret false);
  topic ← (if 8 <=? version then read_flag else mret false);
  (if flexible then Tagged.read else mret tt);;
  mret {| topics := filter (λ n, n ≠ ""%string) names; allow_auto_topic_creation := allow;
          include_cluster_authorized_operations := cluster;
          include_topic_authorized_operations := topic |}.

Definition write_topic_name (version : Z) (flexible : bool) (n : string) : enc :=
  (if flexible && (10 <=? version)
   then write_raw NULL_TOPIC_ID +++ write_nullable_str (Some n) true
   else write_str n flexible) +++
  when_enc flexible Tagged.write_empty.

Definition request_wire (req : Request) (version : Z) : enc :=
  let flexible := MIN_FLEXIBLE <=? version in
  write_array (write_topic_name version flexible) (topics req) flexible +++
  when_enc (4 <=? version) (write_flag (allow_auto_topic_creation req)) +++
  when_enc ((8 <=? version) && (version <=? 10))
    (write_flag (include_cluster_authorized_operations req)) +++
  when_enc (8 <=? version) (write_flag (include_topic_authorized_operations req)) +++
  when_enc flexible Tagged.write_empty.

Definition topic_name_ok (n : string) : Prop := wire_str n ∧ n ≠ ""%string.
Definition request_ok (version : Z) (r : Request) : Prop :=
  wire_len (topics r) ∧ Forall topic_name_ok (topics r) ∧
  gated (4 <=? version) (allow_auto_topic_creation r) true ∧
  gated ((8 <=? version) && (version <=? 10)) (include_cluster_authorized_operations r) false ∧
  gated (8 <=? version) (include_topic_authorized_operations r) false.

Lemma rt_metadata_topic_name version flexible n :
  topic_name_ok n →
  rt (write_topic_name version flexible n) (read_topic_name version flexible) n.
Proof.
  intros [Hn _]. unfold write_topic_name, read_topic_name.
  eapply rt_bind; [|apply Tagged.rt_tail].
  destruct (flexible && (10 <=? version)); [|by apply rt_str].
  eapply (rt_bind _ _ _ _ NULL_TOPIC_ID); [by apply rt_topic_id|].
  apply (rt_bind_ret _ _ (default ""%string) (Some n)), rt_nullable_str.
  by intros ? [= <-].
Qed.
#[local] Hint Resolve rt_metadata_topic_name : codec.

#[global] Instance request_message : Message Request.
Proof.
  refine {| encode := request_wire; decode := decode_request; msg_ok := request_ok |}.
  intros v []. unfold request_ok. simpl. intros (?&Hn&?&?&?).
  unfold request_wire, decode_request; cbn [topics allow_auto_topic_creation
    include_cluster_authorized_operations include_topic_authorized_operations].
  codec. rewrite list_filter_all; [apply Tagged.rt_tail|].
  eapply Forall_impl; [done|]. by intros ? [].
Defined.

End Metadata.

(** C40. Every well-formed request and response of the data-plane APIs is read back
    from what is written, at every version. *)
Theorem data_messages_roundtrip v :
  (∀ m, Produce.request_ok v m →
     rt (Produce.request_wire m v)
       (Produce.decode_request v) m) ∧
  (∀ m, Produce.response_ok v m →
     rt (Produce.encode_response m v)
       (Produce.decode_response v) m) ∧
  (∀ m, Fetch.request_ok v m →
     rt (Fetch.request_wire m v)
       (Fetch.decode_request v) m) ∧
  (∀ m, Fetch.response_ok v m →
     rt (Fetch.encode_response m v)
       (Fetch.decode_response v) m) ∧
  (∀ m, ListOffsets.request_ok v m →
     rt (ListOffsets.request_wire m v)
       (ListOffsets.decode_request v) m) ∧
  (∀ m, ListOffsets.response_ok v m →
     rt (ListOffsets.encode_response m v)
       (ListOffsets.decode_response v) m) ∧
  (∀ m, DeleteRecords.request_ok v m →
     rt (DeleteRecords.encode_request m v)
       (DeleteRecords.decode_request v) m) ∧
  (∀ m, DeleteRecords.response_ok v m →
     rt (DeleteRecords.encode_response m v)
       (DeleteRecords.decode_response v) m) ∧
  (∀ m, Metadata.request_ok v m →
     rt (Metadata.request_wire m v)
       (Metadata.decode_request v) m) ∧
  (∀ m, Metadata.response_ok v m →
     rt (Metadata.encode_response m v)
       (Metadata.decode_response v) m).
Proof. split_and!; intros m Hm; exact (msg_rt v m Hm). Qed.
