(* ===== verification/ApiCoord.v ===== *)
(** * Codecs of the coordinator APIs

    [api/offset_commit.rs], [api/offset_fetch.rs], [api/offset_delete.rs],
    [api/find_coordinator.rs], [api/describe_groups.rs], [api/list_groups.rs] and
    [api/delete_groups.rs]: what a consumer sends its coordinator besides the
    membership protocol. *)

From stdpp Require Import base gmap strings list.
From Stdlib Require Import Strings.Byte.
From S2P Require Import Prelude Primitives Wire.
Import Common.

Local Open Scope Z_scope.

Module OffsetCommit.

Definition VERSIONS : Z * Z := (2, 8).
Definition MIN_FLEXIBLE : Z := 8.
Definition SPEC : ApiSpec := spec_row 8 2 8 MIN_FLEXIBLE.

Record OffsetCommitPartition := {
  partition_index : Z; committed_offset : Z; committed_leader_epoch : Z;
  committed_metadata : option string }.
Record OffsetCommitTopic := { name : string; partitions : list OffsetCommitPartition }.
Record Request := {
  group_id : string; generation_id : Z; member_id : string;
  group_instance_id : option string; topics : list OffsetCommitTopic }.
Record OffsetCommitPartitionResponse := { p_partition_index : Z; error_code : Z }.
Record OffsetCommitTopicResponse := {
  t_name : string; t_partitions : list OffsetCommitPartitionResponse }.
Record Response := { throttle_time_ms : Z; r_topics : list OffsetCommitTopicResponse }.

Definition read_partition (version : Z) (flexible : bool) :
    reader OffsetCommitPartition :=
  partition_index ← read_i32; committed_offset ← read_i64;
  committed_leader_epoch ← (if 6 <=? version then read_i32 else mret (-1));
  committed_metadata ← read_nullable_str flexible;
  (if flexible then Tagged.read else mret tt);;
  mret {| partition_index := partition_index; committed_offset := committed_offset;
          committed_leader_epoch := committed_leader_epoch;
          committed_metadata := committed_metadata |}.

Definition read_topic (version : Z) (flexible : bool) : reader OffsetCommitTopic :=
  name ← read_str flexible;
  partitions ← read_array flexible (read_partition version flexible);
  (if flexible then Tagged.read else mret tt);;
  mret {| name := name; partitions := partitions |}.

Definition decode_request (version : Z) : reader Request :=
  let flexible := MIN_FLEXIBLE <=? version in
  group_id ← read_str flexible;
  '(generation_id, member_id) ← (if 1 <=? version then
    generation_id ← read_i32; member_id ← read_str flexible;
    mret (generation_id, member_id) else mret (0, ""%string));
  group_instance_id ← (if 7 <=? version then read_nullable_str flexible else mret None);
  topics ← read_array flexible (read_topic version flexible);
  (if flexible then Tagged.read else mret tt);;
  mret {| group_id := group_id; generation_id := generation_id; member_id := member_id;
          group_instance_id := group_instance_id; topics := topics |}.

Definition write_partition (version : Z) (flexible : bool) (o : OffsetCommitPartition) :
    enc :=
  write_i32 (partition_index o) +++ write_i64 (committed_offset o) +++
  when_enc (6 <=? version) (write_i32 (committed_leader_epoch o)) +++
  write_nullable_str (committed_metadata o) flexible +++
  when_enc flexible Tagged.write_empty.

Definition write_topic (version : Z) (flexible : bool) (o : OffsetCommitTopic) :
    enc :=
  write_str (name o) flexible +++
  write_array (write_partition version flexible) (partitions o) flexible +++
  when_enc flexible Tagged.write_empty.

Definition encode_request (req : Request) (version : Z) : enc :=
  let flexible := MIN_FLEXIBLE <=? version in
  write_str (group_id req) flexible +++
  when_enc (1 <=? version)
    (write_i32 (generation_id req) +++ write_str (member_id req) flexible) +++
  when_enc (7 <=? version) (write_nullable_str (group_instance_id req) flexible) +++
  write_array (write_topic version flexible) (topics req) flexible +++
  when_enc flexible Tagged.write_empty.

Definition write_partition_response (flexible : bool) (o : OffsetCommitPartitionResponse) :
    enc :=
  write_i32 (p_partition_index o) +++ write_i16 (error_code o) +++
  when_enc flexible Tagged.write_empty.

Definition write_topic_response (flexible : bool) (o : OffsetCommitTopicResponse) :
    enc :=
  write_str (t_name o) flexible +++
  write_array (write_partition_response flexible) (t_partitions o) flexible +++
  when_enc flexible Tagged.write_empty.

Definition encode_response (resp : Response) (version : Z) : enc :=
  let flexible := MIN_FLEXIBLE <=? version in
  when_enc (3 <=? version) (write_i32 (throttle_time_ms resp)) +++
  write_array (write_topic_response flexible) (r_topics resp) flexible +++
  when_enc flexible Tagged.write_empty.

Definition read_partition_response (flexible : bool) :
    reader OffsetCommitPartitionResponse :=
  partition_index ← read_i32; error_code ← read_i16;
  (if flexible then Tagged.read else mret tt);;
  mret {| p_partition_index := partition_index; error_code := error_code |}.

Definition read_topic_response (flexible : bool) : reader OffsetCommitTopicResponse :=
  name ← read_str flexible;
  partitions ← read_array flexible (read_partition_response flexible);
  (if flexible then Tagged.read else mret tt);;
  mret {| t_name := name; t_partitions := partitions |}.

Definition decode_response (version : Z) : reader Response :=
  let flexible := MIN_FLEXIBLE <=? version in
  throttle_time_ms ← (if 3 <=? version then read_i32 else mret 0);
  topics ← read_array flexible (read_topic_response flexible);
  (if flexible then Tagged.read else mret tt);;
  mret {| throttle_time_ms := throttle_time_ms; r_topics := topics |}.

Definition partition_ok (version : Z) (o : OffsetCommitPartition) : Prop :=
  i32_ok (partition_index o) ∧ i64_ok (committed_offset o) ∧
  i32_ok (committed_leader_epoch o) ∧
  gated (6 <=? version) (committed_leader_epoch o) (-1) ∧
  wire_opt_str (committed_metadata o).
Definition topic_ok (version : Z) (o : OffsetCommitTopic) : Prop :=
  wire_str (name o) ∧ wire_len (partitions o) ∧
  Forall (partition_ok version) (partitions o).
Definition partition_response_ok (o : OffsetCommitPartitionResponse) : Prop :=
  i32_ok (p_partition_index o) ∧ i16_ok (error_code o).
Definition topic_response_ok (o : OffsetCommitTopicResponse) : Prop :=
  wire_str (t_name o) ∧ wire_len (t_partitions o) ∧
  Forall partition_response_ok (t_partitions o).
Definition request_ok (version : Z) (r : Request) : Prop :=
  wire_str (group_id r) ∧ i32_ok (generation_id r) ∧ wire_str (member_id r) ∧
  gated (1 <=? version) (generation_id r, member_id r) (0, ""%string) ∧
  wire_opt_str (group_instance_id r) ∧ gated (7 <=? version) (group_instance_id r) None ∧
  wire_len (topics r) ∧ Forall (topic_ok version) (topics r).
Definition response_ok (version : Z) (r : Response) : Prop :=
  i32_ok (throttle_time_ms r) ∧ gated (3 <=? version) (throttle_time_ms r) 0 ∧
  wire_len (r_topics r) ∧ Forall topic_response_ok (r_topics r).

Lemma rt_offset_commit_partition version flexible o :
  partition_ok version o →
  rt (write_partition version flexible o)
    (read_partition version flexible) o.
Proof.
  destruct o. intros (?&?&?&?&?).
  unfold write_partition, read_partition. codec.
Qed.
#[local] Hint Resolve rt_offset_commit_partition : codec.
Lemma rt_offset_commit_topic version flexible o :
  topic_ok version o →
  rt (write_topic version flexible o)
    (read_topic version flexible) o.
Proof.
  destruct o. intros (?&?&?).
  unfold write_topic, read_topic. codec.
Qed.
#[local] Hint Resolve rt_offset_commit_topic : codec.
Lemma rt_offset_commit_partition_response flexible o :
  partition_response_ok o →
  rt (write_partition_response flexible o)
    (read_partition_response flexible) o.
Proof.
  destruct o. intros (?&?).
  unfold write_partition_response, read_partition_response. codec.
Qed.
#[local] Hint Resolve rt_offset_commit_partition_response : codec.
Lemma rt_offset_commit_topic_response flexible o :
  topic_response_ok o →
  rt (write_topic_response flexible o)
    (read_topic_response flexible) o.
Proof.
  destruct o. intros (?&?&?).
  unfold write_topic_response, read_topic_response. codec.
Qed.
#[local] Hint Resolve rt_offset_commit_topic_response : codec.

#[global] Instance request_message : Message Request.
Proof.
  refine {| encode := encode_request; decode := decode_request; msg_ok := request_ok |}.
  intros v []. unfold request_ok. simpl. intros (?&?&?&?&?&?&?&?).
  unfold encode_request, decode_request;
    cbn [group_id generation_id member_id group_instance_id topics].
  codec.
Defined.

#[global] Instance response_message : Message Response.
Proof.
  refine {| encode := encode_response; decode := decode_response; msg_ok := response_ok |}.
  intros v []. unfold response_ok. simpl. intros (?&?&?&?).
  unfold encode_response, decode_response;
    cbn [throttle_time_ms r_topics].
  codec.
Defined.

End OffsetCommit.

Module OffsetFetch.

Definition VERSIONS : Z * Z := (1, 8).
Definition MIN_FLEXIBLE : Z := 6.
Definition SPEC : ApiSpec := spec_row 9 1 8 MIN_FLEXIBLE.

Record OffsetFetchTopic := { name : string; partition_indexes : list Z }.
Record OffsetFetchGroup := { g_group_id : string; g_topics : list OffsetFetchTopic }.
Record Request := {
  group_id : string; topics : option (list OffsetFetchTopic);
  groups : list OffsetFetchGroup; require_stable : bool }.
Record OffsetFetchPartitionResponse := {
  p_partition_index : Z; p_committed_offset : Z; p_committed_leader_epoch : Z;
  p_metadata : option string; p_error_code : Z }.
Record OffsetFetchTopicResponse := {
  t_name : string; t_partitions : list OffsetFetchPartitionResponse }.
Record OffsetFetchGroupResponse := {
  gr_group_id : string; gr_topics : list OffsetFetchTopicResponse; gr_error_code : Z }.
Record Response := {
  throttle_time_ms : Z; r_topics : list OffsetFetchTopicResponse; error_code : Z;
  r_groups : list OffsetFetchGroupResponse }.

Definition read_topic (flexible : bool) : reader OffsetFetchTopic :=
  name ← read_str flexible; partition_indexes ← read_array flexible read_i32;
  (if flexible then Tagged.read else mret tt);;
  mret {| name := name; partition_indexes := partition_indexes |}.

Definition read_group (flexible : bool) : reader OffsetFetchGroup :=
  group_id ← read_str flexible; topics ← read_array flexible (read_topic flexible);
  (if flexible then Tagged.read else mret tt);;
  mret {| g_group_id := group_id; g_topics := topics |}.

Definition write_topic (flexible : bool) (o : OffsetFetchTopic) : enc :=
  write_str (name o) flexible +++ write_array write_i32 (partition_indexes o) flexible +++
  when_enc flexible Tagged.write_empty.

Definition write_group (flexible : bool) (o : OffsetFetchGroup) : enc :=
  write_str (g_group_id o) flexible +++
  write_array (write_topic flexible) (g_topics o) flexible +++
  when_enc flexible Tagged.write_empty.

Definition write_partition_response (version : Z) (flexible : bool) (o : OffsetFetchPartitionResponse) :
    enc :=
  write_i32 (p_partition_index o) +++ write_i64 (p_committed_offset o) +++
  when_enc (5 <=? version) (write_i32 (p_committed_leader_epoch o)) +++
  write_nullable_str (p_metadata o) flexible +++ write_i16 (p_error_code o) +++
  when_enc flexible Tagged.write_empty.

Definition write_topic_response (version : Z) (flexible : bool) (o : OffsetFetchTopicResponse) :
    enc :=
  write_str (t_name o) flexible +++
  write_array (write_partition_response version flexible) (t_partitions o) flexible +++
  when_enc flexible Tagged.write_empty.

Definition write_group_response (version : Z) (flexible : bool) (o : OffsetFetchGroupResponse) :
    enc :=
  write_str (gr_group_id o) flexible +++
  write_array (write_topic_response version flexible) (gr_topics o) flexible +++
  write_i16 (gr_error_code o) +++ when_enc flexible Tagged.write_empty.

Definition read_partition_response (version : Z) (flexible : bool) :
    reader OffsetFetchPartitionResponse :=
  partition_index ← read_i32; committed_offset ← read_i64;
  committed_leader_epoch ← (if 5 <=? version then read_i32 else mret (-1));
  metadata ← read_nullable_str flexible; error_code ← read_i16;
  (if flexible then Tagged.read else mret tt);;
  mret {| p_partition_index := partition_index; p_committed_offset := committed_offset;
          p_committed_leader_epoch := committed_leader_epoch; p_metadata := metadata;
          p_error_code := error_code |}.

Definition read_topic_response (version : Z) (flexible : bool) :
    reader OffsetFetchTopicResponse :=
  name ← read_str flexible;
  partitions ← read_array flexible (read_partition_response version flexible);
  (if flexible then Tagged.read else mret tt);;
  mret {| t_name := name; t_partitions := partitions |}.

Definition read_group_response (version : Z) (flexible : bool) :
    reader OffsetFetchGroupResponse :=
  group_id ← read_str flexible;
  topics ← read_array flexible (read_topic_response version flexible);
  error_code ← read_i16;
  (if flexible then Tagged.read else mret tt);;
  mret {| gr_group_id := group_id; gr_topics := topics; gr_error_code := error_code |}.

Definition topic_ok (o : OffsetFetchTopic) : Prop :=
  wire_str (name o) ∧ wire_len (partition_indexes o) ∧ Forall i32_ok (partition_indexes o).
Definition group_ok (o : OffsetFetchGroup) : Prop :=
  wire_str (g_group_id o) ∧ wire_len (g_topics o) ∧ Forall topic_ok (g_topics o).
Definition partition_response_ok (version : Z) (o : OffsetFetchPartitionResponse) : Prop :=
  i32_ok (p_partition_index o) ∧ i64_ok (p_committed_offset o) ∧
  i32_ok (p_committed_leader_epoch o) ∧
  gated (5 <=? version) (p_committed_leader_epoch o) (-1) ∧ wire_opt_str (p_metadata o) ∧
  i16_ok (p_error_code o).
Definition topic_response_ok (version : Z) (o : OffsetFetchTopicResponse) : Prop :=
  wire_str (t_name o) ∧ wire_len (t_partitions o) ∧
  Forall (partition_response_ok version) (t_partitions o).
Definition group_response_ok (version : Z) (o : OffsetFetchGroupResponse) : Prop :=
  wire_str (gr_group_id o) ∧ wire_len (gr_topics o) ∧
  Forall (topic_response_ok version) (gr_topics o) ∧ i16_ok (gr_error_code o).

Lemma rt_offset_fetch_topic flexible o :
  topic_ok o →
  rt (write_topic flexible o)
    (read_topic flexible) o.
Proof.
  destruct o. intros (?&?&?).
  unfold write_topic, read_topic. codec.
Qed.
#[local] Hint Resolve rt_offset_fetch_topic : codec.
Lemma rt_offset_fetch_group flexible o :
  group_ok o →
  rt (write_group flexible o)
    (read_group flexible) o.
Proof.
  destruct o. intros (?&?&?).
  unfold write_group, read_group. codec.
Qed.
#[local] Hint Resolve rt_offset_fetch_group : codec.
Lemma rt_offset_fetch_partition_response version flexible o :
  partition_response_ok version o →
  rt (write_partition_response version flexible o)
    (read_partition_response version flexible) o.
Proof.
  destruct o. intros (?&?&?&?&?&?).
  unfold write_partition_response, read_partition_response. codec.
Qed.
#[local] Hint Resolve rt_offset_fetch_partition_response : codec.
Lemma rt_offset_fetch_topic_response version flexible o :
  topic_response_ok version o →
  rt (write_topic_response version flexible o)
    (read_topic_response version flexible) o.
Proof.
  destruct o. intros (?&?&?).
  unfold write_topic_response, read_topic_response. codec.
Qed.
#[local] Hint Resolve rt_offset_fetch_topic_response : codec.
Lemma rt_offset_fetch_group_response version flexible o :
  group_response_ok version o →
  rt (write_group_response version flexible o)
    (read_group_response version flexible) o.
Proof.
  destruct o. intros (?&?&?&?).
  unfold write_group_response, read_group_response. codec.
Qed.
#[local] Hint Resolve rt_offset_fetch_group_response : codec.

(** From version 8 the request carries groups; below, one group and a nullable
    topic list ([None] asks for every committed offset). *)
Definition decode_request (version : Z) : reader Request :=
  let flexible := MIN_FLEXIBLE <=? version in
  if 8 <=? version then
    groups ← read_array flexible (read_group true);
    require_stable ← read_bool;
    Tagged.read;;
    mret {| group_id := ""%string; topics := None; groups := groups;
            require_stable := require_stable |}
  else
    group_id ← read_str flexible;
    topics ← read_nullable_array flexible (read_topic flexible);
    require_stable ← (if 7 <=? version then read_bool else mret false);
    (if flexible then Tagged.read else mret tt);;
    mret {| group_id := group_id; topics := topics; groups := [];
            require_stable := require_stable |}.

Definition encode_request (req : Request) (version : Z) : enc :=
  let flexible := MIN_FLEXIBLE <=? version in
  if 8 <=? version then
    write_array (write_group true) (groups req) true +++
    write_bool (require_stable req) +++ Tagged.write_empty
  else
    write_str (group_id req) flexible +++
    write_nullable_array (write_topic flexible) (topics req) flexible +++
    when_enc (7 <=? version) (write_bool (require_stable req)) +++
    when_enc flexible Tagged.write_empty.

Definition encode_response (resp : Response) (version : Z) : enc :=
  let flexible := MIN_FLEXIBLE <=? version in
  when_enc (3 <=? version) (write_i32 (throttle_time_ms resp)) +++
  (if 8 <=? version then
     write_array (write_group_response version true) (r_groups resp) true +++
     Tagged.write_empty
   else
     write_array (write_topic_response version flexible) (r_topics resp) flexible +++
     when_enc (2 <=? version) (write_i16 (error_code resp)) +++
     when_enc flexible Tagged.write_empty).

Definition decode_response (version : Z) : reader Response :=
  let flexible := MIN_FLEXIBLE <=? version in
  throttle_time_ms ← (if 3 <=? version then read_i32 else mret 0);
  if 8 <=? version then
    groups ← read_array true (read_group_response version true);
    Tagged.read;;
    mret {| throttle_time_ms := throttle_time_ms; r_topics := []; error_code := 0;
            r_groups := groups |}
  else
    topics ← read_array flexible (read_topic_response version flexible);
    error_code ← (if 2 <=? version then read_i16 else mret 0);
    (if flexible then Tagged.read else mret tt);;
    mret {| throttle_time_ms := throttle_time_ms; r_topics := topics;
            error_code := error_code; r_groups := [] |}.

Definition request_ok (version : Z) (r : Request) : Prop :=
  if 8 <=? version then
    group_id r = ""%string ∧ topics r = None ∧
    wire_len (groups r) ∧ Forall group_ok (groups r)
  else
    groups r = [] ∧ wire_str (group_id r) ∧ wire_opt_list topic_ok (topics r) ∧
    gated (7 <=? version) (require_stable r) false.
Definition response_ok (version : Z) (r : Response) : Prop :=
  i32_ok (throttle_time_ms r) ∧ gated (3 <=? version) (throttle_time_ms r) 0 ∧
  if 8 <=? version then
    r_topics r = [] ∧ error_code r = 0 ∧
    wire_len (r_groups r) ∧ Forall (group_response_ok version) (r_groups r)
  else
    r_groups r = [] ∧ wire_len (r_topics r) ∧
    Forall (topic_response_ok version) (r_topics r) ∧
    i16_ok (error_code r) ∧ gated (2 <=? version) (error_code r) 0.

#[global] Instance request_message : Message Request.
Proof.
  refine {| encode := encode_request; decode := decode_request; msg_ok := request_ok |}.
  intros v []. unfold request_ok, encode_request, decode_request.
  destruct (Z.leb_spec 8 v) as [Hv|Hv]; cbn [group_id topics groups require_stable].
  - intros (->&->&?&?). rewrite (proj2 (Z.leb_le MIN_FLEXIBLE v)) by (unfold MIN_FLEXIBLE; lia).
    codec.
  - intros (->&?&?&?). codec.
Defined.

#[global] Instance response_message : Message Response.
Proof.
  refine {| encode := encode_response; decode := decode_response; msg_ok := response_ok |}.
  intros v []. unfold response_ok, encode_response, decode_response.
  destruct (8 <=? v); cbn [throttle_time_ms r_topics error_code r_groups].
  - intros (?&?&->&->&?&?). codec.
  - intros (?&?&->&?&?&?&?). codec.
Defined.

End OffsetFetch.

(** The only version is not flexible: every field has its legacy encoding. *)
Module OffsetDelete.

Definition VERSIONS : Z * Z := (0, 0).
Definition SPEC : ApiSpec := row_with 47 0 0 None (λ _, V1) (λ _, V0).

Record OffsetDeleteTopic := { name : string; partitions : list Z }.
Record Request := { group_id : string; topics : list OffsetDeleteTopic }.
Record OffsetDeletePartitionResponse := { p_partition_index : Z; p_error_code : Z }.
Record OffsetDeleteTopicResponse := {
  t_name : string; t_partitions : list OffsetDeletePartitionResponse }.
Record Response := {
  error_code : Z; throttle_time_ms : Z; r_topics : list OffsetDeleteTopicResponse }.

Definition read_topic (flexible : bool) : reader OffsetDeleteTopic :=
  name ← read_str flexible; partitions ← read_array flexible read_i32;
  mret {| name := name; partitions := partitions |}.

Definition decode_request (version : Z) : reader Request :=
  let flexible := false in
  group_id ← read_str flexible; topics ← read_array flexible (read_topic flexible);
  mret {| group_id := group_id; topics := topics |}.

Definition write_topic (flexible : bool) (o : OffsetDeleteTopic) : enc :=
  write_str (name o) flexible +++ write_array write_i32 (partitions o) flexible.

Definition encode_request (req : Request) (version : Z) : enc :=
  let flexible := false in
  write_str (group_id req) flexible +++
  write_array (write_topic flexible) (topics req) flexible.

Definition write_partition_response (flexible : bool) (o : OffsetDeletePartitionResponse) :
    enc :=
  write_i32 (p_partition_index o) +++ write_i16 (p_error_code o).

Definition write_topic_response (flexible : bool) (o : OffsetDeleteTopicResponse) :
    enc :=
  write_str (t_name o) flexible +++
  write_array (write_partition_response flexible) (t_partitions o) flexible.

Definition encode_response (resp : Response) (version : Z) : enc :=
  let flexible := false in
  write_i16 (error_code resp) +++ write_i32 (throttle_time_ms resp) +++
  write_array (write_topic_response flexible) (r_topics resp) flexible.

Definition read_partition_response (flexible : bool) :
    reader OffsetDeletePartitionResponse :=
  partition_index ← read_i32; error_code ← read_i16;
  mret {| p_partition_index := partition_index; p_error_code := error_code |}.

Definition read_topic_response (flexible : bool) : reader OffsetDeleteTopicResponse :=
  name ← read_str flexible;
  partitions ← read_array flexible (read_partition_response flexible);
  mret {| t_name := name; t_partitions := partitions |}.

Definition decode_response (version : Z) : reader Response :=
  let flexible := false in
  error_code ← read_i16; throttle_time_ms ← read_i32;
  topics ← read_array flexible (read_topic_response flexible);
  mret {| error_code := error_code; throttle_time_ms := throttle_time_ms;
          r_topics := topics |}.

Definition topic_ok (o : OffsetDeleteTopic) : Prop :=
  wire_str (name o) ∧ wire_len (partitions o) ∧ Forall i32_ok (partitions o).
Definition partition_response_ok (o : OffsetDeletePartitionResponse) : Prop :=
  i32_ok (p_partition_index o) ∧ i16_ok (p_error_code o).
Definition topic_response_ok (o : OffsetDeleteTopicResponse) : Prop :=
  wire_str (t_name o) ∧ wire_len (t_partitions o) ∧
  Forall partition_response_ok (t_partitions o).
Definition request_ok (version : Z) (r : Request) : Prop :=
  wire_str (group_id r) ∧ wire_len (topics r) ∧ Forall topic_ok (topics r).
Definition response_ok (version : Z) (r : Response) : Prop :=
  i16_ok (error_code r) ∧ i32_ok (throttle_time_ms r) ∧ wire_len (r_topics r) ∧
  Forall topic_response_ok (r_topics r).

Lemma rt_offset_delete_topic flexible o :
  topic_ok o →
  rt (write_topic flexible o)
    (read_topic flexible) o.
Proof.
  destruct o. intros (?&?&?).
  unfold write_topic, read_topic. codec.
Qed.
#[local] Hint Resolve rt_offset_delete_topic : codec.
Lemma rt_offset_delete_partition_response flexible o :
  partition_response_ok o →
  rt (write_partition_response flexible o)
    (read_partition_response flexible) o.
Proof.
  destruct o. intros (?&?).
  unfold write_partition_response, read_partition_response. codec.
Qed.
#[local] Hint Resolve rt_offset_delete_partition_response : codec.
Lemma rt_offset_delete_topic_response flexible o :
  topic_response_ok o →
  rt (write_topic_response flexible o)
    (read_topic_response flexible) o.
Proof.
  destruct o. intros (?&?&?).
  unfold write_topic_response, read_topic_response. codec.
Qed.
#[local] Hint Resolve rt_offset_delete_topic_response : codec.

#[global] Instance request_message : Message Request.
Proof.
  refine {| encode := encode_request; decode := decode_request; msg_ok := request_ok |}.
  intros v []. unfold request_ok. simpl. intros (?&?&?).
  unfold encode_request, decode_request;
    cbn [group_id topics].
  codec.
Defined.

#[global] Instance response_message : Message Response.
Proof.
  refine {| encode := encode_response; decode := decode_response; msg_ok := response_ok |}.
  intros v []. unfold response_ok. simpl. intros (?&?&?&?).
  unfold encode_response, decode_response;
    cbn [error_code throttle_time_ms r_topics].
  codec.
Defined.

End OffsetDelete.

Module FindCoordinator.

Definition VERSIONS : Z * Z := (0, 4).
Definition MIN_FLEXIBLE : Z := 3.
Definition SPEC : ApiSpec := spec_row 10 0 4 MIN_FLEXIBLE.

Record Request := { key : string; key_type : Z; coordinator_keys : list string }.
Record CoordinatorResult := {
  c_key : string; c_node_id : Z; c_host : string; c_port : Z; c_error_code : Z;
  c_error_message : option string }.
Record Response := {
  throttle_time_ms : Z; error_code : Z; error_message : option string; node_id : Z;
  host : string; port : Z; coordinators : list CoordinatorResult }.

Definition decode_request (version : Z) : reader Request :=
  let flexible := MIN_FLEXIBLE <=? version in
  key ← (if version <=? 3 then read_str flexible else mret ""%string);
  key_type ← (if 1 <=? version then read_i8 else mret 0);
  coordinator_keys ← (if 4 <=? version then
    read_array flexible (read_str flexible) else mret []);
  (if flexible then Tagged.read else mret tt);;
  mret {| key := key; key_type := key_type; coordinator_keys := coordinator_keys |}.

Definition encode_request (req : Request) (version : Z) : enc :=
  let flexible := MIN_FLEXIBLE <=? version in
  when_enc (version <=? 3) (write_str (key req) flexible) +++
  when_enc (1 <=? version) (write_i8 (key_type req)) +++
  when_enc (4 <=? version)
    (write_array (λ s, write_str s flexible) (coordinator_keys req) flexible) +++
  when_enc flexible Tagged.write_empty.

Definition write_coordinator_result (flexible : bool) (c : CoordinatorResult) : enc :=
  write_str (c_key c) flexible +++ write_i32 (c_node_id c) +++
  write_str (c_host c) flexible +++ write_i32 (c_port c) +++ write_i16 (c_error_code c) +++
  write_nullable_str (c_error_message c) flexible +++ when_enc flexible Tagged.write_empty.

Definition read_coordinator_result (flexible : bool) : reader CoordinatorResult :=
  key ← read_str flexible; node_id ← read_i32; host ← read_str flexible;
  port ← read_i32; error_code ← read_i16; error_message ← read_nullable_str flexible;
  (if flexible then Tagged.read else mret tt);;
  mret {| c_key := key; c_node_id := node_id; c_host := host; c_port := port;
          c_error_code := error_code; c_error_message := error_message |}.

Definition coordinator_result_ok (c : CoordinatorResult) : Prop :=
  wire_str (c_key c) ∧ i32_ok (c_node_id c) ∧ wire_str (c_host c) ∧ i32_ok (c_port c) ∧
  i16_ok (c_error_code c) ∧ wire_opt_str (c_error_message c).
Definition request_ok (version : Z) (r : Request) : Prop :=
  wire_str (key r) ∧ gated (version <=? 3) (key r) ""%string ∧ i8_ok (key_type r) ∧
  gated (1 <=? version) (key_type r) 0 ∧ wire_len (coordinator_keys r) ∧
  Forall wire_str (coordinator_keys r) ∧ gated (4 <=? version) (coordinator_keys r) [].

Lemma rt_find_coordinator_coordinator_result flexible c :
  coordinator_result_ok c →
  rt (write_coordinator_result flexible c)
    (read_coordinator_result flexible) c.
Proof.
  destruct c. intros (?&?&?&?&?&?).
  unfold write_coordinator_result, read_coordinator_result. codec.
Qed.
#[local] Hint Resolve rt_find_coordinator_coordinator_result : codec.

#[global] Instance request_message : Message Request.
Proof.
  refine {| encode := encode_request; decode := decode_request; msg_ok := request_ok |}.
  intros v []. unfold request_ok. simpl. intros (?&?&?&?&?&?&?).
  unfold encode_request, decode_request;
    cbn [key key_type coordinator_keys].
  codec.
Defined.

(** From version 4 the response is a list of coordinators and nothing else. *)
Definition encode_response (resp : Response) (version : Z) : enc :=
  let flexible := MIN_FLEXIBLE <=? version in
  when_enc (1 <=? version) (write_i32 (throttle_time_ms resp)) +++
  (if 4 <=? version then
     write_array (write_coordinator_result flexible) (coordinators resp) flexible +++
     when_enc flexible Tagged.write_empty
   else
     write_i16 (error_code resp) +++
     when_enc (1 <=? version) (write_nullable_str (error_message resp) flexible) +++
     write_i32 (node_id resp) +++ write_str (host resp) flexible +++
     write_i32 (port resp) +++ when_enc flexible Tagged.write_empty).

Definition decode_response (version : Z) : reader Response :=
  let flexible := MIN_FLEXIBLE <=? version in
  throttle_time_ms ← (if 1 <=? version then read_i32 else mret 0);
  if 4 <=? version then
    coordinators ← read_array flexible (read_coordinator_result flexible);
    (if flexible then Tagged.read else mret tt);;
    mret {| throttle_time_ms := throttle_time_ms; error_code := 0; error_message := None;
            node_id := 0; host := ""%string; port := 0; coordinators := coordinators |}
  else
    error_code ← read_i16;
    error_message ← (if 1 <=? version then read_nullable_str flexible else mret None);
    node_id ← read_i32; host ← read_str flexible; port ← read_i32;
    (if flexible then Tagged.read else mret tt);;
    mret {| throttle_time_ms := throttle_time_ms; error_code := error_code;
            error_message := error_message; node_id := node_id; host := host;
            port := port; coordinators := [] |}.

Definition response_ok (version : Z) (r : Response) : Prop :=
  i32_ok (throttle_time_ms r) ∧ gated (1 <=? version) (throttle_time_ms r) 0 ∧
  if 4 <=? version then
    error_code r = 0 ∧ error_message r = None ∧ node_id r = 0 ∧ host r = ""%string ∧
    port r = 0 ∧ wire_len (coordinators r) ∧ Forall coordinator_result_ok (coordinators r)
  else
    i16_ok (error_code r) ∧ wire_opt_str (error_message r) ∧
    gated (1 <=? version) (error_message r) None ∧ i32_ok (node_id r) ∧
    wire_str (host r) ∧ i32_ok (port r) ∧ coordinators r = [].

#[global] Instance response_message : Message Response.
Proof.
  refine {| encode := encode_response; decode := decode_response; msg_ok := response_ok |}.
  intros v []. unfold response_ok, encode_response, decode_response.
  destruct (4 <=? v); cbn [throttle_time_ms error_code error_message node_id host port
    coordinators].
  - intros (?&?&->&->&->&->&->&?&?). codec.
  - intros (?&?&?&?&?&?&?&?&->). codec.
Defined.

End FindCoordinator.

Module DescribeGroups.

Definition VERSIONS : Z * Z := (0, 5).
Definition MIN_FLEXIBLE : Z := 5.
Definition SPEC : ApiSpec := spec_row 15 0 5 MIN_FLEXIBLE.

Record Request := { groups : list string; include_authorized_operations : bool }.
Record DescribedGroupMember := {
  member_id : string; group_instance_id : option string; client_id : string;
  client_host : string; member_metadata : list byte; member_assignment : list byte }.
Record DescribedGroup := {
  error_code : Z; group_id : string; group_state : string; protocol_type : string;
  protocol_data : string; members : list DescribedGroupMember; authorized_operations : Z }.
Record Response := { throttle_time_ms : Z; r_groups : list DescribedGroup }.

Definition decode_request (version : Z) : reader Request :=
  let flexible := MIN_FLEXIBLE <=? version in
  groups ← read_array flexible (read_str flexible);
  include_authorized_operations ← (if 3 <=? version then read_bool else mret false);
  (if flexible then Tagged.read else mret tt);;
  mret {| groups := groups; include_authorized_operations := include_authorized_operations |}.

Definition encode_request (req : Request) (version : Z) : enc :=
  let flexible := MIN_FLEXIBLE <=? version in
  write_array (λ s, write_str s flexible) (groups req) flexible +++
  when_enc (3 <=? version) (write_bool (include_authorized_operations req)) +++
  when_enc flexible Tagged.write_empty.

Definition write_member (version : Z) (flexible : bool) (d : DescribedGroupMember) :
    enc :=
  write_str (member_id d) flexible +++
  when_enc (4 <=? version) (write_nullable_str (group_instance_id d) flexible) +++
  write_str (client_id d) flexible +++ write_str (client_host d) flexible +++
  write_flex_bytes (member_metadata d) flexible +++
  write_flex_bytes (member_assignment d) flexible +++ when_enc flexible Tagged.write_empty.

Definition write_group (version : Z) (flexible : bool) (d : DescribedGroup) : enc :=
  write_i16 (error_code d) +++ write_str (group_id d) flexible +++
  write_str (group_state d) flexible +++ write_str (protocol_type d) flexible +++
  write_str (protocol_data d) flexible +++
  write_array (write_member version flexible) (members d) flexible +++
  when_enc (3 <=? version) (write_i32 (authorized_operations d)) +++
  when_enc flexible Tagged.write_empty.

Definition encode_response (resp : Response) (version : Z) : enc :=
  let flexible := MIN_FLEXIBLE <=? version in
  when_enc (1 <=? version) (write_i32 (throttle_time_ms resp)) +++
  write_array (write_group version flexible) (r_groups resp) flexible +++
  when_enc flexible Tagged.write_empty.

Definition read_member (version : Z) (flexible : bool) :
    reader DescribedGroupMember :=
  member_id ← read_str flexible;
  group_instance_id ← (if 4 <=? version then read_nullable_str flexible else mret None);
  client_id ← read_str flexible; client_host ← read_str flexible;
  member_metadata ← read_flex_bytes flexible;
  member_assignment ← read_flex_bytes flexible;
  (if flexible then Tagged.read else mret tt);;
  mret {| member_id := member_id; group_instance_id := group_instance_id;
          client_id := client_id; client_host := client_host;
          member_metadata := member_metadata; member_assignment := member_assignment |}.

Definition read_group (version : Z) (flexible : bool) : reader DescribedGroup :=
  error_code ← read_i16; group_id ← read_str flexible; group_state ← read_str flexible;
  protocol_type ← read_str flexible; protocol_data ← read_str flexible;
  members ← read_array flexible (read_member version flexible);
  authorized_operations ← (if 3 <=? version then read_i32 else mret 0);
  (if flexible then Tagged.read else mret tt);;
  mret {| error_code := error_code; group_id := group_id; group_state := group_state;
          protocol_type := protocol_type; protocol_data := protocol_data;
          members := members; authorized_operations := authorized_operations |}.

Definition decode_response (version : Z) : reader Response :=
  let flexible := MIN_FLEXIBLE <=? version in
  throttle_time_ms ← (if 1 <=? version then read_i32 else mret 0);
  groups ← read_array flexible (read_group version flexible);
  (if flexible then Tagged.read else mret tt);;
  mret {| throttle_time_ms := throttle_time_ms; r_groups := groups |}.

Definition member_ok (version : Z) (d : DescribedGroupMember) : Prop :=
  wire_str (member_id d) ∧ wire_opt_str (group_instance_id d) ∧
  gated (4 <=? version) (group_instance_id d) None ∧ wire_str (client_id d) ∧
  wire_str (client_host d) ∧ wire_len (member_metadata d) ∧ wire_len (member_assignment d).
Definition group_ok (version : Z) (d : DescribedGroup) : Prop :=
  i16_ok (error_code d) ∧ wire_str (group_id d) ∧ wire_str (group_state d) ∧
  wire_str (protocol_type d) ∧ wire_str (protocol_data d) ∧ wire_len (members d) ∧
  Forall (member_ok version) (members d) ∧ i32_ok (authorized_operations d) ∧
  gated (3 <=? version) (authorized_operations d) 0.
Definition request_ok (version : Z) (r : Request) : Prop :=
  wire_len (groups r) ∧ Forall wire_str (groups r) ∧
  gated (3 <=? version) (include_authorized_operations r) false.
Definition response_ok (version : Z) (r : Response) : Prop :=
  i32_ok (throttle_time_ms r) ∧ gated (1 <=? version) (throttle_time_ms r) 0 ∧
  wire_len (r_groups r) ∧ Forall (group_ok version) (r_groups r).

Lemma rt_describe_groups_member version flexible d :
  member_ok version d →
  rt (write_member version flexible d)
    (read_member version flexible) d.
Proof.
  destruct d. intros (?&?&?&?&?&?&?).
  unfold write_member, read_member. codec.
Qed.
#[local] Hint Resolve rt_describe_groups_member : codec.
Lemma rt_describe_groups_group version flexible d :
  group_ok version d →
  rt (write_group version flexible d)
    (read_group version flexible) d.
Proof.
  destruct d. intros (?&?&?&?&?&?&?&?&?).
  unfold write_group, read_group. codec.
Qed.
#[local] Hint Resolve rt_describe_groups_group : codec.

#[global] Instance request_message : Message Request.
Proof.
  refine {| encode := encode_request; decode := decode_request; msg_ok := request_ok |}.
  intros v []. unfold request_ok. simpl. intros (?&?&?).
  unfold encode_request, decode_request;
    cbn [groups include_authorized_operations].
  codec.
Defined.

#[global] Instance response_message : Message Response.
Proof.
  refine {| encode := encode_response; decode := decode_response; msg_ok := response_ok |}.
  intros v []. unfold response_ok. simpl. intros (?&?&?&?).
  unfold encode_response, decode_response;
    cbn [throttle_time_ms r_groups].
  codec.
Defined.

End DescribeGroups.

Module ListGroups.

Definition VERSIONS : Z * Z := (0, 4).
Definition MIN_FLEXIBLE : Z := 3.
Definition SPEC : ApiSpec := spec_row 16 0 4 MIN_FLEXIBLE.

Record Request := { states_filter : list string }.
Record ListedGroup := { group_id : string; protocol_type : string; group_state : string }.
Record Response := { throttle_time_ms : Z; error_code : Z; groups : list ListedGroup }.

Definition decode_request (version : Z) : reader Request :=
  let flexible := MIN_FLEXIBLE <=? version in
  states_filter ← (if 4 <=? version then
    read_array flexible (read_str flexible) else mret []);
  (if flexible then Tagged.read else mret tt);;
  mret {| states_filter := states_filter |}.

Definition encode_request (req : Request) (version : Z) : enc :=
  let flexible := MIN_FLEXIBLE <=? version in
  when_enc (4 <=? version)
    (write_array (λ s, write_str s flexible) (states_filter req) flexible) +++
  when_enc flexible Tagged.write_empty.

Definition write_group (version : Z) (flexible : bool) (l : ListedGroup) : enc :=
  write_str (group_id l) flexible +++ write_str (protocol_type l) flexible +++
  when_enc (4 <=? version) (write_str (group_state l) flexible) +++
  when_enc flexible Tagged.write_empty.

Definition encode_response (resp : Response) (version : Z) : enc :=
  let flexible := MIN_FLEXIBLE <=? version in
  when_enc (1 <=? version) (write_i32 (throttle_time_ms resp)) +++
  write_i16 (error_code resp) +++
  write_array (write_group version flexible) (groups resp) flexible +++
  when_enc flexible Tagged.write_empty.

Definition read_group (version : Z) (flexible : bool) : reader ListedGroup :=
  group_id ← read_str flexible; protocol_type ← read_str flexible;
  group_state ← (if 4 <=? version then read_str flexible else mret ""%string);
  (if flexible then Tagged.read else mret tt);;
  mret {| group_id := group_id; protocol_type := protocol_type; group_state := group_state |}.

Definition decode_response (version : Z) : reader Response :=
  let flexible := MIN_FLEXIBLE <=? version in
  throttle_time_ms ← (if 1 <=? version then read_i32 else mret 0);
  error_code ← read_i16; groups ← read_array flexible (read_group version flexible);
  (if flexible then Tagged.read else mret tt);;
  mret {| throttle_time_ms := throttle_time_ms; error_code := error_code; groups := groups |}.

Definition group_ok (version : Z) (l : ListedGroup) : Prop :=
  wire_str (group_id l) ∧ wire_str (protocol_type l) ∧ wire_str (group_state l) ∧
  gated (4 <=? version) (group_state l) ""%string.
Definition request_ok (version : Z) (r : Request) : Prop :=
  wire_len (states_filter r) ∧ Forall wire_str (states_filter r) ∧
  gated (4 <=? version) (states_filter r) [].
Definition response_ok (version : Z) (r : Response) : Prop :=
  i32_ok (throttle_time_ms r) ∧ gated (1 <=? version) (throttle_time_ms r) 0 ∧
  i16_ok (error_code r) ∧ wire_len (groups r) ∧ Forall (group_ok version) (groups r).

Lemma rt_list_groups_group version flexible l :
  group_ok version l →
  rt (write_group version flexible l)
    (read_group version flexible) l.
Proof.
  destruct l. intros (?&?&?&?).
  unfold write_group, read_group. codec.
Qed.
#[local] Hint Resolve rt_list_groups_group : codec.

#[global] Instance request_message : Message Request.
Proof.
  refine {| encode := encode_request; decode := decode_request; msg_ok := request_ok |}.
  intros v []. unfold request_ok. simpl. intros (?&?&?).
  unfold encode_request, decode_request;
    cbn [states_filter].
  codec.
Defined.

#[global] Instance response_message : Message Response.
Proof.
  refine {| encode := encode_response; decode := decode_response; msg_ok := response_ok |}.
  intros v []. unfold response_ok. simpl. intros (?&?&?&?&?).
  unfold encode_response, decode_response;
    cbn [throttle_time_ms error_code groups].
  codec.
Defined.

End ListGroups.

Module DeleteGroups.

Definition VERSIONS : Z * Z := (0, 2).
Definition MIN_FLEXIBLE : Z := 2.
Definition SPEC : ApiSpec := spec_row 42 0 2 MIN_FLEXIBLE.

Record Request := { group_names : list string }.
Record DeleteGroupsResult := { group_id : string; error_code : Z }.
Record Response := { throttle_time_ms : Z; results : list DeleteGroupsResult }.

Definition decode_request (version : Z) : reader Request :=
  let flexible := MIN_FLEXIBLE <=? version in
  group_names ← read_array flexible (read_str flexible);
  (if flexible then Tagged.read else mret tt);;
  mret {| group_names := group_names |}.

Definition encode_request (req : Request) (version : Z) : enc :=
  let flexible := MIN_FLEXIBLE <=? version in
  write_array (λ s, write_str s flexible) (group_names req) flexible +++
  when_enc flexible Tagged.write_empty.

Definition write_result (flexible : bool) (d : DeleteGroupsResult) : enc :=
  write_str (group_id d) flexible +++ write_i16 (error_code d) +++
  when_enc flexible Tagged.write_empty.

Definition encode_response (resp : Response) (version : Z) : enc :=
  let flexible := MIN_FLEXIBLE <=? version in
  write_i32 (throttle_time_ms resp) +++
  write_array (write_result flexible) (results resp) flexible +++
  when_enc flexible Tagged.write_empty.

Definition read_result (flexible : bool) : reader DeleteGroupsResult :=
  group_id ← read_str flexible; error_code ← read_i16;
  (if flexible then Tagged.read else mret tt);;
  mret {| group_id := group_id; error_code := error_code |}.

Definition decode_response (version : Z) : reader Response :=
  let flexible := MIN_FLEXIBLE <=? version in
  throttle_time_ms ← read_i32; results ← read_array flexible (read_result flexible);
  (if flexible then Tagged.read else mret tt);;
  mret {| throttle_time_ms := throttle_time_ms; results := results |}.

Definition result_ok (d : DeleteGroupsResult) : Prop :=
  wire_str (group_id d) ∧ i16_ok (error_code d).
Definition request_ok (version : Z) (r : Request) : Prop :=
  wire_len (group_names r) ∧ Forall wire_str (group_names r).
Definition response_ok (version : Z) (r : Response) : Prop :=
  i32_ok (throttle_time_ms r) ∧ wire_len (results r) ∧ Forall result_ok (results r).

Lemma rt_delete_groups_result flexible d :
  result_ok d →
  rt (write_result flexible d)
    (read_result flexible) d.
Proof.
  destruct d. intros (?&?).
  unfold write_result, read_result. codec.
Qed.
#[local] Hint Resolve rt_delete_groups_result : codec.

#[global] Instance request_message : Message Request.
Proof.
  refine {| encode := encode_request; decode := decode_request; msg_ok := request_ok |}.
  intros v []. unfold request_ok. simpl. intros (?&?).
  unfold encode_request, decode_request;
    cbn [group_names].
  codec.
Defined.

#[global] Instance response_message : Message Response.
Proof.
  refine {| encode := encode_response; decode := decode_response; msg_ok := response_ok |}.
  intros v []. unfold response_ok. simpl. intros (?&?&?).
  unfold encode_response, decode_response;
    cbn [throttle_time_ms results].
  codec.
Defined.

End DeleteGroups.

(** At every version every well-formed request and response of the coordinator
    APIs is read back from what is written. *)
Theorem coordinator_messages_roundtrip v :
  (∀ m, OffsetCommit.request_ok v m →
     rt (OffsetCommit.encode_request m v)
       (OffsetCommit.decode_request v) m) ∧
  (∀ m, OffsetCommit.response_ok v m →
     rt (OffsetCommit.encode_response m v)
       (OffsetCommit.decode_response v) m) ∧
  (∀ m, OffsetFetch.request_ok v m →
     rt (OffsetFetch.encode_request m v)
       (OffsetFetch.decode_request v) m) ∧
  (∀ m, OffsetFetch.response_ok v m →
     rt (OffsetFetch.encode_response m v)
       (OffsetFetch.decode_response v) m) ∧
  (∀ m, OffsetDelete.request_ok v m →
     rt (OffsetDelete.encode_request m v)
       (OffsetDelete.decode_request v) m) ∧
  (∀ m, OffsetDelete.response_ok v m →
     rt (OffsetDelete.encode_response m v)
       (OffsetDelete.decode_response v) m) ∧
  (∀ m, FindCoordinator.request_ok v m →
     rt (FindCoordinator.encode_request m v)
       (FindCoordinator.decode_request v) m) ∧
  (∀ m, FindCoordinator.response_ok v m →
     rt (FindCoordinator.encode_response m v)
       (FindCoordinator.decode_response v) m) ∧
  (∀ m, DescribeGroups.request_ok v m →
     rt (DescribeGroups.encode_request m v)
       (DescribeGroups.decode_request v) m) ∧
  (∀ m, DescribeGroups.response_ok v m →
     rt (DescribeGroups.encode_response m v)
       (DescribeGroups.decode_response v) m) ∧
  (∀ m, ListGroups.request_ok v m →
     rt (ListGroups.encode_request m v)
       (ListGroups.decode_request v) m) ∧
  (∀ m, ListGroups.response_ok v m →
     rt (ListGroups.encode_response m v)
       (ListGroups.decode_response v) m) ∧
  (∀ m, DeleteGroups.request_ok v m →
     rt (DeleteGroups.encode_request m v)
       (DeleteGroups.decode_request v) m) ∧
  (∀ m, DeleteGroups.response_ok v m →
     rt (DeleteGroups.encode_response m v)
       (DeleteGroups.decode_response v) m).
Proof. split_and!; intros m Hm; exact (msg_rt v m Hm). Qed.
