(* ===== verification/ApiAdmin.v ===== *)
(** * Codecs of the administration and session APIs

    Topics, ACLs, configurations, quotas, log directories, the cluster,
    credentials, SASL and ApiVersions ([api/create_topics.rs],
    [api/delete_topics.rs], [api/create_partitions.rs], [api/acl_types.rs],
    [api/create_acls.rs], [api/describe_acls.rs], [api/delete_acls.rs],
    [api/describe_configs.rs], [api/incremental_alter_configs.rs],
    [api/describe_client_quotas.rs], [api/alter_client_quotas.rs],
    [api/alter_replica_log_dirs.rs], [api/describe_log_dirs.rs],
    [api/describe_cluster.rs], [api/describe_user_scram_credentials.rs],
    [api/alter_user_scram_credentials.rs], [api/sasl_handshake.rs],
    [api/sasl_authenticate.rs], [api/api_versions.rs]). *)

From stdpp Require Import base gmap strings list.
From Stdlib Require Import Strings.Byte.
From S2P Require Import Prelude Primitives Wire.
Import Common.

Local Open Scope Z_scope.

(** [request_hdr] of ApiVersions and [response_hdr] of the log-dir APIs. *)
Definition api_versions_request_hdr (version : Z) : HeaderVersion :=
  if 3 <=? version then V2 else if 1 <=? version then V1 else V0.
Definition log_dirs_response_hdr (version : Z) : HeaderVersion :=
  if 2 <=? version then V1 else V0.

(** The log-dir APIs saturate a legacy length: [i32::try_from(n).unwrap_or(i32::MAX)]. *)
Definition write_lossy_len (n : nat) (flexible : bool) : enc :=
  if flexible then write_compact_array_len n else write_i32 (Z.min (Z.of_nat n) i32_max).
Definition write_lossy_array {A} (w : A → enc) (l : list A) (flexible : bool) : enc :=
  write_lossy_len (length l) flexible +++ write_each w l.
Definition write_lossy_nullable_array {A} (w : A → enc) (o : option (list A))
    (flexible : bool) : enc :=
  match o with
  | None => if flexible then write_uvarint 0 else write_i32 (-1)
  | Some l => write_lossy_len (length l) flexible +++ write_each w l
  end.

Lemma write_lossy_len_fits {A} (l : list A) flexible :
  wire_len l → write_lossy_len (length l) flexible = write_array_len (length l) flexible.
Proof.
  unfold wire_len. intros H. destruct flexible; [done|]. simpl.
  unfold write_lossy_len, Primitives.write_array_len.
  rewrite len_i32_ok, Z.min_l by done. done.
Qed.

Lemma rt_lossy_array {A} (P : A → Prop) (w : A → enc) (r : reader A) l flexible :
  (∀ a, P a → rt (w a) r a) → wire_len l → Forall P l →
  rt (write_lossy_array w l flexible) (read_array flexible r) l.
Proof.
  intros ? Hl ?. unfold write_lossy_array. rewrite write_lossy_len_fits by done.
  by eapply rt_array.
Qed.

Lemma rt_lossy_nullable_array {A} (P : A → Prop) (w : A → enc) (r : reader A) o flexible :
  (∀ a, P a → rt (w a) r a) → wire_opt_list P o →
  rt (write_lossy_nullable_array w o flexible) (read_nullable_array flexible r) o.
Proof.
  intros Hw Ho. pose proof (rt_nullable_array P w r o flexible Hw Ho) as H.
  destruct o as [l|]; [|done]. simpl in *.
  rewrite write_lossy_len_fits by apply (Ho l eq_refl). done.
Qed.

(** Bytes that may not be null: [read_nullable_bytes(..)?.ok_or(UnexpectedEof)]. *)
Definition read_present_bytes (flexible : bool) : reader (list byte) :=
  o ← read_nullable_bytes flexible;
  match o with Some b => mret b | None => fail UnexpectedEof end.
Definition write_present_bytes (b : list byte) (flexible : bool) : enc :=
  write_nullable_bytes (Some b) flexible.

Lemma rt_present_bytes b flexible :
  wire_len b → rt (write_present_bytes b flexible) (read_present_bytes flexible) b.
Proof.
  intros Hb. eapply rt_bind_last; [apply rt_bytes_flex; by intros ? [= <-]|done].
Qed.

#[export] Hint Resolve rt_lossy_array rt_lossy_nullable_array rt_present_bytes : codec.

(** ** Shared ACL shapes ([api/acl_types.rs]) *)

Module AclTypes.

Record AclFilter := {
  resource_type_filter : Z; resource_name_filter : option string; pattern_type_filter : Z;
  principal_filter : option string; host_filter : option string;
  f_operation : Z; permission_type : Z }.
Record AclBinding := {
  resource_type : Z; resource_name : string; pattern_type : Z; principal : string;
  host : string; operation : Z; permission : Z }.

Definition read_filter (version : Z) (flexible : bool) : reader AclFilter :=
  resource_type_filter ← read_i8; resource_name_filter ← read_nullable_str flexible;
  pattern_type_filter ← (if 1 <=? version then read_i8 else mret 0);
  principal_filter ← read_nullable_str flexible; host_filter ← read_nullable_str flexible;
  operation ← read_i8; permission_type ← read_i8;
  mret {| resource_type_filter := resource_type_filter;
          resource_name_filter := resource_name_filter;
          pattern_type_filter := pattern_type_filter; principal_filter := principal_filter;
          host_filter := host_filter; f_operation := operation;
          permission_type := permission_type |}.
Definition write_filter (version : Z) (flexible : bool) (f : AclFilter) : enc :=
  write_i8 (resource_type_filter f) +++ write_nullable_str (resource_name_filter f) flexible +++
  when_enc (1 <=? version) (write_i8 (pattern_type_filter f)) +++
  write_nullable_str (principal_filter f) flexible +++
  write_nullable_str (host_filter f) flexible +++
  write_i8 (f_operation f) +++ write_i8 (permission_type f).
Definition filter_ok (version : Z) (f : AclFilter) : Prop :=
  i8_ok (resource_type_filter f) ∧ wire_opt_str (resource_name_filter f) ∧
  i8_ok (pattern_type_filter f) ∧ gated (1 <=? version) (pattern_type_filter f) 0 ∧
  wire_opt_str (principal_filter f) ∧ wire_opt_str (host_filter f) ∧
  i8_ok (f_operation f) ∧ i8_ok (permission_type f).

Definition read_entry_tags (flexible : bool) : reader unit :=
  if flexible then Tagged.read else mret tt.
Definition write_entry_tags (flexible : bool) : enc := when_enc flexible Tagged.write_empty.

(** A binding with its tagged block, as CreateAcls and DeleteAcls carry it. *)
Definition read_binding (version : Z) (flexible : bool) : reader AclBinding :=
  resource_type ← read_i8; resource_name ← read_str flexible;
  pattern_type ← (if 1 <=? version then read_i8 else mret 0);
  principal ← read_str flexible; host ← read_str flexible;
  operation ← read_i8; permission ← read_i8;
  read_entry_tags flexible;;
  mret {| resource_type := resource_type; resource_name := resource_name;
          pattern_type := pattern_type; principal := principal; host := host;
          operation := operation; permission := permission |}.
Definition write_binding (version : Z) (flexible : bool) (b : AclBinding) : enc :=
  write_i8 (resource_type b) +++ write_str (resource_name b) flexible +++
  when_enc (1 <=? version) (write_i8 (pattern_type b)) +++
  write_str (principal b) flexible +++ write_str (host b) flexible +++
  write_i8 (operation b) +++ write_i8 (permission b) +++ write_entry_tags flexible.
Definition binding_ok (version : Z) (b : AclBinding) : Prop :=
  i8_ok (resource_type b) ∧ wire_str (resource_name b) ∧
  i8_ok (pattern_type b) ∧ gated (1 <=? version) (pattern_type b) 0 ∧
  wire_str (principal b) ∧ wire_str (host b) ∧
  i8_ok (operation b) ∧ i8_ok (permission b).

Lemma rt_acl_filter version flexible f :
  filter_ok version f → rt (write_filter version flexible f) (read_filter version flexible) f.
Proof. destruct f. intros (?&?&?&?&?&?&?&?). unfold write_filter, read_filter. codec. Qed.
Lemma rt_acl_binding version flexible b :
  binding_ok version b →
  rt (write_binding version flexible b) (read_binding version flexible) b.
Proof. destruct b. intros (?&?&?&?&?&?&?&?). unfold write_binding, read_binding. codec. Qed.
#[global] Hint Resolve rt_acl_filter rt_acl_binding : codec.

(** A filter with its tagged block, as DeleteAcls carries it. *)
Definition read_tagged_filter (version : Z) (flexible : bool) : reader AclFilter :=
  f ← read_filter version flexible; read_entry_tags flexible;; mret f.
Definition write_tagged_filter (version : Z) (flexible : bool) (f : AclFilter) : enc :=
  write_filter version flexible f +++ write_entry_tags flexible.

Lemma rt_tagged_filter version flexible f :
  filter_ok version f →
  rt (write_tagged_filter version flexible f) (read_tagged_filter version flexible) f.
Proof. intros ?. unfold write_tagged_filter, read_tagged_filter. codec. Qed.
#[global] Hint Resolve rt_tagged_filter : codec.

(** Wire codes and the names of the ACL resource. *)
Definition resource_type_to_cr (t : Z) : option string :=
  if t =? 2 then Some "topic" else if t =? 3 then Some "group"
  else if t =? 4 then Some "cluster" else if t =? 5 then Some "transactionalId"
  else None.
Definition resource_type_from_cr (s : string) : Z :=
  if decide (s = "topic") then 2 else if decide (s = "group") then 3
  else if decide (s = "cluster") then 4 else if decide (s = "transactionalId") then 5 else 0.

Definition pattern_type_to_cr (t : Z) : option string :=
  if t =? 3 then Some "literal" else if t =? 4 then Some "prefix"
  else if t =? 2 then Some "match" else if t =? 1 then Some "" else None.
Definition pattern_type_from_cr (s : string) : Z :=
  if decide (s = "literal" ∨ s = "") then 3 else if decide (s = "prefix") then 4
  else if decide (s = "match") then 2 else 0.

Definition operation_names : list (Z * string) :=
  [(2, "All"); (3, "Read"); (4, "Write"); (5, "Create"); (6, "Delete"); (7, "Alter");
   (8, "Describe"); (9, "ClusterAction"); (10, "DescribeConfigs"); (11, "AlterConfigs");
   (12, "IdempotentWrite")]%string.
Definition operation_to_cr (op : Z) : option string :=
  if op =? 1 then Some "" else snd <$> find (λ p, fst p =? op) operation_names.
Definition operation_from_cr (s : string) : Z :=
  default 0 (fst <$> find (λ p, bool_decide (snd p = s)) operation_names).

Definition permission_to_cr (p : Z) : option string :=
  if p =? 3 then Some "Allow" else if p =? 2 then Some "Deny"
  else if p =? 1 then Some "" else None.
Definition permission_from_cr (s : string) : Z :=
  if decide (s = "Allow" ∨ s = "allow") then 3
  else if decide (s = "Deny" ∨ s = "deny") then 2 else 0.

(** The two directions agree on every name the broker stores; an empty pattern
    (ANY on the wire) comes back as LITERAL, and UNKNOWN has no name. *)
Lemma acl_names_roundtrip t s :
  (resource_type_to_cr t = Some s → resource_type_from_cr s = t) ∧
  (pattern_type_to_cr t = Some s → s ≠ "" → pattern_type_from_cr s = t) ∧
  (operation_to_cr t = Some s → s ≠ "" → operation_from_cr s = t) ∧
  (permission_to_cr t = Some s → s ≠ "" → permission_from_cr s = t).
Proof.
  unfold resource_type_to_cr, pattern_type_to_cr, operation_to_cr, permission_to_cr.
  split_and!; repeat match goal with
    | |- context [?a =? ?b] => destruct (Z.eqb_spec a b)
    | _ => progress (cbn [find fst snd operation_names])
    end; subst; intros; simplify_eq/=; try done; vm_compute; reflexivity.
Qed.

End AclTypes.

Module CreateTopics.

Definition VERSIONS : Z * Z := (0, 7).
Definition MIN_FLEXIBLE : Z := 5.
Definition SPEC : ApiSpec := spec_row 19 0 7 MIN_FLEXIBLE.

Record CreatableReplicaAssignment := { partition_index : Z; broker_ids : list Z }.
Record CreatableTopicConfig := { name : string; value : option string }.
Record CreatableTopic := {
  t_name : string; num_partitions : Z; replication_factor : Z;
  assignments : list CreatableReplicaAssignment; configs : list CreatableTopicConfig }.
Record Request := { topics : list CreatableTopic; timeout_ms : Z; validate_only : bool }.
Record CreatableTopicConfigResult := {
  c_name : string; c_value : option string; read_only : bool; config_source : Z;
  is_sensitive : bool }.
Record CreatableTopicResult := {
  r_name : string; topic_id : list byte; error_code : Z; error_message : option string;
  r_num_partitions : Z; r_replication_factor : Z;
  r_configs : list CreatableTopicConfigResult }.
Record Response := { throttle_time_ms : Z; resp_topics : list CreatableTopicResult }.

Definition read_assignment (flexible : bool) : reader CreatableReplicaAssignment :=
  partition_index ← read_i32; broker_ids ← read_array flexible read_i32;
  (if flexible then Tagged.read else mret tt);;
  mret {| partition_index := partition_index; broker_ids := broker_ids |}.

Definition read_config (flexible : bool) : reader CreatableTopicConfig :=
  name ← read_str flexible; value ← read_nullable_str flexible;
  (if flexible then Tagged.read else mret tt);;
  mret {| name := name; value := value |}.

Definition read_topic (flexible : bool) : reader CreatableTopic :=
  name ← read_str flexible; num_partitions ← read_i32; replication_factor ← read_i16;
  assignments ← read_array flexible (read_assignment flexible);
  configs ← read_array flexible (read_config flexible);
  (if flexible then Tagged.read else mret tt);;
  mret {| t_name := name; num_partitions := num_partitions;
          replication_factor := replication_factor; assignments := assignments;
          configs := configs |}.

Definition decode_request (version : Z) : reader Request :=
  let flexible := MIN_FLEXIBLE <=? version in
  topics ← read_array flexible (read_topic flexible); timeout_ms ← read_i32;
  validate_only ← (if 1 <=? version then read_bool else mret false);
  (if flexible then Tagged.read else mret tt);;
  mret {| topics := topics; timeout_ms := timeout_ms; validate_only := validate_only |}.

Definition write_assignment (flexible : bool) (c : CreatableReplicaAssignment) :
    enc :=
  write_i32 (partition_index c) +++ write_array write_i32 (broker_ids c) flexible +++
  when_enc flexible Tagged.write_empty.

Definition write_config (flexible : bool) (c : CreatableTopicConfig) : enc :=
  write_str (name c) flexible +++ write_nullable_str (value c) flexible +++
  when_enc flexible Tagged.write_empty.

Definition write_topic (flexible : bool) (c : CreatableTopic) : enc :=
  write_str (t_name c) flexible +++ write_i32 (num_partitions c) +++
  write_i16 (replication_factor c) +++
  write_array (write_assignment flexible) (assignments c) flexible +++
  write_array (write_config flexible) (configs c) flexible +++
  when_enc flexible Tagged.write_empty.

Definition encode_request (req : Request) (version : Z) : enc :=
  let flexible := MIN_FLEXIBLE <=? version in
  write_array (write_topic flexible) (topics req) flexible +++
  write_i32 (timeout_ms req) +++
  when_enc (1 <=? version) (write_bool (validate_only req)) +++
  when_enc flexible Tagged.write_empty.

Definition write_config_result (flexible : bool) (c : CreatableTopicConfigResult) :
    enc :=
  write_str (c_name c) flexible +++ write_nullable_str (c_value c) flexible +++
  write_bool (read_only c) +++ write_i8 (config_source c) +++
  write_bool (is_sensitive c) +++ when_enc flexible Tagged.write_empty.

Definition write_topic_result (version : Z) (flexible : bool) (c : CreatableTopicResult) :
    enc :=
  write_str (r_name c) flexible +++ when_enc (7 <=? version) (write_uuid (topic_id c)) +++
  write_i16 (error_code c) +++
  when_enc (1 <=? version) (write_nullable_str (error_message c) flexible) +++
  when_enc (5 <=? version)
    (write_i32 (r_num_partitions c) +++ write_i16 (r_replication_factor c) +++
     write_array (write_config_result flexible) (r_configs c) flexible) +++
  when_enc flexible Tagged.write_empty.

Definition encode_response (resp : Response) (version : Z) : enc :=
  let flexible := MIN_FLEXIBLE <=? version in
  when_enc (2 <=? version) (write_i32 (throttle_time_ms resp)) +++
  write_array (write_topic_result version flexible) (resp_topics resp) flexible +++
  when_enc flexible Tagged.write_empty.

Definition read_config_result (flexible : bool) : reader CreatableTopicConfigResult :=
  name ← read_str flexible; value ← read_nullable_str flexible; read_only ← read_bool;
  config_source ← read_i8; is_sensitive ← read_bool;
  (if flexible then Tagged.read else mret tt);;
  mret {| c_name := name; c_value := value; read_only := read_only;
          config_source := config_source; is_sensitive := is_sensitive |}.

Definition read_topic_result (version : Z) (flexible : bool) :
    reader CreatableTopicResult :=
  name ← read_str flexible;
  topic_id ← (if 7 <=? version then read_uuid else mret (replicate 16 (z2b 0)));
  error_code ← read_i16;
  error_message ← (if 1 <=? version then read_nullable_str flexible else mret None);
  '(num_partitions, replication_factor, configs) ← (if 5 <=? version then
    num_partitions ← read_i32; replication_factor ← read_i16;
    configs ← read_array flexible (read_config_result flexible);
    mret (num_partitions, replication_factor, configs) else mret (0, 0, []));
  (if flexible then Tagged.read else mret tt);;
  mret {| r_name := name; topic_id := topic_id; error_code := error_code;
          error_message := error_message; r_num_partitions := num_partitions;
          r_replication_factor := replication_factor; r_configs := configs |}.

Definition decode_response (version : Z) : reader Response :=
  let flexible := MIN_FLEXIBLE <=? version in
  throttle_time_ms ← (if 2 <=? version then read_i32 else mret 0);
  topics ← read_array flexible (read_topic_result version flexible);
  (if flexible then Tagged.read else mret tt);;
  mret {| throttle_time_ms := throttle_time_ms; resp_topics := topics |}.

Definition assignment_ok (c : CreatableReplicaAssignment) : Prop :=
  i32_ok (partition_index c) ∧ wire_len (broker_ids c) ∧ Forall i32_ok (broker_ids c).
Definition config_ok (c : CreatableTopicConfig) : Prop :=
  wire_str (name c) ∧ wire_opt_str (value c).
Definition topic_ok (c : CreatableTopic) : Prop :=
  wire_str (t_name c) ∧ i32_ok (num_partitions c) ∧ i16_ok (replication_factor c) ∧
  wire_len (assignments c) ∧ Forall assignment_ok (assignments c) ∧ wire_len (configs c) ∧
  Forall config_ok (configs c).
Definition config_result_ok (c : CreatableTopicConfigResult) : Prop :=
  wire_str (c_name c) ∧ wire_opt_str (c_value c) ∧ i8_ok (config_source c).
Definition topic_result_ok (version : Z) (c : CreatableTopicResult) : Prop :=
  wire_str (r_name c) ∧ uuid_ok (topic_id c) ∧
  gated (7 <=? version) (topic_id c) (replicate 16 (z2b 0)) ∧ i16_ok (error_code c) ∧
  wire_opt_str (error_message c) ∧ gated (1 <=? version) (error_message c) None ∧
  i32_ok (r_num_partitions c) ∧ i16_ok (r_replication_factor c) ∧ wire_len (r_configs c) ∧
  Forall config_result_ok (r_configs c) ∧
  gated (5 <=? version) (r_num_partitions c, r_replication_factor c, r_configs c) (0, 0, []).
Definition request_ok (version : Z) (r : Request) : Prop :=
  wire_len (topics r) ∧ Forall topic_ok (topics r) ∧ i32_ok (timeout_ms r) ∧
  gated (1 <=? version) (validate_only r) false.
Definition response_ok (version : Z) (r : Response) : Prop :=
  i32_ok (throttle_time_ms r) ∧ gated (2 <=? version) (throttle_time_ms r) 0 ∧
  wire_len (resp_topics r) ∧ Forall (topic_result_ok version) (resp_topics r).

Lemma rt_create_topics_assignment flexible c :
  assignment_ok c →
  rt (write_assignment flexible c)
    (read_assignment flexible) c.
Proof.
  destruct c. intros (?&?&?).
  unfold write_assignment, read_assignment. codec.
Qed.
#[local] Hint Resolve rt_create_topics_assignment : codec.
Lemma rt_create_topics_config flexible c :
  config_ok c →
  rt (write_config flexible c)
    (read_config flexible) c.
Proof.
  destruct c. intros (?&?).
  unfold write_config, read_config. codec.
Qed.
#[local] Hint Resolve rt_create_topics_config : codec.
Lemma rt_create_topics_topic flexible c :
  topic_ok c →
  rt (write_topic flexible c)
    (read_topic flexible) c.
Proof.
  destruct c. intros (?&?&?&?&?&?&?).
  unfold write_topic, read_topic. codec.
Qed.
#[local] Hint Resolve rt_create_topics_topic : codec.
Lemma rt_create_topics_config_result flexible c :
  config_result_ok c →
  rt (write_config_result flexible c)
    (read_config_result flexible) c.
Proof.
  destruct c. intros (?&?&?).
  unfold write_config_result, read_config_result. codec.
Qed.
#[local] Hint Resolve rt_create_topics_config_result : codec.
Lemma rt_create_topics_topic_result version flexible c :
  topic_result_ok version c →
  rt (write_topic_result version flexible c)
    (read_topic_result version flexible) c.
Proof.
  destruct c. intros (?&?&?&?&?&?&?&?&?&?&?).
  unfold write_topic_result, read_topic_result. codec.
Qed.
#[local] Hint Resolve rt_create_topics_topic_result : codec.

#[global] Instance request_message : Message Request.
Proof.
  refine {| encode := encode_request; decode := decode_request; msg_ok := request_ok |}.
  intros v []. unfold request_ok. simpl. intros (?&?&?&?).
  unfold encode_request, decode_request;
    cbn [topics timeout_ms validate_only].
  codec.
Defined.

#[global] Instance response_message : Message Response.
Proof.
  refine {| encode := encode_response; decode := decode_response; msg_ok := response_ok |}.
  intros v []. unfold response_ok. simpl. intros (?&?&?&?).
  unfold encode_response, decode_response;
    cbn [throttle_time_ms resp_topics].
  codec.
Defined.

End CreateTopics.

Module DeleteTopics.

Definition VERSIONS : Z * Z := (0, 5).
Definition MIN_FLEXIBLE : Z := 4.
Definition SPEC : ApiSpec := spec_row 20 0 5 MIN_FLEXIBLE.

Record Request := { topic_names : list string; timeout_ms : Z }.
Record DeletableTopicResult := {
  name : string; error_code : Z; error_message : option string }.
Record Response := { throttle_time_ms : Z; responses : list DeletableTopicResult }.

Definition decode_request (version : Z) : reader Request :=
  let flexible := MIN_FLEXIBLE <=? version in
  topic_names ← read_array flexible (read_str flexible); timeout_ms ← read_i32;
  (if flexible then Tagged.read else mret tt);;
  mret {| topic_names := topic_names; timeout_ms := timeout_ms |}.

Definition encode_request (req : Request) (version : Z) : enc :=
  let flexible := MIN_FLEXIBLE <=? version in
  write_array (λ s, write_str s flexible) (topic_names req) flexible +++
  write_i32 (timeout_ms req) +++ when_enc flexible Tagged.write_empty.

Definition write_result (version : Z) (flexible : bool) (d : DeletableTopicResult) :
    enc :=
  write_str (name d) flexible +++ write_i16 (error_code d) +++
  when_enc (5 <=? version) (write_nullable_str (error_message d) flexible) +++
  when_enc flexible Tagged.write_empty.

Definition encode_response (resp : Response) (version : Z) : enc :=
  let flexible := MIN_FLEXIBLE <=? version in
  when_enc (1 <=? version) (write_i32 (throttle_time_ms resp)) +++
  write_array (write_result version flexible) (responses resp) flexible +++
  when_enc flexible Tagged.write_empty.

Definition read_result (version : Z) (flexible : bool) :
    reader DeletableTopicResult :=
  name ← read_str flexible; error_code ← read_i16;
  error_message ← (if 5 <=? version then read_nullable_str flexible else mret None);
  (if flexible then Tagged.read else mret tt);;
  mret {| name := name; error_code := error_code; error_message := error_message |}.

Definition decode_response (version : Z) : reader Response :=
  let flexible := MIN_FLEXIBLE <=? version in
  throttle_time_ms ← (if 1 <=? version then read_i32 else mret 0);
  responses ← read_array flexible (read_result version flexible);
  (if flexible then Tagged.read else mret tt);;
  mret {| throttle_time_ms := throttle_time_ms; responses := responses |}.

Definition result_ok (version : Z) (d : DeletableTopicResult) : Prop :=
  wire_str (name d) ∧ i16_ok (error_code d) ∧ wire_opt_str (error_message d) ∧
  gated (5 <=? version) (error_message d) None.
Definition request_ok (version : Z) (r : Request) : Prop :=
  wire_len (topic_names r) ∧ Forall wire_str (topic_names r) ∧ i32_ok (timeout_ms r).
Definition response_ok (version : Z) (r : Response) : Prop :=
  i32_ok (throttle_time_ms r) ∧ gated (1 <=? version) (throttle_time_ms r) 0 ∧
  wire_len (responses r) ∧ Forall (result_ok version) (responses r).

Lemma rt_delete_topics_result version flexible d :
  result_ok version d →
  rt (write_result version flexible d)
    (read_result version flexible) d.
Proof.
  destruct d. intros (?&?&?&?).
  unfold write_result, read_result. codec.
Qed.
#[local] Hint Resolve rt_delete_topics_result : codec.

#[global] Instance request_message : Message Request.
Proof.
  refine {| encode := encode_request; decode := decode_request; msg_ok := request_ok |}.
  intros v []. unfold request_ok. simpl. intros (?&?&?).
  unfold encode_request, decode_request;
    cbn [topic_names timeout_ms].
  codec.
Defined.

#[global] Instance response_message : Message Response.
Proof.
  refine {| encode := encode_response; decode := decode_response; msg_ok := response_ok |}.
  intros v []. unfold response_ok. simpl. intros (?&?&?&?).
  unfold encode_response, decode_response;
    cbn [throttle_time_ms responses].
  codec.
Defined.

End DeleteTopics.

Module CreatePartitions.

Definition VERSIONS : Z * Z := (0, 3).
Definition MIN_FLEXIBLE : Z := 2.
Definition SPEC : ApiSpec := spec_row 37 0 3 MIN_FLEXIBLE.

Record CreatePartitionsTopic := {
  name : string; count : Z; assignments : option (list (list Z)) }.
Record Request := {
  topics : list CreatePartitionsTopic; timeout_ms : Z; validate_only : bool }.
Record CreatePartitionsTopicResult := {
  r_name : string; r_error_code : Z; r_error_message : option string }.
Record Response := { throttle_time_ms : Z; results : list CreatePartitionsTopicResult }.

(** An assignment is one row of broker ids per new partition, each with its own
    tagged block. *)
Definition read_row (flexible : bool) : reader (list Z) :=
  row ← read_array flexible read_i32;
  (if flexible then Tagged.read else mret tt);;
  mret row.
Definition write_row (flexible : bool) (row : list Z) : enc :=
  write_array write_i32 row flexible +++ when_enc flexible Tagged.write_empty.
Definition row_ok (row : list Z) : Prop := wire_len row ∧ Forall i32_ok row.

Lemma rt_create_partitions_row flexible row :
  row_ok row → rt (write_row flexible row) (read_row flexible) row.
Proof. intros [??]. unfold write_row, read_row. codec. Qed.
#[local] Hint Resolve rt_create_partitions_row : codec.

Definition read_topic (flexible : bool) : reader CreatePartitionsTopic :=
  name ← read_str flexible; count ← read_i32;
  assignments ← read_nullable_array flexible (read_row flexible);
  (if flexible then Tagged.read else mret tt);;
  mret {| name := name; count := count; assignments := assignments |}.
Definition write_topic (flexible : bool) (t : CreatePartitionsTopic) : enc :=
  write_str (name t) flexible +++ write_i32 (count t) +++
  write_nullable_array (write_row flexible) (assignments t) flexible +++
  when_enc flexible Tagged.write_empty.
Definition topic_ok (t : CreatePartitionsTopic) : Prop :=
  wire_str (name t) ∧ i32_ok (count t) ∧ wire_opt_list row_ok (assignments t).

Lemma rt_create_partitions_topic flexible t :
  topic_ok t → rt (write_topic flexible t) (read_topic flexible) t.
Proof. destruct t. intros (?&?&?). unfold write_topic, read_topic. codec. Qed.
#[local] Hint Resolve rt_create_partitions_topic : codec.

Definition decode_request (version : Z) : reader Request :=
  let flexible := MIN_FLEXIBLE <=? version in
  topics ← read_array flexible (read_topic flexible); timeout_ms ← read_i32;
  validate_only ← read_bool;
  (if flexible then Tagged.read else mret tt);;
  mret {| topics := topics; timeout_ms := timeout_ms; validate_only := validate_only |}.

Definition encode_request (req : Request) (version : Z) : enc :=
  let flexible := MIN_FLEXIBLE <=? version in
  write_array (write_topic flexible) (topics req) flexible +++
  write_i32 (timeout_ms req) +++ write_bool (validate_only req) +++
  when_enc flexible Tagged.write_empty.

Definition write_topic_result (version : Z) (flexible : bool) (c : CreatePartitionsTopicResult) :
    enc :=
  write_str (r_name c) flexible +++ write_i16 (r_error_code c) +++
  when_enc (1 <=? version) (write_nullable_str (r_error_message c) flexible) +++
  when_enc flexible Tagged.write_empty.

Definition encode_response (resp : Response) (version : Z) : enc :=
  let flexible := MIN_FLEXIBLE <=? version in
  write_i32 (throttle_time_ms resp) +++
  write_array (write_topic_result version flexible) (results resp) flexible +++
  when_enc flexible Tagged.write_empty.

Definition read_topic_result (version : Z) (flexible : bool) :
    reader CreatePartitionsTopicResult :=
  name ← read_str flexible; error_code ← read_i16;
  error_message ← (if 1 <=? version then read_nullable_str flexible else mret None);
  (if flexible then Tagged.read else mret tt);;
  mret {| r_name := name; r_error_code := error_code; r_error_message := error_message |}.

Definition decode_response (version : Z) : reader Response :=
  let flexible := MIN_FLEXIBLE <=? version in
  throttle_time_ms ← read_i32;
  results ← read_array flexible (read_topic_result version flexible);
  (if flexible then Tagged.read else mret tt);;
  mret {| throttle_time_ms := throttle_time_ms; results := results |}.

Definition topic_result_ok (version : Z) (c : CreatePartitionsTopicResult) : Prop :=
  wire_str (r_name c) ∧ i16_ok (r_error_code c) ∧ wire_opt_str (r_error_message c) ∧
  gated (1 <=? version) (r_error_message c) None.
Definition request_ok (version : Z) (r : Request) : Prop :=
  wire_len (topics r) ∧ Forall topic_ok (topics r) ∧ i32_ok (timeout_ms r).
Definition response_ok (version : Z) (r : Response) : Prop :=
  i32_ok (throttle_time_ms r) ∧ wire_len (results r) ∧
  Forall (topic_result_ok version) (results r).

Lemma rt_create_partitions_topic_result version flexible c :
  topic_result_ok version c →
  rt (write_topic_result version flexible c)
    (read_topic_result version flexible) c.
Proof.
  destruct c. intros (?&?&?&?).
  unfold write_topic_result, read_topic_result. codec.
Qed.
#[local] Hint Resolve rt_create_partitions_topic_result : codec.

#[global] Instance request_message : Message Request.
Proof.
  refine {| encode := encode_request; decode := decode_request; msg_ok := request_ok |}.
  intros v []. unfold request_ok. simpl. intros (?&?&?).
  unfold encode_request, decode_request;
    cbn [topics timeout_ms validate_only].
  codec.
Defined.

#[global] Instance response_message : Message Response.
Proof.
  refine {| encode := encode_response; decode := decode_response; msg_ok := response_ok |}.
  intros v []. unfold response_ok. simpl. intros (?&?&?).
  unfold encode_response, decode_response;
    cbn [throttle_time_ms results].
  codec.
Defined.

End CreatePartitions.

Module CreateAcls.

Definition VERSIONS : Z * Z := (0, 3).
Definition MIN_FLEXIBLE : Z := 2.
Definition SPEC : ApiSpec := spec_row 30 0 3 MIN_FLEXIBLE.

Record Request := { creations : list AclTypes.AclBinding }.
Record CreateAclsResult := { error_code : Z; error_message : option string }.
Record Response := { throttle_time_ms : Z; results : list CreateAclsResult }.

Definition decode_request (version : Z) : reader Request :=
  let flexible := MIN_FLEXIBLE <=? version in
  creations ← read_array flexible (AclTypes.read_binding version flexible);
  (if flexible then Tagged.read else mret tt);;
  mret {| creations := creations |}.

Definition encode_request (req : Request) (version : Z) : enc :=
  let flexible := MIN_FLEXIBLE <=? version in
  write_array (AclTypes.write_binding version flexible) (creations req) flexible +++
  when_enc flexible Tagged.write_empty.

Definition write_result (flexible : bool) (c : CreateAclsResult) : enc :=
  write_i16 (error_code c) +++ write_nullable_str (error_message c) flexible +++
  when_enc flexible Tagged.write_empty.

Definition encode_response (resp : Response) (version : Z) : enc :=
  let flexible := MIN_FLEXIBLE <=? version in
  write_i32 (throttle_time_ms resp) +++
  write_array (write_result flexible) (results resp) flexible +++
  when_enc flexible Tagged.write_empty.

Definition read_result (flexible : bool) : reader CreateAclsResult :=
  error_code ← read_i16; error_message ← read_nullable_str flexible;
  (if flexible then Tagged.read else mret tt);;
  mret {| error_code := error_code; error_message := error_message |}.

Definition decode_response (version : Z) : reader Response :=
  let flexible := MIN_FLEXIBLE <=? version in
  throttle_time_ms ← read_i32; results ← read_array flexible (read_result flexible);
  (if flexible then Tagged.read else mret tt);;
  mret {| throttle_time_ms := throttle_time_ms; results := results |}.

Definition result_ok (c : CreateAclsResult) : Prop :=
  i16_ok (error_code c) ∧ wire_opt_str (error_message c).
Definition request_ok (version : Z) (r : Request) : Prop :=
  wire_len (creations r) ∧ Forall (AclTypes.binding_ok version) (creations r).
Definition response_ok (version : Z) (r : Response) : Prop :=
  i32_ok (throttle_time_ms r) ∧ wire_len (results r) ∧ Forall result_ok (results r).

Lemma rt_create_acls_result flexible c :
  result_ok c →
  rt (write_result flexible c)
    (read_result flexible) c.
Proof.
  destruct c. intros (?&?).
  unfold write_result, read_result. codec.
Qed.
#[local] Hint Resolve rt_create_acls_result : codec.

#[global] Instance request_message : Message Request.
Proof.
  refine {| encode := encode_request; decode := decode_request; msg_ok := request_ok |}.
  intros v []. unfold request_ok. simpl. intros (?&?).
  unfold encode_request, decode_request;
    cbn [creations].
  codec.
Defined.

#[global] Instance response_message : Message Response.
Proof.
  refine {| encode := encode_response; decode := decode_response; msg_ok := response_ok |}.
  intros v []. unfold response_ok. simpl. intros (?&?&?).
  unfold encode_response, decode_response;
    cbn [throttle_time_ms results].
  codec.
Defined.

End CreateAcls.

Module DescribeAcls.

Definition VERSIONS : Z * Z := (0, 3).
Definition MIN_FLEXIBLE : Z := 2.
Definition SPEC : ApiSpec := spec_row 29 0 3 MIN_FLEXIBLE.

Record Request := { filter : AclTypes.AclFilter }.
Record MatchingAcl := { principal : string; host : string; operation : Z; permission : Z }.
Record DescribeAclsResource := {
  resource_type : Z; resource_name : string; pattern_type : Z; acls : list MatchingAcl }.
Record Response := {
  throttle_time_ms : Z; error_code : Z; error_message : option string;
  resources : list DescribeAclsResource }.

Definition decode_request (version : Z) : reader Request :=
  let flexible := MIN_FLEXIBLE <=? version in
  filter ← AclTypes.read_filter version flexible;
  (if flexible then Tagged.read else mret tt);;
  mret {| filter := filter |}.

Definition encode_request (req : Request) (version : Z) : enc :=
  let flexible := MIN_FLEXIBLE <=? version in
  AclTypes.write_filter version flexible (filter req) +++
  when_enc flexible Tagged.write_empty.

Definition write_acl (flexible : bool) (m : MatchingAcl) : enc :=
  write_str (principal m) flexible +++ write_str (host m) flexible +++
  write_i8 (operation m) +++ write_i8 (permission m) +++
  when_enc flexible Tagged.write_empty.

Definition write_resource (version : Z) (flexible : bool) (d : DescribeAclsResource) :
    enc :=
  write_i8 (resource_type d) +++ write_str (resource_name d) flexible +++
  when_enc (1 <=? version) (write_i8 (pattern_type d)) +++
  write_array (write_acl flexible) (acls d) flexible +++
  when_enc flexible Tagged.write_empty.

Definition encode_response (resp : Response) (version : Z) : enc :=
  let flexible := MIN_FLEXIBLE <=? version in
  write_i32 (throttle_time_ms resp) +++ write_i16 (error_code resp) +++
  write_nullable_str (error_message resp) flexible +++
  write_array (write_resource version flexible) (resources resp) flexible +++
  when_enc flexible Tagged.write_empty.

Definition read_acl (flexible : bool) : reader MatchingAcl :=
  principal ← read_str flexible; host ← read_str flexible; operation ← read_i8;
  permission ← read_i8;
  (if flexible then Tagged.read else mret tt);;
  mret {| principal := principal; host := host; operation := operation;
          permission := permission |}.

Definition read_resource (version : Z) (flexible : bool) :
    reader DescribeAclsResource :=
  resource_type ← read_i8; resource_name ← read_str flexible;
  pattern_type ← (if 1 <=? version then read_i8 else mret 0);
  acls ← read_array flexible (read_acl flexible);
  (if flexible then Tagged.read else mret tt);;
  mret {| resource_type := resource_type; resource_name := resource_name;
          pattern_type := pattern_type; acls := acls |}.

Definition decode_response (version : Z) : reader Response :=
  let flexible := MIN_FLEXIBLE <=? version in
  throttle_time_ms ← read_i32; error_code ← read_i16;
  error_message ← read_nullable_str flexible;
  resources ← read_array flexible (read_resource version flexible);
  (if flexible then Tagged.read else mret tt);;
  mret {| throttle_time_ms := throttle_time_ms; error_code := error_code;
          error_message := error_message; resources := resources |}.

Definition acl_ok (m : MatchingAcl) : Prop :=
  wire_str (principal m) ∧ wire_str (host m) ∧ i8_ok (operation m) ∧ i8_ok (permission m).
Definition resource_ok (version : Z) (d : DescribeAclsResource) : Prop :=
  i8_ok (resource_type d) ∧ wire_str (resource_name d) ∧ i8_ok (pattern_type d) ∧
  gated (1 <=? version) (pattern_type d) 0 ∧ wire_len (acls d) ∧ Forall acl_ok (acls d).
Definition request_ok (version : Z) (r : Request) : Prop :=
  AclTypes.filter_ok version (filter r).
Definition response_ok (version : Z) (r : Response) : Prop :=
  i32_ok (throttle_time_ms r) ∧ i16_ok (error_code r) ∧ wire_opt_str (error_message r) ∧
  wire_len (resources r) ∧ Forall (resource_ok version) (resources r).

Lemma rt_describe_acls_acl flexible m :
  acl_ok m →
  rt (write_acl flexible m)
    (read_acl flexible) m.
Proof.
  destruct m. intros (?&?&?&?).
  unfold write_acl, read_acl. codec.
Qed.
#[local] Hint Resolve rt_describe_acls_acl : codec.
Lemma rt_describe_acls_resource version flexible d :
  resource_ok version d →
  rt (write_resource version flexible d)
    (read_resource version flexible) d.
Proof.
  destruct d. intros (?&?&?&?&?&?).
  unfold write_resource, read_resource. codec.
Qed.
#[local] Hint Resolve rt_describe_acls_resource : codec.

#[global] Instance request_message : Message Request.
Proof.
  refine {| encode := encode_request; decode := decode_request; msg_ok := request_ok |}.
  intros v []. unfold request_ok. simpl. intros ?.
  unfold encode_request, decode_request;
    cbn [filter].
  codec.
Defined.

#[global] Instance response_message : Message Response.
Proof.
  refine {| encode := encode_response; decode := decode_response; msg_ok := response_ok |}.
  intros v []. unfold response_ok. simpl. intros (?&?&?&?&?).
  unfold encode_response, decode_response;
    cbn [throttle_time_ms error_code error_message resources].
  codec.
Defined.

End DescribeAcls.

Module DeleteAcls.

Definition VERSIONS : Z * Z := (0, 3).
Definition MIN_FLEXIBLE : Z := 2.
Definition SPEC : ApiSpec := spec_row 31 0 3 MIN_FLEXIBLE.

Record Request := { filters : list AclTypes.AclFilter }.
Record DeleteAclsMatchingAcl := {
  m_error_code : Z; m_error_message : option string; m_binding : AclTypes.AclBinding }.
Record DeleteAclsFilterResult := {
  error_code : Z; error_message : option string; matching_acls : list DeleteAclsMatchingAcl }.
Record Response := { throttle_time_ms : Z; filter_results : list DeleteAclsFilterResult }.

Definition decode_request (version : Z) : reader Request :=
  let flexible := MIN_FLEXIBLE <=? version in
  filters ← read_array flexible (AclTypes.read_tagged_filter version flexible);
  (if flexible then Tagged.read else mret tt);;
  mret {| filters := filters |}.

Definition encode_request (req : Request) (version : Z) : enc :=
  let flexible := MIN_FLEXIBLE <=? version in
  write_array (AclTypes.write_tagged_filter version flexible) (filters req) flexible +++
  when_enc flexible Tagged.write_empty.

Definition write_matching_acl (version : Z) (flexible : bool) (d : DeleteAclsMatchingAcl) :
    enc :=
  write_i16 (m_error_code d) +++ write_nullable_str (m_error_message d) flexible +++
  AclTypes.write_binding version flexible (m_binding d).

Definition write_filter_result (version : Z) (flexible : bool) (d : DeleteAclsFilterResult) :
    enc :=
  write_i16 (error_code d) +++ write_nullable_str (error_message d) flexible +++
  write_array (write_matching_acl version flexible) (matching_acls d) flexible +++
  when_enc flexible Tagged.write_empty.

Definition encode_response (resp : Response) (version : Z) : enc :=
  let flexible := MIN_FLEXIBLE <=? version in
  write_i32 (throttle_time_ms resp) +++
  write_array (write_filter_result version flexible) (filter_results resp) flexible +++
  when_enc flexible Tagged.write_empty.

Definition read_matching_acl (version : Z) (flexible : bool) :
    reader DeleteAclsMatchingAcl :=
  error_code ← read_i16; error_message ← read_nullable_str flexible;
  binding ← AclTypes.read_binding version flexible;
  mret {| m_error_code := error_code; m_error_message := error_message;
          m_binding := binding |}.

Definition read_filter_result (version : Z) (flexible : bool) :
    reader DeleteAclsFilterResult :=
  error_code ← read_i16; error_message ← read_nullable_str flexible;
  matching_acls ← read_array flexible (read_matching_acl version flexible);
  (if flexible then Tagged.read else mret tt);;
  mret {| error_code := error_code; error_message := error_message;
          matching_acls := matching_acls |}.

Definition decode_response (version : Z) : reader Response :=
  let flexible := MIN_FLEXIBLE <=? version in
  throttle_time_ms ← read_i32;
  filter_results ← read_array flexible (read_filter_result version flexible);
  (if flexible then Tagged.read else mret tt);;
  mret {| throttle_time_ms := throttle_time_ms; filter_results := filter_results |}.

Definition matching_acl_ok (version : Z) (d : DeleteAclsMatchingAcl) : Prop :=
  i16_ok (m_error_code d) ∧ wire_opt_str (m_error_message d) ∧
  AclTypes.binding_ok version (m_binding d).
Definition filter_result_ok (version : Z) (d : DeleteAclsFilterResult) : Prop :=
  i16_ok (error_code d) ∧ wire_opt_str (error_message d) ∧ wire_len (matching_acls d) ∧
  Forall (matching_acl_ok version) (matching_acls d).
Definition request_ok (version : Z) (r : Request) : Prop :=
  wire_len (filters r) ∧ Forall (AclTypes.filter_ok version) (filters r).
Definition response_ok (version : Z) (r : Response) : Prop :=
  i32_ok (throttle_time_ms r) ∧ wire_len (filter_results r) ∧
  Forall (filter_result_ok version) (filter_results r).

Lemma rt_delete_acls_matching_acl version flexible d :
  matching_acl_ok version d →
  rt (write_matching_acl version flexible d)
    (read_matching_acl version flexible) d.
Proof.
  destruct d. intros (?&?&?).
  unfold write_matching_acl, read_matching_acl. codec.
Qed.
#[local] Hint Resolve rt_delete_acls_matching_acl : codec.
Lemma rt_delete_acls_filter_result version flexible d :
  filter_result_ok version d →
  rt (write_filter_result version flexible d)
    (read_filter_result version flexible) d.
Proof.
  destruct d. intros (?&?&?&?).
  unfold write_filter_result, read_filter_result. codec.
Qed.
#[local] Hint Resolve rt_delete_acls_filter_result : codec.

#[global] Instance request_message : Message Request.
Proof.
  refine {| encode := encode_request; decode := decode_request; msg_ok := request_ok |}.
  intros v []. unfold request_ok. simpl. intros (?&?).
  unfold encode_request, decode_request;
    cbn [filters].
  codec.
Defined.

#[global] Instance response_message : Message Response.
Proof.
  refine {| encode := encode_response; decode := decode_response; msg_ok := response_ok |}.
  intros v []. unfold response_ok. simpl. intros (?&?&?).
  unfold encode_response, decode_response;
    cbn [throttle_time_ms filter_results].
  codec.
Defined.

End DeleteAcls.

Module DescribeConfigs.

Definition VERSIONS : Z * Z := (0, 4).
Definition MIN_FLEXIBLE : Z := 4.
Definition SPEC : ApiSpec := spec_row 32 0 4 MIN_FLEXIBLE.

Record DescribeConfigsResource := {
  resource_type : Z; resource_name : string; configuration_keys : option (list string) }.
Record Request := {
  resources : list DescribeConfigsResource; include_synonyms : bool;
  include_documentation : bool }.
Record DescribeConfigsSynonym := { s_name : string; s_value : option string; s_source : Z }.
Record DescribeConfigsResultConfig := {
  name : string; value : option string; read_only : bool; is_default : bool;
  is_sensitive : bool; synonyms : list DescribeConfigsSynonym; config_type : Z;
  config_source : Z; documentation : option string }.
Record DescribeConfigsResult := {
  error_code : Z; error_message : option string; r_resource_type : Z;
  r_resource_name : string; configs : list DescribeConfigsResultConfig }.
Record Response := { throttle_time_ms : Z; results : list DescribeConfigsResult }.

Definition read_resource (flexible : bool) : reader DescribeConfigsResource :=
  resource_type ← read_i8; resource_name ← read_str flexible;
  configuration_keys ← read_nullable_array flexible (read_str flexible);
  (if flexible then Tagged.read else mret tt);;
  mret {| resource_type := resource_type; resource_name := resource_name;
          configuration_keys := configuration_keys |}.

Definition decode_request (version : Z) : reader Request :=
  let flexible := MIN_FLEXIBLE <=? version in
  resources ← read_array flexible (read_resource flexible);
  include_synonyms ← (if 1 <=? version then read_bool else mret false);
  include_documentation ← (if 3 <=? version then read_bool else mret false);
  (if flexible then Tagged.read else mret tt);;
  mret {| resources := resources; include_synonyms := include_synonyms;
          include_documentation := include_documentation |}.

Definition write_resource (flexible : bool) (d : DescribeConfigsResource) : enc :=
  write_i8 (resource_type d) +++ write_str (resource_name d) flexible +++
  write_nullable_array (λ s, write_str s flexible) (configuration_keys d) flexible +++
  when_enc flexible Tagged.write_empty.

Definition encode_request (req : Request) (version : Z) : enc :=
  let flexible := MIN_FLEXIBLE <=? version in
  write_array (write_resource flexible) (resources req) flexible +++
  when_enc (1 <=? version) (write_bool (include_synonyms req)) +++
  when_enc (3 <=? version) (write_bool (include_documentation req)) +++
  when_enc flexible Tagged.write_empty.

Definition write_synonym (flexible : bool) (d : DescribeConfigsSynonym) : enc :=
  write_str (s_name d) flexible +++ write_nullable_str (s_value d) flexible +++
  write_i8 (s_source d) +++ when_enc flexible Tagged.write_empty.

Definition write_config (version : Z) (flexible : bool) (d : DescribeConfigsResultConfig) :
    enc :=
  write_str (name d) flexible +++ write_nullable_str (value d) flexible +++
  write_bool (read_only d) +++ when_enc (version =? 0) (write_bool (is_default d)) +++
  when_enc (1 <=? version)
    (write_i8 (config_source d) +++ write_bool (is_sensitive d) +++
     write_array (write_synonym flexible) (synonyms d) flexible) +++
  when_enc (2 <=? version) (write_i8 (config_type d)) +++
  when_enc (3 <=? version) (write_nullable_str (documentation d) flexible) +++
  when_enc flexible Tagged.write_empty.

Definition write_result (version : Z) (flexible : bool) (d : DescribeConfigsResult) :
    enc :=
  write_i16 (error_code d) +++ write_nullable_str (error_message d) flexible +++
  write_i8 (r_resource_type d) +++ write_str (r_resource_name d) flexible +++
  write_array (write_config version flexible) (configs d) flexible +++
  when_enc flexible Tagged.write_empty.

Definition encode_response (resp : Response) (version : Z) : enc :=
  let flexible := MIN_FLEXIBLE <=? version in
  write_i32 (throttle_time_ms resp) +++
  write_array (write_result version flexible) (results resp) flexible +++
  when_enc flexible Tagged.write_empty.

Definition read_synonym (flexible : bool) : reader DescribeConfigsSynonym :=
  name ← read_str flexible; value ← read_nullable_str flexible; source ← read_i8;
  (if flexible then Tagged.read else mret tt);;
  mret {| s_name := name; s_value := value; s_source := source |}.

Definition read_config (version : Z) (flexible : bool) :
    reader DescribeConfigsResultConfig :=
  name ← read_str flexible; value ← read_nullable_str flexible; read_only ← read_bool;
  is_default ← (if version =? 0 then read_bool else mret false);
  '(config_source, is_sensitive, synonyms) ← (if 1 <=? version then
    config_source ← read_i8; is_sensitive ← read_bool;
    synonyms ← read_array flexible (read_synonym flexible);
    mret (config_source, is_sensitive, synonyms) else mret (0, false, []));
  config_type ← (if 2 <=? version then read_i8 else mret 0);
  documentation ← (if 3 <=? version then read_nullable_str flexible else mret None);
  (if flexible then Tagged.read else mret tt);;
  mret {| name := name; value := value; read_only := read_only; is_default := is_default;
          is_sensitive := is_sensitive; synonyms := synonyms; config_type := config_type;
          config_source := config_source; documentation := documentation |}.

Definition read_result (version : Z) (flexible : bool) :
    reader DescribeConfigsResult :=
  error_code ← read_i16; error_message ← read_nullable_str flexible;
  resource_type ← read_i8; resource_name ← read_str flexible;
  configs ← read_array flexible (read_config version flexible);
  (if flexible then Tagged.read else mret tt);;
  mret {| error_code := error_code; error_message := error_message;
          r_resource_type := resource_type; r_resource_name := resource_name;
          configs := configs |}.

Definition decode_response (version : Z) : reader Response :=
  let flexible := MIN_FLEXIBLE <=? version in
  throttle_time_ms ← read_i32;
  results ← read_array flexible (read_result version flexible);
  (if flexible then Tagged.read else mret tt);;
  mret {| throttle_time_ms := throttle_time_ms; results := results |}.

Definition resource_ok (d : DescribeConfigsResource) : Prop :=
  i8_ok (resource_type d) ∧ wire_str (resource_name d) ∧
  wire_opt_list wire_str (configuration_keys d).
Definition synonym_ok (d : DescribeConfigsSynonym) : Prop :=
  wire_str (s_name d) ∧ wire_opt_str (s_value d) ∧ i8_ok (s_source d).
Definition config_ok (version : Z) (d : DescribeConfigsResultConfig) : Prop :=
  wire_str (name d) ∧ wire_opt_str (value d) ∧ gated (version =? 0) (is_default d) false ∧
  i8_ok (config_source d) ∧ wire_len (synonyms d) ∧ Forall synonym_ok (synonyms d) ∧
  gated (1 <=? version) (config_source d, is_sensitive d, synonyms d) (0, false, []) ∧
  i8_ok (config_type d) ∧ gated (2 <=? version) (config_type d) 0 ∧
  wire_opt_str (documentation d) ∧ gated (3 <=? version) (documentation d) None.
Definition result_ok (version : Z) (d : DescribeConfigsResult) : Prop :=
  i16_ok (error_code d) ∧ wire_opt_str (error_message d) ∧ i8_ok (r_resource_type d) ∧
  wire_str (r_resource_name d) ∧ wire_len (configs d) ∧
  Forall (config_ok version) (configs d).
Definition request_ok (version : Z) (r : Request) : Prop :=
  wire_len (resources r) ∧ Forall resource_ok (resources r) ∧
  gated (1 <=? version) (include_synonyms r) false ∧
  gated (3 <=? version) (include_documentation r) false.
Definition response_ok (version : Z) (r : Response) : Prop :=
  i32_ok (throttle_time_ms r) ∧ wire_len (results r) ∧
  Forall (result_ok version) (results r).

Lemma rt_describe_configs_resource flexible d :
  resource_ok d →
  rt (write_resource flexible d)
    (read_resource flexible) d.
Proof.
  destruct d. intros (?&?&?).
  unfold write_resource, read_resource. codec.
Qed.
#[local] Hint Resolve rt_describe_configs_resource : codec.
Lemma rt_describe_configs_synonym flexible d :
  synonym_ok d →
  rt (write_synonym flexible d)
    (read_synonym flexible) d.
Proof.
  destruct d. intros (?&?&?).
  unfold write_synonym, read_synonym. codec.
Qed.
#[local] Hint Resolve rt_describe_configs_synonym : codec.
Lemma rt_describe_configs_config version flexible d :
  config_ok version d →
  rt (write_config version flexible d)
    (read_config version flexible) d.
Proof.
  destruct d. intros (?&?&?&?&?&?&?&?&?&?&?).
  unfold write_config, read_config. codec.
Qed.
#[local] Hint Resolve rt_describe_configs_config : codec.
Lemma rt_describe_configs_result version flexible d :
  result_ok version d →
  rt (write_result version flexible d)
    (read_result version flexible) d.
Proof.
  destruct d. intros (?&?&?&?&?&?).
  unfold write_result, read_result. codec.
Qed.
#[local] Hint Resolve rt_describe_configs_result : codec.

#[global] Instance request_message : Message Request.
Proof.
  refine {| encode := encode_request; decode := decode_request; msg_ok := request_ok |}.
  intros v []. unfold request_ok. simpl. intros (?&?&?&?).
  unfold encode_request, decode_request;
    cbn [resources include_synonyms include_documentation].
  codec.
Defined.

#[global] Instance response_message : Message Response.
Proof.
  refine {| encode := encode_response; decode := decode_response; msg_ok := response_ok |}.
  intros v []. unfold response_ok. simpl. intros (?&?&?).
  unfold encode_response, decode_response;
    cbn [throttle_time_ms results].
  codec.
Defined.

End DescribeConfigs.

Module IncrementalAlterConfigs.

Definition VERSIONS : Z * Z := (0, 1).
Definition MIN_FLEXIBLE : Z := 1.
Definition SPEC : ApiSpec := spec_row 44 0 1 MIN_FLEXIBLE.

Record AlterConfigOp := { name : string; op : Z; value : option string }.
Record AlterConfigsResource := {
  resource_type : Z; resource_name : string; configs : list AlterConfigOp }.
Record Request := { resources : list AlterConfigsResource; validate_only : bool }.
Record AlterConfigsResourceResponse := {
  error_code : Z; error_message : option string; r_resource_type : Z;
  r_resource_name : string }.
Record Response := { throttle_time_ms : Z; responses : list AlterConfigsResourceResponse }.

Definition read_config_op (flexible : bool) : reader AlterConfigOp :=
  name ← read_str flexible; op ← read_i8; value ← read_nullable_str flexible;
  (if flexible then Tagged.read else mret tt);;
  mret {| name := name; op := op; value := value |}.

Definition read_resource (flexible : bool) : reader AlterConfigsResource :=
  resource_type ← read_i8; resource_name ← read_str flexible;
  configs ← read_array flexible (read_config_op flexible);
  (if flexible then Tagged.read else mret tt);;
  mret {| resource_type := resource_type; resource_name := resource_name;
          configs := configs |}.

Definition decode_request (version : Z) : reader Request :=
  let flexible := MIN_FLEXIBLE <=? version in
  resources ← read_array flexible (read_resource flexible); validate_only ← read_bool;
  (if flexible then Tagged.read else mret tt);;
  mret {| resources := resources; validate_only := validate_only |}.

Definition write_config_op (flexible : bool) (a : AlterConfigOp) : enc :=
  write_str (name a) flexible +++ write_i8 (op a) +++
  write_nullable_str (value a) flexible +++ when_enc flexible Tagged.write_empty.

Definition write_resource (flexible : bool) (a : AlterConfigsResource) : enc :=
  write_i8 (resource_type a) +++ write_str (resource_name a) flexible +++
  write_array (write_config_op flexible) (configs a) flexible +++
  when_enc flexible Tagged.write_empty.

Definition encode_request (req : Request) (version : Z) : enc :=
  let flexible := MIN_FLEXIBLE <=? version in
  write_array (write_resource flexible) (resources req) flexible +++
  write_bool (validate_only req) +++ when_enc flexible Tagged.write_empty.

Definition write_resource_response (flexible : bool) (a : AlterConfigsResourceResponse) :
    enc :=
  write_i16 (error_code a) +++ write_nullable_str (error_message a) flexible +++
  write_i8 (r_resource_type a) +++ write_str (r_resource_name a) flexible +++
  when_enc flexible Tagged.write_empty.

Definition encode_response (resp : Response) (version : Z) : enc :=
  let flexible := MIN_FLEXIBLE <=? version in
  write_i32 (throttle_time_ms resp) +++
  write_array (write_resource_response flexible) (responses resp) flexible +++
  when_enc flexible Tagged.write_empty.

Definition read_resource_response (flexible : bool) :
    reader AlterConfigsResourceResponse :=
  error_code ← read_i16; error_message ← read_nullable_str flexible;
  resource_type ← read_i8; resource_name ← read_str flexible;
  (if flexible then Tagged.read else mret tt);;
  mret {| error_code := error_code; error_message := error_message;
          r_resource_type := resource_type; r_resource_name := resource_name |}.

Definition decode_response (version : Z) : reader Response :=
  let flexible := MIN_FLEXIBLE <=? version in
  throttle_time_ms ← read_i32;
  responses ← read_array flexible (read_resource_response flexible);
  (if flexible then Tagged.read else mret tt);;
  mret {| throttle_time_ms := throttle_time_ms; responses := responses |}.

Definition config_op_ok (a : AlterConfigOp) : Prop :=
  wire_str (name a) ∧ i8_ok (op a) ∧ wire_opt_str (value a).
Definition resource_ok (a : AlterConfigsResource) : Prop :=
  i8_ok (resource_type a) ∧ wire_str (resource_name a) ∧ wire_len (configs a) ∧
  Forall config_op_ok (configs a).
Definition resource_response_ok (a : AlterConfigsResourceResponse) : Prop :=
  i16_ok (error_code a) ∧ wire_opt_str (error_message a) ∧ i8_ok (r_resource_type a) ∧
  wire_str (r_resource_name a).
Definition request_ok (version : Z) (r : Request) : Prop :=
  wire_len (resources r) ∧ Forall resource_ok (resources r).
Definition response_ok (version : Z) (r : Response) : Prop :=
  i32_ok (throttle_time_ms r) ∧ wire_len (responses r) ∧
  Forall resource_response_ok (responses r).

Lemma rt_incremental_alter_configs_config_op flexible a :
  config_op_ok a →
  rt (write_config_op flexible a)
    (read_config_op flexible) a.
Proof.
  destruct a. intros (?&?&?).
  unfold write_config_op, read_config_op. codec.
Qed.
#[local] Hint Resolve rt_incremental_alter_configs_config_op : codec.
Lemma rt_incremental_alter_configs_resource flexible a :
  resource_ok a →
  rt (write_resource flexible a)
    (read_resource flexible) a.
Proof.
  destruct a. intros (?&?&?&?).
  unfold write_resource, read_resource. codec.
Qed.
#[local] Hint Resolve rt_incremental_alter_configs_resource : codec.
Lemma rt_incremental_alter_configs_resource_response flexible a :
  resource_response_ok a →
  rt (write_resource_response flexible a)
    (read_resource_response flexible) a.
Proof.
  destruct a. intros (?&?&?&?).
  unfold write_resource_response, read_resource_response. codec.
Qed.
#[local] Hint Resolve rt_incremental_alter_configs_resource_response : codec.

#[global] Instance request_message : Message Request.
Proof.
  refine {| encode := encode_request; decode := decode_request; msg_ok := request_ok |}.
  intros v []. unfold request_ok. simpl. intros (?&?).
  unfold encode_request, decode_request;
    cbn [resources validate_only].
  codec.
Defined.

#[global] Instance response_message : Message Response.
Proof.
  refine {| encode := encode_response; decode := decode_response; msg_ok := response_ok |}.
  intros v []. unfold response_ok. simpl. intros (?&?&?).
  unfold encode_response, decode_response;
    cbn [throttle_time_ms responses].
  codec.
Defined.

End IncrementalAlterConfigs.

(** A quota value is an [f64], kept as its 64 bits. *)
Module DescribeClientQuotas.

Definition VERSIONS : Z * Z := (0, 1).
Definition MIN_FLEXIBLE : Z := 1.
Definition SPEC : ApiSpec := spec_row 48 0 1 MIN_FLEXIBLE.

Record ComponentData := { entity_type : string; match_type : Z; match_ : option string }.
Record Request := { components : list ComponentData; strict : bool }.
Record EntityData := { e_entity_type : string; entity_name : option string }.
Record ValueData := { key : string; value : Z }.
Record EntryData := { entity : list EntityData; values : list ValueData }.
Record Response := {
  throttle_time_ms : Z; error_code : Z; error_message : option string;
  entries : list EntryData }.

Definition read_component (flexible : bool) : reader ComponentData :=
  entity_type ← read_str flexible; match_type ← read_i8;
  match_ ← read_nullable_str flexible;
  (if flexible then Tagged.read else mret tt);;
  mret {| entity_type := entity_type; match_type := match_type; match_ := match_ |}.

Definition decode_request (version : Z) : reader Request :=
  let flexible := MIN_FLEXIBLE <=? version in
  components ← read_array flexible (read_component flexible); strict ← read_bool;
  (if flexible then Tagged.read else mret tt);;
  mret {| components := components; strict := strict |}.

Definition write_component (flexible : bool) (c : ComponentData) : enc :=
  write_str (entity_type c) flexible +++ write_i8 (match_type c) +++
  write_nullable_str (match_ c) flexible +++ when_enc flexible Tagged.write_empty.

Definition encode_request (req : Request) (version : Z) : enc :=
  let flexible := MIN_FLEXIBLE <=? version in
  write_array (write_component flexible) (components req) flexible +++
  write_bool (strict req) +++ when_enc flexible Tagged.write_empty.

Definition write_entity (flexible : bool) (e : EntityData) : enc :=
  write_str (e_entity_type e) flexible +++ write_nullable_str (entity_name e) flexible +++
  when_enc flexible Tagged.write_empty.

Definition write_value_data (flexible : bool) (v : ValueData) : enc :=
  write_str (key v) flexible +++ write_f64 (value v) +++
  when_enc flexible Tagged.write_empty.

Definition write_entry (flexible : bool) (e : EntryData) : enc :=
  write_array (write_entity flexible) (entity e) flexible +++
  write_array (write_value_data flexible) (values e) flexible +++
  when_enc flexible Tagged.write_empty.

Definition encode_response (resp : Response) (version : Z) : enc :=
  let flexible := MIN_FLEXIBLE <=? version in
  write_i32 (throttle_time_ms resp) +++ write_i16 (error_code resp) +++
  write_nullable_str (error_message resp) flexible +++
  write_array (write_entry flexible) (entries resp) flexible +++
  when_enc flexible Tagged.write_empty.

Definition read_entity (flexible : bool) : reader EntityData :=
  entity_type ← read_str flexible; entity_name ← read_nullable_str flexible;
  (if flexible then Tagged.read else mret tt);;
  mret {| e_entity_type := entity_type; entity_name := entity_name |}.

Definition read_value_data (flexible : bool) : reader ValueData :=
  key ← read_str flexible; value ← read_f64;
  (if flexible then Tagged.read else mret tt);;
  mret {| key := key; value := value |}.

Definition read_entry (flexible : bool) : reader EntryData :=
  entity ← read_array flexible (read_entity flexible);
  values ← read_array flexible (read_value_data flexible);
  (if flexible then Tagged.read else mret tt);;
  mret {| entity := entity; values := values |}.

Definition decode_response (version : Z) : reader Response :=
  let flexible := MIN_FLEXIBLE <=? version in
  throttle_time_ms ← read_i32; error_code ← read_i16;
  error_message ← read_nullable_str flexible;
  entries ← read_array flexible (read_entry flexible);
  (if flexible then Tagged.read else mret tt);;
  mret {| throttle_time_ms := throttle_time_ms; error_code := error_code;
          error_message := error_message; entries := entries |}.

Definition component_ok (c : ComponentData) : Prop :=
  wire_str (entity_type c) ∧ i8_ok (match_type c) ∧ wire_opt_str (match_ c).
Definition entity_ok (e : EntityData) : Prop :=
  wire_str (e_entity_type e) ∧ wire_opt_str (entity_name e).
Definition value_data_ok (v : ValueData) : Prop :=
  wire_str (key v) ∧ u64_ok (value v).
Definition entry_ok (e : EntryData) : Prop :=
  wire_len (entity e) ∧ Forall entity_ok (entity e) ∧ wire_len (values e) ∧
  Forall value_data_ok (values e).
Definition request_ok (version : Z) (r : Request) : Prop :=
  wire_len (components r) ∧ Forall component_ok (components r).
Definition response_ok (version : Z) (r : Response) : Prop :=
  i32_ok (throttle_time_ms r) ∧ i16_ok (error_code r) ∧ wire_opt_str (error_message r) ∧
  wire_len (entries r) ∧ Forall entry_ok (entries r).

Lemma rt_describe_client_quotas_component flexible c :
  component_ok c →
  rt (write_component flexible c)
    (read_component flexible) c.
Proof.
  destruct c. intros (?&?&?).
  unfold write_component, read_component. codec.
Qed.
#[local] Hint Resolve rt_describe_client_quotas_component : codec.
Lemma rt_describe_client_quotas_entity flexible e :
  entity_ok e →
  rt (write_entity flexible e)
    (read_entity flexible) e.
Proof.
  destruct e. intros (?&?).
  unfold write_entity, read_entity. codec.
Qed.
#[local] Hint Resolve rt_describe_client_quotas_entity : codec.
Lemma rt_describe_client_quotas_value_data flexible v :
  value_data_ok v →
  rt (write_value_data flexible v)
    (read_value_data flexible) v.
Proof.
  destruct v. intros (?&?).
  unfold write_value_data, read_value_data. codec.
Qed.
#[local] Hint Resolve rt_describe_client_quotas_value_data : codec.
Lemma rt_describe_client_quotas_entry flexible e :
  entry_ok e →
  rt (write_entry flexible e)
    (read_entry flexible) e.
Proof.
  destruct e. intros (?&?&?&?).
  unfold write_entry, read_entry. codec.
Qed.
#[local] Hint Resolve rt_describe_client_quotas_entry : codec.

#[global] Instance request_message : Message Request.
Proof.
  refine {| encode := encode_request; decode := decode_request; msg_ok := request_ok |}.
  intros v []. unfold request_ok. simpl. intros (?&?).
  unfold encode_request, decode_request;
    cbn [components strict].
  codec.
Defined.

#[global] Instance response_message : Message Response.
Proof.
  refine {| encode := encode_response; decode := decode_response; msg_ok := response_ok |}.
  intros v []. unfold response_ok. simpl. intros (?&?&?&?&?).
  unfold encode_response, decode_response;
    cbn [throttle_time_ms error_code error_message entries].
  codec.
Defined.

End DescribeClientQuotas.

Module AlterClientQuotas.

Definition VERSIONS : Z * Z := (0, 1).
Definition MIN_FLEXIBLE : Z := 1.
Definition SPEC : ApiSpec := spec_row 49 0 1 MIN_FLEXIBLE.

Record EntityData := { entity_type : string; entity_name : option string }.
Record OpData := { key : string; value : option Z }.
Record EntryData := { entity : list EntityData; ops : list OpData }.
Record Request := { entries : list EntryData; validate_only : bool }.
Record EntryResponseData := {
  error_code : Z; error_message : option string; r_entity : list EntityData }.
Record Response := { throttle_time_ms : Z; r_entries : list EntryResponseData }.

(** A removal is a zero value with the flag set. *)
Definition read_op (flexible : bool) : reader OpData :=
  key ← read_str flexible; raw ← read_f64; remove ← read_bool;
  (if flexible then Tagged.read else mret tt);;
  mret {| key := key; value := if (remove : bool) then None else Some raw |}.
Definition write_op (flexible : bool) (o : OpData) : enc :=
  write_str (key o) flexible +++
  match value o with
  | Some v => write_f64 v +++ write_bool false +++ when_enc flexible Tagged.write_empty
  | None => write_f64 0 +++ write_bool true +++ when_enc flexible Tagged.write_empty
  end.
Definition op_ok (o : OpData) : Prop :=
  wire_str (key o) ∧ u64_ok (default 0 (value o)).

Lemma rt_alter_client_quotas_op flexible o :
  op_ok o → rt (write_op flexible o) (read_op flexible) o.
Proof.
  destruct o as [k [v|]]; intros [??]; unfold write_op, read_op; cbn [key value]; codec.
Qed.
#[local] Hint Resolve rt_alter_client_quotas_op : codec.

Definition read_entity (flexible : bool) : reader EntityData :=
  entity_type ← read_str flexible; entity_name ← read_nullable_str flexible;
  (if flexible then Tagged.read else mret tt);;
  mret {| entity_type := entity_type; entity_name := entity_name |}.

Definition read_entry (flexible : bool) : reader EntryData :=
  entity ← read_array flexible (read_entity flexible);
  ops ← read_array flexible (read_op flexible);
  (if flexible then Tagged.read else mret tt);;
  mret {| entity := entity; ops := ops |}.

Definition decode_request (version : Z) : reader Request :=
  let flexible := MIN_FLEXIBLE <=? version in
  entries ← read_array flexible (read_entry flexible); validate_only ← read_bool;
  (if flexible then Tagged.read else mret tt);;
  mret {| entries := entries; validate_only := validate_only |}.

Definition write_entity (flexible : bool) (e : EntityData) : enc :=
  write_str (entity_type e) flexible +++ write_nullable_str (entity_name e) flexible +++
  when_enc flexible Tagged.write_empty.

Definition write_entry (flexible : bool) (e : EntryData) : enc :=
  write_array (write_entity flexible) (entity e) flexible +++
  write_array (write_op flexible) (ops e) flexible +++ when_enc flexible Tagged.write_empty.

Definition encode_request (req : Request) (version : Z) : enc :=
  let flexible := MIN_FLEXIBLE <=? version in
  write_array (write_entry flexible) (entries req) flexible +++
  write_bool (validate_only req) +++ when_enc flexible Tagged.write_empty.

Definition write_entry_response (flexible : bool) (e : EntryResponseData) : enc :=
  write_i16 (error_code e) +++ write_nullable_str (error_message e) flexible +++
  write_array (write_entity flexible) (r_entity e) flexible +++
  when_enc flexible Tagged.write_empty.

Definition encode_response (resp : Response) (version : Z) : enc :=
  let flexible := MIN_FLEXIBLE <=? version in
  write_i32 (throttle_time_ms resp) +++
  write_array (write_entry_response flexible) (r_entries resp) flexible +++
  when_enc flexible Tagged.write_empty.

Definition read_entry_response (flexible : bool) : reader EntryResponseData :=
  error_code ← read_i16; error_message ← read_nullable_str flexible;
  entity ← read_array flexible (read_entity flexible);
  (if flexible then Tagged.read else mret tt);;
  mret {| error_code := error_code; error_message := error_message; r_entity := entity |}.

Definition decode_response (version : Z) : reader Response :=
  let flexible := MIN_FLEXIBLE <=? version in
  throttle_time_ms ← read_i32;
  entries ← read_array flexible (read_entry_response flexible);
  (if flexible then Tagged.read else mret tt);;
  mret {| throttle_time_ms := throttle_time_ms; r_entries := entries |}.

Definition entity_ok (e : EntityData) : Prop :=
  wire_str (entity_type e) ∧ wire_opt_str (entity_name e).
Definition entry_ok (e : EntryData) : Prop :=
  wire_len (entity e) ∧ Forall entity_ok (entity e) ∧ wire_len (ops e) ∧
  Forall op_ok (ops e).
Definition entry_response_ok (e : EntryResponseData) : Prop :=
  i16_ok (error_code e) ∧ wire_opt_str (error_message e) ∧ wire_len (r_entity e) ∧
  Forall entity_ok (r_entity e).
Definition request_ok (version : Z) (r : Request) : Prop :=
  wire_len (entries r) ∧ Forall entry_ok (entries r).
Definition response_ok (version : Z) (r : Response) : Prop :=
  i32_ok (throttle_time_ms r) ∧ wire_len (r_entries r) ∧
  Forall entry_response_ok (r_entries r).

Lemma rt_alter_client_quotas_entity flexible e :
  entity_ok e →
  rt (write_entity flexible e)
    (read_entity flexible) e.
Proof.
  destruct e. intros (?&?).
  unfold write_entity, read_entity. codec.
Qed.
#[local] Hint Resolve rt_alter_client_quotas_entity : codec.
Lemma rt_alter_client_quotas_entry flexible e :
  entry_ok e →
  rt (write_entry flexible e)
    (read_entry flexible) e.
Proof.
  destruct e. intros (?&?&?&?).
  unfold write_entry, read_entry. codec.
Qed.
#[local] Hint Resolve rt_alter_client_quotas_entry : codec.
Lemma rt_alter_client_quotas_entry_response flexible e :
  entry_response_ok e →
  rt (write_entry_response flexible e)
    (read_entry_response flexible) e.
Proof.
  destruct e. intros (?&?&?&?).
  unfold write_entry_response, read_entry_response. codec.
Qed.
#[local] Hint Resolve rt_alter_client_quotas_entry_response : codec.

#[global] Instance request_message : Message Request.
Proof.
  refine {| encode := encode_request; decode := decode_request; msg_ok := request_ok |}.
  intros v []. unfold request_ok. simpl. intros (?&?).
  unfold encode_request, decode_request;
    cbn [entries validate_only].
  codec.
Defined.

#[global] Instance response_message : Message Response.
Proof.
  refine {| encode := encode_response; decode := decode_response; msg_ok := response_ok |}.
  intros v []. unfold response_ok. simpl. intros (?&?&?).
  unfold encode_response, decode_response;
    cbn [throttle_time_ms r_entries].
  codec.
Defined.

End AlterClientQuotas.

Module AlterReplicaLogDirs.

Definition VERSIONS : Z * Z := (0, 2).
Definition MIN_FLEXIBLE : Z := 2.
Definition SPEC : ApiSpec := row_with 34 0 2 (Some 2) (header_from 2) log_dirs_response_hdr.

Record RequestTopic := { name : string; partitions : list Z }.
Record RequestDir := { path : string; topics : list RequestTopic }.
Record Request := { dirs : list RequestDir }.
Record ResponsePartition := { partition_index : Z; error_code : Z }.
Record ResponseTopic := { topic_name : string; r_partitions : list ResponsePartition }.
Record Response := { throttle_time_ms : Z; results : list ResponseTopic }.

Definition read_request_topic (flexible : bool) : reader RequestTopic :=
  name ← read_str flexible; partitions ← read_array flexible read_i32;
  (if flexible then Tagged.read else mret tt);;
  mret {| name := name; partitions := partitions |}.

Definition read_request_dir (flexible : bool) : reader RequestDir :=
  path ← read_str flexible; topics ← read_array flexible (read_request_topic flexible);
  (if flexible then Tagged.read else mret tt);;
  mret {| path := path; topics := topics |}.

Definition decode_request (version : Z) : reader Request :=
  let flexible := MIN_FLEXIBLE <=? version in
  dirs ← read_array flexible (read_request_dir flexible);
  (if flexible then Tagged.read else mret tt);;
  mret {| dirs := dirs |}.

Definition write_request_topic (flexible : bool) (r : RequestTopic) : enc :=
  write_str (name r) flexible +++ write_lossy_array write_i32 (partitions r) flexible +++
  when_enc flexible Tagged.write_empty.

Definition write_request_dir (flexible : bool) (r : RequestDir) : enc :=
  write_str (path r) flexible +++
  write_lossy_array (write_request_topic flexible) (topics r) flexible +++
  when_enc flexible Tagged.write_empty.

Definition encode_request (req : Request) (version : Z) : enc :=
  let flexible := MIN_FLEXIBLE <=? version in
  write_lossy_array (write_request_dir flexible) (dirs req) flexible +++
  when_enc flexible Tagged.write_empty.

Definition write_response_partition (flexible : bool) (r : ResponsePartition) : enc :=
  write_i32 (partition_index r) +++ write_i16 (error_code r) +++
  when_enc flexible Tagged.write_empty.

Definition write_response_topic (flexible : bool) (r : ResponseTopic) : enc :=
  write_str (topic_name r) flexible +++
  write_lossy_array (write_response_partition flexible) (r_partitions r) flexible +++
  when_enc flexible Tagged.write_empty.

Definition encode_response (resp : Response) (version : Z) : enc :=
  let flexible := MIN_FLEXIBLE <=? version in
  write_i32 (throttle_time_ms resp) +++
  write_lossy_array (write_response_topic flexible) (results resp) flexible +++
  when_enc flexible Tagged.write_empty.

Definition read_response_partition (flexible : bool) : reader ResponsePartition :=
  partition_index ← read_i32; error_code ← read_i16;
  (if flexible then Tagged.read else mret tt);;
  mret {| partition_index := partition_index; error_code := error_code |}.

Definition read_response_topic (flexible : bool) : reader ResponseTopic :=
  topic_name ← read_str flexible;
  partitions ← read_array flexible (read_response_partition flexible);
  (if flexible then Tagged.read else mret tt);;
  mret {| topic_name := topic_name; r_partitions := partitions |}.

Definition decode_response (version : Z) : reader Response :=
  let flexible := MIN_FLEXIBLE <=? version in
  throttle_time_ms ← read_i32;
  results ← read_array flexible (read_response_topic flexible);
  (if flexible then Tagged.read else mret tt);;
  mret {| throttle_time_ms := throttle_time_ms; results := results |}.

Definition request_topic_ok (r : RequestTopic) : Prop :=
  wire_str (name r) ∧ wire_len (partitions r) ∧ Forall i32_ok (partitions r).
Definition request_dir_ok (r : RequestDir) : Prop :=
  wire_str (path r) ∧ wire_len (topics r) ∧ Forall request_topic_ok (topics r).
Definition response_partition_ok (r : ResponsePartition) : Prop :=
  i32_ok (partition_index r) ∧ i16_ok (error_code r).
Definition response_topic_ok (r : ResponseTopic) : Prop :=
  wire_str (topic_name r) ∧ wire_len (r_partitions r) ∧
  Forall response_partition_ok (r_partitions r).
Definition request_ok (version : Z) (r : Request) : Prop :=
  wire_len (dirs r) ∧ Forall request_dir_ok (dirs r).
Definition response_ok (version : Z) (r : Response) : Prop :=
  i32_ok (throttle_time_ms r) ∧ wire_len (results r) ∧ Forall response_topic_ok (results r).

Lemma rt_alter_replica_log_dirs_request_topic flexible r :
  request_topic_ok r →
  rt (write_request_topic flexible r)
    (read_request_topic flexible) r.
Proof.
  destruct r. intros (?&?&?).
  unfold write_request_topic, read_request_topic. codec.
Qed.
#[local] Hint Resolve rt_alter_replica_log_dirs_request_topic : codec.
Lemma rt_alter_replica_log_dirs_request_dir flexible r :
  request_dir_ok r →
  rt (write_request_dir flexible r)
    (read_request_dir flexible) r.
Proof.
  destruct r. intros (?&?&?).
  unfold write_request_dir, read_request_dir. codec.
Qed.
#[local] Hint Resolve rt_alter_replica_log_dirs_request_dir : codec.
Lemma rt_alter_replica_log_dirs_response_partition flexible r :
  response_partition_ok r →
  rt (write_response_partition flexible r)
    (read_response_partition flexible) r.
Proof.
  destruct r. intros (?&?).
  unfold write_response_partition, read_response_partition. codec.
Qed.
#[local] Hint Resolve rt_alter_replica_log_dirs_response_partition : codec.
Lemma rt_alter_replica_log_dirs_response_topic flexible r :
  response_topic_ok r →
  rt (write_response_topic flexible r)
    (read_response_topic flexible) r.
Proof.
  destruct r. intros (?&?&?).
  unfold write_response_topic, read_response_topic. codec.
Qed.
#[local] Hint Resolve rt_alter_replica_log_dirs_response_topic : codec.

#[global] Instance request_message : Message Request.
Proof.
  refine {| encode := encode_request; decode := decode_request; msg_ok := request_ok |}.
  intros v []. unfold request_ok. simpl. intros (?&?).
  unfold encode_request, decode_request;
    cbn [dirs].
  codec.
Defined.

#[global] Instance response_message : Message Response.
Proof.
  refine {| encode := encode_response; decode := decode_response; msg_ok := response_ok |}.
  intros v []. unfold response_ok. simpl. intros (?&?&?).
  unfold encode_response, decode_response;
    cbn [throttle_time_ms results].
  codec.
Defined.

End AlterReplicaLogDirs.

Module DescribeLogDirs.

Definition VERSIONS : Z * Z := (0, 4).
Definition MIN_FLEXIBLE : Z := 2.
Definition SPEC : ApiSpec := row_with 35 0 4 (Some 2) (header_from 2) log_dirs_response_hdr.

Record RequestTopic := { name : string; partitions : list Z }.
Record Request := { topics : option (list RequestTopic) }.
Record ResponsePartition := {
  partition_index : Z; partition_size : Z; offset_lag : Z; is_future_key : bool }.
Record ResponseTopic := { t_name : string; t_partitions : list ResponsePartition }.
Record LogDirResult := {
  d_error_code : Z; d_log_dir : string; d_topics : list ResponseTopic; d_total_bytes : Z;
  d_usable_bytes : Z }.
Record Response := { throttle_time_ms : Z; error_code : Z; results : list LogDirResult }.

Definition read_request_topic (flexible : bool) : reader RequestTopic :=
  name ← read_str flexible; partitions ← read_array flexible read_i32;
  (if flexible then Tagged.read else mret tt);;
  mret {| name := name; partitions := partitions |}.

Definition decode_request (version : Z) : reader Request :=
  let flexible := MIN_FLEXIBLE <=? version in
  topics ← read_nullable_array flexible (read_request_topic flexible);
  (if flexible then Tagged.read else mret tt);;
  mret {| topics := topics |}.

Definition write_request_topic (flexible : bool) (r : RequestTopic) : enc :=
  write_str (name r) flexible +++ write_lossy_array write_i32 (partitions r) flexible +++
  when_enc flexible Tagged.write_empty.

Definition encode_request (req : Request) (version : Z) : enc :=
  let flexible := MIN_FLEXIBLE <=? version in
  write_lossy_nullable_array (write_request_topic flexible) (topics req) flexible +++
  when_enc flexible Tagged.write_empty.

Definition write_response_partition (flexible : bool) (r : ResponsePartition) : enc :=
  write_i32 (partition_index r) +++ write_i64 (partition_size r) +++
  write_i64 (offset_lag r) +++ write_bool (is_future_key r) +++
  when_enc flexible Tagged.write_empty.

Definition write_response_topic (flexible : bool) (r : ResponseTopic) : enc :=
  write_str (t_name r) flexible +++
  write_lossy_array (write_response_partition flexible) (t_partitions r) flexible +++
  when_enc flexible Tagged.write_empty.

Definition write_log_dir_result (version : Z) (flexible : bool) (l : LogDirResult) :
    enc :=
  write_i16 (d_error_code l) +++ write_str (d_log_dir l) flexible +++
  write_lossy_array (write_response_topic flexible) (d_topics l) flexible +++
  when_enc (4 <=? version)
    (write_i64 (d_total_bytes l) +++ write_i64 (d_usable_bytes l)) +++
  when_enc flexible Tagged.write_empty.

Definition encode_response (resp : Response) (version : Z) : enc :=
  let flexible := MIN_FLEXIBLE <=? version in
  write_i32 (throttle_time_ms resp) +++
  when_enc (3 <=? version) (write_i16 (error_code resp)) +++
  write_lossy_array (write_log_dir_result version flexible) (results resp) flexible +++
  when_enc flexible Tagged.write_empty.

Definition read_response_partition (flexible : bool) : reader ResponsePartition :=
  partition_index ← read_i32; partition_size ← read_i64; offset_lag ← read_i64;
  is_future_key ← read_bool;
  (if flexible then Tagged.read else mret tt);;
  mret {| partition_index := partition_index; partition_size := partition_size;
          offset_lag := offset_lag; is_future_key := is_future_key |}.

Definition read_response_topic (flexible : bool) : reader ResponseTopic :=
  name ← read_str flexible;
  partitions ← read_array flexible (read_response_partition flexible);
  (if flexible then Tagged.read else mret tt);;
  mret {| t_name := name; t_partitions := partitions |}.

Definition read_log_dir_result (version : Z) (flexible : bool) :
    reader LogDirResult :=
  error_code ← read_i16; log_dir ← read_str flexible;
  topics ← read_array flexible (read_response_topic flexible);
  '(total_bytes, usable_bytes) ← (if 4 <=? version then
    total_bytes ← read_i64; usable_bytes ← read_i64;
    mret (total_bytes, usable_bytes) else mret (-1, -1));
  (if flexible then Tagged.read else mret tt);;
  mret {| d_error_code := error_code; d_log_dir := log_dir; d_topics := topics;
          d_total_bytes := total_bytes; d_usable_bytes := usable_bytes |}.

Definition decode_response (version : Z) : reader Response :=
  let flexible := MIN_FLEXIBLE <=? version in
  throttle_time_ms ← read_i32;
  error_code ← (if 3 <=? version then read_i16 else mret 0);
  results ← read_array flexible (read_log_dir_result version flexible);
  (if flexible then Tagged.read else mret tt);;
  mret {| throttle_time_ms := throttle_time_ms; error_code := error_code;
          results := results |}.

Definition request_topic_ok (r : RequestTopic) : Prop :=
  wire_str (name r) ∧ wire_len (partitions r) ∧ Forall i32_ok (partitions r).
Definition response_partition_ok (r : ResponsePartition) : Prop :=
  i32_ok (partition_index r) ∧ i64_ok (partition_size r) ∧ i64_ok (offset_lag r).
Definition response_topic_ok (r : ResponseTopic) : Prop :=
  wire_str (t_name r) ∧ wire_len (t_partitions r) ∧
  Forall response_partition_ok (t_partitions r).
Definition log_dir_result_ok (version : Z) (l : LogDirResult) : Prop :=
  i16_ok (d_error_code l) ∧ wire_str (d_log_dir l) ∧ wire_len (d_topics l) ∧
  Forall response_topic_ok (d_topics l) ∧ i64_ok (d_total_bytes l) ∧
  i64_ok (d_usable_bytes l) ∧
  gated (4 <=? version) (d_total_bytes l, d_usable_bytes l) (-1, -1).
Definition request_ok (version : Z) (r : Request) : Prop :=
  wire_opt_list request_topic_ok (topics r).
Definition response_ok (version : Z) (r : Response) : Prop :=
  i32_ok (throttle_time_ms r) ∧ i16_ok (error_code r) ∧
  gated (3 <=? version) (error_code r) 0 ∧ wire_len (results r) ∧
  Forall (log_dir_result_ok version) (results r).

Lemma rt_describe_log_dirs_request_topic flexible r :
  request_topic_ok r →
  rt (write_request_topic flexible r)
    (read_request_topic flexible) r.
Proof.
  destruct r. intros (?&?&?).
  unfold write_request_topic, read_request_topic. codec.
Qed.
#[local] Hint Resolve rt_describe_log_dirs_request_topic : codec.
Lemma rt_describe_log_dirs_response_partition flexible r :
  response_partition_ok r →
  rt (write_response_partition flexible r)
    (read_response_partition flexible) r.
Proof.
  destruct r. intros (?&?&?).
  unfold write_response_partition, read_response_partition. codec.
Qed.
#[local] Hint Resolve rt_describe_log_dirs_response_partition : codec.
Lemma rt_describe_log_dirs_response_topic flexible r :
  response_topic_ok r →
  rt (write_response_topic flexible r)
    (read_response_topic flexible) r.
Proof.
  destruct r. intros (?&?&?).
  unfold write_response_topic, read_response_topic. codec.
Qed.
#[local] Hint Resolve rt_describe_log_dirs_response_topic : codec.
Lemma rt_describe_log_dirs_log_dir_result version flexible l :
  log_dir_result_ok version l →
  rt (write_log_dir_result version flexible l)
    (read_log_dir_result version flexible) l.
Proof.
  destruct l. intros (?&?&?&?&?&?&?).
  unfold write_log_dir_result, read_log_dir_result. codec.
Qed.
#[local] Hint Resolve rt_describe_log_dirs_log_dir_result : codec.

#[global] Instance request_message : Message Request.
Proof.
  refine {| encode := encode_request; decode := decode_request; msg_ok := request_ok |}.
  intros v []. unfold request_ok. simpl. intros ?.
  unfold encode_request, decode_request;
    cbn [topics].
  codec.
Defined.

#[global] Instance response_message : Message Response.
Proof.
  refine {| encode := encode_response; decode := decode_response; msg_ok := response_ok |}.
  intros v []. unfold response_ok. simpl. intros (?&?&?&?&?).
  unfold encode_response, decode_response;
    cbn [throttle_time_ms error_code results].
  codec.
Defined.

End DescribeLogDirs.

Module DescribeCluster.

Definition VERSIONS : Z * Z := (0, 2).
Definition MIN_FLEXIBLE : Z := 0.
Definition SPEC : ApiSpec := row_with 60 0 2 (Some 0) (λ _, V2) (λ _, V1).

Record Request := {
  include_cluster_authorized_operations : bool; endpoint_type : Z;
  include_fenced_brokers : bool }.
Record Broker := {
  broker_id : Z; host : string; port : Z; rack : option string; is_fenced : bool }.
Record Response := {
  throttle_time_ms : Z; error_code : Z; error_message : option string; r_endpoint_type : Z;
  cluster_id : string; controller_id : Z; brokers : list Broker;
  cluster_authorized_operations : Z }.

(** [endpoint_type::BROKER]. *)
Definition endpoint_type_BROKER : Z := 1.

Definition decode_request (version : Z) : reader Request :=
  let flexible := true in
  include_cluster_authorized_operations ← read_bool;
  endpoint_type ← (if 1 <=? version then read_i8 else mret endpoint_type_BROKER);
  include_fenced_brokers ← (if 2 <=? version then read_bool else mret false);
  (if flexible then Tagged.read else mret tt);;
  mret {| include_cluster_authorized_operations := include_cluster_authorized_operations;
          endpoint_type := endpoint_type; include_fenced_brokers := include_fenced_brokers |}.

Definition encode_request (req : Request) (version : Z) : enc :=
  let flexible := true in
  write_bool (include_cluster_authorized_operations req) +++
  when_enc (1 <=? version) (write_i8 (endpoint_type req)) +++
  when_enc (2 <=? version) (write_bool (include_fenced_brokers req)) +++
  when_enc flexible Tagged.write_empty.

Definition write_broker (version : Z) (flexible : bool) (b : Broker) : enc :=
  write_i32 (broker_id b) +++ write_str (host b) flexible +++ write_i32 (port b) +++
  write_nullable_str (rack b) flexible +++
  when_enc (2 <=? version) (write_bool (is_fenced b)) +++
  when_enc flexible Tagged.write_empty.

Definition encode_response (resp : Response) (version : Z) : enc :=
  let flexible := true in
  write_i32 (throttle_time_ms resp) +++ write_i16 (error_code resp) +++
  write_nullable_str (error_message resp) flexible +++
  when_enc (1 <=? version) (write_i8 (r_endpoint_type resp)) +++
  write_str (cluster_id resp) flexible +++ write_i32 (controller_id resp) +++
  write_array (write_broker version flexible) (brokers resp) flexible +++
  write_i32 (cluster_authorized_operations resp) +++ when_enc flexible Tagged.write_empty.

Definition read_broker (version : Z) (flexible : bool) : reader Broker :=
  broker_id ← read_i32; host ← read_str flexible; port ← read_i32;
  rack ← read_nullable_str flexible;
  is_fenced ← (if 2 <=? version then read_bool else mret false);
  (if flexible then Tagged.read else mret tt);;
  mret {| broker_id := broker_id; host := host; port := port; rack := rack;
          is_fenced := is_fenced |}.

Definition decode_response (version : Z) : reader Response :=
  let flexible := true in
  throttle_time_ms ← read_i32; error_code ← read_i16;
  error_message ← read_nullable_str flexible;
  endpoint_type ← (if 1 <=? version then read_i8 else mret endpoint_type_BROKER);
  cluster_id ← read_str flexible; controller_id ← read_i32;
  brokers ← read_array flexible (read_broker version flexible);
  cluster_authorized_operations ← read_i32;
  (if flexible then Tagged.read else mret tt);;
  mret {| throttle_time_ms := throttle_time_ms; error_code := error_code;
          error_message := error_message; r_endpoint_type := endpoint_type;
          cluster_id := cluster_id; controller_id := controller_id; brokers := brokers;
          cluster_authorized_operations := cluster_authorized_operations |}.

Definition broker_ok (version : Z) (b : Broker) : Prop :=
  i32_ok (broker_id b) ∧ wire_str (host b) ∧ i32_ok (port b) ∧ wire_opt_str (rack b) ∧
  gated (2 <=? version) (is_fenced b) false.
Definition request_ok (version : Z) (r : Request) : Prop :=
  i8_ok (endpoint_type r) ∧ gated (1 <=? version) (endpoint_type r) endpoint_type_BROKER ∧
  gated (2 <=? version) (include_fenced_brokers r) false.
Definition response_ok (version : Z) (r : Response) : Prop :=
  i32_ok (throttle_time_ms r) ∧ i16_ok (error_code r) ∧ wire_opt_str (error_message r) ∧
  i8_ok (r_endpoint_type r) ∧
  gated (1 <=? version) (r_endpoint_type r) endpoint_type_BROKER ∧
  wire_str (cluster_id r) ∧ i32_ok (controller_id r) ∧ wire_len (brokers r) ∧
  Forall (broker_ok version) (brokers r) ∧ i32_ok (cluster_authorized_operations r).

Lemma rt_describe_cluster_broker version flexible b :
  broker_ok version b →
  rt (write_broker version flexible b)
    (read_broker version flexible) b.
Proof.
  destruct b. intros (?&?&?&?&?).
  unfold write_broker, read_broker. codec.
Qed.
#[local] Hint Resolve rt_describe_cluster_broker : codec.

#[global] Instance request_message : Message Request.
Proof.
  refine {| encode := encode_request; decode := decode_request; msg_ok := request_ok |}.
  intros v []. unfold request_ok. simpl. intros (?&?&?).
  unfold encode_request, decode_request;
    cbn [include_cluster_authorized_operations endpoint_type include_fenced_brokers].
  codec.
Defined.

#[global] Instance response_message : Message Response.
Proof.
  refine {| encode := encode_response; decode := decode_response; msg_ok := response_ok |}.
  intros v []. unfold response_ok. simpl. intros (?&?&?&?&?&?&?&?&?&?).
  unfold encode_response, decode_response;
    cbn [throttle_time_ms error_code error_message r_endpoint_type cluster_id controller_id
    brokers cluster_authorized_operations].
  codec.
Defined.

End DescribeCluster.

Module DescribeUserScramCredentials.

Definition VERSIONS : Z * Z := (0, 0).
Definition MIN_FLEXIBLE : Z := 0.
Definition SPEC : ApiSpec := row_with 50 0 0 (Some 0) (λ _, V2) (λ _, V1).

Record Request := { users : option (list string) }.
Record CredentialInfo := { mechanism : Z; iterations : Z }.
Record DescribeUserResult := {
  u_user : string; u_error_code : Z; u_error_message : option string;
  u_credential_infos : list CredentialInfo }.
Record Response := {
  throttle_time_ms : Z; error_code : Z; error_message : option string;
  results : list DescribeUserResult }.

(** A user name with its tagged block. *)
Definition read_named_user (flexible : bool) : reader string :=
  name ← read_str flexible;
  (if flexible then Tagged.read else mret tt);;
  mret name.
Definition write_named_user (flexible : bool) (u : string) : enc :=
  write_str u flexible +++ when_enc flexible Tagged.write_empty.

Lemma rt_named_user flexible u :
  wire_str u → rt (write_named_user flexible u) (read_named_user flexible) u.
Proof. intros ?. unfold write_named_user, read_named_user. codec. Qed.
#[local] Hint Resolve rt_named_user : codec.

Definition decode_request (version : Z) : reader Request :=
  let flexible := true in
  users ← read_nullable_array flexible (read_named_user flexible);
  (if flexible then Tagged.read else mret tt);;
  mret {| users := users |}.

Definition encode_request (req : Request) (version : Z) : enc :=
  let flexible := true in
  write_nullable_array (write_named_user flexible) (users req) flexible +++
  when_enc flexible Tagged.write_empty.

Definition write_credential_info (flexible : bool) (c : CredentialInfo) : enc :=
  write_i8 (mechanism c) +++ write_i32 (iterations c) +++
  when_enc flexible Tagged.write_empty.

Definition write_user_result (flexible : bool) (d : DescribeUserResult) : enc :=
  write_str (u_user d) flexible +++ write_i16 (u_error_code d) +++
  write_nullable_str (u_error_message d) flexible +++
  write_array (write_credential_info flexible) (u_credential_infos d) flexible +++
  when_enc flexible Tagged.write_empty.

Definition encode_response (resp : Response) (version : Z) : enc :=
  let flexible := true in
  write_i32 (throttle_time_ms resp) +++ write_i16 (error_code resp) +++
  write_nullable_str (error_message resp) flexible +++
  write_array (write_user_result flexible) (results resp) flexible +++
  when_enc flexible Tagged.write_empty.

Definition read_credential_info (flexible : bool) : reader CredentialInfo :=
  mechanism ← read_i8; iterations ← read_i32;
  (if flexible then Tagged.read else mret tt);;
  mret {| mechanism := mechanism; iterations := iterations |}.

Definition read_user_result (flexible : bool) : reader DescribeUserResult :=
  user ← read_str flexible; error_code ← read_i16;
  error_message ← read_nullable_str flexible;
  credential_infos ← read_array flexible (read_credential_info flexible);
  (if flexible then Tagged.read else mret tt);;
  mret {| u_user := user; u_error_code := error_code; u_error_message := error_message;
          u_credential_infos := credential_infos |}.

Definition decode_response (version : Z) : reader Response :=
  let flexible := true in
  throttle_time_ms ← read_i32; error_code ← read_i16;
  error_message ← read_nullable_str flexible;
  results ← read_array flexible (read_user_result flexible);
  (if flexible then Tagged.read else mret tt);;
  mret {| throttle_time_ms := throttle_time_ms; error_code := error_code;
          error_message := error_message; results := results |}.

Definition credential_info_ok (c : CredentialInfo) : Prop :=
  i8_ok (mechanism c) ∧ i32_ok (iterations c).
Definition user_result_ok (d : DescribeUserResult) : Prop :=
  wire_str (u_user d) ∧ i16_ok (u_error_code d) ∧ wire_opt_str (u_error_message d) ∧
  wire_len (u_credential_infos d) ∧ Forall credential_info_ok (u_credential_infos d).
Definition request_ok (version : Z) (r : Request) : Prop :=
  wire_opt_list wire_str (users r).
Definition response_ok (version : Z) (r : Response) : Prop :=
  i32_ok (throttle_time_ms r) ∧ i16_ok (error_code r) ∧ wire_opt_str (error_message r) ∧
  wire_len (results r) ∧ Forall user_result_ok (results r).

Lemma rt_describe_user_scram_credentials_credential_info flexible c :
  credential_info_ok c →
  rt (write_credential_info flexible c)
    (read_credential_info flexible) c.
Proof.
  destruct c. intros (?&?).
  unfold write_credential_info, read_credential_info. codec.
Qed.
#[local] Hint Resolve rt_describe_user_scram_credentials_credential_info : codec.
Lemma rt_describe_user_scram_credentials_user_result flexible d :
  user_result_ok d →
  rt (write_user_result flexible d)
    (read_user_result flexible) d.
Proof.
  destruct d. intros (?&?&?&?&?).
  unfold write_user_result, read_user_result. codec.
Qed.
#[local] Hint Resolve rt_describe_user_scram_credentials_user_result : codec.

#[global] Instance request_message : Message Request.
Proof.
  refine {| encode := encode_request; decode := decode_request; msg_ok := request_ok |}.
  intros v []. unfold request_ok. simpl. intros ?.
  unfold encode_request, decode_request;
    cbn [users].
  codec.
Defined.

#[global] Instance response_message : Message Response.
Proof.
  refine {| encode := encode_response; decode := decode_response; msg_ok := response_ok |}.
  intros v []. unfold response_ok. simpl. intros (?&?&?&?&?).
  unfold encode_response, decode_response;
    cbn [throttle_time_ms error_code error_message results].
  codec.
Defined.

End DescribeUserScramCredentials.

Module AlterUserScramCredentials.

Definition VERSIONS : Z * Z := (0, 0).
Definition MIN_FLEXIBLE : Z := 0.
Definition SPEC : ApiSpec := row_with 51 0 0 (Some 0) (λ _, V2) (λ _, V1).

Record ScramCredentialDeletion := { name : string; mechanism : Z }.
Record ScramCredentialUpsertion := {
  u_name : string; u_mechanism : Z; iterations : Z; salt : list byte;
  salted_password : list byte }.
Record Request := {
  deletions : list ScramCredentialDeletion; upsertions : list ScramCredentialUpsertion }.
Record AlterUserResult := { user : string; error_code : Z; error_message : option string }.
Record Response := { throttle_time_ms : Z; results : list AlterUserResult }.

Definition read_deletion (flexible : bool) : reader ScramCredentialDeletion :=
  name ← read_str flexible; mechanism ← read_i8;
  (if flexible then Tagged.read else mret tt);;
  mret {| name := name; mechanism := mechanism |}.

Definition read_upsertion (flexible : bool) : reader ScramCredentialUpsertion :=
  name ← read_str flexible; mechanism ← read_i8; iterations ← read_i32;
  salt ← read_present_bytes flexible; salted_password ← read_present_bytes flexible;
  (if flexible then Tagged.read else mret tt);;
  mret {| u_name := name; u_mechanism := mechanism; iterations := iterations; salt := salt;
          salted_password := salted_password |}.

Definition decode_request (version : Z) : reader Request :=
  let flexible := true in
  deletions ← read_array flexible (read_deletion flexible);
  upsertions ← read_array flexible (read_upsertion flexible);
  (if flexible then Tagged.read else mret tt);;
  mret {| deletions := deletions; upsertions := upsertions |}.

Definition write_deletion (flexible : bool) (s : ScramCredentialDeletion) : enc :=
  write_str (name s) flexible +++ write_i8 (mechanism s) +++
  when_enc flexible Tagged.write_empty.

Definition write_upsertion (flexible : bool) (s : ScramCredentialUpsertion) : enc :=
  write_str (u_name s) flexible +++ write_i8 (u_mechanism s) +++
  write_i32 (iterations s) +++ write_present_bytes (salt s) flexible +++
  write_present_bytes (salted_password s) flexible +++ when_enc flexible Tagged.write_empty.

Definition encode_request (req : Request) (version : Z) : enc :=
  let flexible := true in
  write_array (write_deletion flexible) (deletions req) flexible +++
  write_array (write_upsertion flexible) (upsertions req) flexible +++
  when_enc flexible Tagged.write_empty.

Definition write_user_result (flexible : bool) (a : AlterUserResult) : enc :=
  write_str (user a) flexible +++ write_i16 (error_code a) +++
  write_nullable_str (error_message a) flexible +++ when_enc flexible Tagged.write_empty.

Definition encode_response (resp : Response) (version : Z) : enc :=
  let flexible := true in
  write_i32 (throttle_time_ms resp) +++
  write_array (write_user_result flexible) (results resp) flexible +++
  when_enc flexible Tagged.write_empty.

Definition read_user_result (flexible : bool) : reader AlterUserResult :=
  user ← read_str flexible; error_code ← read_i16;
  error_message ← read_nullable_str flexible;
  (if flexible then Tagged.read else mret tt);;
  mret {| user := user; error_code := error_code; error_message := error_message |}.

Definition decode_response (version : Z) : reader Response :=
  let flexible := true in
  throttle_time_ms ← read_i32;
  results ← read_array flexible (read_user_result flexible);
  (if flexible then Tagged.read else mret tt);;
  mret {| throttle_time_ms := throttle_time_ms; results := results |}.

Definition deletion_ok (s : ScramCredentialDeletion) : Prop :=
  wire_str (name s) ∧ i8_ok (mechanism s).
Definition upsertion_ok (s : ScramCredentialUpsertion) : Prop :=
  wire_str (u_name s) ∧ i8_ok (u_mechanism s) ∧ i32_ok (iterations s) ∧ wire_len (salt s) ∧
  wire_len (salted_password s).
Definition user_result_ok (a : AlterUserResult) : Prop :=
  wire_str (user a) ∧ i16_ok (error_code a) ∧ wire_opt_str (error_message a).
Definition request_ok (version : Z) (r : Request) : Prop :=
  wire_len (deletions r) ∧ Forall deletion_ok (deletions r) ∧ wire_len (upsertions r) ∧
  Forall upsertion_ok (upsertions r).
Definition response_ok (version : Z) (r : Response) : Prop :=
  i32_ok (throttle_time_ms r) ∧ wire_len (results r) ∧ Forall user_result_ok (results r).

Lemma rt_alter_user_scram_credentials_deletion flexible s :
  deletion_ok s →
  rt (write_deletion flexible s)
    (read_deletion flexible) s.
Proof.
  destruct s. intros (?&?).
  unfold write_deletion, read_deletion. codec.
Qed.
#[local] Hint Resolve rt_alter_user_scram_credentials_deletion : codec.
Lemma rt_alter_user_scram_credentials_upsertion flexible s :
  upsertion_ok s →
  rt (write_upsertion flexible s)
    (read_upsertion flexible) s.
Proof.
  destruct s. intros (?&?&?&?&?).
  unfold write_upsertion, read_upsertion. codec.
Qed.
#[local] Hint Resolve rt_alter_user_scram_credentials_upsertion : codec.
Lemma rt_alter_user_scram_credentials_user_result flexible a :
  user_result_ok a →
  rt (write_user_result flexible a)
    (read_user_result flexible) a.
Proof.
  destruct a. intros (?&?&?).
  unfold write_user_result, read_user_result. codec.
Qed.
#[local] Hint Resolve rt_alter_user_scram_credentials_user_result : codec.

#[global] Instance request_message : Message Request.
Proof.
  refine {| encode := encode_request; decode := decode_request; msg_ok := request_ok |}.
  intros v []. unfold request_ok. simpl. intros (?&?&?&?).
  unfold encode_request, decode_request;
    cbn [deletions upsertions].
  codec.
Defined.

#[global] Instance response_message : Message Response.
Proof.
  refine {| encode := encode_response; decode := decode_response; msg_ok := response_ok |}.
  intros v []. unfold response_ok. simpl. intros (?&?&?).
  unfold encode_response, decode_response;
    cbn [throttle_time_ms results].
  codec.
Defined.

End AlterUserScramCredentials.

(** Not flexible at any version. *)
Module SaslHandshake.

Definition VERSIONS : Z * Z := (0, 1).
Definition SPEC : ApiSpec := row_with 17 0 1 None (λ _, V1) (λ _, V0).

Record Request := { mechanism : string }.
Record Response := { error_code : Z; mechanisms : list string }.

Definition decode_request (version : Z) : reader Request :=
  let flexible := false in
  mechanism ← read_str flexible;
  mret {| mechanism := mechanism |}.

Definition encode_request (req : Request) (version : Z) : enc :=
  let flexible := false in
  write_str (mechanism req) flexible.

Definition encode_response (resp : Response) (version : Z) : enc :=
  let flexible := false in
  write_i16 (error_code resp) +++
  write_array (λ s, write_str s flexible) (mechanisms resp) flexible.

Definition decode_response (version : Z) : reader Response :=
  let flexible := false in
  error_code ← read_i16; mechanisms ← read_array flexible (read_str flexible);
  mret {| error_code := error_code; mechanisms := mechanisms |}.

Definition request_ok (version : Z) (r : Request) : Prop :=
  wire_str (mechanism r).
Definition response_ok (version : Z) (r : Response) : Prop :=
  i16_ok (error_code r) ∧ wire_len (mechanisms r) ∧ Forall wire_str (mechanisms r).


#[global] Instance request_message : Message Request.
Proof.
  refine {| encode := encode_request; decode := decode_request; msg_ok := request_ok |}.
  intros v []. unfold request_ok. simpl. intros ?.
  unfold encode_request, decode_request;
    cbn [mechanism].
  codec.
Defined.

#[global] Instance response_message : Message Response.
Proof.
  refine {| encode := encode_response; decode := decode_response; msg_ok := response_ok |}.
  intros v []. unfold response_ok. simpl. intros (?&?&?).
  unfold encode_response, decode_response;
    cbn [error_code mechanisms].
  codec.
Defined.

End SaslHandshake.

Module SaslAuthenticate.

Definition VERSIONS : Z * Z := (0, 2).
Definition MIN_FLEXIBLE : Z := 2.
Definition SPEC : ApiSpec := spec_row 36 0 2 MIN_FLEXIBLE.

Record Request := { auth_bytes : option (list byte) }.
Record Response := {
  error_code : Z; error_message : option string; r_auth_bytes : list byte;
  session_lifetime_ms : Z }.

Definition decode_request (version : Z) : reader Request :=
  let flexible := MIN_FLEXIBLE <=? version in
  auth_bytes ← read_nullable_bytes flexible;
  (if flexible then Tagged.read else mret tt);;
  mret {| auth_bytes := auth_bytes |}.

Definition encode_request (req : Request) (version : Z) : enc :=
  let flexible := MIN_FLEXIBLE <=? version in
  write_nullable_bytes (auth_bytes req) flexible +++ when_enc flexible Tagged.write_empty.

Definition encode_response (resp : Response) (version : Z) : enc :=
  let flexible := MIN_FLEXIBLE <=? version in
  write_i16 (error_code resp) +++ write_nullable_str (error_message resp) flexible +++
  write_flex_bytes (r_auth_bytes resp) flexible +++
  when_enc (1 <=? version) (write_i64 (session_lifetime_ms resp)) +++
  when_enc flexible Tagged.write_empty.

Definition decode_response (version : Z) : reader Response :=
  let flexible := MIN_FLEXIBLE <=? version in
  error_code ← read_i16; error_message ← read_nullable_str flexible;
  auth_bytes ← read_flex_bytes flexible;
  session_lifetime_ms ← (if 1 <=? version then read_i64 else mret 0);
  (if flexible then Tagged.read else mret tt);;
  mret {| error_code := error_code; error_message := error_message;
          r_auth_bytes := auth_bytes; session_lifetime_ms := session_lifetime_ms |}.

Definition request_ok (version : Z) (r : Request) : Prop :=
  wire_opt_bytes (auth_bytes r).
Definition response_ok (version : Z) (r : Response) : Prop :=
  i16_ok (error_code r) ∧ wire_opt_str (error_message r) ∧ wire_len (r_auth_bytes r) ∧
  i64_ok (session_lifetime_ms r) ∧ gated (1 <=? version) (session_lifetime_ms r) 0.


#[global] Instance request_message : Message Request.
Proof.
  refine {| encode := encode_request; decode := decode_request; msg_ok := request_ok |}.
  intros v []. unfold request_ok. simpl. intros ?.
  unfold encode_request, decode_request;
    cbn [auth_bytes].
  codec.
Defined.

#[global] Instance response_message : Message Response.
Proof.
  refine {| encode := encode_response; decode := decode_response; msg_ok := response_ok |}.
  intros v []. unfold response_ok. simpl. intros (?&?&?&?&?).
  unfold encode_response, decode_response;
    cbn [error_code error_message r_auth_bytes session_lifetime_ms].
  codec.
Defined.

End SaslAuthenticate.

Module ApiVersions.

Definition VERSIONS : Z * Z := (0, 4).
Definition MIN_FLEXIBLE : Z := 3.
Definition SPEC : ApiSpec := row_with 18 0 4 (Some 3) api_versions_request_hdr (λ _, V0).

Record Request := {
  client_software_name : option string; client_software_version : option string }.
Record ApiVersionEntry := { api_key : Z; entry_min_version : Z; entry_max_version : Z }.
Record Response := {
  error_code : Z; api_versions : list ApiVersionEntry; throttle_time_ms : Z }.

Definition write_entry (flexible : bool) (a : ApiVersionEntry) : enc :=
  write_i16 (api_key a) +++ write_i16 (entry_min_version a) +++
  write_i16 (entry_max_version a) +++ when_enc flexible Tagged.write_empty.

Definition encode_response (resp : Response) (version : Z) : enc :=
  let flexible := MIN_FLEXIBLE <=? version in
  write_i16 (error_code resp) +++
  write_array (write_entry flexible) (api_versions resp) flexible +++
  when_enc (1 <=? version) (write_i32 (throttle_time_ms resp)) +++
  when_enc flexible Tagged.write_empty.

Definition read_entry (flexible : bool) : reader ApiVersionEntry :=
  api_key ← read_i16; entry_min_version ← read_i16; entry_max_version ← read_i16;
  (if flexible then Tagged.read else mret tt);;
  mret {| api_key := api_key; entry_min_version := entry_min_version;
          entry_max_version := entry_max_version |}.

Definition decode_response (version : Z) : reader Response :=
  let flexible := MIN_FLEXIBLE <=? version in
  error_code ← read_i16; api_versions ← read_array flexible (read_entry flexible);
  throttle_time_ms ← (if 1 <=? version then read_i32 else mret 0);
  (if flexible then Tagged.read else mret tt);;
  mret {| error_code := error_code; api_versions := api_versions;
          throttle_time_ms := throttle_time_ms |}.

Definition entry_ok (a : ApiVersionEntry) : Prop :=
  i16_ok (api_key a) ∧ i16_ok (entry_min_version a) ∧ i16_ok (entry_max_version a).
Definition response_ok (version : Z) (r : Response) : Prop :=
  i16_ok (error_code r) ∧ wire_len (api_versions r) ∧ Forall entry_ok (api_versions r) ∧
  i32_ok (throttle_time_ms r) ∧ gated (1 <=? version) (throttle_time_ms r) 0.

Lemma rt_api_versions_entry flexible a :
  entry_ok a →
  rt (write_entry flexible a)
    (read_entry flexible) a.
Proof.
  destruct a. intros (?&?&?).
  unfold write_entry, read_entry. codec.
Qed.
#[local] Hint Resolve rt_api_versions_entry : codec.

#[global] Instance response_message : Message Response.
Proof.
  refine {| encode := encode_response; decode := decode_response; msg_ok := response_ok |}.
  intros v []. unfold response_ok. simpl. intros (?&?&?&?&?).
  unfold encode_response, decode_response;
    cbn [error_code api_versions throttle_time_ms].
  codec.
Defined.

(** Below version 3 the request is empty. *)
Definition decode_request (version : Z) : reader Request :=
  if MIN_FLEXIBLE <=? version then
    name ← read_compact_string; ver ← read_compact_string;
    Tagged.read;;
    mret {| client_software_name := Some name; client_software_version := Some ver |}
  else mret {| client_software_name := None; client_software_version := None |}.

Definition request_wire (req : Request) (version : Z) : enc :=
  when_enc (MIN_FLEXIBLE <=? version)
    (write_compact_string (default ""%string (client_software_name req)) +++
     write_compact_string (default ""%string (client_software_version req)) +++
     Tagged.write_empty).

Definition request_ok (version : Z) (r : Request) : Prop :=
  if MIN_FLEXIBLE <=? version then
    (∃ n, client_software_name r = Some n ∧ wire_str n) ∧
    (∃ s, client_software_version r = Some s ∧ wire_str s)
  else client_software_name r = None ∧ client_software_version r = None.

#[global] Instance request_message : Message Request.
Proof.
  refine {| encode := request_wire; decode := decode_request; msg_ok := request_ok |}.
  intros v []. unfold request_ok, request_wire, decode_request.
  destruct (MIN_FLEXIBLE <=? v); cbn [client_software_name client_software_version].
  - intros [(n & -> & Hn) (s & -> & Hs)]. cbn [when_enc default].
    eapply rt_bind; [apply (rt_str n true Hn)|]. eapply rt_bind; [apply (rt_str s true Hs)|].
    exact (Tagged.rt_tail true _).
  - intros [-> ->]. apply rt_ret.
Defined.

End ApiVersions.

(** At every version every well-formed request and response of the
    administration and session APIs is read back from what is written. *)
Theorem admin_messages_roundtrip v :
  (∀ m, CreateTopics.request_ok v m →
     rt (CreateTopics.encode_request m v)
       (CreateTopics.decode_request v) m) ∧
  (∀ m, CreateTopics.response_ok v m →
     rt (CreateTopics.encode_response m v)
       (CreateTopics.decode_response v) m) ∧
  (∀ m, DeleteTopics.request_ok v m →
     rt (DeleteTopics.encode_request m v)
       (DeleteTopics.decode_request v) m) ∧
  (∀ m, DeleteTopics.response_ok v m →
     rt (DeleteTopics.encode_response m v)
       (DeleteTopics.decode_response v) m) ∧
  (∀ m, CreatePartitions.request_ok v m →
     rt (CreatePartitions.encode_request m v)
       (CreatePartitions.decode_request v) m) ∧
  (∀ m, CreatePartitions.response_ok v m →
     rt (CreatePartitions.encode_response m v)
       (CreatePartitions.decode_response v) m) ∧
  (∀ m, CreateAcls.request_ok v m →
     rt (CreateAcls.encode_request m v)
       (CreateAcls.decode_request v) m) ∧
  (∀ m, CreateAcls.response_ok v m →
     rt (CreateAcls.encode_response m v)
       (CreateAcls.decode_response v) m) ∧
  (∀ m, DescribeAcls.request_ok v m →
     rt (DescribeAcls.encode_request m v)
       (DescribeAcls.decode_request v) m) ∧
  (∀ m, DescribeAcls.response_ok v m →
     rt (DescribeAcls.encode_response m v)
       (DescribeAcls.decode_response v) m) ∧
  (∀ m, DeleteAcls.request_ok v m →
     rt (DeleteAcls.encode_request m v)
       (DeleteAcls.decode_request v) m) ∧
  (∀ m, DeleteAcls.response_ok v m →
     rt (DeleteAcls.encode_response m v)
       (DeleteAcls.decode_response v) m) ∧
  (∀ m, DescribeConfigs.request_ok v m →
     rt (DescribeConfigs.encode_request m v)
       (DescribeConfigs.decode_request v) m) ∧
  (∀ m, DescribeConfigs.response_ok v m →
     rt (DescribeConfigs.encode_response m v)
       (DescribeConfigs.decode_response v) m) ∧
  (∀ m, IncrementalAlterConfigs.request_ok v m →
     rt (IncrementalAlterConfigs.encode_request m v)
       (IncrementalAlterConfigs.decode_request v) m) ∧
  (∀ m, IncrementalAlterConfigs.response_ok v m →
     rt (IncrementalAlterConfigs.encode_response m v)
       (IncrementalAlterConfigs.decode_response v) m) ∧
  (∀ m, DescribeClientQuotas.request_ok v m →
     rt (DescribeClientQuotas.encode_request m v)
       (DescribeClientQuotas.decode_request v) m) ∧
  (∀ m, DescribeClientQuotas.response_ok v m →
     rt (DescribeClientQuotas.encode_response m v)
       (DescribeClientQuotas.decode_response v) m) ∧
  (∀ m, AlterClientQuotas.request_ok v m →
     rt (AlterClientQuotas.encode_request m v)
       (AlterClientQuotas.decode_request v) m) ∧
  (∀ m, AlterClientQuotas.response_ok v m →
     rt (AlterClientQuotas.encode_response m v)
       (AlterClientQuotas.decode_response v) m) ∧
  (∀ m, AlterReplicaLogDirs.request_ok v m →
     rt (AlterReplicaLogDirs.encode_request m v)
       (AlterReplicaLogDirs.decode_request v) m) ∧
  (∀ m, AlterReplicaLogDirs.response_ok v m →
     rt (AlterReplicaLogDirs.encode_response m v)
       (AlterReplicaLogDirs.decode_response v) m) ∧
  (∀ m, DescribeLogDirs.request_ok v m →
     rt (DescribeLogDirs.encode_request m v)
       (DescribeLogDirs.decode_request v) m) ∧
  (∀ m, DescribeLogDirs.response_ok v m →
     rt (DescribeLogDirs.encode_response m v)
       (DescribeLogDirs.decode_response v) m) ∧
  (∀ m, DescribeCluster.request_ok v m →
     rt (DescribeCluster.encode_request m v)
       (DescribeCluster.decode_request v) m) ∧
  (∀ m, DescribeCluster.response_ok v m →
     rt (DescribeCluster.encode_response m v)
       (DescribeCluster.decode_response v) m) ∧
  (∀ m, DescribeUserScramCredentials.request_ok v m →
     rt (DescribeUserScramCredentials.encode_request m v)
       (DescribeUserScramCredentials.decode_request v) m) ∧
  (∀ m, DescribeUserScramCredentials.response_ok v m →
     rt (DescribeUserScramCredentials.encode_response m v)
       (DescribeUserScramCredentials.decode_response v) m) ∧
  (∀ m, AlterUserScramCredentials.request_ok v m →
     rt (AlterUserScramCredentials.encode_request m v)
       (AlterUserScramCredentials.decode_request v) m) ∧
  (∀ m, AlterUserScramCredentials.response_ok v m →
     rt (AlterUserScramCredentials.encode_response m v)
       (AlterUserScramCredentials.decode_response v) m) ∧
  (∀ m, SaslHandshake.request_ok v m →
     rt (SaslHandshake.encode_request m v)
       (SaslHandshake.decode_request v) m) ∧
  (∀ m, SaslHandshake.response_ok v m →
     rt (SaslHandshake.encode_response m v)
       (SaslHandshake.decode_response v) m) ∧
  (∀ m, SaslAuthenticate.request_ok v m →
     rt (SaslAuthenticate.encode_request m v)
       (SaslAuthenticate.decode_request v) m) ∧
  (∀ m, SaslAuthenticate.response_ok v m →
     rt (SaslAuthenticate.encode_response m v)
       (SaslAuthenticate.decode_response v) m) ∧
  (∀ m, ApiVersions.request_ok v m →
     rt (ApiVersions.request_wire m v)
       (ApiVersions.decode_request v) m) ∧
  (∀ m, ApiVersions.response_ok v m →
     rt (ApiVersions.encode_response m v)
       (ApiVersions.decode_response v) m).
Proof. split_and!; intros m Hm; exact (msg_rt v m Hm). Qed.
