(* ===== verification/ApiGroup.v ===== *)
(** * Codecs of the consumer-group APIs

    [api/join_group.rs], [api/sync_group.rs], [api/heartbeat.rs] and
    [api/leave_group.rs]: the request and response shapes at every supported
    version, with their version-gated fields.  Each message is an instance of
    [Message]. *)

From stdpp Require Import base gmap strings list.
From Stdlib Require Import Strings.Byte.
From S2P Require Import Prelude Primitives Wire.
Import Common.

Local Open Scope Z_scope.

Module JoinGroup.

Definition VERSIONS : Z * Z := (2, 9).
Definition MIN_FLEXIBLE : Z := 6.
Definition SPEC : ApiSpec := spec_row 11 2 9 MIN_FLEXIBLE.

Record JoinGroupProtocol := { name : string; metadata : list byte }.

Record Request := {
  group_id : string; session_timeout_ms : Z; rebalance_timeout_ms : Z;
  member_id : string; group_instance_id : option string; protocol_type : string;
  protocols : list JoinGroupProtocol; reason : option string }.

Record JoinGroupMember := {
  m_member_id : string; m_group_instance_id : option string; m_metadata : list byte }.

Record Response := {
  throttle_time_ms : Z; error_code : Z; generation_id : Z; r_protocol_type : string;
  protocol_name : string; leader : string; skip_assignment : bool;
  r_member_id : string; members : list JoinGroupMember }.

Definition read_protocol (flexible : bool) : reader JoinGroupProtocol :=
  n ← read_str flexible; md ← read_flex_bytes flexible;
  (if flexible then Tagged.read else mret tt);;
  mret {| name := n; metadata := md |}.

Definition decode_request (version : Z) : reader Request :=
  let flexible := MIN_FLEXIBLE <=? version in
  g ← read_str flexible; s ← read_i32; r ← read_i32; m ← read_str flexible;
  gi ← (if 5 <=? version then read_nullable_str flexible else mret None);
  pt ← read_str flexible;
  ps ← read_array flexible (read_protocol flexible);
  why ← (if 8 <=? version then read_nullable_str flexible else mret None);
  (if flexible then Tagged.read else mret tt);;
  mret {| group_id := g; session_timeout_ms := s; rebalance_timeout_ms := r;
          member_id := m; group_instance_id := gi; protocol_type := pt;
          protocols := ps; reason := why |}.

Definition write_member (version : Z) (flexible : bool) (m : JoinGroupMember) : enc :=
  write_str (m_member_id m) flexible +++
  when_enc (5 <=? version) (write_nullable_str (m_group_instance_id m) flexible) +++
  write_flex_bytes (m_metadata m) flexible +++
  when_enc flexible Tagged.write_empty.

Definition encode_response (resp : Response) (version : Z) : enc :=
  let flexible := MIN_FLEXIBLE <=? version in
  when_enc (2 <=? version) (write_i32 (throttle_time_ms resp)) +++
  write_i16 (error_code resp) +++ write_i32 (generation_id resp) +++
  when_enc (7 <=? version) (write_str (r_protocol_type resp) flexible) +++
  write_str (protocol_name resp) flexible +++ write_str (leader resp) flexible +++
  when_enc (9 <=? version) (write_bool (skip_assignment resp)) +++
  write_str (r_member_id resp) flexible +++
  write_array (write_member version flexible) (members resp) flexible +++
  when_enc flexible Tagged.write_empty.

Definition read_member (version : Z) (flexible : bool) : reader JoinGroupMember :=
  m ← read_str flexible;
  gi ← (if 5 <=? version then read_nullable_str flexible else mret None);
  md ← read_flex_bytes flexible;
  (if flexible then Tagged.read else mret tt);;
  mret {| m_member_id := m; m_group_instance_id := gi; m_metadata := md |}.

Definition decode_response (version : Z) : reader Response :=
  let flexible := MIN_FLEXIBLE <=? version in
  th ← (if 2 <=? version then read_i32 else mret 0);
  e ← read_i16; g ← read_i32;
  pt ← (if 7 <=? version then read_str flexible else mret ""%string);
  pn ← read_str flexible; l ← read_str flexible;
  sk ← (if 9 <=? version then read_bool else mret false);
  m ← read_str flexible;
  ms ← read_array flexible (read_member version flexible);
  (if flexible then Tagged.read else mret tt);;
  mret {| throttle_time_ms := th; error_code := e; generation_id := g;
          r_protocol_type := pt; protocol_name := pn; leader := l;
          skip_assignment := sk; r_member_id := m; members := ms |}.

Definition write_protocol (flexible : bool) (p : JoinGroupProtocol) : enc :=
  write_str (name p) flexible +++ write_flex_bytes (metadata p) flexible +++
  when_enc flexible Tagged.write_empty.

Definition encode_request (req : Request) (version : Z) : enc :=
  let flexible := MIN_FLEXIBLE <=? version in
  write_str (group_id req) flexible +++
  write_i32 (session_timeout_ms req) +++ write_i32 (rebalance_timeout_ms req) +++
  write_str (member_id req) flexible +++
  when_enc (5 <=? version) (write_nullable_str (group_instance_id req) flexible) +++
  write_str (protocol_type req) flexible +++
  write_array (write_protocol flexible) (protocols req) flexible +++
  when_enc (8 <=? version) (write_nullable_str (reason req) flexible) +++
  when_enc flexible Tagged.write_empty.

Definition protocol_ok (p : JoinGroupProtocol) : Prop :=
  wire_str (name p) ∧ wire_len (metadata p).
Definition member_ok (version : Z) (m : JoinGroupMember) : Prop :=
  wire_str (m_member_id m) ∧ wire_opt_str (m_group_instance_id m) ∧
  gated (5 <=? version) (m_group_instance_id m) None ∧ wire_len (m_metadata m).

Definition request_ok (version : Z) (r : Request) : Prop :=
  wire_str (group_id r) ∧ i32_ok (session_timeout_ms r) ∧ i32_ok (rebalance_timeout_ms r) ∧
  wire_str (member_id r) ∧ wire_opt_str (group_instance_id r) ∧
  gated (5 <=? version) (group_instance_id r) None ∧ wire_str (protocol_type r) ∧
  wire_len (protocols r) ∧ Forall protocol_ok (protocols r) ∧
  wire_opt_str (reason r) ∧ gated (8 <=? version) (reason r) None.

Definition response_ok (version : Z) (r : Response) : Prop :=
  i32_ok (throttle_time_ms r) ∧ gated (2 <=? version) (throttle_time_ms r) 0 ∧
  i16_ok (error_code r) ∧ i32_ok (generation_id r) ∧
  wire_str (r_protocol_type r) ∧ gated (7 <=? version) (r_protocol_type r) ""%string ∧
  wire_str (protocol_name r) ∧ wire_str (leader r) ∧
  gated (9 <=? version) (skip_assignment r) false ∧ wire_str (r_member_id r) ∧
  wire_len (members r) ∧ Forall (member_ok version) (members r).

Lemma rt_protocol flexible p :
  protocol_ok p → rt (write_protocol flexible p) (read_protocol flexible) p.
Proof. destruct p. intros [??]. unfold write_protocol, read_protocol. codec. Qed.

Lemma rt_member version flexible m :
  member_ok version m → rt (write_member version flexible m) (read_member version flexible) m.
Proof. destruct m. intros (?&?&?&?). unfold write_member, read_member. codec. Qed.

#[local] Hint Resolve rt_protocol rt_member : codec.

#[global] Instance request_message : Message Request.
Proof.
  refine {| encode := encode_request; decode := decode_request; msg_ok := request_ok |}.
  intros v []. unfold request_ok. simpl. intros (?&?&?&?&?&?&?&?&?&?&?).
  unfold encode_request, decode_request; cbn [group_id session_timeout_ms
    rebalance_timeout_ms member_id group_instance_id protocol_type protocols reason].
  codec.
Defined.

#[global] Instance response_message : Message Response.
Proof.
  refine {| encode := encode_response; decode := decode_response; msg_ok := response_ok |}.
  intros v []. unfold response_ok. simpl. intros (?&?&?&?&?&?&?&?&?&?&?&?).
  unfold encode_response, decode_response; cbn [throttle_time_ms error_code generation_id
    r_protocol_type protocol_name leader skip_assignment r_member_id members].
  codec.
Defined.

End JoinGroup.

Module SyncGroup.

Definition VERSIONS : Z * Z := (0, 5).
Definition MIN_FLEXIBLE : Z := 4.
Definition SPEC : ApiSpec := spec_row 14 0 5 MIN_FLEXIBLE.

Record SyncAssignment := { a_member_id : string; a_assignment : option (list byte) }.

Record Request := {
  group_id : string; generation_id : Z; member_id : string;
  group_instance_id : option string; protocol_type : option string;
  protocol_name : option string; assignments : list SyncAssignment }.

Record Response := {
  throttle_time_ms : Z; error_code : Z; r_protocol_type : string;
  r_protocol_name : string; assignment : list byte }.

Definition read_assignment (flexible : bool) : reader SyncAssignment :=
  m ← read_str flexible; a ← read_nullable_bytes flexible;
  (if flexible then Tagged.read else mret tt);;
  mret {| a_member_id := m; a_assignment := a |}.

Definition decode_request (version : Z) : reader Request :=
  let flexible := MIN_FLEXIBLE <=? version in
  g ← read_str flexible; gen ← read_i32; m ← read_str flexible;
  gi ← (if 3 <=? version then read_nullable_str flexible else mret None);
  p ← (if 5 <=? version
       then a ← read_nullable_str flexible; b ← read_nullable_str flexible; mret (a, b)
       else mret (None, None));
  l ← read_array flexible (read_assignment flexible);
  (if flexible then Tagged.read else mret tt);;
  mret {| group_id := g; generation_id := gen; member_id := m; group_instance_id := gi;
          protocol_type := p.1; protocol_name := p.2; assignments := l |}.

Definition encode_response (resp : Response) (version : Z) : enc :=
  let flexible := MIN_FLEXIBLE <=? version in
  when_enc (1 <=? version) (write_i32 (throttle_time_ms resp)) +++
  write_i16 (error_code resp) +++
  when_enc (5 <=? version)
    (write_str (r_protocol_type resp) flexible +++ write_str (r_protocol_name resp) flexible) +++
  write_flex_bytes (assignment resp) flexible +++
  when_enc flexible Tagged.write_empty.

Definition decode_response (version : Z) : reader Response :=
  let flexible := MIN_FLEXIBLE <=? version in
  th ← (if 1 <=? version then read_i32 else mret 0);
  e ← read_i16;
  p ← (if 5 <=? version
       then a ← read_str flexible; b ← read_str flexible; mret (a, b)
       else mret (""%string, ""%string));
  a ← read_flex_bytes flexible;
  (if flexible then Tagged.read else mret tt);;
  mret {| throttle_time_ms := th; error_code := e; r_protocol_type := p.1;
          r_protocol_name := p.2; assignment := a |}.

Definition write_assignment (flexible : bool) (a : SyncAssignment) : enc :=
  write_str (a_member_id a) flexible +++ write_nullable_bytes (a_assignment a) flexible +++
  when_enc flexible Tagged.write_empty.

Definition encode_request (req : Request) (version : Z) : enc :=
  let flexible := MIN_FLEXIBLE <=? version in
  write_str (group_id req) flexible +++ write_i32 (generation_id req) +++
  write_str (member_id req) flexible +++
  when_enc (3 <=? version) (write_nullable_str (group_instance_id req) flexible) +++
  when_enc (5 <=? version)
    (write_nullable_str (protocol_type req) flexible +++
     write_nullable_str (protocol_name req) flexible) +++
  write_array (write_assignment flexible) (assignments req) flexible +++
  when_enc flexible Tagged.write_empty.

Definition assignment_ok (a : SyncAssignment) : Prop :=
  wire_str (a_member_id a) ∧ ∀ b, a_assignment a = Some b → wire_len b.

Definition request_ok (version : Z) (r : Request) : Prop :=
  wire_str (group_id r) ∧ i32_ok (generation_id r) ∧ wire_str (member_id r) ∧
  wire_opt_str (group_instance_id r) ∧ gated (3 <=? version) (group_instance_id r) None ∧
  wire_opt_str (protocol_type r) ∧ wire_opt_str (protocol_name r) ∧
  gated (5 <=? version) (protocol_type r, protocol_name r) (None, None) ∧
  wire_len (assignments r) ∧ Forall assignment_ok (assignments r).

Definition response_ok (version : Z) (r : Response) : Prop :=
  i32_ok (throttle_time_ms r) ∧ gated (1 <=? version) (throttle_time_ms r) 0 ∧
  i16_ok (error_code r) ∧ wire_str (r_protocol_type r) ∧ wire_str (r_protocol_name r) ∧
  gated (5 <=? version) (r_protocol_type r, r_protocol_name r) (""%string, ""%string) ∧
  wire_len (assignment r).

Lemma rt_assignment flexible a :
  assignment_ok a → rt (write_assignment flexible a) (read_assignment flexible) a.
Proof. destruct a. intros [??]. unfold write_assignment, read_assignment. codec. Qed.

#[local] Hint Resolve rt_assignment : codec.

#[global] Instance request_message : Message Request.
Proof.
  refine {| encode := encode_request; decode := decode_request; msg_ok := request_ok |}.
  intros v []. unfold request_ok. simpl. intros (?&?&?&?&?&?&?&?&?&?).
  unfold encode_request, decode_request; cbn [group_id generation_id member_id
    group_instance_id protocol_type protocol_name assignments].
  codec.
Defined.

#[global] Instance response_message : Message Response.
Proof.
  refine {| encode := encode_response; decode := decode_response; msg_ok := response_ok |}.
  intros v []. unfold response_ok. simpl. intros (?&?&?&?&?&?&?).
  unfold encode_response, decode_response; cbn [throttle_time_ms error_code
    r_protocol_type r_protocol_name assignment].
  codec.
Defined.

End SyncGroup.

Module Heartbeat.

Definition VERSIONS : Z * Z := (0, 4).
Definition MIN_FLEXIBLE : Z := 4.
Definition SPEC : ApiSpec := spec_row 12 0 4 MIN_FLEXIBLE.

Record Request := {
  group_id : string; generation_id : Z; member_id : string; group_instance_id : option string }.
Record Response := { throttle_time_ms : Z; error_code : Z }.

Definition decode_request (version : Z) : reader Request :=
  let flexible := MIN_FLEXIBLE <=? version in
  g ← read_str flexible; gen ← read_i32; m ← read_str flexible;
  gi ← (if 3 <=? version then read_nullable_str flexible else mret None);
  (if flexible then Tagged.read else mret tt);;
  mret {| group_id := g; generation_id := gen; member_id := m; group_instance_id := gi |}.

Definition encode_response (resp : Response) (version : Z) : enc :=
  let flexible := MIN_FLEXIBLE <=? version in
  when_enc (1 <=? version) (write_i32 (throttle_time_ms resp)) +++
  write_i16 (error_code resp) +++ when_enc flexible Tagged.write_empty.

Definition decode_response (version : Z) : reader Response :=
  let flexible := MIN_FLEXIBLE <=? version in
  th ← (if 1 <=? version then read_i32 else mret 0); e ← read_i16;
  (if flexible then Tagged.read else mret tt);;
  mret {| throttle_time_ms := th; error_code := e |}.

Definition encode_request (req : Request) (version : Z) : enc :=
  let flexible := MIN_FLEXIBLE <=? version in
  write_str (group_id req) flexible +++ write_i32 (generation_id req) +++
  write_str (member_id req) flexible +++
  when_enc (3 <=? version) (write_nullable_str (group_instance_id req) flexible) +++
  when_enc flexible Tagged.write_empty.

Definition request_ok (version : Z) (r : Request) : Prop :=
  wire_str (group_id r) ∧ i32_ok (generation_id r) ∧ wire_str (member_id r) ∧
  wire_opt_str (group_instance_id r) ∧ gated (3 <=? version) (group_instance_id r) None.

Definition response_ok (version : Z) (r : Response) : Prop :=
  i32_ok (throttle_time_ms r) ∧ gated (1 <=? version) (throttle_time_ms r) 0 ∧
  i16_ok (error_code r).

#[global] Instance request_message : Message Request.
Proof.
  refine {| encode := encode_request; decode := decode_request; msg_ok := request_ok |}.
  intros v []. unfold request_ok. simpl. intros (?&?&?&?&?).
  unfold encode_request, decode_request;
    cbn [group_id generation_id member_id group_instance_id]. codec.
Defined.

#[global] Instance response_message : Message Response.
Proof.
  refine {| encode := encode_response; decode := decode_response; msg_ok := response_ok |}.
  intros v []. unfold response_ok. simpl. intros (?&?&?).
  unfold encode_response, decode_response; cbn [throttle_time_ms error_code]. codec.
Defined.

End Heartbeat.

Module LeaveGroup.

Definition VERSIONS : Z * Z := (0, 5).
Definition MIN_FLEXIBLE : Z := 4.
Definition SPEC : ApiSpec := spec_row 13 0 5 MIN_FLEXIBLE.

Record LeaveMember := {
  l_member_id : string; l_group_instance_id : option string; l_reason : option string }.
Record Request := { group_id : string; member_id : string; members : list LeaveMember }.
Record LeaveMemberResponse := {
  lr_member_id : string; lr_group_instance_id : option string; lr_error_code : Z }.
Record Response := {
  throttle_time_ms : Z; error_code : Z; r_members : list LeaveMemberResponse }.

Definition read_member (version : Z) (flexible : bool) : reader LeaveMember :=
  m ← read_str flexible; gi ← read_nullable_str flexible;
  why ← (if 5 <=? version then read_nullable_str flexible else mret None);
  (if flexible then Tagged.read else mret tt);;
  mret {| l_member_id := m; l_group_instance_id := gi; l_reason := why |}.

Definition decode_request (version : Z) : reader Request :=
  let flexible := MIN_FLEXIBLE <=? version in
  g ← read_str flexible;
  if version <=? 2 then
    m ← read_str flexible;
    (if flexible then Tagged.read else mret tt);;
    mret {| group_id := g; member_id := m; members := [] |}
  else
    ms ← read_array flexible (read_member version flexible);
    (if flexible then Tagged.read else mret tt);;
    mret {| group_id := g; member_id := ""%string; members := ms |}.

Definition write_member_response (flexible : bool) (m : LeaveMemberResponse) : enc :=
  write_str (lr_member_id m) flexible +++
  write_nullable_str (lr_group_instance_id m) flexible +++
  write_i16 (lr_error_code m) +++ when_enc flexible Tagged.write_empty.

Definition encode_response (resp : Response) (version : Z) : enc :=
  let flexible := MIN_FLEXIBLE <=? version in
  when_enc (1 <=? version) (write_i32 (throttle_time_ms resp)) +++
  write_i16 (error_code resp) +++
  when_enc (3 <=? version)
    (write_array (write_member_response flexible) (r_members resp) flexible) +++
  when_enc flexible Tagged.write_empty.

Definition read_member_response (flexible : bool) : reader LeaveMemberResponse :=
  m ← read_str flexible; gi ← read_nullable_str flexible; e ← read_i16;
  (if flexible then Tagged.read else mret tt);;
  mret {| lr_member_id := m; lr_group_instance_id := gi; lr_error_code := e |}.

Definition decode_response (version : Z) : reader Response :=
  let flexible := MIN_FLEXIBLE <=? version in
  th ← (if 1 <=? version then read_i32 else mret 0); e ← read_i16;
  ms ← (if 3 <=? version then read_array flexible (read_member_response flexible) else mret []);
  (if flexible then Tagged.read else mret tt);;
  mret {| throttle_time_ms := th; error_code := e; r_members := ms |}.

Definition write_member (version : Z) (flexible : bool) (m : LeaveMember) : enc :=
  write_str (l_member_id m) flexible +++
  write_nullable_str (l_group_instance_id m) flexible +++
  when_enc (5 <=? version) (write_nullable_str (l_reason m) flexible) +++
  when_enc flexible Tagged.write_empty.

Definition encode_request (req : Request) (version : Z) : enc :=
  let flexible := MIN_FLEXIBLE <=? version in
  write_str (group_id req) flexible +++
  (if version <=? 2 then
     write_str (member_id req) flexible +++ when_enc flexible Tagged.write_empty
   else
     write_array (write_member version flexible) (members req) flexible +++
     when_enc flexible Tagged.write_empty).

Definition member_ok (version : Z) (m : LeaveMember) : Prop :=
  wire_str (l_member_id m) ∧ wire_opt_str (l_group_instance_id m) ∧
  wire_opt_str (l_reason m) ∧ gated (5 <=? version) (l_reason m) None.
Definition member_response_ok (m : LeaveMemberResponse) : Prop :=
  wire_str (lr_member_id m) ∧ wire_opt_str (lr_group_instance_id m) ∧ i16_ok (lr_error_code m).

(** Up to v2 one member is named; from v3 a batch is. *)
Definition request_ok (version : Z) (r : Request) : Prop :=
  wire_str (group_id r) ∧ wire_str (member_id r) ∧
  (if version <=? 2 then members r = [] else member_id r = ""%string) ∧
  wire_len (members r) ∧ Forall (member_ok version) (members r).

Definition response_ok (version : Z) (r : Response) : Prop :=
  i32_ok (throttle_time_ms r) ∧ gated (1 <=? version) (throttle_time_ms r) 0 ∧
  i16_ok (error_code r) ∧ gated (3 <=? version) (r_members r) [] ∧
  wire_len (r_members r) ∧ Forall member_response_ok (r_members r).

Lemma rt_leave_member version flexible m :
  member_ok version m → rt (write_member version flexible m) (read_member version flexible) m.
Proof. destruct m. intros (?&?&?&?). unfold write_member, read_member. codec. Qed.

Lemma rt_member_response flexible m :
  member_response_ok m → rt (write_member_response flexible m) (read_member_response flexible) m.
Proof. destruct m. intros (?&?&?). unfold write_member_response, read_member_response. codec. Qed.

#[local] Hint Resolve rt_leave_member rt_member_response : codec.

#[global] Instance request_message : Message Request.
Proof.
  refine {| encode := encode_request; decode := decode_request; msg_ok := request_ok |}.
  intros v [g m ms]. unfold request_ok. cbn [group_id member_id members].
  intros (?&?&Hf&?&?).
  unfold encode_request, decode_request; cbn [group_id member_id members].
  eapply rt_bind; [by eauto with codec|]. destruct (v <=? 2); subst; codec.
Defined.

#[global] Instance response_message : Message Response.
Proof.
  refine {| encode := encode_response; decode := decode_response; msg_ok := response_ok |}.
  intros v []. unfold response_ok. simpl. intros (?&?&?&?&?&?).
  unfold encode_response, decode_response; cbn [throttle_time_ms error_code r_members]. codec.
Defined.

End LeaveGroup.

(** ** Property *)

(** Group-membership messages survive the wire: at every version, every
    well-formed JoinGroup, SyncGroup, Heartbeat and LeaveGroup request and
    response is encoded, and decoding what was encoded, followed by anything,
    gives the message back and leaves the rest unread. *)
Theorem group_messages_roundtrip v :
  (∀ m, JoinGroup.request_ok v m → rt (JoinGroup.encode_request m v) (JoinGroup.decode_request v) m) ∧
  (∀ m, JoinGroup.response_ok v m → rt (JoinGroup.encode_response m v) (JoinGroup.decode_response v) m) ∧
  (∀ m, SyncGroup.request_ok v m → rt (SyncGroup.encode_request m v) (SyncGroup.decode_request v) m) ∧
  (∀ m, SyncGroup.response_ok v m → rt (SyncGroup.encode_response m v) (SyncGroup.decode_response v) m) ∧
  (∀ m, Heartbeat.request_ok v m → rt (Heartbeat.encode_request m v) (Heartbeat.decode_request v) m) ∧
  (∀ m, Heartbeat.response_ok v m → rt (Heartbeat.encode_response m v) (Heartbeat.decode_response v) m) ∧
  (∀ m, LeaveGroup.request_ok v m → rt (LeaveGroup.encode_request m v) (LeaveGroup.decode_request v) m) ∧
  (∀ m, LeaveGroup.response_ok v m → rt (LeaveGroup.encode_response m v) (LeaveGroup.decode_response v) m).
Proof.
  split_and!; intros m Hm;
    [apply (@msg_rt _ JoinGroup.request_message v m Hm) | apply (@msg_rt _ JoinGroup.response_message v m Hm)
    |apply (@msg_rt _ SyncGroup.request_message v m Hm) | apply (@msg_rt _ SyncGroup.response_message v m Hm)
    |apply (@msg_rt _ Heartbeat.request_message v m Hm) | apply (@msg_rt _ Heartbeat.response_message v m Hm)
    |apply (@msg_rt _ LeaveGroup.request_message v m Hm) | apply (@msg_rt _ LeaveGroup.response_message v m Hm)].
Qed.
