(* ===== verification/ApiTxn.v ===== *)
(** * Codecs of the transaction APIs

    [api/init_producer_id.rs], [api/add_partitions_to_txn.rs],
    [api/add_offsets_to_txn.rs], [api/end_txn.rs], [api/txn_offset_commit.rs] and
    [api/write_txn_markers.rs].  The broker decodes these requests and encodes
    the responses; the crate has no request encoder, so [request_wire] states the
    wire layout a client sends and [request_message] shows that the decoder
    accepts it. *)

From stdpp Require Import base gmap strings list.
From Stdlib Require Import Strings.Byte.
From S2P Require Import Prelude Primitives Wire ApiGroup.
Import Common.

Local Open Scope Z_scope.

Module InitProducerId.

Definition VERSIONS : Z * Z := (0, 4).
Definition MIN_FLEXIBLE : Z := 2.
Definition SPEC : ApiSpec := spec_row 22 0 4 MIN_FLEXIBLE.

Record Request := {
  transactional_id : option string; transaction_timeout_ms : Z;
  producer_id : Z; producer_epoch : Z }.
Record Response := {
  throttle_time_ms : Z; error_code : Z; r_producer_id : Z; r_producer_epoch : Z }.

Definition decode_request (version : Z) : reader Request :=
  let flexible := MIN_FLEXIBLE <=? version in
  t ← read_nullable_str flexible; ms ← read_i32;
  p ← (if 3 <=? version then a ← read_i64; b ← read_i16; mret (a, b) else mret (-1, -1));
  (if flexible then Tagged.read else mret tt);;
  mret {| transactional_id := t; transaction_timeout_ms := ms;
          producer_id := p.1; producer_epoch := p.2 |}.

Definition encode_response (resp : Response) (version : Z) : enc :=
  let flexible := MIN_FLEXIBLE <=? version in
  write_i32 (throttle_time_ms resp) +++ write_i16 (error_code resp) +++
  write_i64 (r_producer_id resp) +++ write_i16 (r_producer_epoch resp) +++
  when_enc flexible Tagged.write_empty.

Definition decode_response (version : Z) : reader Response :=
  let flexible := MIN_FLEXIBLE <=? version in
  th ← read_i32; e ← read_i16; p ← read_i64; ep ← read_i16;
  (if flexible then Tagged.read else mret tt);;
  mret {| throttle_time_ms := th; error_code := e; r_producer_id := p; r_producer_epoch := ep |}.

Definition request_wire (req : Request) (version : Z) : enc :=
  let flexible := MIN_FLEXIBLE <=? version in
  write_nullable_str (transactional_id req) flexible +++
  write_i32 (transaction_timeout_ms req) +++
  when_enc (3 <=? version) (write_i64 (producer_id req) +++ write_i16 (producer_epoch req)) +++
  when_enc flexible Tagged.write_empty.

Definition request_ok (version : Z) (r : Request) : Prop :=
  wire_opt_str (transactional_id r) ∧ i32_ok (transaction_timeout_ms r) ∧
  i64_ok (producer_id r) ∧ i16_ok (producer_epoch r) ∧
  gated (3 <=? version) (producer_id r, producer_epoch r) (-1, -1).
Definition response_ok (version : Z) (r : Response) : Prop :=
  i32_ok (throttle_time_ms r) ∧ i16_ok (error_code r) ∧
  i64_ok (r_producer_id r) ∧ i16_ok (r_producer_epoch r).

#[global] Instance request_message : Message Request.
Proof.
  refine {| encode := request_wire; decode := decode_request; msg_ok := request_ok |}.
  intros v []. unfold request_ok. simpl. intros (?&?&?&?&?).
  unfold request_wire, decode_request; cbn [transactional_id transaction_timeout_ms
    producer_id producer_epoch]. codec.
Defined.

#[global] Instance response_message : Message Response.
Proof.
  refine {| encode := encode_response; decode := decode_response; msg_ok := response_ok |}.
  intros v []. unfold response_ok. simpl. intros (?&?&?&?).
  unfold encode_response, decode_response; cbn [throttle_time_ms error_code r_producer_id
    r_producer_epoch]. codec.
Defined.

End InitProducerId.

(** The per-topic, per-partition error shape shared by three responses. *)
Module TopicResults.

Record PartitionResult := { partition_index : Z; p_error_code : Z }.
Record TopicResult := { name : string; partition_results : list PartitionResult }.

Definition write_partition (flexible : bool) (p : PartitionResult) : enc :=
  write_i32 (partition_index p) +++ write_i16 (p_error_code p) +++
  when_enc flexible Tagged.write_empty.
Definition write_topic (flexible : bool) (t : TopicResult) : enc :=
  write_str (name t) flexible +++
  write_array (write_partition flexible) (partition_results t) flexible +++
  when_enc flexible Tagged.write_empty.
Definition read_partition (flexible : bool) : reader PartitionResult :=
  i ← read_i32; e ← read_i16;
  (if flexible then Tagged.read else mret tt);;
  mret {| partition_index := i; p_error_code := e |}.
Definition read_topic (flexible : bool) : reader TopicResult :=
  n ← read_str flexible; ps ← read_array flexible (read_partition flexible);
  (if flexible then Tagged.read else mret tt);;
  mret {| name := n; partition_results := ps |}.

Definition partition_ok (p : PartitionResult) : Prop :=
  i32_ok (partition_index p) ∧ i16_ok (p_error_code p).
Definition topic_ok (t : TopicResult) : Prop :=
  wire_str (name t) ∧ wire_len (partition_results t) ∧
  Forall partition_ok (partition_results t).

Lemma rt_partition flexible p :
  partition_ok p → rt (write_partition flexible p) (read_partition flexible) p.
Proof. destruct p. intros [??]. unfold write_partition, read_partition. codec. Qed.
#[export] Hint Resolve rt_partition : codec.

Lemma rt_result_topic flexible t :
  topic_ok t → rt (write_topic flexible t) (read_topic flexible) t.
Proof. destruct t. intros (?&?&?). unfold write_topic, read_topic. codec. Qed.
#[global] Hint Resolve rt_result_topic : codec.

End TopicResults.

(** A topic with its partition indexes, as three requests carry it. *)
Module TopicPartitions.

Record Topic := { name : string; partitions : list Z }.

Definition read_topic (flexible : bool) : reader Topic :=
  n ← read_str flexible; ps ← read_array flexible read_i32;
  (if flexible then Tagged.read else mret tt);;
  mret {| name := n; partitions := ps |}.
Definition write_topic (flexible : bool) (t : Topic) : enc :=
  write_str (name t) flexible +++ write_array write_i32 (partitions t) flexible +++
  when_enc flexible Tagged.write_empty.
Definition topic_ok (t : Topic) : Prop :=
  wire_str (name t) ∧ wire_len (partitions t) ∧ Forall i32_ok (partitions t).

Lemma rt_topic flexible t :
  topic_ok t → rt (write_topic flexible t) (read_topic flexible) t.
Proof. destruct t. intros (?&?&?). unfold write_topic, read_topic. codec. Qed.
#[global] Hint Resolve rt_topic : codec.

End TopicPartitions.

Module AddPartitionsToTxn.
Import TopicResults.

Definition VERSIONS : Z * Z := (0, 3).
Definition MIN_FLEXIBLE : Z := 3.
Definition SPEC : ApiSpec := spec_row 24 0 3 MIN_FLEXIBLE.

Record Request := {
  transactional_id : string; producer_id : Z; producer_epoch : Z;
  topics : list TopicPartitions.Topic }.
Record Response := { throttle_time_ms : Z; results : list TopicResult }.

Definition decode_request (version : Z) : reader Request :=
  let flexible := MIN_FLEXIBLE <=? version in
  t ← read_str flexible; p ← read_i64; e ← read_i16;
  ts ← read_array flexible (TopicPartitions.read_topic flexible);
  (if flexible then Tagged.read else mret tt);;
  mret {| transactional_id := t; producer_id := p; producer_epoch := e; topics := ts |}.

Definition encode_response (resp : Response) (version : Z) : enc :=
  let flexible := MIN_FLEXIBLE <=? version in
  write_i32 (throttle_time_ms resp) +++
  write_array (write_topic flexible) (results resp) flexible +++
  when_enc flexible Tagged.write_empty.

Definition decode_response (version : Z) : reader Response :=
  let flexible := MIN_FLEXIBLE <=? version in
  th ← read_i32; rs ← read_array flexible (read_topic flexible);
  (if flexible then Tagged.read else mret tt);;
  mret {| throttle_time_ms := th; results := rs |}.

Definition request_wire (req : Request) (version : Z) : enc :=
  let flexible := MIN_FLEXIBLE <=? version in
  write_str (transactional_id req) flexible +++ write_i64 (producer_id req) +++
  write_i16 (producer_epoch req) +++
  write_array (TopicPartitions.write_topic flexible) (topics req) flexible +++
  when_enc flexible Tagged.write_empty.

Definition request_ok (version : Z) (r : Request) : Prop :=
  wire_str (transactional_id r) ∧ i64_ok (producer_id r) ∧ i16_ok (producer_epoch r) ∧
  wire_len (topics r) ∧ Forall TopicPartitions.topic_ok (topics r).
Definition response_ok (version : Z) (r : Response) : Prop :=
  i32_ok (throttle_time_ms r) ∧ wire_len (results r) ∧ Forall topic_ok (results r).

#[global] Instance request_message : Message Request.
Proof.
  refine {| encode := request_wire; decode := decode_request; msg_ok := request_ok |}.
  intros v []. unfold request_ok. simpl. intros (?&?&?&?&?).
  unfold request_wire, decode_request; cbn [transactional_id producer_id producer_epoch topics].
  codec.
Defined.

#[global] Instance response_message : Message Response.
Proof.
  refine {| encode := encode_response; decode := decode_response; msg_ok := response_ok |}.
  intros v []. unfold response_ok. simpl. intros (?&?&?).
  unfold encode_response, decode_response; cbn [throttle_time_ms results]. codec.
Defined.

End AddPartitionsToTxn.

Module AddOffsetsToTxn.

Definition VERSIONS : Z * Z := (0, 3).
Definition MIN_FLEXIBLE : Z := 3.
Definition SPEC : ApiSpec := spec_row 25 0 3 MIN_FLEXIBLE.

Record Request := {
  transactional_id : string; producer_id : Z; producer_epoch : Z; group_id : string }.
Record Response := { throttle_time_ms : Z; error_code : Z }.

Definition decode_request (version : Z) : reader Request :=
  let flexible := MIN_FLEXIBLE <=? version in
  t ← read_str flexible; p ← read_i64; e ← read_i16; g ← read_str flexible;
  (if flexible then Tagged.read else mret tt);;
  mret {| transactional_id := t; producer_id := p; producer_epoch := e; group_id := g |}.

Definition encode_response (resp : Response) (version : Z) : enc :=
  let flexible := MIN_FLEXIBLE <=? version in
  write_i32 (throttle_time_ms resp) +++ write_i16 (error_code resp) +++
  when_enc flexible Tagged.write_empty.

Definition decode_response (version : Z) : reader Response :=
  let flexible := MIN_FLEXIBLE <=? version in
  th ← read_i32; e ← read_i16;
  (if flexible then Tagged.read else mret tt);;
  mret {| throttle_time_ms := th; error_code := e |}.

Definition request_wire (req : Request) (version : Z) : enc :=
  let flexible := MIN_FLEXIBLE <=? version in
  write_str (transactional_id req) flexible +++ write_i64 (producer_id req) +++
  write_i16 (producer_epoch req) +++ write_str (group_id req) flexible +++
  when_enc flexible Tagged.write_empty.

Definition request_ok (version : Z) (r : Request) : Prop :=
  wire_str (transactional_id r) ∧ i64_ok (producer_id r) ∧ i16_ok (producer_epoch r) ∧
  wire_str (group_id r).
Definition response_ok (version : Z) (r : Response) : Prop :=
  i32_ok (throttle_time_ms r) ∧ i16_ok (error_code r).

#[global] Instance request_message : Message Request.
Proof.
  refine {| encode := request_wire; decode := decode_request; msg_ok := request_ok |}.
  intros v []. unfold request_ok. simpl. intros (?&?&?&?).
  unfold request_wire, decode_request; cbn [transactional_id producer_id producer_epoch group_id].
  codec.
Defined.

#[global] Instance response_message : Message Response.
Proof.
  refine {| encode := encode_response; decode := decode_response; msg_ok := response_ok |}.
  intros v []. unfold response_ok. simpl. intros (?&?).
  unfold encode_response, decode_response; cbn [throttle_time_ms error_code]. codec.
Defined.

End AddOffsetsToTxn.

Module EndTxn.

Definition VERSIONS : Z * Z := (0, 3).
Definition MIN_FLEXIBLE : Z := 3.
Definition SPEC : ApiSpec := spec_row 26 0 3 MIN_FLEXIBLE.

Record Request := {
  transactional_id : string; producer_id : Z; producer_epoch : Z; committed : bool }.
Record Response := { throttle_time_ms : Z; error_code : Z }.

Definition decode_request (version : Z) : reader Request :=
  let flexible := MIN_FLEXIBLE <=? version in
  t ← read_str flexible; p ← read_i64; e ← read_i16; c ← read_i8;
  (if flexible then Tagged.read else mret tt);;
  mret {| transactional_id := t; producer_id := p; producer_epoch := e;
          committed := negb (c =? 0) |}.

Definition encode_response (resp : Response) (version : Z) : enc :=
  let flexible := MIN_FLEXIBLE <=? version in
  write_i32 (throttle_time_ms resp) +++ write_i16 (error_code resp) +++
  when_enc flexible Tagged.write_empty.

Definition decode_response (version : Z) : reader Response :=
  let flexible := MIN_FLEXIBLE <=? version in
  th ← read_i32; e ← read_i16;
  (if flexible then Tagged.read else mret tt);;
  mret {| throttle_time_ms := th; error_code := e |}.

Definition request_wire (req : Request) (version : Z) : enc :=
  let flexible := MIN_FLEXIBLE <=? version in
  write_str (transactional_id req) flexible +++ write_i64 (producer_id req) +++
  write_i16 (producer_epoch req) +++ write_i8 (if committed req then 1 else 0) +++
  when_enc flexible Tagged.write_empty.

Definition request_ok (version : Z) (r : Request) : Prop :=
  wire_str (transactional_id r) ∧ i64_ok (producer_id r) ∧ i16_ok (producer_epoch r).
Definition response_ok (version : Z) (r : Response) : Prop :=
  i32_ok (throttle_time_ms r) ∧ i16_ok (error_code r).

#[global] Instance request_message : Message Request.
Proof.
  refine {| encode := request_wire; decode := decode_request; msg_ok := request_ok |}.
  intros v [t p e c]. unfold request_ok. cbn [transactional_id producer_id producer_epoch].
  intros (?&?&?). unfold request_wire, decode_request;
    cbn [transactional_id producer_id producer_epoch committed].
  do 3 (eapply rt_bind; [by eauto with codec|]; cbn beta).
  destruct c; (eapply rt_bind; [apply rt_i8; range|]); apply Tagged.rt_tail.
Defined.

#[global] Instance response_message : Message Response.
Proof.
  refine {| encode := encode_response; decode := decode_response; msg_ok := response_ok |}.
  intros v []. unfold response_ok. simpl. intros (?&?).
  unfold encode_response, decode_response; cbn [throttle_time_ms error_code]. codec.
Defined.

End EndTxn.

Module TxnOffsetCommit.
Import TopicResults.

Definition VERSIONS : Z * Z := (0, 3).
Definition MIN_FLEXIBLE : Z := 3.
Definition SPEC : ApiSpec := spec_row 28 0 3 MIN_FLEXIBLE.

Record Partition := {
  o_partition_index : Z; committed_offset : Z; committed_leader_epoch : Z;
  committed_metadata : option string }.
Record Topic := { t_name : string; t_partitions : list Partition }.
Record Request := {
  transactional_id : string; group_id : string; producer_id : Z; producer_epoch : Z;
  generation_id : Z; member_id : string; group_instance_id : option string;
  topics : list Topic }.
Record Response := { throttle_time_ms : Z; r_topics : list TopicResult }.

Definition read_offset (version : Z) (flexible : bool) : reader Partition :=
  i ← read_i32; o ← read_i64;
  le ← (if 2 <=? version then read_i32 else mret (-1));
  md ← read_nullable_str flexible;
  (if flexible then Tagged.read else mret tt);;
  mret {| o_partition_index := i; committed_offset := o; committed_leader_epoch := le;
          committed_metadata := md |}.

Definition read_offset_topic (version : Z) (flexible : bool) : reader Topic :=
  n ← read_str flexible; ps ← read_array flexible (read_offset version flexible);
  (if flexible then Tagged.read else mret tt);;
  mret {| t_name := n; t_partitions := ps |}.

Definition decode_request (version : Z) : reader Request :=
  let flexible := MIN_FLEXIBLE <=? version in
  t ← read_str flexible; g ← read_str flexible; p ← read_i64; e ← read_i16;
  m ← (if 3 <=? version
       then gen ← read_i32; mi ← (a ← read_str flexible; b ← read_nullable_str flexible;
                                   mret (a, b)); mret (gen, mi)
       else mret (-1, (""%string, None)));
  ts ← read_array flexible (read_offset_topic version flexible);
  (if flexible then Tagged.read else mret tt);;
  mret {| transactional_id := t; group_id := g; producer_id := p; producer_epoch := e;
          generation_id := m.1; member_id := m.2.1; group_instance_id := m.2.2;
          topics := ts |}.

Definition encode_response (resp : Response) (version : Z) : enc :=
  let flexible := MIN_FLEXIBLE <=? version in
  write_i32 (throttle_time_ms resp) +++
  write_array (write_topic flexible) (r_topics resp) flexible +++
  when_enc flexible Tagged.write_empty.

Definition decode_response (version : Z) : reader Response :=
  let flexible := MIN_FLEXIBLE <=? version in
  th ← read_i32; rs ← read_array flexible (read_topic flexible);
  (if flexible then Tagged.read else mret tt);;
  mret {| throttle_time_ms := th; r_topics := rs |}.

Definition write_offset (version : Z) (flexible : bool) (p : Partition) : enc :=
  write_i32 (o_partition_index p) +++ write_i64 (committed_offset p) +++
  when_enc (2 <=? version) (write_i32 (committed_leader_epoch p)) +++
  write_nullable_str (committed_metadata p) flexible +++
  when_enc flexible Tagged.write_empty.
Definition write_offset_topic (version : Z) (flexible : bool) (t : Topic) : enc :=
  write_str (t_name t) flexible +++
  write_array (write_offset version flexible) (t_partitions t) flexible +++
  when_enc flexible Tagged.write_empty.
Definition request_wire (req : Request) (version : Z) : enc :=
  let flexible := MIN_FLEXIBLE <=? version in
  write_str (transactional_id req) flexible +++ write_str (group_id req) flexible +++
  write_i64 (producer_id req) +++ write_i16 (producer_epoch req) +++
  when_enc (3 <=? version)
    (write_i32 (generation_id req) +++
     (write_str (member_id req) flexible +++
      write_nullable_str (group_instance_id req) flexible)) +++
  write_array (write_offset_topic version flexible) (topics req) flexible +++
  when_enc flexible Tagged.write_empty.

Definition offset_ok (version : Z) (p : Partition) : Prop :=
  i32_ok (o_partition_index p) ∧ i64_ok (committed_offset p) ∧
  i32_ok (committed_leader_epoch p) ∧
  gated (2 <=? version) (committed_leader_epoch p) (-1) ∧ wire_opt_str (committed_metadata p).
Definition offset_topic_ok (version : Z) (t : Topic) : Prop :=
  wire_str (t_name t) ∧ wire_len (t_partitions t) ∧ Forall (offset_ok version) (t_partitions t).
Definition request_ok (version : Z) (r : Request) : Prop :=
  wire_str (transactional_id r) ∧ wire_str (group_id r) ∧ i64_ok (producer_id r) ∧
  i16_ok (producer_epoch r) ∧ i32_ok (generation_id r) ∧ wire_str (member_id r) ∧
  wire_opt_str (group_instance_id r) ∧
  gated (3 <=? version) (generation_id r, (member_id r, group_instance_id r))
    (-1, (""%string, None)) ∧
  wire_len (topics r) ∧ Forall (offset_topic_ok version) (topics r).
Definition response_ok (version : Z) (r : Response) : Prop :=
  i32_ok (throttle_time_ms r) ∧ wire_len (r_topics r) ∧ Forall topic_ok (r_topics r).

Lemma rt_offset version flexible p :
  offset_ok version p → rt (write_offset version flexible p) (read_offset version flexible) p.
Proof. destruct p. intros (?&?&?&?&?). unfold write_offset, read_offset. codec. Qed.
#[local] Hint Resolve rt_offset : codec.

Lemma rt_offset_topic version flexible t :
  offset_topic_ok version t →
  rt (write_offset_topic version flexible t) (read_offset_topic version flexible) t.
Proof. destruct t. intros (?&?&?). unfold write_offset_topic, read_offset_topic. codec. Qed.
#[local] Hint Resolve rt_offset_topic : codec.

#[global] Instance request_message : Message Request.
Proof.
  refine {| encode := request_wire; decode := decode_request; msg_ok := request_ok |}.
  intros v []. unfold request_ok. simpl. intros (?&?&?&?&?&?&?&?&?&?).
  unfold request_wire, decode_request; cbn [transactional_id group_id producer_id
    producer_epoch generation_id member_id group_instance_id topics].
  codec.
Defined.

#[global] Instance response_message : Message Response.
Proof.
  refine {| encode := encode_response; decode := decode_response; msg_ok := response_ok |}.
  intros v []. unfold response_ok. simpl. intros (?&?&?).
  unfold encode_response, decode_response; cbn [throttle_time_ms r_topics]. codec.
Defined.

End TxnOffsetCommit.

Module WriteTxnMarkers.
Import TopicResults.

Definition VERSIONS : Z * Z := (0, 1).
Definition MIN_FLEXIBLE : Z := 1.
Definition SPEC : ApiSpec := spec_row 27 0 1 MIN_FLEXIBLE.

Record WritableTxnMarker := {
  producer_id : Z; producer_epoch : Z; transaction_result : bool;
  topics : list TopicPartitions.Topic; coordinator_epoch : Z }.
Record Request := { markers : list WritableTxnMarker }.
Record WritableTxnMarkerResult := { r_producer_id : Z; r_topics : list TopicResult }.
Record Response := { r_markers : list WritableTxnMarkerResult }.

Definition read_marker (flexible : bool) : reader WritableTxnMarker :=
  p ← read_i64; e ← read_i16; c ← read_i8;
  ts ← read_array flexible (TopicPartitions.read_topic flexible); ce ← read_i32;
  (if flexible then Tagged.read else mret tt);;
  mret {| producer_id := p; producer_epoch := e; transaction_result := negb (c =? 0);
          topics := ts; coordinator_epoch := ce |}.

Definition decode_request (version : Z) : reader Request :=
  let flexible := MIN_FLEXIBLE <=? version in
  ms ← read_array flexible (read_marker flexible);
  (if flexible then Tagged.read else mret tt);; mret {| markers := ms |}.

Definition write_result (flexible : bool) (m : WritableTxnMarkerResult) : enc :=
  write_i64 (r_producer_id m) +++ write_array (write_topic flexible) (r_topics m) flexible +++
  when_enc flexible Tagged.write_empty.

Definition encode_response (resp : Response) (version : Z) : enc :=
  let flexible := MIN_FLEXIBLE <=? version in
  write_array (write_result flexible) (r_markers resp) flexible +++
  when_enc flexible Tagged.write_empty.

Definition read_result (flexible : bool) : reader WritableTxnMarkerResult :=
  p ← read_i64; ts ← read_array flexible (read_topic flexible);
  (if flexible then Tagged.read else mret tt);;
  mret {| r_producer_id := p; r_topics := ts |}.

Definition decode_response (version : Z) : reader Response :=
  let flexible := MIN_FLEXIBLE <=? version in
  ms ← read_array flexible (read_result flexible);
  (if flexible then Tagged.read else mret tt);; mret {| r_markers := ms |}.

Definition write_marker (flexible : bool) (m : WritableTxnMarker) : enc :=
  write_i64 (producer_id m) +++ write_i16 (producer_epoch m) +++
  write_i8 (if transaction_result m then 1 else 0) +++
  write_array (TopicPartitions.write_topic flexible) (topics m) flexible +++
  write_i32 (coordinator_epoch m) +++ when_enc flexible Tagged.write_empty.
Definition request_wire (req : Request) (version : Z) : enc :=
  let flexible := MIN_FLEXIBLE <=? version in
  write_array (write_marker flexible) (markers req) flexible +++
  when_enc flexible Tagged.write_empty.

Definition marker_ok (m : WritableTxnMarker) : Prop :=
  i64_ok (producer_id m) ∧ i16_ok (producer_epoch m) ∧ wire_len (topics m) ∧
  Forall TopicPartitions.topic_ok (topics m) ∧ i32_ok (coordinator_epoch m).
Definition result_ok (m : WritableTxnMarkerResult) : Prop :=
  i64_ok (r_producer_id m) ∧ wire_len (r_topics m) ∧ Forall topic_ok (r_topics m).
Definition request_ok (version : Z) (r : Request) : Prop :=
  wire_len (markers r) ∧ Forall marker_ok (markers r).
Definition response_ok (version : Z) (r : Response) : Prop :=
  wire_len (r_markers r) ∧ Forall result_ok (r_markers r).

Lemma rt_marker flexible m :
  marker_ok m → rt (write_marker flexible m) (read_marker flexible) m.
Proof.
  destruct m as [p e c ts ce]. intros (?&?&?&?&?). unfold write_marker, read_marker;
    cbn [producer_id producer_epoch transaction_result topics coordinator_epoch] in *.
  do 2 (eapply rt_bind; [by eauto with codec|]; cbn beta).
  destruct c; (eapply rt_bind; [apply rt_i8; unfold i8_ok; lia|]); cbn beta; codec.
Qed.

Lemma rt_result flexible m :
  result_ok m → rt (write_result flexible m) (read_result flexible) m.
Proof. destruct m. intros (?&?&?). unfold write_result, read_result. codec. Qed.
#[local] Hint Resolve rt_marker rt_result : codec.

#[global] Instance request_message : Message Request.
Proof.
  refine {| encode := request_wire; decode := decode_request; msg_ok := request_ok |}.
  intros v []. intros (?&?). unfold request_wire, decode_request; cbn [markers] in *. codec.
Defined.

#[global] Instance response_message : Message Response.
Proof.
  refine {| encode := encode_response; decode := decode_response; msg_ok := response_ok |}.
  intros v []. intros (?&?). unfold encode_response, decode_response; cbn [r_markers] in *. codec.
Defined.

End WriteTxnMarkers.
