(* ===== verification/Protocol.v ===== *)
(** * Connections and dispatch

    [kaas-codec/src/api/registry.rs] (the table of APIs),
    [kaas-protocol/src/frame.rs] (a request frame with its header, a response
    frame with its), [connstate.rs] and [dispatch.rs] (the pre-authentication
    gate, version negotiation and the handler call).

    A handler is a parameter: a function on the connection state and the rest of
    the broker's state [W].  The authentication engines are the map from listener
    names to [requires_pre_auth]. *)

From stdpp Require Import base gmap strings list.
From Stdlib Require Import Strings.Byte Sorting.Sorted.
From S2P Require Import Prelude Primitives Wire ApiData ApiCoord ApiAdmin ApiGroup ApiTxn.

Local Open Scope Z_scope.

(** ** The registry *)

Definition ALL : list ApiSpec := [
  Produce.SPEC;
  Fetch.SPEC;
  ListOffsets.SPEC;
  Metadata.SPEC;
  OffsetCommit.SPEC;
  OffsetFetch.SPEC;
  FindCoordinator.SPEC;
  JoinGroup.SPEC; Heartbeat.SPEC; LeaveGroup.SPEC; SyncGroup.SPEC;
  DescribeGroups.SPEC;
  ListGroups.SPEC;
  SaslHandshake.SPEC;
  InitProducerId.SPEC; AddPartitionsToTxn.SPEC; AddOffsetsToTxn.SPEC; EndTxn.SPEC;
  WriteTxnMarkers.SPEC; TxnOffsetCommit.SPEC;
  SaslAuthenticate.SPEC;
  ApiVersions.SPEC;
  DeleteGroups.SPEC;
  OffsetDelete.SPEC;
  DescribeConfigs.SPEC;
  CreatePartitions.SPEC;
  CreateTopics.SPEC;
  IncrementalAlterConfigs.SPEC;
  DescribeClientQuotas.SPEC;
  AlterClientQuotas.SPEC;
  DeleteTopics.SPEC;
  DeleteRecords.SPEC;
  DescribeAcls.SPEC;
  CreateAcls.SPEC;
  DeleteAcls.SPEC;
  AlterReplicaLogDirs.SPEC;
  DescribeLogDirs.SPEC;
  DescribeCluster.SPEC;
  DescribeUserScramCredentials.SPEC;
  AlterUserScramCredentials.SPEC
].

Definition lookup_api (k : Z) : option ApiSpec := find (λ s, key s =? k) ALL.

(** ** ApiVersions ([api_versions::response_from_registry] and its handler) *)

(** [sort_by_key]: a stable insertion sort on the API key. *)
Fixpoint insert_by_key (e : ApiVersions.ApiVersionEntry) (l : list ApiVersions.ApiVersionEntry) :
    list ApiVersions.ApiVersionEntry :=
  match l with
  | [] => [e]
  | x :: l' =>
    if ApiVersions.api_key e <=? ApiVersions.api_key x then e :: l
    else x :: insert_by_key e l'
  end.

Definition response_from_registry (throttle_time_ms : Z) : ApiVersions.Response :=
  {| ApiVersions.error_code := 0;
     ApiVersions.api_versions :=
       foldr insert_by_key []
         (map (λ s, {| ApiVersions.api_key := key s;
                       ApiVersions.entry_min_version := min_version s;
                       ApiVersions.entry_max_version := max_version s |}) ALL);
     ApiVersions.throttle_time_ms := throttle_time_ms |}.

Definition api_versions_handle (version : Z) (body : list byte) : enc :=
  ApiVersions.encode_response (response_from_registry 0) version.

Lemma insert_by_key_perm l : foldr insert_by_key [] l ≡ₚ l.
Proof.
  assert (∀ e l, insert_by_key e l ≡ₚ e :: l) as Hi.
  { intros e k. induction k as [|x k IH]; simpl; [done|]. case_match; [done|].
    rewrite IH. apply Permutation_swap. }
  induction l as [|e l IH]; simpl; [done|]. by rewrite Hi, IH.
Qed.

(** The keys of the registry are distinct, so a lookup finds a row exactly when
    the registry has it. *)
Lemma lookup_api_row k s : lookup_api k = Some s ↔ s ∈ ALL ∧ key s = k.
Proof.
  assert (NoDup (map key ALL)) as Hnd by (vm_compute; apply (bool_decide_unpack _); exact I).
  unfold lookup_api. revert Hnd. generalize ALL as l.
  induction l as [|x l IH]; simpl; [by split; [|intros [[]%elem_of_nil _]]|].
  intros [Hx Hnd]%NoDup_cons. rewrite elem_of_cons.
  destruct (Z.eqb_spec (key x) k) as [<-|Hne].
  - split; [intros [= <-]; auto|]. intros [[->|Hs] Hk]; [done|].
    destruct Hx. rewrite <- Hk. by apply list_elem_of_fmap_2.
  - rewrite IH by done. naive_solver.
Qed.

Lemma response_from_registry_ok v : ApiVersions.response_ok v (response_from_registry 0).
Proof.
  unfold ApiVersions.response_ok. split_and!; try range; [by vm_compute| |done].
  apply (Forall_impl (λ e, (0 ≤ ApiVersions.api_key e ≤ 60 ∧
    0 ≤ ApiVersions.entry_min_version e ≤ 10) ∧ 0 ≤ ApiVersions.entry_max_version e ≤ 20)).
  - apply (bool_decide_unpack _). vm_compute. exact I.
  - unfold ApiVersions.entry_ok. intros e. range.
Qed.

(** ** Request and response frames *)

Inductive ProtoError :=
| FrameErr (e : FrameError)
| CodecErr (e : codec_error)
| ShortFrame (n : nat).

(** The header version of a request, from its first four bytes: the registry's
    when the version is supported, V1 otherwise. *)
Definition request_header_version (api_key api_version : Z) : HeaderVersion :=
  match lookup_api api_key with
  | Some spec =>
    if (min_version spec <=? api_version) && (api_version <=? max_version spec)
    then request_hdr spec api_version else V1
  | None => V1
  end.

(** [Connection::read_request]: the header, the body, and what is left of the
    stream. *)
Definition read_request (max : Z) (inp : list byte) :
    result ProtoError (RequestHeader * list byte * list byte) :=
  match read_frame_with_limit max inp with
  | Err e => Err (FrameErr e)
  | Ok (frame, rest) =>
    if (length frame <? 4)%nat then Err (ShortFrame (length frame))
    else
      let hv := request_header_version (sbe (slice 0 2 frame)) (sbe (slice 2 2 frame)) in
      match decode_request_header hv frame with
      | Err e => Err (CodecErr e)
      | Ok (h, body) => Ok (h, body, rest)
      end
  end.

(** [Connection::write_response]: the bytes put on the stream. *)
Definition write_response (correlation_id : Z) (body : list byte) (hv : HeaderVersion) :
    option (list byte) :=
  match encode_response_header {| resp_correlation_id := correlation_id |} hv with
  | Ok hdr => write_frame (hdr ++ body)
  | Err _ => None
  end.

(** ** Dispatch *)

Definition ERR_UNSUPPORTED_VERSION : Z := 35.
Definition ERR_CLUSTER_AUTHORIZATION_FAILED : Z := 31.
Definition ERR_SASL_AUTHENTICATION_FAILED : Z := 58.
Definition PRE_AUTH_KEYS : list Z := [17; 18; 36].
Definition is_pre_auth (api_key : Z) : bool := existsb (Z.eqb api_key) PRE_AUTH_KEYS.
Definition SLOT_COUNT : Z := 96.

(** The parts of [ConnState] the dispatcher and the handlers share; the boxed
    SASL exchange and the peer address are not looked at here. *)
Record ConnState := {
  listener_name : string; is_tls : bool; principal : option string;
  sasl_done : bool; sasl_mechanism : option string; session_deadline : option Z }.

Definition ConnState_new (listener : string) : ConnState :=
  {| listener_name := listener; is_tls := false; principal := None;
     sasl_done := false; sasl_mechanism := None; session_deadline := None |}.

Section dispatch.
Context {W : Type}.

Definition handler : Type :=
  ConnState → W → Z → list byte → (ConnState * W) * option (list byte).

Record HandlerSlot := { slot_handler : handler; slot_min : Z; slot_max : Z }.

(** [slots] is a vector of 96 optional slots; [engines] says for each listener
    whether its engine requires authentication first ([None]: no engines). *)
Record Dispatcher := {
  slots : gmap nat HandlerSlot; engines : option (string → bool) }.

Definition Dispatcher_new : Dispatcher := {| slots := ∅; engines := None |}.

(** [None] where the source asserts. *)
Definition register (d : Dispatcher) (api_key lo hi : Z) (h : handler) : option Dispatcher :=
  if (0 <=? api_key) && (api_key <? SLOT_COUNT) && (lo <=? hi) then
    Some {| slots := <[Z.to_nat api_key := {| slot_handler := h; slot_min := lo; slot_max := hi |}]> (slots d);
            engines := engines d |}
  else None.

Definition is_registered (d : Dispatcher) (api_key : Z) : bool :=
  (0 <=? api_key) && bool_decide (is_Some (slots d !! Z.to_nat api_key)).

Definition response_header_version (spec : option ApiSpec) (version : Z) : HeaderVersion :=
  match spec with Some s => response_hdr s version | None => V0 end.

Definition error_body (spec : option ApiSpec) (api_version code : Z) :
    list byte * HeaderVersion :=
  (be 2 code, response_header_version spec api_version).

(** The pre-authentication gate: the error it answers with, if any. *)
Definition gate (d : Dispatcher) (now : Z) (cs : ConnState) (api_key : Z) : option Z :=
  match engines d with
  | None => None
  | Some requires_pre_auth =>
    let expired := match session_deadline cs with Some t => t <=? now | None => false end in
    if requires_pre_auth (listener_name cs) && negb (sasl_done cs) && negb (is_pre_auth api_key)
    then Some ERR_CLUSTER_AUTHORIZATION_FAILED
    else if expired && negb (is_pre_auth api_key)
    then Some ERR_SASL_AUTHENTICATION_FAILED
    else None
  end.

Definition dispatch (d : Dispatcher) (now : Z) (cs : ConnState) (w : W)
    (header : RequestHeader) (body : list byte) :
    (ConnState * W) * (list byte * HeaderVersion) :=
  let k := api_key header in
  let spec := lookup_api k in
  let error code := ((cs, w), error_body spec (api_version header) code) in
  match gate d now cs k with
  | Some code => error code
  | None =>
    if (0 <=? k) && (k <? SLOT_COUNT) then
      match slots d !! Z.to_nat k with
      | None => error ERR_UNSUPPORTED_VERSION
      | Some slot =>
        let out_of_range :=
          (api_version header <? slot_min slot) || (slot_max slot <? api_version header) in
        if out_of_range && negb (k =? 18) then error ERR_UNSUPPORTED_VERSION
        else
          let version := if out_of_range then slot_max slot else api_version header in
          match slot_handler slot cs w version body with
          | (st, Some resp) => (st, (resp, response_header_version spec version))
          | (st, None) => (st, error_body spec (api_version header) ERR_UNSUPPORTED_VERSION)
          end
      end
    else error ERR_UNSUPPORTED_VERSION
  end.

End dispatch.
Arguments handler : clear implicits.
Arguments HandlerSlot : clear implicits.
Arguments Dispatcher : clear implicits.

(** ** Lemmas *)

Lemma ALL_keys_nodup : NoDup (key <$> ALL).
Proof. apply (bool_decide_unpack _). vm_compute. exact I. Qed.

(** A frame written for [body] is read back whole under a limit it fits. *)
Lemma read_written_frame max body bs rest :
  write_frame body = Some bs → Z.of_nat (length body) ≤ max →
  read_frame_with_limit max (bs ++ rest) = Ok (body, rest).
Proof.
  unfold write_frame. destruct (Z.leb_spec (Z.of_nat (length body)) i32_max); [|done].
  intros <-%(inj Some) Hm. unfold read_frame_with_limit, read_exact.
  rewrite !length_app, length_be. cbn [Nat.leb Nat.add].
  rewrite <- app_assoc, take_app_length', drop_app_length' by (by rewrite length_be).
  rewrite sbe_be by (unfold i32_max in *; change (2 ^ (8 * Z.of_nat 4 - 1)) with 2147483648; lia).
  destruct (Z.ltb_spec (Z.of_nat (length body)) 0); [lia|].
  destruct (Z.ltb_spec max (Z.of_nat (length body))); [lia|].
  rewrite Nat2Z.id, length_app.
  destruct (Nat.leb_spec (length body) (length body + length rest)); [|lia].
  by rewrite take_app_length, drop_app_length.
Qed.

(** A request header starts with its key and its version. *)
Lemma request_header_prefix h v hb :
  encode_request_header h v = Ok hb →
  ∃ t, hb = be 2 (api_key h) ++ be 2 (api_version h) ++ t ∧ (4 ≤ length t)%nat.
Proof.
  unfold encode_request_header, write_i16, write_i32.
  destruct (when_enc _ _ +++ when_enc _ _) as [t|] eqn:E; [|done].
  unfold seq_enc. intros <-%(inj Ok). exists (be 4 (correlation_id h) ++ t).
  split; [done|]. rewrite length_app, length_be. lia.
Qed.

(** The version a request is decoded at is the registered one. *)
Lemma request_header_version_ok h spec :
  lookup_api (api_key h) = Some spec →
  min_version spec ≤ api_version h ≤ max_version spec →
  request_header_version (api_key h) (api_version h) = request_hdr spec (api_version h).
Proof.
  unfold request_header_version. intros -> [H1 H2].
  by destruct (Z.leb_spec (min_version spec) (api_version h)),
    (Z.leb_spec (api_version h) (max_version spec)); try lia.
Qed.

(** Every handler slot has a non-empty version range: [register] asserts it. *)
Definition slots_ok {W} (d : Dispatcher W) : Prop :=
  ∀ k s, slots d !! k = Some s → slot_min s ≤ slot_max s.

Lemma register_slots_ok {W} (d d' : Dispatcher W) k lo hi h :
  slots_ok d → register d k lo hi h = Some d' → slots_ok d'.
Proof.
  unfold register. intros Hd Hr. destruct (Z.leb_spec lo hi); [|by rewrite andb_false_r in Hr].
  case_match; [|done]. injection Hr as <-. intros j s. simpl.
  rewrite lookup_insert_Some. intros [[_ <-]|[_ Hs]]; simpl; [done|by eapply Hd].
Qed.

(** ** Properties *)

(** A client that frames a request header and a well-formed message of any
    registered API, at a version the registry supports, is understood: the
    broker finds the right header version from the first four bytes, recovers
    the header and the message exactly, and leaves the next frame untouched. *)
Theorem request_received `{Message M} max h spec (m : M) body bs rest :
  lookup_api (api_key h) = Some spec →
  min_version spec ≤ api_version h ≤ max_version spec →
  header_ok h (request_hdr spec (api_version h)) → msg_ok (api_version h) m →
  encode_request_header h (request_hdr spec (api_version h)) +++ encode m (api_version h) = Ok body →
  Z.of_nat (length body) ≤ max → write_frame body = Some bs →
  ∃ mb, read_request max (bs ++ rest) = Ok (h, mb, rest) ∧ decode (api_version h) mb = Ok (m, []).
Proof.
  intros Hs Hv Hh Hm He Hmax Hw.
  destruct (rt_request_header _ _ Hh) as (hb & Hhb & Hhr).
  destruct (msg_rt _ _ Hm) as (mb & Hmb & Hmr). exists mb.
  split; [|by rewrite <- (app_nil_r mb); apply Hmr].
  rewrite Hhb, Hmb in He. unfold seq_enc in He. apply (inj Ok) in He as <-.
  unfold read_request. rewrite (read_written_frame _ _ _ _ Hw Hmax).
  destruct (request_header_prefix _ _ _ Hhb) as (t & -> & Ht).
  rewrite <- !app_assoc. unfold slice.
  rewrite drop_0, take_app_length' by (by rewrite length_be).
  rewrite (drop_app_length' (be 2 (api_key h))), take_app_length' by (by rewrite length_be).
  destruct Hh as (Hk & Hav & _). unfold i16_ok in *.
  rewrite !sbe_be by (change (2 ^ (8 * Z.of_nat 2 - 1)) with 32768; lia).
  rewrite (request_header_version_ok h spec) by done.
  rewrite !app_assoc. rewrite <- (app_assoc (be 2 (api_key h))), Hhr.
  rewrite !length_app, !length_be. by destruct (Nat.ltb_spec (2 + (2 + length t) + length mb) 4); [lia|].
Qed.

(** An InitProducerId v4 request on the wire. *)
Definition demo_header : RequestHeader :=
  {| api_key := 22; api_version := 4; correlation_id := 7; client_id := Some "c"%string |}.
Definition demo_request : InitProducerId.Request :=
  {| InitProducerId.transactional_id := Some "tx"%string;
     InitProducerId.transaction_timeout_ms := 60000;
     InitProducerId.producer_id := -1; InitProducerId.producer_epoch := -1 |}.

Lemma request_received_witness :
  ∃ bs mb, read_request 100 (bs ++ []) = Ok (demo_header, mb, []) ∧
    InitProducerId.decode_request 4 mb = Ok (demo_request, []).
Proof.
  eexists _. eapply (request_received (H := InitProducerId.request_message) 100 demo_header
    InitProducerId.SPEC demo_request); try (vm_compute; reflexivity).
  - vm_compute. split; discriminate.
  - unfold header_ok, Common.wire_opt_str, Common.wire_str, demo_header; simpl.
    unfold i16_ok, i32_ok. repeat split; try lia; try done;
      match goal with H : Some _ = Some _ |- _ => injection H as <- end;
      vm_compute; congruence.
  - unfold demo_request; simpl. unfold InitProducerId.request_ok, Common.wire_opt_str,
      Common.wire_str, i32_ok, i64_ok, i16_ok; simpl.
    repeat split; try lia; try done;
      match goal with H : Some _ = Some _ |- _ => injection H as <- end;
      vm_compute; congruence.
  - vm_compute. discriminate.
Defined.

(** The pre-authentication gate isolates the broker: on a listener that
    requires authentication, an unauthenticated connection gets the same answer
    and leaves the same state whatever handlers are registered for the other
    APIs, and a request for one of those changes nothing at all. *)
Theorem unauthenticated_isolated {W} (d1 d2 : Dispatcher W) req now cs w h body :
  engines d1 = Some req → engines d2 = Some req →
  (∀ k, is_pre_auth k = true → slots d1 !! Z.to_nat k = slots d2 !! Z.to_nat k) →
  req (listener_name cs) = true → sasl_done cs = false →
  dispatch d1 now cs w h body = dispatch d2 now cs w h body ∧
  (is_pre_auth (api_key h) = false →
   dispatch d1 now cs w h body =
     ((cs, w), error_body (lookup_api (api_key h)) (api_version h) ERR_CLUSTER_AUTHORIZATION_FAILED)).
Proof.
  intros He1 He2 Hag Hreq Hsasl. unfold dispatch, gate. rewrite He1, He2, Hreq, Hsasl.
  destruct (is_pre_auth (api_key h)) eqn:Hp; simpl; [|done].
  rewrite andb_false_r, Hag by done. done.
Qed.

(** A broker with one handler, behind a listener that requires SASL. *)
Definition demo_dispatcher : Dispatcher unit :=
  {| slots := {[ 22%nat := {| slot_handler := λ cs _ _ _, ((cs, tt), None);
                              slot_min := 0; slot_max := 4 |} ]};
     engines := Some (λ _, true) |}.

Lemma unauthenticated_isolated_witness :
  dispatch demo_dispatcher 0 (ConnState_new "sasl") tt demo_header [] =
  ((ConnState_new "sasl", tt), error_body (lookup_api 22) 4 ERR_CLUSTER_AUTHORIZATION_FAILED).
Proof.
  refine (proj2 (unauthenticated_isolated demo_dispatcher
    {| slots := ∅; engines := Some (λ _, true) |}
    (λ _, true) 0 (ConnState_new "sasl") tt demo_header [] eq_refl eq_refl _ eq_refl eq_refl) eq_refl).
  intros k Hk. unfold is_pre_auth in Hk. simpl in Hk.
  destruct (Z.eqb_spec k 17), (Z.eqb_spec k 18), (Z.eqb_spec k 36); try done; by subst.
Defined.

(** A handler runs only at a version its registration allows: whatever
    version a client sends, either the state is left as it was and the body is
    an UNSUPPORTED_VERSION or authentication error, or the registered handler of
    that key was called with a version in its range, which is the client's own
    unless the API is ApiVersions. *)
Theorem dispatch_version_range {W} (d : Dispatcher W) now cs w h body :
  slots_ok d →
  (∃ code, code ∈ [35; 31; 58] ∧
    dispatch d now cs w h body = ((cs, w), error_body (lookup_api (api_key h)) (api_version h) code)) ∨
  (∃ slot version, slots d !! Z.to_nat (api_key h) = Some slot ∧ gate d now cs (api_key h) = None ∧
    slot_min slot ≤ version ≤ slot_max slot ∧ (version = api_version h ∨ api_key h = 18) ∧
    (dispatch d now cs w h body).1 = (slot_handler slot cs w version body).1).
Proof.
  intros Hd. unfold dispatch.
  destruct (gate d now cs (api_key h)) as [code|] eqn:Hg.
  { left. exists code. split; [|done]. revert Hg. unfold gate.
    repeat case_match; intros [= <-]; set_solver. }
  destruct ((0 <=? api_key h) && (api_key h <? SLOT_COUNT)); [|left; exists 35; set_solver].
  destruct (slots d !! Z.to_nat (api_key h)) as [slot|] eqn:Hs; [|left; exists 35; set_solver].
  pose proof (Hd _ _ Hs).
  set (oor := (api_version h <? slot_min slot) || (slot_max slot <? api_version h)).
  destruct (oor && negb (api_key h =? 18)) eqn:Ho; [left; exists 35; set_solver|].
  right. exists slot, (if oor then slot_max slot else api_version h).
  split; [done|]. split; [done|].
  subst oor. split; [|split].
  - case_match; lia.
  - case_match; [right|by left]. lia.
  - by destruct (slot_handler _ _ _ _ _) as [? []].
Qed.

Lemma dispatch_version_range_witness :
  (∃ code, code ∈ [35; 31; 58] ∧
    dispatch demo_dispatcher 0 (ConnState_new "sasl") tt demo_header [] =
      ((ConnState_new "sasl", tt), error_body (lookup_api (api_key demo_header)) (api_version demo_header) code)) ∨
  (∃ slot version, slots demo_dispatcher !! Z.to_nat (api_key demo_header) = Some slot ∧
    gate demo_dispatcher 0 (ConnState_new "sasl") (api_key demo_header) = None ∧
    slot_min slot ≤ version ≤ slot_max slot ∧
    (version = api_version demo_header ∨ api_key demo_header = 18) ∧
    (dispatch demo_dispatcher 0 (ConnState_new "sasl") tt demo_header []).1 =
      (slot_handler slot (ConnState_new "sasl") tt version []).1).
Proof.
  apply dispatch_version_range. intros k s. unfold demo_dispatcher; simpl.
  rewrite lookup_singleton_Some. intros [_ <-]. simpl. lia.
Defined.

(** Every API whose [response_hdr] is the request's [header_for] answers its
    legacy (non-flexible) versions with a v1 response header: five bytes ending
    in an empty tagged-field block, where a legacy client expects the four bytes
    of the correlation id.  Only keys 17, 18, 34, 35 and 47 answer legacy
    versions with a v0 header. *)
Theorem legacy_response_header_tagged spec version c :
  spec ∈ ALL → min_version spec ≤ version ≤ max_version spec →
  is_flexible spec version = false → key spec ∉ [17; 18; 34; 35; 47] →
  response_hdr spec version = V1 ∧
  encode_response_header {| resp_correlation_id := c |} (response_hdr spec version) =
    Ok (be 4 c ++ [x00]).
Proof.
  intros Hin Hv Hf Hk.
  assert (response_hdr spec version = V1) as ->; [|done].
  unfold ALL in Hin. rewrite list_elem_of_In in Hin. simpl in Hin.
  repeat destruct Hin as [<-|Hin]; try done; simpl in *;
    unfold is_flexible, header_from in *; simpl in *;
    try (by rewrite Hf); set_solver.
Qed.

Lemma legacy_response_header_tagged_witness :
  encode_response_header {| resp_correlation_id := 7 |} (response_hdr InitProducerId.SPEC 1) =
    Ok [x00; x00; x00; x07; x00].
Proof.
  refine (proj2 (legacy_response_header_tagged InitProducerId.SPEC 1 7 _ _ _ _)).
  - unfold ALL. set_solver.
  - simpl. lia.
  - reflexivity.
  - simpl. set_solver.
Defined.

(** What a client learns from ApiVersions is the registry: at each version
    the handler answers whatever the body, the answer decodes, and it advertises
    a version range for a key exactly when the registry has that row; the keys
    are in increasing order. *)
Theorem api_versions_advertises_registry v body :
  ∃ bs resp, api_versions_handle v body = Ok bs ∧
    ApiVersions.decode_response v bs = Ok (resp, []) ∧
    ApiVersions.error_code resp = 0 ∧
    (∀ k lo hi,
       (∃ s, lookup_api k = Some s ∧ min_version s = lo ∧ max_version s = hi) ↔
       {| ApiVersions.api_key := k; ApiVersions.entry_min_version := lo;
          ApiVersions.entry_max_version := hi |} ∈ ApiVersions.api_versions resp) ∧
    StronglySorted Z.lt (map ApiVersions.api_key (ApiVersions.api_versions resp)).
Proof.
  destruct (msg_rt v (response_from_registry 0)) as (bs & He & Hd).
  { by apply response_from_registry_ok. }
  exists bs, (response_from_registry 0). split_and!; [done| |done| |].
  - rewrite <- (app_nil_r bs). apply Hd.
  - intros k lo hi. cbn [response_from_registry ApiVersions.api_versions].
    rewrite insert_by_key_perm, list_elem_of_fmap. setoid_rewrite lookup_api_row. split.
    + intros (s & [Hs <-] & <- & <-). by exists s.
    + intros (s & [= -> -> ->] & Hs). by exists s.
  - vm_compute. repeat constructor.
Qed.
