(* ===== verification/Idempotence.v ===== *)
(** * Idempotent producers ([kaas-storage/src/idempotence.rs])

    The header peeks ([parse_batch_producer_info], [parse_batch_txn_info]), the
    per-producer window of the five last batches, the pure classifier and the
    operations of [ProducerStates].  The step relation [idem_step] interleaves
    produce requests and fences the way the partition does (classify, append,
    record); its traces carry the log of accepted batches, over which
    exactly-once is stated. *)

From stdpp Require Import base gmap strings list numbers.
From Stdlib Require Import Strings.Byte.
From S2P Require Import Prelude.

Local Open Scope Z_scope.

Definition RING_SIZE : nat := 5.

Record RecentBatch := { first_seq : Z; last_seq : Z; base_offset : Z }.

Record ProducerEntry := { epoch : Z; recent : list RecentBatch }.

(** [ProducerEntry::default()]. *)
Definition default_entry : ProducerEntry := {| epoch := 0; recent := [] |}.

Record BatchProducerInfo := {
  producer_id : Z; info_epoch : Z; info_first_seq : Z; info_last_seq : Z }.

Inductive Outcome :=
| NotIdempotent
| Accept
| Duplicate (base_offset : Z)
| OutOfOrder
| InvalidEpoch.

#[global] Instance RecentBatch_eq_dec : EqDecision RecentBatch.
Proof. solve_decision. Defined.
#[global] Instance ProducerEntry_eq_dec : EqDecision ProducerEntry.
Proof. solve_decision. Defined.
#[global] Instance BatchProducerInfo_eq_dec : EqDecision BatchProducerInfo.
Proof. solve_decision. Defined.
#[global] Instance Outcome_eq_dec : EqDecision Outcome.
Proof. solve_decision. Defined.

(** ** Header peeks *)

Inductive IdempotenceParseError := BatchTooShort (got : nat).

Definition parse_batch_producer_info (raw : list byte) :
    result IdempotenceParseError BatchProducerInfo :=
  if (length raw <? 57)%nat then Err (BatchTooShort (length raw))
  else
    let last_offset_delta := sbe (slice 23 4 raw) in
    let base_seq := sbe (slice 53 4 raw) in
    Ok {| producer_id := sbe (slice 43 8 raw); info_epoch := sbe (slice 51 2 raw);
          info_first_seq := base_seq;
          info_last_seq := wrapping_add32 base_seq last_offset_delta |}.

Record BatchTxnInfo := {
  is_transactional : bool; is_control : bool; txn_producer_id : Z;
  control_commit : option bool }.

Definition parse_batch_txn_info (raw : list byte) : option BatchTxnInfo :=
  if (length raw <? 57)%nat then None
  else
    let attrs := sbe (slice 21 2 raw) in
    let control := negb (Z.land attrs 0x20 =? 0) in
    Some {| is_transactional := negb (Z.land attrs 0x10 =? 0);
            is_control := control;
            txn_producer_id := sbe (slice 43 8 raw);
            control_commit :=
              if control then
                if (length raw <=? 69)%nat then None
                else Some (sbe (slice 68 2 raw) =? 1)
              else None |}.

(** ** The classifier *)

Definition same_range (info : BatchProducerInfo) (rb : RecentBatch) : bool :=
  (first_seq rb =? info_first_seq info) && (last_seq rb =? info_last_seq info).

(** A first batch must start at sequence 0. *)
Definition fresh_start (info : BatchProducerInfo) : Outcome :=
  if info_first_seq info =? 0 then Accept else OutOfOrder.

Definition classify (states : gmap Z ProducerEntry) (info : BatchProducerInfo) : Outcome :=
  if producer_id info <? 0 then NotIdempotent
  else if info_first_seq info <? 0 then NotIdempotent
  else match states !! producer_id info with
  | None => fresh_start info
  | Some entry =>
    if epoch entry <? info_epoch info then fresh_start info
    else if info_epoch info <? epoch entry then InvalidEpoch
    else match find (same_range info) (recent entry) with
    | Some rb => Duplicate (base_offset rb)
    | None =>
      match last (recent entry) with
      | None => fresh_start info
      | Some l =>
        if info_first_seq info =? wrapping_add32 (last_seq l) 1 then Accept else OutOfOrder
      end
    end
  end.

(** The entry after an accepted batch. *)
Definition advance (entry : ProducerEntry) (info : BatchProducerInfo) (offset : Z) : ProducerEntry :=
  let entry :=
    if epoch entry <? info_epoch info then {| epoch := info_epoch info; recent := [] |} else entry in
  {| epoch := epoch entry;
     recent := keep_last RING_SIZE
       (recent entry ++ [{| first_seq := info_first_seq info; last_seq := info_last_seq info;
                            base_offset := offset |}]) |}.

Definition record_accepted (states : gmap Z ProducerEntry) (info : BatchProducerInfo)
    (offset : Z) : gmap Z ProducerEntry :=
  let entry := default default_entry (states !! producer_id info) in
  <[producer_id info := advance entry info offset]> states.

(** [ProducerStates::fence]: the entry is created if it is missing. *)
Definition fence (states : gmap Z ProducerEntry) (pid new_epoch : Z) : gmap Z ProducerEntry :=
  let entry := default default_entry (states !! pid) in
  <[pid := if epoch entry <? new_epoch then {| epoch := new_epoch; recent := [] |} else entry]>
    states.

Definition snapshot (states : gmap Z ProducerEntry) : list (Z * ProducerEntry) :=
  map_to_list states.

(** [restore]: clear, then insert in order (a later entry wins). *)
Definition restore (entries : list (Z * ProducerEntry)) : gmap Z ProducerEntry := collect entries.

(** ** Traces

    The partition holds its mutex from [classify] to [record_accepted], so a
    history is a sequence of produce attempts (with the offset the log gives an
    accepted batch) and fences. *)

Inductive event :=
| Produce (info : BatchProducerInfo) (offset : Z)
| Fence (pid new_epoch : Z).

Abbreviation history := (list (BatchProducerInfo * Z)).

Inductive idem_step : gmap Z ProducerEntry * history → event → gmap Z ProducerEntry * history → Prop :=
| step_accept st h info o :
    classify st info = Accept →
    idem_step (st, h) (Produce info o) (record_accepted st info o, h ++ [(info, o)])
| step_reject st h info o :
    classify st info ≠ Accept → idem_step (st, h) (Produce info o) (st, h)
| step_fence st h pid e :
    idem_step (st, h) (Fence pid e) (fence st pid e, h).

Inductive idem_trace : gmap Z ProducerEntry * history → list event → gmap Z ProducerEntry * history → Prop :=
| trace_nil s : idem_trace s [] s
| trace_snoc s es s' e s'' :
    idem_trace s es s' → idem_step s' e s'' → idem_trace s (es ++ [e]) s''.

(** What a producer sends: epochs are not negative and the sequence range of a
    batch is not empty and does not run past [i32::MAX]. *)
Definition event_ok (e : event) : Prop :=
  match e with
  | Produce info _ =>
    0 ≤ info_epoch info ∧ info_first_seq info ≤ info_last_seq info ≤ i32_max
  | Fence _ _ => True
  end.

(** The accepted batches of one producer session. *)
Definition session (pid e : Z) (h : history) : history :=
  filter (λ x, producer_id x.1 = pid ∧ info_epoch x.1 = e) h.

Definition to_recent (x : BatchProducerInfo * Z) : RecentBatch :=
  {| first_seq := info_first_seq x.1; last_seq := info_last_seq x.1; base_offset := x.2 |}.

(** The record sequence numbers of a batch. *)
Definition seqs (x : BatchProducerInfo * Z) : list Z :=
  seqZ (info_first_seq x.1) (info_last_seq x.1 - info_first_seq x.1 + 1).

Definition end_seq (l : history) : Z :=
  match last l with Some x => info_last_seq x.1 + 1 | None => 0 end.

(** ** Invariants *)

Definition batch_ok (x : BatchProducerInfo * Z) : Prop :=
  0 ≤ info_first_seq x.1 ≤ info_last_seq x.1 ∧ info_last_seq x.1 ≤ i32_max.

(** The sequence numbers of a session's batches, in order, are 0, 1, 2, ... *)
Definition session_ok (l : history) : Prop :=
  Forall batch_ok l ∧ l ≫= seqs = seqZ 0 (end_seq l).

Definition entry_ok (h : history) (pid : Z) (o : option ProducerEntry) : Prop :=
  match o with
  | None => ∀ e, session pid e h = []
  | Some en =>
    (∀ e, epoch en < e → session pid e h = []) ∧
    recent en = keep_last RING_SIZE (to_recent <$> session pid (epoch en) h)
  end.

Definition idem_inv (s : gmap Z ProducerEntry * history) : Prop :=
  (∀ pid, entry_ok s.2 pid (s.1 !! pid)) ∧ (∀ pid e, session_ok (session pid e s.2)).

Lemma end_seq_nonneg l : Forall batch_ok l → 0 ≤ end_seq l.
Proof.
  intros H. unfold end_seq. destruct (last l) as [x|] eqn:E; [|done].
  apply last_Some_elem_of in E. rewrite Forall_forall in H.
  destruct (H x E). lia.
Qed.

Lemma session_ok_nil : session_ok [].
Proof. split; [constructor|done]. Qed.

Lemma session_ok_snoc l x :
  session_ok l → batch_ok x → info_first_seq x.1 = end_seq l → session_ok (l ++ [x]).
Proof.
  intros [Hf Hs] [Hx ?] Heq. pose proof (end_seq_nonneg l Hf). split.
  { apply Forall_app. split; [done|]. apply Forall_singleton. by split. }
  rewrite bind_app, Hs. unfold end_seq at 2. rewrite last_snoc.
  simpl. rewrite app_nil_r. unfold seqs. rewrite Heq.
  replace (info_last_seq x.1 + 1) with (end_seq l + (info_last_seq x.1 - end_seq l + 1)) by lia.
  by rewrite (seqZ_app 0) by lia.
Qed.

Lemma session_snoc_same pid e h info o :
  producer_id info = pid → info_epoch info = e →
  session pid e (h ++ [(info, o)]) = session pid e h ++ [(info, o)].
Proof.
  intros <- <-. unfold session. rewrite filter_app. f_equal. by rewrite filter_cons_True.
Qed.

Lemma session_snoc_other pid e h info o :
  producer_id info ≠ pid ∨ info_epoch info ≠ e →
  session pid e (h ++ [(info, o)]) = session pid e h.
Proof.
  intros H. unfold session. rewrite filter_app, filter_cons_False, filter_nil, app_nil_r; [done|].
  simpl. naive_solver.
Qed.

Lemma keep_last_keep {A} n (l : list A) x :
  (0 < n)%nat → keep_last n (keep_last n l ++ [x]) = keep_last n (l ++ [x]).
Proof.
  intros Hn. unfold keep_last. rewrite !length_app, length_drop. simpl.
  destruct (decide (length l ≤ n)%nat).
  - replace (length l - n)%nat with 0%nat by lia. rewrite drop_0. f_equal. lia.
  - rewrite !drop_app_le; [|rewrite ?length_drop; lia..].
    rewrite drop_drop. do 2 f_equal. lia.
Qed.

Lemma keep_last_nil {A} n (l : list A) : (0 < n)%nat → keep_last n l = [] → l = [].
Proof.
  intros Hn H. apply length_zero_iff_nil. apply (f_equal length) in H.
  rewrite length_keep_last in H. simpl in H. lia.
Qed.

Lemma last_keep_last {A} n (l : list A) : (0 < n)%nat → last (keep_last n l) = last l.
Proof.
  intros Hn. unfold keep_last. destruct l as [|x l' _] using rev_ind; [done|].
  rewrite length_app, drop_app_le by (simpl; lia). by rewrite !last_snoc.
Qed.

Lemma wrapping_add32_succ z : 0 ≤ z < i32_max → wrapping_add32 z 1 = z + 1.
Proof. intros. unfold wrapping_add32. apply wrap_s_small; unfold i32_max in *; simpl; lia. Qed.

(** A window is the tail of its session, so its last element is the session's. *)
Lemma window_end l :
  Forall batch_ok l →
  match last (keep_last RING_SIZE (to_recent <$> l)) with
  | Some rb => l ≠ [] ∧ end_seq l = last_seq rb + 1 ∧ 0 ≤ last_seq rb ≤ i32_max
  | None => l = []
  end.
Proof.
  intros Hf. rewrite last_keep_last by (unfold RING_SIZE; lia). rewrite fmap_last.
  unfold end_seq. destruct (last l) as [x|] eqn:E; simpl.
  - apply last_Some_elem_of in E as Hin. rewrite Forall_forall in Hf.
    destruct (Hf x Hin). split; [by intros ->|]. lia.
  - by apply last_None.
Qed.

(** An accepted batch continues its session where it stopped. *)
Lemma accept_continues st h info :
  idem_inv (st, h) → 0 ≤ info_epoch info → classify st info = Accept →
  0 ≤ producer_id info ∧ 0 ≤ info_first_seq info ∧
  (info_first_seq info = end_seq (session (producer_id info) (info_epoch info) h) ∨
   info_first_seq info = wrapping_add32 i32_max 1) ∧
  (∀ en, st !! producer_id info = Some en → epoch en ≤ info_epoch info).
Proof.
  intros [Hent Hok] He. unfold classify, fresh_start. specialize (Hent (producer_id info)).
  simpl in *. destruct (Z.ltb_spec (producer_id info) 0); [done|].
  destruct (Z.ltb_spec (info_first_seq info) 0); [done|].
  intros Hc. split; [done|]. split; [done|].
  destruct (st !! producer_id info) as [en|] eqn:Hst; simpl in *.
  - destruct Hent as [Hgt Hrec].
    destruct (Z.ltb_spec (epoch en) (info_epoch info)).
    { rewrite Hgt by lia. destruct (Z.eqb_spec (info_first_seq info) 0); [|done].
      split; [by left|]. intros ? [= ->]. lia. }
    destruct (Z.ltb_spec (info_epoch info) (epoch en)); [done|].
    assert (info_epoch info = epoch en) as -> by lia.
    split; [|intros ? [= ->]; lia].
    destruct (find _ _); [done|]. rewrite Hrec in Hc.
    pose proof (window_end _ (proj1 (Hok (producer_id info) (epoch en)))) as Hw.
    destruct (last _) as [rb|].
    + destruct Hw as (_ & Hend & Hr). rewrite Hend.
      destruct (Z.eqb_spec (info_first_seq info) (wrapping_add32 (last_seq rb) 1)) as [->|]; [|done].
      destruct (decide (last_seq rb = i32_max)) as [->|]; [by right|].
      left. apply wrapping_add32_succ. lia.
    + rewrite Hw. destruct (Z.eqb_spec (info_first_seq info) 0); [by left|done].
  - split; [|done]. rewrite Hent. destruct (Z.eqb_spec (info_first_seq info) 0); [by left|done].
Qed.

Lemma accept_entry_ok st h info o :
  idem_inv (st, h) → 0 ≤ info_epoch info → classify st info = Accept →
  entry_ok (h ++ [(info, o)]) (producer_id info)
    (Some (advance (default default_entry (st !! producer_id info)) info o)).
Proof.
  intros Hinv He Hc. destruct (accept_continues _ _ _ Hinv He Hc) as (_ & _ & _ & Hle).
  destruct Hinv as [Hent _]. specialize (Hent (producer_id info)). simpl in Hent.
  set (en := default default_entry (st !! producer_id info)).
  assert (epoch en ≤ info_epoch info ∧
    (∀ e, epoch en < e → session (producer_id info) e h = []) ∧
    recent en = keep_last RING_SIZE (to_recent <$> session (producer_id info) (epoch en) h))
    as (Hle' & Hgt & Hrec).
  { subst en. destruct (st !! producer_id info) as [en|] eqn:Hst; simpl in *.
    - split; [by apply Hle|]. done.
    - split; [done|]. by rewrite Hent. }
  unfold advance. destruct (Z.ltb_spec (epoch en) (info_epoch info)) as [Hlt|Hge]; simpl.
  - split.
    + intros e Hgt'. rewrite session_snoc_other by (right; lia). apply Hgt. lia.
    + rewrite session_snoc_same, Hgt by (done || lia). done.
  - assert (epoch en = info_epoch info) as Heq by lia. split.
    + intros e Hgt'. rewrite session_snoc_other by (right; lia). by apply Hgt.
    + rewrite session_snoc_same by done. rewrite fmap_app, Hrec. apply keep_last_keep. unfold RING_SIZE. lia.
Qed.

Lemma idem_step_inv s e s' : idem_inv s → event_ok e → idem_step s e s' → idem_inv s'.
Proof.
  intros Hinv Hok Hstep. destruct Hstep as [st h info o Hc|st h info o Hc|st h pid e].
  - destruct Hok as [He [Hseq Hmax]].
    destruct (accept_continues _ _ _ Hinv He Hc) as (Hp & H0 & Hfs & _).
    assert (info_first_seq info = end_seq (session (producer_id info) (info_epoch info) h)) as Hend.
    { destruct Hfs as [?|Hw]; [done|]. exfalso.
      change (wrapping_add32 i32_max 1) with (-2147483648) in Hw. lia. }
    split; simpl.
    + intros pid. destruct (decide (pid = producer_id info)) as [->|Hne].
      * unfold record_accepted. rewrite lookup_insert_eq. by apply accept_entry_ok.
      * unfold record_accepted. rewrite lookup_insert_ne by done.
        destruct Hinv as [Hent _]. specialize (Hent pid). simpl in Hent.
        destruct (st !! pid) as [en|]; simpl in *.
        -- split; intros; rewrite session_snoc_other by (left; congruence); by apply Hent.
        -- intros e. rewrite session_snoc_other by (left; congruence). apply Hent.
    + intros pid e. destruct Hinv as [_ Hs].
      destruct (decide (producer_id info = pid ∧ info_epoch info = e)) as [[<- <-]|Hne].
      * rewrite session_snoc_same by done. apply session_ok_snoc; [apply Hs| |done].
        split; simpl; lia.
      * rewrite session_snoc_other by (destruct (decide (producer_id info = pid)); naive_solver).
        apply Hs.
  - done.
  - destruct Hinv as [Hent Hs]. split; [|apply Hs]. simpl in *.
    intros pid'. unfold fence. destruct (decide (pid = pid')) as [->|Hne].
    + rewrite lookup_insert_eq. specialize (Hent pid').
      set (en := default default_entry (st !! pid')).
      assert ((∀ e, epoch en < e → session pid' e h = []) ∧
        recent en = keep_last RING_SIZE (to_recent <$> session pid' (epoch en) h)) as [Hgt Hrec].
      { subst en. destruct (st !! pid'); simpl in *; [done|]. by rewrite Hent. }
      destruct (Z.ltb_spec (epoch en) e); simpl; [|done]. split.
      * intros e' ?. apply Hgt. lia.
      * by rewrite Hgt by lia.
    + by rewrite lookup_insert_ne.
Qed.

Lemma idem_inv_init : idem_inv (∅, []).
Proof. split; [|intros; apply session_ok_nil]. intros pid. simpl. by rewrite lookup_empty. Qed.

Lemma idem_trace_inv s es s' :
  idem_inv s → Forall event_ok es → idem_trace s es s' → idem_inv s'.
Proof.
  intros Hs Hes Ht. induction Ht as [|s es s' e s'' _ IH Hstep]; [done|].
  apply Forall_app in Hes as [Hes He]. rewrite Forall_singleton in He.
  eapply idem_step_inv; [|exact He|done]. by apply IH.
Qed.

(** Two batches of a session that share a first sequence are the same batch. *)
Lemma session_first_seq_inj l x y :
  Forall batch_ok l → NoDup (l ≫= seqs) → x ∈ l → y ∈ l →
  info_first_seq x.1 = info_first_seq y.1 → x = y.
Proof.
  assert (∀ z, batch_ok z → info_first_seq z.1 ∈ seqs z) as Hin.
  { intros z [? ?]. unfold seqs. apply elem_of_seqZ. lia. }
  induction l as [|a l IH]; intros Hf Hnd Hx Hy Heq; [set_solver|].
  apply Forall_cons in Hf as [Ha Hf]. rewrite bind_cons in Hnd.
  apply NoDup_app in Hnd as (_ & Hdisj & Hnd).
  rewrite Forall_forall in Hf.
  apply elem_of_cons in Hx as [->|Hx], Hy as [->|Hy]; [done|..].
  - destruct (Hdisj (info_first_seq a.1)); [by apply Hin|].
    rewrite Heq. apply list_elem_of_bind. exists y. auto.
  - destruct (Hdisj (info_first_seq a.1)); [by apply Hin|].
    rewrite <- Heq. apply list_elem_of_bind. exists x. auto.
  - apply IH; [|done..]. by rewrite Forall_forall.
Qed.

Lemma session_nodup l : session_ok l → NoDup (l ≫= seqs).
Proof. intros [_ ->]. apply NoDup_seqZ. Qed.

Lemma find_recent l info o :
  session_ok l → (info, o) ∈ l → to_recent (info, o) ∈ keep_last RING_SIZE (to_recent <$> l) →
  ∃ rb, find (same_range info) (keep_last RING_SIZE (to_recent <$> l)) = Some rb ∧
    base_offset rb = o.
Proof.
  intros Hok Hin Hw. destruct (find _ _) as [rb|] eqn:E.
  - exists rb. split; [done|]. apply find_some in E as [Hrb Hr].
    apply list_elem_of_In, elem_of_keep_last, list_elem_of_fmap in Hrb as ([info' o'] & -> & Hin').
    unfold same_range in Hr. simpl in *.
    assert ((info', o') = (info, o)) as [= -> ->]; [|done].
    eapply session_first_seq_inj; [apply Hok|by apply session_nodup|done..|]. simpl. lia.
  - exfalso. apply list_elem_of_In, (find_none _ _ E) in Hw as Hn.
    unfold same_range in Hn. simpl in Hn. lia.
Qed.

(** *** Epochs only grow *)

Definition epoch_at_least (st : gmap Z ProducerEntry) (pid e : Z) : Prop :=
  ∃ en, st !! pid = Some en ∧ e ≤ epoch en.

Lemma epoch_step s ev s' pid e :
  idem_step s ev s' → epoch_at_least s.1 pid e → epoch_at_least s'.1 pid e.
Proof.
  intros Hs (en & Hen & Hle). destruct Hs as [st h info o _| |st h pid' e']; simpl in *.
  - unfold record_accepted. destruct (decide (producer_id info = pid)) as [<-|Hne].
    + rewrite Hen. simpl. eexists. split; [apply lookup_insert_eq|].
      unfold advance. case_match; simpl; lia.
    + exists en. by rewrite lookup_insert_ne.
  - by exists en.
  - unfold fence. destruct (decide (pid' = pid)) as [->|Hne].
    + rewrite Hen. simpl. eexists. split; [apply lookup_insert_eq|]. case_match; simpl; lia.
    + exists en. by rewrite lookup_insert_ne.
Qed.

Lemma epoch_trace s es s' pid e :
  idem_trace s es s' → epoch_at_least s.1 pid e → epoch_at_least s'.1 pid e.
Proof. induction 1; eauto using epoch_step. Qed.

Lemma fence_epoch st pid e : epoch_at_least (fence st pid e) pid e.
Proof.
  eexists. split; [apply lookup_insert_eq|]. case_match; simpl; lia.
Qed.

Lemma classify_stale st info e :
  epoch_at_least st (producer_id info) e → info_epoch info < e →
  0 ≤ producer_id info → 0 ≤ info_first_seq info → classify st info = InvalidEpoch.
Proof.
  intros (en & Hen & Hle) Hlt Hp Hs. unfold classify. rewrite Hen.
  destruct (Z.ltb_spec (producer_id info) 0); [lia|].
  destruct (Z.ltb_spec (info_first_seq info) 0); [lia|].
  destruct (Z.ltb_spec (epoch en) (info_epoch info)); [lia|].
  by destruct (Z.ltb_spec (info_epoch info) (epoch en)); [|lia].
Qed.

(** ** Properties *)

(** C1. Exactly once: over any interleaving of produce attempts (retries,
    reorderings, gaps, several producers) and fences, the batches accepted for
    one producer id and epoch carry the sequence numbers 0, 1, 2, ... in order,
    each exactly once. *)
Theorem exactly_once es st h pid e :
  idem_trace (∅, []) es (st, h) → Forall event_ok es →
  session pid e h ≫= seqs = seqZ 0 (end_seq (session pid e h)) ∧
  NoDup (session pid e h ≫= seqs).
Proof.
  intros Ht Hes. pose proof (idem_trace_inv _ _ _ idem_inv_init Hes Ht) as [_ Hs].
  specialize (Hs pid e). split; [apply Hs|by apply session_nodup].
Qed.

(** Producer 7, epoch 0: a batch of two records and its retry. *)
Definition batch_a : BatchProducerInfo :=
  {| producer_id := 7; info_epoch := 0; info_first_seq := 0; info_last_seq := 1 |}.
Definition trace_a : list event := [Produce batch_a 100; Produce batch_a 102].
Definition states_a : gmap Z ProducerEntry := record_accepted ∅ batch_a 100.

Lemma trace_a_runs : idem_trace (∅, []) trace_a (states_a, [(batch_a, 100)]).
Proof.
  apply (trace_snoc _ [Produce batch_a 100] (states_a, [(batch_a, 100)])).
  - apply (trace_snoc _ [] (∅, [])); [constructor|]. apply (step_accept ∅ []). reflexivity.
  - apply step_reject. vm_compute. discriminate.
Qed.

Lemma trace_a_ok : Forall event_ok trace_a.
Proof. repeat constructor; simpl; unfold i32_max; lia. Qed.

Lemma exactly_once_witness :
  session 7 0 [(batch_a, 100)] ≫= seqs = [0; 1].
Proof.
  exact (proj1 (exactly_once trace_a states_a [(batch_a, 100)] 7 0 trace_a_runs trace_a_ok)).
Defined.

(** A retry is answered, not appended: after any history, re-sending one of
    the last five batches accepted for the producer's current epoch is
    classified as a duplicate carrying the offset that batch was given. *)
Theorem retry_is_duplicate es st h en info o :
  idem_trace (∅, []) es (st, h) → Forall event_ok es →
  st !! producer_id info = Some en → info_epoch info = epoch en → 0 ≤ producer_id info →
  (info, o) ∈ keep_last RING_SIZE (session (producer_id info) (epoch en) h) →
  classify st info = Duplicate o.
Proof.
  intros Ht Hes Hen Hep Hp Hin.
  pose proof (idem_trace_inv _ _ _ idem_inv_init Hes Ht) as [Hent Hs].
  specialize (Hent (producer_id info)). specialize (Hs (producer_id info) (epoch en)).
  simpl in *. rewrite Hen in Hent. destruct Hent as [_ Hrec].
  pose proof (elem_of_keep_last _ _ _ Hin) as Hin'.
  assert (to_recent (info, o) ∈ keep_last RING_SIZE (to_recent <$> session (producer_id info) (epoch en) h)) as Hw.
  { unfold keep_last in *. rewrite length_fmap, <- fmap_drop. by apply list_elem_of_fmap_2. }
  destruct (find_recent _ _ _ Hs Hin' Hw) as (rb & Hfind & <-).
  destruct Hs as [Hf _]. rewrite Forall_forall in Hf. destruct (Hf _ Hin') as [[? ?] _].
  simpl in *. unfold classify. rewrite Hen, Hep, Z.ltb_irrefl, Hrec, Hfind.
  destruct (Z.ltb_spec (producer_id info) 0); [lia|].
  by destruct (Z.ltb_spec (info_first_seq info) 0); [lia|].
Qed.

Lemma retry_is_duplicate_witness : classify states_a batch_a = Duplicate 100.
Proof.
  apply (retry_is_duplicate trace_a states_a [(batch_a, 100)]
    {| epoch := 0; recent := [{| first_seq := 0; last_seq := 1; base_offset := 100 |}] |}
    batch_a 100 trace_a_runs trace_a_ok).
  - reflexivity.
  - reflexivity.
  - simpl. lia.
  - vm_compute. apply list_elem_of_here.
Defined.

(** Fencing holds for good: once a producer id is fenced at an epoch, every
    data batch of an older epoch is refused, whatever happened in between. *)
Theorem fenced_epoch_refused st h pid e es st' h' info :
  idem_trace (fence st pid e, h) es (st', h') →
  producer_id info = pid → info_epoch info < e → 0 ≤ pid → 0 ≤ info_first_seq info →
  classify st' info = InvalidEpoch.
Proof.
  intros Ht <- He Hp Hs.
  apply (classify_stale _ _ e); [|done..].
  apply (epoch_trace _ _ _ _ _ Ht), fence_epoch.
Qed.

Lemma fenced_epoch_refused_witness : classify (fence states_a 7 1) batch_a = InvalidEpoch.
Proof.
  apply (fenced_epoch_refused states_a [] 7 1 [] (fence states_a 7 1) [] batch_a);
    [constructor|reflexivity|simpl; lia..].
Defined.

(** A session cannot pass [i32::MAX]: when the window ends there, the next
    sequence the classifier would accept is [i32::MIN], which no data batch
    carries, so every later batch of that epoch is refused (the wire protocol
    continues at 0). *)
Theorem sequence_wrap_refused st info en l :
  st !! producer_id info = Some en → info_epoch info = epoch en →
  last (recent en) = Some l → last_seq l = i32_max →
  0 ≤ producer_id info → 0 ≤ info_first_seq info →
  classify st info = OutOfOrder ∨ ∃ o, classify st info = Duplicate o.
Proof.
  intros Hen Hep Hl Hmax Hp Hs. unfold classify. rewrite Hen, Hep, Z.ltb_irrefl, Hl, Hmax.
  destruct (Z.ltb_spec (producer_id info) 0); [lia|].
  destruct (Z.ltb_spec (info_first_seq info) 0); [lia|].
  destruct (find _ _) as [rb|]; [by right; exists (base_offset rb)|]. left.
  change (wrapping_add32 i32_max 1) with (-2147483648).
  by destruct (Z.eqb_spec (info_first_seq info) (-2147483648)); [lia|].
Qed.

(** Producer 7 has just used sequence [i32::MAX] and continues at 0. *)
Definition states_max : gmap Z ProducerEntry :=
  record_accepted ∅ {| producer_id := 7; info_epoch := 0; info_first_seq := 0;
                       info_last_seq := 2147483647 |} 0.
Definition batch_wrap : BatchProducerInfo :=
  {| producer_id := 7; info_epoch := 0; info_first_seq := 0; info_last_seq := 4 |}.

Lemma sequence_wrap_refused_witness : classify states_max batch_wrap = OutOfOrder.
Proof.
  destruct (sequence_wrap_refused states_max batch_wrap
    {| epoch := 0; recent := [{| first_seq := 0; last_seq := 2147483647; base_offset := 0 |}] |}
    {| first_seq := 0; last_seq := 2147483647; base_offset := 0 |}
    eq_refl eq_refl eq_refl eq_refl ltac:(simpl; lia) ltac:(simpl; lia)) as [H|[o H]].
  - exact H.
  - vm_compute in H. discriminate.
Defined.
