(* ===== verification/TxnIndex.v ===== *)
(** * Transaction indexes of a partition ([kaas-storage/src/txn_index.rs])

    [OpenTxnIndex] maps a producer to the first offset of its open transaction:
    its minimum is the last stable offset.  [AbortedTxnIndex] lists the aborted
    transactions by first offset, for [read_committed] fetches. *)

From stdpp Require Import base gmap list sorting.
From Stdlib Require Import Strings.Byte.
From S2P Require Import Prelude.

Local Open Scope Z_scope.

(** ** Open transactions *)

Abbreviation OpenTxnIndex := (gmap Z Z).

(** [entry(pid).or_insert(base_offset)]. *)
Definition record_data_batch (idx : OpenTxnIndex) (pid base_offset : Z) : OpenTxnIndex :=
  match idx !! pid with Some _ => idx | None => <[pid := base_offset]> idx end.

Definition close (idx : OpenTxnIndex) (pid : Z) : option Z * OpenTxnIndex :=
  (idx !! pid, delete pid idx).

Definition opt_min (o : option Z) (v : Z) : option Z :=
  match o with Some m => Some (Z.min m v) | None => Some v end.

Definition min_open_offset (idx : OpenTxnIndex) : option Z :=
  foldl (λ o p, opt_min o p.2) None (map_to_list idx).

Definition entries (idx : OpenTxnIndex) : list (Z * Z) := map_to_list idx.
Definition restore_open (l : list (Z * Z)) : OpenTxnIndex := collect l.
Definition is_empty (idx : OpenTxnIndex) : bool := bool_decide (idx = ∅).

(** ** Aborted transactions *)

Record AbortedTxn := { ab_producer_id : Z; first_offset : Z; last_offset : Z }.

#[global] Instance AbortedTxn_eq_dec : EqDecision AbortedTxn.
Proof. solve_decision. Defined.

Abbreviation AbortedTxnIndex := (list AbortedTxn).

(** [partition_point(first_offset < e.first_offset)], then [insert]. *)
Definition record (idx : AbortedTxnIndex) (e : AbortedTxn) : AbortedTxnIndex :=
  let pos := prefix_len (λ x, first_offset x <? first_offset e) idx in
  take pos idx ++ e :: drop pos idx.

(** Pops from the front while the front ends below [log_start]. *)
Fixpoint evict_below (idx : AbortedTxnIndex) (log_start : Z) : AbortedTxnIndex :=
  match idx with
  | [] => []
  | front :: rest => if last_offset front <? log_start then evict_below rest log_start else idx
  end.

Definition in_range (idx : AbortedTxnIndex) (start end_ : Z) : list AbortedTxn :=
  filter (λ e, start ≤ first_offset e ∧ first_offset e < end_) idx.

Definition restore_aborted (l : list AbortedTxn) : AbortedTxnIndex := foldl record [] l.

(** ** Invariant: sorted by first offset *)

Definition by_first (a b : AbortedTxn) : Prop := first_offset a ≤ first_offset b.
Definition index_sorted (idx : AbortedTxnIndex) : Prop := StronglySorted by_first idx.

Lemma opt_min_fold l o :
  foldl (λ o (p : Z * Z), opt_min o p.2) o l =
  match o with
  | Some m => Some (foldr Z.min m (l.*2))
  | None => match l with [] => None | p :: l' => Some (foldr Z.min p.2 (l'.*2)) end
  end.
Proof.
  revert o. induction l as [|p l IH]; intros [m|]; [done|done|..]; cbn [foldl opt_min];
    rewrite IH; [|done].
  f_equal. rewrite fmap_cons. cbn [foldr]. generalize (l.*2) as xs. intros xs.
  induction xs as [|x xs IHx]; cbn [foldr]; [apply Z.min_comm|]. lia.
Qed.

Lemma foldr_min_spec m l :
  (foldr Z.min m l = m ∨ foldr Z.min m l ∈ l) ∧ foldr Z.min m l ≤ m ∧
  (∀ x, x ∈ l → foldr Z.min m l ≤ x).
Proof.
  induction l as [|a l (Hin & Hm & Hall)]; simpl.
  - split; [by left|]. split; [lia|]. set_solver.
  - split; [|split; [lia|]].
    + destruct (Z.min_spec a (foldr Z.min m l)) as [[_ ->]|[_ ->]]; set_solver.
    + intros x [->|Hx]%elem_of_cons; [lia|]. specialize (Hall x Hx). lia.
Qed.

Lemma min_open_offset_spec idx :
  match min_open_offset idx with
  | Some m => (∃ pid, idx !! pid = Some m) ∧ ∀ pid o, idx !! pid = Some o → m ≤ o
  | None => idx = ∅
  end.
Proof.
  unfold min_open_offset. rewrite opt_min_fold.
  destruct (map_to_list idx) as [|[p o] l] eqn:E.
  - by apply map_to_list_empty_iff in E.
  - destruct (foldr_min_spec o (l.*2)) as (Hin & Hm & Hall). simpl. split.
    + destruct Hin as [->|Hin].
      * exists p. apply elem_of_map_to_list. rewrite E. set_solver.
      * apply list_elem_of_fmap in Hin as ([p' o'] & Heq & Hin). exists p'.
        apply elem_of_map_to_list. rewrite E. simpl in Heq. rewrite Heq. set_solver.
    + intros pid o' Ho. apply elem_of_map_to_list in Ho. rewrite E in Ho.
      apply elem_of_cons in Ho as [[= -> ->]|Ho]; [done|]. apply Hall.
      apply list_elem_of_fmap. by exists (pid, o').
Qed.

Lemma record_perm idx e : record idx e ≡ₚ e :: idx.
Proof.
  unfold record. rewrite <- Permutation_middle, take_drop. done.
Qed.

Lemma prefix_len_all {A} (p : A → bool) l : Forall (λ x, p x = true) (take (prefix_len p l) l).
Proof. induction l as [|a l IH]; simpl; [constructor|]. destruct (p a) eqn:E; simpl; auto. Qed.

Lemma prefix_len_rest {A} (p : A → bool) l x :
  head (drop (prefix_len p l) l) = Some x → p x = false.
Proof. induction l as [|a l IH]; simpl; [done|]. destruct (p a) eqn:E; simpl; [auto|congruence]. Qed.

Lemma sorted_cons_head a l : index_sorted l → (∀ x, head l = Some x → by_first a x) → index_sorted (a :: l).
Proof.
  intros Hs Hh. constructor; [done|]. destruct Hs as [|b l Hs Hb]; [constructor|].
  specialize (Hh b eq_refl). constructor; [done|].
  eapply Forall_impl; [done|]. unfold by_first in *. simpl. lia.
Qed.

Lemma sorted_app a b :
  index_sorted a → index_sorted b → (∀ x y, x ∈ a → y ∈ b → by_first x y) → index_sorted (a ++ b).
Proof.
  intros Ha Hb Hx. induction Ha as [|x a Ha IH Hall]; simpl; [done|].
  constructor.
  - apply IH. intros; apply Hx; set_solver.
  - apply Forall_app. split; [done|]. apply Forall_forall. intros y Hy. apply Hx; set_solver.
Qed.

Lemma sorted_take n l : index_sorted l → index_sorted (take n l).
Proof.
  intros H. revert n. induction H as [|a l H IH Ha]; intros [|n]; simpl; [constructor..|].
  constructor; [apply IH|]. by apply Forall_take.
Qed.

Lemma sorted_drop n l : index_sorted l → index_sorted (drop n l).
Proof.
  intros H. revert n. induction H as [|a l H IH Ha]; intros [|n]; simpl; [constructor..| |apply IH].
  by constructor.
Qed.

Lemma record_sorted idx e : index_sorted idx → index_sorted (record idx e).
Proof.
  intros H. unfold record. set (p := λ x, first_offset x <? first_offset e).
  pose proof (prefix_len_all p idx) as Hpre.
  pose proof (prefix_len_rest p idx) as Hrest.
  assert (index_sorted (e :: drop (prefix_len p idx) idx)) as Htl.
  { apply sorted_cons_head; [by apply sorted_drop|]. intros x Hx%Hrest.
    unfold p, by_first in *. lia. }
  apply sorted_app; [by apply sorted_take|done|].
  intros x y Hx Hy. rewrite Forall_forall in Hpre. specialize (Hpre x Hx). unfold p in Hpre.
  assert (by_first e y).
  { apply elem_of_cons in Hy as [->|Hy]; [unfold by_first; lia|].
    inversion Htl as [|? ? ? Hall]. subst. rewrite Forall_forall in Hall. by apply Hall. }
  unfold by_first in *. lia.
Qed.

Lemma evict_below_suffix idx log_start :
  ∃ dropped, idx = dropped ++ evict_below idx log_start ∧
    Forall (λ e, last_offset e < log_start) dropped.
Proof.
  induction idx as [|e idx IH]; simpl; [by exists []|].
  destruct (Z.ltb_spec (last_offset e) log_start).
  - destruct IH as (d & Hd & Hf). exists (e :: d). simpl. rewrite <- Hd. by split; [|constructor].
  - by exists [].
Qed.

Lemma restore_aborted_sorted l : index_sorted (restore_aborted l) ∧ restore_aborted l ≡ₚ l.
Proof.
  unfold restore_aborted.
  assert (∀ l idx, index_sorted idx →
    index_sorted (foldl record idx l) ∧ foldl record idx l ≡ₚ l ++ idx) as H.
  { clear. induction l as [|e l IH]; intros idx Hs; simpl; [done|].
    destruct (IH (record idx e) (record_sorted _ _ Hs)) as [? Hp]. split; [done|].
    rewrite Hp, record_perm. by rewrite <- Permutation_middle. }
  destruct (H l []) as [? Hp]; [constructor|]. split; [done|]. by rewrite app_nil_r in Hp.
Qed.

(** ** Properties *)

(** Entries with distinct first offsets keep their order. *)
Definition first_lt (a b : AbortedTxn) : Prop := first_offset a < first_offset b.

Lemma record_last idx e : Forall (λ x, first_lt x e) idx → record idx e = idx ++ [e].
Proof.
  intros H. unfold record. assert (prefix_len (λ x, first_offset x <? first_offset e) idx = length idx) as ->.
  { induction H as [|x idx Hx H IH]; [done|]. unfold first_lt in Hx. simpl.
    destruct (Z.ltb_spec (first_offset x) (first_offset e)); [by rewrite IH|lia]. }
  by rewrite take_ge, drop_ge by done.
Qed.

Lemma restore_aborted_id l : StronglySorted first_lt l → restore_aborted l = l.
Proof.
  intros Hl. unfold restore_aborted.
  assert (∀ acc, Forall (λ x, Forall (first_lt x) l) acc → foldl record acc l = acc ++ l) as H.
  { induction Hl as [|e l Hl IH He]; intros acc Ha; simpl; [by rewrite app_nil_r|].
    rewrite record_last.
    - rewrite IH; [by rewrite <- app_assoc|]. apply Forall_app. split; [|by apply Forall_singleton].
      eapply Forall_impl; [exact Ha|]. simpl. intros x Hx. by apply Forall_cons in Hx as [_ ?].
    - eapply Forall_impl; [exact Ha|]. simpl. intros x Hx. by apply Forall_cons in Hx as [? _]. }
  by apply (H []).
Qed.

(** The aborted index stays sorted by first offset under [record] (in any
    insertion order), [evict_below] and [restore]; recording keeps every entry,
    and eviction drops only transactions that end below the new log start. *)
Theorem aborted_index_invariant idx e log_start l :
  index_sorted idx →
  (index_sorted (record idx e) ∧ record idx e ≡ₚ e :: idx) ∧
  (index_sorted (evict_below idx log_start) ∧
   ∃ dropped, idx = dropped ++ evict_below idx log_start ∧
     Forall (λ x, last_offset x < log_start) dropped) ∧
  (index_sorted (restore_aborted l) ∧ restore_aborted l ≡ₚ l).
Proof.
  intros Hs. split; [by auto using record_sorted, record_perm|].
  split; [|apply restore_aborted_sorted].
  destruct (evict_below_suffix idx log_start) as (d & Hd & Hf). split; [|by exists d].
  rewrite Hd in Hs. rewrite <- (drop_app_length d (evict_below idx log_start)). by apply sorted_drop.
Qed.

Definition ab1 : AbortedTxn := {| ab_producer_id := 1; first_offset := 10; last_offset := 20 |}.
Definition ab2 : AbortedTxn := {| ab_producer_id := 2; first_offset := 5; last_offset := 30 |}.

Lemma aborted_index_invariant_witness : record [ab1] ab2 ≡ₚ [ab2; ab1].
Proof.
  refine (proj2 (proj1 (aborted_index_invariant [ab1] ab2 0 [] _))).
  repeat constructor.
Defined.

(** [in_range] misses transactions that began before the fetch: an aborted
    transaction that started below [start] is never reported, although its
    records up to [last_offset] lie inside the fetched range. *)
Theorem in_range_misses_earlier_start idx e start end_ :
  e ∈ idx → first_offset e < start → start ≤ last_offset e → last_offset e < end_ →
  e ∉ in_range idx start end_.
Proof. intros _ Hlt _ _. unfold in_range. rewrite list_elem_of_filter. lia. Qed.

Lemma in_range_misses_earlier_start_witness : ab1 ∉ in_range [ab1] 15 100.
Proof.
  apply (in_range_misses_earlier_start [ab1] ab1 15 100); simpl; try lia.
  apply list_elem_of_here.
Defined.
