(* ===== verification/Segment.v ===== *)
(** * Segments ([kaas-storage/src/segment.rs])

    A segment is a log file (a sequence of record batches) and a sparse index
    (pairs of a relative offset and a file position).  Files are their contents;
    the CRC-32C of the [crc32c] crate is a parameter with its documented law
    (appending to a digest is the digest of the concatenation). *)

From stdpp Require Import base gmap strings list sorting.
From Stdlib Require Import Strings.Byte.
From S2P Require Import Prelude Primitives Wire.

Local Open Scope Z_scope.

(** ** Batch headers *)

(** [(base_offset, last_offset_delta, max_timestamp)]; [None]: too short. *)
Definition parse_batch_offsets (raw : list byte) : option (Z * Z * Z) :=
  if (length raw <? 43)%nat then None
  else Some (sbe (slice 0 8 raw), sbe (slice 23 4 raw), sbe (slice 35 8 raw)).

(** ** The recovery scan *)

Inductive ScanStop := Eof | Torn | CrcMismatch.

#[global] Instance ScanStop_eq_dec : EqDecision ScanStop.
Proof. solve_decision. Defined.

Record ScanResult := { high_watermark : Z; valid_end : Z; stop : ScanStop }.

Section scan.
Context (crc32c : list byte → Z) (crc32c_append : Z → list byte → Z).

(** One batch off the reader: the batch and what follows, or why it stops. *)
Definition scan_one (inp : list byte) : result ScanStop (list byte * list byte) :=
  match read_exact 12 inp with
  | None => Err Eof
  | Some (header, inp) =>
    let batch_length := sbe (slice 8 4 header) in
    if batch_length <? 16 then Err Torn
    else match read_exact 16 inp with
    | None => Err Torn
    | Some (body_head, inp) =>
      match read_exact (Z.to_nat (batch_length - 16)) inp with
      | None => Err Torn
      | Some (rest, inp) =>
        let expected := unbe (slice 5 4 body_head) in
        let digest := crc32c_append (crc32c (drop 9 body_head)) rest in
        if digest =? expected then Ok (header ++ body_head ++ rest, inp) else Err CrcMismatch
      end
    end
  end.

(** The next offset after a batch: [base_offset + last_offset_delta + 1] on
    [i64]. *)
Definition next_offset (batch : list byte) : Z :=
  wrap_s 64 (sbe (slice 0 8 batch) + sbe (slice 23 4 batch) + 1).

(** Every turn consumes at least 28 bytes: the length of the input is enough
    fuel. *)
Fixpoint scan_loop (fuel : nat) (inp : list byte) (hwm valid_end : Z) : ScanResult :=
  match fuel with
  | O => {| high_watermark := hwm; valid_end := valid_end; stop := Eof |}
  | S f =>
    match scan_one inp with
    | Err s => {| high_watermark := hwm; valid_end := valid_end; stop := s |}
    | Ok (batch, inp') =>
      scan_loop f inp' (next_offset batch) (valid_end + Z.of_nat (length batch))
    end
  end.

Definition scan_high_watermark_from (file : list byte) (start_byte : nat) (start_hwm : Z) : ScanResult :=
  let inp := drop start_byte file in
  scan_loop (S (length inp)) inp start_hwm (Z.of_nat start_byte).

Definition scan_high_watermark (file : list byte) (segment_base_offset : Z) : Z :=
  high_watermark (scan_high_watermark_from file 0 segment_base_offset).

End scan.

(** ** The sparse index *)

Definition INDEX_ENTRY_SIZE : nat := 8.

Definition read_index_entry (data : list byte) (i : nat) : Z * Z :=
  let off := (i * INDEX_ENTRY_SIZE)%nat in
  (sbe (slice off 4 data), unbe (slice (off + 4) 4 data)).

(** The [while lo <= hi] loop; [hi - lo] shrinks by at least one per turn. *)
Fixpoint search_loop (fuel : nat) (data : list byte) (target lo hi result : Z) : Z :=
  match fuel with
  | O => result
  | S f =>
    if lo <=? hi then
      let mid := lo + (hi - lo) / 2 in
      let '(rel_offset, pos) := read_index_entry data (Z.to_nat mid) in
      if rel_offset <=? target then search_loop f data target (mid + 1) hi pos
      else if mid =? 0 then result
      else search_loop f data target lo (mid - 1) result
    else result
  end.

(** The subtraction wraps on [i64]; a difference outside [i32] returns the last
    entry. *)
Definition search_index_bytes (data : list byte) (segment_base_offset target_offset : Z) : Z :=
  let n := (length data / INDEX_ENTRY_SIZE)%nat in
  if (n =? 0)%nat then 0
  else
    let rel := wrap_s 64 (target_offset - segment_base_offset) in
    if (rel <? -2147483648) || (2147483647 <? rel) then (read_index_entry data (n - 1)).2
    else if rel <? 0 then 0
    else search_loop (S n) data rel 0 (Z.of_nat n - 1) 0.

(** ** Segments *)

Definition UNKNOWN_MAX_TIMESTAMP : Z := -1.

(** [log_file]/[index_file] are the contents of the files at [log_path] and
    [index_path]; in [ActiveSegment], [log] and [index].  The log is written at
    explicit positions, the index at the handle's cursor [index_pos]: 0 when the
    handle is opened, at the end of the file only for a segment created here. *)
Record SegmentMeta := {
  base_offset : Z; seg_epoch : Z; size : Z; max_timestamp : Z;
  log_file : list byte; index_file : list byte }.

Record ActiveSegment := {
  meta_base : Z; meta_epoch : Z; log : list byte; index : list byte; index_pos : Z;
  handles_open : bool; log_size : Z; seg_last_offset : Z; last_indexed_log_pos : Z;
  seg_max_timestamp : Z }.

Definition create (base epoch : Z) : ActiveSegment :=
  {| meta_base := base; meta_epoch := epoch; log := []; index := []; index_pos := 0;
     handles_open := true; log_size := 0; seg_last_offset := base - 1;
     last_indexed_log_pos := 0; seg_max_timestamp := UNKNOWN_MAX_TIMESTAMP |}.

Inductive IoError := InvalidData | HandleClosed | OtherIo.

(** [write_at(raw, pos)]: overwrites and extends the file. *)
Definition write_at (file : list byte) (raw : list byte) (pos : nat) : list byte :=
  take pos file ++ replicate (pos - length file) x00 ++ raw ++ drop (pos + length raw) file.

(** The index entry an append emits, if the interval is reached; the [u64]
    subtraction wraps. *)
Definition index_entry (s : ActiveSegment) (interval base : Z) : result IoError (option (list byte)) :=
  if interval <=? wrap_u 64 (log_size s - last_indexed_log_pos s) then
    let rel := wrap_s 64 (base - meta_base s) in
    if (rel <? -2147483648) || (2147483647 <? rel) then Err InvalidData
    else if 4294967295 <? log_size s then Err InvalidData
    else Ok (Some (be 4 rel ++ be 4 (log_size s)))
  else Ok None.

(** On an error the bytes already written stay in the file, but the accounting
    does not move. *)
Definition append_batch (s : ActiveSegment) (raw : list byte) (interval : Z) :
    ActiveSegment * result IoError unit :=
  match parse_batch_offsets raw with
  | None => (s, Err InvalidData)
  | Some (base, delta, ts) =>
    if handles_open s then
      let log' := write_at (log s) raw (Z.to_nat (log_size s)) in
      match index_entry s interval base with
      | Err e =>
        ({| meta_base := meta_base s; meta_epoch := meta_epoch s; log := log'; index := index s;
            index_pos := index_pos s; handles_open := true; log_size := log_size s; seg_last_offset := seg_last_offset s;
            last_indexed_log_pos := last_indexed_log_pos s;
            seg_max_timestamp := seg_max_timestamp s |}, Err e)
      | Ok entry =>
        ({| meta_base := meta_base s; meta_epoch := meta_epoch s; log := log';
            index := match entry with
                     | Some e => write_at (index s) e (Z.to_nat (index_pos s))
                     | None => index s
                     end;
            index_pos := index_pos s + Z.of_nat (length (default [] entry)); handles_open := true;
            log_size := sat_u64 (log_size s + Z.of_nat (length raw));
            seg_last_offset := wrap_s 64 (base + delta);
            last_indexed_log_pos :=
              match entry with Some _ => log_size s | None => last_indexed_log_pos s end;
            seg_max_timestamp := Z.max (seg_max_timestamp s) ts |}, Ok tt)
      end
    else (s, Err HandleClosed)
  end.

(** [truncate_to]: the file and the append position move back to [valid_end]. *)
Definition truncate_to (s : ActiveSegment) (valid_end : Z) : ActiveSegment :=
  if log_size s <=? valid_end then s
  else {| meta_base := meta_base s; meta_epoch := meta_epoch s;
          log := take (Z.to_nat valid_end) (log s); index := index s;
          index_pos := index_pos s; handles_open := handles_open s; log_size := valid_end;
          seg_last_offset := seg_last_offset s;
          last_indexed_log_pos := last_indexed_log_pos s;
          seg_max_timestamp := seg_max_timestamp s |}.

(** [roll_fast]: the closed segment's metadata and the fresh segment. *)
Definition roll_fast (s : ActiveSegment) (new_base epoch : Z) : ActiveSegment * SegmentMeta :=
  (create new_base epoch,
   {| base_offset := meta_base s; seg_epoch := meta_epoch s; size := log_size s;
      max_timestamp := seg_max_timestamp s; log_file := log s; index_file := index s |}).

(** ** Reading batches *)

(** One batch of the walk: whether it is wanted, its bytes, and the rest of the
    file.  A batch that ends below [start_offset] is skipped by a seek, which may
    go past the end of the file. *)
Definition read_one (start_offset : Z) (inp : list byte) :
    option (option (list byte) * list byte) :=
  match read_exact 12 inp with
  | None => None
  | Some (header, inp) =>
    let batch_length := sbe (slice 8 4 header) in
    if batch_length <=? 0 then None
    else if batch_length <? 15 then None
    else match read_exact 15 inp with
    | None => None
    | Some (body_head, inp) =>
      let base := sbe (slice 0 8 header) in
      let delta := sbe (slice 11 4 body_head) in
      let rest := Z.to_nat (batch_length - 15) in
      if wrap_s 64 (base + delta) <? start_offset then Some (None, drop rest inp)
      else match read_exact rest inp with
      | None => None
      | Some (tail, inp) => Some (Some (header ++ body_head ++ tail), inp)
      end
    end
  end.

(** [while out.len() < max_bytes]; every turn consumes at least 27 bytes. *)
Fixpoint read_loop (fuel : nat) (inp : list byte) (start_offset : Z) (max_bytes : nat)
    (out : list byte) : list byte :=
  match fuel with
  | O => out
  | S f =>
    if (length out <? max_bytes)%nat then
      match read_one start_offset inp with
      | None => out
      | Some (None, inp') => read_loop f inp' start_offset max_bytes out
      | Some (Some b, inp') => read_loop f inp' start_offset max_bytes (out ++ b)
      end
    else out
  end.

Definition read_batches (file : list byte) (approx_pos : nat) (start_offset : Z)
    (max_bytes : nat) : list byte :=
  let inp := drop approx_pos file in
  read_loop (S (length inp)) inp start_offset max_bytes [].

(** ** Lemmas on [read_exact] *)

Lemma read_exact_app n (a r : list byte) : length a = n → read_exact n (a ++ r) = Some (a, r).
Proof.
  intros <-. unfold read_exact. rewrite length_app, take_app_length, drop_app_length.
  by destruct (Nat.leb_spec (length a) (length a + length r)); [|lia].
Qed.

Lemma read_exact_inv n inp (a r : list byte) :
  read_exact n inp = Some (a, r) → inp = a ++ r ∧ length a = n.
Proof.
  unfold read_exact. destruct (Nat.leb_spec n (length inp)); [|done]. intros [= <- <-].
  by rewrite take_drop, length_take, Nat.min_l by lia.
Qed.

Lemma read_exact_none n inp : read_exact n inp = None → (length inp < n)%nat.
Proof. unfold read_exact. by destruct (Nat.leb_spec n (length inp)). Qed.

Lemma slice_pre (a b : list byte) off n : (off + n ≤ length a)%nat → slice off n (a ++ b) = slice off n a.
Proof. intros H. exact (slice_app [] a b off n H). Qed.

Lemma slice_post (a b : list byte) off n :
  (length a ≤ off)%nat → slice off n (a ++ b) = slice (off - length a) n b.
Proof. intros H. unfold slice. by rewrite drop_app_ge by lia. Qed.

(** The fields of a batch seen from its three reads. *)
Lemma batch_fields (h bh rest : list byte) m :
  length h = 12%nat → length bh = m → (15 ≤ m)%nat →
  slice 8 4 (h ++ bh ++ rest) = slice 8 4 h ∧ slice 0 8 (h ++ bh ++ rest) = slice 0 8 h ∧
  slice 17 4 (h ++ bh ++ rest) = slice 5 4 bh ∧ slice 23 4 (h ++ bh ++ rest) = slice 11 4 bh ∧
  drop 21 (h ++ bh ++ rest) = drop 9 bh ++ rest.
Proof.
  intros Hh Hb Hm.
  rewrite !(slice_pre h) by lia. rewrite !(slice_post h), Hh by lia.
  rewrite !(slice_pre bh) by lia. rewrite drop_app_ge, Hh, drop_app_le by lia. done.
Qed.

(** ** The scan finds exactly the valid prefix *)

Section scan_proofs.
Context (crc32c : list byte → Z) (crc32c_append : Z → list byte → Z).
Context (crc_law : ∀ a b, crc32c_append (crc32c a) b = crc32c (a ++ b)).

(** A batch the scan trusts: complete, and its checksum matches. *)
Definition good_batch (b : list byte) : Prop :=
  (28 ≤ length b)%nat ∧ sbe (slice 8 4 b) = Z.of_nat (length b) - 12 ∧
  crc32c (drop 21 b) = unbe (slice 17 4 b).

Lemma scan_one_ok inp b rest :
  scan_one crc32c crc32c_append inp = Ok (b, rest) → inp = b ++ rest ∧ good_batch b.
Proof.
  unfold scan_one. destruct (read_exact 12 inp) as [[h i1]|] eqn:E1; [|done].
  destruct (Z.ltb_spec (sbe (slice 8 4 h)) 16) as [|Hbl]; [done|].
  destruct (read_exact 16 i1) as [[bh i2]|] eqn:E2; [|done].
  destruct (read_exact _ i2) as [[tl i3]|] eqn:E3; [|done].
  destruct (Z.eqb_spec (crc32c_append (crc32c (drop 9 bh)) tl) (unbe (slice 5 4 bh))) as [Hc|]; [|done].
  intros [= <- <-].
  apply read_exact_inv in E1 as [-> H1], E2 as [-> H2], E3 as [-> H3].
  split; [by rewrite <- !app_assoc|].
  destruct (batch_fields h bh tl 16 H1 H2 ltac:(lia)) as (F1 & F2 & F3 & F4 & F5).
  unfold good_batch. rewrite F1, F3, F5, <- crc_law, Hc, !length_app. split; [lia|]. split; [lia|done].
Qed.

Lemma scan_one_good b rest :
  good_batch b → scan_one crc32c crc32c_append (b ++ rest) = Ok (b, rest).
Proof.
  intros (Hl & Hbl & Hc).
  set (h := take 12 b). set (bh := take 16 (drop 12 b)). set (tl := drop 28 b).
  assert (b = h ++ bh ++ tl) as Hb.
  { unfold h, bh, tl. rewrite <- (take_drop 12 b) at 1. f_equal.
    rewrite <- (take_drop 16 (drop 12 b)) at 1. by rewrite drop_drop. }
  assert (length h = 12%nat) as H1 by (unfold h; rewrite length_take; lia).
  assert (length bh = 16%nat) as H2 by (unfold bh; rewrite length_take, length_drop; lia).
  assert (length b = 28 + length tl)%nat as H3 by (rewrite Hb at 1; rewrite !length_app; lia).
  clearbody h bh tl.
  destruct (batch_fields h bh tl 16 H1 H2 ltac:(lia)) as (F1 & F2 & F3 & F4 & F5).
  rewrite <- Hb in *. rewrite F1 in Hbl. rewrite F3, F5, <- crc_law in Hc.
  unfold scan_one. rewrite Hb, <- !app_assoc.
  rewrite (read_exact_app 12) by done. rewrite Hbl.
  destruct (Z.ltb_spec (Z.of_nat (length b) - 12) 16); [lia|].
  rewrite (read_exact_app 16) by done. rewrite read_exact_app by lia.
  by rewrite Hc, Z.eqb_refl.
Qed.

(** What stops the scan is not a good batch; only a short tail is [Eof]. *)
Lemma scan_one_err inp s :
  scan_one crc32c crc32c_append inp = Err s →
  (∀ b t, inp = b ++ t → ¬ good_batch b) ∧ (s = Eof ↔ (length inp < 12)%nat).
Proof.
  intros He. split.
  { intros b t -> Hg. rewrite scan_one_good in He by done. done. }
  unfold scan_one in He. destruct (read_exact 12 inp) as [[h i]|] eqn:E.
  - apply read_exact_inv in E as [-> Hh]. rewrite length_app.
    split; [intros ->|lia]. repeat case_match; congruence.
  - injection He as <-. apply read_exact_none in E. done.
Qed.

Definition end_offset (start : Z) (bs : list (list byte)) : Z :=
  match last bs with Some b => next_offset b | None => start end.

Lemma scan_loop_spec fuel inp hwm ve :
  (length inp < fuel)%nat →
  ∃ bs t, inp = concat bs ++ t ∧ Forall good_batch bs ∧
    (∀ b t', t = b ++ t' → ¬ good_batch b) ∧
    let r := scan_loop crc32c crc32c_append fuel inp hwm ve in
    high_watermark r = end_offset hwm bs ∧
    valid_end r = ve + Z.of_nat (length (concat bs)) ∧ (stop r = Eof ↔ (length t < 12)%nat).
Proof.
  revert inp hwm ve. induction fuel as [|f IH]; intros inp hwm ve Hf; [lia|]. simpl.
  destruct (scan_one _ _ inp) as [[b inp']|s] eqn:E.
  - apply scan_one_ok in E as [-> Hb]. rewrite length_app in Hf.
    assert (28 ≤ length b)%nat by apply Hb.
    destruct (IH inp' (next_offset b) (ve + Z.of_nat (length b)) ltac:(lia))
      as (bs & t & -> & Hbs & Hno & Hh & Hv & Hs).
    exists (b :: bs), t. simpl. rewrite <- app_assoc. split; [done|].
    split; [by constructor|]. split; [done|]. split; [|split; [|done]].
    + rewrite Hh. unfold end_offset. rewrite last_cons. by destruct (last bs).
    + rewrite Hv, length_app. lia.
  - destruct (scan_one_err _ _ E) as [Hno Hs].
    exists [], inp. simpl. split; [done|]. split; [constructor|]. split; [done|].
    split; [done|]. split; [lia|done].
Qed.

(** Scanning whole good batches with nothing behind them. *)
Lemma scan_loop_clean fuel bs hwm ve :
  (length bs < fuel)%nat → Forall good_batch bs →
  scan_loop crc32c crc32c_append fuel (concat bs) hwm ve =
  {| high_watermark := end_offset hwm bs; valid_end := ve + Z.of_nat (length (concat bs)); stop := Eof |}.
Proof.
  intros Hf Hbs. revert fuel hwm ve Hf.
  induction Hbs as [|b bs Hb Hbs IH]; intros [|f] hwm ve Hf; simpl in Hf |- *; try lia.
  - f_equal. lia.
  - rewrite scan_one_good by done. rewrite IH by lia. f_equal.
    + unfold end_offset. rewrite last_cons. by destruct (last bs).
    + rewrite length_app. lia.
Qed.

Lemma concat_length_ge bs : Forall good_batch bs → (length bs ≤ length (concat bs))%nat.
Proof.
  induction 1 as [|b bs [Hb _] _ IH]; simpl; [done|]. rewrite length_app. lia.
Qed.

(** Recovery keeps exactly the valid prefix of a log, whatever the file
    holds: the scan splits it into good batches (complete, checksum right) and a
    remainder that starts with none, reports the end of the last good batch as
    [valid_end] and its next offset as the high watermark; and once the file is
    cut there, scanning again is clean and gives the same watermark. *)
Theorem recovery_scan_exact file start_hwm :
  ∃ bs t, file = concat bs ++ t ∧ Forall good_batch bs ∧
    (∀ b t', t = b ++ t' → ¬ good_batch b) ∧
    let r := scan_high_watermark_from crc32c crc32c_append file 0 start_hwm in
    valid_end r = Z.of_nat (length (concat bs)) ∧
    high_watermark r = end_offset start_hwm bs ∧
    scan_high_watermark_from crc32c crc32c_append (take (Z.to_nat (valid_end r)) file) 0 start_hwm =
      {| high_watermark := high_watermark r; valid_end := valid_end r; stop := Eof |}.
Proof.
  destruct (scan_loop_spec (S (length file)) file start_hwm 0 ltac:(lia))
    as (bs & t & Hfile & Hbs & Hno & Hh & Hv & Hs).
  exists bs, t. split; [done|]. split; [done|]. split; [done|].
  unfold scan_high_watermark_from. rewrite !drop_0. cbn zeta in *. change (Z.of_nat 0) with 0.
  rewrite Hv, Hh. split; [lia|]. split; [done|].
  rewrite Z.add_0_l, Nat2Z.id. rewrite Hfile, take_app_length.
  pose proof (concat_length_ge bs Hbs). rewrite scan_loop_clean; [f_equal; lia|lia|done].
Qed.

End scan_proofs.

(** A checksum with the documented law: the sum of the bytes. *)
Definition sum_crc (l : list byte) : Z := foldr (λ b a, b2z b + a) 0 l.
Definition sum_crc_append (c : Z) (l : list byte) : Z := c + sum_crc l.

Lemma sum_crc_law a b : sum_crc_append (sum_crc a) b = sum_crc (a ++ b).
Proof.
  unfold sum_crc_append. induction a as [|x a IH]; simpl; [done|]. rewrite <- IH. lia.
Qed.

(** A 28-byte batch at offset 0 followed by three torn bytes. *)
Definition torn_file : list byte := be 8 0 ++ be 4 16 ++ be 16 0 ++ [xff; xff; xff].

Lemma recovery_scan_exact_witness :
  ∃ bs t, torn_file = concat bs ++ t ∧ Forall (good_batch sum_crc) bs ∧
    28 = Z.of_nat (length (concat bs)).
Proof.
  destruct (recovery_scan_exact sum_crc sum_crc_append sum_crc_law torn_file 0)
    as (bs & t & Hf & Hb & _ & Hv & _).
  exists bs, t. split; [exact Hf|]. split; [exact Hb|]. exact Hv.
Defined.

(** ** The binary search answers an entry at or below the target

    Whatever the order of the entries: a reopened segment writes its index from
    the start again, so the file is not sorted. *)

Lemma search_loop_below (P : Z → Prop) data target n fuel lo hi r :
  0 ≤ lo → hi < n → P r →
  (∀ i, 0 ≤ i < n → (read_index_entry data (Z.to_nat i)).1 ≤ target →
    P (read_index_entry data (Z.to_nat i)).2) →
  P (search_loop fuel data target lo hi r).
Proof.
  intros Hlo Hhi Hr Hentry. revert lo hi r Hlo Hhi Hr.
  induction fuel as [|f IH]; intros lo hi r Hlo Hhi Hr; [done|]. cbn [search_loop].
  destruct (Z.leb_spec lo hi); [|done].
  pose proof (Z.div_pos (hi - lo) 2 ltac:(lia) ltac:(lia)).
  pose proof (Z.div_le_upper_bound (hi - lo) 2 (hi - lo) ltac:(lia) ltac:(lia)).
  specialize (Hentry (lo + (hi - lo) / 2) ltac:(lia)).
  destruct (read_index_entry data _) as [rel pos]. cbn [fst snd] in Hentry.
  destruct (Z.leb_spec rel target); [apply IH; [lia..|auto]|].
  case_match; [done|]. apply IH; [lia..|done].
Qed.

(** The fuel is enough: more of it changes nothing. *)
Lemma search_loop_fuel data target f1 f2 lo hi r :
  0 ≤ lo → hi - lo + 1 < Z.of_nat f1 → hi - lo + 1 < Z.of_nat f2 →
  search_loop f1 data target lo hi r = search_loop f2 data target lo hi r.
Proof.
  revert f2 lo hi r. induction f1 as [|f1 IH]; intros [|f2] lo hi r H0 H1 H2; cbn [search_loop];
    try (destruct (Z.leb_spec lo hi); [lia|done]).
  destruct (Z.leb_spec lo hi); [|done].
  pose proof (Z.div_pos (hi - lo) 2 ltac:(lia) ltac:(lia)).
  pose proof (Z.div_le_upper_bound (hi - lo) 2 (hi - lo) ltac:(lia) ltac:(lia)).
  destruct (read_index_entry data _) as [rel pos].
  case_match; [apply IH; lia|]. case_match; [done|]. apply IH; lia.
Qed.

(** ** Reading whole batches *)

Definition first_off (b : list byte) : Z := sbe (slice 0 8 b).
Definition last_off (b : list byte) : Z := wrap_s 64 (first_off b + sbe (slice 23 4 b)).

(** A batch the reader can frame. *)
Definition readable (b : list byte) : Prop :=
  (27 ≤ length b)%nat ∧ sbe (slice 8 4 b) = Z.of_nat (length b) - 12.

(** Appends batches to [out] until it holds [max] bytes. *)
Fixpoint fill (max : nat) (out : list byte) (bs : list (list byte)) : list byte :=
  match bs with
  | [] => out
  | b :: bs' => if (length out <? max)%nat then fill max (out ++ b) bs' else out
  end.

Definition wanted (start : Z) (bs : list (list byte)) : list (list byte) :=
  filter (λ b, start ≤ last_off b) bs.

Lemma read_one_readable start b rest :
  readable b →
  read_one start (b ++ rest) =
    Some (if last_off b <? start then None else Some b, rest).
Proof.
  intros (Hl & Hbl).
  set (h := take 12 b). set (bh := take 15 (drop 12 b)). set (tl := drop 27 b).
  assert (b = h ++ bh ++ tl) as Hb.
  { unfold h, bh, tl. rewrite <- (take_drop 12 b) at 1. f_equal.
    rewrite <- (take_drop 15 (drop 12 b)) at 1. by rewrite drop_drop. }
  assert (length h = 12%nat) as H1 by (unfold h; rewrite length_take; lia).
  assert (length bh = 15%nat) as H2 by (unfold bh; rewrite length_take, length_drop; lia).
  assert (length b = 27 + length tl)%nat as H3 by (rewrite Hb at 1; rewrite !length_app; lia).
  clearbody h bh tl.
  destruct (batch_fields h bh tl 15 H1 H2 ltac:(lia)) as (F1 & F2 & _ & F4 & _).
  unfold last_off, first_off. rewrite <- Hb in *. rewrite F1 in Hbl. rewrite F2, F4.
  unfold read_one. rewrite Hb at 1. rewrite <- !app_assoc.
  rewrite (read_exact_app 12) by done. rewrite Hbl.
  destruct (Z.leb_spec (Z.of_nat (length b) - 12) 0); [lia|].
  destruct (Z.ltb_spec (Z.of_nat (length b) - 12) 15); [lia|].
  rewrite (read_exact_app 15) by done.
  replace (Z.to_nat (Z.of_nat (length b) - 12 - 15)) with (length tl) by lia.
  case_match; [by rewrite drop_app_length|].
  rewrite read_exact_app by done. by rewrite <- Hb.
Qed.

Lemma read_loop_spec fuel bs start max out tail :
  (length bs < fuel)%nat → Forall readable bs → read_one start tail = None →
  read_loop fuel (concat bs ++ tail) start max out = fill max out (wanted start bs).
Proof.
  intros Hf Hbs Ht. revert fuel out Hf.
  induction Hbs as [|b bs Hb Hbs IH]; intros [|f] out Hf; try (simpl in Hf; lia).
  - simpl. rewrite Ht. by destruct (length out <? max)%nat.
  - cbn [concat read_loop]. rewrite <- app_assoc, read_one_readable by done.
    unfold wanted. destruct (Z.ltb_spec (last_off b) start).
    + rewrite filter_cons_False by lia. simpl in Hf. rewrite IH by lia. fold (wanted start bs).
      destruct (Nat.ltb_spec (length out) max); [done|].
      destruct (wanted start bs); simpl; [done|].
      by destruct (Nat.ltb_spec (length out) max); [lia|].
    + rewrite filter_cons_True by lia. simpl. destruct (Nat.ltb_spec (length out) max); [|done].
      apply IH. simpl in Hf. lia.
Qed.

Lemma readable_count bs : Forall readable bs → (length bs ≤ length (concat bs))%nat.
Proof. induction 1 as [|b bs [Hb _] _ IH]; simpl; [done|]. rewrite length_app. lia. Qed.

(** Reading from the boundary after a prefix of batches. *)
Lemma read_batches_spec pre bs start max :
  Forall readable bs →
  read_batches (concat pre ++ concat bs) (length (concat pre)) start max =
  fill max [] (wanted start bs).
Proof.
  intros Hbs. unfold read_batches. rewrite drop_app_length.
  rewrite <- (app_nil_r (concat bs)). apply read_loop_spec; [|done|done].
  rewrite app_nil_r. pose proof (readable_count bs Hbs). lia.
Qed.

(** ** The sparse index never skips a wanted batch *)

(** Batches from offset [n] on, each starting at or after the previous one's
    end. *)
Fixpoint in_order (n : Z) (bs : list (list byte)) : Prop :=
  match bs with
  | [] => True
  | b :: bs' => n ≤ first_off b ∧ first_off b ≤ last_off b ∧ in_order (last_off b + 1) bs'
  end.

Definition log_end (n : Z) (bs : list (list byte)) : Z :=
  match last bs with Some b => last_off b + 1 | None => n end.

Definition entry_bytes (e : Z * Z) : list byte := be 4 e.1 ++ be 4 e.2.

(** An entry names a batch of the log and its position. *)
Definition names_batch (base : Z) (bs : list (list byte)) (e : Z * Z) : Prop :=
  ∃ pre b post, bs = pre ++ b :: post ∧ e.1 = first_off b - base ∧
    e.2 = Z.of_nat (length (concat pre)).

Definition entry_in_range (e : Z * Z) : Prop := 0 ≤ e.1 < 2147483648 ∧ u32_ok e.2.

Definition segment_ok (s : ActiveSegment) (bs : list (list byte)) : Prop :=
  handles_open s = true ∧ log s = concat bs ∧ log_size s = Z.of_nat (length (concat bs)) ∧
  Forall readable bs ∧ in_order (meta_base s) bs ∧
  ∃ es k, index s = concat (entry_bytes <$> es) ∧ index_pos s = Z.of_nat (8 * k) ∧
    (k ≤ length es)%nat ∧ Forall (names_batch (meta_base s) bs) es ∧ Forall entry_in_range es.

Lemma in_order_snoc n bs b :
  in_order n bs → log_end n bs ≤ first_off b → first_off b ≤ last_off b → in_order n (bs ++ [b]).
Proof.
  revert n. induction bs as [|c bs IH]; intros n Hbs Hb Hl; simpl in *; [done|].
  destruct Hbs as (? & ? & Hbs). split; [done|]. split; [done|]. apply IH; [done| |done].
  unfold log_end in *. rewrite last_cons in Hb. by destruct (last bs).
Qed.

Lemma in_order_app n pre post :
  in_order n (pre ++ post) → in_order n pre ∧ in_order (log_end n pre) post.
Proof.
  revert n. induction pre as [|c pre IH]; intros n H; simpl in *; [done|].
  destruct H as (? & ? & H). apply IH in H as [? H]. split; [done|].
  unfold log_end in *. rewrite last_cons. by destruct (last pre).
Qed.

Lemma log_end_ge n bs : in_order n bs → n ≤ log_end n bs.
Proof.
  revert n. induction bs as [|c bs IH]; intros n H; simpl in *; [unfold log_end; simpl; lia|].
  destruct H as (? & ? & H). specialize (IH _ H). unfold log_end in *.
  rewrite last_cons. destruct (last bs); lia.
Qed.

Lemma in_order_le n bs b : in_order n bs → b ∈ bs → n ≤ first_off b ∧ first_off b < log_end n bs.
Proof.
  intros Ho (pre & post & ->)%list_elem_of_split.
  apply in_order_app in Ho as [Hpre Hpost]. simpl in Hpost. destruct Hpost as (Hb & Hbl & Hpost).
  pose proof (log_end_ge _ _ Hpre). split; [lia|].
  assert (log_end n (pre ++ b :: post) = log_end (last_off b + 1) post) as ->.
  { unfold log_end. rewrite last_app_cons, last_cons. by destruct (last post). }
  pose proof (log_end_ge _ _ Hpost). lia.
Qed.

Lemma in_order_last n bs b : in_order n bs → b ∈ bs → last_off b < log_end n bs.
Proof.
  intros Ho (pre & post & ->)%list_elem_of_split.
  apply in_order_app in Ho as [_ Hpost]. simpl in Hpost. destruct Hpost as (_ & _ & Hpost).
  assert (log_end n (pre ++ b :: post) = log_end (last_off b + 1) post) as ->.
  { unfold log_end. rewrite last_app_cons, last_cons. by destruct (last post). }
  pose proof (log_end_ge _ _ Hpost). lia.
Qed.

(** In an ordered log, a batch before another ends below its start. *)
Lemma in_order_before n pre c post :
  in_order n (pre ++ c :: post) → Forall (λ b, last_off b < first_off c) pre.
Proof.
  intros Ho. apply Forall_forall. intros b (p1 & p2 & ->)%list_elem_of_split.
  rewrite <- app_assoc in Ho. apply in_order_app in Ho as [_ Ho].
  simpl in Ho. destruct Ho as (_ & _ & Ho). apply in_order_app in Ho as [Hp2 Ho].
  simpl in Ho. destruct Ho as (Hc & _). pose proof (log_end_ge _ _ Hp2). lia.
Qed.

Lemma create_ok base epoch : segment_ok (create base epoch) [].
Proof. repeat split; try constructor. exists [], 0%nat. repeat split; constructor. Qed.

Lemma entry_length e : length (entry_bytes e) = 8%nat.
Proof. unfold entry_bytes. by rewrite length_app, !length_be. Qed.

Lemma entries_length es : length (concat (entry_bytes <$> es)) = (8 * length es)%nat.
Proof.
  induction es as [|e es IH]; [done|]. rewrite fmap_cons. cbn [concat length].
  rewrite length_app, IH, entry_length. lia.
Qed.

(** Writing an entry at the cursor replaces the entry there, or adds one. *)
Lemma write_entry es k e :
  (k ≤ length es)%nat →
  write_at (concat (entry_bytes <$> es)) (entry_bytes e) (8 * k) =
  concat (entry_bytes <$> take k es ++ e :: drop (S k) es).
Proof.
  intros Hk. unfold write_at. rewrite entries_length, entry_length.
  replace (8 * k - 8 * length es)%nat with 0%nat by lia. cbn [replicate app].
  rewrite <- (take_drop k es) at 1 2. rewrite !fmap_app, fmap_cons, !concat_app. cbn [concat].
  assert (length (concat (entry_bytes <$> take k es)) = 8 * k)%nat as Hl
    by (rewrite entries_length, length_take; lia).
  rewrite take_app_length' by done. rewrite drop_app_ge, Hl by lia.
  replace (8 * k + 8 - 8 * k)%nat with 8%nat by lia. do 2 f_equal.
  destruct (drop k es) as [|x post] eqn:E.
  - apply drop_nil_inv in E. by rewrite (drop_ge es (S k)) by lia.
  - rewrite fmap_cons. cbn [concat]. rewrite drop_app_length' by (symmetry; apply entry_length).
    replace (S k) with (k + 1)%nat by lia. by rewrite <- drop_drop, E.
Qed.

(** Appending the next batch keeps the invariant. *)
Lemma append_batch_ok s bs raw interval s' :
  segment_ok s bs → readable raw → log_end (meta_base s) bs ≤ first_off raw →
  first_off raw ≤ last_off raw → 0 ≤ meta_base s → first_off raw ≤ i64_max →
  Z.of_nat (length (concat bs) + length raw) ≤ u64_max →
  append_batch s raw interval = (s', Ok tt) → segment_ok s' (bs ++ [raw]) ∧ meta_base s' = meta_base s.
Proof.
  intros (Hh & Hlog & Hsz & Hrd & Hord & es & k & Hidx & Hpos & Hk & Hname & Hrng) Hr Hb Hl H0 Hmax Hlen.
  unfold append_batch. destruct (parse_batch_offsets raw) as [[[base delta] ts]|] eqn:Ep; [|done].
  rewrite Hh. assert (base = first_off raw) as ->.
  { unfold parse_batch_offsets in Ep. destruct (length raw <? 43)%nat; [done|].
    apply (inj Some) in Ep. by apply (f_equal (λ x, x.1.1)) in Ep. }
  assert (write_at (log s) raw (Z.to_nat (log_size s)) = concat (bs ++ [raw])) as Hw.
  { unfold write_at. rewrite Hsz, Nat2Z.id, Hlog, concat_app. simpl.
    rewrite take_ge, Nat.sub_diag, drop_ge by lia. simpl. by rewrite !app_nil_r. }
  assert (Forall (names_batch (meta_base s) (bs ++ [raw])) es) as Hname'.
  { eapply Forall_impl; [exact Hname|]. intros e (pre & b & post & -> & He1 & He2).
    exists pre, b, (post ++ [raw]). by rewrite <- app_assoc. }
  assert (in_order (meta_base s) (bs ++ [raw])) as Hord' by (by apply in_order_snoc).
  destruct (index_entry s interval (first_off raw)) as [entry|e] eqn:Ei; [|by intros [= <-]].
  intros [= <-]. split; [|done].
  repeat split; cbn [handles_open log log_size meta_base index]; [done| |..|].
  - rewrite Hsz, concat_app, length_app. simpl. rewrite app_nil_r. unfold sat_u64. lia.
  - by apply Forall_app; split; [|apply Forall_singleton].
  - done.
  - pose proof (log_end_ge _ _ Hord) as Hge. unfold index_entry in Ei.
    destruct (interval <=? _).
    2:{ injection Ei as <-. exists es, k. cbn. rewrite Z.add_0_r. done. }
    rewrite wrap_s_small in Ei by (unfold i64_max in *; simpl; lia).
    destruct ((_ <? _) || _) eqn:Er; [done|].
    destruct (Z.ltb_spec 4294967295 (log_size s)); [done|].
    apply (inj Ok) in Ei as <-.
    set (e := (first_off raw - meta_base s, log_size s)).
    change (be 4 (first_off raw - meta_base s) ++ be 4 (log_size s)) with (entry_bytes e).
    cbn [index_pos]. change (default [] (Some (entry_bytes e))) with (entry_bytes e).
    rewrite entry_length.
    exists (take k es ++ e :: drop (S k) es), (S k).
    split; [by rewrite Hidx, Hpos, Nat2Z.id, write_entry|].
    split; [lia|]. split; [rewrite length_app, length_cons, length_take, length_drop; lia|].
    split; apply Forall_app; (split; [by apply Forall_take|]); constructor; try by apply Forall_drop.
    + exists bs, raw, []. by rewrite <- Hsz.
    + unfold entry_in_range, u32_ok; simpl. lia.
Qed.

Lemma read_entry es i e :
  es !! i = Some e → entry_in_range e →
  read_index_entry (concat (entry_bytes <$> es)) i = e.
Proof.
  intros Hi [Hr Hp]. rewrite <- (take_drop_middle _ _ _ Hi).
  rewrite fmap_app, concat_app, fmap_cons. cbn [concat].
  set (pre := concat (entry_bytes <$> take i es)).
  assert (length pre = (i * 8)%nat) as Hl.
  { unfold pre. rewrite entries_length, length_take.
    apply lookup_lt_Some in Hi. lia. }
  unfold read_index_entry, INDEX_ENTRY_SIZE.
  rewrite !(slice_post pre), Hl by lia. rewrite Nat.sub_diag.
  replace (i * 8 + 4 - i * 8)%nat with 4%nat by lia.
  unfold entry_bytes at 1 3. rewrite <- !app_assoc.
  rewrite (slice_pre (be 4 e.1)) by (rewrite length_be; lia).
  rewrite (slice_post (be 4 e.1)), length_be, Nat.sub_diag by (rewrite length_be; lia).
  rewrite (slice_pre (be 4 e.2)) by (rewrite length_be; lia).
  unfold slice. rewrite !drop_0, !take_ge by (rewrite length_be; lia).
  rewrite sbe_be by (simpl; lia). rewrite unbe_be_small by (unfold u32_ok in Hp; simpl; lia).
  by destruct e.
Qed.

(** The position the search answers is a batch boundary, and everything before
    it ends below the target. *)
Lemma search_finds_boundary s bs target :
  segment_ok s bs → 0 ≤ meta_base s → meta_base s ≤ target ≤ i64_max →
  (∀ b, b ∈ bs → first_off b - meta_base s < 2147483648) →
  ∃ pre post, bs = pre ++ post ∧
    search_index_bytes (index s) (meta_base s) target = Z.of_nat (length (concat pre)) ∧
    Forall (λ b, last_off b < target) pre.
Proof.
  intros (_ & _ & _ & _ & Hord & es & k & Hidx & _ & _ & Hname & Hrng) H0 Ht Hsmall.
  unfold search_index_bytes. rewrite Hidx, entries_length. unfold INDEX_ENTRY_SIZE.
  rewrite Nat.mul_comm, Nat.div_mul by lia.
  rewrite wrap_s_small by (unfold i64_max in *; simpl; lia).
  assert (∀ (j : nat) e, es !! j = Some e → e.1 ≤ target - meta_base s →
    ∃ pre post, bs = pre ++ post ∧ (read_index_entry (index s) j).2 = Z.of_nat (length (concat pre)) ∧
      Forall (λ b, last_off b < target) pre) as Hentry.
  { intros j e Hk Hle. rewrite Forall_forall in Hname, Hrng.
    apply list_elem_of_lookup_2 in Hk as Hin. rewrite Hidx, (read_entry _ _ _ Hk) by auto.
    destruct (Hname e Hin) as (pre & b & post & -> & He1 & He2).
    exists pre, (b :: post). split; [done|]. split; [done|].
    pose proof (in_order_before _ _ _ _ Hord) as Hf.
    eapply Forall_impl; [exact Hf|]. simpl. lia. }
  assert (∃ pre post, bs = pre ++ post ∧ 0 = Z.of_nat (length (concat pre)) ∧
    Forall (λ b, last_off b < target) pre) as Hzero by (by exists [], bs).
  destruct (Nat.eqb_spec (length es) 0) as [|Hne]; [done|].
  destruct ((_ <? _) || _) eqn:Eov.
  { destruct (lookup_lt_is_Some_2 es (length es - 1) ltac:(lia)) as [e He].
    rewrite <- Hidx. apply (Hentry _ e He). rewrite Forall_forall in Hrng.
    destruct (Hrng e) as [[? ?] _]; [by eapply list_elem_of_lookup_2|]. lia. }
  destruct (Z.ltb_spec (target - meta_base s) 0); [lia|].
  rewrite <- Hidx.
  apply (search_loop_below (λ pos, ∃ pre post, bs = pre ++ post ∧ pos = Z.of_nat (length (concat pre)) ∧
    Forall (λ b, last_off b < target) pre) _ _ (Z.of_nat (length es))); [lia..|done|].
  intros i Hi Hle. destruct (lookup_lt_is_Some_2 es (Z.to_nat i) ltac:(lia)) as [e He].
  apply (Hentry _ e He). rewrite Hidx, (read_entry _ _ _ He) in Hle; [done|].
  rewrite Forall_forall in Hrng. apply Hrng. by eapply list_elem_of_lookup_2.
Qed.

Lemma wanted_drop target pre post :
  Forall (λ b, last_off b < target) pre → wanted target (pre ++ post) = wanted target post.
Proof.
  intros Hp. unfold wanted. rewrite filter_app. 
  induction Hp as [|b pre Hb Hp IH]; [done|]. by rewrite filter_cons_False by lia.
Qed.

Lemma read_through_index s bs target max :
  segment_ok s bs → 0 ≤ meta_base s → meta_base s ≤ target ≤ i64_max →
  (∀ b, b ∈ bs → first_off b - meta_base s < 2147483648) →
  read_batches (log s) (Z.to_nat (search_index_bytes (index s) (meta_base s) target)) target max =
    fill max [] (wanted target bs).
Proof.
  intros Hs H0 Ht Hsmall.
  destruct (search_finds_boundary s bs target Hs H0 Ht Hsmall) as (pre & post & -> & -> & Hpre).
  destruct Hs as (_ & -> & _ & Hrd & _). apply Forall_app in Hrd as [_ Hrd].
  rewrite Nat2Z.id, concat_app, read_batches_spec, wanted_drop by done. done.
Qed.

(** Reading through the sparse index is reading the whole segment: for any
    segment built by appends, a fetch that starts at the position the index
    answers returns exactly the batches whose last offset reaches the requested
    offset, in order, filled up to the byte limit, none of them skipped. *)
Theorem indexed_read_complete s bs target max :
  segment_ok s bs → 0 ≤ meta_base s → meta_base s ≤ target ≤ i64_max →
  (∀ b, b ∈ bs → first_off b - meta_base s < 2147483648) →
  read_batches (log s) (Z.to_nat (search_index_bytes (index s) (meta_base s) target)) target max =
    fill max [] (wanted target bs).
Proof. apply read_through_index. Qed.

(** Two one-record batches at offsets 0 and 1 in a segment indexed on every
    append. *)
Definition mk_batch (off : Z) : list byte :=
  be 8 off ++ be 4 31 ++ be 11 0 ++ be 4 0 ++ be 16 0.
Definition seg2 : ActiveSegment :=
  (append_batch (append_batch (create 0 0) (mk_batch 0) 0).1 (mk_batch 1) 0).1.

Lemma seg2_ok : segment_ok seg2 [mk_batch 0; mk_batch 1].
Proof.
  assert (segment_ok (append_batch (create 0 0) (mk_batch 0) 0).1 [mk_batch 0] ∧
    meta_base (append_batch (create 0 0) (mk_batch 0) 0).1 = 0) as [H1 M1].
  { apply (append_batch_ok (create 0 0) [] (mk_batch 0) 0);
      [apply create_ok|split; [vm_compute; lia|reflexivity]|vm_compute; congruence..|reflexivity]. }
  apply (append_batch_ok _ [mk_batch 0] (mk_batch 1) 0 seg2 H1);
    [split; [vm_compute; lia|reflexivity]|vm_compute; congruence..|reflexivity].
Qed.

Lemma indexed_read_complete_witness :
  read_batches (log seg2) (Z.to_nat (search_index_bytes (index seg2) (meta_base seg2) 1)) 1 100 =
    mk_batch 1.
Proof.
  rewrite (indexed_read_complete seg2 [mk_batch 0; mk_batch 1] 1 100 seg2_ok).
  - vm_compute. reflexivity.
  - vm_compute. congruence.
  - vm_compute. split; congruence.
  - intros b [->|[->|[]%not_elem_of_nil]%elem_of_cons]%elem_of_cons; vm_compute; reflexivity.
Defined.
