(* ===== verification/SegmentDir.v ===== *)
(** * Segment files of a partition directory ([kaas-storage/src/segment.rs])

    File names ([{epoch:08x}-{base_offset:020}.log]), the parser that reads both
    the epoch-prefixed and the older form, and [list_segments], which decides what
    log a directory holds.  A directory is the map of its file names to their
    contents. *)

From stdpp Require Import base gmap strings list sorting.
From Stdlib Require Import Strings.Ascii Strings.Byte.
From S2P Require Import Prelude Primitives Wire Segment.

Local Open Scope Z_scope.

(** ** Numbers in file names *)

Definition digit_char (d : Z) : ascii :=
  ascii_of_N (Z.to_N (if d <? 10 then 48 + d else 87 + d)).

(** [char::to_digit(radix)]. *)
Definition char_digit (radix : Z) (c : ascii) : option Z :=
  let n := Z.of_N (N_of_ascii c) in
  let d := if (48 <=? n) && (n <=? 57) then n - 48
           else if (97 <=? n) && (n <=? 122) then n - 87
           else if (65 <=? n) && (n <=? 90) then n - 55 else 36 in
  if d <? radix then Some d else None.

(** The digits of a number, most significant first; 64 turns are enough for any
    64-bit number. *)
Fixpoint to_digits (fuel : nat) (radix z : Z) (acc : list Z) : list Z :=
  match fuel with
  | O => acc
  | S f => if z <? radix then z :: acc else to_digits f radix (z / radix) (z mod radix :: acc)
  end.

Definition digits_string (ds : list Z) : string := foldr (λ d s, String (digit_char d) s) "" ds.

(** [{:0width}] and [{:0width x}]: zero-padded, the sign counted in the width. *)
Definition pad (width : nat) (ds : list Z) : list Z := replicate (width - length ds) 0 ++ ds.

Definition format_padded (radix : Z) (width : nat) (z : Z) : string :=
  if z <? 0 then String "-" (digits_string (pad (width - 1) (to_digits 64 radix (- z) [])))
  else digits_string (pad width (to_digits 64 radix z [])).

Fixpoint radix_value (radix acc : Z) (s : string) : option Z :=
  match s with
  | EmptyString => Some acc
  | String c s' => d ← char_digit radix c; radix_value radix (acc * radix + d) s'
  end.

Definition parse_unsigned (radix : Z) (s : string) : option Z :=
  match s with EmptyString => None | _ => radix_value radix 0 s end.

(** [i64::from_str]. *)
Definition parse_i64 (s : string) : option Z :=
  v ← match s with
      | String "-"%char s' => Z.opp <$> parse_unsigned 10 s'
      | String "+"%char s' => parse_unsigned 10 s'
      | _ => parse_unsigned 10 s
      end;
  if (- i64_max - 1 <=? v) && (v <=? i64_max) then Some v else None.

(** [u32::from_str_radix(_, 16)]. *)
Definition parse_u32_hex (s : string) : option Z :=
  v ← match s with String "+"%char s' => parse_unsigned 16 s' | _ => parse_unsigned 16 s end;
  if v <=? 4294967295 then Some v else None.

(** ** Names *)

Definition LOG_EXT : string := ".log".
Definition INDEX_EXT : string := ".index".
Definition SEALED_EXT : string := ".log.sealed".

Definition i64_low_u32 (v : Z) : Z := wrap_u 32 v.

Definition epoch_prefixed_stem (base_offset epoch : Z) : string :=
  format_padded 16 8 (i64_low_u32 epoch) +:+ "-" +:+ format_padded 10 20 base_offset.

Definition segment_log_path (base_offset epoch : Z) : string :=
  epoch_prefixed_stem base_offset epoch +:+ LOG_EXT.
Definition segment_index_path (base_offset epoch : Z) : string :=
  epoch_prefixed_stem base_offset epoch +:+ INDEX_EXT.
Definition legacy_segment_log_path (base_offset : Z) : string :=
  format_padded 10 20 base_offset +:+ LOG_EXT.

(** [split_once('-')]. *)
Fixpoint split_dash (s : string) : option (string * string) :=
  match s with
  | EmptyString => None
  | String c s' =>
    if decide (c = "-"%char) then Some (EmptyString, s')
    else '(a, b) ← split_dash s'; Some (String c a, b)
  end.

(** [(base_offset, epoch)]. *)
Definition parse_segment_stem (stem : string) : option (Z * Z) :=
  match split_dash stem with
  | Some (epoch_part, base_part) =>
    epoch ← parse_u32_hex epoch_part; base ← parse_i64 base_part; Some (base, epoch)
  | None => base ← parse_i64 stem; Some (base, 0)
  end.

(** [ends_with], with the prefix it leaves. *)
Fixpoint strip_suffix (suf s : string) : option string :=
  if decide (s = suf) then Some EmptyString
  else match s with
       | EmptyString => None
       | String c s' => String c <$> strip_suffix suf s'
       end.

(** ** [list_segments] *)

Notation Files := (gmap string (list byte)).

(** One directory entry: [None] unless it is the log of a segment.  The stem is
    kept, the paths of the segment being derived from it. *)
Definition segment_of (files : Files) (name : string) : option (string * SegmentMeta) :=
  stem ← strip_suffix LOG_EXT name;
  if strip_suffix SEALED_EXT name then None
  else
    '(base, epoch) ← parse_segment_stem stem;
    let log := default [] (files !! name) in
    Some (stem, {| base_offset := base; seg_epoch := epoch; size := Z.of_nat (length log);
                   max_timestamp := UNKNOWN_MAX_TIMESTAMP; log_file := log;
                   index_file := default [] (files !! (stem +:+ INDEX_EXT)) |}).

(** The key [(base_offset, Reverse(epoch))]. *)
Definition key_le (x y : string * SegmentMeta) : Prop :=
  base_offset x.2 < base_offset y.2 ∨
  base_offset x.2 = base_offset y.2 ∧ seg_epoch y.2 ≤ seg_epoch x.2.

#[global] Instance key_le_dec x y : Decision (key_le x y).
Proof. unfold key_le. apply _. Defined.
#[global] Instance key_le_total : Total key_le.
Proof. intros x y. unfold key_le. lia. Qed.
#[global] Instance key_le_trans : Transitive key_le.
Proof. intros x y z. unfold key_le. lia. Qed.

(** [dedup_by_key(base_offset)] keeps the first of a run. *)
Fixpoint dedup_bases (l : list (string * SegmentMeta)) : list (string * SegmentMeta) :=
  match l with
  | [] => []
  | x :: l' =>
    match dedup_bases l' with
    | y :: r => if base_offset x.2 =? base_offset y.2 then x :: r else x :: y :: r
    | [] => [x]
    end
  end.

Definition list_segments (files : Files) : list (string * SegmentMeta) :=
  dedup_bases (merge_sort key_le (omap (segment_of files) (map_to_list files).*1)).

(** ** Names are read back *)

Lemma digit_cases (P : Z → Prop) :
  Forall P (seqZ 0 16) → ∀ d, 0 ≤ d < 16 → P d.
Proof. rewrite Forall_forall. intros H d Hd. apply H, elem_of_seqZ. lia. Qed.

Lemma char_digit_char radix d : 0 ≤ d < radix → radix ≤ 16 → char_digit radix (digit_char d) = Some d.
Proof.
  intros Hd Hr. assert (char_digit 16 (digit_char d) = Some d) as H.
  { revert d Hd. intros d Hd. apply (digit_cases (λ d, char_digit 16 (digit_char d) = Some d)); [|lia].
    by repeat constructor. }
  unfold char_digit in *. revert H. generalize (Z.of_N (N_of_ascii (digit_char d))). intros n.
  repeat case_match; intros; simplify_eq; try done; lia.
Qed.

Lemma digit_char_sign d : 0 ≤ d < 16 → digit_char d ≠ "-"%char ∧ digit_char d ≠ "+"%char.
Proof.
  intros Hd. apply (digit_cases (λ d, digit_char d ≠ "-"%char ∧ digit_char d ≠ "+"%char)); [|lia].
  repeat constructor; vm_compute; discriminate.
Qed.

(** The number a digit sequence denotes. *)
Definition dval (radix acc : Z) (ds : list Z) : Z := foldl (λ a d, a * radix + d) acc ds.

Lemma to_digits_nonempty fuel radix z acc : acc ≠ [] ∨ fuel ≠ 0%nat → to_digits fuel radix z acc ≠ [].
Proof.
  revert z acc. induction fuel as [|f IH]; intros z acc H; cbn; [naive_solver|].
  case_match; [done|]. apply IH. by left.
Qed.

Lemma to_digits_spec fuel radix z acc :
  1 < radix → 0 ≤ z < radix ^ Z.of_nat fuel → Forall (λ d, 0 ≤ d < radix) acc →
  let ds := to_digits fuel radix z acc in
  dval radix 0 ds = dval radix z acc ∧ Forall (λ d, 0 ≤ d < radix) ds.
Proof.
  intros Hr. revert z acc. induction fuel as [|f IH]; intros z acc Hz Hacc; cbn [to_digits].
  { change (radix ^ Z.of_nat 0) with 1 in Hz. by replace z with 0 by lia. }
  destruct (Z.ltb_spec z radix).
  { cbn. split; [done|]. by constructor; [lia|]. }
  pose proof (Z.mod_pos_bound z radix ltac:(lia)). pose proof (Z.div_mod z radix ltac:(lia)).
  destruct (IH (z / radix) (z mod radix :: acc)) as (Hv & Hd).
  { split; [apply Z.div_pos; lia|]. apply Z.div_lt_upper_bound; [lia|].
    rewrite Nat2Z.inj_succ, Z.pow_succ_r in Hz by lia. lia. }
  { by constructor. }
  split; [|done]. rewrite Hv. cbn. f_equal. lia.
Qed.

Lemma dval_pad radix w ds : dval radix 0 (pad w ds) = dval radix 0 ds.
Proof.
  unfold pad, dval. rewrite foldl_app. f_equal.
  induction (w - length ds)%nat as [|n IH]; [done|]. cbn. done.
Qed.

Lemma pad_digits radix w ds :
  0 < radix → Forall (λ d, 0 ≤ d < radix) ds → Forall (λ d, 0 ≤ d < radix) (pad w ds).
Proof. intros Hr Hd. apply Forall_app. split; [|done]. apply Forall_replicate. lia. Qed.

Lemma radix_value_digits radix acc ds :
  radix ≤ 16 → Forall (λ d, 0 ≤ d < radix) ds →
  radix_value radix acc (digits_string ds) = Some (dval radix acc ds).
Proof.
  intros Hr Hd. revert acc. induction Hd as [|d ds Hd Hds IH]; intros acc; [done|]. cbn.
  rewrite char_digit_char by lia. cbn. apply IH.
Qed.

Lemma parse_unsigned_digits radix d ds :
  radix ≤ 16 → Forall (λ d, 0 ≤ d < radix) (d :: ds) →
  parse_unsigned radix (digits_string (d :: ds)) = Some (dval radix 0 (d :: ds)).
Proof. intros Hr Hd. by apply (radix_value_digits radix 0 (d :: ds)). Qed.

(** Reading the number back through a parser that first looks at a sign. *)
Lemma format_digits radix w z :
  1 < radix ≤ 16 → 0 ≤ z ≤ u64_max →
  ∃ d ds, format_padded radix w z = digits_string (d :: ds) ∧
    Forall (λ d, 0 ≤ d < radix) (d :: ds) ∧ dval radix 0 (d :: ds) = z.
Proof.
  intros Hr Hz. unfold format_padded. destruct (Z.ltb_spec z 0); [lia|].
  destruct (to_digits_spec 64 radix z []) as (Hv & Hd); [lia| |constructor|].
  { split; [lia|]. apply Z.le_lt_trans with (2 ^ Z.of_nat 64 - 1); [unfold u64_max in Hz; lia|].
    assert (2 ^ Z.of_nat 64 ≤ radix ^ Z.of_nat 64) by (apply Z.pow_le_mono_l; lia). lia. }
  apply (pad_digits _ w) in Hd; [|lia]. rewrite <- (dval_pad _ w) in Hv.
  destruct (pad w (to_digits 64 radix z [])) as [|d ds] eqn:E.
  - apply app_nil in E as [_ E]. by apply to_digits_nonempty in E; [|right].
  - by exists d, ds.
Qed.

Lemma parse_i64_format z : 0 ≤ z ≤ i64_max → parse_i64 (format_padded 10 20 z) = Some z.
Proof.
  intros Hz. destruct (format_digits 10 20 z) as (d & ds & -> & Hd & Hv); [lia|unfold i64_max, u64_max in *; lia|].
  assert (parse_i64 (digits_string (d :: ds)) =
    (v ← parse_unsigned 10 (digits_string (d :: ds));
     if (- i64_max - 1 <=? v) && (v <=? i64_max) then Some v else None)) as ->.
  { apply Forall_cons in Hd as [Hd _].
    clear Hv. pattern d. apply digit_cases; [|lia].
    by repeat constructor. }
  rewrite parse_unsigned_digits, Hv by (done || lia). cbn.
  destruct (Z.leb_spec (- i64_max - 1) z); [|lia]. by destruct (Z.leb_spec z i64_max); [|lia].
Qed.

Lemma parse_u32_format z : 0 ≤ z < 2 ^ 32 → parse_u32_hex (format_padded 16 8 z) = Some z.
Proof.
  intros Hz. destruct (format_digits 16 8 z) as (d & ds & -> & Hd & Hv); [lia|unfold u64_max in *; lia|].
  assert (parse_u32_hex (digits_string (d :: ds)) =
    (v ← parse_unsigned 16 (digits_string (d :: ds)); if v <=? 4294967295 then Some v else None)) as ->.
  { apply Forall_cons in Hd as [Hd _].
    clear Hv. pattern d. apply digit_cases; [|lia].
    by repeat constructor. }
  rewrite parse_unsigned_digits, Hv by (done || lia). cbn.
  by destruct (Z.leb_spec z 4294967295); [|lia].
Qed.

Lemma split_dash_digits radix ds t :
  radix ≤ 16 → Forall (λ d, 0 ≤ d < radix) ds →
  split_dash (digits_string ds +:+ "-" +:+ t) = Some (digits_string ds, t).
Proof.
  intros Hr Hd. induction Hd as [|d ds Hd Hds IH]; [done|].
  change (digits_string (d :: ds)) with (String (digit_char d) (digits_string ds)).
  change (String (digit_char d) (digits_string ds) +:+ "-" +:+ t)
    with (String (digit_char d) (digits_string ds +:+ "-" +:+ t)). cbn [split_dash].
  rewrite decide_False by (apply digit_char_sign; lia). by rewrite IH.
Qed.

(** The name of a segment file is read back as its base offset and epoch. *)
Lemma parse_stem base epoch :
  0 ≤ base ≤ i64_max → 0 ≤ epoch < 2 ^ 32 →
  parse_segment_stem (epoch_prefixed_stem base epoch) = Some (base, epoch).
Proof.
  intros Hb He. unfold parse_segment_stem, epoch_prefixed_stem, i64_low_u32.
  rewrite wrap_u_small by done.
  pose proof (parse_u32_format epoch He) as Hp.
  destruct (format_digits 16 8 epoch) as (d & ds & Hf & Hd & _); [lia|unfold u64_max; lia|].
  rewrite Hf in *. rewrite (split_dash_digits 16) by (done || lia).
  rewrite Hp. cbn [mbind option_bind]. by rewrite parse_i64_format.
Qed.

Lemma strip_suffix_inv suf s t : strip_suffix suf s = Some t → s = t +:+ suf.
Proof.
  revert t. induction s as [|c s IH]; intros t; cbn; (destruct (decide _) as [<-|]; [by intros [= <-]|]); [done|].
  destruct (strip_suffix suf s) as [t'|]; [|done]. intros [= <-]. by rewrite (IH t').
Qed.

Lemma length_append (a b : string) : String.length (a +:+ b) = (String.length a + String.length b)%nat.
Proof. induction a as [|c a IH]; cbn; [done|]. by rewrite <- IH. Qed.

Lemma strip_suffix_app suf s : strip_suffix suf (s +:+ suf) = Some s.
Proof.
  induction s as [|c s IH].
  - change ("" +:+ suf) with suf. destruct suf; cbn; by rewrite decide_True.
  - change (String c s +:+ suf) with (String c (s +:+ suf)). cbn [strip_suffix].
    rewrite decide_False, IH; [done|]. intros Hl. apply (f_equal String.length) in Hl.
    cbn in Hl. rewrite length_append in Hl. lia.
Qed.

(** The last character of a name. *)
Fixpoint last_char (s : string) : option ascii :=
  match s with
  | EmptyString => None
  | String c EmptyString => Some c
  | String _ s' => last_char s'
  end.

Lemma last_char_app a c b : last_char (a +:+ String c b) = last_char (String c b).
Proof.
  induction a as [|x a IH]; [done|]. change (String x a +:+ String c b) with (String x (a +:+ String c b)).
  rewrite <- IH. by destruct a.
Qed.

Lemma strip_suffix_none suf s c t :
  last_char (String c t) ≠ last_char suf → suf ≠ EmptyString → strip_suffix suf (s +:+ String c t) = None.
Proof.
  intros Hl Hs. destruct (strip_suffix _ _) eqn:E; [|done]. apply strip_suffix_inv in E.
  apply (f_equal last_char) in E. destruct suf as [|d suf]; [done|]. by rewrite !last_char_app in E.
Qed.

(** ** What a directory lists *)

Definition stem_of (m : SegmentMeta) : string := epoch_prefixed_stem (base_offset m) (seg_epoch m).

(** The files a set of segments occupies. *)
Definition entries_of (m : SegmentMeta) : list (string * list byte) :=
  [(stem_of m +:+ LOG_EXT, log_file m); (stem_of m +:+ INDEX_EXT, index_file m)].
Definition files_of (segs : list SegmentMeta) : Files := list_to_map (segs ≫= entries_of).

(** A listed segment has no largest timestamp, nothing on disk recording it. *)
Definition listed (m : SegmentMeta) : SegmentMeta :=
  {| base_offset := base_offset m; seg_epoch := seg_epoch m; size := Z.of_nat (length (log_file m));
     max_timestamp := UNKNOWN_MAX_TIMESTAMP; log_file := log_file m; index_file := index_file m |}.

Definition seg_key (m : SegmentMeta) : Z * Z := (base_offset m, seg_epoch m).
Definition key_ok (k : Z * Z) : Prop := 0 ≤ k.1 ≤ i64_max ∧ 0 ≤ k.2 < 2 ^ 32.
Definition name_ok (m : SegmentMeta) : Prop := key_ok (seg_key m).

Lemma parse_stem_of m : name_ok m → parse_segment_stem (stem_of m) = Some (seg_key m).
Proof. intros [? ?]. by apply parse_stem. Qed.

Lemma stem_inj m m' : name_ok m → name_ok m' → stem_of m = stem_of m' → seg_key m = seg_key m'.
Proof.
  intros Hm Hm' H. apply (f_equal parse_segment_stem) in H. rewrite !parse_stem_of in H by done. congruence.
Qed.

Lemma append_inj_l (a b c : string) : a +:+ c = b +:+ c → a = b.
Proof.
  intros H. apply (f_equal (strip_suffix c)) in H. rewrite !strip_suffix_app in H. congruence.
Qed.

Lemma index_is_not_log (a b : string) : a +:+ LOG_EXT ≠ b +:+ INDEX_EXT.
Proof. intros H. apply (f_equal last_char) in H. unfold LOG_EXT, INDEX_EXT in H. by rewrite !last_char_app in H. Qed.

Lemma entries_nodup segs :
  Forall name_ok segs → NoDup (seg_key <$> segs) → NoDup (segs ≫= entries_of).*1.
Proof.
  induction segs as [|m segs IH]; intros Hn Hd; [constructor|].
  apply Forall_cons in Hn as [Hm Hn]. rewrite fmap_cons, NoDup_cons in Hd. destruct Hd as [Hd Hds].
  assert (∀ nm d, (nm, d) ∈ segs ≫= entries_of → nm ≠ stem_of m +:+ LOG_EXT ∧ nm ≠ stem_of m +:+ INDEX_EXT) as Hne.
  { intros nm d (m' & Hm' & Hin)%list_elem_of_bind. rewrite Forall_forall in Hn.
    assert (stem_of m' ≠ stem_of m) as Hs.
    { intros Hs. apply Hd. apply stem_inj in Hs; [|by apply Hn|done]. rewrite <- Hs. by apply list_elem_of_fmap_2. }
    apply elem_of_cons in Hm' as [[= -> ->]|[[= -> ->]|[]%not_elem_of_nil]%elem_of_cons];
      split; intros H; try (by apply append_inj_l in H); [|symmetry in H]; by apply index_is_not_log in H. }
  cbn. apply NoDup_cons. split; [|apply NoDup_cons; split].
  - intros [H|H]%elem_of_cons; [by apply index_is_not_log in H|].
    apply list_elem_of_fmap in H as ([nm d] & Hnm & Hin). apply Hne in Hin as [Hin _]. by subst.
  - intros H. apply list_elem_of_fmap in H as ([nm d] & Hnm & Hin). apply Hne in Hin as [_ Hin]. by subst.
  - by apply IH.
Qed.

Lemma files_of_lookup segs m :
  Forall name_ok segs → NoDup (seg_key <$> segs) → m ∈ segs →
  files_of segs !! (stem_of m +:+ LOG_EXT) = Some (log_file m) ∧
  files_of segs !! (stem_of m +:+ INDEX_EXT) = Some (index_file m).
Proof.
  intros Hn Hd Hm. pose proof (entries_nodup segs Hn Hd) as Hnd. unfold files_of.
  split; apply elem_of_list_to_map_1; [done| |done|]; apply list_elem_of_bind; exists m;
    (split; [|done]); unfold entries_of; set_solver.
Qed.

Lemma segment_of_log files m :
  name_ok m → files !! (stem_of m +:+ LOG_EXT) = Some (log_file m) →
  files !! (stem_of m +:+ INDEX_EXT) = Some (index_file m) →
  segment_of files (stem_of m +:+ LOG_EXT) = Some (stem_of m, listed m).
Proof.
  intros Hm Hl Hi. unfold segment_of. rewrite strip_suffix_app. cbn [mbind option_bind].
  assert (strip_suffix SEALED_EXT (stem_of m +:+ LOG_EXT) = None) as -> by (by apply strip_suffix_none).
  rewrite parse_stem_of by done. cbn [mbind option_bind seg_key]. by rewrite Hl, Hi.
Qed.

Lemma segment_of_index files stem : segment_of files (stem +:+ INDEX_EXT) = None.
Proof.
  unfold segment_of. assert (strip_suffix LOG_EXT (stem +:+ INDEX_EXT) = None) as ->; [|done].
  by apply strip_suffix_none.
Qed.

Lemma omap_segment_of segs x :
  Forall name_ok segs → NoDup (seg_key <$> segs) →
  x ∈ omap (segment_of (files_of segs)) (map_to_list (files_of segs)).*1 ↔
  ∃ m, m ∈ segs ∧ x = (stem_of m, listed m).
Proof.
  intros Hn Hd. rewrite list_elem_of_omap. split.
  - intros (nm & Hnm & Hx). apply list_elem_of_fmap in Hnm as ([nm' d] & -> & Hin).
    apply elem_of_map_to_list in Hin. apply elem_of_list_to_map_2 in Hin.
    apply list_elem_of_bind in Hin as (m & Hnd & Hm).
    destruct (files_of_lookup segs m Hn Hd Hm) as [Hl Hi]. rewrite Forall_forall in Hn.
    apply elem_of_cons in Hnd as [[= -> ->]|[[= -> ->]|[]%not_elem_of_nil]%elem_of_cons]; cbn [fst] in Hx.
    + rewrite segment_of_log in Hx by auto. exists m. split; [done|congruence].
    + by rewrite segment_of_index in Hx.
  - intros (m & Hm & ->). destruct (files_of_lookup segs m Hn Hd Hm) as [Hl Hi].
    exists (stem_of m +:+ LOG_EXT). rewrite Forall_forall in Hn. split; [|by apply segment_of_log; auto].
    apply list_elem_of_fmap. exists (stem_of m +:+ LOG_EXT, log_file m). split; [done|].
    by apply elem_of_map_to_list.
Qed.

Definition base_lt (x y : string * SegmentMeta) : Prop := base_offset x.2 < base_offset y.2.

Lemma dedup_spec l :
  StronglySorted key_le l →
  StronglySorted base_lt (dedup_bases l) ∧
  (∀ x, x ∈ dedup_bases l → x ∈ l ∧ ∀ y, y ∈ l → base_offset y.2 = base_offset x.2 → key_le x y) ∧
  (∀ y, y ∈ l → ∃ x, x ∈ dedup_bases l ∧ base_offset x.2 = base_offset y.2).
Proof.
  induction 1 as [|x l Hs (IHs & IHd & IHc) Hx]; [repeat split; set_solver by constructor|].
  rewrite Forall_forall in Hx.
  assert (∀ y, y ∈ x :: l → base_offset y.2 = base_offset x.2 → key_le x y) as Hx'.
  { intros y [->|Hy]%elem_of_cons _; [unfold key_le; lia|by apply Hx]. }
  cbn [dedup_bases]. destruct (dedup_bases l) as [|y r] eqn:E.
  - assert (l = []) as ->.
    { destruct l as [|z l]; [done|]. destruct (IHc z) as (? & []%not_elem_of_nil & _). by left. }
    split; [repeat constructor|]. split; intros z Hz; apply list_elem_of_singleton in Hz as ->.
    + split; [by left|done].
    + exists x. set_solver.
  - apply StronglySorted_inv in IHs as [IHs IHy]. rewrite Forall_forall in IHy.
    destruct (IHd y) as [Hyl Hy]; [by left|]. pose proof (Hx y Hyl) as Hxy.
    destruct (Z.eqb_spec (base_offset x.2) (base_offset y.2)) as [He|He].
    + split; [constructor; [done|]; apply Forall_forall; intros z Hz; specialize (IHy z Hz); unfold base_lt in *; lia|].
      split.
      * intros z [->|Hz]%elem_of_cons; [split; [by left|done]|].
        destruct (IHd z) as [Hzl Hzk]; [by right|]. split; [by right|].
        intros w [->|Hw]%elem_of_cons Hwz; [|by apply Hzk]. specialize (IHy z Hz). unfold base_lt in *. lia.
      * intros z [->|Hz]%elem_of_cons; [exists x; set_solver|].
        destruct (IHc z Hz) as (w & [->|Hw]%elem_of_cons & Hwz); [exists x|exists w]; set_solver by lia.
    + assert (base_offset x.2 < base_offset y.2) by (unfold key_le in Hxy; lia).
      assert (∀ z, z ∈ l → base_offset x.2 < base_offset z.2) as Hlt.
      { intros z Hz. destruct (IHc z Hz) as (w & [->|Hw]%elem_of_cons & <-); [done|].
        specialize (IHy w Hw). unfold base_lt in IHy. lia. }
      split; [|split].
      * constructor; [by constructor; [|rewrite Forall_forall]|]. apply Forall_forall. intros z Hz.
        destruct (IHd z Hz) as [Hzl _]. by apply Hlt.
      * intros z [->|Hz]%elem_of_cons; [split; [by left|done]|].
        destruct (IHd z Hz) as [Hzl Hzk]. split; [by right|].
        intros w [->|Hw]%elem_of_cons Hwz; [|by apply Hzk]. specialize (Hlt z Hzl). lia.
      * intros z [->|Hz]%elem_of_cons; [exists x; set_solver|].
        destruct (IHc z Hz) as (w & Hw & Hwz). exists w. set_solver.
Qed.

Lemma listing_spec segs :
  Forall name_ok segs → NoDup (seg_key <$> segs) →
  StronglySorted base_lt (list_segments (files_of segs)) ∧
  ∀ x, x ∈ list_segments (files_of segs) ↔
    ∃ m, m ∈ segs ∧ x = (stem_of m, listed m) ∧
      ∀ m', m' ∈ segs → base_offset m' = base_offset m → seg_epoch m' ≤ seg_epoch m.
Proof.
  intros Hn Hd. unfold list_segments. set (l := omap _ _).
  assert (∀ x, x ∈ merge_sort key_le l ↔ ∃ m, m ∈ segs ∧ x = (stem_of m, listed m)) as Hl.
  { intros x. rewrite merge_sort_Permutation. by apply omap_segment_of. }
  destruct (dedup_spec (merge_sort key_le l)) as (Hs & Hin & Hc); [by apply StronglySorted_merge_sort; apply _|].
  split; [done|]. intros x. split.
  - intros Hx. destruct (Hin x Hx) as [Hxl Hk]. apply Hl in Hxl as (m & Hm & ->).
    exists m. split; [done|]. split; [done|]. intros m' Hm' Hb.
    destruct (Hk (stem_of m', listed m')) as [H|[_ H]]; [by apply Hl; eauto|done| |done]. cbn in H. lia.
  - intros (m & Hm & -> & Hmax).
    destruct (Hc (stem_of m, listed m)) as (y & Hy & Hb); [by apply Hl; eauto|].
    destruct (Hin y Hy) as [Hyl Hk]. apply Hl in Hyl as (m' & Hm' & ->). cbn in Hb.
    destruct (Hk (stem_of m, listed m)) as [H|[_ H]]; [by apply Hl; eauto|done|cbn in H; lia|]. cbn in H.
    assert (m' = m) as ->; [|done]. specialize (Hmax m' Hm' Hb).
    apply list_elem_of_lookup in Hm as [i Hi], Hm' as [j Hj].
    assert (i = j) as ->; [|congruence]. eapply NoDup_lookup; [exact Hd|..]; rewrite list_lookup_fmap, ?Hi, ?Hj; cbn;
      [done|]. unfold seg_key. f_equal. f_equal; lia.
Qed.

Lemma base_lt_nodup l : StronglySorted base_lt l → NoDup l.
Proof.
  induction 1 as [|x l Hs IH Hx]; constructor; [|done]. intros H. rewrite Forall_forall in Hx.
  specialize (Hx x H). unfold base_lt in Hx. lia.
Qed.

Lemma sorted_keys segs :
  StronglySorted (λ x y, x.1 < y.1) (seg_key <$> segs) ↔
  StronglySorted (λ x y, base_offset x < base_offset y) segs.
Proof.
  induction segs as [|m segs IH]; [split; constructor|]. rewrite fmap_cons. split.
  - intros [Hs Hm]%StronglySorted_inv. rewrite Forall_fmap in Hm. constructor; [by apply IH|exact Hm].
  - intros [Hs Hm]%StronglySorted_inv. constructor; [by apply IH|]. rewrite Forall_fmap. exact Hm.
Qed.

(** Segments in offset order are listed as they are. *)
Lemma list_segments_sorted segs :
  Forall key_ok (seg_key <$> segs) → StronglySorted (λ x y, x.1 < y.1) (seg_key <$> segs) →
  list_segments (files_of segs) = (λ m, (stem_of m, listed m)) <$> segs.
Proof.
  intros Hn Hs%sorted_keys. rewrite Forall_fmap in Hn. change (Forall name_ok segs) in Hn.
  assert (∀ m m', m ∈ segs → m' ∈ segs → base_offset m = base_offset m' → m = m') as Hinj.
  { clear Hn. induction Hs as [|x l Hs IH Hx]; [set_solver|]. rewrite Forall_forall in Hx.
    intros m m' [->|Hm]%elem_of_cons [->|Hm']%elem_of_cons He;
      [done|specialize (Hx m' Hm'); lia|specialize (Hx m Hm); lia|by apply IH]. }
  assert (StronglySorted base_lt ((λ m, (stem_of m, listed m)) <$> segs)) as Hs'.
  { clear Hn Hinj. induction Hs as [|x l Hs IH Hx]; [constructor|]. rewrite fmap_cons. constructor; [done|].
    apply Forall_fmap. eapply Forall_impl; [exact Hx|]. done. }
  destruct (listing_spec segs Hn) as [Hls Hin].
  { clear Hn Hinj Hs'. induction Hs as [|x l Hs IH Hx]; [constructor|]. rewrite fmap_cons. constructor; [|done].
    intros (m & Hm & Hl)%list_elem_of_fmap. rewrite Forall_forall in Hx. specialize (Hx m Hl).
    unfold seg_key in Hm. simplify_eq. lia. }
  apply (StronglySorted_unique_strong base_lt); [|done|done|].
  { intros x y _ _. unfold base_lt. lia. }
  apply NoDup_Permutation; [by apply base_lt_nodup..|].
  intros x. rewrite Hin, list_elem_of_fmap. split.
  - intros (m & Hm & -> & _). by exists m.
  - intros (m & -> & Hm). exists m. split; [done|]. split; [done|].
    intros m' Hm' Hb. by rewrite (Hinj m' m Hm' Hm Hb).
Qed.

(** A directory lists, for every base offset it has a log of, exactly the
    segment of the highest leader epoch, in offset order and with the contents of
    its two files; the file of a fenced leader at the same base offset is never
    adopted, whatever else the directory holds. *)
Theorem listing_newest_epoch segs :
  Forall name_ok segs → NoDup (seg_key <$> segs) →
  StronglySorted base_lt (list_segments (files_of segs)) ∧
  ∀ x, x ∈ list_segments (files_of segs) ↔
    ∃ m, m ∈ segs ∧ x = (stem_of m, listed m) ∧
      ∀ m', m' ∈ segs → base_offset m' = base_offset m → seg_epoch m' ≤ seg_epoch m.
Proof. apply listing_spec. Qed.

(** An empty segment rolled over by a take-over, whose removal failed, beside its
    successor. *)
Definition demo_seg (base epoch : Z) (log : list byte) : SegmentMeta :=
  {| base_offset := base; seg_epoch := epoch; size := 0; max_timestamp := 0; log_file := log; index_file := [] |}.
Definition demo_segs : list SegmentMeta :=
  [demo_seg 0 1 [x01]; demo_seg 5 1 [x02; x02]; demo_seg 5 3 [x03]].

Lemma listing_newest_epoch_witness :
  (stem_of (demo_seg 5 3 [x03]), listed (demo_seg 5 3 [x03])) ∈ list_segments (files_of demo_segs) ∧
  length (list_segments (files_of demo_segs)) = 2%nat.
Proof.
  split; [|vm_compute; reflexivity].
  apply (listing_newest_epoch demo_segs).
  - repeat constructor; vm_compute; congruence.
  - apply (bool_decide_eq_true_1 (NoDup (seg_key <$> demo_segs))). vm_compute. reflexivity.
  - exists (demo_seg 5 3 [x03]). split; [unfold demo_segs; set_solver|]. split; [reflexivity|].
    intros m' [->|[->|[->|[]%not_elem_of_nil]%elem_of_cons]%elem_of_cons]%elem_of_cons _; vm_compute; congruence.
Defined.
