(* ===== verification/ControlBatch.v ===== *)
(** * Transaction markers ([kaas-broker/src/control_batch.rs])

    The encoder of the COMMIT/ABORT control batch, checked against every reader
    of such a batch in the storage layer: the header peeks of [idempotence.rs],
    the CRC check of [crc.rs], the offsets of [segment.rs] and the record count
    of [recordbatch_count.rs]. *)

From stdpp Require Import base gmap strings list.
From Stdlib Require Import Strings.Byte.
From S2P Require Import Prelude Primitives Wire Idempotence Segment.

Local Open Scope Z_scope.

Definition MAGIC_V2 : Z := 2.
Definition ATTRIBUTES : Z := Z.lor (Z.shiftl 1 4) (Z.shiftl 1 5).
Definition CONTROL_TYPE_ABORT : Z := 0.
Definition CONTROL_TYPE_COMMIT : Z := 1.
Definition END_TXN_MARKER_VERSION : Z := 0.
Definition BASE_SEQUENCE_CONTROL : Z := -1.

(** The bytes [write_varint] appends. *)
Definition varint_bytes (v : Z) : list byte := write_uvarint_loop MAX_UVARINT_LEN (zigzag_encode v).

Definition encode_record (key value : list byte) : list byte :=
  let body := be 1 0 ++ varint_bytes 0 ++ varint_bytes 0 ++
    varint_bytes (Z.of_nat (length key)) ++ key ++
    varint_bytes (Z.of_nat (length value)) ++ value ++ varint_bytes 0 in
  varint_bytes (Z.of_nat (length body)) ++ body.

Section build.
Context (crc32c : list byte → Z).

(** Everything from the attributes on: what the CRC covers. *)
Definition control_payload (producer_id producer_epoch : Z) (commit : bool)
    (coordinator_epoch : Z) : list byte :=
  let control_type := if commit then CONTROL_TYPE_COMMIT else CONTROL_TYPE_ABORT in
  let key := be 2 0 ++ be 2 control_type in
  let value := be 2 END_TXN_MARKER_VERSION ++ be 4 coordinator_epoch in
  be 2 ATTRIBUTES ++ be 4 0 ++ be 8 0 ++ be 8 0 ++ be 8 producer_id ++
  be 2 producer_epoch ++ be 4 BASE_SEQUENCE_CONTROL ++ be 4 1 ++ encode_record key value.

Definition build_control_batch (producer_id producer_epoch : Z) (commit : bool)
    (coordinator_epoch : Z) : list byte :=
  let payload := control_payload producer_id producer_epoch commit coordinator_epoch in
  let body_len := (4 + 1 + 4 + length payload)%nat in
  let batch_length := Z.min (Z.of_nat body_len) i32_max in
  be 8 0 ++ be 4 batch_length ++ be 4 0 ++ be 1 MAGIC_V2 ++
  be 4 (compute crc32c payload) ++ payload.

End build.

(** What [Partition::append] does to the first eight bytes. *)
Definition rewrite_base (batch : list byte) (assigned : Z) : list byte :=
  be 8 assigned ++ drop 8 batch.

(** ** The layout of a built marker *)

(** Cutting a field out of a concatenation of fields. *)
Lemma slice_here (a b : list byte) n : length a = n → slice 0 n (a ++ b) = a.
Proof. intros <-. unfold slice. by rewrite drop_0, take_app_length. Qed.

Lemma slice_skip (a b : list byte) off n m :
  length a = m → (m ≤ off)%nat → slice off n (a ++ b) = slice (off - m) n b.
Proof. intros <- H. by apply slice_post. Qed.

(** Walks to a field: skips the fields in front of it, then takes it. *)
Ltac field :=
  repeat (erewrite slice_skip; [|apply length_be|lia]; cbn [Init.Nat.sub]);
  try erewrite slice_here by apply length_be.

Lemma encode_control_record (commit : bool) ce :
  encode_record (be 2 0 ++ be 2 (if commit then CONTROL_TYPE_COMMIT else CONTROL_TYPE_ABORT))
    (be 2 END_TXN_MARKER_VERSION ++ be 4 ce) =
  [x20; x00; x00; x00; x08; x00; x00; x00; (if commit then x01 else x00); x0c; x00; x00] ++
  be 4 ce ++ [x00].
Proof.
  unfold encode_record. rewrite !length_app, !length_be.
  destruct commit; reflexivity.
Qed.

Lemma control_payload_length pid ep commit ce : length (control_payload pid ep commit ce) = 57%nat.
Proof.
  unfold control_payload. rewrite encode_control_record, !length_app, !length_be. done.
Qed.

Lemma rewrite_base_build crc off pid ep commit ce :
  rewrite_base (build_control_batch crc pid ep commit ce) off =
  be 8 off ++ be 4 66 ++ be 4 0 ++ be 1 2 ++
  be 4 (crc (control_payload pid ep commit ce)) ++ control_payload pid ep commit ce.
Proof.
  unfold rewrite_base, build_control_batch. rewrite control_payload_length.
  change (Z.min (Z.of_nat (4 + 1 + 4 + 57)) i32_max) with 66.
  by rewrite drop_app_length' by (by rewrite length_be).
Qed.

(** ** Properties *)

Section marker.
Context (crc32c : list byte → Z) (crc_u32 : ∀ l, u32_ok (crc32c l)).

(** What the partition reads back from a marker batch. *)
Lemma control_batch_facts off pid ep commit ce st :
  i64_ok off → i64_ok pid → i16_ok ep →
  let b := rewrite_base (build_control_batch crc32c pid ep commit ce) off in
  length b = 78%nat ∧ whole_batch b ∧ records_of b = 1 ∧
  verify_batch_crc crc32c b = Ok tt ∧
  parse_batch_offsets b = Some (off, 0, 0) ∧
  parse_batch_txn_info b =
    Some {| is_transactional := true; is_control := true; txn_producer_id := pid;
            control_commit := Some commit |} ∧
  parse_batch_producer_info b =
    Ok {| producer_id := pid; info_epoch := ep; info_first_seq := -1; info_last_seq := -1 |} ∧
  (∀ info, parse_batch_producer_info b = Ok info → classify st info = NotIdempotent).
Proof.
  intros Hoff Hpid Hep b. unfold b. rewrite rewrite_base_build.
  set (p := control_payload pid ep commit ce).
  assert (length p = 57%nat) as Hp by apply control_payload_length.
  set (l := be 8 off ++ be 4 66 ++ be 4 0 ++ be 1 2 ++ be 4 (crc32c p) ++ p).
  assert (length l = 78%nat) as Hlen by (unfold l; rewrite !length_app, !length_be, Hp; done).
  assert (∀ i n, (21 ≤ i)%nat → slice i n l = slice (i - 21) n p) as Hskip.
  { intros i n Hi. unfold l. do 5 (erewrite slice_skip; [|apply length_be|lia]). f_equal. lia. }
  assert (drop 21 l = p) as Hdrop.
  { unfold l. rewrite !app_assoc, drop_app_length'; [done|]. by rewrite !length_app, !length_be. }
  assert (slice 0 8 l = be 8 off) as F0 by (unfold l; field; done).
  assert (slice 8 4 l = be 4 66) as F8 by (unfold l; field; done).
  assert (slice 17 4 l = be 4 (crc32c p)) as F17 by (unfold l; field; done).
  assert (slice 0 2 p = be 2 48 ∧ slice 2 4 p = be 4 0 ∧ slice 14 8 p = be 8 0 ∧
    slice 22 8 p = be 8 pid ∧ slice 30 2 p = be 2 ep ∧ slice 32 4 p = be 4 (-1) ∧
    slice 36 4 p = be 4 1) as (P0 & P2 & P14 & P22 & P30 & P32 & P36).
  { unfold p, control_payload. repeat split; field; done. }
  assert (slice 47 2 p = be 2 (if commit then 1 else 0)) as P47.
  { unfold p, control_payload. rewrite encode_control_record.
    do 8 (erewrite slice_skip; [|apply length_be|lia]). by destruct commit. }
  clearbody p. clear b.
  assert (parse_batch_producer_info l =
    Ok {| producer_id := pid; info_epoch := ep; info_first_seq := -1; info_last_seq := -1 |}) as Hinfo.
  { unfold parse_batch_producer_info. rewrite Hlen, !Hskip by lia. cbn [Nat.sub Nat.ltb Nat.leb].
    rewrite P2, P22, P30, P32. rewrite (sbe_be 8 pid), (sbe_be 2 ep) by (range || lia). done. }
  split; [done|]. split; [split; [lia|]|split].
  { unfold read_be_i32, BATCH_LENGTH_OFFSET. rewrite F8, Hlen. reflexivity. }
  { unfold records_of, read_be_i32, BATCH_NUM_RECORDS_OFFSET. rewrite Hskip by lia.
    cbn [Nat.sub]. rewrite P36. reflexivity. }
  split; [|split; [|split; [|split]]].
  - unfold verify_batch_crc, validate, compute. rewrite Hlen, Hdrop, F17. cbn [Nat.ltb Nat.leb].
    rewrite unbe_be_small by (specialize (crc_u32 p); range). by rewrite Z.eqb_refl.
  - unfold parse_batch_offsets. rewrite Hlen, F0, !Hskip by lia. cbn [Nat.sub Nat.ltb Nat.leb].
    rewrite P2, P14. rewrite (sbe_be 8 off) by (range || lia). reflexivity.
  - unfold parse_batch_txn_info. rewrite Hlen, !Hskip by lia. cbn [Nat.sub Nat.ltb Nat.leb].
    rewrite P0, P22, P47. rewrite (sbe_be 8 pid) by (range || lia). by destruct commit.
  - done.
  - intros info Hi. rewrite Hinfo in Hi. injection Hi as <-. unfold classify. simpl.
    by destruct (pid <? 0).
Qed.

(** A marker is what every reader expects, before and after the log rewrites
    its base offset: one complete 78-byte batch of one record, with a checksum
    that verifies, the producer id and epoch it was built with, recognised as a
    transactional control batch of the right outcome, and exempt from the
    deduplication window in every state. *)
Theorem control_batch_recognised off pid ep commit ce st :
  i64_ok off → i64_ok pid → i16_ok ep →
  let b := rewrite_base (build_control_batch crc32c pid ep commit ce) off in
  length b = 78%nat ∧ whole_batch b ∧ records_of b = 1 ∧
  verify_batch_crc crc32c b = Ok tt ∧
  parse_batch_offsets b = Some (off, 0, 0) ∧
  parse_batch_txn_info b =
    Some {| is_transactional := true; is_control := true; txn_producer_id := pid;
            control_commit := Some commit |} ∧
  parse_batch_producer_info b =
    Ok {| producer_id := pid; info_epoch := ep; info_first_seq := -1; info_last_seq := -1 |} ∧
  (∀ info, parse_batch_producer_info b = Ok info → classify st info = NotIdempotent).
Proof. apply control_batch_facts. Qed.

End marker.

Lemma control_batch_recognised_witness :
  parse_batch_txn_info (rewrite_base (build_control_batch (λ _, 0) 7 3 false 0) 100) =
    Some {| is_transactional := true; is_control := true; txn_producer_id := 7;
            control_commit := Some false |}.
Proof.
  refine (proj1 (proj2 (proj2 (proj2 (proj2 (proj2
    (control_batch_recognised (λ _, 0) _ 100 7 3 false 0 ∅ _ _ _))))))).
  - intros _. unfold u32_ok. lia.
  - unfold i64_ok. lia.
  - unfold i64_ok. lia.
  - unfold i16_ok. lia.
Defined.
