(* ===== verification/Partition.v ===== *)
(** * Partitions ([kaas-storage/src/partition.rs])

    The state behind the partition mutex and the operations that change it:
    append (epoch fence, idempotence, roll, base-offset rewrite, accounting and
    transaction indexes), read, delete-records and the retention targets, fencing
    and take-over.  Every operation runs under the mutex, so it is one function
    on the state.  File operations are assumed to succeed (the errors of
    [append_batch] itself are kept); the clock is an argument.

    The commit protocol that runs beside the mutex (fsync in another task,
    publication of the satisfied sequence) is in [Flush.v]. *)

From stdpp Require Import base gmap strings list.
From Stdlib Require Import Strings.Byte.
From S2P Require Import Prelude Primitives Wire Idempotence TxnIndex Segment ControlBatch.

Local Open Scope Z_scope.

(** [Panicked] is a Rust panic: the slice [owned[0..8]] of a batch shorter than
    that.  An I/O error keeps what the modelled code returns of it. *)
Inductive StorageError :=
| EpochMismatch
| OutOfOrderSequence
| InvalidProducerEpoch
| DuplicateSequence
| Stalled
| UnknownTopicOrPartition
| OffsetOutOfRange
| Closed
| Migrating
| StaleTopicDir
| Unsupported (what : string)
| UnknownSchemaVersion (v : Z)
| IoErr (e : IoError)
| Json
| Panicked.

(** The fsync watchdog's deadline is not here: in [Flush.v] a timeout may strike
    at any time. *)
Record PartitionConfig := {
  segment_bytes : Z; segment_ms : option Z; index_interval_bytes : Z;
  flush_interval_messages : Z }.

(** [PartitionInner]; the directory and the checkpoint position are left out. *)
Record Partition := {
  active : ActiveSegment; closed : list SegmentMeta; log_start : Z; high_water : Z;
  p_epoch : Z; pending_flush_records : Z; requested_flush_seq : Z;
  completed_flush_seq : Z; flush_err : bool;
  producer_states : gmap Z ProducerEntry; open_txns : gmap Z Z;
  aborted_txns : list AbortedTxn }.

(** ** Append *)

Definition with_segments (p : Partition) (a : ActiveSegment) (c : list SegmentMeta) : Partition :=
  {| active := a; closed := c; log_start := log_start p; high_water := high_water p;
     p_epoch := p_epoch p; pending_flush_records := pending_flush_records p;
     requested_flush_seq := requested_flush_seq p; completed_flush_seq := completed_flush_seq p;
     flush_err := flush_err p; producer_states := producer_states p; open_txns := open_txns p;
     aborted_txns := aborted_txns p |}.

(** Roll when the batch would exceed [segment.bytes] or the segment is older
    than [segment.ms] ([age] is its age now). *)
Definition roll_if_needed (cfg : PartitionConfig) (age : Z) (p : Partition) (batch : list byte) : Partition :=
  let projected := sat_u64 (log_size (active p) + Z.of_nat (length batch)) in
  let too_big := segment_bytes cfg <? projected in
  let too_old := negb too_big && match segment_ms cfg with Some ms => ms <=? age | None => false end in
  if (too_big || too_old) && (0 <? log_size (active p)) then
    let '(new_active, closed_meta) := roll_fast (active p) (high_water p) (p_epoch p) in
    with_segments p new_active (closed p ++ [closed_meta])
  else p.

(** The transaction bookkeeping of one appended batch. *)
Definition txn_bookkeeping (open : gmap Z Z) (aborted : list AbortedTxn)
    (owned : list byte) (assigned : Z) : gmap Z Z * list AbortedTxn :=
  match parse_batch_txn_info owned with
  | None => (open, aborted)
  | Some t =>
    if is_transactional t then
      if is_control t then
        match close open (txn_producer_id t) with
        | (Some first, open') =>
          (open',
           match control_commit t with
           | Some false =>
             record aborted {| ab_producer_id := txn_producer_id t; TxnIndex.first_offset := first;
                               TxnIndex.last_offset := assigned |}
           | _ => aborted
           end)
        | (None, open') => (open', aborted)
        end
      else (record_data_batch open (txn_producer_id t) assigned, aborted)
    else (open, aborted)
  end.

Definition prod_info (batch : list byte) : option BatchProducerInfo :=
  if (57 <=? length batch)%nat then
    match parse_batch_producer_info batch with Ok i => Some i | Err _ => None end
  else None.

(** Does the log write, the accounting and the indexes; [accepted] is the
    classifier's verdict. *)
Definition commit_batch (cfg : PartitionConfig) (p : Partition) (batch : list byte)
    (accepted : option BatchProducerInfo) : Partition * result StorageError (Z * bool) :=
  let assigned := high_water p in
  if (length batch <? 8)%nat then (p, Err Panicked)
  else
    let owned := rewrite_base batch assigned in
    match parse_batch_offsets owned with
    | None => (p, Err (IoErr InvalidData))
    | Some (_, delta, _) =>
      match append_batch (active p) owned (index_interval_bytes cfg) with
      | (a, Err e) => (with_segments p a (closed p), Err (IoErr e))
      | (a, Ok _) =>
        let pending := pending_flush_records p + (delta + 1) in
        let '(open', aborted') := txn_bookkeeping (open_txns p) (aborted_txns p) owned assigned in
        let trigger := (0 <? flush_interval_messages cfg) && (flush_interval_messages cfg <=? pending) in
        ({| active := a; closed := closed p; log_start := log_start p;
            high_water := wrap_s 64 (assigned + delta + 1); p_epoch := p_epoch p;
            pending_flush_records := if trigger then 0 else pending;
            requested_flush_seq := requested_flush_seq p + (if trigger then 1 else 0);
            completed_flush_seq := completed_flush_seq p; flush_err := flush_err p;
            producer_states :=
              match accepted with
              | Some info => record_accepted (producer_states p) info assigned
              | None => producer_states p
              end;
            open_txns := open'; aborted_txns := aborted' |}, Ok (assigned, trigger))
      end
    end.

(** The part of [append] under the mutex: the assigned offset and whether a
    flush was triggered. *)
Definition append (cfg : PartitionConfig) (age : Z) (epoch : Z) (batch : list byte) (p : Partition) :
    Partition * result StorageError (Z * bool) :=
  if flush_err p then (p, Err Stalled)
  else if epoch <? p_epoch p then (p, Err EpochMismatch)
  else
    match prod_info batch with
    | None => commit_batch cfg (roll_if_needed cfg age p batch) batch None
    | Some info =>
      match classify (producer_states p) info with
      | Duplicate o => (p, Ok (o, false))
      | OutOfOrder => (p, Err OutOfOrderSequence)
      | InvalidEpoch => (p, Err InvalidProducerEpoch)
      | Accept => commit_batch cfg (roll_if_needed cfg age p batch) batch (Some info)
      | NotIdempotent => commit_batch cfg (roll_if_needed cfg age p batch) batch None
      end
    end.

(** ** Read *)

(** Reads one segment: the index picks the position. *)
Definition read_segment (log index : list byte) (base start : Z) (max : nat) : list byte :=
  read_batches log (Z.to_nat (search_index_bytes index base start)) start max.

(** The closed segments, oldest first; [active_base] bounds the last one. *)
Fixpoint read_closed (segs : list SegmentMeta) (active_base start : Z) (max : nat) (out : list byte) : list byte :=
  match segs with
  | [] => out
  | seg :: segs' =>
    if (max <=? length out)%nat then out
    else
      let next_base := match segs' with n :: _ => base_offset n | [] => active_base end in
      if next_base <=? start then read_closed segs' active_base start max out
      else read_closed segs' active_base start max
        (out ++ read_segment (log_file seg) (index_file seg) (base_offset seg) start (max - length out))
  end.

Definition read (p : Partition) (start_offset : Z) (max_bytes : nat) : list byte :=
  let start := Z.max start_offset (log_start p) in
  let out := read_closed (closed p) (meta_base (active p)) start max_bytes [] in
  let out :=
    if (length out <? max_bytes)%nat then
      out ++ read_segment (log (active p)) (index (active p)) (meta_base (active p)) start
        (max_bytes - length out)
    else out in
  take max_bytes out.

(** ** Delete records and retention *)

(** The segments kept when everything below [new_start] goes: a segment's upper
    bound is the next one's base. *)
Fixpoint keep_segments (segs : list SegmentMeta) (active_base new_start : Z) : list SegmentMeta :=
  match segs with
  | [] => []
  | seg :: segs' =>
    let upper := match segs' with n :: _ => base_offset n | [] => active_base end in
    if upper <=? new_start then keep_segments segs' active_base new_start
    else seg :: keep_segments segs' active_base new_start
  end.

Definition delete_records (p : Partition) (target : Z) : Partition * result StorageError Z :=
  if (0 <=? target) && (high_water p <? target) then (p, Err OffsetOutOfRange)
  else
    let new_start := if target <? 0 then high_water p else target in
    if log_start p <? new_start then
      ({| active := active p;
          closed := keep_segments (closed p) (meta_base (active p)) new_start;
          log_start := new_start; high_water := high_water p; p_epoch := p_epoch p;
          pending_flush_records := pending_flush_records p;
          requested_flush_seq := requested_flush_seq p;
          completed_flush_seq := completed_flush_seq p; flush_err := flush_err p;
          producer_states := producer_states p; open_txns := open_txns p;
          aborted_txns := evict_below (aborted_txns p) new_start |}, Ok new_start)
    else (p, Ok (log_start p)).

(** [segment_mtime_ms] is the file system's answer for a segment's log. *)
Fixpoint time_target (mtime : SegmentMeta → option Z) (segs : list SegmentMeta)
    (active_base cutoff : Z) (target : option Z) : option Z :=
  match segs with
  | [] => target
  | seg :: segs' =>
    let largest := if 0 <=? max_timestamp seg then Some (max_timestamp seg) else mtime seg in
    match largest with
    | None => target
    | Some ms =>
      if cutoff <=? ms then target
      else time_target mtime segs' active_base cutoff
        (Some match segs' with n :: _ => base_offset n | [] => active_base end)
    end
  end.

Definition cleanup_target_for_time (mtime : SegmentMeta → option Z) (p : Partition) (cutoff : Z) : option Z :=
  time_target mtime (closed p) (meta_base (active p)) cutoff None.

Fixpoint size_target (segs : list SegmentMeta) (active_base surplus : Z) : Z :=
  match segs with
  | [] => active_base
  | seg :: segs' =>
    if surplus <? size seg then base_offset seg
    else if surplus - size seg =? 0
    then match segs' with n :: _ => base_offset n | [] => active_base end
    else size_target segs' active_base (surplus - size seg)
  end.

Definition closed_size (segs : list SegmentMeta) : Z := foldr (λ s a, size s + a) 0 segs.

(** The [u64] sum of the sizes; on a 64-bit file system it does not wrap. *)
Definition cleanup_target_for_size_bytes (p : Partition) (retention_bytes : Z) : option Z :=
  let total := sat_u64 (wrap_u 64 (closed_size (closed p)) + log_size (active p)) in
  if total <=? retention_bytes then None
  else Some (size_target (closed p) (meta_base (active p)) (total - retention_bytes)).

(** ** Offsets, fencing, take-over *)

Definition last_stable_offset (p : Partition) : Z :=
  default (high_water p) (min_open_offset (open_txns p)).

Definition aborted_in_range (p : Partition) (start end_ : Z) : list AbortedTxn :=
  in_range (aborted_txns p) start end_.

Definition fence_producer (p : Partition) (pid new_epoch : Z) : Partition :=
  {| active := active p; closed := closed p; log_start := log_start p;
     high_water := high_water p; p_epoch := p_epoch p;
     pending_flush_records := pending_flush_records p;
     requested_flush_seq := requested_flush_seq p; completed_flush_seq := completed_flush_seq p;
     flush_err := flush_err p; producer_states := fence (producer_states p) pid new_epoch;
     open_txns := open_txns p; aborted_txns := aborted_txns p |}.

Definition partition_size (p : Partition) : Z :=
  Z.min i64_max (wrap_u 64 (closed_size (closed p) + log_size (active p))).

(** [roll_for_epoch_locked]: an empty outgoing segment is removed, a non-empty
    one is closed. *)
Definition roll_for_epoch (p : Partition) (new_epoch : Z) : Partition :=
  if (meta_epoch (active p) =? new_epoch) && (meta_base (active p) =? high_water p) then p
  else
    let '(new_active, outgoing) := roll_fast (active p) (high_water p) new_epoch in
    with_segments p new_active
      (if 0 <? log_size (active p) then closed p ++ [outgoing] else closed p).

(** [take_over]: no-op at or below the current epoch. *)
Definition take_over (p : Partition) (epoch : Z) : Partition * Z :=
  if epoch <=? p_epoch p then (p, high_water p)
  else
    let p' := roll_for_epoch p epoch in
    ({| active := active p'; closed := closed p'; log_start := log_start p';
        high_water := high_water p'; p_epoch := epoch;
        pending_flush_records := pending_flush_records p';
        requested_flush_seq := requested_flush_seq p'; completed_flush_seq := completed_flush_seq p';
        flush_err := flush_err p'; producer_states := producer_states p';
        open_txns := open_txns p'; aborted_txns := aborted_txns p' |}, high_water p').

(** ** What a partition holds

    [holds p l]: the files of the partition, closed segments then the active one,
    are the batches [l] in offset order, each segment starting where the previous
    one ends and the high watermark at the end. *)

Definition as_active (m : SegmentMeta) : ActiveSegment :=
  {| meta_base := base_offset m; meta_epoch := seg_epoch m; log := log_file m;
     index := index_file m; index_pos := Z.of_nat (length (index_file m)); handles_open := true;
     log_size := Z.of_nat (length (log_file m)); seg_last_offset := 0;
     last_indexed_log_pos := 0; seg_max_timestamp := max_timestamp m |}.

Definition next_base (segs : list SegmentMeta) (active_base : Z) : Z :=
  match segs with n :: _ => base_offset n | [] => active_base end.

Inductive closed_ok (active_base : Z) : list SegmentMeta → list (list byte) → Prop :=
| closed_nil : closed_ok active_base [] []
| closed_cons m ms bs l :
    segment_ok (as_active m) bs → 0 ≤ base_offset m →
    log_end (base_offset m) bs = next_base ms active_base →
    closed_ok active_base ms l → closed_ok active_base (m :: ms) (bs ++ l).

Definition holds (p : Partition) (l : list (list byte)) : Prop :=
  ∃ lc la, l = lc ++ la ∧ closed_ok (meta_base (active p)) (closed p) lc ∧
    segment_ok (active p) la ∧ 0 ≤ meta_base (active p) ∧
    high_water p = log_end (meta_base (active p)) la.

(** What the producer handler must have checked of a batch: complete, with a
    non-negative offset delta. *)
Definition valid_batch (b : list byte) : Prop :=
  (43 ≤ length b)%nat ∧ sbe (slice 8 4 b) = Z.of_nat (length b) - 12 ∧ 0 ≤ sbe (slice 23 4 b).

Definition delta_of (b : list byte) : Z := sbe (slice 23 4 b).

Lemma slice_rewrite_base b off i n :
  (8 ≤ length b)%nat → (8 ≤ i)%nat → slice i n (rewrite_base b off) = slice i n b.
Proof.
  intros Hl Hi. unfold rewrite_base. rewrite (slice_post (be 8 off)), length_be by (rewrite length_be; lia).
  unfold slice. rewrite drop_drop. do 2 f_equal. lia.
Qed.

Lemma length_rewrite_base b off : (8 ≤ length b)%nat → length (rewrite_base b off) = length b.
Proof. intros. unfold rewrite_base. rewrite length_app, length_be, length_drop. lia. Qed.

Lemma rewrite_base_offsets b off :
  valid_batch b → 0 ≤ off → off + delta_of b < i64_max →
  readable (rewrite_base b off) ∧ first_off (rewrite_base b off) = off ∧
  last_off (rewrite_base b off) = off + delta_of b.
Proof.
  intros (Hl & Hbl & Hd) Hoff Hmax. unfold delta_of in *.
  assert (first_off (rewrite_base b off) = off) as Hf.
  { unfold first_off, rewrite_base. rewrite slice_pre by (rewrite length_be; lia).
    unfold slice. rewrite drop_0, take_ge by (rewrite length_be; lia).
    apply sbe_be; [lia|]. unfold i64_max in *. simpl. lia. }
  split; [|split; [done|]].
  - split; rewrite ?length_rewrite_base, ?slice_rewrite_base by lia; [lia|done].
  - unfold last_off. rewrite Hf, slice_rewrite_base by lia.
    apply wrap_s_small; [lia|]. unfold i64_max in *. simpl. lia.
Qed.

Lemma log_end_snoc n bs b : log_end n (bs ++ [b]) = last_off b + 1.
Proof. unfold log_end. by rewrite last_snoc. Qed.

Lemma closed_ok_app ab ms l m bs :
  closed_ok (base_offset m) ms l → segment_ok (as_active m) bs → 0 ≤ base_offset m →
  log_end (base_offset m) bs = ab → closed_ok ab (ms ++ [m]) (l ++ bs).
Proof.
  intros Hc Hm H0 He. induction Hc as [|m' ms bs' l Hm' H0' He' Hc IH]; simpl.
  - rewrite <- (app_nil_r bs). constructor; [done..|constructor].
  - rewrite <- app_assoc. constructor; [done|done| |done]. rewrite He'. by destruct ms.
Qed.

Lemma rolled_segment_ok s bs base epoch :
  segment_ok s bs → segment_ok (as_active (roll_fast s base epoch).2) bs.
Proof.
  intros (_ & Hlog & Hsz & Hr & Ho & es & k & Hidx & _ & _ & Hn & He).
  repeat split; simpl; try done; [by rewrite Hlog|].
  exists es, (length es). rewrite Hidx, entries_length. done.
Qed.

Lemma roll_holds p l new_epoch :
  holds p l → holds (with_segments p (roll_fast (active p) (high_water p) new_epoch).1
    (closed p ++ [(roll_fast (active p) (high_water p) new_epoch).2])) l.
Proof.
  intros (lc & la & -> & Hc & Ha & H0 & Hhw). exists (lc ++ la), [].
  rewrite app_nil_r. split; [done|]. simpl.
  split; [|split; [apply create_ok|split; [|done]]].
  - apply closed_ok_app; simpl; [done| |done|done]. by apply (rolled_segment_ok _ _ (high_water p) new_epoch).
  - rewrite Hhw. pose proof (log_end_ge (meta_base (active p)) la). destruct Ha as (_ & _ & _ & _ & Ho & _).
    specialize (H Ho). lia.
Qed.

Lemma roll_if_needed_holds cfg age p b l :
  holds p l → holds (roll_if_needed cfg age p b) l ∧
  high_water (roll_if_needed cfg age p b) = high_water p.
Proof.
  intros H. unfold roll_if_needed. case_match; [|done].
  split; [apply (roll_holds p l (p_epoch p) H)|done].
Qed.

Lemma commit_batch_holds cfg p b acc p' o t l :
  holds p l → valid_batch b → high_water p + delta_of b < i64_max →
  Z.of_nat (length (concat l) + length b) ≤ u64_max →
  commit_batch cfg p b acc = (p', Ok (o, t)) →
  o = high_water p ∧ holds p' (l ++ [rewrite_base b o]) ∧ high_water p' = o + delta_of b + 1.
Proof.
  intros (lc & la & -> & Hc & Ha & H0 & Hhw) Hv Hmax Hlen.
  pose proof (proj1 Hv) as Hl43.
  assert (0 ≤ high_water p) as Hhw0.
  { rewrite Hhw. pose proof (log_end_ge (meta_base (active p)) la). destruct Ha as (_ & _ & _ & _ & Ho & _).
    specialize (H Ho). lia. }
  destruct (rewrite_base_offsets b (high_water p) Hv Hhw0 Hmax) as (Hrd & Hfo & Hlo).
  unfold commit_batch. destruct (Nat.ltb_spec (length b) 8); [done|].
  unfold parse_batch_offsets. rewrite length_rewrite_base by done.
  destruct (Nat.ltb_spec (length b) 43); [lia|].
  destruct (append_batch _ _ _) as [a [[]|e]] eqn:Eap; [|done].
  destruct (txn_bookkeeping _ _ _ _) as [open' ab']. intros [= <- <- <-].
  destruct Hv as (_ & _ & Hd). fold (delta_of b) in Hd.
  destruct (append_batch_ok (active p) la (rewrite_base b (high_water p))
    (index_interval_bytes cfg) a) as [Ha' Hmb]; [done|done|lia|lia|done|lia| |exact Eap|].
  { rewrite length_rewrite_base by done. rewrite concat_app, length_app in Hlen. lia. }
  rewrite slice_rewrite_base by lia. fold (delta_of b).
  assert (wrap_s 64 (high_water p + delta_of b + 1) = high_water p + delta_of b + 1) as Hw.
  { apply wrap_s_small; [lia|]. unfold i64_max in *. simpl. lia. }
  split; [done|]. split; [|done].
  exists lc, (la ++ [rewrite_base b (high_water p)]). simpl. rewrite app_assoc, Hmb.
  split; [done|]. split; [done|]. split; [done|]. split; [done|].
  rewrite log_end_snoc, Hlo. done.
Qed.

Lemma append_holds cfg age epoch b p p' o t l :
  holds p l → valid_batch b → high_water p + delta_of b < i64_max →
  Z.of_nat (length (concat l) + length b) ≤ u64_max →
  append cfg age epoch b p = (p', Ok (o, t)) →
  (p' = p ∧ ∃ info, prod_info b = Some info ∧ classify (producer_states p) info = Duplicate o) ∨
  (o = high_water p ∧ holds p' (l ++ [rewrite_base b o]) ∧ high_water p' = o + delta_of b + 1).
Proof.
  intros Hh Hv Hmax Hlen. destruct (roll_if_needed_holds cfg age p b l Hh) as [Hr Hw].
  rewrite <- Hw in Hmax |- *. unfold append.
  destruct (flush_err p); [done|]. destruct (epoch <? p_epoch p); [done|].
  destruct (prod_info b) as [info|]; [|intros H; right; by eapply commit_batch_holds].
  destruct (classify (producer_states p) info) eqn:Ec; try done.
  - intros H. right. by eapply commit_batch_holds.
  - intros H. right. by eapply commit_batch_holds.
  - intros [= <- <- <-]. left. split; [done|]. by exists info.
Qed.

(** ** Reading a partition *)

Lemma fill_full max out bs : (max ≤ length out)%nat → fill max out bs = out.
Proof. destruct bs; simpl; [done|]. by destruct (Nat.ltb_spec (length out) max); [lia|]. Qed.

Lemma fill_shift max o1 o2 bs :
  (length o1 ≤ max)%nat → fill max (o1 ++ o2) bs = o1 ++ fill (max - length o1) o2 bs.
Proof.
  intros Hm. revert o2. induction bs as [|b bs IH]; intros o2; simpl; [done|].
  rewrite length_app.
  destruct (Nat.ltb_spec (length o1 + length o2) max), (Nat.ltb_spec (length o2) (max - length o1));
    try lia; [|done]. by rewrite <- app_assoc, IH.
Qed.

Lemma fill_app max out bs1 bs2 : fill max (fill max out bs1) bs2 = fill max out (bs1 ++ bs2).
Proof.
  revert out. induction bs1 as [|b bs1 IH]; intros out; simpl; [done|].
  destruct (Nat.ltb_spec (length out) max); [apply IH|]. by apply fill_full.
Qed.

Lemma wanted_app start a b : wanted start (a ++ b) = wanted start a ++ wanted start b.
Proof. apply filter_app. Qed.

Lemma wanted_none start n bs : in_order n bs → log_end n bs ≤ start → wanted start bs = [].
Proof.
  intros Ho He. rewrite <- (app_nil_r bs). rewrite wanted_drop; [done|].
  apply Forall_forall. intros b Hb. pose proof (in_order_last _ _ _ Ho Hb). lia.
Qed.

(** One segment read through its index, wherever the start is. *)
Lemma read_segment_ok s bs low start max :
  segment_ok s bs → 0 ≤ low → low ≤ meta_base s → low ≤ start ≤ i64_max →
  log_end (meta_base s) bs - low < 2147483648 →
  read_segment (log s) (index s) (meta_base s) start max = fill max [] (wanted start bs).
Proof.
  intros Hs Hlow0 Hlow Hstart Hspan. unfold read_segment.
  assert (in_order (meta_base s) bs) as Ho by apply Hs.
  assert (Forall readable bs) as Hr by apply Hs.
  pose proof (log_end_ge _ _ Ho) as Hge.
  destruct (decide (meta_base s ≤ start)) as [Hle|Hgt].
  - apply read_through_index; [done|lia|lia|].
    intros b Hb. pose proof (in_order_le _ _ _ Ho Hb). lia.
  - assert (search_index_bytes (index s) (meta_base s) start = 0) as ->.
    { unfold search_index_bytes. destruct (_ =? 0)%nat; [done|].
      rewrite wrap_s_small by (unfold i64_max in *; simpl; lia).
      destruct (Z.ltb_spec (start - meta_base s) (-2147483648)); [lia|].
      destruct (Z.ltb_spec 2147483647 (start - meta_base s)); [lia|]. simpl.
      by destruct (Z.ltb_spec (start - meta_base s) 0); [|lia]. }
    destruct Hs as (_ & -> & _). exact (read_batches_spec [] bs start max Hr).
Qed.

Lemma next_base_ge ab ms l low :
  closed_ok ab ms l → low ≤ next_base ms ab → low ≤ ab ∧ next_base ms ab ≤ ab.
Proof.
  intros Hc. revert low. induction Hc as [|m ms bs l Hm H0 He Hc IH]; intros low Hlow; simpl in *; [lia|].
  assert (in_order (base_offset m) bs) as Ho by apply Hm.
  pose proof (log_end_ge _ _ Ho) as Hge. rewrite He in Hge.
  destruct (IH low ltac:(lia)). lia.
Qed.

Lemma read_closed_ok ab ms l low start max out :
  closed_ok ab ms l → 0 ≤ low → low ≤ next_base ms ab → low ≤ start ≤ i64_max →
  ab - low < 2147483648 →
  read_closed ms ab start max out = fill max out (wanted start l).
Proof.
  intros Hc Hl0 Hlow Hstart Hspan. revert out Hlow.
  induction Hc as [|m ms bs l Hm H0 He Hc IH]; intros out Hlow; [done|].
  cbn [read_closed]. fold (next_base ms ab).
  destruct (Nat.leb_spec max (length out)); [by rewrite fill_full|].
  assert (in_order (base_offset m) bs) as Ho by apply Hm.
  pose proof (log_end_ge _ _ Ho) as Hge. rewrite He in Hge. simpl in Hlow.
  rewrite wanted_app. destruct (Z.leb_spec (next_base ms ab) start).
  - rewrite (wanted_none start _ bs Ho) by lia. simpl. apply IH. lia.
  - rewrite IH by lia. rewrite <- fill_app. f_equal.
    rewrite (read_segment_ok (as_active m) bs low) by
      (simpl; try lia; try done; rewrite He; destruct (next_base_ge ab ms l low Hc); lia).
    rewrite <- fill_shift by lia. by rewrite app_nil_r.
Qed.

Lemma read_ok p l low start max :
  holds p l → 0 ≤ low → low ≤ next_base (closed p) (meta_base (active p)) → low ≤ Z.max start (log_start p) →
  Z.max start (log_start p) ≤ i64_max → high_water p - low < 2147483648 →
  read p start max = take max (fill max [] (wanted (Z.max start (log_start p)) l)).
Proof.
  intros (lc & la & -> & Hc & Ha & H0 & Hhw) Hl0 Hlow Hs1 Hs2 Hspan.
  assert (in_order (meta_base (active p)) la) as Ho by apply Ha.
  pose proof (log_end_ge _ _ Ho) as Hge.
  destruct (next_base_ge _ _ _ low Hc Hlow) as [? ?].
  unfold read. rewrite (read_closed_ok _ _ _ low _ _ _ Hc) by lia.
  set (st := Z.max start (log_start p)) in *. f_equal. rewrite wanted_app, <- fill_app.
  set (out := fill max [] (wanted st lc)).
  destruct (Nat.ltb_spec (length out) max); [|by rewrite fill_full].
  rewrite (read_segment_ok _ la low) by (done || lia).
  rewrite <- fill_shift by lia. by rewrite app_nil_r.
Qed.

(** ** Properties: the log *)

(** C5. Append gives consecutive offsets and the log keeps what it was given: a
    successful append is either answered from the deduplication window and
    changes nothing, or it stores the batch, rewritten to start at the old high
    watermark, behind everything the partition held, and advances the watermark
    past its last record; rolling the segment changes none of that. *)
Theorem append_extends_log cfg age epoch b p p' o t l :
  holds p l → valid_batch b → high_water p + delta_of b < i64_max →
  Z.of_nat (length (concat l) + length b) ≤ u64_max →
  append cfg age epoch b p = (p', Ok (o, t)) →
  (p' = p ∧ ∃ info, prod_info b = Some info ∧ classify (producer_states p) info = Duplicate o) ∨
  (o = high_water p ∧ holds p' (l ++ [rewrite_base b o]) ∧ high_water p' = o + delta_of b + 1).
Proof. apply append_holds. Qed.

Definition demo_cfg : PartitionConfig :=
  {| segment_bytes := 64; segment_ms := None; index_interval_bytes := 0;
     flush_interval_messages := 1 |}.
Definition empty_partition : Partition :=
  {| active := create 0 1; closed := []; log_start := 0; high_water := 0; p_epoch := 1;
     pending_flush_records := 0; requested_flush_seq := 0; completed_flush_seq := 0;
     flush_err := false; producer_states := ∅; open_txns := ∅; aborted_txns := [] |}.

Lemma empty_partition_holds : holds empty_partition [].
Proof.
  exists [], []. split; [done|]. split; [constructor|]. split; [apply create_ok|]. done.
Qed.

Lemma mk_batch_valid : valid_batch (mk_batch 9).
Proof. split; [vm_compute; lia|]. split; [reflexivity|vm_compute; congruence]. Qed.

Definition one_batch : Partition := (append demo_cfg 0 1 (mk_batch 9) empty_partition).1.

Lemma append_extends_log_witness : holds one_batch [mk_batch 0].
Proof.
  destruct (append_extends_log demo_cfg 0 1 (mk_batch 9) empty_partition one_batch 0 true []
    empty_partition_holds mk_batch_valid) as [[_ (info & Hi & _)]|(_ & H & _)].
  - vm_compute. reflexivity.
  - vm_compute. congruence.
  - vm_compute. reflexivity.
  - vm_compute in Hi. discriminate.
  - exact H.
Defined.

(** A fetch returns the right batches across rolled segments: everything
    whose last offset reaches the requested offset (or the log start), in order,
    as many whole batches as it takes to reach the byte limit, cut at the limit;
    no segment boundary or index entry loses or repeats a batch (for a log that
    spans fewer than 2^31 offsets, the range of an index entry). *)
Theorem read_returns_log p l low start max :
  holds p l → 0 ≤ low → low ≤ next_base (closed p) (meta_base (active p)) → low ≤ Z.max start (log_start p) →
  Z.max start (log_start p) ≤ i64_max → high_water p - low < 2147483648 →
  read p start max = take max (fill max [] (wanted (Z.max start (log_start p)) l)).
Proof. apply read_ok. Qed.

Lemma one_batch_holds : holds one_batch [mk_batch 0].
Proof.
  destruct (append_holds demo_cfg 0 1 (mk_batch 9) empty_partition one_batch 0 true []
    empty_partition_holds mk_batch_valid) as [[_ (info & Hi & _)]|(_ & H & _)];
    [vm_compute; reflexivity|vm_compute; congruence|vm_compute; reflexivity| |exact H].
  vm_compute in Hi. discriminate.
Qed.

Lemma read_returns_log_witness : read one_batch 0 100 = mk_batch 0.
Proof.
  rewrite (read_returns_log one_batch [mk_batch 0] 0 0 100 one_batch_holds);
    [vm_compute; reflexivity|vm_compute; congruence..|vm_compute; reflexivity].
Defined.

(** The byte limit cuts a batch: when the first batch to return is larger
    than the limit, the fetch answers a strict prefix of it, which no consumer
    can decode, and asking again answers the same bytes. *)
Theorem read_cuts_first_batch p l low start max b rest :
  holds p l → 0 ≤ low → low ≤ next_base (closed p) (meta_base (active p)) → low ≤ Z.max start (log_start p) →
  Z.max start (log_start p) ≤ i64_max → high_water p - low < 2147483648 →
  wanted (Z.max start (log_start p)) l = b :: rest → (0 < max < length b)%nat →
  read p start max = take max b.
Proof.
  intros Hh H0 Hl Hs1 Hs2 Hsp Hw Hm. rewrite (read_ok p l low start max) by done.
  rewrite Hw. simpl. destruct (Nat.ltb_spec 0 max); [|lia].
  rewrite fill_full by lia. done.
Qed.

Lemma read_cuts_first_batch_witness : read one_batch 0 20 = take 20 (mk_batch 0).
Proof.
  apply (read_cuts_first_batch one_batch [mk_batch 0] 0 0 20 (mk_batch 0) [] one_batch_holds);
    try (vm_compute; congruence); try (vm_compute; reflexivity); vm_compute; lia.
Defined.

(** ** Steps of a partition *)

(** One operation; the label is the batch, for an append. *)
Inductive part_step : Partition → option (list byte) → Partition → Prop :=
| ps_append cfg age epoch b p p' r :
    valid_batch b → high_water p + delta_of b < i64_max →
    append cfg age epoch b p = (p', r) → part_step p (Some b) p'
| ps_delete target p p' r : delete_records p target = (p', r) → part_step p None p'
| ps_fence pid e p : part_step p None (fence_producer p pid e)
| ps_take_over e p p' hw : take_over p e = (p', hw) → part_step p None p'.

Inductive part_trace : Partition → list (option (list byte)) → Partition → Prop :=
| pt_nil p : part_trace p [] p
| pt_cons p l p' ls p'' : part_step p l p' → part_trace p' ls p'' → part_trace p (l :: ls) p''.

Lemma empty_log_no_batches s bs : segment_ok s bs → log_size s ≤ 0 → bs = [].
Proof.
  intros (_ & _ & Hsz & Hr & _) H. destruct Hr as [|b bs [Hb _] _]; [done|].
  rewrite Hsz in H. cbn in H. rewrite length_app in H. lia.
Qed.

(** A take-over keeps the batches. *)
Lemma take_over_holds p l e : holds p l → holds (take_over p e).1 l.
Proof.
  intros Hh. unfold take_over. destruct (e <=? p_epoch p); [done|]. cbn.
  assert (holds (roll_for_epoch p e) l) as H; [|exact H].
  unfold roll_for_epoch. destruct (_ && _); [done|]. cbn.
  destruct (Z.ltb_spec 0 (log_size (active p))) as [Hz|Hz]; [by apply (roll_holds p l e)|].
  destruct Hh as (lc & la & -> & Hc & Ha & H0 & Hw).
  rewrite (empty_log_no_batches _ _ Ha Hz) in Hw |- *. cbn in Hw.
  exists lc, []. rewrite Hw. split; [done|]. split; [done|]. split; [apply create_ok|]. done.
Qed.

(** A COMMIT or ABORT marker of [pid]. *)
Definition is_marker_of (pid : Z) (b : list byte) : Prop :=
  ∃ t, parse_batch_txn_info b = Some t ∧ is_transactional t = true ∧ is_control t = true ∧
    txn_producer_id t = pid.

(** A transactional data batch of [pid]. *)
Definition is_txn_data_of (pid : Z) (b : list byte) : Prop :=
  ∃ t, parse_batch_txn_info b = Some t ∧ is_transactional t = true ∧ is_control t = false ∧
    txn_producer_id t = pid.

Definition open_below (p : Partition) : Prop :=
  0 ≤ high_water p ∧ ∀ pid f, open_txns p !! pid = Some f → 0 ≤ f < high_water p.

Lemma parse_txn_rewrite b off :
  (8 ≤ length b)%nat → parse_batch_txn_info (rewrite_base b off) = parse_batch_txn_info b.
Proof.
  intros H. unfold parse_batch_txn_info. rewrite length_rewrite_base by done.
  by rewrite !slice_rewrite_base by lia.
Qed.

(** What [append] does to the fields the transaction indexes depend on. *)
Lemma append_effect cfg age epoch b p p' r :
  valid_batch b → 0 ≤ high_water p → high_water p + delta_of b < i64_max →
  append cfg age epoch b p = (p', r) →
  p_epoch p' = p_epoch p ∧
  (high_water p' = high_water p ∧ open_txns p' = open_txns p ∨
   high_water p' = high_water p + delta_of b + 1 ∧ (∃ t, r = Ok (high_water p, t)) ∧
   open_txns p' = (txn_bookkeeping (open_txns p) (aborted_txns p) b (high_water p)).1).
Proof.
  intros Hv H0 Hmax. pose proof (proj1 Hv) as Hl.
  assert (∀ acc q, high_water q = high_water p → open_txns q = open_txns p →
    aborted_txns q = aborted_txns p → p_epoch q = p_epoch p →
    commit_batch cfg q b acc = (p', r) →
    p_epoch p' = p_epoch p ∧
    (high_water p' = high_water p ∧ open_txns p' = open_txns p ∨
     high_water p' = high_water p + delta_of b + 1 ∧ (∃ t, r = Ok (high_water p, t)) ∧
     open_txns p' = (txn_bookkeeping (open_txns p) (aborted_txns p) b (high_water p)).1)) as Hc.
  { intros acc q Hhw Hot Hab Hep. unfold commit_batch.
    destruct (Nat.ltb_spec (length b) 8); [lia|]. unfold parse_batch_offsets.
    rewrite length_rewrite_base by lia. destruct (Nat.ltb_spec (length b) 43); [lia|].
    destruct (append_batch _ _ _) as [a [[]|e]]; [|intros [= <- <-]; simpl; auto].
    rewrite Hot, Hab, Hhw, slice_rewrite_base by lia. fold (delta_of b).
    unfold txn_bookkeeping. rewrite parse_txn_rewrite by lia.
    fold (txn_bookkeeping (open_txns p) (aborted_txns p) b (high_water p)).
    destruct (txn_bookkeeping _ _ _ _) as [o a'] eqn:Et. intros [= <- <-]. simpl.
    split; [done|]. right. split; [|by eauto].
    destruct Hv as (_ & _ & Hd). fold (delta_of b) in Hd.
    apply wrap_s_small; [lia|]. unfold i64_max in *. simpl. lia. }
  assert (high_water (roll_if_needed cfg age p b) = high_water p ∧
    open_txns (roll_if_needed cfg age p b) = open_txns p ∧
    aborted_txns (roll_if_needed cfg age p b) = aborted_txns p ∧
    p_epoch (roll_if_needed cfg age p b) = p_epoch p) as (R1 & R2 & R3 & R4).
  { unfold roll_if_needed. by case_match. }
  unfold append. destruct (flush_err p); [intros [= <- <-]; auto|].
  destruct (epoch <? p_epoch p); [intros [= <- <-]; auto|].
  destruct (prod_info b) as [info|]; [|by apply Hc].
  destruct (classify _ info); try (intros [= <- <-]; by auto); by apply Hc.
Qed.

Lemma take_over_effect p e p' hw :
  take_over p e = (p', hw) → p_epoch p' = Z.max (p_epoch p) e ∧
  high_water p' = high_water p ∧ open_txns p' = open_txns p.
Proof.
  unfold take_over. destruct (Z.leb_spec e (p_epoch p)); intros [= <- <-]; [split; [lia|done]|].
  simpl. split; [lia|]. unfold roll_for_epoch. by case_match.
Qed.

Lemma delete_effect p t p' r :
  delete_records p t = (p', r) →
  p_epoch p' = p_epoch p ∧ high_water p' = high_water p ∧ open_txns p' = open_txns p.
Proof. unfold delete_records. repeat case_match; intros [= <- <-]; done. Qed.

Lemma open_below_step p l p' : open_below p → part_step p l p' → open_below p'.
Proof.
  intros [H0 Hb] Hs. destruct Hs as [cfg age ep b p p' r Hv Hm Ha|t p p' r Hd|pid e p|e p p' hw Ht].
  - pose proof (proj2 (proj2 Hv)) as Hd. fold (delta_of b) in Hd.
    destruct (append_effect _ _ _ _ _ _ _ Hv H0 Hm Ha) as [_ [[Hw Ho]|(Hw & _ & Ho)]].
    { split; rewrite Hw; [lia|]. by rewrite Ho. }
    split; rewrite Hw; [lia|]. rewrite Ho. unfold txn_bookkeeping. intros pid f.
    destruct (parse_batch_txn_info b) as [t|]; [|simpl; intros H%Hb; lia].
    destruct (is_transactional t); [|simpl; intros H%Hb; lia].
    destruct (is_control t).
    + unfold close. destruct (open_txns p !! txn_producer_id t); simpl;
        rewrite lookup_delete_Some; intros [_ H%Hb]; lia.
    + simpl. unfold record_data_batch. case_match; [intros H'%Hb; lia|].
      rewrite lookup_insert_Some. intros [[_ <-]|[_ H'%Hb]]; lia.
  - apply delete_effect in Hd as (_ & Hw & Ho). by split; rewrite Hw, ?Ho.
  - done.
  - apply take_over_effect in Ht as (_ & Hw & Ho). by split; rewrite Hw, ?Ho.
Qed.

(** Only a marker of [pid] closes its entry. *)
Lemma open_kept_step pid f p l p' :
  open_below p → open_txns p !! pid = Some f → part_step p l p' →
  (∀ b, l = Some b → ¬ is_marker_of pid b) → open_txns p' !! pid = Some f.
Proof.
  intros [H0 Hb] Hf Hs Hno.
  destruct Hs as [cfg age ep b p p' r Hv Hm Ha|t p p' r Hd|pid' e p|e p p' hw Ht].
  - destruct (append_effect _ _ _ _ _ _ _ Hv H0 Hm Ha) as [_ [[_ ->]|(_ & _ & ->)]]; [done|].
    specialize (Hno b eq_refl). unfold txn_bookkeeping.
    destruct (parse_batch_txn_info b) as [t|] eqn:Et; [|done].
    destruct (is_transactional t) eqn:E1; [|done]. destruct (is_control t) eqn:E2.
    + assert (txn_producer_id t ≠ pid) as Hne by (intros Heq; apply Hno; by exists t).
      unfold close. by destruct (open_txns p !! txn_producer_id t); simpl; rewrite lookup_delete_ne.
    + simpl. unfold record_data_batch. case_match; [done|].
      rewrite lookup_insert_ne; [done|]. congruence.
  - apply delete_effect in Hd as (_ & _ & ->). done.
  - done.
  - apply take_over_effect in Ht as (_ & _ & ->). done.
Qed.

Lemma open_kept_trace pid f p ls p' :
  open_below p → open_txns p !! pid = Some f → part_trace p ls p' →
  (∀ b, Some b ∈ ls → ¬ is_marker_of pid b) → open_txns p' !! pid = Some f.
Proof.
  intros Hb Hf Ht. induction Ht as [|p l p' ls p'' Hs Ht IH]; intros Hno; [done|].
  apply IH; [by eapply open_below_step| |].
  - eapply open_kept_step; [done..|]. intros b ->. apply Hno. set_solver.
  - intros b Hin. apply Hno. set_solver.
Qed.

Lemma lso_le_open p pid f : open_txns p !! pid = Some f → last_stable_offset p ≤ f.
Proof.
  intros Hf. unfold last_stable_offset. pose proof (min_open_offset_spec (open_txns p)) as Hm.
  destruct (min_open_offset (open_txns p)) as [m|]; [|by rewrite Hm, lookup_empty in Hf].
  by apply (proj2 Hm) with pid.
Qed.

(** read_committed isolation: once a transactional data batch is appended at
    some offset, the last stable offset stays at or below it through any
    appends of other batches, deletions, fences and take-overs, until a COMMIT
    or ABORT marker of that producer is appended; and it never exceeds the high
    watermark. *)
Theorem lso_isolates_open_txn cfg age epoch b p p1 o t pid ls p2 :
  open_below p → valid_batch b → high_water p + delta_of b < i64_max →
  is_txn_data_of pid b → append cfg age epoch b p = (p1, Ok (o, t)) → o = high_water p →
  high_water p1 ≠ high_water p → part_trace p1 ls p2 →
  (∀ c, Some c ∈ ls → ¬ is_marker_of pid c) →
  last_stable_offset p2 ≤ o ∧ last_stable_offset p2 ≤ high_water p2.
Proof.
  intros Hb Hv Hm (ti & Hti & Ht1 & Ht2 & Ht3) Ha -> Hne Htr Hno.
  destruct (append_effect _ _ _ _ _ _ _ Hv (proj1 Hb) Hm Ha) as [_ [[Hw _]|(Hw & _ & Ho)]]; [done|].
  assert (∃ f, open_txns p1 !! pid = Some f ∧ f ≤ high_water p) as (f & Hf & Hle).
  { rewrite Ho. unfold txn_bookkeeping. rewrite Hti, Ht1, Ht2, Ht3. simpl.
    unfold record_data_batch. destruct (open_txns p !! pid) as [f|] eqn:E.
    - exists f. split; [done|]. apply (proj2 Hb) in E. lia.
    - exists (high_water p). rewrite lookup_insert_eq. split; [done|lia]. }
  assert (open_below p1) as Hb1.
  { eapply open_below_step; [exact Hb|]. by eapply ps_append. }
  pose proof (open_kept_trace pid f p1 ls p2 Hb1 Hf Htr Hno) as Hf2.
  pose proof (lso_le_open _ _ _ Hf2). split; [lia|].
  assert (open_below p2) as [_ Hb2].
  { clear -Hb1 Htr. induction Htr; [done|]. apply IHHtr. by eapply open_below_step. }
  specialize (Hb2 _ _ Hf2). lia.
Qed.

(** A transactional data batch of producer 5, sequence 0. *)
Definition txn_batch : list byte :=
  be 8 0 ++ be 4 49 ++ be 4 0 ++ be 1 2 ++ be 4 0 ++ be 2 16 ++ be 4 0 ++ be 8 0 ++
  be 8 0 ++ be 8 5 ++ be 2 0 ++ be 4 0 ++ be 4 1.

Lemma lso_isolates_open_txn_witness :
  last_stable_offset (append demo_cfg 0 1 txn_batch empty_partition).1 ≤ 0.
Proof.
  refine (proj1 (lso_isolates_open_txn demo_cfg 0 1 txn_batch empty_partition
    (append demo_cfg 0 1 txn_batch empty_partition).1 0 true 5 []
    (append demo_cfg 0 1 txn_batch empty_partition).1 _ _ _ _ _ _ _ _ _)).
  - split; [vm_compute; congruence|]. intros pid f. vm_compute. discriminate.
  - split; [vm_compute; lia|]. split; [reflexivity|vm_compute; congruence].
  - vm_compute. reflexivity.
  - eexists. vm_compute. repeat split.
  - vm_compute. reflexivity.
  - reflexivity.
  - vm_compute. discriminate.
  - constructor.
  - intros c Hc. by apply not_elem_of_nil in Hc.
Defined.

(** ** Retention *)

(** Strictly increasing base offsets, up to the active segment's. *)
Fixpoint bases_increase (segs : list SegmentMeta) (active_base : Z) : Prop :=
  match segs with
  | [] => True
  | s :: segs' => base_offset s < next_base segs' active_base ∧ bases_increase segs' active_base
  end.

Lemma keep_segments_drop segs ab j :
  bases_increase segs ab → (j ≤ length segs)%nat →
  keep_segments segs ab (next_base (drop j segs) ab) = drop j segs.
Proof.
  intros Hb. assert (∀ (i : nat) l, bases_increase l ab → (i ≤ length l)%nat →
    next_base l ab ≤ next_base (drop i l) ab) as Hmono.
  { induction i as [|i IH]; intros [|s l] Hl Hi; simpl in *; try lia.
    destruct Hl as [? Hl]. specialize (IH l Hl ltac:(lia)). lia. }
  revert j. induction segs as [|s segs IH]; intros [|j] Hj; simpl in Hj |- *; try done; try lia.
  - destruct Hb as [Hlt Hb]. fold (next_base segs ab).
    destruct (Z.leb_spec (next_base segs ab) (base_offset s)); [lia|]. f_equal.
    destruct segs as [|s' segs]; [done|].
    assert (∀ l t, bases_increase l ab → t < next_base l ab → keep_segments l ab t = l) as Hk.
    { clear. induction l as [|a l IH]; intros t Hl Ht; simpl in *; [done|].
      destruct Hl as [? Hl]. fold (next_base l ab).
      destruct (Z.leb_spec (next_base l ab) t); [lia|]. f_equal. apply IH; [done|lia]. }
    by apply Hk.
  - destruct Hb as [_ Hb]. fold (next_base segs ab).
    destruct (Z.leb_spec (next_base segs ab) (next_base (drop j segs) ab)) as [|Hgt].
    + apply IH; [done|lia].
    + specialize (Hmono j segs Hb ltac:(lia)). lia.
Qed.

Lemma size_target_spec segs ab surplus :
  Forall (λ s, 0 ≤ size s) segs → 0 < surplus →
  ∃ j, (j ≤ length segs)%nat ∧ size_target segs ab surplus = next_base (drop j segs) ab ∧
    closed_size (take j segs) ≤ surplus.
Proof.
  intros Hs. revert surplus. induction Hs as [|s segs H Hs IH]; intros surplus Hp; simpl.
  - exists 0%nat. simpl. split; [lia|]. split; [done|]. lia.
  - destruct (Z.ltb_spec surplus (size s)).
    { exists 0%nat. simpl. split; [lia|]. split; [done|]. lia. }
    destruct (Z.eqb_spec (surplus - size s) 0).
    { exists 1%nat. simpl. rewrite drop_0. split; [lia|]. split; [done|]. unfold closed_size. simpl. lia. }
    destruct (IH (surplus - size s) ltac:(lia)) as (j & Hj & -> & Hc).
    exists (S j). simpl. split; [lia|]. split; [done|]. unfold closed_size in *. simpl. lia.
Qed.

Lemma closed_size_app a b : closed_size (a ++ b) = closed_size a + closed_size b.
Proof. induction a as [|s a IH]; simpl; [done|]. unfold closed_size in *. simpl. lia. Qed.

(** Size retention never deletes too much: following the target it computes,
    delete-records keeps at least [retention.bytes] of log, removes only a prefix
    of the closed segments, and leaves the active segment and the watermark
    alone. *)
Theorem size_retention_keeps_enough p retention t p' r :
  bases_increase (closed p) (meta_base (active p)) →
  Forall (λ s, 0 ≤ size s) (closed p) → 0 ≤ log_size (active p) → 0 ≤ retention →
  closed_size (closed p) + log_size (active p) ≤ i64_max →
  cleanup_target_for_size_bytes p retention = Some t → 0 ≤ t ≤ high_water p →
  delete_records p t = (p', r) →
  active p' = active p ∧ high_water p' = high_water p ∧
  (∃ j, closed p' = drop j (closed p)) ∧
  retention ≤ closed_size (closed p') + log_size (active p').
Proof.
  intros Hb Hs Ha Hr Hmax Hc Ht Hd.
  assert (0 ≤ closed_size (closed p)) as H0.
  { clear -Hs. induction Hs; simpl; [done|]. unfold closed_size in *. simpl. lia. }
  unfold cleanup_target_for_size_bytes in Hc.
  rewrite wrap_u_small, sat_u64_small in Hc by (unfold i64_max in *; simpl; lia).
  destruct (Z.leb_spec (closed_size (closed p) + log_size (active p)) retention) as [|Hgt]; [done|].
  apply (inj Some) in Hc.
  destruct (size_target_spec (closed p) (meta_base (active p))
    (closed_size (closed p) + log_size (active p) - retention) Hs ltac:(lia)) as (j & Hj & Hst & Hcs).
  rewrite Hst in Hc. unfold delete_records in Hd.
  destruct (Z.leb_spec 0 t), (Z.ltb_spec (high_water p) t); try lia. simpl in Hd.
  destruct (Z.ltb_spec t 0); [lia|].
  destruct (log_start p <? t); injection Hd as <- <-; simpl.
  - split; [done|]. split; [done|].
    rewrite <- Hc, keep_segments_drop by done. split; [by exists j|].
    pose proof (closed_size_app (take j (closed p)) (drop j (closed p))) as Hsum.
    rewrite take_drop in Hsum. lia.
  - split; [done|]. split; [done|]. split; [by exists 0%nat|]. lia.
Qed.

Definition seg_meta (base sz : Z) : SegmentMeta :=
  {| base_offset := base; seg_epoch := 1; size := sz; max_timestamp := -1;
     log_file := []; index_file := [] |}.
Definition retained : Partition :=
  {| active := create 30 1; closed := [seg_meta 0 100; seg_meta 10 100; seg_meta 20 100];
     log_start := 0; high_water := 30; p_epoch := 1; pending_flush_records := 0;
     requested_flush_seq := 0; completed_flush_seq := 0; flush_err := false;
     producer_states := ∅; open_txns := ∅; aborted_txns := [] |}.

Lemma size_retention_keeps_enough_witness :
  150 ≤ closed_size (closed (delete_records retained 10).1).
Proof.
  destruct (size_retention_keeps_enough retained 150 10 (delete_records retained 10).1
    (delete_records retained 10).2) as (_ & _ & _ & H).
  - simpl. lia.
  - repeat (constructor; [simpl; lia|]). constructor.
  - simpl. lia.
  - lia.
  - vm_compute. congruence.
  - vm_compute. reflexivity.
  - simpl. lia.
  - vm_compute. reflexivity.
  - exact H.
Defined.

(** ** The leader-epoch fence *)

Lemma epoch_kept_step p l p' : open_below p → part_step p l p' → p_epoch p ≤ p_epoch p'.
Proof.
  intros [H0 _] Hs. destruct Hs as [cfg age ep b p p' r Hv Hm Ha|t p p' r Hd|pid e p|e p p' hw Ht].
  - destruct (append_effect _ _ _ _ _ _ _ Hv H0 Hm Ha) as [-> _]. lia.
  - apply delete_effect in Hd as [-> _]. lia.
  - simpl. lia.
  - apply take_over_effect in Ht as [-> _]. lia.
Qed.

(** A fenced leader writes nothing: after a take-over at some epoch, every
    append at a lower epoch fails and leaves the partition as it was, whatever
    the new leader has done since. *)
Theorem fenced_leader_rejected p e p1 hw ls p2 cfg age epoch b :
  open_below p → take_over p e = (p1, hw) → part_trace p1 ls p2 → epoch < e →
  append cfg age epoch b p2 = (p2, Err Stalled) ∨ append cfg age epoch b p2 = (p2, Err EpochMismatch).
Proof.
  intros Hb Ht Htr He.
  assert (open_below p1) as Hb1 by (eapply open_below_step; [exact Hb|by eapply ps_take_over]).
  apply take_over_effect in Ht as [Hep _].
  assert (e ≤ p_epoch p2) as Hge.
  { assert (e ≤ p_epoch p1) as H1 by lia. clear -Hb1 Htr H1.
    induction Htr as [|p l p' ls p'' Hs Htr IH]; [done|].
    apply IH; [by eapply open_below_step|]. pose proof (epoch_kept_step _ _ _ Hb1 Hs). lia. }
  unfold append. destruct (flush_err p2); [by left|]. right.
  by destruct (Z.ltb_spec epoch (p_epoch p2)); [|lia].
Qed.

Lemma fenced_leader_rejected_witness :
  append demo_cfg 0 1 (mk_batch 0) (take_over empty_partition 2).1 =
    ((take_over empty_partition 2).1, Err EpochMismatch).
Proof.
  destruct (fenced_leader_rejected empty_partition 2 (take_over empty_partition 2).1 0 []
    (take_over empty_partition 2).1 demo_cfg 0 1 (mk_batch 0)) as [H|H].
  - split; [vm_compute; congruence|]. intros pid f. vm_compute. discriminate.
  - vm_compute. reflexivity.
  - constructor.
  - lia.
  - vm_compute in H. discriminate.
  - exact H.
Defined.

(** ** Property: well-formedness *)

(** The type of a partition: its files are the batches [l], the log start lies
    between zero and the high watermark, and open transactions started below the
    watermark. *)
Definition well_formed (p : Partition) (l : list (list byte)) : Prop :=
  holds p l ∧ 0 ≤ log_start p ≤ high_water p ∧ open_below p.

Lemma keep_segments_all ab ms l t :
  closed_ok ab ms l → t < next_base ms ab → keep_segments ms ab t = ms.
Proof.
  intros Hc. revert t. induction Hc as [|m ms bs l Hm H0 He Hc IH]; intros t Ht; [done|].
  cbn [keep_segments next_base] in *. fold (next_base ms ab).
  assert (in_order (base_offset m) bs) as Ho by apply Hm.
  pose proof (log_end_ge _ _ Ho) as Hge. rewrite He in Hge.
  destruct (Z.leb_spec (next_base ms ab) t); [lia|]. f_equal. apply IH. lia.
Qed.

(** Dropping segments drops a prefix of the log below the new start. *)
Lemma keep_segments_ok ab ms l t :
  closed_ok ab ms l →
  ∃ l1 l2, l = l1 ++ l2 ∧ closed_ok ab (keep_segments ms ab t) l2 ∧
    Forall (λ b, last_off b < t) l1.
Proof.
  induction 1 as [|m ms bs l Hm H0 He Hc IH]; [by exists [], []; repeat constructor|].
  cbn [keep_segments]. fold (next_base ms ab).
  destruct (Z.leb_spec (next_base ms ab) t) as [Hle|Hgt].
  - destruct IH as (l1 & l2 & -> & Hk & Hf). exists (bs ++ l1), l2.
    rewrite app_assoc. split_and!; [done..|]. apply Forall_app. split; [|done].
    apply Forall_forall. intros b Hb. assert (in_order (base_offset m) bs) as Ho by apply Hm.
    pose proof (in_order_last _ _ _ Ho Hb). lia.
  - exists [], (bs ++ l). rewrite (keep_segments_all _ _ _ _ Hc Hgt).
    split_and!; [done|by constructor|constructor].
Qed.

Lemma delete_holds p l t p' r :
  well_formed p l → delete_records p t = (p', r) →
  ∃ l1 l2, l = l1 ++ l2 ∧ well_formed p' l2 ∧ Forall (λ b, last_off b < log_start p') l1.
Proof.
  intros (Hh & Hls & Hob) Hd. pose proof Hd as Hd'. revert Hd'. unfold delete_records.
  assert (∃ l1 l2, l = l1 ++ l2 ∧ well_formed p l2 ∧ Forall (λ b, last_off b < log_start p) l1)
    as Hsame by (exists [], l; split; [done|]; split; [exact (conj Hh (conj Hls Hob))|constructor]).
  destruct ((0 <=? t) && (high_water p <? t)) eqn:Et; [by intros [= <- <-]|].
  set (ns := if t <? 0 then high_water p else t).
  destruct (Z.ltb_spec (log_start p) ns) as [Hlt|]; [|by intros [= <- <-]].
  intros [= <- <-]. clear Hsame.
  assert (ns ≤ high_water p) as Hns.
  { subst ns. destruct (Z.ltb_spec t 0); [lia|].
    destruct (Z.leb_spec 0 t); [|lia]. by destruct (Z.ltb_spec (high_water p) t). }
  destruct Hh as (lc & la & -> & Hc & Ha & H0 & Hhw).
  destruct (keep_segments_ok _ _ _ ns Hc) as (l1 & l2 & -> & Hk & Hf).
  exists l1, (l2 ++ la). split; [by rewrite app_assoc|]. split; [|done].
  split; [exists l2, la; done|]. split; [simpl; lia|]. exact Hob.
Qed.

Lemma delete_records_spec p t p' r :
  0 ≤ log_start p ≤ high_water p → delete_records p t = (p', r) →
  (high_water p < t ∧ p' = p ∧ r = Err OffsetOutOfRange) ∨
  (t ≤ high_water p ∧ r = Ok (log_start p') ∧
   log_start p' = Z.max (log_start p) (if t <? 0 then high_water p else t)).
Proof.
  intros Hls. unfold delete_records.
  destruct (Z.leb_spec 0 t), (Z.ltb_spec (high_water p) t); cbn [andb];
    try (intros [= <- <-]; left; done); try lia; intros Hd; right; (split; [lia|]); revert Hd;
    destruct (Z.ltb_spec (log_start p) (if t <? 0 then high_water p else t));
    intros [= <- <-]; cbn; split; done || lia.
Qed.

Lemma append_no_io cfg age epoch b p p' r :
  valid_batch b → append cfg age epoch b p = (p', r) → (∀ e, r ≠ Err (IoErr e)) →
  p' = p ∨ ∃ o t, r = Ok (o, t).
Proof.
  intros Hv. assert (∀ q acc, commit_batch cfg q b acc = (p', r) → (∀ e, r ≠ Err (IoErr e)) →
    ∃ o t, r = Ok (o, t)) as Hc.
  { intros q acc. unfold commit_batch. pose proof (proj1 Hv).
    destruct (Nat.ltb_spec (length b) 8); [lia|].
    repeat case_match; intros [= <- <-] Hne; by eauto || by edestruct Hne. }
  unfold append. repeat case_match; try (intros [= <- <-]; by auto); intros ? ?; right; eauto.
Qed.


