(* ===== verification/Flush.v ===== *)
(** * The commit protocol ([kaas-storage/src/partition.rs])

    Appends run under the partition mutex; the committer task, the blocking
    fsync tasks it spawns and the re-arm probe run beside them.  Each critical
    section is one event of the machine, and a run is any interleaving of events:
    [append] (which may request a flush), the wake-up it sends on the capacity-1
    channel, the committer's capture, comparison, fsync, publication and watchdog
    timeout, the late fsync of an abandoned task, and the probe that clears the
    stall.

    [synced] is the length of the active log that is on stable storage: an fsync
    sets it to the log's size, a segment roll (which fsyncs the outgoing log
    first) starts the new segment at zero. *)

From stdpp Require Import base gmap strings list.
From Stdlib Require Import Strings.Byte.
From S2P Require Import Prelude Primitives Wire Idempotence TxnIndex Segment ControlBatch Partition.

Local Open Scope Z_scope.

#[global] Instance SegmentMeta_eq_dec : EqDecision SegmentMeta.
Proof. solve_decision. Defined.

(** Where the committer task is.  [Awaiting] holds what the blocking task
    returned: nothing yet, the satisfied sequence, or an error. *)
Inductive Committer :=
| Receiving
| Woken
| Captured (target_seq : Z)
| Awaiting (outcome : option (option Z))
| Probing
| Rearming (covered_seq : Z).

Record FlushState := {
  part : Partition;
  synced : nat;               (** bytes of the active log on stable storage *)
  sending : nat;              (** appends that triggered and have not sent yet *)
  queued : bool;              (** the request channel, of capacity one *)
  committer : Committer;
  orphans : nat;              (** abandoned fsync tasks still in the kernel *)
  triggered : list (Z * list byte);  (** the flush sequence and bytes of each append that triggered *)
  deleted : list SegmentMeta  (** segments unlinked by delete-records *)
}.

(** [ETimeout] may also strike a task that has synced but not returned yet (it
    writes the recovery checkpoint after releasing the lock). *)
Inductive Event :=
| EAppend (cfg : PartitionConfig) (age epoch : Z) (batch : list byte)
| ETakeOver (epoch : Z)
| EDelete (target : Z)
| ESend
| ERecv
| ECapture
| ECompare
| ESync (ok : bool)
| EOutcome
| ETimeout
| EOrphanSync (ok : bool)
| EProbeSync (ok : bool)
| ERearm.

(** ** The steps *)

Definition set_flush (p : Partition) (completed : Z) (err : bool) : Partition :=
  {| active := active p; closed := closed p; log_start := log_start p;
     high_water := high_water p; p_epoch := p_epoch p;
     pending_flush_records := pending_flush_records p;
     requested_flush_seq := requested_flush_seq p; completed_flush_seq := completed;
     flush_err := err; producer_states := producer_states p;
     open_txns := open_txns p; aborted_txns := aborted_txns p |}.

(** [completed_flush_seq] only moves up. *)
Definition publish (p : Partition) (seq : Z) (err : bool) : Partition :=
  set_flush p (if completed_flush_seq p <? seq then seq else completed_flush_seq p) err.

(** A new partition state from a locked operation; a roll starts a new file. *)
Definition with_part (s : FlushState) (p' : Partition) : FlushState :=
  {| part := p';
     synced := if (length (closed (part s)) <? length (closed p'))%nat then 0%nat else synced s;
     sending := sending s; queued := queued s; committer := committer s; orphans := orphans s;
     triggered := triggered s; deleted := deleted s |}.

Definition with_committer (s : FlushState) (p' : Partition) (c : Committer) : FlushState :=
  {| part := p'; synced := synced s; sending := sending s; queued := queued s; committer := c;
     orphans := orphans s; triggered := triggered s; deleted := deleted s |}.

(** [sync_log] under the lock. *)
Definition sync_log (s : FlushState) (c : Committer) (orph : nat) : FlushState :=
  {| part := part s; synced := Z.to_nat (log_size (active (part s))); sending := sending s;
     queued := queued s; committer := c; orphans := orph; triggered := triggered s;
     deleted := deleted s |}.

Definition append_event (s : FlushState) (cfg : PartitionConfig) (age epoch : Z) (b : list byte) : FlushState :=
  let '(p', r) := append cfg age epoch b (part s) in
  let s' := with_part s p' in
  match r with
  | Ok (o, true) =>
    {| part := p'; synced := synced s'; sending := S (sending s); queued := queued s;
       committer := committer s; orphans := orphans s;
       triggered := (requested_flush_seq p', rewrite_base b o) :: triggered s; deleted := deleted s |}
  | _ => s'
  end.

Definition delete_event (s : FlushState) (target : Z) : FlushState :=
  let p' := (delete_records (part s) target).1 in
  {| part := p'; synced := synced s; sending := sending s; queued := queued s;
     committer := committer s; orphans := orphans s; triggered := triggered s;
     deleted := deleted s ++ filter (λ m, m ∉ closed p') (closed (part s)) |}.

(** What the committer does with the outcome of the fsync task. *)
Definition outcome_event (s : FlushState) (outcome : option Z) : FlushState :=
  match outcome with
  | Some seq => with_committer s (publish (part s) seq (flush_err (part s))) Receiving
  | None => with_committer s (set_flush (part s) (completed_flush_seq (part s)) true) Probing
  end.

Definition flush_step (s : FlushState) (e : Event) : option FlushState :=
  match e, committer s with
  | EAppend cfg age epoch b, _ => Some (append_event s cfg age epoch b)
  | ETakeOver epoch, _ => Some (with_part s (take_over (part s) epoch).1)
  | EDelete t, _ => Some (delete_event s t)
  | ESend, c =>
    match sending s with
    | O => None
    | S n => Some {| part := part s; synced := synced s; sending := n; queued := true;
                     committer := c; orphans := orphans s; triggered := triggered s;
                     deleted := deleted s |}
    end
  | ERecv, Receiving =>
    if queued s then
      Some {| part := part s; synced := synced s; sending := sending s; queued := false;
              committer := Woken; orphans := orphans s; triggered := triggered s;
              deleted := deleted s |}
    else None
  | ECapture, Woken => Some (with_committer s (part s) (Captured (requested_flush_seq (part s))))
  | ECompare, Captured t =>
    Some (with_committer s (part s)
      (if t =? completed_flush_seq (part s) then Receiving else Awaiting None))
  | ESync true, Awaiting None =>
    Some (sync_log s (Awaiting (Some (Some (requested_flush_seq (part s))))) (orphans s))
  | ESync false, Awaiting None => Some (with_committer s (part s) (Awaiting (Some None)))
  | EOutcome, Awaiting (Some outcome) => Some (outcome_event s outcome)
  | ETimeout, Awaiting outcome =>
    Some {| part := set_flush (part s) (completed_flush_seq (part s)) true; synced := synced s;
            sending := sending s; queued := queued s; committer := Probing;
            orphans := match outcome with None => S (orphans s) | Some _ => orphans s end;
            triggered := triggered s; deleted := deleted s |}
  | EOrphanSync ok, c =>
    match orphans s with
    | O => None
    | S n => Some (if ok then sync_log s c n else
               {| part := part s; synced := synced s; sending := sending s; queued := queued s;
                  committer := c; orphans := n; triggered := triggered s; deleted := deleted s |})
    end
  | EProbeSync ok, Probing =>
    Some (if ok then sync_log s (Rearming (requested_flush_seq (part s))) (orphans s) else s)
  | ERearm, Rearming q => Some (with_committer s (publish (part s) q false) Receiving)
  | _, _ => None
  end.

Fixpoint flush_run (s : FlushState) (es : list Event) : option FlushState :=
  match es with
  | [] => Some s
  | e :: es' => match flush_step s e with Some s' => flush_run s' es' | None => None end
  end.

(** What a parked [acks = all] append sees: [None] parks it again. *)
Definition await_flush (p : Partition) (target_seq : Z) : option (result StorageError unit) :=
  if flush_err p then Some (Err Stalled)
  else if target_seq <=? completed_flush_seq p then Some (Ok tt) else None.

(** A partition as it is opened: nothing requested, no task running. *)
Definition opened (p : Partition) : FlushState :=
  {| part := p; synced := 0; sending := 0; queued := false; committer := Receiving; orphans := 0;
     triggered := []; deleted := [] |}.

(** ** Where a batch is *)

(** The first [n] bytes of a file contain [b]. *)
Definition on_disk (file : list byte) (n : nat) (b : list byte) : Prop :=
  ∃ pre post, take n file = pre ++ b ++ post.

Definition stored_in (m : SegmentMeta) (b : list byte) : Prop :=
  on_disk (log_file m) (Z.to_nat (size m)) b.

(** On stable storage: in a closed segment, in the synced part of the active log,
    or in a segment that was deleted since. *)
Definition durable (s : FlushState) (b : list byte) : Prop :=
  (∃ m, m ∈ closed (part s) ++ deleted s ∧ stored_in m b) ∨
  on_disk (log (active (part s))) (synced s) b.

Definition in_log (p : Partition) (b : list byte) : Prop :=
  on_disk (log (active p)) (Z.to_nat (log_size (active p))) b.

Definition log_ok (p : Partition) : Prop :=
  0 ≤ log_size (active p) ≤ Z.of_nat (length (log (active p))).

Lemma on_disk_mono file n m b : (n ≤ m)%nat → on_disk file n b → on_disk file m b.
Proof.
  intros Hnm (pre & post & H). exists pre, (post ++ take (m - n) (drop n file)).
  replace m with (n + (m - n))%nat at 1 by lia.
  rewrite <- (take_take_drop file n (m - n)), H. by rewrite <- !app_assoc.
Qed.

Lemma on_disk_ext file file' n b : take n file = take n file' → on_disk file n b → on_disk file' n b.
Proof. unfold on_disk. by intros ->. Qed.

(** What a locked operation does to the files: it extends the active log, or it
    closes it and starts another. *)
Definition grows (p p' : Partition) : Prop :=
  (closed p' = closed p ∧ log_size (active p) ≤ log_size (active p') ∧
   ∀ n, (n ≤ Z.to_nat (log_size (active p)))%nat →
     take n (log (active p')) = take n (log (active p))) ∨
  (∃ m, closed p' = closed p ++ [m] ∧ log_file m = log (active p) ∧ size m = log_size (active p)).

Lemma grows_refl p : grows p p.
Proof. left. split; [done|]. split; [lia|done]. Qed.

Lemma write_at_take file raw pos n :
  (n ≤ pos ≤ length file)%nat → take n (write_at file raw pos) = take n file.
Proof.
  intros [Hn Hp]. unfold write_at. rewrite take_app_le by (rewrite length_take; lia).
  rewrite take_take. f_equal. lia.
Qed.

Lemma write_at_here file raw pos :
  (pos ≤ length file)%nat → on_disk (write_at file raw pos) (pos + length raw) raw.
Proof.
  intros Hp. exists (take pos file), []. rewrite app_nil_r. unfold write_at.
  replace (pos - length file)%nat with 0%nat by lia. simpl. rewrite app_assoc.
  rewrite take_app_le by (rewrite length_app, length_take; lia).
  apply take_ge. rewrite length_app, length_take. lia.
Qed.

Lemma length_write_at file raw pos :
  (pos ≤ length file)%nat → (pos + length raw ≤ length (write_at file raw pos))%nat.
Proof.
  intros Hp. unfold write_at. rewrite !length_app, length_take, length_replicate, length_drop. lia.
Qed.

(** A failed or successful segment append keeps what was accounted for. *)
Lemma append_batch_grows s raw ival s' r :
  0 ≤ log_size s ≤ Z.of_nat (length (log s)) → log_size s + Z.of_nat (length raw) ≤ u64_max →
  append_batch s raw ival = (s', r) →
  (log_size s ≤ log_size s' ≤ Z.of_nat (length (log s'))) ∧
  log_size s' ≤ log_size s + Z.of_nat (length raw) ∧
  (∀ n, (n ≤ Z.to_nat (log_size s))%nat → take n (log s') = take n (log s)) ∧
  (r = Ok tt → on_disk (log s') (Z.to_nat (log_size s')) raw).
Proof.
  intros Hok Hmax. unfold append_batch.
  pose proof (length_write_at (log s) raw (Z.to_nat (log_size s)) ltac:(lia)) as Hlen.
  assert (∀ n, (n ≤ Z.to_nat (log_size s))%nat →
    take n (write_at (log s) raw (Z.to_nat (log_size s))) = take n (log s)) as Htk.
  { intros n Hn. apply write_at_take. lia. }
  destruct (parse_batch_offsets raw) as [[[base d] ts]|];
    [|intros [= <- <-]; repeat split; try lia; done].
  destruct (handles_open s); [|intros [= <- <-]; repeat split; try lia; done].
  destruct (index_entry s ival base) as [e|e]; intros [= <- <-]; simpl.
  - assert (sat_u64 (log_size s + Z.of_nat (length raw)) = log_size s + Z.of_nat (length raw)) as ->
      by (unfold sat_u64; lia).
    split; [lia|]. split; [lia|]. split; [done|]. intros _.
    replace (Z.to_nat (log_size s + Z.of_nat (length raw)))
      with (Z.to_nat (log_size s) + length raw)%nat by lia.
    apply write_at_here. lia.
  - split; [lia|]. split; [lia|]. split; [done|]. done.
Qed.

Lemma commit_batch_grows cfg p b acc p' r :
  log_ok p → log_size (active p) + Z.of_nat (length b) ≤ u64_max →
  commit_batch cfg p b acc = (p', r) →
  log_ok p' ∧ log_size (active p') ≤ log_size (active p) + Z.of_nat (length b) ∧
  grows p p' ∧ closed p' = closed p ∧
  completed_flush_seq p' = completed_flush_seq p ∧ flush_err p' = flush_err p ∧
  (∀ o, r = Ok (o, true) → in_log p' (rewrite_base b o) ∧
    requested_flush_seq p' = requested_flush_seq p + 1) ∧
  ((∀ o, r ≠ Ok (o, true)) → requested_flush_seq p' = requested_flush_seq p).
Proof.
  intros Hok Hmax. unfold commit_batch. unfold log_ok in Hok.
  assert (log_ok p ∧ log_size (active p) ≤ log_size (active p) + Z.of_nat (length b) ∧
    grows p p ∧ closed p = closed p ∧ completed_flush_seq p = completed_flush_seq p ∧
    flush_err p = flush_err p) as Hsame.
  { split; [done|]. split; [lia|]. split; [apply grows_refl|done]. }
  destruct (Nat.ltb_spec (length b) 8); [intros [= <- <-]; naive_solver|].
  destruct (parse_batch_offsets _) as [[[base d] ts]|]; [|intros [= <- <-]; naive_solver].
  destruct (append_batch _ _ _) as [a ra] eqn:Ea.
  apply append_batch_grows in Ea as (H1 & H2 & H3 & H4);
    [|done|by rewrite length_rewrite_base by done].
  rewrite length_rewrite_base in H2 by done.
  destruct ra as [[]|e].
  - destruct (txn_bookkeeping _ _ _ _) as [o' a'].
    destruct ((0 <? flush_interval_messages cfg) && _); intros [= <- <-]; simpl;
      (split; [unfold log_ok; simpl; lia|]; split; [done|];
       split; [left; simpl; split; [done|]; split; [lia|done]|]; do 3 (split; [done|]));
      (split; [|naive_solver lia]).
    + intros o [= <-]. split; [|done]. unfold in_log. simpl. by apply H4.
    + intros o [=].
  - intros [= <- <-]; simpl.
    split; [unfold log_ok; simpl; lia|]. split; [done|].
    split; [left; simpl; split; [done|]; split; [lia|done]|]. naive_solver.
Qed.

Lemma roll_if_needed_grows cfg age p b :
  log_ok p → log_ok (roll_if_needed cfg age p b) ∧
  log_size (active (roll_if_needed cfg age p b)) ≤ log_size (active p) ∧
  (roll_if_needed cfg age p b = p ∨
   ∃ a m, roll_if_needed cfg age p b = with_segments p a (closed p ++ [m]) ∧
     log_file m = log (active p) ∧ size m = log_size (active p)).
Proof.
  intros Hok. unfold roll_if_needed. unfold log_ok in *.
  destruct (_ && _); [|split; [done|]; split; [lia|by left]].
  simpl. split; [lia|]. split; [lia|]. right. by do 2 eexists.
Qed.

(** What [append] does to the files and to the flush accounting. *)
Lemma append_grows cfg age epoch b p p' r :
  log_ok p → log_size (active p) + Z.of_nat (length b) ≤ u64_max →
  append cfg age epoch b p = (p', r) →
  log_ok p' ∧ log_size (active p') ≤ log_size (active p) + Z.of_nat (length b) ∧
  grows p p' ∧ completed_flush_seq p' = completed_flush_seq p ∧ flush_err p' = flush_err p ∧
  (∀ o, r = Ok (o, true) → in_log p' (rewrite_base b o) ∧
    requested_flush_seq p' = requested_flush_seq p + 1) ∧
  ((∀ o, r ≠ Ok (o, true)) → requested_flush_seq p' = requested_flush_seq p).
Proof.
  intros Hok Hmax. destruct (roll_if_needed_grows cfg age p b Hok) as (Hok' & Hsz & Hr).
  assert (∀ acc, commit_batch cfg (roll_if_needed cfg age p b) b acc = (p', r) →
    log_ok p' ∧ log_size (active p') ≤ log_size (active p) + Z.of_nat (length b) ∧
    grows p p' ∧ completed_flush_seq p' = completed_flush_seq p ∧ flush_err p' = flush_err p ∧
    (∀ o, r = Ok (o, true) → in_log p' (rewrite_base b o) ∧
      requested_flush_seq p' = requested_flush_seq p + 1) ∧
    ((∀ o, r ≠ Ok (o, true)) → requested_flush_seq p' = requested_flush_seq p)) as Hc.
  { intros acc Hcb. apply commit_batch_grows in Hcb as (C1 & C2 & C3 & C4 & C5 & C6 & C7 & C8);
      [|done|lia].
    split; [done|]. split; [lia|].
    destruct Hr as [Hr|(a & m & Heq & Hm1 & Hm2)]; [by rewrite Hr in *|].
    rewrite Heq in C4, C5, C6, C7, C8. simpl in *. split; [|done]. right. by exists m. }
  assert (∀ r', (∀ o, r' ≠ Ok (o, true)) → (p, r') = (p', r) →
    log_ok p' ∧ log_size (active p') ≤ log_size (active p) + Z.of_nat (length b) ∧
    grows p p' ∧ completed_flush_seq p' = completed_flush_seq p ∧ flush_err p' = flush_err p ∧
    (∀ o, r = Ok (o, true) → in_log p' (rewrite_base b o) ∧
      requested_flush_seq p' = requested_flush_seq p + 1) ∧
    ((∀ o, r ≠ Ok (o, true)) → requested_flush_seq p' = requested_flush_seq p)) as Hs.
  { intros r' Hn [= <- <-]. split; [done|]. split; [lia|]. split; [apply grows_refl|].
    do 2 (split; [done|]). split; [|done]. intros o H. by apply Hn in H. }
  unfold append. destruct (flush_err p) eqn:Ef; [by apply Hs|].
  destruct (epoch <? p_epoch p); [by apply Hs|].
  destruct (prod_info b) as [info|]; [|by apply Hc].
  destruct (classify _ info); try (by apply Hc); by apply Hs.
Qed.

Lemma take_over_grows p e :
  log_ok p → log_ok (take_over p e).1 ∧ log_size (active (take_over p e).1) ≤ log_size (active p) ∧
  grows p (take_over p e).1 ∧
  completed_flush_seq (take_over p e).1 = completed_flush_seq p ∧
  requested_flush_seq (take_over p e).1 = requested_flush_seq p.
Proof.
  intros Hok. unfold take_over. destruct (e <=? p_epoch p); simpl.
  { split; [done|]. split; [lia|]. split; [apply grows_refl|done]. }
  unfold log_ok in *. unfold roll_for_epoch. destruct (_ && _); simpl.
  { split; [done|]. split; [lia|]. split; [apply (grows_refl p)|done]. }
  split; [lia|]. split; [lia|]. split; [|done].
  unfold grows. simpl. destruct (Z.ltb_spec 0 (log_size (active p))).
  - right. by eexists.
  - left. split; [done|]. split; [lia|]. intros n Hn. by replace n with 0%nat by lia.
Qed.

(** ** Durability is kept *)

Definition retains (s s' : FlushState) : Prop :=
  ∀ b, (durable s b → durable s' b) ∧
       (durable s b ∨ in_log (part s) b → durable s' b ∨ in_log (part s') b).

Lemma grows_retains s p' :
  (synced s ≤ Z.to_nat (log_size (active (part s))))%nat → grows (part s) p' →
  retains s (with_part s p').
Proof.
  intros Hsy [(Hc & Hsz & Htk)|(m & Hc & Hm & Hsm)] b; unfold durable, in_log, with_part; simpl;
    rewrite Hc.
  - rewrite Nat.ltb_irrefl.
    assert (on_disk (log (active (part s))) (synced s) b →
            on_disk (log (active p')) (synced s) b) as Hd.
    { apply on_disk_ext. symmetry. by apply Htk. }
    split; [naive_solver|]. intros [H|H]; [naive_solver|]. right.
    eapply on_disk_mono; [|eapply on_disk_ext; [|exact H]]; [lia|]. symmetry. by apply Htk.
  - rewrite length_app. simpl. destruct (Nat.ltb_spec (length (closed (part s))) (length (closed (part s)) + 1)); [|lia].
    assert (on_disk (log (active (part s))) (Z.to_nat (log_size (active (part s)))) b →
      ∃ m0, m0 ∈ (closed (part s) ++ [m]) ++ deleted s ∧ stored_in m0 b) as Hm'.
    { intros Hon. exists m. split; [set_solver|]. unfold stored_in. by rewrite Hm, Hsm. }
    assert ((∃ m0, m0 ∈ closed (part s) ++ deleted s ∧ stored_in m0 b) →
      ∃ m0, m0 ∈ (closed (part s) ++ [m]) ++ deleted s ∧ stored_in m0 b) as Hcl.
    { intros (m0 & ? & ?). exists m0. split; [set_solver|done]. }
    split.
    + intros [Hon|Hon]; left; [auto|]. apply Hm'. by eapply on_disk_mono.
    + intros [[Hon|Hon]|Hon]; left; left; [auto| |auto]. apply Hm'. by eapply on_disk_mono.
Qed.

(** ** The invariant *)

(** Sequences some task may publish, or has published. *)
Definition claims (s : FlushState) (q : Z) : Prop :=
  q = completed_flush_seq (part s) ∨ committer s = Awaiting (Some (Some q)) ∨ committer s = Rearming q.

Record flush_inv (s : FlushState) : Prop := {
  fi_log : log_ok (part s);
  fi_synced : (synced s ≤ Z.to_nat (log_size (active (part s))))%nat;
  fi_trig : ∀ n b, (n, b) ∈ triggered s →
    n ≤ requested_flush_seq (part s) ∧ (durable s b ∨ in_log (part s) b);
  fi_claims : ∀ q, claims s q → q ≤ requested_flush_seq (part s) ∧
    ∀ n b, (n, b) ∈ triggered s → n ≤ q → durable s b }.

(** A step that keeps the files and only lowers the claims keeps the invariant. *)
Lemma flush_inv_keep s s' :
  flush_inv s → log_ok (part s') → (synced s' ≤ Z.to_nat (log_size (active (part s'))))%nat →
  retains s s' → triggered s' = triggered s →
  requested_flush_seq (part s') = requested_flush_seq (part s) →
  (∀ q, claims s' q → claims s q ∨ (q ≤ requested_flush_seq (part s) ∧ ∀ b, in_log (part s) b → durable s' b)) →
  flush_inv s'.
Proof.
  intros [Hl Hs Ht Hc] Hl' Hs' Hr Htr Hreq Hcl. split; [done|done| |].
  - intros n b Hin. rewrite Htr in Hin. rewrite Hreq. destruct (Ht n b Hin) as [? Hd].
    split; [done|]. by apply Hr.
  - intros q Hq. rewrite Hreq. destruct (Hcl q Hq) as [H|[Hle Hall]].
    + destruct (Hc q H) as [? Hd]. split; [done|]. intros n b Hin Hn. rewrite Htr in Hin.
      apply Hr. by eapply Hd.
    + split; [done|]. intros n b Hin _. rewrite Htr in Hin.
      destruct (Ht n b Hin) as [_ [Hd|Hd]]; [by apply Hr|by apply Hall].
Qed.

(** Only the committer's place or the publication fields change. *)
Lemma retains_same_files s s' :
  active (part s') = active (part s) → closed (part s') = closed (part s) →
  synced s' = synced s → deleted s' = deleted s → retains s s'.
Proof. intros H1 H2 H3 H4 b. unfold durable, in_log. by rewrite H1, H2, H3, H4. Qed.

Lemma sync_log_retains s c n :
  (synced s ≤ Z.to_nat (log_size (active (part s))))%nat →
  retains s (sync_log s c n) ∧ ∀ b, in_log (part s) b → durable (sync_log s c n) b.
Proof.
  intros Hs. assert (∀ b, in_log (part s) b → durable (sync_log s c n) b) as Hd by (intros; by right).
  split; [|done]. intros b. assert (durable s b → durable (sync_log s c n) b) as Hm.
  { intros [H|H]; [by left|]. right. by eapply on_disk_mono. }
  naive_solver.
Qed.

Lemma delete_retains s t : retains s (delete_event s t).
Proof.
  assert (active (delete_records (part s) t).1 = active (part s)) as Ha.
  { unfold delete_records. by repeat case_match. }
  intros b. unfold durable, in_log. simpl. rewrite Ha.
  assert ((∃ m, m ∈ closed (part s) ++ deleted s ∧ stored_in m b) →
    ∃ m, m ∈ closed (delete_records (part s) t).1 ++ deleted s ++
      filter (λ m, m ∉ closed (delete_records (part s) t).1) (closed (part s)) ∧ stored_in m b) as Hm.
  { intros (m & Hin & Hb). exists m. split; [|done]. rewrite !elem_of_app in *.
    rewrite list_elem_of_filter. destruct (decide (m ∈ closed (delete_records (part s) t).1)); naive_solver. }
  naive_solver.
Qed.

Lemma delete_flush p t :
  active (delete_records p t).1 = active p ∧
  requested_flush_seq (delete_records p t).1 = requested_flush_seq p ∧
  completed_flush_seq (delete_records p t).1 = completed_flush_seq p.
Proof. unfold delete_records. by repeat case_match. Qed.

Definition event_bytes (e : Event) : Z :=
  match e with EAppend _ _ _ b => Z.of_nat (length b) | _ => 0 end.

Lemma append_event_inv s cfg age epoch b :
  flush_inv s → log_size (active (part s)) + Z.of_nat (length b) ≤ u64_max →
  flush_inv (append_event s cfg age epoch b) ∧
  log_size (active (part (append_event s cfg age epoch b))) ≤
    log_size (active (part s)) + Z.of_nat (length b).
Proof.
  intros Hinv Hmax. pose proof Hinv as [Hl Hs Ht Hc]. unfold append_event.
  destruct (append cfg age epoch b (part s)) as [p' r] eqn:Ea.
  destruct (append_grows _ _ _ _ _ _ _ Hl Hmax Ea) as (Hl' & Hsz & Hg & Hcf & _ & Hyes & Hno).
  pose proof (grows_retains s p' Hs Hg) as Hret.
  assert ((synced (with_part s p') ≤ Z.to_nat (log_size (active p')))%nat) as Hs'.
  { unfold with_part. simpl. destruct Hg as [(Hcl & ? & _)|(m & Hcl & _)]; rewrite Hcl.
    - rewrite Nat.ltb_irrefl. lia.
    - rewrite length_app. simpl. case_match; [lia|].
      match goal with H : (_ <? _)%nat = false |- _ => apply Nat.ltb_ge in H end. lia. }
  assert ((∀ o, r ≠ Ok (o, true)) → flush_inv (with_part s p')) as Hrest.
  { intros Hr. eapply flush_inv_keep; [exact Hinv|done..|by apply Hno|].
    intros q [->|[?|?]]; left; [left; simpl; by rewrite Hcf|right; by left|right; by right]. }
  destruct r as [[o [|]]|e]; simpl; [|split; [apply Hrest; naive_solver|done]..].
  split; [|done]. destruct (Hyes o eq_refl) as [Hin Hreq].
  assert (∀ s' b', part s' = p' → synced s' = synced (with_part s p') → deleted s' = deleted s →
    durable s b' → durable s' b') as Hdur.
  { intros s' b' H1 H2 H3 H. apply Hret in H. unfold durable in *. by rewrite H1, H2, H3. }
  split; simpl; [done|done| |].
  - intros n b' [[= -> ->]|Hn]%elem_of_cons; [split; [lia|by right]|].
    destruct (Ht n b' Hn) as [? Hd]. split; [lia|].
    exact (proj2 (Hret b') Hd).
  - intros q Hq. destruct (Hc q) as [Hle Hd].
    { destruct Hq as [->|[?|?]]; [left; simpl; by rewrite Hcf|right; by left|right; by right]. }
    split; [simpl in *; lia|]. intros n b' [[= -> ->]|Hn]%elem_of_cons Hnq; [lia|].
    apply Hdur; [done..|]. by eapply Hd.
Qed.

(** Steps of the committer that leave the files alone. *)
Lemma flush_inv_quiet s s' :
  flush_inv s → active (part s') = active (part s) → closed (part s') = closed (part s) →
  synced s' = synced s → deleted s' = deleted s → triggered s' = triggered s →
  requested_flush_seq (part s') = requested_flush_seq (part s) →
  (∀ q, claims s' q → claims s q) → flush_inv s'.
Proof.
  intros Hinv Ha Hc Hs Hd Ht Hr Hcl. eapply flush_inv_keep; try done.
  - unfold log_ok. rewrite Ha. apply Hinv.
  - rewrite Hs, Ha. apply Hinv.
  - by apply retains_same_files.
  - intros q Hq. left. by apply Hcl.
Qed.

Lemma flush_inv_sync s c n :
  flush_inv s →
  (∀ q, c = Awaiting (Some (Some q)) ∨ c = Rearming q →
    claims s q ∨ q = requested_flush_seq (part s)) →
  flush_inv (sync_log s c n).
Proof.
  intros Hinv Hc. destruct (sync_log_retains s c n) as [Hr Hall]; [apply Hinv|].
  eapply flush_inv_keep; try done; [apply Hinv|].
  intros q [->|Hq]; [by left; left|]. destruct (Hc q Hq) as [?| ->]; [by left|].
  right. split; [done|]. exact Hall.
Qed.

Lemma publish_claims s q err q' :
  claims s q → completed_flush_seq (publish (part s) q err) = q' → claims s q'.
Proof. unfold publish, set_flush. simpl. intros Hq <-. case_match; [done|]. by left. Qed.

Lemma flush_step_inv s e s' :
  flush_inv s → log_size (active (part s)) + event_bytes e ≤ u64_max → flush_step s e = Some s' →
  flush_inv s' ∧ log_size (active (part s')) ≤ log_size (active (part s)) + event_bytes e.
Proof.
  intros Hinv Hmax. destruct e; simpl in Hmax |- *.
  - intros [= <-]. by apply append_event_inv.
  - intros [= <-]. destruct (take_over_grows (part s) epoch) as (Hl & Hsz & Hg & Hcf & Hreq); [apply Hinv|].
    split; [|simpl; lia]. pose proof (fi_synced s Hinv) as Hsy.
    eapply flush_inv_keep; [exact Hinv|done| |by apply grows_retains|done|done|].
    + simpl. destruct Hg as [(Hcl & ? & _)|(m & Hcl & _)]; rewrite Hcl.
      * rewrite Nat.ltb_irrefl. lia.
      * rewrite length_app. simpl. destruct (Nat.ltb_spec (length (closed (part s))) (length (closed (part s)) + 1)); lia.
    + intros q [->|[?|?]]; left; [left; simpl; by rewrite Hcf|right; by left|right; by right].
  - intros [= <-]. destruct (delete_flush (part s) target) as (Ha & Hreq & Hcf).
    split; [|simpl; rewrite Ha; lia].
    eapply flush_inv_keep; [exact Hinv| | |apply delete_retains|done|done|].
    + unfold log_ok. simpl. rewrite Ha. apply Hinv.
    + simpl. rewrite Ha. apply Hinv.
    + intros q [->|[?|?]]; left; [left; simpl; by rewrite Hcf|right; by left|right; by right].
  - destruct (sending s); [done|]. intros [= <-]. split; [|simpl; lia].
    by eapply flush_inv_quiet.
  - destruct (committer s) eqn:Ec; try done. destruct (queued s); [|done]. intros [= <-].
    split; [|simpl; lia]. eapply flush_inv_quiet; try done. unfold claims. simpl. naive_solver.
  - destruct (committer s) eqn:Ec; try done. intros [= <-].
    split; [|simpl; lia]. eapply flush_inv_quiet; try done. unfold claims. simpl. naive_solver.
  - destruct (committer s) eqn:Ec; try done. intros [= <-].
    split; [|simpl; lia]. eapply flush_inv_quiet; try done. unfold claims. simpl. case_match; naive_solver.
  - destruct ok, (committer s) as [| | |[?|]| |] eqn:Ec; try done; intros [= <-]; (split; [|simpl; lia]).
    + apply flush_inv_sync; [done|]. naive_solver.
    + eapply flush_inv_quiet; try done. unfold claims. simpl. naive_solver.
  - destruct (committer s) as [| | |[[q|]|]| |] eqn:Ec; try done; intros [= <-]; (split; [|simpl; lia]).
    + eapply flush_inv_quiet; try done. intros q' [->|[?|?]]; [|done..].
      eapply (publish_claims s q); [right; by left|done].
    + eapply flush_inv_quiet; try done. unfold claims. simpl. naive_solver.
  - destruct (committer s) eqn:Ec; try done. intros [= <-].
    split; [|simpl; lia]. eapply flush_inv_quiet; try done. unfold claims. simpl. naive_solver.
  - destruct (orphans s); [done|]. intros [= <-]. destruct ok; (split; [|simpl; lia]).
    + apply flush_inv_sync; [done|]. intros q Hq. left. by right.
    + by eapply flush_inv_quiet.
  - destruct (committer s) eqn:Ec; try done. intros [= <-]. destruct ok; (split; [|simpl; lia]); [|done].
    apply flush_inv_sync; [done|]. naive_solver.
  - destruct (committer s) eqn:Ec; try done. intros [= <-].
    split; [|simpl; lia]. eapply flush_inv_quiet; try done. intros q' [->|[?|?]]; [|done..].
    eapply (publish_claims s covered_seq); [right; by right|done].
Qed.

Definition run_bytes (es : list Event) : Z := foldr (λ e n, event_bytes e + n) 0 es.

Lemma run_bytes_nonneg es : 0 ≤ run_bytes es.
Proof. induction es as [|e es IH]; simpl; [done|]. destruct e; simpl; lia. Qed.

Lemma flush_run_inv s es s' :
  flush_inv s → log_size (active (part s)) + run_bytes es ≤ u64_max → flush_run s es = Some s' →
  flush_inv s'.
Proof.
  revert s. induction es as [|e es IH]; intros s Hinv Hmax; simpl; [by intros [= <-]|].
  destruct (flush_step s e) as [s1|] eqn:Es; [|done]. simpl in Hmax.
  pose proof (run_bytes_nonneg es).
  destruct (flush_step_inv s e s1 Hinv ltac:(lia) Es) as [Hinv1 Hle].
  intros Hrun. apply (IH s1); [done|lia|done].
Qed.

Lemma opened_inv p : log_ok p → completed_flush_seq p ≤ requested_flush_seq p → flush_inv (opened p).
Proof.
  intros Hl Hq. split; simpl; [done|lia| |].
  - intros n b H. by apply not_elem_of_nil in H.
  - intros q [->|[?|?]]; [|done..]. split; [done|]. intros n b H. by apply not_elem_of_nil in H.
Qed.

(** ** Properties *)

(** C3. An acknowledged [acks = all] append is durable: in any interleaving of
    appends, rolls, take-overs, fsyncs, timeouts, abandoned fsyncs and re-arm
    probes, once the append that triggered flush [n] sees its wait succeed, its
    bytes are on stable storage (or were, in a segment deleted since). *)
Theorem acked_append_durable p es s n b :
  log_ok p → completed_flush_seq p ≤ requested_flush_seq p →
  log_size (active p) + run_bytes es ≤ u64_max →
  flush_run (opened p) es = Some s → (n, b) ∈ triggered s →
  await_flush (part s) n = Some (Ok tt) → durable s b.
Proof.
  intros Hl Hq Hmax Hrun Hin Haw.
  destruct (flush_run_inv _ _ _ (opened_inv p Hl Hq) Hmax Hrun) as [_ _ _ Hc].
  unfold await_flush in Haw. destruct (flush_err (part s)); [done|].
  destruct (Z.leb_spec n (completed_flush_seq (part s))); [|done].
  destruct (Hc (completed_flush_seq (part s))) as [_ Hd]; [by left|]. by apply (Hd n).
Qed.

(** A run with a watchdog timeout: the first append's fsync is abandoned, the
    probe re-arms the partition, and the second append rolls the segment. *)
Definition demo_run : list Event :=
  [EAppend demo_cfg 0 1 (mk_batch 9); ESend; ERecv; ECapture; ECompare; ETimeout;
   EOrphanSync true; EProbeSync true; ERearm;
   EAppend demo_cfg 0 1 (mk_batch 9); ESend; ERecv; ECapture; ECompare; ESync true; EOutcome].

Definition demo_end : FlushState :=
  default (opened empty_partition) (flush_run (opened empty_partition) demo_run).

Lemma acked_append_durable_witness :
  length (closed (part demo_end)) = 1%nat ∧ durable demo_end (mk_batch 0).
Proof.
  split; [vm_compute; reflexivity|].
  apply (acked_append_durable empty_partition demo_run demo_end 1).
  - split; simpl; lia.
  - simpl. lia.
  - vm_compute. congruence.
  - vm_compute. reflexivity.
  - vm_compute. right. left.
  - vm_compute. reflexivity.
Defined.

(** ** No request is lost *)

(** Somebody will still wake the committer. *)
Definition wake_coming (s : FlushState) : Prop := queued s = true ∨ (0 < sending s)%nat.

Definition in_hand (c : Committer) (q : Z) : Prop :=
  c = Captured q ∨ c = Awaiting (Some (Some q)) ∨ c = Rearming q.

Record wake_inv (s : FlushState) : Prop := {
  wi_idle : committer s = Receiving →
    completed_flush_seq (part s) < requested_flush_seq (part s) → wake_coming s;
  wi_hand : ∀ q, in_hand (committer s) q → q < requested_flush_seq (part s) → wake_coming s }.

Lemma publish_completed p q err : q ≤ completed_flush_seq (publish p q err).
Proof. unfold publish, set_flush. simpl. destruct (Z.ltb_spec (completed_flush_seq p) q); lia. Qed.

Lemma append_requested cfg age epoch b p p' r :
  append cfg age epoch b p = (p', r) →
  completed_flush_seq p' = completed_flush_seq p ∧
  (requested_flush_seq p' = requested_flush_seq p ∨ ∃ o, r = Ok (o, true)).
Proof.
  assert (∀ q acc, completed_flush_seq q = completed_flush_seq p →
    requested_flush_seq q = requested_flush_seq p → commit_batch cfg q b acc = (p', r) →
    completed_flush_seq p' = completed_flush_seq p ∧
    (requested_flush_seq p' = requested_flush_seq p ∨ ∃ o, r = Ok (o, true))) as Hc.
  { intros q acc H1 H2. unfold commit_batch. rewrite <- H1, <- H2.
    repeat case_match; intros [= <- <-]; simpl; eauto; split; try done; try (right; by eexists).
    all: left; lia. }
  assert (completed_flush_seq (roll_if_needed cfg age p b) = completed_flush_seq p ∧
    requested_flush_seq (roll_if_needed cfg age p b) = requested_flush_seq p) as [R1 R2].
  { unfold roll_if_needed. by case_match. }
  unfold append. destruct (flush_err p); [intros [= <- <-]; auto|].
  destruct (epoch <? p_epoch p); [intros [= <- <-]; auto|].
  destruct (prod_info b) as [info|]; [|by apply Hc].
  destruct (classify _ info); try (by apply Hc); intros [= <- <-]; auto.
Qed.

Lemma wake_step s e s' : wake_inv s → flush_step s e = Some s' → wake_inv s'.
Proof.
  intros [Hi Hh]. unfold wake_coming, in_hand in *. destruct e; simpl.
  - intros [= <-]. unfold append_event.
    destruct (append cfg age epoch batch (part s)) as [p' r] eqn:Ea.
    apply append_requested in Ea as [Hc [Hr|[o ->]]].
    + destruct r as [[o [|]]|]; (split; unfold wake_coming, in_hand; simpl; rewrite ?Hc, ?Hr;
        [by auto|by eauto]) || (split; intros; right; simpl; lia).
    + split; intros; right; simpl; lia.
  - intros [= <-]. assert (requested_flush_seq (take_over (part s) epoch).1 = requested_flush_seq (part s) ∧
      completed_flush_seq (take_over (part s) epoch).1 = completed_flush_seq (part s)) as [Hr Hc].
    { unfold take_over, roll_for_epoch. by repeat case_match. }
    split; unfold wake_coming, in_hand; simpl; rewrite ?Hc, ?Hr; eauto.
  - intros [= <-]. destruct (delete_flush (part s) target) as (_ & Hr & Hc).
    split; unfold wake_coming, in_hand; simpl; rewrite ?Hc, ?Hr; eauto.
  - destruct (sending s); [done|]. intros [= <-]. split; intros; by left.
  - destruct (committer s) eqn:Ec; try done. destruct (queued s); [|done]. intros [= <-].
    split; simpl; [done|]. intros q [?|[?|?]]; done.
  - destruct (committer s) eqn:Ec; try done. intros [= <-].
    split; simpl; [done|]. intros q [[= ->]|[?|?]]; [lia|done..].
  - destruct (committer s) eqn:Ec; try done. intros [= <-].
    destruct (Z.eqb_spec target_seq (completed_flush_seq (part s))) as [->|];
      split; simpl; unfold wake_coming; simpl; try done; [by eauto| |]; intros q [?|[?|?]]; done.
  - destruct ok, (committer s) as [| | |[?|]| |] eqn:Ec; try done; intros [= <-];
      (split; simpl; [done|]).
    + intros q [?|[[= ->]|?]]; [done|lia|done].
    + intros q [?|[?|?]]; done.
  - destruct (committer s) as [| | |[[q|]|]| |] eqn:Ec; try done; intros [= <-].
    + split; cbn [committer with_committer outcome_event]; [|intros q' [?|[?|?]]; done].
      intros _ Hlt. apply (Hh q); [auto|]. cbn [part with_committer outcome_event] in Hlt.
      pose proof (publish_completed (part s) q (flush_err (part s))).
      change (requested_flush_seq (publish (part s) q (flush_err (part s))))
        with (requested_flush_seq (part s)) in Hlt. lia.
    + split; simpl; [done|]. intros q' [?|[?|?]]; done.
  - destruct (committer s) eqn:Ec; try done. intros [= <-].
    split; simpl; [done|]. intros q' [?|[?|?]]; done.
  - destruct (orphans s); [done|]. intros [= <-]. by destruct ok; split; simpl.
  - destruct (committer s) eqn:Ec; try done. intros [= <-]. destruct ok.
    + split; simpl; [done|]. intros q' [?|[?|[= ->]]]; [done|done|lia].
    + split; rewrite Ec; [done|]. intros q' [?|[?|?]]; done.
  - destruct (committer s) eqn:Ec; try done. intros [= <-].
    split; cbn [committer with_committer]; [|intros q' [?|[?|?]]; done].
    intros _ Hlt. apply (Hh covered_seq); [auto|]. cbn [part with_committer] in Hlt.
    pose proof (publish_completed (part s) covered_seq false).
    change (requested_flush_seq (publish (part s) covered_seq false))
      with (requested_flush_seq (part s)) in Hlt. lia.
Qed.

Lemma wake_run s es s' : wake_inv s → flush_run s es = Some s' → wake_inv s'.
Proof.
  revert s. induction es as [|e es IH]; intros s Hw; simpl; [by intros [= <-]|].
  destruct (flush_step s e) as [s1|] eqn:Es; [|done]. intros H. eapply IH; [|exact H].
  by eapply wake_step.
Qed.

(** No flush request is lost to the capacity-1 channel: after any run, a
    committer that is back waiting on the channel while some requested flush is
    not complete has a request queued, or the append that asked for it is about to
    send one. *)
Theorem no_lost_flush p es s :
  requested_flush_seq p ≤ completed_flush_seq p →
  flush_run (opened p) es = Some s → committer s = Receiving →
  completed_flush_seq (part s) < requested_flush_seq (part s) →
  queued s = true ∨ (0 < sending s)%nat.
Proof.
  intros Hp Hrun Hc Hlt. apply (wake_run _ _ _) in Hrun as [Hi _]; [by apply Hi|].
  split; simpl; [lia|]. intros q [?|[?|?]]; done.
Qed.

Definition one_append : FlushState :=
  default (opened empty_partition)
    (flush_run (opened empty_partition) [EAppend demo_cfg 0 1 (mk_batch 9)]).

Lemma no_lost_flush_witness : queued one_append = true ∨ (0 < sending one_append)%nat.
Proof.
  apply (no_lost_flush empty_partition [EAppend demo_cfg 0 1 (mk_batch 9)]).
  - simpl. lia.
  - vm_compute. reflexivity.
  - reflexivity.
  - vm_compute. reflexivity.
Defined.
