(* ===== verification/Recovery.v ===== *)
(** * Opening and closing a partition ([kaas-storage/src/partition.rs])

    What a partition leaves on the volume and what the next open makes of it:
    [manifest.rs], [recovery_checkpoint.rs], [producer_snapshot.rs],
    [txn_index_snapshot.rs], [open_blocking], [persist_state_locked], [close] and
    the persistent half of [take_over].

    A directory ([Dir]) is its segment files by name and its metadata files; a
    metadata file is absent, unreadable, or the value it decodes to (they are
    replaced by rename, so no torn one is seen).  Writing succeeds.  The CRC-32C
    is the parameter of [Segment.v]. *)

From stdpp Require Import base gmap strings list sorting.
From Stdlib Require Import Strings.Byte.
From S2P Require Import Prelude Primitives Wire Idempotence TxnIndex Segment SegmentDir ControlBatch Partition.

Local Open Scope Z_scope.

(** ** Metadata files *)

Notation JsonFile A := (option (result unit A)).

Record Manifest := { m_epoch : Z; m_high_watermark : Z; m_log_start_offset : Z }.

#[global] Instance Manifest_eq_dec : EqDecision Manifest.
Proof. solve_decision. Defined.

Record RecoveryCheckpoint := { cp_segment_base : Z; cp_byte_pos : Z; cp_high_watermark : Z }.

Definition PRODUCER_SNAPSHOT_VERSION : Z := 1.
Definition TXN_INDEX_SNAPSHOT_VERSION : Z := 1.

Record ProducerSnapshot := { ps_version : Z; ps_entries : list (Z * ProducerEntry) }.
Record TxnIndexSnapshot := { ts_version : Z; ts_open : list (Z * Z); ts_aborted : list AbortedTxn }.

Record Dir := {
  files : Files; manifest_file : JsonFile Manifest; legacy_epoch : option (list byte);
  checkpoint_file : JsonFile RecoveryCheckpoint; producer_file : JsonFile ProducerSnapshot;
  txn_file : JsonFile TxnIndexSnapshot }.

Definition with_files (d : Dir) (fs : Files) : Dir :=
  {| files := fs; manifest_file := manifest_file d; legacy_epoch := legacy_epoch d;
     checkpoint_file := checkpoint_file d; producer_file := producer_file d; txn_file := txn_file d |}.

(** *** [manifest.rs] *)

Inductive ReadResult := NotFound | Present (m : Manifest) | Legacy (m : Manifest).
Inductive ManifestError := ManifestJson | LegacyEpochTruncated (got : nat).

Definition read_legacy_epoch (d : Dir) : result ManifestError (option Manifest) :=
  match legacy_epoch d with
  | None => Ok None
  | Some buf =>
    if (length buf <? 8)%nat then Err (LegacyEpochTruncated (length buf))
    else Ok (Some {| m_epoch := sbe (slice 0 8 buf); m_high_watermark := 0; m_log_start_offset := 0 |})
  end.

Definition read_manifest (d : Dir) : result ManifestError ReadResult :=
  match manifest_file d with
  | Some (Ok m) => Ok (Present m)
  | Some (Err _) => Err ManifestJson
  | None =>
    o ← read_legacy_epoch d;
    mret match o with Some m => Legacy m | None => NotFound end
  end.

Definition write_unchecked (d : Dir) (m : Manifest) : Dir :=
  {| files := files d; manifest_file := Some (Ok m); legacy_epoch := None;
     checkpoint_file := checkpoint_file d; producer_file := producer_file d; txn_file := txn_file d |}.

(** The epoch in effect afterwards. *)
Definition write_unless_superseded (d : Dir) (m : Manifest) : Dir * Z :=
  match read_manifest d with
  | Ok (Present on_disk) =>
    if m_epoch m <? m_epoch on_disk then (d, m_epoch on_disk)
    else if bool_decide (on_disk = m) then (d, m_epoch m)
    else (write_unchecked d m, m_epoch m)
  | _ => (write_unchecked d m, m_epoch m)
  end.

(** *** [recovery_checkpoint.rs] *)

Definition read_checkpoint (d : Dir) : option RecoveryCheckpoint :=
  match checkpoint_file d with Some (Ok cp) => Some cp | _ => None end.

Definition write_checkpoint (d : Dir) (cp : RecoveryCheckpoint) : Dir :=
  {| files := files d; manifest_file := manifest_file d; legacy_epoch := legacy_epoch d;
     checkpoint_file := Some (Ok cp); producer_file := producer_file d; txn_file := txn_file d |}.

(** *** [producer_snapshot.rs], [txn_index_snapshot.rs] *)

Definition read_producer_snapshot (d : Dir) : result StorageError (option (list (Z * ProducerEntry))) :=
  match producer_file d with
  | None => Ok None
  | Some (Err _) => Err Json
  | Some (Ok s) => Ok (if ps_version s =? PRODUCER_SNAPSHOT_VERSION then Some (ps_entries s) else None)
  end.

Definition write_producer_snapshot (d : Dir) (states : list (Z * ProducerEntry)) : Dir :=
  {| files := files d; manifest_file := manifest_file d; legacy_epoch := legacy_epoch d;
     checkpoint_file := checkpoint_file d;
     producer_file := Some (Ok {| ps_version := PRODUCER_SNAPSHOT_VERSION; ps_entries := states |});
     txn_file := txn_file d |}.

Definition read_txn_index_snapshot (d : Dir) : result StorageError (option (list (Z * Z) * list AbortedTxn)) :=
  match txn_file d with
  | None => Ok None
  | Some (Err _) => Err Json
  | Some (Ok s) => Ok (if ts_version s =? TXN_INDEX_SNAPSHOT_VERSION then Some (ts_open s, ts_aborted s) else None)
  end.

Definition write_txn_index_snapshot (d : Dir) (open : list (Z * Z)) (aborted : list AbortedTxn) : Dir :=
  {| files := files d; manifest_file := manifest_file d; legacy_epoch := legacy_epoch d;
     checkpoint_file := checkpoint_file d; producer_file := producer_file d;
     txn_file := Some (Ok {| ts_version := TXN_INDEX_SNAPSHOT_VERSION; ts_open := open; ts_aborted := aborted |}) |}.

(** ** Opening *)

(** [open_meta_only] and [open_handles]: the index handle is opened without
    [append], so its cursor is at 0; the indexed position is estimated from the
    size of the index. *)
Definition adopt_segment (m : SegmentMeta) : ActiveSegment :=
  {| meta_base := base_offset m; meta_epoch := seg_epoch m; log := log_file m; index := index_file m;
     index_pos := 0; handles_open := true; log_size := Z.of_nat (length (log_file m)); seg_last_offset := 0;
     last_indexed_log_pos := Z.of_nat (length (index_file m)) / 8 * 4096;
     seg_max_timestamp := UNKNOWN_MAX_TIMESTAMP |}.

(** Where the scan starts: a checkpoint of this very segment, inside its log. *)
Definition scan_start (d : Dir) (a : ActiveSegment) : nat * Z :=
  match read_checkpoint d with
  | Some cp =>
    if (cp_segment_base cp =? meta_base a) && (0 <=? cp_byte_pos cp) && (cp_byte_pos cp <=? log_size a)
    then (Z.to_nat (cp_byte_pos cp), cp_high_watermark cp) else (O, meta_base a)
  | None => (O, meta_base a)
  end.

(** The active segment, its file stem and the files of the directory: the newest
    listed segment, or a fresh one at the manifest's watermark. *)
Definition open_active (d : Dir) (hwm epoch : Z) : ActiveSegment * string * list SegmentMeta * Dir :=
  let segs := list_segments (files d) in
  match last segs with
  | Some (stem, m) =>
    (adopt_segment m, stem, (take (length segs - 1) segs).*2,
     with_files d (<[stem +:+ INDEX_EXT := index_file m]> (files d)))
  | None =>
    let stem := epoch_prefixed_stem hwm epoch in
    (create hwm epoch, stem, [],
     with_files d (<[stem +:+ INDEX_EXT := []]> (<[stem +:+ LOG_EXT := []]> (files d))))
  end.

(** [(epoch, high watermark, log start)]. *)
Definition manifest_view (r : ReadResult) : Z * Z * Z :=
  match r with
  | Present m => (m_epoch m, m_high_watermark m, m_log_start_offset m)
  | Legacy m => (m_epoch m, 0, 0)
  | NotFound => (0, 0, 0)
  end.

Section recovery.
Context (crc32c : list byte → Z) (crc32c_append : Z → list byte → Z).

(** Drop a torn tail: [Eof] means there is none. *)
Definition drop_tail (a : ActiveSegment) (scan : ScanResult) : ActiveSegment :=
  if bool_decide (stop scan = Eof) then a else truncate_to a (valid_end scan).

Definition restore_txns (log_start : Z) (snap : option (list (Z * Z) * list AbortedTxn)) :
    OpenTxnIndex * AbortedTxnIndex :=
  match snap with
  | Some (open, aborted) => (restore_open open, evict_below (restore_aborted aborted) log_start)
  | None => (∅, [])
  end.

(** [open_blocking], assembled into the partition as [Partition::open] does. *)
Definition open_partition (d : Dir) : Dir * result StorageError Partition :=
  match read_manifest d with
  | Err ManifestJson => (d, Err Json)
  | Err (LegacyEpochTruncated _) => (d, Err (IoErr OtherIo))
  | Ok r =>
    let '(epoch, hwm, start) := manifest_view r in
    let '(a, stem, closed_segs, d) := open_active d hwm epoch in
    let '(pos, seed) := scan_start d a in
    let scan := scan_high_watermark_from crc32c crc32c_append (log a) pos seed in
    let a := drop_tail a scan in
    let d := with_files d (<[stem +:+ LOG_EXT := log a]> (files d)) in
    match read_producer_snapshot d with
    | Err e => (d, Err e)
    | Ok producers =>
      match read_txn_index_snapshot d with
      | Err e => (d, Err e)
      | Ok txns =>
        let '(open, aborted) := restore_txns start txns in
        let '(d, epoch) := write_unless_superseded d
          {| m_epoch := epoch; m_high_watermark := high_watermark scan; m_log_start_offset := start |} in
        (d, Ok {| active := a; closed := closed_segs; log_start := start;
                  high_water := high_watermark scan; p_epoch := epoch; pending_flush_records := 0;
                  requested_flush_seq := 0; completed_flush_seq := 0; flush_err := false;
                  producer_states := restore (default [] producers);
                  open_txns := open; aborted_txns := aborted |})
      end
    end
  end.

End recovery.

(** ** Persisting *)

(** [false]: superseded by a higher epoch, nothing written. *)
Definition persist_state (d : Dir) (p : Partition) (epoch : Z) : Dir * bool :=
  let superseded :=
    match read_manifest d with Ok (Present on_disk) => epoch <? m_epoch on_disk | _ => false end in
  if superseded then (d, false)
  else
    let d := write_producer_snapshot d (snapshot (producer_states p)) in
    let d := write_txn_index_snapshot d (entries (open_txns p)) (aborted_txns p) in
    let '(d, effective) := write_unless_superseded d
      {| m_epoch := epoch; m_high_watermark := high_water p; m_log_start_offset := log_start p |} in
    (d, effective =? epoch).

Definition close_handles (a : ActiveSegment) : ActiveSegment :=
  {| meta_base := meta_base a; meta_epoch := meta_epoch a; log := log a; index := index a;
     index_pos := index_pos a; handles_open := false; log_size := log_size a;
     seg_last_offset := seg_last_offset a; last_indexed_log_pos := last_indexed_log_pos a;
     seg_max_timestamp := seg_max_timestamp a |}.

(** The first [close] of a partition; [synced] is whether the log could be
    fsynced.  [abandon] is the second half alone. *)
Definition abandon (p : Partition) : Partition := with_segments p (close_handles (active p)) (closed p).

Definition close_partition (d : Dir) (p : Partition) (synced : bool) : Dir * Partition :=
  let '(d, persisted) := persist_state d p (p_epoch p) in
  let d := if persisted && synced
           then write_checkpoint d {| cp_segment_base := meta_base (active p);
                                      cp_byte_pos := Z.min i64_max (log_size (active p));
                                      cp_high_watermark := high_water p |}
           else d in
  (d, abandon p).

(** [take_over] with its persistence: whether the state was persisted is not
    looked at. *)
Definition take_over_persist (d : Dir) (p : Partition) (epoch : Z) : Dir * Partition * Z :=
  if epoch <=? p_epoch p then (d, p, high_water p)
  else
    let '(d', _) := persist_state d (roll_for_epoch p epoch) epoch in
    let '(p', hwm) := take_over p epoch in (d', p', hwm).

(** ** What opening recovers *)

Definition active_meta (a : ActiveSegment) : SegmentMeta :=
  {| base_offset := meta_base a; seg_epoch := meta_epoch a; size := log_size a;
     max_timestamp := seg_max_timestamp a; log_file := log a; index_file := index a |}.
Definition segments_of (p : Partition) : list SegmentMeta := closed p ++ [active_meta (active p)].

(** The entries of an index name batches of the log. *)
Definition index_ok (base : Z) (bs : list (list byte)) (idx : list byte) : Prop :=
  ∃ es, idx = concat (entry_bytes <$> es) ∧ Forall (names_batch base bs) es ∧ Forall entry_in_range es.

Lemma segment_index_ok s bs : segment_ok s bs → index_ok (meta_base s) bs (index s).
Proof. intros (_ & _ & _ & _ & _ & es & _ & Hi & _ & _ & Hn & Hr). by exists es. Qed.

Lemma segment_ok_intro s bs :
  handles_open s = true → log s = concat bs → log_size s = Z.of_nat (length (concat bs)) →
  Forall readable bs → in_order (meta_base s) bs → index_pos s = 0 →
  index_ok (meta_base s) bs (index s) → segment_ok s bs.
Proof.
  intros Hh Hl Hz Hr Ho Hp (es & Hi & Hn & He). repeat split; [done..|]. exists es, 0%nat.
  repeat split; [done..|lia|done|done].
Qed.

(** A checkpoint of the segment, if there is one, is a boundary of its batches
    and the offset reached there. *)
Definition checkpoint_ok (d : Dir) (base : Z) (bs : list (list byte)) : Prop :=
  ∀ cp, read_checkpoint d = Some cp → cp_segment_base cp = base →
    ∃ pre post, bs = pre ++ post ∧ cp_byte_pos cp = Z.of_nat (length (concat pre)) ∧
      cp_high_watermark cp = log_end base pre.

Lemma next_offset_last b : last_off b < i64_max → next_offset b = last_off b + 1.
Proof.
  unfold next_offset, last_off, first_off. intros H.
  set (x := sbe (slice 0 8 b) + sbe (slice 23 4 b)) in *.
  destruct (wrap_s_shift 64 x) as [k Hk]; [done|].
  pose proof (wrap_s_range 64 x ltac:(done)) as Hr.
  replace (x + 1) with (wrap_s 64 x + 1 + (- k) * 2 ^ 64) by lia. rewrite wrap_s_plus.
  apply wrap_s_small; [done|]. unfold i64_max in H.
  change (2 ^ (64 - 1)) with 9223372036854775808 in *. lia.
Qed.

Section recovery_proofs.
Context (crc32c : list byte → Z) (crc32c_append : Z → list byte → Z).
Context (crc_law : ∀ a b, crc32c_append (crc32c a) b = crc32c (a ++ b)).
Notation good := (good_batch crc32c).
Notation open_partition := (open_partition crc32c crc32c_append).

Lemma good_readable b : good b → readable b.
Proof. intros (Hl & Hb & _). split; [lia|done]. Qed.

Lemma end_offset_log_end base bs :
  in_order base bs → log_end base bs ≤ i64_max → end_offset base bs = log_end base bs.
Proof.
  intros Ho He. unfold end_offset, log_end in *. destruct (last bs) as [b|]; [|done].
  apply next_offset_last. lia.
Qed.

Definition no_good (t : list byte) : Prop := ∀ b t', t = b ++ t' → ¬ good b.

Lemma scan_loop_exact fuel bs t hwm ve :
  (length bs < fuel)%nat → Forall good bs → no_good t →
  let r := scan_loop crc32c crc32c_append fuel (concat bs ++ t) hwm ve in
  high_watermark r = end_offset hwm bs ∧ valid_end r = ve + Z.of_nat (length (concat bs)) ∧
  (stop r = Eof ↔ (length t < 12)%nat).
Proof.
  intros Hf Hbs Ht. revert fuel hwm ve Hf.
  induction Hbs as [|b bs Hb Hbs IH]; intros [|f] hwm ve Hf; simpl in Hf; try lia.
  - cbn [concat app scan_loop]. destruct (scan_one _ _ t) as [[b t']|s] eqn:E.
    { apply (scan_one_ok _ _ crc_law) in E as [-> Hg]. by destruct (Ht b t' eq_refl). }
    destruct (scan_one_err _ _ crc_law _ _ E) as [_ Hs]. cbn. split; [done|]. split; [lia|done].
  - cbn [concat scan_loop]. rewrite <- app_assoc, (scan_one_good _ _ crc_law) by done.
    destruct (IH f (next_offset b) (ve + Z.of_nat (length b)) ltac:(lia)) as (Hh & Hv & Hs).
    split; [|split; [|done]].
    + rewrite Hh. unfold end_offset. rewrite last_cons. by destruct (last bs).
    + rewrite Hv, length_app. lia.
Qed.

(** Scanning from a boundary of the good prefix finds its end. *)
Lemma scan_from_boundary base pre post t :
  Forall good (pre ++ post) → no_good t →
  let r := scan_high_watermark_from crc32c crc32c_append (concat (pre ++ post) ++ t)
             (length (concat pre)) (end_offset base pre) in
  high_watermark r = end_offset base (pre ++ post) ∧
  valid_end r = Z.of_nat (length (concat (pre ++ post))) ∧ (stop r = Eof ↔ (length t < 12)%nat).
Proof.
  intros [_ Hg]%Forall_app Ht. unfold scan_high_watermark_from.
  rewrite concat_app, <- app_assoc, drop_app_length.
  pose proof (concat_length_ge crc32c post Hg).
  destruct (scan_loop_exact (S (length (concat post ++ t))) post t (end_offset base pre)
    (Z.of_nat (length (concat pre)))) as (Hh & Hv & Hs); [rewrite length_app; lia|done..|].
  split; [|split; [|done]].
  - rewrite Hh. unfold end_offset. rewrite last_app. by destruct (last post).
  - rewrite Hv, length_app. lia.
Qed.

(** The scan of a segment whose log is [bs] and a tail, started where the
    checkpoint says. *)
Lemma open_scan d a bs t :
  log a = concat bs ++ t → log_size a = Z.of_nat (length (log a)) → Forall good bs → no_good t →
  in_order (meta_base a) bs → log_end (meta_base a) bs ≤ i64_max → checkpoint_ok d (meta_base a) bs →
  let r := scan_high_watermark_from crc32c crc32c_append (log a) (scan_start d a).1 (scan_start d a).2 in
  high_watermark r = log_end (meta_base a) bs ∧ valid_end r = Z.of_nat (length (concat bs)) ∧
  (stop r = Eof ↔ (length t < 12)%nat).
Proof.
  intros Hlog Hsz Hg Ht Ho He Hcp. rewrite Hlog, <- (end_offset_log_end _ bs) by done.
  assert (∀ pre post, bs = pre ++ post → let r := scan_high_watermark_from crc32c crc32c_append
    (concat bs ++ t) (length (concat pre)) (log_end (meta_base a) pre) in
    high_watermark r = end_offset (meta_base a) bs ∧ valid_end r = Z.of_nat (length (concat bs)) ∧
    (stop r = Eof ↔ (length t < 12)%nat)) as Hscan.
  { intros pre post ->. rewrite <- end_offset_log_end; [by apply scan_from_boundary|by apply in_order_app in Ho as []|].
    apply in_order_app in Ho as [Hpre Hpost]. pose proof (log_end_ge _ _ Hpost) as Hge.
    unfold log_end in *. rewrite last_app in He. destruct (last post); simpl in *; lia. }
  unfold scan_start. destruct (read_checkpoint d) as [cp|] eqn:Ecp; [|by apply (Hscan [] bs)].
  destruct (Z.eqb_spec (cp_segment_base cp) (meta_base a)) as [Hb|]; [|by apply (Hscan [] bs)].
  destruct (Hcp cp Ecp Hb) as (pre & post & Hbs & Hpos & Hhw).
  destruct (_ && _) eqn:Eg; [|by apply (Hscan [] bs)]. cbn [fst snd]. rewrite Hpos, Nat2Z.id, Hhw.
  by apply (Hscan pre post).
Qed.

Lemma read_manifest_present d m : read_manifest d = Ok (Present m) → manifest_file d = Some (Ok m).
Proof.
  unfold read_manifest. destruct (manifest_file d) as [[]|]; [congruence|done|].
  by destruct (read_legacy_epoch d) as [[]|].
Qed.

(** Writing the manifest back under the epoch it was read with. *)
Lemma rewrite_manifest d r epoch hwm start m' :
  read_manifest d = Ok r → manifest_view r = (epoch, hwm, start) → m_epoch m' = epoch →
  ∃ d', write_unless_superseded d m' = (d', epoch) ∧ files d' = files d ∧
    checkpoint_file d' = checkpoint_file d ∧ manifest_file d' = Some (Ok m').
Proof.
  intros Hr Hv <-. unfold write_unless_superseded. rewrite Hr.
  destruct r as [|m|m]; [by eexists| |by eexists].
  injection Hv as Hm _ _. rewrite <- Hm, Z.ltb_irrefl.
  case_bool_decide as Heq; [subst|by eexists].
  exists d. split; [done|]. split; [done|]. split; [done|].
  by apply read_manifest_present.
Qed.

(** A tail shorter than a batch header reads as the end of the file and is left. *)
Definition kept_tail (t : list byte) : list byte := if (length t <? 12)%nat then t else [].

Lemma kept_tail_none t : t = [] ∨ (12 ≤ length t)%nat → kept_tail t = [].
Proof. unfold kept_tail. destruct (Nat.ltb_spec (length t) 12); [|done]. intros [->|]; [done|lia]. Qed.

(** The state a partition is opened in when its directory lists [csegs] and [m],
    [m] holding the batches [bs] and a tail the scan does not trust. *)
Lemma open_spec d r epoch hwm start csegs stem m bs t ps ts :
  read_manifest d = Ok r → manifest_view r = (epoch, hwm, start) →
  list_segments (files d) = csegs ++ [(stem, m)] →
  log_file m = concat bs ++ t → Forall good bs → no_good t →
  in_order (base_offset m) bs → log_end (base_offset m) bs ≤ i64_max →
  checkpoint_ok d (base_offset m) bs →
  read_producer_snapshot d = Ok ps → read_txn_index_snapshot d = Ok ts →
  ∃ d' p', open_partition d = (d', Ok p') ∧ closed p' = csegs.*2 ∧
    (log (active p') = concat bs ++ kept_tail t ∧
     log_size (active p') = Z.of_nat (length (concat bs ++ kept_tail t)) ∧
     meta_base (active p') = base_offset m ∧ index (active p') = index_file m ∧
     index_pos (active p') = 0 ∧ handles_open (active p') = true) ∧
    high_water p' = log_end (base_offset m) bs ∧ log_start p' = start ∧ p_epoch p' = epoch ∧
    producer_states p' = restore (default [] ps) ∧
    (open_txns p', aborted_txns p') = restore_txns start ts ∧
    manifest_file d' = Some (Ok {| m_epoch := epoch; m_high_watermark := log_end (base_offset m) bs;
                                   m_log_start_offset := start |}).
Proof.
  intros Hr Hv Hls Hlog Hg Ht Ho He Hcp Hps Hts.
  unfold Recovery.open_partition. rewrite Hr, Hv. unfold open_active.
  rewrite Hls, last_snoc, length_app. cbn [length].
  replace (length csegs + 1 - 1)%nat with (length csegs) by lia. rewrite take_app_length.
  set (d1 := with_files d _). set (a := adopt_segment m).
  destruct (open_scan d1 a bs t) as (Hh & Hve & Hst); [done|done|done|done|done|done|done|].
  destruct (scan_start d1 a) as [pos seed]. cbn [fst snd] in Hh, Hve, Hst.
  set (scan := scan_high_watermark_from _ _ _ _ _) in *. clearbody scan.
  set (d2 := with_files d1 _).
  change (read_producer_snapshot d2) with (read_producer_snapshot d).
  change (read_txn_index_snapshot d2) with (read_txn_index_snapshot d). rewrite Hps, Hts.
  destruct (restore_txns start ts) as [open aborted].
  destruct (rewrite_manifest d2 r epoch hwm start {| m_epoch := epoch; m_high_watermark := high_watermark scan;
    m_log_start_offset := start |}) as (d3 & Hw & _ & _ & Hm); [done|done|done|].
  rewrite Hw. eexists d3, _. split; [reflexivity|]. cbn. split; [done|].
  split; [|by rewrite Hh in *].
  unfold drop_tail, kept_tail. case_bool_decide as Hs.
  - apply Hst in Hs. destruct (Nat.ltb_spec (length t) 12); [|lia]. cbn. by rewrite Hlog.
  - destruct (Nat.ltb_spec (length t) 12) as [Hlt|Hge]; [by destruct Hs; apply Hst|].
    unfold truncate_to. rewrite Hve. destruct (Z.leb_spec (log_size a) (Z.of_nat (length (concat bs)))) as [Hle|Hle].
    { cbn in Hle. rewrite Hlog, length_app in Hle. lia. }
    cbn. rewrite Hlog, Nat2Z.id, take_app_length, app_nil_r. done.
Qed.

Lemma open_holds p' m csegs lc bs :
  closed p' = csegs → log (active p') = concat bs →
  log_size (active p') = Z.of_nat (length (concat bs)) →
  meta_base (active p') = base_offset m → index (active p') = index_file m →
  index_pos (active p') = 0 → handles_open (active p') = true →
  high_water p' = log_end (base_offset m) bs →
  Forall readable bs → in_order (base_offset m) bs → 0 ≤ base_offset m →
  index_ok (base_offset m) bs (index_file m) → closed_ok (base_offset m) csegs lc →
  holds p' (lc ++ bs).
Proof.
  intros Hc Hl Hz Hb Hi Hp Hh Hw Hr Ho H0 Hix Hck. exists lc, bs. rewrite Hc, Hb.
  split; [done|]. split; [done|]. split; [|done].
  apply segment_ok_intro; rewrite ?Hb, ?Hi; done.
Qed.

(** ** Closing and opening again *)

Definition not_superseded (d : Dir) (epoch : Z) : Prop :=
  ∀ m, manifest_file d = Some (Ok m) → m_epoch m ≤ epoch.

Lemma persist_state_spec d p epoch :
  not_superseded d epoch →
  ∃ d', persist_state d p epoch = (d', true) ∧ files d' = files d ∧ checkpoint_file d' = checkpoint_file d ∧
    manifest_file d' = Some (Ok {| m_epoch := epoch; m_high_watermark := high_water p;
                                   m_log_start_offset := log_start p |}) ∧
    producer_file d' = Some (Ok {| ps_version := 1; ps_entries := snapshot (producer_states p) |}) ∧
    txn_file d' = Some (Ok {| ts_version := 1; ts_open := entries (open_txns p); ts_aborted := aborted_txns p |}).
Proof.
  intros Hs. unfold persist_state.
  assert (match read_manifest d with Ok (Present on_disk) => epoch <? m_epoch on_disk | _ => false end = false) as ->.
  { destruct (read_manifest d) as [[|m|]|] eqn:E; try done. apply read_manifest_present, Hs in E. lia. }
  set (d1 := write_txn_index_snapshot _ _ _). unfold write_unless_superseded.
  destruct (read_manifest d1) as [[|m|]|] eqn:E; cbn [m_epoch]; rewrite ?Z.eqb_refl; try by eexists.
  apply read_manifest_present in E. destruct (Z.ltb_spec epoch (m_epoch m)) as [Hlt|_]; [apply Hs in E; lia|].
  case_bool_decide; rewrite Z.eqb_refl; eexists; [|done]. subst. done.
Qed.

Lemma listed_closed_ok ab ms l : closed_ok ab ms l → closed_ok ab (listed <$> ms) l.
Proof.
  induction 1 as [|m ms bs l (Hh & Hl & Hz & Hr & Ho & es & k & Hi & Hp & Hk & Hn & He) H0 Hend Hc IH]; [constructor|].
  rewrite fmap_cons. constructor; [|done| |done].
  - repeat split; try done. by exists es, k.
  - cbn [listed base_offset]. rewrite Hend. by destruct ms.
Qed.

(** What must hold of the names for the directory to list the segments back. *)
Definition names_ok (p : Partition) : Prop :=
  Forall key_ok (seg_key <$> segments_of p) ∧
  StronglySorted (λ x y, x.1 < y.1) (seg_key <$> segments_of p).

Lemma list_partition p :
  names_ok p → list_segments (files_of (segments_of p)) =
    ((λ m, (stem_of m, listed m)) <$> closed p) ++
    [(stem_of (active_meta (active p)), listed (active_meta (active p)))].
Proof.
  intros [Hn Hs]. rewrite list_segments_sorted by done. unfold segments_of. by rewrite fmap_app.
Qed.

Lemma no_good_nil : no_good [].
Proof. intros b t' H Hg. symmetry in H. apply app_nil in H as [-> _]. destruct Hg as [Hl _]. simpl in Hl. lia. Qed.

(** A partition is opened with no flush error. *)
Lemma open_ready d d' p' : open_partition d = (d', Ok p') → flush_err p' = false.
Proof.
  unfold Recovery.open_partition. destruct (read_manifest d) as [r|[]]; [|done..].
  destruct (manifest_view r) as [[epoch hwm] start], (open_active d hwm epoch) as [[[a stem] cs] d1].
  destruct (scan_start d1 a) as [pos seed]. cbn zeta.
  destruct (read_producer_snapshot _); [|done]. destruct (read_txn_index_snapshot _) as [ts|]; [|done].
  destruct (restore_txns start ts), (write_unless_superseded _ _). by intros [= <- <-].
Qed.

Lemma reopen_closed p l d synced d1 p1 :
  holds p l → Forall good l → names_ok p → files d = files_of (segments_of p) →
  high_water p ≤ i64_max → Z.of_nat (length (concat l)) ≤ i64_max →
  StronglySorted first_lt (aborted_txns p) → not_superseded d (p_epoch p) →
  (∀ la, segment_ok (active p) la → checkpoint_ok d (meta_base (active p)) la) →
  close_partition d p synced = (d1, p1) →
  ∃ d2 p2, open_partition d1 = (d2, Ok p2) ∧ holds p2 l ∧ high_water p2 = high_water p ∧
    log_start p2 = log_start p ∧ p_epoch p2 = p_epoch p ∧ producer_states p2 = producer_states p ∧
    open_txns p2 = open_txns p ∧ aborted_txns p2 = evict_below (aborted_txns p) (log_start p) ∧
    flush_err p2 = false.
Proof.
  intros (lc & la & -> & Hc & Ha & H0 & Hw) Hg Hn Hf Hmax Hlen Hab Hs Hcp Hcl.
  apply Forall_app in Hg as [_ Hg].
  destruct (persist_state_spec d p (p_epoch p) Hs) as (d' & Hp & Hf' & Hc' & Hm & Hps & Hts).
  unfold close_partition in Hcl. rewrite Hp in Hcl. cbn [andb] in Hcl. injection Hcl as Hd1 _.
  assert (files d1 = files_of (segments_of p) ∧ manifest_file d1 = manifest_file d' ∧
    producer_file d1 = producer_file d' ∧ txn_file d1 = txn_file d') as (Hf1 & Hm1 & Hps1 & Hts1).
  { rewrite <- Hd1. destruct synced; cbn; by rewrite Hf'. }
  pose proof Ha as (_ & Hlog & Hsz & Hr & Ho & _).
  assert (checkpoint_ok d1 (meta_base (active p)) la) as Hcp1.
  { subst d1. destruct synced.
    - intros cp [= <-] _. exists la, []. cbn. rewrite app_nil_r, Hsz, Hw. split; [done|].
      rewrite concat_app, length_app in Hlen. split; [lia|done].
    - intros cp Hcp'. apply (Hcp la Ha). unfold read_checkpoint in *. by rewrite <- Hc'. }
  destruct (open_spec d1 (Present {| m_epoch := p_epoch p; m_high_watermark := high_water p;
    m_log_start_offset := log_start p |}) (p_epoch p) (high_water p) (log_start p)
    ((λ m, (stem_of m, listed m)) <$> closed p) (stem_of (active_meta (active p)))
    (listed (active_meta (active p))) la []
    (Some (snapshot (producer_states p))) (Some (entries (open_txns p), aborted_txns p)))
    as (d2 & p2 & Hop & Hcl2 & (Hl2 & Hz2 & Hb2 & Hi2 & Hp2 & Hh2) & Hw2 & Hst2 & He2 & Hps2 & Htx2 & _);
    try done.
  - unfold read_manifest. by rewrite Hm1, Hm.
  - rewrite Hf1. by apply list_partition.
  - cbn. by rewrite app_nil_r.
  - apply no_good_nil.
  - cbn. lia.
  - unfold read_producer_snapshot. by rewrite Hps1, Hps.
  - unfold read_txn_index_snapshot. by rewrite Hts1, Hts.
  - cbn [kept_tail length] in Hl2, Hz2. rewrite app_nil_r in Hl2, Hz2. exists d2, p2. split; [done|]. split.
    { apply (open_holds p2 (listed (active_meta (active p))) (listed <$> closed p) lc la); try done.
      - by rewrite Hcl2, <- list_fmap_compose.
      - by apply segment_index_ok.
      - by apply listed_closed_ok. }
    split; [by rewrite Hw2, Hw|]. split; [done|]. split; [done|]. split; [rewrite Hps2; apply collect_map_to_list|].
    cbn in Htx2. injection Htx2 as -> ->. split; [apply collect_map_to_list|].
    split; [by rewrite restore_aborted_id|]. by eapply open_ready.
Qed.

(** C7. A graceful restart loses nothing: closing a partition and opening its
    directory again (here or on the next leader) gives a partition that holds the
    same batches, with the same high watermark, log start and epoch, the same
    deduplication window and open transactions, and the aborted transactions that
    can still be fetched, whether or not the log could be fsynced and the
    recovery checkpoint written. *)
Theorem reopen_after_close p l d synced d1 p1 :
  holds p l → Forall good l → names_ok p → files d = files_of (segments_of p) →
  high_water p ≤ i64_max → Z.of_nat (length (concat l)) ≤ i64_max →
  StronglySorted first_lt (aborted_txns p) → not_superseded d (p_epoch p) →
  (∀ la, segment_ok (active p) la → checkpoint_ok d (meta_base (active p)) la) →
  close_partition d p synced = (d1, p1) →
  ∃ d2 p2, open_partition d1 = (d2, Ok p2) ∧ holds p2 l ∧ high_water p2 = high_water p ∧
    log_start p2 = log_start p ∧ p_epoch p2 = p_epoch p ∧ producer_states p2 = producer_states p ∧
    open_txns p2 = open_txns p ∧ aborted_txns p2 = evict_below (aborted_txns p) (log_start p).
Proof.
  intros. edestruct reopen_closed as (d2 & p2 & ? & ? & ? & ? & ? & ? & ? & ? & _); try done. by exists d2, p2.
Qed.

(** ** Recovery after a crash *)

(** The batches that lie entirely in the first [n] bytes. *)
Fixpoint whole (n : nat) (bs : list (list byte)) : list (list byte) :=
  match bs with
  | [] => []
  | b :: bs' => if (length b <=? n)%nat then b :: whole (n - length b) bs' else []
  end.

(** The bytes of a batch cut short. *)
Definition torn_tail (n : nat) (bs : list (list byte)) : list byte :=
  drop (length (concat (whole n bs))) (take n (concat bs)).

Lemma whole_spec n bs :
  ∃ rest, bs = whole n bs ++ rest ∧ take n (concat bs) = concat (whole n bs) ++ torn_tail n bs ∧
    (torn_tail n bs = [] ∨ ∃ b rest' k, rest = b :: rest' ∧ (k < length b)%nat ∧ torn_tail n bs = take k b).
Proof.
  unfold torn_tail. revert n. induction bs as [|b bs IH]; intros n; cbn [whole].
  { exists []. cbn. rewrite take_nil, drop_nil. split; [done|]. split; [done|by left]. }
  destruct (Nat.leb_spec (length b) n) as [Hb|Hb].
  - destruct (IH (n - length b)%nat) as (rest & Hr & Ht & Hcut). exists rest.
    cbn [concat]. rewrite take_app_ge, length_app, <- drop_drop, drop_app_length by done.
    split; [cbn; by rewrite <- Hr|]. split; [|done]. rewrite Ht at 1. by rewrite <- app_assoc.
  - exists (b :: bs). cbn [concat app length]. rewrite drop_0, take_app_le by lia.
    split; [done|]. split; [done|]. right. by exists b, bs, n.
Qed.

(** A proper prefix of a good batch starts with no good batch. *)
Lemma cut_no_good b k : good b → (k < length b)%nat → no_good (take k b).
Proof.
  intros (Hl & Hlen & _) Hk c t' Heq (Hlc & Hlenc & _).
  assert (slice 8 4 c = slice 8 4 b) as Hs.
  { rewrite <- (take_drop k b), slice_pre, Heq, slice_pre; [done|lia|].
    apply (f_equal length) in Heq. rewrite length_app in Heq. rewrite Heq. lia. }
  rewrite Hs, Hlen in Hlenc. apply (f_equal length) in Heq.
  rewrite length_take, length_app in Heq. lia.
Qed.

Lemma whole_prefix n ds bs :
  ds `prefix_of` bs → (length (concat ds) ≤ n)%nat → ds `prefix_of` whole n bs.
Proof.
  intros [post ->]. revert n. induction ds as [|d ds IH]; intros n Hn; [apply prefix_nil|].
  cbn [concat app whole] in *. rewrite length_app in Hn. destruct (Nat.leb_spec (length d) n); [|lia].
  apply prefix_cons, IH. lia.
Qed.

(** The newest segment as a crash leaves it: [n] bytes of its log, some index. *)
Definition crashed (a : ActiveSegment) (n : nat) (idx : list byte) : SegmentMeta :=
  {| base_offset := meta_base a; seg_epoch := meta_epoch a; size := 0; max_timestamp := 0;
     log_file := take n (log a); index_file := idx |}.

Lemma crashed_listing p n idx :
  names_ok p → list_segments (files_of (closed p ++ [crashed (active p) n idx])) =
    ((λ m, (stem_of m, listed m)) <$> closed p) ++
    [(stem_of (active_meta (active p)), listed (crashed (active p) n idx))].
Proof.
  unfold names_ok, segments_of. rewrite !fmap_app. intros [Hn Hs].
  by rewrite list_segments_sorted, fmap_app by (rewrite fmap_app; done).
Qed.

(** C8. A crash loses no batch that had reached the volume.  Whatever part of the
    newest segment's log is left, and whatever index, opening the directory succeeds;
    the log of the newest segment is then every batch that lies entirely in that
    part, the torn one dropped, and the next offset is the one behind the last of
    them; so every batch of the fsynced prefix survives.  A torn tail shorter than a
    batch header (12 bytes) stays behind the batches.  When there is none, and the
    index names no batch that was lost, the partition holds exactly the batches of
    the closed segments and those: reads serve them all.  (What follows otherwise:
    [short_tail_loses_append], [stale_index_hides_batch].)  The batches carry good
    checksums, and the checkpoint is not ahead of what is left. *)
Theorem crash_keeps_whole_batches p lc la d n idx r epoch hwm start ps ts :
  closed_ok (meta_base (active p)) (closed p) lc → segment_ok (active p) la → 0 ≤ meta_base (active p) →
  Forall good la → names_ok p → log_end (meta_base (active p)) la ≤ i64_max →
  files d = files_of (closed p ++ [crashed (active p) n idx]) →
  checkpoint_ok d (meta_base (active p)) (whole n la) →
  read_manifest d = Ok r → manifest_view r = (epoch, hwm, start) →
  read_producer_snapshot d = Ok ps → read_txn_index_snapshot d = Ok ts →
  ∃ d' p', open_partition d = (d', Ok p') ∧
    log (active p') = concat (whole n la) ++ kept_tail (torn_tail n la) ∧
    high_water p' = log_end (meta_base (active p)) (whole n la) ∧ p_epoch p' = epoch ∧
    (∀ ds, ds `prefix_of` la → (length (concat ds) ≤ n)%nat → ds `prefix_of` whole n la) ∧
    (torn_tail n la = [] ∨ (12 ≤ length (torn_tail n la))%nat →
     index_ok (meta_base (active p)) (whole n la) idx → holds p' (lc ++ whole n la)).
Proof.
  intros Hc Ha H0 Hg Hn Hmax Hf Hcp Hr Hv Hps Hts.
  pose proof Ha as (_ & Hlog & Hsz & Hrd & Ho & _).
  destruct (whole_spec n la) as (rest & Hla & Htake & Hcut).
  assert (Forall good (whole n la) ∧ in_order (meta_base (active p)) (whole n la) ∧
    log_end (meta_base (active p)) (whole n la) ≤ i64_max ∧ no_good (torn_tail n la)) as (Hgw & Ho' & Hmax' & Hno).
  { rewrite Hla in Hg, Ho, Hmax. apply Forall_app in Hg as [Hgw Hgr]. apply in_order_app in Ho as [Ho' Hor].
    pose proof (log_end_ge _ _ Hor). repeat split; [done|done| |].
    - unfold log_end in *. rewrite last_app in Hmax. destruct (last rest); simpl in *; lia.
    - destruct Hcut as [->|(b & rest' & k & -> & Hk & ->)]; [apply no_good_nil|].
      apply Forall_cons in Hgr as [Hb _]. by apply cut_no_good. }
  destruct (open_spec d r epoch hwm start ((λ m, (stem_of m, listed m)) <$> closed p)
    (stem_of (active_meta (active p))) (listed (crashed (active p) n idx)) (whole n la) (torn_tail n la) ps ts)
    as (d' & p' & Hop & Hcl & (Hl & Hz & Hb & Hi & Hp & Hh) & Hw & _ & He & _); try done.
  - rewrite Hf. by apply crashed_listing.
  - cbn. by rewrite Hlog, Htake.
  - exists d', p'. split_and!; [done|done|done|done|intros ds; apply whole_prefix|]. intros Htail Hidx.
    rewrite (kept_tail_none _ Htail), app_nil_r in Hl, Hz.
    apply (open_holds p' (listed (crashed (active p) n idx)) (listed <$> closed p) lc (whole n la)); try done.
    + by rewrite Hcl, <- list_fmap_compose.
    + eapply Forall_impl; [exact Hgw|]. apply good_readable.
    + by apply listed_closed_ok.
Qed.

(** ** The fence on the volume *)

Definition epoch_at_least (d : Dir) (e : Z) : Prop :=
  ∃ m, manifest_file d = Some (Ok m) ∧ e ≤ m_epoch m.

Lemma write_epoch d m e :
  epoch_at_least d e ∨ e ≤ m_epoch m →
  epoch_at_least (write_unless_superseded d m).1 e ∧ (epoch_at_least d e → e ≤ (write_unless_superseded d m).2).
Proof.
  intros H. unfold write_unless_superseded.
  destruct (read_manifest d) as [[|on_disk|]|] eqn:E.
  2:{ apply read_manifest_present in E as Hm.
      assert (epoch_at_least d e → e ≤ m_epoch on_disk) as Hd.
      { intros (m' & Hm' & He). rewrite Hm in Hm'. by simplify_eq. }
      destruct (Z.ltb_spec (m_epoch m) (m_epoch on_disk)); cbn.
      { split; [|done]. exists on_disk. split; [done|]. destruct H as [H|H]; [by apply Hd|lia]. }
      assert (e ≤ m_epoch m) by (destruct H as [H|H]; [apply Hd in H; lia|done]).
      case_bool_decide; cbn; (split; [|done]); [exists on_disk; by subst|by exists m]. }
  all: assert (¬ epoch_at_least d e) as Hn
    by (intros (m' & Hm' & _); unfold read_manifest in E; rewrite Hm' in E; done).
  all: cbn; split; [exists m; naive_solver|done].
Qed.

Lemma persist_epoch d p epoch e :
  epoch_at_least d e ∨ e ≤ epoch → epoch_at_least (persist_state d p epoch).1 e.
Proof.
  intros H. unfold persist_state. destruct (read_manifest d) as [[|on_disk|]|] eqn:E.
  2: apply read_manifest_present in E; destruct (Z.ltb_spec epoch (m_epoch on_disk)) as [Hlt|_];
    [cbn; exists on_disk; split; [done|]; destruct H as [(m & Hm & He)|He]; [congruence|lia]|].
  all: match goal with |- context [write_unless_superseded ?d1 ?m] =>
    pose proof (write_epoch d1 m e H) as [Hw _]; by destruct (write_unless_superseded d1 m) end.
Qed.

Lemma open_active_manifest d hwm epoch : manifest_file (open_active d hwm epoch).2 = manifest_file d.
Proof. unfold open_active. by destruct (last _) as [[]|]. Qed.

Lemma open_epoch d e :
  epoch_at_least d e → epoch_at_least (open_partition d).1 e ∧
  ∀ d' p', open_partition d = (d', Ok p') → e ≤ p_epoch p' ∧ flush_err p' = false.
Proof.
  intros He. unfold Recovery.open_partition. destruct (read_manifest d) as [r|[]] eqn:Er; [|done..].
  destruct (manifest_view r) as [[epoch hwm] start].
  pose proof (open_active_manifest d hwm epoch) as Hm.
  destruct (open_active d hwm epoch) as [[[a stem] cs] d1]. cbn in Hm.
  destruct (scan_start d1 a) as [pos seed]. set (scan := scan_high_watermark_from _ _ _ _ _). clearbody scan.
  set (d2 := with_files d1 _). assert (epoch_at_least d2 e) as He2.
  { destruct He as (m & Hm' & He). exists m. by rewrite <- Hm in Hm'. }
  destruct (read_producer_snapshot d2) as [ps|]; [|done].
  destruct (read_txn_index_snapshot d2) as [ts|]; [|done].
  destruct (restore_txns start ts) as [op ab].
  match goal with |- context [write_unless_superseded d2 ?m] =>
    pose proof (write_epoch d2 m e (or_introl He2)) as [Hw Hle]; destruct (write_unless_superseded d2 m) as [d3 ep] end.
  cbn in *. split; [done|]. intros d' p' [= <- <-]. cbn. auto.
Qed.

(** What the brokers sharing the directory may do to it. *)
Inductive DirOp :=
| OpOpen
| OpClose (p : Partition) (synced : bool)
| OpTakeOver (p : Partition) (epoch : Z)
| OpSegments (fs : Files)
| OpCheckpoint (cp : RecoveryCheckpoint).

Definition dir_step (d : Dir) (o : DirOp) : Dir :=
  match o with
  | OpOpen => (open_partition d).1
  | OpClose p synced => (close_partition d p synced).1
  | OpTakeOver p epoch => (take_over_persist d p epoch).1.1
  | OpSegments fs => with_files d fs
  | OpCheckpoint cp => write_checkpoint d cp
  end.

Lemma take_over_persist_dir d p epoch :
  (take_over_persist d p epoch).1.1 =
    if epoch <=? p_epoch p then d else (persist_state d (roll_for_epoch p epoch) epoch).1.
Proof.
  unfold take_over_persist. destruct (epoch <=? p_epoch p); [done|].
  destruct (persist_state _ _ _), (take_over p epoch). done.
Qed.

Lemma dir_step_epoch d o e : epoch_at_least d e → epoch_at_least (dir_step d o) e.
Proof.
  intros He. destruct o as [|p sy|p epoch|fs|cp]; cbn; [by apply open_epoch| | |done|done].
  - unfold close_partition. pose proof (persist_epoch d p (p_epoch p) e (or_introl He)) as Hp.
    destruct (persist_state d p (p_epoch p)) as [d1 ok]. cbn in *. by destruct (ok && sy).
  - rewrite take_over_persist_dir. case_match; [done|]. apply persist_epoch. by left.
Qed.

(** A completed take-over fences for good: once a broker has taken a
    partition over at epoch [e], whatever the brokers that share the directory do
    to it afterwards (open, close, take over, write segments and checkpoints, in
    any order and with any partition state in memory), a partition opened from
    it is at epoch [e] or above and refuses every append of an earlier leader. *)
Theorem fence_survives_reopen d p e d1 ops d3 p3 cfg age e' b :
  (take_over_persist d p e).1.1 = d1 → p_epoch p < e →
  open_partition (foldl dir_step d1 ops) = (d3, Ok p3) → e' < e →
  e ≤ p_epoch p3 ∧ append cfg age e' b p3 = (p3, Err EpochMismatch).
Proof.
  intros Ht Hp Ho He'.
  assert (epoch_at_least d1 e) as Hd1.
  { rewrite <- Ht, take_over_persist_dir.
    destruct (Z.leb_spec e (p_epoch p)); [lia|]. apply persist_epoch. by right. }
  assert (∀ d, epoch_at_least d e → epoch_at_least (foldl dir_step d ops) e) as Hops.
  { clear. induction ops as [|o ops IH]; intros d Hd; [done|]. by apply IH, dir_step_epoch. }
  destruct (open_epoch _ e (Hops d1 Hd1)) as [_ H]. destruct (H d3 p3 Ho) as [Hle Hf].
  split; [done|]. unfold append. rewrite Hf. by destruct (Z.ltb_spec e' (p_epoch p3)); [|lia].
Qed.

End recovery_proofs.

(** ** Where recovery and fencing fall short *)

(** A take-over that finds a newer leader on the volume reports success all
    the same: with a higher epoch in the manifest nothing is persisted, but the
    partition adopts its own epoch in memory and accepts appends under it.  The
    comment in [take_over] says the epoch is raised only once it is durable. *)
Theorem superseded_take_over_serves d p e m cfg age b :
  manifest_file d = Some (Ok m) → p_epoch p < e → e < m_epoch m → flush_err p = false → prod_info b = None →
  let '(d', p', _) := take_over_persist d p e in
  d' = d ∧ p_epoch p' = e ∧
  append cfg age e b p' = commit_batch cfg (roll_if_needed cfg age p' b) b None.
Proof.
  intros Hm Hp He Hf Hb. unfold take_over_persist, take_over, persist_state, read_manifest. rewrite Hm.
  destruct (Z.leb_spec e (p_epoch p)); [lia|]. destruct (Z.ltb_spec e (m_epoch m)); [|lia].
  split; [done|]. split; [done|]. unfold append. cbn [flush_err p_epoch].
  assert (flush_err (roll_for_epoch p e) = false) as -> by (unfold roll_for_epoch; by case_match).
  by rewrite Z.ltb_irrefl, Hb.
Qed.

Section shortfalls.
Context (crc32c : list byte → Z) (crc32c_append : Z → list byte → Z).
Context (crc_law : ∀ a b, crc32c_append (crc32c a) b = crc32c (a ++ b)).
Notation good := (good_batch crc32c).
Notation open_partition := (open_partition crc32c crc32c_append).

Lemma bad_no_good b t : readable b → ¬ good b → no_good crc32c (b ++ t).
Proof.
  intros [Hl Hb] Hn c t' Heq Hg. pose proof Hg as (Hlc & Hlenc & _).
  assert (slice 8 4 c = slice 8 4 b) as Hs.
  { rewrite <- (slice_pre b t 8 4), Heq, slice_pre by lia. done. }
  rewrite Hs, Hb in Hlenc. assert (length b = length c) as Hbc by lia.
  apply (f_equal (take (length b))) in Heq. rewrite take_app_length in Heq.
  rewrite Hbc, take_app_length in Heq. by subst.
Qed.

(** An acknowledged batch whose checksum is wrong takes the rest of the log
    with it: append never verifies the CRC (nor does the produce handler), so the
    batch is stored and acknowledged, and the next recovery that scans it stops
    there, truncates it and every batch behind it, and reuses their offsets. *)
Theorem bad_checksum_truncates p lc pre bad post d r epoch hwm start ps ts :
  closed_ok (meta_base (active p)) (closed p) lc → segment_ok (active p) (pre ++ bad :: post) →
  0 ≤ meta_base (active p) → Forall good pre → ¬ good bad → names_ok p →
  log_end (meta_base (active p)) (pre ++ bad :: post) ≤ i64_max →
  files d = files_of (segments_of p) → checkpoint_ok d (meta_base (active p)) pre →
  read_manifest d = Ok r → manifest_view r = (epoch, hwm, start) →
  read_producer_snapshot d = Ok ps → read_txn_index_snapshot d = Ok ts →
  ∃ d' p', open_partition d = (d', Ok p') ∧ log (active p') = concat pre ∧
    high_water p' = log_end (meta_base (active p)) pre.
Proof.
  intros Hc Ha H0 Hg Hbad Hn Hmax Hf Hcp Hr Hv Hps Hts.
  destruct Ha as (_ & Hlog & _ & Hrd & Ho & _).
  apply Forall_app in Hrd as [_ Hrd]. apply Forall_cons in Hrd as [Hrd _].
  apply in_order_app in Ho as [Ho Hor]. pose proof (log_end_ge _ _ Hor) as Hge.
  destruct (open_spec crc32c crc32c_append crc_law d r epoch hwm start ((λ m, (stem_of m, listed m)) <$> closed p)
    (stem_of (active_meta (active p))) (listed (active_meta (active p))) pre (concat (bad :: post)) ps ts)
    as (d' & p' & Hop & _ & (Hl & _) & Hw & _); try done.
  - rewrite Hf. by apply list_partition.
  - cbn [listed active_meta log_file]. by rewrite Hlog, concat_app.
  - by apply bad_no_good.
  - cbn. unfold log_end in Hmax at 1. rewrite last_app_cons in Hmax.
    unfold log_end in Hge at 2. destruct (last (bad :: post)) as [x|] eqn:El; [lia|].
    by apply last_None in El.
  - exists d', p'. rewrite kept_tail_none, app_nil_r in Hl; [done|].
    right. cbn [concat]. rewrite length_app. destruct Hrd. lia.
Qed.

End shortfalls.

(** ** Witnesses: two one-record batches in two segments *)

Definition two_batches : Partition := (append demo_cfg 0 1 (mk_batch 9) one_batch).1.

Lemma two_batches_holds : holds two_batches [mk_batch 0; mk_batch 1].
Proof.
  destruct (append_holds demo_cfg 0 1 (mk_batch 9) one_batch two_batches 1 true [mk_batch 0]
    one_batch_holds mk_batch_valid) as [[_ (info & Hi & _)]|(_ & H & _)];
    [vm_compute; reflexivity|vm_compute; congruence|vm_compute; reflexivity| |exact H].
  vm_compute in Hi. discriminate.
Qed.

Lemma mk_batch_good off : good_batch sum_crc (mk_batch off).
Proof.
  unfold good_batch, mk_batch. split; [rewrite !length_app, !length_be; lia|].
  rewrite (slice_post (be 8 off)), (drop_app_ge (be 8 off)) by (rewrite length_be; lia).
  rewrite (slice_post (be 8 off) _ 17) by (rewrite length_be; lia).
  rewrite !length_app, !length_be. split; reflexivity.
Qed.

Lemma two_batches_names : names_ok two_batches.
Proof.
  unfold names_ok. assert (seg_key <$> segments_of two_batches = [(0, 1); (1, 1)]) as -> by (vm_compute; reflexivity).
  split; repeat constructor; vm_compute; congruence.
Qed.

Definition bare_dir (fs : Files) : Dir :=
  {| files := fs; manifest_file := None; legacy_epoch := None; checkpoint_file := None;
     producer_file := None; txn_file := None |}.

Lemma reopen_after_close_witness :
  ∃ d2 p2, open_partition sum_crc sum_crc_append
      (close_partition (bare_dir (files_of (segments_of two_batches))) two_batches true).1 = (d2, Ok p2) ∧
    holds p2 [mk_batch 0; mk_batch 1] ∧ high_water p2 = 2.
Proof.
  destruct (reopen_after_close sum_crc sum_crc_append sum_crc_law two_batches [mk_batch 0; mk_batch 1]
    (bare_dir (files_of (segments_of two_batches))) true
    (close_partition (bare_dir (files_of (segments_of two_batches))) two_batches true).1
    (close_partition (bare_dir (files_of (segments_of two_batches))) two_batches true).2 two_batches_holds) as (d2 & p2 & Ho & Hh & Hw & _).
  - repeat constructor; apply mk_batch_good.
  - apply two_batches_names.
  - reflexivity.
  - vm_compute. congruence.
  - vm_compute. congruence.
  - constructor.
  - intros m Hm. change (None = Some (Ok (E := unit) m)) in Hm. discriminate Hm.
  - intros la _ cp Hcp. change (None = Some cp) in Hcp. discriminate Hcp.
  - apply surjective_pairing.
  - exists d2, p2. split; [exact Ho|]. split; [exact Hh|]. rewrite Hw. vm_compute. reflexivity.
Defined.

(** The active log cut 20 bytes into its batch. *)
Definition cut_dir : Dir := bare_dir (files_of (closed two_batches ++ [crashed (active two_batches) 20 []])).

Lemma split_two {A} (a b : A) lc la : [a; b] = lc ++ la → la ≠ [] → lc ≠ [] → lc = [a] ∧ la = [b].
Proof.
  intros H Ha Hc. destruct lc as [|x [|y lc]]; [done|by injection H as <- <-|].
  injection H as _ _ H. symmetry in H. by apply app_nil in H as [_ ->].
Qed.

Lemma two_segments_ok :
  closed_ok (meta_base (active two_batches)) (closed two_batches) [mk_batch 0] ∧
  segment_ok (active two_batches) [mk_batch 1].
Proof.
  destruct two_batches_holds as (lc & la & Hl & Hc & Ha & _).
  assert (length (log (active two_batches)) = 43%nat) as Hlen by (vm_compute; reflexivity).
  pose proof Ha as (_ & Hlog & _). rewrite Hlog in Hlen.
  destruct (split_two _ _ _ _ Hl) as [-> ->]; [| |by split].
  - intros ->. simpl in Hlen. discriminate Hlen.
  - intros ->. rewrite app_nil_l in Hl. rewrite <- Hl in Hlen.
    vm_compute in Hlen. discriminate Hlen.
Qed.

Lemma crash_keeps_whole_batches_witness :
  ∃ d' p', open_partition sum_crc sum_crc_append cut_dir = (d', Ok p') ∧ holds p' [mk_batch 0] ∧ high_water p' = 1.
Proof.
  destruct (crash_keeps_whole_batches sum_crc sum_crc_append sum_crc_law two_batches [mk_batch 0] [mk_batch 1]
    cut_dir 20 [] NotFound 0 0 0 None None (proj1 two_segments_ok) (proj2 two_segments_ok))
    as (d' & p' & Ho & _ & Hw & _ & _ & Hh).
  - vm_compute. congruence.
  - repeat constructor; apply mk_batch_good.
  - apply two_batches_names.
  - vm_compute. congruence.
  - reflexivity.
  - intros cp Hcp. change (None = Some cp) in Hcp. discriminate Hcp.
  - reflexivity.
  - reflexivity.
  - reflexivity.
  - reflexivity.
  - exists d', p'. split; [exact Ho|]. split; [|rewrite Hw; vm_compute; reflexivity]. apply Hh.
    + right. vm_compute. lia.
    + exists []. split; [reflexivity|]. split; constructor.
Defined.

Definition demo_opened : Dir * result StorageError Partition :=
  open_partition sum_crc sum_crc_append (foldl (dir_step sum_crc sum_crc_append)
    (take_over_persist (bare_dir ∅) empty_partition 5).1.1 [OpClose one_batch true; OpOpen]).

Lemma fence_survives_reopen_witness :
  ∃ p3, demo_opened.2 = Ok p3 ∧ append demo_cfg 0 4 (mk_batch 9) p3 = (p3, Err EpochMismatch).
Proof.
  destruct demo_opened.2 as [p3|e] eqn:E; [|exfalso; vm_compute in E; discriminate E].
  exists p3. split; [reflexivity|].
  apply (fence_survives_reopen sum_crc sum_crc_append (bare_dir ∅) empty_partition 5 _
    [OpClose one_batch true; OpOpen] demo_opened.1 p3 demo_cfg 0 4 (mk_batch 9) eq_refl).
  - vm_compute. reflexivity.
  - rewrite <- E. apply surjective_pairing.
  - vm_compute. reflexivity.
Defined.

Lemma superseded_take_over_serves_witness :
  let p' := (take_over_persist (write_unchecked (bare_dir ∅) {| m_epoch := 7; m_high_watermark := 0;
      m_log_start_offset := 0 |}) empty_partition 5).1.2 in
  p_epoch p' = 5 ∧ (append demo_cfg 0 5 (mk_batch 9) p').2 = Ok (0, true).
Proof.
  pose proof (superseded_take_over_serves (write_unchecked (bare_dir ∅) {| m_epoch := 7; m_high_watermark := 0;
    m_log_start_offset := 0 |}) empty_partition 5 _ demo_cfg 0 (mk_batch 9) eq_refl eq_refl eq_refl eq_refl
    (ltac:(vm_compute; reflexivity))) as H.
  destruct (take_over_persist _ _ _) as [[d' p'] h] eqn:E.
  destruct H as (_ & He & _). split; [exact He|].
  apply (f_equal (λ x, x.1.2)) in E. cbn [fst snd] in E. subst p'. vm_compute. reflexivity.
Defined.

(** The second batch's checksum field does not match. *)
Definition bad_batch : list byte := be 8 1 ++ be 4 31 ++ be 5 0 ++ be 4 7 ++ be 22 0.
Definition bad_seg : ActiveSegment :=
  (append_batch (append_batch (create 0 0) (mk_batch 0) 4096).1 bad_batch 4096).1.
Definition bad_partition : Partition := with_segments empty_partition bad_seg [].

Lemma bad_seg_ok : segment_ok bad_seg [mk_batch 0; bad_batch].
Proof.
  assert (segment_ok (append_batch (create 0 0) (mk_batch 0) 4096).1 [mk_batch 0] ∧
    meta_base (append_batch (create 0 0) (mk_batch 0) 4096).1 = 0) as [H1 M1].
  { apply (append_batch_ok (create 0 0) [] (mk_batch 0) 4096);
      [apply create_ok|split; [vm_compute; lia|reflexivity]|vm_compute; congruence..|reflexivity]. }
  apply (append_batch_ok _ [mk_batch 0] bad_batch 4096 bad_seg H1);
    [split; [vm_compute; lia|reflexivity]|vm_compute; congruence..|reflexivity].
Qed.

Definition bad_dir : Dir := bare_dir (files_of (segments_of bad_partition)).

Lemma bad_checksum_truncates_witness :
  ∃ d' p', open_partition sum_crc sum_crc_append bad_dir = (d', Ok p') ∧
    log (active p') = mk_batch 0 ∧ high_water p' = 1.
Proof.
  destruct (bad_checksum_truncates sum_crc sum_crc_append sum_crc_law bad_partition [] [mk_batch 0] bad_batch []
    bad_dir NotFound 0 0 0 None None (closed_nil _) bad_seg_ok) as (d' & p' & Ho & Hl & Hw).
  - vm_compute. congruence.
  - repeat constructor; apply mk_batch_good.
  - intros (_ & _ & H). vm_compute in H. discriminate H.
  - unfold names_ok. assert (seg_key <$> segments_of bad_partition = [(0, 0)]) as -> by (vm_compute; reflexivity).
    split; repeat constructor; vm_compute; congruence.
  - vm_compute. congruence.
  - reflexivity.
  - intros cp Hcp. change (None = Some cp) in Hcp. discriminate Hcp.
  - reflexivity.
  - reflexivity.
  - reflexivity.
  - reflexivity.
  - exists d', p'. split; [exact Ho|]. rewrite Hl, Hw. split; vm_compute; reflexivity.
Defined.

(** ** Concrete runs: open, append, crash, open again *)

Definition big_cfg : PartitionConfig :=
  {| segment_bytes := 1000000; segment_ms := None; index_interval_bytes := 1000; flush_interval_messages := 1 |}.

Definition reopened (d : Dir) : Partition :=
  match (open_partition sum_crc sum_crc_append d).2 with Ok p => p | Err _ => empty_partition end.

(** What a crash leaves of [p]: all its bytes, and the metadata files of the last
    open of [d]. *)
Definition crash_of (d : Dir) (p : Partition) : Dir :=
  with_files (open_partition sum_crc sum_crc_append d).1 (files_of (segments_of p)).

(** One batch, then five stray bytes. *)
Definition stray_dir : Dir := bare_dir (files_of [demo_seg 0 0 (mk_batch 0 ++ [xff; xff; xff; xff; xff])]).
Definition stray_appended : Partition * result StorageError (Z * bool) :=
  append big_cfg 0 0 (mk_batch 9) (reopened stray_dir).

(** A tail shorter than a batch header is kept and the next append is lost: the
    scan reports it as a clean end of file, so the open does not truncate it; the
    append behind it is accepted at offset 1, and after a crash the scan stops at
    the stray bytes, drops the acknowledged batch and gives offset 1 out again.
    (The checksum plays no part: the length read from the stray bytes ends the
    scan.) *)
Theorem short_tail_loses_append :
  stray_appended.2 = Ok (1, true) ∧ high_water stray_appended.1 = 2 ∧
  high_water (reopened (crash_of stray_dir stray_appended.1)) = 1 ∧
  log (active (reopened (crash_of stray_dir stray_appended.1))) = mk_batch 0.
Proof. vm_compute. auto. Qed.

(** A one-record batch of producer 7, epoch 0, sequence 0. *)
Definition idem_body : list byte :=
  be 2 0 ++ be 4 0 ++ be 8 0 ++ be 8 0 ++ be 8 7 ++ be 2 0 ++ be 4 0 ++ be 4 1.
Definition idem_batch : list byte :=
  be 8 0 ++ be 4 49 ++ be 4 0 ++ be 1 2 ++ be 4 (sum_crc idem_body) ++ idem_body.
Definition idem_once : Partition := (append big_cfg 0 0 idem_batch (reopened (bare_dir ∅))).1.

(** A crash forgets the deduplication window: the window is restored from the
    snapshot of the last close or take-over, not from the log, so the retry that
    is recognised before the crash is stored a second time after it, the log still
    holding the first copy. *)
Theorem crash_forgets_window :
  (append big_cfg 0 0 idem_batch idem_once).2 = Ok (0, false) ∧
  let p := reopened (crash_of (bare_dir ∅) idem_once) in
  log (active p) = idem_batch ∧ (append big_cfg 0 0 idem_batch p).2 = Ok (1, true).
Proof. vm_compute. auto. Qed.

(** One whole batch, a torn one, and an index that already names two later ones. *)
Definition stale_index_dir : Dir :=
  bare_dir (files_of [{| base_offset := 0; seg_epoch := 0; size := 0; max_timestamp := 0;
    log_file := mk_batch 0 ++ take 20 (mk_batch 1); index_file := entry_bytes (1, 43) ++ entry_bytes (2, 86) |}]).
Definition wide_batch : list byte := be 8 0 ++ be 4 48 ++ be 11 0 ++ be 4 0 ++ be 33 0.
Definition stale_appended : Partition :=
  (append big_cfg 0 0 (mk_batch 9) (append big_cfg 0 0 wide_batch (reopened stale_index_dir)).1).1.

(** Truncation keeps the index entries of the batches it drops: after two
    appends the stale entry for offset 2 points into the first of them, and a
    read at offset 2 finds nothing although the batch is in the log. *)
Theorem stale_index_hides_batch :
  log (active stale_appended) = mk_batch 0 ++ rewrite_base wide_batch 1 ++ mk_batch 2 ∧
  high_water stale_appended = 3 ∧ read stale_appended 2 1000 = [].
Proof. vm_compute. auto. Qed.
