(* ===== verification/Cluster.v ===== *)
(** * Cluster assignment and coordinator routing

    [kaas-broker/src/assignment.rs] (the assignment file's data),
    [group_hash.rs] (hash routing of groups and transactions),
    [coordinator.rs] (a broker's view of the assignment and its ownership
    answers) and [group_takeover.rs] (dropping the groups that moved away).

    The assignment file is an argument of [apply_if_new]: [None] stands for a
    missing, unreadable or half-written file. *)

From stdpp Require Import base gmap strings list sorting pretty.
From Stdlib Require Import Strings.Byte Strings.Ascii.
From S2P Require Import Prelude.

Local Open Scope Z_scope.

(** ** [assignment.rs] *)

Inductive BrokerHealth := Alive | Draining | Dead.
#[global] Instance BrokerHealth_eq_dec : EqDecision BrokerHealth.
Proof. solve_decision. Defined.

Inductive PartitionRole := Leader.

Record BrokerAssignment := { br_id : string; health : BrokerHealth; last_seen : string }.

Record PartitionAssignment := {
  pa_topic : string; pa_partition : Z; pa_broker : string; pa_epoch : Z; role : PartitionRole }.

Record ConsumerGroupAssignment := { ga_group_id : string; ga_broker : string; ga_epoch : Z }.

Record Assignment := {
  controller_epoch : Z; assignment_version : Z; generated_at : string; controller : string;
  brokers : list BrokerAssignment; partitions : list PartitionAssignment;
  consumer_groups : list ConsumerGroupAssignment }.

#[global] Instance PartitionAssignment_eq_dec : EqDecision PartitionAssignment.
Proof. intros [] []. assert (EqDecision PartitionRole) by solve_decision. solve_decision. Defined.
#[global] Instance ConsumerGroupAssignment_eq_dec : EqDecision ConsumerGroupAssignment.
Proof. solve_decision. Defined.

(** The broker ids in file order, and who is alive; a later row of the same id
    wins. *)
Definition broker_sets_of (rows : list BrokerAssignment) : list string * gmap string bool :=
  (br_id <$> rows,
   foldl (λ m b, <[br_id b := bool_decide (health b = Alive)]> m) ∅ rows).

Definition broker_sets (a : Assignment) : list string * gmap string bool := broker_sets_of (brokers a).

(** ** [group_hash.rs] *)

Definition OFFSET_BASIS : Z := 2166136261.
Definition PRIME : Z := 16777619.

Definition fnv1a_32 (bytes : list byte) : Z :=
  foldl (λ h b, wrap_u 32 (Z.lxor h (b2z b) * PRIME)) OFFSET_BASIS bytes.

Definition coordinator_slot (key : string) (num_brokers : nat) : nat :=
  match num_brokers with
  | O => 0
  | _ => Z.to_nat (fnv1a_32 (as_bytes key) mod Z.of_nat num_brokers)
  end.

Definition is_alive (alive : gmap string bool) (b : string) : bool := default false (alive !! b).

(** The preferred broker, or an alive one chosen by the same slot. *)
Definition pick_coordinator (key : string) (ids : list string) (alive : gmap string bool) : option string :=
  match ids with
  | [] => None
  | _ =>
    let sorted := merge_sort String.le ids in
    let slot := coordinator_slot key (length sorted) in
    match sorted !! slot with
    | None => None
    | Some b =>
      if is_alive alive b then Some b
      else
        let alive_sorted := filter (λ b, is_alive alive b = true) sorted in
        match alive_sorted with
        | [] => None
        | _ => alive_sorted !! (slot mod length alive_sorted)%nat
        end
    end
  end.

Definition pick_group_coordinator (group_id : string) (ids : list string) (alive : gmap string bool) :=
  pick_coordinator group_id ids alive.
Definition pick_txn_coordinator (transactional_id : string) (ids : list string) (alive : gmap string bool) :=
  pick_coordinator transactional_id ids alive.

(** ** [coordinator.rs] *)

Definition partition_key (topic : string) (partition : Z) : string :=
  topic +:+ "/" +:+ pretty partition.

Record Coordinator := {
  self_id : string; current : option Assignment; ownership : gmap string Z;
  leaders : gmap string string; last_applied_version : Z }.

Definition Coordinator_new (id : string) : Coordinator :=
  {| self_id := id; current := None; ownership := ∅; leaders := ∅; last_applied_version := 0 |}.

(** The indices derived from the partition rows. *)
Definition build_indices (id : string) (rows : list PartitionAssignment) :
    gmap string Z * gmap string string :=
  foldl (λ '(own, lead) p,
    let k := partition_key (pa_topic p) (pa_partition p) in
    (if decide (pa_broker p = id) then <[k := pa_epoch p]> own else own, <[k := pa_broker p]> lead))
    (∅, ∅) rows.

Definition apply_if_new (lease_epoch : Z) (file : option Assignment) (c : Coordinator) : Coordinator * bool :=
  match file with
  | None => (c, false)
  | Some parsed =>
    if controller_epoch parsed <? lease_epoch then (c, false)
    else if match current c with
            | Some prev => (controller_epoch parsed =? controller_epoch prev) &&
                           (assignment_version parsed <=? last_applied_version c)
            | None => false
            end
    then (c, false)
    else
      let '(own, lead) := build_indices (self_id c) (partitions parsed) in
      ({| self_id := self_id c; current := Some parsed; ownership := own; leaders := lead;
          last_applied_version := assignment_version parsed |}, true)
  end.

Definition owns (c : Coordinator) (topic : string) (partition : Z) : bool :=
  bool_decide (is_Some (ownership c !! partition_key topic partition)).

Definition current_epoch (c : Coordinator) (topic : string) (partition : Z) : option Z :=
  ownership c !! partition_key topic partition.

Definition leader_for (c : Coordinator) (topic : string) (partition : Z) : option string :=
  leaders c !! partition_key topic partition.

(** The explicit tier of group routing. *)
Definition explicit_group (rows : list ConsumerGroupAssignment) (group_id : string) : option ConsumerGroupAssignment :=
  find (λ g, bool_decide (ga_group_id g = group_id)) rows.

Definition owns_group (c : Coordinator) (group_id : string) : bool :=
  match current c with
  | None => false
  | Some a =>
    match explicit_group (consumer_groups a) group_id with
    | Some g => bool_decide (ga_broker g = self_id c)
    | None =>
      let '(ids, alive) := broker_sets a in
      match pick_group_coordinator group_id ids alive with
      | Some b => bool_decide (b = self_id c)
      | None => false
      end
    end
  end.

Definition group_coordinator (c : Coordinator) (group_id : string) : option string :=
  match current c with
  | None => None
  | Some a =>
    match explicit_group (consumer_groups a) group_id with
    | Some g => Some (ga_broker g)
    | None => let '(ids, alive) := broker_sets a in pick_group_coordinator group_id ids alive
    end
  end.

Definition owns_txn (c : Coordinator) (txn_id : string) : bool :=
  match current c with
  | None => false
  | Some a =>
    let '(ids, alive) := broker_sets a in
    match pick_txn_coordinator txn_id ids alive with
    | Some b => bool_decide (b = self_id c)
    | None => false
    end
  end.

Definition txn_coordinator (c : Coordinator) (txn_id : string) : option string :=
  match current c with
  | None => None
  | Some a => let '(ids, alive) := broker_sets a in pick_txn_coordinator txn_id ids alive
  end.

(** [is_serving]: [open] is the engine's open partitions. *)
Definition is_serving (c : Coordinator) (open : list (string * Z)) : bool :=
  match current c with
  | None => false
  | Some a =>
    forallb (λ p, bool_decide ((pa_topic p, pa_partition p) ∈ open))
      (filter (λ p, pa_broker p = self_id c) (partitions a))
  end.

(** ** [group_takeover.rs] *)

Definition coordinator_of (a : Assignment) (group_id : string) : option string :=
  match explicit_group (consumer_groups a) group_id with
  | Some g => Some (ga_broker g)
  | None => let '(ids, alive) := broker_sets a in pick_group_coordinator group_id ids alive
  end.

Definition owns_group_under (a : Assignment) (group_id broker_id : string) : bool :=
  match coordinator_of a group_id with Some b => bool_decide (b = broker_id) | None => false end.

(** [on_change]: the groups still resident afterwards; the rest are relinquished. *)
Definition on_change (broker_id : string) (next : Assignment) (resident : gset string) : gset string :=
  filter (λ g, owns_group_under next g broker_id = true) resident.

(** ** The key of a partition is unambiguous *)

Fixpoint slash_free (s : string) : bool :=
  match s with
  | EmptyString => true
  | String c s' => bool_decide (c ≠ "/"%char) && slash_free s'
  end.

Lemma slash_free_digits x s : slash_free s = true → slash_free (pretty_N_go x s) = true.
Proof.
  revert s. induction (N.lt_wf_0 x) as [x _ IH]; intros s Hs.
  assert (x = 0 ∨ 0 < x)%N as [->|?] by lia; [done|].
  rewrite pretty_N_go_step by done. apply IH; [by apply N.div_lt|].
  simpl. rewrite Hs. unfold pretty_N_char. by repeat case_match.
Qed.

Lemma slash_free_pretty (z : Z) : slash_free (pretty z) = true.
Proof.
  destruct z as [|p|p]; [done| |].
  - by apply slash_free_digits.
  - change (slash_free (pretty (Z.neg p))) with (slash_free (pretty_N_go (N.pos p) "")).
    by apply slash_free_digits.
Qed.

Lemma slash_free_app_slash t d : slash_free (t +:+ "/" +:+ d) = false.
Proof.
  induction t as [|c t IH]; [done|].
  change (String c t +:+ "/" +:+ d) with (String c (t +:+ "/" +:+ d)). simpl. rewrite IH.
  by rewrite andb_false_r.
Qed.

Lemma partition_key_inj t1 p1 t2 p2 :
  partition_key t1 p1 = partition_key t2 p2 → t1 = t2 ∧ p1 = p2.
Proof.
  unfold partition_key. pose proof (slash_free_pretty p1) as H1.
  pose proof (slash_free_pretty p2) as H2.
  revert t2. induction t1 as [|c t1 IH]; intros [|c' t2] Heq.
  - split; [done|]. injection Heq as Heq. change (pretty p1 = pretty p2) in Heq.
    by apply (inj pretty) in Heq.
  - exfalso. injection Heq as _ Heq.
    change (pretty p1 = t2 +:+ "/" +:+ pretty p2) in Heq. rewrite Heq in H1. by rewrite slash_free_app_slash in H1.
  - exfalso. injection Heq as _ Heq.
    change (t1 +:+ "/" +:+ pretty p1 = pretty p2) in Heq. rewrite <- Heq in H2. by rewrite slash_free_app_slash in H2.
  - injection Heq as -> Heq. by destruct (IH t2 Heq) as [-> ->].
Qed.

(** ** Routing *)

Lemma coordinator_slot_lt key n : (0 < n)%nat → (coordinator_slot key n < n)%nat.
Proof.
  intros Hn. unfold coordinator_slot. destruct n as [|n]; [lia|].
  pose proof (Z.mod_pos_bound (fnv1a_32 (as_bytes key)) (Z.of_nat (S n)) ltac:(lia)). lia.
Qed.

Lemma sort_elem ids b : b ∈ merge_sort String.le ids ↔ b ∈ ids.
Proof. by rewrite (merge_sort_Permutation String.le ids). Qed.

Lemma sort_perm ids ids' : ids ≡ₚ ids' → merge_sort String.le ids = merge_sort String.le ids'.
Proof.
  intros Hp. apply (StronglySorted_unique String.le);
    [apply StronglySorted_merge_sort; apply _..|].
  by rewrite !merge_sort_Permutation.
Qed.

(** The broker a key prefers: its slot in the sorted full broker set. *)
Definition preferred (key : string) (ids : list string) : option string :=
  merge_sort String.le ids !! coordinator_slot key (length ids).

Lemma length_sort ids : length (merge_sort String.le ids) = length ids.
Proof. by rewrite (merge_sort_Permutation String.le ids). Qed.

Lemma pick_unfold key ids alive :
  ids ≠ [] → ∃ b, preferred key ids = Some b ∧
  pick_coordinator key ids alive =
    if is_alive alive b then Some b
    else match filter (λ b, is_alive alive b = true) (merge_sort String.le ids) with
         | [] => None
         | l => l !! (coordinator_slot key (length ids) mod length l)%nat
         end.
Proof.
  intros Hne. unfold pick_coordinator, preferred. rewrite length_sort.
  destruct (lookup_lt_is_Some_2 (merge_sort String.le ids) (coordinator_slot key (length ids))) as [b Hb].
  { rewrite length_sort. apply coordinator_slot_lt. destruct ids; [done|]. simpl. lia. }
  exists b. split; [done|]. destruct ids as [|i ids]; [done|]. rewrite Hb.
  destruct (is_alive alive b); [done|]. by destruct (filter _ _).
Qed.

Lemma pick_coordinator_spec key ids alive :
  match pick_coordinator key ids alive with
  | Some b => b ∈ ids ∧ is_alive alive b = true
  | None => ∀ b, b ∈ ids → is_alive alive b = false
  end.
Proof.
  destruct (decide (ids = [])) as [->|Hne].
  { intros b Hb. by apply not_elem_of_nil in Hb. }
  destruct (pick_unfold key ids alive Hne) as (b & Hb & ->).
  destruct (is_alive alive b) eqn:Ea.
  { split; [|done]. apply sort_elem. by eapply list_elem_of_lookup_2. }
  destruct (filter _ _) as [|x l] eqn:Ef.
  - intros b' Hb'. apply not_true_iff_false. intros Ha.
    assert (b' ∈ filter (λ b, is_alive alive b = true) (merge_sort String.le ids)) as Hin.
    { apply list_elem_of_filter. split; [done|]. by apply sort_elem. }
    rewrite Ef in Hin. by apply not_elem_of_nil in Hin.
  - destruct ((x :: l) !! _) as [y|] eqn:El.
    + apply list_elem_of_lookup_2 in El. rewrite <- Ef in El.
      apply list_elem_of_filter in El as [? Hy]. split; [by apply sort_elem|done].
    + apply lookup_ge_None_1 in El.
      pose proof (Nat.mod_upper_bound (coordinator_slot key (length ids)) (length (x :: l))). simpl in *. lia.
Qed.

Lemma pick_perm key ids ids' alive :
  ids ≡ₚ ids' → pick_coordinator key ids alive = pick_coordinator key ids' alive.
Proof.
  intros Hp. unfold pick_coordinator. rewrite (sort_perm _ _ Hp).
  destruct ids, ids'; [done| | |done].
  - by apply Permutation_nil_cons in Hp.
  - symmetry in Hp. by apply Permutation_nil_cons in Hp.
Qed.

Lemma pick_stable key ids alive alive' b :
  preferred key ids = Some b → is_alive alive b = true → is_alive alive' b = true →
  pick_coordinator key ids alive' = pick_coordinator key ids alive.
Proof.
  intros Hp H1 H2. destruct (decide (ids = [])) as [->|Hne]; [done|].
  destruct (pick_unfold key ids alive Hne) as (b1 & Hb1 & ->).
  destruct (pick_unfold key ids alive' Hne) as (b2 & Hb2 & ->).
  assert (b1 = b) as -> by congruence. assert (b2 = b) as -> by congruence. by rewrite H1, H2.
Qed.

(** Coordinator routing: a key is routed to an alive broker of the set, and
    to none only when none is alive; every broker that knows the same set routes
    it alike, in whatever order it lists the brokers; and while its preferred
    broker is alive no other broker's failure or return moves it. *)
Theorem coordinator_routing key ids alive :
  match pick_coordinator key ids alive with
  | Some b => b ∈ ids ∧ is_alive alive b = true
  | None => ∀ b, b ∈ ids → is_alive alive b = false
  end ∧
  (∀ ids', ids ≡ₚ ids' → pick_coordinator key ids alive = pick_coordinator key ids' alive) ∧
  (∀ b alive', preferred key ids = Some b → is_alive alive b = true → is_alive alive' b = true →
     pick_coordinator key ids alive' = pick_coordinator key ids alive).
Proof.
  split; [apply pick_coordinator_spec|]. split; [intros; by apply pick_perm|].
  intros b alive' Hp H1 H2. by apply (pick_stable _ _ _ _ b).
Qed.

(** ** A broker's view of the assignment *)

Definition row_key (r : PartitionAssignment) : string * Z := (pa_topic r, pa_partition r).

Lemma exists_snoc {A} (P : A → Prop) l x :
  (∃ y, y ∈ l ++ [x] ∧ P y) ↔ (∃ y, y ∈ l ∧ P y) ∨ P x.
Proof.
  split.
  - intros (y & [Hy|Hy]%elem_of_app & HP); [left; by exists y|].
    apply list_elem_of_singleton in Hy as ->. by right.
  - intros [(y & Hy & HP)|HP]; [exists y|exists x]; (split; [|done]); apply elem_of_app;
      [by left|right; by apply list_elem_of_singleton].
Qed.

Lemma build_indices_spec id rows :
  NoDup (row_key <$> rows) →
  (∀ t p e, (build_indices id rows).1 !! partition_key t p = Some e ↔
     ∃ r, r ∈ rows ∧ row_key r = (t, p) ∧ pa_broker r = id ∧ pa_epoch r = e) ∧
  (∀ t p b, (build_indices id rows).2 !! partition_key t p = Some b ↔
     ∃ r, r ∈ rows ∧ row_key r = (t, p) ∧ pa_broker r = b).
Proof.
  unfold build_indices. induction rows as [|r rows IH] using rev_ind; intros Hnd.
  { split; intros t p x; simpl; rewrite lookup_empty; split; [done| |done|];
      intros (r & Hr & _); by apply not_elem_of_nil in Hr. }
  rewrite fmap_app in Hnd. apply NoDup_app in Hnd as (Hnd & Hdis & _).
  destruct (IH Hnd) as [IH1 IH2]. clear IH. rewrite foldl_app.
  destruct (foldl _ _ rows) as [own lead]. simpl in *.
  assert (∀ r', r' ∈ rows → row_key r' ≠ row_key r) as Hne.
  { intros r' Hr' Heq. apply (Hdis (row_key r')); [by apply list_elem_of_fmap_2|].
    rewrite Heq. by apply list_elem_of_singleton. }
  assert (∀ t p, row_key r = (t, p) ∧ partition_key (pa_topic r) (pa_partition r) = partition_key t p ∨
    row_key r ≠ (t, p) ∧ partition_key (pa_topic r) (pa_partition r) ≠ partition_key t p) as Hkey.
  { intros t p. destruct (decide (row_key r = (t, p))) as [He|He].
    - left. split; [done|]. unfold row_key in He. by simplify_eq.
    - right. split; [done|]. intros [? ?]%partition_key_inj. apply He. unfold row_key. congruence. }
  assert (∀ t p (P : PartitionAssignment → Prop), row_key r = (t, p) →
    ¬ ∃ r', r' ∈ rows ∧ row_key r' = (t, p) ∧ P r') as Hno.
  { intros t p P Hr (r' & Hr' & Hk & _). apply (Hne r' Hr'). congruence. }
  split; intros t p x; rewrite exists_snoc; destruct (Hkey t p) as [[He Hk]|[He Hk]].
  - rewrite Hk. case_decide as Hb; [rewrite lookup_insert_eq|rewrite IH1]; naive_solver.
  - assert ((if decide (pa_broker r = id) then <[partition_key (pa_topic r) (pa_partition r) := pa_epoch r]> own
      else own) !! partition_key t p = own !! partition_key t p) as ->.
    { case_decide; [by rewrite lookup_insert_ne|done]. }
    rewrite IH1. naive_solver.
  - rewrite Hk, lookup_insert_eq. naive_solver.
  - rewrite lookup_insert_ne by done. rewrite IH2. naive_solver.
Qed.

(** The state after polling a sequence of lease epochs and file contents. *)
Definition coord_run (id : string) (polls : list (Z * option Assignment)) : Coordinator :=
  foldl (λ c '(lease, file), (apply_if_new lease file c).1) (Coordinator_new id) polls.

Lemma coord_run_indices id polls :
  self_id (coord_run id polls) = id ∧
  ∀ a, current (coord_run id polls) = Some a →
    (ownership (coord_run id polls), leaders (coord_run id polls)) = build_indices id (partitions a).
Proof.
  unfold coord_run. induction polls as [|[lease file] polls IH] using rev_ind; [done|].
  rewrite foldl_app. simpl. set (c := foldl _ _ polls) in *. destruct IH as [Hid IH].
  unfold apply_if_new. destruct file as [f|]; [|by split].
  destruct (controller_epoch f <? lease); [by split|].
  destruct (match current c with Some _ => _ | None => _ end); [by split|].
  destruct (build_indices (self_id c) (partitions f)) as [own lead] eqn:Eb. simpl.
  split; [done|]. intros a [= <-]. by rewrite <- Eb, Hid.
Qed.

(** C27. Partition ownership is read off the assignment exactly: whatever files a
    broker has polled, with what it applied last it leads a partition, at an
    epoch, precisely when a row says so; the leader it reports is the row's; and
    what it keeps after a coordinator move is what its group routing answers. *)
Theorem partition_ownership_exact id polls a :
  current (coord_run id polls) = Some a → NoDup (row_key <$> partitions a) →
  ∀ t p,
    (∀ e, current_epoch (coord_run id polls) t p = Some e ↔
       ∃ r, r ∈ partitions a ∧ row_key r = (t, p) ∧ pa_broker r = id ∧ pa_epoch r = e) ∧
    (∀ b, leader_for (coord_run id polls) t p = Some b ↔
       ∃ r, r ∈ partitions a ∧ row_key r = (t, p) ∧ pa_broker r = b) ∧
    (owns (coord_run id polls) t p = true ↔ leader_for (coord_run id polls) t p = Some id) ∧
    (∀ g resident, g ∈ on_change id a resident ↔
       g ∈ resident ∧ owns_group (coord_run id polls) g = true).
Proof.
  intros Ha Hnd t p. destruct (coord_run_indices id polls) as [Hid Hidx].
  specialize (Hidx a Ha). destruct (build_indices_spec id (partitions a) Hnd) as [Ho Hl].
  rewrite <- Hidx in Ho, Hl. simpl in Ho, Hl. unfold current_epoch, leader_for, owns.
  split; [apply Ho|]. split; [apply Hl|]. split.
  - rewrite bool_decide_eq_true, Hl. split.
    + intros [e (r & ? & ? & ? & ?)%Ho]. by exists r.
    + intros (r & ? & ? & ?). exists (pa_epoch r). apply Ho. by exists r.
  - intros g res. unfold on_change. rewrite elem_of_filter.
    assert (owns_group_under a g id = owns_group (coord_run id polls) g) as ->.
    { unfold owns_group_under, owns_group, coordinator_of. rewrite Ha, Hid.
      by destruct (explicit_group _ _). }
    tauto.
Qed.

Definition demo_rows : list BrokerAssignment :=
  [{| br_id := "kaas-1"; health := Alive; last_seen := "" |};
   {| br_id := "kaas-0"; health := Alive; last_seen := "" |};
   {| br_id := "kaas-2"; health := Draining; last_seen := "" |}].

Definition demo_assignment : Assignment :=
  {| controller_epoch := 1; assignment_version := 1; generated_at := ""; controller := "kaas-0";
     brokers := demo_rows;
     partitions := [{| pa_topic := "t"; pa_partition := 0; pa_broker := "kaas-0"; pa_epoch := 3; role := Leader |};
                    {| pa_topic := "t"; pa_partition := 1; pa_broker := "kaas-1"; pa_epoch := 2; role := Leader |}];
     consumer_groups := [] |}.

Lemma partition_ownership_exact_witness :
  owns (coord_run "kaas-0" [(0, None); (0, Some demo_assignment)]) "t" 0 = true ↔
  leader_for (coord_run "kaas-0" [(0, None); (0, Some demo_assignment)]) "t" 0 = Some "kaas-0".
Proof.
  apply (partition_ownership_exact "kaas-0" [(0, None); (0, Some demo_assignment)] demo_assignment).
  - reflexivity.
  - vm_compute. repeat (constructor; [set_solver|]). constructor.
Defined.
