(* ===== verification/Balancer.v ===== *)
(** * Placement ([kaas-controller/src/balancer.rs])

    Partition placement (pin, place, smooth over the cluster, smooth per topic,
    reconcile epochs) and group placement.  The hash is XXH64 from an external
    crate: the parameter [xxh64].  The maps of counters are [gmap]s, the
    in-place slot vector a list; counts are far below [i32::MAX].

    The cluster smoothing loop has no bound in the code; [smooth_loop] takes
    fuel, and [smooth_loop_level] shows that [length² + 1] rounds are enough for
    it to stop by itself. *)

From stdpp Require Import base gmap strings list sorting.
From Stdlib Require Import Strings.Byte.
From S2P Require Import Prelude Cluster.

Local Open Scope Z_scope.

Record TopicSpec := { name : string; partition_count : Z }.
Record GroupSpec := { gs_group_id : string }.

Record PartitionSlot := { topic : string; partition : Z; broker : string; sticky : bool }.

Definition set_broker (s : PartitionSlot) (b : string) : PartitionSlot :=
  {| topic := topic s; partition := partition s; broker := b; sticky := sticky s |}.

Definition on (b : string) (s : PartitionSlot) : bool := bool_decide (broker s = b).

(** [(a, b) < (c, d)] and the like, on the tuples the code compares. *)
Definition lt2 (a c b d : Z) : bool := (a <? c) || ((a =? c) && (b <? d)).
Definition str_lt (a b : string) : bool := negb (String.leb b a).
Definition topic_part_lt (t1 : string) (p1 : Z) (t2 : string) (p2 : Z) : bool :=
  str_lt t1 t2 || (bool_decide (t1 = t2) && (p1 <? p2)).

Definition b2n (b : bool) : Z := if b then 1 else 0.

(** [entry(k).or_insert(0) += d]. *)
Definition bump `{Countable K} (k : K) (d : Z) (m : gmap K Z) : gmap K Z :=
  <[k := default 0 (m !! k) + d]> m.

Definition zero_counts (alive : list string) : gmap string Z := list_to_map ((λ b, (b, 0)) <$> alive).

Definition count_slots (slots : list PartitionSlot) (m : gmap string Z) : gmap string Z :=
  foldl (λ m s, bump (broker s) 1 m) m slots.

Definition topic_count_on (slots : list PartitionSlot) (t b : string) : Z :=
  Z.of_nat (length (filter (λ s, topic s = t ∧ broker s = b) slots)).

(** The most and the least loaded broker under [count]; the first wins a tie. *)
Definition hi_lo (count : string → Z) (first : string) (rest : list string) :
    string * Z * (string * Z) :=
  foldl (λ '(hi, hc, (lo, lc)) b,
      let c := count b in
      (if hc <? c then (b, c) else (hi, hc), if c <? lc then (b, c) else (lo, lc)))
    ((first, count first), (first, count first)) rest.

Section balancer.
Context (xxh64 : list byte → Z).

Definition rendezvous_hash (t : string) (p : Z) (b : string) : Z :=
  xxh64 (as_bytes t ++ [x00] ++ be 4 p ++ [x00] ++ as_bytes b).

Definition group_hash (group_id b : string) : Z :=
  xxh64 (as_bytes group_id ++ [x00] ++ as_bytes b).

(** The first broker with the highest score. *)
Definition pick_by (score : string → Z) (ids : list string) : option string :=
  snd <$> foldl (λ best b,
    match best with
    | None => Some (score b, b)
    | Some (bh, _) => if bh <? score b then Some (score b, b) else best
    end) None ids.

Definition rendezvous_pick (t : string) (p : Z) (ids : list string) : option string :=
  pick_by (rendezvous_hash t p) ids.
Definition rendezvous_pick_group (group_id : string) (ids : list string) : option string :=
  pick_by (group_hash group_id) ids.

Definition prev_partitions (prev : option (list PartitionAssignment)) : gmap string PartitionAssignment :=
  foldl (λ m p, <[partition_key (pa_topic p) (pa_partition p) := p]> m) ∅ (default [] prev).

(** ** Phase 1: pin *)

Definition pin_slot (prev_map : gmap string PartitionAssignment) (alive : list string)
    (t : string) (p : Z) : PartitionSlot :=
  match prev_map !! partition_key t p with
  | Some pa =>
    if decide (pa_broker pa ∈ alive)
    then {| topic := t; partition := p; broker := pa_broker pa; sticky := true |}
    else {| topic := t; partition := p; broker := ""; sticky := false |}
  | None => {| topic := t; partition := p; broker := ""; sticky := false |}
  end.

Definition pin_slots (prev_map : gmap string PartitionAssignment) (alive : list string)
    (topics : list TopicSpec) : list PartitionSlot :=
  topics ≫= λ t, pin_slot prev_map alive (name t) <$> seqZ 0 (partition_count t).

(** ** Phase 2: place *)

(** Fewest of the topic, then fewest overall, then the highest score. *)
Definition best_broker (alive : list string) (total : gmap string Z) (per_topic : gmap (string * string) Z)
    (t : string) (p : Z) : option (Z * Z * Z * string) :=
  foldl (λ best b,
    let c0 := default 0 (per_topic !! (t, b)) in
    let c1 := default 0 (total !! b) in
    let c2 := rendezvous_hash t p b in
    match best with
    | None => Some (c0, c1, c2, b)
    | Some (bt, ball, bscore, _) =>
      if lt2 c0 bt c1 ball || ((c0 =? bt) && (c1 =? ball) && (bscore <? c2))
      then Some (c0, c1, c2, b) else best
    end) None alive.

Fixpoint place_loop (slots : list PartitionSlot) (alive : list string)
    (total : gmap string Z) (per_topic : gmap (string * string) Z) : list PartitionSlot :=
  match slots with
  | [] => []
  | s :: slots' =>
    if str_is_empty (broker s) then
      match best_broker alive total per_topic (topic s) (partition s) with
      | Some (_, _, _, b) =>
        set_broker s b :: place_loop slots' alive (bump b 1 total) (bump (topic s, b) 1 per_topic)
      | None => s :: place_loop slots' alive total per_topic
      end
    else s :: place_loop slots' alive total per_topic
  end.

Definition place_unpinned (slots : list PartitionSlot) (alive : list string) : list PartitionSlot :=
  match alive with
  | [] => slots
  | _ =>
    let placed := filter (λ s, str_is_empty (broker s) = false) slots in
    place_loop slots alive (count_slots placed (zero_counts alive))
      (foldl (λ m s, bump (topic s, broker s) 1 m) ∅ placed)
  end.

(** ** Phase 3: smooth over the cluster *)

(** Is slot [s] a better victim than the best so far? *)
Definition better_victim (key vkey : Z * Z * Z) (s v : PartitionSlot) : bool :=
  let '(k0, k1, k2) := key in
  let '(v0, v1, v2) := vkey in
  if negb ((k0 =? v0) && (k1 =? v1)) then lt2 k0 v0 k1 v1
  else if negb (k2 =? v2) then v2 <? k2
  else topic_part_lt (topic s) (partition s) (topic v) (partition v).

Abbreviation candidate := (option (nat * PartitionSlot * (Z * Z * Z))).

Definition consider (all : list PartitionSlot) (hi lo : string) (i : nat) (s : PartitionSlot)
    (best : candidate) : candidate :=
  let helps := topic_count_on all (topic s) lo <? topic_count_on all (topic s) hi in
  let key := (b2n (sticky s), b2n (negb helps), rendezvous_hash (topic s) (partition s) lo) in
  match best with
  | None => Some (i, s, key)
  | Some (_, v, vkey) => if better_victim key vkey s v then Some (i, s, key) else best
  end.

Fixpoint victim_loop (all : list PartitionSlot) (hi lo : string) (i : nat) (slots : list PartitionSlot)
    (best : candidate) : candidate :=
  match slots with
  | [] => best
  | s :: slots' =>
    victim_loop all hi lo (S i) slots' (if on hi s then consider all hi lo i s best else best)
  end.

Definition pick_victim (slots : list PartitionSlot) (hi lo : string) : option nat :=
  (λ '(i, _, _), i) <$> victim_loop slots hi lo 0 slots None.

Definition move_slot (slots : list PartitionSlot) (i : nat) (b : string) : list PartitionSlot :=
  alter (λ s, set_broker s b) i slots.

(** One round of the loop; [None] returns. *)
Definition smooth_step (first : string) (rest : list string) (slots : list PartitionSlot)
    (counts : gmap string Z) : option (list PartitionSlot * gmap string Z) :=
  let '(hi, hi_count, (lo, lo_count)) := hi_lo (λ b, default 0 (counts !! b)) first rest in
  if hi_count - lo_count <=? 1 then None
  else
    match pick_victim slots hi lo with
    | None => None
    | Some i => Some (move_slot slots i lo, bump lo 1 (bump hi (-1) counts))
    end.

Fixpoint smooth_loop (fuel : nat) (first : string) (rest : list string) (slots : list PartitionSlot)
    (counts : gmap string Z) : list PartitionSlot :=
  match fuel with
  | O => slots
  | S fuel' =>
    match smooth_step first rest slots counts with
    | None => slots
    | Some (slots', counts') => smooth_loop fuel' first rest slots' counts'
    end
  end.

Definition smooth_partitions (slots : list PartitionSlot) (alive : list string) : list PartitionSlot :=
  match alive, slots with
  | first :: (_ :: _) as rest, _ :: _ =>
    smooth_loop (length slots * length slots + 1) first rest slots
      (count_slots slots (zero_counts alive))
  | _, _ => slots
  end.

(** ** Phase 3b: smooth per topic *)

(** [min_by] returns the first minimum. *)
Fixpoint min_slot (lt : PartitionSlot → PartitionSlot → bool) (p : PartitionSlot → bool)
    (i : nat) (slots : list PartitionSlot) (best : option (nat * PartitionSlot)) : option (nat * PartitionSlot) :=
  match slots with
  | [] => best
  | s :: slots' =>
    let best' :=
      if p s then
        match best with
        | None => Some (i, s)
        | Some (_, v) => if lt s v then Some (i, s) else best
        end
      else best in
    min_slot lt p (S i) slots' best'
  end.

Definition pick_slot (slots : list PartitionSlot) (t b : string) : option nat :=
  fst <$> min_slot (λ s v, lt2 (b2n (sticky s)) (b2n (sticky v)) (partition s) (partition v))
    (λ s, bool_decide (topic s = t) && on b s) 0 slots None.

Definition pick_partner (slots : list PartitionSlot) (t hi lo : string) : option nat :=
  fst <$> min_slot
    (λ s v, (b2n (sticky s) <? b2n (sticky v)) ||
            ((b2n (sticky s) =? b2n (sticky v)) &&
             topic_part_lt (topic s) (partition s) (topic v) (partition v)))
    (λ s, on lo s && negb (bool_decide (topic s = t)) &&
          (topic_count_on slots (topic s) hi <? topic_count_on slots (topic s) lo)) 0 slots None.

Fixpoint improve_topics (slots : list PartitionSlot) (first : string) (rest : list string)
    (totals : gmap string Z) (topics : list string) : option (list PartitionSlot) :=
  match topics with
  | [] => None
  | t :: topics' =>
    let '(hi, hi_count, (lo, lo_count)) := hi_lo (topic_count_on slots t) first rest in
    if hi_count - lo_count <=? 1 then improve_topics slots first rest totals topics'
    else
      let move_ok := default 0 (totals !! lo) <=? default 0 (totals !! hi) in
      match pick_slot slots t hi with
      | None => improve_topics slots first rest totals topics'
      | Some donor =>
        if move_ok then Some (move_slot slots donor lo)
        else
          match pick_partner slots t hi lo with
          | Some partner => Some (move_slot (move_slot slots donor lo) partner hi)
          | None => improve_topics slots first rest totals topics'
          end
      end
  end.

(** [None] when no topic can be improved. *)
Definition improve_one_topic (slots : list PartitionSlot) (alive : list string) (topics : list string) :
    option (list PartitionSlot) :=
  match alive with
  | [] => None
  | first :: rest =>
    improve_topics slots first rest (count_slots slots (zero_counts alive)) topics
  end.

Fixpoint per_topic_loop (cap : nat) (slots : list PartitionSlot) (alive topics : list string) : list PartitionSlot :=
  match cap with
  | O => slots
  | S cap' =>
    match improve_one_topic slots alive topics with
    | None => slots
    | Some slots' => per_topic_loop cap' slots' alive topics
    end
  end.

(** [Vec::dedup]: drops consecutive repeats. *)
Fixpoint dedup (l : list string) : list string :=
  match l with
  | [] => []
  | x :: l' => match dedup l' with
               | y :: r => if decide (x = y) then y :: r else x :: y :: r
               | [] => [x]
               end
  end.

Definition smooth_partitions_per_topic (slots : list PartitionSlot) (alive : list string) : list PartitionSlot :=
  match alive, slots with
  | _ :: _ :: _, _ :: _ =>
    let topics := dedup (merge_sort String.le (topic <$> slots)) in
    per_topic_loop (length slots * length alive + 16) slots alive topics
  | _, _ => slots
  end.

(** ** Phase 4: reconcile *)

Definition reconcile (prev_map : gmap string PartitionAssignment) (alive : list string)
    (epoch_floor : gmap string Z) (s : PartitionSlot) : PartitionAssignment :=
  let key := partition_key (topic s) (partition s) in
  let prev_entry := prev_map !! key in
  let floor := default 0 (epoch_floor !! key) in
  let fresh :=
    {| pa_topic := topic s; pa_partition := partition s; pa_broker := broker s;
       pa_epoch := Z.max (match prev_entry with Some pa => wrap_u 32 (pa_epoch pa + 1) | None => 1 end) floor;
       role := Leader |} in
  match prev_entry with
  | Some pa =>
    if decide (pa_broker pa ∈ alive ∧ pa_broker pa = broker s ∧ floor ≤ pa_epoch pa) then pa else fresh
  | None => fresh
  end.

Definition balance (prev : option (list PartitionAssignment)) (ids : list string)
    (topics : list TopicSpec) (epoch_floor : gmap string Z) : list PartitionAssignment :=
  match ids with
  | [] => []
  | _ =>
    let alive := merge_sort String.le ids in
    let prev_map := prev_partitions prev in
    let slots := pin_slots prev_map alive topics in
    let slots := place_unpinned slots alive in
    let slots := smooth_partitions slots alive in
    let slots := smooth_partitions_per_topic slots alive in
    reconcile prev_map alive epoch_floor <$> slots
  end.

End balancer.

(** ** Groups *)

Definition group_le (a b : ConsumerGroupAssignment) : Prop := String.le (ga_group_id a) (ga_group_id b).
#[global] Instance group_le_dec : RelDecision group_le.
Proof. intros a b. unfold group_le. apply _. Defined.

Fixpoint place_groups (prev_map : gmap string ConsumerGroupAssignment) (ids : list string)
    (alive_map : gmap string bool) (groups : list GroupSpec) (placed : gset string) :
    list ConsumerGroupAssignment * gset string :=
  match groups with
  | [] => ([], placed)
  | g :: groups' =>
    let gid := gs_group_id g in
    if decide (gid ∈ placed) then place_groups prev_map ids alive_map groups' placed
    else
      let prev_entry := prev_map !! gid in
      let fresh :=
        {| ga_group_id := gid;
           ga_broker := default "" (pick_group_coordinator gid ids alive_map);
           ga_epoch := match prev_entry with Some ga => wrap_u 32 (ga_epoch ga + 1) | None => 1 end |} in
      let row :=
        match prev_entry with
        | Some ga =>
          if decide (ga_broker ga ∈ ids ∧ is_alive alive_map (ga_broker ga) = true) then ga else fresh
        | None => fresh
        end in
      let '(out, placed') := place_groups prev_map ids alive_map groups' ({[gid]} ∪ placed) in
      (row :: out, placed')
  end.

Definition balance_groups (prev : option (list ConsumerGroupAssignment)) (rows : list BrokerAssignment)
    (groups : list GroupSpec) : list ConsumerGroupAssignment :=
  match rows with
  | [] => []
  | _ =>
    let '(ids, alive_map) := broker_sets_of rows in
    let prev_map := foldl (λ m g, <[ga_group_id g := g]> m) ∅ (default [] prev) in
    let '(out, placed) := place_groups prev_map ids alive_map groups ∅ in
    let carried := filter (λ ga, ga_group_id ga ∉ placed ∧ ga_broker ga ∈ ids ∧
                                 is_alive alive_map (ga_broker ga) = true)
                     (snd <$> map_to_list prev_map) in
    out ++ merge_sort group_le carried
  end.

(** ** Every slot keeps its key and gets an alive broker *)

Definition slot_key (s : PartitionSlot) : string * Z := (topic s, partition s).

(** The catalog: every partition of every topic, in order. *)
Definition catalog (topics : list TopicSpec) : list (string * Z) :=
  topics ≫= λ t, pair (name t) <$> seqZ 0 (partition_count t).

Definition all_on (alive : list string) (slots : list PartitionSlot) : Prop :=
  Forall (λ s, broker s ∈ alive) slots.

Lemma pin_slots_keys pm alive topics : slot_key <$> pin_slots pm alive topics = catalog topics.
Proof.
  unfold pin_slots, catalog. induction topics as [|t topics IH]; [done|].
  rewrite !bind_cons, fmap_app, IH. f_equal. rewrite <- list_fmap_compose. apply list_fmap_ext. intros i p _. simpl.
  unfold pin_slot. by repeat case_match.
Qed.

Lemma pin_slots_on pm alive topics :
  Forall (λ s, str_is_empty (broker s) = true ∨ broker s ∈ alive) (pin_slots pm alive topics).
Proof.
  apply Forall_forall. intros s. unfold pin_slots. rewrite list_elem_of_bind.
  intros (t & Hs & _). apply list_elem_of_fmap in Hs as (p & -> & _).
  unfold pin_slot. repeat case_match; simpl; auto.
Qed.

Section placement.
Context (xxh64 : list byte → Z).
Local Abbreviation best := (best_broker xxh64).

Lemma best_broker_alive alive total pt t p :
  alive ≠ [] → ∃ c0 c1 c2 b, best alive total pt t p = Some (c0, c1, c2, b) ∧ b ∈ alive.
Proof.
  assert (∀ l acc, (∀ c0 c1 c2 b, acc = Some (c0, c1, c2, b) → b ∈ alive) → (∀ b, b ∈ l → b ∈ alive) →
    acc ≠ None ∨ l ≠ [] →
    ∃ c0 c1 c2 b, foldl (λ best b,
      let c0 := default 0 (pt !! (t, b)) in
      let c1 := default 0 (total !! b) in
      let c2 := rendezvous_hash xxh64 t p b in
      match best with
      | None => Some (c0, c1, c2, b)
      | Some (bt, ball, bscore, _) =>
        if lt2 c0 bt c1 ball || ((c0 =? bt) && (c1 =? ball) && (bscore <? c2))
        then Some (c0, c1, c2, b) else best
      end) acc l = Some (c0, c1, c2, b) ∧ b ∈ alive) as Hgen.
  { induction l as [|x l IH]; intros acc Hacc Hl Hne.
    - destruct acc as [[[[c0 c1] c2] b]|]; [|naive_solver]. do 4 eexists. simpl. split; [done|].
      by eapply Hacc.
    - simpl. apply IH; [|set_solver|].
      + intros c0 c1 c2 b. destruct acc as [[[[d0 d1] d2] b']|].
        * case_match; [intros [= <- <- <- <-]; apply Hl; set_solver|]. apply Hacc.
        * intros [= <- <- <- <-]. apply Hl. set_solver.
      + left. destruct acc as [[[[d0 d1] d2] b']|]; [|done]. by case_match. }
  intros Hne. apply (Hgen alive None); [done|done|by right].
Qed.

Lemma place_loop_spec slots alive total pt :
  alive ≠ [] → Forall (λ s, str_is_empty (broker s) = true ∨ broker s ∈ alive) slots →
  slot_key <$> place_loop xxh64 slots alive total pt = slot_key <$> slots ∧
  all_on alive (place_loop xxh64 slots alive total pt).
Proof.
  intros Hne. revert total pt. induction slots as [|s slots IH]; intros total pt Hf; simpl; [by split; [|constructor]|].
  apply Forall_cons in Hf as [Hs Hf].
  destruct (str_is_empty (broker s)) eqn:Ee.
  - destruct (best_broker_alive alive total pt (topic s) (partition s) Hne) as (c0 & c1 & c2 & b & -> & Hb).
    destruct (IH (bump b 1 total) (bump (topic s, b) 1 pt) Hf) as [Hk Ha].
    split; [by rewrite !fmap_cons, Hk|]. by constructor.
  - destruct (IH total pt Hf) as [Hk Ha]. split; [by rewrite !fmap_cons, Hk|].
    constructor; [|done]. by destruct Hs.
Qed.

Lemma place_unpinned_spec slots alive :
  alive ≠ [] → Forall (λ s, str_is_empty (broker s) = true ∨ broker s ∈ alive) slots →
  slot_key <$> place_unpinned xxh64 slots alive = slot_key <$> slots ∧
  all_on alive (place_unpinned xxh64 slots alive).
Proof. intros Hne Hf. destruct alive; [done|]. by apply place_loop_spec. Qed.

Lemma move_slot_spec slots i b alive :
  slot_key <$> move_slot slots i b = slot_key <$> slots ∧
  (b ∈ alive → all_on alive slots → all_on alive (move_slot slots i b)).
Proof.
  unfold move_slot. split.
  - revert i. induction slots as [|s slots IH]; intros [|i]; [done..|]. cbn [alter list_alter].
    rewrite !fmap_cons. f_equal. apply IH.
  - intros Hb Ha. revert i. induction Ha as [|s slots Hs Ha IH]; intros [|i]; simpl; [by constructor..|].
    constructor; [done|]. apply IH.
Qed.

(** The most and least loaded brokers really are. *)
Lemma hi_lo_spec f first rest hi hc lo lc :
  hi_lo f first rest = ((hi, hc), (lo, lc)) →
  hi ∈ first :: rest ∧ lo ∈ first :: rest ∧ hc = f hi ∧ lc = f lo ∧
  ∀ b, b ∈ first :: rest → lc ≤ f b ≤ hc.
Proof.
  unfold hi_lo. revert hi hc lo lc. induction rest as [|x rest IH] using rev_ind; intros hi hc lo lc.
  { intros [= <- <- <- <-]. split; [set_solver|]. split; [set_solver|]. split; [done|]. split; [done|].
    intros b Hb. apply list_elem_of_singleton in Hb as ->. lia. }
  rewrite foldl_app. destruct (foldl _ _ rest) as [[hi0 hc0] [lo0 lc0]].
  destruct (IH hi0 hc0 lo0 lc0 eq_refl) as (Hhi & Hlo & -> & -> & Hall). simpl.
  destruct (Z.ltb_spec (f hi0) (f x)), (Z.ltb_spec (f x) (f lo0)); intros [= <- <- <- <-];
    (split; [set_solver|]; split; [set_solver|]; split; [done|]; split; [done|]);
    intros b [Hb|[Hb| ->%list_elem_of_singleton]%elem_of_app]%elem_of_cons;
    try (specialize (Hall b ltac:(set_solver)); lia); try lia;
    specialize (Hall lo0 ltac:(set_solver)); lia.
Qed.

(** ** Load counts *)

Definition cnt (slots : list PartitionSlot) (b : string) : Z :=
  Z.of_nat (length (filter (λ s, broker s = b) slots)).

Lemma cnt_cons s slots b : cnt (s :: slots) b = b2n (on b s) + cnt slots b.
Proof.
  unfold cnt, on. rewrite filter_cons. case_decide; simpl; [rewrite bool_decide_true by done|
    rewrite bool_decide_false by done]; simpl; lia.
Qed.

Lemma bump_lookup `{Countable K} (k k' : K) d m :
  default 0 (bump k d m !! k') = default 0 (m !! k') + if decide (k = k') then d else 0.
Proof.
  unfold bump. case_decide as Hk; [subst; rewrite lookup_insert_eq; simpl; lia|].
  rewrite lookup_insert_ne by done. lia.
Qed.

Lemma zero_counts_lookup alive b : default 0 (zero_counts alive !! b) = 0.
Proof.
  unfold zero_counts. destruct (list_to_map _ !! b) eqn:E; [|done]. simpl.
  apply elem_of_list_to_map_2, list_elem_of_fmap in E as (? & [= _ ->] & _). done.
Qed.

Lemma count_slots_lookup slots m b :
  default 0 (count_slots slots m !! b) = default 0 (m !! b) + cnt slots b.
Proof.
  unfold count_slots. revert m. induction slots as [|s slots IH]; intros m; simpl.
  - unfold cnt. simpl. lia.
  - rewrite IH, bump_lookup, cnt_cons. unfold on, b2n.
    case_decide; [rewrite bool_decide_true by done|rewrite bool_decide_false by done]; lia.
Qed.

Lemma cnt_move slots i s lo b :
  slots !! i = Some s → broker s ≠ lo →
  cnt (move_slot slots i lo) b =
    cnt slots b - (if decide (broker s = b) then 1 else 0) + (if decide (lo = b) then 1 else 0).
Proof.
  unfold move_slot. revert i. induction slots as [|x slots IH]; intros [|i] Hi Hne; [done..| |].
  - injection Hi as ->. change (alter _ 0%nat (s :: slots)) with (set_broker s lo :: slots). rewrite !cnt_cons. unfold on, b2n. simpl.
    repeat case_decide; repeat case_bool_decide; try lia; congruence.
  - change (alter ?f (S i) (x :: slots)) with (x :: alter f i slots).
    rewrite !cnt_cons, IH by done. lia.
Qed.

Lemma victim_loop_spec all hi lo i slots best :
  (∀ j s, slots !! j = Some s → all !! (i + j)%nat = Some s) →
  (∀ j s k, best = Some (j, s, k) → all !! j = Some s ∧ broker s = hi) →
  (∀ j s k, victim_loop xxh64 all hi lo i slots best = Some (j, s, k) →
     all !! j = Some s ∧ broker s = hi) ∧
  (victim_loop xxh64 all hi lo i slots best = None → best = None ∧ cnt slots hi = 0).
Proof.
  revert i best. induction slots as [|s slots IH]; intros i best Hall Hbest; [by split|].
  cbn [victim_loop].
  assert (∀ j s', slots !! j = Some s' → all !! (S i + j)%nat = Some s') as Hall'.
  { intros j s' Hj. replace (S i + j)%nat with (i + S j)%nat by lia. by apply Hall. }
  pose proof (Hall 0%nat s eq_refl) as Hi. rewrite Nat.add_0_r in Hi. rewrite cnt_cons.
  destruct (on hi s) eqn:Eon.
  - apply bool_decide_eq_true in Eon.
    assert (∃ j v k, consider xxh64 all hi lo i s best = Some (j, v, k) ∧
      all !! j = Some v ∧ broker v = hi) as (j & v & k & Hc & Hv).
    { unfold consider. destruct best as [[[j0 v] vk]|]; [case_match|]; do 3 eexists; split; eauto. }
    destruct (IH (S i) (consider xxh64 all hi lo i s best) Hall') as [H1 H2].
    { intros j' s' k'. rewrite Hc. by intros [= <- <- <-]. }
    split; [done|]. intros H. destruct (H2 H). congruence.
  - destruct (IH (S i) best Hall' Hbest) as [H1 H2]. split; [done|]. intros H. by apply H2.
Qed.

Lemma pick_victim_spec slots hi lo :
  0 < cnt slots hi → ∃ i s, pick_victim xxh64 slots hi lo = Some i ∧ slots !! i = Some s ∧ broker s = hi.
Proof.
  intros Hc. unfold pick_victim.
  destruct (victim_loop_spec slots hi lo 0 slots None) as [H1 H2]; [done|done|].
  destruct (victim_loop _ _ _ _ _ _ _) as [[[i s] k]|]; simpl.
  - exists i, s. split; [done|]. by eapply H1.
  - destruct (H2 eq_refl). lia.
Qed.

(** ** The smoothing loop stops *)

Definition sum_over (l : list string) (f : string → Z) : Z := foldr (λ b n, f b + n) 0 l.

Lemma sum_over_ext l f g : (∀ b, b ∈ l → f b = g b) → sum_over l f = sum_over l g.
Proof.
  induction l as [|x l IH]; intros H; simpl; [done|].
  rewrite (H x), IH by set_solver. done.
Qed.

Lemma sum_over_upd l f g x :
  NoDup l → x ∈ l → (∀ b, b ≠ x → g b = f b) → sum_over l g + f x = sum_over l f + g x.
Proof.
  induction 1 as [|y l Hy Hnd IH]; intros Hx Hg; [by apply not_elem_of_nil in Hx|]. simpl.
  apply elem_of_cons in Hx as [->|Hx].
  - rewrite (sum_over_ext l g f); [lia|]. intros b Hb. apply Hg. intros ->. done.
  - specialize (IH Hx Hg). rewrite (Hg y) by (intros ->; done). lia.
Qed.

Lemma sum_over_le l f g : (∀ b, f b ≤ g b) → sum_over l f ≤ sum_over l g.
Proof. intros H. induction l as [|x l IH]; simpl; [lia|]. specialize (H x). lia. Qed.

Lemma cnt_range slots b : 0 ≤ cnt slots b ≤ Z.of_nat (length slots).
Proof. unfold cnt. pose proof (length_filter (λ s, broker s = b) slots). lia. Qed.

Lemma sum_cnt_le l slots : NoDup l → sum_over l (cnt slots) ≤ Z.of_nat (length slots).
Proof.
  intros Hnd. induction slots as [|s slots IH].
  - assert (sum_over l (cnt []) = 0) as ->; [|simpl; lia]. clear. by induction l.
  - assert (sum_over l (cnt (s :: slots)) ≤ sum_over l (cnt slots) + 1); [|simpl length; lia].
    destruct (decide (broker s ∈ l)) as [Hin|Hin].
    + pose proof (sum_over_upd l (cnt slots) (cnt (s :: slots)) (broker s) Hnd Hin) as H.
      rewrite cnt_cons in H. unfold on in H. rewrite bool_decide_true in H by done. simpl in H.
      assert (∀ b, b ≠ broker s → cnt (s :: slots) b = cnt slots b) as Hne.
      { intros b Hb. rewrite cnt_cons. unfold on. by rewrite bool_decide_false by done. }
      specialize (H Hne). lia.
    + rewrite (sum_over_ext l (cnt (s :: slots)) (cnt slots)); [lia|].
      intros b Hb. rewrite cnt_cons. unfold on. rewrite bool_decide_false; [done|]. intros <-. done.
Qed.

(** The potential: the sum of squared loads. *)
Definition phi (alive : list string) (slots : list PartitionSlot) : Z :=
  sum_over alive (λ b, cnt slots b * cnt slots b).

Lemma phi_range alive slots :
  NoDup alive → 0 ≤ phi alive slots ≤ Z.of_nat (length slots * length slots).
Proof.
  intros Hnd. unfold phi. split.
  - clear. induction alive as [|b l IH]; simpl; [lia|]. pose proof (cnt_range slots b). nia.
  - transitivity (sum_over alive (λ b, Z.of_nat (length slots) * cnt slots b)).
    { apply sum_over_le. intros b. pose proof (cnt_range slots b). nia. }
    transitivity (Z.of_nat (length slots) * sum_over alive (cnt slots)).
    { clear. induction alive as [|b l IH]; simpl; lia. }
    pose proof (sum_cnt_le alive slots Hnd). nia.
Qed.

Lemma phi_move alive slots i s lo :
  NoDup alive → slots !! i = Some s → broker s ∈ alive → lo ∈ alive →
  1 < cnt slots (broker s) - cnt slots lo →
  phi alive (move_slot slots i lo) < phi alive slots.
Proof.
  intros Hnd Hi Hhi Hlo Hgap. assert (broker s ≠ lo) as Hne by (intros Heq; rewrite Heq in Hgap; lia).
  set (hi := broker s) in *.
  pose proof (λ b, cnt_move slots i s lo b Hi Hne) as Hm.
  set (f := λ b, cnt slots b * cnt slots b).
  set (g := λ b, cnt (move_slot slots i lo) b * cnt (move_slot slots i lo) b).
  set (m := λ b, if decide (b = hi) then g b else f b).
  assert (sum_over alive m + f hi = sum_over alive f + m hi) as H1.
  { apply sum_over_upd; [done|done|]. intros b Hb. unfold m. by case_decide. }
  assert (sum_over alive g + m lo = sum_over alive m + g lo) as H2.
  { apply sum_over_upd; [done|done|]. intros b Hb. unfold m. case_decide; [done|].
    unfold g, f. rewrite Hm. fold hi. repeat case_decide; subst; try done. f_equal; lia. }
  unfold phi. fold f g. unfold m in H1, H2. rewrite decide_True in H1 by done.
  rewrite decide_False in H2 by done. unfold f, g in H1, H2 |- *.
  pose proof (Hm hi) as Hh. pose proof (Hm lo) as Hl. fold hi in Hh, Hl.
  rewrite decide_True, decide_False in Hh by done. rewrite decide_False, decide_True in Hl by done.
  rewrite Hh in H1. rewrite Hl in H2. nia.
Qed.

Definition level (alive : list string) (slots : list PartitionSlot) : Prop :=
  ∀ b1 b2, b1 ∈ alive → b2 ∈ alive → cnt slots b1 ≤ cnt slots b2 + 1.

Lemma smooth_loop_level fuel first rest slots counts :
  NoDup (first :: rest) → all_on (first :: rest) slots →
  (∀ b, default 0 (counts !! b) = cnt slots b) →
  phi (first :: rest) slots < Z.of_nat fuel →
  let out := smooth_loop xxh64 fuel first rest slots counts in
  level (first :: rest) out ∧ all_on (first :: rest) out ∧ slot_key <$> out = slot_key <$> slots.
Proof.
  intros Hnd. revert slots counts. induction fuel as [|fuel IH]; intros slots counts Hon Hc Hphi.
  { pose proof (phi_range (first :: rest) slots Hnd). lia. }
  cbn [smooth_loop]. unfold smooth_step.
  destruct (hi_lo _ first rest) as [[hi hc] [lo lc]] eqn:Eh.
  destruct (hi_lo_spec _ _ _ _ _ _ _ Eh) as (Hhi & Hlo & -> & -> & Hall). rewrite !Hc.
  destruct (Z.leb_spec (cnt slots hi - cnt slots lo) 1) as [Hle|Hgt].
  { cbn zeta. split; [|done]. intros b1 b2 H1%Hall H2%Hall. rewrite !Hc in H1, H2. lia. }
  pose proof (cnt_range slots lo) as Hr.
  destruct (pick_victim_spec slots hi lo ltac:(lia)) as (i & s & -> & Hi & Hb). subst hi.
  assert (broker s ≠ lo) as Hne by (intros Heq; rewrite Heq in Hgt; lia).
  destruct (move_slot_spec slots i lo (first :: rest)) as [Hk Ha].
  destruct (IH (move_slot slots i lo) (bump lo 1 (bump (broker s) (-1) counts))) as (L1 & L2 & L3).
  - by apply Ha.
  - intros b. rewrite !bump_lookup, Hc, (cnt_move slots i s lo b Hi Hne). repeat case_decide; lia.
  - pose proof (phi_move (first :: rest) slots i s lo Hnd Hi Hhi Hlo Hgt). lia.
  - split; [done|]. split; [done|]. by rewrite L3.
Qed.

Lemma smooth_partitions_spec slots alive :
  NoDup alive → all_on alive slots →
  level alive (smooth_partitions xxh64 slots alive) ∧
  all_on alive (smooth_partitions xxh64 slots alive) ∧
  slot_key <$> smooth_partitions xxh64 slots alive = slot_key <$> slots.
Proof.
  intros Hnd Hon. unfold smooth_partitions. destruct alive as [|first [|second rest]].
  - split; [|done]. intros b1 b2 Hb. by apply not_elem_of_nil in Hb.
  - split; [|done]. intros b1 b2 H1%list_elem_of_singleton H2%list_elem_of_singleton. subst. lia.
  - destruct slots as [|s slots]; [split; [|done]; intros b1 b2 _ _; unfold cnt; simpl; lia|].
    apply smooth_loop_level; [done|done| |].
    + intros b. rewrite count_slots_lookup, zero_counts_lookup. lia.
    + pose proof (phi_range (first :: second :: rest) (s :: slots) Hnd). lia.
Qed.

(** ** The per-topic pass *)

Lemma improve_topics_spec slots first rest totals topics slots' :
  improve_topics slots first rest totals topics = Some slots' →
  all_on (first :: rest) slots →
  all_on (first :: rest) slots' ∧ slot_key <$> slots' = slot_key <$> slots.
Proof.
  intros H Hon. induction topics as [|t topics IH]; cbn [improve_topics] in H; [done|].
  destruct (hi_lo _ first rest) as [[hi hc] [lo lc]] eqn:Eh.
  destruct (hi_lo_spec _ _ _ _ _ _ _ Eh) as (Hhi & Hlo & _).
  destruct (hc - lc <=? 1); [by apply IH|].
  destruct (pick_slot slots t hi) as [d|]; [|by apply IH].
  destruct (move_slot_spec slots d lo (first :: rest)) as [Hk Ha].
  destruct (_ <=? _); [injection H as <-; split; [by apply Ha|done]|].
  destruct (pick_partner slots t hi lo) as [q|]; [|by apply IH]. injection H as <-.
  destruct (move_slot_spec (move_slot slots d lo) q hi (first :: rest)) as [Hk' Ha'].
  split; [by apply Ha', Ha|by rewrite Hk'].
Qed.

Lemma per_topic_spec slots alive :
  all_on alive slots →
  all_on alive (smooth_partitions_per_topic slots alive) ∧
  slot_key <$> smooth_partitions_per_topic slots alive = slot_key <$> slots.
Proof.
  intros Hon. unfold smooth_partitions_per_topic.
  destruct alive as [|first [|second rest]]; [done..|]. destruct slots as [|s slots]; [done|].
  generalize (dedup (merge_sort String.le (topic <$> s :: slots))) as topics. intros topics.
  generalize (length (s :: slots) * length (first :: second :: rest) + 16)%nat as cap. intros cap.
  revert Hon. generalize (s :: slots) as l. clear. induction cap as [|cap IH]; intros l Hon; [done|].
  cbn [per_topic_loop improve_one_topic].
  destruct (improve_topics _ _ _ _ _) as [l'|] eqn:Ei; [|done].
  destruct (improve_topics_spec _ _ _ _ _ _ Ei Hon) as [Hon' Hk'].
  destruct (IH l' Hon') as [Ha Hk]. split; [done|]. by rewrite Hk.
Qed.

(** ** Reconciliation *)

Lemma prev_partitions_key prev k pa :
  prev_partitions prev !! k = Some pa →
  k = partition_key (pa_topic pa) (pa_partition pa) ∧ pa ∈ default [] prev.
Proof.
  unfold prev_partitions. generalize (default [] prev) as rows. intros rows.
  induction rows as [|r rows IH] using rev_ind; [done|]. rewrite foldl_app. simpl.
  destruct (decide (partition_key (pa_topic r) (pa_partition r) = k)) as [<-|Hne].
  - rewrite lookup_insert_eq. intros [= ->]. split; [done|]. apply elem_of_app. right.
    by apply list_elem_of_singleton.
  - rewrite lookup_insert_ne by done. intros [? ?]%IH. split; [done|]. apply elem_of_app. by left.
Qed.

Lemma reconcile_spec prev alive floors s :
  (∀ pa, pa ∈ default [] prev → 0 ≤ pa_epoch pa < 4294967295) →
  let r := reconcile (prev_partitions prev) alive floors s in
  row_key r = slot_key s ∧ pa_broker r = broker s ∧
  default 0 (floors !! partition_key (topic s) (partition s)) ≤ pa_epoch r ∧
  ∀ pa, prev_partitions prev !! partition_key (topic s) (partition s) = Some pa →
    r = pa ∨ pa_epoch pa < pa_epoch r.
Proof.
  intros Hep. unfold reconcile.
  destruct (prev_partitions prev !! _) as [pa|] eqn:Ep; cbn zeta.
  - destruct (prev_partitions_key _ _ _ Ep) as [[Ht Hp]%partition_key_inj Hin].
    specialize (Hep pa Hin).
    case_decide as Hd.
    + destruct Hd as (_ & Hb & Hf). unfold row_key, slot_key. split; [congruence|].
      split; [done|]. split; [done|]. intros pa' [= <-]. by left.
    + simpl. split; [done|]. split; [done|]. split; [lia|]. intros pa' [= <-]. right.
      rewrite wrap_u_small by (simpl; lia). lia.
  - simpl. split; [done|]. split; [done|]. split; [lia|done].
Qed.

(** The slots [balance] reconciles. *)
Definition balanced_slots (prev : option (list PartitionAssignment)) (ids : list string)
    (topics : list TopicSpec) : list PartitionSlot :=
  let alive := merge_sort String.le ids in
  smooth_partitions_per_topic (smooth_partitions xxh64
    (place_unpinned xxh64 (pin_slots (prev_partitions prev) alive topics) alive) alive) alive.

Lemma balanced_slots_spec prev ids topics :
  ids ≠ [] → NoDup ids →
  slot_key <$> balanced_slots prev ids topics = catalog topics ∧
  all_on ids (balanced_slots prev ids topics).
Proof.
  intros Hne Hnd. unfold balanced_slots. set (alive := merge_sort String.le ids).
  assert (alive ≠ []) as Hne'.
  { intros H. apply Hne, length_zero_iff_nil. rewrite <- (length_sort ids). fold alive. by rewrite H. }
  assert (NoDup alive) as Hnd'.
  { unfold alive. by rewrite (merge_sort_Permutation String.le ids). }
  destruct (place_unpinned_spec (pin_slots (prev_partitions prev) alive topics) alive Hne'
    (pin_slots_on _ _ _)) as [Hk1 Ha1].
  destruct (smooth_partitions_spec _ alive Hnd' Ha1) as (_ & Ha2 & Hk2).
  destruct (per_topic_spec _ alive Ha2) as [Ha3 Hk3].
  split; [by rewrite Hk3, Hk2, Hk1, pin_slots_keys|].
  eapply Forall_impl; [exact Ha3|]. intros s. apply sort_elem.
Qed.

End placement.

(** ** Properties *)

Lemma balance_rows xxh64 prev ids topics floors :
  ids ≠ [] → NoDup ids →
  (∀ pa, pa ∈ default [] prev → 0 ≤ pa_epoch pa < 4294967295) →
  row_key <$> balance xxh64 prev ids topics floors = catalog topics ∧
  ∀ r, r ∈ balance xxh64 prev ids topics floors →
    pa_broker r ∈ ids ∧
    default 0 (floors !! partition_key (pa_topic r) (pa_partition r)) ≤ pa_epoch r ∧
    ∀ pa, prev_partitions prev !! partition_key (pa_topic r) (pa_partition r) = Some pa →
      r = pa ∨ pa_epoch pa < pa_epoch r.
Proof.
  intros Hne Hnd Hep. destruct (balanced_slots_spec xxh64 prev ids topics Hne Hnd) as [Hk Ha].
  assert (balance xxh64 prev ids topics floors =
    reconcile (prev_partitions prev) (merge_sort String.le ids) floors <$>
      balanced_slots xxh64 prev ids topics) as ->.
  { unfold balance, balanced_slots. by destruct ids. }
  pose proof (λ s, reconcile_spec prev (merge_sort String.le ids) floors s Hep) as Hr. cbn zeta in Hr.
  split.
  - rewrite <- Hk, <- list_fmap_compose. apply list_fmap_ext. intros i s _. simpl. apply Hr.
  - intros r (s & -> & Hs)%list_elem_of_fmap. destruct (Hr s) as (Hkey & Hb & Hf & Hp).
    injection Hkey as Ht Hpt. rewrite Hb, Ht, Hpt. split; [|by split].
    by apply (proj1 (Forall_forall _ _) Ha).
Qed.

(** Every partition of the catalog is placed exactly once, in catalog order,
    on an alive broker; its leader epoch never falls below the on-disk floor, and
    a row that differs from the previous assignment's has a strictly larger
    epoch. *)
Theorem balance_places_catalog xxh64 prev ids topics floors :
  ids ≠ [] → NoDup ids →
  (∀ pa, pa ∈ default [] prev → 0 ≤ pa_epoch pa < 4294967295) →
  row_key <$> balance xxh64 prev ids topics floors = catalog topics ∧
  ∀ r, r ∈ balance xxh64 prev ids topics floors →
    pa_broker r ∈ ids ∧
    default 0 (floors !! partition_key (pa_topic r) (pa_partition r)) ≤ pa_epoch r ∧
    ∀ pa, prev_partitions prev !! partition_key (pa_topic r) (pa_partition r) = Some pa →
      r = pa ∨ pa_epoch pa < pa_epoch r.
Proof. apply balance_rows. Qed.

Definition demo_hash (l : list byte) : Z := unbe (drop (length l - 4) l) mod 97.

Lemma balance_places_catalog_witness :
  row_key <$> balance demo_hash (Some (partitions demo_assignment)) ["kaas-2"; "kaas-0"]
    [{| name := "t"; partition_count := 3 |}] ∅ = [("t", 0); ("t", 1); ("t", 2)].
Proof.
  apply (balance_places_catalog demo_hash (Some (partitions demo_assignment)) ["kaas-2"; "kaas-0"]
    [{| name := "t"; partition_count := 3 |}] ∅).
  - done.
  - repeat (constructor; [set_solver|]). constructor.
  - intros pa Hpa. simpl in Hpa.
    apply elem_of_cons in Hpa as [->|[->|Hpa]%elem_of_cons]; [simpl; lia..|].
    by apply not_elem_of_nil in Hpa.
Defined.

(** C9. The cluster smoothing loop stops, and stops level: it moves partitions
    until no two alive brokers differ by more than one, and it neither drops nor
    duplicates a partition. *)
Theorem cluster_smoothing_levels xxh64 slots alive :
  NoDup alive → Forall (λ s, broker s ∈ alive) slots →
  slot_key <$> smooth_partitions xxh64 slots alive = slot_key <$> slots ∧
  ∀ b1 b2, b1 ∈ alive → b2 ∈ alive →
    cnt (smooth_partitions xxh64 slots alive) b1 ≤ cnt (smooth_partitions xxh64 slots alive) b2 + 1.
Proof. intros Hnd Hon. destruct (smooth_partitions_spec xxh64 slots alive Hnd Hon) as (? & _ & ?). done. Qed.

Definition slot_on (t : string) (p : Z) (b : string) : PartitionSlot :=
  {| topic := t; partition := p; broker := b; sticky := true |}.

Definition skewed : list PartitionSlot :=
  [slot_on "a" 0 "kaas-0"; slot_on "a" 1 "kaas-0"; slot_on "a" 2 "kaas-0"; slot_on "b" 0 "kaas-0"].

Lemma cluster_smoothing_levels_witness :
  cnt (smooth_partitions demo_hash skewed ["kaas-0"; "kaas-1"]) "kaas-0" ≤
  cnt (smooth_partitions demo_hash skewed ["kaas-0"; "kaas-1"]) "kaas-1" + 1.
Proof.
  apply (cluster_smoothing_levels demo_hash skewed ["kaas-0"; "kaas-1"]).
  - repeat (constructor; [set_solver|]). constructor.
  - repeat (constructor; [simpl; left|]). constructor.
  - left.
  - right. left.
Defined.

(** ** The per-topic pass and the cluster balance *)

Definition leads (b : string) (rows : list PartitionAssignment) : nat :=
  length (filter (λ r, pa_broker r = b) rows).

Definition row_on (t : string) (p : Z) (b : string) : PartitionAssignment :=
  {| pa_topic := t; pa_partition := p; pa_broker := b; pa_epoch := 1; role := Leader |}.

Definition level_prev : list PartitionAssignment :=
  [row_on "a" 0 "kaas-0"; row_on "a" 1 "kaas-0"; row_on "c" 0 "kaas-1"; row_on "d" 0 "kaas-1"].

Definition level_topics : list TopicSpec :=
  [{| name := "a"; partition_count := 2 |}; {| name := "c"; partition_count := 1 |};
   {| name := "d"; partition_count := 1 |}].

(** The per-topic pass undoes the cluster balance: from a layout that is
    already level (two partitions on each of two alive brokers, same topics, no
    failure), a recompute moves a partition between brokers of equal load and
    leaves one with a single partition and the other with three. *)
Theorem per_topic_pass_unbalances xxh64 :
  leads "kaas-0" level_prev = 2%nat ∧ leads "kaas-1" level_prev = 2%nat ∧
  leads "kaas-0" (balance xxh64 (Some level_prev) ["kaas-0"; "kaas-1"] level_topics ∅) = 1%nat ∧
  leads "kaas-1" (balance xxh64 (Some level_prev) ["kaas-0"; "kaas-1"] level_topics ∅) = 3%nat.
Proof. repeat split; vm_compute; reflexivity. Qed.

(** ** Groups *)

Definition prev_groups (prev : list ConsumerGroupAssignment) : gmap string ConsumerGroupAssignment :=
  foldl (λ m g, <[ga_group_id g := g]> m) ∅ prev.

Lemma prev_groups_spec prev g :
  match prev_groups prev !! g with
  | Some ga => ga ∈ prev ∧ ga_group_id ga = g
  | None => ∀ ga, ga ∈ prev → ga_group_id ga ≠ g
  end.
Proof.
  unfold prev_groups. induction prev as [|x prev IH] using rev_ind.
  { simpl. rewrite lookup_empty. intros ga H. by apply not_elem_of_nil in H. }
  rewrite foldl_app. simpl. destruct (decide (ga_group_id x = g)) as [<-|Hne].
  - rewrite lookup_insert_eq. split; [|done]. apply elem_of_app. right. by apply list_elem_of_singleton.
  - rewrite lookup_insert_ne by done. destruct (foldl _ _ prev !! g) as [ga|].
    + destruct IH. split; [|done]. apply elem_of_app. by left.
    + intros ga [H|H]%elem_of_app; [by apply IH|]. by apply list_elem_of_singleton in H as ->.
Qed.

Lemma explicit_group_spec rows g :
  match explicit_group rows g with
  | Some ga => ga ∈ rows ∧ ga_group_id ga = g
  | None => ∀ ga, ga ∈ rows → ga_group_id ga ≠ g
  end.
Proof.
  unfold explicit_group. destruct (find _ rows) as [ga|] eqn:E.
  - apply find_some in E as [Hin Hg]. apply bool_decide_eq_true in Hg. split; [|done].
    by apply list_elem_of_In.
  - intros ga Hin Hg. apply list_elem_of_In in Hin. pose proof (find_none _ _ E ga Hin) as H. simpl in H.
    by apply bool_decide_eq_false in H.
Qed.

Lemma explicit_prev prev g :
  NoDup (ga_group_id <$> prev) → explicit_group prev g = prev_groups prev !! g.
Proof.
  intros Hnd. pose proof (explicit_group_spec prev g) as H1. pose proof (prev_groups_spec prev g) as H2.
  destruct (explicit_group prev g) as [x|], (prev_groups prev !! g) as [y|]; [| |naive_solver|done].
  - destruct H1 as [Hx Hxg], H2 as [Hy Hyg]. f_equal.
    apply list_elem_of_lookup in Hx as [i Hi], Hy as [j Hj].
    assert (i = j) as ->; [|congruence].
    eapply (NoDup_lookup _ _ _ g Hnd); rewrite list_lookup_fmap; [by rewrite Hi, <- Hxg|by rewrite Hj, <- Hyg].
  - destruct H1. naive_solver.
Qed.

(** The row the balancer writes for an active group. *)
Definition group_row (pm : gmap string ConsumerGroupAssignment) (ids : list string)
    (alive : gmap string bool) (g : string) (ga : ConsumerGroupAssignment) : Prop :=
  ga_group_id ga = g ∧
  match pm !! g with
  | Some pg => is_alive alive (ga_broker pg) = true → ga_broker pg ∈ ids → ga = pg
  | None => ga_broker ga = default "" (pick_group_coordinator g ids alive)
  end.

Lemma place_groups_spec pm ids alive groups placed out placed' :
  (∀ g pg, pm !! g = Some pg → ga_group_id pg = g) →
  place_groups pm ids alive groups placed = (out, placed') →
  (∀ ga, ga ∈ out → group_row pm ids alive (ga_group_id ga) ga ∧ ga_group_id ga ∈ placed') ∧
  (∀ g, g ∈ placed' → g ∈ placed ∨ ∃ ga, ga ∈ out ∧ ga_group_id ga = g) ∧ placed ⊆ placed'.
Proof.
  intros Hpm. revert placed out placed'. induction groups as [|g groups IH]; intros placed out placed' H; cbn [place_groups] in H.
  { injection H as <- <-. split; [intros ga Hga; by apply not_elem_of_nil in Hga|]. set_solver. }
  case_decide as Hin; [by apply IH|].
  destruct (place_groups _ _ _ groups _) as [out' pl] eqn:Ep.
  destruct (IH _ _ _ Ep) as (H1 & H2 & H3). injection H as <- <-.
  match goal with |- context [?r :: out'] => set (row := r) end.
  assert (group_row pm ids alive (gs_group_id g) row) as Hrow.
  { unfold row, group_row. destruct (pm !! gs_group_id g) as [pg|] eqn:Eg; [|done].
    case_decide as Hd; simpl; [split; [by apply Hpm|done]|]. split; [done|]. tauto. }
  assert (ga_group_id row = gs_group_id g) as Hid by apply Hrow.
  split; [|split].
  - intros ga [->|Hga]%elem_of_cons; [rewrite Hid; split; [done|set_solver]|by apply H1].
  - intros g' Hg'. destruct (H2 g' Hg') as [[->%elem_of_singleton|?]%elem_of_union|(ga & ? & ?)]; [|by left|].
    + right. exists row. split; [left|done].
    + right. exists ga. split; [by right|done].
  - set_solver.
Qed.

Lemma broker_sets_alive rows b : is_alive (broker_sets_of rows).2 b = true → b ∈ (broker_sets_of rows).1.
Proof.
  unfold is_alive. simpl. induction rows as [|r rows IH] using rev_ind; [done|].
  rewrite foldl_app, fmap_app. simpl. rewrite elem_of_app, list_elem_of_singleton.
  destruct (decide (br_id r = b)) as [<-|Hne]; [auto|]. rewrite lookup_insert_ne by done. auto.
Qed.

Definition with_groups (a : Assignment) (gs : list ConsumerGroupAssignment) : Assignment :=
  {| controller_epoch := controller_epoch a; assignment_version := assignment_version a;
     generated_at := generated_at a; controller := controller a; brokers := brokers a;
     partitions := partitions a; consumer_groups := gs |}.

Lemma balance_groups_rows prev rows groups :
  NoDup (ga_group_id <$> prev) → rows ≠ [] →
  ∀ g, match prev_groups prev !! g with
       | Some pg => is_alive (broker_sets_of rows).2 (ga_broker pg) = true →
         pg ∈ balance_groups (Some prev) rows groups ∧
         ∀ ga, ga ∈ balance_groups (Some prev) rows groups → ga_group_id ga = g → ga = pg
       | None => ∀ ga, ga ∈ balance_groups (Some prev) rows groups → ga_group_id ga = g →
         ga_broker ga = default "" (pick_group_coordinator g (broker_sets_of rows).1 (broker_sets_of rows).2)
       end.
Proof.
  intros Hnd Hne g. unfold balance_groups. destruct rows as [|r rows]; [done|].
  pose proof (broker_sets_alive (r :: rows)) as Hal.
  destruct (broker_sets_of (r :: rows)) as [ids alive]. simpl in Hal |- *. fold (prev_groups prev).
  destruct (place_groups (prev_groups prev) ids alive groups ∅) as [out placed] eqn:Ep.
  assert (∀ g pg, prev_groups prev !! g = Some pg → ga_group_id pg = g) as Hpm.
  { intros g0 pg E. pose proof (prev_groups_spec prev g0) as H. rewrite E in H. apply H. }
  destruct (place_groups_spec _ _ _ _ _ _ _ Hpm Ep) as (H1 & H2 & _).
  set (carried := filter _ (snd <$> map_to_list (prev_groups prev))).
  assert (∀ ga, ga ∈ merge_sort group_le carried ↔ ga ∈ carried) as Hsort.
  { intros ga. by rewrite (merge_sort_Permutation group_le carried). }
  assert (∀ ga, ga ∈ carried → prev_groups prev !! ga_group_id ga = Some ga ∧ ga_group_id ga ∉ placed) as Hcar.
  { intros ga [(? & _) ([k x] & -> & Hkx)%list_elem_of_fmap]%list_elem_of_filter.
    apply elem_of_map_to_list in Hkx. simpl in *. pose proof (Hpm _ _ Hkx) as Hk.
    split; [by rewrite Hk|done]. }
  destruct (prev_groups prev !! g) as [pg|] eqn:Eg.
  - intros Ha. pose proof (Hpm _ _ Eg) as Hgid. split.
    + apply elem_of_app. destruct (decide (g ∈ placed)) as [Hp|Hp].
      * left. destruct (H2 g Hp) as [?|(ga & Hga & Hid)]; [set_solver|].
        destruct (H1 ga Hga) as [[_ Hrow] _]. rewrite Hid, Eg in Hrow. by rewrite <- (Hrow Ha (Hal _ Ha)).
      * right. apply Hsort. apply list_elem_of_filter. split; [rewrite Hgid; auto|].
        apply list_elem_of_fmap. exists (g, pg). split; [done|]. by apply elem_of_map_to_list.
    + intros ga [Hga|Hga]%elem_of_app Hid.
      * destruct (H1 ga Hga) as [[_ Hrow] _]. rewrite Hid, Eg in Hrow. apply (Hrow Ha (Hal _ Ha)).
      * apply Hsort, Hcar in Hga as [Hl _]. rewrite Hid in Hl. congruence.
  - intros ga [Hga|Hga]%elem_of_app Hid.
    + destruct (H1 ga Hga) as [[_ Hrow] _]. by rewrite Hid, Eg in Hrow.
    + apply Hsort, Hcar in Hga as [Hl _]. rewrite Hid in Hl. congruence.
Qed.

(** A recompute never moves a group away from a live coordinator: whichever
    tier routed the group before (an explicit entry or the hash), if that broker
    is alive in the rows about to be written, the new assignment routes the group
    to the same broker. *)
Theorem group_coordinator_kept a groups g b :
  NoDup (ga_group_id <$> consumer_groups a) →
  coordinator_of a g = Some b → is_alive (broker_sets a).2 b = true →
  coordinator_of (with_groups a (balance_groups (Some (consumer_groups a)) (brokers a) groups)) g = Some b.
Proof.
  intros Hnd Hco Hal. unfold coordinator_of in *. simpl.
  assert (brokers a ≠ []) as Hne.
  { intros He. unfold broker_sets in Hal. by rewrite He in Hal. }
  pose proof (balance_groups_rows (consumer_groups a) (brokers a) groups Hnd Hne g) as Hrows.
  rewrite explicit_prev in Hco by done. unfold broker_sets in *. simpl.
  pose proof (explicit_group_spec (balance_groups (Some (consumer_groups a)) (brokers a) groups) g) as Hex.
  destruct (prev_groups (consumer_groups a) !! g) as [pg|] eqn:Eg.
  - injection Hco as <-. destruct (Hrows Hal) as [Hin Huniq].
    pose proof (prev_groups_spec (consumer_groups a) g) as Hpg. rewrite Eg in Hpg.
    destruct (explicit_group _ g) as [ga|]; [|by destruct (Hex pg Hin); apply Hpg].
    destruct Hex as [H1 H2]. by rewrite (Huniq ga H1 H2).
  - destruct (explicit_group _ g) as [ga|]; [|done]. destruct Hex as [H1 H2].
    rewrite (Hrows ga H1 H2). destruct (broker_sets_of (brokers a)) as [ids alive]. simpl in *.
    by rewrite Hco.
Qed.

Lemma group_coordinator_kept_witness :
  coordinator_of demo_assignment "g" = Some "kaas-0" ∧
  coordinator_of (with_groups demo_assignment
    (balance_groups (Some []) demo_rows [{| gs_group_id := "g" |}])) "g" = Some "kaas-0".
Proof.
  split; [vm_compute; reflexivity|].
  apply (group_coordinator_kept demo_assignment [{| gs_group_id := "g" |}] "g" "kaas-0").
  - constructor.
  - vm_compute. reflexivity.
  - vm_compute. reflexivity.
Defined.
