(* ===== verification/TxnState.v ===== *)
(** * The transaction coordinator's store ([kaas-coordinator/src/txn_state.rs])

    Entries are sharded over slot files by the FNV-1a hash of the transactional
    id; every operation re-reads the slot, validates, and writes it back
    atomically.  A slot file is modelled by what reading it gives: a map of
    entries or an error (a missing file reads as the empty map).  Whether a write
    succeeds is an argument [ok]; a failed write leaves the old file.

    The offset hook's calls are returned as values. *)

From stdpp Require Import base gmap strings list.
From Stdlib Require Import Strings.Byte.
From S2P Require Import Prelude Cluster.

Local Open Scope Z_scope.

Definition DEFAULT_NUM_SLOTS : nat := 50.

Inductive TxnState := Empty | Ongoing | PrepareCommit | PrepareAbort | CompleteCommit | CompleteAbort.
#[global] Instance TxnState_eq_dec : EqDecision TxnState.
Proof. solve_decision. Defined.

Record TxnTopic := { tt_topic : string; tt_partitions : list Z }.

Record TxnEntry := {
  pid : Z; epoch : Z; partitions : list TxnTopic; ongoing_since_ms : Z;
  transaction_timeout_ms : Z; state : TxnState; groups : list string }.

Record PendingMarkerDispatch := {
  pd_txn_id : string; pd_pid : Z; pd_epoch : Z; pd_commit : bool; pd_partitions : list TxnTopic }.

Record TxnAbortRecord := {
  ta_txn_id : string; ta_pid : Z; old_epoch : Z; new_epoch : Z; ta_groups : list string }.

Record EndTxnOutcome := {
  eo_partitions : list TxnTopic; eo_groups : list string; transition_fired : bool }.

Definition no_outcome : EndTxnOutcome := {| eo_partitions := []; eo_groups := []; transition_fired := false |}.

Inductive TxnStateError := EmptyTxnId | UnknownProducer | EpochFenced | Concurrent | InvalidState | Io | Decode.

Record TxnStateStore := {
  num_slots : nat; slots : gmap nat (result TxnStateError (gmap string TxnEntry)); hook : bool }.

(** [open]: zero means the default. *)
Definition open (n : nat) : TxnStateStore :=
  {| num_slots := match n with O => DEFAULT_NUM_SLOTS | _ => n end; slots := ∅; hook := false |}.

Definition slot_for (s : TxnStateStore) (txn_id : string) : nat :=
  Z.to_nat (fnv1a_32 (as_bytes txn_id) mod Z.of_nat (num_slots s)).

Definition load_slot (s : TxnStateStore) (slot : nat) : result TxnStateError (gmap string TxnEntry) :=
  default (Ok ∅) (slots s !! slot).

Definition persist_slot (s : TxnStateStore) (slot : nat) (m : gmap string TxnEntry) (ok : bool) :
    TxnStateStore * result TxnStateError unit :=
  if ok then ({| num_slots := num_slots s; slots := <[slot := Ok m]> (slots s); hook := hook s |}, Ok tt)
  else (s, Err Io).

(** Writes one entry back; the result is [r] if the write succeeds. *)
Definition put {A} (s : TxnStateStore) (m : gmap string TxnEntry) (txn_id : string) (e : TxnEntry)
    (ok : bool) (r : A) : TxnStateStore * result TxnStateError A :=
  match persist_slot s (slot_for s txn_id) (<[txn_id := e]> m) ok with
  | (s', Ok _) => (s', Ok r)
  | (s', Err err) => (s', Err err)
  end.

Definition fresh_entry (pid' timeout : Z) : TxnEntry :=
  {| pid := pid'; epoch := 0; partitions := []; ongoing_since_ms := 0;
     transaction_timeout_ms := timeout; state := Empty; groups := [] |}.

Definition set_epoch (e : TxnEntry) (ep : Z) : TxnEntry :=
  {| pid := pid e; epoch := ep; partitions := partitions e; ongoing_since_ms := ongoing_since_ms e;
     transaction_timeout_ms := transaction_timeout_ms e; state := state e; groups := groups e |}.

Definition set_timeout (e : TxnEntry) (t : Z) : TxnEntry :=
  {| pid := pid e; epoch := epoch e; partitions := partitions e; ongoing_since_ms := ongoing_since_ms e;
     transaction_timeout_ms := t; state := state e; groups := groups e |}.

Definition set_state (e : TxnEntry) (st : TxnState) (since : Z) : TxnEntry :=
  {| pid := pid e; epoch := epoch e; partitions := partitions e; ongoing_since_ms := since;
     transaction_timeout_ms := transaction_timeout_ms e; state := st; groups := groups e |}.

(** [alloc] is the producer-id allocator's answer, used only when one is needed. *)
Definition get_or_allocate_with_timeout (s : TxnStateStore) (txn_id : string) (timeout_ms alloc : Z) (ok : bool) :
    TxnStateStore * result TxnStateError (Z * Z) :=
  if str_is_empty txn_id then (s, Err EmptyTxnId)
  else
    match load_slot s (slot_for s txn_id) with
    | Err e => (s, Err e)
    | Ok m =>
      let entry :=
        match m !! txn_id with
        | None => fresh_entry alloc 0
        | Some existing =>
          if epoch existing =? i16_max then fresh_entry alloc (transaction_timeout_ms existing)
          else set_epoch existing (epoch existing + 1)
        end in
      let entry := if 0 <? timeout_ms then set_timeout entry timeout_ms else entry in
      put s m txn_id entry ok (pid entry, epoch entry)
    end.

(** The validation prefix shared by the transactional operations. *)
Definition validated (s : TxnStateStore) (txn_id : string) (pid' epoch' : Z) :
    result TxnStateError (gmap string TxnEntry * TxnEntry) :=
  match load_slot s (slot_for s txn_id) with
  | Err e => Err e
  | Ok m =>
    match m !! txn_id with
    | None => Err UnknownProducer
    | Some entry =>
      if negb (pid entry =? pid') then Err UnknownProducer
      else if negb (epoch entry =? epoch') then Err EpochFenced
      else Ok (m, entry)
    end
  end.

(** ** [merge_partitions] *)

Fixpoint push_new (ps : list Z) (adds : list Z) : list Z * bool :=
  match adds with
  | [] => (ps, false)
  | p :: adds' =>
    if decide (p ∈ ps) then push_new ps adds'
    else let '(ps', _) := push_new (ps ++ [p]) adds' in (ps', true)
  end.

(** Merges one topic into the first entry of its name, or appends it. *)
Fixpoint merge_topic (ts : list TxnTopic) (add : TxnTopic) : list TxnTopic * bool :=
  match ts with
  | [] => ([add], true)
  | t :: ts' =>
    if decide (tt_topic t = tt_topic add) then
      let '(ps, ch) := push_new (tt_partitions t) (tt_partitions add) in
      ({| tt_topic := tt_topic t; tt_partitions := ps |} :: ts', ch)
    else let '(ts'', ch) := merge_topic ts' add in (t :: ts'', ch)
  end.

Fixpoint merge_partitions (ts : list TxnTopic) (additions : list TxnTopic) : list TxnTopic * bool :=
  match additions with
  | [] => (ts, false)
  | add :: adds =>
    let '(ts1, c1) := merge_topic ts add in
    let '(ts2, c2) := merge_partitions ts1 adds in
    (ts2, c1 || c2)
  end.

Definition is_prepare (st : TxnState) : bool :=
  match st with PrepareCommit | PrepareAbort => true | _ => false end.

Definition add_partitions (s : TxnStateStore) (txn_id : string) (pid' epoch' : Z)
    (additions : list TxnTopic) (now_ms : Z) (ok : bool) : TxnStateStore * result TxnStateError unit :=
  if str_is_empty txn_id then (s, Err EmptyTxnId)
  else
    match validated s txn_id pid' epoch' with
    | Err e => (s, Err e)
    | Ok (m, entry) =>
      if is_prepare (state entry) then (s, Err Concurrent)
      else
        let '(merged, changed) := merge_partitions (partitions entry) additions in
        let was_not_ongoing := negb (bool_decide (state entry = Ongoing)) in
        let entry' :=
          {| pid := pid entry; epoch := epoch entry; partitions := merged;
             ongoing_since_ms := if was_not_ongoing then now_ms else ongoing_since_ms entry;
             transaction_timeout_ms := transaction_timeout_ms entry; state := Ongoing;
             groups := groups entry |} in
        if negb changed && negb was_not_ongoing then (s, Ok tt)
        else put s m txn_id entry' ok tt
    end.

Definition add_offsets_to_txn (s : TxnStateStore) (txn_id : string) (pid' epoch' : Z)
    (group_id : string) (now_ms : Z) (ok : bool) : TxnStateStore * result TxnStateError unit :=
  if str_is_empty txn_id then (s, Err EmptyTxnId)
  else if str_is_empty group_id then (s, Err InvalidState)
  else
    match validated s txn_id pid' epoch' with
    | Err e => (s, Err e)
    | Ok (m, entry) =>
      if is_prepare (state entry) then (s, Err Concurrent)
      else
        let already := bool_decide (group_id ∈ groups entry) in
        let advance := negb (bool_decide (state entry = Ongoing)) in
        if already && negb advance then (s, Ok tt)
        else
          let entry' :=
            {| pid := pid entry; epoch := epoch entry; partitions := partitions entry;
               ongoing_since_ms := if advance then now_ms else ongoing_since_ms entry;
               transaction_timeout_ms := transaction_timeout_ms entry; state := Ongoing;
               groups := if already then groups entry else groups entry ++ [group_id] |} in
          put s m txn_id entry' ok tt
    end.

(** ** EndTxn *)

Definition want_prepare (commit : bool) : TxnState := if commit then PrepareCommit else PrepareAbort.
Definition want_complete (commit : bool) : TxnState := if commit then CompleteCommit else CompleteAbort.

Definition prepare_end_txn (s : TxnStateStore) (txn_id : string) (pid' epoch' : Z) (commit ok : bool) :
    TxnStateStore * result TxnStateError EndTxnOutcome :=
  if str_is_empty txn_id then (s, Err EmptyTxnId)
  else
    match validated s txn_id pid' epoch' with
    | Err e => (s, Err e)
    | Ok (m, entry) =>
      let outcome := {| eo_partitions := partitions entry; eo_groups := groups entry;
                        transition_fired := true |} in
      match state entry with
      | Ongoing =>
        put s m txn_id (set_state entry (want_prepare commit) (ongoing_since_ms entry)) ok outcome
      | PrepareCommit | PrepareAbort =>
        if decide (state entry = want_prepare commit) then (s, Ok outcome) else (s, Err InvalidState)
      | CompleteCommit => (s, if commit then Ok no_outcome else Err InvalidState)
      | CompleteAbort => (s, if commit then Err InvalidState else Ok no_outcome)
      | Empty => (s, Err InvalidState)
      end
    end.

(** The [Ok] value is the hook's calls: group, producer id, commit. *)
Definition complete_end_txn (s : TxnStateStore) (txn_id : string) (pid' epoch' : Z) (commit ok : bool) :
    TxnStateStore * result TxnStateError (list (string * Z * bool)) :=
  if str_is_empty txn_id then (s, Err EmptyTxnId)
  else
    match validated s txn_id pid' epoch' with
    | Err e => (s, Err e)
    | Ok (m, entry) =>
      if decide (state entry = want_complete commit) then (s, Ok [])
      else if decide (state entry = want_prepare commit) then
        let entry' :=
          {| pid := pid entry; epoch := epoch entry; partitions := []; ongoing_since_ms := 0;
             transaction_timeout_ms := transaction_timeout_ms entry; state := want_complete commit;
             groups := [] |} in
        put s m txn_id entry' ok
          (if hook s then (λ g, (g, pid', commit)) <$> groups entry else [])
      else (s, Err InvalidState)
    end.

Definition end_txn (s : TxnStateStore) (txn_id : string) (pid' epoch' : Z) (commit ok1 ok2 : bool) :
    TxnStateStore * result TxnStateError (EndTxnOutcome * list (string * Z * bool)) :=
  match prepare_end_txn s txn_id pid' epoch' commit ok1 with
  | (s1, Err e) => (s1, Err e)
  | (s1, Ok outcome) =>
    if transition_fired outcome then
      match complete_end_txn s1 txn_id pid' epoch' commit ok2 with
      | (s2, Err e) => (s2, Err e)
      | (s2, Ok calls) => (s2, Ok (outcome, calls))
      end
    else (s1, Ok (outcome, []))
  end.

(** ** The sweeps *)

Definition owned (owns_txn : option (string → bool)) (txn_id : string) : bool :=
  match owns_txn with Some f => f txn_id | None => true end.

Definition pending_of (owns_txn : option (string → bool)) (txn_id : string) (e : TxnEntry) :
    option PendingMarkerDispatch :=
  let mk c := {| pd_txn_id := txn_id; pd_pid := pid e; pd_epoch := epoch e; pd_commit := c;
                 pd_partitions := partitions e |} in
  match state e with
  | PrepareCommit | PrepareAbort =>
    match partitions e with
    | [] => None
    | _ => if owned owns_txn txn_id then Some (mk (bool_decide (state e = PrepareCommit))) else None
    end
  | _ => None
  end.

Definition pending_marker_dispatches (s : TxnStateStore) (owns_txn : option (string → bool)) :
    list PendingMarkerDispatch :=
  seq 0 (num_slots s) ≫= λ slot,
    match load_slot s slot with
    | Err _ => []
    | Ok m => omap (λ '(id, e), pending_of owns_txn id e) (map_to_list m)
    end.

(** Is the entry past its deadline, and ours? *)
Definition overdue (owns_txn : option (string → bool)) (now_ms : Z) (txn_id : string) (e : TxnEntry) : bool :=
  bool_decide (state e = Ongoing) && owned owns_txn txn_id &&
  negb ((ongoing_since_ms e =? 0) || (transaction_timeout_ms e <=? 0)) &&
  negb (now_ms <? wrap_s 64 (ongoing_since_ms e + transaction_timeout_ms e)).

Definition aborted_entry (e : TxnEntry) : TxnEntry :=
  set_epoch (set_state e PrepareAbort 0) (if epoch e =? i16_max then 0 else epoch e + 1).

(** The walk over a slot's candidate ids. *)
Fixpoint sweep_ids (owns_txn : option (string → bool)) (now_ms : Z) (m : gmap string TxnEntry)
    (ids : list string) : gmap string TxnEntry * list TxnAbortRecord :=
  match ids with
  | [] => (m, [])
  | id :: ids' =>
    match m !! id with
    | Some e =>
      if overdue owns_txn now_ms id e then
        let '(m', recs) := sweep_ids owns_txn now_ms (<[id := aborted_entry e]> m) ids' in
        (m', {| ta_txn_id := id; ta_pid := pid e; old_epoch := epoch e;
                new_epoch := epoch (aborted_entry e); ta_groups := groups e |} :: recs)
      else sweep_ids owns_txn now_ms m ids'
    | None => sweep_ids owns_txn now_ms m ids'
    end
  end.

(** [ok slot]: does the write of that slot succeed?  Its error is ignored. *)
Fixpoint sweep_slots (owns_txn : option (string → bool)) (now_ms : Z) (ok : nat → bool)
    (s : TxnStateStore) (slot_ids : list nat) : TxnStateStore * list TxnAbortRecord :=
  match slot_ids with
  | [] => (s, [])
  | slot :: rest =>
    match load_slot s slot with
    | Err _ => sweep_slots owns_txn now_ms ok s rest
    | Ok m =>
      let '(m', recs) := sweep_ids owns_txn now_ms m (fst <$> map_to_list m) in
      let s1 := match recs with [] => s | _ => (persist_slot s slot m' (ok slot)).1 end in
      let '(s2, recs') := sweep_slots owns_txn now_ms ok s1 rest in
      (s2, recs ++ recs')
    end
  end.

Definition abort_overdue_owned (s : TxnStateStore) (now_ms : Z) (owns_txn : option (string → bool))
    (ok : nat → bool) : TxnStateStore * list TxnAbortRecord :=
  sweep_slots owns_txn now_ms ok s (seq 0 (num_slots s)).

(** [snapshot]: the union of the readable slots; a later slot wins. *)
Definition snapshot (s : TxnStateStore) : gmap string TxnEntry :=
  foldl (λ out slot, match load_slot s slot with Ok m => m ∪ out | Err _ => out end) ∅ (seq 0 (num_slots s)).

(** ** The store as a map of entries *)

Definition entry (s : TxnStateStore) (txn_id : string) : option TxnEntry :=
  match load_slot s (slot_for s txn_id) with Ok m => m !! txn_id | Err _ => None end.

Inductive TxnOp :=
| OpAlloc (txn_id : string) (timeout_ms alloc : Z) (ok : bool)
| OpAddPartitions (txn_id : string) (pid' epoch' : Z) (additions : list TxnTopic) (now_ms : Z) (ok : bool)
| OpAddOffsets (txn_id : string) (pid' epoch' : Z) (group_id : string) (now_ms : Z) (ok : bool)
| OpPrepare (txn_id : string) (pid' epoch' : Z) (commit ok : bool)
| OpComplete (txn_id : string) (pid' epoch' : Z) (commit ok : bool)
| OpSweep (now_ms : Z) (owns_txn : option (string → bool)) (ok : nat → bool).

Definition exec (s : TxnStateStore) (op : TxnOp) : TxnStateStore :=
  match op with
  | OpAlloc id t a ok => (get_or_allocate_with_timeout s id t a ok).1
  | OpAddPartitions id p e adds now ok => (add_partitions s id p e adds now ok).1
  | OpAddOffsets id p e g now ok => (add_offsets_to_txn s id p e g now ok).1
  | OpPrepare id p e c ok => (prepare_end_txn s id p e c ok).1
  | OpComplete id p e c ok => (complete_end_txn s id p e c ok).1
  | OpSweep now owns ok => (abort_overdue_owned s now owns ok).1
  end.

(** How one operation may change the entry of one id. *)
Inductive change : TxnOp → string → option TxnEntry → option TxnEntry → Prop :=
| ch_new id t a ok to :
    change (OpAlloc id t a ok) id None (Some (fresh_entry a to))
| ch_exhausted id t a ok e to :
    epoch e = i16_max → change (OpAlloc id t a ok) id (Some e) (Some (fresh_entry a to))
| ch_bump id t a ok e to :
    epoch e ≠ i16_max →
    change (OpAlloc id t a ok) id (Some e) (Some (set_timeout (set_epoch e (epoch e + 1)) to))
| ch_add id adds now ok e since :
    is_prepare (state e) = false →
    change (OpAddPartitions id (pid e) (epoch e) adds now ok) id (Some e)
      (Some {| pid := pid e; epoch := epoch e; partitions := (merge_partitions (partitions e) adds).1;
               ongoing_since_ms := since; transaction_timeout_ms := transaction_timeout_ms e;
               state := Ongoing; groups := groups e |})
| ch_offsets id g now ok e since gs :
    is_prepare (state e) = false →
    change (OpAddOffsets id (pid e) (epoch e) g now ok) id (Some e)
      (Some {| pid := pid e; epoch := epoch e; partitions := partitions e;
               ongoing_since_ms := since; transaction_timeout_ms := transaction_timeout_ms e;
               state := Ongoing; groups := gs |})
| ch_prepare id c ok e :
    state e = Ongoing →
    change (OpPrepare id (pid e) (epoch e) c ok) id (Some e)
      (Some (set_state e (want_prepare c) (ongoing_since_ms e)))
| ch_complete id c ok e :
    state e = want_prepare c →
    change (OpComplete id (pid e) (epoch e) c ok) id (Some e)
      (Some {| pid := pid e; epoch := epoch e; partitions := []; ongoing_since_ms := 0;
               transaction_timeout_ms := transaction_timeout_ms e; state := want_complete c; groups := [] |})
| ch_sweep now owns ok id e :
    overdue owns now id e = true →
    change (OpSweep now owns ok) id (Some e) (Some (aborted_entry e)).

Lemma put_entry {A} s m id e ok (r : A) :
  load_slot s (slot_for s id) = Ok m →
  num_slots (put s m id e ok r).1 = num_slots s ∧
  (∀ id', entry (put s m id e ok r).1 id' = entry s id' ∨
          id' = id ∧ entry (put s m id e ok r).1 id' = Some e) ∧
  (ok = true → entry (put s m id e ok r).1 id = Some e).
Proof.
  intros Hm. unfold put, persist_slot. destruct ok; simpl; [|split; [done|]; split; [by left|done]].
  assert (entry {| num_slots := num_slots s; slots := <[slot_for s id:=Ok (<[id:=e]> m)]> (slots s);
    hook := hook s |} id = Some e) as Hid.
  { unfold entry, load_slot, slot_for. simpl. by rewrite lookup_insert_eq; simpl; rewrite lookup_insert_eq. }
  split; [done|]. split; [|done]. intros id'. destruct (decide (id' = id)) as [->|Hne]; [by right|]. left.
  unfold entry in Hid |- *. change (slot_for {| num_slots := _; slots := _; hook := _ |} id') with (slot_for s id').
  unfold load_slot in Hm |- *. cbn [slots].
  destruct (decide (slot_for s id = slot_for s id')) as [He|He].
  - rewrite <- He, lookup_insert_eq, Hm. simpl. by rewrite lookup_insert_ne.
  - by rewrite lookup_insert_ne.
Qed.

Lemma validated_spec s id p ep m e :
  validated s id p ep = Ok (m, e) →
  load_slot s (slot_for s id) = Ok m ∧ entry s id = Some e ∧ p = pid e ∧ ep = epoch e.
Proof.
  unfold validated, entry. destruct (load_slot s (slot_for s id)) as [m'|]; [|done].
  destruct (m' !! id) as [e'|] eqn:El; [|done].
  destruct (Z.eqb_spec (pid e') p); [|done]. destruct (Z.eqb_spec (epoch e') ep); [|done]. simpl.
  by intros [= <- <-].
Qed.

(** ** What an operation changes *)

Lemma sweep_ids_spec owns now m ids m' recs :
  NoDup ids → sweep_ids owns now m ids = (m', recs) →
  ∀ id, m' !! id = m !! id ∨
    ∃ e, m !! id = Some e ∧ overdue owns now id e = true ∧ m' !! id = Some (aborted_entry e).
Proof.
  intros Hnd. revert m m' recs. induction Hnd as [|x ids Hx Hnd IH]; intros m m' recs H id; simpl in H.
  { injection H as <- <-. by left. }
  destruct (m !! x) as [e|] eqn:Ex; [|by eapply IH].
  destruct (overdue owns now x e) eqn:Eo; [|by eapply IH].
  destruct (sweep_ids _ _ _ ids) as [m1 recs1] eqn:Es. injection H as <- <-.
  destruct (IH _ _ _ Es id) as [Heq|(e' & He' & Ho' & Hm')].
  - rewrite Heq. destruct (decide (x = id)) as [<-|Hne]; [|left; by rewrite lookup_insert_ne].
    right. exists e. by rewrite lookup_insert_eq.
  - destruct (decide (x = id)) as [<-|Hne].
    + rewrite lookup_insert_eq in He'. injection He' as <-. unfold overdue in Ho'. simpl in Ho'. done.
    + rewrite lookup_insert_ne in He' by done. right. by exists e'.
Qed.

Lemma sweep_slots_spec owns now ok s l s' recs :
  NoDup l → sweep_slots owns now ok s l = (s', recs) →
  num_slots s' = num_slots s ∧
  (∀ k, k ∉ l → load_slot s' k = load_slot s k) ∧
  ∀ k m, load_slot s k = Ok m → ∃ m', load_slot s' k = Ok m' ∧
    ∀ id, m' !! id = m !! id ∨
      ∃ e, m !! id = Some e ∧ overdue owns now id e = true ∧ m' !! id = Some (aborted_entry e).
Proof.
  intros Hnd. revert s recs. induction Hnd as [|x l Hx Hnd IH]; intros s recs H; cbn [sweep_slots] in H.
  { injection H as <- <-. split; [done|]. split; [done|]. intros k m Hm. exists m. split; [done|]. by left. }
  destruct (load_slot s x) as [m|] eqn:El.
  2: { destruct (IH _ _ H) as (H1 & H2 & H3). split; [done|]. split; [|done].
       intros k Hk. apply H2. set_solver. }
  destruct (sweep_ids owns now m (map_to_list m).*1) as [m' recs1] eqn:Es.
  set (s1 := match recs1 with [] => s | _ => _ end) in H.
  destruct (sweep_slots _ _ _ s1 l) as [s2 recs2] eqn:Er. injection H as <- <-.
  destruct (IH _ _ Er) as (H1 & H2 & H3).
  assert (num_slots s1 = num_slots s ∧ (∀ k, k ≠ x → load_slot s1 k = load_slot s k) ∧
    (load_slot s1 x = Ok m ∨ load_slot s1 x = Ok m')) as (S1 & S2 & S3).
  { unfold s1. destruct recs1; [by auto|]. unfold persist_slot. destruct (ok x); [|by auto]. simpl.
    split; [done|]. unfold load_slot. simpl. split; [intros k Hk; by rewrite lookup_insert_ne|].
    right. by rewrite lookup_insert_eq. }
  split; [congruence|]. split.
  { intros k [Hk1 Hk2]%not_elem_of_cons. by rewrite H2, S2. }
  intros k mk Hk. destruct (decide (k = x)) as [->|Hne].
  - rewrite El in Hk. injection Hk as <-. rewrite (H2 x Hx).
    pose proof (sweep_ids_spec _ _ _ _ _ _ (NoDup_fst_map_to_list m) Es) as Hsw.
    destruct S3 as [->| ->]; eexists; (split; [done|]); [by left|done].
  - rewrite <- S2 in Hk by done. by apply H3.
Qed.

Lemma sweep_change s now owns ok id :
  let s' := (abort_overdue_owned s now owns ok).1 in
  num_slots s' = num_slots s ∧
  (entry s' id = entry s id ∨ change (OpSweep now owns ok) id (entry s id) (entry s' id)).
Proof.
  unfold abort_overdue_owned. destruct (sweep_slots _ _ _ _ _) as [s' recs] eqn:Es. simpl.
  destruct (sweep_slots_spec _ _ _ _ _ _ _ (NoDup_seq _ _) Es) as (H1 & H2 & H3). split; [done|].
  unfold entry, slot_for. rewrite H1. fold (slot_for s id).
  destruct (load_slot s (slot_for s id)) as [m|] eqn:El.
  - destruct (H3 _ _ El) as (m' & -> & Hm). destruct (Hm id) as [->|(e & He & Ho & ->)]; [by left|].
    right. rewrite He. by constructor.
  - left. destruct (decide (slot_for s id ∈ seq 0 (num_slots s))) as [Hin|Hin].
    2: { by rewrite H2, El. }
    assert (∀ l s s' recs k er, load_slot s k = Err er → sweep_slots owns now ok s l = (s', recs) →
      load_slot s' k = Err er) as Hkeep.
    { clear. induction l as [|x l IH]; intros s s' recs k er Hk H; cbn [sweep_slots] in H; [by injection H as <- <-|].
      destruct (load_slot s x) as [m|] eqn:El; [|by eapply IH].
      destruct (sweep_ids _ _ _ _) as [m' recs1].
      destruct (sweep_slots _ _ _ _ l) as [s2 recs2] eqn:Er. injection H as <- <-.
      eapply IH; [|exact Er]. destruct recs1; [done|]. unfold persist_slot. destruct (ok x); [|done].
      unfold load_slot in *. simpl. rewrite lookup_insert_ne; [done|]. intros ->. congruence. }
    by rewrite (Hkeep _ _ _ _ _ _ El Es).
Qed.

Lemma put_change {A} s m id0 e ok (r : A) op id :
  load_slot s (slot_for s id0) = Ok m → change op id0 (entry s id0) (Some e) →
  num_slots (put s m id0 e ok r).1 = num_slots s ∧
  (entry (put s m id0 e ok r).1 id = entry s id ∨
   change op id (entry s id) (entry (put s m id0 e ok r).1 id)).
Proof.
  intros Hm Hc. destruct (put_entry s m id0 e ok r Hm) as (Hn & Hp & _). split; [done|].
  destruct (Hp id) as [|[-> ->]]; auto.
Qed.

Lemma exec_change s op id :
  num_slots (exec s op) = num_slots s ∧
  (entry (exec s op) id = entry s id ∨ change op id (entry s id) (entry (exec s op) id)).
Proof.
  destruct op as [id0 t a ok|id0 p ep adds now ok|id0 p ep g now ok|id0 p ep c ok|id0 p ep c ok|now owns ok]; simpl.
  - unfold get_or_allocate_with_timeout. destruct (str_is_empty id0); [by auto|].
    destruct (load_slot s (slot_for s id0)) as [m|] eqn:El; [|by auto].
    assert (entry s id0 = m !! id0) as He by (unfold entry; by rewrite El).
    apply put_change; [done|]. rewrite He.
    destruct (m !! id0) as [e|]; [destruct (Z.eqb_spec (epoch e) i16_max)|]; destruct (0 <? t);
      first [apply (ch_new id0 t a ok t) | apply (ch_new id0 t a ok 0)
        | by apply (ch_exhausted id0 t a ok e t) | by apply (ch_exhausted id0 t a ok e (transaction_timeout_ms e))
        | by apply (ch_bump id0 t a ok e t) | by apply (ch_bump id0 t a ok e (transaction_timeout_ms e))].
  - unfold add_partitions. destruct (str_is_empty id0); [by auto|].
    destruct (validated s id0 p ep) as [[m e]|] eqn:Ev; [|by auto].
    apply validated_spec in Ev as (Hm & He & -> & ->).
    destruct (is_prepare (state e)) eqn:Ep; [by auto|].
    destruct (merge_partitions (partitions e) adds) as [ts ch] eqn:Eg.
    destruct (negb ch && _); [by auto|]. apply put_change; [done|]. rewrite He.
    replace ts with (merge_partitions (partitions e) adds).1 by (by rewrite Eg). by constructor.
  - unfold add_offsets_to_txn. destruct (str_is_empty id0); [by auto|]. destruct (str_is_empty g); [by auto|].
    destruct (validated s id0 p ep) as [[m e]|] eqn:Ev; [|by auto].
    apply validated_spec in Ev as (Hm & He & -> & ->).
    destruct (is_prepare (state e)) eqn:Ep; [by auto|].
    destruct (_ && _); [by auto|]. apply put_change; [done|]. rewrite He. by constructor.
  - unfold prepare_end_txn. destruct (str_is_empty id0); [by auto|].
    destruct (validated s id0 p ep) as [[m e]|] eqn:Ev; [|by auto].
    apply validated_spec in Ev as (Hm & He & -> & ->).
    destruct (state e) eqn:Es; try (by auto); try (by case_decide; auto).
    apply put_change; [done|]. rewrite He. by constructor.
  - unfold complete_end_txn. destruct (str_is_empty id0); [by auto|].
    destruct (validated s id0 p ep) as [[m e]|] eqn:Ev; [|by auto].
    apply validated_spec in Ev as (Hm & He & -> & ->).
    case_decide; [by auto|]. case_decide; [|by auto]. apply put_change; [done|]. rewrite He. by constructor.
  - apply sweep_change.
Qed.

(** ** Partition lists *)

Definition covers (ts : list TxnTopic) (t : string) (p : Z) : Prop :=
  ∃ x, x ∈ ts ∧ tt_topic x = t ∧ p ∈ tt_partitions x.

Lemma covers_nil t p : ¬ covers [] t p.
Proof. intros (x & Hx & _). by apply not_elem_of_nil in Hx. Qed.

Lemma covers_cons x ts t p : covers (x :: ts) t p ↔ (tt_topic x = t ∧ p ∈ tt_partitions x) ∨ covers ts t p.
Proof.
  unfold covers. split.
  - intros (y & [->|Hy]%elem_of_cons & H); [by left|]. right. by exists y.
  - intros [H|(y & Hy & H)]; [exists x; split; [left|done]|exists y; split; [by right|done]].
Qed.

Lemma push_new_spec adds ps :
  (∀ p, p ∈ (push_new ps adds).1 ↔ p ∈ ps ∨ p ∈ adds) ∧
  ((push_new ps adds).2 = false → (push_new ps adds).1 = ps).
Proof.
  revert ps. induction adds as [|a adds IH]; intros ps; simpl.
  { split; [|done]. intros p. rewrite elem_of_nil. tauto. }
  case_decide as Ha.
  - destruct (IH ps) as [H1 H2]. split; [|done]. intros p. rewrite H1, elem_of_cons. naive_solver.
  - destruct (IH (ps ++ [a])) as [H1 _]. destruct (push_new (ps ++ [a]) adds) as [ps' c]. simpl in *.
    split; [|done]. intros p. rewrite H1, elem_of_app, list_elem_of_singleton, elem_of_cons. tauto.
Qed.

Lemma merge_topic_spec ts add :
  (∀ t p, covers (merge_topic ts add).1 t p ↔ covers ts t p ∨ (tt_topic add = t ∧ p ∈ tt_partitions add)) ∧
  ((merge_topic ts add).2 = false → (merge_topic ts add).1 = ts).
Proof.
  induction ts as [|x ts [IH1 IH2]]; simpl.
  { split; [|done]. intros t p. rewrite covers_cons. pose proof (covers_nil t p). tauto. }
  case_decide as Hx.
  - destruct (push_new_spec (tt_partitions add) (tt_partitions x)) as [H1 H2].
    destruct (push_new _ _) as [ps ch]. simpl in *. split.
    + intros t p. rewrite !covers_cons. simpl. rewrite H1, <- Hx. tauto.
    + intros ->. rewrite H2 by done. by destruct x.
  - destruct (merge_topic ts add) as [ts' ch]. simpl in *. split.
    + intros t p. rewrite !covers_cons, IH1. tauto.
    + intros ->. by rewrite IH2.
Qed.

Lemma merge_partitions_spec adds ts :
  (∀ t p, covers (merge_partitions ts adds).1 t p ↔ covers ts t p ∨ covers adds t p) ∧
  ((merge_partitions ts adds).2 = false → (merge_partitions ts adds).1 = ts).
Proof.
  revert ts. induction adds as [|a adds IH]; intros ts; simpl.
  { split; [|done]. intros t p. pose proof (covers_nil t p). tauto. }
  destruct (merge_topic_spec ts a) as [H1 H2]. destruct (merge_topic ts a) as [ts1 c1].
  destruct (IH ts1) as [H3 H4]. destruct (merge_partitions ts1 adds) as [ts2 c2]. simpl in *. split.
  - intros t p. rewrite H3, H1, covers_cons. tauto.
  - intros [-> ->]%orb_false_iff. by rewrite H4, H2.
Qed.

(** ** Runs *)

Inductive run (P : TxnStateStore → TxnOp → Prop) : TxnStateStore → TxnStateStore → Prop :=
| run_refl s : run P s s
| run_step s op s' : P s op → run P (exec s op) s' → run P s s'.

(** The operation does not meet the id's last epoch. *)
Definition no_exhaustion (id : string) (s : TxnStateStore) (op : TxnOp) : Prop :=
  match op with
  | OpAlloc _ _ _ _ | OpSweep _ _ _ => ∀ e, entry s id = Some e → epoch e ≠ i16_max
  | _ => True
  end.

Definition not_completing (id : string) (op : TxnOp) : Prop :=
  match op with OpComplete id' _ _ _ _ => id' ≠ id | _ => True end.

Definition in_flight (e : TxnEntry) : Prop := state e = Ongoing ∨ is_prepare (state e) = true.

Lemma change_kept s op id e e' :
  no_exhaustion id s op → entry s id = Some e → change op id (Some e) (Some e') →
  pid e' = pid e ∧ epoch e ≤ epoch e' ∧
  (not_completing id op → in_flight e →
     in_flight e' ∧ ∀ t p, covers (partitions e) t p → covers (partitions e') t p).
Proof.
  intros Hno He Hc. inversion Hc; subst; simpl in *.
  - by destruct (Hno e He).
  - split; [done|]. split; [lia|]. auto.
  - split; [done|]. split; [lia|]. intros _ _. split; [by left|]. intros t p H.
    apply merge_partitions_spec. by left.
  - split; [done|]. split; [lia|]. intros _ _. by split; [left|].
  - split; [done|]. split; [lia|]. intros _ _. split; [right; by destruct c|done].
  - split; [done|]. split; [lia|]. done.
  - split; [done|]. destruct (Z.eqb_spec (epoch e) i16_max) as [H|H]; [by destruct (Hno e He)|].
    split; [lia|]. intros _ _. by split; [right|].
Qed.

Lemma run_kept id (P : TxnStateStore → TxnOp → Prop) s s' e :
  (∀ s op, P s op → no_exhaustion id s op) → run P s s' → entry s id = Some e →
  num_slots s' = num_slots s ∧
  ∃ e', entry s' id = Some e' ∧ pid e' = pid e ∧ epoch e ≤ epoch e' ∧
    ((∀ s op, P s op → not_completing id op) → in_flight e →
       in_flight e' ∧ ∀ t p, covers (partitions e) t p → covers (partitions e') t p).
Proof.
  intros HP Hrun. revert e. induction Hrun as [s|s op s' Hop Hrun IH]; intros e He.
  { split; [done|]. exists e. split; [done|]. split; [done|]. split; [lia|]. auto. }
  destruct (exec_change s op id) as [Hn Hc].
  assert (∃ e1, entry (exec s op) id = Some e1 ∧ pid e1 = pid e ∧ epoch e ≤ epoch e1 ∧
    (not_completing id op → in_flight e →
       in_flight e1 ∧ ∀ t p, covers (partitions e) t p → covers (partitions e1) t p))
    as (e1 & He1 & Hp1 & Hep1 & Hk1).
  { rewrite He in Hc. destruct Hc as [->|Hc]; [exists e; split; [done|]; split; [done|]; split; [lia|]; auto|].
    assert (∃ e1, entry (exec s op) id = Some e1) as [e1 He1] by (inversion Hc; eauto).
    rewrite He1 in Hc |- *. exists e1. split; [done|]. eapply change_kept; eauto. }
  destruct (IH e1 He1) as (Hn2 & e2 & He2 & Hp2 & Hep2 & Hk2).
  split; [congruence|]. exists e2. split; [done|]. split; [congruence|]. split; [lia|].
  intros Hnc Hf. destruct (Hk1 (Hnc _ _ Hop) Hf) as [Hf1 Hc1]. destruct (Hk2 Hnc Hf1) as [Hf2 Hc2]. auto.
Qed.

Lemma add_partitions_ok s id p ep adds now ok s1 :
  add_partitions s id p ep adds now ok = (s1, Ok tt) →
  num_slots s1 = num_slots s ∧
  ∃ e, entry s1 id = Some e ∧ pid e = p ∧ epoch e = ep ∧ state e = Ongoing ∧
    ∀ t q, covers adds t q → covers (partitions e) t q.
Proof.
  unfold add_partitions. destruct (str_is_empty id); [done|].
  destruct (validated s id p ep) as [[m e]|] eqn:Ev; [|done].
  apply validated_spec in Ev as (Hm & He & -> & ->). destruct (is_prepare (state e)); [done|].
  destruct (merge_partitions_spec adds (partitions e)) as [Hc Hsame].
  destruct (merge_partitions (partitions e) adds) as [ts ch]. simpl in Hc, Hsame.
  destruct (negb ch && _) eqn:Ed.
  - intros [= <-]. split; [done|]. exists e. apply andb_true_iff in Ed as [Hch Hst].
    apply negb_true_iff in Hch as ->. rewrite negb_involutive in Hst. apply bool_decide_eq_true in Hst.
    do 4 (split; [done|]). intros t q Hq. rewrite <- Hsame by done. apply Hc. by right.
  - intros Hput. match type of Hput with put _ _ _ ?e' _ _ = _ => set (e1 := e') in Hput end.
    destruct (put_entry s m id e1 ok tt Hm) as (Hn & _ & Hok).
    assert (ok = true) as -> by (destruct ok; [done|]; by unfold put, persist_slot in Hput).
    rewrite Hput in Hn, Hok. split; [done|]. exists e1. split; [by apply Hok|].
    do 3 (split; [done|]). intros t q Hq. apply Hc. by right.
Qed.

Lemma slot_for_lt s id : (0 < num_slots s)%nat → (slot_for s id < num_slots s)%nat.
Proof.
  intros Hn. unfold slot_for.
  pose proof (Z.mod_pos_bound (fnv1a_32 (as_bytes id)) (Z.of_nat (num_slots s)) ltac:(lia)). lia.
Qed.

Lemma pending_listed s owns id e :
  (0 < num_slots s)%nat → entry s id = Some e → is_prepare (state e) = true →
  partitions e ≠ [] → owned owns id = true →
  ∃ d, d ∈ pending_marker_dispatches s owns ∧ pd_txn_id d = id ∧ pd_pid d = pid e ∧
    pd_epoch d = epoch e ∧ pd_partitions d = partitions e.
Proof.
  intros Hn He Hp Hne Ho. unfold entry in He.
  destruct (load_slot s (slot_for s id)) as [m|] eqn:El; [|done].
  assert (∃ d, pending_of owns id e = Some d ∧ pd_txn_id d = id ∧ pd_pid d = pid e ∧
    pd_epoch d = epoch e ∧ pd_partitions d = partitions e) as (d & Hd & Hrest).
  { unfold pending_of. rewrite Ho. destruct (partitions e); [done|].
    destruct (state e); try done; eexists; split; done. }
  exists d. split; [|done]. unfold pending_marker_dispatches. apply list_elem_of_bind.
  exists (slot_for s id). split.
  - rewrite El. apply list_elem_of_omap. exists (id, e). split; [by apply elem_of_map_to_list|done].
  - apply elem_of_seq. pose proof (slot_for_lt s id Hn). lia.
Qed.

(** ** Properties *)

(** C4. No marker is lost: once a partition is added to a transaction, then
    whatever else happens to the store (other transactions, retries, restarts of
    the producer, the reaper, failed writes), until that transaction completes or
    its epoch is exhausted its entry stays in flight and lists the partition; when
    the entry is preparing, the reconcile sweep reports it with that partition,
    and an accepted EndTxn returns it for dispatch. *)
Theorem markers_cover_transaction s id p ep adds now ok s1 s2 t q owns :
  (0 < num_slots s)%nat → add_partitions s id p ep adds now ok = (s1, Ok tt) → covers adds t q →
  run (λ s op, no_exhaustion id s op ∧ not_completing id op) s1 s2 → owned owns id = true →
  ∃ e, entry s2 id = Some e ∧ pid e = p ∧ in_flight e ∧ covers (partitions e) t q ∧
    (is_prepare (state e) = true →
      ∃ d, d ∈ pending_marker_dispatches s2 owns ∧ pd_txn_id d = id ∧ pd_pid d = p ∧
        pd_epoch d = epoch e ∧ covers (pd_partitions d) t q) ∧
    (∀ ep' c ok' s3 out, prepare_end_txn s2 id p ep' c ok' = (s3, Ok out) →
      transition_fired out = true ∧ covers (eo_partitions out) t q).
Proof.
  intros Hn Hadd Hcov Hrun Ho.
  destruct (add_partitions_ok _ _ _ _ _ _ _ _ Hadd) as (Hn1 & e1 & He1 & Hp1 & Hep1 & Hst1 & Hc1).
  destruct (run_kept id _ s1 s2 e1 (λ s op, @proj1 (no_exhaustion id s op) (not_completing id op)) Hrun He1)
    as (Hn2 & e & He & Hp & _ & Hk).
  destruct (Hk (λ s op, @proj2 (no_exhaustion id s op) (not_completing id op)) ltac:(by left)) as [Hf Hc]. specialize (Hc t q (Hc1 t q Hcov)).
  exists e. split; [done|]. split; [congruence|]. split; [done|]. split; [done|]. split.
  - intros Hpr. destruct (pending_listed s2 owns id e) as (d & Hd & ? & ? & ? & Hdp); [lia|done..| |done|].
    { intros Hnil. rewrite Hnil in Hc. by apply covers_nil in Hc. }
    exists d. rewrite Hdp. split; [done|]. split; [done|]. split; [congruence|]. done.
  - intros ep' c ok' s3 out. unfold prepare_end_txn. destruct (str_is_empty id); [done|].
    destruct (validated s2 id p ep') as [[m e']|] eqn:Ev; [|done].
    apply validated_spec in Ev as (_ & He' & _). rewrite He in He'. injection He' as <-.
    unfold in_flight in Hf. destruct (state e); try (by destruct Hf); try (case_decide; by intros [= _ <-]).
    unfold put. destruct (persist_slot _ _ _ _) as [s' [[]|]]; by intros [= _ <-].
Qed.

Definition txn_open : TxnStateStore := open 4.
Definition txn_begun : TxnStateStore := (get_or_allocate_with_timeout txn_open "tx" 1000 7 true).1.
Definition txn_adds : list TxnTopic := [{| tt_topic := "t"; tt_partitions := [0; 3] |}].
Definition txn_added : TxnStateStore := (add_partitions txn_begun "tx" 7 0 txn_adds 100 true).1.
Definition txn_reaped : TxnStateStore := exec txn_added (OpSweep 5000 None (λ _, true)).

Lemma markers_cover_transaction_witness :
  ∃ e, entry txn_reaped "tx" = Some e ∧ is_prepare (state e) = true ∧ covers (partitions e) "t" 3.
Proof.
  destruct (markers_cover_transaction txn_begun "tx" 7 0 txn_adds 100 true txn_added txn_reaped "t" 3 None)
    as (e & He & _ & _ & Hc & _).
  - vm_compute. lia.
  - vm_compute. reflexivity.
  - exists {| tt_topic := "t"; tt_partitions := [0; 3] |}. split; [left|]. split; [done|]. right. left.
  - unfold txn_reaped. apply (run_step _ txn_added (OpSweep 5000 None (λ _, true))); [|apply run_refl].
    split; [|done]. intros e He. vm_compute in He.
    injection He as <-. vm_compute. discriminate.
  - reflexivity.
  - exists e. split; [exact He|]. split; [|exact Hc]. vm_compute in He. injection He as <-. reflexivity.
Defined.

(** A fenced producer stays fenced: after InitProducerId handed out an epoch,
    and whatever happens to the store since short of exhausting the epochs, every
    transactional request of that producer id at an older epoch is refused as
    fenced and changes nothing. *)
Theorem stale_producer_fenced s id t a ok s1 p ep s2 ep' :
  get_or_allocate_with_timeout s id t a ok = (s1, Ok (p, ep)) →
  run (no_exhaustion id) s1 s2 → ep' < ep →
  (∀ adds now ok', add_partitions s2 id p ep' adds now ok' = (s2, Err EpochFenced)) ∧
  (∀ g now ok', str_is_empty g = false → add_offsets_to_txn s2 id p ep' g now ok' = (s2, Err EpochFenced)) ∧
  (∀ c ok', prepare_end_txn s2 id p ep' c ok' = (s2, Err EpochFenced)) ∧
  (∀ c ok', complete_end_txn s2 id p ep' c ok' = (s2, Err EpochFenced)).
Proof.
  intros Halloc Hrun Hlt.
  assert (str_is_empty id = false ∧ ∃ e, entry s1 id = Some e ∧ pid e = p ∧ epoch e = ep)
    as (Hid & e & He & Hp & Hep).
  { unfold get_or_allocate_with_timeout in Halloc. destruct (str_is_empty id); [done|]. split; [done|].
    destruct (load_slot s (slot_for s id)) as [m|] eqn:El; [|done].
    match type of Halloc with put _ _ _ ?x _ _ = _ => set (e := x) in Halloc end.
    destruct (put_entry s m id e ok (pid e, epoch e) El) as (_ & _ & Hok).
    assert (ok = true) as -> by (destruct ok; [done|]; by unfold put, persist_slot in Halloc).
    specialize (Hok eq_refl). rewrite Halloc in Hok. exists e. split; [done|].
    unfold put, persist_slot in Halloc. by injection Halloc as _ <- <-. }
  destruct (run_kept id (no_exhaustion id) s1 s2 e (λ _ _ H, H) Hrun He) as (_ & e2 & He2 & Hp2 & Hep2 & _).
  assert (validated s2 id p ep' = Err EpochFenced) as Hv.
  { unfold validated. unfold entry in He2. destruct (load_slot s2 (slot_for s2 id)) as [m|]; [|done].
    rewrite He2. destruct (Z.eqb_spec (pid e2) p); [|congruence].
    by destruct (Z.eqb_spec (epoch e2) ep'); [lia|]. }
  unfold add_partitions, add_offsets_to_txn, prepare_end_txn, complete_end_txn. rewrite Hid, Hv.
  split; [done|]. split; [by intros g now ok' ->|]. done.
Qed.

Definition txn_rejoined : TxnStateStore := (get_or_allocate_with_timeout txn_added "tx" 0 9 true).1.

Lemma stale_producer_fenced_witness :
  prepare_end_txn txn_rejoined "tx" 7 0 true true = (txn_rejoined, Err EpochFenced).
Proof.
  apply (stale_producer_fenced txn_added "tx" 0 9 true txn_rejoined 7 1 txn_rejoined 0).
  - vm_compute. reflexivity.
  - apply run_refl.
  - lia.
Defined.

(** ** The state diagram *)

(** Lists are held exactly while the transaction is in flight. *)
Definition entry_wf (e : TxnEntry) : Prop :=
  0 ≤ epoch e ≤ i16_max ∧ (in_flight e ∨ partitions e = [] ∧ groups e = []).

Inductive diagram : TxnState → TxnState → Prop :=
| d_begin st : is_prepare st = false → diagram st Ongoing
| d_prepare c : diagram Ongoing (want_prepare c)
| d_complete c : diagram (want_prepare c) (want_complete c).

Lemma change_diagram op id e e' :
  entry_wf e → change op id (Some e) (Some e') →
  entry_wf e' ∧ (state e' = state e ∨ diagram (state e) (state e') ∨ epoch e = i16_max ∧ state e' = Empty).
Proof.
  intros [Hep Hl] Hc. unfold entry_wf, in_flight.
  inversion Hc as [|? ? ? ? ? ? Hx|? ? ? ? ? ? Hx|? ? ? ? ? ? Hx|? ? ? ? ? ? ? Hx|? ? ? ? Hx|? ? ? ? Hx|? ? ? ? ? Hx];
    subst; simpl.
  - split; [unfold i16_max in *; split; [lia|]; by right|auto].
  - split; [split; [lia|exact Hl]|auto].
  - split; [split; [done|]; by left; left|]. right. left. by constructor.
  - split; [split; [done|]; by left; left|]. right. left. by constructor.
  - rewrite Hx. split; [split; [done|]; left; right; by destruct c|]. right. left. constructor.
  - rewrite Hx. split; [split; [done|]; by right|]. right. left. constructor.
  - unfold overdue in Hx. destruct (bool_decide_reflect (state e = Ongoing)) as [->|]; [|done].
    split; [|right; left; apply (d_prepare false)].
    split; [destruct (Z.eqb_spec (epoch e) i16_max); unfold i16_max in *; lia|]. by left; right.
Qed.

Lemma exec_wf s op :
  (∀ id e, entry s id = Some e → entry_wf e) → ∀ id e, entry (exec s op) id = Some e → entry_wf e.
Proof.
  intros Hwf id e' He'. destruct (exec_change s op id) as [_ [Heq|Hc]].
  - rewrite Heq in He'. by apply Hwf in He'.
  - destruct (entry s id) as [e|] eqn:Ee; rewrite He' in Hc.
    + by apply (change_diagram op id e e' (Hwf id e Ee)) in Hc as [? _].
    + inversion Hc; subst. unfold entry_wf, i16_max. simpl. split; [lia|by right].
Qed.

(** C15. The transaction state machine: in every store the operations can build
    from an empty one, an entry holds partition and group lists only while it is
    in flight and its epoch fits 16 bits; and one more operation leaves every
    entry in place and either keeps its state, follows the diagram (begin,
    prepare, complete with the same verdict), or restarts an entry whose epochs
    are exhausted. *)
Theorem txn_state_machine n ops op id e :
  entry (foldl exec (open n) ops) id = Some e →
  entry_wf e ∧
  ∃ e', entry (exec (foldl exec (open n) ops) op) id = Some e' ∧ entry_wf e' ∧
    (state e' = state e ∨ diagram (state e) (state e') ∨ epoch e = i16_max ∧ state e' = Empty).
Proof.
  intros He. set (s := foldl exec (open n) ops) in *.
  assert (∀ id e, entry s id = Some e → entry_wf e) as Hwf.
  { unfold s. clear. induction ops as [|op ops IH] using rev_ind; [done|].
    rewrite foldl_app. simpl. by apply exec_wf. }
  specialize (Hwf id e He) as Hwfe. split; [done|].
  destruct (exec_change s op id) as [_ [->|Hc]]; [exists e; auto|].
  rewrite He in Hc. assert (∃ e', entry (exec s op) id = Some e') as [e' He'] by (inversion Hc; eauto).
  rewrite He' in Hc |- *. exists e'. split; [done|]. by eapply change_diagram.
Qed.

Lemma txn_state_machine_witness :
  ∃ e', entry (exec txn_added (OpPrepare "tx" 7 0 true true)) "tx" = Some e' ∧ entry_wf e'.
Proof.
  destruct (txn_state_machine 4 [OpAlloc "tx" 1000 7 true; OpAddPartitions "tx" 7 0 txn_adds 100 true]
    (OpPrepare "tx" 7 0 true true) "tx"
    {| pid := 7; epoch := 0; partitions := txn_adds; ongoing_since_ms := 100;
       transaction_timeout_ms := 1000; state := Ongoing; groups := [] |}) as (_ & e' & He' & Hwf & _).
  - vm_compute. reflexivity.
  - exists e'. split; [exact He'|exact Hwf].
Defined.
