(* ===== verification/Group.v ===== *)
(** * The consumer-group state machine ([kaas-coordinator/src/group.rs])

    Every public method runs under the group's mutex, so each is a function on
    the group's state.  A parked JoinGroup or SyncGroup is a ticket: the caller's
    end of a one-shot channel.  What is sent on the channels goes to [outbox],
    newest first; an unsent ticket is a request that is still parked.

    A sync round is a shared object (the parked followers keep a reference to it
    while the group moves on to other rounds): rounds live in the store [rounds]
    and [current_sync] is an index into it.

    Timers are events: [rebalance_fires] and [session_fires] may happen at any
    time, which covers every schedule, also that of a timer that was aborted while
    it waited for the mutex.  [now] is the clock; the budget of an armed rebalance
    timer is kept in [rebalance_timer]. *)

From stdpp Require Import base gmap strings list.
From Stdlib Require Import Strings.Byte.
From S2P Require Import Prelude.

Local Open Scope Z_scope.

Definition INITIAL_REBALANCE_DELAY_MS : Z := 3000.
Definition DEFAULT_REBALANCE_TIMEOUT_MS : Z := 30000.
Definition NONE : Z := 0.
Definition UNKNOWN_MEMBER_ID : Z := 25.
Definition REBALANCE_IN_PROGRESS : Z := 27.
Definition ILLEGAL_GENERATION : Z := 22.

Inductive GroupState := Empty | PreparingRebalance | CompletingRebalance | Stable | Dead.
#[global] Instance GroupState_eq_dec : EqDecision GroupState.
Proof. solve_decision. Defined.

Record ProtocolMetadata := { pm_name : string; metadata : list byte }.

Record GroupMember := {
  gm_id : string; client_id : string; client_host : string; group_instance_id : option string;
  session_timeout_ms : Z; rebalance_timeout_ms : Z; protocols : list ProtocolMetadata;
  gm_assignment : list byte }.

Record SyncRound := {
  assignments : gmap string (list byte); delivered : bool; canceled : bool; waiters : list nat }.

Record JoinedMember := { jm_member_id : string; jm_instance_id : option string; jm_metadata : list byte }.

Record JoinOutcome := {
  jo_error : Z; jo_generation : Z; jo_leader : string; jo_member_id : string;
  jo_protocol_type : string; jo_protocol_name : string; jo_members : list JoinedMember }.

Record JoinRequest := {
  jr_member_id : string; jr_instance_id : option string; jr_session_timeout_ms : Z;
  jr_rebalance_timeout_ms : Z; jr_protocol_type : string; jr_protocols : list ProtocolMetadata;
  jr_client_id : string; jr_client_host : string }.

Record SyncRequest := {
  sr_member_id : string; sr_generation_id : Z; sr_assignments : list (string * list byte) }.

Record SyncOutcome := {
  so_error : Z; so_protocol_type : string; so_protocol_name : string; so_assignment : list byte }.

Inductive Msg := JoinReply (ticket : nat) (o : JoinOutcome) | SyncWake (ticket : nat).

Record Group := {
  g_id : string; state : GroupState; generation_id : Z; protocol_type : string; protocol_name : string;
  leader_id : string; members : gmap string GroupMember; join_waiters : list (string * nat);
  current_sync : option nat; rebalance_timer : option Z; initial_rebalance : bool;
  initial_rebalance_deadline : option Z; rounds : list SyncRound; outbox : list Msg }.

Definition Group_new (id : string) : Group :=
  {| g_id := id; state := Empty; generation_id := 0; protocol_type := ""; protocol_name := "";
     leader_id := ""; members := ∅; join_waiters := []; current_sync := None; rebalance_timer := None;
     initial_rebalance := true; initial_rebalance_deadline := None; rounds := []; outbox := [] |}.

(** ** Field updates *)

Definition with_state (g : Group) (st : GroupState) : Group :=
  {| g_id := g_id g; state := st; generation_id := generation_id g; protocol_type := protocol_type g;
     protocol_name := protocol_name g; leader_id := leader_id g; members := members g;
     join_waiters := join_waiters g; current_sync := current_sync g; rebalance_timer := rebalance_timer g;
     initial_rebalance := initial_rebalance g; initial_rebalance_deadline := initial_rebalance_deadline g;
     rounds := rounds g; outbox := outbox g |}.

Definition with_members (g : Group) (ms : gmap string GroupMember) (ptype : string) : Group :=
  {| g_id := g_id g; state := state g; generation_id := generation_id g; protocol_type := ptype;
     protocol_name := protocol_name g; leader_id := leader_id g; members := ms;
     join_waiters := join_waiters g; current_sync := current_sync g; rebalance_timer := rebalance_timer g;
     initial_rebalance := initial_rebalance g; initial_rebalance_deadline := initial_rebalance_deadline g;
     rounds := rounds g; outbox := outbox g |}.

Definition with_waiters (g : Group) (ws : list (string * nat)) (out : list Msg) : Group :=
  {| g_id := g_id g; state := state g; generation_id := generation_id g; protocol_type := protocol_type g;
     protocol_name := protocol_name g; leader_id := leader_id g; members := members g;
     join_waiters := ws; current_sync := current_sync g; rebalance_timer := rebalance_timer g;
     initial_rebalance := initial_rebalance g; initial_rebalance_deadline := initial_rebalance_deadline g;
     rounds := rounds g; outbox := out |}.

Definition with_timer (g : Group) (t deadline : option Z) : Group :=
  {| g_id := g_id g; state := state g; generation_id := generation_id g; protocol_type := protocol_type g;
     protocol_name := protocol_name g; leader_id := leader_id g; members := members g;
     join_waiters := join_waiters g; current_sync := current_sync g; rebalance_timer := t;
     initial_rebalance := initial_rebalance g; initial_rebalance_deadline := deadline;
     rounds := rounds g; outbox := outbox g |}.

Definition with_sync (g : Group) (cur : option nat) (rs : list SyncRound) (out : list Msg) : Group :=
  {| g_id := g_id g; state := state g; generation_id := generation_id g; protocol_type := protocol_type g;
     protocol_name := protocol_name g; leader_id := leader_id g; members := members g;
     join_waiters := join_waiters g; current_sync := cur; rebalance_timer := rebalance_timer g;
     initial_rebalance := initial_rebalance g; initial_rebalance_deadline := initial_rebalance_deadline g;
     rounds := rs; outbox := out |}.

(** ** Helpers *)

Definition max_rebalance_timeout (g : Group) : Z :=
  let max := foldr (λ m acc, Z.max (rebalance_timeout_ms m) acc) 0 (snd <$> map_to_list (members g)) in
  if max <=? 0 then DEFAULT_REBALANCE_TIMEOUT_MS else max.

Definition start_rebalance_timer (g : Group) (initial : bool) (now : Z) : Group :=
  let budget := max_rebalance_timeout g in
  let budget := if initial && (INITIAL_REBALANCE_DELAY_MS <? budget) then INITIAL_REBALANCE_DELAY_MS else budget in
  let budget :=
    match initial, initial_rebalance_deadline g with
    | true, Some deadline =>
      let remaining := Z.min i32_max (Z.max 0 (deadline - now)) in
      if remaining <? budget then remaining else budget
    | _, _ => budget
    end in
  with_timer g (Some (Z.max 0 budget)) (initial_rebalance_deadline g).

Definition abort_timer (g : Group) : Group := with_timer g None (initial_rebalance_deadline g).

Definition lookup_round (g : Group) (i : nat) : option SyncRound := rounds g !! i.

(** Wakes everybody parked on a round: the newest message first. *)
Definition wake (ws : list nat) (out : list Msg) : list Msg := foldl (λ out w, SyncWake w :: out) out ws.

Definition cancel_sync (g : Group) (i : nat) : Group :=
  match lookup_round g i with
  | None => g
  | Some r =>
    if delivered r || canceled r then g
    else with_sync g (current_sync g)
           (<[i := {| assignments := assignments r; delivered := false; canceled := true; waiters := [] |}]> (rounds g))
           (wake (waiters r) (outbox g))
  end.

(** [current_sync.take()] and the cancellation. *)
Definition take_and_cancel (g : Group) : Group :=
  match current_sync g with
  | None => g
  | Some i => let g' := cancel_sync g i in with_sync g' None (rounds g') (outbox g')
  end.

Definition has_protocol (m : GroupMember) (n : string) : bool :=
  existsb (λ p, bool_decide (pm_name p = n)) (protocols m).

Definition supported (ms : gmap string GroupMember) (ws : list (string * nat)) (n : string) : bool :=
  forallb (λ w, match ms !! w.1 with Some m => has_protocol m n | None => false end) ws.

Definition select_protocol (ms : gmap string GroupMember) (ws : list (string * nat)) : option string :=
  match ws with
  | [] => None
  | first :: rest =>
    match ms !! first.1 with
    | None => None
    | Some leader => pm_name <$> find (λ p, supported ms rest (pm_name p)) (protocols leader)
    end
  end.

Definition unknown_member (mid : string) : JoinOutcome :=
  {| jo_error := UNKNOWN_MEMBER_ID; jo_generation := 0; jo_leader := ""; jo_member_id := mid;
     jo_protocol_type := ""; jo_protocol_name := ""; jo_members := [] |}.

(** The leader's view of one waiter. *)
Definition joined_member (ms : gmap string GroupMember) (pname : string) (w : string * nat) : JoinedMember :=
  let m := ms !! w.1 in
  {| jm_member_id := w.1;
     jm_instance_id := m ≫= group_instance_id;
     jm_metadata := default [] (m ≫= λ m, metadata <$> find (λ p, bool_decide (pm_name p = pname)) (protocols m)) |}.

(** The outcome sent to one waiter; only the leader sees the member list. *)
Definition join_outcome (ptype pname leader : string) (gen : Z) (payload : list JoinedMember)
    (w : string * nat) : JoinOutcome :=
  {| jo_error := NONE; jo_generation := gen; jo_leader := leader; jo_member_id := w.1;
     jo_protocol_type := ptype; jo_protocol_name := pname;
     jo_members := if decide (w.1 = leader) then payload else [] |}.

Definition complete_rebalance (g : Group) : Group :=
  let ws := join_waiters g in
  let gen := wrapping_add32 (generation_id g) 1 in
  let pname := default "" (select_protocol (members g) ws) in
  let leader := match ws with w :: _ => w.1 | [] => leader_id g end in
  let payload := joined_member (members g) pname <$> ws in
  let reply w := JoinReply w.2 (join_outcome (protocol_type g) pname leader gen payload w) in
  {| g_id := g_id g; state := CompletingRebalance; generation_id := gen;
     protocol_type := protocol_type g; protocol_name := pname; leader_id := leader;
     members := members g; join_waiters := []; current_sync := Some (length (rounds g));
     rebalance_timer := None; initial_rebalance := false; initial_rebalance_deadline := None;
     rounds := rounds g ++ [{| assignments := ∅; delivered := false; canceled := false; waiters := [] |}];
     outbox := foldl (λ out w, reply w :: out) (outbox g) ws |}.

Definition maybe_complete_rebalance (g : Group) : Group :=
  if initial_rebalance g then g
  else if decide (state g = PreparingRebalance) then
    if (size (members g) <=? length (join_waiters g))%nat then complete_rebalance g else g
  else g.

(** Splits off the first waiter of a member. *)
Fixpoint take_waiter (mid : string) (ws : list (string * nat)) : option nat * list (string * nat) :=
  match ws with
  | [] => (None, [])
  | w :: ws' =>
    if decide (w.1 = mid) then (Some w.2, ws')
    else let '(t, rest) := take_waiter mid ws' in (t, w :: rest)
  end.

Definition remove_member (g : Group) (mid : string) : Group :=
  let g := with_members g (delete mid (members g)) (protocol_type g) in
  match take_waiter mid (join_waiters g) with
  | (Some t, ws) => with_waiters g ws (JoinReply t (unknown_member mid) :: outbox g)
  | (None, _) => g
  end.

Definition evict_non_rejoining_members (g : Group) : Group :=
  if (size (members g) =? length (join_waiters g))%nat then g
  else
    let rejoined := fst <$> join_waiters g in
    let stale := fst <$> filter (λ '(mid, m), mid ∉ rejoined ∧ group_instance_id m = None)
                    (map_to_list (members g)) in
    foldl remove_member g stale.

(** After members left: an empty group, or a new rebalance from [Stable]. *)
Definition after_removal (g : Group) (now : Z) : Group :=
  if decide (size (members g) = 0%nat) then abort_timer (with_state g Empty)
  else if decide (state g = Stable) then start_rebalance_timer (with_state g PreparingRebalance) false now
  else g.

(** ** Requests and timers *)

(** [fresh] is the generated id for an anonymous member; the result is the
    immediate reply, [None] when the request parks on [ticket]. *)
Definition join (g : Group) (req : JoinRequest) (fresh : string) (ticket : nat) (now : Z) :
    Group * option JoinOutcome :=
  let mid := if str_is_empty (jr_member_id req) then fresh else jr_member_id req in
  let is_new := bool_decide (members g !! mid = None) in
  let old := members g !! mid in
  let m :=
    {| gm_id := match old with Some m => gm_id m | None => mid end;
       client_id := match old with Some m => client_id m | None => jr_client_id req end;
       client_host := match old with Some m => client_host m | None => jr_client_host req end;
       group_instance_id := jr_instance_id req; session_timeout_ms := jr_session_timeout_ms req;
       rebalance_timeout_ms := jr_rebalance_timeout_ms req; protocols := jr_protocols req;
       gm_assignment := match old with Some m => gm_assignment m | None => [] end |} in
  let g := with_members g (<[mid := m]> (members g))
             (if str_is_empty (jr_protocol_type req) then protocol_type g else jr_protocol_type req) in
  let park g := (maybe_complete_rebalance (with_waiters g (join_waiters g ++ [(mid, ticket)]) (outbox g)), None) in
  match state g with
  | Empty =>
    let g := with_state g PreparingRebalance in
    park (start_rebalance_timer (with_timer g (rebalance_timer g) (Some (now + max_rebalance_timeout g))) true now)
  | Stable | CompletingRebalance =>
    park (take_and_cancel (start_rebalance_timer (with_state g PreparingRebalance) false now))
  | PreparingRebalance =>
    park (if initial_rebalance g && is_new then start_rebalance_timer g true now else g)
  | Dead => (g, Some (unknown_member mid))
  end.

(** A SyncGroup that has joined a round: what it needs to answer. *)
Record PendingSync := {
  ps_round : nat; ps_member : string; ps_protocol_type : string; ps_protocol_name : string }.

Definition sync_error (code : Z) : SyncOutcome :=
  {| so_error := code; so_protocol_type := ""; so_protocol_name := ""; so_assignment := [] |}.

(** The leader's part: store the assignments, an empty one for the members it
    omitted, and wake the followers. *)
Definition publish (g : Group) (i : nat) (r : SyncRound) (given : list (string * list byte)) : Group :=
  let stored := foldl (λ m a, <[a.1 := a.2]> m) (assignments r) given in
  let filled := foldl (λ m mid, match m !! mid with Some _ => m | None => <[mid := []]> m end)
                  stored (fst <$> map_to_list (members g)) in
  with_state
    (with_sync g (current_sync g)
      (<[i := {| assignments := filled; delivered := true; canceled := canceled r; waiters := [] |}]> (rounds g))
      (wake (waiters r) (outbox g)))
    Stable.

(** Resolves at once on a finished round, parks otherwise. *)
Definition register (g : Group) (i ticket : nat) : Group :=
  match lookup_round g i with
  | None => g
  | Some r =>
    if delivered r || canceled r then with_sync g (current_sync g) (rounds g) (SyncWake ticket :: outbox g)
    else with_sync g (current_sync g)
           (<[i := {| assignments := assignments r; delivered := delivered r; canceled := canceled r;
                      waiters := waiters r ++ [ticket] |}]> (rounds g)) (outbox g)
  end.

Definition sync (g : Group) (req : SyncRequest) (ticket : nat) : Group * (SyncOutcome + PendingSync) :=
  if bool_decide (members g !! sr_member_id req = None) then (g, inl (sync_error UNKNOWN_MEMBER_ID))
  else if negb (sr_generation_id req =? generation_id g) then (g, inl (sync_error ILLEGAL_GENERATION))
  else if negb (bool_decide (state g = CompletingRebalance ∨ state g = Stable))
  then (g, inl (sync_error REBALANCE_IN_PROGRESS))
  else
    match current_sync g with
    | None => (g, inl (sync_error REBALANCE_IN_PROGRESS))
    | Some i =>
      let g1 :=
        match lookup_round g i with
        | Some r => if decide (sr_member_id req = leader_id g) then publish g i r (sr_assignments req) else g
        | None => g
        end in
      (register g1 i ticket,
       inr {| ps_round := i; ps_member := sr_member_id req; ps_protocol_type := protocol_type g;
              ps_protocol_name := protocol_name g |})
    end.

(** What a woken SyncGroup answers. *)
Definition sync_resume (g : Group) (p : PendingSync) : SyncOutcome :=
  match lookup_round g (ps_round p) with
  | None => sync_error REBALANCE_IN_PROGRESS
  | Some r =>
    if canceled r then sync_error REBALANCE_IN_PROGRESS
    else {| so_error := NONE; so_protocol_type := ps_protocol_type p; so_protocol_name := ps_protocol_name p;
            so_assignment := default [] (assignments r !! ps_member p) |}
  end.

Definition heartbeat (g : Group) (mid : string) (gen : Z) : Z :=
  match state g with
  | Empty | Dead => UNKNOWN_MEMBER_ID
  | st =>
    if bool_decide (members g !! mid = None) then UNKNOWN_MEMBER_ID
    else if negb (gen =? generation_id g) then ILLEGAL_GENERATION
    else match st with PreparingRebalance | CompletingRebalance => REBALANCE_IN_PROGRESS | _ => NONE end
  end.

Fixpoint leave_loop (g : Group) (mids : list string) : Group * list (string * Z) :=
  match mids with
  | [] => (g, [])
  | mid :: mids' =>
    if bool_decide (members g !! mid = None) then
      let '(g', out) := leave_loop g mids' in (g', (mid, UNKNOWN_MEMBER_ID) :: out)
    else
      let '(g', out) := leave_loop (remove_member g mid) mids' in (g', (mid, NONE) :: out)
  end.

Definition leave (g : Group) (mids : list string) (now : Z) : Group * list (string * Z) :=
  let '(g', out) := leave_loop g mids in (after_removal g' now, out).

Definition shutdown (g : Group) : Group :=
  let g := foldl remove_member g (fst <$> map_to_list (members g)) in
  let g := take_and_cancel (abort_timer g) in
  with_members (with_state g Dead) ∅ (protocol_type g).

(** The rebalance timer's task. *)
Definition rebalance_fires (g : Group) : Group :=
  if decide (state g = PreparingRebalance ∧ join_waiters g ≠ [])
  then complete_rebalance (evict_non_rejoining_members g) else g.

(** A member's session timer. *)
Definition session_fires (g : Group) (mid : string) (now : Z) : Group :=
  if bool_decide (members g !! mid = None) then g else after_removal (remove_member g mid) now.

(** ** Runs *)

Inductive Event :=
| EJoin (req : JoinRequest) (fresh : string) (ticket : nat) (now : Z)
| ESync (req : SyncRequest) (ticket : nat)
| ELeave (mids : list string) (now : Z)
| EShutdown
| ERebalance
| ESession (mid : string) (now : Z).

Definition exec (g : Group) (e : Event) : Group :=
  match e with
  | EJoin req fresh ticket now => (join g req fresh ticket now).1
  | ESync req ticket => (sync g req ticket).1
  | ELeave mids now => (leave g mids now).1
  | EShutdown => shutdown g
  | ERebalance => rebalance_fires g
  | ESession mid now => session_fires g mid now
  end.

(** ** Sync rounds only move forward *)

Record rounds_ok (rs : list SyncRound) : Prop := {
  ro_done : ∀ i r, rs !! i = Some r → delivered r = true ∨ canceled r = true → waiters r = [];
  ro_once : ∀ i r, rs !! i = Some r → delivered r = true → canceled r = false }.

(** [rs'] extends [rs]: finished rounds keep their verdict. *)
Definition rounds_le (rs rs' : list SyncRound) : Prop :=
  ∀ i r, rs !! i = Some r → ∃ r', rs' !! i = Some r' ∧
    (delivered r = true → delivered r' = true ∧ canceled r' = canceled r) ∧
    (canceled r = true → canceled r' = true).

Lemma rounds_le_refl rs : rounds_le rs rs.
Proof. intros i r Hr. by exists r. Qed.

Lemma rounds_le_trans a b c : rounds_le a b → rounds_le b c → rounds_le a c.
Proof.
  intros H1 H2 i r Hr. destruct (H1 i r Hr) as (r1 & Hr1 & Hd1 & Hc1).
  destruct (H2 i r1 Hr1) as (r2 & Hr2 & Hd2 & Hc2). exists r2. split; [done|]. split; [|by auto].
  intros Hd. destruct (Hd1 Hd) as [Hd' Hc']. destruct (Hd2 Hd') as [? Hc'']. split; [done|congruence].
Qed.

Lemma rounds_update rs i r r' :
  rounds_ok rs → rs !! i = Some r →
  (delivered r' = true ∨ canceled r' = true → waiters r' = []) →
  (delivered r' = true → canceled r' = false) →
  (delivered r = true → delivered r' = true ∧ canceled r' = canceled r) →
  (canceled r = true → canceled r' = true) →
  rounds_ok (<[i := r']> rs) ∧ rounds_le rs (<[i := r']> rs).
Proof.
  intros [Hd Ho] Hr H1 H2 H3 H4.
  assert (∀ j x, <[i := r']> rs !! j = Some x → j = i ∧ x = r' ∨ rs !! j = Some x) as Hl.
  { intros j x Hx. destruct (decide (j = i)) as [->|Hne].
    - rewrite list_lookup_insert_eq in Hx by (by apply lookup_lt_Some in Hr). left. by injection Hx as <-.
    - rewrite list_lookup_insert_ne in Hx by done. by right. }
  split; [split|].
  - intros j x [[-> ->]|Hx]%Hl; eauto.
  - intros j x [[-> ->]|Hx]%Hl; eauto.
  - intros j x Hx. destruct (decide (j = i)) as [->|Hne].
    + exists r'. rewrite list_lookup_insert_eq by (by apply lookup_lt_Some in Hr).
      rewrite Hr in Hx. injection Hx as <-. auto.
    + exists x. by rewrite list_lookup_insert_ne.
Qed.

Lemma rounds_app rs r :
  rounds_ok rs → waiters r = [] → delivered r = false →
  rounds_ok (rs ++ [r]) ∧ rounds_le rs (rs ++ [r]).
Proof.
  intros [Hd Ho] Hw Hn.
  assert (∀ j x, (rs ++ [r]) !! j = Some x → rs !! j = Some x ∨ x = r) as Hl.
  { intros j x. rewrite lookup_app. destruct (rs !! j); [by left|].
    intros Hx. right. apply list_elem_of_lookup_2, list_elem_of_singleton in Hx. done. }
  split; [split|].
  - intros j x [Hx| ->]%Hl; eauto.
  - intros j x [Hx| ->]%Hl; [by eauto|congruence].
  - intros j x Hx. exists x. rewrite lookup_app_l by (by apply lookup_lt_Some in Hx). done.
Qed.

(** What a locked helper does to the sync side of the group. *)
Record same_sync (g g' : Group) : Prop := {
  ss_cur : current_sync g' = current_sync g;
  ss_rounds : rounds g' = rounds g;
  ss_gen : generation_id g' = generation_id g }.

Lemma same_sync_trans a b c : same_sync a b → same_sync b c → same_sync a c.
Proof. intros [] []. split; congruence. Qed.

Lemma remove_member_sync g mid :
  same_sync g (remove_member g mid) ∧ state (remove_member g mid) = state g ∧
  initial_rebalance (remove_member g mid) = initial_rebalance g.
Proof. unfold remove_member. destruct (take_waiter _ _) as [[t|] ws]; by split. Qed.

Lemma remove_members_sync g mids :
  same_sync g (foldl remove_member g mids) ∧ state (foldl remove_member g mids) = state g.
Proof.
  revert g. induction mids as [|m mids IH]; intros g; simpl; [by split|].
  destruct (remove_member_sync g m) as (H1 & H2 & _). destruct (IH (remove_member g m)) as [H3 H4].
  split; [by eapply same_sync_trans|congruence].
Qed.

Lemma leave_loop_sync g mids :
  same_sync g (leave_loop g mids).1 ∧ state (leave_loop g mids).1 = state g.
Proof.
  revert g. induction mids as [|m mids IH]; intros g; simpl; [by split|].
  case_bool_decide.
  - specialize (IH g). by destruct (leave_loop g mids).
  - destruct (remove_member_sync g m) as (H1 & H2 & _). destruct (IH (remove_member g m)) as [H3 H4].
    destruct (leave_loop (remove_member g m) mids). simpl in *.
    split; [by eapply same_sync_trans|congruence].
Qed.

Lemma after_removal_sync g now :
  same_sync g (after_removal g now) ∧
  (state (after_removal g now) = Empty ∨ state (after_removal g now) = PreparingRebalance ∨
   state (after_removal g now) = state g ∧ state g ≠ Stable).
Proof. unfold after_removal. repeat case_decide; (split; [done|]); simpl; auto. Qed.

(** ** The round invariant *)

Record sync_inv (g : Group) : Prop := {
  si_rounds : rounds_ok (rounds g);
  si_completing : state g = CompletingRebalance → ∃ i r, current_sync g = Some i ∧
    rounds g !! i = Some r ∧ delivered r = false ∧ canceled r = false;
  si_stable : state g = Stable → ∃ i r, current_sync g = Some i ∧
    rounds g !! i = Some r ∧ delivered r = true ∧ canceled r = false }.

Lemma sync_inv_same g g' :
  sync_inv g → same_sync g g' → state g' = state g ∨ (state g' ≠ CompletingRebalance ∧ state g' ≠ Stable) →
  sync_inv g'.
Proof.
  intros [H1 H2 H3] [Hc Hr _] [Hs|[Hs1 Hs2]]; split; rewrite ?Hr, ?Hc, ?Hs; try done;
    intros H; by destruct (Hs1 H) || destruct (Hs2 H).
Qed.

Lemma cancel_inv g :
  sync_inv g → state g = PreparingRebalance ∨ state g = Dead ∨ state g = Empty →
  sync_inv (take_and_cancel g) ∧ rounds_le (rounds g) (rounds (take_and_cancel g)).
Proof.
  intros Hi Hst. pose proof Hi as [H1 H2 H3]. unfold take_and_cancel.
  destruct (current_sync g) as [i|] eqn:Ecur; [|split; [exact Hi|apply rounds_le_refl]].
  unfold cancel_sync, lookup_round. destruct (rounds g !! i) as [r|] eqn:Er.
  2: { split; [split; simpl; [done|..]; intros H; rewrite H in Hst; naive_solver|apply rounds_le_refl]. }
  destruct (delivered r || canceled r) eqn:Ed.
  { split; [split; simpl; [done|..]; intros H; rewrite H in Hst; naive_solver|apply rounds_le_refl]. }
  apply orb_false_iff in Ed as [Ed Ec]. simpl.
  match goal with |- context [<[i := ?x]> _] => destruct (rounds_update (rounds g) i r x) as [Ho Hle] end;
    [done|done|done|done|simpl; congruence|done|].
  split; [|done]. split; simpl; [done|..]; intros H; rewrite H in Hst; naive_solver.
Qed.

Lemma complete_inv g :
  rounds_ok (rounds g) → sync_inv (complete_rebalance g) ∧
  rounds_le (rounds g) (rounds (complete_rebalance g)).
Proof.
  intros Ho. unfold complete_rebalance. simpl.
  destruct (rounds_app (rounds g) {| assignments := ∅; delivered := false; canceled := false; waiters := [] |}
    Ho eq_refl eq_refl) as [Ho' Hle].
  split; [|done]. split; simpl; [done| |done]. intros _.
  eexists (length (rounds g)), _. split; [done|]. rewrite lookup_app_r by lia.
  by rewrite Nat.sub_diag.
Qed.

Lemma maybe_complete_inv g :
  sync_inv g → sync_inv (maybe_complete_rebalance g) ∧
  rounds_le (rounds g) (rounds (maybe_complete_rebalance g)).
Proof.
  intros Hi. unfold maybe_complete_rebalance.
  destruct (initial_rebalance g); [by split; [|apply rounds_le_refl]|].
  case_decide; [|by split; [|apply rounds_le_refl]].
  case_match; [|by split; [|apply rounds_le_refl]]. apply complete_inv, Hi.
Qed.

Lemma park_inv g ws :
  sync_inv g → sync_inv (maybe_complete_rebalance (with_waiters g ws (outbox g))) ∧
  rounds_le (rounds g) (rounds (maybe_complete_rebalance (with_waiters g ws (outbox g)))).
Proof.
  intros Hi. apply (maybe_complete_inv (with_waiters g ws (outbox g))).
  eapply sync_inv_same; [exact Hi|done|by left].
Qed.

Lemma join_inv g req fresh ticket now :
  sync_inv g → sync_inv (join g req fresh ticket now).1 ∧
  rounds_le (rounds g) (rounds (join g req fresh ticket now).1).
Proof.
  intros Hi. unfold join. set (g1 := with_members g _ _).
  assert (sync_inv g1) as Hi1 by (eapply sync_inv_same; [exact Hi|done|by left]).
  change (rounds g) with (rounds g1).
  destruct (state g1) eqn:Es; cbn [fst].
  - match goal with |- context [with_waiters ?x _ _] => assert (sync_inv x) as Hx end.
    { eapply sync_inv_same; [exact Hi1|done|by right]. }
    exact (park_inv _ _ Hx).
  - match goal with |- context [with_waiters ?x _ _] => assert (sync_inv x ∧ rounds x = rounds g1) as [Hx Hr] end.
    { destruct (initial_rebalance g1 && _); [|done]. split; [|done].
      eapply sync_inv_same; [exact Hi1|done|by left]. }
    rewrite <- Hr. exact (park_inv _ _ Hx).
  - destruct (cancel_inv (start_rebalance_timer (with_state g1 PreparingRebalance) false now)) as [Hc Hle];
      [eapply sync_inv_same; [exact Hi1|done|by right]|by left|].
    destruct (park_inv _ (join_waiters (take_and_cancel (start_rebalance_timer (with_state g1 PreparingRebalance) false now))
      ++ [(if str_is_empty (jr_member_id req) then fresh else jr_member_id req, ticket)]) Hc) as [Hp Hple].
    split; [exact Hp|]. eapply rounds_le_trans; [exact Hle|exact Hple].
  - destruct (cancel_inv (start_rebalance_timer (with_state g1 PreparingRebalance) false now)) as [Hc Hle];
      [eapply sync_inv_same; [exact Hi1|done|by right]|by left|].
    destruct (park_inv _ (join_waiters (take_and_cancel (start_rebalance_timer (with_state g1 PreparingRebalance) false now))
      ++ [(if str_is_empty (jr_member_id req) then fresh else jr_member_id req, ticket)]) Hc) as [Hp Hple].
    split; [exact Hp|]. eapply rounds_le_trans; [exact Hle|exact Hple].
  - split; [done|apply rounds_le_refl].
Qed.

Lemma publish_inv g i r given :
  sync_inv g → current_sync g = Some i → rounds g !! i = Some r → canceled r = false →
  sync_inv (publish g i r given) ∧ rounds_le (rounds g) (rounds (publish g i r given)).
Proof.
  intros [H1 _ _] Hc Hr Hn. unfold publish. simpl.
  match goal with |- context [<[i := ?x]> _] => set (r' := x) end.
  destruct (rounds_update (rounds g) i r r') as [Ho Hle]; [done..|simpl; congruence|].
  split; [|done]. split; simpl; [done|done|]. intros _. exists i, r'. split; [done|].
  rewrite list_lookup_insert_eq by (by apply lookup_lt_Some in Hr). done.
Qed.

Lemma register_inv g i t :
  sync_inv g → sync_inv (register g i t) ∧ rounds_le (rounds g) (rounds (register g i t)).
Proof.
  intros Hi. pose proof Hi as [H1 H2 H3]. unfold register, lookup_round.
  destruct (rounds g !! i) as [r|] eqn:Er; [|split; [exact Hi|apply rounds_le_refl]].
  destruct (delivered r || canceled r) eqn:Ed; simpl.
  { split; [split; done|apply rounds_le_refl]. }
  apply orb_false_iff in Ed as [Ed Ec].
  match goal with |- context [<[i := ?x]> _] => set (r' := x) end.
  destruct (rounds_update (rounds g) i r r') as [Ho Hle]; [done|done|simpl; naive_solver congruence
    |simpl; congruence|simpl; congruence|simpl; congruence|].
  split; [|done].
  assert (∀ j x, rounds g !! j = Some x → ∃ y, <[i := r']> (rounds g) !! j = Some y ∧
    delivered y = delivered x ∧ canceled y = canceled x) as Hsame.
  { intros j x Hx. destruct (decide (j = i)) as [->|Hne].
    - exists r'. rewrite list_lookup_insert_eq by (by apply lookup_lt_Some in Er).
      rewrite Er in Hx. by injection Hx as <-.
    - exists x. by rewrite list_lookup_insert_ne. }
  split; simpl; [done|..]; intros Hs;
    [destruct (H2 Hs) as (j & x & Hj & Hx & Hd & Hcn)|destruct (H3 Hs) as (j & x & Hj & Hx & Hd & Hcn)];
    destruct (Hsame j x Hx) as (y & Hy & Hyd & Hyc); exists j, y; split_and!; congruence.
Qed.

Lemma sync_event_inv g req t :
  sync_inv g → sync_inv (sync g req t).1 ∧ rounds_le (rounds g) (rounds (sync g req t).1) ∧
  generation_id (sync g req t).1 = generation_id g.
Proof.
  intros Hi. unfold sync.
  case_bool_decide; [split; [exact Hi|]; split; [apply rounds_le_refl|done]|].
  destruct (negb (_ =? _)); [split; [exact Hi|]; split; [apply rounds_le_refl|done]|].
  case_bool_decide as Hst; simpl; [|split; [exact Hi|]; split; [apply rounds_le_refl|done]].
  destruct (current_sync g) as [i|] eqn:Ec; simpl; [|split; [exact Hi|]; split; [apply rounds_le_refl|done]].
  assert (∃ r, rounds g !! i = Some r ∧ canceled r = false) as (r & Hr & Hn).
  { destruct Hst as [Hs|Hs]; [destruct (si_completing g Hi Hs) as (j & x & Hj & Hx & _ & Hcn)
      |destruct (si_stable g Hi Hs) as (j & x & Hj & Hx & _ & Hcn)]; exists x; split; congruence. }
  unfold lookup_round. rewrite Hr. set (g1 := if decide _ then _ else _).
  assert (sync_inv g1 ∧ rounds_le (rounds g) (rounds g1) ∧ generation_id g1 = generation_id g) as (I1 & L1 & G1).
  { unfold g1. case_decide; [|split; [exact Hi|]; split; [apply rounds_le_refl|done]].
    destruct (publish_inv g i r (sr_assignments req) Hi Ec Hr Hn). done. }
  destruct (register_inv g1 i t I1) as [I2 L2]. split; [exact I2|].
  split; [by eapply rounds_le_trans|]. rewrite <- G1. unfold register. by repeat case_match.
Qed.

Lemma maybe_complete_gen g :
  generation_id (maybe_complete_rebalance g) = generation_id g ∨
  generation_id (maybe_complete_rebalance g) = wrapping_add32 (generation_id g) 1 ∧
  state (maybe_complete_rebalance g) = CompletingRebalance.
Proof. unfold maybe_complete_rebalance. repeat case_match; auto. Qed.

Lemma take_and_cancel_gen g : generation_id (take_and_cancel g) = generation_id g.
Proof. unfold take_and_cancel, cancel_sync. by repeat case_match. Qed.

Lemma join_gen g req fresh ticket now :
  generation_id (join g req fresh ticket now).1 = generation_id g ∨
  generation_id (join g req fresh ticket now).1 = wrapping_add32 (generation_id g) 1 ∧
  state (join g req fresh ticket now).1 = CompletingRebalance.
Proof.
  unfold join. set (g1 := with_members g _ _). change (generation_id g) with (generation_id g1).
  destruct (state g1) eqn:Es; cbn [fst]; [| | | |by left].
  - match goal with |- context [maybe_complete_rebalance ?x] => exact (maybe_complete_gen x) end.
  - match goal with |- context [maybe_complete_rebalance ?x] => pose proof (maybe_complete_gen x) as H end.
    assert (∀ b, generation_id (if b : bool then start_rebalance_timer g1 true now else g1) = generation_id g1)
      as Hg by (by intros []). simpl in H. by rewrite Hg in H.
  - match goal with |- context [maybe_complete_rebalance ?x] => pose proof (maybe_complete_gen x) as H end.
    cbn [generation_id with_waiters] in H. by rewrite take_and_cancel_gen in H.
  - match goal with |- context [maybe_complete_rebalance ?x] => pose proof (maybe_complete_gen x) as H end.
    cbn [generation_id with_waiters] in H. by rewrite take_and_cancel_gen in H.
Qed.

Lemma exec_inv g e :
  sync_inv g → sync_inv (exec g e) ∧ rounds_le (rounds g) (rounds (exec g e)) ∧
  (generation_id (exec g e) = generation_id g ∨
   generation_id (exec g e) = wrapping_add32 (generation_id g) 1 ∧ state (exec g e) = CompletingRebalance).
Proof.
  intros Hi. destruct e as [req fresh t now|req t|mids now| | |mid now]; simpl.
  - destruct (join_inv g req fresh t now Hi). split; [done|]. split; [done|]. apply join_gen.
  - destruct (sync_event_inv g req t Hi) as (? & ? & ?). auto.
  - unfold leave. pose proof (leave_loop_sync g mids) as [H1 H2]. destruct (leave_loop g mids) as [g1 out].
    simpl in *. destruct (after_removal_sync g1 now) as [H3 H4].
    assert (same_sync g (after_removal g1 now)) as Hs by (by eapply same_sync_trans).
    split; [eapply sync_inv_same; [exact Hi|done|]|].
    + destruct H4 as [->|[->|[-> _]]]; [by right|by right|by left].
    + destruct Hs as [_ -> ->]. split; [apply rounds_le_refl|by left].
  - unfold shutdown. destruct (remove_members_sync g (map_to_list (members g)).*1) as [H1 H2].
    set (g1 := foldl remove_member g _) in *.
    assert (sync_inv (with_state (abort_timer g1) Dead)) as Hd.
    { eapply sync_inv_same; [exact Hi|by destruct H1; split|by right]. }
    destruct (cancel_inv _ Hd ltac:(by right; left)) as [Hc Hle].
    assert (take_and_cancel (with_state (abort_timer g1) Dead) = with_state (take_and_cancel (abort_timer g1)) Dead)
      as Heq by (unfold take_and_cancel, cancel_sync, lookup_round; simpl; by repeat case_match).
    rewrite Heq in Hc, Hle. split; [eapply sync_inv_same; [exact Hc|done|by left]|].
    simpl. simpl in Hle. rewrite take_and_cancel_gen. simpl. destruct H1 as [_ Hr Hg]. rewrite <- Hr. auto.
  - unfold rebalance_fires. case_decide; [|split; [done|]; split; [apply rounds_le_refl|by left]].
    assert (same_sync g (evict_non_rejoining_members g)) as Hs.
    { unfold evict_non_rejoining_members. case_match; [done|]. apply remove_members_sync. }
    destruct Hs as [_ Hr Hg]. destruct (complete_inv (evict_non_rejoining_members g)) as [Hc Hle].
    { rewrite Hr. apply Hi. }
    split; [done|]. rewrite Hr in Hle. split; [done|]. right. simpl. by rewrite Hg.
  - unfold session_fires. case_bool_decide; [split; [done|]; split; [apply rounds_le_refl|by left]|].
    destruct (remove_member_sync g mid) as (H1 & H2 & _).
    destruct (after_removal_sync (remove_member g mid) now) as [H3 H4].
    assert (same_sync g (after_removal (remove_member g mid) now)) as Hs by (by eapply same_sync_trans).
    split; [eapply sync_inv_same; [exact Hi|done|]|].
    + destruct H4 as [->|[->|[-> _]]]; [by right|by right|by left].
    + destruct Hs as [_ -> ->]. split; [apply rounds_le_refl|by left].
Qed.

Lemma reachable_inv id es : sync_inv (foldl exec (Group_new id) es).
Proof.
  induction es as [|e es IH] using rev_ind.
  - split; simpl; [|done|done]. split; simpl; intros i r Hr; by rewrite lookup_nil in Hr.
  - rewrite foldl_app. simpl. by apply exec_inv.
Qed.

Lemma run_rounds g es : sync_inv g → rounds_le (rounds g) (rounds (foldl exec g es)).
Proof.
  revert g. induction es as [|e es IH]; intros g Hi; simpl; [apply rounds_le_refl|].
  destruct (exec_inv g e Hi) as (Hi' & Hle & _). eapply rounds_le_trans; [exact Hle|]. by apply IH.
Qed.

(** ** Properties: sync rounds *)

(** Generations and rounds: in every reachable state a completing group has
    an open round and a stable group a delivered one; one more event never
    reopens a finished round or turns a delivered one into a canceled one, and
    moves the generation by at most one, and then only into a completed join
    phase. *)
Theorem group_round_invariant id es e :
  sync_inv (foldl exec (Group_new id) es) ∧
  rounds_le (rounds (foldl exec (Group_new id) es)) (rounds (exec (foldl exec (Group_new id) es) e)) ∧
  (generation_id (exec (foldl exec (Group_new id) es) e) = generation_id (foldl exec (Group_new id) es) ∨
   generation_id (exec (foldl exec (Group_new id) es) e) =
     wrapping_add32 (generation_id (foldl exec (Group_new id) es)) 1 ∧
   state (exec (foldl exec (Group_new id) es) e) = CompletingRebalance).
Proof. split; [apply reachable_inv|]. apply exec_inv, reachable_inv. Qed.

Lemma store_lookup (given : list (string * list byte)) m a (base : gmap string (list byte)) :
  NoDup given.*1 → (m, a) ∈ given →
  foldl (λ m a, <[a.1 := a.2]> m) base given !! m = Some a.
Proof.
  intros Hnd Hin. revert base. induction given as [|x given IH] using rev_ind; intros base;
    [by apply not_elem_of_nil in Hin|].
  rewrite foldl_app. simpl. rewrite fmap_app in Hnd. apply NoDup_app in Hnd as (Hnd & Hdis & _).
  apply elem_of_app in Hin as [Hin|Hin].
  - rewrite lookup_insert_ne; [by apply IH|]. intros Heq. apply (Hdis m).
    + apply list_elem_of_fmap. by exists (m, a).
    + simpl. rewrite Heq. left.
  - apply list_elem_of_singleton in Hin as <-. simpl. by rewrite lookup_insert_eq.
Qed.

Lemma fill_lookup (mids : list string) (m : string) (base : gmap string (list byte)) a :
  base !! m = Some a →
  foldl (λ acc mid, match acc !! mid with Some _ => acc | None => <[mid := []]> acc end) base mids !! m = Some a.
Proof.
  revert base. induction mids as [|x mids IH]; intros base Hb; simpl; [done|].
  apply IH. destruct (base !! x) eqn:Ex; [done|]. rewrite lookup_insert_ne; [done|]. intros ->. congruence.
Qed.

Lemma wake_elem ws out w : w ∈ ws → SyncWake w ∈ wake ws out.
Proof.
  unfold wake. revert out. induction ws as [|x ws IH] using rev_ind; intros out Hw;
    [by apply not_elem_of_nil in Hw|].
  rewrite foldl_app. simpl. apply elem_of_app in Hw as [Hw|Hw]; [right; by apply IH|].
  apply list_elem_of_singleton in Hw as ->. left.
Qed.

(** The leader's SyncGroup finishes the current round with its assignments. *)
Lemma leader_publishes g req t g1 p :
  sync_inv g → sync g req t = (g1, inr p) → sr_member_id req = leader_id g →
  ∃ r r', rounds g !! ps_round p = Some r ∧ rounds g1 !! ps_round p = Some r' ∧
    delivered r' = true ∧ canceled r' = false ∧ state g1 = Stable ∧
    (∀ w, w ∈ waiters r → SyncWake w ∈ outbox g1) ∧
    (∀ m a, NoDup (sr_assignments req).*1 → (m, a) ∈ sr_assignments req → assignments r' !! m = Some a).
Proof.
  intros Hi Hs Hl. unfold sync in Hs. case_bool_decide; [done|]. destruct (negb (_ =? _)); [done|].
  case_bool_decide as Hst; simpl in Hs; [|done].
  destruct (current_sync g) as [i|] eqn:Ec; [|done].
  assert (∃ r, rounds g !! i = Some r ∧ canceled r = false) as (r & Hr & Hn).
  { destruct Hst as [H'|H']; [destruct (si_completing g Hi H') as (j & x & Hj & Hx & _ & Hcn)
      |destruct (si_stable g Hi H') as (j & x & Hj & Hx & _ & Hcn)]; exists x; split; congruence. }
  unfold lookup_round in Hs. rewrite Hr, decide_True in Hs by done.
  injection Hs as <- <-. cbn [ps_round].
  pose proof (lookup_lt_Some _ _ _ Hr) as Hlt.
  set (gp := publish g i r (sr_assignments req)).
  assert (∃ r', rounds gp !! i = Some r' ∧ delivered r' = true ∧ canceled r' = false ∧
    ∀ m a, NoDup (sr_assignments req).*1 → (m, a) ∈ sr_assignments req → assignments r' !! m = Some a)
    as (r' & Hr' & Hd' & Hc' & Ha').
  { unfold gp, publish. simpl. eexists. rewrite list_lookup_insert_eq by done. split; [done|].
    split; [done|]. split; [done|]. intros m a Hnd Hin. simpl. apply fill_lookup. by apply store_lookup. }
  assert (register gp i t = with_sync gp (current_sync gp) (rounds gp) (SyncWake t :: outbox gp)) as ->.
  { unfold register, lookup_round. by rewrite Hr', Hd'. }
  exists r, r'. repeat (split; [done|]). split; [|done].
  intros w Hw. simpl. right. by apply wake_elem.
Qed.

(** Once a round is delivered its members are answered without an error, whatever
    happens to the group afterwards. *)
Lemma delivered_stays g es q r :
  sync_inv g → rounds g !! ps_round q = Some r → delivered r = true → canceled r = false →
  so_error (sync_resume (foldl exec g es) q) = NONE.
Proof.
  intros Hi Hr Hd Hc. unfold sync_resume, lookup_round.
  destruct (run_rounds _ es Hi (ps_round q) r) as (r2 & -> & Hd2 & _); [done|].
  destruct (Hd2 Hd) as [_ ->]. by rewrite Hc.
Qed.

(** The leader's SyncGroup delivers its round: it makes the group stable,
    wakes every follower parked on the round, gives each member the assignment the
    leader sent for it, and no later event (not even a new rebalance) turns the
    answer of a member of that round into an error. *)
Theorem sync_round_delivers id es g req t g1 p :
  g = foldl exec (Group_new id) es → sync g req t = (g1, inr p) → sr_member_id req = leader_id g →
  state g1 = Stable ∧
  (∀ r w, rounds g !! ps_round p = Some r → w ∈ waiters r → SyncWake w ∈ outbox g1) ∧
  (∀ q m a, ps_round q = ps_round p → ps_member q = m → NoDup (sr_assignments req).*1 →
     (m, a) ∈ sr_assignments req → so_assignment (sync_resume g1 q) = a) ∧
  (∀ q es', ps_round q = ps_round p → so_error (sync_resume (foldl exec g1 es') q) = NONE).
Proof.
  intros -> Hs Hl. pose proof (reachable_inv id es) as Hi.
  pose proof (sync_event_inv _ req t Hi) as (Hi1 & _). rewrite Hs in Hi1. simpl in Hi1.
  destruct (leader_publishes _ _ _ _ _ Hi Hs Hl) as (r & r' & Hr & Hr' & Hd & Hc & Hst & Hw & Ha).
  split; [done|]. split; [|split].
  - intros r0 w Hr0 Hin. rewrite Hr in Hr0. injection Hr0 as <-. by apply Hw.
  - intros q m a Hq Hqm Hnd Hin. unfold sync_resume, lookup_round. rewrite Hq, Hr', Hc. simpl.
    by rewrite Hqm, (Ha m a Hnd Hin).
  - intros q es' Hq. apply (delivered_stays _ _ _ r'); by rewrite ?Hq.
Qed.

Definition join_req (mid : string) : JoinRequest :=
  {| jr_member_id := mid; jr_instance_id := None; jr_session_timeout_ms := 10000;
     jr_rebalance_timeout_ms := 10000; jr_protocol_type := "consumer";
     jr_protocols := [{| pm_name := "range"; metadata := [x01] |}]; jr_client_id := "c"; jr_client_host := "h" |}.
Definition sync_req (mid : string) (gen : Z) (l : list (string * list byte)) : SyncRequest :=
  {| sr_member_id := mid; sr_generation_id := gen; sr_assignments := l |}.

(** Two members join, the timer completes the join phase, the follower parks. *)
Definition joined_run : list Event :=
  [EJoin (join_req "a") "" 1 0; EJoin (join_req "b") "" 2 0; ERebalance; ESync (sync_req "b" 1 []) 3].
Definition joined : Group := foldl exec (Group_new "g") joined_run.
Definition synced : Group := (sync joined (sync_req "a" 1 [("a", [x0a]); ("b", [x0b])]) 4).1.

Lemma sync_round_delivers_witness :
  state synced = Stable ∧ SyncWake 3 ∈ outbox synced.
Proof.
  destruct (sync_round_delivers "g" joined_run joined (sync_req "a" 1 [("a", [x0a]); ("b", [x0b])]) 4 synced
    {| ps_round := 0; ps_member := "a"; ps_protocol_type := "consumer"; ps_protocol_name := "range" |})
    as (Hst & Hw & _).
  - reflexivity.
  - vm_compute. reflexivity.
  - reflexivity.
  - split; [exact Hst|].
    apply (Hw {| assignments := ∅; delivered := false; canceled := false; waiters := [3%nat] |}).
    + vm_compute. reflexivity.
    + left.
Defined.

(** ** The join barrier *)

(** Every parked join belongs to a member, and no member has parked two. *)
Record waiters_ok (g : Group) : Prop := {
  wo_nodup : NoDup (join_waiters g).*1;
  wo_member : ∀ mid, mid ∈ (join_waiters g).*1 → is_Some (members g !! mid) }.

Lemma take_waiter_spec mid ws :
  NoDup ws.*1 →
  match take_waiter mid ws with
  | (Some _, rest) => NoDup rest.*1 ∧ ∀ x, x ∈ rest.*1 ↔ x ∈ ws.*1 ∧ x ≠ mid
  | (None, _) => mid ∉ ws.*1
  end.
Proof.
  induction ws as [|w ws IH]; simpl; intros Hnd; [apply not_elem_of_nil|].
  apply NoDup_cons in Hnd as [Hw Hnd]. case_decide as Heq.
  - split; [done|]. intros x. rewrite elem_of_cons. split; [|naive_solver].
    intros Hx. split; [by right|]. intros ->. by rewrite <- Heq in Hx.
  - specialize (IH Hnd). destruct (take_waiter mid ws) as [[t|] rest].
    + destruct IH as [IH1 IH2]. rewrite fmap_cons. split.
      * constructor; [|done]. rewrite IH2. naive_solver.
      * intros x. rewrite !elem_of_cons, IH2. naive_solver.
    + rewrite elem_of_cons. naive_solver.
Qed.

Lemma remove_member_spec g mid :
  waiters_ok g → waiters_ok (remove_member g mid) ∧
  members (remove_member g mid) = delete mid (members g) ∧
  ∀ x, x ∈ (join_waiters (remove_member g mid)).*1 ↔ x ∈ (join_waiters g).*1 ∧ x ≠ mid.
Proof.
  intros [Hnd Hm]. pose proof (take_waiter_spec mid (join_waiters g) Hnd) as Ht.
  unfold remove_member. simpl. destruct (take_waiter mid (join_waiters g)) as [[t|] rest]; simpl.
  - destruct Ht as [Hr Hx]. split; [|done]. split; simpl; [done|].
    intros x [Hin Hne]%Hx. rewrite lookup_delete_ne by done. by apply Hm.
  - assert (∀ x, x ∈ (join_waiters g).*1 ↔ x ∈ (join_waiters g).*1 ∧ x ≠ mid) as Hx.
    { intros x. split; [|naive_solver]. intros H. split; [done|]. by intros ->. }
    split; [|done]. split; simpl; [done|]. intros x Hin. apply Hx in Hin as [? ?].
    rewrite lookup_delete_ne by done. by apply Hm.
Qed.

Lemma remove_members_spec g mids :
  waiters_ok g → waiters_ok (foldl remove_member g mids) ∧
  (∀ x, members (foldl remove_member g mids) !! x = if decide (x ∈ mids) then None else members g !! x) ∧
  ∀ x, x ∈ (join_waiters (foldl remove_member g mids)).*1 ↔ x ∈ (join_waiters g).*1 ∧ x ∉ mids.
Proof.
  revert g. induction mids as [|m mids IH]; intros g Hw; simpl.
  { split; [done|]. split; [done|]. intros x. rewrite elem_of_nil. tauto. }
  destruct (remove_member_spec g m Hw) as (Hw1 & Hm1 & Hx1). destruct (IH _ Hw1) as (Hw2 & Hm2 & Hx2).
  split; [done|]. split.
  - intros x. rewrite Hm2, Hm1. destruct (decide (x = m)) as [->|Hne].
    + rewrite lookup_delete_eq. repeat case_decide; try done; set_solver.
    + rewrite lookup_delete_ne by done. repeat case_decide; try done; set_solver.
  - intros x. rewrite Hx2, Hx1, elem_of_cons. tauto.
Qed.

Lemma waiters_ok_same g g' :
  waiters_ok g → members g' = members g → join_waiters g' = join_waiters g → waiters_ok g'.
Proof. intros [H1 H2] Hm Hw. split; by rewrite ?Hm, ?Hw. Qed.

Lemma leave_loop_waiters g mids : waiters_ok g → waiters_ok (leave_loop g mids).1.
Proof.
  revert g. induction mids as [|m mids IH]; intros g Hw; simpl; [done|]. case_bool_decide.
  - specialize (IH g Hw). by destruct (leave_loop g mids).
  - specialize (IH _ (proj1 (remove_member_spec g m Hw))). by destruct (leave_loop (remove_member g m) mids).
Qed.

Lemma after_removal_waiters g now : waiters_ok g → waiters_ok (after_removal g now).
Proof. intros Hw. unfold after_removal. repeat case_decide; try done; by eapply waiters_ok_same. Qed.

Lemma take_and_cancel_same g :
  members (take_and_cancel g) = members g ∧ join_waiters (take_and_cancel g) = join_waiters g.
Proof. unfold take_and_cancel, cancel_sync. by repeat case_match. Qed.

(** Everybody who matters has rejoined: a dynamic member is parked. *)
Definition all_rejoined (g : Group) : Prop :=
  ∀ mid m, members g !! mid = Some m → group_instance_id m = None → mid ∈ (join_waiters g).*1.

Lemma count_rejoined g :
  waiters_ok g → (size (members g) ≤ length (join_waiters g))%nat →
  ∀ mid m, members g !! mid = Some m → mid ∈ (join_waiters g).*1.
Proof.
  intros [Hnd Hm] Hle mid m Hmid.
  assert (list_to_set (join_waiters g).*1 = dom (members g) :> gset string) as Heq.
  { apply set_subseteq_size_eq.
    - intros x. rewrite elem_of_list_to_set, elem_of_dom. apply Hm.
    - rewrite size_dom, size_list_to_set, length_fmap by done. done. }
  apply (elem_of_list_to_set (C:=gset string)). rewrite Heq. apply elem_of_dom. by exists m.
Qed.

(** What a completed join phase tells the members. *)
Definition announced (g' : Group) (mid : string) (o : JoinOutcome) : Prop :=
  (∃ t, JoinReply t o ∈ outbox g') ∧ jo_error o = NONE ∧ jo_member_id o = mid ∧
  jo_generation o = generation_id g' ∧ jo_leader o = leader_id g' ∧ jo_protocol_name o = protocol_name g'.

Lemma replies_elem {A} (f : A → Msg) ws out w : w ∈ ws → f w ∈ foldl (λ out w, f w :: out) out ws.
Proof.
  revert out. induction ws as [|x ws IH] using rev_ind; intros out Hw; [by apply not_elem_of_nil in Hw|].
  rewrite foldl_app. simpl. apply elem_of_app in Hw as [Hw|Hw]; [right; by apply IH|].
  apply list_elem_of_singleton in Hw as ->. left.
Qed.

Lemma complete_announces g :
  join_waiters g ≠ [] →
  (∀ mid, mid ∈ (join_waiters g).*1 → ∃ o, announced (complete_rebalance g) mid o) ∧
  (∃ o, announced (complete_rebalance g) (leader_id (complete_rebalance g)) o ∧
     ∀ mid, mid ∈ (join_waiters g).*1 → ∃ j, j ∈ jo_members o ∧ jm_member_id j = mid).
Proof.
  intros Hne.
  assert (∀ w, w ∈ join_waiters g → ∃ o, announced (complete_rebalance g) w.1 o ∧
    (w.1 = leader_id (complete_rebalance g) →
       jo_members o = joined_member (members g) (protocol_name (complete_rebalance g)) <$> join_waiters g)) as Hall.
  { intros w Hw. set (g' := complete_rebalance g).
    set (f := join_outcome (protocol_type g) (protocol_name g') (leader_id g') (generation_id g')
      (joined_member (members g) (protocol_name g') <$> join_waiters g)).
    exists (f w). split.
    - split; [exists w.2; by apply (replies_elem (λ w, JoinReply w.2 (f w)))|]. done.
    - intros Hl. unfold f, join_outcome. simpl. by rewrite decide_True. }
  split.
  - intros mid ([x t] & -> & Hw)%list_elem_of_fmap. destruct (Hall (x, t) Hw) as (o & Ho & _). by exists o.
  - destruct (join_waiters g) as [|w ws] eqn:Ew; [done|].
    assert (leader_id (complete_rebalance g) = w.1) as Hl by (unfold complete_rebalance; by rewrite Ew).
    destruct (Hall w ltac:(left)) as (o & Ho & Hp). exists o. rewrite Hl. split; [done|].
    intros mid Hmid. rewrite Hp by done.
    apply list_elem_of_fmap in Hmid as (x & -> & Hx).
    exists (joined_member (members g) (protocol_name (complete_rebalance g)) x). split; [|done].
    by apply list_elem_of_fmap_2.
Qed.

Definition joiner (req : JoinRequest) (fresh : string) : string :=
  if str_is_empty (jr_member_id req) then fresh else jr_member_id req.

(** The joining member has no join parked already. *)
Definition single_join (g : Group) (e : Event) : Prop :=
  match e with EJoin req fresh _ _ => joiner req fresh ∉ (join_waiters g).*1 | _ => True end.

(** [e] completes a join phase that everybody took part in. *)
Definition completes (g : Group) (e : Event) : Prop :=
  ∃ g0, exec g e = complete_rebalance g0 ∧ waiters_ok g0 ∧ all_rejoined g0 ∧ join_waiters g0 ≠ [].

Lemma park_barrier g mid t :
  waiters_ok g → is_Some (members g !! mid) → mid ∉ (join_waiters g).*1 →
  let g1 := with_waiters g (join_waiters g ++ [(mid, t)]) (outbox g) in
  waiters_ok (maybe_complete_rebalance g1) ∧
  (maybe_complete_rebalance g1 = g1 ∨
   maybe_complete_rebalance g1 = complete_rebalance g1 ∧ waiters_ok g1 ∧ all_rejoined g1 ∧ join_waiters g1 ≠ []).
Proof.
  intros [Hnd Hm] Hs Hnin. cbn zeta. set (g1 := with_waiters g _ _).
  assert (waiters_ok g1) as Hw1.
  { split; simpl; rewrite fmap_app.
    - apply NoDup_app. split; [done|]. split; [|apply NoDup_singleton].
      intros x Hx Hx'. apply list_elem_of_singleton in Hx' as ->. done.
    - intros x [Hx|Hx]%elem_of_app; [by apply Hm|]. by apply list_elem_of_singleton in Hx as ->. }
  unfold maybe_complete_rebalance. destruct (initial_rebalance g1); [by auto|].
  case_decide; [|by auto]. destruct (Nat.leb_spec (size (members g1)) (length (join_waiters g1))); [|by auto].
  split; [split; simpl; [apply NoDup_nil_2|intros x Hx; by apply not_elem_of_nil in Hx]|].
  right. split; [done|]. split; [done|]. split; [|simpl; by destruct (join_waiters g)].
  intros x m Hx _. by eapply count_rejoined.
Qed.

Lemma join_barrier g req fresh t now :
  waiters_ok g → joiner req fresh ∉ (join_waiters g).*1 →
  waiters_ok (join g req fresh t now).1 ∧
  (generation_id (join g req fresh t now).1 = generation_id g ∨ completes g (EJoin req fresh t now)).
Proof.
  intros Hw Hn. unfold completes. cbn [exec]. unfold join. fold (joiner req fresh) in *.
  set (mid := joiner req fresh) in *.
  set (g1 := with_members g _ _). change (join_waiters g) with (join_waiters g1) in Hn.
  change (generation_id g) with (generation_id g1).
  assert (waiters_ok g1 ∧ is_Some (members g1 !! mid)) as [Hw1 Hs1].
  { destruct Hw as [H1 H2]. split; [split; simpl; [done|]|simpl; by rewrite lookup_insert_eq].
    intros x Hx. destruct (decide (x = mid)) as [->|]; [by rewrite lookup_insert_eq|].
    rewrite lookup_insert_ne by done. by apply H2. }
  assert (∀ gx, members gx = members g1 → join_waiters gx = join_waiters g1 → generation_id gx = generation_id g1 →
    let out := maybe_complete_rebalance (with_waiters gx (join_waiters gx ++ [(mid, t)]) (outbox gx)) in
    waiters_ok out ∧ (generation_id out = generation_id g1 ∨
      ∃ g0, out = complete_rebalance g0 ∧ waiters_ok g0 ∧ all_rejoined g0 ∧ join_waiters g0 ≠ [])) as Hpark.
  { intros gx Hm Hj Hgx. cbn zeta.
    destruct (park_barrier gx mid t) as [Hok Hc];
      [by eapply waiters_ok_same|by rewrite Hm|by rewrite Hj|]. split; [done|].
    destruct Hc as [->|(Heq & Hrest)]; [by left|]. right. by eexists. }
  destruct (state g1); cbn [fst]; [| | | |by split; [|left]].
  - by apply Hpark.
  - apply Hpark; by destruct (initial_rebalance g1 && _).
  - destruct (take_and_cancel_same (start_rebalance_timer (with_state g1 PreparingRebalance) false now)).
    apply Hpark; [done|done|by rewrite take_and_cancel_gen].
  - destruct (take_and_cancel_same (start_rebalance_timer (with_state g1 PreparingRebalance) false now)).
    apply Hpark; [done|done|by rewrite take_and_cancel_gen].
Qed.

Lemma sync_same g req t :
  members (sync g req t).1 = members g ∧ join_waiters (sync g req t).1 = join_waiters g ∧
  generation_id (sync g req t).1 = generation_id g.
Proof.
  unfold sync. case_bool_decide; [done|]. destruct (negb _); [done|]. destruct (negb _); [done|].
  destruct (current_sync g) as [i|]; [|done]. simpl. unfold register, publish. by repeat case_match.
Qed.

Lemma evict_rejoined g :
  waiters_ok g → join_waiters g ≠ [] →
  let g0 := evict_non_rejoining_members g in
  waiters_ok g0 ∧ all_rejoined g0 ∧ join_waiters g0 ≠ [].
Proof.
  intros Hw Hne. cbn zeta. unfold evict_non_rejoining_members.
  destruct (Nat.eqb_spec (size (members g)) (length (join_waiters g))) as [Heq|_].
  { split; [done|]. split; [|done]. intros mid m Hm _. eapply count_rejoined; [done|lia|done]. }
  set (stale := (filter _ _).*1).
  assert (∀ x, x ∈ stale ↔ ∃ m, members g !! x = Some m ∧ x ∉ (join_waiters g).*1 ∧ group_instance_id m = None) as Hst.
  { intros x. unfold stale. rewrite list_elem_of_fmap. split.
    - intros ([k m] & -> & [[H1 H2] H3%elem_of_map_to_list]%list_elem_of_filter). by exists m.
    - intros (m & H1 & H2 & H3). exists (x, m). split; [done|]. apply list_elem_of_filter.
      split; [done|]. by apply elem_of_map_to_list. }
  destruct (remove_members_spec g stale Hw) as (Hw0 & Hm0 & Hj0). split; [done|].
  assert (∀ x, x ∈ (join_waiters g).*1 → x ∈ (join_waiters (foldl remove_member g stale)).*1) as Hkeep.
  { intros x Hx. apply Hj0. split; [done|]. rewrite Hst. naive_solver. }
  split.
  - intros mid m. rewrite Hm0. case_decide as Hin; [done|]. intros Hm Hi.
    destruct (decide (mid ∈ (join_waiters g).*1)) as [|Hno]; [by apply Hkeep|].
    destruct Hin. apply Hst. by exists m.
  - destruct (join_waiters g) as [|w ws]; [done|]. intros Hnil. specialize (Hkeep w.1 ltac:(left)).
    rewrite Hnil in Hkeep. by apply not_elem_of_nil in Hkeep.
Qed.

Lemma exec_barrier g e :
  waiters_ok g → single_join g e →
  waiters_ok (exec g e) ∧ (generation_id (exec g e) = generation_id g ∨ completes g e).
Proof.
  intros Hw Hs. destruct e as [req fresh t now|req t|mids now| | |mid now].
  - by apply join_barrier.
  - destruct (sync_same g req t) as (Hm & Hj & Hg). split; [by eapply waiters_ok_same|by left].
  - simpl. unfold leave. pose proof (leave_loop_waiters g mids Hw) as Hl.
    pose proof (leave_loop_sync g mids) as [[_ _ Hg] _]. destruct (leave_loop g mids) as [g1 out]. simpl in *.
    split; [by apply after_removal_waiters|]. left. rewrite <- Hg. by apply after_removal_sync.
  - simpl. unfold shutdown. destruct (remove_members_spec g (map_to_list (members g)).*1 Hw) as (Hw1 & Hm1 & _).
    destruct (remove_members_sync g (map_to_list (members g)).*1) as [[_ _ Hg] _].
    set (g1 := foldl remove_member g _) in *. destruct (take_and_cancel_same (abort_timer g1)) as [_ Hj].
    split; [|left; simpl; by rewrite take_and_cancel_gen].
    assert ((join_waiters g1).*1 = []) as Hnil.
    { destruct (join_waiters g1) as [|w ws] eqn:Ew; [done|]. exfalso.
      destruct (wo_member g1 Hw1 w.1) as [m Hm]; [rewrite Ew; left|]. rewrite Hm1 in Hm.
      case_decide as Hin; [done|]. apply Hin, list_elem_of_fmap. exists (w.1, m). split; [done|].
      by apply elem_of_map_to_list. }
    split; simpl; rewrite Hj; simpl; rewrite Hnil; [apply NoDup_nil_2|intros x Hx; by apply not_elem_of_nil in Hx].
  - simpl. unfold rebalance_fires. case_decide as Hd; [|by split; [|left]]. pose proof (proj2 Hd) as Hne.
    destruct (evict_rejoined g Hw Hne) as (H1 & H2 & H3).
    split; [split; simpl; [apply NoDup_nil_2|intros x Hx; by apply not_elem_of_nil in Hx]|].
    right. exists (evict_non_rejoining_members g). split; [|done]. simpl. unfold rebalance_fires.
    by rewrite decide_True.
  - simpl. unfold session_fires. case_bool_decide; [by split; [|left]|].
    split; [apply after_removal_waiters; by apply remove_member_spec|]. left.
    destruct (remove_member_sync g mid) as ([_ _ <-] & _). by apply after_removal_sync.
Qed.

(** Runs in which no member joins while it has a join parked. *)
Inductive single_run (id : string) : Group → Prop :=
| sr_new : single_run id (Group_new id)
| sr_step g e : single_run id g → single_join g e → single_run id (exec g e).

Lemma single_run_waiters id g : single_run id g → waiters_ok g.
Proof.
  induction 1 as [|g e Hg IH Hs]; [|by apply exec_barrier].
  split; simpl; [apply NoDup_nil_2|intros x Hx; by apply not_elem_of_nil in Hx].
Qed.

(** C20. The join barrier: when an event starts a new generation, every member
    left in the group that is not a static one has been told of it, all with the
    same generation, leader and protocol; the leader is one of the members that
    rejoined and its reply lists all of them.  This is so in every run in which no
    member issues a second join while its first is parked; a second one is counted as
    another member ([duplicate_join_completes_early]). *)
Theorem rebalance_barrier id g e :
  single_run id g → single_join g e → generation_id (exec g e) ≠ generation_id g →
  (∀ mid m, members (exec g e) !! mid = Some m → group_instance_id m = None →
     ∃ o, announced (exec g e) mid o) ∧
  (∃ o, announced (exec g e) (leader_id (exec g e)) o ∧
     ∀ mid m, members (exec g e) !! mid = Some m → group_instance_id m = None →
       ∃ j, j ∈ jo_members o ∧ jm_member_id j = mid).
Proof.
  intros Hrun Hs Hgen. apply single_run_waiters in Hrun.
  destruct (exec_barrier g e Hrun Hs) as [_ [|(g0 & Heq & Hw0 & Hall & Hne)]]; [done|].
  rewrite Heq. destruct (complete_announces g0 Hne) as [H1 (o & Ho & H2)].
  change (members (complete_rebalance g0)) with (members g0). split.
  - intros mid m Hm Hi. apply H1. by eapply Hall.
  - exists o. split; [done|]. intros mid m Hm Hi. apply H2. by eapply Hall.
Qed.

Definition preparing : Group :=
  exec (exec (Group_new "g") (EJoin (join_req "a") "" 1 0)) (EJoin (join_req "b") "" 2 0).

Lemma rebalance_barrier_witness : ∃ o, announced (exec preparing ERebalance) "b" o.
Proof.
  destruct (rebalance_barrier "g" preparing ERebalance) as [H _].
  - unfold preparing. apply sr_step; [apply sr_step; [apply sr_new|]|].
    + apply not_elem_of_nil.
    + vm_compute. set_solver.
  - exact I.
  - vm_compute. discriminate.
  - eapply (H "b"); [vm_compute; reflexivity|reflexivity].
Defined.

(** A stable two-member group in which "a" sends JoinGroup twice. *)
Definition twice_joined : Group :=
  foldl exec synced [EJoin (join_req "a") "" 5 0; EJoin (join_req "a") "" 6 0].

(** A member that joins twice completes the rebalance alone: its two parked
    joins are counted as two members, so the generation starts without "b", which
    is still in the group, was told nothing, and is missing from the leader's
    member list. *)
Theorem duplicate_join_completes_early :
  state twice_joined = CompletingRebalance ∧ generation_id twice_joined = generation_id synced + 1 ∧
  is_Some (members twice_joined !! "b") ∧
  (∀ o, announced twice_joined "b" o → False) ∧
  ∃ t o, JoinReply t o ∈ outbox twice_joined ∧ jo_generation o = generation_id twice_joined ∧
    jm_member_id <$> jo_members o = ["a"; "a"].
Proof.
  split; [reflexivity|]. split; [reflexivity|]. split; [vm_compute; by eexists|]. split.
  - intros o ((t & Hin) & He & Hm & Hg & _). vm_compute in Hin, Hg.
    repeat (apply elem_of_cons in Hin as [[= -> ->]|Hin]; [vm_compute in He, Hm, Hg; congruence|]);
    repeat (apply elem_of_cons in Hin as [Hin|Hin]; [try discriminate; injection Hin as -> ->;
      vm_compute in He, Hm, Hg; congruence|]). by apply not_elem_of_nil in Hin.
  - exists 6%nat. vm_compute. eexists. split; [left|]. done.
Qed.
