(* ===== verification/OffsetStore.v ===== *)
(** * Committed offsets ([kaas-coordinator/src/offset_store.rs])

    A broker keeps the committed offsets of its groups in memory, writes each
    change through to one file per group on the shared volume, and stages
    transactional offsets in memory until the transaction ends.  A file carries
    the stamp of the assignment it was written under; a writer with an older
    stamp is refused.

    The volume is shared by the brokers, so it is a state of its own ([Disk]); a
    file is what reading it gives (the decoded envelope, or an error).  Whether a
    write reaches the volume is the argument [ok]; a failed [tmp + rename] leaves
    the old file.  [local] is the broker's current stamp.

    [commit_with_metadata] merges under the lock and writes after releasing it,
    so it is given in two halves, [commit_merge] and [write_group]; the
    composition is the uncontended call. *)

From stdpp Require Import base gmap strings list pretty.
From Stdlib Require Import Strings.Ascii.
From S2P Require Import Prelude Cluster.

Local Open Scope Z_scope.

(** [offset_key]. *)
Definition offset_key (topic : string) (partition : Z) : string :=
  topic +:+ "/" +:+ pretty partition.

Definition is_digit (c : Ascii.ascii) : bool :=
  let n := Ascii.N_of_ascii c in ((48 <=? n) && (n <=? 57))%N.

(** [str::parse::<i32>] on the digits after the sign: at least one, in range. *)
Fixpoint digits_value (acc : Z) (s : string) : option Z :=
  match s with
  | EmptyString => Some acc
  | String c s' =>
    if is_digit c then digits_value (acc * 10 + (Z.of_N (Ascii.N_of_ascii c) - 48)) s' else None
  end.

Definition parse_digits (s : string) : option Z :=
  match s with EmptyString => None | _ => digits_value 0 s end.

Definition parse_signed (lo hi : Z) (s : string) : option Z :=
  v ← match s with
      | String "-"%char s' => Z.opp <$> parse_digits s'
      | String "+"%char s' => parse_digits s'
      | _ => parse_digits s
      end;
  if (lo <=? v) && (v <=? hi) then Some v else None.

Definition parse_i32 (s : string) : option Z := parse_signed (-2147483648) i32_max s.

(** [rsplit_once('/')]. *)
Fixpoint rsplit_slash (s : string) : option (string * string) :=
  match s with
  | EmptyString => None
  | String c s' =>
    match rsplit_slash s' with
    | Some (t, p) => Some (String c t, p)
    | None => if decide (c = "/"%char) then Some (EmptyString, s') else None
    end
  end.

Definition key_has_topic (key topic : string) : bool :=
  match rsplit_slash key with
  | Some (t, p) => bool_decide (t = topic) && bool_decide (is_Some (parse_i32 p))
  | None => false
  end.

(** ** Stamps and files *)

Record FenceStamp := { fs_controller_epoch : Z; fs_assignment_version : Z }.

(** The derived lexicographic order. *)
Definition stamp_lt (a b : FenceStamp) : bool :=
  (fs_controller_epoch a <? fs_controller_epoch b) ||
  ((fs_controller_epoch a =? fs_controller_epoch b) &&
   (fs_assignment_version a <? fs_assignment_version b)).

Definition zero_stamp : FenceStamp := {| fs_controller_epoch := 0; fs_assignment_version := 0 |}.

Record OffsetFileV2 := {
  f_offsets : gmap string Z; f_metadata : gmap string string; f_fence : FenceStamp }.

Notation Disk := (gmap string (result unit OffsetFileV2)).

Inductive OffsetError := FencedOffsetWrite (on_disk local : FenceStamp) | IoError.

Record OffsetStore := {
  cache : gmap string (gmap string Z);
  metadata : gmap string (gmap string string);
  pending : gmap (string * Z) (gmap string Z);
  dirty : gset string }.

Definition OffsetStore_new : OffsetStore :=
  {| cache := ∅; metadata := ∅; pending := ∅; dirty := ∅ |}.

Definition with_pending (s : OffsetStore) (p : gmap (string * Z) (gmap string Z)) : OffsetStore :=
  {| cache := cache s; metadata := metadata s; pending := p; dirty := dirty s |}.
Definition with_dirty (s : OffsetStore) (d : gset string) : OffsetStore :=
  {| cache := cache s; metadata := metadata s; pending := pending s; dirty := d |}.
Definition with_group (s : OffsetStore) (g : string) (o : gmap string Z) (m : option (gmap string string)) :
    OffsetStore :=
  {| cache := <[g := o]> (cache s);
     metadata := match m with Some m => <[g := m]> (metadata s) | None => metadata s end;
     pending := pending s; dirty := dirty s |}.

(** [None]: the file is absent or unreadable. *)
Definition on_disk_fence (d : Disk) (g : string) : option FenceStamp :=
  match d !! g with Some (Ok f) => Some (f_fence f) | _ => None end.

(** ** Writing a group *)

Definition write_group (s : OffsetStore) (d : Disk) (g : string) (offs : gmap string Z)
    (meta : gmap string string) (local : FenceStamp) (ok : bool) :
    OffsetStore * Disk * result OffsetError unit :=
  match (on_disk ← on_disk_fence d g; if stamp_lt local on_disk then Some on_disk else None) with
  | Some on_disk => (with_dirty s ({[g]} ∪ dirty s), d, Err (FencedOffsetWrite on_disk local))
  | None =>
    if ok then
      (with_dirty s (dirty s ∖ {[g]}),
       <[g := Ok {| f_offsets := offs; f_metadata := meta; f_fence := local |}]> d, Ok tt)
    else (with_dirty s ({[g]} ∪ dirty s), d, Err IoError)
  end.

(** ** Commit *)

(** Empty metadata clears the entry. *)
Definition merge_meta (new old : gmap string string) : gmap string string :=
  merge (λ n o, match n with
                | Some v => if str_is_empty v then None else Some v
                | None => o
                end) new old.

Definition offsets_changed (new old : gmap string Z) : bool :=
  negb (bool_decide (map_Forall (λ k v, old !! k = Some v) new)).

Definition meta_changed (new old : gmap string string) : bool :=
  negb (bool_decide (map_Forall
    (λ k v, old !! k = if str_is_empty v then None else Some v) new)).

(** The half under the lock: the snapshot to write, and whether to write it. *)
Definition commit_merge (s : OffsetStore) (g : string) (offs : gmap string Z) (meta : gmap string string) :
    OffsetStore * (gmap string Z * gmap string string * bool) :=
  let cached := default ∅ (cache s !! g) in
  let cached_meta := default ∅ (metadata s !! g) in
  let o := offs ∪ cached in
  let m := merge_meta meta cached_meta in
  (with_group s g o (Some m),
   (o, m, offsets_changed offs cached || meta_changed meta cached_meta || bool_decide (g ∈ dirty s))).

Definition commit_with_metadata (s : OffsetStore) (d : Disk) (g : string) (offs : gmap string Z)
    (meta : gmap string string) (local : FenceStamp) (ok : bool) :
    OffsetStore * Disk * result OffsetError unit :=
  let '(s', (o, m, changed)) := commit_merge s g offs meta in
  if changed then write_group s' d g o m local ok else (s', d, Ok tt).

Definition commit (s : OffsetStore) (d : Disk) (g : string) (offs : gmap string Z)
    (local : FenceStamp) (ok : bool) : OffsetStore * Disk * result OffsetError unit :=
  commit_with_metadata s d g offs ∅ local ok.

(** ** Transactional offsets *)

Definition store_pending (s : OffsetStore) (g : string) (pid : Z) (offs : gmap string Z) : OffsetStore :=
  with_pending s (<[(g, pid) := offs ∪ default ∅ (pending s !! (g, pid))]> (pending s)).

Definition commit_pending (s : OffsetStore) (d : Disk) (g : string) (pid : Z)
    (local : FenceStamp) (ok : bool) : OffsetStore * Disk * result OffsetError unit :=
  match pending s !! (g, pid) with
  | None => (s, d, Ok tt)
  | Some offs => commit (with_pending s (delete (g, pid) (pending s))) d g offs local ok
  end.

Definition discard_pending (s : OffsetStore) (g : string) (pid : Z) : OffsetStore :=
  with_pending s (delete (g, pid) (pending s)).

Definition pending_for (s : OffsetStore) (g : string) (pid : Z) : option (gmap string Z) :=
  pending s !! (g, pid).

(** ** Reading *)

Record FetchSpec := { fs_topic : string; fs_partitions : list Z }.

Definition spec_keys (specs : list FetchSpec) : list string :=
  specs ≫= λ sp, offset_key (fs_topic sp) <$> fs_partitions sp.

Definition fetch (s : OffsetStore) (g : string) (specs : list FetchSpec) : gmap string Z :=
  foldl (λ out k, <[k := default (-1) (cache s !! g ≫= (.!! k))]> out) ∅ (spec_keys specs).

Definition fetch_metadata (s : OffsetStore) (g : string) (specs : list FetchSpec) : gmap string string :=
  match metadata s !! g with
  | None => ∅
  | Some m =>
    foldl (λ out k, match m !! k with Some v => <[k := v]> out | None => out end) ∅ (spec_keys specs)
  end.

Definition has_group (s : OffsetStore) (g : string) : bool := bool_decide (is_Some (cache s !! g)).

(** ** Deleting *)

(** [ok]: removing the file succeeds. *)
Definition delete_group_offsets (s : OffsetStore) (d : Disk) (g : string) (ok : bool) :
    OffsetStore * Disk * result OffsetError unit :=
  let s' := {| cache := delete g (cache s); metadata := delete g (metadata s);
               pending := pending s; dirty := dirty s ∖ {[g]} |} in
  match d !! g with
  | None => (s', d, Ok tt)
  | Some _ => if ok then (s', delete g d, Ok tt) else (s', d, Err IoError)
  end.

Definition without {V} (ks : list string) (m : gmap string V) : gmap string V :=
  filter (λ kv, kv.1 ∉ ks) m.

Definition delete_partitions (s : OffsetStore) (d : Disk) (g : string) (keys : list string)
    (local : FenceStamp) (ok : bool) : OffsetStore * Disk * result OffsetError (gmap string bool) :=
  match cache s !! g with
  | None => (s, d, Ok ∅)
  | Some group =>
    let removed := filter (λ k, is_Some (group !! k)) keys in
    let o := without keys group in
    let m := without removed <$> metadata s !! g in
    let '(s', d', r) := write_group (with_group s g o m) d g o (default ∅ m) local ok in
    (s', d', match r with Ok _ => Ok (list_to_map ((λ k, (k, true)) <$> removed)) | Err e => Err e end)
  end.

Definition doomed (topic : string) (offs : gmap string Z) : list string :=
  filter (λ k, key_has_topic k topic = true) (map_to_list offs).*1.

(** Cached groups are purged in memory and on disk; the others only on disk. *)
Definition purge_topic (s : OffsetStore) (d : Disk) (g topic : string) (local : FenceStamp) (ok : bool) :
    OffsetStore * Disk * result OffsetError nat :=
  match cache s !! g with
  | Some group =>
    let ks := doomed topic group in
    let o := without ks group in
    let m := without ks <$> metadata s !! g in
    let s' := with_group s g o m in
    match ks with
    | [] => (s', d, Ok 0%nat)
    | _ =>
      let '(s'', d', r) := write_group s' d g o (default ∅ m) local ok in
      (s'', d', match r with Ok _ => Ok (length ks) | Err e => Err e end)
    end
  | None =>
    match d !! g with
    | None => (s, d, Ok 0%nat)
    | Some (Err _) => (s, d, Err IoError)
    | Some (Ok f) =>
      match doomed topic (f_offsets f) with
      | [] => (s, d, Ok 0%nat)
      | ks =>
        let '(s', d', r) :=
          write_group s d g (without ks (f_offsets f)) (without ks (f_metadata f)) local ok in
        (s', d', match r with Ok _ => Ok (length ks) | Err e => Err e end)
      end
    end
  end.

Definition group_ids_on_disk (d : Disk) : list string := (map_to_list d).*1.

(** [decode_offsets_file]: empty metadata decodes as none. *)
Definition decode_offsets_file (f : OffsetFileV2) : gmap string Z * option (gmap string string) :=
  (f_offsets f, if decide (f_metadata f = ∅) then None else Some (f_metadata f)).

Definition load (s : OffsetStore) (d : Disk) (g : string) : OffsetStore * result OffsetError unit :=
  match d !! g with
  | None => (s, Ok tt)
  | Some (Err _) => (s, Err IoError)
  | Some (Ok f) => let '(o, m) := decode_offsets_file f in (with_group s g o m, Ok tt)
  end.

(** ** Keys *)

Lemma pretty_char_value x :
  (x < 10)%N → is_digit (pretty_N_char x) = true ∧
               Z.of_N (N_of_ascii (pretty_N_char x)) - 48 = Z.of_N x.
Proof.
  intros Hx. assert (x = 0 ∨ x = 1 ∨ x = 2 ∨ x = 3 ∨ x = 4 ∨ x = 5 ∨ x = 6 ∨ x = 7 ∨ x = 8 ∨ x = 9)%N
    as Hcases by lia.
  by repeat (destruct Hcases as [->|Hcases]; [by vm_compute|]); subst x.
Qed.

Lemma digits_value_go x s :
  ∃ k, 0 ≤ k ∧ ∀ acc, digits_value acc (pretty_N_go x s) = digits_value (acc * 10 ^ k + Z.of_N x) s.
Proof.
  revert s. induction (N.lt_wf_0 x) as [x _ IH]; intros s.
  assert (x = 0 ∨ 0 < x)%N as [->|Hx] by lia.
  { exists 0. split; [done|]. intros acc. rewrite pretty_N_go_0. f_equal. lia. }
  destruct (IH (x `div` 10)%N ltac:(by apply N.div_lt) (String (pretty_N_char (x `mod` 10)) s))
    as (k & Hk & Hv).
  exists (k + 1). split; [lia|]. intros acc. rewrite pretty_N_go_step, Hv by done. simpl.
  destruct (pretty_char_value (x `mod` 10)%N) as [-> ->]; [by apply N.mod_lt|].
  f_equal. rewrite Z.pow_add_r by lia. pose proof (N.div_mod' x 10). lia.
Qed.

Lemma pretty_N_go_nonempty x s : s ≠ ""%string → pretty_N_go x s ≠ ""%string.
Proof.
  revert s. induction (N.lt_wf_0 x) as [x _ IH]; intros s Hs.
  assert (x = 0 ∨ 0 < x)%N as [->|Hx] by lia; [by rewrite pretty_N_go_0|].
  rewrite pretty_N_go_step by done. apply IH; [by apply N.div_lt|done].
Qed.

Lemma parse_digits_pos p : parse_digits (pretty_N_go (N.pos p) "") = Some (Z.pos p).
Proof.
  assert (pretty_N_go (N.pos p) "" ≠ ""%string).
  { rewrite pretty_N_go_step by done. by apply pretty_N_go_nonempty. }
  unfold parse_digits. destruct (pretty_N_go (N.pos p) "") eqn:E; [done|].
  rewrite <- E. destruct (digits_value_go (N.pos p) "") as (k & _ & Hv). by rewrite Hv.
Qed.

Lemma parse_signed_pretty lo hi z : lo ≤ z ≤ hi → parse_signed lo hi (pretty z) = Some z.
Proof.
  intros Hz. unfold parse_signed.
  destruct z as [|p|p].
  - simpl. by rewrite !(proj2 (Z.leb_le _ _)) by lia.
  - change (pretty (Z.pos p)) with (pretty_N_go (N.pos p) "").
    pose proof (parse_digits_pos p) as Hp.
    assert (∀ s', pretty_N_go (N.pos p) "" ≠ String "-" s' ∧ pretty_N_go (N.pos p) "" ≠ String "+" s')
      as Hsign by (intros s'; split; intros E; rewrite E in Hp; done).
    destruct (pretty_N_go (N.pos p) "") as [|c s'] eqn:E; [done|].
    assert (c ≠ "-"%char ∧ c ≠ "+"%char) as [Hm Hpl] by (split; intros ->; naive_solver).
    replace (match c with "-"%char => Z.opp <$> parse_digits s' | "+"%char => parse_digits s'
             | _ => parse_digits (String c s') end) with (Some (Z.pos p)); [|by repeat case_match].
    simpl. by rewrite !(proj2 (Z.leb_le _ _)) by lia.
  - change (pretty (Z.neg p)) with (String "-" (pretty_N_go (N.pos p) "")).
    cbv beta iota. rewrite parse_digits_pos. simpl.
    by rewrite !(proj2 (Z.leb_le _ _)) by lia.
Qed.

Lemma parse_pretty z : i32_ok z → parse_i32 (pretty z) = Some z.
Proof. intros Hz. apply parse_signed_pretty. range. Qed.

Lemma rsplit_slash_none s : slash_free s = true → rsplit_slash s = None.
Proof.
  induction s as [|c s IH]; simpl; [done|]. intros [Hc Hs]%andb_true_iff.
  apply bool_decide_eq_true in Hc. rewrite IH by done. by rewrite decide_False.
Qed.

Lemma rsplit_key t p : rsplit_slash (offset_key t p) = Some (t, pretty p).
Proof.
  unfold offset_key. induction t as [|c t IH].
  - change ("" +:+ "/" +:+ pretty p) with (String "/" (pretty p)). simpl.
    by rewrite rsplit_slash_none by apply slash_free_pretty.
  - change (String c t +:+ "/" +:+ pretty p) with (String c (t +:+ "/" +:+ pretty p)). simpl.
    by rewrite IH.
Qed.

(** A purge of one topic meets exactly that topic's keys. *)
Lemma key_has_topic_spec t t' p : i32_ok p → key_has_topic (offset_key t p) t' = bool_decide (t = t').
Proof.
  intros Hp. unfold key_has_topic. rewrite rsplit_key, parse_pretty by done.
  by rewrite (bool_decide_true (is_Some _)), andb_true_r by done.
Qed.

(** ** Histories

    Several brokers over one volume.  An operation runs at one broker under the
    stamp that broker knows; a restart forgets the broker's memory. *)

Inductive OffsetOp :=
| OCommit (g : string) (offs : gmap string Z) (meta : gmap string string) (ok : bool)
| OStage (g : string) (pid : Z) (offs : gmap string Z)
| OCommitPending (g : string) (pid : Z) (ok : bool)
| ODiscard (g : string) (pid : Z)
| ODelete (g : string) (ok : bool)
| ODeletePartitions (g : string) (keys : list string) (ok : bool)
| OPurge (g topic : string) (ok : bool)
| OLoad (g : string).

Definition op_group (o : OffsetOp) : string :=
  match o with
  | OCommit g _ _ _ | OStage g _ _ | OCommitPending g _ _ | ODiscard g _ | ODelete g _
  | ODeletePartitions g _ _ | OPurge g _ _ | OLoad g => g
  end.

Definition op_step (local : FenceStamp) (s : OffsetStore) (d : Disk) (o : OffsetOp) : OffsetStore * Disk :=
  match o with
  | OCommit g offs meta ok => (commit_with_metadata s d g offs meta local ok).1
  | OStage g pid offs => (store_pending s g pid offs, d)
  | OCommitPending g pid ok => (commit_pending s d g pid local ok).1
  | ODiscard g pid => (discard_pending s g pid, d)
  | ODelete g ok => (delete_group_offsets s d g ok).1
  | ODeletePartitions g keys ok => (delete_partitions s d g keys local ok).1
  | OPurge g topic ok => (purge_topic s d g topic local ok).1
  | OLoad g => ((load s d g).1, d)
  end.

Record Volume := { stores : gmap string OffsetStore; disk : Disk }.

Definition store_of (w : Volume) (b : string) : OffsetStore := default OffsetStore_new (stores w !! b).

Inductive OffsetEvent :=
| At (b : string) (local : FenceStamp) (o : OffsetOp)
| Restart (b : string).

Definition volume_step (w : Volume) (e : OffsetEvent) : Volume :=
  match e with
  | At b local o =>
    let '(s', d') := op_step local (store_of w b) (disk w) o in
    {| stores := <[b := s']> (stores w); disk := d' |}
  | Restart b => {| stores := delete b (stores w); disk := disk w |}
  end.

Definition volume_run (w : Volume) (es : list OffsetEvent) : Volume := foldl volume_step w es.

(** ** The write path *)

(** What a write does to the volume: nothing, or a new file of the same group. *)
Lemma write_group_spec s d g o m local ok s' d' r :
  write_group s d g o m local ok = (s', d', r) →
  cache s' = cache s ∧ metadata s' = metadata s ∧ pending s' = pending s ∧
  (∀ g', g' ≠ g → (g' ∈ dirty s' ↔ g' ∈ dirty s)) ∧
  ((r = Ok tt ∧ g ∉ dirty s' ∧ (∀ od, on_disk_fence d g = Some od → stamp_lt local od = false) ∧
    d' = <[g := Ok {| f_offsets := o; f_metadata := m; f_fence := local |}]> d) ∨
   (is_ok r = false ∧ g ∈ dirty s' ∧ d' = d)).
Proof.
  unfold write_group. intros H.
  assert ((∀ od, on_disk_fence d g = Some od → stamp_lt local od = false) ∨
          ∃ od, (on_disk ← on_disk_fence d g; if stamp_lt local on_disk then Some on_disk else None) = Some od)
    as [Hle|[od Hod]].
  { destruct (on_disk_fence d g) as [od|]; simpl; [|by left].
    destruct (stamp_lt local od) eqn:E; [right; eauto|left; naive_solver]. }
  - assert ((on_disk ← on_disk_fence d g; if stamp_lt local on_disk then Some on_disk else None) = None) as E.
    { destruct (on_disk_fence d g) as [od|]; simpl; [|done]. by rewrite Hle. }
    rewrite E in H. destruct ok; simplify_eq/=; split_and!; try done; try set_solver.
  - rewrite Hod in H. simplify_eq/=. split_and!; try done; set_solver.
Qed.

(** Every operation leaves the files of the other groups alone, and replaces a
    file of its own group only by a deletion or by one with a stamp as new. *)
Lemma op_step_disk local s d o g :
  (op_step local s d o).2 !! g = d !! g ∨
  (op_group o = g ∧
   ((∃ ok, o = ODelete g ok) ∨
    ((∀ od, on_disk_fence d g = Some od → stamp_lt local od = false) ∧
     ∃ f, (op_step local s d o).2 !! g = Some (Ok f) ∧ f_fence f = local))).
Proof.
  assert (∀ s g0 o m ok s' d' r, write_group s d g0 o m local ok = (s', d', r) →
    d' !! g = d !! g ∨ (g0 = g ∧ ((∀ od, on_disk_fence d g = Some od → stamp_lt local od = false) ∧
      ∃ f, d' !! g = Some (Ok f) ∧ f_fence f = local))) as Hw.
  { intros s0 g0 o0 m0 ok0 s' d' r H. apply write_group_spec in H as (_&_&_&_&[(_&_&Hs&->)|(_&_&->)]); [|by left].
    destruct (decide (g0 = g)) as [->|]; [|left; by rewrite lookup_insert_ne].
    right. split_and!; [done..|]. eexists. rewrite lookup_insert_eq. done. }
  assert (∀ s g0 offs meta ok, (commit_with_metadata s d g0 offs meta local ok).1.2 !! g = d !! g ∨
     (g0 = g ∧ ((∀ od, on_disk_fence d g = Some od → stamp_lt local od = false) ∧
      ∃ f, (commit_with_metadata s d g0 offs meta local ok).1.2 !! g = Some (Ok f) ∧ f_fence f = local))) as Hc.
  { intros. unfold commit_with_metadata. simpl. case_match; [|by left].
    destruct (write_group _ _ _ _ _ _ _) as [[s' d'] r] eqn:E. apply Hw in E. naive_solver. }
  destruct o as [g0 offs meta ok| | g0 pid ok | |g0 ok|g0 keys ok|g0 topic ok|]; simpl; try (by left).
  - destruct (Hc s g0 offs meta ok); naive_solver.
  - unfold commit_pending. case_match; [|by left]. unfold commit. edestruct Hc; naive_solver.
  - unfold delete_group_offsets. destruct (d !! g0) eqn:E; [|by left]. destruct ok; simpl; [|by left].
    destruct (decide (g0 = g)) as [->|]; [right; split; [done|left; eauto]|left; by rewrite lookup_delete_ne].
  - unfold delete_partitions. case_match; [|by left].
    destruct (write_group _ _ _ _ _ _ _) as [[s' d'] r] eqn:E. apply Hw in E. naive_solver.
  - unfold purge_topic. repeat case_match; simplify_eq/=; try (by left);
      match goal with E : write_group _ _ _ _ _ _ _ = _ |- _ => apply Hw in E end; naive_solver.
Qed.

(** ** Memory and volume agree

    [in_sync]: unless a write failed, a cached group is exactly what its file
    holds (a missing file is an empty one). *)

Definition in_sync (s : OffsetStore) (d : Disk) (g : string) : Prop :=
  ∀ o, cache s !! g = Some o → g ∉ dirty s →
  match d !! g with
  | Some (Ok f) => f_offsets f = o ∧ f_metadata f = default ∅ (metadata s !! g)
  | Some (Err _) => False
  | None => o = ∅ ∧ default ∅ (metadata s !! g) = ∅
  end.

Definition store_ok (s : OffsetStore) (d : Disk) : Prop :=
  (∀ g, in_sync s d g) ∧ (∀ g, cache s !! g = None → metadata s !! g = None).

(** What the group manager does before it uses a group: a group that is not in
    memory is loaded, once; a commit to a group that was never loaded writes
    something, or finds no file. *)
Definition is_none {A} (o : option A) : bool := match o with None => true | Some _ => false end.

Definition op_guard (s : OffsetStore) (d : Disk) (o : OffsetOp) : bool :=
  match o with
  | OCommit g offs _ _ => has_group s g || is_none (d !! g) || negb (bool_decide (offs = ∅))
  | OCommitPending g pid _ =>
    has_group s g || is_none (d !! g) || negb (bool_decide (pending s !! (g, pid) = Some ∅))
  | OLoad g => negb (has_group s g)
  | _ => true
  end.

Lemma has_group_true s g : has_group s g = true ↔ is_Some (cache s !! g).
Proof. apply bool_decide_eq_true. Qed.

Lemma has_group_false s g : has_group s g = false ↔ cache s !! g = None.
Proof. unfold has_group. rewrite bool_decide_eq_false. symmetry. apply eq_None_not_Some. Qed.

Lemma with_group_other s g o m g' :
  g ≠ g' → cache (with_group s g o m) !! g' = cache s !! g' ∧
           metadata (with_group s g o m) !! g' = metadata s !! g'.
Proof.
  intros. unfold with_group. simpl. rewrite lookup_insert_ne by done.
  destruct m; [by rewrite lookup_insert_ne|done].
Qed.

Lemma store_ok_group s d g o m :
  store_ok s d → (∀ g', g' ≠ g → in_sync (with_group s g o m) d g') ∧
    (∀ g', cache (with_group s g o m) !! g' = None → metadata (with_group s g o m) !! g' = None).
Proof.
  intros [Hs Hm]. split.
  - intros g' Hg. destruct (with_group_other s g o m g') as [Hc Hmd]; [done|].
    unfold in_sync. rewrite Hc, Hmd. apply Hs.
  - intros g' Hc. destruct (decide (g = g')) as [->|Hne].
    + simpl in Hc. by rewrite lookup_insert_eq in Hc.
    + destruct (with_group_other s g o m g') as [Hc' Hmd]; [done|]. rewrite Hmd. apply Hm. by rewrite <- Hc'.
Qed.

(** Writing what the cache holds restores the agreement. *)
Lemma write_group_ok s d g o m local ok s' d' r :
  write_group s d g o m local ok = (s', d', r) →
  (∀ g', g' ≠ g → in_sync s d g') → (∀ g', cache s !! g' = None → metadata s !! g' = None) →
  cache s !! g = Some o → default ∅ (metadata s !! g) = m → store_ok s' d'.
Proof.
  intros H Hs Hm Ho Hmeta. apply write_group_spec in H as (Hc&Hmd&_&Hd&Hcase). split.
  - intros g' o' Ho' Hdirty. rewrite Hc in Ho'. rewrite Hmd.
    destruct (decide (g' = g)) as [->|Hg].
    + destruct Hcase as [(_&_&_&->)|(_&?&_)]; [|done]. rewrite lookup_insert_eq. by simplify_eq.
    + assert (d' !! g' = d !! g') as ->.
      { destruct Hcase as [(_&_&_&->)|(_&_&->)]; [by rewrite lookup_insert_ne|done]. }
      rewrite Hd in Hdirty by done. by apply (Hs g' Hg o').
  - intros g' Hn. rewrite Hmd. apply Hm. by rewrite <- Hc.
Qed.

Lemma with_group_meta s g o m :
  default ∅ (metadata (with_group s g o m) !! g) =
  match m with Some m => m | None => default ∅ (metadata s !! g) end.
Proof. unfold with_group. simpl. destruct m; [by rewrite lookup_insert_eq|done]. Qed.

Lemma merge_meta_unchanged new old : meta_changed new old = false → merge_meta new old = old.
Proof.
  unfold meta_changed, merge_meta. intros H%negb_false_iff%bool_decide_eq_true.
  apply map_eq. intros k. rewrite lookup_merge.
  destruct (new !! k) as [v|] eqn:E; [|by destruct (old !! k)].
  pose proof (H k v E) as Hk. simpl in Hk. rewrite Hk. destruct (str_is_empty v) eqn:Ee; simpl; by rewrite Ee.
Qed.

Lemma offsets_unchanged new old : offsets_changed new old = false → new ∪ old = old ∧ new ⊆ old.
Proof.
  unfold offsets_changed. intros H%negb_false_iff%bool_decide_eq_true.
  assert (new ⊆ old) by (apply map_subseteq_spec; exact H).
  split; [|done]. by apply map_subseteq_union.
Qed.

Lemma commit_ok s d g offs meta local ok :
  store_ok s d → has_group s g || is_none (d !! g) || negb (bool_decide (offs = ∅)) = true →
  let '(s', d', _) := commit_with_metadata s d g offs meta local ok in store_ok s' d'.
Proof.
  intros Hok Hguard. unfold commit_with_metadata. simpl.
  destruct (store_ok_group s d g (offs ∪ default ∅ (cache s !! g))
    (Some (merge_meta meta (default ∅ (metadata s !! g)))) Hok) as [Hs Hm].
  destruct (offsets_changed _ _ || meta_changed _ _ || _) eqn:Hch.
  - destruct (write_group _ _ _ _ _ _ _) as [[s' d'] r] eqn:E.
    eapply write_group_ok; [exact E|done|done| |by rewrite with_group_meta].
    simpl. by rewrite lookup_insert_eq.
  - apply orb_false_iff in Hch as [[Ho Hmeta]%orb_false_iff Hdirty%bool_decide_eq_false].
    apply offsets_unchanged in Ho as [Hu Hsub]. apply merge_meta_unchanged in Hmeta.
    split; [|done]. intros g'. destruct (decide (g' = g)) as [->|]; [|by apply Hs].
    intros o Hoo _. simpl in Hoo. rewrite lookup_insert_eq in Hoo. simplify_eq.
    rewrite with_group_meta, Hmeta. destruct Hok as [Hsync Hnone].
    destruct (cache s !! g) as [c|] eqn:Ec.
    + simpl in Hu |- *. rewrite Hu. by apply (Hsync g c).
    + simpl in *. rewrite (Hnone g Ec). simpl.
      assert (offs = ∅) as -> by (apply map_empty; intros k; destruct (offs !! k) eqn:E; [|done];
        by apply (lookup_weaken _ ∅) in E).
      rewrite (proj2 (has_group_false s g) Ec), bool_decide_true in Hguard by done.
      destruct (d !! g); [done|]. split; [|done]. apply (left_id_L ∅ (∪)).
Qed.

Lemma delete_group_ok s d g ok :
  store_ok s d → let '(s', d', _) := delete_group_offsets s d g ok in store_ok s' d'.
Proof.
  intros [Hs Hm].
  assert (∀ d', (∀ g', g' ≠ g → d' !! g' = d !! g') →
    store_ok {| cache := delete g (cache s); metadata := delete g (metadata s);
                pending := pending s; dirty := dirty s ∖ {[g]} |} d') as H.
  { intros d' Hd. split; simpl.
    - intros g' o Ho Hdirty. simpl in *. destruct (decide (g' = g)) as [->|].
      + by rewrite lookup_delete_eq in Ho.
      + rewrite lookup_delete_ne in Ho by done. rewrite lookup_delete_ne by done.
        rewrite Hd by done. apply (Hs g' o Ho). set_solver.
    - intros g' Hc. destruct (decide (g' = g)) as [->|]; [by rewrite lookup_delete_eq|].
      rewrite lookup_delete_ne in Hc by done. rewrite lookup_delete_ne by done. by apply Hm. }
  unfold delete_group_offsets. repeat case_match; simplify_eq/=; apply H; try done.
  intros. by rewrite lookup_delete_ne.
Qed.

(** Removing keys from a cached group and its metadata, then writing it. *)
Lemma shrink_ok s d g o m local ok s' d' r :
  store_ok s d →
  write_group (with_group s g o (m <$> metadata s !! g)) d g o (default ∅ (m <$> metadata s !! g)) local ok
    = (s', d', r) → store_ok s' d'.
Proof.
  intros Hok E. destruct (store_ok_group s d g o (m <$> metadata s !! g) Hok) as [Hs Hm].
  eapply write_group_ok; [exact E|done|done|simpl; by rewrite lookup_insert_eq|].
  rewrite with_group_meta. by destruct (metadata s !! g).
Qed.

Lemma without_nil {V} (m : gmap string V) : without [] m = m.
Proof. unfold without. apply map_filter_id. intros k x _ Hk. by apply elem_of_nil in Hk. Qed.

Lemma with_group_same s g o :
  cache s !! g = Some o → with_group s g o (metadata s !! g) = s.
Proof.
  intros Hc. destruct s as [c md pd dt]. unfold with_group. simpl in *.
  rewrite (insert_id c) by done. destruct (md !! g) eqn:E; [by rewrite insert_id|done].
Qed.

(** A write for a group that is not in memory does not touch the agreement. *)
Lemma write_uncached_ok s d g o m local ok s' d' r :
  store_ok s d → cache s !! g = None → write_group s d g o m local ok = (s', d', r) → store_ok s' d'.
Proof.
  intros [Hs Hm] Hnone E. apply write_group_spec in E as (Hc&Hmd&_&Hd&Hcase).
  split; [|by intros; rewrite Hmd; apply Hm; rewrite <- Hc].
  intros g' o' Ho' Hdirty. rewrite Hc in Ho'. assert (g' ≠ g) by naive_solver.
  rewrite Hmd. rewrite Hd in Hdirty by done.
  assert (d' !! g' = d !! g') as ->
    by (destruct Hcase as [(_&_&_&->)|(_&_&->)]; [by rewrite lookup_insert_ne|done]).
  by apply (Hs g' o').
Qed.

Lemma purge_ok s d g topic local ok :
  store_ok s d → let '(s', d', _) := purge_topic s d g topic local ok in store_ok s' d'.
Proof.
  intros Hok. unfold purge_topic. destruct (cache s !! g) as [group|] eqn:Ec.
  - destruct (doomed topic group) as [|k ks] eqn:Ek.
    + rewrite without_nil. replace (without [] <$> metadata s !! g) with (metadata s !! g)
        by (destruct (metadata s !! g); simpl; by rewrite ?without_nil).
      by rewrite with_group_same.
    + destruct (write_group _ _ _ _ _ _ _) as [[s' d'] r] eqn:E. by eapply shrink_ok.
  - destruct (d !! g) as [[f|]|]; [|done..].
    destruct (doomed topic (f_offsets f)) as [|k ks]; [done|].
    destruct (write_group _ _ _ _ _ _ _) as [[s' d'] r] eqn:E. by eapply write_uncached_ok.
Qed.

Lemma load_ok s d g : store_ok s d → cache s !! g = None → store_ok (load s d g).1 d.
Proof.
  intros Hok Hg. unfold load. destruct (d !! g) as [[f|]|] eqn:Ed; simpl; [|done..].
  destruct (store_ok_group s d g (f_offsets f)
    (if decide (f_metadata f = ∅) then None else Some (f_metadata f)) Hok) as [Hs Hm].
  split; [|done]. intros g'. destruct (decide (g' = g)) as [->|]; [|by apply Hs].
  intros o Ho _. simpl in Ho. rewrite lookup_insert_eq in Ho. simplify_eq.
  rewrite Ed, with_group_meta. split; [done|].
  case_decide as Hf; [|done]. rewrite Hf. by rewrite (proj2 Hok g Hg).
Qed.

Lemma op_step_ok local s d o :
  store_ok s d → op_guard s d o = true → let '(s', d') := op_step local s d o in store_ok s' d'.
Proof.
  intros Hok Hg. destruct o as [g offs meta ok| |g pid ok| |g ok|g keys ok|g topic ok|g]; simpl in *; try done.
  - pose proof (commit_ok s d g offs meta local ok Hok Hg).
    by destruct (commit_with_metadata _ _ _ _ _ _ _) as [[??]?].
  - unfold commit_pending. destruct (pending s !! (g, pid)) as [offs|]; [|done].
    assert (has_group s g || is_none (d !! g) || negb (bool_decide (offs = ∅)) = true) as Hg'.
    { rewrite <- Hg. do 2 f_equal. apply bool_decide_ext. naive_solver. }
    pose proof (commit_ok (with_pending s (delete (g, pid) (pending s))) d g offs ∅ local ok Hok Hg').
    unfold commit. by destruct (commit_with_metadata _ _ _ _ _ _ _) as [[??]?].
  - pose proof (delete_group_ok s d g ok Hok). by destruct (delete_group_offsets _ _ _ _) as [[??]?].
  - unfold delete_partitions. destruct (cache s !! g) as [group|] eqn:Ec; [|done].
    destruct (write_group _ _ _ _ _ _ _) as [[s' d'] r] eqn:E. simpl. by eapply shrink_ok.
  - pose proof (purge_ok s d g topic local ok Hok). by destruct (purge_topic _ _ _ _ _ _) as [[??]?].
  - apply load_ok; [done|]. by apply has_group_false, negb_true_iff.
Qed.

(** ** Reading back *)

Definition offsets_of (s : OffsetStore) (g : string) : gmap string Z := default ∅ (cache s !! g).
Definition metadata_of (s : OffsetStore) (g : string) : gmap string string := default ∅ (metadata s !! g).

Lemma fetch_offsets_of s g specs :
  fetch s g specs = foldl (λ out k, <[k := default (-1) (offsets_of s g !! k)]> out) ∅ (spec_keys specs).
Proof.
  unfold fetch, offsets_of. f_equal. destruct (cache s !! g); [done|].
  by assert (∀ k, (∅ : gmap string Z) !! k = None) by (intros; apply lookup_empty).
Qed.

Lemma fetch_metadata_of s g specs :
  fetch_metadata s g specs =
  foldl (λ out k, match metadata_of s g !! k with Some v => <[k := v]> out | None => out end) ∅
    (spec_keys specs).
Proof.
  unfold fetch_metadata, metadata_of. destruct (metadata s !! g); [done|]. simpl.
  induction (spec_keys specs) as [|k ks IH]; [done|]. simpl. by rewrite lookup_empty.
Qed.

(** What a fetch answers for a key: the committed offset, or -1. *)
Lemma fetch_lookup s g specs k :
  k ∈ spec_keys specs → fetch s g specs !! k = Some (default (-1) (offsets_of s g !! k)).
Proof.
  rewrite fetch_offsets_of. generalize (spec_keys specs). intros ks.
  induction ks as [|k' ks IH] using rev_ind; [by rewrite elem_of_nil|].
  rewrite foldl_snoc. intros Hin. destruct (decide (k' = k)) as [->|]; [by rewrite lookup_insert_eq|].
  rewrite lookup_insert_ne by done. apply IH. set_solver.
Qed.

(** A broker that starts from the volume alone. *)
Definition reloaded (d : Disk) (g : string) : OffsetStore := (load OffsetStore_new d g).1.

Lemma reloaded_file d g f :
  d !! g = Some (Ok f) → offsets_of (reloaded d g) g = f_offsets f ∧ metadata_of (reloaded d g) g = f_metadata f.
Proof.
  intros Hd. unfold reloaded, load, offsets_of, metadata_of. rewrite Hd. simpl. rewrite lookup_insert_eq.
  split; [done|]. case_decide as Hm; simpl; [by rewrite lookup_empty|by rewrite lookup_insert_eq].
Qed.

Lemma in_sync_reload s d g :
  in_sync s d g → is_Some (cache s !! g) → g ∉ dirty s →
  offsets_of (reloaded d g) g = offsets_of s g ∧ metadata_of (reloaded d g) g = metadata_of s g.
Proof.
  intros Hs [o Ho] Hd. specialize (Hs o Ho Hd).
  destruct (d !! g) as [[f|]|] eqn:E; [|done|].
  - destruct Hs as [Hf Hm]. destruct (reloaded_file d g f E) as [-> ->].
    unfold offsets_of, metadata_of. rewrite Ho. by subst.
  - unfold reloaded, load, offsets_of, metadata_of. rewrite E, Ho. simpl. rewrite !lookup_empty. naive_solver.
Qed.

(** The operations of one broker, in order, each under the stamp it knew then. *)
Fixpoint store_run (s : OffsetStore) (d : Disk) (ops : list (FenceStamp * OffsetOp)) : OffsetStore * Disk :=
  match ops with
  | [] => (s, d)
  | (local, o) :: ops' => let '(s', d') := op_step local s d o in store_run s' d' ops'
  end.

Fixpoint guarded_ops (s : OffsetStore) (d : Disk) (ops : list (FenceStamp * OffsetOp)) : bool :=
  match ops with
  | [] => true
  | (local, o) :: ops' =>
    op_guard s d o && let '(s', d') := op_step local s d o in guarded_ops s' d' ops'
  end.

Lemma store_run_ok s d ops :
  store_ok s d → guarded_ops s d ops = true → store_ok (store_run s d ops).1 (store_run s d ops).2.
Proof.
  revert s d. induction ops as [|[local o] ops IH]; intros s d Hok; [done|]. simpl. intros [Hg Hops]%andb_true_iff.
  pose proof (op_step_ok local s d o Hok Hg). destruct (op_step local s d o) as [s' d']. by apply IH.
Qed.

Lemma store_ok_new d : store_ok OffsetStore_new d.
Proof. split; [|done]. intros g o Ho. simpl in Ho. by rewrite lookup_empty in Ho. Qed.

(** A restart loses no committed offset: whatever a broker did with its
    groups (commits with and without metadata, transactional commits, deletions,
    topic purges, loads), with writes that may fail or be fenced at any point, a
    group whose last write went through answers every fetch of offsets and of
    metadata the same from memory as a broker that just loaded it from the
    volume. *)
Theorem offsets_survive_restart d ops s' d' g specs :
  guarded_ops OffsetStore_new d ops = true → store_run OffsetStore_new d ops = (s', d') →
  has_group s' g = true → g ∉ dirty s' →
  fetch (reloaded d' g) g specs = fetch s' g specs ∧
  fetch_metadata (reloaded d' g) g specs = fetch_metadata s' g specs.
Proof.
  intros Hg Hrun Hc%has_group_true Hd. pose proof (store_run_ok _ _ _ (store_ok_new d) Hg) as [Hs _].
  rewrite Hrun in Hs. simpl in Hs.
  destruct (in_sync_reload s' d' g (Hs g) Hc Hd) as [Ho Hm].
  by rewrite !fetch_offsets_of, !fetch_metadata_of, Ho, Hm.
Qed.

Definition stamp1 : FenceStamp := {| fs_controller_epoch := 1; fs_assignment_version := 1 |}.
Definition stamp2 : FenceStamp := {| fs_controller_epoch := 1; fs_assignment_version := 2 |}.

Definition demo_offset_ops : list (FenceStamp * OffsetOp) :=
  [(stamp1, OCommit "g" {[offset_key "t" 0 := 5]} {[offset_key "t" 0 := "m"%string]} true);
   (stamp1, OStage "g" 7 {[offset_key "t" 1 := 9]});
   (stamp1, OCommitPending "g" 7 true);
   (stamp2, OPurge "g" "u" true);
   (stamp2, OCommit "g" {[offset_key "t" 0 := 6]} ∅ true)].

Definition demo_offset_end : OffsetStore * Disk := store_run OffsetStore_new ∅ demo_offset_ops.
Definition demo_specs : list FetchSpec := [{| fs_topic := "t"; fs_partitions := [0; 1; 2] |}].

Lemma offsets_survive_restart_witness :
  fetch (reloaded demo_offset_end.2 "g") "g" demo_specs = fetch demo_offset_end.1 "g" demo_specs ∧
  fetch_metadata (reloaded demo_offset_end.2 "g") "g" demo_specs =
    fetch_metadata demo_offset_end.1 "g" demo_specs.
Proof.
  apply (offsets_survive_restart ∅ demo_offset_ops).
  - vm_compute. reflexivity.
  - apply surjective_pairing.
  - vm_compute. reflexivity.
  - apply (bool_decide_eq_true_1 _). vm_compute. reflexivity.
Defined.

(** ** Several brokers *)

(** Events that may follow a commit without undoing it: other groups, and every
    operation but the deletion of the group under a stamp older than the file's. *)
Definition stale_for (g : string) (f : FenceStamp) (e : OffsetEvent) : bool :=
  match e with
  | Restart _ => true
  | At _ local o =>
    negb (bool_decide (op_group o = g)) ||
    (stamp_lt local f && match o with ODelete _ _ => false | _ => true end)
  end.

Lemma volume_step_file w e g f :
  disk w !! g = Some (Ok f) → stale_for g (f_fence f) e = true → disk (volume_step w e) !! g = Some (Ok f).
Proof.
  intros Hf. destruct e as [b local o|b]; [|done]. simpl. intros Hst.
  destruct (op_step local (store_of w b) (disk w) o) as [s' d'] eqn:E. simpl.
  destruct (op_step_disk local (store_of w b) (disk w) o g) as [Hd|(Hg & Hcase)]; rewrite E in *; simpl in *; [congruence|].
  rewrite bool_decide_true in Hst by done. simpl in Hst. apply andb_true_iff in Hst as [Hlt Hnd].
  destruct Hcase as [[ok ->]|[Hfence _]]; [done|].
  unfold on_disk_fence in Hfence. rewrite Hf in Hfence. rewrite Hfence in Hlt by done. done.
Qed.

Lemma volume_run_file w es g f :
  disk w !! g = Some (Ok f) → forallb (stale_for g (f_fence f)) es = true →
  disk (volume_run w es) !! g = Some (Ok f).
Proof.
  revert w. induction es as [|e es IH]; intros w Hf; [done|]. simpl. intros [He Hes]%andb_true_iff.
  apply IH; [|done]. by apply volume_step_file.
Qed.

(** A commit that answers [Ok] leaves the cache clean, holding what it was given. *)
Lemma commit_ok_clean s d g offs meta local ok s' d' :
  commit_with_metadata s d g offs meta local ok = (s', d', Ok tt) →
  cache s' !! g = Some (offs ∪ default ∅ (cache s !! g)) ∧ g ∉ dirty s'.
Proof.
  unfold commit_with_metadata. simpl. destruct (offsets_changed _ _ || meta_changed _ _ || _) eqn:Hch.
  - intros E. apply write_group_spec in E as (Hc&_&_&_&[(_&?&_)|(?&_)]); [|done].
    rewrite Hc. simpl. by rewrite lookup_insert_eq.
  - apply orb_false_iff in Hch as [_ Hd%bool_decide_eq_false]. intros [= <- <-]. simpl.
    by rewrite lookup_insert_eq.
Qed.

(** An acknowledged commit is in the group's file. *)
Lemma acked_offset_file s d g offs meta local ok s' d' k v :
  store_ok s d → commit_with_metadata s d g offs meta local ok = (s', d', Ok tt) → offs !! k = Some v →
  ∃ f, d' !! g = Some (Ok f) ∧ f_offsets f !! k = Some v.
Proof.
  intros Hok Hc Hk.
  assert (has_group s g || is_none (d !! g) || negb (bool_decide (offs = ∅)) = true) as Hg.
  { rewrite (bool_decide_false (offs = ∅)); [by rewrite !orb_true_r|]. intros ->. by rewrite lookup_empty in Hk. }
  pose proof (commit_ok _ _ g offs meta local ok Hok Hg) as Hok'. rewrite Hc in Hok'.
  apply commit_ok_clean in Hc as [Hcache Hclean].
  pose proof (proj1 Hok' g _ Hcache Hclean) as Hfile.
  assert ((offs ∪ default ∅ (cache s !! g)) !! k = Some v) as Hv
    by (apply lookup_union_Some_raw; by left).
  destruct (d' !! g) as [[f|]|] eqn:Ef; [|done|destruct Hfile as [He _]; by rewrite He, lookup_empty in Hv].
  exists f. split; [done|]. by destruct Hfile as [-> _].
Qed.


Definition demo_volume : Volume := {| stores := ∅; disk := ∅ |}.
Definition demo_commit : OffsetStore * Disk * result OffsetError unit :=
  commit_with_metadata OffsetStore_new ∅ "g" {[offset_key "t" 0 := 5]} ∅ stamp2 true.


(** ** Transactional offsets *)

Definition stage (k : string * Z) (m : gmap string Z) (s : OffsetStore) : OffsetStore :=
  with_pending s (<[k := m]> (pending s)).

(** Operations on the staged offsets of this group and producer. *)
Definition touches (k : string * Z) (o : OffsetOp) : bool :=
  match o with
  | OStage g pid _ | OCommitPending g pid _ | ODiscard g pid => bool_decide ((g, pid) = k)
  | _ => false
  end.

Lemma write_group_stage k m s d g o md local ok :
  write_group (stage k m s) d g o md local ok =
  let '(s', d', r) := write_group s d g o md local ok in (stage k m s', d', r).
Proof. unfold write_group. by repeat case_match; simplify_eq. Qed.

Lemma commit_stage k m s d g offs meta local ok :
  commit_with_metadata (stage k m s) d g offs meta local ok =
  let '(s', d', r) := commit_with_metadata s d g offs meta local ok in (stage k m s', d', r).
Proof.
  unfold commit_with_metadata. simpl. destruct (offsets_changed _ _ || meta_changed _ _ || _); [|done].
  change (with_group (stage k m s) ?g ?o ?m') with (stage k m (with_group s g o m')).
  apply write_group_stage.
Qed.

(** Staged offsets interfere with nothing but their own commit and discard. *)
Lemma op_step_stage k m local s d o :
  touches k o = false →
  op_step local (stage k m s) d o = let '(s', d') := op_step local s d o in (stage k m s', d').
Proof.
  destruct o as [g offs meta ok|g pid offs|g pid ok|g pid|g ok|g keys ok|g topic ok|g]; simpl; intros Ht.
  - rewrite commit_stage. by destruct (commit_with_metadata _ _ _ _ _ _ _) as [[??]?].
  - apply bool_decide_eq_false in Ht. unfold store_pending, stage, with_pending. simpl.
    rewrite lookup_insert_ne by done. by rewrite (insert_insert_ne (pending s)) by done.
  - apply bool_decide_eq_false in Ht. unfold commit_pending. simpl. rewrite lookup_insert_ne by done.
    destruct (pending s !! (g, pid)) as [offs|]; [|done]. unfold commit.
    replace (with_pending (stage k m s) (delete (g, pid) (<[k := m]> (pending s)))) with
      (stage k m (with_pending s (delete (g, pid) (pending s)))).
    + rewrite commit_stage. by destruct (commit_with_metadata _ _ _ _ _ _ _) as [[??]?].
    + unfold stage, with_pending. simpl. by rewrite delete_insert_ne by done.
  - apply bool_decide_eq_false in Ht. unfold discard_pending, stage, with_pending. simpl.
    by rewrite delete_insert_ne by done.
  - unfold delete_group_offsets. destruct (d !! g); [by destruct ok|done].
  - unfold delete_partitions. simpl. destruct (cache s !! g); [|done].
    change (with_group (stage k m s) ?g ?o ?m') with (stage k m (with_group s g o m')).
    rewrite write_group_stage. by destruct (write_group _ _ _ _ _ _ _) as [[??]?].
  - unfold purge_topic. simpl. destruct (cache s !! g) as [group|].
    + change (with_group (stage k m s) ?g ?o ?m') with (stage k m (with_group s g o m')).
      destruct (doomed topic group); [done|]. rewrite write_group_stage. by destruct (write_group _ _ _ _ _ _ _) as [[??]?].
    + destruct (d !! g) as [[f|]|]; [|done..]. destruct (doomed topic (f_offsets f)); [done|].
      rewrite write_group_stage. by destruct (write_group _ _ _ _ _ _ _) as [[??]?].
  - unfold load. by destruct (d !! g) as [[f|]|].
Qed.

Lemma store_run_stage k m ops s d :
  forallb (λ o, negb (touches k o.2)) ops = true →
  store_run (stage k m s) d ops = let '(s', d') := store_run s d ops in (stage k m s', d').
Proof.
  revert s d. induction ops as [|[local o] ops IH]; intros s d; [done|].
  simpl. intros [Ho%negb_true_iff Hops]%andb_true_iff.
  rewrite op_step_stage by done. destruct (op_step local s d o) as [s' d']. by apply IH.
Qed.

Lemma stage_pending k m s : pending (stage k m s) !! k = Some m.
Proof. apply lookup_insert_eq. Qed.

(** What a commit leaves in memory, whether or not the write went through. *)
Lemma commit_offsets_of s d g offs meta local ok g' :
  offsets_of (commit_with_metadata s d g offs meta local ok).1.1 g' =
  if decide (g' = g) then offs ∪ offsets_of s g else offsets_of s g'.
Proof.
  unfold commit_with_metadata, offsets_of. simpl.
  assert (∀ s', cache s' = <[g := offs ∪ default ∅ (cache s !! g)]> (cache s) →
    default ∅ (cache s' !! g') =
    if decide (g' = g) then offs ∪ default ∅ (cache s !! g) else default ∅ (cache s !! g')) as H.
  { intros s' ->. case_decide as Hg; [subst; by rewrite lookup_insert_eq|by rewrite lookup_insert_ne]. }
  destruct (offsets_changed _ _ || meta_changed _ _ || _); [|by apply H].
  destruct (write_group _ _ _ _ _ _ _) as [[s' d'] r] eqn:E.
  apply write_group_spec in E as (Hc&_). by apply H.
Qed.

(** C19. Transactional offsets are atomic: offsets staged for a producer in a group
    are invisible (every other operation, in any order, gives the same memory
    and the same files as if they had not been staged); the commit makes all of
    them visible at once and changes no other group, also when its write fails;
    the discard leaves no trace; and either one can be repeated. *)
Theorem staged_offsets_atomic s d g pid offs ops s0 d0 local ok :
  forallb (λ o, negb (touches (g, pid) o.2)) ops = true → store_run s d ops = (s0, d0) →
  let staged := offs ∪ default ∅ (pending s !! (g, pid)) in
  ∃ s1, store_run (store_pending s g pid offs) d ops = (s1, d0) ∧
    (∀ g' specs, fetch s1 g' specs = fetch s0 g' specs) ∧
    (let s2 := (commit_pending s1 d0 g pid local ok).1.1 in
     (∀ g', offsets_of s2 g' = if decide (g' = g) then staged ∪ offsets_of s0 g else offsets_of s0 g') ∧
     pending_for s2 g pid = None) ∧
    discard_pending s1 g pid = discard_pending s0 g pid ∧
    commit_pending (discard_pending s1 g pid) d0 g pid local ok = (discard_pending s1 g pid, d0, Ok tt).
Proof.
  intros Hops Hrun staged. exists (stage (g, pid) staged s0). split_and!.
  - change (store_pending s g pid offs) with (stage (g, pid) staged s).
    rewrite store_run_stage by done. by rewrite Hrun.
  - done.
  - cbv zeta. split.
    + intros g'. unfold commit_pending. rewrite stage_pending. unfold commit. rewrite commit_offsets_of. done.
    + unfold commit_pending, pending_for. rewrite stage_pending. unfold commit, commit_with_metadata. simpl.
      destruct (offsets_changed _ _ || meta_changed _ _ || _); simpl; [|by rewrite lookup_delete_eq].
      destruct (write_group _ _ _ _ _ _ _) as [[s' d'] r] eqn:E.
      apply write_group_spec in E as (_&_&Hp&_). simpl. rewrite Hp. simpl. by rewrite lookup_delete_eq.
  - unfold discard_pending, stage, with_pending. simpl. by rewrite delete_insert_eq.
  - unfold commit_pending, discard_pending. simpl. by rewrite lookup_delete_eq.
Qed.

Definition demo_mid_ops : list (FenceStamp * OffsetOp) :=
  [(stamp1, OCommit "g" {[offset_key "t" 0 := 5]} ∅ true); (stamp1, OStage "g" 8 {[offset_key "t" 2 := 1]})].

Lemma staged_offsets_atomic_witness :
  ∃ s1, store_run (store_pending OffsetStore_new "g" 7 {[offset_key "t" 0 := 9]}) ∅ demo_mid_ops
          = (s1, (store_run OffsetStore_new ∅ demo_mid_ops).2) ∧
        fetch s1 "g" demo_specs = fetch (store_run OffsetStore_new ∅ demo_mid_ops).1 "g" demo_specs.
Proof.
  destruct (staged_offsets_atomic OffsetStore_new ∅ "g" 7 {[offset_key "t" 0 := 9]} demo_mid_ops
    (store_run OffsetStore_new ∅ demo_mid_ops).1 (store_run OffsetStore_new ∅ demo_mid_ops).2 stamp1 true)
    as (s1 & Hrun & Hf & _).
  - vm_compute. reflexivity.
  - apply surjective_pairing.
  - exists s1. split; [exact Hrun|]. apply Hf.
Defined.

(** ** What the write path does not protect *)

(** The stamp does not cover the handoff: after the new coordinator loaded the
    group and before it first writes, the old coordinator's commit is still
    accepted, and the new one's first commit, a rewrite from what it loaded,
    erases it. *)
Theorem handoff_window_loses_commit :
  let k0 := offset_key "t" 0 in let k1 := offset_key "t" 1 in
  let d0 := (commit OffsetStore_new ∅ "g" {[k0 := 1; k1 := 1]} stamp1 true).1.2 in
  let old := reloaded d0 "g" in
  let new := reloaded d0 "g" in
  let '(old', d1, r1) := commit old d0 "g" {[k0 := 50]} stamp1 true in
  let '(new', d2, r2) := commit new d1 "g" {[k1 := 60]} stamp2 true in
  r1 = Ok tt ∧ r2 = Ok tt ∧
  offsets_of (reloaded d1 "g") "g" !! k0 = Some 50 ∧
  offsets_of (reloaded d2 "g") "g" !! k0 = Some 1.
Proof. vm_compute. repeat split. Qed.

(** Deleting a group is not fenced: a broker under an older assignment removes the
    file the current coordinator has just written. *)
Theorem stale_delete_erases w b local g ok f :
  disk w !! g = Some (Ok f) →
  disk (volume_step w (At b local (ODelete g ok))) !! g = if ok then None else Some (Ok f).
Proof.
  intros Hf. simpl. unfold delete_group_offsets. rewrite Hf. destruct ok; simpl; [apply lookup_delete_eq|done].
Qed.

(** Two commits of one group that overlap can land out of order: each merges
    under the lock and writes its snapshot after releasing it, so the older
    snapshot can be renamed over the newer one.  Both are acknowledged, the group
    is not marked dirty, and the volume lacks the second commit. *)
Theorem overlapping_commits_reorder :
  let k0 := offset_key "t" 0 in let k1 := offset_key "t" 1 in
  let '(s1, (o1, m1, c1)) := commit_merge OffsetStore_new "g" {[k0 := 5]} ∅ in
  let '(s2, (o2, m2, c2)) := commit_merge s1 "g" {[k1 := 9]} ∅ in
  let '(s3, d1, r2) := write_group s2 ∅ "g" o2 m2 stamp1 true in
  let '(s4, d2, r1) := write_group s3 d1 "g" o1 m1 stamp1 true in
  r1 = Ok tt ∧ r2 = Ok tt ∧ bool_decide ("g" ∈ dirty s4) = false ∧
  offsets_of s4 "g" !! k1 = Some 9 ∧ offsets_of (reloaded d2 "g") "g" !! k1 = None.
Proof. vm_compute. repeat split. Qed.

(** Reloading a group whose file has no metadata keeps the metadata this broker
    had before: the group's metadata is then not what the file says. *)
Theorem reload_keeps_stale_metadata :
  let k := offset_key "t" 0 in
  let '(s1, d1, _) := commit_with_metadata OffsetStore_new ∅ "g" {[k := 1]} {[k := "old"%string]} stamp1 true in
  let '(_, d2, _) := commit_with_metadata (reloaded d1 "g") d1 "g" {[k := 2]} {[k := ""%string]} stamp2 true in
  let s2 := (load s1 d2 "g").1 in
  offsets_of s2 "g" !! k = Some 2 ∧ metadata_of s2 "g" !! k = Some "old"%string ∧
  metadata_of (reloaded d2 "g") "g" !! k = None.
Proof. vm_compute. repeat split. Qed.
