(* ===== verification/Engine.v ===== *)
(** * The storage engine ([kaas-storage/src/disk.rs])

    A broker's open partitions over the shared volumes: where a partition's
    directory is (placement, overridden by where a manifest already lies), whether
    a directory may be opened (topic incarnation), opening on first use, and the
    operations of [DiskStorageEngine]; with them the takeover driver
    ([kaas-broker/src/takeover.rs]), the per-topic tuning ([topicconfig.rs]), the
    identity stamp ([topic_identity.rs]) and the log-dir migration
    ([handlers/alter_replica_log_dirs.rs]).

    The volumes are shared, so they are a state of their own ([LogVolume]): the
    directories by root and partition, the stamps by root and topic.  A partition
    in the engine's map carries the root of the directory it was opened from.
    [write_through] is what the file operations of a partition step do to that
    directory. *)

From stdpp Require Import base gmap strings list sorting pretty.
From Stdlib Require Import Strings.Byte.
From S2P Require Import Prelude Primitives Wire Idempotence TxnIndex Segment SegmentDir ControlBatch Partition Recovery Cluster OffsetStore.

Local Open Scope Z_scope.

Notation Key := (string * Z)%type.

Definition DEFAULT_LOG_DIR_NAME : string := "default".

Record LogDirInfo := {
  ld_name : string; ld_path : string; default_eligible : bool; cordoned : bool; labels : gmap string string }.

(** What the broker knows of the topic's incarnation. *)
Inductive TopicIncarnation := Unknown | Pending | Known (topic_id : string).

(** ** Per-topic tuning ([topicconfig.rs]) *)

Record TopicConfigFile := {
  tc_retention_ms : option Z; tc_retention_bytes : option Z; tc_segment_bytes : option Z;
  tc_segment_ms : option Z; tc_cleanup_policy : string; tc_min_compaction_lag_ms : option Z;
  tc_delete_retention_ms : option Z; tc_flush_messages : option Z }.

Definition sentinel_to_option (v : Z) : option Z := if v <=? 0 then None else Some v.

Definition apply_to_partition_config (c : TopicConfigFile) (base : PartitionConfig) : PartitionConfig :=
  {| segment_bytes := default (segment_bytes base) (tc_segment_bytes c ≫= sentinel_to_option);
     segment_ms := match tc_segment_ms c with Some raw => sentinel_to_option raw | None => segment_ms base end;
     index_interval_bytes := index_interval_bytes base;
     flush_interval_messages := default (flush_interval_messages base) (tc_flush_messages c) |}.

(** ** State *)

(** [stamps]: the identity stamp of a topic directory, unreadable or a topic id
    (an empty id reads as none). *)
Record LogVolume := {
  dirs : gmap (string * Key) Dir;
  stamps : gmap (string * string) (result unit string) }.

Record EngineConfig := { data_dir : string; extra_log_dirs : list LogDirInfo }.

Record Engine := { partitions : gmap Key (string * Partition); migrating : gset Key }.

Definition Engine_new : Engine := {| partitions := ∅; migrating := ∅ |}.

Definition with_extra_log_dirs (root : string) (ds : list LogDirInfo) : EngineConfig :=
  {| data_dir := root; extra_log_dirs := filter (λ d, ld_name d ≠ DEFAULT_LOG_DIR_NAME) ds |}.

Definition empty_dir : Dir :=
  {| files := ∅; manifest_file := None; legacy_epoch := None; checkpoint_file := None;
     producer_file := None; txn_file := None |}.

Definition dir_at (v : LogVolume) (root : string) (k : Key) : Dir := default empty_dir (dirs v !! (root, k)).

Definition set_dir (v : LogVolume) (root : string) (k : Key) (d : Dir) : LogVolume :=
  {| dirs := <[(root, k) := d]> (dirs v); stamps := stamps v |}.

Definition set_partition (e : Engine) (k : Key) (root : string) (p : Partition) : Engine :=
  {| partitions := <[k := (root, p)]> (partitions e); migrating := migrating e |}.
Definition drop_partition (e : Engine) (k : Key) : Engine :=
  {| partitions := delete k (partitions e); migrating := migrating e |}.

(** What the files of a partition step do: segments dropped by delete-records or
    an empty roll are removed, the active segment's files are written. *)
Definition write_through (p p' : Partition) (d : Dir) : Dir :=
  let gone := filter (λ m, seg_key m ∉ (seg_key <$> segments_of p')) (segments_of p) in
  with_files d
    (foldl (λ fs e, <[e.1 := e.2]> fs)
       (foldl (λ fs e, delete e.1 fs) (files d) (gone ≫= entries_of))
       (entries_of (active_meta (active p')))).

(** ** Identity stamps ([topic_identity.rs]) *)

Definition read_topic_identity (v : LogVolume) (root topic : string) : result unit (option string) :=
  match stamps v !! (root, topic) with
  | None => Ok None
  | Some (Err e) => Err e
  | Some (Ok id) => Ok (if str_is_empty id then None else Some id)
  end.

Inductive IdentityVerdict := Unstamped | Match | Stale.

Definition classify_identity (v : LogVolume) (root topic topic_id : string) : result unit IdentityVerdict :=
  o ← read_topic_identity v root topic;
  mret match o with
       | None => Unstamped
       | Some id => if bool_decide (id = topic_id) then Match else Stale
       end.

(** ** Where a partition is *)

Section engine.
Context (cfg : EngineConfig).
Context (crc32c : list byte → Z) (crc32c_append : Z → list byte → Z).

(** [log_dir_root]: the placement's log dir, the default on any miss. *)
Definition log_dir_root (placement : Key → option string) (k : Key) : string :=
  match placement k with
  | Some n =>
    match list_find (λ d, ld_name d = n) (extra_log_dirs cfg) with
    | Some (_, d) => ld_path d
    | None => data_dir cfg
    end
  | None => data_dir cfg
  end.

Definition has_manifest (v : LogVolume) (k : Key) (root : string) : bool :=
  bool_decide (is_Some (dirs v !! (root, k) ≫= manifest_file)).

Definition all_roots : list string := data_dir cfg :: (ld_path <$> extra_log_dirs cfg).

(** The root of [partition_dir]: the assigned one if it has a manifest, else
    another that has, else the assigned one. *)
Definition partition_root (placement : Key → option string) (v : LogVolume) (k : Key) : string :=
  let assigned := log_dir_root placement k in
  if has_manifest v k assigned then assigned
  else match list_find (λ r, r ≠ assigned ∧ has_manifest v k r = true) all_roots with
       | Some (_, r) => r
       | None => assigned
       end.

Definition partition_log_dir (placement : Key → option string) (k : Key) : string :=
  match placement k with
  | Some n => if existsb (λ d, bool_decide (ld_name d = n)) (extra_log_dirs cfg) then n else DEFAULT_LOG_DIR_NAME
  | None => DEFAULT_LOG_DIR_NAME
  end.

(** [identity_permits_open]; [None]: no resolver is installed. *)
Definition identity_permits_open (identity : option (string → TopicIncarnation)) (v : LogVolume)
    (root topic : string) : bool :=
  match identity with
  | None => true
  | Some r =>
    match r topic with
    | Unknown => true
    | expected =>
      match read_topic_identity v root topic with
      | Err _ => true
      | Ok None => true
      | Ok (Some have) => match expected with Known want => bool_decide (have = want) | _ => false end
      end
    end
  end.

(** ** The operations *)

Context (placement : Key → option string) (identity : option (string → TopicIncarnation)).

Definition ensure_open (e : Engine) (v : LogVolume) (k : Key) :
    Engine * LogVolume * result StorageError (string * Partition) :=
  if bool_decide (k ∈ migrating e) then (e, v, Err Migrating)
  else match partitions e !! k with
  | Some rp => (e, v, Ok rp)
  | None =>
    let root := partition_root placement v k in
    if identity_permits_open identity v root k.1 then
      match open_partition crc32c crc32c_append (dir_at v root k) with
      | (d, Err err) => (e, set_dir v root k d, Err err)
      | (d, Ok p) => (set_partition e k root p, set_dir v root k d, Ok (root, p))
      end
    else (e, v, Err StaleTopicDir)
  end.

Definition create_partition (e : Engine) (v : LogVolume) (k : Key) : Engine * LogVolume * result StorageError unit :=
  let '(e, v, r) := ensure_open e v k in
  (e, v, match r with Ok _ => Ok tt | Err err => Err err end).

Definition engine_append (pcfg : PartitionConfig) (age : Z) (e : Engine) (v : LogVolume) (k : Key)
    (epoch : Z) (batch : list byte) : Engine * LogVolume * result StorageError (Z * bool) :=
  let '(e, v, r) := ensure_open e v k in
  match r with
  | Err err => (e, v, Err err)
  | Ok (root, p) =>
    let '(p', out) := append pcfg age epoch batch p in
    (set_partition e k root p', set_dir v root k (write_through p p' (dir_at v root k)), out)
  end.

(** A partition that is not open here reads as empty. *)
Definition engine_read (e : Engine) (k : Key) (start : Z) (max : nat) : list byte :=
  match partitions e !! k with Some (_, p) => read p start max | None => [] end.

Definition partition_epoch (e : Engine) (k : Key) : option Z := p_epoch ∘ snd <$> partitions e !! k.
Definition engine_high_watermark (e : Engine) (k : Key) : Z :=
  match partitions e !! k with Some (_, p) => high_water p | None => 0 end.
Definition engine_log_start (e : Engine) (k : Key) : Z :=
  match partitions e !! k with Some (_, p) => log_start p | None => 0 end.
Definition engine_lso (e : Engine) (k : Key) : Z :=
  match partitions e !! k with Some (_, p) => last_stable_offset p | None => engine_high_watermark e k end.
Definition engine_aborted (e : Engine) (k : Key) (start end_ : Z) : list AbortedTxn :=
  match partitions e !! k with Some (_, p) => aborted_in_range p start end_ | None => [] end.
Definition engine_size (e : Engine) (k : Key) : Z :=
  match partitions e !! k with Some (_, p) => partition_size p | None => 0 end.

Definition engine_delete_records (e : Engine) (v : LogVolume) (k : Key) (target : Z) :
    Engine * LogVolume * result StorageError Z :=
  let '(e, v, r) := ensure_open e v k in
  match r with
  | Err err => (e, v, Err err)
  | Ok (root, p) =>
    let '(p', out) := delete_records p target in
    (set_partition e k root p', set_dir v root k (write_through p p' (dir_at v root k)), out)
  end.

(** Every open partition; the others are not told. *)
Definition fence_producer_epoch (e : Engine) (pid new_epoch : Z) : Engine :=
  {| partitions := prod_map id (λ p, fence_producer p pid new_epoch) <$> partitions e;
     migrating := migrating e |}.

Definition engine_take_over (e : Engine) (v : LogVolume) (k : Key) (epoch : Z) :
    Engine * LogVolume * result StorageError Z :=
  let '(e, v, r) := ensure_open e v k in
  match r with
  | Err err => (e, v, Err err)
  | Ok (root, p) =>
    let '(d, p', hwm) := take_over_persist (dir_at v root k) p epoch in
    (set_partition e k root p', set_dir v root k (write_through p p' d), Ok hwm)
  end.

(** [relinquish]: out of the map, then [close]. *)
Definition relinquish (e : Engine) (v : LogVolume) (k : Key) (synced : bool) : Engine * LogVolume :=
  match partitions e !! k with
  | Some (root, p) => (drop_partition e k, set_dir v root k (close_partition (dir_at v root k) p synced).1)
  | None => (e, v)
  end.

Definition drain (e : Engine) (v : LogVolume) (synced : Key → bool) : Engine * LogVolume :=
  foldl (λ ev k, relinquish ev.1 ev.2 k (synced k)) (e, v) (map_to_list (partitions e)).*1.

(** [delete_partition]: close, then remove the files of its directory. *)
Definition delete_partition (e : Engine) (v : LogVolume) (k : Key) (synced : bool) : Engine * LogVolume :=
  let '(e, v) := relinquish e v k synced in
  let root := partition_root placement v k in
  (e, match dirs v !! (root, k) with Some _ => set_dir v root k empty_dir | None => v end).

Definition abandon_topic (e : Engine) (topic : string) : Engine * nat :=
  let ks := filter (λ k, k.1 = topic) (map_to_list (partitions e)).*1 in
  ({| partitions := foldl (λ m k, delete k m) (partitions e) ks; migrating := migrating e |}, length ks).

(** *** Moving a partition between log dirs

    [move_partition_to_log_dir] closes the partition, copies its directory and
    releases the migration mark; [MoveBegin] and [MoveCopy] are its two halves
    (the copy runs on another thread, with other requests in between). *)

Definition target_root (log_dir : string) : option string :=
  if bool_decide (log_dir = DEFAULT_LOG_DIR_NAME) then Some (data_dir cfg)
  else match list_find (λ d, ld_name d = log_dir) (extra_log_dirs cfg) with
       | Some (_, d) => Some (ld_path d)
       | None => None
       end.

(** [Ok (src, None)]: the source is the target, nothing to do. *)
Definition move_begin (e : Engine) (v : LogVolume) (k : Key) (log_dir : string) (synced : bool) :
    Engine * LogVolume * result StorageError (string * option string) :=
  match target_root log_dir with
  | None => (e, v, Err (Unsupported "unknown target log dir"))
  | Some dst =>
    let src := partition_root placement v k in
    if bool_decide (src = dst) then (e, v, Ok (src, None))
    else if bool_decide (k ∈ migrating e) then (e, v, Err Migrating)
    else
      let e := {| partitions := partitions e; migrating := {[k]} ∪ migrating e |} in
      let '(e, v) := relinquish e v k synced in
      (e, v, Ok (src, Some dst))
  end.

Definition move_copy (e : Engine) (v : LogVolume) (k : Key) (src dst : string) : Engine * LogVolume :=
  ({| partitions := partitions e; migrating := migrating e ∖ {[k]} |}, set_dir v dst k (dir_at v src k)).

End engine.

(** *** [migrate_partition] *)

Definition ERR_UNKNOWN_TOPIC_OR_PARTITION : Z := 3.
Definition ERR_REPLICA_NOT_AVAILABLE : Z := 9.
Definition ERR_KAFKA_STORAGE_ERROR : Z := 56.
Definition ERR_LOG_DIR_NOT_FOUND : Z := 57.

(** [remove_dir_all]. *)
Definition remove_dir (v : LogVolume) (root : string) (k : Key) : LogVolume :=
  {| dirs := delete (root, k) (dirs v); stamps := stamps v |}.

(** After the copy: flip the placement record ([None]: the write of the record
    failed, the copy is removed), then remove the source directory. *)
Definition migrate_finish (cfg : EngineConfig) (placement : gmap Key string) (v : LogVolume) (k : Key)
    (src log_dir : string) (flip_ok : bool) : gmap Key string * LogVolume * Z :=
  if flip_ok then (<[k := log_dir]> placement, remove_dir v src k, 0)
  else (placement, match target_root cfg log_dir with Some dst => remove_dir v dst k | None => v end,
        ERR_KAFKA_STORAGE_ERROR).

(** The whole of it with nothing in between. *)
Definition migrate_partition (cfg : EngineConfig) (known owns : bool) (placement : gmap Key string)
    (e : Engine) (v : LogVolume) (k : Key) (log_dir : string) (synced flip_ok : bool) :
    Engine * gmap Key string * LogVolume * Z :=
  if known then
    if owns then
      match move_begin cfg (λ k, placement !! k) e v k log_dir synced with
      | (e, v, Err UnknownTopicOrPartition) => (e, placement, v, ERR_UNKNOWN_TOPIC_OR_PARTITION)
      | (e, v, Err (Unsupported _)) => (e, placement, v, ERR_LOG_DIR_NOT_FOUND)
      | (e, v, Err _) => (e, placement, v, ERR_KAFKA_STORAGE_ERROR)
      | (e, v, Ok (src, dst)) =>
        let '(e, v) := match dst with Some dst => move_copy e v k src dst | None => (e, v) end in
        let '(placement, v, code) := migrate_finish cfg placement v k src log_dir flip_ok in
        (e, placement, v, code)
      end
    else (e, placement, v, ERR_REPLICA_NOT_AVAILABLE)
  else (e, placement, v, ERR_UNKNOWN_TOPIC_OR_PARTITION).

(** ** The takeover driver ([takeover.rs]) *)

Record OwnedRef := { o_topic : string; o_partition : Z; o_epoch : Z }.

(** Keyed by [partition_key]; a later row of the same partition wins. *)
Definition owned_by (broker_id : string) (a : option Assignment) : gmap string OwnedRef :=
  match a with
  | None => ∅
  | Some a =>
    foldl (λ m p, <[partition_key (pa_topic p) (pa_partition p) :=
                     {| o_topic := pa_topic p; o_partition := pa_partition p; o_epoch := pa_epoch p |}]> m) ∅
      (filter (λ p, pa_broker p = broker_id) (Cluster.partitions a))
  end.

(** The calls one assignment change spawns: take-overs with their epoch, then
    relinquishes. *)
Definition driver_on_change (broker_id : string) (prev : option Assignment) (next : Assignment) :
    list (Key * Z) * list Key :=
  let prev_owned := owned_by broker_id prev in
  let next_owned := owned_by broker_id (Some next) in
  (omap (λ kv, let '(k, ne) := kv in
      let needs := match prev_owned !! k with Some pe => negb (o_epoch pe =? o_epoch ne) | None => true end in
      if needs then Some ((o_topic ne, o_partition ne), o_epoch ne) else None) (map_to_list next_owned),
   omap (λ kv, let '(k, pe) := kv in
      match next_owned !! k with Some _ => None | None => Some (o_topic pe, o_partition pe) end)
     (map_to_list prev_owned)).

(** The take-overs a reconcile pass re-drives: owned partitions that are not
    open, or open below the assignment's epoch. *)
Definition driver_reconcile (broker_id : string) (e : Engine) (next : Assignment) : list (Key * Z) :=
  omap (λ kv, let o := kv.2 in
      let k := (o_topic o, o_partition o) in
      let converged := match partition_epoch e k with Some have => negb (have <? o_epoch o) | None => false end in
      if converged then None else Some (k, o_epoch o)) (map_to_list (owned_by broker_id (Some next))).

(** ** Where the data is *)

Lemma log_dir_root_known cfg placement k : log_dir_root cfg placement k ∈ all_roots cfg.
Proof.
  unfold log_dir_root, all_roots. destruct (placement k) as [n|]; [|by left].
  destruct (list_find _ _) as [[i d]|] eqn:E; [|by left].
  apply list_find_Some in E as (E & _). right. apply list_elem_of_fmap. exists d.
  split; [done|]. by eapply list_elem_of_lookup_2.
Qed.

(** The root that alone holds the manifest is used, whatever the placement says. *)
Lemma partition_root_found cfg placement v k root :
  root ∈ all_roots cfg → has_manifest v k root = true →
  (∀ r, r ∈ all_roots cfg → r ≠ root → has_manifest v k r = false) →
  partition_root cfg placement v k = root.
Proof.
  intros Hin Hm Hother. unfold partition_root. set (a := log_dir_root cfg placement k).
  assert (a ∈ all_roots cfg) as Ha by apply log_dir_root_known.
  destruct (decide (a = root)) as [->|Hne]; [by rewrite Hm|].
  rewrite (Hother a Ha Hne). destruct (list_find _ _) as [[i r]|] eqn:E.
  - apply list_find_Some in E as (Hr & (Hra & Hrm) & _). apply list_elem_of_lookup_2 in Hr.
    destruct (decide (r = root)) as [->|Hr']; [done|]. by rewrite (Hother r Hr Hr') in Hrm.
  - exfalso. apply list_find_None in E. rewrite Forall_forall in E. by apply (E root Hin).
Qed.

(** A late or wrong placement record never hides a partition's log: when
    exactly one log dir holds the partition's manifest, the partition is opened
    there, whatever log dir the placement names and in particular when it names
    none or an unknown one; only a partition with no manifest anywhere is created
    at the assigned place. *)
Theorem data_found_where_it_lies cfg placement placement' v k root :
  root ∈ all_roots cfg → has_manifest v k root = true →
  (∀ r, r ∈ all_roots cfg → r ≠ root → has_manifest v k r = false) →
  partition_root cfg placement v k = root ∧ partition_root cfg placement' v k = root.
Proof. intros Hin Hm Hother. split; by apply partition_root_found. Qed.

Lemma set_dir_at v root k d : dir_at (set_dir v root k d) root k = d.
Proof. unfold dir_at, set_dir. cbn. by rewrite lookup_insert_eq. Qed.

Lemma set_dir_manifest v root k d r m :
  manifest_file d = Some m →
  has_manifest (set_dir v root k d) k r = if decide (r = root) then true else has_manifest v k r.
Proof.
  intros Hm. unfold has_manifest, set_dir. cbn. destruct (decide (r = root)) as [->|Hne].
  - rewrite lookup_insert_eq. cbn. by rewrite Hm.
  - by rewrite lookup_insert_ne by congruence.
Qed.

(** ** Handing a partition over *)

Section handoff.
Context (crc32c : list byte → Z) (crc32c_append : Z → list byte → Z).
Context (crc_law : ∀ a b, crc32c_append (crc32c a) b = crc32c (a ++ b)).

Lemma close_manifest d p synced :
  not_superseded d (p_epoch p) →
  manifest_file (close_partition d p synced).1 = Some (Ok {| m_epoch := p_epoch p;
    m_high_watermark := high_water p; m_log_start_offset := log_start p |}).
Proof.
  intros Hs. destruct (persist_state_spec d p (p_epoch p) Hs) as (d' & Hp & _ & _ & Hm & _).
  unfold close_partition. rewrite Hp. by destruct synced.
Qed.

Lemma take_over_fields p e :
  p_epoch p < e → high_water (take_over p e).1 = high_water p ∧
  producer_states (take_over p e).1 = producer_states p ∧ open_txns (take_over p e).1 = open_txns p ∧
  flush_err (take_over p e).1 = flush_err p ∧ p_epoch (take_over p e).1 = e ∧
  (take_over p e).2 = high_water p.
Proof.
  intros He. unfold take_over. destruct (Z.leb_spec e (p_epoch p)); [lia|].
  unfold roll_for_epoch. by case_match.
Qed.

(** What the next holder of a partition needs to know of it. *)
Record handed_over (p : Partition) (l : list (list byte)) (d : Dir) : Prop := {
  ho_holds : holds p l;
  ho_good : Forall (good_batch crc32c) l;
  ho_names : names_ok p;
  ho_files : files d = files_of (segments_of p);
  ho_hw : high_water p ≤ i64_max;
  ho_bytes : Z.of_nat (length (concat l)) ≤ i64_max;
  ho_aborted : StronglySorted first_lt (aborted_txns p);
  ho_epoch : not_superseded d (p_epoch p);
  ho_checkpoint : ∀ la, segment_ok (active p) la → checkpoint_ok d (meta_base (active p)) la }.

(** C10. Leadership moves without loss: when one broker relinquishes a partition
    and another takes it over at a higher epoch on the shared volume, the new
    leader opens it where it lies, holds exactly the batches the old one held, at
    the same offsets, with the same deduplication window and open transactions,
    and refuses every append of an earlier epoch. *)
Theorem graceful_handoff cfgB plB idB eA eB v k root p l synced e eA' v' :
  partitions eA !! k = Some (root, p) → handed_over p l (dir_at v root k) →
  root ∈ all_roots cfgB → (∀ r, r ∈ all_roots cfgB → r ≠ root → has_manifest v k r = false) →
  partitions eB !! k = None → k ∉ migrating eB →
  relinquish eA v k synced = (eA', v') → identity_permits_open idB v' root k.1 = true →
  p_epoch p < e →
  partitions eA' !! k = None ∧
  ∃ eB' v'' p', engine_take_over cfgB crc32c crc32c_append plB idB eB v' k e = (eB', v'', Ok (high_water p)) ∧
    partitions eB' !! k = Some (root, p') ∧ holds p' l ∧ high_water p' = high_water p ∧
    producer_states p' = producer_states p ∧ open_txns p' = open_txns p ∧
    ∀ pcfg age e' b, e' < e → append pcfg age e' b p' = (p', Err EpochMismatch).
Proof.
  intros HA [Hh Hg Hn Hf Hhw Hby Hab Hep Hcp] Hroot Hother HB Hmig Hrel Hid He.
  unfold relinquish in Hrel. rewrite HA in Hrel. injection Hrel as <- <-.
  split; [by apply lookup_delete_eq|].
  set (d := dir_at v root k) in *. set (d1 := (close_partition d p synced).1) in *.
  set (v1 := set_dir v root k d1) in *.
  destruct (reopen_closed crc32c crc32c_append crc_law p l d synced d1 (close_partition d p synced).2)
    as (d2 & p2 & Ho & Hh2 & Hw2 & Hls2 & Hep2 & Hps2 & Hot2 & _ & Hfe2); try done; [apply surjective_pairing|].
  assert (partition_root cfgB plB v1 k = root) as Hpr.
  { pose proof (λ r, set_dir_manifest v root k d1 r _ (close_manifest d p synced Hep)) as Hm.
    apply partition_root_found; [done|by rewrite Hm, decide_True|].
    intros r Hr Hne. unfold v1. rewrite Hm, decide_False by done. by apply Hother. }
  unfold engine_take_over, ensure_open. rewrite bool_decide_eq_false_2, HB, Hpr, Hid by done.
  unfold v1 at 1. rewrite set_dir_at, Ho, set_dir_at.
  destruct (take_over_fields p2 e ltac:(lia)) as (Hw3 & Hps3 & Hot3 & Hfe3 & Hep3 & Hr3).
  unfold take_over_persist. destruct (Z.leb_spec e (p_epoch p2)); [lia|].
  destruct (persist_state d2 (roll_for_epoch p2 e) e) as [d3 ok].
  rewrite (surjective_pairing (take_over p2 e)), Hr3, Hw2.
  eexists _, _, (take_over p2 e).1. split; [reflexivity|].
  split; [by apply lookup_insert_eq|]. split; [by apply take_over_holds|].
  rewrite Hw3, Hps3, Hot3. split; [done|]. split; [done|]. split; [done|].
  intros pcfg age e' b He'. unfold append. rewrite Hfe3, Hfe2, Hep3.
  by destruct (Z.ltb_spec e' e); [|lia].
Qed.

End handoff.

(** ** Moving a partition *)

Section migration.
Context (crc32c : list byte → Z) (crc32c_append : Z → list byte → Z).
Context (crc_law : ∀ a b, crc32c_append (crc32c a) b = crc32c (a ++ b)).

Lemma remove_dir_at v root root' k :
  root' ≠ root → dirs (remove_dir v root k) !! (root', k) = dirs v !! (root', k).
Proof. intros Hne. cbn. apply lookup_delete_ne. congruence. Qed.

(** A migration that nothing interrupts keeps the log: the partition is
    closed, copied to the other log dir and the placement record flipped; opening
    it afterwards, under the new record, finds the same batches at the new place,
    and the source directory is gone. *)
Theorem migration_keeps_log cfg pl e v k root p l log_dir dst synced e' pl' v' :
  partitions e !! k = Some (root, p) → handed_over crc32c p l (dir_at v root k) →
  partition_root cfg (λ k, pl !! k) v k = root → target_root cfg log_dir = Some dst → dst ≠ root →
  log_dir ≠ DEFAULT_LOG_DIR_NAME → k ∉ migrating e →
  migrate_partition cfg true true pl e v k log_dir synced true = (e', pl', v', 0) →
  dirs v' !! (root, k) = None ∧ partition_root cfg (λ k, pl' !! k) v' k = dst ∧
  ∃ d2 p2, open_partition crc32c crc32c_append (dir_at v' dst k) = (d2, Ok p2) ∧ holds p2 l ∧
    high_water p2 = high_water p ∧ producer_states p2 = producer_states p.
Proof.
  intros HA [Hh Hg Hn Hf Hhw Hby Hab Hep Hcp] Hroot Hdst Hne Hdef Hmig.
  unfold migrate_partition, move_begin. rewrite Hdst, Hroot.
  rewrite !bool_decide_eq_false_2 by congruence. unfold relinquish. cbn [partitions]. rewrite HA.
  set (d := dir_at v root k) in *. set (d1 := (close_partition d p synced).1) in *.
  unfold move_copy. rewrite set_dir_at. unfold migrate_finish.
  intros [= <- <- <-]. split; [apply lookup_delete_eq|].
  assert (log_dir_root cfg (λ k', <[k := log_dir]> pl !! k') k = dst) as Hl.
  { unfold log_dir_root. rewrite lookup_insert_eq. unfold target_root in Hdst.
    rewrite bool_decide_eq_false_2 in Hdst by done. by destruct (list_find _ _) as [[]|]; simplify_eq. }
  assert (dirs (remove_dir (set_dir (set_dir v root k d1) dst k d1) root k) !! (dst, k) = Some d1) as Hat.
  { rewrite remove_dir_at by done. apply lookup_insert_eq. }
  split.
  { unfold partition_root. rewrite Hl. unfold has_manifest. rewrite Hat. cbn.
    unfold d1. by rewrite (close_manifest d p synced Hep). }
  unfold dir_at. rewrite Hat. cbn [default].
  destruct (reopen_closed crc32c crc32c_append crc_law p l d synced d1 (close_partition d p synced).2)
    as (d2 & p2 & Ho & Hh2 & Hw2 & _ & _ & Hps2 & _); try done; [apply surjective_pairing|].
  by exists d2, p2.
Qed.

End migration.

(** Moving a partition to the log dir it is already in deletes it: the engine
    answers at once with the source directory, and the handler goes on to remove
    it (as the source when the record is written, as the copy when that fails). *)
Theorem move_in_place_deletes cfg pl e v k log_dir synced flip_ok :
  target_root cfg log_dir = Some (partition_root cfg (λ k, pl !! k) v k) →
  let '(_, _, v', _) := migrate_partition cfg true true pl e v k log_dir synced flip_ok in
  dirs v' !! (partition_root cfg (λ k, pl !! k) v k, k) = None.
Proof.
  intros Ht. unfold migrate_partition, move_begin. rewrite Ht, bool_decide_eq_true_2 by done.
  unfold migrate_finish. rewrite Ht. destruct flip_ok; cbn; apply lookup_delete_eq.
Qed.

(** ** The identity gate *)

(** A directory that belongs to another incarnation of the topic is never
    opened, and nothing is written to it: whatever the partition operation, a
    stamp that differs from the topic's current id (or any stamp while the topic
    has no id yet) is answered with an error, leaving engine and volume as they
    were; a directory without a readable stamp, and a topic the broker knows
    nothing of, are not refused. *)
Theorem stale_directory_untouched cfg crc crca pl r e v k epoch :
  k ∉ migrating e → partitions e !! k = None →
  let root := partition_root cfg pl v k in
  match read_topic_identity v root k.1 with
  | Ok (Some have) =>
    match r k.1 with
    | Known want => have ≠ want
    | Pending => True
    | Unknown => False
    end →
    engine_take_over cfg crc crca pl (Some r) e v k epoch = (e, v, Err StaleTopicDir) ∧
    create_partition cfg crc crca pl (Some r) e v k = (e, v, Err StaleTopicDir) ∧
    ∀ target, engine_delete_records cfg crc crca pl (Some r) e v k target = (e, v, Err StaleTopicDir)
  | _ => identity_permits_open (Some r) v root k.1 = true
  end.
Proof.
  intros Hm Hp root. destruct (read_topic_identity v root k.1) as [[have|]|] eqn:E.
  2,3: unfold identity_permits_open; destruct (r k.1); by rewrite ?E.
  intros Hr. assert (ensure_open cfg crc crca pl (Some r) e v k = (e, v, Err StaleTopicDir)) as He.
  { unfold ensure_open. rewrite bool_decide_eq_false_2, Hp by done. fold root.
    assert (identity_permits_open (Some r) v root k.1 = false) as ->; [|done].
    unfold identity_permits_open. destruct (r k.1) as [| |want]; [done|by rewrite E|].
    rewrite E. by apply bool_decide_eq_false_2. }
  unfold engine_take_over, create_partition, engine_delete_records. by rewrite He.
Qed.

(** ** The takeover driver follows the assignment *)

Lemma owned_key b a s o :
  owned_by b a !! s = Some o → s = partition_key (o_topic o) (o_partition o).
Proof.
  destruct a as [a|]; cbn; [|by rewrite lookup_empty].
  assert (∀ rows (m : gmap string OwnedRef),
    (∀ s o, m !! s = Some o → s = partition_key (o_topic o) (o_partition o)) →
    ∀ s o, foldl (λ m p, <[partition_key (pa_topic p) (pa_partition p) :=
      {| o_topic := pa_topic p; o_partition := pa_partition p; o_epoch := pa_epoch p |}]> m) m rows !! s = Some o →
      s = partition_key (o_topic o) (o_partition o)) as H.
  { induction rows as [|r rows IH]; intros m Hm s' o' Hs; [by apply Hm|]. cbn in Hs.
    eapply IH; [|exact Hs]. clear Hs s' o'. intros s' o' Hs.
    apply lookup_insert_Some in Hs as [[<- <-]|[_ Hs]]; [done|by apply Hm]. }
  apply H. intros s' o'. by rewrite lookup_empty.
Qed.

Lemma engine_take_over_epoch cfg crc crca pl id e v k epoch e' v' hw :
  engine_take_over cfg crc crca pl id e v k epoch = (e', v', Ok hw) →
  (∃ have, partition_epoch e' k = Some have ∧ epoch ≤ have) ∧
  ∀ k' have, partition_epoch e k' = Some have → ∃ have', partition_epoch e' k' = Some have' ∧ have ≤ have'.
Proof.
  unfold engine_take_over.
  assert (∀ e1 v1 root p, ensure_open cfg crc crca pl id e v k = (e1, v1, Ok (root, p)) →
    partitions e1 = <[k := (root, p)]> (partitions e) ∧
    ∀ rp, partitions e !! k = Some rp → rp = (root, p)) as Hen.
  { intros e1 v1 root p. unfold ensure_open. destruct (bool_decide _); [done|].
    destruct (partitions e !! k) as [rp|] eqn:Ek; [intros [= <- <- ->]; split; [by rewrite insert_id|congruence]|].
    destruct (identity_permits_open _ _ _ _); [|done].
    destruct (open_partition _ _ _) as [d [q|]]; [|done]. by intros [= <- <- <- <-]. }
  destruct (ensure_open cfg crc crca pl id e v k) as [[e1 v1] [[root p]|]]; [|done].
  destruct (Hen e1 v1 root p eq_refl) as [Hp Hsame].
  destruct (take_over_persist _ _ _) as [[d p'] h] eqn:Et. intros [= <- <- _].
  assert (p_epoch p ≤ p_epoch p' ∧ epoch ≤ p_epoch p') as [Hle Hep].
  { unfold take_over_persist in Et. destruct (Z.leb_spec epoch (p_epoch p)); [simplify_eq; lia|].
    destruct (persist_state _ _ _). pose proof (take_over_fields p epoch ltac:(lia)) as Hf.
    destruct (take_over p epoch) as [q hq]. cbn in Hf. simplify_eq. lia. }
  unfold partition_epoch. cbn [partitions set_partition]. split.
  - exists (p_epoch p'). by rewrite lookup_insert_eq.
  - intros k' have Hk'. destruct (decide (k' = k)) as [->|Hne].
    + rewrite lookup_insert_eq. destruct (partitions e !! k) as [rp|]; [|done].
      rewrite (Hsame rp eq_refl) in Hk'. cbn in Hk'. exists (p_epoch p'). split; [done|]. simplify_eq. lia.
    + rewrite lookup_insert_ne, Hp, lookup_insert_ne by done. by exists have.
Qed.

(** The take-overs a driver pass spawned, in some order, all completed. *)
Fixpoint drive (cfg : EngineConfig) crc crca pl id (e : Engine) (v : LogVolume) (calls : list (Key * Z)) :
    option (Engine * LogVolume) :=
  match calls with
  | [] => Some (e, v)
  | (k, epoch) :: calls' =>
    match engine_take_over cfg crc crca pl id e v k epoch with
    | (e', v', Ok _) => drive cfg crc crca pl id e' v' calls'
    | _ => None
    end
  end.

Lemma drive_epochs cfg crc crca pl id calls e v e' v' :
  drive cfg crc crca pl id e v calls = Some (e', v') →
  (∀ k have, partition_epoch e k = Some have → ∃ have', partition_epoch e' k = Some have' ∧ have ≤ have') ∧
  ∀ k epoch, (k, epoch) ∈ calls → ∃ have, partition_epoch e' k = Some have ∧ epoch ≤ have.
Proof.
  revert e v. induction calls as [|[k epoch] calls IH]; intros e v H; cbn in H.
  { simplify_eq. split; [intros k h Hh; by exists h|]. intros k epoch Hin. by apply not_elem_of_nil in Hin. }
  destruct (engine_take_over _ _ _ _ _ _ _ _ _) as [[e1 v1] [hw|]] eqn:Et; [|done].
  apply engine_take_over_epoch in Et as [(h & Hh & Hle) Hmono]. destruct (IH e1 v1 H) as [Hm Hc]. split.
  - intros k' have Hk'. destruct (Hmono k' have Hk') as (h1 & Hh1 & ?).
    destruct (Hm k' h1 Hh1) as (h2 & ? & ?). exists h2. split; [done|lia].
  - intros k' ep [[= -> ->]|Hin]%elem_of_cons; [|by apply Hc].
    destruct (Hm k h Hh) as (h2 & ? & ?). exists h2. split; [done|lia].
Qed.

Lemma reconcile_in b e next t p epoch :
  ((t, p), epoch) ∈ driver_reconcile b e next ↔
  ∃ o, owned_by b (Some next) !! partition_key t p = Some o ∧ o_epoch o = epoch ∧
    ∀ have, partition_epoch e (t, p) = Some have → have < epoch.
Proof.
  unfold driver_reconcile. rewrite list_elem_of_omap. split.
  - intros ([s o] & Hin & Ho). apply elem_of_map_to_list in Hin. apply owned_key in Hin as Hs. cbn [snd] in Ho.
    destruct (partition_epoch e (o_topic o, o_partition o)) as [have|] eqn:Ep;
      [destruct (Z.ltb_spec have (o_epoch o)); cbn in Ho; [|done]|]; injection Ho as <- <- <-;
      exists o; rewrite <- Hs; (split; [done|]); (split; [done|]); rewrite Ep; [by intros h [= <-]|done].
  - intros (o & Ho & <- & Hlt). exists (partition_key t p, o). apply owned_key in Ho as Hk.
    apply partition_key_inj in Hk as [-> ->]. split; [by apply elem_of_map_to_list|]. cbn [snd].
    destruct (partition_epoch e (o_topic o, o_partition o)) as [have|]; [|done].
    specialize (Hlt have eq_refl). destruct (Z.ltb_spec have (o_epoch o)); [done|lia].
Qed.

(** The takeover driver converges on the assignment: a reconcile pass
    re-drives exactly the partitions the assignment gives this broker that are not
    open or open below their epoch; once those take-overs have completed, in any
    order, every one of the broker's partitions is open at its epoch or above
    and another pass has nothing to do. *)
Theorem takeover_converges cfg crc crca pl id b e v next calls e' v' :
  calls ≡ₚ driver_reconcile b e next → drive cfg crc crca pl id e v calls = Some (e', v') →
  (∀ t p o, owned_by b (Some next) !! partition_key t p = Some o →
    ∃ have, partition_epoch e' (t, p) = Some have ∧ o_epoch o ≤ have) ∧
  driver_reconcile b e' next = [].
Proof.
  intros Hc Hd. destruct (drive_epochs _ _ _ _ _ _ _ _ _ _ Hd) as [Hm Hcalls].
  assert (∀ t p o, owned_by b (Some next) !! partition_key t p = Some o →
    ∃ have, partition_epoch e' (t, p) = Some have ∧ o_epoch o ≤ have) as Hall.
  { intros t p o Ho. destruct (decide (((t, p), o_epoch o) ∈ driver_reconcile b e next)) as [Hin|Hin].
    - apply Hcalls. by rewrite Hc.
    - rewrite reconcile_in in Hin. destruct (partition_epoch e (t, p)) as [h|] eqn:Eh.
      + destruct (decide (h < o_epoch o)) as [Hlt|Hlt].
        { destruct Hin. exists o. split; [done|]. split; [done|]. by intros ? [= <-]. }
        destruct (Hm (t, p) h Eh) as (h' & ? & ?). exists h'. split; [done|lia].
      + destruct Hin. by exists o. }
  split; [done|]. destruct (driver_reconcile b e' next) as [|[[t p] epoch] rest] eqn:E; [done|].
  assert (((t, p), epoch) ∈ driver_reconcile b e' next) as Hin by (rewrite E; by left).
  apply reconcile_in in Hin as (o & Ho & <- & Hlt). destruct (Hall t p o Ho) as (h & Hh & ?).
  specialize (Hlt h Hh). lia.
Qed.

(** ** Witnesses: two log dirs, one partition *)

Definition demo_engine_cfg : EngineConfig :=
  with_extra_log_dirs "/d" [{| ld_name := "fast"; ld_path := "/f"; default_eligible := true; cordoned := false; labels := ∅ |}].
Definition demo_key : Key := ("t"%string, 0).
Definition demo_dir : Dir := bare_dir (files_of (segments_of two_batches)).
Definition demo_log_volume : LogVolume := {| dirs := {[("/d"%string, demo_key) := demo_dir]}; stamps := ∅ |}.
Definition demo_engine : Engine := set_partition Engine_new demo_key "/d" two_batches.

Lemma demo_handed_over : handed_over sum_crc two_batches [mk_batch 0; mk_batch 1] (dir_at demo_log_volume "/d" demo_key).
Proof.
  change (dir_at demo_log_volume "/d" demo_key) with demo_dir. split.
  - apply two_batches_holds.
  - repeat constructor; apply mk_batch_good.
  - apply two_batches_names.
  - reflexivity.
  - vm_compute. congruence.
  - vm_compute. congruence.
  - constructor.
  - intros m Hm. change (None = Some (Ok (E := unit) m)) in Hm. discriminate Hm.
  - intros la _ cp Hcp. change (None = Some cp) in Hcp. discriminate Hcp.
Qed.

Definition demo_relinquished : Engine * LogVolume := relinquish demo_engine demo_log_volume demo_key true.

Lemma graceful_handoff_witness :
  ∃ eB' v'' p', engine_take_over demo_engine_cfg sum_crc sum_crc_append (λ _, Some "fast"%string) None Engine_new
      demo_relinquished.2 demo_key 2 = (eB', v'', Ok 2) ∧
    partitions eB' !! demo_key = Some ("/d"%string, p') ∧ holds p' [mk_batch 0; mk_batch 1].
Proof.
  destruct (graceful_handoff sum_crc sum_crc_append sum_crc_law demo_engine_cfg (λ _, Some "fast"%string) None
    demo_engine Engine_new demo_log_volume demo_key "/d" two_batches [mk_batch 0; mk_batch 1] true 2
    demo_relinquished.1 demo_relinquished.2) as (_ & eB' & v'' & p' & Ht & Hk & Hh & _).
  - reflexivity.
  - apply demo_handed_over.
  - left.
  - intros r Hr Hne. vm_compute in Hr. apply elem_of_cons in Hr as [->|Hr]; [by destruct Hne|].
    apply list_elem_of_singleton in Hr as ->. vm_compute. reflexivity.
  - reflexivity.
  - apply not_elem_of_empty.
  - apply surjective_pairing.
  - reflexivity.
  - vm_compute. reflexivity.
  - assert (high_water two_batches = 2) as Hw by (vm_compute; reflexivity). rewrite Hw in Ht.
    exists eB', v'', p'. split; [exact Ht|]. split; [exact Hk|exact Hh].
Defined.

Lemma data_found_where_it_lies_witness :
  partition_root demo_engine_cfg (λ _, Some "fast"%string) demo_relinquished.2 demo_key = "/d"%string.
Proof.
  apply (data_found_where_it_lies demo_engine_cfg (λ _, Some "fast"%string) (λ _, None) demo_relinquished.2
    demo_key "/d").
  - left.
  - vm_compute. reflexivity.
  - intros r Hr Hne. vm_compute in Hr. apply elem_of_cons in Hr as [->|Hr]; [by destruct Hne|].
    apply list_elem_of_singleton in Hr as ->. vm_compute. reflexivity.
Defined.

Definition demo_placement : gmap Key string := ∅.
Definition demo_migrated : Engine * gmap Key string * LogVolume * Z :=
  migrate_partition demo_engine_cfg true true demo_placement demo_engine demo_log_volume demo_key "fast" true true.

Lemma migration_keeps_log_witness :
  dirs demo_migrated.1.2 !! ("/d"%string, demo_key) = None ∧
  ∃ d2 p2, open_partition sum_crc sum_crc_append (dir_at demo_migrated.1.2 "/f" demo_key) = (d2, Ok p2) ∧
    holds p2 [mk_batch 0; mk_batch 1].
Proof.
  destruct (migration_keeps_log sum_crc sum_crc_append sum_crc_law demo_engine_cfg demo_placement demo_engine
    demo_log_volume demo_key "/d" two_batches [mk_batch 0; mk_batch 1] "fast" "/f" true
    demo_migrated.1.1.1 demo_migrated.1.1.2 demo_migrated.1.2) as (Hn & _ & d2 & p2 & Ho & Hh & _).
  - reflexivity.
  - apply demo_handed_over.
  - vm_compute. reflexivity.
  - reflexivity.
  - discriminate.
  - discriminate.
  - apply not_elem_of_empty.
  - assert (demo_migrated.2 = 0) as Hz by (vm_compute; reflexivity). rewrite <- Hz.
    unfold demo_migrated. by destruct (migrate_partition _ _ _ _ _ _ _ _ _ _) as [[[] ] ].
  - split; [exact Hn|]. exists d2, p2. split; [exact Ho|exact Hh].
Defined.

Lemma move_in_place_deletes_witness :
  dirs (migrate_partition demo_engine_cfg true true demo_placement demo_engine demo_log_volume demo_key
    "default" true true).1.2 !! ("/d"%string, demo_key) = None.
Proof.
  pose proof (move_in_place_deletes demo_engine_cfg demo_placement demo_engine demo_log_volume demo_key
    "default" true true) as H.
  assert (partition_root demo_engine_cfg (λ k, demo_placement !! k) demo_log_volume demo_key = "/d"%string) as Hr
    by (vm_compute; reflexivity).
  rewrite Hr in H. specialize (H eq_refl).
  destruct (migrate_partition _ _ _ _ _ _ _ _ _ _) as [[[e' pl'] v'] code]. exact H.
Defined.

(** ** A produce between the copy and the flip of the placement record *)

Definition copied : Engine * LogVolume :=
  let '(e, v, r) := move_begin demo_engine_cfg (λ _, None) demo_engine demo_log_volume demo_key "fast" true in
  match r with Ok (src, Some dst) => move_copy e v demo_key src dst | _ => (e, v) end.
Definition produced_meanwhile : Engine * LogVolume * result StorageError (Z * bool) :=
  engine_append demo_engine_cfg sum_crc sum_crc_append (λ _, None) None demo_cfg 0 copied.1 copied.2 demo_key 1 (mk_batch 9).
Definition flipped : gmap Key string * LogVolume * Z :=
  migrate_finish demo_engine_cfg ∅ produced_meanwhile.1.2 demo_key "/d" "fast" true.
Definition after_restart : Engine * LogVolume * result StorageError Z :=
  engine_take_over demo_engine_cfg sum_crc sum_crc_append (λ k, flipped.1.1 !! k) None Engine_new flipped.1.2 demo_key 2.

(** A produce during a migration is acknowledged and lost: the mark that
    refuses requests is released before the placement record is written, so a
    produce in between reopens the source directory, is accepted there at offset
    2 and keeps the partition open on it; the source is then removed, and the
    next open, at the new place, ends at offset 2 again without the batch. *)
Theorem migration_window_loses_append :
  produced_meanwhile.2 = Ok (2, true) ∧ flipped.2 = 0 ∧ after_restart.2 = Ok 2 ∧
  engine_read after_restart.1.1 demo_key 2 1000 = [].
Proof. vm_compute. auto. Qed.

Definition stamped_volume : LogVolume :=
  {| dirs := dirs demo_log_volume; stamps := {[("/d"%string, "t"%string) := Ok "old"%string]} |}.

Lemma stale_directory_untouched_witness :
  engine_take_over demo_engine_cfg sum_crc sum_crc_append (λ _, None) (Some (λ _, Known "new"))
    Engine_new stamped_volume demo_key 3 = (Engine_new, stamped_volume, Err StaleTopicDir).
Proof.
  pose proof (stale_directory_untouched demo_engine_cfg sum_crc sum_crc_append (λ _, None) (λ _, Known "new")
    Engine_new stamped_volume demo_key 3 (not_elem_of_empty _) eq_refl) as H.
  assert (read_topic_identity stamped_volume (partition_root demo_engine_cfg (λ _, None) stamped_volume demo_key)
    demo_key.1 = Ok (Some "old"%string)) as Hr by (vm_compute; reflexivity).
  cbv zeta in H. rewrite Hr in H. apply H. discriminate.
Defined.

Definition demo_next : Assignment :=
  {| controller_epoch := 1; assignment_version := 1; generated_at := ""; controller := "b1"; brokers := [];
     Cluster.partitions := [{| pa_topic := "t"; pa_partition := 0; pa_broker := "b1"; pa_epoch := 5; role := Leader |}];
     consumer_groups := [] |}.
Definition demo_driven : option (Engine * LogVolume) :=
  drive demo_engine_cfg sum_crc sum_crc_append (λ _, None) None demo_engine demo_log_volume
    (driver_reconcile "b1" demo_engine demo_next).

Lemma takeover_converges_witness :
  ∃ e' v', demo_driven = Some (e', v') ∧ driver_reconcile "b1" e' demo_next = [] ∧
    driver_reconcile "b1" demo_engine demo_next ≠ [].
Proof.
  destruct demo_driven as [[e' v']|] eqn:E; [|exfalso; vm_compute in E; discriminate E].
  exists e', v'. split; [reflexivity|]. split; [|vm_compute; discriminate].
  exact (proj2 (takeover_converges demo_engine_cfg sum_crc sum_crc_append (λ _, None) None "b1" demo_engine
    demo_log_volume demo_next (driver_reconcile "b1" demo_engine demo_next) e' v' (Permutation_refl _) E)).
Defined.
