(* ===== verification/Manager.v ===== *)
(** * The group manager ([kaas-coordinator/src/manager.rs])

    The façade the group handlers call: ownership of a group by the assignment
    source, the resident groups, and the offset store.  Every call first asks the
    source whether this broker coordinates the group; [GroupAssignmentSource] is
    the source's trait with the law its implementations obey, and the theorems on
    the manager are proved against it.

    The volume is a state of its own ([OffsetStore.v]); whether a write succeeds
    is an argument. *)

From stdpp Require Import base gmap strings list sorting pretty.
From S2P Require Import Prelude Cluster Group OffsetStore.

Local Open Scope Z_scope.

(** ** Sources *)

Class GroupAssignmentSource (A : Type) := {
  src_self : A → string;
  src_owns_group : A → string → bool;
  src_group_coordinator : A → string → option string;
  src_assignment_fence : A → FenceStamp;
  src_owns_iff : ∀ a g, src_owns_group a g = true ↔ src_group_coordinator a g = Some (src_self a) }.

(** [Coordinator::assignment_fence]. *)
Definition assignment_fence (c : Coordinator) : FenceStamp :=
  match current c with
  | Some a => {| fs_controller_epoch := controller_epoch a; fs_assignment_version := assignment_version a |}
  | None => zero_stamp
  end.

#[export] Instance coordinator_source : GroupAssignmentSource Coordinator.
Proof.
  refine {| src_self := self_id; src_owns_group := owns_group; src_group_coordinator := group_coordinator;
            src_assignment_fence := assignment_fence |}.
  intros c g. unfold owns_group, group_coordinator. destruct (current c) as [a|]; [|done].
  destruct (explicit_group _ g) as [row|].
  - rewrite bool_decide_eq_true. split; congruence.
  - destruct (broker_sets a) as [ids alive]. destruct (pick_group_coordinator g ids alive); [|done].
    rewrite bool_decide_eq_true. split; congruence.
Defined.

(** The bootstrap source: this broker owns everything. *)
Record LocalGroupSource := { local_self_id : string }.

#[export] Instance local_group_source : GroupAssignmentSource LocalGroupSource.
Proof.
  by refine {| src_self := local_self_id; src_owns_group _ _ := true;
               src_group_coordinator a _ := Some (local_self_id a); src_assignment_fence _ := zero_stamp |}.
Defined.

(** ** State *)

Record Manager := { offsets : OffsetStore; groups : gmap string Group }.

Definition Manager_new : Manager := {| offsets := OffsetStore_new; groups := ∅ |}.

Definition NOT_COORDINATOR : Z := 16.

Record BrokerEndpoint := { node_id : Z; host : string; port : Z }.
Record CoordinatorResolution := { r_node_id : Z; r_host : string; r_port : Z; r_error_code : Z }.
Record LeaveOutcome := { group_error : Z; lo_members : list (string * Z) }.

Definition with_offsets (m : Manager) (s : OffsetStore) : Manager := {| offsets := s; groups := groups m |}.
Definition set_group (m : Manager) (gid : string) (g : Group) : Manager :=
  {| offsets := offsets m; groups := <[gid := g]> (groups m) |}.

(** [find_coordinator]: the transaction source may be absent; [lookup] is the
    broker catalog. *)
Definition find_coordinator (group_coord : string → option string) (txn_coord : option (string → option string))
    (lookup : string → option BrokerEndpoint) (key : string) (key_type : Z) : CoordinatorResolution :=
  let err code := {| r_node_id := 0; r_host := ""; r_port := 0; r_error_code := code |} in
  let resolve (o : option string) :=
    match o ≫= lookup with
    | Some ep => {| r_node_id := node_id ep; r_host := host ep; r_port := port ep; r_error_code := 0 |}
    | None => err 15
    end in
  if key_type =? 0 then resolve (group_coord key)
  else if key_type =? 1 then match txn_coord with None => err 15 | Some f => resolve (f key) end
  else err 42.

Section manager.
Context `{GroupAssignmentSource A} (src : A).

Definition is_coordinator (gid : string) : bool := src_owns_group src gid.

Definition resident_groups (m : Manager) : list string := (map_to_list (groups m)).*1.

Definition local_groups (m : Manager) : list string := filter (λ g, is_coordinator g = true) (resident_groups m).

(** The removed group answers its parked members. *)
Definition relinquish_group (m : Manager) (gid : string) : Manager * option Group :=
  ({| offsets := offsets m; groups := delete gid (groups m) |}, shutdown <$> groups m !! gid).

(** A new group is inserted and its offsets loaded; a load error is ignored. *)
Definition get_or_create (m : Manager) (d : Disk) (gid : string) : Manager * Group :=
  match groups m !! gid with
  | Some g => (m, g)
  | None =>
    let g := Group_new gid in
    ({| offsets := (load (offsets m) d gid).1; groups := <[gid := g]> (groups m) |}, g)
  end.

Definition join_group (m : Manager) (d : Disk) (gid : string) (req : JoinRequest) (fresh : string)
    (ticket : nat) (now : Z) : Manager * option JoinOutcome :=
  if negb (is_coordinator gid) then
    (m, Some {| jo_error := NOT_COORDINATOR; jo_generation := -1; jo_leader := "";
                jo_member_id := jr_member_id req; jo_protocol_type := ""; jo_protocol_name := "";
                jo_members := [] |})
  else
    let '(m', g) := get_or_create m d gid in
    let '(g', r) := Group.join g req fresh ticket now in (set_group m' gid g', r).

Definition sync_group (m : Manager) (gid : string) (req : SyncRequest) (ticket : nat) :
    Manager * (SyncOutcome + PendingSync) :=
  if negb (is_coordinator gid) then (m, inl (sync_error NOT_COORDINATOR))
  else
    match groups m !! gid with
    | None => (m, inl (sync_error UNKNOWN_MEMBER_ID))
    | Some g => let '(g', r) := Group.sync g req ticket in (set_group m gid g', r)
    end.

Definition heartbeat (m : Manager) (gid : string) (mid : string) (gen : Z) : Z :=
  if negb (is_coordinator gid) then NOT_COORDINATOR
  else match groups m !! gid with Some g => Group.heartbeat g mid gen | None => UNKNOWN_MEMBER_ID end.

Definition leave_group (m : Manager) (gid : string) (mids : list string) (now : Z) : Manager * LeaveOutcome :=
  if negb (is_coordinator gid) then (m, {| group_error := NOT_COORDINATOR; lo_members := [] |})
  else
    match groups m !! gid with
    | None => (m, {| group_error := 0; lo_members := [] |})
    | Some g =>
      let '(g', out) := Group.leave g mids now in
      (set_group m gid g', {| group_error := 0; lo_members := out |})
    end.

(** A fenced write answers [NOT_COORDINATOR]; any other failure answers success. *)
Definition offset_commit (m : Manager) (d : Disk) (gid : string) (offs : gmap string Z)
    (meta : gmap string string) (ok : bool) : Manager * Disk * Z :=
  if negb (is_coordinator gid) then (m, d, NOT_COORDINATOR)
  else
    let '(s, d', r) := commit_with_metadata (offsets m) d gid offs meta (src_assignment_fence src) ok in
    (with_offsets m s, d', match r with Err (FencedOffsetWrite _ _) => NOT_COORDINATOR | _ => 0 end).

Definition offset_fetch (m : Manager) (gid : string) (specs : list FetchSpec) :
    option (gmap string Z * gmap string string) :=
  if negb (is_coordinator gid) then None
  else Some (fetch (offsets m) gid specs, fetch_metadata (offsets m) gid specs).

Definition delete_group (m : Manager) (d : Disk) (gid : string) (ok : bool) : Manager * Disk * Z :=
  if negb (is_coordinator gid) then (m, d, NOT_COORDINATOR)
  else
    let has_state := bool_decide (is_Some (groups m !! gid)) in
    if negb has_state && negb (has_group (offsets m) gid) then (m, d, 69)
    else if match groups m !! gid with
            | Some g => negb (bool_decide (Group.state g = Empty ∨ Group.state g = Dead))
            | None => false
            end
    then (m, d, 67)
    else
      let '(s, d', _) := delete_group_offsets (offsets m) d gid ok in
      ({| offsets := s; groups := delete gid (groups m) |}, d', 0).

Definition delete_offsets (m : Manager) (d : Disk) (gid : string) (keys : list string) (ok : bool) :
    Manager * Disk * (Z * gmap string bool) :=
  if negb (is_coordinator gid) then (m, d, (NOT_COORDINATOR, ∅))
  else
    let '(s, d', r) := delete_partitions (offsets m) d gid keys (src_assignment_fence src) ok in
    (with_offsets m s, d', match r with Ok removed => (0, removed) | Err _ => (0, ∅) end).

(** One group of the purge; [ok] says whose writes succeed. *)
Definition purge_one (topic : string) (ok : string → bool) (st : OffsetStore * Disk * (nat * list string))
    (gid : string) : OffsetStore * Disk * (nat * list string) :=
  let '(s, d, (removed, failed)) := st in
  if negb (is_coordinator gid) then st
  else
    match purge_topic s d gid topic (src_assignment_fence src) (ok gid) with
    | (s', d', Ok n) => (s', d', ((removed + n)%nat, failed))
    | (s', d', Err _) => (s', d', (removed, failed ++ [gid]))
    end.

Definition purge_ids (m : Manager) (d : Disk) : list string :=
  merge_sort String.le (remove_dups (group_ids_on_disk d ++ resident_groups m)).

Definition purge_topic_offsets (m : Manager) (d : Disk) (topic : string) (ok : string → bool) :
    Manager * Disk * (nat * list string) :=
  let '(s, d', r) := foldl (purge_one topic ok) (offsets m, d, (0%nat, [])) (purge_ids m d) in
  (with_offsets m s, d', r).

End manager.

(** ** Requests *)

(** A request for one group, and the error code it is answered with at once
    ([None]: parked). *)
Inductive GroupRequest :=
| RJoin (req : JoinRequest) (fresh : string) (ticket : nat) (now : Z)
| RSync (req : SyncRequest) (ticket : nat)
| RHeartbeat (mid : string) (gen : Z)
| RLeave (mids : list string) (now : Z)
| RCommit (offs : gmap string Z) (meta : gmap string string) (ok : bool)
| RFetch (specs : list FetchSpec)
| RDelete (ok : bool)
| RDeleteOffsets (keys : list string) (ok : bool).

Definition serve `{GroupAssignmentSource A} (src : A) (m : Manager) (d : Disk) (gid : string) (r : GroupRequest) :
    Manager * Disk * option Z :=
  match r with
  | RJoin req fresh ticket now => let '(m', o) := join_group src m d gid req fresh ticket now in (m', d, jo_error <$> o)
  | RSync req ticket =>
    let '(m', o) := sync_group src m gid req ticket in
    (m', d, match o with inl e => Some (so_error e) | inr _ => None end)
  | RHeartbeat mid gen => (m, d, Some (heartbeat src m gid mid gen))
  | RLeave mids now => let '(m', o) := leave_group src m gid mids now in (m', d, Some (group_error o))
  | RCommit offs meta ok => let '(m', d', c) := offset_commit src m d gid offs meta ok in (m', d', Some c)
  | RFetch specs => (m, d, Some (match offset_fetch src m gid specs with None => NOT_COORDINATOR | Some _ => 0 end))
  | RDelete ok => let '(m', d', c) := delete_group src m d gid ok in (m', d', Some c)
  | RDeleteOffsets keys ok => let '(m', d', c) := delete_offsets src m d gid keys ok in (m', d', Some c.1)
  end.

Lemma serve_not_owner `{GroupAssignmentSource A} (src : A) m d gid r :
  is_coordinator src gid = false → serve src m d gid r = (m, d, Some NOT_COORDINATOR).
Proof.
  intros Hno.
  destruct r; simpl; unfold join_group, sync_group, heartbeat, leave_group, offset_commit, offset_fetch,
    delete_group, delete_offsets; by rewrite Hno.
Qed.

(** A group is served by one broker: of two brokers that applied the same
    assignment, when one coordinates a group the other answers every request for
    it (join, sync, heartbeat, leave, commit, fetch, delete) with
    NOT_COORDINATOR, and neither its state nor the volume changes. *)
Theorem group_served_once (c1 c2 : Coordinator) gid m d r :
  current c1 = current c2 → self_id c1 ≠ self_id c2 → is_coordinator c1 gid = true →
  serve c2 m d gid r = (m, d, Some NOT_COORDINATOR).
Proof.
  intros Hcur Hself Hown%src_owns_iff. apply serve_not_owner.
  destruct (is_coordinator c2 gid) eqn:E; [|done]. apply src_owns_iff in E. exfalso. apply Hself.
  simpl in *. unfold group_coordinator in *. rewrite Hcur in Hown. congruence.
Qed.

Definition group_assignment (v : Z) (owner : string) : Assignment :=
  {| controller_epoch := 1; assignment_version := v; generated_at := ""; controller := "kaas-0";
     brokers := demo_rows; partitions := [];
     consumer_groups := [{| ga_group_id := "g"; ga_broker := owner; ga_epoch := v |}] |}.

Definition broker_at (id : string) (v : Z) (owner : string) : Coordinator :=
  (apply_if_new 0 (Some (group_assignment v owner)) (Coordinator_new id)).1.

Lemma group_served_once_witness :
  serve (broker_at "kaas-1" 1 "kaas-0") Manager_new ∅ "g" (RCommit {[offset_key "t" 0 := 5]} ∅ true)
    = (Manager_new, ∅, Some NOT_COORDINATOR).
Proof.
  apply (group_served_once (broker_at "kaas-0" 1 "kaas-0")); [reflexivity|discriminate|vm_compute; reflexivity].
Defined.

(** ** Loading *)

(** A JoinGroup to a group that is not resident serves the volume's offsets from
    then on, whatever stale offsets the broker still had in memory. *)
Lemma join_loads `{GroupAssignmentSource A} (src : A) m d gid req fresh ticket now f :
  is_coordinator src gid = true → groups m !! gid = None → d !! gid = Some (Ok f) →
  offsets_of (offsets (join_group src m d gid req fresh ticket now).1) gid = f_offsets f.
Proof.
  intros Hown Hnone Hf. unfold join_group. rewrite Hown. simpl. unfold get_or_create. rewrite Hnone.
  destruct (Group.join _ _ _ _ _) as [g' r]. simpl. unfold load. rewrite Hf. simpl.
  unfold offsets_of. simpl. by rewrite lookup_insert_eq.
Qed.

(** Committed offsets follow the group: an offset commit that the old
    coordinator acknowledged is what the new coordinator answers, when it serves
    its first JoinGroup of the group after it and nobody with a newer assignment
    wrote the group in between, whatever brokers with older assignments did
    meanwhile and whatever the new coordinator had in memory from before. *)
Theorem committed_offsets_follow_group `{GroupAssignmentSource A} (old new : A) w b gid offs meta ok m2 d2 r
    es m3 req fresh ticket now k v specs :
  store_ok (store_of w b) (disk w) →
  commit_with_metadata (store_of w b) (disk w) gid offs meta (src_assignment_fence old) ok = (m2, d2, r) →
  r = Ok tt → offs !! k = Some v → on_disk_fence d2 gid = Some (src_assignment_fence old) →
  forallb (stale_for gid (src_assignment_fence old)) es = true →
  is_coordinator new gid = true → groups m3 !! gid = None → k ∈ spec_keys specs →
  let d' := disk (volume_run {| stores := <[b := m2]> (stores w); disk := d2 |} es) in
  let m4 := (join_group new m3 d' gid req fresh ticket now).1 in
  ∃ offs' meta', offset_fetch new m4 gid specs = Some (offs', meta') ∧ offs' !! k = Some v.
Proof.
  intros Hok Hc -> Hk Hfence Hes Hnew Hres Hin d' m4.
  destruct (acked_offset_file _ _ _ _ _ _ _ _ _ _ _ Hok Hc Hk) as (f & Hf & Hv).
  assert (f_fence f = src_assignment_fence old) as Hff.
  { unfold on_disk_fence in Hfence. rewrite Hf in Hfence. congruence. }
  assert (d' !! gid = Some (Ok f)) as Hd'.
  { apply volume_run_file; [done|]. by rewrite Hff. }
  unfold offset_fetch. rewrite Hnew. simpl. do 2 eexists. split; [done|].
  rewrite fetch_lookup by done. unfold m4. by rewrite (join_loads new m3 d' gid req fresh ticket now f), Hv.
Qed.

Definition demo_join : JoinRequest :=
  {| jr_member_id := ""; jr_instance_id := None; jr_session_timeout_ms := 30000;
     jr_rebalance_timeout_ms := 30000; jr_protocol_type := "consumer"; jr_protocols := [];
     jr_client_id := "c"; jr_client_host := "h" |}.

(** The old coordinator commits; then itself, now stale, tries under an older
    assignment. *)
Definition demo_stale : list OffsetEvent :=
  [At "kaas-0" stamp1 (OCommit "g" {[offset_key "t" 0 := 1]} ∅ true); Restart "kaas-0"].

Lemma committed_offsets_follow_group_witness :
  ∃ offs' meta',
    offset_fetch (broker_at "kaas-1" 3 "kaas-1")
      (join_group (broker_at "kaas-1" 3 "kaas-1") Manager_new
         (disk (volume_run {| stores := {["kaas-0" := demo_commit.1.1]}; disk := demo_commit.1.2 |} demo_stale))
         "g" demo_join "m1" 0 0).1 "g" demo_specs = Some (offs', meta') ∧
    offs' !! offset_key "t" 0 = Some 5.
Proof.
  apply (committed_offsets_follow_group (broker_at "kaas-0" 2 "kaas-0") (broker_at "kaas-1" 3 "kaas-1")
    demo_volume "kaas-0" "g" {[offset_key "t" 0 := 5]} ∅ true demo_commit.1.1 demo_commit.1.2 (Ok tt) demo_stale).
  - apply store_ok_new.
  - vm_compute. reflexivity.
  - reflexivity.
  - vm_compute. reflexivity.
  - vm_compute. reflexivity.
  - vm_compute. reflexivity.
  - vm_compute. reflexivity.
  - reflexivity.
  - apply (bool_decide_eq_true_1 _). vm_compute. reflexivity.
Defined.

(** A commit that arrives before the first JoinGroup erases the group: the
    coordinator has not loaded the group's offsets, so the file is rewritten with
    the committed keys alone, and the request is answered with success. *)
Theorem commit_before_load_erases `{GroupAssignmentSource A} (src : A) m d gid offs meta f :
  is_coordinator src gid = true → cache (offsets m) !! gid = None → metadata (offsets m) !! gid = None →
  d !! gid = Some (Ok f) → stamp_lt (src_assignment_fence src) (f_fence f) = false → offs ≠ ∅ →
  let '(m', d', code) := offset_commit src m d gid offs meta true in
  code = 0 ∧ ∃ f', d' !! gid = Some (Ok f') ∧ f_offsets f' = offs.
Proof.
  intros Hown Hc Hm Hf Hst Hne. unfold offset_commit. rewrite Hown. simpl.
  unfold commit_with_metadata. simpl. rewrite Hc, Hm. simpl.
  assert (offsets_changed offs ∅ = true) as ->.
  { apply negb_true_iff, bool_decide_eq_false. intros Hall. apply Hne. apply map_empty. intros k.
    destruct (offs !! k) as [v|] eqn:E; [|done]. specialize (Hall k v E). simpl in Hall. by rewrite lookup_empty in Hall. }
  simpl. unfold write_group, on_disk_fence. rewrite Hf. simpl. rewrite Hst. simpl.
  split; [done|]. eexists. rewrite lookup_insert_eq. split; [done|]. simpl. apply (right_id_L ∅ (∪)).
Qed.

Lemma commit_before_load_erases_witness :
  let d := demo_commit.1.2 in
  let '(m', d', code) := offset_commit (broker_at "kaas-1" 3 "kaas-1") Manager_new d "g"
    {[offset_key "t" 1 := 7]} ∅ true in
  code = 0 ∧ ∃ f', d' !! "g" = Some (Ok f') ∧ f_offsets f' = {[offset_key "t" 1 := 7]}.
Proof.
  apply (commit_before_load_erases (broker_at "kaas-1" 3 "kaas-1") Manager_new demo_commit.1.2 "g"
    {[offset_key "t" 1 := 7]} ∅
    {| f_offsets := {[offset_key "t" 0 := 5]}; f_metadata := ∅; f_fence := stamp2 |}).
  - vm_compute. reflexivity.
  - reflexivity.
  - reflexivity.
  - vm_compute. reflexivity.
  - vm_compute. reflexivity.
  - apply map_non_empty_singleton.
Defined.

(** ** Purging a topic *)

Lemma without_lookup {V} ks (m : gmap string V) k :
  without ks m !! k = if decide (k ∈ ks) then None else m !! k.
Proof.
  unfold without. case_decide as Hk.
  - apply map_lookup_filter_None. right. intros x _ Hx. by apply Hx.
  - destruct (m !! k) as [x|] eqn:E; [by apply map_lookup_filter_Some|].
    apply map_lookup_filter_None. by left.
Qed.

Lemma doomed_spec topic offs k :
  k ∈ doomed topic offs ↔ key_has_topic k topic = true ∧ is_Some (offs !! k).
Proof.
  unfold doomed. rewrite list_elem_of_filter. apply and_iff_compat_l.
  rewrite list_elem_of_fmap. split.
  - intros ([k' v] & -> & Hin%elem_of_map_to_list). by exists v.
  - intros [v Hv]. exists (k, v). by rewrite elem_of_map_to_list.
Qed.

(** The committed offsets without a topic. *)
Definition drop_topic (topic : string) (offs : gmap string Z) : gmap string Z :=
  filter (λ kv, key_has_topic kv.1 topic = false) offs.

Lemma without_doomed topic offs : without (doomed topic offs) offs = drop_topic topic offs.
Proof.
  apply map_eq. intros k. rewrite without_lookup. unfold drop_topic. case_decide as Hk.
  - symmetry. apply doomed_spec in Hk as [Hk _]. apply map_lookup_filter_None. right. intros x _ Hx. simpl in Hx. congruence.
  - destruct (offs !! k) as [x|] eqn:E; symmetry.
    + apply map_lookup_filter_Some. split; [done|]. simpl.
      destruct (key_has_topic k topic) eqn:Et; [|done]. exfalso. apply Hk, doomed_spec. rewrite E. eauto.
    + apply map_lookup_filter_None. by left.
Qed.

Lemma doomed_nil topic offs : doomed topic offs = [] → drop_topic topic offs = offs.
Proof. intros Hn. rewrite <- without_doomed, Hn. apply without_nil. Qed.

(** A key of one partition goes exactly with its topic. *)
Lemma drop_topic_key topic offs t p :
  i32_ok p → drop_topic topic offs !! offset_key t p = if decide (t = topic) then None else offs !! offset_key t p.
Proof.
  intros Hp. rewrite <- without_doomed, without_lookup.
  pose proof (key_has_topic_spec t topic p Hp) as Hk.
  destruct (decide (t = topic)) as [->|Hne].
  - rewrite bool_decide_true in Hk by done. case_decide as Hd; [done|].
    destruct (offs !! offset_key topic p) eqn:E; [|done]. exfalso. apply Hd, doomed_spec. by rewrite E.
  - rewrite bool_decide_false in Hk by done. case_decide as Hd; [|done]. apply doomed_spec in Hd as [? _]. congruence.
Qed.

(** What one group's purge does to memory and volume. *)
Record purged (topic g : string) (s : OffsetStore) (d : Disk) (s' : OffsetStore) (d' : Disk) (ok : bool) : Prop := {
  pu_cache : cache s' !! g = drop_topic topic <$> cache s !! g;
  pu_file : ok = true → g ∉ dirty s → ∀ f, d !! g = Some (Ok f) →
    ∃ f', d' !! g = Some (Ok f') ∧ f_offsets f' = drop_topic topic (f_offsets f) }.

Record untouched (g : string) (s : OffsetStore) (d : Disk) (s' : OffsetStore) (d' : Disk) : Prop := {
  un_cache : cache s' !! g = cache s !! g;
  un_disk : d' !! g = d !! g;
  un_dirty : g ∈ dirty s' ↔ g ∈ dirty s }.

Lemma untouched_trans g s1 d1 s2 d2 s3 d3 :
  untouched g s1 d1 s2 d2 → untouched g s2 d2 s3 d3 → untouched g s1 d1 s3 d3.
Proof. intros [] []. split; [congruence..|]. by etrans. Qed.

Lemma write_untouched s d g o m local ok s' d' r g' :
  write_group s d g o m local ok = (s', d', r) → g' ≠ g → untouched g' s d s' d'.
Proof.
  intros E Hg. apply write_group_spec in E as (Hc&_&_&Hd&Hcase). split; [by rewrite Hc| |by apply Hd].
  destruct Hcase as [(_&_&_&->)|(_&_&->)]; [by rewrite lookup_insert_ne|done].
Qed.

Lemma purge_topic_untouched s d g topic local ok s' d' r g' :
  purge_topic s d g topic local ok = (s', d', r) → g' ≠ g → untouched g' s d s' d'.
Proof.
  intros E Hg. unfold purge_topic in E. destruct (cache s !! g) as [group|] eqn:Ec.
  - assert (∀ o m, untouched g' s d (with_group s g o m) d) as Hw.
    { intros o m. split; [|done|done]. by apply with_group_other. }
    destruct (doomed topic group) as [|k ks]; [by simplify_eq|].
    destruct (write_group _ _ _ _ _ _ _) as [[s2 d2] r2] eqn:Ew. simplify_eq.
    eapply untouched_trans; [apply Hw|by eapply write_untouched].
  - destruct (d !! g) as [[f|]|]; [|by simplify_eq..].
    destruct (doomed topic (f_offsets f)) as [|k ks]; [by simplify_eq|].
    destruct (write_group _ _ _ _ _ _ _) as [[s2 d2] r2] eqn:Ew. simplify_eq. by eapply write_untouched.
Qed.

Lemma purge_topic_purged s d g topic local ok s' d' r :
  store_ok s d → purge_topic s d g topic local ok = (s', d', r) → purged topic g s d s' d' (is_ok r).
Proof.
  intros Hok E. unfold purge_topic in E. destruct (cache s !! g) as [group|] eqn:Ec.
  - assert (∀ f, g ∉ dirty s → d !! g = Some (Ok f) → f_offsets f = group) as Hsync.
    { intros f Hd Hf. pose proof (proj1 Hok g group Ec Hd) as Hs. rewrite Hf in Hs. by destruct Hs. }
    rewrite without_doomed in E. destruct (doomed topic group) as [|k ks] eqn:Ek.
    + simplify_eq. apply doomed_nil in Ek. split.
      * simpl. by rewrite lookup_insert_eq, Ec.
      * intros _ Hd f Hf. exists f. split; [done|]. by rewrite (Hsync f Hd Hf), Ek.
    + destruct (write_group _ _ _ _ _ _ _) as [[s2 d2] r2] eqn:Ew. simplify_eq.
      apply write_group_spec in Ew as (Hc&_&_&_&Hcase). split.
      * rewrite Hc. simpl. by rewrite lookup_insert_eq, Ec.
      * intros Hr Hd f Hf. destruct Hcase as [(->&_&_&->)|(Hr2&_)]; [|by destruct r2].
        eexists. rewrite lookup_insert_eq. split; [done|]. by rewrite (Hsync f Hd Hf).
  - destruct (d !! g) as [[f|]|] eqn:Ef.
    + destruct (doomed topic (f_offsets f)) as [|k ks] eqn:Ek.
      * simplify_eq. split; [by rewrite Ec|]. intros _ _ f' Hf'. simplify_eq. exists f.
        split; [done|]. by rewrite doomed_nil.
      * destruct (write_group _ _ _ _ _ _ _) as [[s2 d2] r2] eqn:Ew. simplify_eq.
        apply write_group_spec in Ew as (Hc&_&_&_&Hcase). split; [by rewrite Hc, Ec|].
        intros Hr _ f' Hf'. simplify_eq. destruct Hcase as [(->&_&_&->)|(Hr2&_)]; [|by destruct r2].
        eexists. rewrite lookup_insert_eq. split; [done|]. simpl. by rewrite <- Ek, without_doomed.
    + simplify_eq. split; [by rewrite Ec|]. congruence.
    + simplify_eq. split; [by rewrite Ec|]. congruence.
Qed.

Section purge.
Context `{GroupAssignmentSource A} (src : A) (topic : string) (ok : string → bool).

Lemma purge_loop l s d n failed s' d' n' failed' :
  NoDup l → store_ok s d → foldl (purge_one src topic ok) (s, d, (n, failed)) l = (s', d', (n', failed')) →
  failed ⊆ failed' ∧
  ∀ g, (g ∉ l ∨ is_coordinator src g = false → untouched g s d s' d') ∧
       (g ∈ l → is_coordinator src g = true → purged topic g s d s' d' (bool_decide (g ∉ failed'))).
Proof.
  revert s d n failed. induction l as [|g0 l IH]; intros s d n failed Hnd Hok.
  { simpl. intros [= <- <- <- <-]. split; [done|]. intros g. split; [done|]. by rewrite elem_of_nil. }
  apply NoDup_cons in Hnd as [Hg0 Hnd]. simpl. destruct (is_coordinator src g0) eqn:Hown; simpl.
  2: { intros E. destruct (IH s d n failed Hnd Hok E) as [Hsub Hall]. split; [done|]. intros g.
       destruct (Hall g) as [Hu Hp]. split; [set_solver|]. intros [->|Hin]%elem_of_cons Ho; [congruence|by apply Hp]. }
  pose proof (purge_ok s d g0 topic (src_assignment_fence src) (ok g0) Hok) as Hok'.
  destruct (purge_topic s d g0 topic (src_assignment_fence src) (ok g0)) as [[s1 d1] r] eqn:E1.
  pose proof (purge_topic_purged _ _ _ _ _ _ _ _ _ Hok E1) as Hpur.
  pose proof (λ g', purge_topic_untouched _ _ _ _ _ _ _ _ _ g' E1) as Hun.
  set (failed1 := match r with Ok _ => failed | Err _ => failed ++ [g0] end).
  intros E. assert (∃ n1, foldl (purge_one src topic ok) (s1, d1, (n1, failed1)) l = (s', d', (n', failed'))) as [n1 E2]
    by (unfold failed1; destruct r; eauto).
  destruct (IH s1 d1 n1 failed1 Hnd Hok' E2) as [Hsub Hall]. split; [unfold failed1 in Hsub; destruct r; set_solver|].
  intros g. destruct (Hall g) as [Hu Hp]. destruct (decide (g = g0)) as [->|Hne].
  - split; [intros [?|?]; [set_solver|congruence]|]. intros _ _.
    destruct (Hu (or_introl Hg0)) as [Hc Hd _]. destruct Hpur as [Hpc Hpf]. split; [congruence|].
    intros Hnf%bool_decide_eq_true Hdirty f Hf. rewrite Hd. apply Hpf; [|done..].
    unfold failed1 in Hsub. destruct r; [done|]. exfalso. apply Hnf, Hsub, elem_of_app. right. by left.
  - destruct (Hun g Hne) as [Hc Hd Hdi]. split.
    + intros Hor. eapply untouched_trans; [by split|]. apply Hu. set_solver.
    + intros Hin Ho. destruct (Hp ltac:(set_solver) Ho) as [Hpc Hpf]. split; [by rewrite Hpc, Hc|].
      intros Hb Hdirty f Hf. apply Hpf; [done|by rewrite Hdi|by rewrite Hd].
Qed.

(** Deleting a topic purges its offsets, and nothing else: of every group this
    broker coordinates, resident or only on the volume, the topic's offsets are
    gone from memory and, unless the group is reported as failed, from its file;
    the offsets of every other topic (also of one whose name extends this one)
    stay, and groups of other coordinators are not touched. *)
Theorem topic_purge_complete m d m' d' n failed g :
  store_ok (offsets m) d → purge_topic_offsets src m d topic ok = (m', d', (n, failed)) →
  (is_coordinator src g = false → untouched g (offsets m) d (offsets m') d') ∧
  (is_coordinator src g = true → is_Some (d !! g) ∨ is_Some (groups m !! g) →
   purged topic g (offsets m) d (offsets m') d' (bool_decide (g ∉ failed))) ∧
  (∀ offs t p, i32_ok p →
    drop_topic topic offs !! offset_key t p = if decide (t = topic) then None else offs !! offset_key t p).
Proof.
  intros Hok E. unfold purge_topic_offsets in E.
  destruct (foldl _ _ _) as [[s1 d1] [n1 f1]] eqn:Ef. simplify_eq. simpl.
  assert (∀ x, x ∈ purge_ids m d ↔ x ∈ group_ids_on_disk d ∨ x ∈ resident_groups m) as Hids.
  { intros x. unfold purge_ids. by rewrite (merge_sort_Permutation String.le), elem_of_remove_dups, elem_of_app. }
  apply purge_loop in Ef as [_ Hall]; [|by unfold purge_ids; rewrite (merge_sort_Permutation String.le); apply NoDup_remove_dups|done].
  destruct (Hall g) as [Hu Hp]. split_and!; [auto| |by intros; apply drop_topic_key].
  intros Hown Hin. apply Hp; [|done]. apply Hids. unfold group_ids_on_disk, resident_groups.
  destruct Hin as [[x Hx]|[x Hx]]; [left|right]; apply list_elem_of_fmap; exists (g, x);
    by rewrite elem_of_map_to_list.
Qed.

End purge.

Definition purge_disk : Disk :=
  {["g" := Ok {| f_offsets := {[offset_key "t" 0 := 5; offset_key "t/x" 0 := 6]}; f_metadata := ∅; f_fence := stamp1 |}]}.

Definition demo_purge : Manager * Disk * (nat * list string) :=
  purge_topic_offsets (broker_at "kaas-0" 1 "kaas-0") Manager_new purge_disk "t" (λ _, true).

Lemma topic_purge_complete_witness :
  purged "t" "g" OffsetStore_new purge_disk (offsets demo_purge.1.1) demo_purge.1.2 true.
Proof.
  assert (demo_purge = (demo_purge.1.1, demo_purge.1.2, (1%nat, []))) as E by (vm_compute; reflexivity).
  destruct (topic_purge_complete (broker_at "kaas-0" 1 "kaas-0") "t" (λ _, true) Manager_new purge_disk
    demo_purge.1.1 demo_purge.1.2 1 [] "g" (store_ok_new _) E) as (_ & Hp & _).
  apply Hp; [vm_compute; reflexivity|left; vm_compute; eexists; reflexivity].
Defined.
