(* ===== verification/Acls.v ===== *)
(** * Authorization ([kaas-auth/src/types.rs], [acls.rs], [authorizer.rs])

    ACL rules with deny precedence, the decision cache, and the authorizers that
    implement the common interface.  The rules file is an argument of [reload],
    after JSON decoding; the clock is an argument.

    [AclEngine::authorize] holds no lock from its cache lookup to its cache
    insertion, so it is given in two halves, [authorize_start] and
    [authorize_finish]; [authorize] runs them back to back. *)

From stdpp Require Import base gmap strings list.
From S2P Require Import Prelude.

Local Open Scope Z_scope.

(** ** [types.rs] *)

Inductive PrincipalKind := User | ServiceAccount | Anonymous.
Definition PrincipalKind_as_str (k : PrincipalKind) : string :=
  match k with User => "User" | ServiceAccount => "ServiceAccount" | Anonymous => "User" end.

Record Principal := { p_name : string; p_kind : PrincipalKind }.
Definition anonymous : Principal := {| p_name := "ANONYMOUS"; p_kind := Anonymous |}.
Definition as_principal_string (p : Principal) : string := PrincipalKind_as_str (p_kind p) +:+ ":" +:+ p_name p.

Inductive ResourceKind := Topic | Group | Cluster | TransactionalId.
Definition ResourceKind_as_str (k : ResourceKind) : string :=
  match k with
  | Topic => "topic" | Group => "group" | Cluster => "cluster" | TransactionalId => "transactionalId"
  end.

Inductive PatternType := Literal | Prefix | Any | Match.
Record Resource := { r_kind : ResourceKind; r_name : string; r_pattern : PatternType }.

Definition Resource_topic (name : string) : Resource :=
  {| r_kind := Topic; r_name := name; r_pattern := Literal |}.
Definition Resource_group (name : string) : Resource :=
  {| r_kind := Group; r_name := name; r_pattern := Literal |}.
Definition Resource_cluster : Resource :=
  {| r_kind := Cluster; r_name := "kafka-cluster"; r_pattern := Literal |}.
Definition Resource_transactional_id (name : string) : Resource :=
  {| r_kind := TransactionalId; r_name := name; r_pattern := Literal |}.

Inductive Operation :=
| Read | Write | Create | Delete | Alter | Describe | DescribeConfigs | AlterConfigs | ClusterAction.

Definition Operation_as_str (o : Operation) : string :=
  match o with
  | Read => "Read" | Write => "Write" | Create => "Create" | Delete => "Delete" | Alter => "Alter"
  | Describe => "Describe" | DescribeConfigs => "DescribeConfigs" | AlterConfigs => "AlterConfigs"
  | ClusterAction => "ClusterAction"
  end.

Definition parse (s : string) : option Operation :=
  if decide (s = "Read") then Some Read
  else if decide (s = "Write") then Some Write
  else if decide (s = "Create") then Some Create
  else if decide (s = "Delete") then Some Delete
  else if decide (s = "Alter") then Some Alter
  else if decide (s = "Describe") then Some Describe
  else if decide (s = "DescribeConfigs") then Some DescribeConfigs
  else if decide (s = "AlterConfigs") then Some AlterConfigs
  else if decide (s = "ClusterAction") then Some ClusterAction
  else None.

#[global] Instance Operation_eq_dec : EqDecision Operation.
Proof. solve_decision. Defined.
Lemma parse_as_str o : parse (Operation_as_str o) = Some o.
Proof. by destruct o. Qed.
#[global] Instance Operation_countable : Countable Operation.
Proof. apply (inj_countable Operation_as_str parse), parse_as_str. Defined.

(** ** [acls.rs] *)

Definition CACHE_TTL : Z := 5000.

Record AclEntry := {
  ae_principal : string; ae_type : string; ae_name : string; ae_pattern : string;
  ae_operations : list string; ae_permission : string }.

Record AclRule := {
  principal : string; res_type : string; res_name : string; pattern_type : string;
  operations : gset Operation; operation_all : bool; deny : bool }.

(** Unknown operation names are dropped. *)
Definition rule_of (a : AclEntry) : AclRule :=
  {| principal := ae_principal a; res_type := ae_type a; res_name := ae_name a;
     pattern_type := if str_is_empty (ae_pattern a) then "literal" else ae_pattern a;
     operations := list_to_set (omap parse (filter (λ s, s ≠ "All") (ae_operations a)));
     operation_all := bool_decide ("All" ∈ ae_operations a);
     deny := bool_decide (ae_permission a = "Deny") |}.

Definition matches_principal (rule_principal req_principal : string) : bool :=
  bool_decide (rule_principal = "User:*" ∨ rule_principal = "*" ∨ rule_principal = req_principal).

Definition matches_resource (rule : AclRule) (kind name : string) : bool :=
  if bool_decide (res_type rule ≠ "*" ∧ res_type rule ≠ kind) then false
  else if decide (pattern_type rule = "literal") then bool_decide (res_name rule = name ∨ res_name rule = "*")
  else if decide (pattern_type rule = "prefix") then String.prefix (res_name rule) name
  else if decide (pattern_type rule = "any") then true
  else if decide (pattern_type rule = "match") then String.prefix (res_name rule) name
  else bool_decide (res_name rule = name).

(** Does the rule speak about the request? *)
Definition applies (r : AclRule) (pstr kind name : string) (op : Operation) : bool :=
  matches_principal (principal r) pstr && matches_resource r kind name &&
  (operation_all r || bool_decide (op ∈ operations r)).

Fixpoint evaluate_loop (rules : list AclRule) (pstr kind name : string) (op : Operation) (allow : bool) : bool :=
  match rules with
  | [] => allow
  | r :: rules' =>
    if negb (matches_principal (principal r) pstr) then evaluate_loop rules' pstr kind name op allow
    else if negb (matches_resource r kind name) then evaluate_loop rules' pstr kind name op allow
    else if negb (operation_all r) && negb (bool_decide (op ∈ operations r))
    then evaluate_loop rules' pstr kind name op allow
    else if deny r then false
    else evaluate_loop rules' pstr kind name op true
  end.

Definition evaluate (rules : list AclRule) (p : Principal) (res : Resource) (op : Operation) : bool :=
  evaluate_loop rules (as_principal_string p) (ResourceKind_as_str (r_kind res)) (r_name res) op false.

Record CachedDecision := { allowed : bool; expires_at : Z }.
Record AclEngine := { rules : list AclRule; cache : gmap (string * string * string * Operation) CachedDecision }.

Definition AclEngine_new : AclEngine := {| rules := []; cache := ∅ |}.

(** What reading the rules file gives. *)
Inductive AclFile := FileMissing | FileUnreadable | FileMalformed | FileEntries (acls : list AclEntry).

Definition reload (e : AclEngine) (f : AclFile) : AclEngine :=
  match f with
  | FileMissing => {| rules := []; cache := ∅ |}
  | FileUnreadable | FileMalformed => e
  | FileEntries acls => {| rules := rule_of <$> acls; cache := ∅ |}
  end.

Definition cache_key (p : Principal) (res : Resource) (op : Operation) : string * string * string * Operation :=
  (as_principal_string p, ResourceKind_as_str (r_kind res), r_name res, op).

(** Up to the evaluation: a cached answer, or a fresh one still to be cached. *)
Definition authorize_start (e : AclEngine) (p : Principal) (res : Resource) (op : Operation) (now : Z) :
    bool * bool :=
  match cache e !! cache_key p res op with
  | Some d => if now <? expires_at d then (allowed d, true) else (evaluate (rules e) p res op, false)
  | None => (evaluate (rules e) p res op, false)
  end.

Definition authorize_finish (e : AclEngine) (p : Principal) (res : Resource) (op : Operation)
    (decision : bool) (now : Z) : AclEngine :=
  {| rules := rules e;
     cache := <[cache_key p res op := {| allowed := decision; expires_at := now + CACHE_TTL |}]> (cache e) |}.

(** ** [authorizer.rs] *)

Class Authorizer (A : Type) :=
  authorize : A → Principal → Resource → Operation → Z → A * bool.

#[global] Instance acl_authorizer : Authorizer AclEngine := λ e p res op now,
  let '(decision, hit) := authorize_start e p res op now in
  (if hit : bool then e else authorize_finish e p res op decision now, decision).

Inductive AllowAllAuthorizer := AllowAll.
#[global] Instance allow_all_authorizer : Authorizer AllowAllAuthorizer := λ a _ _ _ _, (a, true).

Record SuperUserAuthorizer (A : Type) := { supers : gset string; inner : A }.
Arguments supers {A} _.
Arguments inner {A} _.

#[global] Instance super_user_authorizer {A} `{Authorizer A} : Authorizer (SuperUserAuthorizer A) :=
  λ s p res op now,
    if decide (as_principal_string p ∈ supers s) then (s, true)
    else let '(i, b) := authorize (inner s) p res op now in ({| supers := supers s; inner := i |}, b).

(** ** Properties *)

Lemma evaluate_loop_spec rs pstr kind name op allow :
  evaluate_loop rs pstr kind name op allow = true ↔
  (∀ r, r ∈ rs → applies r pstr kind name op = true → deny r = false) ∧
  (allow = true ∨ ∃ r, r ∈ rs ∧ applies r pstr kind name op = true).
Proof.
  revert allow. induction rs as [|x rs IH]; intros allow; cbn [evaluate_loop].
  { split; [intros ->; split; [intros r Hr; by apply not_elem_of_nil in Hr|by left]|].
    intros [_ [->|(r & Hr & _)]]; [done|by apply not_elem_of_nil in Hr]. }
  setoid_rewrite elem_of_cons.
  assert (applies x pstr kind name op = false → evaluate_loop rs pstr kind name op allow = true ↔
    (∀ r, r = x ∨ r ∈ rs → applies r pstr kind name op = true → deny r = false) ∧
    (allow = true ∨ ∃ r, (r = x ∨ r ∈ rs) ∧ applies r pstr kind name op = true)) as Hskip.
  { intros Hx. rewrite IH. split; intros [H1 H2]; (split; [|naive_solver congruence]);
      [intros r [->|Hr] Ha; [congruence|by eauto]|by eauto]. }
  unfold applies in Hskip at 1.
  destruct (matches_principal (principal x) pstr) eqn:E1; [|by apply Hskip].
  destruct (matches_resource x kind name) eqn:E2; [|by apply Hskip]. simpl in Hskip |- *.
  destruct (operation_all x || bool_decide (op ∈ operations x)) eqn:E3.
  - assert (negb (operation_all x) && negb (bool_decide (op ∈ operations x)) = false) as ->
      by (by rewrite <- negb_orb, E3).
    assert (applies x pstr kind name op = true) as Hx by (unfold applies; by rewrite E1, E2, E3).
    destruct (deny x) eqn:E4.
    + split; [done|]. intros [H _]. specialize (H x (or_introl eq_refl) Hx). congruence.
    + rewrite IH. split.
      * intros [H _]. split; [intros r [->|Hr] Ha; [done|by eauto]|]. right. exists x. auto.
      * intros [H _]. split; [by eauto|by left].
  - assert (negb (operation_all x) && negb (bool_decide (op ∈ operations x)) = true) as ->
      by (by rewrite <- negb_orb, E3). by apply Hskip.
Qed.

(** What an operator means by a rule set: somebody allows, nobody denies. *)
Definition permitted (rs : list AclRule) (p : Principal) (res : Resource) (op : Operation) : Prop :=
  (∃ r, r ∈ rs ∧ applies r (as_principal_string p) (ResourceKind_as_str (r_kind res)) (r_name res) op = true) ∧
  ∀ r, r ∈ rs → applies r (as_principal_string p) (ResourceKind_as_str (r_kind res)) (r_name res) op = true →
    deny r = false.

Lemma evaluate_spec rs p res op : evaluate rs p res op = true ↔ permitted rs p res op.
Proof. unfold evaluate, permitted. rewrite evaluate_loop_spec. naive_solver. Qed.

(** The requests and reloads an engine has served, one after the other. *)
Inductive AclEvent := EReload (f : AclFile) | EAuthorize (p : Principal) (res : Resource) (op : Operation) (now : Z).

Definition acl_step (e : AclEngine) (ev : AclEvent) : AclEngine :=
  match ev with
  | EReload f => reload e f
  | EAuthorize p res op now => (authorize e p res op now).1
  end.

Definition cache_true (e : AclEngine) : Prop :=
  ∀ p res op d, cache e !! cache_key p res op = Some d → allowed d = evaluate (rules e) p res op.

Lemma acl_step_cache e ev : cache_true e → cache_true (acl_step e ev).
Proof.
  intros Hc. destruct ev as [f|p res op now].
  - destruct f; simpl; try done; intros p res op d; by rewrite lookup_empty.
  - unfold acl_step, authorize, acl_authorizer. destruct (authorize_start e p res op now) as [dec hit] eqn:Es.
    destruct hit; [done|]. simpl. intros p' res' op' d. unfold authorize_finish. simpl.
    assert (dec = evaluate (rules e) p res op) as ->.
    { unfold authorize_start in Es. repeat case_match; by injection Es as <-. }
    destruct (decide (cache_key p res op = cache_key p' res' op')) as [Heq|Hne].
    + rewrite Heq, lookup_insert_eq. intros [= <-]. simpl. unfold evaluate, cache_key in *. congruence.
    + rewrite lookup_insert_ne by done. apply Hc.
Qed.

(** Authorization is deny-overrides-allow, default deny: whatever requests and
    reloads the engine has served before, cached or not, a request is allowed
    exactly when some loaded rule allows it and no loaded rule denies it, in
    whatever order the rules are listed; and a super-user wrapper adds exactly its
    configured principals. *)
Theorem acl_decision evs p res op now sup :
  ((authorize (foldl acl_step AclEngine_new evs) p res op now).2 = true ↔
     permitted (rules (foldl acl_step AclEngine_new evs)) p res op) ∧
  ((authorize {| supers := sup; inner := foldl acl_step AclEngine_new evs |} p res op now).2 = true ↔
     as_principal_string p ∈ sup ∨ permitted (rules (foldl acl_step AclEngine_new evs)) p res op).
Proof.
  set (e := foldl acl_step AclEngine_new evs).
  assert (cache_true e) as Hc.
  { unfold e. clear. induction evs as [|ev evs IH] using rev_ind.
    - intros p res op d. simpl. by rewrite lookup_empty.
    - rewrite foldl_app. simpl. by apply acl_step_cache. }
  assert ((authorize e p res op now).2 = evaluate (rules e) p res op) as Heq.
  { unfold authorize, acl_authorizer, authorize_start.
    destruct (cache e !! cache_key p res op) as [d|] eqn:Ed; [|done].
    destruct (now <? expires_at d); [|done]. simpl. by apply Hc. }
  rewrite Heq, evaluate_spec. split; [done|].
  unfold authorize at 1, super_user_authorizer. cbn [supers inner]. case_decide as Hs; [naive_solver|].
  destruct (authorize e p res op now) as [i b]. simpl in *. rewrite Heq, evaluate_spec. naive_solver.
Qed.

(** A reload can be outrun: if the rules are reloaded while a request is
    between its evaluation and its cache insertion, the old rules' answer is cached
    under the new rules, and the next request within the cache lifetime gets it,
    although the reloaded rules forbid it. *)
Theorem reload_race_keeps_old_answer e f p res op t1 t2 :
  authorize_start e p res op t1 = (true, false) →
  evaluate (rules (reload e f)) p res op = false → t2 < t1 + CACHE_TTL →
  (authorize (authorize_finish (reload e f) p res op true t1) p res op t2).2 = true ∧
  (authorize (reload e f) p res op t2).2 = false.
Proof.
  intros Hs Hev Ht.
  assert (evaluate (rules e) p res op = true) as He.
  { unfold authorize_start in Hs. repeat case_match; by injection Hs. }
  destruct f as [| | |acls]; [|simpl in Hev; congruence|simpl in Hev; congruence|].
  all: unfold authorize, acl_authorizer, authorize_start, authorize_finish; simpl in Hev |- *.
  all: rewrite lookup_insert_eq, lookup_empty; simpl.
  all: destruct (Z.ltb_spec t2 (t1 + CACHE_TTL)); [|lia]; by rewrite Hev.
Qed.

Definition alice : Principal := {| p_name := "alice"; p_kind := User |}.
Definition orders : Resource := {| r_kind := Topic; r_name := "orders"; r_pattern := Literal |}.
Definition entry_for (perm : string) : AclEntry :=
  {| ae_principal := "User:alice"; ae_type := "topic"; ae_name := "ord"; ae_pattern := "prefix";
     ae_operations := ["Write"; "Fly"]; ae_permission := perm |}.
Definition allowing : AclEngine := reload AclEngine_new (FileEntries [entry_for "Allow"]).

Lemma reload_race_keeps_old_answer_witness :
  (authorize (authorize_finish (reload allowing (FileEntries [entry_for "Deny"])) alice orders Write true 0)
     alice orders Write 10).2 = true.
Proof.
  destruct (reload_race_keeps_old_answer allowing (FileEntries [entry_for "Deny"]) alice orders Write 0 10)
    as [H _].
  - vm_compute. reflexivity.
  - vm_compute. reflexivity.
  - vm_compute. reflexivity.
  - exact H.
Defined.
