(* ===== verification/ProducerFence.v ===== *)
(** * Producer ids and fencing across brokers
    ([kaas-broker/src/producer_id.rs], [handlers/init_producer_id.rs],
    [fence_watcher.rs], [kaas-coordinator/src/fence_log.rs])

    Producer ids come from per-broker block files on the shared volume.  A
    transactional InitProducerId bumps the epoch in the coordinator's store,
    fences the producer in the broker's open partitions and records the fence in
    the broker's outbound file, which the other brokers' watchers poll.

    A JSON file is absent, undecodable or the value it decodes to; whether a
    write succeeds is an argument. *)

From stdpp Require Import base gmap strings list pretty.
From Stdlib Require Import Strings.Byte.
From S2P Require Import Prelude Idempotence Partition Recovery Cluster TxnState OffsetStore Engine Acls ApiTxn.

Local Open Scope Z_scope.

(** ** [producer_id.rs] *)

Module ProducerId.

Definition PID_STRIDE : Z := 2 ^ 40.
Definition PID_BLOCK : Z := 1000.

(** [ProducerIdAllocator]: the slice's low end and the block in use. *)
Record Allocator := { base : Z; next_local : Z; block_end : Z }.

Definition read_block_file (f : JsonFile Z) : option Z :=
  match f with
  | None => Some 0
  | Some (Err _) => None
  | Some (Ok n) => Some (Z.max n 0)
  end.

(** Persist the new block end, then adopt it, written or not. *)
Definition reserve (a : Allocator) (f : JsonFile Z) (ok : bool) : Allocator * JsonFile Z :=
  let new_end := sat_i64 (block_end a + PID_BLOCK) in
  ({| base := base a; next_local := next_local a; block_end := new_end |},
   if ok then Some (Ok new_end) else f).

Definition open (f : JsonFile Z) (broker_id : Z) (ok : bool) : option (Allocator * JsonFile Z) :=
  persisted ← read_block_file f;
  Some (reserve {| base := sat_i64 (sat_i64 (Z.max broker_id 0 + 1) * PID_STRIDE);
                   next_local := persisted; block_end := persisted |} f ok).

Definition next (a : Allocator) (f : JsonFile Z) (ok : bool) : Allocator * JsonFile Z * Z :=
  let '(a, f) := if block_end a <=? next_local a then reserve a f ok else (a, f) in
  ({| base := base a; next_local := wrap_s 64 (next_local a + 1); block_end := block_end a |}, f,
   sat_i64 (base a + next_local a)).

(** *** A fleet of brokers over one volume *)

Record Fleet := { blocks : gmap Z (result unit Z); running : gmap Z Allocator; issued : list Z }.

Inductive FleetEvent := Boot (b : Z) | Issue (b : Z) | Stop (b : Z).

Definition broker_of (ev : FleetEvent) : Z := match ev with Boot b | Issue b | Stop b => b end.

(** A broker boots over its own block file (a second boot is a restart), hands
    out an id, or stops without a word.  Writes succeed. *)
Definition fleet_step (f : Fleet) (ev : FleetEvent) : Fleet :=
  match ev with
  | Boot b =>
    match open (blocks f !! b) b true with
    | Some (a, file) => {| blocks := partial_alter (λ _, file) b (blocks f);
                           running := <[b := a]> (running f); issued := issued f |}
    | None => f
    end
  | Issue b =>
    match running f !! b with
    | Some a =>
      let '(a', file, p) := next a (blocks f !! b) true in
      {| blocks := partial_alter (λ _, file) b (blocks f);
         running := <[b := a']> (running f); issued := issued f ++ [p] |}
    | None => f
    end
  | Stop b => {| blocks := blocks f; running := delete b (running f); issued := issued f |}
  end.

Definition fleet_new : Fleet := {| blocks := ∅; running := ∅; issued := [] |}.

Definition id_ok (b : Z) : Prop := 0 ≤ b < 2 ^ 22.

(** The first local number of a broker that has not been handed out. *)
Definition limit (f : Fleet) (b : Z) : Z :=
  match running f !! b with
  | Some a => next_local a
  | None => match blocks f !! b with Some (Ok n) => n | _ => 0 end
  end.

Definition within (f : Fleet) : Prop := ∀ b n, blocks f !! b = Some (Ok n) → n ≤ PID_STRIDE.

Record blocks_ok (f : Fleet) : Prop := {
  fo_blocks b r : blocks f !! b = Some r → ∃ n, r = Ok n ∧ 0 ≤ n ≤ i64_max;
  fo_block b a : running f !! b = Some a → blocks f !! b = Some (Ok (block_end a)) }.

Record fleet_ok (f : Fleet) : Prop := {
  fo_base b a : running f !! b = Some a → base a = (b + 1) * PID_STRIDE ∧ 0 ≤ next_local a ≤ block_end a;
  fo_issued p : p ∈ issued f → ∃ b n, id_ok b ∧ p = (b + 1) * PID_STRIDE + n ∧ 0 ≤ n < limit f b;
  fo_nodup : NoDup (issued f) }.

Lemma alloc_open_spec f b a f' :
  id_ok b → open f b true = Some (a, f') →
  ∃ n, read_block_file f = Some n ∧ base a = (b + 1) * PID_STRIDE ∧ next_local a = n ∧
    block_end a = sat_i64 (n + PID_BLOCK) ∧ f' = Some (Ok (block_end a)).
Proof.
  intros [H0 H1]. unfold open. destruct (read_block_file f) as [n|]; [|done]. simpl.
  intros [= <- <-]. exists n. split_and!; try done. simpl. rewrite Z.max_l by lia.
  assert (2 ^ 23 * PID_STRIDE = i64_max + 1) by done. assert (PID_STRIDE = 1099511627776) by done.
  unfold sat_i64. range.
Qed.

(** The block file of a broker never goes back. *)
Lemma open_block f b a f' :
  open f b true = Some (a, f') →
  ∃ n, read_block_file f = Some n ∧ block_end a = sat_i64 (n + PID_BLOCK) ∧ f' = Some (Ok (block_end a)).
Proof.
  unfold open. destruct (read_block_file f) as [n|]; [|done]. simpl. intros [= <- <-]. by exists n.
Qed.

Lemma next_block a f a' f' p :
  f = Some (Ok (block_end a)) → 0 ≤ block_end a ≤ i64_max → next a f true = (a', f', p) →
  f' = Some (Ok (block_end a')) ∧ block_end a ≤ block_end a' ≤ i64_max.
Proof.
  intros -> Hr. unfold next.
  destruct (block_end a <=? next_local a); intros [= <- <- <-]; (split; [done|]); simpl; [|lia].
  unfold sat_i64, PID_BLOCK. range.
Qed.

Lemma fleet_step_blocks f ev :
  blocks_ok f → blocks_ok (fleet_step f ev) ∧
  ∀ b n, blocks f !! b = Some (Ok n) → ∃ n', blocks (fleet_step f ev) !! b = Some (Ok n') ∧ n ≤ n'.
Proof.
  intros Hf.
  assert (∀ b' a m, 0 ≤ block_end a ≤ i64_max → (∀ n, blocks f !! b' = Some (Ok n) → n ≤ block_end a) →
    let f' := {| blocks := partial_alter (λ _, Some (Ok (block_end a))) b' (blocks f);
                 running := <[b' := a]> (running f); issued := m |} in
    blocks_ok f' ∧ ∀ b n, blocks f !! b = Some (Ok n) → ∃ n', blocks f' !! b = Some (Ok n') ∧ n ≤ n') as Hset.
  { intros b' a m Hr Hle f'. split; [constructor; simpl; intros b x|simpl; intros b x];
      destruct (decide (b = b')) as [->|Hne].
    - rewrite lookup_partial_alter_eq. intros [= <-]. eauto.
    - rewrite lookup_partial_alter_ne by done. apply (fo_blocks _ Hf).
    - rewrite lookup_insert_eq, lookup_partial_alter_eq. by intros [= <-].
    - rewrite lookup_insert_ne, lookup_partial_alter_ne by done. apply (fo_block _ Hf).
    - rewrite lookup_partial_alter_eq. eauto.
    - rewrite lookup_partial_alter_ne by done. intros H. by exists x. }
  destruct ev as [b'|b'|b']; simpl in *.
  - destruct (open (blocks f !! b') b' true) as [[a file]|] eqn:E; [|split; [done|intros b n Hn; by exists n]].
    apply open_block in E as (m & Hm & He & ->). apply Hset.
    + destruct (blocks f !! b') as [r|] eqn:Eb; [destruct (fo_blocks _ Hf _ _ Eb) as (k & -> & Hk)|];
        simpl in Hm; simplify_eq; rewrite He; unfold sat_i64, PID_BLOCK; range.
    + intros n Hn. rewrite Hn in Hm. destruct (fo_blocks _ Hf _ _ Hn) as (? & [= <-] & Hr). simpl in Hm.
      simplify_eq. rewrite He. unfold sat_i64, PID_BLOCK. range.
  - destruct (running f !! b') as [a|] eqn:Ea; [|split; [done|intros b n Hn; by exists n]].
    pose proof (fo_block _ Hf _ _ Ea) as Hblk. destruct (fo_blocks _ Hf _ _ Hblk) as (? & [= <-] & Hr).
    destruct (next a (blocks f !! b') true) as [[a' file] p] eqn:En.
    apply next_block in En as [-> Hle]; [|done..]. apply Hset; [lia|]. intros n Hn. simplify_eq. lia.
  - split; [|intros b n Hn; by exists n]. constructor; simpl; [apply (fo_blocks _ Hf)|].
    intros b a [_ H]%lookup_delete_Some. by apply (fo_block _ Hf).
Qed.

Lemma sat_small z : 0 ≤ z ≤ i64_max → sat_i64 z = z.
Proof. unfold sat_i64. range. Qed.

(** An id of one broker's slice determines the broker and the local number. *)
Lemma slice_inj b n b' n' :
  0 ≤ n < PID_STRIDE → 0 ≤ n' < PID_STRIDE →
  (b + 1) * PID_STRIDE + n = (b' + 1) * PID_STRIDE + n' → b = b' ∧ n = n'.
Proof. unfold PID_STRIDE. nia. Qed.

Lemma boot_ok f b : blocks_ok f → fleet_ok f → id_ok b → fleet_ok (fleet_step f (Boot b)).
Proof.
  intros Hk Hf Hid. simpl in *. destruct (open (blocks f !! b) b true) as [[a file]|] eqn:E; [|done].
  apply alloc_open_spec in E as (n & Hn & Hbase & Hnx & He & ->); [|done].
  assert (0 ≤ n ≤ i64_max) as Hnr.
  { destruct (blocks f !! b) as [r|] eqn:Eb; [|injection Hn as <-; range].
    destruct (fo_blocks _ Hk _ _ Eb) as (m & -> & Hm). simpl in Hn. simplify_eq. lia. }
  assert (n ≤ block_end a) as Hle by (rewrite He; unfold sat_i64, PID_BLOCK; range).
  constructor; simpl; [| |apply (fo_nodup _ Hf)].
  - intros b' a'. destruct (decide (b' = b)) as [->|]; [|rewrite lookup_insert_ne by done; apply (fo_base _ Hf)].
    rewrite lookup_insert_eq. intros [= <-]. split; [done|lia].
  - intros p Hp. destruct (fo_issued _ Hf p Hp) as (b' & m & Hb' & -> & Hm). exists b', m.
    split_and!; [done..|lia|]. unfold limit in *. simpl.
    destruct (decide (b' = b)) as [->|]; [|rewrite lookup_insert_ne, ?lookup_partial_alter_ne by done; apply Hm].
    rewrite lookup_insert_eq. destruct (running f !! b) as [a0|] eqn:Er.
    + destruct (fo_base _ Hf _ _ Er) as [_ Ha0]. rewrite (fo_block _ Hk _ _ Er) in Hn.
      simpl in Hn. simplify_eq. lia.
    + destruct (blocks f !! b) as [[m'|?]|]; simpl in *; simplify_eq; lia.
Qed.

Lemma limit_within f b : blocks_ok f → fleet_ok f → within f → limit f b ≤ PID_STRIDE.
Proof.
  intros Hk Hf Hw. unfold limit. destruct (running f !! b) as [a|] eqn:Er.
  - destruct (fo_base _ Hf _ _ Er). pose proof (Hw _ _ (fo_block _ Hk _ _ Er)). lia.
  - destruct (blocks f !! b) as [[k|?]|] eqn:Eb; [by apply (Hw b)| |]; unfold PID_STRIDE; lia.
Qed.

Lemma issue_ok f b :
  blocks_ok f → fleet_ok f → id_ok b → within f → within (fleet_step f (Issue b)) →
  fleet_ok (fleet_step f (Issue b)).
Proof.
  intros Hk Hf Hid Hwf Hw. simpl in *. destruct (running f !! b) as [a|] eqn:Ea; [|done].
  destruct (fo_base _ Hf _ _ Ea) as [Hbase Hn]. pose proof (fo_block _ Hk _ _ Ea) as Hblk.
  assert (PID_STRIDE = 1099511627776) as HS by done.
  pose proof (Hwf _ _ Hblk) as Hbe. rewrite Hblk in *.
  assert (∃ e, next a (Some (Ok (block_end a))) true =
    ({| base := base a; next_local := next_local a + 1; block_end := e |}, Some (Ok e),
     (b + 1) * PID_STRIDE + next_local a) ∧ next_local a < e) as (e & Hnext & Hlt).
  { destruct Hid as [Hb0 Hb1].
    assert (sat_i64 ((b + 1) * PID_STRIDE + next_local a) = (b + 1) * PID_STRIDE + next_local a) as Hs.
    { apply sat_small. rewrite HS in *. change (2 ^ 22) with 4194304 in Hb1. unfold i64_max. lia. }
    unfold next. destruct (Z.leb_spec (block_end a) (next_local a)); simpl; rewrite Hbase, Hs;
      (rewrite wrap_s_small; [|done|simpl; lia]); (eexists; split; [done|]); [|done].
    unfold sat_i64, PID_BLOCK. range. }
  rewrite Hnext in *. constructor; simpl.
  - intros b' a'. destruct (decide (b' = b)) as [->|]; [|rewrite lookup_insert_ne by done; apply (fo_base _ Hf)].
    rewrite lookup_insert_eq. intros [= <-]. simpl. split; [done|lia].
  - intros p [Hp'| ->%list_elem_of_singleton]%elem_of_app.
    + destruct (fo_issued _ Hf p Hp') as (b' & m & Hb' & -> & Hm). exists b', m.
      split_and!; [done..|lia|]. unfold limit in *. simpl.
      destruct (decide (b' = b)) as [->|]; [|rewrite lookup_insert_ne, ?lookup_partial_alter_ne by done; apply Hm].
      rewrite lookup_insert_eq. rewrite Ea in Hm. simpl. lia.
    + exists b, (next_local a). split_and!; [done..|lia|]. unfold limit. simpl. rewrite lookup_insert_eq. simpl. lia.
  - apply NoDup_app. split_and!; [apply (fo_nodup _ Hf)| |apply NoDup_singleton].
    intros p Hp' ->%list_elem_of_singleton. destruct (fo_issued _ Hf _ Hp') as (b' & m & Hb' & Heq & Hm).
    pose proof (limit_within f b' Hk Hf Hwf).
    assert (e ≤ PID_STRIDE) by exact (Hw b e (lookup_partial_alter_eq _ _ _)).
    apply slice_inj in Heq as [<- <-]; [|lia..]. unfold limit in Hm. rewrite Ea in Hm. lia.
Qed.

Lemma stop_ok f b : blocks_ok f → fleet_ok f → fleet_ok (fleet_step f (Stop b)).
Proof.
  intros Hk Hf. constructor; simpl; [| |apply (fo_nodup _ Hf)].
  - intros b' a [_ H]%lookup_delete_Some. by apply (fo_base _ Hf).
  - intros p Hp. destruct (fo_issued _ Hf p Hp) as (b' & m & Hb' & -> & Hm). exists b', m.
    split_and!; [done..|lia|]. unfold limit in *. simpl.
    destruct (decide (b' = b)) as [->|]; [|rewrite lookup_delete_ne by done; apply Hm].
    rewrite lookup_delete_eq. destruct (running f !! b) as [a|] eqn:Ea; [|lia].
    destruct (fo_base _ Hf _ _ Ea) as [_ Ha]. rewrite (fo_block _ Hk _ _ Ea). lia.
Qed.

Lemma fleet_run_blocks evs : blocks_ok (foldl fleet_step fleet_new evs).
Proof.
  induction evs as [|ev evs IH] using rev_ind; [by constructor|].
  rewrite foldl_snoc. by apply fleet_step_blocks.
Qed.

Lemma fleet_run_ok evs :
  Forall (id_ok ∘ broker_of) evs → within (foldl fleet_step fleet_new evs) →
  fleet_ok (foldl fleet_step fleet_new evs).
Proof.
  induction evs as [|ev evs IH] using rev_ind; intros Hid Hw.
  { constructor; simpl; [by intros *|intros p []%not_elem_of_nil|constructor]. }
  rewrite Forall_app, Forall_singleton in Hid. destruct Hid as [Hids Hid]. simpl in Hid.
  rewrite foldl_snoc in *. pose proof (fleet_run_blocks evs) as Hk.
  assert (within (foldl fleet_step fleet_new evs)) as Hwf.
  { intros b n Hn. destruct (proj2 (fleet_step_blocks _ ev Hk) b n Hn) as (n' & Hn' & Hle).
    pose proof (Hw _ _ Hn'). lia. }
  specialize (IH Hids Hwf). destruct ev; [by apply boot_ok|by apply issue_ok|by apply stop_ok].
Qed.

(** C17. Producer ids are never reused: over any history of boots, crashes and
    hand-outs of any set of brokers sharing the volume, the ids handed out are
    pairwise different and never the unset value 0, as long as the block files
    can be written and no broker exhausts its slice of 2^40. *)
Theorem producer_ids_unique evs :
  Forall (id_ok ∘ broker_of) evs → within (foldl fleet_step fleet_new evs) →
  NoDup (issued (foldl fleet_step fleet_new evs)) ∧
  Forall (λ p, 0 < p ≤ i64_max) (issued (foldl fleet_step fleet_new evs)).
Proof.
  intros Hid Hw. pose proof (fleet_run_ok evs Hid Hw) as Hf. pose proof (fleet_run_blocks evs) as Hk.
  split; [apply (fo_nodup _ Hf)|]. apply Forall_forall. intros p Hp.
  destruct (fo_issued _ Hf p Hp) as (b & n & [Hb0 Hb1] & -> & Hn).
  pose proof (limit_within _ b Hk Hf Hw). assert (PID_STRIDE = 1099511627776) as HS by done. range.
Qed.

Definition demo_fleet : list FleetEvent := [Boot 0; Issue 0; Boot 1; Issue 1; Stop 0; Boot 0; Issue 0; Issue 1].

Lemma producer_ids_unique_witness :
  issued (foldl fleet_step fleet_new demo_fleet) =
    [1099511627776; 2199023255552; 1099511628776; 2199023255553] ∧
  NoDup (issued (foldl fleet_step fleet_new demo_fleet)).
Proof.
  split; [vm_compute; reflexivity|].
  apply (producer_ids_unique demo_fleet).
  - unfold demo_fleet. repeat constructor; unfold id_ok; simpl; lia.
  - intros b n Hb. assert (blocks (foldl fleet_step fleet_new demo_fleet) =
      {[0 := Ok 2000; 1 := Ok 1000]}) as Heq by (vm_compute; reflexivity).
    rewrite Heq in Hb. apply lookup_insert_Some in Hb as [[_ [= <-]]|[_ Hb]]; [by vm_compute|].
    apply lookup_singleton_Some in Hb as [_ [= <-]]. by vm_compute.
Defined.

(** When a block cannot be written it is adopted all the same, so a restart
    hands its ids out again. *)
Lemma unwritten_block_reused :
  ∃ a, open None 0 false = Some (a, None) ∧ (next a None true).2 = 1099511627776 ∧
       open None 0 true ≫= (λ '(a', f), Some (next a' f true).2) = Some 1099511627776.
Proof. eexists. split; [reflexivity|]. split; vm_compute; reflexivity. Qed.

End ProducerId.

(** ** [fence_log.rs] *)

Module FenceLog.

Notation FenceFile := (JsonFile (gmap string Z)).

(** A missing or empty file reads as the empty map. *)
Definition load_state (f : FenceFile) : result unit (gmap string Z) :=
  match f with None => Ok ∅ | Some r => r end.

Definition append (f : FenceFile) (pid epoch : Z) (ok : bool) : FenceFile * result unit unit :=
  match load_state f with
  | Err e => (f, Err e)
  | Ok st =>
    if match st !! pretty pid with Some existing => epoch <=? existing | None => false end then (f, Ok tt)
    else if ok then (Some (Ok (<[pretty pid := epoch]> st)), Ok tt) else (f, Err tt)
  end.

(** [str::parse::<i64>]. *)
Definition parse_pid (s : string) : option Z := parse_signed (- i64_max - 1) i64_max s.

Definition snapshot (f : FenceFile) : gmap Z Z :=
  match load_state f with
  | Ok st => collect (omap (λ '(k, v), (λ pid, (pid, v)) <$> parse_pid k) (map_to_list st))
  | Err _ => ∅
  end.

Definition file_name (broker_id : string) : string := "from-" +:+ broker_id +:+ ".json".

(** The file records epoch [e] or a later one for the producer. *)
Definition recorded (f : FenceFile) (pid e : Z) : Prop :=
  ∃ st x, f = Some (Ok st) ∧ st !! pretty pid = Some x ∧ e ≤ x.

Lemma append_recorded f pid epoch ok f' :
  append f pid epoch ok = (f', Ok tt) → recorded f' pid epoch.
Proof.
  unfold append. destruct f as [[st|?]|]; simpl; [| done|].
  - destruct (st !! pretty pid) as [x|] eqn:E.
    + destruct (Z.leb_spec epoch x); [intros [= <-]; exists st, x; auto with lia|].
      destruct ok; [|done]. intros [= <-]. eexists _, epoch. by rewrite lookup_insert_eq.
    + destruct ok; [|done]. intros [= <-]. eexists _, epoch. by rewrite lookup_insert_eq.
  - rewrite lookup_empty. destruct ok; [|done]. intros [= <-]. eexists _, epoch. by rewrite lookup_insert_eq.
Qed.

(** A recorded fence is never lowered. *)
Lemma append_keeps f pid epoch ok pid' e :
  recorded f pid' e → recorded (append f pid epoch ok).1 pid' e.
Proof.
  intros (st & x & -> & Hx & Hle). unfold append. simpl.
  destruct (match st !! pretty pid with Some y => epoch <=? y | None => false end) eqn:E;
    [by exists st, x|]. destruct ok; [|by exists st, x]. simpl.
  destruct (decide (pid' = pid)) as [->|Hne].
  - rewrite Hx in E. apply Z.leb_gt in E. eexists _, epoch. rewrite lookup_insert_eq. split_and!; [done..|lia].
  - eexists _, x. rewrite lookup_insert_ne; [done|].
    intros H. apply Hne. symmetry. by apply (inj pretty).
Qed.

End FenceLog.

Notation fenced := Idempotence.epoch_at_least.

(** ** [fence_watcher.rs] *)

Module FenceWatcher.

Notation Applied := (gmap string (gmap Z Z)).

(** One pass over a peer's file: what is new goes to [pending] and into the
    cache. *)
Definition note (acc : gmap Z Z * list (Z * Z)) (kv : string * Z) : gmap Z Z * list (Z * Z) :=
  match FenceLog.parse_pid kv.1 with
  | None => acc
  | Some pid =>
    if match acc.1 !! pid with Some existing => kv.2 <=? existing | None => false end then acc
    else (<[pid := kv.2]> acc.1, acc.2 ++ [(pid, kv.2)])
  end.

Definition apply_peer (applied : Applied) (name : string) (f : JsonFile (gmap string Z)) :
    Applied * list (Z * Z) :=
  match f with
  | Some (Ok peer_state) =>
    let '(last, pending) := foldl note (default ∅ (applied !! name), []) (map_to_list peer_state) in
    (<[name := last]> applied, pending)
  | _ => (applied, [])
  end.

Definition fence_all (eng : Engine) (pending : list (Z * Z)) : Engine :=
  foldl (λ eng '(pid, epoch), fence_producer_epoch eng pid epoch) eng pending.

Definition is_peer_file (self_file name : string) : bool :=
  String.prefix "from-" name && bool_decide (is_Some (SegmentDir.strip_suffix ".json" name)) &&
  bool_decide (name ≠ self_file).

(** [tick]: every peer file of the directory. *)
Definition tick (self_id : string) (dir : gmap string (result unit (gmap string Z)))
    (s : Applied * Engine) : Applied * Engine :=
  foldl (λ s '(name, f),
    if is_peer_file (FenceLog.file_name self_id) name then
      let '(applied, pending) := apply_peer s.1 name (Some f) in (applied, fence_all s.2 pending)
    else s) s (map_to_list dir).

(** Partition [k] has received every fence in the cache. *)
Definition settled (applied : Applied) (eng : Engine) (k : Key) : Prop :=
  ∀ name last pid x root p, applied !! name = Some last → last !! pid = Some x →
    partitions eng !! k = Some (root, p) → fenced (producer_states p) pid x.

Lemma fence_keeps st pid e pid' e' :
  fenced st pid e → fenced (fence st pid' e') pid e.
Proof.
  intros (en & Hen & Hle). unfold fence. destruct (decide (pid' = pid)) as [->|Hne].
  - eexists. rewrite lookup_insert_eq. split; [done|]. rewrite Hen. simpl.
    destruct (Z.ltb_spec (Idempotence.epoch en) e'); simpl; lia.
  - exists en. by rewrite lookup_insert_ne.
Qed.

(** What fencing leaves of a partition: still there, with every fence of the
    list and all it had before. *)
Lemma fence_all_spec pending eng k root p' :
  partitions (fence_all eng pending) !! k = Some (root, p') →
  ∃ p, partitions eng !! k = Some (root, p) ∧
    (∀ pid e, fenced (producer_states p) pid e → fenced (producer_states p') pid e) ∧
    (∀ pid e, (pid, e) ∈ pending → fenced (producer_states p') pid e).
Proof.
  revert p'. induction pending as [|[pid e] pending IH] using rev_ind; intros p'.
  { intros H. exists p'. split_and!; [done..|]. intros * []%not_elem_of_nil. }
  unfold fence_all. rewrite foldl_snoc. fold (fence_all eng pending).
  unfold fence_producer_epoch at 1. simpl. rewrite lookup_fmap_Some.
  intros ([r q] & [= <- <-] & Hq). destruct (IH q Hq) as (p & Hp & Hkeep & Hnew). exists p.
  split_and!; [done| |].
  - intros pid' e' H. by apply fence_keeps, Hkeep.
  - intros pid' e' [H|[= -> ->]%list_elem_of_singleton]%elem_of_app; [by apply fence_keeps, Hnew|].
    apply fence_epoch.
Qed.

Lemma note_one acc kv :
  (∀ pid x, (note acc kv).1 !! pid = Some x → acc.1 !! pid = Some x ∨ (pid, x) ∈ (note acc kv).2) ∧
  (∀ pid x, acc.1 !! pid = Some x → ∃ y, (note acc kv).1 !! pid = Some y ∧ x ≤ y) ∧
  (∀ pid, FenceLog.parse_pid kv.1 = Some pid → ∃ y, (note acc kv).1 !! pid = Some y ∧ kv.2 ≤ y) ∧
  (∀ q, q ∈ acc.2 → q ∈ (note acc kv).2).
Proof.
  unfold note. destruct (FenceLog.parse_pid kv.1) as [pid|] eqn:Ek;
    [|split_and!; [auto|intros p x Hx; by exists x|done|auto]].
  destruct (match acc.1 !! pid with Some existing => kv.2 <=? existing | None => false end) eqn:Eb.
  - split_and!; [auto|intros p x Hx; by exists x| |auto]. intros ? [= <-]. destruct (acc.1 !! pid) as [y|]; [|done].
    exists y. split; [done|]. by apply Z.leb_le in Eb.
  - simpl. split_and!.
    + intros p x. rewrite lookup_insert_Some, elem_of_app, list_elem_of_singleton.
      intros [[<- <-]|[Hne H]]; auto.
    + intros p x Hx. destruct (decide (pid = p)) as [->|]; [|exists x; by rewrite lookup_insert_ne].
      exists kv.2. rewrite lookup_insert_eq. split; [done|]. rewrite Hx in Eb. apply Z.leb_gt in Eb. lia.
    + intros ? [= <-]. exists kv.2. by rewrite lookup_insert_eq.
    + intros q Hq. apply elem_of_app. by left.
Qed.

Lemma note_spec l acc :
  let acc' := foldl note acc l in
  (∀ pid x, acc'.1 !! pid = Some x → acc.1 !! pid = Some x ∨ (pid, x) ∈ acc'.2) ∧
  (∀ pid x, acc.1 !! pid = Some x → ∃ y, acc'.1 !! pid = Some y ∧ x ≤ y) ∧
  (∀ kv pid, kv ∈ l → FenceLog.parse_pid kv.1 = Some pid → ∃ y, acc'.1 !! pid = Some y ∧ kv.2 ≤ y).
Proof.
  induction l as [|kv l IH] using rev_ind; simpl;
    [split_and!; [auto|intros p x Hx; by exists x|intros * []%not_elem_of_nil]|].
  rewrite foldl_snoc. destruct IH as (H1 & H2 & H3).
  destruct (note_one (foldl note acc l) kv) as (N1 & N2 & N3 & N4).
  assert (∀ pid x, (∃ y, (foldl note acc l).1 !! pid = Some y ∧ x ≤ y) →
    ∃ y, (note (foldl note acc l) kv).1 !! pid = Some y ∧ x ≤ y) as Hup.
  { intros pid x (y & Hy & Hle). destruct (N2 _ _ Hy) as (z & ? & ?). exists z. split; [done|lia]. }
  split_and!.
  - intros pid x [H|H]%N1; [|by right]. destruct (H1 _ _ H); auto.
  - intros pid x Hx. by apply Hup, H2.
  - intros kv' pid [H| ->%list_elem_of_singleton]%elem_of_app Hp; [by apply Hup, (H3 kv')|by apply N3].
Qed.

(** The cache knows of epoch [x] or later for a producer of a peer. *)
Definition cached (applied : Applied) (name : string) (pid x : Z) : Prop :=
  ∃ last y, applied !! name = Some last ∧ last !! pid = Some y ∧ x ≤ y.

Lemma apply_peer_spec applied eng name st k applied' pending :
  apply_peer applied name (Some (Ok st)) = (applied', pending) → settled applied eng k →
  settled applied' (fence_all eng pending) k ∧
  (∀ n pid x, cached applied n pid x → cached applied' n pid x) ∧
  (∀ key pid x, st !! key = Some x → FenceLog.parse_pid key = Some pid → cached applied' name pid x).
Proof.
  unfold apply_peer. pose proof (note_spec (map_to_list st) (default ∅ (applied !! name), [])) as Hn.
  destruct (foldl note _ _) as [last pend]. simpl in Hn. destruct Hn as (H1 & H2 & H3).
  intros [= <- <-] Hs. split_and!.
  - intros n l pid x root p' Hl Hx Hp'. destruct (fence_all_spec _ _ _ _ _ Hp') as (p & Hp & Hkeep & Hnew).
    destruct (decide (n = name)) as [->|Hne].
    + rewrite lookup_insert_eq in Hl. injection Hl as <-. destruct (H1 _ _ Hx) as [H|H]; [|by apply Hnew].
      apply Hkeep. destruct (applied !! name) as [l0|] eqn:E; [by eapply Hs|done].
    + rewrite lookup_insert_ne in Hl by done. apply Hkeep. by eapply Hs.
  - intros n pid x (l & y & Hl & Hy & Hle). unfold cached. destruct (decide (n = name)) as [->|Hne].
    + rewrite lookup_insert_eq. rewrite Hl in H2. destruct (H2 pid y Hy) as (z & Hz & ?).
      exists last, z. split_and!; [done..|lia].
    + rewrite lookup_insert_ne by done. by exists l, y.
  - intros key pid x Hk Hp. destruct (H3 (key, x) pid) as (y & Hy & ?); [by apply elem_of_map_to_list|done|].
    exists last, y. by rewrite lookup_insert_eq.
Qed.

Lemma tick_spec self_id dir applied eng k applied' eng' :
  tick self_id dir (applied, eng) = (applied', eng') → settled applied eng k →
  settled applied' eng' k ∧
  ∀ name st key pid x, dir !! name = Some (Ok st) → is_peer_file (FenceLog.file_name self_id) name = true →
    st !! key = Some x → FenceLog.parse_pid key = Some pid → cached applied' name pid x.
Proof.
  unfold tick. setoid_rewrite <- elem_of_map_to_list. generalize (map_to_list dir). intros l.
  revert applied' eng'. induction l as [|[name f] l IH] using rev_ind; intros applied' eng'.
  { intros [= <- <-] Hs. split; [done|]. intros * []%not_elem_of_nil. }
  rewrite foldl_snoc. destruct (foldl _ (applied, eng) l) as [applied1 eng1].
  intros Hstep Hs. destruct (IH _ _ eq_refl Hs) as [Hs1 Hc1]. cbn [fst snd] in Hstep.
  setoid_rewrite elem_of_app. setoid_rewrite list_elem_of_singleton.
  destruct (is_peer_file (FenceLog.file_name self_id) name) eqn:Ep.
  2:{ injection Hstep as <- <-. split; [done|]. intros n st key pid x [H|[= -> <-]] Hp;
        [by eapply Hc1|by rewrite Ep in Hp]. }
  destruct f as [st|u].
  2:{ simpl in Hstep. injection Hstep as <- <-. split; [done|].
      intros n st key pid x [H|[=]] Hp; by eapply Hc1. }
  destruct (apply_peer applied1 name (Some (Ok st))) as [applied2 pend] eqn:Ea.
  injection Hstep as <- <-. destruct (apply_peer_spec _ _ _ _ _ _ _ Ea Hs1) as (Hs2 & Hmono & Hnew).
  split; [done|]. intros n st' key pid x [H|[= -> ->]] Hp Hk Hkey; [|apply elem_of_map_to_list in Hk; exact (Hnew key pid x Hk Hkey)].
  by eapply Hmono, Hc1.
Qed.

Lemma file_name_peer self_id b : b ≠ self_id →
  is_peer_file (FenceLog.file_name self_id) (FenceLog.file_name b) = true.
Proof.
  intros Hne. unfold is_peer_file, FenceLog.file_name.
  rewrite (bool_decide_true (is_Some _)).
  2:{ change ("from-" +:+ b +:+ ".json") with (("from-" +:+ b) +:+ ".json").
      rewrite SegmentDir.strip_suffix_app. by eexists. }
  rewrite bool_decide_true; [cbn; by destruct b|]. intros H. apply Hne.
  injection H as H. change (b +:+ ".json" = self_id +:+ ".json") in H. by apply SegmentDir.append_inj_l in H.
Qed.

End FenceWatcher.

(** ** [init_producer_id.rs] *)

Definition ERR_COORDINATOR_NOT_AVAILABLE : Z := 15.
Definition ERR_NOT_COORDINATOR : Z := 16.
Definition ERR_INVALID_REQUEST : Z := 42.
Definition ERR_INVALID_PRODUCER_ID_MAPPING : Z := 49.
Definition ERR_INVALID_TXN_STATE : Z := 50.
Definition ERR_CONCURRENT_TRANSACTIONS : Z := 51.
Definition ERR_TXN_ID_AUTHZ_FAILED : Z := 53.
Definition ERR_PRODUCER_FENCED : Z := 90.

(** The same function in every transactional handler. *)
Definition map_store_error (e : TxnStateError) : Z :=
  match e with
  | EmptyTxnId => ERR_INVALID_REQUEST
  | UnknownProducer => ERR_INVALID_PRODUCER_ID_MAPPING
  | EpochFenced => ERR_PRODUCER_FENCED
  | Concurrent => ERR_CONCURRENT_TRANSACTIONS
  | InvalidState => ERR_INVALID_TXN_STATE
  | Io | Decode => ERR_COORDINATOR_NOT_AVAILABLE
  end.

(** The parts of the broker the handler uses: the allocator with its block file,
    or the in-memory counter; the transaction store; the storage engine; the
    outbound fence file. *)
Record InitBroker := {
  allocator : option (ProducerId.Allocator * JsonFile Z); producer_id_counter : Z;
  txn_state : option TxnStateStore; engine : Engine; fence_log : option (JsonFile (gmap string Z)) }.

Definition next_producer_id (b : InitBroker) (ok : bool) : InitBroker * Z :=
  match allocator b with
  | Some (a, f) =>
    let '(a, f, pid) := ProducerId.next a f ok in
    ({| allocator := Some (a, f); producer_id_counter := producer_id_counter b; txn_state := txn_state b;
        engine := engine b; fence_log := fence_log b |}, pid)
  | None =>
    ({| allocator := None; producer_id_counter := wrap_s 64 (producer_id_counter b + 1);
        txn_state := txn_state b; engine := engine b; fence_log := fence_log b |}, producer_id_counter b)
  end.

(** Which writes succeed: the block file, the slot file, the fence file. *)
Record WriteOk := { block_ok : bool; slot_ok : bool; fence_ok : bool }.

Definition init_response (code pid epoch : Z) : InitProducerId.Response :=
  {| InitProducerId.throttle_time_ms := 0; InitProducerId.error_code := code;
     InitProducerId.r_producer_id := pid; InitProducerId.r_producer_epoch := epoch |}.

Definition error_response (code : Z) : InitProducerId.Response := init_response code (-1) (-1).

(** Does [get_or_allocate_with_timeout] call its allocator? *)
Definition needs_pid (s : TxnStateStore) (txn_id : string) : bool :=
  negb (str_is_empty txn_id) &&
  match load_slot s (slot_for s txn_id) with
  | Ok m => match m !! txn_id with None => true | Some e => TxnState.epoch e =? i16_max end
  | Err _ => false
  end.

(** Fence the open partitions and, when a fence log is installed, record the
    fence; an error of the record is only logged. *)
Definition fence_bumped (b : InitBroker) (pid epoch : Z) (ok : bool) : InitBroker :=
  if 0 <? epoch then
    {| allocator := allocator b; producer_id_counter := producer_id_counter b; txn_state := txn_state b;
       engine := fence_producer_epoch (engine b) pid epoch;
       fence_log := (λ f, (FenceLog.append f pid epoch ok).1) <$> fence_log b |}
  else b.

Definition handle_transactional (owns_txn : string → bool) (b : InitBroker) (ok : WriteOk)
    (txn_id : string) (timeout_ms : Z) : InitBroker * InitProducerId.Response :=
  if negb (owns_txn txn_id) then (b, error_response ERR_NOT_COORDINATOR)
  else match txn_state b with
  | None => let '(b, pid) := next_producer_id b (block_ok ok) in (b, init_response 0 pid 0)
  | Some store =>
    let '(b, alloc) := if needs_pid store txn_id then next_producer_id b (block_ok ok) else (b, 0) in
    let '(store, r) := get_or_allocate_with_timeout store txn_id timeout_ms alloc (slot_ok ok) in
    let b := {| allocator := allocator b; producer_id_counter := producer_id_counter b;
                txn_state := Some store; engine := engine b; fence_log := fence_log b |} in
    match r with
    | Err e => (b, error_response (map_store_error e))
    | Ok (pid, epoch) => (fence_bumped b pid epoch (fence_ok ok), init_response 0 pid epoch)
    end
  end.

(** [handle], after decoding; [authz] are the authorizer's answers for the
    connection's principal. *)
Definition init_producer_id (authz : Resource → Operation → bool) (owns_txn : string → bool)
    (b : InitBroker) (ok : WriteOk) (req : InitProducerId.Request) : InitBroker * InitProducerId.Response :=
  let idempotent := let '(b, pid) := next_producer_id b (block_ok ok) in (b, init_response 0 pid 0) in
  match InitProducerId.transactional_id req with
  | None => idempotent
  | Some txn_id =>
    if str_is_empty txn_id then idempotent
    else if negb (authz (Resource_transactional_id txn_id) Write)
    then (b, error_response ERR_TXN_ID_AUTHZ_FAILED)
    else handle_transactional owns_txn b ok txn_id (InitProducerId.transaction_timeout_ms req)
  end.

(** ** Zombies are refused everywhere the fence has reached *)

(** Partition [p] refuses every idempotent batch of the producer below [e]. *)
Definition refuses (p : Partition) (pid e : Z) : Prop :=
  ∀ cfg age leader_epoch batch info,
    prod_info batch = Some info → producer_id info = pid → info_epoch info < e → 0 ≤ info_first_seq info →
    ∃ err, append cfg age leader_epoch batch p = (p, Err err).

Lemma fenced_refuses p pid e : 0 ≤ pid → fenced (producer_states p) pid e → refuses p pid e.
Proof.
  intros Hpid Hf cfg age le batch info Hi <- Hlt Hs. unfold append. rewrite Hi.
  rewrite (classify_stale _ _ _ Hf Hlt Hpid Hs). repeat case_match; eauto.
Qed.

Lemma fenced_lower st pid e e' : fenced st pid e' → e ≤ e' → fenced st pid e.
Proof. intros (en & Hen & Hle) He. exists en. split; [done|lia]. Qed.

Lemma init_bumped authz owns_txn b ok req b' resp :
  init_producer_id authz owns_txn b ok req = (b', resp) → 0 < InitProducerId.r_producer_epoch resp →
  let pid := InitProducerId.r_producer_id resp in let e := InitProducerId.r_producer_epoch resp in
  InitProducerId.error_code resp = 0 ∧
  (∀ k root p, partitions (engine b') !! k = Some (root, p) → fenced (producer_states p) pid e) ∧
  fence_log b' = (λ f, (FenceLog.append f pid e (fence_ok ok)).1) <$> fence_log b.
Proof.
  unfold init_producer_id, handle_transactional, next_producer_id.
  assert (∀ b1, (∀ k root p, partitions (fence_producer_epoch (engine b1)
    (InitProducerId.r_producer_id resp) (InitProducerId.r_producer_epoch resp)) !! k = Some (root, p) →
    fenced (producer_states p) (InitProducerId.r_producer_id resp) (InitProducerId.r_producer_epoch resp))) as Hfence.
  { intros b1 k root p. simpl. rewrite lookup_fmap_Some. intros ([r q] & [= <- <-] & _). apply fence_epoch. }
  repeat (case_match; simplify_eq/=; try (intros [= <- <-]; simpl; lia));
    (intros [= <- <-] Hpos; simpl in *; unfold fence_bumped; rewrite (proj2 (Z.ltb_lt _ _)) by done; simpl;
     split_and!; [done|apply Hfence|congruence]).
Qed.

(** C16. When InitProducerId answers a bumped epoch, every partition open on the
    coordinator refuses the older sessions of that producer; and once the fence is
    in the coordinator's file, one pass of a peer's watcher makes the same hold of
    every partition of the peer that is settled (it has received the fences the
    watcher remembers, as a partition open since the watcher started has), which
    stays settled. *)
Theorem init_fences_zombies authz owns_txn b ok req b' resp :
  init_producer_id authz owns_txn b ok req = (b', resp) → 0 < InitProducerId.r_producer_epoch resp →
  0 ≤ InitProducerId.r_producer_id resp ≤ i64_max →
  let pid := InitProducerId.r_producer_id resp in let e := InitProducerId.r_producer_epoch resp in
  (∀ k root p, partitions (engine b') !! k = Some (root, p) → refuses p pid e) ∧
  (∀ a_id self_id dir applied eng applied' eng' k root p f,
     fence_log b = Some f → (FenceLog.append f pid e (fence_ok ok)).2 = Ok tt →
     mjoin (fence_log b') = dir !! FenceLog.file_name a_id → a_id ≠ self_id →
     FenceWatcher.settled applied eng k → FenceWatcher.tick self_id dir (applied, eng) = (applied', eng') →
     partitions eng' !! k = Some (root, p) → refuses p pid e ∧ FenceWatcher.settled applied' eng' k).
Proof.
  intros Hi Hpos Hpid pid e. destruct (init_bumped _ _ _ _ _ _ _ Hi Hpos) as (_ & Hf & Hlog).
  split; [intros k root p Hp; apply fenced_refuses; [lia|by eapply Hf]|].
  intros a_id self_id dir applied eng applied' eng' k root p f Hb Hok Hdir Hne Hs Ht Hp.
  destruct (FenceWatcher.tick_spec _ _ _ _ _ _ _ Ht Hs) as [Hs' Hc]. split; [|done].
  apply fenced_refuses; [lia|]. rewrite Hb in Hlog. simpl in Hlog. fold pid e in Hlog. rewrite Hlog in Hdir.
  destruct (FenceLog.append f pid e (fence_ok ok)) as [f' r] eqn:Ea. simpl in Hok, Hdir. subst r.
  destruct (FenceLog.append_recorded _ _ _ _ _ Ea) as (st & x & -> & Hx & Hle).
  destruct (Hc (FenceLog.file_name a_id) st (pretty pid) pid x) as (last & y & Hl & Hy & Hxy); [done| |done| |].
  - by apply FenceWatcher.file_name_peer.
  - apply parse_signed_pretty. range.
  - apply fenced_lower with y; [by eapply Hs'|lia].
Qed.

(** A transactional producer 7 at epoch 0, re-initialised; one partition open on
    the coordinator and on a peer. *)
Definition demo_store : TxnStateStore :=
  {| num_slots := 1; slots := {[O := Ok {["tx"%string := fresh_entry 7 60000]}]}; hook := false |}.
Definition demo_init_broker : InitBroker :=
  {| allocator := None; producer_id_counter := 1; txn_state := Some demo_store;
     engine := set_partition Engine_new demo_key "/d" empty_partition; fence_log := Some None |}.
Definition demo_init_req : InitProducerId.Request :=
  {| InitProducerId.transactional_id := Some "tx"%string; InitProducerId.transaction_timeout_ms := 0;
     InitProducerId.producer_id := -1; InitProducerId.producer_epoch := -1 |}.
Definition all_ok : WriteOk := {| block_ok := true; slot_ok := true; fence_ok := true |}.
Definition demo_init : InitBroker * InitProducerId.Response :=
  init_producer_id (λ _ _, true) (λ _, true) demo_init_broker all_ok demo_init_req.

(** The fence directory afterwards, and a peer with the partition open. *)
Definition demo_fence_dir : gmap string (result unit (gmap string Z)) :=
  {["from-kaas-0.json"%string := Ok {["7"%string := 1]}]}.
Definition demo_peer : Engine := set_partition Engine_new demo_key "/d" empty_partition.
Definition demo_ticked : gmap string (gmap Z Z) * Engine :=
  FenceWatcher.tick "kaas-1" demo_fence_dir (∅, demo_peer).

Lemma init_fences_zombies_witness :
  demo_init.2 = init_response 0 7 1 ∧
  (∀ k root p, partitions (engine demo_init.1) !! k = Some (root, p) → refuses p 7 1) ∧
  (∃ p, partitions demo_ticked.2 !! demo_key = Some ("/d"%string, p) ∧ refuses p 7 1 ∧
        prod_info idem_batch = Some {| producer_id := 7; info_epoch := 0; info_first_seq := 0; info_last_seq := 0 |}).
Proof.
  assert (demo_init.2 = init_response 0 7 1) as Hr by (vm_compute; reflexivity).
  destruct (init_fences_zombies (λ _ _, true) (λ _, true) demo_init_broker all_ok demo_init_req
    demo_init.1 demo_init.2 (surjective_pairing demo_init)) as [H1 H2].
  { rewrite Hr. simpl. lia. }
  { rewrite Hr. simpl. range. }
  rewrite Hr in H1, H2. simpl in H1, H2. split; [done|]. split; [exact H1|].
  exists (fence_producer empty_partition 7 1).
  assert (partitions demo_ticked.2 !! demo_key = Some ("/d"%string, fence_producer empty_partition 7 1)) as Hp
    by (vm_compute; reflexivity).
  split; [exact Hp|]. split; [|vm_compute; reflexivity].
  destruct (H2 "kaas-0"%string "kaas-1"%string demo_fence_dir ∅ demo_peer demo_ticked.1 demo_ticked.2
    demo_key "/d"%string (fence_producer empty_partition 7 1) None) as [H _]; [..|exact H].
  - vm_compute; reflexivity.
  - vm_compute; reflexivity.
  - vm_compute; reflexivity.
  - intros H. inversion H.
  - intros name last pid x root p Hl. rewrite lookup_empty in Hl. discriminate Hl.
  - exact (surjective_pairing demo_ticked).
  - exact Hp.
Defined.

(** A partition that opens after the watcher saw the fence never receives it: the
    watcher remembers the fence as applied, so the zombie's batch is stored. *)
Definition opened_late : gmap string (gmap Z Z) * Engine :=
  FenceWatcher.tick "kaas-1" demo_fence_dir
    ((FenceWatcher.tick "kaas-1" demo_fence_dir (∅, Engine_new)).1,
     set_partition Engine_new demo_key "/d" empty_partition).

Theorem late_partition_not_fenced :
  ∃ p, partitions opened_late.2 !! demo_key = Some ("/d"%string, p) ∧
       (append big_cfg 0 1 idem_batch p).2 = Ok (0, true).
Proof. exists empty_partition. split; vm_compute; reflexivity. Qed.
