(* ===== verification/TxnFlow.v ===== *)
(** * Ending transactions across brokers
    ([kaas-broker/src/txn_markers.rs], [handlers/end_txn.rs],
    [handlers/add_partitions_to_txn.rs], [handlers/add_offsets_to_txn.rs],
    [handlers/txn_offset_commit.rs], [handlers/write_txn_markers.rs],
    [marker_watcher.rs], [kaas-coordinator/src/marker_queue.rs], and the adapters
    of [bins/kaas/src/cluster.rs])

    EndTxn prepares the transaction, appends a COMMIT or ABORT marker to every
    partition this broker leads and leaves a queue entry for the leaders of the
    others, then completes; a sweep re-drives what is left prepared; the leaders'
    watchers apply the queue.  Staged consumer offsets are committed or dropped by
    a hook when a transaction completes.

    Iteration over a hash map is in the order of [map_to_list]. *)

From stdpp Require Import base gmap strings list pretty.
From Stdlib Require Import Strings.Byte.
From S2P Require Import Prelude Wire Idempotence TxnIndex Segment ControlBatch Partition Recovery Cluster TxnState OffsetStore Engine Acls ApiTxn ProducerFence.

Local Open Scope Z_scope.

(** ** The storage engine as the brokers use it *)

(** What the engine is built with, and what the file system and the committer do
    for an append: the segment's age, and whether a flush it waits for succeeds. *)
Record StorageEnv := {
  se_cfg : EngineConfig; se_crc : list byte → Z; se_crc_append : Z → list byte → Z;
  se_placement : Key → option string; se_identity : option (string → TopicIncarnation);
  se_pcfg : Key → PartitionConfig; se_age : Key → Z; se_flushed : Key → bool }.

Definition open_key (env : StorageEnv) (e : Engine) (v : LogVolume) (k : Key) : Engine * LogVolume :=
  (create_partition (se_cfg env) (se_crc env) (se_crc_append env) (se_placement env) (se_identity env) e v k).1.

(** [append] with [acks = -1]: it waits for the flush it triggered. *)
Definition append_acked (env : StorageEnv) (e : Engine) (v : LogVolume) (k : Key) (epoch : Z) (batch : list byte) :
    Engine * LogVolume * result StorageError Z :=
  let '(e, v, r) :=
    engine_append (se_cfg env) (se_crc env) (se_crc_append env) (se_placement env) (se_identity env)
      (se_pcfg env k) (se_age env k) e v k epoch batch in
  (e, v, match r with
         | Ok (o, triggered) => if triggered && negb (se_flushed env k) then Err Stalled else Ok o
         | Err err => Err err
         end).

(** ** [marker_queue.rs] *)

Record MarkerEntry := {
  me_txn_id : string; me_pid : Z; me_epoch : Z; me_commit : bool; me_coordinator_epoch : Z;
  me_partitions : list TxnTopic }.

(** The inboxes by target broker; a file decodes to an entry or not. *)
Notation Queue := (gmap string (gmap string (result unit MarkerEntry))).

Definition entry_file (pid epoch : Z) : string := pretty pid +:+ "-" +:+ pretty epoch +:+ ".json".

Definition enqueue (q : Queue) (target : string) (entry : MarkerEntry) (ok : bool) : Queue * result unit unit :=
  if str_is_empty target then (q, Err tt)
  else if ok then
    (<[target := <[entry_file (me_pid entry) (me_epoch entry) := Ok entry]> (default ∅ (q !! target))]> q, Ok tt)
  else (q, Err tt).

(** ** [txn_markers.rs] *)

(** The parts of a broker that transactions use, and what the brokers share. *)
Record TxnBroker := {
  tb_id : string; coordinator : option Coordinator; txn_store : option TxnStateStore; tb_engine : Engine;
  has_queue : bool; offsets : OffsetStore }.

Record Shared := { volume : LogVolume; queue : Queue; offset_files : Disk }.

(** The leader the broker knows of, and the epoch it appends at. *)
Definition leader_of (b : TxnBroker) (k : Key) : option string := coordinator b ≫= λ c, leader_for c k.1 k.2.
Definition epoch_of (b : TxnBroker) (k : Key) : Z := default 0 (coordinator b ≫= λ c, current_epoch c k.1 k.2).
Definition owns_key (b : TxnBroker) (k : Key) : bool :=
  match coordinator b with Some c => owns c k.1 k.2 | None => true end.

(** Every (topic, partition) of the list, in order. *)
Definition keys_of (ts : list TxnTopic) : list Key :=
  ts ≫= λ t, (λ p, (tt_topic t, p)) <$> tt_partitions t.

Definition by_target (b : TxnBroker) (ts : list TxnTopic) : gmap (option string) (list Key) :=
  bucket ((λ k, (leader_of b k, k)) <$> keys_of ts).

(** No leader known: treated as local. *)
Definition is_local (b : TxnBroker) (target : option string) : bool :=
  match target with None => true | Some id => bool_decide (id = tb_id b) end.

Definition local_partitions (b : TxnBroker) (ts : list TxnTopic) : list Key :=
  map_to_list (by_target b ts) ≫= λ '(target, ks), if is_local b target then ks else [].

Definition queued (b : TxnBroker) (ts : list TxnTopic) : list (string * list Key) :=
  map_to_list (by_target b ts) ≫= λ '(target, ks),
    match target with
    | Some id => if is_local b target then [] else [(id, ks)]
    | None => []
    end.

(** [write_local_markers]: a failed append ends the walk. *)
Fixpoint write_local_markers (env : StorageEnv) (b : TxnBroker) (e : Engine) (v : LogVolume)
    (batch : list byte) (ks : list Key) : Engine * LogVolume * result Z unit :=
  match ks with
  | [] => (e, v, Ok tt)
  | k :: ks' =>
    let '(e, v) := open_key env e v k in
    let '(e, v, r) := append_acked env e v k (epoch_of b k) batch in
    match r with
    | Err _ => (e, v, Err ERR_COORDINATOR_NOT_AVAILABLE)
    | Ok _ => write_local_markers env b e v batch ks'
    end
  end.

Definition pack_topics (ks : list Key) : list TxnTopic :=
  (λ '(t, ps), {| tt_topic := t; tt_partitions := ps |}) <$> map_to_list (bucket ks).

(** [ok target]: can the entry be written? *)
Fixpoint enqueue_cross_broker_markers (txn_id : string) (pid epoch : Z) (commit : bool) (ok : string → bool)
    (q : Queue) (targets : list (string * list Key)) : Queue * result Z unit :=
  match targets with
  | [] => (q, Ok tt)
  | (target, ks) :: rest =>
    let entry := {| me_txn_id := txn_id; me_pid := pid; me_epoch := epoch; me_commit := commit;
                    me_coordinator_epoch := 0; me_partitions := pack_topics ks |} in
    match enqueue q target entry (ok target) with
    | (q, Err _) => (q, Err ERR_COORDINATOR_NOT_AVAILABLE)
    | (q, Ok _) => enqueue_cross_broker_markers txn_id pid epoch commit ok q rest
    end
  end.

Definition with_storage (b : TxnBroker) (e : Engine) : TxnBroker :=
  {| tb_id := tb_id b; coordinator := coordinator b; txn_store := txn_store b; tb_engine := e;
     has_queue := has_queue b; offsets := offsets b |}.

Definition with_store (b : TxnBroker) (s : TxnStateStore) : TxnBroker :=
  {| tb_id := tb_id b; coordinator := coordinator b; txn_store := Some s; tb_engine := tb_engine b;
     has_queue := has_queue b; offsets := offsets b |}.

Definition dispatch_markers (env : StorageEnv) (b : TxnBroker) (sh : Shared) (txn_id : string) (pid epoch : Z)
    (commit : bool) (ts : list TxnTopic) (ok : string → bool) : TxnBroker * Shared * result Z unit :=
  match ts with
  | [] => (b, sh, Ok tt)
  | _ =>
    let batch := build_control_batch (se_crc env) pid epoch commit 0 in
    let '(e, v, r) := write_local_markers env b (tb_engine b) (volume sh) batch (local_partitions b ts) in
    let b := with_storage b e in
    let sh := {| volume := v; queue := queue sh; offset_files := offset_files sh |} in
    match r with
    | Err code => (b, sh, Err code)
    | Ok _ =>
      match queued b ts with
      | [] => (b, sh, Ok tt)
      | targets =>
        if has_queue b then
          let '(q, r) := enqueue_cross_broker_markers txn_id pid epoch commit ok (queue sh) targets in
          (b, {| volume := volume sh; queue := q; offset_files := offset_files sh |}, r)
        else (b, sh, Err ERR_COORDINATOR_NOT_AVAILABLE)
      end
    end
  end.

(** ** The offset hook ([OffsetStoreHook] of [cluster.rs])

    It works on the offset store of the broker that ends the transaction; an error
    of the commit is only logged. *)

Definition on_end_txn (stamp : FenceStamp) (ok : string → bool) (bs : TxnBroker * Shared)
    (call : string * Z * bool) : TxnBroker * Shared :=
  let '(b, sh) := bs in
  let '(g, pid, commit) := call in
  let '(s, d) :=
    if commit then (commit_pending (offsets b) (offset_files sh) g pid stamp (ok g)).1
    else (discard_pending (offsets b) g pid, offset_files sh) in
  ({| tb_id := tb_id b; coordinator := coordinator b; txn_store := txn_store b; tb_engine := tb_engine b;
      has_queue := has_queue b; offsets := s |},
   {| volume := volume sh; queue := queue sh; offset_files := d |}).

(** ** [end_txn.rs] *)

(** Which writes succeed, and the fence stamp the broker's offset store knows. *)
Record EndOk := {
  prepare_ok : bool; complete_ok : bool; queue_ok : string → bool; offset_ok : string → bool;
  offset_stamp : FenceStamp }.

Definition owns_txn_id (b : TxnBroker) (txn_id : string) : bool :=
  match coordinator b with Some c => owns_txn c txn_id | None => true end.

(** The checks before the store, shared with AddPartitionsToTxn. *)
Definition classify_end (authz : Resource → Operation → bool) (b : TxnBroker) (txn_id : string) : option Z :=
  if str_is_empty txn_id then Some ERR_INVALID_REQUEST
  else if negb (authz (Resource_transactional_id txn_id) Write) then Some ERR_TXN_ID_AUTHZ_FAILED
  else if negb (owns_txn_id b txn_id) then Some ERR_NOT_COORDINATOR
  else match txn_store b with None => Some ERR_COORDINATOR_NOT_AVAILABLE | Some _ => None end.

(** Complete a transaction whose markers are placed, firing the hook. *)
Definition finish_txn (b : TxnBroker) (sh : Shared) (s : TxnStateStore) (txn_id : string) (pid epoch : Z)
    (commit : bool) (oks : EndOk) : TxnBroker * Shared * result TxnStateError unit :=
  match complete_end_txn s txn_id pid epoch commit (complete_ok oks) with
  | (s, Err err) => (with_store b s, sh, Err err)
  | (s, Ok calls) =>
    let '(b, sh) := foldl (on_end_txn (offset_stamp oks) (offset_ok oks)) (with_store b s, sh) calls in
    (b, sh, Ok tt)
  end.

Definition transition_and_dispatch (env : StorageEnv) (b : TxnBroker) (sh : Shared) (req : EndTxn.Request)
    (oks : EndOk) : TxnBroker * Shared * Z :=
  match txn_store b with
  | None => (b, sh, ERR_COORDINATOR_NOT_AVAILABLE)
  | Some s =>
    let id := EndTxn.transactional_id req in
    let pid := EndTxn.producer_id req in
    let epoch := EndTxn.producer_epoch req in
    let commit := EndTxn.committed req in
    match prepare_end_txn s id pid epoch commit (prepare_ok oks) with
    | (s, Err err) => (with_store b s, sh, map_store_error err)
    | (s, Ok outcome) =>
      let b := with_store b s in
      if negb (transition_fired outcome) then (b, sh, 0)
      else match dispatch_markers env b sh id pid epoch commit (eo_partitions outcome) (queue_ok oks) with
      | (b, sh, Err code) => (b, sh, code)
      | (b, sh, Ok _) =>
        match finish_txn b sh s id pid epoch commit oks with
        | (b, sh, Ok _) => (b, sh, 0)
        | (b, sh, Err err) => (b, sh, map_store_error err)
        end
      end
    end
  end.

(** [handle], after decoding: the response's error code. *)
Definition end_txn_handler (env : StorageEnv) (authz : Resource → Operation → bool) (b : TxnBroker) (sh : Shared)
    (req : EndTxn.Request) (oks : EndOk) : TxnBroker * Shared * Z :=
  match classify_end authz b (EndTxn.transactional_id req) with
  | Some code => (b, sh, code)
  | None => transition_and_dispatch env b sh req oks
  end.

(** ** The sweep *)

Definition reconcile_one (env : StorageEnv) (oks : EndOk) (st : TxnBroker * Shared * Z) (p : PendingMarkerDispatch) :
    TxnBroker * Shared * Z :=
  let '(b, sh, completed) := st in
  match dispatch_markers env b sh (pd_txn_id p) (pd_pid p) (pd_epoch p) (pd_commit p) (pd_partitions p) (queue_ok oks) with
  | (b, sh, Err _) => (b, sh, completed)
  | (b, sh, Ok _) =>
    match txn_store b with
    | None => (b, sh, completed)
    | Some s =>
      match finish_txn b sh s (pd_txn_id p) (pd_pid p) (pd_epoch p) (pd_commit p) oks with
      | (b, sh, Ok _) => (b, sh, completed + 1)
      | (b, sh, Err _) => (b, sh, completed)
      end
    end
  end.

Definition reconcile_pending_markers (env : StorageEnv) (oks : EndOk) (b : TxnBroker) (sh : Shared) :
    TxnBroker * Shared * Z :=
  match txn_store b with
  | None => (b, sh, 0)
  | Some s =>
    foldl (reconcile_one env oks) (b, sh, 0) (pending_marker_dispatches s (Some (owns_txn_id b)))
  end.

(** One tick of [run_txn_reaper]. *)
Definition reaper_tick (env : StorageEnv) (oks : EndOk) (now_ms : Z) (slot_ok : nat → bool) (b : TxnBroker)
    (sh : Shared) : TxnBroker * Shared * Z :=
  match txn_store b with
  | None => (b, sh, 0)
  | Some s =>
    let '(s, _) := abort_overdue_owned s now_ms (Some (owns_txn_id b)) slot_ok in
    reconcile_pending_markers env oks (with_store b s) sh
  end.

(** ** The receiving side ([marker_watcher.rs], [BrokerMarkerApplier]) *)

Inductive ApplyOutcome := Applied | Retry.

(** A partition this broker does not lead is skipped. *)
Fixpoint apply_keys (env : StorageEnv) (b : TxnBroker) (e : Engine) (v : LogVolume) (batch : list byte)
    (ks : list Key) : Engine * LogVolume * ApplyOutcome :=
  match ks with
  | [] => (e, v, Applied)
  | k :: ks' =>
    if owns_key b k then
      let '(e, v) := open_key env e v k in
      let '(e, v, r) := append_acked env e v k (epoch_of b k) batch in
      match r with Err _ => (e, v, Retry) | Ok _ => apply_keys env b e v batch ks' end
    else apply_keys env b e v batch ks'
  end.

Definition apply_marker (env : StorageEnv) (b : TxnBroker) (v : LogVolume) (m : MarkerEntry) :
    Engine * LogVolume * ApplyOutcome :=
  let batch := build_control_batch (se_crc env) (me_pid m) (me_epoch m) (me_commit m) (me_coordinator_epoch m) in
  apply_keys env b (tb_engine b) v batch (keys_of (me_partitions m)).

(** [process_one]: a file that does not decode is left alone; [removed]: can the
    applied file be deleted? *)
Definition process_one (env : StorageEnv) (removed : bool) (bs : TxnBroker * Shared) (file : string) :
    TxnBroker * Shared :=
  let '(b, sh) := bs in
  match queue sh !! tb_id b ≫= (.!! file) with
  | Some (Ok m) =>
    let '(e, v, out) := apply_marker env b (volume sh) m in
    (with_storage b e,
     {| volume := v;
        queue := match out with
                 | Applied => if removed then alter (delete file) (tb_id b) (queue sh) else queue sh
                 | Retry => queue sh
                 end;
        offset_files := offset_files sh |})
  | _ => (b, sh)
  end.

Definition watcher_tick (env : StorageEnv) (removed : bool) (b : TxnBroker) (sh : Shared) : TxnBroker * Shared :=
  foldl (process_one env removed) (b, sh)
    (filter (λ f, is_Some (SegmentDir.strip_suffix ".json" f)) (map_to_list (default ∅ (queue sh !! tb_id b))).*1).

(** ** The other transactional handlers *)

Definition ERR_UNKNOWN_SERVER_ERROR : Z := -1.
Definition ERR_NOT_LEADER_OR_FOLLOWER : Z := 6.
Definition ERR_TOPIC_AUTHZ_FAILED : Z := 29.
Definition ERR_GROUP_AUTHZ_FAILED : Z := 30.
Definition ERR_CLUSTER_AUTHZ_FAILED : Z := 31.
Definition ERR_OPERATION_NOT_ATTEMPTED : Z := 55.

(** One code for every partition of a topic. *)
Definition topic_result (code : Z) (name : string) (ps : list Z) : TopicResults.TopicResult :=
  {| TopicResults.name := name;
     TopicResults.partition_results :=
       (λ p, {| TopicResults.partition_index := p; TopicResults.p_error_code := code |}) <$> ps |}.

Definition add_partitions_response (code : string → Z) (req : AddPartitionsToTxn.Request) : AddPartitionsToTxn.Response :=
  {| AddPartitionsToTxn.throttle_time_ms := 0;
     AddPartitionsToTxn.results :=
       (λ t, topic_result (code (TopicPartitions.name t)) (TopicPartitions.name t) (TopicPartitions.partitions t))
         <$> AddPartitionsToTxn.topics req |}.

Definition add_partitions_handler (authz : Resource → Operation → bool) (b : TxnBroker)
    (req : AddPartitionsToTxn.Request) (now_ms : Z) (ok : bool) : TxnBroker * AddPartitionsToTxn.Response :=
  match classify_end authz b (AddPartitionsToTxn.transactional_id req), txn_store b with
  | Some code, _ => (b, add_partitions_response (λ _, code) req)
  | None, None => (b, add_partitions_response (λ _, ERR_COORDINATOR_NOT_AVAILABLE) req)
  | None, Some s =>
    let denied t := negb (authz (Resource_topic t) Write) in
    if existsb (λ t, denied (TopicPartitions.name t)) (AddPartitionsToTxn.topics req) then
      (b, add_partitions_response
            (λ t, if denied t then ERR_TOPIC_AUTHZ_FAILED else ERR_OPERATION_NOT_ATTEMPTED) req)
    else
      let additions := (λ t, {| tt_topic := TopicPartitions.name t; tt_partitions := TopicPartitions.partitions t |})
        <$> AddPartitionsToTxn.topics req in
      let '(s, r) := add_partitions s (AddPartitionsToTxn.transactional_id req)
        (AddPartitionsToTxn.producer_id req) (AddPartitionsToTxn.producer_epoch req) additions now_ms ok in
      (with_store b s,
       add_partitions_response (λ _, match r with Ok _ => 0 | Err e => map_store_error e end) req)
  end.

Definition add_offsets_handler (authz : Resource → Operation → bool) (b : TxnBroker)
    (req : AddOffsetsToTxn.Request) (now_ms : Z) (ok : bool) : TxnBroker * Z :=
  let id := AddOffsetsToTxn.transactional_id req in
  if str_is_empty id then (b, ERR_INVALID_REQUEST)
  else if negb (authz (Resource_transactional_id id) Write) then (b, ERR_TXN_ID_AUTHZ_FAILED)
  else if negb (authz (Resource_group (AddOffsetsToTxn.group_id req)) Read) then (b, ERR_GROUP_AUTHZ_FAILED)
  else if negb (owns_txn_id b id) then (b, ERR_NOT_COORDINATOR)
  else match txn_store b with
  | None => (b, ERR_COORDINATOR_NOT_AVAILABLE)
  | Some s =>
    let '(s, r) := add_offsets_to_txn s id (AddOffsetsToTxn.producer_id req) (AddOffsetsToTxn.producer_epoch req)
      (AddOffsetsToTxn.group_id req) now_ms ok in
    (with_store b s, match r with Ok _ => 0 | Err e => map_store_error e end)
  end.

(** TxnOffsetCommit at the group's coordinator; [is_coordinator] is the group
    manager's answer, [None] when none is installed.  The code of each topic. *)
Definition staged_offsets (allowed : string → bool) (req : TxnOffsetCommit.Request) : gmap string Z :=
  foldl (λ m t,
    if allowed (TxnOffsetCommit.t_name t) then
      foldl (λ m p, <[offset_key (TxnOffsetCommit.t_name t) (TxnOffsetCommit.o_partition_index p) :=
                        TxnOffsetCommit.committed_offset p]> m) m (TxnOffsetCommit.t_partitions t)
    else m) ∅ (TxnOffsetCommit.topics req).

Definition txn_offset_commit_handler (authz : Resource → Operation → bool) (is_coordinator : option (string → bool))
    (b : TxnBroker) (req : TxnOffsetCommit.Request) : TxnBroker * (string → Z) :=
  let g := TxnOffsetCommit.group_id req in
  if negb (authz (Resource_transactional_id (TxnOffsetCommit.transactional_id req)) Write)
  then (b, λ _, ERR_TXN_ID_AUTHZ_FAILED)
  else if negb (authz (Resource_group g) Read) then (b, λ _, ERR_GROUP_AUTHZ_FAILED)
  else match is_coordinator with
  | None => (b, λ _, ERR_NOT_COORDINATOR)
  | Some f =>
    if negb (f g) then (b, λ _, ERR_NOT_COORDINATOR)
    else
      let allowed t := authz (Resource_topic t) Read in
      let offs := staged_offsets allowed req in
      ({| tb_id := tb_id b; coordinator := coordinator b; txn_store := txn_store b; tb_engine := tb_engine b;
          has_queue := has_queue b;
          offsets := if decide (offs = ∅) then offsets b
                     else store_pending (offsets b) g (TxnOffsetCommit.producer_id req) offs |},
       λ t, if allowed t then 0 else ERR_TOPIC_AUTHZ_FAILED)
  end.

(** WriteTxnMarkers: one partition, then the walk over a marker's partitions. *)
Definition write_one (env : StorageEnv) (b : TxnBroker) (batch : list byte) (acc : TxnBroker * LogVolume * list (Key * Z))
    (k : Key) : TxnBroker * LogVolume * list (Key * Z) :=
  let '(b', v, codes) := acc in
  if owns_key b k then
    let '(e, v) := open_key env (tb_engine b') v k in
    let '(e, v, r) := append_acked env e v k (epoch_of b k) batch in
    (with_storage b' e, v, codes ++ [(k, match r with Ok _ => 0 | Err _ => ERR_UNKNOWN_SERVER_ERROR end)])
  else (b', v, codes ++ [(k, ERR_NOT_LEADER_OR_FOLLOWER)]).

Definition write_marker (env : StorageEnv) (b : TxnBroker) (v : LogVolume) (m : WriteTxnMarkers.WritableTxnMarker) :
    TxnBroker * LogVolume * list (Key * Z) :=
  let batch := build_control_batch (se_crc env) (WriteTxnMarkers.producer_id m) (WriteTxnMarkers.producer_epoch m)
    (WriteTxnMarkers.transaction_result m) (WriteTxnMarkers.coordinator_epoch m) in
  foldl (write_one env b batch) (b, v, [])
    (WriteTxnMarkers.topics m ≫= λ t, (λ p, (TopicPartitions.name t, p)) <$> TopicPartitions.partitions t).

(** The codes of every marker's partitions, in order. *)
Definition write_txn_markers_handler (env : StorageEnv) (authz : Resource → Operation → bool) (b : TxnBroker)
    (v : LogVolume) (req : WriteTxnMarkers.Request) : TxnBroker * LogVolume * list (list (Key * Z)) :=
  if authz Resource_cluster ClusterAction then
    foldl (λ '(b, v, rs) m, let '(b, v, r) := write_marker env b v m in (b, v, rs ++ [r])) (b, v, [])
      (WriteTxnMarkers.markers req)
  else
    (b, v, (λ m, (WriteTxnMarkers.topics m ≫= λ t,
       (λ p, ((TopicPartitions.name t, p), ERR_CLUSTER_AUTHZ_FAILED)) <$> TopicPartitions.partitions t))
       <$> WriteTxnMarkers.markers req).

(** ** Which partition gets its marker where *)

Lemma elem_of_keys_of ts t p : (t, p) ∈ keys_of ts ↔ covers ts t p.
Proof.
  unfold keys_of, covers. rewrite list_elem_of_bind. split.
  - intros (x & Hx & Hin). apply list_elem_of_fmap in Hx as (q & [= -> ->] & Hq). by exists x.
  - intros (x & Hin & <- & Hp). exists x. split; [|done]. apply list_elem_of_fmap. by exists p.
Qed.

Lemma elem_of_by_target b ts target k :
  (∃ ks, by_target b ts !! target = Some ks ∧ k ∈ ks) ↔ k ∈ keys_of ts ∧ leader_of b k = target.
Proof.
  unfold by_target. rewrite elem_of_bucket, list_elem_of_fmap. split.
  - intros (k' & [= -> ->] & Hk). done.
  - intros [Hk <-]. by exists k.
Qed.

Lemma elem_of_local b ts k :
  k ∈ local_partitions b ts ↔ k ∈ keys_of ts ∧ is_local b (leader_of b k) = true.
Proof.
  unfold local_partitions. rewrite list_elem_of_bind. split.
  - intros ([target ks] & Hk & Hin%elem_of_map_to_list).
    destruct (is_local b target) eqn:El; [|by apply not_elem_of_nil in Hk].
    destruct (proj1 (elem_of_by_target b ts target k)) as [? <-]; [by exists ks|done].
  - intros [Hk Hl]. destruct (proj2 (elem_of_by_target b ts _ k) (conj Hk eq_refl)) as (ks & Hks & Hin).
    exists (leader_of b k, ks). rewrite Hl. split; [done|by apply elem_of_map_to_list].
Qed.

Lemma elem_of_queued b ts id ks :
  (id, ks) ∈ queued b ts ↔ by_target b ts !! Some id = Some ks ∧ is_local b (Some id) = false.
Proof.
  unfold queued. rewrite list_elem_of_bind. split.
  - intros ([[target|] ks'] & Hk & Hin%elem_of_map_to_list); [|by apply not_elem_of_nil in Hk].
    destruct (is_local b (Some target)) eqn:El; [by apply not_elem_of_nil in Hk|].
    apply list_elem_of_singleton in Hk as [= -> ->]. done.
  - intros [Hks Hl]. exists (Some id, ks). rewrite Hl. split; [by apply list_elem_of_singleton|].
    by apply elem_of_map_to_list.
Qed.

Lemma covers_pack ks t p : covers (pack_topics ks) t p ↔ (t, p) ∈ ks.
Proof.
  unfold covers, pack_topics. rewrite <- elem_of_bucket. setoid_rewrite list_elem_of_fmap. split.
  - intros (x & ([t' ps] & -> & Hin%elem_of_map_to_list) & <- & Hp). by exists ps.
  - intros (ps & Hps & Hp). eexists. split; [exists (t, ps); split; [done|by apply elem_of_map_to_list]|done].
Qed.

Lemma keys_cons t ts : keys_of (t :: ts) = ((λ p, (tt_topic t, p)) <$> tt_partitions t) ++ keys_of ts.
Proof. done. Qed.

(** ** A marker closes the producer's transaction *)

Section markers.
Context (env : StorageEnv) (crc_u32 : ∀ l, u32_ok (se_crc env l)).

Notation marker pid ep c ce := (build_control_batch (se_crc env) pid ep c ce).

(** The marker is the last record of the partition: its bytes are in the newest
    segment, with the offset below the high watermark as their base, and they read
    as a control batch of the producer with that verdict; the producer has no
    transaction open any more. *)
Definition ends_with_marker (p : Partition) (pid ep : Z) (c : bool) (ce : Z) : Prop :=
  open_txns p !! pid = None ∧
  ∃ o pos, high_water p = wrap_s 64 (o + 1) ∧
    slice pos 78 (log (active p)) = rewrite_base (marker pid ep c ce) o ∧
    parse_batch_txn_info (slice pos 78 (log (active p))) =
      Some {| is_transactional := true; is_control := true; txn_producer_id := pid; control_commit := Some c |}.

Lemma slice_write_at file raw pos : slice (length (take pos file ++ replicate (pos - length file) x00)) (length raw)
  (write_at file raw pos) = raw.
Proof. unfold slice, write_at. by rewrite app_assoc, drop_app_length, take_app_length. Qed.

Lemma append_batch_stores s raw n a :
  append_batch s raw n = (a, Ok tt) → ∃ pos, slice pos (length raw) (log a) = raw.
Proof.
  unfold append_batch. destruct (parse_batch_offsets raw) as [[[base d] ts]|]; [|done].
  destruct (handles_open s); [|done]. destruct (index_entry s n base); [|done]. intros [= <-].
  eexists. apply slice_write_at.
Qed.

Lemma marker_append cfg age le p pid ep c ce p' o :
  i64_ok pid → i16_ok ep → append cfg age le (marker pid ep c ce) p = (p', Ok o) → ends_with_marker p' pid ep c ce.
Proof.
  intros Hpid Hep. unfold ends_with_marker. set (b := marker pid ep c ce).
  destruct (control_batch_facts _ crc_u32 0 pid ep c ce (producer_states p)) as
    (Hlen & _ & _ & _ & Hoff & Htxn & Hprod & Hcl); [range|done..|]. fold b in Hlen, Hoff, Htxn, Hprod, Hcl. clearbody b.
  assert (8 ≤ length b)%nat as H8.
  { unfold rewrite_base in Hlen. rewrite length_app, length_be, length_drop in Hlen. lia. }
  rewrite length_rewrite_base in Hlen by done. rewrite parse_txn_rewrite in Htxn by done.
  assert (parse_batch_producer_info (rewrite_base b 0) = parse_batch_producer_info b) as Hpr.
  { unfold parse_batch_producer_info. rewrite length_rewrite_base by done. by rewrite !slice_rewrite_base by lia. }
  rewrite Hpr in Hprod, Hcl. specialize (Hcl _ Hprod).
  unfold append. destruct (flush_err p); [done|]. destruct (le <? p_epoch p); [done|].
  unfold prod_info. rewrite Hlen, Hprod. cbn [Nat.leb]. simpl. rewrite Hcl.
  set (q := roll_if_needed cfg age p b). unfold commit_batch. destruct (length b <? 8)%nat; [done|].
  destruct (parse_batch_offsets (rewrite_base b (high_water q))) as [[[? d] ?]|] eqn:Ep; [|done].
  assert (d = 0) as ->.
  { revert Ep Hoff. unfold parse_batch_offsets. rewrite !length_rewrite_base by lia.
    destruct (_ <? _)%nat; [done|]. intros H1 H2.
    apply (f_equal (from_option (λ t, t.1.2) 0)) in H1, H2. simpl in H1, H2.
    rewrite slice_rewrite_base in H1, H2 by lia. congruence. }
  destruct (append_batch _ _ _) as [a [[]|?]] eqn:Ea; [|done]. apply append_batch_stores in Ea as [pos Hpos].
  rewrite length_rewrite_base, Hlen in Hpos by done.
  unfold txn_bookkeeping. rewrite parse_txn_rewrite, Htxn by done. simpl. unfold close.
  assert (∃ o' pos', wrap_s 64 (high_water q + 0 + 1) = wrap_s 64 (o' + 1) ∧ slice pos' 78 (log a) = rewrite_base b o' ∧
    parse_batch_txn_info (slice pos' 78 (log a)) =
      Some {| is_transactional := true; is_control := true; txn_producer_id := pid; control_commit := Some c |}) as Hm.
  { exists (high_water q), pos. rewrite Hpos, parse_txn_rewrite, Z.add_0_r by done. auto. }
  destruct (open_txns q !! pid) eqn:Eo; simpl; intros H; injection H as <- _; simpl; (split; [|exact Hm]);
    apply lookup_delete_eq || exact Eo.
Qed.

(** The partition is open here and ends with the marker. *)
Definition marked_at (e : Engine) (k : Key) (pid ep : Z) (c : bool) (ce : Z) : Prop :=
  ∃ root p, partitions e !! k = Some (root, p) ∧ ends_with_marker p pid ep c ce.

Lemma ensure_open_keeps cfg crc crca pl id e v k e' v' r :
  ensure_open cfg crc crca pl id e v k = (e', v', r) →
  (∀ k', is_Some (partitions e !! k') ∨ k' ≠ k → partitions e' !! k' = partitions e !! k') ∧
  match r with Ok rp => partitions e' !! k = Some rp | Err _ => True end.
Proof.
  unfold ensure_open. case_bool_decide; [by intros [= <- <- <-]|].
  destruct (partitions e !! k) as [rp|] eqn:Ek; [by intros [= <- <- <-]|].
  destruct (identity_permits_open _ _ _ _); [|by intros [= <- <- <-]].
  destruct (open_partition _ _ _) as [d [p|err]]; intros [= <- <- <-]; [|done]. simpl.
  split; [|apply lookup_insert_eq]. intros k' [Hk'|Hne]; [|by rewrite lookup_insert_ne].
  destruct (decide (k' = k)) as [->|]; [rewrite Ek in Hk'; by destruct Hk'|by rewrite lookup_insert_ne].
Qed.

Lemma open_key_other e v k e' v' k' :
  open_key env e v k = (e', v') → k' ≠ k → partitions e' !! k' = partitions e !! k'.
Proof.
  unfold open_key, create_partition. destruct (ensure_open _ _ _ _ _ _ _ _) as [[e1 v1] r] eqn:E.
  intros [= <- <-] Hne. apply (proj1 (ensure_open_keeps _ _ _ _ _ _ _ _ _ _ _ E)). by right.
Qed.

Lemma append_acked_marks e v k le pid ep c ce e' v' r :
  i64_ok pid → i16_ok ep → append_acked env e v k le (marker pid ep c ce) = (e', v', r) →
  (∀ k', k' ≠ k → partitions e' !! k' = partitions e !! k') ∧
  match r with Ok _ => marked_at e' k pid ep c ce | Err _ => True end.
Proof.
  intros Hpid Hep. unfold append_acked, engine_append.
  destruct (ensure_open _ _ _ _ _ e v k) as [[e1 v1] [[root p]|err]] eqn:E;
    destruct (ensure_open_keeps _ _ _ _ _ _ _ _ _ _ _ E) as [Hkeep Hk].
  2:{ intros [= <- <- <-]. split; [|done]. intros k' Hne. apply Hkeep. by right. }
  destruct (append _ _ _ _ p) as [p' out] eqn:Ea. intros [= <- <- <-]. split.
  - intros k' Hne. simpl. rewrite lookup_insert_ne by done. apply Hkeep. by right.
  - destruct out as [[o t]|err]; [|done]. destruct (t && negb (se_flushed env k)); [done|].
    exists root, p'. simpl. split; [apply lookup_insert_eq|]. by eapply marker_append.
Qed.

(** Opening a partition and appending the marker to it. *)
Lemma open_append_marks e v k le pid ep c ce e1 v1 e2 v2 r :
  i64_ok pid → i16_ok ep → open_key env e v k = (e1, v1) →
  append_acked env e1 v1 k le (marker pid ep c ce) = (e2, v2, r) →
  (∀ k', k' ≠ k → partitions e2 !! k' = partitions e !! k') ∧
  match r with Ok _ => marked_at e2 k pid ep c ce | Err _ => True end.
Proof.
  intros Hpid Hep H1 H2. destruct (append_acked_marks _ _ _ _ _ _ _ _ _ _ _ Hpid Hep H2) as [Ho Hm]. split; [|done].
  intros k' Hne. rewrite Ho by done. by eapply open_key_other.
Qed.

Lemma marked_at_same e e' k pid ep c ce :
  partitions e' !! k = partitions e !! k → marked_at e k pid ep c ce → marked_at e' k pid ep c ce.
Proof. intros E (root & p & Hp & Hm). exists root, p. by rewrite E. Qed.

Lemma write_local_spec b ks e v pid ep c ce e' v' r :
  i64_ok pid → i16_ok ep → write_local_markers env b e v (marker pid ep c ce) ks = (e', v', r) →
  (∀ k, k ∉ ks → partitions e' !! k = partitions e !! k) ∧
  match r with Ok _ => ∀ k, k ∈ ks → marked_at e' k pid ep c ce | Err code => code = ERR_COORDINATOR_NOT_AVAILABLE end.
Proof.
  intros Hpid Hep. revert e v. induction ks as [|k ks IH]; intros e v; cbn [write_local_markers].
  { intros [= <- <- <-]. split; [done|]. intros k []%not_elem_of_nil. }
  destruct (open_key env e v k) as [e1 v1] eqn:E1.
  destruct (append_acked env e1 v1 k _ _) as [[e2 v2] out] eqn:E2.
  destruct (open_append_marks _ _ _ _ _ _ _ _ _ _ _ _ _ Hpid Hep E1 E2) as [H2 H3].
  destruct out as [o|err].
  2:{ intros [= <- <- <-]. split; [|done]. intros k' [Hne _]%not_elem_of_cons. by apply H2. }
  intros Hrest. destruct (IH _ _ Hrest) as [H4 H5]. split.
  { intros k' [Hne Hn]%not_elem_of_cons. rewrite H4 by done. by apply H2. }
  destruct r; [|done]. intros k' Hk'. destruct (decide (k' ∈ ks)) as [|Hn]; [by apply H5|].
  apply elem_of_cons in Hk' as [->|]; [|done]. eapply marked_at_same; [by apply H4|done].
Qed.

Lemma apply_keys_spec b ks e v pid ep c ce e' v' r :
  i64_ok pid → i16_ok ep → apply_keys env b e v (marker pid ep c ce) ks = (e', v', r) →
  (∀ k, k ∉ ks → partitions e' !! k = partitions e !! k) ∧
  (r = Applied → ∀ k, k ∈ ks → owns_key b k = true → marked_at e' k pid ep c ce).
Proof.
  intros Hpid Hep. revert e v. induction ks as [|k ks IH]; intros e v; cbn [apply_keys].
  { intros [= <- <- <-]. split; [done|]. intros _ k []%not_elem_of_nil. }
  destruct (owns_key b k) eqn:Eo.
  2:{ intros Hrest. destruct (IH _ _ Hrest) as [H1 H2]. split; [by intros k' [? ?]%not_elem_of_cons; apply H1|].
      intros Hr k' [->|Hk']%elem_of_cons Ho; [by rewrite Eo in Ho|by apply H2]. }
  destruct (open_key env e v k) as [e1 v1] eqn:E1.
  destruct (append_acked env e1 v1 k _ _) as [[e2 v2] out] eqn:E2.
  destruct (open_append_marks _ _ _ _ _ _ _ _ _ _ _ _ _ Hpid Hep E1 E2) as [H2 H3].
  destruct out as [o|err].
  2:{ intros [= <- <- <-]. split; [|done]. intros k' [Hne _]%not_elem_of_cons. by apply H2. }
  intros Hrest. destruct (IH _ _ Hrest) as [H4 H5]. split.
  { intros k' [Hne Hn]%not_elem_of_cons. rewrite H4 by done. by apply H2. }
  intros Hr k' Hk' Ho. destruct (decide (k' ∈ ks)) as [|Hn]; [by apply H5|].
  apply elem_of_cons in Hk' as [->|]; [|done]. eapply marked_at_same; [by apply H4|done].
Qed.

(** The target's inbox has an entry for this transaction end with the partition. *)
Definition queued_at (q : Queue) (target : string) (pid ep : Z) (c : bool) (k : Key) : Prop :=
  ∃ inbox m, q !! target = Some inbox ∧ inbox !! entry_file pid ep = Some (Ok m) ∧
    me_pid m = pid ∧ me_epoch m = ep ∧ me_commit m = c ∧ covers (me_partitions m) k.1 k.2.

Lemma enqueue_all_spec id pid ep c ok targets q q' r :
  (∀ t ks ks', (t, ks) ∈ targets → (t, ks') ∈ targets → ks = ks') →
  enqueue_cross_broker_markers id pid ep c ok q targets = (q', r) →
  (∀ t, t ∉ targets.*1 → q' !! t = q !! t) ∧
  match r with
  | Ok _ => ∀ t ks k, (t, ks) ∈ targets → k ∈ ks → queued_at q' t pid ep c k
  | Err code => code = ERR_COORDINATOR_NOT_AVAILABLE
  end.
Proof.
  revert q. induction targets as [|[t0 ks0] targets IH]; intros q Huniq; cbn [enqueue_cross_broker_markers].
  { intros [= <- <-]. split; [done|]. intros * []%not_elem_of_nil. }
  unfold enqueue. destruct (str_is_empty t0); [by intros [= <- <-]|].
  destruct (ok t0); [|by intros [= <- <-]]. intros Hrest.
  destruct (IH _ (λ t ks ks' H1 H2, Huniq t ks ks' (list_elem_of_further _ _ _ H1) (list_elem_of_further _ _ _ H2)) Hrest)
    as [H1 H2]. split.
  - intros t Ht. rewrite fmap_cons in Ht. apply not_elem_of_cons in Ht as [Hne Ht].
    rewrite H1 by done. by rewrite lookup_insert_ne.
  - destruct r as [[]|]; [|done]. intros t ks k Hin Hk.
    destruct (decide (t ∈ targets.*1)) as [([t' ks'] & -> & Hin')%list_elem_of_fmap|Hout].
    { apply (H2 t' ks' k Hin'). by rewrite (Huniq t' ks' ks (list_elem_of_further _ _ _ Hin') Hin). }
    apply elem_of_cons in Hin as [[= -> ->]|Hin]; [|destruct Hout; apply list_elem_of_fmap; by exists (t, ks)].
    eexists _, _. rewrite H1, lookup_insert_eq by done. split; [done|]. simpl. rewrite lookup_insert_eq.
    split_and!; [done..|]. simpl. apply covers_pack. by destruct k.
Qed.

(** The marker owed to a partition, with its verdict, is the last record of its log,
    or in its leader's inbox. *)
Definition placed (b : TxnBroker) (e : Engine) (q : Queue) (pid ep : Z) (c : bool) (k : Key) : Prop :=
  match leader_of b k with
  | Some l => if bool_decide (l = tb_id b) then marked_at e k pid ep c 0 else queued_at q l pid ep c k
  | None => marked_at e k pid ep c 0
  end.

Lemma dispatch_spec b sh id pid ep c ts ok b' sh' r :
  i64_ok pid → i16_ok ep → dispatch_markers env b sh id pid ep c ts ok = (b', sh', r) →
  b' = with_storage b (tb_engine b') ∧
  match r with
  | Ok _ => ∀ t p, covers ts t p → placed b (tb_engine b') (queue sh') pid ep c (t, p)
  | Err code => code = ERR_COORDINATOR_NOT_AVAILABLE
  end.
Proof.
  intros Hpid Hep. unfold dispatch_markers. destruct ts as [|t0 ts0].
  { intros [= <- <- <-]. split; [by destruct b|]. by intros t p ?%covers_nil. }
  set (ts := t0 :: ts0).
  destruct (write_local_markers env b (tb_engine b) (volume sh) _ _) as [[e v] out] eqn:Ew.
  destruct (write_local_spec _ _ _ _ _ _ _ _ _ _ _ Hpid Hep Ew) as [_ Hlocal].
  destruct out as [[]|code]; [|by intros [= <- <- <-]].
  assert (∀ t p, covers ts t p → is_local b (leader_of b (t, p)) = true → marked_at e (t, p) pid ep c 0) as Hl.
  { intros t p Hc Hloc. apply Hlocal, elem_of_local. by rewrite elem_of_keys_of. }
  assert (∀ q, (∀ l ks k, (l, ks) ∈ queued b ts → k ∈ ks → queued_at q l pid ep c k) →
    ∀ t p, covers ts t p → placed b e q pid ep c (t, p)) as Hplaced.
  { intros q Hq t p Hc. unfold placed. destruct (leader_of b (t, p)) as [l|] eqn:El.
    - case_bool_decide as Hs.
      + apply Hl; [done|]. rewrite El. simpl. by rewrite bool_decide_true.
      + destruct (proj2 (elem_of_by_target b ts (Some l) (t, p))) as (ks & Hks & Hin); [by rewrite elem_of_keys_of|].
        apply Hq with ks; [|done]. apply elem_of_queued. split; [done|]. simpl. by rewrite bool_decide_false.
    - apply Hl; [done|]. by rewrite El. }
  change (queued (with_storage b e) ts) with (queued b ts).
  destruct (queued b ts) as [|t1 tgs] eqn:Eq.
  { intros [= <- <- <-]. split; [done|]. apply Hplaced. intros * []%not_elem_of_nil. }
  change (has_queue (with_storage b e)) with (has_queue b).
  destruct (has_queue b); [|by intros [= <- <- <-]].
  destruct (enqueue_cross_broker_markers _ _ _ _ _ _ _) as [q out] eqn:Ee. intros [= <- <- <-]. split; [done|].
  apply enqueue_all_spec in Ee as [_ Hq].
  - destruct out; [|done]. by apply Hplaced.
  - rewrite <- Eq. intros t ks ks' [H1 _]%elem_of_queued [H2 _]%elem_of_queued. congruence.
Qed.

End markers.

(** ** The store's part *)

Lemma prepare_spec s id p ep c ok s' out :
  prepare_end_txn s id p ep c ok = (s', Ok out) → transition_fired out = true →
  ∃ en en', entry s id = Some en ∧ pid en = p ∧ epoch en = ep ∧ in_flight en ∧
    eo_partitions out = TxnState.partitions en ∧ entry s' id = Some en' ∧ state en' = want_prepare c ∧
    TxnState.partitions en' = TxnState.partitions en ∧ pid en' = p ∧ epoch en' = ep.
Proof.
  unfold prepare_end_txn. destruct (str_is_empty id); [done|].
  destruct (validated s id p ep) as [[m en]|] eqn:Ev; [|done].
  apply validated_spec in Ev as (Hm & He & -> & ->).
  destruct (state en) eqn:Es; try done.
  - intros Hput Hf. exists en. match type of Hput with put _ _ _ ?e' _ ?o = _ => set (en' := e') in Hput; set (o' := o) in Hput end.
    destruct (put_entry s m id en' ok o' Hm) as (_ & _ & Hok).
    assert (ok = true) as -> by (destruct ok; [done|]; by unfold put, persist_slot in Hput).
    specialize (Hok eq_refl). rewrite Hput in Hok. exists en'.
    unfold put, persist_slot in Hput. injection Hput as _ <-. split_and!; try done. by left.
  - case_decide as Hd; [|done]. intros [= <- <-] _. exists en, en. split_and!; try done; [|congruence].
    right. by rewrite Es.
  - case_decide as Hd; [|done]. intros [= <- <-] _. exists en, en. split_and!; try done; [|congruence].
    right. by rewrite Es.
  - destruct c; [|done]. by intros [= <- <-].
  - destruct c; [done|]. by intros [= <- <-].
Qed.

Lemma complete_spec s id p ep c ok s' r en :
  entry s id = Some en → state en = want_prepare c → complete_end_txn s id p ep c ok = (s', r) →
  match r with
  | Ok _ => ∃ en', entry s' id = Some en' ∧ state en' = want_complete c ∧ TxnState.partitions en' = []
  | Err _ => s' = s
  end.
Proof.
  intros He Hst. unfold complete_end_txn. destruct (str_is_empty id); [by intros [= <- <-]|].
  destruct (validated s id p ep) as [[m en2]|] eqn:Ev; [|by intros [= <- <-]].
  apply validated_spec in Ev as (Hm & He2 & _). rewrite He in He2. injection He2 as <-.
  rewrite decide_False by (rewrite Hst; by destruct c). rewrite decide_True by done.
  intros Hput. match type of Hput with put _ _ _ ?e' _ ?o = _ => set (en' := e') in Hput; set (o' := o) in Hput end.
  destruct (put_entry s m id en' ok o' Hm) as (_ & _ & Hok).
  destruct ok; [|unfold put, persist_slot in Hput; by injection Hput as <- <-].
  specialize (Hok eq_refl). rewrite Hput in Hok.
  destruct r as [?|?]; [|by unfold put, persist_slot in Hput]. exists en'. by split_and!.
Qed.

(** A refused or failed prepare changes nothing of any entry but, at most, its
    state from ongoing to preparing. *)
Lemma prepare_keeps s id p ep c ok s' r en :
  prepare_end_txn s id p ep c ok = (s', r) → entry s id = Some en →
  ∃ en', entry s' id = Some en' ∧ pid en' = pid en ∧ epoch en' = epoch en ∧
    TxnState.partitions en' = TxnState.partitions en ∧ (in_flight en → in_flight en').
Proof.
  intros Hp He. destruct (exec_change s (OpPrepare id p ep c ok) id) as [_ Hc]. simpl in Hc.
  rewrite Hp, He in Hc. simpl in Hc. destruct Hc as [->|Hc]; [by exists en|].
  inversion Hc; subst. eexists. split_and!; try done. intros _. right. by destruct c.
Qed.

Lemma on_end_txn_fold stamp ok calls bs :
  let bs' := foldl (on_end_txn stamp ok) bs calls in
  txn_store bs'.1 = txn_store bs.1 ∧ tb_engine bs'.1 = tb_engine bs.1 ∧ queue bs'.2 = queue bs.2.
Proof.
  induction calls as [|[[g p] c] calls IH] using rev_ind; [done|]. rewrite foldl_snoc. simpl in *.
  destruct (foldl _ _ calls) as [b sh]. simpl in *. by repeat case_match.
Qed.

Lemma finish_spec b sh s id p ep c oks b' sh' r en :
  entry s id = Some en → state en = want_prepare c → finish_txn b sh s id p ep c oks = (b', sh', r) →
  tb_engine b' = tb_engine b ∧ queue sh' = queue sh ∧
  match r with
  | Ok _ => ∃ s' en', txn_store b' = Some s' ∧ entry s' id = Some en' ∧ state en' = want_complete c ∧ TxnState.partitions en' = []
  | Err _ => txn_store b' = Some s
  end.
Proof.
  intros He Hst. unfold finish_txn. destruct (complete_end_txn _ _ _ _ _ _) as [s' out] eqn:Ec.
  pose proof (complete_spec _ _ _ _ _ _ _ _ _ He Hst Ec) as Hs. destruct out as [calls|err].
  - destruct (on_end_txn_fold (offset_stamp oks) (offset_ok oks) calls (with_store b s', sh)) as (H1 & H2 & H3).
    destruct (foldl _ _ calls) as [b1 sh1]. intros [= <- <- <-]. simpl in *. split_and!; [done..|].
    destruct Hs as (en' & ?). exists s', en'. by rewrite H1.
  - subst s'. by intros [= <- <- <-].
Qed.

(** ** Ending a transaction *)

(** What EndTxn leaves: a completed transaction with every marker placed, or one
    still in flight with its partitions. *)
Lemma end_txn_spec env b sh req oks b' sh' code s en :
  (∀ l, u32_ok (se_crc env l)) → i64_ok (EndTxn.producer_id req) → i16_ok (EndTxn.producer_epoch req) →
  transition_and_dispatch env b sh req oks = (b', sh', code) →
  txn_store b = Some s → entry s (EndTxn.transactional_id req) = Some en → in_flight en →
  ∃ s' en', txn_store b' = Some s' ∧ entry s' (EndTxn.transactional_id req) = Some en' ∧
    ((code = 0 ∧ state en' = want_complete (EndTxn.committed req) ∧ TxnState.partitions en' = [] ∧
      ∀ t p, covers (TxnState.partitions en) t p →
        placed env b (tb_engine b') (queue sh') (EndTxn.producer_id req) (EndTxn.producer_epoch req)
          (EndTxn.committed req) (t, p)) ∨
     (code ≠ 0 ∧ in_flight en' ∧ pid en' = pid en ∧ TxnState.partitions en' = TxnState.partitions en)).
Proof.
  intros Hcrc Hpid Hep. unfold transition_and_dispatch. intros Ht Hs He Hf. rewrite Hs in Ht.
  set (id := EndTxn.transactional_id req) in *.
  destruct (prepare_end_txn s id _ _ _ _) as [s1 out] eqn:Ep.
  destruct (prepare_keeps _ _ _ _ _ _ _ _ _ Ep He) as (en1 & He1 & Hp1 & Hep1 & Hpt1 & Hf1). specialize (Hf1 Hf).
  destruct out as [out|err].
  2:{ injection Ht as <- <- <-. exists s1, en1. split_and!; [done..|]. right. split_and!; try done. by destruct err. }
  destruct (transition_fired out) eqn:Efire; simpl in Ht.
  2:{ exfalso. revert Ep. unfold prepare_end_txn. destruct (str_is_empty id); [done|].
      destruct (validated _ _ _ _) as [[m en2]|] eqn:Ev; [|done]. apply validated_spec in Ev as (_ & He2 & _).
      rewrite He in He2. injection He2 as <-. destruct Hf as [Hst|Hst].
      - rewrite Hst. unfold put. destruct (persist_slot _ _ _ _) as [? [?|?]]; intros [= _ <-]; done.
      - destruct (state en); try done; (case_decide; [|done]); intros [= _ <-]; done. }
  destruct (prepare_spec _ _ _ _ _ _ _ _ Ep Efire) as (en0 & en2 & He0 & _ & _ & _ & Hout & He2 & Hst2 & Hpt2 & Hp2 & _).
  rewrite He in He0. injection He0 as <-. rewrite He1 in He2. injection He2 as <-.
  destruct (dispatch_markers env (with_store b s1) sh id _ _ _ _ _) as [[b2 sh2] r] eqn:Ed.
  destruct (dispatch_spec env Hcrc _ _ _ _ _ _ _ _ _ _ _ Hpid Hep Ed) as [Hb2 Hr].
  destruct r as [[]|c2].
  2:{ injection Ht as <- <- <-. exists s1, en1. rewrite Hb2. simpl. split_and!; [done..|]. right. by subst c2. }
  destruct (finish_txn b2 sh2 s1 id _ _ _ oks) as [[b3 sh3] r3] eqn:Efin.
  destruct (finish_spec _ _ _ _ _ _ _ _ _ _ _ _ He1 Hst2 Efin) as (Heng & Hq & Hr3).
  destruct r3 as [[]|err]; injection Ht as <- <- <-.
  - destruct Hr3 as (s' & en' & Hs' & He' & Hst' & Hpt'). exists s', en'. split_and!; [done..|]. left.
    split_and!; [done..|]. intros t p Hc. rewrite Heng, Hq. rewrite Hout in Hr. apply (Hr t p Hc).
  - exists s1, en1. split_and!; [done..|]. right. split_and!; try done. by destruct err.
Qed.

(** C13. When EndTxn answers success for a transaction in flight, it is complete and
    every partition of it has its marker placed, with the verdict of the request:
    where this broker leads, or no leader is known, the commit or abort marker of the
    producer is the last record of the log and the producer has no transaction open
    any more; for every other partition it is in the inbox of the leader. *)
Theorem end_txn_places_markers env authz b sh req oks b' sh' s en :
  (∀ l, u32_ok (se_crc env l)) → i64_ok (EndTxn.producer_id req) → i16_ok (EndTxn.producer_epoch req) →
  txn_store b = Some s → entry s (EndTxn.transactional_id req) = Some en → in_flight en →
  end_txn_handler env authz b sh req oks = (b', sh', 0) →
  ∃ s' en', txn_store b' = Some s' ∧ entry s' (EndTxn.transactional_id req) = Some en' ∧
    state en' = want_complete (EndTxn.committed req) ∧
    ∀ t p, covers (TxnState.partitions en) t p →
      placed env b (tb_engine b') (queue sh') (EndTxn.producer_id req) (EndTxn.producer_epoch req)
        (EndTxn.committed req) (t, p).
Proof.
  intros Hcrc Hpid Hep Hs He Hf. unfold end_txn_handler.
  destruct (classify_end _ _ _) as [code|] eqn:Ec.
  { intros [= <- <- ->]. revert Ec. unfold classify_end. by repeat case_match. }
  intros Ht. destruct (end_txn_spec _ _ _ _ _ _ _ _ _ _ Hcrc Hpid Hep Ht Hs He Hf)
    as (s' & en' & Hs' & He' & [(_ & Hst & _ & Hp)|[? _]]); [|done]. by exists s', en'.
Qed.

(** C14. When EndTxn fails, whatever failed (a write of the slot file, an append, a
    flush, the queue), the transaction stays in flight under the same producer
    with the same partitions, so a retry or the sweep finds all of them. *)
Theorem end_txn_failure_keeps_debt env authz b sh req oks b' sh' code s en :
  (∀ l, u32_ok (se_crc env l)) → i64_ok (EndTxn.producer_id req) → i16_ok (EndTxn.producer_epoch req) →
  txn_store b = Some s → entry s (EndTxn.transactional_id req) = Some en → in_flight en →
  end_txn_handler env authz b sh req oks = (b', sh', code) → code ≠ 0 →
  ∃ s' en', txn_store b' = Some s' ∧ entry s' (EndTxn.transactional_id req) = Some en' ∧
    in_flight en' ∧ pid en' = pid en ∧ TxnState.partitions en' = TxnState.partitions en.
Proof.
  intros Hcrc Hpid Hep Hs He Hf. unfold end_txn_handler.
  destruct (classify_end _ _ _) as [c|].
  { intros [= <- <- <-] _. by exists s, en. }
  intros Ht Hne. destruct (end_txn_spec _ _ _ _ _ _ _ _ _ _ Hcrc Hpid Hep Ht Hs He Hf)
    as (s' & en' & Hs' & He' & [(-> & _)|(_ & Hf' & Hp & Hpt)]); [done|]. by exists s', en'.
Qed.

(** The queue delivers: when the leader's watcher processes the entry and the
    file is gone, every partition of it that the broker leads ends with the marker,
    and has no transaction of the producer open; when an append fails the entry
    stays. *)
Theorem marker_queue_delivers env b sh file inbox m b' sh' :
  (∀ l, u32_ok (se_crc env l)) → i64_ok (me_pid m) → i16_ok (me_epoch m) →
  queue sh !! tb_id b = Some inbox → inbox !! file = Some (Ok m) →
  process_one env true (b, sh) file = (b', sh') →
  (queue sh' = queue sh ∧ (apply_marker env b (volume sh) m).2 = Retry) ∨
  (queue sh' !! tb_id b = Some (delete file inbox) ∧
   ∀ t p, covers (me_partitions m) t p → owns_key b (t, p) = true →
     marked_at env (tb_engine b') (t, p) (me_pid m) (me_epoch m) (me_commit m) (me_coordinator_epoch m)).
Proof.
  intros Hcrc Hpid Hep Hq Hm. unfold process_one. rewrite Hq. simpl. rewrite Hm.
  destruct (apply_marker env b (volume sh) m) as [[e v] out] eqn:Ea. intros [= <- <-].
  destruct (apply_keys_spec env Hcrc _ _ _ _ _ _ _ _ _ _ _ Hpid Hep Ea) as [_ Hc].
  destruct out; [right|by left]. split; [simpl; by rewrite lookup_alter_eq, Hq|].
  intros t p Hcov Hown. apply Hc; [done| |done]. by apply elem_of_keys_of.
Qed.

(** ** A two-broker cluster *)

Definition demo_env : StorageEnv :=
  {| se_cfg := demo_engine_cfg; se_crc := λ _, 0; se_crc_append := λ _ _, 0; se_placement := λ _, None;
     se_identity := None; se_pcfg := λ _, big_cfg; se_age := λ _, 0; se_flushed := λ _, true |}.

Definition led (p : Z) (b : string) : PartitionAssignment :=
  {| pa_topic := "t"; pa_partition := p; pa_broker := b; pa_epoch := 1; role := Leader |}.

(** [kaas-0] coordinates every transaction and leads [t/0]; [kaas-1] leads the rest. *)
Definition demo_assignment : Assignment :=
  {| controller_epoch := 1; assignment_version := 1; generated_at := ""; controller := "kaas-0";
     brokers := [{| br_id := "kaas-0"; health := Alive; last_seen := "" |}];
     Cluster.partitions := [led 0 "kaas-0"; led 1 "kaas-1"; led 2 "kaas-1"]; consumer_groups := [] |}.

Definition demo_broker (id : string) (s : option TxnStateStore) (e : Engine) : TxnBroker :=
  {| tb_id := id; coordinator := Some (apply_if_new 0 (Some demo_assignment) (Coordinator_new id)).1;
     txn_store := s; tb_engine := e; has_queue := true; offsets := OffsetStore_new |}.

Definition demo_shared : Shared :=
  {| volume := {| dirs := ∅; stamps := ∅ |}; queue := ∅; offset_files := ∅ |}.

Definition all_end_ok : EndOk :=
  {| prepare_ok := true; complete_ok := true; queue_ok := λ _, true; offset_ok := λ _, true;
     offset_stamp := {| fs_controller_epoch := 0; fs_assignment_version := 0 |} |}.

Definition begin_txn (s : TxnStateStore) (ps : list Z) : TxnStateStore :=
  (add_partitions s "tx" 5 0 [{| tt_topic := "t"; tt_partitions := ps |}] 100 true).1.

(** Producer 5, epoch 0. *)
Definition fresh_store : TxnStateStore := (get_or_allocate_with_timeout (open 4) "tx" 60000 5 true).1.
Definition end_req (commit : bool) : EndTxn.Request :=
  {| EndTxn.transactional_id := "tx"; EndTxn.producer_id := 5; EndTxn.producer_epoch := 0; EndTxn.committed := commit |}.

Definition yes (_ : Resource) (_ : Operation) : bool := true.
Definition demo_coordinator : TxnBroker := demo_broker "kaas-0" (Some (begin_txn fresh_store [0; 1])) Engine_new.
Definition demo_ended : TxnBroker * Shared * Z :=
  end_txn_handler demo_env yes demo_coordinator demo_shared (end_req true) all_end_ok.

Definition demo_entry : TxnEntry :=
  {| pid := 5; epoch := 0; TxnState.partitions := [{| tt_topic := "t"; tt_partitions := [0; 1] |}];
     ongoing_since_ms := 100; transaction_timeout_ms := 60000; state := Ongoing; groups := [] |}.

Lemma demo_crc : ∀ l, u32_ok (se_crc demo_env l).
Proof. intros l. change (u32_ok 0). unfold u32_ok. lia. Qed.

Lemma end_txn_places_markers_witness :
  demo_ended.2 = 0 ∧ marked_at demo_env (tb_engine demo_ended.1.1) ("t"%string, 0) 5 0 true 0 ∧
  queued_at (queue demo_ended.1.2) "kaas-1" 5 0 true ("t"%string, 1).
Proof.
  assert (demo_ended.2 = 0) as H0 by (vm_compute; reflexivity). split; [exact H0|].
  destruct (end_txn_places_markers demo_env yes demo_coordinator demo_shared (end_req true) all_end_ok
    demo_ended.1.1 demo_ended.1.2 (begin_txn fresh_store [0; 1]) demo_entry demo_crc) as (_ & _ & _ & _ & _ & H).
  - simpl. range.
  - simpl. range.
  - reflexivity.
  - vm_compute. reflexivity.
  - left. reflexivity.
  - rewrite <- H0. unfold demo_ended. rewrite <- !surjective_pairing. reflexivity.
  - split.
    + apply (H "t"%string 0). exists {| tt_topic := "t"; tt_partitions := [0; 1] |}.
      split; [left|]. split; [reflexivity|]. left.
    + apply (H "t"%string 1). exists {| tt_topic := "t"; tt_partitions := [0; 1] |}.
      split; [left|]. split; [reflexivity|]. right. left.
Defined.

(** The queue cannot be written. *)
Definition queue_down : EndOk :=
  {| prepare_ok := true; complete_ok := true; queue_ok := λ _, false; offset_ok := λ _, true;
     offset_stamp := {| fs_controller_epoch := 0; fs_assignment_version := 0 |} |}.
Definition demo_failed : TxnBroker * Shared * Z :=
  end_txn_handler demo_env yes demo_coordinator demo_shared (end_req true) queue_down.

Lemma end_txn_failure_keeps_debt_witness :
  demo_failed.2 = 15 ∧ ∃ s' en', txn_store demo_failed.1.1 = Some s' ∧ entry s' "tx" = Some en' ∧
    TxnState.partitions en' = [{| tt_topic := "t"; tt_partitions := [0; 1] |}].
Proof.
  assert (demo_failed.2 = 15) as H15 by (vm_compute; reflexivity). split; [exact H15|].
  destruct (end_txn_failure_keeps_debt demo_env yes demo_coordinator demo_shared (end_req true) queue_down
    demo_failed.1.1 demo_failed.1.2 15 (begin_txn fresh_store [0; 1]) demo_entry demo_crc)
    as (s' & en' & Hs' & He' & _ & _ & Hp).
  - simpl. range.
  - simpl. range.
  - reflexivity.
  - vm_compute. reflexivity.
  - left. reflexivity.
  - rewrite <- H15. unfold demo_failed. rewrite <- !surjective_pairing. reflexivity.
  - lia.
  - exists s', en'. split; [exact Hs'|]. split; [exact He'|exact Hp].
Defined.

(** The peer with a transaction of producer 5 open on the partitions it leads. *)
Definition txn_partition : Partition := (append big_cfg 0 1 txn_batch empty_partition).1.
Definition demo_peer_engine : Engine :=
  set_partition (set_partition Engine_new ("t"%string, 1) "/d" txn_partition) ("t"%string, 2) "/d" txn_partition.
Definition demo_receiver : TxnBroker := demo_broker "kaas-1" None demo_peer_engine.
Definition demo_marker : MarkerEntry :=
  {| me_txn_id := "tx"; me_pid := 5; me_epoch := 0; me_commit := true; me_coordinator_epoch := 0;
     me_partitions := [{| tt_topic := "t"; tt_partitions := [1] |}] |}.
Definition demo_inbox : gmap string (result unit MarkerEntry) := {["5-0.json"%string := Ok demo_marker]}.
Definition demo_queued : Shared :=
  {| volume := {| dirs := ∅; stamps := ∅ |}; queue := {["kaas-1"%string := demo_inbox]}; offset_files := ∅ |}.
Definition demo_applied : TxnBroker * Shared := process_one demo_env true (demo_receiver, demo_queued) "5-0.json".

Lemma marker_queue_delivers_witness :
  queue demo_applied.2 !! "kaas-1"%string = Some ∅ ∧
  marked_at demo_env (tb_engine demo_applied.1) ("t"%string, 1) 5 0 true 0.
Proof.
  assert (queue demo_applied.2 !! "kaas-1"%string = Some ∅) as Hq by (vm_compute; reflexivity).
  split; [exact Hq|].
  destruct (marker_queue_delivers demo_env demo_receiver demo_queued "5-0.json" demo_inbox demo_marker
    demo_applied.1 demo_applied.2 demo_crc) as [[H _]|[_ H]].
  - simpl. range.
  - simpl. range.
  - vm_compute. reflexivity.
  - vm_compute. reflexivity.
  - exact (surjective_pairing demo_applied).
  - rewrite H in Hq. vm_compute in Hq. discriminate Hq.
  - apply (H "t"%string 1); [|vm_compute; reflexivity].
    exists {| tt_topic := "t"; tt_partitions := [1] |}. split; [left|]. split; [reflexivity|]. left.
Defined.

(** ** Where the flow falls short *)

(** Two transactions of one session in a row, on different partitions of the peer. *)
Definition first_end : TxnBroker * Shared * Z :=
  end_txn_handler demo_env yes (demo_broker "kaas-0" (Some (begin_txn fresh_store [1])) Engine_new)
    demo_shared (end_req true) all_end_ok.
Definition second_end : TxnBroker * Shared * Z :=
  end_txn_handler demo_env yes
    (with_store first_end.1.1 (begin_txn (default fresh_store (txn_store first_end.1.1)) [2]))
    first_end.1.2 (end_req true) all_end_ok.
Definition peer_after : TxnBroker * Shared := watcher_tick demo_env true demo_receiver second_end.1.2.

(** A marker is lost when the session ends a second transaction before the peer's
    watcher ran: queue files are named by producer and epoch only, so the second
    entry replaces the first.  Both EndTxn succeed and the queue is drained, but
    the first partition keeps its transaction open and its last stable offset at 0
    for good, while the second one advances. *)
Theorem queue_overwrite_loses_marker :
  first_end.2 = 0 ∧ second_end.2 = 0 ∧ queue peer_after.2 !! "kaas-1"%string = Some ∅ ∧
  engine_lso (tb_engine peer_after.1) ("t"%string, 1) = 0 ∧
  engine_high_watermark (tb_engine peer_after.1) ("t"%string, 1) = 1 ∧
  engine_lso (tb_engine peer_after.1) ("t"%string, 2) = 2.
Proof. repeat split; vm_compute; reflexivity. Qed.

(** A producer session writes to [t/0] in a transaction and dies; the next session
    starts with InitProducerId and commits a transaction of its own. *)
Definition restarted : TxnStateStore := (get_or_allocate_with_timeout (begin_txn fresh_store [0]) "tx" 60000 9 true).1.
Definition second_session : TxnStateStore :=
  (add_partitions restarted "tx" 5 1 [{| tt_topic := "t"; tt_partitions := [2] |}] 200 true).1.
Definition second_commit : TxnBroker * Shared * Z :=
  end_txn_handler demo_env yes
    (demo_broker "kaas-0" (Some second_session) (set_partition Engine_new demo_key "/d" txn_partition)) demo_shared
    {| EndTxn.transactional_id := "tx"; EndTxn.producer_id := 5; EndTxn.producer_epoch := 1; EndTxn.committed := true |}
    all_end_ok.

(** InitProducerId does not abort the dead session's transaction: its entry stays
    ongoing with its partitions, so the next session's commit also commits the
    records the dead session never committed; they lie below the last stable
    offset and no abort is recorded for them. *)
Theorem restart_commits_dead_session :
  second_commit.2 = 0 ∧
  engine_lso (tb_engine second_commit.1.1) demo_key = 2 ∧
  engine_aborted (tb_engine second_commit.1.1) demo_key 0 10 = [] ∧
  engine_read (tb_engine second_commit.1.1) demo_key 0 61 = txn_batch.
Proof. repeat split; vm_compute; reflexivity. Qed.

(** A transaction with only consumer offsets times out. *)
Definition offsets_only : TxnBroker :=
  demo_broker "kaas-0" (Some (add_offsets_to_txn fresh_store "tx" 5 0 "g" 100 true).1) Engine_new.
Definition reaped : TxnBroker := (reaper_tick demo_env all_end_ok 100000 (λ _, true) offsets_only demo_shared).1.1.
Definition reaped_again : TxnBroker := (reaper_tick demo_env all_end_ok 200000 (λ _, true) reaped demo_shared).1.1.
Definition rejoined : TxnStateStore * result TxnStateError (Z * Z) :=
  get_or_allocate_with_timeout (default fresh_store (txn_store reaped_again)) "tx" 60000 9 true.

(** Its transactional id is stuck: the reaper leaves it preparing, the sweep skips
    entries without partitions, and the next session, which InitProducerId admits
    at a new epoch, is told that a transaction is still being ended. *)
Theorem offsets_only_timeout_stuck :
  (∃ s en, txn_store reaped_again = Some s ∧ entry s "tx" = Some en ∧ state en = PrepareAbort ∧
           pending_marker_dispatches s None = []) ∧
  rejoined.2 = Ok (5, 2) ∧
  (add_partitions rejoined.1 "tx" 5 2 [{| tt_topic := "t"; tt_partitions := [0] |}] 300000 true).2 = Err Concurrent.
Proof.
  split; [|split; vm_compute; reflexivity].
  eexists _, _. split; [vm_compute; reflexivity|]. split; [vm_compute; reflexivity|].
  split; vm_compute; reflexivity.
Qed.

(** Offsets staged at the group's coordinator while the transaction is ended by
    another broker, and at the same broker with a failing write. *)
Definition staged : OffsetStore := store_pending OffsetStore_new "g" 5 {[offset_key "t" 0 := 42]}.
Definition with_hook (s : TxnStateStore) : TxnStateStore := {| num_slots := num_slots s; slots := slots s; hook := true |}.
Definition offsets_txn : TxnStateStore := with_hook (add_offsets_to_txn fresh_store "tx" 5 0 "g" 100 true).1.
Definition with_offsets (b : TxnBroker) (s : OffsetStore) : TxnBroker :=
  {| tb_id := tb_id b; coordinator := coordinator b; txn_store := txn_store b; tb_engine := tb_engine b;
     has_queue := has_queue b; offsets := s |}.
Definition ended_elsewhere : TxnBroker * Shared * Z :=
  end_txn_handler demo_env yes (demo_broker "kaas-0" (Some offsets_txn) Engine_new) demo_shared (end_req true) all_end_ok.
Definition offsets_down : EndOk :=
  {| prepare_ok := true; complete_ok := true; queue_ok := λ _, true; offset_ok := λ _, false;
     offset_stamp := {| fs_controller_epoch := 0; fs_assignment_version := 0 |} |}.
Definition ended_here : TxnBroker * Shared * Z :=
  end_txn_handler demo_env yes (with_offsets (demo_broker "kaas-0" (Some offsets_txn) Engine_new) staged) demo_shared
    (end_req true) offsets_down.

(** The hook looks only at the offsets staged on its own broker, so when the
    group's coordinator is another one the commit succeeds and no offset is
    written; and when the offsets are its own but their file cannot be written, the
    commit succeeds all the same, the staged offsets are gone and the file has
    none. *)
Theorem committed_offsets_dropped :
  ended_elsewhere.2 = 0 ∧ offset_files ended_elsewhere.1.2 = ∅ ∧
  ended_here.2 = 0 ∧ pending_for (offsets ended_here.1.1) "g" 5 = None ∧
  offset_files ended_here.1.2 !! "g"%string = None.
Proof. repeat split; vm_compute; reflexivity. Qed.

(** With the offsets staged here and the file written, they are committed. *)
Definition ended_ok : TxnBroker * Shared * Z :=
  end_txn_handler demo_env yes (with_offsets (demo_broker "kaas-0" (Some offsets_txn) Engine_new) staged) demo_shared
    (end_req true) all_end_ok.

Example staged_offsets_committed :
  ended_ok.2 = 0 ∧ f_offsets <$> (offset_files ended_ok.1.2 !! "g"%string ≫= λ r, match r with Ok f => Some f | Err _ => None end)
    = Some {[offset_key "t" 0 := 42]}.
Proof. split; vm_compute; reflexivity. Qed.
