(* ===== verification/DataPlane.v ===== *)
(** * The data-plane handlers

    [handlers/produce.rs], [handlers/fetch.rs], [handlers/list_offsets.rs] and
    [handlers/delete_records.rs] of the broker crate, over the topic registry
    ([topic_registry.rs]), the applied assignment, the write self-fence
    ([self_fence.rs]) and the storage engine; each handler decodes its request,
    serves every partition in turn and encodes the response.

    The quota manager's answer is the [throttle] of a response (it is applied after
    the work is done and changes nothing else; [Quota] has the charge itself).  The authorizer is its decision for the connection's principal
    ([Acls]); what the file system does to a read or to the flush an append waits
    for is an oracle. *)

From stdpp Require Import base gmap strings list sorting pretty.
From Stdlib Require Import Strings.Byte.
From S2P Require Import Prelude Primitives Wire ApiData Idempotence TxnIndex Segment ControlBatch Partition Recovery Cluster TxnState OffsetStore Engine Acls ApiTxn ProducerFence TxnFlow.

Local Open Scope Z_scope.

(** ** The topic registry *)

Record TopicMeta := { tm_name : string; partition_count : Z; tm_topic_id : list byte }.

Record TopicRegistry := {
  inner : gmap string TopicMeta;
  volume_assignments : gmap string (gmap string string);
  topic_ids : gmap string string;
  synced : bool }.

Definition TopicRegistry_new : TopicRegistry :=
  {| inner := ∅; volume_assignments := ∅; topic_ids := ∅; synced := false |}.

(** [from_env_json], after JSON decoding. *)
Definition from_seed (entries : list (string * Z)) : result string TopicRegistry :=
  match list_find (λ e, e.2 ≤ 0) entries with
  | Some (_, e) => Err e.1
  | None =>
    Ok {| inner := list_to_map (reverse ((λ e, (e.1, {| tm_name := e.1; partition_count := e.2;
                     tm_topic_id := Metadata.NULL_TOPIC_ID |})) <$> entries));
          volume_assignments := ∅; topic_ids := ∅; synced := false |}
  end.

Definition get (r : TopicRegistry) (name : string) : option TopicMeta := inner r !! name.

Definition name_le (a b : TopicMeta) : Prop := String.le (tm_name a) (tm_name b).
#[export] Instance name_le_dec a b : Decision (name_le a b) := _.

Definition all (r : TopicRegistry) : list TopicMeta :=
  merge_sort name_le ((map_to_list (inner r)).*2).

Definition insert_topic (r : TopicRegistry) (m : TopicMeta) : TopicRegistry :=
  {| inner := <[tm_name m := m]> (inner r); volume_assignments := volume_assignments r;
     topic_ids := topic_ids r; synced := synced r |}.
Definition remove_topic (r : TopicRegistry) (name : string) : TopicRegistry :=
  {| inner := delete name (inner r); volume_assignments := delete name (volume_assignments r);
     topic_ids := delete name (topic_ids r); synced := synced r |}.

Definition set_volume_assignments (r : TopicRegistry) (topic : string) (m : gmap string string) : TopicRegistry :=
  {| inner := inner r;
     volume_assignments :=
       if decide (m = ∅) then delete topic (volume_assignments r)
       else <[topic := m]> (volume_assignments r);
     topic_ids := topic_ids r; synced := synced r |}.
Definition set_volume_assignment (r : TopicRegistry) (topic : string) (partition : Z) (log_dir : string) : TopicRegistry :=
  {| inner := inner r;
     volume_assignments :=
       <[topic := <[pretty partition := log_dir]> (default ∅ (volume_assignments r !! topic))]>
         (volume_assignments r);
     topic_ids := topic_ids r; synced := synced r |}.
Definition volume_assignment (r : TopicRegistry) (topic : string) (partition : Z) : option string :=
  volume_assignments r !! topic ≫= λ m, m !! (pretty partition : string).

Definition set_topic_id (r : TopicRegistry) (topic : string) (id : option string) : TopicRegistry :=
  {| inner := inner r; volume_assignments := volume_assignments r;
     topic_ids := <[topic := default ""%string id]> (topic_ids r); synced := synced r |}.
Definition mark_synced (r : TopicRegistry) : TopicRegistry :=
  {| inner := inner r; volume_assignments := volume_assignments r;
     topic_ids := topic_ids r; synced := true |}.

Definition incarnation (r : TopicRegistry) (topic : string) : TopicIncarnation :=
  match topic_ids r !! topic with
  | None => if synced r then Pending else Unknown
  | Some id => if decide (id = ""%string) then Pending else Known id
  end.

(** ** The write self-fence *)

Definition DEFAULT_HEARTBEAT_TIMEOUT : Z := 3000.

(** Milliseconds of a monotonic clock; [duration_since] saturates at zero. *)
Definition is_heartbeat_fresh (last_received : option Z) (timeout now : Z) : bool :=
  match last_received with
  | None => false
  | Some t => Z.max 0 (now - t) <=? timeout
  end.

(** The coordinator with the heartbeat state of its cluster runtime. *)
Record ClusterView := { cv_coordinator : Coordinator; self_fence : bool; last_heartbeat : option Z }.

Definition heartbeat_fresh_for_writes (c : ClusterView) (now : Z) : bool :=
  if self_fence c then is_heartbeat_fresh (last_heartbeat c) DEFAULT_HEARTBEAT_TIMEOUT now
  else true.

(** ** The broker, as these handlers use it *)

Record DataBroker := { db_topics : TopicRegistry; db_cluster : option ClusterView; db_engine : Engine }.

Definition with_engine (b : DataBroker) (e : Engine) : DataBroker :=
  {| db_topics := db_topics b; db_cluster := db_cluster b; db_engine := e |}.

(** [LocalLeaseManager::current_epoch]. *)
Definition local_epoch : Z := 0.

Definition write_epoch (b : DataBroker) (k : Key) : Z :=
  default local_epoch (db_cluster b ≫= λ c, current_epoch (cv_coordinator c) k.1 k.2).

(** [engine.append] with the request's [acks]: only [-1] waits for the flush. *)
Definition append_with (env : StorageEnv) (acks : Z) (e : Engine) (v : LogVolume) (k : Key)
    (epoch : Z) (batch : list byte) : Engine * LogVolume * result StorageError Z :=
  if acks =? -1 then append_acked env e v k epoch batch
  else
    let '(e, v, r) :=
      engine_append (se_cfg env) (se_crc env) (se_crc_append env) (se_placement env) (se_identity env)
        (se_pcfg env k) (se_age env k) e v k epoch batch in
    (e, v, match r with Ok (o, _) => Ok o | Err err => Err err end).

(** ** Produce *)

Module ProduceHandler.

Definition DEFAULT_MAX_MESSAGE_BYTES : Z := 1048588.

Definition ok_partition (index base_offset log_start_offset : Z) : Produce.PartitionResponse :=
  {| Produce.p_index := index; Produce.error_code := 0; Produce.base_offset := base_offset;
     Produce.log_append_time_ms := -1; Produce.log_start_offset := log_start_offset;
     Produce.record_errors := []; Produce.error_message := None |}.

Definition error_partition (index error_code : Z) : Produce.PartitionResponse :=
  {| Produce.p_index := index; Produce.error_code := error_code; Produce.base_offset := -1;
     Produce.log_append_time_ms := -1; Produce.log_start_offset := -1;
     Produce.record_errors := []; Produce.error_message := None |}.

Definition error_code_of (err : StorageError) : Z :=
  match err with
  | EpochMismatch => 6
  | OutOfOrderSequence => 45
  | DuplicateSequence => 46
  | InvalidProducerEpoch => 47
  | UnknownTopicOrPartition => 3
  | Stalled => 5
  | Migrating => 5
  | StaleTopicDir => 5
  | IoErr _ => 56
  | _ => -1
  end.
Definition map_error (index : Z) (err : StorageError) : Produce.PartitionResponse :=
  error_partition index (error_code_of err).

(** The checks before the engine is touched, in order; [None]: all passed. *)
Definition gate (authz : Resource → Operation → bool) (now : Z) (b : DataBroker) (topic : string) (index : Z) : option Z :=
  if bool_decide (get (db_topics b) topic = None) then Some 3
  else
    match match db_cluster b with
          | Some c =>
            if negb (owns (cv_coordinator c) topic index) then Some 6
            else if negb (heartbeat_fresh_for_writes c now) then Some 6
            else None
          | None => None
          end with
    | Some code => Some code
    | None => if authz (Resource_topic topic) Write then None else Some 29
    end.

(** [append_one]. *)
Definition append_one (env : StorageEnv) (max_message_bytes : Z) (authz : Resource → Operation → bool)
    (now : Z) (b : DataBroker) (v : LogVolume) (topic : string) (p : Produce.PartitionData) (acks : Z) :
    DataBroker * LogVolume * Produce.PartitionResponse :=
  let k : Key := (topic, Produce.index p) in
  match gate authz now b topic (Produce.index p) with
  | Some code => (b, v, error_partition (Produce.index p) code)
  | None =>
    match Produce.records p with
    | None => (b, v, ok_partition (Produce.index p) (engine_high_watermark (db_engine b) k) 0)
    | Some records =>
      if max_message_bytes <? Z.of_nat (length records)
      then (b, v, error_partition (Produce.index p) 18)
      else
        let '(e, v, r) :=
          create_partition (se_cfg env) (se_crc env) (se_crc_append env) (se_placement env)
            (se_identity env) (db_engine b) v k in
        match r with
        | Err err => (with_engine b e, v, map_error (Produce.index p) err)
        | Ok _ =>
          let '(e, v, r) := append_with env acks e v k (write_epoch b k) records in
          (with_engine b e, v,
           match r with
           | Ok base => ok_partition (Produce.index p) base (engine_log_start e k)
           | Err err => map_error (Produce.index p) err
           end)
        end
    end
  end.

(** The loops of [handle]: the state is threaded through the partitions. *)
Fixpoint append_partitions (env : StorageEnv) (max_message_bytes : Z) (authz : Resource → Operation → bool)
    (now : Z) (acks : Z) (topic : string) (b : DataBroker) (v : LogVolume) (ps : list Produce.PartitionData) :
    DataBroker * LogVolume * list Produce.PartitionResponse :=
  match ps with
  | [] => (b, v, [])
  | p :: ps' =>
    let '(b, v, r) := append_one env max_message_bytes authz now b v topic p acks in
    let '(b, v, rs) := append_partitions env max_message_bytes authz now acks topic b v ps' in
    (b, v, r :: rs)
  end.

Fixpoint append_topics (env : StorageEnv) (max_message_bytes : Z) (authz : Resource → Operation → bool)
    (now : Z) (acks : Z) (b : DataBroker) (v : LogVolume) (ts : list Produce.TopicData) :
    DataBroker * LogVolume * list Produce.TopicResponse :=
  match ts with
  | [] => (b, v, [])
  | t :: ts' =>
    let '(b, v, rs) :=
      append_partitions env max_message_bytes authz now acks (Produce.name t) b v (Produce.partition_data t) in
    let '(b, v, out) := append_topics env max_message_bytes authz now acks b v ts' in
    (b, v, {| Produce.t_name := Produce.name t; Produce.partition_responses := rs |} :: out)
  end.

Definition handle (env : StorageEnv) (max_message_bytes : Z) (authz : Resource → Operation → bool)
    (now throttle : Z) (b : DataBroker) (v : LogVolume) (version : Z) (body : list byte) :
    DataBroker * LogVolume * enc :=
  match Produce.decode_request version body with
  | Err err => (b, v, Err err)
  | Ok (req, _) =>
    let '(b, v, rs) :=
      append_topics env max_message_bytes authz now (Produce.acks req) b v (Produce.topic_data req) in
    (b, v, Produce.encode_response
       {| Produce.responses := rs; Produce.throttle_time_ms := throttle |} version)
  end.

End ProduceHandler.

(** ** Fetch *)

Module FetchHandler.

(** [trim_to_offset]: the prefix of whole batches that end below [max_offset]. *)
Fixpoint trim_loop (fuel : nat) (bytes : list byte) (pos : nat) (max_offset : Z) : list byte :=
  match fuel with
  | O => bytes
  | S fuel =>
    if (pos + 27 <=? length bytes)%nat then
      let base := sbe (slice pos 8 bytes) in
      let last_offset_delta := sbe (slice (pos + 23) 4 bytes) in
      let last := Z.max (- i64_max - 1) (Z.min i64_max (base + last_offset_delta)) in
      if max_offset <=? last then take pos bytes
      else
        let batch_len := sbe (slice (pos + 8) 4 bytes) in
        let next := (pos + (12 + Z.to_nat (Z.max batch_len 0)))%nat in
        if (next <=? pos)%nat || (length bytes <? next)%nat then take pos bytes
        else trim_loop fuel bytes next max_offset
    else bytes
  end.
Definition trim_to_offset (bytes : list byte) (max_offset : Z) : list byte :=
  trim_loop (S (length bytes)) bytes 0 max_offset.

Definition error_partition (partition_index error_code : Z) : Fetch.PartitionResponse :=
  {| Fetch.p_partition_index := partition_index; Fetch.error_code := error_code;
     Fetch.high_watermark := -1; Fetch.last_stable_offset := -1; Fetch.p_log_start_offset := -1;
     Fetch.aborted_transactions := []; Fetch.preferred_read_replica := -1; Fetch.records := None |}.

Definition read_error_code (err : StorageError) : Z :=
  match err with
  | OffsetOutOfRange => 1
  | UnknownTopicOrPartition => 3
  | EpochMismatch => 6
  | _ => -1
  end.

Definition gate (authz : Resource → Operation → bool) (b : DataBroker) (topic : string) (index : Z) : option Z :=
  if bool_decide (get (db_topics b) topic = None) then Some 3
  else if match db_cluster b with Some c => negb (owns (cv_coordinator c) topic index) | None => false end
  then Some 6
  else if authz (Resource_topic topic) Read then None else Some 29.

(** [read_one]; [fault]: the engine's read fails with this error. *)
Definition read_one (fault : Key → option StorageError) (authz : Resource → Operation → bool)
    (b : DataBroker) (topic : string) (p : Fetch.Partition) (read_committed : bool) : Fetch.PartitionResponse :=
  let index := Fetch.partition_index p in
  let k : Key := (topic, index) in
  match gate authz b topic index with
  | Some code => error_partition index code
  | None =>
    let e := db_engine b in
    let hwm := engine_high_watermark e k in
    let lso := engine_lso e k in
    let read_cap := if read_committed then lso else hwm in
    let max_bytes := Z.to_nat (Z.max (Fetch.partition_max_bytes p) 0) in
    let read : result StorageError (list byte) :=
      if read_committed && (lso <=? Fetch.fetch_offset p) then Ok []
      else match fault k with
           | Some err => Err err
           | None => Ok (engine_read e k (Fetch.fetch_offset p) max_bytes)
           end in
    match read with
    | Err err => error_partition index (read_error_code err)
    | Ok bytes =>
      let '(bytes, aborted) :=
        if read_committed then
          (trim_to_offset bytes read_cap,
           (λ a, {| Fetch.producer_id := ab_producer_id a;
                    Fetch.first_offset := TxnIndex.first_offset a |})
             <$> engine_aborted e k (Fetch.fetch_offset p) read_cap)
        else (bytes, []) in
      {| Fetch.p_partition_index := index; Fetch.error_code := 0; Fetch.high_watermark := hwm;
         Fetch.last_stable_offset := lso; Fetch.p_log_start_offset := engine_log_start e k;
         Fetch.aborted_transactions := aborted; Fetch.preferred_read_replica := -1;
         Fetch.records := if decide (bytes = []) then None else Some bytes |}
    end
  end.

Definition handle (fault : Key → option StorageError) (authz : Resource → Operation → bool) (throttle : Z)
    (b : DataBroker) (version : Z) (body : list byte) : enc :=
  match Fetch.decode_request version body with
  | Err err => Err err
  | Ok (req, _) =>
    let read_committed := Fetch.isolation_level req =? 1 in
    Fetch.encode_response
      {| Fetch.throttle_time_ms := throttle; Fetch.r_error_code := 0; Fetch.r_session_id := 0;
         Fetch.responses :=
           (λ t, {| Fetch.t_name := Fetch.name t;
                    Fetch.t_partitions :=
                      (λ p, read_one fault authz b (Fetch.name t) p read_committed) <$> Fetch.partitions t |})
             <$> Fetch.topics req |} version
  end.

End FetchHandler.

(** ** ListOffsets *)

Module ListOffsetsHandler.

Definition TS_EARLIEST : Z := -2.
Definition TS_LATEST : Z := -1.

Definition error_partition (partition_index error_code : Z) : ListOffsets.PartitionResponse :=
  {| ListOffsets.p_partition_index := partition_index; ListOffsets.error_code := error_code;
     ListOffsets.p_timestamp := -1; ListOffsets.offset := -1; ListOffsets.leader_epoch := -1 |}.

(** [engine.offset_for_timestamp] answers the sentinel. *)
Definition offset_for_timestamp (e : Engine) (k : Key) (timestamp_ms : Z) : result StorageError (Z * Z) :=
  Ok (-1, -1).

Definition resolve_one (b : DataBroker) (topic : string) (p : ListOffsets.Partition) : ListOffsets.PartitionResponse :=
  let index := ListOffsets.partition_index p in
  let k : Key := (topic, index) in
  let answer ts off :=
    {| ListOffsets.p_partition_index := index; ListOffsets.error_code := 0;
       ListOffsets.p_timestamp := ts; ListOffsets.offset := off; ListOffsets.leader_epoch := 0 |} in
  if bool_decide (get (db_topics b) topic = None) then error_partition index 3
  else if ListOffsets.timestamp p =? TS_EARLIEST then answer (-1) (engine_log_start (db_engine b) k)
  else if ListOffsets.timestamp p =? TS_LATEST then answer (-1) (engine_high_watermark (db_engine b) k)
  else match offset_for_timestamp (db_engine b) k (ListOffsets.timestamp p) with
       | Ok (off, matched_ts) => answer matched_ts off
       | Err UnknownTopicOrPartition => error_partition index 3
       | Err _ => answer (-1) (-1)
       end.

Definition handle (b : DataBroker) (version : Z) (body : list byte) : enc :=
  match ListOffsets.decode_request version body with
  | Err err => Err err
  | Ok (req, _) =>
    ListOffsets.encode_response
      {| ListOffsets.throttle_time_ms := 0;
         ListOffsets.r_topics :=
           (λ t, {| ListOffsets.t_name := ListOffsets.name t;
                    ListOffsets.t_partitions := resolve_one b (ListOffsets.name t) <$> ListOffsets.partitions t |})
             <$> ListOffsets.topics req |} version
  end.

End ListOffsetsHandler.

(** ** DeleteRecords *)

Module DeleteRecordsHandler.

Definition result_of (index low_watermark error_code : Z) : DeleteRecords.DeleteRecordsPartitionResult :=
  {| DeleteRecords.p_partition_index := index; DeleteRecords.low_watermark := low_watermark;
     DeleteRecords.error_code := error_code |}.

(** One partition of the loop. *)
Definition delete_one (env : StorageEnv) (authorized : bool) (b : DataBroker) (v : LogVolume) (topic : string)
    (p : DeleteRecords.DeleteRecordsPartition) : DataBroker * LogVolume * DeleteRecords.DeleteRecordsPartitionResult :=
  let index := DeleteRecords.partition_index p in
  let k : Key := (topic, index) in
  if negb authorized then (b, v, result_of index (-1) 29)
  else if match db_cluster b with Some c => negb (owns (cv_coordinator c) topic index) | None => false end
  then (b, v, result_of index (-1) 6)
  else
    let '(e, v, r) :=
      engine_delete_records (se_cfg env) (se_crc env) (se_crc_append env) (se_placement env)
        (se_identity env) (db_engine b) v k (DeleteRecords.offset p) in
    (with_engine b e, v,
     match r with
     | Ok low => result_of index low 0
     | Err OffsetOutOfRange => result_of index (-1) 1
     | Err _ => result_of index (-1) 3
     end).

Fixpoint delete_partitions (env : StorageEnv) (authorized : bool) (topic : string) (b : DataBroker) (v : LogVolume)
    (ps : list DeleteRecords.DeleteRecordsPartition) :
    DataBroker * LogVolume * list DeleteRecords.DeleteRecordsPartitionResult :=
  match ps with
  | [] => (b, v, [])
  | p :: ps' =>
    let '(b, v, r) := delete_one env authorized b v topic p in
    let '(b, v, rs) := delete_partitions env authorized topic b v ps' in
    (b, v, r :: rs)
  end.

Fixpoint delete_topics (env : StorageEnv) (authz : Resource → Operation → bool) (b : DataBroker) (v : LogVolume)
    (ts : list DeleteRecords.DeleteRecordsTopic) :
    DataBroker * LogVolume * list DeleteRecords.DeleteRecordsTopicResult :=
  match ts with
  | [] => (b, v, [])
  | t :: ts' =>
    let authorized := authz (Resource_topic (DeleteRecords.name t)) Delete in
    let '(b, v, rs) := delete_partitions env authorized (DeleteRecords.name t) b v (DeleteRecords.partitions t) in
    let '(b, v, out) := delete_topics env authz b v ts' in
    (b, v, {| DeleteRecords.t_name := DeleteRecords.name t; DeleteRecords.t_partitions := rs |} :: out)
  end.

Definition handle (env : StorageEnv) (authz : Resource → Operation → bool) (b : DataBroker) (v : LogVolume)
    (version : Z) (body : list byte) : DataBroker * LogVolume * enc :=
  match DeleteRecords.decode_request version body with
  | Err err => (b, v, Err err)
  | Ok (req, _) =>
    let '(b, v, rs) := delete_topics env authz b v (DeleteRecords.topics req) in
    (b, v, DeleteRecords.encode_response
       {| DeleteRecords.throttle_time_ms := 0; DeleteRecords.r_topics := rs |} version)
  end.

End DeleteRecordsHandler.

(** ** Lemmas: the gates *)

Lemma produce_gate_none authz now b topic i :
  ProduceHandler.gate authz now b topic i = None ↔
  is_Some (get (db_topics b) topic) ∧
  (∀ c, db_cluster b = Some c →
     owns (cv_coordinator c) topic i = true ∧ heartbeat_fresh_for_writes c now = true) ∧
  authz (Resource_topic topic) Write = true.
Proof.
  unfold ProduceHandler.gate. rewrite is_Some_alt.
  destruct (get (db_topics b) topic) as [m|]; simpl; [|naive_solver].
  destruct (db_cluster b) as [c|]; simpl; [|by destruct (authz _ _); naive_solver].
  destruct (owns _ _ _) eqn:Eo; simpl; [|naive_solver congruence].
  destruct (heartbeat_fresh_for_writes c now) eqn:Eh; simpl; [|naive_solver congruence].
  destruct (authz _ _); naive_solver.
Qed.

Lemma produce_gate_code authz now b topic i code :
  ProduceHandler.gate authz now b topic i = Some code → code ∈ [3; 6; 29].
Proof.
  unfold ProduceHandler.gate. case_bool_decide; [intros [= <-]; set_solver|].
  destruct (db_cluster b) as [c|]; simpl.
  - destruct (owns _ _ _); simpl; [|intros [= <-]; set_solver].
    destruct (heartbeat_fresh_for_writes c now); simpl; [|intros [= <-]; set_solver].
    destruct (authz _ _); [done|intros [= <-]; set_solver].
  - destruct (authz _ _); [done|intros [= <-]; set_solver].
Qed.

Lemma fetch_gate_none authz b topic i :
  FetchHandler.gate authz b topic i = None ↔
  is_Some (get (db_topics b) topic) ∧
  (∀ c, db_cluster b = Some c → owns (cv_coordinator c) topic i = true) ∧
  authz (Resource_topic topic) Read = true.
Proof.
  unfold FetchHandler.gate. rewrite is_Some_alt.
  destruct (get (db_topics b) topic) as [m|]; simpl; [|naive_solver].
  destruct (db_cluster b) as [c|]; simpl; [|by destruct (authz _ _); naive_solver].
  destruct (owns _ _ _) eqn:Eo; simpl; [|naive_solver congruence].
  destruct (authz _ _); naive_solver.
Qed.

(** ** Lemmas: appending and reading through the engine *)

(** An open partition is not reopened. *)
Lemma ensure_open_here cfg crc crca pl id e v k rp :
  k ∉ migrating e → partitions e !! k = Some rp →
  ensure_open cfg crc crca pl id e v k = (e, v, Ok rp).
Proof. intros Hm Hp. unfold ensure_open. by rewrite bool_decide_eq_false_2, Hp. Qed.

Lemma set_partition_lookup e k root p : partitions (set_partition e k root p) !! k = Some (root, p).
Proof. apply lookup_insert_eq. Qed.

Lemma create_partition_open cfg crc crca pl id e v k e' v' :
  create_partition cfg crc crca pl id e v k = (e', v', Ok tt) →
  ∃ root p, partitions e' !! k = Some (root, p) ∧ k ∉ migrating e'.
Proof.
  unfold create_partition, ensure_open.
  case_bool_decide; [done|]. destruct (partitions e !! k) as [[root p]|] eqn:Ep.
  - intros [= <- <-]. by exists root, p.
  - destruct (identity_permits_open _ _ _ _); [|done].
    destruct (open_partition _ _ _) as [d [p|]]; [|done].
    intros [= <- <-]. eexists _, p. split; [apply set_partition_lookup|done].
Qed.

Lemma append_with_inv env acks e v k epoch batch root p e' v' base :
  k ∉ migrating e → partitions e !! k = Some (root, p) →
  append_with env acks e v k epoch batch = (e', v', Ok base) →
  ∃ p' t, append (se_pcfg env k) (se_age env k) epoch batch p = (p', Ok (base, t)) ∧
    (acks = -1 → t = true → se_flushed env k = true) ∧
    e' = set_partition e k root p'.
Proof.
  intros Hm Hp. unfold append_with, append_acked, engine_append.
  rewrite (ensure_open_here _ _ _ _ _ _ _ _ _ Hm Hp).
  destruct (append _ _ _ _ _) as [p' [[o t]|err]]; destruct (Z.eqb_spec acks (-1)) as [->|];
    try done.
  - destruct t, (se_flushed env k); simpl; intros [= <- _ <-]; exists p'; eauto; naive_solver.
  - intros [= <- _ <-]. exists p', t. split_and!; done.
Qed.

(** Every batch a partition holds ends below the high watermark. *)
Lemma closed_below ab ms l : closed_ok ab ms l → Forall (λ b, last_off b < ab) l.
Proof.
  induction 1 as [|m ms bs l Hm H0 He Hc IH]; [constructor|]. apply Forall_app. split; [|done].
  assert (in_order (base_offset m) bs) as Ho by apply Hm.
  destruct (next_base_ge _ _ _ (next_base ms ab) Hc ltac:(lia)) as [? ?].
  apply Forall_forall. intros b Hb. pose proof (in_order_last _ _ _ Ho Hb). lia.
Qed.

Lemma holds_below p l : holds p l → Forall (λ b, last_off b < high_water p) l.
Proof.
  intros (lc & la & -> & Hc & Ha & H0 & Hw).
  assert (in_order (meta_base (active p)) la) as Ho by apply Ha.
  pose proof (log_end_ge _ _ Ho) as Hge. apply Forall_app. split.
  - eapply Forall_impl; [by eapply closed_below|]. simpl. intros b Hb. lia.
  - apply Forall_forall. intros b Hb. pose proof (in_order_last _ _ _ Ho Hb). lia.
Qed.

Lemma wanted_tail l start b :
  Forall (λ b, last_off b < start) l → start ≤ last_off b → wanted start (l ++ [b]) = [b].
Proof.
  intros Hl Hb. rewrite wanted_app. replace (wanted start l) with (@nil (list byte)).
  - unfold wanted. rewrite filter_cons_True by done. done.
  - symmetry. unfold wanted. induction Hl as [|x l Hx _ IH]; [done|].
    rewrite filter_cons_False; [done|lia].
Qed.

(** A batch just appended is what a read at its offset returns. *)
Lemma read_new_batch p p' l batch low max :
  holds p' (l ++ [rewrite_base batch (high_water p)]) →
  holds p l → valid_batch batch → high_water p + delta_of batch < i64_max →
  0 ≤ high_water p → log_start p' ≤ high_water p →
  0 ≤ low ≤ high_water p → low ≤ next_base (closed p') (meta_base (active p')) →
  high_water p' - low < 2147483648 → (length batch ≤ max)%nat →
  read p' (high_water p) max = rewrite_base batch (high_water p).
Proof.
  intros Hh' Hh Hv Hm H0 Hls Hlow Hnb Hspan Hmax.
  destruct (rewrite_base_offsets batch (high_water p) Hv H0 Hm) as (_ & _ & Hlo).
  pose proof (proj1 Hv) as Hlen. pose proof (proj2 (proj2 Hv)) as Hd. fold (delta_of batch) in Hd.
  assert (length (rewrite_base batch (high_water p)) = length batch) as Hrl
    by (apply length_rewrite_base; lia).
  rewrite (read_ok _ _ low _ _ Hh') by lia. rewrite Z.max_l by lia.
  rewrite (wanted_tail l); [|by apply holds_below|lia].
  simpl. destruct (Nat.ltb_spec 0 max); [|lia]. apply take_ge. lia.
Qed.

(** ** Lemmas: trimming to the last stable offset *)

Lemma take_fill max out bs :
  (length out ≤ max)%nat → take max (fill max out bs) = take max (out ++ concat bs).
Proof.
  revert out. induction bs as [|b bs IH]; intros out Hl; simpl; [by rewrite app_nil_r|].
  destruct (Nat.ltb_spec (length out) max) as [Hlt|Hge].
  - destruct (decide (length (out ++ b) ≤ max)%nat) as [|Hg]; [by rewrite IH, <- app_assoc|].
    rewrite fill_full by lia. rewrite (app_assoc out).
    by rewrite (take_app_le (out ++ b)) by lia.
  - by rewrite take_app_le by lia.
Qed.

(** The three header fields of a batch whose first 27 bytes follow [pre]. *)
Lemma header_fields pre b rest m off n :
  (27 ≤ length b)%nat → (27 ≤ m)%nat → (off + n ≤ 27)%nat →
  slice (length pre + off) n (pre ++ take m (b ++ rest)) = slice off n b.
Proof.
  intros Hb Hm Hn. unfold slice. rewrite drop_app_add.
  rewrite (skipn_firstn_comm off m), take_take, Nat.min_l by lia.
  by rewrite drop_app_le, take_app_le by (rewrite ?length_drop; lia).
Qed.

Lemma last_off_exact b :
  (27 ≤ length b)%nat → 0 ≤ first_off b ≤ last_off b →
  Z.max (- i64_max - 1) (Z.min i64_max (first_off b + sbe (slice 23 4 b))) = last_off b.
Proof.
  intros Hb [H0 Hle]. unfold last_off in *. set (d := sbe (slice 23 4 b)) in *.
  pose proof (read_be_i32_range b 23 ltac:(lia)) as Hd. unfold read_be_i32, i32_ok in Hd. fold d in Hd.
  destruct (wrap_s_shift 64 (first_off b + d)) as [j Hj]; [lia|].
  pose proof (wrap_s_range 64 (first_off b + d) ltac:(lia)) as Hr. simpl in Hr.
  change (2 ^ 64) with 18446744073709551616 in Hj. unfold i64_max in *. lia.
Qed.

(** Of the first [m] bytes of whole batches, trimming keeps the batches that end
    below the cap, up to the first that does not or that the limit has cut; when the
    limit leaves fewer than 27 bytes of a batch, these stay behind the whole ones. *)
Lemma trim_loop_spec bs fuel pre m cap :
  Forall (λ b, readable b ∧ 0 ≤ first_off b ≤ last_off b) bs →
  (length (take m (concat bs)) < fuel)%nat →
  ∃ n frag, FetchHandler.trim_loop fuel (pre ++ take m (concat bs)) (length pre) cap =
      pre ++ concat (take n bs) ++ frag ∧
    Forall (λ b, last_off b < cap) (take n bs) ∧
    (frag = [] ∨ (length frag < 27)%nat ∧ (length (concat (take n bs)) + length frag = m)%nat ∧
       ∃ b, bs !! n = Some b ∧ frag `prefix_of` b) ∧
    (∀ b, bs !! n = Some b → cap ≤ last_off b ∨ (m < length (concat (take (S n) bs)))%nat).
Proof.
  intros Hbs. revert fuel pre m. induction Hbs as [|b bs [[H27 Hlen] Hoff] _ IH];
    intros fuel pre m Hfuel; (destruct fuel as [|fuel]; [lia|]); cbn [FetchHandler.trim_loop].
  { exists 0%nat, []. simpl concat. rewrite !take_nil, !app_nil_r.
    destruct (Nat.leb_spec (length pre + 27) (length pre)); [lia|].
    split_and!; [done|constructor|by left|done]. }
  simpl concat in *. rewrite length_app.
  destruct (Nat.leb_spec (length pre + 27) (length pre + length (take m (b ++ concat bs)))) as [Hm|Hm].
  2:{ exists 0%nat, (take m (b ++ concat bs)). rewrite length_take, !length_app in Hm.
      split_and!; [done|constructor| |].
      { right. rewrite length_take, length_app. split_and!; [lia|simpl; lia|]. exists b. split; [done|].
        rewrite take_app_le by lia. apply prefix_take. }
      intros x [= <-]. right. simpl. rewrite length_take, !length_app in *. simpl. lia. }
  rewrite length_take in Hm. assert (27 ≤ m)%nat as H27m by lia.
  pose proof (header_fields pre b (concat bs) m 0 8 H27 H27m ltac:(lia)) as Hfo.
  rewrite Nat.add_0_r in Hfo. rewrite Hfo, !header_fields by lia. fold (first_off b).
  rewrite last_off_exact by done.
  destruct (Z.leb_spec cap (last_off b)) as [Hcap|Hcap].
  { exists 0%nat, []. rewrite take_app_length. split_and!; [by rewrite app_nil_r|constructor|by left|].
    intros x [= <-]. by left. }
  assert ((length pre + (12 + Z.to_nat (Z.max (sbe (slice 8 4 b)) 0)))%nat = length (pre ++ b)) as ->
    by (rewrite length_app; lia).
  rewrite length_app, length_take, !length_app. 
  destruct (Nat.leb_spec (length pre + length b) (length pre)); [lia|]. simpl orb.
  destruct (Nat.ltb_spec (length pre + m `min` (length b + length (concat bs))) (length pre + length b)) as [Hcut|Hfit].
  { exists 0%nat, []. rewrite take_app_length. split_and!; [by rewrite app_nil_r|constructor|by left|].
    intros x [= <-]. right. simpl. rewrite app_nil_r. lia. }
  assert (pre ++ take m (b ++ concat bs) = (pre ++ b) ++ take (m - length b) (concat bs)) as ->
    by (rewrite take_app_ge by lia; by rewrite app_assoc).
  rewrite <- length_app.
  destruct (IH fuel (pre ++ b) (m - length b)%nat) as (n & frag & -> & Hf & Hfr & Hnext).
  { rewrite length_take in *. rewrite length_app in Hfuel. lia. }
  exists (S n), frag. simpl. rewrite <- !app_assoc. split_and!; [done|by constructor| |].
  { destruct Hfr as [|(? & ? & ?)]; [by left|right]. split_and!; [done|rewrite length_app; lia|done]. }
  intros x Hx. destruct (Hnext x Hx) as [|Hl]; [by left|right].
  simpl in Hl. rewrite length_app. lia.
Qed.

Lemma segment_batches s bs :
  segment_ok s bs → 0 ≤ meta_base s → Forall (λ b, readable b ∧ 0 ≤ first_off b ≤ last_off b) bs.
Proof.
  intros (_ & _ & _ & Hr & Ho & _) H0. revert Ho H0. generalize (meta_base s) as n.
  induction Hr as [|b bs Hb _ IH]; intros n Ho H0; [constructor|].
  destruct Ho as (? & ? & Ho). constructor; [split; [done|lia]|]. apply (IH _ Ho). lia.
Qed.

Lemma holds_batches p l :
  holds p l → Forall (λ b, readable b ∧ 0 ≤ first_off b ≤ last_off b) l.
Proof.
  intros (lc & la & -> & Hc & Ha & H0 & _). apply Forall_app. split.
  - clear Ha H0. induction Hc as [|m ms bs l Hm H0 He Hc IH]; [constructor|].
    apply Forall_app. split; [|done]. by apply (segment_batches _ _ Hm).
  - by apply (segment_batches _ _ Ha).
Qed.

(** ** Properties *)

(** What an acknowledged produce means: the broker knows the topic, leads the
    partition, has heard from the controller within three seconds if the
    self-fence is armed, and the principal may write; the batch is within the size
    limit, the partition appended it under the leader's epoch and answered the
    offset in the response, and with [acks = -1] the flush it triggered
    succeeded.  A request that fails one of the checks leaves the broker and the
    volume as they were. *)
Theorem produce_acknowledged env max authz now b v topic pd acks b' v' r :
  ProduceHandler.append_one env max authz now b v topic pd acks = (b', v', r) →
  (∀ code, ProduceHandler.gate authz now b topic (Produce.index pd) = Some code →
     b' = b ∧ v' = v ∧ Produce.error_code r = code ∧ code ≠ 0) ∧
  (Produce.error_code r = 0 →
   is_Some (get (db_topics b) topic) ∧
   authz (Resource_topic topic) Write = true ∧
   (∀ c, db_cluster b = Some c →
      owns (cv_coordinator c) topic (Produce.index pd) = true ∧
      (self_fence c = true → ∃ t, last_heartbeat c = Some t ∧ now - t ≤ 3000)) ∧
   (∀ batch, Produce.records pd = Some batch →
      Z.of_nat (length batch) ≤ max ∧
      ∃ root p p' t,
        append (se_pcfg env (topic, Produce.index pd)) (se_age env (topic, Produce.index pd))
          (write_epoch b (topic, Produce.index pd)) batch p = (p', Ok (Produce.base_offset r, t)) ∧
        partitions (db_engine b') !! (topic, Produce.index pd) = Some (root, p') ∧
        (acks = -1 → t = true → se_flushed env (topic, Produce.index pd) = true))).
Proof.
  unfold ProduceHandler.append_one. set (k := (topic, Produce.index pd)).
  destruct (ProduceHandler.gate _ _ _ _ _) as [code|] eqn:Eg.
  { intros [= <- <- <-]. cbn [Produce.error_code ProduceHandler.error_partition].
    apply produce_gate_code in Eg. split; [|intros ->; set_solver].
    intros ? [= <-]. split_and!; [done..|]. intros ->. set_solver. }
  apply produce_gate_none in Eg as (Ht & Hc & Ha). intros Hr. split; [done|]. intros H0.
  split; [done|]. split; [done|]. split.
  { intros c Hc'. destruct (Hc c Hc') as [Ho Hf]. split; [done|]. intros Hs.
    revert Hf. unfold heartbeat_fresh_for_writes, is_heartbeat_fresh, DEFAULT_HEARTBEAT_TIMEOUT.
    rewrite Hs. destruct (last_heartbeat c) as [t|]; [|done]. intros ?%Z.leb_le. exists t. split; [done|lia]. }
  intros batch Hb. revert Hr. rewrite Hb.
  destruct (Z.ltb_spec max (Z.of_nat (length batch))) as [|Hmax]; [by intros [= _ _ <-]|].
  intros Hr. split; [done|]. revert Hr.
  destruct (create_partition _ _ _ _ _ _ _ _) as [[e1 v1] [[]|err]] eqn:Ecr.
  2:{ intros [= <- <- <-]. by destruct err. }
  destruct (create_partition_open _ _ _ _ _ _ _ _ _ _ Ecr) as (root & p & Hp & Hm).
  destruct (append_with _ _ _ _ _ _ _) as [[e2 v2] [base|err]] eqn:Eap.
  2:{ intros [= <- <- <-]. by destruct err. }
  intros [= <- <- <-]. destruct (append_with_inv _ _ _ _ _ _ _ _ _ _ _ _ Hm Hp Eap)
    as (p' & t & Hap & Hfl & ->).
  exists root, p, p', t. split; [done|]. split; [apply set_partition_lookup|done].
Qed.

(** Nothing below the first segment moves. *)
Lemma append_next_base cfg age epoch batch p p' r :
  valid_batch batch → append cfg age epoch batch p = (p', Ok r) →
  next_base (closed p') (meta_base (active p')) = next_base (closed p) (meta_base (active p)) ∧
  log_start p' = log_start p.
Proof.
  intros Hv. assert (∀ q acc, commit_batch cfg q batch acc = (p', Ok r) →
    closed p' = closed q ∧ meta_base (active p') = meta_base (active q) ∧ log_start p' = log_start q) as Hc.
  { intros q acc. unfold commit_batch. destruct (length batch <? 8)%nat; [done|].
    destruct (parse_batch_offsets _) as [[[? ?] ?]|]; [|done].
    destruct (append_batch _ _ _) as [a [[]|]] eqn:Ea; [|done].
    destruct (txn_bookkeeping _ _ _ _) as [? ?]. intros [= <- _]. split_and!; [done| |done].
    revert Ea. unfold append_batch. repeat (case_match; try done); intros [= <-]; done. }
  assert (next_base (closed (roll_if_needed cfg age p batch)) (meta_base (active (roll_if_needed cfg age p batch))) =
      next_base (closed p) (meta_base (active p)) ∧
    log_start (roll_if_needed cfg age p batch) = log_start p) as [Hr1 Hr2].
  { unfold roll_if_needed. case_match; [|done]. simpl. split; [|done]. by destruct (closed p). }
  unfold append. repeat (case_match; try done); try (intros [=]; subst; done);
    intros (-> & -> & ->)%Hc; done.
Qed.

(** One partition of a produce request that is not a retry, when the partition is
    open: refused, or appended behind the log. *)
Lemma append_one_open env max authz now b v topic pd acks b' v' r root p l batch :
  let k : Key := (topic, Produce.index pd) in
  ProduceHandler.append_one env max authz now b v topic pd acks = (b', v', r) →
  partitions (db_engine b) !! k = Some (root, p) → k ∉ migrating (db_engine b) →
  well_formed p l → Produce.records pd = Some batch → valid_batch batch →
  high_water p + delta_of batch < i64_max → Z.of_nat (length (concat l) + length batch) ≤ u64_max →
  (∀ info o, prod_info batch = Some info → classify (producer_states p) info ≠ Duplicate o) →
  (∃ code, r = ProduceHandler.error_partition (Produce.index pd) code ∧ i16_ok code ∧ code ≠ 0) ∨
  (r = ProduceHandler.ok_partition (Produce.index pd) (high_water p) (log_start p) ∧
   db_topics b' = db_topics b ∧ db_cluster b' = db_cluster b ∧
   (∀ c, db_cluster b = Some c → owns (cv_coordinator c) topic (Produce.index pd) = true) ∧
   is_Some (get (db_topics b) topic) ∧
   ∃ p', partitions (db_engine b') !! k = Some (root, p') ∧ log_start p' = log_start p ∧
     next_base (closed p') (meta_base (active p')) = next_base (closed p) (meta_base (active p)) ∧
     holds p' (l ++ [rewrite_base batch (high_water p)]) ∧ open_below p' ∧
     high_water p' = high_water p + delta_of batch + 1).
Proof.
  intros k Hap Hp Hm (Hh & _ & Hob) Hb Hv Hmax Hsz Hfresh. revert Hap. unfold ProduceHandler.append_one.
  fold k. rewrite Hb.
  assert (∀ b1 v1 code, i16_ok code → code ≠ 0 →
    (b1, v1, ProduceHandler.error_partition (Produce.index pd) code) = (b', v', r) →
    ∃ code, r = ProduceHandler.error_partition (Produce.index pd) code ∧ i16_ok code ∧ code ≠ 0) as Herr
    by (intros ? ? code ? ? [= _ _ <-]; by exists code).
  assert (∀ err, i16_ok (ProduceHandler.error_code_of err) ∧ ProduceHandler.error_code_of err ≠ 0) as Hcode
    by (intros []; simpl; range).
  destruct (ProduceHandler.gate _ _ _ _ _) as [code|] eqn:Eg.
  { apply produce_gate_code in Eg. intros H. left. revert H. apply Herr.
    - set_unfold. destruct_or!; subst; range.
    - intros ->. set_solver. }
  apply produce_gate_none in Eg as (Ht & Hc & _).
  destruct (max <? Z.of_nat (length batch)); [intros H; left; eapply Herr, H; range || lia|].
  unfold create_partition. rewrite (ensure_open_here _ _ _ _ _ _ _ _ _ Hm Hp).
  destruct (append_with _ _ _ _ _ _ _) as [[e2 v2] [base|err]] eqn:Eap.
  2:{ intros H. left. eapply Herr, H; apply Hcode. }
  intros [= <- <- <-]. right.
  destruct (append_with_inv _ _ _ _ _ _ _ _ _ _ _ _ Hm Hp Eap) as (p' & t & Ha & _ & ->).
  destruct (append_next_base _ _ _ _ _ _ _ Hv Ha) as [Hnb Hls].
  destruct (append_holds _ _ _ _ _ _ _ _ _ Hh Hv Hmax Hsz Ha) as [[_ (info & Hi & Hdup)]|(-> & Hh' & Hw)].
  { by destruct (Hfresh info base Hi). }
  split_and!; [|done|done|by intros; apply Hc|done|].
  - f_equal. unfold engine_log_start. by rewrite set_partition_lookup.
  - exists p'. split_and!; try done; [apply set_partition_lookup|].
    by eapply open_below_step, ps_append.
Qed.

Import Common.

(** A client's requests for one partition. *)
Definition one_produce (topic : string) (i acks timeout : Z) (batch : list byte) : Produce.Request :=
  {| Produce.transactional_id := None; Produce.acks := acks; Produce.timeout_ms := timeout;
     Produce.topic_data :=
       [{| Produce.name := topic;
           Produce.partition_data := [{| Produce.index := i; Produce.records := Some batch |}] |}] |}.

Definition one_fetch (topic : string) (i offset max_bytes isolation : Z) : Fetch.Request :=
  {| Fetch.replica_id := -1; Fetch.max_wait_ms := 500; Fetch.min_bytes := 1; Fetch.max_bytes := i32_max;
     Fetch.isolation_level := isolation; Fetch.session_id := 0; Fetch.session_epoch := -1;
     Fetch.topics :=
       [{| Fetch.name := topic;
           Fetch.partitions :=
             [{| Fetch.partition_index := i; Fetch.current_leader_epoch := -1; Fetch.fetch_offset := offset;
                 Fetch.last_fetched_epoch := -1; Fetch.log_start_offset := -1;
                 Fetch.partition_max_bytes := max_bytes |}] |}];
     Fetch.forgotten_topics := []; Fetch.rack_id := ""%string |}.

Definition one_produced (topic : string) (throttle : Z) (r : Produce.PartitionResponse) : Produce.Response :=
  {| Produce.responses := [{| Produce.t_name := topic; Produce.partition_responses := [r] |}];
     Produce.throttle_time_ms := throttle |}.

Definition one_fetched (topic : string) (throttle : Z) (r : Fetch.PartitionResponse) : Fetch.Response :=
  {| Fetch.throttle_time_ms := throttle; Fetch.r_error_code := 0; Fetch.r_session_id := 0;
     Fetch.responses := [{| Fetch.t_name := topic; Fetch.t_partitions := [r] |}] |}.

Lemma one_produce_decodes pv topic i acks timeout batch body :
  wire_str topic → i32_ok i → i16_ok acks → i32_ok timeout → wire_len batch →
  Produce.request_wire (one_produce topic i acks timeout batch) pv = Ok body →
  Produce.decode_request pv body = Ok (one_produce topic i acks timeout batch, []).
Proof.
  intros Ht Hi Ha Hto Hb He.
  assert (Produce.request_ok pv (one_produce topic i acks timeout batch)) as Hok.
  { split; [by intros ?|]. split; [by intros ?|]. split_and!; [done..|by vm_compute|].
    apply Forall_singleton. split; [exact Ht|]. split; [by vm_compute|].
    apply Forall_singleton. split; [exact Hi|]. by intros ? [= <-]. }
  exact (msg_decode pv (one_produce topic i acks timeout batch) body Hok He).
Qed.

(** The wire around [append_one] and [read_one]. *)
Lemma produce_one_wire env max authz now throttle b v topic i acks timeout batch pv body :
  wire_str topic → i32_ok i → i16_ok acks → i32_ok timeout → wire_len batch →
  Produce.request_wire (one_produce topic i acks timeout batch) pv = Ok body →
  ProduceHandler.handle env max authz now throttle b v pv body =
    let '(b', v', r) := ProduceHandler.append_one env max authz now b v topic
                          {| Produce.index := i; Produce.records := Some batch |} acks in
    (b', v', Produce.encode_response (one_produced topic throttle r) pv).
Proof.
  intros Ht Hi Ha Hto Hb He. unfold ProduceHandler.handle.
  rewrite (one_produce_decodes pv topic i acks timeout batch body) by assumption. cbn.
  by destruct (ProduceHandler.append_one _ _ _ _ _ _ _ _ _) as [[b1 v1] r].
Qed.

Lemma fetch_one_wire fault authz throttle b topic i offset max_bytes isolation fv body :
  4 ≤ fv → wire_str topic → i32_ok i → i64_ok offset → i32_ok max_bytes → i8_ok isolation →
  Fetch.request_wire (one_fetch topic i offset max_bytes isolation) fv = Ok body →
  ∃ p, Fetch.partition_index p = i ∧ Fetch.fetch_offset p = offset ∧
    Fetch.partition_max_bytes p = max_bytes ∧
  FetchHandler.handle fault authz throttle b fv body =
    Fetch.encode_response
      (one_fetched topic throttle (FetchHandler.read_one fault authz b topic p (isolation =? 1))) fv.
Proof.
  intros Hv Ht Hi Ho Hm Hl He.
  assert (Fetch.request_ok fv (one_fetch topic i offset max_bytes isolation)) as Hok.
  { cbn. split_and!; try range; try by intros ?.
    - by vm_compute.
    - intros ?%Z.leb_gt. lia.
    - apply Forall_singleton. split; [exact Ht|]. split; [by vm_compute|].
      apply Forall_singleton. split_and!; cbn; try range; by intros ?.
    - constructor.
    - split; [done|by vm_compute]. }
  pose proof (msg_decode fv (one_fetch topic i offset max_bytes isolation) body Hok He) as Hd. cbn in Hd.
  eexists _. unfold FetchHandler.handle. rewrite Hd. cbn. split_and!; [..|reflexivity]; done.
Qed.

Lemma one_produced_ok pv topic throttle i code base log_start :
  5 ≤ pv → wire_str topic → i32_ok throttle → i32_ok i → i16_ok code → i64_ok base → i64_ok log_start →
  Produce.response_ok pv (one_produced topic throttle
    {| Produce.p_index := i; Produce.error_code := code; Produce.base_offset := base;
       Produce.log_append_time_ms := -1; Produce.log_start_offset := log_start;
       Produce.record_errors := []; Produce.error_message := None |}).
Proof.
  intros Hv Ht Hth Hi Hc Hb Hl. split_and!; [by vm_compute| |done|intros ?%Z.leb_gt; lia].
  apply Forall_singleton. split; [exact Ht|]. split; [by vm_compute|].
  apply Forall_singleton. split_and!; cbn; try range; try by intros ?; by vm_compute.
  - intros ?%Z.leb_gt. lia.
  - constructor.
Qed.

Lemma one_fetched_ok fv topic throttle i code hwm lso log_start records :
  5 ≤ fv → wire_str topic → i32_ok throttle → i32_ok i → i16_ok code → i64_ok hwm → i64_ok lso →
  i64_ok log_start → wire_opt_bytes records →
  Fetch.response_ok fv (one_fetched topic throttle
    {| Fetch.p_partition_index := i; Fetch.error_code := code; Fetch.high_watermark := hwm;
       Fetch.last_stable_offset := lso; Fetch.p_log_start_offset := log_start;
       Fetch.aborted_transactions := []; Fetch.preferred_read_replica := -1; Fetch.records := records |}).
Proof.
  intros Hv Ht Hth Hi Hc Hh Hl Hs Hr.
  split_and!; [done|intros ?%Z.leb_gt; lia|range|range|by intros ?|by vm_compute|].
  apply Forall_singleton. split; [exact Ht|]. split; [by vm_compute|].
  apply Forall_singleton. split_and!; cbn; try range; try by intros ?.
  - intros ?%Z.leb_gt. lia.
  - intros ?%Z.leb_gt. lia.
  - constructor.
  - exact Hr.
Qed.

(** The client decodes what [append_one] answered. *)
Lemma produce_reply env max authz now b v b' v' topic pd acks r root p l batch pv throttle pbs presp :
  5 ≤ pv → wire_str topic → i32_ok (Produce.index pd) → i32_ok throttle →
  partitions (db_engine b) !! (topic, Produce.index pd) = Some (root, p) →
  (topic, Produce.index pd) ∉ migrating (db_engine b) →
  well_formed p l → Produce.records pd = Some batch → valid_batch batch →
  high_water p + delta_of batch < i64_max → Z.of_nat (length (concat l) + length batch) ≤ u64_max →
  (∀ info o, prod_info batch = Some info → classify (producer_states p) info ≠ Duplicate o) →
  ProduceHandler.append_one env max authz now b v topic pd acks = (b', v', r) →
  Produce.encode_response (one_produced topic throttle r) pv = Ok pbs →
  Produce.decode_response pv pbs = Ok (presp, []) → presp = one_produced topic throttle r.
Proof.
  intros Hpv Ht Hi Hth Hp Hmig Hwf Hrec Hval Hmax Hsz Hfresh Eap Henc Hpd.
  pose proof Hwf as (_ & Hls & _). pose proof (proj2 (proj2 Hval)) as Hd. fold (delta_of batch) in Hd.
  assert (Produce.response_ok pv (one_produced topic throttle r)) as Hok.
  { destruct (append_one_open _ _ _ _ _ _ _ _ _ _ _ _ _ _ _ _ Eap Hp Hmig Hwf Hrec Hval Hmax Hsz Hfresh)
      as [(code & -> & Hc & _)|(-> & _)]; apply one_produced_ok; (done || unfold i64_max in *; range). }
  pose proof (msg_decode pv (one_produced topic throttle r) pbs Hok Henc) as Hdec. cbn in Hdec.
  rewrite Hpd in Hdec. by injection Hdec.
Qed.

(** An uncommitted read of an open partition. *)
Lemma read_one_uncommitted authz b topic fp root p bytes :
  FetchHandler.gate authz b topic (Fetch.partition_index fp) = None →
  partitions (db_engine b) !! (topic, Fetch.partition_index fp) = Some (root, p) →
  read p (Fetch.fetch_offset fp) (Z.to_nat (Z.max (Fetch.partition_max_bytes fp) 0)) = bytes → bytes ≠ [] →
  FetchHandler.read_one (λ _, None) authz b topic fp false =
    {| Fetch.p_partition_index := Fetch.partition_index fp; Fetch.error_code := 0;
       Fetch.high_watermark := high_water p; Fetch.last_stable_offset := last_stable_offset p;
       Fetch.p_log_start_offset := log_start p; Fetch.aborted_transactions := [];
       Fetch.preferred_read_replica := -1; Fetch.records := Some bytes |}.
Proof.
  intros Hg Hp Hr Hne. unfold FetchHandler.read_one.
  rewrite Hg. unfold engine_high_watermark, engine_lso, engine_log_start, engine_read. rewrite Hp. cbn.
  rewrite Hr. by rewrite decide_False.
Qed.

Lemma holds_first_base p l :
  holds p l → 0 ≤ next_base (closed p) (meta_base (active p)) ≤ high_water p.
Proof.
  intros (lc & la & -> & Hc & Ha & H0 & Hw).
  assert (in_order (meta_base (active p)) la) as Ho by apply Ha. pose proof (log_end_ge _ _ Ho).
  destruct (next_base_ge _ _ _ _ Hc (Z.le_refl _)) as [_ ?]. split; [|lia].
  destruct Hc; done.
Qed.

Lemma lso_range p : open_below p → 0 ≤ last_stable_offset p ≤ high_water p.
Proof.
  intros [H0 Hb]. unfold last_stable_offset. pose proof (min_open_offset_spec (open_txns p)) as Hm.
  destruct (min_open_offset (open_txns p)) as [f|]; simpl; [|lia].
  destruct Hm as [[pid Hf] _]. specialize (Hb _ _ Hf). lia.
Qed.

(** C2. What is produced is fetched, byte for byte, over the wire: a client sends
    a batch that is not a retry; if the response says it was accepted, its offset
    is the old high watermark, and a Fetch request at that offset, with room for
    the batch, is answered with the batch rewritten to that offset and nothing
    else, and with the watermark behind it.  Encoding, dispatch of the fields,
    the gates, the append, a possible segment roll, the indexed read and the
    response codecs are all in the path. *)
Theorem produce_then_fetch env max authz now th1 th2 b v b' v' topic i acks timeout batch pv fv
    root p l max_bytes pbody fbody pbs presp :
  5 ≤ pv → 5 ≤ fv → wire_str topic → i32_ok i → i16_ok acks → i32_ok timeout → i32_ok max_bytes →
  i32_ok th1 → i32_ok th2 → wire_len batch →
  partitions (db_engine b) !! (topic, i) = Some (root, p) → (topic, i) ∉ migrating (db_engine b) →
  well_formed p l → valid_batch batch → high_water p + delta_of batch < i64_max →
  Z.of_nat (length (concat l) + length batch) ≤ u64_max →
  high_water p + delta_of batch + 1 - next_base (closed p) (meta_base (active p)) < 2147483648 →
  (∀ info o, prod_info batch = Some info → classify (producer_states p) info ≠ Duplicate o) →
  authz (Resource_topic topic) Read = true → Z.of_nat (length batch) ≤ max_bytes →
  Produce.request_wire (one_produce topic i acks timeout batch) pv = Ok pbody →
  ProduceHandler.handle env max authz now th1 b v pv pbody = (b', v', Ok pbs) →
  Produce.decode_response pv pbs = Ok (presp, []) →
  (∃ pr, presp = one_produced topic th1 pr ∧ Produce.error_code pr = 0) →
  Fetch.request_wire (one_fetch topic i (high_water p) max_bytes 0) fv = Ok fbody →
  presp = one_produced topic th1 (ProduceHandler.ok_partition i (high_water p) (log_start p)) ∧
  ∃ fbs fr, FetchHandler.handle (λ _, None) authz th2 b' fv fbody = Ok fbs ∧
    Fetch.decode_response fv fbs = Ok (one_fetched topic th2 fr, []) ∧
    Fetch.error_code fr = 0 ∧
    Fetch.high_watermark fr = high_water p + delta_of batch + 1 ∧
    Fetch.records fr = Some (rewrite_base batch (high_water p)).
Proof.
  intros Hpv Hfv Ht Hi Hac Hto Hmb Hth1 Hth2 Hbl Hp Hmig Hwf Hval Hmax Hsz Hspan Hfresh Hauth Hroom
    Hpw Hph Hpd (pr & Hpr & Hcode) Hfw.
  pose proof Hwf as (Hh & Hls & Hob). pose proof (proj2 (proj2 Hval)) as Hd. fold (delta_of batch) in Hd.
  rewrite (produce_one_wire _ _ _ _ _ _ _ _ _ _ _ _ _ _ Ht Hi Hac Hto Hbl Hpw) in Hph.
  destruct (ProduceHandler.append_one _ _ _ _ _ _ _ _ _) as [[b1 v1] r] eqn:Eap.
  injection Hph as -> -> Henc.
  rewrite (produce_reply _ _ _ _ _ _ _ _ _ {| Produce.index := i; Produce.records := Some batch |}
    _ _ _ _ _ _ _ _ _ _ Hpv Ht Hi Hth1 Hp Hmig Hwf eq_refl Hval Hmax Hsz Hfresh Eap Henc Hpd) in Hpr |- *.
  injection Hpr as ->.
  destruct (append_one_open _ _ _ _ _ _ _ _ _ _ _ _ _ _ _ _ Eap Hp Hmig Hwf eq_refl Hval Hmax Hsz Hfresh)
    as [(code & -> & _ & Hnz)|(-> & Htop & Hcl & Hown & Hget & p' & Hp' & Hls' & Hnb & Hh' & Hob' & Hw')]; [done|].
  split; [done|].
  destruct (fetch_one_wire (λ _, None) authz th2 b' topic i (high_water p) max_bytes 0 fv fbody)
    as (fp & Hfi & Hfo & Hfm & Hhandle);
    [lia|done|done|unfold i64_max in *; range|done|range|done|].
  rewrite Hhandle. clear Hhandle. change (0 =? 1) with false.
  pose proof (proj1 Hval) as H43. pose proof (holds_first_base _ _ Hh) as Hfb.
  assert (length (rewrite_base batch (high_water p)) = length batch) as Hrl
    by (apply length_rewrite_base; lia).
  assert (read p' (high_water p) (Z.to_nat (Z.max max_bytes 0)) = rewrite_base batch (high_water p)) as Hread.
  { eapply read_new_batch; [exact Hh'|exact Hh|exact Hval|exact Hmax|lia|lia|exact Hfb|
      rewrite Hnb; reflexivity|lia|lia]. }
  rewrite (read_one_uncommitted authz b' topic fp root p' (rewrite_base batch (high_water p))).
  - rewrite Hfi, Hls'. pose proof (lso_range _ Hob').
    destruct (msg_encodes fv (one_fetched topic th2
      {| Fetch.p_partition_index := i; Fetch.error_code := 0; Fetch.high_watermark := high_water p';
         Fetch.last_stable_offset := last_stable_offset p'; Fetch.p_log_start_offset := log_start p;
         Fetch.aborted_transactions := []; Fetch.preferred_read_replica := -1;
         Fetch.records := Some (rewrite_base batch (high_water p)) |})) as (bs & He & Hdec).
    { apply one_fetched_ok; try done; try (unfold i64_max in *; range).
      intros ? [= <-]. unfold wire_len. by rewrite Hrl. }
    exists bs. eexists _. split; [exact He|]. split; [exact Hdec|]. done.
  - apply fetch_gate_none. rewrite Htop, Hcl, Hfi. done.
  - by rewrite Hfi.
  - by rewrite Hfo, Hfm.
  - intros Hnil. rewrite Hnil in Hrl. simpl in Hrl. lia.
Qed.

(** C12. read_committed never shows an unstable record: the response is whole batches
    of the log, in order, each ending below the last stable offset.  It stops only at
    the last stable offset, at the byte limit or at the end of the log.  When the
    byte limit leaves fewer than 27 bytes of the next batch, those bytes, which are
    part of its header, follow the whole ones.  The response names the aborted
    transactions the index has for that range. *)
Theorem read_committed_stable authz b topic fp root p l low :
  let lso := last_stable_offset p in
  let start := Z.max (Fetch.fetch_offset fp) (log_start p) in
  let max := Z.to_nat (Z.max (Fetch.partition_max_bytes fp) 0) in
  FetchHandler.gate authz b topic (Fetch.partition_index fp) = None →
  partitions (db_engine b) !! (topic, Fetch.partition_index fp) = Some (root, p) →
  holds p l → 0 ≤ low → low ≤ next_base (closed p) (meta_base (active p)) → low ≤ start ≤ i64_max →
  high_water p - low < 2147483648 → Fetch.fetch_offset fp < lso →
  ∃ n frag,
    default [] (Fetch.records (FetchHandler.read_one (λ _, None) authz b topic fp true)) =
      concat (take n (wanted start l)) ++ frag ∧
    Forall (λ b, last_off b < lso) (take n (wanted start l)) ∧
    (frag = [] ∨ (length frag < 27)%nat ∧ (length (concat (take n (wanted start l))) + length frag = max)%nat ∧
       ∃ b, wanted start l !! n = Some b ∧ frag `prefix_of` b) ∧
    (∀ b, wanted start l !! n = Some b →
       lso ≤ last_off b ∨ (max < length (concat (take (S n) (wanted start l))))%nat) ∧
    Fetch.aborted_transactions (FetchHandler.read_one (λ _, None) authz b topic fp true) =
      (λ a, {| Fetch.producer_id := ab_producer_id a; Fetch.first_offset := TxnIndex.first_offset a |})
        <$> aborted_in_range p (Fetch.fetch_offset fp) lso.
Proof.
  intros lso start max Hg Hp Hh Hl0 Hlow Hst Hspan Hoff.
  assert (Forall (λ b, readable b ∧ 0 ≤ first_off b ≤ last_off b) (wanted start l)) as Hbs.
  { apply Forall_forall. intros x Hx. apply list_elem_of_filter in Hx as [_ Hx].
    exact (proj1 (Forall_forall _ _) (holds_batches _ _ Hh) x Hx). }
  assert (read p (Fetch.fetch_offset fp) max = take max (concat (wanted start l))) as Hread.
  { rewrite (read_ok p l low) by (done || lia). by rewrite take_fill by (simpl; lia). }
  destruct (trim_loop_spec (wanted start l) (S (length (take max (concat (wanted start l))))) [] max lso Hbs)
    as (n & frag & Ht & Hf & Hfr & Hnext); [lia|].
  exists n, frag. unfold FetchHandler.read_one. rewrite Hg.
  unfold engine_high_watermark, engine_lso, engine_log_start, engine_read, engine_aborted. rewrite Hp.
  fold lso max. rewrite (proj2 (Z.leb_gt _ _) Hoff). cbn -[FetchHandler.trim_to_offset]. rewrite Hread.
  unfold FetchHandler.trim_to_offset. cbn [app length] in Ht. rewrite Ht.
  split_and!; [|done..]. by destruct (decide _) as [->|].
Qed.

(** DeleteRecords removes only what was asked, and only for the leader with
    the right: on an open partition it answers success exactly when the principal
    may delete, the broker leads and the offset is not beyond the high watermark;
    then the low watermark in the answer is the new log start, the larger of the
    old one and the requested offset (the high watermark for -1), every batch
    that reaches it is still in the log, and on any error the partition is
    untouched. *)
Theorem delete_records_exact env authorized b v topic pd b' v' r root p l :
  let k : Key := (topic, DeleteRecords.partition_index pd) in
  let target := DeleteRecords.offset pd in
  DeleteRecordsHandler.delete_one env authorized b v topic pd = (b', v', r) →
  partitions (db_engine b) !! k = Some (root, p) → k ∉ migrating (db_engine b) → well_formed p l →
  (DeleteRecords.error_code r = 0 ↔
     authorized = true ∧ (∀ c, db_cluster b = Some c → owns (cv_coordinator c) k.1 k.2 = true) ∧
     target ≤ high_water p) ∧
  (DeleteRecords.error_code r ≠ 0 → partitions (db_engine b') !! k = Some (root, p)) ∧
  (DeleteRecords.error_code r = 0 →
   ∃ p' l1 l2, partitions (db_engine b') !! k = Some (root, p') ∧ l = l1 ++ l2 ∧ well_formed p' l2 ∧
     log_start p' = DeleteRecords.low_watermark r ∧
     log_start p' = Z.max (log_start p) (if target <? 0 then high_water p else target) ∧
     Forall (λ b, last_off b < log_start p') l1).
Proof.
  intros k target Hd Hp Hm Hwf. revert Hd. unfold DeleteRecordsHandler.delete_one. fold k target.
  destruct authorized; cbn [negb]; [|intros [= <- <- <-]; cbn; split_and!; [naive_solver|done|done]].
  destruct (match db_cluster b with Some c => _ | None => false end) eqn:Eo.
  { intros [= <- <- <-]. cbn. destruct (db_cluster b) as [c|]; [|done].
    apply negb_true_iff in Eo. split_and!; [|done|done]. split; [done|].
    intros (_ & Ho & _). specialize (Ho c eq_refl). congruence. }
  assert (∀ c, db_cluster b = Some c → owns (cv_coordinator c) k.1 k.2 = true) as Ho.
  { intros c Hc. rewrite Hc in Eo. by apply negb_false_iff in Eo. }
  unfold engine_delete_records. rewrite (ensure_open_here _ _ _ _ _ _ _ _ _ Hm Hp).
  destruct (delete_records p target) as [p' out] eqn:Ed. intros [= <- <- <-]. cbn [db_engine with_engine].
  rewrite set_partition_lookup.
  destruct (delete_holds p l target p' out Hwf Ed) as (l1 & l2 & Hl & Hwf' & Hf).
  destruct (delete_records_spec p target p' out (proj1 (proj2 Hwf)) Ed)
    as [(Hgt & -> & ->)|(Hle & -> & Hs)]; cbn.
  - split_and!; [|done|done]. split; [done|lia].
  - split_and!; [done|done|]. intros _. exists p', l1, l2. done.
Qed.

(** A recreated topic is not written into the old incarnation's directory:
    the registry is the engine's identity source; once the topic watch has listed,
    a partition whose directory still carries another incarnation's stamp is not
    opened and a produce to it is refused as retriable, without touching the
    engine or the volume, until the registry has learned that very identity. *)
Theorem recreated_topic_not_written env max authz now b v topic pd acks batch have :
  let k : Key := (topic, Produce.index pd) in
  let root := partition_root (se_cfg env) (se_placement env) v k in
  se_identity env = Some (incarnation (db_topics b)) →
  synced (db_topics b) = true ∨ is_Some (topic_ids (db_topics b) !! topic) →
  topic_ids (db_topics b) !! topic ≠ Some have →
  partitions (db_engine b) !! k = None → k ∉ migrating (db_engine b) →
  read_topic_identity v root topic = Ok (Some have) →
  ProduceHandler.gate authz now b topic (Produce.index pd) = None →
  Produce.records pd = Some batch → Z.of_nat (length batch) ≤ max →
  ProduceHandler.append_one env max authz now b v topic pd acks =
    (b, v, ProduceHandler.error_partition (Produce.index pd) 5).
Proof.
  intros k root Hid Hsync Hne Hp Hm Hst Hg Hrec Hmax. unfold ProduceHandler.append_one. fold k.
  rewrite Hg, Hrec, (proj2 (Z.ltb_ge _ _) Hmax). unfold create_partition, ensure_open.
  rewrite bool_decide_eq_false_2, Hp by done. fold root.
  replace (identity_permits_open (se_identity env) v root k.1) with false; [by destruct b|].
  unfold identity_permits_open. rewrite Hid. cbn [fst k]. unfold incarnation.
  destruct (topic_ids (db_topics b) !! topic) as [id|].
  - destruct (decide (id = ""%string)); rewrite Hst; [done|].
    symmetry. apply bool_decide_eq_false_2. congruence.
  - destruct Hsync as [->|[? ?]]; [|done]. by rewrite Hst.
Qed.

(** ListOffsets asks neither the assignment nor the authorizer: a broker that
    does not lead the partition and has nothing of it answers offset 0 without an
    error, where Fetch and Produce answer NOT_LEADER_FOR_PARTITION. *)
Theorem list_offsets_ungated :
  ∃ b topic p,
    FetchHandler.gate (λ _ _, true) b topic (ListOffsets.partition_index p) = Some 6 ∧
    ListOffsets.error_code (ListOffsetsHandler.resolve_one b topic p) = 0 ∧
    ListOffsets.offset (ListOffsetsHandler.resolve_one b topic p) = 0.
Proof.
  exists {| db_topics := insert_topic TopicRegistry_new
              {| tm_name := "t"; partition_count := 2; tm_topic_id := Metadata.NULL_TOPIC_ID |};
            db_cluster := Some {| cv_coordinator := (apply_if_new 0 (Some demo_assignment) (Coordinator_new "kaas-0")).1;
                                  self_fence := false; last_heartbeat := None |};
            db_engine := Engine_new |}, "t"%string,
    {| ListOffsets.partition_index := 1; ListOffsets.current_leader_epoch := -1; ListOffsets.timestamp := -1 |}.
  vm_compute. done.
Qed.

(** ** Witnesses *)

Definition demo_topics : TopicRegistry :=
  insert_topic TopicRegistry_new
    {| tm_name := "t"; partition_count := 1; tm_topic_id := Metadata.NULL_TOPIC_ID |}.
Definition demo_view : ClusterView :=
  {| cv_coordinator := (apply_if_new 0 (Some demo_assignment) (Coordinator_new "kaas-0")).1;
     self_fence := true; last_heartbeat := Some 0 |}.
Definition demo_data : DataBroker :=
  {| db_topics := demo_topics; db_cluster := Some demo_view; db_engine := demo_engine |}.
Definition allow_all (_ : Resource) (_ : Operation) : bool := true.
Definition demo_pd : Produce.PartitionData :=
  {| Produce.index := 0; Produce.records := Some (mk_batch 7) |}.
Definition demo_produced : DataBroker * LogVolume * Produce.PartitionResponse :=
  ProduceHandler.append_one demo_env 1000 allow_all 1000 demo_data demo_log_volume "t" demo_pd (-1).

Lemma produce_acknowledged_witness :
  ∃ root p p' t,
    append big_cfg 0 1 (mk_batch 7) p = (p', Ok (2, t)) ∧
    partitions (db_engine demo_produced.1.1) !! demo_key = Some (root, p').
Proof.
  destruct (produce_acknowledged demo_env 1000 allow_all 1000 demo_data demo_log_volume "t" demo_pd (-1)
    demo_produced.1.1 demo_produced.1.2 demo_produced.2) as [_ H].
  { vm_compute. reflexivity. }
  destruct H as (_ & _ & _ & H); [vm_compute; reflexivity|].
  destruct (H (mk_batch 7) eq_refl) as (_ & root & p & p' & t & Ha & Hp & _).
  exists root, p, p', t. split; [exact Ha|exact Hp].
Defined.

Definition demo_pbody : list byte := bytes_of (Produce.request_wire (one_produce "t" 0 (-1) 1000 (mk_batch 7)) 9).
Definition demo_fbody : list byte := bytes_of (Fetch.request_wire (one_fetch "t" 0 2 1000 0) 12).
Definition demo_handled : DataBroker * LogVolume * enc :=
  ProduceHandler.handle demo_env 1000 allow_all 1000 0 demo_data demo_log_volume 9 demo_pbody.
Definition demo_presp : Produce.Response := one_produced "t" 0 (ProduceHandler.ok_partition 0 2 0).

Lemma mk_batch_valid_7 : valid_batch (mk_batch 7).
Proof. split_and!; vm_compute; [lia|reflexivity|congruence]. Qed.

Lemma two_batches_well_formed : well_formed two_batches [mk_batch 0; mk_batch 1].
Proof.
  split; [exact two_batches_holds|]. split; [vm_compute; split; congruence|].
  split; [vm_compute; congruence|]. intros pid f. vm_compute. discriminate.
Qed.

Lemma produce_then_fetch_witness :
  ∃ fbs fr, FetchHandler.handle (λ _, None) allow_all 0 demo_handled.1.1 12 demo_fbody = Ok fbs ∧
    Fetch.decode_response 12 fbs = Ok (one_fetched "t" 0 fr, []) ∧
    Fetch.high_watermark fr = 3 ∧ Fetch.records fr = Some (mk_batch 2).
Proof.
  destruct (produce_then_fetch demo_env 1000 allow_all 1000 0 0 demo_data demo_log_volume
    demo_handled.1.1 demo_handled.1.2 "t" 0 (-1) 1000 (mk_batch 7) 9 12 "/d" two_batches
    [mk_batch 0; mk_batch 1] 1000 demo_pbody demo_fbody (bytes_of demo_handled.2) demo_presp)
    as (_ & fbs & fr & Hh & Hd & _ & Hw & Hr).
  - lia.
  - lia.
  - split; vm_compute; congruence.
  - range.
  - range.
  - range.
  - range.
  - range.
  - range.
  - vm_compute. congruence.
  - vm_compute. reflexivity.
  - apply not_elem_of_empty.
  - exact two_batches_well_formed.
  - exact mk_batch_valid_7.
  - vm_compute. reflexivity.
  - vm_compute. congruence.
  - vm_compute. reflexivity.
  - intros info o Hi. vm_compute in Hi. discriminate.
  - reflexivity.
  - vm_compute. congruence.
  - vm_compute. reflexivity.
  - vm_compute. reflexivity.
  - vm_compute. reflexivity.
  - exists (ProduceHandler.ok_partition 0 2 0). split; reflexivity.
  - vm_compute. reflexivity.
  - exists fbs, fr. split; [exact Hh|]. split; [exact Hd|]. split; [exact Hw|exact Hr].
Defined.

Definition demo_fp : Fetch.Partition :=
  {| Fetch.partition_index := 0; Fetch.current_leader_epoch := -1; Fetch.fetch_offset := 1;
     Fetch.last_fetched_epoch := -1; Fetch.log_start_offset := -1; Fetch.partition_max_bytes := 1000 |}.

(** Two plain batches and, behind them, the batch of a transaction still open. *)
Definition open_tail : Partition := (append big_cfg 0 1 txn_batch two_batches).1.
Definition open_data : DataBroker :=
  {| db_topics := demo_topics; db_cluster := Some demo_view; db_engine := set_partition demo_engine demo_key "/d" open_tail |}.

Lemma open_tail_holds : holds open_tail [mk_batch 0; mk_batch 1; rewrite_base txn_batch 2].
Proof.
  assert (valid_batch txn_batch) as Hv by (split_and!; vm_compute; [lia|reflexivity|congruence]).
  destruct (append_holds big_cfg 0 1 txn_batch two_batches open_tail 2
      match (append big_cfg 0 1 txn_batch two_batches).2 with Ok (_, t) => t | Err _ => false end
      _ two_batches_holds Hv) as [[H _]|(_ & H & _)];
    [vm_compute; reflexivity|vm_compute; congruence|vm_compute; reflexivity| |exact H].
  apply (f_equal high_water) in H. vm_compute in H. discriminate H.
Qed.

Lemma read_committed_stable_witness :
  last_stable_offset open_tail = 2 ∧ high_water open_tail = 3 ∧
  ∃ n frag,
    default [] (Fetch.records (FetchHandler.read_one (λ _, None) allow_all open_data "t" demo_fp true)) =
      concat (take n [mk_batch 1; rewrite_base txn_batch 2]) ++ frag ∧
    Forall (λ b, last_off b < 2) (take n [mk_batch 1; rewrite_base txn_batch 2]) ∧
    (∀ b, [mk_batch 1; rewrite_base txn_batch 2] !! n = Some b →
       2 ≤ last_off b ∨ (1000 < length (concat (take (S n) [mk_batch 1; rewrite_base txn_batch 2])))%nat).
Proof.
  split; [vm_compute; reflexivity|]. split; [vm_compute; reflexivity|].
  destruct (read_committed_stable allow_all open_data "t" demo_fp "/d" open_tail
    [mk_batch 0; mk_batch 1; rewrite_base txn_batch 2] 0) as (n & frag & Hr & Hf & _ & Hn & _).
  - vm_compute. reflexivity.
  - vm_compute. reflexivity.
  - exact open_tail_holds.
  - lia.
  - vm_compute. congruence.
  - vm_compute. split; congruence.
  - vm_compute. reflexivity.
  - vm_compute. reflexivity.
  - exists n, frag. split; [exact Hr|]. split; [exact Hf|exact Hn].
Defined.

(** A limit that cuts the header of the second batch: its first ten bytes are sent,
    although [trim_to_offset] says that a partial batch is never returned. *)
Lemma trim_keeps_fragment :
  Fetch.records (FetchHandler.read_one (λ _, None) allow_all open_data "t"
    {| Fetch.partition_index := 0; Fetch.current_leader_epoch := -1; Fetch.fetch_offset := 0;
       Fetch.last_fetched_epoch := -1; Fetch.log_start_offset := -1;
       Fetch.partition_max_bytes := Z.of_nat (length (mk_batch 0)) + 10 |} true) =
  Some (mk_batch 0 ++ take 10 (mk_batch 1)).
Proof. vm_compute. reflexivity. Qed.

Definition demo_dp : DeleteRecords.DeleteRecordsPartition :=
  {| DeleteRecords.partition_index := 0; DeleteRecords.offset := 1 |}.
Definition demo_deleted : DataBroker * LogVolume * DeleteRecords.DeleteRecordsPartitionResult :=
  DeleteRecordsHandler.delete_one demo_env true demo_data demo_log_volume "t" demo_dp.

Lemma delete_records_exact_witness :
  ∃ p' l1 l2, partitions (db_engine demo_deleted.1.1) !! demo_key = Some ("/d"%string, p') ∧
    [mk_batch 0; mk_batch 1] = l1 ++ l2 ∧ well_formed p' l2 ∧ log_start p' = 1.
Proof.
  destruct (delete_records_exact demo_env true demo_data demo_log_volume "t" demo_dp demo_deleted.1.1
    demo_deleted.1.2 demo_deleted.2 "/d" two_batches [mk_batch 0; mk_batch 1]) as (_ & _ & H).
  - vm_compute. reflexivity.
  - vm_compute. reflexivity.
  - apply not_elem_of_empty.
  - exact two_batches_well_formed.
  - destruct H as (p' & l1 & l2 & Hp & Hl & Hw & _ & Hs & _); [vm_compute; reflexivity|].
    exists p', l1, l2. split; [exact Hp|]. split; [exact Hl|]. split; [exact Hw|exact Hs].
Defined.

(** The topic was recreated: the registry knows the new identity, the directory
    carries the old one. *)
Definition demo_recreated : DataBroker :=
  {| db_topics := set_topic_id (mark_synced demo_topics) "t" (Some "new"%string);
     db_cluster := Some demo_view; db_engine := Engine_new |}.
Definition demo_identity_env : StorageEnv :=
  {| se_cfg := demo_engine_cfg; se_crc := λ _, 0; se_crc_append := λ _ _, 0; se_placement := λ _, None;
     se_identity := Some (incarnation (db_topics demo_recreated)); se_pcfg := λ _, big_cfg;
     se_age := λ _, 0; se_flushed := λ _, true |}.

Lemma recreated_topic_not_written_witness :
  ProduceHandler.append_one demo_identity_env 1000 allow_all 1000 demo_recreated stamped_volume "t" demo_pd (-1) =
    (demo_recreated, stamped_volume, ProduceHandler.error_partition 0 5).
Proof.
  apply (recreated_topic_not_written demo_identity_env 1000 allow_all 1000 demo_recreated stamped_volume "t"
    demo_pd (-1) (mk_batch 7) "old").
  - reflexivity.
  - left. reflexivity.
  - vm_compute. congruence.
  - vm_compute. reflexivity.
  - apply not_elem_of_empty.
  - vm_compute. reflexivity.
  - vm_compute. reflexivity.
  - reflexivity.
  - vm_compute. congruence.
Defined.
