(* ===== verification/GroupHandlers.v ===== *)
(** * The consumer-group handlers

    The broker crate's [handlers/] for JoinGroup, SyncGroup, Heartbeat,
    LeaveGroup, OffsetCommit, OffsetFetch, OffsetDelete, FindCoordinator,
    ListGroups, DescribeGroups and DeleteGroups, with the group snapshots they
    report ([group.rs], [manager.rs]).  A handler takes the request's bytes and
    gives the response's bytes, over the manager (absent until the broker has one)
    and the volume of offset files.

    JoinGroup and SyncGroup may park: their handler is a first half, which ends in
    the response or in what the parked request keeps, and a second half, run when
    the group answers it.  The order in which a hash map lists groups or members
    is the model's; no theorem depends on it. *)

From stdpp Require Import base gmap strings list pretty.
From Stdlib Require Import Strings.Byte.
From S2P Require Import Prelude Primitives Wire ApiGroup ApiCoord Cluster Group OffsetStore Manager.

Local Open Scope Z_scope.

(** ** Snapshots *)

Definition as_str (s : GroupState) : string :=
  match s with
  | Empty => "Empty"
  | PreparingRebalance => "PreparingRebalance"
  | CompletingRebalance => "CompletingRebalance"
  | Stable => "Stable"
  | Dead => "Dead"
  end.

Record MemberSnapshot := {
  ms_member_id : string; ms_client_id : string; ms_group_instance_id : option string;
  ms_assignment : list byte }.
Record GroupSnapshot := {
  gs_id : string; gs_state : string; gs_protocol_type : string; gs_protocol_name : string;
  gs_generation_id : Z; gs_members : list MemberSnapshot }.

Definition describe (g : Group) : GroupSnapshot :=
  {| gs_id := g_id g; gs_state := as_str (Group.state g); gs_protocol_type := protocol_type g;
     gs_protocol_name := protocol_name g; gs_generation_id := generation_id g;
     gs_members := (λ e : string * GroupMember,
         {| ms_member_id := gm_id e.2; ms_client_id := client_id e.2;
            ms_group_instance_id := group_instance_id e.2; ms_assignment := gm_assignment e.2 |})
       <$> map_to_list (members g) |}.

Definition list_groups `{GroupAssignmentSource A} (src : A) (m : Manager) : list GroupSnapshot :=
  (λ e : string * Group, describe e.2)
    <$> filter (λ e : string * Group, is_coordinator src e.1 = true) (map_to_list (groups m)).

Definition describe_groups `{GroupAssignmentSource A} (src : A) (m : Manager) (ids : list string) :
    list (option GroupSnapshot) :=
  (λ id,
    if negb (is_coordinator src id) then None
    else Some match groups m !! id with
              | Some g => describe g
              | None => {| gs_id := id; gs_state := "Empty"; gs_protocol_type := "";
                           gs_protocol_name := ""; gs_generation_id := 0; gs_members := [] |}
              end) <$> ids.

(** ** The handlers *)

Definition ERR_NOT_COORDINATOR : Z := 16.

(** What a handler that may park ends its first half with. *)
Inductive Started (P : Type) := Replied (out : enc) | Parked (p : P).
Arguments Replied {P}.
Arguments Parked {P}.

Module JoinGroupHandler.

Definition response_of (out : JoinOutcome) : JoinGroup.Response :=
  {| JoinGroup.throttle_time_ms := 0; JoinGroup.error_code := jo_error out;
     JoinGroup.generation_id := jo_generation out; JoinGroup.r_protocol_type := jo_protocol_type out;
     JoinGroup.protocol_name := jo_protocol_name out; JoinGroup.leader := jo_leader out;
     JoinGroup.skip_assignment := false; JoinGroup.r_member_id := jo_member_id out;
     JoinGroup.members := (λ m,
         {| JoinGroup.m_member_id := jm_member_id m; JoinGroup.m_group_instance_id := jm_instance_id m;
            JoinGroup.m_metadata := jm_metadata m |}) <$> jo_members out |}.

(** The principal's name goes into the request as its client id. *)
Definition request_of (req : JoinGroup.Request) (principal : option string) (peer_addr : string) : JoinRequest :=
  {| jr_member_id := JoinGroup.member_id req; jr_instance_id := JoinGroup.group_instance_id req;
     jr_session_timeout_ms := JoinGroup.session_timeout_ms req;
     jr_rebalance_timeout_ms := JoinGroup.rebalance_timeout_ms req;
     jr_protocol_type := JoinGroup.protocol_type req;
     jr_protocols := (λ p, {| pm_name := JoinGroup.name p; Group.metadata := JoinGroup.metadata p |})
       <$> JoinGroup.protocols req;
     jr_client_id := default ""%string principal; jr_client_host := peer_addr |}.

(** A parked request keeps its ticket and its version. *)
Definition handle `{GroupAssignmentSource A} (src : A) (principal : option string) (peer_addr fresh : string)
    (ticket : nat) (now : Z) (mgr : option Manager) (d : Disk) (version : Z) (body : list byte) :
    option Manager * Started (nat * Z) :=
  match JoinGroup.decode_request version body with
  | Err err => (mgr, Replied (Err err))
  | Ok (req, _) =>
    match mgr with
    | None =>
      (None, Replied (JoinGroup.encode_response
        {| JoinGroup.throttle_time_ms := 0; JoinGroup.error_code := ERR_NOT_COORDINATOR;
           JoinGroup.generation_id := -1; JoinGroup.r_protocol_type := ""; JoinGroup.protocol_name := "";
           JoinGroup.leader := ""; JoinGroup.skip_assignment := false;
           JoinGroup.r_member_id := JoinGroup.member_id req; JoinGroup.members := [] |} version))
    | Some m =>
      let '(m', r) := join_group src m d (JoinGroup.group_id req) (request_of req principal peer_addr)
                        fresh ticket now in
      (Some m', match r with
                | Some out => Replied (JoinGroup.encode_response (response_of out) version)
                | None => Parked (ticket, version)
                end)
    end
  end.

(** The group sent its outcome on the ticket. *)
Definition resume (p : nat * Z) (out : JoinOutcome) : enc :=
  JoinGroup.encode_response (response_of out) p.2.

End JoinGroupHandler.

Module SyncGroupHandler.

Definition response_of (out : SyncOutcome) : SyncGroup.Response :=
  {| SyncGroup.throttle_time_ms := 0; SyncGroup.error_code := so_error out;
     SyncGroup.r_protocol_type := so_protocol_type out; SyncGroup.r_protocol_name := so_protocol_name out;
     SyncGroup.assignment := so_assignment out |}.

(** The instance id and the protocol fields are passed on but not looked at. *)
Definition request_of (req : SyncGroup.Request) : SyncRequest :=
  {| sr_member_id := SyncGroup.member_id req; sr_generation_id := SyncGroup.generation_id req;
     sr_assignments := (λ a, (SyncGroup.a_member_id a, default [] (SyncGroup.a_assignment a)))
       <$> SyncGroup.assignments req |}.

Definition handle `{GroupAssignmentSource A} (src : A) (ticket : nat) (mgr : option Manager)
    (version : Z) (body : list byte) : option Manager * Started (PendingSync * Z) :=
  match SyncGroup.decode_request version body with
  | Err err => (mgr, Replied (Err err))
  | Ok (req, _) =>
    match mgr with
    | None => (None, Replied (SyncGroup.encode_response (response_of (sync_error ERR_NOT_COORDINATOR)) version))
    | Some m =>
      let '(m', r) := sync_group src m (SyncGroup.group_id req) (request_of req) ticket in
      (Some m', match r with
                | inl out => Replied (SyncGroup.encode_response (response_of out) version)
                | inr p => Parked (p, version)
                end)
    end
  end.

(** The group woke the request: [g] is the group it parked on. *)
Definition resume (g : Group) (p : PendingSync * Z) : enc :=
  SyncGroup.encode_response (response_of (sync_resume g p.1)) p.2.

End SyncGroupHandler.

Module HeartbeatHandler.

Definition handle `{GroupAssignmentSource A} (src : A) (mgr : option Manager) (version : Z) (body : list byte) : enc :=
  match Heartbeat.decode_request version body with
  | Err err => Err err
  | Ok (req, _) =>
    let error_code :=
      match mgr with
      | None => ERR_NOT_COORDINATOR
      | Some m => heartbeat src m (Heartbeat.group_id req) (Heartbeat.member_id req) (Heartbeat.generation_id req)
      end in
    Heartbeat.encode_response
      {| Heartbeat.throttle_time_ms := 0; Heartbeat.error_code := error_code |} version
  end.

End HeartbeatHandler.

Module LeaveGroupHandler.

Definition member_ids (req : LeaveGroup.Request) : list string :=
  (if str_is_empty (LeaveGroup.member_id req) then [] else [LeaveGroup.member_id req])
  ++ (LeaveGroup.l_member_id <$> LeaveGroup.members req).

(** [collect] into a hash map: the last entry of a member wins. *)
Definition members_lookup (req : LeaveGroup.Request) : gmap string (option string) :=
  foldl (λ acc m, <[LeaveGroup.l_member_id m := LeaveGroup.l_group_instance_id m]> acc) ∅
    (LeaveGroup.members req).

Definition members_resp (req : LeaveGroup.Request) (out : list (string * Z)) : list LeaveGroup.LeaveMemberResponse :=
  (λ e : string * Z,
     {| LeaveGroup.lr_member_id := e.1; LeaveGroup.lr_group_instance_id := mjoin (members_lookup req !! e.1);
        LeaveGroup.lr_error_code := e.2 |})
    <$> filter (λ e : string * Z, is_Some (members_lookup req !! e.1)) out.

Definition handle `{GroupAssignmentSource A} (src : A) (now : Z) (mgr : option Manager) (version : Z)
    (body : list byte) : option Manager * enc :=
  match LeaveGroup.decode_request version body with
  | Err err => (mgr, Err err)
  | Ok (req, _) =>
    match mgr with
    | None =>
      (None, LeaveGroup.encode_response
        {| LeaveGroup.throttle_time_ms := 0; LeaveGroup.error_code := ERR_NOT_COORDINATOR;
           LeaveGroup.r_members := (λ m,
               {| LeaveGroup.lr_member_id := LeaveGroup.l_member_id m;
                  LeaveGroup.lr_group_instance_id := LeaveGroup.l_group_instance_id m;
                  LeaveGroup.lr_error_code := ERR_NOT_COORDINATOR |}) <$> LeaveGroup.members req |} version)
    | Some m =>
      let '(m', out) := leave_group src m (LeaveGroup.group_id req) (member_ids req) now in
      (Some m', LeaveGroup.encode_response
        {| LeaveGroup.throttle_time_ms := 0; LeaveGroup.error_code := group_error out;
           LeaveGroup.r_members := members_resp req (lo_members out) |} version)
    end
  end.

End LeaveGroupHandler.

Module OffsetCommitHandler.

(** The two nested loops, one partition at a time; empty metadata is not sent on. *)
Definition entries (req : OffsetCommit.Request) : list (string * OffsetCommit.OffsetCommitPartition) :=
  OffsetCommit.topics req ≫= λ t, pair (OffsetCommit.name t) <$> OffsetCommit.partitions t.

Definition entry_key (e : string * OffsetCommit.OffsetCommitPartition) : string :=
  offset_key e.1 (OffsetCommit.partition_index e.2).

Definition offsets_map (req : OffsetCommit.Request) : gmap string Z :=
  foldl (λ acc e, <[entry_key e := OffsetCommit.committed_offset e.2]> acc) ∅ (entries req).

Definition metadata_map (req : OffsetCommit.Request) : gmap string string :=
  foldl (λ acc e,
    match OffsetCommit.committed_metadata e.2 with
    | Some m => if str_is_empty m then acc else <[entry_key e := m]> acc
    | None => acc
    end) ∅ (entries req).

Definition topics_resp (req : OffsetCommit.Request) (group_error : Z) : list OffsetCommit.OffsetCommitTopicResponse :=
  (λ t, {| OffsetCommit.t_name := OffsetCommit.name t;
           OffsetCommit.t_partitions := (λ p,
             {| OffsetCommit.p_partition_index := OffsetCommit.partition_index p;
                OffsetCommit.error_code := group_error |}) <$> OffsetCommit.partitions t |})
    <$> OffsetCommit.topics req.

(** [ok]: writing the group's file succeeds. *)
Definition handle `{GroupAssignmentSource A} (src : A) (ok : bool) (mgr : option Manager) (d : Disk)
    (version : Z) (body : list byte) : option Manager * Disk * enc :=
  match OffsetCommit.decode_request version body with
  | Err err => (mgr, d, Err err)
  | Ok (req, _) =>
    let '(mgr', d', group_error) :=
      match mgr with
      | None => (None, d, ERR_NOT_COORDINATOR)
      | Some m =>
        let '(m', d', c) := offset_commit src m d (OffsetCommit.group_id req) (offsets_map req) (metadata_map req) ok in
        (Some m', d', c)
      end in
    (mgr', d', OffsetCommit.encode_response
       {| OffsetCommit.throttle_time_ms := 0; OffsetCommit.r_topics := topics_resp req group_error |} version)
  end.

End OffsetCommitHandler.

Module OffsetFetchHandler.

Definition row (p offset : Z) (meta : option string) : OffsetFetch.OffsetFetchPartitionResponse :=
  {| OffsetFetch.p_partition_index := p; OffsetFetch.p_committed_offset := offset;
     OffsetFetch.p_committed_leader_epoch := -1; OffsetFetch.p_metadata := meta;
     OffsetFetch.p_error_code := 0 |}.

Definition rows (f : string → Z → Z * option string) (topics : list OffsetFetch.OffsetFetchTopic) :
    list OffsetFetch.OffsetFetchTopicResponse :=
  (λ t, {| OffsetFetch.t_name := OffsetFetch.name t;
           OffsetFetch.t_partitions :=
             (λ p, let '(o, m) := f (OffsetFetch.name t) p in row p o m) <$> OffsetFetch.partition_indexes t |})
    <$> topics.

Definition empty_topics (topics : list OffsetFetch.OffsetFetchTopic) : list OffsetFetch.OffsetFetchTopicResponse :=
  rows (λ _ _, (-1, None)) topics.

Definition specs_of (topics : list OffsetFetch.OffsetFetchTopic) : list FetchSpec :=
  (λ t, {| fs_topic := OffsetFetch.name t; fs_partitions := OffsetFetch.partition_indexes t |}) <$> topics.

Definition fetch_group `{GroupAssignmentSource A} (src : A) (mgr : option Manager) (group_id : string)
    (topics : list OffsetFetch.OffsetFetchTopic) : list OffsetFetch.OffsetFetchTopicResponse * Z :=
  match mgr with
  | None => (empty_topics topics, ERR_NOT_COORDINATOR)
  | Some m =>
    match offset_fetch src m group_id (specs_of topics) with
    | None => (empty_topics topics, ERR_NOT_COORDINATOR)
    | Some (committed, metadata) =>
      (rows (λ t p, (default (-1) (committed !! offset_key t p), metadata !! offset_key t p)) topics, 0)
    end
  end.

Definition handle `{GroupAssignmentSource A} (src : A) (mgr : option Manager) (version : Z) (body : list byte) : enc :=
  match OffsetFetch.decode_request version body with
  | Err err => Err err
  | Ok (req, _) =>
    OffsetFetch.encode_response
      (if 8 <=? version then
         {| OffsetFetch.throttle_time_ms := 0; OffsetFetch.r_topics := []; OffsetFetch.error_code := 0;
            OffsetFetch.r_groups := (λ g,
              let '(topics_resp, group_err) := fetch_group src mgr (OffsetFetch.g_group_id g) (OffsetFetch.g_topics g) in
              {| OffsetFetch.gr_group_id := OffsetFetch.g_group_id g; OffsetFetch.gr_topics := topics_resp;
                 OffsetFetch.gr_error_code := group_err |}) <$> OffsetFetch.groups req |}
       else
         let '(topics_resp, group_err) :=
           fetch_group src mgr (OffsetFetch.group_id req) (default [] (OffsetFetch.topics req)) in
         {| OffsetFetch.throttle_time_ms := 0; OffsetFetch.r_topics := topics_resp;
            OffsetFetch.error_code := group_err; OffsetFetch.r_groups := [] |}) version
  end.

End OffsetFetchHandler.

Module OffsetDeleteHandler.

Definition ERR_UNKNOWN_TOPIC_OR_PARTITION : Z := 3.

Definition keys (req : OffsetDelete.Request) : list string :=
  OffsetDelete.topics req ≫= λ t, offset_key (OffsetDelete.name t) <$> OffsetDelete.partitions t.

(** With a group-level error the partitions report none of their own. *)
Definition partition_error (group_error : Z) (removed : gmap string bool) (key : string) : Z :=
  if negb (group_error =? 0) then 0
  else if default false (removed !! key) then 0
  else ERR_UNKNOWN_TOPIC_OR_PARTITION.

Definition topics_resp (req : OffsetDelete.Request) (group_error : Z) (removed : gmap string bool) :
    list OffsetDelete.OffsetDeleteTopicResponse :=
  (λ t, {| OffsetDelete.t_name := OffsetDelete.name t;
           OffsetDelete.t_partitions := (λ p,
             {| OffsetDelete.p_partition_index := p;
                OffsetDelete.p_error_code :=
                  partition_error group_error removed (offset_key (OffsetDelete.name t) p) |})
             <$> OffsetDelete.partitions t |}) <$> OffsetDelete.topics req.

Definition handle `{GroupAssignmentSource A} (src : A) (ok : bool) (mgr : option Manager) (d : Disk)
    (version : Z) (body : list byte) : option Manager * Disk * enc :=
  match OffsetDelete.decode_request version body with
  | Err err => (mgr, d, Err err)
  | Ok (req, _) =>
    match mgr with
    | None =>
      (None, d, OffsetDelete.encode_response
        {| OffsetDelete.error_code := ERR_NOT_COORDINATOR; OffsetDelete.throttle_time_ms := 0;
           OffsetDelete.r_topics := [] |} version)
    | Some m =>
      let '(m', d', (group_error, removed)) := delete_offsets src m d (OffsetDelete.group_id req) (keys req) ok in
      (Some m', d', OffsetDelete.encode_response
        {| OffsetDelete.error_code := group_error; OffsetDelete.throttle_time_ms := 0;
           OffsetDelete.r_topics := topics_resp req group_error removed |} version)
    end
  end.

End OffsetDeleteHandler.

Module FindCoordinatorHandler.

Definition ERR_COORD_NOT_AVAILABLE : Z := 15.

(** [find]: the manager's [find_coordinator], absent without a manager. *)
Definition resolve (find : option (string → Z → CoordinatorResolution)) (key_type : Z) (key : string) :
    FindCoordinator.CoordinatorResult :=
  match find with
  | None =>
    {| FindCoordinator.c_key := key; FindCoordinator.c_node_id := 0; FindCoordinator.c_host := "";
       FindCoordinator.c_port := 0; FindCoordinator.c_error_code := ERR_COORD_NOT_AVAILABLE;
       FindCoordinator.c_error_message := None |}
  | Some f =>
    let r := f key key_type in
    {| FindCoordinator.c_key := key; FindCoordinator.c_node_id := r_node_id r;
       FindCoordinator.c_host := r_host r; FindCoordinator.c_port := r_port r;
       FindCoordinator.c_error_code := r_error_code r; FindCoordinator.c_error_message := None |}
  end.

Definition handle (find : option (string → Z → CoordinatorResolution)) (version : Z) (body : list byte) : enc :=
  match FindCoordinator.decode_request version body with
  | Err err => Err err
  | Ok (req, _) =>
    let resolve := resolve find (FindCoordinator.key_type req) in
    FindCoordinator.encode_response
      (if 4 <=? version then
         {| FindCoordinator.throttle_time_ms := 0; FindCoordinator.error_code := 0;
            FindCoordinator.error_message := None; FindCoordinator.node_id := 0; FindCoordinator.host := "";
            FindCoordinator.port := 0;
            FindCoordinator.coordinators := resolve <$> FindCoordinator.coordinator_keys req |}
       else
         let r := resolve (FindCoordinator.key req) in
         {| FindCoordinator.throttle_time_ms := 0; FindCoordinator.error_code := FindCoordinator.c_error_code r;
            FindCoordinator.error_message := None; FindCoordinator.node_id := FindCoordinator.c_node_id r;
            FindCoordinator.host := FindCoordinator.c_host r; FindCoordinator.port := FindCoordinator.c_port r;
            FindCoordinator.coordinators := [] |}) version
  end.

End FindCoordinatorHandler.

Module ListGroupsHandler.

Definition handle `{GroupAssignmentSource A} (src : A) (mgr : option Manager) (version : Z) (body : list byte) : enc :=
  match ListGroups.decode_request version body with
  | Err err => Err err
  | Ok (req, _) =>
    let filter_states := ListGroups.states_filter req in
    ListGroups.encode_response
      {| ListGroups.throttle_time_ms := 0; ListGroups.error_code := 0;
         ListGroups.groups :=
           match mgr with
           | None => []
           | Some m =>
             (λ g, {| ListGroups.group_id := gs_id g; ListGroups.protocol_type := gs_protocol_type g;
                      ListGroups.group_state := gs_state g |})
               <$> filter (λ g, filter_states = [] ∨ gs_state g ∈ filter_states) (list_groups src m)
           end |} version
  end.

End ListGroupsHandler.

Module DescribeGroupsHandler.

Definition unknown (id : string) : DescribeGroups.DescribedGroup :=
  {| DescribeGroups.error_code := ERR_NOT_COORDINATOR; DescribeGroups.group_id := id;
     DescribeGroups.group_state := ""; DescribeGroups.protocol_type := "";
     DescribeGroups.protocol_data := ""; DescribeGroups.members := [];
     DescribeGroups.authorized_operations := 0 |}.

Definition described (s : GroupSnapshot) : DescribeGroups.DescribedGroup :=
  {| DescribeGroups.error_code := 0; DescribeGroups.group_id := gs_id s;
     DescribeGroups.group_state := gs_state s; DescribeGroups.protocol_type := gs_protocol_type s;
     DescribeGroups.protocol_data := gs_protocol_name s;
     DescribeGroups.members := (λ m,
       {| DescribeGroups.member_id := ms_member_id m;
          DescribeGroups.group_instance_id := ms_group_instance_id m;
          DescribeGroups.client_id := ms_client_id m; DescribeGroups.client_host := "";
          DescribeGroups.member_metadata := []; DescribeGroups.member_assignment := ms_assignment m |})
       <$> gs_members s;
     DescribeGroups.authorized_operations := 0 |}.

Definition handle `{GroupAssignmentSource A} (src : A) (mgr : option Manager) (version : Z) (body : list byte) : enc :=
  match DescribeGroups.decode_request version body with
  | Err err => Err err
  | Ok (req, _) =>
    let ids := DescribeGroups.groups req in
    DescribeGroups.encode_response
      {| DescribeGroups.throttle_time_ms := 0;
         DescribeGroups.r_groups :=
           match mgr with
           | None => unknown <$> ids
           | Some m =>
             zip_with (λ snap id, match snap with None => unknown id | Some s => described s end)
               (describe_groups src m ids) ids
           end |} version
  end.

End DescribeGroupsHandler.

Module DeleteGroupsHandler.

(** The groups in turn; [ok]: whose files can be removed. *)
Fixpoint delete_all `{GroupAssignmentSource A} (src : A) (ok : string → bool) (m : Manager) (d : Disk)
    (names : list string) : Manager * Disk * list DeleteGroups.DeleteGroupsResult :=
  match names with
  | [] => (m, d, [])
  | name :: names' =>
    let '(m, d, code) := delete_group src m d name (ok name) in
    let '(m, d, rs) := delete_all src ok m d names' in
    (m, d, {| DeleteGroups.group_id := name; DeleteGroups.error_code := code |} :: rs)
  end.

Definition handle `{GroupAssignmentSource A} (src : A) (ok : string → bool) (mgr : option Manager) (d : Disk)
    (version : Z) (body : list byte) : option Manager * Disk * enc :=
  match DeleteGroups.decode_request version body with
  | Err err => (mgr, d, Err err)
  | Ok (req, _) =>
    let '(mgr', d', results) :=
      match mgr with
      | None =>
        (None, d, (λ n, {| DeleteGroups.group_id := n; DeleteGroups.error_code := ERR_NOT_COORDINATOR |})
          <$> DeleteGroups.group_names req)
      | Some m => let '(m', d', rs) := delete_all src ok m d (DeleteGroups.group_names req) in (Some m', d', rs)
      end in
    (mgr', d', DeleteGroups.encode_response
       {| DeleteGroups.throttle_time_ms := 0; DeleteGroups.results := results |} version)
  end.

End DeleteGroupsHandler.

(** ** Committed offsets over the wire *)

Import Common.

(** Inserting in turn: the last entry of a key wins. *)
Lemma foldl_put_lookup {A V} (key : A → string) (f : A → option V) (l : list A) k :
  foldl (λ acc e, match f e with Some v => <[key e := v]> acc | None => acc end) (∅ : gmap string V) l !! k =
  last (omap (λ e, if decide (key e = k) then f e else None) l).
Proof.
  induction l as [|e l IH] using rev_ind; [done|].
  rewrite foldl_snoc, omap_app, last_app. simpl. case_decide as Hk; destruct (f e); simpl; subst;
    [by rewrite lookup_insert_eq|by rewrite IH|by rewrite lookup_insert_ne by done|by rewrite IH].
Qed.

Lemma offset_key_inj t p t' p' : offset_key t p = offset_key t' p' → t = t' ∧ p = p'.
Proof.
  intros H. pose proof (rsplit_key t p) as Hk. rewrite H, rsplit_key in Hk. injection Hk as -> Hp.
  split; [done|]. symmetry. by apply (inj (pretty : Z → string)).
Qed.

(** What a request says of one partition: its last entry, and its last non-empty
    metadata. *)
Definition entries_for (creq : OffsetCommit.Request) (t : string) (p : Z) : list OffsetCommit.OffsetCommitPartition :=
  omap (λ e, if decide (e.1 = t ∧ OffsetCommit.partition_index e.2 = p) then Some e.2 else None)
    (OffsetCommitHandler.entries creq).
Definition committed_offset_for (creq : OffsetCommit.Request) (t : string) (p : Z) : option Z :=
  OffsetCommit.committed_offset <$> last (entries_for creq t p).
Definition nonempty (o : option string) : option string :=
  o ≫= λ m, if str_is_empty m then None else Some m.
Definition committed_metadata_for (creq : OffsetCommit.Request) (t : string) (p : Z) : option string :=
  last (omap (λ e, nonempty (OffsetCommit.committed_metadata e)) (entries_for creq t p)).

Lemma offsets_map_lookup creq t p :
  OffsetCommitHandler.offsets_map creq !! offset_key t p = committed_offset_for creq t p.
Proof.
  unfold OffsetCommitHandler.offsets_map, committed_offset_for, entries_for.
  etrans; [apply (foldl_put_lookup _ (λ e, Some (OffsetCommit.committed_offset e.2)))|].
  generalize (OffsetCommitHandler.entries creq). intros l.
  induction l as [|[t' q] l IH] using rev_ind; [done|].
  rewrite !omap_app, !last_app. unfold OffsetCommitHandler.entry_key. simpl.
  case_decide as H1; case_decide as H2; simpl; [done| | |done].
  - apply offset_key_inj in H1. tauto.
  - by destruct H2 as [<- <-].
Qed.

Lemma metadata_map_lookup creq t p :
  OffsetCommitHandler.metadata_map creq !! offset_key t p = committed_metadata_for creq t p.
Proof.
  unfold OffsetCommitHandler.metadata_map, committed_metadata_for, entries_for.
  etrans; [|etrans; [apply (foldl_put_lookup OffsetCommitHandler.entry_key
    (λ e, nonempty (OffsetCommit.committed_metadata e.2)) (OffsetCommitHandler.entries creq))|]].
  - f_equal. generalize (OffsetCommitHandler.entries creq), (∅ : gmap string string). intros l.
    induction l as [|e l IH]; intros acc; [done|]. simpl. rewrite IH. f_equal.
    unfold nonempty. destruct (OffsetCommit.committed_metadata e.2) as [m|]; [|done]. simpl.
    by destruct (str_is_empty m).
  - generalize (OffsetCommitHandler.entries creq). intros l.
    induction l as [|[t' q] l IH] using rev_ind; [done|].
    rewrite !omap_app, !last_app. unfold OffsetCommitHandler.entry_key. simpl.
    case_decide as H1; case_decide as H2; simpl; [|apply offset_key_inj in H1; tauto|by destruct H2 as [<- <-]|exact IH].
    by destruct (nonempty _).
Qed.

(** The store of a group holds what the wire can carry. *)
Definition store_wire (s : OffsetStore) (g : string) : Prop :=
  map_Forall (λ _, i64_ok) (offsets_of s g) ∧ map_Forall (λ _, wire_str) (metadata_of s g).

Lemma commit_store s d g offs meta local ok s' d' r :
  commit_with_metadata s d g offs meta local ok = (s', d', r) →
  offsets_of s' g = offs ∪ offsets_of s g ∧ metadata_of s' g = merge_meta meta (metadata_of s g).
Proof.
  unfold commit_with_metadata, commit_merge, offsets_of, metadata_of. intros Hc.
  assert (∀ b, cache (with_dirty (with_group s g (offs ∪ default ∅ (cache s !! g))
    (Some (merge_meta meta (default ∅ (metadata s !! g))))) b) !! g = Some (offs ∪ default ∅ (cache s !! g)))
    as H1 by (intros b; simpl; apply lookup_insert_eq).
  assert (∀ b, metadata (with_dirty (with_group s g (offs ∪ default ∅ (cache s !! g))
    (Some (merge_meta meta (default ∅ (metadata s !! g))))) b) !! g =
    Some (merge_meta meta (default ∅ (metadata s !! g)))) as H2 by (intros b; simpl; apply lookup_insert_eq).
  destruct (_ || _); [unfold write_group in Hc; destruct (mbind _ _); [|destruct ok]|];
    injection Hc as <- <- <-; cbn in H1, H2 |- *; rewrite (H1 ∅), (H2 ∅); done.
Qed.

Lemma fetch_metadata_lookup s g specs k :
  k ∈ spec_keys specs → fetch_metadata s g specs !! k = metadata_of s g !! k.
Proof.
  rewrite fetch_metadata_of. intros Hin.
  etrans; [apply (foldl_put_lookup id (λ k, metadata_of s g !! k))|].
  revert Hin. generalize (spec_keys specs). intros ks. induction ks as [|k' ks IH] using rev_ind; [set_solver|].
  rewrite omap_app, last_app. simpl. intros Hin. case_decide as Hk; [subst k'|].
  - destruct (metadata_of s g !! k) eqn:E; [done|]. simpl.
    destruct (decide (k ∈ ks)) as [Hks|Hks]; [by apply IH|].
    clear IH Hin. induction ks as [|k' ks IH]; [done|]. simpl.
    rewrite decide_False by set_solver. apply IH. set_solver.
  - simpl. apply IH. set_solver.
Qed.

(** What the coordinator answers for one partition. *)
Definition answer_for (s : OffsetStore) (g t : string) (p : Z) : Z * option string :=
  (default (-1) (offsets_of s g !! offset_key t p), metadata_of s g !! offset_key t p).

Lemma rows_ext f h ts :
  (∀ t p, t ∈ ts → p ∈ OffsetFetch.partition_indexes t → f (OffsetFetch.name t) p = h (OffsetFetch.name t) p) →
  OffsetFetchHandler.rows f ts = OffsetFetchHandler.rows h ts.
Proof.
  intros Hf. unfold OffsetFetchHandler.rows. apply list_fmap_ext. intros i t Ht. f_equal.
  apply list_fmap_ext. intros j p Hp. rewrite Hf; [done|by eapply list_elem_of_lookup_2..].
Qed.

Lemma fetch_group_owner `{GroupAssignmentSource A} (src : A) m g ts :
  is_coordinator src g = true →
  OffsetFetchHandler.fetch_group src (Some m) g ts = (OffsetFetchHandler.rows (answer_for (offsets m) g) ts, 0).
Proof.
  intros Hown. unfold OffsetFetchHandler.fetch_group, offset_fetch. rewrite Hown. simpl. f_equal.
  apply rows_ext. intros t p Ht Hp.
  assert (offset_key (OffsetFetch.name t) p ∈ spec_keys (OffsetFetchHandler.specs_of ts)) as Hin.
  { unfold spec_keys, OffsetFetchHandler.specs_of. apply list_elem_of_bind. eexists. split; [|by apply list_elem_of_fmap_2].
    by apply list_elem_of_fmap_2. }
  unfold answer_for. by rewrite (fetch_lookup _ _ _ _ Hin), (fetch_metadata_lookup _ _ _ _ Hin).
Qed.

(** A request for one group, and its answer, in the layout of the version. *)
Definition fetch_request (version : Z) (g : string) (ts : list OffsetFetch.OffsetFetchTopic) : OffsetFetch.Request :=
  if 8 <=? version then
    {| OffsetFetch.group_id := ""; OffsetFetch.topics := None;
       OffsetFetch.groups := [{| OffsetFetch.g_group_id := g; OffsetFetch.g_topics := ts |}];
       OffsetFetch.require_stable := false |}
  else
    {| OffsetFetch.group_id := g; OffsetFetch.topics := Some ts; OffsetFetch.groups := [];
       OffsetFetch.require_stable := false |}.
Definition fetch_answer (version : Z) (g : string) (rows : list OffsetFetch.OffsetFetchTopicResponse) :
    OffsetFetch.Response :=
  if 8 <=? version then
    {| OffsetFetch.throttle_time_ms := 0; OffsetFetch.r_topics := []; OffsetFetch.error_code := 0;
       OffsetFetch.r_groups :=
         [{| OffsetFetch.gr_group_id := g; OffsetFetch.gr_topics := rows; OffsetFetch.gr_error_code := 0 |}] |}
  else
    {| OffsetFetch.throttle_time_ms := 0; OffsetFetch.r_topics := rows; OffsetFetch.error_code := 0;
       OffsetFetch.r_groups := [] |}.

Lemma rows_ok v s g ts :
  store_wire s g → Forall OffsetFetch.topic_ok ts →
  Forall (OffsetFetch.topic_response_ok v) (OffsetFetchHandler.rows (answer_for s g) ts).
Proof.
  intros [Ho Hm] Hts. apply Forall_fmap. eapply Forall_impl; [exact Hts|].
  intros t (Hn & Hl & Hp). split; [done|]. split; [unfold wire_len in *; simpl; by rewrite length_fmap|].
  apply Forall_fmap. eapply Forall_impl; [exact Hp|]. intros p Hi. unfold answer_for. simpl.
  split; [done|]. split; [|split; [|split; [|split]]]; simpl.
  - destruct (offsets_of s g !! offset_key _ p) eqn:E; simpl; [by eapply Ho|range].
  - range.
  - by intros _.
  - intros x Hx. by eapply Hm.
  - range.
Qed.

#[local] Arguments OffsetFetchHandler.fetch_group : simpl never.

(** OffsetFetch over the wire: the coordinator answers each requested partition
    from its store. *)
Lemma fetch_wire `{GroupAssignmentSource A} (src : A) m g fv ts fbody :
  is_coordinator src g = true → store_wire (offsets m) g → wire_str g → wire_len ts → Forall OffsetFetch.topic_ok ts →
  OffsetFetch.encode_request (fetch_request fv g ts) fv = Ok fbody →
  ∃ bs, OffsetFetchHandler.handle src (Some m) fv fbody = Ok bs ∧
    OffsetFetch.decode_response fv bs =
      Ok (fetch_answer fv g (OffsetFetchHandler.rows (answer_for (offsets m) g) ts), []).
Proof.
  intros Hown Hw Hg Hl Hts He.
  assert (msg_ok fv (fetch_request fv g ts)) as Hok.
  { cbn. unfold fetch_request, OffsetFetch.request_ok. destruct (8 <=? fv); simpl.
    - repeat (split; [done|]). by apply Forall_singleton.
    - repeat (split; [done|]). split; [by intros l [= <-]|done]. }
  pose proof (msg_decode fv (fetch_request fv g ts) fbody Hok He) as Hd. cbn in Hd.
  unfold OffsetFetchHandler.handle. rewrite Hd.
  assert (wire_len (OffsetFetchHandler.rows (answer_for (offsets m) g) ts)) as Hlr
    by (unfold wire_len in *; unfold OffsetFetchHandler.rows; by rewrite length_fmap).
  pose proof (rows_ok fv _ _ _ Hw Hts) as Hr.
  destruct (msg_encodes fv (fetch_answer fv g (OffsetFetchHandler.rows (answer_for (offsets m) g) ts)))
    as (bs & Hb & Hdb).
  { cbn. unfold fetch_answer, OffsetFetch.response_ok. destruct (8 <=? fv); simpl.
    - split; [range|]. repeat (split; [done|]). apply Forall_singleton. repeat (split; [done|]). range.
    - split; [range|]. by repeat (split; [done|]). }
  exists bs. split; [|done]. rewrite <- Hb. cbn. unfold fetch_answer, fetch_request. f_equal.
  destruct (8 <=? fv); simpl; by rewrite fetch_group_owner.
Qed.

Lemma topics_resp_ok creq cv code :
  OffsetCommit.request_ok cv creq → i16_ok code →
  OffsetCommit.response_ok cv
    {| OffsetCommit.throttle_time_ms := 0; OffsetCommit.r_topics := OffsetCommitHandler.topics_resp creq code |}.
Proof.
  intros (_&_&_&_&_&_&Hl&Hts) Hc. split; [range|]. split; [done|]. simpl.
  unfold wire_len, OffsetCommitHandler.topics_resp in *. rewrite length_fmap. split; [done|].
  apply Forall_fmap. eapply Forall_impl; [exact Hts|]. intros t (Hn & Hlp & Hp).
  split; [done|]. simpl. split; [unfold wire_len in *; by rewrite length_fmap|].
  apply Forall_fmap. eapply Forall_impl; [exact Hp|]. by intros p (Hi & _).
Qed.

Lemma entries_ok creq cv :
  OffsetCommit.request_ok cv creq → Forall (λ e, OffsetCommit.partition_ok cv e.2) (OffsetCommitHandler.entries creq).
Proof.
  intros (_&_&_&_&_&_&_&Hts). apply Forall_forall. intros e He.
  apply list_elem_of_bind in He as (t & He & Ht). apply list_elem_of_fmap in He as (p & -> & Hp).
  rewrite Forall_forall in Hts. destruct (Hts t Ht) as (_&_&Hps). rewrite Forall_forall in Hps. by apply Hps.
Qed.

Lemma foldl_put_Forall {A V} (P : V → Prop) (key : A → string) (f : A → option V) (l : list A) (m : gmap string V) :
  map_Forall (λ _, P) m → Forall (λ e, ∀ v, f e = Some v → P v) l →
  map_Forall (λ _, P) (foldl (λ acc e, match f e with Some v => <[key e := v]> acc | None => acc end) m l).
Proof.
  intros Hm Hl. revert m Hm. induction Hl as [|e l He Hl IH]; intros m Hm; [done|]. simpl. apply IH.
  destruct (f e) as [v|]; [|done]. apply map_Forall_insert_2; [by apply He|done].
Qed.

(** What clients commit can be sent back to them. *)
Lemma commit_keeps_wire s g creq cv :
  OffsetCommit.request_ok cv creq → map_Forall (λ _, i64_ok) (offsets_of s g) →
  map_Forall (λ _, wire_str) (metadata_of s g) →
  map_Forall (λ _, i64_ok) (OffsetCommitHandler.offsets_map creq ∪ offsets_of s g) ∧
  map_Forall (λ _, wire_str) (merge_meta (OffsetCommitHandler.metadata_map creq) (metadata_of s g)).
Proof.
  intros Hok Ho Hm. pose proof (entries_ok _ _ Hok) as He. split.
  - apply map_Forall_union_2; [|done].
    apply (foldl_put_Forall i64_ok _ (λ e, Some (OffsetCommit.committed_offset e.2))); [apply map_Forall_empty|].
    eapply Forall_impl; [exact He|]. intros e (_&Hi&_) v [= <-]. done.
  - intros k x. unfold merge_meta. rewrite lookup_merge. intros Hx.
    destruct (OffsetCommitHandler.metadata_map creq !! k) as [y|] eqn:Ey;
      [|destruct (metadata_of s g !! k) eqn:Ez; simpl in Hx; [injection Hx as <-; by eapply Hm|done]].
    assert (x = y) as ->.
    { destruct (metadata_of s g !! k); simpl in Hx; destruct (str_is_empty y); congruence. }
    revert k y Ey Hx. assert (map_Forall (λ _, wire_str) (OffsetCommitHandler.metadata_map creq)) as H;
      [|intros k y Ey _; by eapply H].
    unfold OffsetCommitHandler.metadata_map.
    generalize (map_Forall_empty (λ _ : string, wire_str)). generalize (∅ : gmap string string).
    induction He as [|e l (_&_&_&_&Hs) Hl IH]; intros acc Hacc; [done|]. simpl. apply IH.
    destruct (OffsetCommit.committed_metadata e.2) as [z|] eqn:Ez; [|done].
    destruct (str_is_empty z); [done|]. apply map_Forall_insert_2; [|done]. by apply Hs.
Qed.

(** What a client is answered after the request. *)
Definition expected (creq : OffsetCommit.Request) (s : OffsetStore) (t : string) (p : Z) : Z * option string :=
  let '(before, meta_before) := answer_for s (OffsetCommit.group_id creq) t p in
  (default before (committed_offset_for creq t p),
   match committed_metadata_for creq t p with Some m => Some m | None => meta_before end).

Lemma committed_metadata_nonempty creq t p m : committed_metadata_for creq t p = Some m → str_is_empty m = false.
Proof.
  unfold committed_metadata_for. intros [l Hl]%last_Some.
  assert (m ∈ omap (λ e, nonempty (OffsetCommit.committed_metadata e)) (entries_for creq t p)) as Hin
    by (rewrite Hl; set_solver).
  apply list_elem_of_omap in Hin as (e & _ & He). unfold nonempty in He.
  destruct (OffsetCommit.committed_metadata e) as [x|]; [|done]. simpl in He.
  destruct (str_is_empty x) eqn:Ex; [done|]. by injection He as <-.
Qed.

Lemma expected_answer creq s d local ok s' d' r t p :
  commit_with_metadata s d (OffsetCommit.group_id creq) (OffsetCommitHandler.offsets_map creq)
    (OffsetCommitHandler.metadata_map creq) local ok = (s', d', r) →
  answer_for s' (OffsetCommit.group_id creq) t p = expected creq s t p.
Proof.
  intros (Ho & Hm)%commit_store. unfold expected, answer_for. f_equal.
  - rewrite Ho, lookup_union, offsets_map_lookup.
    by destruct (committed_offset_for creq t p), (offsets_of s (OffsetCommit.group_id creq) !! offset_key t p).
  - rewrite Hm. unfold merge_meta. rewrite lookup_merge, metadata_map_lookup.
    generalize (metadata_of s (OffsetCommit.group_id creq) !! offset_key t p). intros o.
    destruct (committed_metadata_for creq t p) as [m|] eqn:E; [|by destruct o].
    destruct o; simpl; by rewrite (committed_metadata_nonempty _ _ _ _ E).
Qed.

(** C22. Committed offsets are read back over the wire: the coordinator of a group
    answers an OffsetCommit request with one code for every partition, 0 or
    NOT_COORDINATOR, and the next OffsetFetch, at any version of either layout,
    is answered with the last offset the request has for each partition it
    names and with what was committed before for the others; metadata is replaced
    by non-empty metadata only. *)
Theorem commit_then_fetch `{GroupAssignmentSource A} (src : A) m d ok creq cv cbody fv ts fbody :
  let g := OffsetCommit.group_id creq in
  is_coordinator src g = true → store_wire (offsets m) g → OffsetCommit.request_ok cv creq →
  OffsetCommit.encode_request creq cv = Ok cbody →
  wire_len ts → Forall OffsetFetch.topic_ok ts → OffsetFetch.encode_request (fetch_request fv g ts) fv = Ok fbody →
  ∃ mgr' d' cbs code fbs,
    OffsetCommitHandler.handle src ok (Some m) d cv cbody = (mgr', d', Ok cbs) ∧
    OffsetCommit.decode_response cv cbs =
      Ok ({| OffsetCommit.throttle_time_ms := 0;
             OffsetCommit.r_topics := OffsetCommitHandler.topics_resp creq code |}, []) ∧
    (code = 0 ∨ code = NOT_COORDINATOR) ∧
    OffsetFetchHandler.handle src mgr' fv fbody = Ok fbs ∧
    OffsetFetch.decode_response fv fbs =
      Ok (fetch_answer fv g (OffsetFetchHandler.rows (expected creq (offsets m)) ts), []).
Proof.
  intros g Hown [Hwo Hwm] Hok He Hl Hts Hf.
  pose proof (msg_decode cv creq cbody Hok He) as Hd. cbn in Hd.
  unfold OffsetCommitHandler.handle. rewrite Hd. unfold offset_commit. fold g. rewrite Hown. simpl.
  destruct (commit_with_metadata _ _ _ _ _ _ _) as [[s' d'] r] eqn:Ec.
  set (code := match r with Err (FencedOffsetWrite _ _) => NOT_COORDINATOR | _ => 0 end).
  assert (code = 0 ∨ code = NOT_COORDINATOR) as Hcode
    by (unfold code; destruct r as [|[]]; by auto).
  destruct (msg_encodes cv {| OffsetCommit.throttle_time_ms := 0;
    OffsetCommit.r_topics := OffsetCommitHandler.topics_resp creq code |}) as (cbs & Hcb & Hcd).
  { apply topics_resp_ok; [done|]. destruct Hcode as [->| ->]; unfold NOT_COORDINATOR; range. }
  destruct (fetch_wire src (with_offsets m s') g fv ts fbody) as (fbs & Hfb & Hfd); try done.
  { destruct (commit_store _ _ _ _ _ _ _ _ _ _ Ec) as [Ho Hm]. unfold store_wire. simpl. rewrite Ho, Hm.
    by apply (commit_keeps_wire _ _ _ cv). }
  { exact (proj1 Hok). }
  exists (Some (with_offsets m s')), d', cbs, code, fbs.
  split; [by rewrite <- Hcb|]. split; [done|]. split; [done|]. split; [done|]. rewrite Hfd. do 3 f_equal.
  apply rows_ext. intros t p _ _. by eapply expected_answer.
Qed.

Definition demo_creq : OffsetCommit.Request :=
  {| OffsetCommit.group_id := "g"; OffsetCommit.generation_id := 1; OffsetCommit.member_id := "m";
     OffsetCommit.group_instance_id := None;
     OffsetCommit.topics := [{| OffsetCommit.name := "t"; OffsetCommit.partitions :=
       [{| OffsetCommit.partition_index := 0; OffsetCommit.committed_offset := 5;
           OffsetCommit.committed_leader_epoch := -1; OffsetCommit.committed_metadata := Some "x" |};
        {| OffsetCommit.partition_index := 0; OffsetCommit.committed_offset := 7;
           OffsetCommit.committed_leader_epoch := -1; OffsetCommit.committed_metadata := None |}] |}] |}.
Definition demo_topics : list OffsetFetch.OffsetFetchTopic :=
  [{| OffsetFetch.name := "t"; OffsetFetch.partition_indexes := [0; 1] |}].

Example demo_expected :
  OffsetFetchHandler.rows (expected demo_creq OffsetStore_new) demo_topics =
  [{| OffsetFetch.t_name := "t";
      OffsetFetch.t_partitions := [OffsetFetchHandler.row 0 7 (Some "x"); OffsetFetchHandler.row 1 (-1) None] |}].
Proof. vm_compute. reflexivity. Qed.

Lemma demo_request_ok creq :
  wire_str (OffsetCommit.group_id creq) → i32_ok (OffsetCommit.generation_id creq) →
  wire_str (OffsetCommit.member_id creq) → OffsetCommit.group_instance_id creq = None →
  OffsetCommit.topics creq = OffsetCommit.topics demo_creq → OffsetCommit.request_ok 6 creq.
Proof.
  intros Hg Hn Hm Hi Ht. unfold OffsetCommit.request_ok. rewrite Hi, Ht.
  repeat (split; [done|]). apply Forall_singleton. split; [done|]. split; [done|]. simpl.
  rewrite !Forall_cons, Forall_nil. unfold OffsetCommit.partition_ok. simpl.
  split; [|split; [|done]]; repeat (split; [done|]); [by intros ? [= <-]|done].
Qed.

Lemma commit_then_fetch_witness :
  ∃ mgr' d' cbs code fbs,
    OffsetCommitHandler.handle (broker_at "kaas-0" 1 "kaas-0") true (Some Manager_new) ∅ 6
      (bytes_of (OffsetCommit.encode_request demo_creq 6)) = (mgr', d', Ok cbs) ∧
    OffsetCommit.decode_response 6 cbs =
      Ok ({| OffsetCommit.throttle_time_ms := 0;
             OffsetCommit.r_topics := OffsetCommitHandler.topics_resp demo_creq code |}, []) ∧
    (code = 0 ∨ code = NOT_COORDINATOR) ∧
    OffsetFetchHandler.handle (broker_at "kaas-0" 1 "kaas-0") mgr' 8
      (bytes_of (OffsetFetch.encode_request (fetch_request 8 "g" demo_topics) 8)) = Ok fbs ∧
    OffsetFetch.decode_response 8 fbs =
      Ok (fetch_answer 8 "g" (OffsetFetchHandler.rows (expected demo_creq OffsetStore_new) demo_topics), []).
Proof.
  apply (commit_then_fetch (broker_at "kaas-0" 1 "kaas-0") Manager_new ∅ true demo_creq 6
    (bytes_of (OffsetCommit.encode_request demo_creq 6)) 8 demo_topics
    (bytes_of (OffsetFetch.encode_request (fetch_request 8 "g" demo_topics) 8))).
  - vm_compute. reflexivity.
  - split; intros k x Hx; vm_compute in Hx; discriminate Hx.
  - by apply demo_request_ok.
  - vm_compute. reflexivity.
  - done.
  - apply Forall_singleton. split; [done|]. split; [done|]. simpl. by rewrite !Forall_cons, Forall_nil.
  - vm_compute. reflexivity.
Defined.

(** Nobody checks who commits: the handler's answer and effect do not depend on the
    generation, the member or the instance the request names, so a consumer the
    group has evicted, or that never joined, moves the group's offsets. *)
Theorem commit_ignores_membership `{GroupAssignmentSource A} (src : A) ok mgr d creq creq' cv body body' :
  OffsetCommit.request_ok cv creq → OffsetCommit.request_ok cv creq' →
  OffsetCommit.encode_request creq cv = Ok body → OffsetCommit.encode_request creq' cv = Ok body' →
  OffsetCommit.group_id creq = OffsetCommit.group_id creq' → OffsetCommit.topics creq = OffsetCommit.topics creq' →
  OffsetCommitHandler.handle src ok mgr d cv body = OffsetCommitHandler.handle src ok mgr d cv body'.
Proof.
  intros H1 H2 E1 E2 Hg Ht. unfold OffsetCommitHandler.handle.
  pose proof (msg_decode cv creq body H1 E1) as Hd1. pose proof (msg_decode cv creq' body' H2 E2) as Hd2.
  cbn in Hd1, Hd2. rewrite Hd1, Hd2. destruct creq, creq'. simpl in Hg, Ht. by subst.
Qed.

Definition demo_zombie : OffsetCommit.Request :=
  {| OffsetCommit.group_id := "g"; OffsetCommit.generation_id := 0; OffsetCommit.member_id := "evicted";
     OffsetCommit.group_instance_id := None; OffsetCommit.topics := OffsetCommit.topics demo_creq |}.

Lemma commit_ignores_membership_witness :
  OffsetCommitHandler.handle (broker_at "kaas-0" 1 "kaas-0") true (Some Manager_new) ∅ 6
    (bytes_of (OffsetCommit.encode_request demo_creq 6)) =
  OffsetCommitHandler.handle (broker_at "kaas-0" 1 "kaas-0") true (Some Manager_new) ∅ 6
    (bytes_of (OffsetCommit.encode_request demo_zombie 6)).
Proof.
  apply (commit_ignores_membership _ _ _ _ demo_creq demo_zombie).
  - by apply demo_request_ok.
  - by apply demo_request_ok.
  - vm_compute. reflexivity.
  - vm_compute. reflexivity.
  - reflexivity.
  - reflexivity.
Defined.

(** A client that asks for every committed offset is told that there is none. *)
Lemma fetch_all_returns_nothing `{GroupAssignmentSource A} (src : A) m g fv body :
  is_coordinator src g = true → 2 ≤ fv < 8 → wire_str g →
  OffsetFetch.encode_request
    {| OffsetFetch.group_id := g; OffsetFetch.topics := None; OffsetFetch.groups := [];
       OffsetFetch.require_stable := false |} fv = Ok body →
  OffsetFetchHandler.handle src (Some m) fv body = OffsetFetch.encode_response (fetch_answer fv g []) fv.
Proof.
  intros Hown Hv Hg He. unfold OffsetFetchHandler.handle.
  assert (8 <=? fv = false) as H8 by lia.
  match type of He with OffsetFetch.encode_request ?r _ = _ =>
    pose proof (msg_decode fv r body) as Hd end.
  cbn in Hd. rewrite Hd; [|unfold OffsetFetch.request_ok; rewrite H8; by repeat (split; [done|])|done].
  rewrite H8. simpl. rewrite fetch_group_owner by done. unfold fetch_answer. by rewrite H8.
Qed.

(** ** Assignments over the wire *)

(** The fields a version does not carry are as if they were unset. *)
Definition visible (v : Z) (r : SyncGroup.Response) : SyncGroup.Response :=
  if 5 <=? v then r
  else {| SyncGroup.throttle_time_ms := SyncGroup.throttle_time_ms r; SyncGroup.error_code := SyncGroup.error_code r;
          SyncGroup.r_protocol_type := ""; SyncGroup.r_protocol_name := "";
          SyncGroup.assignment := SyncGroup.assignment r |}.

Lemma encode_visible v r : SyncGroup.encode_response r v = SyncGroup.encode_response (visible v r) v.
Proof. unfold visible, SyncGroup.encode_response. by destruct (5 <=? v). Qed.

(** C21. The leader's plan reaches the members, byte for byte and over the wire: when
    the leader of a reachable group sends SyncGroup, every follower parked on the
    round is woken, and the response it is sent decodes, at its own version,
    to success and exactly the assignment the leader's request has for it. *)
Theorem assignment_delivered `{GroupAssignmentSource A} (src : A) m g id es req v body t m' p
    (q : PendingSync) fv a :
  groups m !! SyncGroup.group_id req = Some g → g = foldl exec (Group_new id) es →
  SyncGroup.request_ok v req → SyncGroup.encode_request req v = Ok body →
  SyncGroup.member_id req = leader_id g →
  SyncGroupHandler.handle src t (Some m) v body = (Some m', Parked (p, v)) →
  NoDup (SyncGroup.a_member_id <$> SyncGroup.assignments req) →
  {| SyncGroup.a_member_id := ps_member q; SyncGroup.a_assignment := Some a |} ∈ SyncGroup.assignments req →
  ps_round q = ps_round p → wire_str (ps_protocol_type q) → wire_str (ps_protocol_name q) →
  ∃ g' r, groups m' !! SyncGroup.group_id req = Some g' ∧ rounds g !! ps_round p = Some r ∧
    (∀ w, w ∈ waiters r → SyncWake w ∈ outbox g') ∧
    ∃ bs resp, SyncGroupHandler.resume g' (q, fv) = Ok bs ∧ SyncGroup.decode_response fv bs = Ok (resp, []) ∧
      SyncGroup.error_code resp = 0 ∧ SyncGroup.assignment resp = a.
Proof.
  intros Hg -> Hok He Hl Hh Hnd Hin Hq Hpt Hpn.
  pose proof (msg_decode v req body Hok He) as Hd. cbn in Hd.
  unfold SyncGroupHandler.handle in Hh. rewrite Hd in Hh. unfold sync_group in Hh.
  destruct (negb _); [done|]. rewrite Hg in Hh.
  destruct (sync _ _ t) as [g1 [out|p']] eqn:Es; [done|]. injection Hh as <- ->.
  destruct (leader_publishes _ _ _ _ _ (reachable_inv id es) Es Hl) as (r & r' & Hr & Hr' & Hd' & Hc & _ & Hw & Ha).
  exists g1, r. split; [apply lookup_insert_eq|]. split; [done|]. split; [done|].
  assert (assignments r' !! ps_member q = Some a) as Has.
  { apply Ha; simpl; [by rewrite <- list_fmap_compose|].
    apply list_elem_of_fmap. eexists. by split; [|exact Hin]. }
  assert (wire_len a) as Hla.
  { destruct Hok as (_&_&_&_&_&_&_&_&_&Hf). rewrite Forall_forall in Hf. by apply (proj2 (Hf _ Hin)). }
  assert (sync_resume g1 q = {| so_error := NONE; so_protocol_type := ps_protocol_type q;
    so_protocol_name := ps_protocol_name q; so_assignment := a |}) as Hres.
  { unfold sync_resume, lookup_round. by rewrite Hq, Hr', Hc, Has. }
  unfold SyncGroupHandler.resume. cbn [fst snd]. rewrite Hres, encode_visible.
  match goal with |- context [SyncGroup.encode_response ?x _] => destruct (msg_encodes fv x) as (bs & Hb & Hdb) end.
  - cbn. unfold visible, SyncGroup.response_ok, gated, NONE.
    destruct (5 <=? fv); simpl; (split; [range|]); (split; [done|]); (split; [range|]); by repeat (split; [done|]).
  - exists bs. eexists. split; [exact Hb|]. split; [exact Hdb|]. unfold visible. by destruct (5 <=? fv).
Qed.

(** The follower "b" is parked; the leader "a" sends its plan at version 3, the
    follower reads its response at version 5. *)
Definition demo_manager : Manager := {| offsets := OffsetStore_new; groups := {["g" := joined]} |}.
Definition demo_plan : SyncGroup.Request :=
  {| SyncGroup.group_id := "g"; SyncGroup.generation_id := 1; SyncGroup.member_id := "a";
     SyncGroup.group_instance_id := None; SyncGroup.protocol_type := None; SyncGroup.protocol_name := None;
     SyncGroup.assignments :=
       [{| SyncGroup.a_member_id := "a"; SyncGroup.a_assignment := None |};
        {| SyncGroup.a_member_id := "b"; SyncGroup.a_assignment := Some [x0b] |}] |}.
Definition demo_follower : PendingSync :=
  {| ps_round := 0; ps_member := "b"; ps_protocol_type := "consumer"; ps_protocol_name := "range" |}.
Definition demo_handled : option Manager * Started (PendingSync * Z) :=
  SyncGroupHandler.handle (broker_at "kaas-0" 1 "kaas-0") 4 (Some demo_manager) 3
    (bytes_of (SyncGroup.encode_request demo_plan 3)).

Lemma assignment_delivered_witness :
  ∃ g' r, groups (default Manager_new demo_handled.1) !! "g"%string = Some g' ∧ rounds joined !! 0%nat = Some r ∧
    (∀ w, w ∈ waiters r → SyncWake w ∈ outbox g') ∧
    ∃ bs resp, SyncGroupHandler.resume g' (demo_follower, 5) = Ok bs ∧
      SyncGroup.decode_response 5 bs = Ok (resp, []) ∧
      SyncGroup.error_code resp = 0 ∧ SyncGroup.assignment resp = [x0b].
Proof.
  apply (assignment_delivered (broker_at "kaas-0" 1 "kaas-0") demo_manager joined "g" joined_run demo_plan 3
    (bytes_of (SyncGroup.encode_request demo_plan 3)) 4 (default Manager_new demo_handled.1)
    {| ps_round := 0; ps_member := "a"; ps_protocol_type := "consumer"; ps_protocol_name := "range" |}
    demo_follower 5 [x0b]).
  - reflexivity.
  - reflexivity.
  - repeat (split; [done|]). simpl. rewrite !Forall_cons, Forall_nil.
    repeat split; try done; by intros ? [= <-].
  - vm_compute. reflexivity.
  - vm_compute. reflexivity.
  - vm_compute. reflexivity.
  - apply (bool_decide_eq_true_1 _). vm_compute. reflexivity.
  - right. left.
  - reflexivity.
  - done.
  - done.
Defined.
