(* ===== verification/Auth.v ===== *)
(** * Authentication mechanisms

    [kaas-auth]: the credential store ([credentials.rs]), the SASL exchanges
    PLAIN ([plain.rs]), SCRAM-SHA-512 ([scram.rs]) and OAUTHBEARER ([oauth.rs]),
    client certificates ([mtls.rs], [principal_mapping.rs]) and the engines that
    listeners are bound to ([engine.rs], [selector.rs]).

    Cryptography, Base64, JSON text, regular expressions and certificates come
    from external crates: they are the fields of [Crypto], and what is relied on
    of them is [CryptoLaws].  A [&str] is its bytes; what is drawn at random (the
    nonce suffix) and the clock are arguments.  Metrics and logging are left out. *)

From stdpp Require Import base gmap strings list pretty.
From Stdlib Require Import Strings.Byte Strings.Ascii.
From S2P Require Import Prelude Primitives OffsetStore Acls.

Local Open Scope Z_scope.

Inductive AuthError :=
| UnknownMechanism (m : string) | MalformedSaslMessage | BadCredentials | BadCertificate
| InvalidToken (reason : string) | AuthIo | AuthJson | AuthRegex | AuthBase64
| PrincipalMappingParse | X509.

(** ** Searching bytes *)

(** Where a byte string starts with another one. *)
Definition starts_with (needle hay : list byte) : bool :=
  bool_decide (take (length needle) hay = needle).

Fixpoint find_bytes (needle hay : list byte) : option nat :=
  if starts_with needle hay then Some 0%nat
  else match hay with [] => None | _ :: hay' => S <$> find_bytes needle hay' end.

Fixpoint rfind_bytes (needle hay : list byte) : option nat :=
  match hay with
  | [] => if starts_with needle [] then Some 0%nat else None
  | _ :: hay' =>
    match rfind_bytes needle hay' with
    | Some i => Some (S i)
    | None => if starts_with needle hay then Some 0%nat else None
    end
  end.

Fixpoint split_on (c : byte) (l : list byte) : list (list byte) :=
  match l with
  | [] => [[]]
  | x :: l' =>
    if decide (x = c) then [] :: split_on c l'
    else match split_on c l' with [] => [[x]] | p :: ps => (x :: p) :: ps end
  end.

Fixpoint split_once (c : byte) (l : list byte) : option (list byte * list byte) :=
  match l with
  | [] => None
  | x :: l' =>
    if decide (x = c) then Some ([], l')
    else match split_once c l' with Some (a, b) => Some (x :: a, b) | None => None end
  end.

Definition strip_prefix (p l : list byte) : option (list byte) :=
  if starts_with p l then Some (drop (length p) l) else None.
Definition strip_suffix (p l : list byte) : option (list byte) :=
  if bool_decide (drop (length l - length p) l = p) && (length p <=? length l)%nat
  then Some (take (length l - length p) l) else None.

Definition ascii_lower (b : byte) : byte :=
  if (65 <=? b2z b) && (b2z b <=? 90) then z2b (b2z b + 32) else b.
Definition eq_ignore_ascii_case (a b : list byte) : bool :=
  bool_decide (ascii_lower <$> a = ascii_lower <$> b).

Definition xor_bytes (a b : list byte) : list byte :=
  zip_with (λ p c, z2b (Z.lxor (b2z p) (b2z c))) a b.

(** ** Parsed JSON *)

Inductive json :=
| JNull | JBool (b : bool) | JInt (z : Z) | JFloat | JStr (s : list byte)
| JArr (l : list json) | JObj (fields : list (list byte * json)).

Definition jget (name : string) (j : json) : option json :=
  match j with
  | JObj fields => snd <$> find (λ f, bool_decide (f.1 = as_bytes name)) fields
  | _ => None
  end.
Definition as_i64 (j : json) : option Z :=
  match j with JInt z => if (- i64_max - 1 <=? z) && (z <=? i64_max) then Some z else None | _ => None end.
Definition as_json_str (j : json) : option (list byte) := match j with JStr s => Some s | _ => None end.

(** ** The external crates *)

Record Crypto := {
  hmac_sha512 : list byte → list byte → list byte;
  sha512 : list byte → list byte;
  b64_encode : list byte → list byte;
  b64_decode : list byte → option (list byte);
  b64_nopad_encode : list byte → list byte;
  b64url_decode : list byte → option (list byte);
  from_json : list byte → option json;
  rsa_verify : Z → list byte → list byte → list byte → list byte → bool;
  p256_verify : list byte → list byte → list byte → bool }.

(** Bytes Base64 never yields besides its alphabet. *)
Definition plain_ascii (l : list byte) : Prop := Forall (λ b, b2z b < 128 ∧ b ≠ x2c) l.

(** What the crates document: a MAC of 64 bytes, Base64 that decodes what it
    encodes and whose alphabet is ASCII without the comma. *)
Class CryptoLaws (C : Crypto) : Prop := {
  hmac_length k m : length (hmac_sha512 C k m) = 64%nat;
  b64_roundtrip l : b64_decode C (b64_encode C l) = Some l;
  b64_ascii l : plain_ascii (b64_encode C l);
  b64_nopad_ascii l : plain_ascii (b64_nopad_encode C l) }.

(** ** Credentials *)

Record ScramCreds := { stored_key : list byte; server_key : list byte; salt : list byte; iterations : Z }.
Record ScramInfo := { si_mechanism : string; si_iterations : Z }.
Record Quotas := { producer_rate : option Z; consumer_rate : option Z; request_percentage : option Z }.

(** The file's entries, after JSON decoding. *)
Record ScramJson := { sj_salt : string; sj_stored_key : string; sj_server_key : string; sj_iterations : Z }.
Record SaJson := { sa_name : string; sa_namespace : string }.
Record CredUser := {
  cu_username : string; cu_auth_type : string; cu_scram : option ScramJson; cu_tls_cn : option string;
  cu_sa : option SaJson; cu_quotas : option Quotas; cu_plain_password : option string }.

Record LoadedCred := {
  auth_type : string; lc_scram : option ScramCreds; lc_tls_cn : option string;
  lc_sa_namespace : string; lc_sa_name : string; lc_quotas : option Quotas; lc_plain_password : option string }.

Record CredState := { by_username : gmap string LoadedCred; by_cn : gmap string string; by_sa : gset string }.
Definition CredState_empty : CredState := {| by_username := ∅; by_cn := ∅; by_sa := ∅ |}.

Inductive CredFile := CredMissing | CredUnreadable | CredMalformed | CredUsers (users : list CredUser).

Definition b64_str (C : Crypto) (s : string) : result AuthError (list byte) :=
  match b64_decode C (as_bytes s) with Some l => Ok l | None => Err AuthBase64 end.

(** One round of the loop of [reload]. *)
Definition load_user (C : Crypto) (st : CredState) (u : CredUser) : result AuthError CredState :=
  let cred scram cn ns name :=
    {| auth_type := cu_auth_type u; lc_scram := scram; lc_tls_cn := cn; lc_sa_namespace := ns;
       lc_sa_name := name; lc_quotas := cu_quotas u; lc_plain_password := cu_plain_password u |} in
  let put c cns sas := {| by_username := <[cu_username u := c]> (by_username st); by_cn := cns; by_sa := sas |} in
  if decide (cu_auth_type u = "scram-sha-512"%string) then
    match cu_scram u with
    | None => Ok (put (cred None None "" "") (by_cn st) (by_sa st))
    | Some s =>
      stored ← b64_str C (sj_stored_key s);
      server ← b64_str C (sj_server_key s);
      slt ← b64_str C (sj_salt s);
      Ok (put (cred (Some {| stored_key := stored; server_key := server; salt := slt;
                             iterations := sj_iterations s |}) None "" "") (by_cn st) (by_sa st))
    end
  else if decide (cu_auth_type u = "tls"%string) then
    Ok (put (cred None (cu_tls_cn u) "" "")
          (match cu_tls_cn u with
           | Some cn => if str_is_empty cn then by_cn st else <[cn := cu_username u]> (by_cn st)
           | None => by_cn st
           end) (by_sa st))
  else if decide (cu_auth_type u = "kubernetes-serviceaccount"%string) then
    match cu_sa u with
    | Some sa =>
      Ok (put (cred None None (sa_namespace sa) (sa_name sa)) (by_cn st)
            ({[sa_namespace sa +:+ "/" +:+ sa_name sa]} ∪ by_sa st))
    | None => Ok (put (cred None None "" "") (by_cn st) (by_sa st))
    end
  else Ok (put (cred None None "" "") (by_cn st) (by_sa st)).

Fixpoint load_users (C : Crypto) (st : CredState) (us : list CredUser) : result AuthError CredState :=
  match us with [] => Ok st | u :: us' => st' ← load_user C st u; load_users C st' us' end.

(** The new state replaces the old one only when the whole file loads. *)
Definition reload_credentials (C : Crypto) (st : CredState) (f : CredFile) : CredState * result AuthError unit :=
  match f with
  | CredMissing => (CredState_empty, Ok tt)
  | CredUnreadable => (st, Err AuthIo)
  | CredMalformed => (st, Err AuthJson)
  | CredUsers us =>
    match load_users C CredState_empty us with
    | Ok st' => (st', Ok tt)
    | Err e => (st, Err e)
    end
  end.

Definition lookup_scram (st : CredState) (username : string) : option ScramCreds :=
  c ← by_username st !! username;
  if decide (auth_type c = "scram-sha-512"%string) then lc_scram c else None.
Definition lookup_tls (st : CredState) (cn : string) : option string := by_cn st !! cn.
Definition lookup_sa (st : CredState) (namespace name : string) : bool :=
  bool_decide (namespace +:+ "/" +:+ name ∈ by_sa st).
Definition lookup_quotas (st : CredState) (username : string) : option Quotas :=
  by_username st !! username ≫= lc_quotas.
Definition lookup_plain_password (st : CredState) (username : string) : option string :=
  by_username st !! username ≫= lc_plain_password.
Definition list_all_scram_users (st : CredState) : gmap string ScramInfo :=
  omap (λ c, if decide (auth_type c = "scram-sha-512"%string)
             then Some {| si_mechanism := "SCRAM-SHA-512";
                          si_iterations := default 0 (iterations <$> lc_scram c) |}
             else None) (by_username st).
Definition list_all_quotas (st : CredState) : gmap string Quotas := omap lc_quotas (by_username st).

Definition user (name : list byte) : Principal := {| p_name := of_bytes name; p_kind := User |}.

(** ** PLAIN *)

Definition plain_step (st : CredState) (msg : list byte) : result AuthError Principal :=
  match split_once x00 msg with
  | None => Err MalformedSaslMessage
  | Some (_, rest) =>
    match split_once x00 rest with
    | None => Err MalformedSaslMessage
    | Some (authcid, password) =>
      if bool_decide (authcid = []) || bool_decide (password = []) then Err MalformedSaslMessage
      else if negb (valid_utf8 authcid) then Err MalformedSaslMessage
      else
        match lookup_plain_password st (of_bytes authcid) with
        | None => Err BadCredentials
        | Some expected =>
          if decide (password = as_bytes expected) then Ok (user authcid) else Err BadCredentials
        end
    end
  end.

(** ** SCRAM-SHA-512 *)

Inductive ScramState := ScramStart | ScramAwaitFinal | ScramDone.
#[export] Instance ScramState_eq_dec : EqDecision ScramState.
Proof. solve_decision. Defined.

Record ScramExchange := {
  sx_state : ScramState; sx_username : list byte; client_first_bare : list byte; server_first : list byte;
  sx_stored_key : list byte; sx_server_key : list byte; full_nonce : list byte; sx_principal : option Principal }.

Definition ScramExchange_new : ScramExchange :=
  {| sx_state := ScramStart; sx_username := []; client_first_bare := []; server_first := [];
     sx_stored_key := []; sx_server_key := []; full_nonce := []; sx_principal := None |}.

(** Attributes by their one-byte name; of a repeated one the last is kept. *)
Definition parse_attr (part : list byte) : option (Z * list byte) :=
  match part with
  | k :: e :: v => if decide (e = x3d) then Some (b2z k, v) else None
  | _ => None
  end.
Definition parse_attrs (s : list byte) : gmap Z (list byte) := collect (omap parse_attr (split_on x2c s)).

Definition attr_n : Z := 110.
Definition attr_r : Z := 114.

(** The exchange keeps what was set before an error. *)
Definition handle_client_first (C : Crypto) (st : CredState) (suffix : list byte) (x : ScramExchange)
    (msg : list byte) : ScramExchange * result AuthError (list byte * bool) :=
  if negb (valid_utf8 msg) then (x, Err MalformedSaslMessage)
  else
    match find_bytes (as_bytes ",,") msg with
    | None => (x, Err MalformedSaslMessage)
    | Some i =>
      let bare := drop (i + 2) msg in
      let x1 := {| sx_state := sx_state x; sx_username := sx_username x; client_first_bare := bare;
                   server_first := server_first x; sx_stored_key := sx_stored_key x;
                   sx_server_key := sx_server_key x; full_nonce := full_nonce x; sx_principal := sx_principal x |} in
      match parse_attrs bare !! attr_n, parse_attrs bare !! attr_r with
      | Some username, Some client_nonce =>
        let x2 := {| sx_state := sx_state x; sx_username := username; client_first_bare := bare;
                     server_first := server_first x; sx_stored_key := sx_stored_key x;
                     sx_server_key := sx_server_key x; full_nonce := full_nonce x; sx_principal := sx_principal x |} in
        match lookup_scram st (of_bytes username) with
        | None => (x2, Err BadCredentials)
        | Some creds =>
          let nonce := client_nonce ++ b64_nopad_encode C suffix in
          let sf := as_bytes "r=" ++ nonce ++ as_bytes ",s=" ++ b64_encode C (salt creds)
                      ++ as_bytes ",i=" ++ as_bytes (pretty (iterations creds)) in
          ({| sx_state := ScramAwaitFinal; sx_username := username; client_first_bare := bare; server_first := sf;
              sx_stored_key := stored_key creds; sx_server_key := server_key creds; full_nonce := nonce;
              sx_principal := sx_principal x |}, Ok (sf, false))
        end
      | _, _ => (x1, Err MalformedSaslMessage)
      end
    end.

Definition auth_message (x : ScramExchange) (client_final_without_proof : list byte) : list byte :=
  client_first_bare x ++ as_bytes "," ++ server_first x ++ as_bytes "," ++ client_final_without_proof.

Definition handle_client_final (C : Crypto) (x : ScramExchange) (msg : list byte) :
    ScramExchange * result AuthError (list byte * bool) :=
  if negb (valid_utf8 msg) then (x, Err MalformedSaslMessage)
  else
    match rfind_bytes (as_bytes ",p=") msg with
    | None => (x, Err MalformedSaslMessage)
    | Some i =>
      let without_proof := take i msg in
      match parse_attrs without_proof !! attr_r with
      | None => (x, Err MalformedSaslMessage)
      | Some nonce =>
        if negb (bool_decide (nonce = full_nonce x)) then (x, Err BadCredentials)
        else
          match b64_decode C (drop (i + 3) msg) with
          | None => (x, Err AuthBase64)
          | Some client_proof =>
            let am := auth_message x without_proof in
            let client_sig := hmac_sha512 C (sx_stored_key x) am in
            if negb (length client_proof =? length client_sig)%nat then (x, Err BadCredentials)
            else if negb (bool_decide (sha512 C (xor_bytes client_proof client_sig) = sx_stored_key x))
            then (x, Err BadCredentials)
            else
              ({| sx_state := ScramDone; sx_username := sx_username x; client_first_bare := client_first_bare x;
                  server_first := server_first x; sx_stored_key := sx_stored_key x;
                  sx_server_key := sx_server_key x; full_nonce := full_nonce x;
                  sx_principal := Some (user (sx_username x)) |},
               Ok (as_bytes "v=" ++ b64_encode C (hmac_sha512 C (sx_server_key x) am), true))
          end
      end
    end.

Definition scram_step (C : Crypto) (st : CredState) (suffix : list byte) (x : ScramExchange) (msg : list byte) :
    ScramExchange * result AuthError (list byte * bool) :=
  match sx_state x with
  | ScramStart => handle_client_first C st suffix x msg
  | ScramAwaitFinal => handle_client_final C x msg
  | ScramDone => (x, Err MalformedSaslMessage)
  end.

Definition keys_from_salted_password (C : Crypto) (salted : list byte) : list byte * list byte :=
  let client_key := hmac_sha512 C salted (as_bytes "Client Key") in
  (sha512 C client_key, hmac_sha512 C salted (as_bytes "Server Key")).

(** ** OAUTHBEARER *)

Definition CLOCK_SKEW_SECS : Z := 60.
Definition FAILURE_CHALLENGE : list byte :=
  x7b :: x22 :: as_bytes "status" ++ [x22; x3a; x22] ++ as_bytes "invalid_token" ++ [x22; x7d].

Record OauthConfig := {
  valid_issuer_uri : string; jwks_endpoint_uri : string; user_name_claim : option string;
  fallback_user_name_claim : option string; check_audience : bool; client_id : option string;
  jwks_refresh_seconds : Z; max_seconds_without_reauthentication : option Z }.

Inductive VerifyKey :=
| Rsa (kid : option (list byte)) (n e : list byte)
| P256 (kid : option (list byte)) (point : list byte).
Definition key_kid (k : VerifyKey) : option (list byte) := match k with Rsa kid _ _ | P256 kid _ => kid end.

Record ValidatedToken := { vt_principal : list byte; exp_unix : Z }.
Record OauthValidator := { cfg : OauthConfig; keys : list VerifyKey; refresh_hint : bool }.

Definition OauthValidator_new (c : OauthConfig) : OauthValidator := {| cfg := c; keys := []; refresh_hint := false |}.
Definition with_hint (v : OauthValidator) (h : bool) : OauthValidator :=
  {| cfg := cfg v; keys := keys v; refresh_hint := h |}.
Definition has_keys (v : OauthValidator) : bool := negb (bool_decide (length (keys v) = 0%nat)).
Definition take_refresh_hint (v : OauthValidator) : OauthValidator * bool := (with_hint v false, refresh_hint v).

Definition pad32 (l : list byte) : list byte := replicate (32 - length l) x00 ++ l.

Definition parse_jwk (C : Crypto) (k : json) : option VerifyKey :=
  let str name := jget name k ≫= as_json_str in
  let field name := str name ≫= b64url_decode C in
  if negb (default true ((λ u, bool_decide (u = as_bytes "sig")) <$> str "use"%string)) then None
  else
    let kid := str "kid"%string in
    match str "kty"%string with
    | Some kty =>
      if decide (kty = as_bytes "RSA") then
        n ← field "n"%string; e ← field "e"%string; Some (Rsa kid n e)
      else if decide (kty = as_bytes "EC") then
        if negb (bool_decide (str "crv"%string = Some (as_bytes "P-256"))) then None
        else
          x ← field "x"%string; y ← field "y"%string;
          if (32 <? length x)%nat || (32 <? length y)%nat then None
          else Some (P256 kid (x04 :: pad32 x ++ pad32 y))
      else None
    | None => None
    end.

(** A document without keys is refused and keeps the old ones. *)
Definition install_jwks (C : Crypto) (v : OauthValidator) (text : list byte) : OauthValidator * result AuthError nat :=
  match from_json C text with
  | None => (v, Err AuthJson)
  | Some doc =>
    match jget "keys" doc with
    | Some (JArr raw) =>
      let ks := omap (parse_jwk C) raw in
      ({| cfg := cfg v; keys := ks; refresh_hint := refresh_hint v |}, Ok (length ks))
    | _ => (v, Err (InvalidToken "JWKS document has no `keys` array"))
    end
  end.

(** [Some (Some bits)]: RSA with that digest; [Some None]: ES256. *)
Definition alg_params (alg : list byte) : option (option Z) :=
  if decide (alg = as_bytes "RS256") then Some (Some 256)
  else if decide (alg = as_bytes "RS384") then Some (Some 384)
  else if decide (alg = as_bytes "RS512") then Some (Some 512)
  else if decide (alg = as_bytes "ES256") then Some None
  else None.

(** Whether a key is tried at all, and what it says. *)
Definition key_verdict (C : Crypto) (params : option Z) (msg sig : list byte) (k : VerifyKey) : option bool :=
  match k, params with
  | Rsa _ n e, Some bits => Some (rsa_verify C bits n e msg sig)
  | P256 _ point, None => Some (p256_verify C point msg sig)
  | _, _ => None
  end.

(** The loop over the keys: accepted, or the number of candidates tried. *)
Fixpoint try_keys (C : Crypto) (kid : option (list byte)) (params : option Z) (msg sig : list byte)
    (ks : list VerifyKey) (candidates : nat) : bool * nat :=
  match ks with
  | [] => (false, candidates)
  | k :: ks' =>
    if match kid with Some want => negb (bool_decide (key_kid k = Some want)) | None => false end
    then try_keys C kid params msg sig ks' candidates
    else
      match key_verdict C params msg sig k with
      | Some true => (true, S candidates)
      | Some false => try_keys C kid params msg sig ks' (S candidates)
      | None => try_keys C kid params msg sig ks' candidates
      end
  end.

Definition verify_signature (C : Crypto) (v : OauthValidator) (alg : list byte) (kid : option (list byte))
    (msg sig : list byte) : OauthValidator * result AuthError bool :=
  match alg_params alg with
  | None => (v, Err (InvalidToken "token alg is not in the RS256/RS384/RS512/ES256 allowlist"))
  | Some params =>
    if negb (has_keys v) then (with_hint v true, Err (InvalidToken "no JWKS keys loaded yet"))
    else
      match try_keys C kid params msg sig (keys v) 0 with
      | (true, _) => (v, Ok true)
      | (false, O) => (with_hint v true, Err (InvalidToken "token kid matches no loaded JWKS key"))
      | (false, _) => (v, Ok false)
      end
  end.

Definition aud_contains (want : string) (aud : option json) : bool :=
  match aud with
  | Some (JStr a) => bool_decide (a = as_bytes want)
  | Some (JArr l) => existsb (λ j, bool_decide (as_json_str j = Some (as_bytes want))) l
  | _ => false
  end.

Definition user_claim (c : OauthConfig) (claims : json) : option (list byte) :=
  match jget (default "sub"%string (user_name_claim c)) claims ≫= as_json_str with
  | Some n => Some n
  | None => fallback_user_name_claim c ≫= λ f, jget f claims ≫= as_json_str
  end.

Definition validate_claims (v : OauthValidator) (claims : json) (now_unix : Z) : result AuthError ValidatedToken :=
  let reject r := Err (InvalidToken r) in
  let c := cfg v in
  match jget "exp" claims ≫= as_i64 with
  | None => reject "token has no exp claim"%string
  | Some exp =>
    if exp <=? now_unix - CLOCK_SKEW_SECS then reject "token is expired"%string
    else if match jget "nbf" claims ≫= as_i64 with Some nbf => now_unix + CLOCK_SKEW_SECS <? nbf | None => false end
    then reject "token is not valid yet (nbf)"%string
    else
      match jget "iss" claims ≫= as_json_str with
      | None => reject "token has no iss claim"%string
      | Some iss =>
        if negb (bool_decide (iss = as_bytes (valid_issuer_uri c)))
        then reject "token issuer does not match validIssuerUri"%string
        else
          let audience : result AuthError unit :=
            if check_audience c then
              match client_id c with
              | None => Err (InvalidToken "checkAudience is set but clientId is not")
              | Some want =>
                if aud_contains want (jget "aud" claims) then Ok tt
                else Err (InvalidToken "token aud does not contain the configured clientId")
              end
            else Ok tt in
          _ ← audience;
          match user_claim c claims with
          | None => reject "token carries no usable user-name claim"%string
          | Some name =>
            if decide (name = []) then reject "token user-name claim is empty"%string
            else Ok {| vt_principal := name; exp_unix := exp |}
          end
      end
  end.

Definition validate (C : Crypto) (v : OauthValidator) (token : list byte) (now_unix : Z) :
    OauthValidator * result AuthError ValidatedToken :=
  let reject r := (v, Err (InvalidToken r)) in
  match split_on x2e token with
  | [h; p; s] =>
    match b64url_decode C h, b64url_decode C p, b64url_decode C s with
    | None, _, _ => reject "token header is not base64url"%string
    | _, None, _ => reject "token payload is not base64url"%string
    | _, _, None => reject "token signature is not base64url"%string
    | Some header_bytes, Some payload_bytes, Some sig =>
      match from_json C header_bytes with
      | None => reject "token header is not JSON"%string
      | Some header =>
        match jget "alg" header ≫= as_json_str with
        | None => reject "token header has no alg"%string
        | Some alg =>
          let kid := jget "kid" header ≫= as_json_str in
          let msg := take (length h + 1 + length p) token in
          match verify_signature C v alg kid msg sig with
          | (v', Err e) => (v', Err e)
          | (v', Ok false) => (v', Err (InvalidToken "token signature verification failed"))
          | (v', Ok true) =>
            match from_json C payload_bytes with
            | None => (v', Err (InvalidToken "token payload is not JSON"))
            | Some claims => (v', validate_claims v' claims now_unix)
            end
          end
        end
      end
    end
  | _ => reject "token is not a three-part compact JWT"%string
  end.

Record InitialResponse := { authzid : option (list byte); ir_token : list byte }.

(** One [key=value] part of the client response. *)
Definition parse_kv (token : option (list byte)) (part : list byte) : result AuthError (option (list byte)) :=
  if negb (valid_utf8 part) then Err MalformedSaslMessage
  else
    match split_once x3d part with
    | None => Err MalformedSaslMessage
    | Some (key, value) =>
      if eq_ignore_ascii_case key (as_bytes "auth") then
        match token with
        | Some _ => Err MalformedSaslMessage
        | None =>
          match split_once x20 value with
          | None => Err MalformedSaslMessage
          | Some (scheme, tok) =>
            if negb (eq_ignore_ascii_case scheme (as_bytes "bearer")) || bool_decide (tok = [])
            then Err MalformedSaslMessage else Ok (Some tok)
          end
        end
      else Ok token
    end.

Fixpoint parse_kvs (token : option (list byte)) (parts : list (list byte)) : result AuthError (option (list byte)) :=
  match parts with [] => Ok token | p :: ps => t ← parse_kv token p; parse_kvs t ps end.

Definition parse_authzid (gs2 : list byte) : result AuthError (option (list byte)) :=
  match strip_prefix (as_bytes "n,") gs2 ≫= strip_suffix (as_bytes ",") with
  | None => Err MalformedSaslMessage
  | Some [] => Ok None
  | Some mid =>
    match strip_prefix (as_bytes "a=") mid with
    | Some (z :: zs) => Ok (Some (z :: zs))
    | _ => Err MalformedSaslMessage
    end
  end.

Definition parse_initial_response (msg : list byte) : result AuthError InitialResponse :=
  match split_once x01 msg with
  | None => Err MalformedSaslMessage
  | Some (gs2, rest) =>
    if negb (valid_utf8 gs2) then Err MalformedSaslMessage
    else
      z ← parse_authzid gs2;
      if negb (bool_decide (last rest = Some x01)) then Err MalformedSaslMessage
      else
        token ← parse_kvs None (filter (λ p, p ≠ []) (split_on x01 rest));
        match token with
        | None => Err MalformedSaslMessage
        | Some t => Ok {| authzid := z; ir_token := t |}
        end
  end.

Definition session_lifetime_ms (max_secs : option Z) (exp_unix now_unix : Z) : Z :=
  match max_secs with
  | None => 0
  | Some max =>
    let remaining_ms := sat_i64 (Z.max 0 (sat_i64 (exp_unix - now_unix)) * 1000) in
    let max_ms := Z.min i64_max (Z.min u64_max (max * 1000)) in
    Z.min remaining_ms max_ms
  end.

Inductive ExchangeStep := AwaitInitial | AwaitErrorAck (reason : string) | OauthDone.
Record OauthExchange := { ox_step : ExchangeStep; ox_principal : option Principal; ox_lifetime : Z }.
Definition OauthExchange_new : OauthExchange :=
  {| ox_step := AwaitInitial; ox_principal := None; ox_lifetime := 0 |}.

(** The check of the first message. *)
Definition oauth_attempt (C : Crypto) (v : OauthValidator) (now_unix : Z) (msg : list byte) :
    OauthValidator * result AuthError ValidatedToken :=
  match parse_initial_response msg with
  | Err e => (v, Err e)
  | Ok resp =>
    match validate C v (ir_token resp) now_unix with
    | (v', Err e) => (v', Err e)
    | (v', Ok t) =>
      match authzid resp with
      | Some z =>
        if decide (z = vt_principal t) then (v', Ok t)
        else (v', Err (InvalidToken "authzid does not match the token principal"))
      | None => (v', Ok t)
      end
    end
  end.

(** A refused token is answered by a challenge; the exchange fails on the next
    message. [show] renders the error. *)
Definition oauth_step (C : Crypto) (show : AuthError → string) (v : OauthValidator) (now_unix : Z)
    (x : OauthExchange) (msg : list byte) : OauthValidator * OauthExchange * result AuthError (list byte * bool) :=
  let done := {| ox_step := OauthDone; ox_principal := ox_principal x; ox_lifetime := ox_lifetime x |} in
  match ox_step x with
  | AwaitInitial =>
    match oauth_attempt C v now_unix msg with
    | (v', Ok t) =>
      (v', {| ox_step := OauthDone; ox_principal := Some (user (vt_principal t));
              ox_lifetime := session_lifetime_ms (max_seconds_without_reauthentication (cfg v)) (exp_unix t) now_unix |},
       Ok ([], true))
    | (v', Err e) =>
      (v', {| ox_step := AwaitErrorAck (show e); ox_principal := ox_principal x; ox_lifetime := ox_lifetime x |},
       Ok (FAILURE_CHALLENGE, false))
    end
  | AwaitErrorAck reason => (v, done, Err (InvalidToken reason))
  | OauthDone => (v, done, Err MalformedSaslMessage)
  end.

(** ** Client certificates *)

Inductive CaseFlag := CaseNone | CaseLower | CaseUpper.

(** Regular expressions and Unicode case mapping are external. *)
Record Regexes := {
  regex : Type;
  regex_new : list byte → option regex;
  expand : regex → list byte → list byte → option (list byte);
  to_lowercase : list byte → list byte;
  to_uppercase : list byte → list byte }.

Section mapping.
Context (X : Regexes).

Inductive Rule := RuleDefault | RuleReplace (re : regex X) (replacement : list byte) (case_flag : CaseFlag).

Fixpoint apply_rules (rules : list Rule) (subject_dn cn : list byte) : list byte :=
  match rules with
  | [] => cn
  | RuleDefault :: _ => cn
  | RuleReplace re replacement flag :: rules' =>
    match expand X re subject_dn replacement with
    | Some out => match flag with CaseNone => out | CaseLower => to_lowercase X out | CaseUpper => to_uppercase X out end
    | None => apply_rules rules' subject_dn cn
    end
  end.

Definition is_blank (b : byte) : bool := bool_decide (b = x20 ∨ b = x09).
(** [str::trim] on the ASCII white space. *)
Definition is_space (b : byte) : bool := bool_decide (b = x20) || ((9 <=? b2z b) && (b2z b <=? 13)).
Definition trim (l : list byte) : list byte :=
  let front := drop (prefix_len is_space l) l in
  reverse (drop (prefix_len is_space (reverse front)) (reverse front)).

(** A comma ends a rule when the next rule starts behind it. *)
Definition rule_follows (l : list byte) : bool :=
  let l := drop (prefix_len is_blank l) l in
  starts_with (as_bytes "RULE:") l || starts_with (as_bytes "DEFAULT") l.

(** The rule the text starts with, and what is behind its comma. *)
Fixpoint next_rule (l : list byte) : list byte * list byte :=
  match l with
  | [] => ([], [])
  | b :: l' =>
    if bool_decide (b = x2c) && rule_follows l' then ([], l')
    else let '(r, rest) := next_rule l' in (b :: r, rest)
  end.

Fixpoint split_rules (fuel : nat) (spec : list byte) : list (list byte) :=
  match fuel, spec with
  | S fuel, _ :: _ => let '(r, rest) := next_rule spec in trim r :: split_rules fuel rest
  | _, _ => []
  end.

Definition parse_one (raw : list byte) : result AuthError Rule :=
  if decide (raw = as_bytes "DEFAULT") then Ok RuleDefault
  else
    match strip_prefix (as_bytes "RULE:") raw with
    | None => Err PrincipalMappingParse
    | Some body =>
      match (match strip_suffix (as_bytes "/L") body with
             | Some b => Some (b, CaseLower)
             | None =>
               match strip_suffix (as_bytes "/U") body with
               | Some b => Some (b, CaseUpper)
               | None => (λ b, (b, CaseNone)) <$> strip_suffix (as_bytes "/") body
               end
             end) with
      | None => Err PrincipalMappingParse
      | Some (body, flag) =>
        match split_once x2f body with
        | None => Err PrincipalMappingParse
        | Some (pattern, replacement) =>
          match regex_new X pattern with
          | None => Err AuthRegex
          | Some re => Ok (RuleReplace re replacement flag)
          end
        end
      end
    end.

Fixpoint parse_all (raws : list (list byte)) : result AuthError (list Rule) :=
  match raws with
  | [] => Ok []
  | r :: rs => x ← parse_one r; xs ← parse_all rs; Ok (x :: xs)
  end.

Definition parse_mapper (spec : list byte) : result AuthError (list Rule) :=
  let spec := trim spec in
  if decide (spec = []) then Ok [] else parse_all (split_rules (length spec) spec).

End mapping.

(** ** Engines *)

Inductive AuthEngine := AllowAllAuthEngine | RealAuthEngine (creds : CredState) | OauthEngine (v : OauthValidator).

Inductive Exchange :=
| ExAnonymous (p : option Principal) | ExPlain (p : option Principal)
| ExScram (x : ScramExchange) | ExOauth (x : OauthExchange).

Definition mechanisms (e : AuthEngine) : list string :=
  match e with OauthEngine _ => ["OAUTHBEARER"] | _ => ["SCRAM-SHA-512"; "PLAIN"] end.
Definition requires_pre_auth (e : AuthEngine) : bool := match e with AllowAllAuthEngine => false | _ => true end.

Definition new_sasl_exchange (e : AuthEngine) (mech : string) : result AuthError Exchange :=
  match e with
  | AllowAllAuthEngine => Ok (ExAnonymous None)
  | RealAuthEngine _ =>
    if decide (mech = "SCRAM-SHA-512"%string) then Ok (ExScram ScramExchange_new)
    else if decide (mech = "PLAIN"%string) then Ok (ExPlain None)
    else Err (UnknownMechanism mech)
  | OauthEngine _ =>
    if decide (mech = "OAUTHBEARER"%string) then Ok (ExOauth OauthExchange_new) else Err (UnknownMechanism mech)
  end.

Definition authenticate_tls (e : AuthEngine) (cn : list byte) : result AuthError Principal :=
  match e with
  | AllowAllAuthEngine => Ok anonymous
  | RealAuthEngine creds =>
    match lookup_tls creds (of_bytes cn) with
    | Some username => Ok {| p_name := username; p_kind := User |}
    | None => Err BadCertificate
    end
  | OauthEngine _ => Err BadCertificate
  end.

(** [subject]: the certificate's subject and common name, when it parses. *)
Definition extract_principal (X : Regexes) (subject : option (list byte * option (list byte)))
    (rules : list (Rule X)) (e : AuthEngine) : result AuthError Principal :=
  match subject with
  | None => Err X509
  | Some (dn, cn) => authenticate_tls e (apply_rules X rules dn (default [] cn))
  end.

Definition exchange_principal (x : Exchange) : option Principal :=
  match x with
  | ExAnonymous p | ExPlain p => p
  | ExScram x => sx_principal x
  | ExOauth x => ox_principal x
  end.
Definition exchange_lifetime (x : Exchange) : Z := match x with ExOauth x => ox_lifetime x | _ => 0 end.

Definition engine_creds (e : AuthEngine) : CredState :=
  match e with RealAuthEngine c => c | _ => CredState_empty end.

(** One message; the engine is the one the exchange was made by. *)
Definition exchange_step (C : Crypto) (show : AuthError → string) (suffix : list byte) (now_unix : Z)
    (e : AuthEngine) (x : Exchange) (msg : list byte) : AuthEngine * Exchange * result AuthError (list byte * bool) :=
  match x with
  | ExAnonymous _ => (e, ExAnonymous (Some anonymous), Ok ([], true))
  | ExPlain p =>
    match plain_step (engine_creds e) msg with
    | Ok p' => (e, ExPlain (Some p'), Ok ([], true))
    | Err err => (e, ExPlain p, Err err)
    end
  | ExScram x => let '(x', r) := scram_step C (engine_creds e) suffix x msg in (e, ExScram x', r)
  | ExOauth x =>
    match e with
    | OauthEngine v =>
      let '(v', x', r) := oauth_step C show v now_unix x msg in (OauthEngine v', ExOauth x', r)
    | _ => (e, ExOauth x, Err MalformedSaslMessage)
    end
  end.

(** Engines by listener, with a default. *)
Record Selector := { sel_map : gmap string AuthEngine; sel_default : AuthEngine }.
Definition for_listener (s : Selector) (listener : string) : AuthEngine := default (sel_default s) (sel_map s !! listener).

(** ** Lemmas: text *)

Definition comma_free (l : list byte) : Prop := Forall (λ b, b ≠ x2c) l.

Lemma plain_comma_free l : plain_ascii l → comma_free l.
Proof. intros H. eapply Forall_impl; [exact H|]. by intros b []. Qed.

Lemma plain_bytes l : plain_ascii l → Forall (λ b, b2z b < 128) l.
Proof. intros H. eapply Forall_impl; [exact H|]. by intros b []. Qed.

Lemma utf8_ascii_app l m : Forall (λ b, b2z b < 128) l → valid_utf8 (l ++ m) = valid_utf8 m.
Proof.
  induction 1 as [|b l Hb Hl IH]; [done|]. simpl.
  by rewrite (proj2 (Z.leb_le (b2z b) 127)) by lia.
Qed.

Lemma utf8_app l m : valid_utf8 l = true → valid_utf8 (l ++ m) = valid_utf8 m.
Proof.
  remember (length l) as n eqn:Hn. revert l Hn.
  induction (lt_wf n) as [n _ IH]. intros l -> H.
  destruct l as [|b0 l0]; [done|]. cbn [valid_utf8 app] in H |- *.
  destruct (b2z b0 <=? 0x7f); [apply (IH (length l0)); [simpl; lia|done|done]|].
  destruct l0 as [|b1 l1]; [done|]. cbn [app].
  destruct (in_rng 0xc2 0xdf (b2z b0)).
  { apply andb_true_iff in H as [-> H]. apply (IH (length l1)); [simpl; lia|done|done]. }
  destruct l1 as [|b2 l2]; [done|]. cbn [app].
  destruct (_ || _).
  { apply andb_true_iff in H as [-> H]. apply (IH (length l2)); [simpl; lia|done|done]. }
  destruct l2 as [|b3 l3]; [done|]. cbn [app].
  apply andb_true_iff in H as [-> H]. apply (IH (length l3)); [simpl; lia|done|done].
Qed.

Lemma split_on_free c l : Forall (λ b, b ≠ c) l → split_on c l = [l].
Proof. induction 1 as [|b l Hb Hl IH]; [done|]. simpl. by rewrite decide_False, IH. Qed.

Lemma split_on_app c l m : Forall (λ b, b ≠ c) l → split_on c (l ++ c :: m) = l :: split_on c m.
Proof.
  induction 1 as [|b l Hb Hl IH]; simpl; [by rewrite decide_True|]. by rewrite decide_False, IH.
Qed.

Lemma rfind_free c n l : Forall (λ b, b ≠ c) l → rfind_bytes (c :: n) l = None.
Proof.
  induction 1 as [|b l Hb Hl IH]; [done|]. cbn [rfind_bytes]. rewrite IH. unfold starts_with.
  rewrite bool_decide_eq_false_2; [done|]. simpl. congruence.
Qed.

(** The last comma starts the proof. *)
Lemma rfind_proof a n l :
  comma_free n → comma_free l → rfind_bytes (x2c :: n) (a ++ x2c :: n ++ l) = Some (length a).
Proof.
  intros Hn Hl. induction a as [|x a IH]; cbn [app rfind_bytes length]; [|by rewrite IH].
  rewrite rfind_free by (by apply Forall_app). unfold starts_with.
  rewrite bool_decide_eq_true_2; [done|]. simpl. by rewrite take_app_length.
Qed.

Lemma digit_plain c : is_digit c = true → b2z (Ascii.byte_of_ascii c) < 128 ∧ Ascii.byte_of_ascii c ≠ x2c.
Proof. destruct c as [[] [] [] [] [] [] [] []]; vm_compute; intuition congruence. Qed.

Lemma digits_plain acc s v : digits_value acc s = Some v → plain_ascii (as_bytes s).
Proof.
  revert acc. induction s as [|c s IH]; intros acc; simpl; [constructor|].
  destruct (is_digit c) eqn:E; [|done]. intros H. constructor; [by apply digit_plain|by eapply IH].
Qed.

Lemma parse_digits_plain s v : parse_digits s = Some v → plain_ascii (as_bytes s).
Proof. unfold parse_digits. destruct s; [constructor|]. apply digits_plain. Qed.

Lemma pretty_plain (z : Z) : plain_ascii (as_bytes (pretty z)).
Proof.
  destruct z as [|p|p].
  - repeat constructor; done.
  - change (pretty (Z.pos p)) with (pretty_N_go (N.pos p) "").
    apply (parse_digits_plain _ (Z.pos p)), parse_digits_pos.
  - change (pretty (Z.neg p)) with (String "-"%char (pretty_N_go (N.pos p) "")).
    constructor; [done|]. apply (parse_digits_plain _ (Z.pos p)), parse_digits_pos.
Qed.

Lemma lxor_byte x y : 0 ≤ x < 256 → 0 ≤ y < 256 → Z.lxor x y mod 256 = Z.lxor x y.
Proof.
  intros Hx Hy. change 256 with (2 ^ 8) in *. apply Z.bits_inj'. intros n Hn.
  destruct (Z.lt_ge_cases n 8) as [Hlt|Hge]; [by rewrite Z.mod_pow2_bits_low|].
  rewrite Z.mod_pow2_bits_high, Z.lxor_spec by lia.
  rewrite <- (Z.mod_small x (2 ^ 8)), <- (Z.mod_small y (2 ^ 8)) by done.
  by rewrite !Z.mod_pow2_bits_high by lia.
Qed.

Lemma xor_byte_cancel x y : z2b (Z.lxor (b2z (z2b (Z.lxor (b2z x) (b2z y)))) (b2z y)) = x.
Proof.
  rewrite b2z_z2b, lxor_byte by apply b2z_range.
  by rewrite Z.lxor_assoc, Z.lxor_nilpotent, Z.lxor_0_r, z2b_b2z.
Qed.

Lemma length_xor a b : length a = length b → length (xor_bytes a b) = length a.
Proof. intros H. unfold xor_bytes. rewrite length_zip_with. lia. Qed.

Lemma xor_cancel a b : length a = length b → xor_bytes (xor_bytes a b) b = a.
Proof.
  revert b. induction a as [|x a IH]; intros [|y b] H; try done. simpl in *.
  rewrite xor_byte_cancel. f_equal. apply IH. lia.
Qed.

(** ** SCRAM *)

(** Attributes joined by commas are read back. *)
Lemma attr_part k v : comma_free v → k ≠ x2c → Forall (λ b, b ≠ x2c) (k :: x3d :: v).
Proof. intros Hv Hk. by repeat constructor. Qed.

Lemma parse_two k1 v1 k2 v2 :
  comma_free v1 → comma_free v2 → k1 ≠ x2c → k2 ≠ x2c →
  parse_attrs ((k1 :: x3d :: v1) ++ x2c :: k2 :: x3d :: v2) = <[b2z k2 := v2]> (<[b2z k1 := v1]> ∅).
Proof.
  intros H1 H2 Hk1 Hk2. unfold parse_attrs.
  rewrite split_on_app, split_on_free by (by apply attr_part). simpl. done.
Qed.

Lemma parse_three k1 v1 k2 v2 k3 v3 :
  comma_free v1 → comma_free v2 → comma_free v3 → k1 ≠ x2c → k2 ≠ x2c → k3 ≠ x2c →
  parse_attrs ((k1 :: x3d :: v1) ++ x2c :: (k2 :: x3d :: v2) ++ x2c :: k3 :: x3d :: v3) =
  <[b2z k3 := v3]> (<[b2z k2 := v2]> (<[b2z k1 := v1]> ∅)).
Proof.
  intros H1 H2 H3 Hk1 Hk2 Hk3. unfold parse_attrs.
  rewrite !split_on_app, split_on_free by (by apply attr_part). simpl. done.
Qed.

(** A client of RFC 5802: what it sends first, and what it answers to the server's
    first message with, from the password through [hi] (PBKDF2). *)
Section client.
Context (C : Crypto) (hi : list byte → list byte → Z → list byte).

Definition client_bare (name nonce : list byte) : list byte := as_bytes "n=" ++ name ++ as_bytes ",r=" ++ nonce.
Definition client_first (name nonce : list byte) : list byte := as_bytes "n,," ++ client_bare name nonce.

Definition client_final (password name nonce server_msg : list byte) : option (list byte * list byte) :=
  let attrs := parse_attrs server_msg in
  full ← attrs !! attr_r;
  salt64 ← attrs !! 115;
  slt ← b64_decode C salt64;
  iter64 ← attrs !! 105;
  iter ← parse_i32 (of_bytes iter64);
  if negb (starts_with nonce full) then None
  else
    let salted := hi password slt iter in
    let client_key := hmac_sha512 C salted (as_bytes "Client Key") in
    let without := as_bytes "c=biws,r=" ++ full in
    let am := client_bare name nonce ++ as_bytes "," ++ server_msg ++ as_bytes "," ++ without in
    let proof := xor_bytes client_key (hmac_sha512 C (sha512 C client_key) am) in
    Some (without ++ as_bytes ",p=" ++ b64_encode C proof,
          as_bytes "v=" ++ b64_encode C (hmac_sha512 C (hmac_sha512 C salted (as_bytes "Server Key")) am)).
End client.

(** The server's answer to an honest first message. *)
Lemma scram_first_ok C st suffix name nonce creds :
  lookup_scram st (of_bytes name) = Some creds → valid_utf8 name = true → comma_free name → plain_ascii nonce →
  let full := nonce ++ b64_nopad_encode C suffix in
  let sf := as_bytes "r=" ++ full ++ as_bytes ",s=" ++ b64_encode C (salt creds)
              ++ as_bytes ",i=" ++ as_bytes (pretty (iterations creds)) in
  scram_step C st suffix ScramExchange_new (client_first name nonce) =
  ({| sx_state := ScramAwaitFinal; sx_username := name; client_first_bare := client_bare name nonce;
      server_first := sf; sx_stored_key := stored_key creds; sx_server_key := server_key creds;
      full_nonce := full; sx_principal := None |}, Ok (sf, false)).
Proof.
  intros Hst Hu Hc Hn full sf. unfold scram_step, handle_client_first. cbn [sx_state ScramExchange_new].
  assert (valid_utf8 (client_first name nonce) = true) as ->.
  { unfold client_first, client_bare. rewrite (utf8_ascii_app (as_bytes "n,,")), (utf8_ascii_app (as_bytes "n="))
      by (repeat constructor; done).
    rewrite utf8_app by done. rewrite (utf8_ascii_app (as_bytes ",r=")) by (repeat constructor; done).
    rewrite <- (app_nil_r nonce), utf8_ascii_app; [done|by apply plain_bytes]. }
  cbn [negb]. change (client_first name nonce) with (x6e :: x2c :: x2c :: client_bare name nonce).
  assert (find_bytes (as_bytes ",,") (x6e :: x2c :: x2c :: client_bare name nonce) = Some 1%nat) as -> by done.
  cbv zeta. change (drop (1 + 2) (x6e :: x2c :: x2c :: client_bare name nonce)) with (client_bare name nonce).
  assert (parse_attrs (client_bare name nonce) = <[b2z x72 := nonce]> (<[b2z x6e := name]> ∅)) as ->.
  { apply parse_two; [done|by apply plain_comma_free|done|done]. }
  change (b2z x72) with attr_r. change (b2z x6e) with attr_n.
  rewrite lookup_insert_ne, !lookup_insert_eq by done. by rewrite Hst.
Qed.

(** The exchange of RFC 5802, both sides. *)
Lemma scram_exchange_completes `{CryptoLaws C} hi st name password nonce suffix creds :
  lookup_scram st (of_bytes name) = Some creds → i32_ok (iterations creds) →
  keys_from_salted_password C (hi password (salt creds) (iterations creds)) = (stored_key creds, server_key creds) →
  valid_utf8 name = true → comma_free name → plain_ascii nonce →
  ∃ x1 m1 m2 x2 v,
    scram_step C st suffix ScramExchange_new (client_first name nonce) = (x1, Ok (m1, false)) ∧
    client_final C hi password name nonce m1 = Some (m2, v) ∧
    (∀ st' suffix', scram_step C st' suffix' x1 m2 = (x2, Ok (v, true))) ∧
    sx_principal x2 = Some (user name).
Proof.
  intros Hst Hit Hkeys Hu Hc Hn. unfold keys_from_salted_password in Hkeys. injection Hkeys as Hsk Hvk.
  rewrite (scram_first_ok C st suffix name nonce creds Hst Hu Hc Hn).
  set (full := nonce ++ b64_nopad_encode C suffix).
  assert (plain_ascii full) as Hfull by (apply Forall_app; split; [done|apply b64_nopad_ascii]).
  set (sf := as_bytes "r=" ++ full ++ _).
  assert (parse_attrs sf = <[b2z x69 := as_bytes (pretty (iterations creds))]>
    (<[b2z x73 := b64_encode C (salt creds)]> (<[b2z x72 := full]> ∅))) as Hattrs.
  { apply parse_three; try done; apply plain_comma_free; [done|apply b64_ascii|apply pretty_plain]. }
  set (salted := hi password (salt creds) (iterations creds)) in *.
  set (ck := hmac_sha512 C salted (as_bytes "Client Key")) in *.
  set (without := as_bytes "c=biws,r=" ++ full).
  set (am := client_bare name nonce ++ as_bytes "," ++ sf ++ as_bytes "," ++ without).
  set (proof := xor_bytes ck (hmac_sha512 C (sha512 C ck) am)).
  assert (length proof = 64%nat) as Hlen.
  { unfold proof. rewrite length_xor; unfold ck; by rewrite !hmac_length. }
  assert (client_final C hi password name nonce sf =
    Some (without ++ as_bytes ",p=" ++ b64_encode C proof,
          as_bytes "v=" ++ b64_encode C (hmac_sha512 C (server_key creds) am))) as Hcf.
  { unfold client_final. rewrite Hattrs. change 115 with (b2z x73). change 105 with (b2z x69).
    change attr_r with (b2z x72). rewrite (lookup_insert_ne _ _ (b2z x72)), (lookup_insert_ne _ _ (b2z x72)),
      lookup_insert_eq by done. cbn [mbind option_bind].
    rewrite (lookup_insert_ne _ _ (b2z x73)), lookup_insert_eq by done. cbn [mbind option_bind].
    rewrite b64_roundtrip. cbn [mbind option_bind]. rewrite lookup_insert_eq. cbn [mbind option_bind].
    rewrite of_as_bytes, parse_pretty by done. cbn [mbind option_bind].
    unfold starts_with. rewrite bool_decide_eq_true_2 by (unfold full; apply take_app_length). simpl negb. cbv iota.
    by rewrite <- Hvk. }
  eexists _, sf, _, _, _. split; [done|]. split; [exact Hcf|]. split.
  - intros st' suffix'. unfold scram_step, handle_client_final. cbn [sx_state].
    assert (valid_utf8 (without ++ as_bytes ",p=" ++ b64_encode C proof) = true) as ->.
    { unfold without. rewrite <- app_assoc, (utf8_ascii_app (as_bytes "c=biws,r=")), (utf8_ascii_app full),
        (utf8_ascii_app (as_bytes ",p=")) by first [by apply plain_bytes|by repeat constructor].
      rewrite <- (app_nil_r (b64_encode C proof)), utf8_ascii_app; [done|]. apply plain_bytes, b64_ascii. }
    cbn [negb].
    assert (rfind_bytes (as_bytes ",p=") (without ++ as_bytes ",p=" ++ b64_encode C proof) = Some (length without)) as ->.
    { apply (rfind_proof without (as_bytes "p=")); [by repeat constructor|]. apply plain_comma_free, b64_ascii. }
    rewrite take_app_length.
    assert (parse_attrs without !! attr_r = Some full) as ->.
    { unfold without. change (as_bytes "c=biws,r=" ++ full) with ((x63 :: x3d :: as_bytes "biws") ++ x2c :: x72 :: x3d :: full).
      rewrite parse_two; [by rewrite lookup_insert_eq|by repeat constructor|by apply plain_comma_free|done|done]. }
    cbn [full_nonce]. rewrite bool_decide_eq_true_2 by done. cbn [negb].
    replace (drop (length without + 3) (without ++ as_bytes ",p=" ++ b64_encode C proof)) with (b64_encode C proof)
      by (by rewrite drop_app_add).
    rewrite b64_roundtrip. unfold auth_message. cbn [client_first_bare server_first sx_stored_key sx_server_key].
    change (client_bare name nonce ++ as_bytes "," ++ sf ++ as_bytes "," ++ without) with am.
    rewrite Hlen, hmac_length. cbn [Nat.eqb negb].
    assert (xor_bytes proof (hmac_sha512 C (stored_key creds) am) = ck) as ->.
    { unfold proof. rewrite <- Hsk. apply xor_cancel. unfold ck. by rewrite !hmac_length. }
    rewrite Hsk, bool_decide_eq_true_2 by done. cbn [negb]. done.
  - done.
Qed.

(** A SCRAM login works: when the store holds the keys of a user's password, a
    client that follows RFC 5802 with that password is authenticated as that
    user in two messages, whatever the nonces and the salt are, and the server's
    last message is the signature the client expects. *)
Theorem scram_login `{CryptoLaws C} hi st name password nonce suffix creds :
  lookup_scram st (of_bytes name) = Some creds → i32_ok (iterations creds) →
  keys_from_salted_password C (hi password (salt creds) (iterations creds)) = (stored_key creds, server_key creds) →
  valid_utf8 name = true → comma_free name → plain_ascii nonce →
  ∃ x1 m1 m2 x2 v,
    scram_step C st suffix ScramExchange_new (client_first name nonce) = (x1, Ok (m1, false)) ∧
    client_final C hi password name nonce m1 = Some (m2, v) ∧
    (∀ st' suffix', scram_step C st' suffix' x1 m2 = (x2, Ok (v, true))) ∧
    sx_principal x2 = Some (user name).
Proof. apply scram_exchange_completes. Qed.

Definition demo_name : list byte := as_bytes "alice".

(** A completed exchange proves knowledge of a key: the client sent bytes that,
    once the server's MAC of the whole conversation is removed, hash to the stored
    key; the conversation it covers has this exchange's own nonce. *)
Lemma scram_sound C st suffix x msg x' out :
  scram_step C st suffix x msg = (x', Ok (out, true)) →
  sx_state x = ScramAwaitFinal ∧ sx_principal x' = Some (user (sx_username x)) ∧
  ∃ i proof, parse_attrs (take i msg) !! attr_r = Some (full_nonce x) ∧
    b64_decode C (drop (i + 3) msg) = Some proof ∧
    sha512 C (xor_bytes proof (hmac_sha512 C (sx_stored_key x) (auth_message x (take i msg)))) = sx_stored_key x.
Proof.
  unfold scram_step. destruct (sx_state x) eqn:Es; [|intros H; split; [done|]|done].
  - unfold handle_client_first. intros H. repeat case_match; simplify_eq.
  - unfold handle_client_final in H. destruct (negb (valid_utf8 msg)); [done|].
    destruct (rfind_bytes _ msg) as [i|]; [|done].
    destruct (parse_attrs (take i msg) !! attr_r) as [nonce|] eqn:En; [|done].
    case_bool_decide as Hf; simpl in H; [|done]. subst nonce.
    destruct (b64_decode C (drop (i + 3) msg)) as [proof|] eqn:Ed; [|done].
    destruct (negb _); [done|]. case_bool_decide as Hh; simpl in H; [|done].
    injection H as <- <-. split; [done|]. by exists i, proof.
Qed.

(** What the first message leaves behind. *)
Lemma scram_first_spec C st suffix x msg x' out d :
  sx_state x = ScramStart → scram_step C st suffix x msg = (x', Ok (out, d)) →
  d = false ∧ sx_state x' = ScramAwaitFinal ∧ ∃ creds nonce,
    lookup_scram st (of_bytes (sx_username x')) = Some creds ∧ sx_stored_key x' = stored_key creds ∧
    full_nonce x' = nonce ++ b64_nopad_encode C suffix.
Proof.
  intros Hs. unfold scram_step, handle_client_first. rewrite Hs.
  destruct (negb _); [done|]. destruct (find_bytes _ msg) as [i|]; [|done].
  destruct (parse_attrs _ !! attr_n) as [name|]; [|done]. destruct (parse_attrs _ !! attr_r) as [nonce|]; [|done].
  destruct (lookup_scram st (of_bytes name)) as [creds|] eqn:E; [|done]. intros [= <- <- <-].
  split; [done|]. split; [done|]. by exists creds, nonce.
Qed.

Lemma scram_final_done C st suffix x msg x' out d :
  sx_state x = ScramAwaitFinal → scram_step C st suffix x msg = (x', Ok (out, d)) → d = true.
Proof. intros Hs. unfold scram_step, handle_client_final. rewrite Hs. intros H. repeat case_match; by simplify_eq. Qed.

(** ** Tokens *)

Lemma split_on_join c l p ps : split_on c l = p :: ps → l = p ++ concat ((λ x, c :: x) <$> ps).
Proof.
  revert p ps. induction l as [|b l IH]; intros p ps; simpl; [by intros [= <- <-]|].
  case_decide as Hb.
  - subst b. intros [= <- <-]. simpl. destruct (split_on c l) as [|q qs] eqn:E.
    + destruct l; simpl in E; [done|]. repeat case_match; done.
    + simpl. f_equal. by apply IH.
  - destruct (split_on c l) as [|q qs] eqn:E.
    + destruct l; simpl in E; [done|]. repeat case_match; done.
    + intros [= <- <-]. simpl. f_equal. by apply IH.
Qed.

Lemma try_keys_spec C kid params msg sig ks c n :
  try_keys C kid params msg sig ks c = (true, n) →
  ∃ k, k ∈ ks ∧ key_verdict C params msg sig k = Some true ∧ (∀ want, kid = Some want → key_kid k = Some want).
Proof.
  revert c. induction ks as [|k ks IH]; intros c; simpl; [done|].
  destruct (match kid with Some _ => _ | None => _ end) eqn:Ek.
  { intros H. destruct (IH _ H) as (k' & Hin & Hk). exists k'. split; [by right|done]. }
  destruct (key_verdict C params msg sig k) as [[]|] eqn:Ev; intros H;
    [|destruct (IH _ H) as (k' & Hin & Hk); exists k'; split; [by right|done]..].
  exists k. split; [left|]. split; [done|]. intros want ->.
  apply negb_false_iff, bool_decide_eq_true in Ek. done.
Qed.

(** What makes a token good at a time. *)
Record token_good (C : Crypto) (v : OauthValidator) (now : Z) (token : list byte) (t : ValidatedToken) : Prop := {
  tg_signed : ∃ h p s sig params k kid, token = h ++ x2e :: p ++ x2e :: s ∧ b64url_decode C s = Some sig ∧
    (∃ hb header alg, b64url_decode C h = Some hb ∧ from_json C hb = Some header ∧
       jget "alg" header ≫= as_json_str = Some alg ∧ alg_params alg = Some params ∧
       jget "kid" header ≫= as_json_str = kid) ∧
    k ∈ keys v ∧ (∀ want, kid = Some want → key_kid k = Some want) ∧
    key_verdict C params (h ++ x2e :: p) sig k = Some true ∧
    ∃ pb claims, b64url_decode C p = Some pb ∧ from_json C pb = Some claims ∧
      jget "exp" claims ≫= as_i64 = Some (exp_unix t) ∧ now < exp_unix t + CLOCK_SKEW_SECS ∧
      jget "iss" claims ≫= as_json_str = Some (as_bytes (valid_issuer_uri (cfg v))) ∧
      (check_audience (cfg v) = true → ∃ want, client_id (cfg v) = Some want ∧ aud_contains want (jget "aud" claims) = true) ∧
      (∃ claim, jget claim claims ≫= as_json_str = Some (vt_principal t)) ∧ vt_principal t ≠ [] }.

Lemma validate_claims_spec v claims now t :
  validate_claims v claims now = Ok t →
  jget "exp" claims ≫= as_i64 = Some (exp_unix t) ∧ now < exp_unix t + CLOCK_SKEW_SECS ∧
  jget "iss" claims ≫= as_json_str = Some (as_bytes (valid_issuer_uri (cfg v))) ∧
  (check_audience (cfg v) = true → ∃ want, client_id (cfg v) = Some want ∧ aud_contains want (jget "aud" claims) = true) ∧
  (∃ claim, jget claim claims ≫= as_json_str = Some (vt_principal t)) ∧ vt_principal t ≠ [].
Proof.
  unfold validate_claims. destruct (jget "exp" claims ≫= as_i64) as [exp|] eqn:Ee; [|done].
  destruct (Z.leb_spec exp (now - CLOCK_SKEW_SECS)); [done|]. destruct (match _ with Some _ => _ | None => _ end); [done|].
  destruct (jget "iss" claims ≫= as_json_str) as [iss|] eqn:Ei; [|done].
  case_bool_decide as Hiss; simpl; [|done]. intros Hv.
  assert (check_audience (cfg v) = true → ∃ want, client_id (cfg v) = Some want ∧
    aud_contains want (jget "aud" claims) = true) as Haud.
  { intros Hc. rewrite Hc in Hv. destruct (client_id (cfg v)) as [want|]; [|done].
    destruct (aud_contains want _) eqn:Ea; [|done]. by exists want. }
  destruct (if check_audience (cfg v) then _ else _) as [[]|]; [|done]. simpl in Hv.
  destruct (user_claim (cfg v) claims) as [name|] eqn:En; [|done].
  case_decide; [done|]. injection Hv as <-. simpl.
  split; [done|]. split; [lia|]. split; [by subst iss|]. split; [done|]. split; [|done]. unfold user_claim in En.
  destruct (jget (default _ _) claims ≫= as_json_str) eqn:E1; [injection En as ->; by eexists|].
  destruct (fallback_user_name_claim (cfg v)) as [f|]; [|done]. by exists f.
Qed.

Lemma validate_spec C v token now v' t : validate C v token now = (v', Ok t) → token_good C v now token t ∧ v' = v.
Proof.
  unfold validate. destruct (split_on x2e token) as [|h [|p [|s []]]] eqn:Et; try done.
  destruct (b64url_decode C h) as [hb|] eqn:Eh; [|done]. destruct (b64url_decode C p) as [pb|] eqn:Ep; [|done].
  destruct (b64url_decode C s) as [sig|] eqn:Es; [|done].
  destruct (from_json C hb) as [header|] eqn:Ej; [|done].
  destruct (jget "alg" header ≫= as_json_str) as [alg|] eqn:Ea; [|done].
  apply split_on_join in Et. simpl in Et. rewrite app_nil_r in Et.
  unfold verify_signature. destruct (alg_params alg) as [params|] eqn:Epar; [|done].
  destruct (negb (has_keys v)); [done|]. subst token.
  assert (take (length h + 1 + length p) (h ++ x2e :: p ++ x2e :: s) = h ++ x2e :: p) as ->.
  { rewrite <- Nat.add_assoc, take_app_add. f_equal. simpl. by rewrite take_app_length. }
  destruct (try_keys _ _ _ _ _ _ _) as [[] n] eqn:Ek; [|by destruct n].
  destruct (from_json C pb) as [claims|] eqn:Ec; [|done]. intros Hv. injection Hv as <- Hv.
  apply try_keys_spec in Ek as (k & Hin & Hver & Hkid). apply validate_claims_spec in Hv.
  split; [|done]. constructor. exists h, p, s, sig, params, k, (jget "kid" header ≫= as_json_str).
  split; [done|]. split; [done|]. split; [by exists hb, header, alg|]. split; [done|]. split; [done|].
  split; [done|]. by exists pb, claims.
Qed.

Lemma oauth_step_good C show v now x msg v' x' out :
  oauth_step C show v now x msg = (v', x', Ok (out, true)) →
  ox_step x = AwaitInitial ∧ out = [] ∧
  ∃ resp t, parse_initial_response msg = Ok resp ∧ token_good C v now (ir_token resp) t ∧
    (∀ z, authzid resp = Some z → z = vt_principal t) ∧ ox_principal x' = Some (user (vt_principal t)).
Proof.
  unfold oauth_step. destruct (ox_step x); [|done|done].
  unfold oauth_attempt. destruct (parse_initial_response msg) as [resp|] eqn:Er; [|done].
  destruct (validate C v (ir_token resp) now) as [v1 [t|]] eqn:Ev; [|done].
  apply validate_spec in Ev as [Hg ->].
  destruct (authzid resp) as [z|] eqn:Ez; [case_decide as Hz; [|done]|]; intros [= <- <- <-];
    (split; [done|]; split; [done|]; exists resp, t; split; [done|]; split; [done|]; split; [|done]);
    intros z' Hz'; [congruence|by rewrite Ez in Hz'].
Qed.

(** A bearer token is accepted only when it is good: the exchange completes, in
    its first message, only if the message carries a three-part token whose first
    two parts, byte for byte, a currently installed key of the token's own
    algorithm family (and key id) verifies; whose algorithm is on the asymmetric
    allow list; whose issuer and, when configured, audience match; that has not
    expired beyond the clock skew; and the principal is the token's own claim,
    equal to the authorization id when one is given. Before any key is installed
    nothing is accepted. *)
Theorem oauth_accepts_only_good C show v now x msg v' x' out :
  oauth_step C show v now x msg = (v', x', Ok (out, true)) →
  ox_step x = AwaitInitial ∧ out = [] ∧ keys v ≠ [] ∧
  ∃ resp t, parse_initial_response msg = Ok resp ∧ token_good C v now (ir_token resp) t ∧
    (∀ z, authzid resp = Some z → z = vt_principal t) ∧ ox_principal x' = Some (user (vt_principal t)).
Proof.
  intros H. destruct (oauth_step_good _ _ _ _ _ _ _ _ _ H) as (Hs & Ho & resp & t & Hr & Hg & Hz & Hp).
  split; [done|]. split; [done|]. split; [|by exists resp, t].
  intros Hk. destruct Hg as [(h & p & s & sig & params & k & kid & _ & _ & _ & Hin & _)]. rewrite Hk in Hin.
  by apply not_elem_of_nil in Hin.
Qed.

(** ** Instances *)

(** Small functions that have the documented properties: two letters a byte for
    Base64, a padded concatenation for the MAC, one fixed token. *)
Definition toy_encode (l : list byte) : list byte :=
  l ≫= λ b, [z2b (65 + b2z b / 16); z2b (65 + b2z b mod 16)].
Fixpoint toy_decode (l : list byte) : option (list byte) :=
  match l with
  | [] => Some []
  | a :: b :: l' => cons (z2b ((b2z a - 65) * 16 + (b2z b - 65))) <$> toy_decode l'
  | _ => None
  end.

Definition toy_claims : json :=
  JObj [(as_bytes "exp", JInt 1000); (as_bytes "iss", JStr (as_bytes "issuer")); (as_bytes "sub", JStr (as_bytes "alice"))].
Definition toy_json (l : list byte) : option json :=
  if decide (l = as_bytes "H") then Some (JObj [(as_bytes "alg", JStr (as_bytes "RS256"))])
  else if decide (l = as_bytes "P") then Some toy_claims
  else None.

Definition toy : Crypto :=
  {| hmac_sha512 k m := take 64 (k ++ m ++ replicate 64 x00); sha512 l := l;
     b64_encode := toy_encode; b64_decode := toy_decode; b64_nopad_encode := toy_encode;
     b64url_decode l := Some l; from_json := toy_json;
     rsa_verify _ _ _ _ sig := bool_decide (sig = as_bytes "S"); p256_verify _ _ _ := false |}.

Lemma toy_letter z : 0 ≤ z < 16 → b2z (z2b (65 + z)) = 65 + z.
Proof. intros Hz. rewrite b2z_z2b. apply Z.mod_small. lia. Qed.

Lemma toy_nibbles b : 0 ≤ b2z b / 16 < 16 ∧ 0 ≤ b2z b mod 16 < 16.
Proof.
  pose proof (b2z_range b). split; [|by apply Z.mod_pos_bound].
  split; [apply Z.div_pos; lia|apply Z.div_lt_upper_bound; lia].
Qed.

Lemma toy_roundtrip l : toy_decode (toy_encode l) = Some l.
Proof.
  induction l as [|b l IH]; [done|]. change (toy_encode (b :: l)) with
    (z2b (65 + b2z b / 16) :: z2b (65 + b2z b mod 16) :: toy_encode l).
  cbn [toy_decode]. rewrite IH. simpl. do 2 f_equal. destruct (toy_nibbles b).
  rewrite !toy_letter by done. replace ((65 + b2z b / 16 - 65) * 16 + (65 + b2z b mod 16 - 65)) with (b2z b)
    by (pose proof (Z.div_mod (b2z b) 16); lia). apply z2b_b2z.
Qed.

Lemma toy_ascii l : plain_ascii (toy_encode l).
Proof.
  induction l as [|b l IH]; [constructor|]. change (toy_encode (b :: l)) with
    (z2b (65 + b2z b / 16) :: z2b (65 + b2z b mod 16) :: toy_encode l).
  destruct (toy_nibbles b). repeat constructor; try done; try (rewrite toy_letter by done; lia);
    intros E; apply (f_equal b2z) in E; rewrite toy_letter in E by done; change (b2z x2c) with 44 in E; lia.
Qed.

#[export] Instance toy_laws : CryptoLaws toy.
Proof.
  constructor; [|apply toy_roundtrip|apply toy_ascii|apply toy_ascii].
  intros k m. cbn [hmac_sha512 toy]. rewrite length_take, !length_app, length_replicate. lia.
Qed.

Definition toy_hi (password slt : list byte) (iter : Z) : list byte := password ++ slt.

Definition demo_scram : ScramCreds :=
  let '(sk, vk) := keys_from_salted_password toy (toy_hi (as_bytes "secret") [x07; x2c] 4096) in
  {| stored_key := sk; server_key := vk; salt := [x07; x2c]; iterations := 4096 |}.
Definition demo_creds : CredState :=
  {| by_username := {["alice"%string := {| auth_type := "scram-sha-512"; lc_scram := Some demo_scram;
       lc_tls_cn := None; lc_sa_namespace := ""; lc_sa_name := ""; lc_quotas := None; lc_plain_password := None |}]};
     by_cn := ∅; by_sa := ∅ |}.

Lemma scram_login_witness :
  ∃ x1 m1 m2 x2 v,
    scram_step toy demo_creds [x01; x02] ScramExchange_new (client_first demo_name (as_bytes "nonce")) = (x1, Ok (m1, false)) ∧
    client_final toy toy_hi (as_bytes "secret") demo_name (as_bytes "nonce") m1 = Some (m2, v) ∧
    (∀ st' suffix', scram_step toy st' suffix' x1 m2 = (x2, Ok (v, true))) ∧
    sx_principal x2 = Some (user demo_name).
Proof.
  apply (scram_login toy_hi demo_creds demo_name (as_bytes "secret") (as_bytes "nonce") [x01; x02] demo_scram).
  - vm_compute. reflexivity.
  - vm_compute. split; congruence.
  - vm_compute. reflexivity.
  - vm_compute. reflexivity.
  - by repeat constructor.
  - by repeat constructor.
Defined.

Definition demo_config : OauthConfig :=
  {| valid_issuer_uri := "issuer"; jwks_endpoint_uri := ""; user_name_claim := None; fallback_user_name_claim := None;
     check_audience := false; client_id := None; jwks_refresh_seconds := 300;
     max_seconds_without_reauthentication := Some 3600 |}.
Definition demo_validator : OauthValidator :=
  {| cfg := demo_config; keys := [Rsa None [x01] [x03]]; refresh_hint := false |}.
Definition demo_bearer : list byte := as_bytes "n,," ++ x01 :: as_bytes "auth=Bearer H.P.S" ++ [x01; x01].
Definition demo_oauth : OauthValidator * OauthExchange * result AuthError (list byte * bool) :=
  oauth_step toy (λ _, ""%string) demo_validator 500 OauthExchange_new demo_bearer.

Lemma oauth_accepts_only_good_witness :
  ox_step OauthExchange_new = AwaitInitial ∧ ([] : list byte) = [] ∧ keys demo_validator ≠ [] ∧
  ∃ resp t, parse_initial_response demo_bearer = Ok resp ∧ token_good toy demo_validator 500 (ir_token resp) t ∧
    (∀ z, authzid resp = Some z → z = vt_principal t) ∧ ox_principal demo_oauth.1.2 = Some (user (vt_principal t)).
Proof.
  apply (oauth_accepts_only_good toy (λ _, ""%string) demo_validator 500 OauthExchange_new demo_bearer demo_oauth.1.1).
  vm_compute. reflexivity.
Defined.
