(* ===== verification/Sasl.v ===== *)
(** * Authenticating a connection

    The SaslHandshake and SaslAuthenticate handlers ([handlers/sasl.rs]) over the
    connection state of [Protocol] and the mechanisms of [Auth].  A connection has,
    besides what the dispatcher looks at, its authenticated principal and the
    exchange in progress.  Credential reloads and key rotations may happen between
    any two requests. *)

From stdpp Require Import base gmap strings list.
From Stdlib Require Import Strings.Byte.
From S2P Require Import Prelude Primitives Wire ApiAdmin OffsetStore Acls Auth Protocol.

Local Open Scope Z_scope.

Definition ERR_NETWORK_EXCEPTION : Z := 13.
Definition ERR_UNSUPPORTED_SASL_MECHANISM : Z := 33.
Definition REUSABLE_CREDENTIAL_MECHS : list string := ["PLAIN"; "OAUTHBEARER"].

Record SaslConn := { sc_conn : ConnState; sc_principal : option Principal; sasl_state : option Exchange }.

(** An accepted connection. *)
Definition SaslConn_new (listener : string) (tls : bool) : SaslConn :=
  {| sc_conn := {| listener_name := listener; is_tls := tls; principal := None; sasl_done := false;
                   sasl_mechanism := None; session_deadline := None |};
     sc_principal := None; sasl_state := None |}.

Definition with_mechanism (c : SaslConn) (m : string) : SaslConn :=
  let k := sc_conn c in
  {| sc_conn := {| listener_name := listener_name k; is_tls := is_tls k; principal := principal k;
                   sasl_done := sasl_done k; sasl_mechanism := Some m; session_deadline := session_deadline k |};
     sc_principal := sc_principal c; sasl_state := sasl_state c |}.
Definition with_exchange (c : SaslConn) (x : option Exchange) : SaslConn :=
  {| sc_conn := sc_conn c; sc_principal := sc_principal c; sasl_state := x |}.

(** The exchange is consumed and the session starts. *)
Definition authenticated (c : SaslConn) (p : option Principal) (deadline : option Z) : SaslConn :=
  let k := sc_conn c in
  {| sc_conn := {| listener_name := listener_name k; is_tls := is_tls k; principal := p_name <$> p;
                   sasl_done := true; sasl_mechanism := sasl_mechanism k; session_deadline := deadline |};
     sc_principal := p; sasl_state := None |}.

(** An engine is shared by the listener's connections: a step may change it. *)
Definition set_engine (s : Selector) (listener : string) (e : AuthEngine) : Selector :=
  match sel_map s !! listener with
  | Some _ => {| sel_map := <[listener := e]> (sel_map s); sel_default := sel_default s |}
  | None => {| sel_map := sel_map s; sel_default := e |}
  end.

Module SaslHandshakeHandler.

Definition handle (s : Selector) (c : SaslConn) (version : Z) (body : list byte) : SaslConn * enc :=
  match SaslHandshake.decode_request version body with
  | Err err => (c, Err err)
  | Ok (req, _) =>
    let ms := mechanisms (for_listener s (listener_name (sc_conn c))) in
    let supported := bool_decide (SaslHandshake.mechanism req ∈ ms) in
    (if supported then with_mechanism c (SaslHandshake.mechanism req) else c,
     SaslHandshake.encode_response
       {| SaslHandshake.error_code := if supported then 0 else ERR_UNSUPPORTED_SASL_MECHANISM;
          SaslHandshake.mechanisms := ms |} version)
  end.

End SaslHandshakeHandler.

Module SaslAuthenticateHandler.

Definition encode_err (version error_code : Z) (message : option string) : enc :=
  SaslAuthenticate.encode_response
    {| SaslAuthenticate.error_code := error_code; SaslAuthenticate.error_message := message;
       SaslAuthenticate.r_auth_bytes := []; SaslAuthenticate.session_lifetime_ms := 0 |} version.

Definition reply (version : Z) (server_msg : list byte) (lifetime : Z) : enc :=
  SaslAuthenticate.encode_response
    {| SaslAuthenticate.error_code := 0; SaslAuthenticate.error_message := None;
       SaslAuthenticate.r_auth_bytes := server_msg; SaslAuthenticate.session_lifetime_ms := lifetime |} version.

Section handler.
Context (C : Crypto) (show : AuthError → string).

(** The exchange to step: the one in progress, or a new one. *)
Definition exchange_for (e : AuthEngine) (c : SaslConn) : result AuthError Exchange :=
  match sasl_state c with
  | Some x => Ok x
  | None => new_sasl_exchange e (default "SCRAM-SHA-512"%string (sasl_mechanism (sc_conn c)))
  end.

(** A mechanism that sends a reusable secret is refused without TLS. *)
Definition needs_tls (c : SaslConn) : option string :=
  m ← sasl_mechanism (sc_conn c);
  if bool_decide (m ∈ REUSABLE_CREDENTIAL_MECHS) && negb (is_tls (sc_conn c)) then Some m else None.

Definition same_principal (old new : option Principal) : bool :=
  match old, new with
  | Some o, Some n => bool_decide (p_name o = p_name n)
  | None, None => true
  | _, _ => false
  end.

(** What a completed exchange does to the connection. *)
Definition finish (c : SaslConn) (x : Exchange) (server_msg : list byte) (now version : Z) : SaslConn * enc :=
  let p := exchange_principal x in
  let lifetime := exchange_lifetime x in
  if sasl_done (sc_conn c) && negb (same_principal (sc_principal c) p)
  then (with_exchange c None,
        encode_err version ERR_SASL_AUTHENTICATION_FAILED (Some "re-authentication cannot change the principal"))
  else (authenticated c p (if 0 <? lifetime then Some (now + lifetime) else None),
        reply version server_msg lifetime).

Definition handle (suffix : list byte) (now_unix now : Z) (s : Selector) (c : SaslConn) (version : Z)
    (body : list byte) : Selector * SaslConn * enc :=
  match SaslAuthenticate.decode_request version body with
  | Err err => (s, c, Err err)
  | Ok (req, _) =>
    let msg := default [] (SaslAuthenticate.auth_bytes req) in
    let listener := listener_name (sc_conn c) in
    match needs_tls c with
    | Some m => (s, c, encode_err version ERR_NETWORK_EXCEPTION (Some (m +:+ " mechanism requires TLS")))
    | None =>
      match exchange_for (for_listener s listener) c with
      | Err err => (s, c, encode_err version ERR_UNSUPPORTED_SASL_MECHANISM (Some (show err)))
      | Ok x =>
        let '(e', x', r) := exchange_step C show suffix now_unix (for_listener s listener) x msg in
        let s' := set_engine s listener e' in
        match r with
        | Err err =>
          (s', with_exchange c None, encode_err version ERR_SASL_AUTHENTICATION_FAILED (Some (show err)))
        | Ok (server_msg, true) => let '(c', out) := finish c x' server_msg now version in (s', c', out)
        | Ok (server_msg, false) => (s', with_exchange c (Some x'), reply version server_msg 0)
        end
      end
    end
  end.

End handler.

End SaslAuthenticateHandler.

(** ** Histories of a connection *)

Inductive SaslEvent :=
| EHandshake (version : Z) (body : list byte)
| EAuthenticate (suffix : list byte) (now_unix now version : Z) (body : list byte)
| ECredentials (listener : string) (st : CredState)
| EKeys (listener : string) (ks : list VerifyKey).

(** Reloads change what an engine knows, never its kind. *)
Definition reload_engine (e : AuthEngine) (st : CredState) : AuthEngine :=
  match e with RealAuthEngine _ => RealAuthEngine st | _ => e end.
Definition rekey_engine (e : AuthEngine) (ks : list VerifyKey) : AuthEngine :=
  match e with
  | OauthEngine v => OauthEngine {| cfg := cfg v; keys := ks; refresh_hint := refresh_hint v |}
  | _ => e
  end.

Definition sasl_step (C : Crypto) (show : AuthError → string) (w : Selector * SaslConn) (ev : SaslEvent) :
    Selector * SaslConn :=
  let '(s, c) := w in
  match ev with
  | EHandshake version body => (s, (SaslHandshakeHandler.handle s c version body).1)
  | EAuthenticate suffix now_unix now version body =>
    (SaslAuthenticateHandler.handle C show suffix now_unix now s c version body).1
  | ECredentials l st => (set_engine s l (reload_engine (for_listener s l) st), c)
  | EKeys l ks => (set_engine s l (rekey_engine (for_listener s l) ks), c)
  end.

Definition sasl_run (C : Crypto) (show : AuthError → string) (w : Selector * SaslConn) (evs : list SaslEvent) :
    Selector * SaslConn := foldl (sasl_step C show) w evs.

(** A TLS connection may arrive with a client certificate: [subject] is what it
    parses to, [mtls] the listener's mapping rules and engine. *)
Definition extract_and_stamp_mtls (X : Regexes) (c : SaslConn) (mtls : option (list (Rule X) * AuthEngine))
    (subject : option (list byte * option (list byte))) : SaslConn :=
  match mtls with
  | None => c
  | Some (rules, e) =>
    match extract_principal X subject rules e with
    | Err _ => c
    | Ok p =>
      let k := sc_conn c in
      {| sc_conn := {| listener_name := listener_name k; is_tls := is_tls k; principal := Some (p_name p);
                       sasl_done := true; sasl_mechanism := sasl_mechanism k; session_deadline := session_deadline k |};
         sc_principal := Some p; sasl_state := sasl_state c |}
    end
  end.

(** ** Engines keep their kind *)

Definition engine_kind (e : AuthEngine) : nat :=
  match e with AllowAllAuthEngine => 0 | RealAuthEngine _ => 1 | OauthEngine _ => 2 end.

Lemma set_engine_kind s l e l' :
  engine_kind e = engine_kind (for_listener s l) →
  engine_kind (for_listener (set_engine s l e) l') = engine_kind (for_listener s l').
Proof.
  unfold set_engine, for_listener. intros He. destruct (sel_map s !! l) as [e0|] eqn:E; simpl in *.
  - destruct (decide (l = l')) as [<-|Hn]; [by rewrite lookup_insert_eq, E|by rewrite lookup_insert_ne].
  - by destruct (sel_map s !! l').
Qed.

Lemma exchange_step_kind C show suffix nu e x msg :
  engine_kind (exchange_step C show suffix nu e x msg).1.1 = engine_kind e.
Proof.
  unfold exchange_step. destruct x; simpl; try done.
  - by destruct (plain_step _ _).
  - by destruct (scram_step _ _ _ _ _).
  - destruct e; try done. by destruct (oauth_step _ _ _ _ _ _) as [[??]?].
Qed.

Section history.
Context (C : Crypto) (show : AuthError → string) (w : Selector * SaslConn) (l : string).

(** What an authentication request carries. *)
Definition auth_msg (version : Z) (body : list byte) : option (list byte) :=
  match SaslAuthenticate.decode_request version body with
  | Ok (req, _) => Some (default [] (SaslAuthenticate.auth_bytes req))
  | Err _ => None
  end.

(** The engines the listener has had, the messages the client has sent, the nonce
    suffixes the broker has drawn. *)
Definition seen (evs : list SaslEvent) (e : AuthEngine) : Prop :=
  ∃ es1 es2, evs = es1 ++ es2 ∧ e = for_listener (sasl_run C show w es1).1 l.
Definition sent (evs : list SaslEvent) (m : list byte) : Prop :=
  ∃ sfx nu n v body, EAuthenticate sfx nu n v body ∈ evs ∧ auth_msg v body = Some m.
Definition drawn (evs : list SaslEvent) (sfx : list byte) : Prop :=
  ∃ nu n v body, EAuthenticate sfx nu n v body ∈ evs.

(** Why a connection may call itself [p]. *)
Inductive proves (evs : list SaslEvent) (p : Principal) : Prop :=
| by_password st m :
    is_tls (sc_conn w.2) = true → seen evs (RealAuthEngine st) → sent evs m → plain_step st m = Ok p → proves evs p
| by_scram st creds name bare sf sfx nonce m i proof :
    seen evs (RealAuthEngine st) → lookup_scram st (of_bytes name) = Some creds → p = user name →
    drawn evs sfx → sent evs m →
    parse_attrs (take i m) !! attr_r = Some (nonce ++ b64_nopad_encode C sfx) →
    b64_decode C (drop (i + 3) m) = Some proof →
    sha512 C (xor_bytes proof (hmac_sha512 C (stored_key creds)
      (bare ++ as_bytes "," ++ sf ++ as_bytes "," ++ take i m))) = stored_key creds →
    proves evs p
| by_token v m resp now t :
    seen evs (OauthEngine v) → sent evs m → parse_initial_response m = Ok resp →
    token_good C v now (ir_token resp) t → p = user (vt_principal t) → proves evs p
| by_start : sc_principal w.2 = Some p → proves evs p.

Lemma seen_app evs ev e : seen evs e → seen (evs ++ [ev]) e.
Proof. intros (es1 & es2 & -> & ->). exists es1, (es2 ++ [ev]). by rewrite app_assoc. Qed.
Lemma seen_now evs ev : seen (evs ++ [ev]) (for_listener (sasl_run C show w evs).1 l).
Proof. by exists evs, [ev]. Qed.
Lemma sent_app evs ev m : sent evs m → sent (evs ++ [ev]) m.
Proof. intros (sfx & nu & n & v & body & Hin & Hm). exists sfx, nu, n, v, body. split; [set_solver|done]. Qed.
Lemma drawn_app evs ev sfx : drawn evs sfx → drawn (evs ++ [ev]) sfx.
Proof. intros (nu & n & v & body & Hin). exists nu, n, v, body. set_solver. Qed.

Hint Resolve seen_app sent_app drawn_app : core.

Lemma proves_app evs ev p : proves evs p → proves (evs ++ [ev]) p.
Proof. destruct 1; [eapply by_password|eapply by_scram|eapply by_token|eapply by_start]; eauto. Qed.

(** The exchange a connection keeps between two requests. *)
Definition exchange_inv (evs : list SaslEvent) (x : Exchange) : Prop :=
  match x with
  | ExScram x =>
    sx_state x = ScramAwaitFinal ∧
    ∃ st creds sfx nonce, seen evs (RealAuthEngine st) ∧ lookup_scram st (of_bytes (sx_username x)) = Some creds ∧
      sx_stored_key x = stored_key creds ∧ drawn evs sfx ∧ full_nonce x = nonce ++ b64_nopad_encode C sfx
  | ExOauth x => ∃ reason, ox_step x = AwaitErrorAck reason
  | _ => False
  end.

Lemma exchange_inv_app evs ev x : exchange_inv evs x → exchange_inv (evs ++ [ev]) x.
Proof.
  destruct x; simpl; try done. intros (Hs & st & creds & sfx & nonce & H1 & H2 & H3 & H4 & H5).
  split; [done|]. exists st, creds, sfx, nonce. eauto 10.
Qed.

Record conn_inv (evs : list SaslEvent) (w' : Selector * SaslConn) : Prop := {
  ci_listener : listener_name (sc_conn w'.2) = l;
  ci_tls : is_tls (sc_conn w'.2) = is_tls (sc_conn w.2);
  ci_kind : engine_kind (for_listener w'.1 l) = engine_kind (for_listener w.1 l);
  ci_principal : ∀ p, sc_principal w'.2 = Some p → proves evs p;
  ci_done : sasl_done (sc_conn w'.2) = true ↔ is_Some (sc_principal w'.2);
  ci_name : principal (sc_conn w'.2) = p_name <$> sc_principal w'.2;
  ci_exchange : ∀ x, sasl_state w'.2 = Some x → exchange_inv evs x }.

(** One step of an exchange: a completed one is evidence for its principal, an
    unfinished one is kept in a good state. *)
Lemma exchange_step_proves evs sfx nu n v body m x e' x' out d :
  let e := for_listener (sasl_run C show w evs).1 l in
  let evs' := evs ++ [EAuthenticate sfx nu n v body] in
  engine_kind e ≠ 0%nat → auth_msg v body = Some m →
  exchange_inv evs x ∨ (∃ mech, new_sasl_exchange e mech = Ok x ∧
    (mech = "PLAIN"%string → is_tls (sc_conn w.2) = true)) →
  exchange_step C show sfx nu e x m = (e', x', Ok (out, d)) →
  if d then ∃ p, exchange_principal x' = Some p ∧ proves evs' p else exchange_inv evs' x'.
Proof.
  intros e evs' Hk Hm Hx Hs.
  assert (seen evs' e) as Hseen by apply seen_now.
  assert (sent evs' m) as Hsent by (exists sfx, nu, n, v, body; split; [set_solver|done]).
  assert (drawn evs' sfx) as Hdrawn by (exists nu, n, v, body; set_solver).
  destruct Hx as [Hx|(mech & Hnew & Htls)].
  - apply (exchange_inv_app _ (EAuthenticate sfx nu n v body)) in Hx. fold evs' in Hx.
    destruct x as [| |x|x]; simpl in Hx; try done.
    + destruct Hx as (Hst & st & creds & sfx0 & nonce & H1 & H2 & H3 & H4 & H5). simpl in Hs.
      destruct (scram_step _ _ _ _ _) as [x1 r] eqn:E. injection Hs as <- <- ->.
      pose proof (scram_final_done _ _ _ _ _ _ _ _ Hst E) as ->.
      apply scram_sound in E as (_ & Hp & i & proof & Hr & Hd & Hh). exists (user (sx_username x)).
      split; [done|]. rewrite H5 in Hr. rewrite H3 in Hh.
      by apply (by_scram _ _ st creds (sx_username x) (client_first_bare x) (server_first x) sfx0 nonce m i proof).
    + destruct Hx as [reason Hr]. simpl in Hs. destruct e; [done..|].
      unfold oauth_step in Hs. rewrite Hr in Hs. done.
  - destruct e as [|st|ov] eqn:He; [done| |]; simpl in Hnew.
    + case_decide; [|case_decide; [|done]]; injection Hnew as <-; simpl in Hs.
      * destruct (scram_step _ _ _ _ _) as [x1 r] eqn:E. injection Hs as <- <- ->.
        destruct (scram_first_spec C st sfx ScramExchange_new m x1 out d eq_refl E) as (-> & Hst & creds & nonce & H1 & H2 & H3).
        simpl. split; [done|]. by exists st, creds, sfx, nonce.
      * destruct (plain_step st m) as [p|] eqn:E; [|done]. injection Hs as <- <- <- <-.
        exists p. split; [done|]. eapply by_password; [by apply Htls|done|done|done].
    + case_decide; [|done]. injection Hnew as <-. simpl in Hs.
      destruct (oauth_step _ _ _ _ _ _) as [[ov' x1] r] eqn:E. injection Hs as <- <- ->. destruct d.
      * apply oauth_step_good in E as (_ & _ & resp & t & H1 & H2 & _ & H3). exists (user (vt_principal t)).
        split; [done|]. by eapply by_token.
      * unfold oauth_step in E. cbn [ox_step OauthExchange_new] in E.
        destruct (oauth_attempt _ _ _ _) as [? []]; [done|]. injection E as <- <- <-. simpl. by eexists.
Qed.

Lemma conn_inv_step evs ev :
  engine_kind (for_listener w.1 l) ≠ 0%nat → conn_inv evs (sasl_run C show w evs) →
  conn_inv (evs ++ [ev]) (sasl_step C show (sasl_run C show w evs) ev).
Proof.
  intros Hk Hinv. destruct (sasl_run C show w evs) as [s c] eqn:Erun. destruct Hinv as [Il It Ik Ip Id In Ix].
  simpl in Il, It, Ik, Ip, Id, In, Ix.
  assert (∀ s', engine_kind (for_listener s' l) = engine_kind (for_listener s l) → conn_inv (evs ++ [ev]) (s', c)) as Hsame.
  { intros s' Hs'. constructor; simpl; try done; [congruence| |]; intros; [by apply proves_app, Ip|by apply exchange_inv_app, Ix]. }
  destruct ev as [v body|sfx nu n v body|l' st|l' ks]; simpl.
  - unfold SaslHandshakeHandler.handle. destruct (SaslHandshake.decode_request v body) as [[req rest]|]; [|by apply Hsame].
    simpl. case_bool_decide; [|by apply Hsame].
    constructor; simpl; try done; intros; [by apply proves_app, Ip|by apply exchange_inv_app, Ix].
  - unfold SaslAuthenticateHandler.handle.
    destruct (SaslAuthenticate.decode_request v body) as [[req rest]|] eqn:Ed; [|by apply Hsame].
    destruct (SaslAuthenticateHandler.needs_tls c) as [m|] eqn:Et; [by apply Hsame|].
    rewrite Il. destruct (SaslAuthenticateHandler.exchange_for _ c) as [x|] eqn:Ex; [|by apply Hsame].
    set (m := default [] (SaslAuthenticate.auth_bytes req)).
    assert (auth_msg v body = Some m) as Hm by (unfold auth_msg; by rewrite Ed).
    destruct (exchange_step C show sfx nu (for_listener s l) x m) as [[e' x'] r] eqn:Es.
    assert (engine_kind (for_listener (set_engine s l e') l) = engine_kind (for_listener s l)) as Hkind.
    { apply set_engine_kind. pose proof (exchange_step_kind C show sfx nu (for_listener s l) x m) as H.
      by rewrite Es in H. }
    assert (conn_inv (evs ++ [EAuthenticate sfx nu n v body]) (set_engine s l e', with_exchange c None)) as Hdrop.
    { constructor; simpl; try done; [congruence|]; intros; by apply proves_app, Ip. }
    destruct r as [[out d]|err]; [|done].
    pose proof (exchange_step_proves evs sfx nu n v body m x e' x' out d) as Hp.
    rewrite Erun in Hp. simpl in Hp. specialize (Hp ltac:(congruence) Hm).
    assert (exchange_inv evs x ∨ (∃ mech, new_sasl_exchange (for_listener s l) mech = Ok x ∧
      (mech = "PLAIN"%string → is_tls (sc_conn w.2) = true))) as Hx.
    { unfold SaslAuthenticateHandler.exchange_for in Ex. destruct (sasl_state c) as [x0|] eqn:E0.
      - injection Ex as ->. left. by apply Ix.
      - right. eexists. split; [exact Ex|]. intros Hmech. rewrite <- It.
        unfold SaslAuthenticateHandler.needs_tls in Et. destruct (sasl_mechanism (sc_conn c)) as [mech|]; [|done].
        simpl in Hmech. subst mech. simpl in Et. by destruct (is_tls (sc_conn c)). }
    specialize (Hp Hx Es). destruct d.
    + destruct Hp as (p & Hp1 & Hp2). unfold SaslAuthenticateHandler.finish. rewrite Hp1.
      destruct (sasl_done (sc_conn c) && _); simpl; [done|].
      constructor; simpl; try done; [congruence|by intros p' [= <-]].
    + simpl. constructor; simpl; try done; [congruence| |]; intros; [by apply proves_app, Ip|by simplify_eq].
  - apply Hsame, set_engine_kind. by destruct (for_listener s l').
  - apply Hsame, set_engine_kind. by destruct (for_listener s l').
Qed.

Lemma conn_inv_run evs :
  engine_kind (for_listener w.1 l) ≠ 0%nat → conn_inv [] w → conn_inv evs (sasl_run C show w evs).
Proof.
  intros Hk H0. induction evs as [|ev evs IH] using rev_ind; [done|].
  unfold sasl_run. rewrite foldl_app. by apply conn_inv_step.
Qed.

End history.

(** ** Properties *)

Lemma start_inv C show s X listener tls mtls subject :
  let w := (s, extract_and_stamp_mtls X (SaslConn_new listener tls) mtls subject) in
  conn_inv C show w listener [] w.
Proof.
  intros w. subst w. unfold extract_and_stamp_mtls.
  destruct mtls as [[rules e]|]; [destruct (extract_principal X subject rules e) as [p|]|].
  - constructor; simpl; try done. intros p' Hp'. by apply by_start.
  - constructor; simpl; done.
  - constructor; simpl; done.
Qed.

(** C29. Nobody is authenticated without evidence: on a listener that requires
    authentication, whatever requests a client sends and whatever credential
    reloads and key rotations happen in between, a connection counts as
    authenticated exactly when it has a principal, and it has one only if the
    client presented a certificate that maps to it, or, on TLS, that user's
    password, or a proof that hashes to that user's stored SCRAM key and covers a
    nonce the broker drew on this connection, or a good token of that user. *)
Theorem authenticated_with_evidence C show s X listener tls mtls subject evs :
  requires_pre_auth (for_listener s listener) = true →
  let w := (s, extract_and_stamp_mtls X (SaslConn_new listener tls) mtls subject) in
  let c := (sasl_run C show w evs).2 in
  (sasl_done (sc_conn c) = true ↔ is_Some (sc_principal c)) ∧
  ∀ p, sc_principal c = Some p → principal (sc_conn c) = Some (p_name p) ∧ proves C show w listener evs p ∧
    (sc_principal w.2 = Some p → ∃ rules e, mtls = Some (rules, e) ∧ extract_principal X subject rules e = Ok p).
Proof.
  intros Hreq w c.
  assert (engine_kind (for_listener w.1 listener) ≠ 0%nat) as Hk by (simpl; by destruct (for_listener s listener)).
  destruct (conn_inv_run C show w listener evs Hk (start_inv C show s X listener tls mtls subject)) as [_ _ _ Ip Id In _].
  split; [done|]. intros p Hp. split; [unfold c in *; by rewrite In, Hp|]. split; [by apply Ip|].
  unfold w, extract_and_stamp_mtls. simpl. destruct mtls as [[rules e]|]; [|done].
  destruct (extract_principal X subject rules e) as [p'|] eqn:E; [|done]. simpl. intros [= <-]. by exists rules, e.
Qed.

Lemma authenticate_keeps C show s c ev p :
  sasl_done (sc_conn c) = true → sc_principal c = Some p →
  let c' := (sasl_step C show (s, c) ev).2 in
  sasl_done (sc_conn c') = true ∧ ∃ p', sc_principal c' = Some p' ∧ p_name p' = p_name p.
Proof.
  intros Hd Hp. destruct ev as [v body|sfx nu n v body|l' st|l' ks]; simpl.
  - unfold SaslHandshakeHandler.handle. destruct (SaslHandshake.decode_request v body) as [[]|]; simpl; [|by eauto].
    case_bool_decide; simpl; by eauto.
  - unfold SaslAuthenticateHandler.handle. destruct (SaslAuthenticate.decode_request v body) as [[]|]; [|by eauto].
    destruct (SaslAuthenticateHandler.needs_tls c); [by eauto|].
    destruct (SaslAuthenticateHandler.exchange_for _ c) as [x|]; [|by eauto].
    destruct (exchange_step _ _ _ _ _ _ _) as [[e' x'] [[out []]|]]; simpl; [|by eauto..].
    unfold SaslAuthenticateHandler.finish. rewrite Hd, Hp. simpl.
    destruct (exchange_principal x') as [p'|]; simpl; [|by eauto].
    case_bool_decide; simpl; by eauto.
  - by eauto.
  - by eauto.
Qed.

(** A session never changes hands: once a connection is authenticated it stays
    authenticated under the same name, whatever handshakes, failed or successful
    re-authentications, reloads and rotations follow. *)
Theorem principal_never_changes C show s c p evs :
  sasl_done (sc_conn c) = true → sc_principal c = Some p →
  let c' := (sasl_run C show (s, c) evs).2 in
  sasl_done (sc_conn c') = true ∧ ∃ p', sc_principal c' = Some p' ∧ p_name p' = p_name p.
Proof.
  intros Hd Hp. induction evs as [|ev evs IH] using rev_ind; [by eauto|].
  unfold sasl_run in *. rewrite foldl_app. simpl. destruct (foldl _ (s, c) evs) as [s1 c1]. simpl in IH.
  destruct IH as (Hd1 & p1 & Hp1 & Hn).
  destruct (authenticate_keeps C show s1 c1 ev p1 Hd1 Hp1) as (Hd2 & p2 & Hp2 & Hn2).
  split; [done|]. exists p2. split; [done|congruence].
Qed.

(** ** Session lifetimes *)

Lemma lifetime_bounds max exp now :
  0 ≤ max → let ms := session_lifetime_ms (Some max) exp now in
  0 ≤ ms ∧ ms ≤ max * 1000 ∧ (now < exp → i64_ok (exp - now) → ms ≤ (exp - now) * 1000).
Proof.
  intros Hm. unfold session_lifetime_ms, sat_i64. split; [|split; [|intros Hlt Hok]];
    unfold i64_ok, i64_max, u64_max in *; lia.
Qed.

(** A token inside the clock-skew window is accepted although it has expired; its
    remaining lifetime counts as zero, and zero means that no re-authentication
    is demanded: the session gets no deadline and is never expired, although the
    listener bounds sessions. *)
Theorem expired_token_unbounded_session C show sfx nu n s c v version body m t d later key :
  for_listener s (listener_name (sc_conn c)) = OauthEngine v → is_tls (sc_conn c) = true →
  sasl_mechanism (sc_conn c) = Some "OAUTHBEARER"%string → sasl_state c = None → sasl_done (sc_conn c) = false →
  auth_msg version body = Some m → (oauth_attempt C v nu m).2 = Ok t → exp_unix t ≤ nu →
  engines d = Some (λ l, requires_pre_auth (for_listener s l)) →
  let c' := (SaslAuthenticateHandler.handle C show sfx nu n s c version body).1.2 in
  sc_principal c' = Some (user (vt_principal t)) ∧ session_deadline (sc_conn c') = None ∧
  gate (W := unit) d later (sc_conn c') key = None.
Proof.
  intros He Ht Hmech Hst Hd Hm Ha Hexp Hen c'.
  unfold auth_msg in Hm. destruct (SaslAuthenticate.decode_request version body) as [[req rest]|] eqn:Er; [|done].
  injection Hm as <-.
  assert (c' = authenticated c (Some (user (vt_principal t))) None) as ->.
  { unfold c', SaslAuthenticateHandler.handle. rewrite Er.
    unfold SaslAuthenticateHandler.needs_tls, SaslAuthenticateHandler.exchange_for. rewrite Hmech, Ht, Hst, He. simpl.
    unfold oauth_step. cbn [ox_step OauthExchange_new].
    destruct (oauth_attempt C v nu _) as [v' r]. simpl in Ha. subst r. cbn [fst snd].
    unfold SaslAuthenticateHandler.finish. rewrite Hd. cbn [andb exchange_principal exchange_lifetime ox_principal ox_lifetime].
    assert (session_lifetime_ms (max_seconds_without_reauthentication (cfg v)) (exp_unix t) nu ≤ 0) as Hl.
    { unfold session_lifetime_ms. destruct (max_seconds_without_reauthentication (cfg v)) as [x|]; [|done].
      unfold sat_i64, i64_max. lia. }
    by destruct (Z.ltb_spec 0 (session_lifetime_ms (max_seconds_without_reauthentication (cfg v)) (exp_unix t) nu)); [lia|]. }
  split; [done|]. split; [done|]. unfold gate. rewrite Hen. simpl. by rewrite andb_false_r.
Qed.

(** ** Instances *)

Definition toy_regexes : Regexes :=
  {| regex := unit; regex_new _ := None; expand _ _ _ := None; to_lowercase l := l; to_uppercase l := l |}.
Definition toy_show (_ : AuthError) : string := "auth".
Definition demo_selector : Selector :=
  {| sel_map := {["sasl"%string := RealAuthEngine demo_creds; "oauth"%string := OauthEngine demo_validator]};
     sel_default := AllowAllAuthEngine |}.

Definition auth_body (m : list byte) : list byte :=
  bytes_of (SaslAuthenticate.encode_request {| SaslAuthenticate.auth_bytes := Some m |} 2).
Definition demo_handshake (m : string) : SaslEvent :=
  EHandshake 1 (bytes_of (SaslHandshake.encode_request {| SaslHandshake.mechanism := m |} 1)).
Definition demo_first : SaslEvent :=
  EAuthenticate [x01; x02] 0 0 2 (auth_body (client_first demo_name (as_bytes "nonce"))).
Definition demo_server_first : list byte :=
  match (scram_step toy demo_creds [x01; x02] ScramExchange_new (client_first demo_name (as_bytes "nonce"))).2 with
  | Ok (m, _) => m
  | Err _ => []
  end.
Definition demo_final : SaslEvent :=
  EAuthenticate [] 0 0 2 (auth_body
    (default [] (fst <$> client_final toy toy_hi (as_bytes "secret") demo_name (as_bytes "nonce") demo_server_first))).

(** A SCRAM login over the wire, with a credential reload in the middle. *)
Definition demo_login : list SaslEvent :=
  [demo_handshake "SCRAM-SHA-512"; demo_first; ECredentials "sasl" CredState_empty; demo_final].
Definition demo_start : Selector * SaslConn := (demo_selector, SaslConn_new "sasl" false).

Lemma authenticated_with_evidence_witness : proves toy toy_show demo_start "sasl" demo_login (user demo_name).
Proof.
  destruct (authenticated_with_evidence toy toy_show demo_selector toy_regexes "sasl" false None None demo_login)
    as [_ Hp].
  - vm_compute. reflexivity.
  - apply (Hp (user demo_name)). vm_compute. reflexivity.
Defined.

(** The authenticated connection fails a second login. *)
Definition demo_session : SaslConn := (sasl_run toy toy_show demo_start demo_login).2.

Lemma principal_never_changes_witness :
  sasl_done (sc_conn (sasl_run toy toy_show (demo_selector, demo_session) [demo_first; demo_first]).2) = true ∧
  ∃ p', sc_principal (sasl_run toy toy_show (demo_selector, demo_session) [demo_first; demo_first]).2 = Some p' ∧
    p_name p' = "alice"%string.
Proof.
  apply (principal_never_changes toy toy_show demo_selector demo_session (user demo_name)).
  - vm_compute. reflexivity.
  - vm_compute. reflexivity.
Defined.

(** The token expires at 1000; it is presented at 1030, sessions are bounded by an hour. *)
Definition demo_oauth_conn : SaslConn := with_mechanism (SaslConn_new "oauth" true) "OAUTHBEARER".

Lemma expired_token_unbounded_session_witness :
  sc_principal (SaslAuthenticateHandler.handle toy toy_show [] 1030 0 demo_selector demo_oauth_conn 2
      (auth_body demo_bearer)).1.2 = Some (user demo_name) ∧
  session_deadline (sc_conn (SaslAuthenticateHandler.handle toy toy_show [] 1030 0 demo_selector demo_oauth_conn 2
      (auth_body demo_bearer)).1.2) = None ∧
  gate (W := unit) {| slots := ∅; engines := Some (λ l, requires_pre_auth (for_listener demo_selector l)) |} 1000000000
    (sc_conn (SaslAuthenticateHandler.handle toy toy_show [] 1030 0 demo_selector demo_oauth_conn 2
      (auth_body demo_bearer)).1.2) 0 = None.
Proof.
  apply (expired_token_unbounded_session toy toy_show [] 1030 0 demo_selector demo_oauth_conn demo_validator 2
    (auth_body demo_bearer) demo_bearer {| vt_principal := demo_name; exp_unix := 1000 |}
    {| slots := ∅; engines := Some (λ l, requires_pre_auth (for_listener demo_selector l)) |} 1000000000 0).
  - vm_compute. reflexivity.
  - reflexivity.
  - reflexivity.
  - reflexivity.
  - reflexivity.
  - vm_compute. reflexivity.
  - vm_compute. reflexivity.
  - vm_compute. congruence.
  - reflexivity.
Defined.
