(* ===== verification/Retention.v ===== *)
(** * Log retention ([kaas-storage/src/cleaner.rs])

    One pass of the retention cleaner over the engine's open partitions: ownership,
    the topic's configuration file, the size and time targets of [Partition] and
    the deletion, with the files it removes.  The order of the partitions, which
    broker owns them, the configuration files, the modification times of segment
    files and the clock are arguments; metrics and logging are left out. *)

From stdpp Require Import base gmap strings list.
From S2P Require Import Prelude Wire TxnIndex Segment SegmentDir Partition Recovery Engine.

Local Open Scope Z_scope.

Record RetentionPolicy := { retention_bytes : option Z; retention_ms : option Z }.

Definition is_unlimited (r : RetentionPolicy) : bool :=
  bool_decide (retention_bytes r = None) && bool_decide (retention_ms r = None).

(** [TopicConfigPolicySource]: an absent or unreadable file is [None]. *)
Definition policy_for (defaults : RetentionPolicy) (file : option TopicConfigFile) : RetentionPolicy :=
  match file with
  | None => defaults
  | Some c =>
    {| retention_bytes :=
         match tc_retention_bytes c with Some v => sentinel_to_option v | None => retention_bytes defaults end;
       retention_ms :=
         match tc_retention_ms c with Some v => sentinel_to_option v | None => retention_ms defaults end |}
  end.

Definition partition_config_for (file : option TopicConfigFile) (base : PartitionConfig) : PartitionConfig :=
  match file with Some c => apply_to_partition_config c base | None => base end.

(** [Option::max]: nothing is below something. *)
Definition option_max (a b : option Z) : option Z :=
  match a, b with
  | Some x, Some y => Some (Z.max x y)
  | Some x, None => Some x
  | None, o => o
  end.

Definition cutoff_ms (now ms : Z) : Z := sat_i64 (now - Z.min i64_max ms).

(** The offset a policy wants the log to start at. *)
Definition retention_target (mtime : SegmentMeta → option Z) (now : Z) (policy : RetentionPolicy) (p : Partition) :
    option Z :=
  let by_size := retention_bytes policy ≫= cleanup_target_for_size_bytes p in
  let by_time := retention_ms policy ≫= λ ms, cleanup_target_for_time mtime p (cutoff_ms now ms) in
  option_max by_size by_time.

(** What a pass decides for an open partition: the deletion to run, if any. *)
Definition pass_target (mtime : SegmentMeta → option Z) (now : Z) (policy : RetentionPolicy) (p : Partition) :
    option Z :=
  if is_unlimited policy then None
  else
    t ← retention_target mtime now policy p;
    if t <=? log_start p then None else Some t.

(** What surrounds a pass. *)
Record CleanerEnv := {
  ce_owns : Key → bool; ce_file : Key → option TopicConfigFile; ce_defaults : RetentionPolicy;
  ce_mtime : Key → SegmentMeta → option Z; ce_now : Z }.

(** One partition: its tuning is refreshed, then its log is cut; [Ok true]: it was. *)
Definition clean_one (env : CleanerEnv) (configs : gmap Key PartitionConfig) (base : PartitionConfig)
    (e : Engine) (v : LogVolume) (k : Key) :
    gmap Key PartitionConfig * Engine * LogVolume * result StorageError bool :=
  if negb (ce_owns env k) then (configs, e, v, Ok false)
  else
    match partitions e !! k with
    | None => (configs, e, v, Ok false)
    | Some (root, p) =>
      let configs := <[k := partition_config_for (ce_file env k) (default base (configs !! k))]> configs in
      match pass_target (ce_mtime env k) (ce_now env) (policy_for (ce_defaults env) (ce_file env k)) p with
      | None => (configs, e, v, Ok false)
      | Some target =>
        let '(p', out) := delete_records p target in
        (configs, set_partition e k root p', set_dir v root k (write_through p p' (dir_at v root k)),
         match out with Ok _ => Ok true | Err err => Err err end)
      end
    end.

(** [run_once]: an error ends the pass. *)
Fixpoint run_once (env : CleanerEnv) (configs : gmap Key PartitionConfig) (base : PartitionConfig)
    (e : Engine) (v : LogVolume) (ks : list Key) (cleaned : nat) :
    gmap Key PartitionConfig * Engine * LogVolume * result StorageError nat :=
  match ks with
  | [] => (configs, e, v, Ok cleaned)
  | k :: ks' =>
    match clean_one env configs base e v k with
    | (configs, e, v, Ok b) => run_once env configs base e v ks' (if b then S cleaned else cleaned)
    | (configs, e, v, Err err) => (configs, e, v, Err err)
    end
  end.

(** ** What a policy allows, as a number of closed segments *)

(** When a segment was last written to, as far as can be told. *)
Definition dated (mtime : SegmentMeta → option Z) (s : SegmentMeta) : option Z :=
  if 0 <=? max_timestamp s then Some (max_timestamp s) else mtime s.

Definition expired (mtime : SegmentMeta → option Z) (cutoff : Z) (s : SegmentMeta) : bool :=
  match dated mtime s with Some ms => ms <? cutoff | None => false end.

(** The leading segments that are all past their time. *)
Fixpoint expired_count (mtime : SegmentMeta → option Z) (cutoff : Z) (segs : list SegmentMeta) : nat :=
  match segs with
  | [] => 0
  | s :: segs' => if expired mtime cutoff s then S (expired_count mtime cutoff segs') else 0
  end.

(** The leading segments that fit in a surplus. *)
Fixpoint surplus_count (surplus : Z) (segs : list SegmentMeta) : nat :=
  match segs with
  | [] => 0
  | s :: segs' =>
    if surplus <? size s then 0
    else if surplus - size s =? 0 then 1 else S (surplus_count (surplus - size s) segs')
  end.

(** The log a partition still holds, in bytes. *)
Definition held (p : Partition) : Z := closed_size (closed p) + log_size (active p).

Definition reap_count (mtime : SegmentMeta → option Z) (now : Z) (policy : RetentionPolicy) (p : Partition) : nat :=
  Nat.max
    match retention_bytes policy with
    | Some r => if held p <=? r then 0 else surplus_count (held p - r) (closed p)
    | None => 0
    end
    match retention_ms policy with
    | Some ms => expired_count mtime (cutoff_ms now ms) (closed p)
    | None => 0
    end.

(** Segments follow one another, none of them is wholly below the log start, and
    the sizes are those of files. *)
Definition log_ok (p : Partition) : Prop :=
  bases_increase (closed p) (meta_base (active p)) ∧ Forall (λ s, 0 ≤ size s) (closed p) ∧
  0 ≤ log_size (active p) ∧ held p ≤ i64_max ∧ 0 ≤ log_start p ∧
  meta_base (active p) ≤ high_water p ∧
  ∀ s l, closed p = s :: l → log_start p < next_base l (meta_base (active p)).

(** ** Lemmas *)

Lemma time_target_count mtime segs ab cutoff acc :
  time_target mtime segs ab cutoff acc =
  match expired_count mtime cutoff segs with
  | O => acc
  | j => Some (next_base (drop j segs) ab)
  end.
Proof.
  revert acc. induction segs as [|s segs IH]; intros acc; simpl; [done|].
  fold (dated mtime s). unfold expired. destruct (dated mtime s) as [ms|]; [|done].
  rewrite Z.ltb_antisym. destruct (cutoff <=? ms); simpl; [done|]. rewrite IH.
  destruct (expired_count mtime cutoff segs); [by destruct segs|done].
Qed.

Lemma size_target_count segs ab surplus :
  size_target segs ab surplus = next_base (drop (surplus_count surplus segs) segs) ab.
Proof.
  revert surplus. induction segs as [|s segs IH]; intros surplus; simpl; [done|].
  destruct (surplus <? size s); [done|]. destruct (surplus - size s =? 0); simpl; [by destruct segs|apply IH].
Qed.

Lemma expired_count_le mtime cutoff segs : (expired_count mtime cutoff segs ≤ length segs)%nat.
Proof. induction segs as [|s segs IH]; simpl; [lia|]. destruct (expired _ _ _); lia. Qed.

Lemma surplus_count_le surplus segs : (surplus_count surplus segs ≤ length segs)%nat.
Proof. revert surplus. induction segs as [|s segs IH]; intros n; simpl; [lia|]. repeat case_match; try lia. specialize (IH (n - size s)). lia. Qed.

Lemma closed_size_nonneg l : Forall (λ s, 0 ≤ size s) l → 0 ≤ closed_size l.
Proof. induction 1; simpl; [done|]. unfold closed_size in *. simpl. lia. Qed.

Lemma next_base_mono segs ab i j :
  bases_increase segs ab → (i ≤ j)%nat → (j ≤ length segs)%nat →
  next_base (drop i segs) ab ≤ next_base (drop j segs) ab.
Proof.
  revert i j. induction segs as [|s segs IH]; intros i j Hb Hij Hj; simpl in *; [by rewrite !drop_nil|].
  destruct Hb as [Hs Hb], i as [|i], j as [|j]; simpl; try lia.
  - specialize (IH 0%nat j Hb ltac:(lia) ltac:(lia)). rewrite drop_0 in IH. lia.
  - apply IH; [done|lia|lia].
Qed.

Lemma next_base_last segs ab j :
  bases_increase segs ab → (j ≤ length segs)%nat → next_base (drop j segs) ab ≤ ab.
Proof.
  intros Hb Hj. pose proof (next_base_mono segs ab j (length segs) Hb ltac:(lia) ltac:(lia)) as H.
  by rewrite drop_all in H.
Qed.

Lemma reap_count_le mtime now policy p : (reap_count mtime now policy p ≤ length (closed p))%nat.
Proof.
  unfold reap_count. apply Nat.max_lub; repeat case_match; try lia; auto using surplus_count_le, expired_count_le.
Qed.

(** The target of a policy is the base its count leads to. *)
Lemma retention_target_count mtime now policy p :
  log_ok p →
  match retention_target mtime now policy p with
  | None => reap_count mtime now policy p = 0%nat
  | Some t => t = next_base (drop (reap_count mtime now policy p) (closed p)) (meta_base (active p))
  end.
Proof.
  intros (Hb & Hs & Ha & Hm & _). unfold retention_target, reap_count.
  pose proof (closed_size_nonneg _ Hs) as H0. unfold cleanup_target_for_size_bytes, cleanup_target_for_time.
  unfold held in *.
  rewrite wrap_u_small, sat_u64_small by (unfold i64_max in *; simpl; lia).
  set (ct := expired_count mtime) in *. set (tot := closed_size (closed p) + log_size (active p)) in *.
  assert (∀ js jt, (js ≤ length (closed p))%nat → (jt ≤ length (closed p))%nat →
    next_base (drop (Nat.max js jt) (closed p)) (meta_base (active p)) =
    Z.max (next_base (drop js (closed p)) (meta_base (active p))) (next_base (drop jt (closed p)) (meta_base (active p))))
    as Hmax.
  { intros js jt Hjs Hjt. destruct (Nat.max_spec js jt) as [[? ->]|[? ->]];
      pose proof (next_base_mono (closed p) (meta_base (active p)) js jt Hb) as H1;
      pose proof (next_base_mono (closed p) (meta_base (active p)) jt js Hb) as H2; lia. }
  destruct (retention_bytes policy) as [r|]; simpl;
    [rewrite size_target_count; pose proof (surplus_count_le (tot - r) (closed p)); destruct (tot <=? r); simpl|];
    (destruct (retention_ms policy) as [ms|]; simpl;
     [rewrite time_target_count; pose proof (expired_count_le mtime (cutoff_ms now ms) (closed p)) as He;
      fold ct in He |- *; destruct (ct (cutoff_ms now ms) (closed p)) as [|jt] eqn:Ej; simpl|]);
    rewrite ?Nat.max_0_r; try done.
  rewrite Hmax by lia. done.
Qed.

Definition policy_of (env : CleanerEnv) (k : Key) : RetentionPolicy := policy_for (ce_defaults env) (ce_file env k).

(** What a pass makes of one partition. *)
Definition reaped (env : CleanerEnv) (k : Key) (p : Partition) : list SegmentMeta :=
  if ce_owns env k then drop (reap_count (ce_mtime env k) (ce_now env) (policy_of env k) p) (closed p) else closed p.

Lemma reap_count_unlimited mtime now policy p : is_unlimited policy = true → reap_count mtime now policy p = 0%nat.
Proof. unfold is_unlimited, reap_count. intros [->%bool_decide_eq_true ->%bool_decide_eq_true]%andb_true_iff. done. Qed.

(** No target, or one that is not past the log start: there is nothing to reap. *)
Lemma pass_target_none mtime now policy p :
  log_ok p → pass_target mtime now policy p = None → reap_count mtime now policy p = 0%nat.
Proof.
  intros Hok. unfold pass_target. destruct (is_unlimited policy) eqn:Eu; [by intros; apply reap_count_unlimited|].
  pose proof (retention_target_count mtime now policy p Hok) as Ht.
  destruct (retention_target mtime now policy p) as [t|]; simpl; [|done].
  destruct (Z.leb_spec t (log_start p)) as [Hle|]; [intros _|done]. subst t.
  pose proof (reap_count_le mtime now policy p) as Hj. destruct Hok as (Hb & _ & _ & _ & _ & _ & Hl).
  destruct (reap_count mtime now policy p) as [|j]; [done|]. destruct (closed p) as [|s l]; simpl in *; [lia|].
  specialize (Hl s l eq_refl). pose proof (next_base_mono l (meta_base (active p)) 0 j) as Hmono.
  rewrite drop_0 in Hmono. destruct Hb as [_ Hb]. specialize (Hmono Hb). lia.
Qed.

Lemma pass_target_some mtime now policy p t :
  log_ok p → pass_target mtime now policy p = Some t →
  delete_records p t =
    ({| active := active p; closed := drop (reap_count mtime now policy p) (closed p);
        log_start := t; high_water := high_water p; p_epoch := p_epoch p;
        pending_flush_records := pending_flush_records p;
        requested_flush_seq := requested_flush_seq p; completed_flush_seq := completed_flush_seq p;
        flush_err := flush_err p; producer_states := producer_states p; open_txns := open_txns p;
        aborted_txns := evict_below (aborted_txns p) t |}, Ok t) ∧ log_start p < t.
Proof.
  intros Hok. unfold pass_target. destruct (is_unlimited policy); [done|].
  pose proof (retention_target_count mtime now policy p Hok) as Ht.
  destruct (retention_target mtime now policy p) as [t'|]; simpl; [|done].
  destruct (Z.leb_spec t' (log_start p)) as [|Hlt]; [done|]. intros [= ->].
  pose proof (reap_count_le mtime now policy p) as Hj. destruct Hok as (Hb & _ & _ & _ & H0 & Hhw & _).
  pose proof (next_base_last _ _ _ Hb Hj) as Hlast. rewrite <- Ht in Hlast. unfold delete_records.
  destruct (Z.leb_spec 0 t), (Z.ltb_spec (high_water p) t), (Z.ltb_spec t 0), (Z.ltb_spec (log_start p) t); try lia.
  simpl. split; [|done]. do 2 f_equal. rewrite Ht. by apply keep_segments_drop.
Qed.

(** What one partition looks like after the pass. *)
Definition cleaned_to (env : CleanerEnv) (k : Key) (p p' : Partition) : Prop :=
  closed p' = reaped env k p ∧ active p' = active p ∧ high_water p' = high_water p ∧ log_start p ≤ log_start p'.

Lemma clean_one_spec env configs base e v k configs' e' v' out :
  (∀ root p, partitions e !! k = Some (root, p) → log_ok p) →
  clean_one env configs base e v k = (configs', e', v', out) →
  (∃ b, out = Ok b) ∧ (∀ k', k' ≠ k → partitions e' !! k' = partitions e !! k') ∧
  ∀ root p, partitions e !! k = Some (root, p) →
    ∃ p', partitions e' !! k = Some (root, p') ∧ cleaned_to env k p p'.
Proof.
  intros Hok. unfold clean_one, cleaned_to, reaped. destruct (ce_owns env k); simpl.
  2:{ intros [= <- <- <- <-]. naive_solver lia. }
  destruct (partitions e !! k) as [[root p]|] eqn:Ek; [|intros [= <- <- <- <-]; naive_solver].
  specialize (Hok root p eq_refl). fold (policy_of env k).
  destruct (pass_target _ _ _ p) as [t|] eqn:Et.
  - destruct (pass_target_some _ _ _ _ _ Hok Et) as [-> Hlt]. intros [= <- <- <- <-]. simpl.
    split; [by eexists|]. split; [by intros; rewrite lookup_insert_ne by done|].
    intros ? ? [= <- <-]. rewrite lookup_insert_eq. eexists. split; [done|]. simpl. auto with lia.
  - intros [= <- <- <- <-]. split; [by eexists|]. split; [done|]. intros ? ? [= <- <-].
    rewrite (pass_target_none _ _ _ _ Hok Et), drop_0. naive_solver lia.
Qed.

Lemma run_once_spec env base ks : ∀ configs e v n configs' e' v' out,
  NoDup ks → (∀ k root p, k ∈ ks → partitions e !! k = Some (root, p) → log_ok p) →
  run_once env configs base e v ks n = (configs', e', v', out) →
  (∃ m, out = Ok m) ∧ (∀ k, k ∉ ks → partitions e' !! k = partitions e !! k) ∧
  ∀ k root p, k ∈ ks → partitions e !! k = Some (root, p) →
    ∃ p', partitions e' !! k = Some (root, p') ∧ cleaned_to env k p p'.
Proof.
  induction ks as [|k ks IH]; intros configs e v n configs' e' v' out Hnd Hok; simpl.
  { intros [= <- <- <- <-]. split; [by eexists|]. split; [done|]. by intros ? ? ? ?%elem_of_nil. }
  destruct (clean_one env configs base e v k) as [[[c1 e1] v1] o1] eqn:E1.
  destruct (clean_one_spec _ _ _ _ _ _ _ _ _ _ (λ root p, Hok k root p (list_elem_of_here _ _)) E1)
    as ([b ->] & Hother & Hhere).
  apply NoDup_cons in Hnd as [Hk Hnd]. intros Hr.
  destruct (IH c1 e1 v1 (if b then S n else n) configs' e' v' out Hnd) as (Hout & Hrest & Hdone); [|done|].
  { intros k' root p Hin. rewrite Hother by (by intros ->). apply Hok. by right. }
  split; [done|]. split; [intros k' [? ?]%not_elem_of_cons; by rewrite Hrest, Hother|].
  intros k' root p [->|Hin]%elem_of_cons Hp.
  - rewrite Hrest by done. by apply Hhere.
  - apply Hdone; [done|]. rewrite Hother; [done|]. by intros ->.
Qed.

(** ** Theorems *)

(** C32. A retention pass reaches every partition and stops for none, and on each it
    comes to exactly what its policy says: of a partition this broker owns, the
    longest run of leading closed segments that are all past [retention.ms], or
    that the excess over [retention.bytes] covers, whichever is more; nothing of a
    partition another broker owns.  The active segment and the high watermark stay
    and the log start never moves back. *)
Theorem retention_pass_exact env configs base e v ks n configs' e' v' out k root p :
  NoDup ks → (∀ k root p, k ∈ ks → partitions e !! k = Some (root, p) → log_ok p) →
  run_once env configs base e v ks n = (configs', e', v', out) →
  k ∈ ks → partitions e !! k = Some (root, p) →
  (∃ m, out = Ok m) ∧ ∃ p', partitions e' !! k = Some (root, p') ∧
  closed p' = reaped env k p ∧ active p' = active p ∧ high_water p' = high_water p ∧ log_start p ≤ log_start p'.
Proof.
  intros Hnd Hok Hr Hk Hp. destruct (run_once_spec _ _ _ _ _ _ _ _ _ _ _ Hnd Hok Hr) as (Hout & _ & H).
  split; [done|]. by apply (H k root p).
Qed.

Lemma surplus_count_size surplus segs :
  0 < surplus → Forall (λ s, 0 ≤ size s) segs → closed_size (take (surplus_count surplus segs) segs) ≤ surplus.
Proof.
  intros Hp Hs. revert surplus Hp. induction Hs as [|s segs H Hs IH]; intros surplus Hp; simpl; [lia|].
  destruct (Z.ltb_spec surplus (size s)); simpl; [lia|].
  destruct (Z.eqb_spec (surplus - size s) 0); simpl; unfold closed_size in *; simpl; [lia|].
  specialize (IH (surplus - size s) ltac:(lia)). lia.
Qed.

Lemma expired_count_all mtime cutoff segs :
  Forall (λ s, expired mtime cutoff s = true) (take (expired_count mtime cutoff segs) segs).
Proof. induction segs as [|s segs IH]; simpl; [done|]. destruct (expired mtime cutoff s) eqn:E; simpl; by constructor. Qed.

(** A retention pass deletes nothing it has no reason to: a partition that lost
    segments belongs to this broker, and either at least [retention.bytes] of its
    log are left, or every segment that went was last written before
    [retention.ms] ago. *)
Theorem retention_deletes_justified env configs base e v ks n configs' e' v' out k root p p' :
  NoDup ks → (∀ k root p, k ∈ ks → partitions e !! k = Some (root, p) → log_ok p) →
  run_once env configs base e v ks n = (configs', e', v', out) →
  partitions e !! k = Some (root, p) → partitions e' !! k = Some (root, p') → closed p' ≠ closed p →
  k ∈ ks ∧ ce_owns env k = true ∧
  ((∃ r, retention_bytes (policy_of env k) = Some r ∧ r ≤ held p') ∨
   (∃ ms gone, retention_ms (policy_of env k) = Some ms ∧ closed p = gone ++ closed p' ∧
      Forall (λ s, expired (ce_mtime env k) (cutoff_ms (ce_now env) ms) s = true) gone)).
Proof.
  intros Hnd Hok Hr Hp Hp' Hne. destruct (run_once_spec _ _ _ _ _ _ _ _ _ _ _ Hnd Hok Hr) as (_ & Hout & Hin).
  destruct (decide (k ∈ ks)) as [Hk|Hk]; [|rewrite Hout in Hp' by done; congruence].
  destruct (Hin k root p Hk Hp) as (q & Hq & Hc & Ha & _). assert (q = p') as -> by congruence.
  split; [done|]. unfold reaped in Hc. destruct (ce_owns env k); [|congruence]. split; [done|].
  destruct (Hok k root p Hk Hp) as (_ & Hs & _). unfold held at 1. rewrite Hc, Ha. unfold reap_count.
  set (js := match retention_bytes _ with Some _ => _ | None => _ end).
  set (jt := match retention_ms _ with Some _ => _ | None => _ end).
  assert (closed p' = drop (Nat.max js jt) (closed p)) as Hc' by done. clear Hc.
  destruct (Nat.max_spec_le jt js) as [[Hle Hm]|[Hle Hm]]; rewrite Nat.max_comm in Hm; rewrite Hm in Hc' |- *.
  - left. subst js. destruct (retention_bytes (policy_of env k)) as [r|]; [|by rewrite drop_0 in Hc'].
    exists r. split; [done|]. destruct (Z.leb_spec (held p) r); [by rewrite drop_0 in Hc'|].
    pose proof (surplus_count_size (held p - r) (closed p) ltac:(lia) Hs) as H1.
    pose proof (closed_size_app (take (surplus_count (held p - r) (closed p)) (closed p))
      (drop (surplus_count (held p - r) (closed p)) (closed p))) as H2. rewrite take_drop in H2.
    unfold held in *. lia.
  - right. subst jt. destruct (retention_ms (policy_of env k)) as [ms|]; [|by rewrite drop_0 in Hc'].
    eexists ms, _. split; [done|]. split; [symmetry; apply take_drop|]. apply expired_count_all.
Qed.

(** A topic's tuning is laid over what the open partition already has, so a key
    taken out of the configuration file keeps its last value until the partition
    is opened again; only [segment.ms] set to a non-positive value is undone. *)
Theorem removed_override_sticks base c :
  let opened := partition_config_for (Some c) base in
  let cleared := {| tc_retention_ms := None; tc_retention_bytes := None; tc_segment_bytes := None;
                    tc_segment_ms := None; tc_cleanup_policy := ""; tc_min_compaction_lag_ms := None;
                    tc_delete_retention_ms := None; tc_flush_messages := None |} in
  partition_config_for (Some cleared) opened = opened ∧ partition_config_for None opened = opened.
Proof. done. Qed.

(** [retention.ms] or [retention.bytes] set to zero keeps the log forever, whatever
    the default is: the cleaner reads a zero as it reads the unlimited [-1]. *)
Theorem zero_retention_keeps_forever defaults c mtime now p :
  tc_retention_ms c = Some 0 → tc_retention_bytes c = Some 0 →
  policy_for defaults (Some c) = {| retention_bytes := None; retention_ms := None |} ∧
  pass_target mtime now (policy_for defaults (Some c)) p = None.
Proof. intros H1 H2. unfold policy_for. by rewrite H1, H2. Qed.

Lemma zero_retention_keeps_forever_witness :
  pass_target (λ _, Some 0) 1000000
    (policy_for {| retention_bytes := Some 1; retention_ms := Some 1 |}
       (Some {| tc_retention_ms := Some 0; tc_retention_bytes := Some 0; tc_segment_bytes := None; tc_segment_ms := None;
                tc_cleanup_policy := "delete"; tc_min_compaction_lag_ms := None; tc_delete_retention_ms := None;
                tc_flush_messages := None |})) retained = None.
Proof.
  apply (zero_retention_keeps_forever {| retention_bytes := Some 1; retention_ms := Some 1 |}
    {| tc_retention_ms := Some 0; tc_retention_bytes := Some 0; tc_segment_bytes := None; tc_segment_ms := None;
       tc_cleanup_policy := "delete"; tc_min_compaction_lag_ms := None; tc_delete_retention_ms := None;
       tc_flush_messages := None |} (λ _, Some 0) 1000000 retained).
  - reflexivity.
  - reflexivity.
Defined.

(** ** A partition of three closed segments *)

Definition cleaner_key : Key := ("orders"%string, 0).
Definition other_key : Key := ("orders"%string, 1).
Definition two_logs : Engine :=
  {| partitions := {[ cleaner_key := ("r"%string, retained); other_key := ("r"%string, retained) ]}; migrating := ∅ |}.
Definition first_only : CleanerEnv :=
  {| ce_owns := λ k, bool_decide (k = cleaner_key); ce_file := λ _, None;
     ce_defaults := {| retention_bytes := Some 150; retention_ms := Some 1000 |};
     ce_mtime := λ _ s, Some (base_offset s); ce_now := 1015 |}.

Lemma two_logs_ok k root p :
  k ∈ [cleaner_key; other_key] → partitions two_logs !! k = Some (root, p) → log_ok p.
Proof.
  intros Hk. assert (∀ q, Some ("r"%string, retained) = Some (root, q) → log_ok q) as H.
  { intros q [= _ <-]. repeat split; simpl; try lia; [|vm_compute; congruence|by intros s l [= <- <-]].
    rewrite !Forall_cons, Forall_nil. simpl. lia. }
  rewrite !elem_of_cons, elem_of_nil in Hk. destruct Hk as [->|[->|[]]]; apply H.
Qed.

Definition plain_config : PartitionConfig :=
  {| segment_bytes := 100; segment_ms := None; index_interval_bytes := 10; flush_interval_messages := 1 |}.
Definition after_pass : Engine :=
  (run_once first_only ∅ plain_config two_logs {| dirs := ∅; stamps := ∅ |} [cleaner_key; other_key] 0).1.1.2.

(** The broker owns the first of two equal logs of 300 bytes: two of its segments
    are older than a second, more than the size limit asks for, and they go. *)
Lemma retention_pass_exact_witness :
  ∃ p', partitions after_pass !! cleaner_key = Some ("r"%string, p') ∧ closed p' = [seg_meta 20 100].
Proof.
  destruct (retention_pass_exact first_only ∅
    plain_config two_logs {| dirs := ∅; stamps := ∅ |} [cleaner_key; other_key] 0
    (run_once first_only ∅ plain_config two_logs {| dirs := ∅; stamps := ∅ |} [cleaner_key; other_key] 0).1.1.1 after_pass
    (run_once first_only ∅ plain_config two_logs {| dirs := ∅; stamps := ∅ |} [cleaner_key; other_key] 0).1.2
    (run_once first_only ∅ plain_config two_logs {| dirs := ∅; stamps := ∅ |} [cleaner_key; other_key] 0).2 cleaner_key "r" retained)
    as (_ & p' & Hp & Hc & _).
  - by repeat constructor; set_solver.
  - exact two_logs_ok.
  - reflexivity.
  - set_solver.
  - reflexivity.
  - exists p'. split; [exact Hp|]. rewrite Hc. vm_compute. reflexivity.
Defined.

Lemma retention_deletes_justified_witness :
  ∃ p', partitions after_pass !! cleaner_key = Some ("r"%string, p') ∧ cleaner_key ∈ [cleaner_key; other_key].
Proof.
  eexists. split; [vm_compute; reflexivity|].
  eapply (retention_deletes_justified first_only ∅
    plain_config two_logs {| dirs := ∅; stamps := ∅ |} [cleaner_key; other_key] 0
    (run_once first_only ∅ plain_config two_logs {| dirs := ∅; stamps := ∅ |} [cleaner_key; other_key] 0).1.1.1 after_pass
    (run_once first_only ∅ plain_config two_logs {| dirs := ∅; stamps := ∅ |} [cleaner_key; other_key] 0).1.2
    (run_once first_only ∅ plain_config two_logs {| dirs := ∅; stamps := ∅ |} [cleaner_key; other_key] 0).2 cleaner_key "r" retained _).
  - by repeat constructor; set_solver.
  - exact two_logs_ok.
  - reflexivity.
  - reflexivity.
  - vm_compute. reflexivity.
  - vm_compute. congruence.
Defined.
