(* ===== verification/Election.v ===== *)
(** * Controller election ([kaas-controller/src/kube_election.rs])

    The Lease object two calls away: a candidate reads it, decides, and then
    applies a patch or creates it.  The two calls are separate steps, so steps of
    several candidates interleave.  The API server is the object itself: a forced
    server-side apply by the one field manager the code uses sets every field it
    names and prunes the annotation it leaves out, and a create fails when the
    object exists.  Times are whole seconds; [acquireTime], never read, is left
    out. *)

From stdpp Require Import base gmap strings list sorting.
From S2P Require Import Prelude.

Local Open Scope Z_scope.

(** ** The Lease object *)

Record Lease := {
  holder_identity : option string; lease_transitions : option Z; renew_time : option Z;
  lease_duration_seconds : option Z; last_holder : option string }.

Definition DEFAULT_LEASE_DURATION : Z := 15.
Definition DEFAULT_RENEW_DEADLINE : Z := 10.
Definition DEFAULT_RETRY_PERIOD : Z := 2.

(** An [i32]. *)
Definition next_transitions (prev_holder : option string) (identity : string) (current : Z) : Z :=
  if bool_decide (prev_holder = Some identity) then current else wrap_s 32 (current + 1).

(** A blank holder is a released lease. *)
Definition live_holder (l : Lease) : option string :=
  match holder_identity l with
  | Some h => if bool_decide (h = "") then None else Some h
  | None => None
  end.

Definition lease_window (lease_duration : Z) (l : Lease) : Z :=
  match lease_duration_seconds l with Some s => Z.max s 0 | None => lease_duration end.

(** [to_std]: a renew time in the future has age zero. *)
Definition lease_is_stale (lease_duration now : Z) (l : Lease) : bool :=
  match renew_time l with
  | Some t => lease_window lease_duration l <? Z.max 0 (now - t)
  | None => true
  end.

(** The decision of [try_acquire]: the transitions to claim, or nothing while
    another holder renews. *)
Definition acquire_claim (identity : string) (lease_duration now : Z) (existing : option Lease) : option Z :=
  match existing with
  | None => Some (next_transitions None identity 0)
  | Some l =>
    let we_already_hold := bool_decide (holder_identity l = Some identity) in
    let released := bool_decide (live_holder l = None) in
    if negb we_already_hold && negb (lease_is_stale lease_duration now l) && negb released then None
    else
      let prev_holder := match live_holder l with Some h => Some h | None => last_holder l end in
      Some (next_transitions prev_holder identity (default 0 (lease_transitions l)))
  end.

(** The object after an acquire, a renew, a release. *)
Definition held_lease (identity : string) (lease_duration now transitions : Z) : Lease :=
  {| holder_identity := Some identity; lease_transitions := Some transitions; renew_time := Some now;
     lease_duration_seconds := Some (Z.min i32_max lease_duration); last_holder := None |}.
Definition released_lease (identity : string) (lease_duration now transitions : Z) : Lease :=
  {| holder_identity := Some ""; lease_transitions := Some transitions; renew_time := Some now;
     lease_duration_seconds := Some (Z.min i32_max lease_duration); last_holder := Some identity |}.

(** The decision of [try_renew]: the transitions to keep, or nothing when the
    lease is lost. *)
Definition renew_claim (identity : string) (existing : option Lease) : option Z :=
  match existing with
  | None => None
  | Some l =>
    if bool_decide (holder_identity l = Some identity) then Some (default 0 (lease_transitions l)) else None
  end.

(** ** Candidates *)

(** A call in flight: what was read and decided. *)
Inductive Pending := PAcquire (existed : bool) (transitions : Z) | PRenew (transitions : Z).

Record Node := { leading : bool; last_transitions : Z; in_flight : option Pending }.
Definition Node_new : Node := {| leading := false; last_transitions := 0; in_flight := None |}.

(** [elected] records who came to lead, at which epoch, latest first. *)
Record World := { server : option Lease; nodes : gmap string Node; elected : list (string * Z) }.
Definition World_new : World := {| server := None; nodes := ∅; elected := [] |}.

Definition node (w : World) (id : string) : Node := default Node_new (nodes w !! id).
Definition set_node (w : World) (id : string) (n : Node) : World :=
  {| server := server w; nodes := <[id := n]> (nodes w); elected := elected w |}.

(** The first call of an attempt, to acquire or, while leading, to renew. *)
Definition get_lease (dur : Z) (w : World) (id : string) (now : Z) : World :=
  let n := node w id in
  if leading n then
    match renew_claim id (server w) with
    | None => set_node w id {| leading := false; last_transitions := last_transitions n; in_flight := None |}
    | Some t => set_node w id {| leading := true; last_transitions := last_transitions n; in_flight := Some (PRenew t) |}
    end
  else
    match acquire_claim id dur now (server w) with
    | None => w
    | Some t =>
      set_node w id {| leading := false; last_transitions := last_transitions n;
                       in_flight := Some (PAcquire (bool_decide (is_Some (server w))) t) |}
    end.

(** The API server's part of the second call; [None]: the create conflicts. *)
Definition put_server (dur : Z) (s : option Lease) (id : string) (now : Z) (p : Pending) : option (option Lease) :=
  match p with
  | PRenew t | PAcquire true t => Some (Some (held_lease id dur now t))
  | PAcquire false t => match s with None => Some (Some (held_lease id dur now t)) | Some _ => None end
  end.

(** The second call; [answered]: the response arrives. *)
Definition put_lease (dur : Z) (w : World) (id : string) (now : Z) (answered : bool) : World :=
  let n := node w id in
  match in_flight n with
  | None => w
  | Some p =>
    let idle := {| leading := leading n; last_transitions := last_transitions n; in_flight := None |} in
    match put_server dur (server w) id now p with
    | None => set_node w id idle
    | Some s =>
      let w := {| server := s; nodes := nodes w; elected := elected w |} in
      if answered then
        match p with
        | PRenew t => set_node w id {| leading := true; last_transitions := t; in_flight := None |}
        | PAcquire _ t =>
          {| server := s; elected := (id, t) :: elected w;
             nodes := <[id := {| leading := true; last_transitions := t; in_flight := None |}]> (nodes w) |}
        end
      else set_node w id idle
    end
  end.

(** [release] asks nothing. *)
Definition release (dur : Z) (w : World) (id : string) (now : Z) : World :=
  let n := node w id in
  {| server := Some (released_lease id dur now (last_transitions n));
     nodes := <[id := {| leading := false; last_transitions := last_transitions n; in_flight := None |}]> (nodes w);
     elected := elected w |}.

(** What the campaigns of all candidates do: an attempt's two calls, a call given
    up, abdicating after too many failures, releasing while leading, a restart. *)
Inductive Step :=
| Get (id : string) (now : Z) | Put (id : string) (now : Z) (answered : bool) | GiveUp (id : string)
| Abdicate (id : string) | Release (id : string) (now : Z) | Restart (id : string).

Definition campaign_step (dur : Z) (w : World) (s : Step) : World :=
  match s with
  | Get id now => get_lease dur w id now
  | Put id now answered => put_lease dur w id now answered
  | GiveUp id =>
    let n := node w id in
    set_node w id {| leading := leading n; last_transitions := last_transitions n; in_flight := None |}
  | Abdicate id =>
    set_node w id {| leading := false; last_transitions := last_transitions (node w id); in_flight := None |}
  | Release id now => if leading (node w id) then release dur w id now else w
  | Restart id => set_node w id Node_new
  end.

Definition campaign_run (dur : Z) (ss : list Step) : World := foldl (campaign_step dur) World_new ss.

(** ** The renew loop *)

(** How one renew attempt ends, and after how long; a hung call is cut at the
    budget. *)
Inductive Attempt := Renewed (d : Z) | Lost (d : Z) | Failed (d : Z) | TimedOut.

Definition attempt_budget (renew_deadline : Z) : Z := Z.max renew_deadline 3.

(** [first_err]: when the current run of failures was first noticed.  The result:
    when the leader stops, or the clock and [first_err] it goes on with. *)
Definition renew_attempt (deadline retry now : Z) (first_err : option Z) (a : Attempt) : Z + Z * option Z :=
  let failed now :=
    let since := default now first_err in
    if deadline <? now - since then inl now else inr (now, Some since) in
  match a with
  | Renewed d => inr (now + retry + d, None)
  | Lost d => inl (now + retry + d)
  | Failed d => failed (now + retry + d)
  | TimedOut => failed (now + retry + attempt_budget deadline)
  end.

Fixpoint renew_loop (deadline retry now : Z) (first_err : option Z) (as_ : list Attempt) : Z + Z * option Z :=
  match as_ with
  | [] => inr (now, first_err)
  | a :: as_ =>
    match renew_attempt deadline retry now first_err a with
    | inl t => inl t
    | inr (now, first_err) => renew_loop deadline retry now first_err as_
    end
  end.

(** ** Attempts that do not interleave *)

(** Who a new claim is compared with. *)
Definition owner (l : Lease) : option string :=
  match live_holder l with Some h => Some h | None => last_holder l end.

(** An attempt with nothing between its two calls: [Some answered], or the second
    call never reaches the server. *)
Inductive Block :=
| BAttempt (id : string) (now now' : Z) (out : option bool)
| BAbdicate (id : string) | BRelease (id : string) (now : Z) | BRestart (id : string).

Definition steps_of (b : Block) : list Step :=
  match b with
  | BAttempt id now now' (Some answered) => [Get id now; Put id now' answered]
  | BAttempt id now _ None => [Get id now; GiveUp id]
  | BAbdicate id => [Abdicate id]
  | BRelease id now => [Release id now]
  | BRestart id => [Restart id]
  end.

Definition block_id (b : Block) : string :=
  match b with BAttempt id _ _ _ | BAbdicate id | BRelease id _ | BRestart id => id end.

Definition block_run (dur : Z) (w : World) (b : Block) : World := foldl (campaign_step dur) w (steps_of b).

(** A leader that releases still has the lease. *)
Definition orderly (w : World) (b : Block) : Prop :=
  block_id b ≠ "" ∧
  match b with
  | BRelease id _ => leading (node w id) = true → ∃ l, server w = Some l ∧ holder_identity l = Some id
  | _ => True
  end.

Fixpoint orderly_run (dur : Z) (w : World) (bs : list Block) : Prop :=
  match bs with
  | [] => True
  | b :: bs => orderly w b ∧ orderly_run dur (block_run dur w b) bs
  end.

Lemma node_insert w id n id' s el :
  node {| server := s; nodes := <[id := n]> (nodes w); elected := el |} id' = if decide (id = id') then n else node w id'.
Proof. unfold node. simpl. case_decide as H; [subst; by rewrite lookup_insert_eq|by rewrite lookup_insert_ne]. Qed.

Record lease_inv (k : Z) (w : World) : Prop := {
  li_idle : ∀ id, in_flight (node w id) = None;
  li_named : ∀ id, leading (node w id) = true → id ≠ "";
  li_sorted : StronglySorted (λ a b, b.2 ≤ a.2) (elected w);
  li_unique : ∀ i j e, (i, e) ∈ elected w → (j, e) ∈ elected w → i = j;
  li_server :
    match server w with
    | None => elected w = [] ∧ ∀ id, leading (node w id) = false
    | Some l => ∃ T, lease_transitions l = Some T ∧ 0 ≤ T ≤ k ∧
        (∀ i e, (i, e) ∈ elected w → e ≤ T ∧ (e = T → owner l = Some i)) ∧
        (∀ id, leading (node w id) = true → holder_identity l = Some id → last_transitions (node w id) = T)
    end }.

Lemma lease_inv_new : lease_inv 0 World_new.
Proof. split; simpl; [done|done|constructor|by intros i j e ?%elem_of_nil|by split]. Qed.

(** Standing down changes nothing anyone relies on. *)
Lemma lease_inv_node k w id n :
  lease_inv k w → in_flight n = None → (leading n = true → n = node w id) → lease_inv (k + 1) (set_node w id n).
Proof.
  intros [H1 H2 H3 H4 H5] Hn Hl. unfold set_node.
  assert (∀ id', leading (if decide (id = id') then n else node w id') = true →
    leading (node w id') = true ∧ (if decide (id = id') then n else node w id') = node w id') as Hle.
  { intros id'. case_decide; [subst|done]. intros Ht. pose proof (Hl Ht) as ->. by split. }
  split; simpl; try done.
  - intros id'. rewrite node_insert. by case_decide.
  - intros id'. rewrite node_insert. intros Ht. by apply H2, Hle.
  - destruct (server w) as [l|].
    + destruct H5 as (T & E & HT & He & Hh). exists T. split; [done|]. split; [lia|]. split; [done|].
      intros id'. rewrite node_insert. intros Ht Hho. destruct (Hle id' Ht) as [Ht' ->]. by apply Hh.
    + destruct H5 as [He Hno]. split; [done|]. intros id'. rewrite node_insert. apply not_true_iff_false. intros Ht.
      destruct (Hle id' Ht) as [Ht' _]. by rewrite Hno in Ht'.
Qed.

Lemma live_holder_named l id : id ≠ "" → holder_identity l = Some id → live_holder l = Some id.
Proof. intros Hne Hh. unfold live_holder. rewrite Hh. by rewrite bool_decide_eq_false_2. Qed.

(** A renew that reaches the server. *)
Lemma lease_inv_renew k w dur id now n l T :
  lease_inv k w → id ≠ "" → server w = Some l → holder_identity l = Some id → lease_transitions l = Some T →
  leading n = true → last_transitions n = T → in_flight n = None →
  lease_inv (k + 1) {| server := Some (held_lease id dur now T); nodes := <[id := n]> (nodes w); elected := elected w |}.
Proof.
  intros [H1 H2 H3 H4 H5] Hid Es Eh Et Hn1 Hn2 Hn3. rewrite Es in H5. destruct H5 as (T' & E & HT & He & Hh).
  rewrite Et in E. injection E as <-. split; simpl; try done.
  - intros id'. rewrite node_insert. by case_decide.
  - intros id'. rewrite node_insert. case_decide; [by subst|apply H2].
  - exists T. split; [done|]. split; [lia|]. split.
    + intros i e Hin. destruct (He i e Hin) as [? Hi]. split; [done|]. intros HeT. rewrite <- (Hi HeT).
      unfold owner. rewrite (live_holder_named l id Hid Eh). by rewrite (live_holder_named _ id Hid).
    + intros id'. rewrite node_insert. case_decide; [by subst|]. by intros _ [= ->].
Qed.

(** The transitions a claim carries, against those of the object. *)
Lemma next_transitions_spec prev id T k :
  0 ≤ T ≤ k → k < i32_max →
  next_transitions prev id T = T ∧ prev = Some id ∨ next_transitions prev id T = T + 1.
Proof.
  intros HT Hk. unfold next_transitions, i32_max in *. case_bool_decide; [by left|right]. apply wrap_s_small; lia.
Qed.

(** An acquire that reaches the server, whether or not the answer comes back. *)
Lemma lease_inv_acquire k w dur id now now' t (answered : bool) :
  lease_inv k w → 0 ≤ k < i32_max → id ≠ "" → leading (node w id) = false →
  acquire_claim id dur now (server w) = Some t →
  lease_inv (k + 1)
    {| server := Some (held_lease id dur now' t);
       nodes := <[id := if answered then {| leading := true; last_transitions := t; in_flight := None |}
                        else {| leading := false; last_transitions := last_transitions (node w id); in_flight := None |}]> (nodes w);
       elected := if answered then (id, t) :: elected w else elected w |}.
Proof.
  intros [H1 H2 H3 H4 H5] Hk Hid Hlead Hc.
  assert (0 ≤ t ≤ k + 1 ∧ ∀ i e, (i, e) ∈ elected w → e ≤ t ∧ (e = t → i = id)) as [Ht He].
  { unfold acquire_claim in Hc. destruct (server w) as [l|].
    - destruct H5 as (T & E & HT & He & _). fold (owner l) in Hc. rewrite E in Hc. simpl in Hc.
      destruct (negb _ && _ && _); [done|]. apply (inj Some) in Hc. subst t.
      destruct (next_transitions_spec (owner l) id T k HT ltac:(lia)) as [[-> Ho]| ->].
      + split; [lia|]. intros i e Hin. destruct (He i e Hin) as [? Hi]. split; [done|]. intros ->.
        specialize (Hi eq_refl). congruence.
      + split; [lia|]. intros i e Hin. destruct (He i e Hin) as [? _]. split; [lia|]. lia.
    - apply (inj Some) in Hc. subst t. destruct H5 as [-> _].
      destruct (next_transitions_spec None id 0 k ltac:(lia) ltac:(lia)) as [[_ ?]| ->]; [done|].
      split; [lia|]. by intros i e ?%elem_of_nil. }
  split; simpl.
  - intros id'. rewrite node_insert. case_decide; [by destruct answered|done].
  - intros id'. rewrite node_insert. case_decide; [by subst|apply H2].
  - destruct answered; [|done]. constructor; [done|]. apply Forall_forall. intros [i e] Hin. simpl. apply (He i e Hin).
  - destruct answered; [|done]. intros i j e. rewrite !elem_of_cons.
    intros [[= -> ->]|Hi] [Hj|Hj]; simplify_eq; try done;
      [destruct (He _ _ Hj); naive_solver|destruct (He _ _ Hi); naive_solver|by eapply H4].
  - exists t. split; [done|]. split; [lia|].
    assert (owner (held_lease id dur now' t) = Some id) as Hown.
    { unfold owner. by rewrite (live_holder_named _ id Hid). }
    split.
    + rewrite Hown. intros i e Hin. destruct answered; [apply elem_of_cons in Hin as [[= -> ->]|Hin]; [by split|]|].
      all: destruct (He i e Hin) as [? Hi]; split; [done|]; intros ->; by rewrite Hi.
    + intros id'. rewrite node_insert. case_decide; [subst; by destruct answered|]. by intros _ [= ->].
Qed.

Lemma lease_inv_release k w dur id now :
  lease_inv k w → leading (node w id) = true → (∃ l, server w = Some l ∧ holder_identity l = Some id) →
  lease_inv (k + 1) (release dur w id now).
Proof.
  intros [H1 H2 H3 H4 H5] Hlead (l & Es & Eh). rewrite Es in H5. destruct H5 as (T & E & HT & He & Hh).
  unfold release. rewrite (Hh id Hlead Eh). split; simpl; try done.
  - intros id'. rewrite node_insert. by case_decide.
  - intros id'. rewrite node_insert. case_decide; [done|apply H2].
  - exists T. split; [done|]. split; [lia|]. split.
    + intros i e Hin. destruct (He i e Hin) as [? Hi]. split; [done|]. intros HeT. rewrite <- (Hi HeT).
      unfold owner at 2. by rewrite (live_holder_named l id (H2 id Hlead) Eh).
    + intros id'. rewrite node_insert. case_decide; [done|]. intros Hl [= <-]. by apply H2 in Hl.
Qed.

Lemma node_set w id n id' : node (set_node w id n) id' = if decide (id = id') then n else node w id'.
Proof. apply node_insert. Qed.

Lemma set_node_twice w id n n' : set_node (set_node w id n) id n' = set_node w id n'.
Proof. unfold set_node. simpl. by rewrite insert_insert_eq. Qed.

Lemma lease_inv_attempt k w dur id now now' out :
  lease_inv k w → 0 ≤ k < i32_max → id ≠ "" → lease_inv (k + 1) (block_run dur w (BAttempt id now now' out)).
Proof.
  intros Hinv Hk Hid. pose proof (li_idle _ _ Hinv id) as Hidle.
  assert (∀ n, in_flight n = None → leading n = leading (node w id) → last_transitions n = last_transitions (node w id) →
    n = node w id) as Hsame.
  { intros [a b c]. destruct (node w id) as [a' b' c']. simpl in *. congruence. }
  assert (lease_inv (k + 1) w) as Hkeep.
  { destruct Hinv as [? ? ? ? H5]. split; try done. destruct (server w); [|done].
    destruct H5 as (T & ? & ? & ? & ?). exists T. split; [done|]. split; [lia|done]. }
  assert (block_run dur w (BAttempt id now now' out) =
    match out with
    | Some answered => put_lease dur (get_lease dur w id now) id now' answered
    | None => campaign_step dur (get_lease dur w id now) (GiveUp id)
    end) as -> by (unfold block_run; by destruct out).
  unfold get_lease. destruct (leading (node w id)) eqn:El.
  - destruct (renew_claim id (server w)) as [t|] eqn:Ec.
    + unfold renew_claim in Ec. destruct (server w) as [l|] eqn:Es; [|done]. case_bool_decide as Eh; [|done].
      pose proof (li_server _ _ Hinv) as H5. rewrite Es in H5.
      destruct H5 as (T & E & HT & He & Hh). rewrite E in Ec. injection Ec as <-. specialize (Hh id El Eh).
      destruct out as [answered|].
      * unfold put_lease. rewrite node_set. rewrite decide_True by done. simpl. unfold set_node. simpl.
        destruct answered; rewrite insert_insert_eq; by eapply lease_inv_renew.
      * simpl. rewrite node_set. rewrite decide_True by done. simpl. rewrite set_node_twice.
        apply lease_inv_node; [done..|]. intros _. by apply Hsame.
    + assert (lease_inv (k + 1) (set_node w id {| leading := false; last_transitions := last_transitions (node w id); in_flight := None |})) as Hdown.
      { by apply lease_inv_node. }
      destruct out as [answered|]; simpl.
      * unfold put_lease. rewrite node_set. by rewrite decide_True by done.
      * rewrite node_set. rewrite decide_True by done. simpl. by rewrite set_node_twice.
  - destruct (acquire_claim id dur now (server w)) as [t|] eqn:Ec.
    + destruct out as [answered|].
      * pose proof (lease_inv_acquire k w dur id now now' t answered Hinv Hk Hid El Ec) as Hacq.
        unfold put_lease. rewrite node_set. rewrite decide_True by done. simpl. unfold set_node. simpl.
        destruct (server w) as [l|] eqn:Es; simpl;
          (destruct answered; rewrite insert_insert_eq; simpl; exact Hacq).
      * simpl. rewrite node_set. rewrite decide_True by done. simpl. rewrite set_node_twice.
        by apply lease_inv_node.
    + destruct out as [answered|]; simpl.
      * unfold put_lease. by rewrite Hidle.
      * apply lease_inv_node; [done..|]. intros Hl. simpl in Hl. by apply Hsame.
Qed.

Lemma lease_inv_block k w dur b :
  lease_inv k w → 0 ≤ k < i32_max → orderly w b → lease_inv (k + 1) (block_run dur w b).
Proof.
  intros Hinv Hk [Hid Ho]. destruct b as [id now now' out|id|id now|id]; simpl in Hid.
  - by apply lease_inv_attempt.
  - by apply lease_inv_node.
  - unfold block_run. simpl. destruct (leading (node w id)) eqn:El; [by apply lease_inv_release; auto|].
    destruct Hinv as [? ? ? ? H5]. split; try done. destruct (server w); [|done].
    destruct H5 as (T & ? & ? & ? & ?). exists T. split; [done|]. split; [lia|done].
  - by apply lease_inv_node.
Qed.

Lemma lease_inv_run dur bs : ∀ k w,
  lease_inv k w → 0 ≤ k → k + Z.of_nat (length bs) ≤ i32_max → orderly_run dur w bs →
  lease_inv (k + Z.of_nat (length bs)) (foldl (block_run dur) w bs).
Proof.
  induction bs as [|b bs IH]; intros k w Hinv Hk Hlen Ho; simpl in *; [by rewrite Z.add_0_r|].
  destruct Ho as [Hb Ho]. replace (k + Z.of_nat (S (length bs))) with (k + 1 + Z.of_nat (length bs)) by lia.
  apply IH; [by apply lease_inv_block; [|lia|]|lia|lia|done].
Qed.

(** ** Theorems *)

(** C26. The controller epoch fences: when no two attempts overlap and a leader
    releases only a lease that is still its own, the epochs at which candidates
    come to lead never decrease and no two different candidates ever lead at the
    same epoch, through lost answers, abdications, releases and restarts.  (The code
    enforces neither condition: [interleaved_calls_break_fence].) *)
Theorem controller_epochs_fence dur bs :
  orderly_run dur World_new bs → Z.of_nat (length bs) ≤ i32_max →
  let w := foldl (block_run dur) World_new bs in
  StronglySorted (λ a b, b.2 ≤ a.2) (elected w) ∧
  ∀ i j e, (i, e) ∈ elected w → (j, e) ∈ elected w → i = j.
Proof.
  intros Ho Hlen. destruct (lease_inv_run dur bs 0 World_new lease_inv_new ltac:(lia) ltac:(lia) Ho) as [? ? Hs Hu _].
  by split.
Qed.

Definition demo_handover : list Block :=
  [BAttempt "kaas-0" 0 0 (Some true); BAttempt "kaas-1" 1 1 (Some true); BAttempt "kaas-0" 2 2 (Some false);
   BRelease "kaas-0" 3; BAttempt "kaas-0" 4 4 (Some true); BRestart "kaas-0"; BAttempt "kaas-1" 30 30 (Some true)].

(** A release and re-acquire keeps the epoch, a take-over moves it on. *)
Lemma controller_epochs_fence_witness :
  elected (foldl (block_run 15) World_new demo_handover) = [("kaas-1", 2); ("kaas-0", 1); ("kaas-0", 1)] ∧
  StronglySorted (λ a b, b.2 ≤ a.2) (elected (foldl (block_run 15) World_new demo_handover)).
Proof.
  split; [vm_compute; reflexivity|]. apply (controller_epochs_fence 15 demo_handover).
  - repeat split; try done. intros _. eexists. by split.
  - vm_compute. congruence.
Defined.

(** The two calls of an attempt are not one: nothing ties the patch to the object
    that was read.  Creating the lease conflicts, but two candidates that read an
    expired lease before either writes both come to lead, at the same epoch; a renew whose patch arrives after a take-over
    takes the lease back at the old epoch; and a leader that releases after it was
    taken over rewinds the epoch, so that the next controller shares the epoch of
    the one in office. *)
Theorem interleaved_calls_break_fence :
  (let w := campaign_run 15 [Get "a" 0; Get "b" 0; Put "a" 0 true; Put "b" 0 true] in
   leading (node w "a") = true ∧ leading (node w "b") = false ∧
   let w := campaign_run 15 [Get "z" 0; Put "z" 0 true; Get "a" 20; Get "b" 20; Put "a" 20 true; Put "b" 20 true] in
   leading (node w "a") = true ∧ leading (node w "b") = true ∧ elected w = [("b", 2); ("a", 2); ("z", 1)]) ∧
  (let w := campaign_run 15 [Get "a" 0; Put "a" 0 true; Get "a" 2; Get "b" 20; Put "b" 20 true; Put "a" 21 true] in
   (holder_identity <$> server w) = Some (Some "a") ∧ (lease_transitions <$> server w) = Some (Some 1) ∧
   elected w = [("b", 2); ("a", 1)]) ∧
  (let w := campaign_run 15 [Get "a" 0; Put "a" 0 true; Get "b" 20; Put "b" 20 true; Release "a" 21; Get "c" 22; Put "c" 22 true] in
   leading (node w "b") = true ∧ leading (node w "c") = true ∧ elected w = [("c", 2); ("b", 2); ("a", 1)]).
Proof. repeat split; vm_compute; reflexivity. Qed.

(** An attempt that does not renew. *)
Definition failing (deadline : Z) (a : Attempt) : Prop :=
  match a with Failed d => 0 ≤ d ≤ attempt_budget deadline | TimedOut => True | _ => False end.

Lemma renew_loop_failing deadline retry as_ : ∀ now s,
  Forall (failing deadline) as_ → 0 ≤ retry → now - s ≤ deadline →
  match renew_loop deadline retry now (Some s) as_ with
  | inl t => t ≤ s + deadline + retry + attempt_budget deadline
  | inr (now', fe) => fe = Some s ∧ now' - s ≤ deadline ∧ now + retry * Z.of_nat (length as_) ≤ now'
  end.
Proof.
  induction as_ as [|a as_ IH]; intros now s Hf Hr Hn; simpl; [split; [done|lia]|].
  apply Forall_cons in Hf as [Ha Hf].
  assert (∃ d, 0 ≤ d ≤ attempt_budget deadline ∧ renew_attempt deadline retry now (Some s) a =
    if deadline <? now + retry + d - s then inl (now + retry + d) else inr (now + retry + d, Some s)) as (d & Hd & ->).
  { destruct a as [|?|d|]; try done; [by exists d|]. exists (attempt_budget deadline). split; [|done].
    unfold attempt_budget. lia. }
  destruct (Z.ltb_spec deadline (now + retry + d - s)); [lia|].
  specialize (IH (now + retry + d) s Hf Hr ltac:(lia)). destruct (renew_loop _ _ _ _ as_) as [t|[now' fe]]; [done|].
  destruct IH as (-> & ? & ?). split; [done|]. lia.
Qed.

(** A leader that cannot renew stands down: it stops by twice the retry period and
    the call budget, plus the renew deadline, after its last success, and it does
    stop once the failed attempts are many enough to fill that time. *)
Theorem abdication_bounded deadline retry t0 as_ :
  0 < retry → 0 ≤ deadline → Forall (failing deadline) as_ →
  let limit := 2 * (retry + attempt_budget deadline) + deadline in
  (∀ t, renew_loop deadline retry t0 None as_ = inl t → t ≤ t0 + limit) ∧
  (limit < retry * Z.of_nat (length as_) → ∃ t, renew_loop deadline retry t0 None as_ = inl t).
Proof.
  intros Hr Hd Hf limit. subst limit. destruct as_ as [|a as_]; simpl.
  { split; [done|]. assert (3 ≤ attempt_budget deadline) by (unfold attempt_budget; lia). lia. }
  apply Forall_cons in Hf as [Ha Hf].
  assert (∃ d, 0 ≤ d ≤ attempt_budget deadline ∧ renew_attempt deadline retry t0 None a =
    inr (t0 + retry + d, Some (t0 + retry + d))) as (d & Hb & ->).
  { destruct a as [|?|d|]; try done; [exists d|exists (attempt_budget deadline)]; unfold renew_attempt; simpl;
      rewrite Z.sub_diag; (destruct (Z.ltb_spec deadline 0); [lia|]); (split; [|done]); [done|].
    unfold attempt_budget. lia. }
  pose proof (renew_loop_failing deadline retry as_ (t0 + retry + d) (t0 + retry + d) Hf ltac:(lia) ltac:(lia)) as H.
  destruct (renew_loop deadline retry (t0 + retry + d) _ as_) as [t|[now' fe]].
  - split; [intros ? [= <-]; lia|]. intros _. by exists t.
  - split; [done|]. destruct H as (_ & ? & ?). lia.
Qed.

Lemma abdication_bounded_witness : renew_loop 10 2 0 None [Failed 1; Failed 1; Failed 1; Failed 1; Failed 1] = inl 15 ∧ 15 ≤ 0 + 34.
Proof.
  split; [vm_compute; reflexivity|].
  apply (abdication_bounded 10 2 0 [Failed 1; Failed 1; Failed 1; Failed 1; Failed 1]).
  - lia.
  - lia.
  - rewrite !Forall_cons, Forall_nil. unfold failing, attempt_budget. lia.
  - vm_compute. reflexivity.
Defined.

(** With the default timings a leader whose calls hang outlives its lease: one
    timed-out call only starts the failure clock, the second ends it 24 seconds
    after the last renewal, and from the sixteenth on another candidate may
    claim the lease. *)
Theorem hung_renew_outlives_lease :
  renew_loop DEFAULT_RENEW_DEADLINE DEFAULT_RETRY_PERIOD 0 None [TimedOut] = inr (12, Some 12) ∧
  renew_loop DEFAULT_RENEW_DEADLINE DEFAULT_RETRY_PERIOD 0 None [TimedOut; TimedOut] = inl 24 ∧
  acquire_claim "kaas-1" DEFAULT_LEASE_DURATION 16 (Some (held_lease "kaas-0" DEFAULT_LEASE_DURATION 0 1)) = Some 2.
Proof. repeat split; vm_compute; reflexivity. Qed.
