(* ===== verification/Controller.v ===== *)
(** * The controller: liveness, the broker registry and the assignment file

    [kaas-controller/src/heartbeat_server.rs] (what brokers report),
    [kaas-k8s/src/endpoints.rs] and [identity.rs] (the registered brokers),
    the broker source of [bins/kaas/src/cluster.rs], [assignment_writer.rs] (the
    recompute that writes the assignment file) and the loop of [run_controller].
    The hash of the balancer, the manifests on the volume, the clock and whether a
    write succeeds are arguments; gRPC transport and metrics are left out.  The grace
    period and what triggers a recompute are in [ControlPlane.v]. *)

From stdpp Require Import base gmap strings list sorting pretty.
From Stdlib Require Import Strings.Byte Strings.Ascii.
From S2P Require Import Prelude SegmentDir Recovery Cluster Balancer OffsetStore.

Local Open Scope Z_scope.

(** ** Identity ([identity.rs]) *)

(** The piece after the last [c]. *)
Fixpoint last_piece (c : ascii) (cur s : string) : string :=
  match s with
  | EmptyString => cur
  | String a s' => if bool_decide (a = c) then last_piece c "" s' else last_piece c (cur +:+ String a "") s'
  end.

Definition parse_ordinal (name : string) : option Z := parse_i32 (last_piece "-"%char "" name).

(** [str::replace], with [skip] characters of a match still to pass over. *)
Fixpoint replace_go (pat rep : string) (skip : nat) (s : string) : string :=
  match s with
  | EmptyString => ""
  | String a s' =>
    match skip with
    | S k => replace_go pat rep k s'
    | O =>
      if String.prefix pat s then rep +:+ replace_go pat rep (String.length pat - 1) s'
      else String a (replace_go pat rep 0 s')
    end
  end.

Record DnsConfig := {
  dns_namespace : string; headless_service : string; pod_name_pattern : string; cluster_domain : string }.

Definition fqdn (d : DnsConfig) (ordinal : Z) : string :=
  let ord := pretty ordinal in
  let pod := replace_go "%d" ord 0 (replace_go "{ordinal}" ord 0 (pod_name_pattern d)) in
  pod +:+ "." +:+ headless_service d +:+ "." +:+ dns_namespace d +:+ ".svc." +:+ cluster_domain d.

(** ** Registered brokers ([endpoints.rs]) *)

Record BrokerEndpoint := { node_id : Z; host : string; port : Z; ready : bool }.
Record EndpointSliceEntry := { hostname : string; address : string; ep_ready : bool }.
Record EndpointSliceData := { slice_name : string; entries : list EndpointSliceEntry; kafka_port : option Z }.

Record BrokerRegistry := {
  self_endpoint : BrokerEndpoint; dns : DnsConfig; endpoints : gmap Z BrokerEndpoint; slice_of : gmap Z string }.

Definition BrokerRegistry_new (self : BrokerEndpoint) (d : DnsConfig) : BrokerRegistry :=
  {| self_endpoint := self; dns := d; endpoints := {[ node_id self := self ]}; slice_of := ∅ |}.

Definition with_endpoints (r : BrokerRegistry) (eps : gmap Z BrokerEndpoint) (sl : gmap Z string) : BrokerRegistry :=
  {| self_endpoint := self_endpoint r; dns := dns r; endpoints := eps; slice_of := sl |}.

Definition endpoint_le (a b : BrokerEndpoint) : Prop := node_id a ≤ node_id b.
#[global] Instance endpoint_le_dec : RelDecision endpoint_le.
Proof. intros a b. unfold endpoint_le. apply _. Defined.

Definition all (r : BrokerRegistry) : list BrokerEndpoint :=
  merge_sort endpoint_le (snd <$> map_to_list (endpoints r)).

Definition upsert (r : BrokerRegistry) (e : BrokerEndpoint) : BrokerRegistry :=
  with_endpoints r (<[node_id e := e]> (endpoints r)) (slice_of r).

(** The ordinal an entry counts for: not this broker's own. *)
Definition peer_ordinal (r : BrokerRegistry) (ep : EndpointSliceEntry) : option Z :=
  o ← parse_ordinal (hostname ep);
  if bool_decide (o = node_id (self_endpoint r)) then None else Some o.

Definition apply_entry (port : Z) (slice : string) (r : BrokerRegistry) (ep : EndpointSliceEntry) : BrokerRegistry :=
  match peer_ordinal r ep with
  | None => r
  | Some o =>
    let host :=
      if negb (String.eqb (headless_service (dns r)) "") && negb (String.eqb (pod_name_pattern (dns r)) "")
      then fqdn (dns r) o else address ep in
    with_endpoints r (<[o := {| node_id := o; host := host; port := port; ready := ep_ready ep |}]> (endpoints r))
      (<[o := slice]> (slice_of r))
  end.

Definition drop_ordinals (r : BrokerRegistry) (os : list Z) : BrokerRegistry :=
  foldl (λ r o, with_endpoints r (delete o (endpoints r)) (delete o (slice_of r))) r os.

Definition apply_slice (r : BrokerRegistry) (s : EndpointSliceData) : BrokerRegistry :=
  let port := default (port (self_endpoint r)) (kafka_port s) in
  let r' := foldl (apply_entry port (slice_name s)) r (entries s) in
  let seen := omap (peer_ordinal r) (entries s) in
  drop_ordinals r'
    (fst <$> filter (λ e, e.2 = slice_name s ∧ e.1 ∉ seen) (map_to_list (slice_of r'))).

Definition delete_slice (r : BrokerRegistry) (s : EndpointSliceData) : BrokerRegistry :=
  drop_ordinals r (omap (peer_ordinal r) (entries s)).

(** [handle_endpoint_event]: a listing that starts over brings its objects again
    and forgets nothing. *)
Inductive EndpointEvent := EApply (s : EndpointSliceData) | EDelete (s : EndpointSliceData) | EInit | EInitDone.

Definition handle_endpoint_event (r : BrokerRegistry) (e : EndpointEvent) : BrokerRegistry :=
  match e with
  | EApply s => apply_slice r s
  | EDelete s => delete_slice r s
  | EInit | EInitDone => r
  end.

(** ** Heartbeats ([heartbeat_server.rs]) *)

Definition SEND_BUFFER : nat := 4.

Record BrokerStatus := {
  bs_broker_id : string; bs_timestamp_ms : Z; bs_version : Z; bs_active_groups : list string;
  bs_healthy : bool; bs_draining : bool }.

Inductive ControllerCommand := AssignmentChanged (version broker_ts : Z) | Leaving | Ping (broker_ts : Z).

(** [send_queue] is the bounded channel to the broker. *)
Record ClientState := {
  send_queue : list ControllerCommand; last_seen_ms : Z; last_seen_version : Z;
  client_groups : list string; last_broker_ts_ms : Z; healthy : bool; is_draining : bool }.

(** A stream owns its state; [clients] says which stream speaks for a broker. *)
Record HeartbeatServer := {
  pending_version : Z; clients : gmap string nat; streams : gmap nat ClientState }.

Definition HeartbeatServer_new : HeartbeatServer := {| pending_version := 0; clients := ∅; streams := ∅ |}.

(** [try_send]: a full channel drops the command. *)
Definition try_send (c : ControllerCommand) (s : ClientState) : ClientState :=
  {| send_queue := if (length (send_queue s) <? SEND_BUFFER)%nat then send_queue s ++ [c] else send_queue s;
     last_seen_ms := last_seen_ms s; last_seen_version := last_seen_version s; client_groups := client_groups s;
     last_broker_ts_ms := last_broker_ts_ms s; healthy := healthy s; is_draining := is_draining s |}.

Definition broadcast (c : ControllerCommand) (h : HeartbeatServer) : gmap nat ClientState :=
  foldl (λ m sid, alter (try_send c) sid m) (streams h) (snd <$> map_to_list (clients h)).

Definition push_assignment_changed (h : HeartbeatServer) (version : Z) : HeartbeatServer :=
  {| pending_version := version; clients := clients h; streams := broadcast (AssignmentChanged version 0) h |}.

Definition push_leaving (h : HeartbeatServer) : HeartbeatServer :=
  {| pending_version := pending_version h; clients := clients h; streams := broadcast Leaving h |}.

(** A stream's first message; [None]: refused for want of a broker id. *)
Definition open_stream (h : HeartbeatServer) (sid : nat) (first : BrokerStatus) (now : Z) : option HeartbeatServer :=
  if String.eqb (bs_broker_id first) "" then None
  else
    let st :=
      {| send_queue := if 0 <? pending_version h then [AssignmentChanged (pending_version h) (bs_timestamp_ms first)] else [];
         last_seen_ms := now; last_seen_version := bs_version first; client_groups := bs_active_groups first;
         last_broker_ts_ms := bs_timestamp_ms first; healthy := bs_healthy first; is_draining := bs_draining first |} in
    Some {| pending_version := pending_version h; clients := <[bs_broker_id first := sid]> (clients h);
            streams := <[sid := st]> (streams h) |}.

Definition receive_status (h : HeartbeatServer) (sid : nat) (msg : BrokerStatus) (now : Z) : HeartbeatServer :=
  {| pending_version := pending_version h; clients := clients h;
     streams := alter (λ s,
       {| send_queue := send_queue s; last_seen_ms := now; last_seen_version := bs_version msg;
          client_groups := bs_active_groups msg; last_broker_ts_ms := bs_timestamp_ms msg;
          healthy := bs_healthy msg; is_draining := bs_draining msg |}) sid (streams h) |}.

(** [Arc::ptr_eq]: only the stream still registered takes its broker along. *)
Definition close_stream (h : HeartbeatServer) (sid : nat) (broker : string) : HeartbeatServer :=
  {| pending_version := pending_version h;
     clients := if bool_decide (clients h !! broker = Some sid) then delete broker (clients h) else clients h;
     streams := streams h |}.

(** The broker takes the next command; the periodic ping does not use the channel. *)
Definition take_command (h : HeartbeatServer) (sid : nat) : HeartbeatServer * option ControllerCommand :=
  match streams h !! sid with
  | Some s =>
    match send_queue s with
    | c :: q =>
      ({| pending_version := pending_version h; clients := clients h;
          streams := <[sid := {| send_queue := q; last_seen_ms := last_seen_ms s;
            last_seen_version := last_seen_version s; client_groups := client_groups s;
            last_broker_ts_ms := last_broker_ts_ms s; healthy := healthy s; is_draining := is_draining s |}]> (streams h) |}, Some c)
    | [] => (h, None)
    end
  | None => (h, None)
  end.

Definition connected_brokers (h : HeartbeatServer) : list string := fst <$> map_to_list (clients h).

Record BrokerLiveness := { bl_id : string; bl_healthy : bool; bl_draining : bool }.

Definition broker_liveness (h : HeartbeatServer) : list BrokerLiveness :=
  omap (λ '(b, sid), (λ s, {| bl_id := b; bl_healthy := healthy s; bl_draining := is_draining s |}) <$> streams h !! sid)
    (map_to_list (clients h)).

Definition active_groups (h : HeartbeatServer) : list string :=
  elements (list_to_set (C := gset string)
    (map_to_list (clients h) ≫= λ '(_, sid), default [] (client_groups <$> streams h !! sid))).

Definition broker_last_seen (h : HeartbeatServer) (broker : string) : option Z :=
  clients h !! broker ≫= λ sid, last_seen_ms <$> streams h !! sid.

(** ** The broker set the controller works with ([cluster.rs]) *)

Definition decide_alive (live : list BrokerLiveness) (registered_ready : list string) (self : string) : list string :=
  let alive :=
    match live with
    | [] => registered_ready
    | _ => bl_id <$> filter (λ b, bl_healthy b = true ∧ bl_draining b = false) live
    end in
  if bool_decide (self ∈ alive) then alive else alive ++ [self].

Definition broker_name (e : BrokerEndpoint) : string := "kaas-" +:+ pretty (node_id e).

Definition alive_brokers (r : BrokerRegistry) (h : HeartbeatServer) (self : string) : list string :=
  decide_alive (broker_liveness h) (broker_name <$> filter (λ b, ready b = true) (all r)) self.

Definition registered_brokers (r : BrokerRegistry) (self : string) : list string :=
  let ids := broker_name <$> all r in if bool_decide (self ∈ ids) then ids else ids ++ [self].

Definition draining_brokers (h : HeartbeatServer) : list string :=
  bl_id <$> filter (λ b, bl_draining b = true) (broker_liveness h).

(** ** The assignment loop ([assignment_writer.rs]) *)

Record Sources := {
  s_alive : list string; s_registered : list string; s_draining : list string;
  s_topics : list TopicSpec; s_groups : option (list string) }.

Definition cluster_sources (r : BrokerRegistry) (h : HeartbeatServer) (self : string) (topics : list TopicSpec) : Sources :=
  {| s_alive := alive_brokers r h self; s_registered := registered_brokers r self;
     s_draining := draining_brokers h; s_topics := topics; s_groups := Some (active_groups h) |}.

Record AssignmentLoop := {
  controller_id : string; loop_epoch : Z; loop_current : option Assignment; version_counter : Z }.

Definition AssignmentLoop_new (id : string) : AssignmentLoop :=
  {| controller_id := id; loop_epoch := 0; loop_current := None; version_counter := 0 |}.

Definition u32_max : Z := 4294967295.

(** What a manifest says of a partition's epoch. *)
Definition disk_epoch (d : Dir) : Z :=
  match read_manifest d with Ok (Present m) | Ok (Legacy m) => m_epoch m | _ => 0 end.

Definition floor_entry (dir : string → Z → Dir) (prev_keys : gset string) (floor : gmap string Z) (k : string * Z) :
    gmap string Z :=
  let key := partition_key k.1 k.2 in
  if decide (key ∈ prev_keys) then floor
  else
    let epoch := disk_epoch (dir k.1 k.2) in
    if (0 <? epoch) && (epoch <=? u32_max) then <[key := epoch]> floor else floor.

Definition compute_epoch_floor (dir : string → Z → Dir) (topics : list TopicSpec) (prev : list (string * Z)) :
    gmap string Z :=
  let prev_keys := list_to_set ((λ k, partition_key k.1 k.2) <$> prev) in
  foldl (floor_entry dir prev_keys) ∅ (catalog topics).

Definition row_le (a b : BrokerAssignment) : Prop := String.le (br_id a) (br_id b).
#[global] Instance row_le_dec : RelDecision row_le.
Proof. intros a b. unfold row_le. apply _. Defined.

Definition broker_row (alive draining : list string) (now : string) (prev : option (list BrokerAssignment)) (b : string) :
    BrokerAssignment :=
  let health :=
    if bool_decide (b ∈ draining) then Draining else if bool_decide (b ∈ alive) then Alive else Dead in
  let last_seen :=
    match health with
    | Dead => match prev ≫= λ p, find (λ e, bool_decide (br_id e = b)) p with
              | Some e => last_seen e
              | None => now
              end
    | _ => now
    end in
  {| br_id := b; health := health; last_seen := last_seen |}.

(** An alive broker that is not registered gets a row of its own. *)
Definition add_alive (now : string) (rows : list BrokerAssignment) (b : string) : list BrokerAssignment :=
  if existsb (λ e, bool_decide (br_id e = b)) rows then rows
  else rows ++ [{| br_id := b; health := Alive; last_seen := now |}].

Definition build_broker_entries (registered alive draining : list string) (now : string)
    (prev : option (list BrokerAssignment)) : list BrokerAssignment :=
  merge_sort row_le
    (foldl (add_alive now) (broker_row alive draining now prev <$> registered) alive).

(** The assignment a recompute arrives at. *)
Definition next_assignment (xxh64 : list byte → Z) (dir : string → Z → Dir) (now : string) (src : Sources)
    (l : AssignmentLoop) : Assignment :=
  let prev_dims := match loop_current l with Some a => row_key <$> partitions a | None => [] end in
  let floor := compute_epoch_floor dir (s_topics src) prev_dims in
  let rows := build_broker_entries (s_registered src) (s_alive src) (s_draining src) now (brokers <$> loop_current l) in
  {| controller_epoch := loop_epoch l; assignment_version := version_counter l + 1; generated_at := now;
     controller := controller_id l; brokers := rows;
     partitions := balance xxh64 (partitions <$> loop_current l) (s_alive src) (s_topics src) floor;
     consumer_groups := balance_groups (consumer_groups <$> loop_current l) rows
       (Build_GroupSpec <$> default [] (s_groups src)) |}.

(** [write_ok]: whether the file is replaced; it never holds a part of one. *)
Definition update_assignment (xxh64 : list byte → Z) (dir : string → Z → Dir) (now : string) (src : Sources)
    (write_ok : bool) (l : AssignmentLoop) (file : option Assignment) :
    AssignmentLoop * option Assignment * result unit Z :=
  let a := next_assignment xxh64 dir now src l in
  let l' := {| controller_id := controller_id l; loop_epoch := loop_epoch l;
               loop_current := Some a; version_counter := assignment_version a |} in
  if write_ok then (l', Some a, Ok (assignment_version a)) else (l', file, Err tt).

(** [file] is what is on the volume; unreadable is absent. *)
Definition loop_start (xxh64 : list byte → Z) (dir : string → Z → Dir) (now : string) (src : Sources)
    (write_ok : bool) (epoch : Z) (l : AssignmentLoop) (file : option Assignment) :
    AssignmentLoop * option Assignment * result unit Z :=
  let l :=
    match file with
    | Some prev =>
      {| controller_id := controller_id l; loop_epoch := epoch; loop_current := Some prev;
         version_counter := Z.max (version_counter l) (assignment_version prev) |}
    | None => {| controller_id := controller_id l; loop_epoch := epoch; loop_current := loop_current l;
                 version_counter := version_counter l |}
    end in
  update_assignment xxh64 dir now src write_ok l file.

(** ** Controllers in office, one after another *)

Inductive CtlEvent :=
| TakeOffice (id : string) (epoch : Z) (src : Sources) (now : string) (write_ok : bool)
| Recompute (src : Sources) (now : string) (write_ok : bool).

(** Who is in office, the file, and every assignment written, latest first. *)
Record Office := { in_office : option AssignmentLoop; on_disk : option Assignment; written : list Assignment }.
Definition Office_new : Office := {| in_office := None; on_disk := None; written := [] |}.

(** A controller whose first write fails abdicates; a failed recompute is retried
    with the next trigger. *)
Definition office_step (xxh64 : list byte → Z) (dir : string → Z → Dir) (o : Office) (e : CtlEvent) : Office :=
  match e with
  | TakeOffice id epoch src now ok =>
    match loop_start xxh64 dir now src ok epoch (AssignmentLoop_new id) (on_disk o) with
    | (l, Some a, Ok _) => {| in_office := Some l; on_disk := Some a; written := a :: written o |}
    | (l, f, _) => {| in_office := None; on_disk := f; written := written o |}
    end
  | Recompute src now ok =>
    match in_office o with
    | None => o
    | Some l =>
      match update_assignment xxh64 dir now src ok l (on_disk o) with
      | (l, Some a, Ok _) => {| in_office := Some l; on_disk := Some a; written := a :: written o |}
      | (l, f, _) => {| in_office := Some l; on_disk := f; written := written o |}
      end
    end
  end.

(** ** Lemmas *)

Lemma all_elem r e : e ∈ all r ↔ ∃ k, endpoints r !! k = Some e.
Proof.
  unfold all. rewrite (merge_sort_Permutation endpoint_le). rewrite list_elem_of_fmap. split.
  - intros ([k x] & -> & H%elem_of_map_to_list). by exists k.
  - intros [k H]. exists (k, e). split; [done|]. by apply elem_of_map_to_list.
Qed.

(** Endpoints are filed under their ordinals, this broker among them. *)
Definition registry_ok (r : BrokerRegistry) : Prop :=
  (∀ k e, endpoints r !! k = Some e → node_id e = k) ∧
  endpoints r !! node_id (self_endpoint r) = Some (self_endpoint r) ∧
  slice_of r !! node_id (self_endpoint r) = None.

Lemma names_NoDup r : registry_ok r → NoDup (broker_name <$> all r).
Proof.
  intros [Hk _]. unfold all. rewrite (merge_sort_Permutation endpoint_le).
  assert (broker_name <$> (snd <$> map_to_list (endpoints r)) =
    (λ z : Z, "kaas-" +:+ pretty z) <$> (fst <$> map_to_list (endpoints r))) as ->.
  { rewrite <- !list_fmap_compose. apply list_fmap_ext. intros i [k e] Hi. simpl. unfold broker_name.
    apply list_elem_of_lookup_2, elem_of_map_to_list in Hi. by rewrite (Hk k e Hi). }
  apply NoDup_fmap_2_strong; [|apply NoDup_fst_map_to_list].
  intros x y _ _ H. injection H as H. change (pretty x = pretty y) in H. exact (inj pretty x y H).
Qed.

Lemma liveness_NoDup h : NoDup (bl_id <$> broker_liveness h).
Proof.
  unfold broker_liveness. pose proof (NoDup_fst_map_to_list (clients h)) as Hnd.
  induction (map_to_list (clients h)) as [|[b sid] l IH]; [constructor|]. simpl in *.
  apply NoDup_cons in Hnd as [Hb Hnd]. destruct (streams h !! sid) as [s|]; simpl; [|by apply IH].
  constructor; [|by apply IH]. intros (x & -> & ([b' sid'] & Hin & Hx)%list_elem_of_omap)%list_elem_of_fmap.
  destruct (streams h !! sid'); simplify_eq/=. apply Hb. apply list_elem_of_fmap. exists (b', sid'). done.
Qed.

Lemma NoDup_fmap_filter {A B} (f : A → B) (P : A → Prop) `{∀ x, Decision (P x)} l :
  NoDup (f <$> l) → NoDup (f <$> filter P l).
Proof.
  induction l as [|x l IH]; [done|]. rewrite fmap_cons, NoDup_cons. intros [Hx Hnd]. rewrite filter_cons.
  case_decide; [|by apply IH]. rewrite fmap_cons. constructor; [|by apply IH].
  intros (y & Hy & [_ Hin]%list_elem_of_filter)%list_elem_of_fmap. apply Hx. rewrite Hy. by apply list_elem_of_fmap_2.
Qed.

Lemma NoDup_add `{EqDecision A} (x : A) l : NoDup l → NoDup (if bool_decide (x ∈ l) then l else l ++ [x]).
Proof.
  intros Hnd. case_bool_decide as H; [done|]. apply NoDup_app. split; [done|]. split; [|apply NoDup_singleton].
  intros y Hy ->%list_elem_of_singleton. done.
Qed.

Lemma elem_add `{EqDecision A} (x y : A) l : y ∈ (if bool_decide (x ∈ l) then l else l ++ [x]) ↔ y ∈ l ∨ y = x.
Proof. case_bool_decide; [naive_solver|]. by rewrite elem_of_app, list_elem_of_singleton. Qed.

(** The broker sets the controller derives: no repeats, itself in both, and no
    other broker alive that said it is leaving or unwell. *)
Lemma cluster_sources_ok r h self topics :
  registry_ok r → let s := cluster_sources r h self topics in
  NoDup (s_alive s) ∧ NoDup (s_registered s) ∧ self ∈ s_alive s ∧ self ∈ s_registered s ∧
  (broker_liveness h ≠ [] → ∀ b, b ∈ s_alive s → b = self ∨ {| bl_id := b; bl_healthy := true; bl_draining := false |} ∈ broker_liveness h).
Proof.
  intros Hr. simpl. unfold alive_brokers, registered_brokers, decide_alive. rewrite !elem_add.
  pose proof (names_NoDup r Hr) as Hnames. split; [|split; [|split; [by right|split; [by right|]]]].
  - apply NoDup_add. pose proof (liveness_NoDup h) as Hl. destruct (broker_liveness h) as [|b l]; by apply NoDup_fmap_filter.
  - by apply NoDup_add.
  - intros Hne b. rewrite elem_add. intros [H| ->]; [right|by left].
    destruct (broker_liveness h) as [|b0 l]; [done|].
    apply list_elem_of_fmap in H as ([i hh dd] & -> & [[Hh Hd] Hin]%list_elem_of_filter). simpl in *. by subst.
Qed.

Lemma add_alive_spec now alive rows :
  let out := foldl (add_alive now) rows alive in
  (NoDup (br_id <$> rows) → NoDup (br_id <$> out)) ∧
  ∀ r, r ∈ out ↔ r ∈ rows ∨ (br_id r ∈ alive ∧ br_id r ∉ br_id <$> rows ∧ health r = Alive ∧ last_seen r = now).
Proof.
  revert rows. induction alive as [|b alive IH]; intros rows; simpl.
  { split; [done|]. intros r. set_solver. }
  destruct (IH (add_alive now rows b)) as [H1 H2]. unfold add_alive in *.
  destruct (existsb _ rows) eqn:Ex.
  - assert (b ∈ br_id <$> rows) as Hb.
    { apply existsb_exists in Ex as (x & Hx & <-%bool_decide_eq_true). apply list_elem_of_fmap. exists x.
      split; [done|]. by apply list_elem_of_In. }
    split; [done|]. intros r. rewrite H2, elem_of_cons. split; [naive_solver|].
    intros [?|([->|?] & ? & ?)]; naive_solver.
  - assert (b ∉ br_id <$> rows) as Hb.
    { intros (x & -> & Hx)%list_elem_of_fmap. apply not_true_iff_false in Ex. apply Ex, existsb_exists.
      exists x. split; [by apply list_elem_of_In|]. by apply bool_decide_eq_true. }
    split.
    + intros Hnd. apply H1. rewrite fmap_app. apply NoDup_app. split; [done|]. split; [|apply NoDup_singleton].
      simpl. intros y Hy ->%list_elem_of_singleton. done.
    + intros r. rewrite H2, fmap_app, !elem_of_app, (elem_of_cons alive). simpl.
      rewrite !list_elem_of_singleton. destruct r as [i hl ls]. simpl.
      destruct (decide (i = b)) as [->|]; naive_solver.
Qed.

(** Each registered or alive broker has one row, with the health the controller
    sees. *)
Lemma broker_entries_spec registered alive draining now prev :
  NoDup registered →
  let rows := build_broker_entries registered alive draining now prev in
  NoDup (br_id <$> rows) ∧
  (∀ b, b ∈ br_id <$> rows ↔ b ∈ registered ∨ b ∈ alive) ∧
  ∀ r, r ∈ rows →
    health r = (if bool_decide (br_id r ∈ registered) then
                  if bool_decide (br_id r ∈ draining) then Draining
                  else if bool_decide (br_id r ∈ alive) then Alive else Dead
                else Alive).
Proof.
  intros Hnd rows. destruct (add_alive_spec now alive (broker_row alive draining now prev <$> registered)) as [H1 H2].
  assert (br_id <$> (broker_row alive draining now prev <$> registered) = registered) as Hids.
  { rewrite <- list_fmap_compose. by apply list_fmap_id. }
  rewrite Hids in *. unfold rows, build_broker_entries in *.
  set (l := foldl _ _ alive) in *.
  assert (∀ r, r ∈ merge_sort row_le l ↔ r ∈ l) as Hs by (intros r; by rewrite (merge_sort_Permutation row_le l)).
  split; [by rewrite (merge_sort_Permutation row_le l); apply H1|]. split.
  - intros b. rewrite list_elem_of_fmap. setoid_rewrite Hs. setoid_rewrite H2. split.
    + intros (r & -> & [(x & -> & Hx)%list_elem_of_fmap|(? & _)]); [by left|by right].
    + intros H. destruct (decide (b ∈ registered)) as [Hb|Hb].
      * eexists. split; [|left; by apply list_elem_of_fmap_2]. done.
      * exists {| br_id := b; health := Alive; last_seen := now |}. split; [done|]. right. simpl. naive_solver.
  - intros r Hr. apply Hs, H2 in Hr as [(x & -> & Hx)%list_elem_of_fmap|(Hal & Hnr & Hh & _)].
    + simpl. by rewrite (bool_decide_eq_true_2 _ Hx).
    + by rewrite (bool_decide_eq_false_2 _ Hnr).
Qed.

(** A partition the previous assignment does not have starts above its manifest. *)
Lemma epoch_floor_spec dir topics prev t p :
  (t, p) ∈ catalog topics → (t, p) ∉ prev → 0 < disk_epoch (dir t p) ≤ u32_max →
  compute_epoch_floor dir topics prev !! partition_key t p = Some (disk_epoch (dir t p)).
Proof.
  intros Hc Hp He. unfold compute_epoch_floor.
  set (pk := list_to_set _). assert (partition_key t p ∉ pk) as Hpk.
  { unfold pk. rewrite elem_of_list_to_set. intros ([t' p'] & Heq & Hin)%list_elem_of_fmap.
    by apply partition_key_inj in Heq as [-> ->]. }
  induction (catalog topics) as [|[t' p'] l IH] using rev_ind; [by apply elem_of_nil in Hc|].
  rewrite foldl_app. simpl. unfold floor_entry at 1. simpl.
  destruct (decide ((t', p') = (t, p))) as [[= -> ->]|Hne].
  - rewrite decide_False by done.
    destruct (Z.ltb_spec 0 (disk_epoch (dir t p))), (Z.leb_spec (disk_epoch (dir t p)) u32_max); try lia.
    simpl. apply lookup_insert_eq.
  - assert ((t, p) ∈ l) as Hl by (apply elem_of_app in Hc as [?|H%list_elem_of_singleton]; [done|congruence]).
    specialize (IH Hl). case_decide; [done|]. destruct (_ && _); [|done]. rewrite lookup_insert_ne; [done|].
    intros Heq. apply partition_key_inj in Heq as [-> ->]. done.
Qed.

Lemma drop_ordinals_lookup os r k :
  endpoints (drop_ordinals r os) !! k = (if decide (k ∈ os) then None else endpoints r !! k) ∧
  slice_of (drop_ordinals r os) !! k = (if decide (k ∈ os) then None else slice_of r !! k) ∧
  self_endpoint (drop_ordinals r os) = self_endpoint r.
Proof.
  revert r. induction os as [|o os IH]; intros r; simpl; [done|].
  destruct (IH (with_endpoints r (delete o (endpoints r)) (delete o (slice_of r)))) as (-> & -> & ->). simpl.
  destruct (decide (k = o)) as [->|Hne].
  - rewrite !lookup_delete_eq. destruct (decide (o ∈ o :: os)) as [|Hn]; [by case_decide|]. destruct Hn. left.
  - rewrite !lookup_delete_ne by done. by case_decide; case_decide; set_solver.
Qed.

Lemma peer_ordinal_self r ep : peer_ordinal r ep ≠ Some (node_id (self_endpoint r)).
Proof. unfold peer_ordinal. destruct (parse_ordinal _); simpl; [|done]. case_bool_decide; congruence. Qed.

Lemma apply_entries_spec port slice eps : ∀ r,
  registry_ok r →
  let r' := foldl (apply_entry port slice) r eps in
  registry_ok r' ∧ self_endpoint r' = self_endpoint r ∧
  ∀ k, slice_of r' !! k = (if decide (k ∈ omap (peer_ordinal r) eps) then Some slice else slice_of r !! k) ∧
       (k ∉ omap (peer_ordinal r) eps → endpoints r' !! k = endpoints r !! k) ∧
       (k ∈ omap (peer_ordinal r) eps → is_Some (endpoints r' !! k)).
Proof.
  induction eps as [|ep eps IH]; intros r Hr; simpl.
  { split; [done|]. split; [done|]. intros k. split; [done|]. by split; [|intros ?%elem_of_nil]. }
  assert (registry_ok (apply_entry port slice r ep) ∧ self_endpoint (apply_entry port slice r ep) = self_endpoint r)
    as [Hr1 Hs1].
  { unfold apply_entry. pose proof (peer_ordinal_self r ep) as Hns. destruct (peer_ordinal r ep) as [o|]; [|done].
    split; [|done]. destruct Hr as (H1 & H2 & H3). split; [|split]; simpl.
    - intros k e. destruct (decide (o = k)) as [->|Hne]; [rewrite lookup_insert_eq|rewrite lookup_insert_ne by done; apply H1].
      by intros [= <-].
    - by rewrite lookup_insert_ne by congruence.
    - by rewrite lookup_insert_ne by congruence. }
  destruct (IH _ Hr1) as (Hok & Hself & Hk). split; [done|]. split; [congruence|].
  assert (omap (peer_ordinal (apply_entry port slice r ep)) eps = omap (peer_ordinal r) eps) as Hom.
  { unfold peer_ordinal. by rewrite Hs1. }
  rewrite Hom in Hk. intros k. destruct (Hk k) as (Ha & Hb & Hc). rewrite Ha. clear Hk Ha.
  unfold apply_entry in *. destruct (peer_ordinal r ep) as [o|]; simpl; [|done].
  destruct (decide (k = o)) as [->|Hne].
  - destruct (decide (o ∈ o :: _)) as [_|Hn]; [|destruct Hn; left].
    split; [case_decide; [done|]; apply lookup_insert_eq|].
    split; [set_solver|]. intros _. destruct (decide (o ∈ omap (peer_ordinal r) eps)); [by apply Hc|].
    rewrite Hb by done. simpl. rewrite lookup_insert_eq. by eexists.
  - simpl in Hb. rewrite lookup_insert_ne in Hb by done. rewrite lookup_insert_ne by done.
    split; [by repeat case_decide; set_solver|]. split; intros H; [apply Hb|apply Hc]; set_solver.
Qed.

Lemma drop_ordinals_ok r os : registry_ok r → node_id (self_endpoint r) ∉ os → registry_ok (drop_ordinals r os).
Proof.
  intros (H1 & H2 & H3) Hs. unfold registry_ok.
  destruct (drop_ordinals_lookup os r (node_id (self_endpoint r))) as (E1 & E2 & ->).
  split; [clear E1 E2|rewrite E1, E2, !decide_False by done; done].
  intros k e. destruct (drop_ordinals_lookup os r k) as (-> & _). case_decide; [done|apply H1].
Qed.

Lemma apply_slice_spec r s :
  registry_ok r → let r' := apply_slice r s in let seen := omap (peer_ordinal r) (entries s) in
  registry_ok r' ∧ self_endpoint r' = self_endpoint r ∧
  (∀ k, slice_of r' !! k = Some (slice_name s) ↔ k ∈ seen) ∧
  (∀ k m, m ≠ slice_name s → k ∉ seen → slice_of r !! k = Some m →
     slice_of r' !! k = Some m ∧ endpoints r' !! k = endpoints r !! k).
Proof.
  intros Hr r' seen. unfold r', apply_slice.
  destruct (apply_entries_spec (default (port (self_endpoint r)) (kafka_port s)) (slice_name s) (entries s) r Hr)
    as (Hok & Hself & Hk). fold seen in Hk |- *.
  set (r1 := foldl _ r (entries s)) in *. set (os := fst <$> _).
  assert (∀ k, k ∈ os ↔ slice_of r1 !! k = Some (slice_name s) ∧ k ∉ seen) as Hos.
  { intros k. unfold os. rewrite list_elem_of_fmap. split.
    - intros ([k' m] & -> & [[Hm Hn] Hin%elem_of_map_to_list]%list_elem_of_filter). simpl in *. by subst.
    - intros [Hm Hn]. exists (k, slice_name s). split; [done|]. apply list_elem_of_filter. split; [done|].
      by apply elem_of_map_to_list. }
  split.
  { apply drop_ordinals_ok; [done|]. rewrite Hos. destruct Hok as (_ & _ & H3). rewrite H3. by intros [? _]. }
  split; [destruct (drop_ordinals_lookup os r1 0) as (_ & _ & ->); done|]. split.
  - intros k. destruct (drop_ordinals_lookup os r1 k) as (_ & -> & _). destruct (Hk k) as (Hs & _).
    destruct (decide (k ∈ os)) as [Hin|Hin]; [apply Hos in Hin as [_ Hn]; by split|].
    destruct (decide (k ∈ seen)) as [Hse|Hse]; rewrite Hs; [done|]. split; [|done]. intros Hm.
    destruct Hin. apply Hos. split; [|done]. by rewrite Hs.
  - intros k m Hm Hn Hks. destruct (drop_ordinals_lookup os r1 k) as (-> & -> & _). destruct (Hk k) as (Hs & He & _).
    rewrite (decide_False (P := k ∈ seen)) in Hs by done.
    assert (k ∉ os) as Hno by (rewrite Hos, Hs, Hks; by intros [[= ->] _]).
    rewrite !decide_False by done. by rewrite Hs, He.
Qed.

Lemma delete_slice_ok r s : registry_ok r → registry_ok (delete_slice r s) ∧ self_endpoint (delete_slice r s) = self_endpoint r.
Proof.
  intros Hr. unfold delete_slice. split; [|by apply (drop_ordinals_lookup _ r 0)].
  apply drop_ordinals_ok; [done|]. rewrite list_elem_of_omap. intros (ep & _ & H). by apply peer_ordinal_self in H.
Qed.

Lemma registry_run_ok r evs :
  registry_ok r → let r' := foldl handle_endpoint_event r evs in registry_ok r' ∧ self_endpoint r' = self_endpoint r.
Proof.
  intros Hr. simpl. induction evs as [|e evs [IH1 IH2]] using rev_ind; [done|]. rewrite foldl_app. simpl.
  destruct e as [s|s| |]; simpl; [|by destruct (delete_slice_ok _ s IH1) as [? ->]|done|done].
  destruct (apply_slice_spec _ s IH1) as (? & -> & _). done.
Qed.

(** ** Theorems *)

(** The broker registry, whatever slices come and go: this broker stays in it,
    endpoints are filed under their ordinals, and an updated slice accounts for
    exactly the peers it lists, so that a peer it no longer lists is gone while
    one filed under another slice is left alone. *)
Theorem registry_invariant self d evs s :
  let r := foldl handle_endpoint_event (BrokerRegistry_new self d) evs in
  let r' := apply_slice r s in
  endpoints r' !! node_id self = Some self ∧
  (∀ k e, endpoints r' !! k = Some e → node_id e = k) ∧
  (∀ k, slice_of r' !! k = Some (slice_name s) ↔ k ∈ omap (peer_ordinal r) (entries s)) ∧
  (∀ k m, m ≠ slice_name s → k ∉ omap (peer_ordinal r) (entries s) → slice_of r !! k = Some m →
     slice_of r' !! k = Some m ∧ endpoints r' !! k = endpoints r !! k).
Proof.
  intros r r'. assert (registry_ok (BrokerRegistry_new self d)) as H0.
  { split; [|split]; simpl; [|apply lookup_singleton_eq|done]. by intros k e [<- <-]%lookup_singleton_Some. }
  destruct (registry_run_ok _ evs H0) as [Hok Hs]. destruct (apply_slice_spec r s Hok) as ((H1 & H2 & _) & Hs' & H3 & H4).
  simpl in Hs. fold r' in H1, H2, Hs', H3, H4. fold r in Hs. rewrite Hs', Hs in H2. done.
Qed.

Definition demo_self : BrokerEndpoint := {| node_id := 0; host := "kaas-0"; port := 9092; ready := true |}.
Definition no_dns : DnsConfig := {| dns_namespace := ""; headless_service := ""; pod_name_pattern := ""; cluster_domain := "" |}.
Definition slice_with (n : string) (hosts : list string) : EndpointSliceData :=
  {| slice_name := n; entries := (λ h, {| hostname := h; address := "10.0.0.1"; ep_ready := true |}) <$> hosts; kafka_port := None |}.

(** Deleting a slice is not scoped the way updating one is: when a peer moved to
    another slice, the deletion of its old one, which still lists it, takes it out
    of the registry.  And a listing that starts over, after a watch was lost,
    removes nothing: a slice that went in between leaves its brokers behind. *)
Theorem slice_deletion_unscoped :
  let r := foldl handle_endpoint_event (BrokerRegistry_new demo_self no_dns)
    [EApply (slice_with "a" ["kaas-1"]); EApply (slice_with "b" ["kaas-1"])] in
  slice_of r !! 1 = Some "b" ∧ is_Some (endpoints r !! 1) ∧
  endpoints (handle_endpoint_event r (EDelete (slice_with "a" ["kaas-1"]))) !! 1 = None ∧
  is_Some (endpoints (foldl handle_endpoint_event r [EInit; EInitDone]) !! 1).
Proof. repeat split; try by vm_compute. all: by eexists; vm_compute. Qed.

(** An event of a heartbeat server; streams are numbered as they are opened. *)
Inductive HeartEvent :=
| HOpen (sid : nat) (first : BrokerStatus) (now : Z) | HStatus (sid : nat) (msg : BrokerStatus) (now : Z)
| HClose (sid : nat) (broker : string) | HPush (version : Z) | HLeaving | HTake (sid : nat).

Definition heart_step (h : HeartbeatServer) (e : HeartEvent) : HeartbeatServer :=
  match e with
  | HOpen sid first now => default h (open_stream h sid first now)
  | HStatus sid msg now => receive_status h sid msg now
  | HClose sid broker => close_stream h sid broker
  | HPush version => push_assignment_changed h version
  | HLeaving => push_leaving h
  | HTake sid => (take_command h sid).1
  end.

(** What can happen without broker [b] opening another stream or [sid] ending. *)
Definition leaves_alone (b : string) (sid : nat) (e : HeartEvent) : Prop :=
  match e with
  | HOpen sid' first _ => sid' ≠ sid ∧ bs_broker_id first ≠ b
  | HClose sid' _ => sid' ≠ sid
  | _ => True
  end.

(** The last status a stream carried. *)
Definition last_status (sid : nat) (first : BrokerStatus) (evs : list HeartEvent) : BrokerStatus :=
  foldl (λ st e, match e with HStatus s m _ => if bool_decide (s = sid) then m else st | _ => st end) first evs.

Lemma broadcast_status c h sid s :
  streams h !! sid = Some s → ∃ s', broadcast c h !! sid = Some s' ∧ healthy s' = healthy s ∧
    is_draining s' = is_draining s ∧ client_groups s' = client_groups s.
Proof.
  unfold broadcast. revert s. generalize (streams h). induction (snd <$> map_to_list (clients h)) as [|x l IH]; intros m s Hs.
  { simpl. by exists s. }
  simpl. destruct (decide (x = sid)) as [->|Hne].
  - destruct (IH (alter (try_send c) sid m) (try_send c s)) as (s' & ? & ? & ? & ?); [by rewrite lookup_alter_eq, Hs|].
    by exists s'.
  - apply IH. by rewrite lookup_alter_ne.
Qed.

(** What a stream's state agrees with a status on. *)
Definition reflects (s : ClientState) (st : BrokerStatus) : Prop :=
  healthy s = bs_healthy st ∧ is_draining s = bs_draining st ∧ client_groups s = bs_active_groups st.

Lemma heart_step_keeps h b sid st e :
  clients h !! b = Some sid → (∃ s, streams h !! sid = Some s ∧ reflects s st) → leaves_alone b sid e →
  clients (heart_step h e) !! b = Some sid ∧
  ∃ s, streams (heart_step h e) !! sid = Some s ∧ reflects s (last_status sid st [e]).
Proof.
  intros Hb (s & Hs & Hr) Hl. destruct e as [sid' f now|sid' m now|sid' b'|v| |sid']; simpl in *.
  - unfold open_stream. destruct (String.eqb _ _); simpl; [by eauto|]. destruct Hl as [H1 H2].
    rewrite !lookup_insert_ne by done. by eauto.
  - split; [done|]. case_bool_decide as H; [subst; rewrite lookup_alter_eq, Hs; simpl; by eexists|].
    rewrite lookup_alter_ne by done. by eauto.
  - split; [|by eauto]. case_bool_decide as H; [|done]. rewrite lookup_delete_ne; [done|]. intros ->. congruence.
  - split; [done|]. destruct (broadcast_status (AssignmentChanged v 0) h sid s Hs) as (s' & ? & ? & ? & ?).
    exists s'. split; [done|]. unfold reflects in *. naive_solver congruence.
  - split; [done|]. destruct (broadcast_status Leaving h sid s Hs) as (s' & ? & ? & ? & ?).
    exists s'. split; [done|]. unfold reflects in *. naive_solver congruence.
  - unfold take_command. destruct (streams h !! sid') as [s2|] eqn:E2; [|by eauto].
    destruct (send_queue s2); [by eauto|]. simpl. split; [done|].
    destruct (decide (sid' = sid)) as [->|]; [rewrite lookup_insert_eq|rewrite lookup_insert_ne by done; by eauto].
    eexists. split; [done|]. assert (s2 = s) as -> by congruence. done.
Qed.

(** A broker that reconnects is known by its newest stream: whatever the others
    do, and although an older stream of its own may still carry messages or end,
    the controller keeps it as connected with the health, the drain announcement
    and the groups of the last status of that stream; and the stream opens with
    the latest assignment version waiting, if there is one. *)
Theorem reconnect_wins h sid first now evs :
  bs_broker_id first ≠ "" → Forall (leaves_alone (bs_broker_id first) sid) evs →
  let st := last_status sid first evs in
  let h' := foldl heart_step h (HOpen sid first now :: evs) in
  clients h' !! bs_broker_id first = Some sid ∧
  {| bl_id := bs_broker_id first; bl_healthy := bs_healthy st; bl_draining := bs_draining st |} ∈ broker_liveness h' ∧
  (∀ g, g ∈ bs_active_groups st → g ∈ active_groups h') ∧
  (0 < pending_version h →
   (take_command (heart_step h (HOpen sid first now)) sid).2 = Some (AssignmentChanged (pending_version h) (bs_timestamp_ms first))).
Proof.
  intros Hid Hf. assert (String.eqb (bs_broker_id first) "" = false) as He by by apply String.eqb_neq.
  assert (let h' := foldl heart_step h (HOpen sid first now :: evs) in clients h' !! bs_broker_id first = Some sid ∧
    ∃ s, streams h' !! sid = Some s ∧ reflects s (last_status sid first evs)) as (Hc & s & Hs & Hr1 & Hr2 & Hr3).
  { simpl. induction evs as [|e evs IH] using rev_ind.
    - simpl. unfold open_stream. rewrite He. simpl. rewrite !lookup_insert_eq. split; [done|]. by eexists.
    - apply Forall_app in Hf as [Hf1 Hf2]. rewrite Forall_singleton in Hf2. destruct (IH Hf1) as [Hc Hs].
      unfold last_status. rewrite !foldl_app. exact (heart_step_keeps _ _ _ _ e Hc Hs Hf2). }
  cbn zeta. split; [done|]. split; [|split].
  - unfold broker_liveness. apply list_elem_of_omap. exists (bs_broker_id first, sid).
    split; [by apply elem_of_map_to_list|]. rewrite Hs. simpl. by rewrite Hr1, Hr2.
  - intros g Hg. unfold active_groups. apply elem_of_elements, elem_of_list_to_set. apply list_elem_of_bind.
    exists (bs_broker_id first, sid). split; [|by apply elem_of_map_to_list]. rewrite Hs. simpl. by rewrite Hr3.
  - intros Hp. simpl. unfold open_stream. rewrite He. simpl. unfold take_command. simpl. rewrite lookup_insert_eq. simpl.
    by destruct (Z.ltb_spec 0 (pending_version h)); [|lia].
Qed.

Definition demo_status (b : string) (ok : bool) : BrokerStatus :=
  {| bs_broker_id := b; bs_timestamp_ms := 5; bs_version := 0; bs_active_groups := ["g"]; bs_healthy := ok; bs_draining := false |}.

(** The broker's first stream ends late and changes nothing. *)
Lemma reconnect_wins_witness :
  broker_liveness (foldl heart_step HeartbeatServer_new
    [HOpen 1 (demo_status "kaas-1" true) 0; HPush 3; HOpen 2 (demo_status "kaas-1" true) 1; HStatus 2 (demo_status "kaas-1" false) 2; HClose 1 "kaas-1"])
  = [{| bl_id := "kaas-1"; bl_healthy := false; bl_draining := false |}] ∧
  clients (foldl heart_step
    (foldl heart_step HeartbeatServer_new [HOpen 1 (demo_status "kaas-1" true) 0; HPush 3])
    [HOpen 2 (demo_status "kaas-1" true) 1; HStatus 2 (demo_status "kaas-1" false) 2; HClose 1 "kaas-1"]) !! "kaas-1" = Some 2%nat.
Proof.
  split; [vm_compute; reflexivity|].
  apply (reconnect_wins (foldl heart_step HeartbeatServer_new [HOpen 1 (demo_status "kaas-1" true) 0; HPush 3])
    2 (demo_status "kaas-1" true) 1 [HStatus 2 (demo_status "kaas-1" false) 2; HClose 1 "kaas-1"]).
  - done.
  - rewrite !Forall_cons, Forall_nil. simpl. done.
Defined.

(** C24. The assignment a recompute publishes covers the whole catalog, whatever the
    heartbeats and the registry say: every partition once, led by a broker that
    has a row of its own and is alive there (or is the controller itself, which
    is never left out), at an epoch that does not fall below the one it had in the
    previous assignment, grows when the row changes, and for a partition that had
    dropped out is not below the manifest its directory under the data directory
    has (a directory in another root of the pool is not looked at,
    [floor_ignores_pool]); every registered broker has exactly one row; and the
    version is the next one. *)
Theorem published_assignment_sound xxh64 dir now r h self topics l file :
  registry_ok r →
  (∀ a pa, loop_current l = Some a → pa ∈ partitions a → 0 ≤ pa_epoch pa < u32_max) →
  ∃ a, update_assignment xxh64 dir now (cluster_sources r h self topics) true l file =
    ({| controller_id := controller_id l; loop_epoch := loop_epoch l; loop_current := Some a;
        version_counter := assignment_version a |}, Some a, Ok (assignment_version a)) ∧
  assignment_version a = version_counter l + 1 ∧ controller_epoch a = loop_epoch l ∧
  row_key <$> partitions a = catalog topics ∧
  NoDup (br_id <$> brokers a) ∧ (∀ b, b ∈ registered_brokers r self → b ∈ br_id <$> brokers a) ∧
  ∀ row, row ∈ partitions a →
    (∃ br, br ∈ brokers a ∧ br_id br = pa_broker row ∧ (health br = Alive ∨ br_id br = self)) ∧
    (row_key row ∉ from_option (fmap row_key ∘ partitions) [] (loop_current l) →
     0 < disk_epoch (dir (pa_topic row) (pa_partition row)) ≤ u32_max →
     disk_epoch (dir (pa_topic row) (pa_partition row)) ≤ pa_epoch row) ∧
    (∀ pa, prev_partitions (partitions <$> loop_current l) !! partition_key (pa_topic row) (pa_partition row) = Some pa →
       row = pa ∨ pa_epoch pa < pa_epoch row).
Proof.
  intros Hr Hep. destruct (cluster_sources_ok r h self topics Hr) as (Hna & Hnr & Hsa & Hsr & Hlive).
  eexists. split; [reflexivity|]. unfold next_assignment. cbn [assignment_version controller_epoch partitions brokers].
  set (src := cluster_sources r h self topics) in *. set (dims := match loop_current l with Some _ => _ | None => _ end).
  assert (s_alive src ≠ []) as Hne by (intros E; rewrite E in Hsa; by apply elem_of_nil in Hsa).
  assert (∀ pa, pa ∈ default [] (partitions <$> loop_current l) → 0 ≤ pa_epoch pa < 4294967295) as Hep'.
  { intros pa. destruct (loop_current l) as [a|]; simpl; [by apply Hep|]. by intros ?%elem_of_nil. }
  destruct (balance_rows xxh64 (partitions <$> loop_current l) (s_alive src) (s_topics src)
    (compute_epoch_floor dir (s_topics src) dims) Hne Hna Hep') as [Hkeys Hrows].
  destruct (broker_entries_spec (s_registered src) (s_alive src) (s_draining src) now (brokers <$> loop_current l) Hnr)
    as (Hnd & Hids & Hhealth).
  split; [done|]. split; [done|]. split; [done|]. split; [done|]. split; [intros b Hb; apply Hids; by left|].
  intros row Hrow. destruct (Hrows row Hrow) as (Hb & Hfl & Hprev). split; [|split; [|done]].
  - assert (pa_broker row ∈ br_id <$> build_broker_entries (s_registered src) (s_alive src) (s_draining src) now (brokers <$> loop_current l))
      as (br & Hbr & Hin)%list_elem_of_fmap by (apply Hids; by right).
    exists br. split; [done|]. split; [done|]. destruct (decide (br_id br = self)) as [|Hns]; [by right|left].
    rewrite (Hhealth br Hin), <- Hbr. case_bool_decide; [|done].
    rewrite (bool_decide_eq_true_2 (pa_broker row ∈ s_alive src)) by done. rewrite bool_decide_eq_false_2; [done|].
    intros (x & Hx & [Hd Hxin]%list_elem_of_filter)%list_elem_of_fmap.
    destruct (Hlive ltac:(intros E; rewrite E in Hxin; by apply elem_of_nil in Hxin) (pa_broker row) Hb) as [?|Hl]; [congruence|].
    apply list_elem_of_lookup in Hxin as [i Hi], Hl as [j Hj].
    pose proof (NoDup_lookup _ i j (pa_broker row) (liveness_NoDup h)) as Hij. rewrite !list_lookup_fmap, Hi, Hj in Hij.
    simpl in Hij. rewrite Hx in Hij. specialize (Hij eq_refl eq_refl). subst j.
    rewrite Hi in Hj. injection Hj as Hj. by subst x.
  - intros Hnew Hdisk. rewrite (epoch_floor_spec dir (s_topics src) dims) in Hfl; [done| | |done].
    + rewrite <- Hkeys. apply list_elem_of_fmap. by exists row.
    + unfold dims. by destruct (loop_current l).
Qed.

Definition demo_topics : list TopicSpec := [{| name := "t"; partition_count := 2 |}].
Definition demo_hearts : HeartbeatServer :=
  foldl heart_step HeartbeatServer_new [HOpen 1 (demo_status "kaas-1" true) 0; HOpen 2 (demo_status "kaas-2" false) 0].
Definition demo_registry : BrokerRegistry :=
  foldl handle_endpoint_event (BrokerRegistry_new demo_self no_dns) [EApply (slice_with "a" ["kaas-1"; "kaas-2"])].
Definition fresh_dir (_ : string) (_ : Z) : Dir :=
  {| files := ∅; manifest_file := None; legacy_epoch := None; checkpoint_file := None; producer_file := None; txn_file := None |}.

(** An unwell broker keeps its row and gets no partition. *)
Lemma published_assignment_sound_witness :
  (br_id <$> default [] (brokers <$> (update_assignment demo_hash fresh_dir "t0"
     (cluster_sources demo_registry demo_hearts "kaas-0" demo_topics) true (AssignmentLoop_new "kaas-0") None).1.2))
  = ["kaas-0"; "kaas-1"; "kaas-2"] ∧
  ∃ a, row_key <$> partitions a = catalog demo_topics ∧ assignment_version a = 1.
Proof.
  split; [vm_compute; reflexivity|].
  destruct (published_assignment_sound demo_hash fresh_dir "t0" demo_registry demo_hearts "kaas-0" demo_topics
    (AssignmentLoop_new "kaas-0") None) as (a & _ & Hv & _ & Hk & _).
  - split; [|split]; try (vm_compute; reflexivity). intros k e Hk.
    assert (Forall (λ p, node_id p.2 = p.1) (map_to_list (endpoints demo_registry))) as Hall.
    { vm_compute. repeat constructor. }
    rewrite Forall_forall in Hall. apply (Hall (k, e)). by apply elem_of_map_to_list.
  - done.
  - exists a. by split.
Defined.

(** A registered broker that stops being alive stays in the count the coordinator
    hash divides by: a transaction (or a group without an entry) whose preferred
    broker is alive in two published assignments with the same registered brokers
    is routed to it by both, whoever else failed or returned. *)
Theorem fenced_broker_keeps_routing registered alive1 alive2 draining1 draining2 now1 now2 prev1 prev2 a1 a2 c1 c2 key b :
  NoDup registered → (∀ x, x ∈ alive1 → x ∈ registered) → (∀ x, x ∈ alive2 → x ∈ registered) →
  brokers a1 = build_broker_entries registered alive1 draining1 now1 prev1 →
  brokers a2 = build_broker_entries registered alive2 draining2 now2 prev2 →
  current c1 = Some a1 → current c2 = Some a2 →
  preferred key registered = Some b → b ∈ alive1 → b ∉ draining1 → b ∈ alive2 → b ∉ draining2 →
  txn_coordinator c1 key = Some b ∧ txn_coordinator c2 key = Some b.
Proof.
  intros Hnd Hs1 Hs2 Hb1 Hb2 Hc1 Hc2 Hp Ha1 Hd1 Ha2 Hd2. unfold txn_coordinator. rewrite Hc1, Hc2.
  assert (∀ alive draining now prev a, (∀ x, x ∈ alive → x ∈ registered) →
    brokers a = build_broker_entries registered alive draining now prev → b ∈ alive → b ∉ draining →
    pick_txn_coordinator key (broker_sets a).1 (broker_sets a).2 = Some b) as Hone.
  { intros alive draining now prev a Hs Hrows Ha Hd. unfold broker_sets, broker_sets_of. rewrite Hrows. simpl.
    destruct (broker_entries_spec registered alive draining now prev Hnd) as (Hn & Hids & Hh).
    set (rows := build_broker_entries registered alive draining now prev) in *.
    assert (registered ≡ₚ br_id <$> rows) as Hperm.
    { apply NoDup_Permutation; [done..|]. intros x. rewrite Hids. naive_solver. }
    assert (is_alive (foldl (λ m b, <[br_id b := bool_decide (health b = Alive)]> m) ∅ rows) b = true) as Hal.
    { assert (b ∈ br_id <$> rows) as (br & -> & Hin)%list_elem_of_fmap by (apply Hids; left; by apply Hs).
      pose proof (Hh br Hin) as Hhe. rewrite (bool_decide_eq_true_2 (_ ∈ registered)), (bool_decide_eq_false_2 (_ ∈ draining)),
        (bool_decide_eq_true_2 (_ ∈ alive)) in Hhe by auto.
      clear Hh Hids Hperm Hrows Ha Hd Hp. clearbody rows.
      induction rows as [|x rows IH] using rev_ind; [by apply elem_of_nil in Hin|].
      rewrite foldl_app. unfold is_alive in *. simpl.
      rewrite fmap_app in Hn. apply NoDup_app in Hn as (Hn & Hx & _).
      apply elem_of_app in Hin as [Hin| ->%list_elem_of_singleton].
      - rewrite lookup_insert_ne; [by apply IH|]. intros Heq. apply (Hx (br_id br)); [by apply list_elem_of_fmap_2|].
        rewrite <- Heq. by left.
      - rewrite lookup_insert_eq. simpl. by apply bool_decide_eq_true_2. }
    unfold pick_txn_coordinator. rewrite <- (pick_perm _ _ _ _ Hperm).
    destruct (pick_unfold key registered (foldl (λ m b, <[br_id b := bool_decide (health b = Alive)]> m) ∅ rows)) as (b' & Hb' & ->).
    { intros ->. by apply Hs, elem_of_nil in Ha. }
    assert (b' = b) as -> by congruence. by rewrite Hal. }
  split; [destruct (broker_sets a1) eqn:E|destruct (broker_sets a2) eqn:E].
  - pose proof (Hone _ _ _ _ _ Hs1 Hb1 Ha1 Hd1) as H. by rewrite E in H.
  - pose proof (Hone _ _ _ _ _ Hs2 Hb2 Ha2 Hd2) as H. by rewrite E in H.
Qed.

Definition three_brokers : list string := ["kaas-0"; "kaas-1"; "kaas-2"].
Definition rows_assignment (rows : list BrokerAssignment) : Assignment :=
  {| controller_epoch := 1; assignment_version := 1; generated_at := "t"; controller := "kaas-0"; brokers := rows;
     partitions := []; consumer_groups := [] |}.
Definition seeing (rows : list BrokerAssignment) : Coordinator :=
  {| self_id := "kaas-0"; current := Some (rows_assignment rows); ownership := ∅; leaders := ∅; last_applied_version := 1 |}.

Lemma fenced_broker_keeps_routing_witness :
  txn_coordinator (seeing (build_broker_entries three_brokers three_brokers [] "t" None)) "tx" = Some "kaas-0" ∧
  txn_coordinator (seeing (build_broker_entries three_brokers ["kaas-0"] [] "u" None)) "tx" = Some "kaas-0".
Proof.
  apply (fenced_broker_keeps_routing three_brokers three_brokers ["kaas-0"] [] [] "t" "u" None None
    (rows_assignment (build_broker_entries three_brokers three_brokers [] "t" None))
    (rows_assignment (build_broker_entries three_brokers ["kaas-0"] [] "u" None))
    (seeing (build_broker_entries three_brokers three_brokers [] "t" None))
    (seeing (build_broker_entries three_brokers ["kaas-0"] [] "u" None)) "tx" "kaas-0").
  - by apply (bool_decide_unpack _); vm_compute.
  - done.
  - intros x ->%list_elem_of_singleton. by apply (bool_decide_unpack _); vm_compute.
  - reflexivity.
  - reflexivity.
  - reflexivity.
  - reflexivity.
  - vm_compute. reflexivity.
  - by apply (bool_decide_unpack _); vm_compute.
  - apply not_elem_of_nil.
  - by left.
  - apply not_elem_of_nil.
Defined.

Record office_inv (o : Office) : Prop := {
  oi_head : on_disk o = head (written o);
  oi_sorted : StronglySorted (λ a b, assignment_version b < assignment_version a) (written o);
  oi_pos : Forall (λ a, 0 < assignment_version a) (written o);
  oi_counter : ∀ l, in_office o = Some l →
    0 ≤ version_counter l ∧ Forall (λ a, assignment_version a ≤ version_counter l) (written o) }.

Lemma office_write o l a v :
  office_inv o → 0 ≤ v → Forall (λ x, assignment_version x ≤ v) (written o) →
  assignment_version a = v + 1 → version_counter l = v + 1 →
  office_inv {| in_office := Some l; on_disk := Some a; written := a :: written o |}.
Proof.
  intros [H1 H2 H3 H4] Hv Hall Ha Hl. split; simpl; [done| | |].
  - constructor; [done|]. eapply Forall_impl; [exact Hall|]. simpl. intros x ?. lia.
  - constructor; [lia|done].
  - intros l' [= <-]. split; [lia|]. constructor; [lia|]. eapply Forall_impl; [exact Hall|]. simpl. intros x ?. lia.
Qed.

Lemma office_step_inv xxh64 dir o e : office_inv o → office_inv (office_step xxh64 dir o e).
Proof.
  intros Hinv. pose proof Hinv as [H1 H2 H3 H4]. destruct e as [id epoch src now ok|src now ok]; simpl.
  - unfold loop_start, update_assignment. rewrite H1. destruct ok.
    + assert (∀ v, v = match head (written o) with Some a => Z.max 0 (assignment_version a) | None => 0 end →
        0 ≤ v ∧ Forall (λ x, assignment_version x ≤ v) (written o)) as Hv.
      { intros v ->. destruct (written o) as [|a w]; simpl; [by split|]. split; [lia|].
        apply StronglySorted_inv in H2 as [_ H2]. constructor; [lia|]. eapply Forall_impl; [exact H2|]. simpl. intros x ?. lia. }
      destruct (Hv _ eq_refl) as [Hv0 Hvall]. eapply office_write; [done|exact Hv0|exact Hvall| |]; by destruct (head (written o)).
    + destruct (head (written o)) as [a|] eqn:Eh; by split; simpl.
  - destruct (in_office o) as [l|] eqn:Eo; [|done]. destruct (H4 l eq_refl) as [Hc0 Hcall].
    unfold update_assignment. destruct ok; [by eapply office_write|].
    rewrite H1. destruct (head (written o)) as [a|] eqn:Eh; split; simpl; try done.
    all: intros l' [= <-]; simpl; split; [lia|]; eapply Forall_impl; [exact Hcall|]; simpl; intros x ?; lia.
Qed.

(** C25. Controllers that follow one another never rewind the assignment file, through
    failed writes, abdications and restarts: every assignment written has a larger
    version than all before it; and a broker that applied any of them, or none,
    and polls a file its lease epoch allows ends with the newest. *)
Theorem assignment_never_rewinds xxh64 dir evs a c lease :
  let o := foldl (office_step xxh64 dir) Office_new evs in
  StronglySorted (λ a b, assignment_version b < assignment_version a) (written o) ∧
  (on_disk o = Some a → lease ≤ controller_epoch a →
   match current c with Some p => p ∈ written o ∧ last_applied_version c = assignment_version p | None => True end →
   current (apply_if_new lease (on_disk o) c).1 = Some a).
Proof.
  intros o. assert (office_inv o) as [H1 H2 H3 H4].
  { unfold o. clear a c lease o. induction evs as [|e evs IH] using rev_ind; [by split; [|constructor| |]|].
    rewrite foldl_app. by apply office_step_inv. }
  split; [done|]. intros Hd Hl Hc. rewrite Hd. simpl. destruct (Z.ltb_spec (controller_epoch a) lease); [lia|].
  rewrite Hd in H1. destruct (written o) as [|a' w]; [done|]. injection H1 as <-.
  destruct (current c) as [p|] eqn:Ec.
  - destruct Hc as [[->|Hp]%elem_of_cons Hv].
    + rewrite Hv, Z.eqb_refl, Z.leb_refl. simpl. exact Ec.
    + apply StronglySorted_inv in H2 as [_ H2]. rewrite Forall_forall in H2. specialize (H2 p Hp). simpl in H2.
      rewrite Hv. destruct (Z.leb_spec (assignment_version a) (assignment_version p)); [lia|]. rewrite andb_false_r.
      by destruct (build_indices _ _).
  - by destruct (build_indices _ _).
Qed.

Lemma assignment_never_rewinds_witness :
  let src := cluster_sources demo_registry demo_hearts "kaas-0" demo_topics in
  let o := foldl (office_step demo_hash fresh_dir) Office_new
    [TakeOffice "kaas-0" 1 src "t0" true; Recompute src "t1" false; Recompute src "t2" true; TakeOffice "kaas-1" 2 src "t3" true] in
  (assignment_version <$> written o) = [4; 3; 1] ∧
  current (apply_if_new 2 (on_disk o) (Coordinator_new "kaas-1")).1 = on_disk o.
Proof.
  intros src o. split; [vm_compute; reflexivity|].
  destruct (on_disk o) as [a|] eqn:E; [|vm_compute in E; discriminate].
  rewrite <- E. rewrite E at 2.
  apply (assignment_never_rewinds demo_hash fresh_dir
    [TakeOffice "kaas-0" 1 src "t0" true; Recompute src "t1" false; Recompute src "t2" true; TakeOffice "kaas-1" 2 src "t3" true]
    a (Coordinator_new "kaas-1") 2).
  - exact E.
  - assert (controller_epoch <$> on_disk o = Some 2) as H by (vm_compute; reflexivity). rewrite E in H. simpl in H.
    injection H as ->. lia.
  - exact I.
Defined.

(** Directories of several roots. *)
Definition volume_dir (dirs : gmap (string * (string * Z)) Dir) (root t : string) (p : Z) : Dir :=
  default (fresh_dir t p) (dirs !! (root, (t, p))).

Definition pool_dirs : gmap (string * (string * Z)) Dir :=
  {[ ("pool", ("t", 0)) := write_unchecked (fresh_dir "t" 0) {| m_epoch := 5; m_high_watermark := 0; m_log_start_offset := 0 |} ]}.

(** The floor is looked for under the data directory only: a partition whose
    directory lies in another root of the pool and that had dropped out of the
    assignment starts over at epoch 1, below the epoch its manifest holds. *)
Theorem floor_ignores_pool :
  disk_epoch (volume_dir pool_dirs "pool" "t" 0) = 5 ∧
  (pa_epoch <$> partitions (next_assignment demo_hash (volume_dir pool_dirs "data") "t0"
     (cluster_sources demo_registry demo_hearts "kaas-0" [{| name := "t"; partition_count := 1 |}])
     (AssignmentLoop_new "kaas-0"))) = [1].
Proof. split; vm_compute; reflexivity. Qed.
