(* ===== verification/TopicCr.v ===== *)
(** * Topic resources: the writer and the reconciler

    [kaas-broker/src/topic_cr_writer.rs] turns admin requests into calls on
    [KafkaTopic] objects; [kaas-operator-controllers/src/kafkatopic_controller.rs]
    materialises an object as directories, a configuration file and an identity
    stamp on the shared volumes.  The API server is the map of objects by name,
    with the schema of [kaas-operator-api/src/kafkatopic.rs]; a call may also fail
    for reasons of its own.  SHA-1 is a parameter.  ArgoCD annotations and the
    texts of error messages are left out, as are status conditions. *)

From stdpp Require Import base gmap strings list pretty.
From Stdlib Require Import Strings.Byte Strings.Ascii.
From S2P Require Import Prelude SegmentDir Recovery OffsetStore Engine.

Local Open Scope Z_scope.

(** ** The resource ([kafkatopic.rs]) *)

Record KafkaTopicConfig := {
  kc_retention_ms : option Z; kc_retention_bytes : option Z; kc_segment_bytes : option Z;
  kc_segment_ms : option Z; kc_cleanup_policy : string; kc_min_compaction_lag_ms : option Z;
  kc_delete_retention_ms : option Z; kc_flush_messages : option Z }.

Definition KafkaTopicConfig_default : KafkaTopicConfig :=
  {| kc_retention_ms := None; kc_retention_bytes := None; kc_segment_bytes := None; kc_segment_ms := None;
     kc_cleanup_policy := ""; kc_min_compaction_lag_ms := None; kc_delete_retention_ms := None;
     kc_flush_messages := None |}.

Record KafkaTopicStorage := { volumes : list string; volume_selector : option (gmap string string) }.

Record KafkaTopicStatus := {
  ks_partition_count : Z; ks_topic_id : string; ks_volume_assignments : gmap string string; ks_outside_spec : Z }.
Definition KafkaTopicStatus_default : KafkaTopicStatus :=
  {| ks_partition_count := 0; ks_topic_id := ""; ks_volume_assignments := ∅; ks_outside_spec := 0 |}.

Record KafkaTopic := {
  kt_deleting : bool; kt_topic_name : string; kt_partitions : Z; kt_config : KafkaTopicConfig;
  kt_storage : option KafkaTopicStorage; kt_status : option KafkaTopicStatus }.

Definition effective_topic_name (meta_name : string) (t : KafkaTopic) : string :=
  if String.eqb (kt_topic_name t) "" then meta_name else kt_topic_name t.

Definition at_least (lo : Z) (o : option Z) : bool := match o with Some v => lo <=? v | None => true end.

(** The ranges of the schema. *)
Definition schema_ok (t : KafkaTopic) : bool :=
  let c := kt_config t in
  (Z.of_nat (String.length (kt_topic_name t)) <=? 249) && (1 <=? kt_partitions t) &&
  at_least (-1) (kc_retention_ms c) && at_least (-1) (kc_retention_bytes c) && at_least 1 (kc_segment_bytes c) &&
  at_least (-1) (kc_segment_ms c) && at_least 0 (kc_min_compaction_lag_ms c) &&
  at_least 0 (kc_delete_retention_ms c) && at_least 0 (kc_flush_messages c) &&
  bool_decide (kc_cleanup_policy c ∈ [""; "delete"; "compact"; "compact,delete"]).

(** ** Configuration keys ([topic_cr_writer.rs]) *)

Inductive ConfigOpKind := OpSet | OpDelete | OpAppend | OpSubtract.
Record ConfigOpWithValue := { co_key : string; co_kind : ConfigOpKind; co_value : option string }.

(** What is wrong with a key or its value. *)
Inductive ConfigFault :=
| UnknownKey (key : string) | BadInteger (key value : string) | BadPolicy (key value : string)
| BadTimestampType (key value : string).

Inductive TopicWriteError :=
| NoSuchTopic (name : string) | Forbidden | UnsupportedOp (k : ConfigOpKind) | InvalidConfig (f : ConfigFault)
| InvalidPartitions (current requested : Z) | AlreadyExists (name : string) | OtherError.

(** A value in a [spec.config] patch. *)
Inductive ConfigJson := CNum (n : Z) | CStr (s : string) | CNull.

Definition key_table : list (string * string) :=
  [("retention.ms", "retentionMs"); ("segment.ms", "segmentMs"); ("retention.bytes", "retentionBytes");
   ("segment.bytes", "segmentBytes"); ("cleanup.policy", "cleanupPolicy");
   ("min.compaction.lag.ms", "minCompactionLagMs"); ("delete.retention.ms", "deleteRetentionMs");
   ("flush.messages", "flushMessages")].

(** Either spelling of a key names its field. *)
Definition config_key_to_json_field (key : string) : option string :=
  snd <$> find (λ e, bool_decide (key = e.1 ∨ key = e.2)) key_table.

Definition config_value_to_json (key value : string) : result TopicWriteError ConfigJson :=
  match config_key_to_json_field key with
  | None => Err (InvalidConfig (UnknownKey key))
  | Some "cleanupPolicy" =>
    if bool_decide (value ∈ ["delete"; "compact"; "compact,delete"]) then Ok (CStr value)
    else Err (InvalidConfig (BadPolicy key value))
  | Some _ =>
    match parse_signed (- i64_max - 1) i64_max value with
    | Some n => Ok (CNum n)
    | None => Err (InvalidConfig (BadInteger key value))
    end
  end.

Definition is_accept_only_key (key : string) : bool :=
  bool_decide (key ∈ ["message.timestamp.type"; "messageTimestampType"]).

Definition validate_accept_only (key value : string) : result TopicWriteError unit :=
  if is_accept_only_key key && negb (String.eqb value "CreateTime")
  then Err (InvalidConfig (BadTimestampType key value)) else Ok tt.

Fixpoint configs_to_spec (out : gmap string ConfigJson) (configs : list (string * string)) :
    result TopicWriteError (gmap string ConfigJson) :=
  match configs with
  | [] => Ok out
  | (key, value) :: configs =>
    if is_accept_only_key key then
      match validate_accept_only key value with Ok _ => configs_to_spec out configs | Err e => Err e end
    else
      match config_key_to_json_field key with
      | None => Err (InvalidConfig (UnknownKey key))
      | Some field =>
        match config_value_to_json key value with
        | Ok v => configs_to_spec (<[field := v]> out) configs
        | Err e => Err e
        end
      end
  end.

Definition create_configs_to_spec (configs : list (string * string)) : result TopicWriteError (gmap string ConfigJson) :=
  configs_to_spec ∅ configs.

(** One operation: the field to patch, if any. *)
Definition op_to_patch (op : ConfigOpWithValue) : result TopicWriteError (option (string * ConfigJson)) :=
  match co_kind op with
  | OpAppend | OpSubtract => Err (UnsupportedOp (co_kind op))
  | OpSet =>
    if is_accept_only_key (co_key op) then
      match co_value op with
      | Some v => match validate_accept_only (co_key op) v with Ok _ => Ok None | Err e => Err e end
      | None => Ok None
      end
    else
      match config_key_to_json_field (co_key op) with
      | None => Err (InvalidConfig (UnknownKey (co_key op)))
      | Some field =>
        match co_value op with
        | None => Ok (Some (field, CNull))
        | Some v => match config_value_to_json (co_key op) v with Ok j => Ok (Some (field, j)) | Err e => Err e end
        end
      end
  | OpDelete =>
    if is_accept_only_key (co_key op) then Ok None
    else
      match config_key_to_json_field (co_key op) with
      | None => Err (InvalidConfig (UnknownKey (co_key op)))
      | Some field => Ok (Some (field, CNull))
      end
  end.

Fixpoint ops_to_patch (out : gmap string ConfigJson) (ops : list ConfigOpWithValue) :
    result TopicWriteError (gmap string ConfigJson) :=
  match ops with
  | [] => Ok out
  | op :: ops =>
    match op_to_patch op with
    | Ok None => ops_to_patch out ops
    | Ok (Some (field, v)) => ops_to_patch (<[field := v]> out) ops
    | Err e => Err e
    end
  end.

Definition ops_to_config_patch (ops : list ConfigOpWithValue) : result TopicWriteError (gmap string ConfigJson) :=
  ops_to_patch ∅ ops.

(** A merge patch on the configuration: [null] removes a field. *)
Definition merge_int (m : gmap string ConfigJson) (field : string) (old : option Z) : option Z :=
  match m !! field with Some (CNum n) => Some n | Some CNull => None | _ => old end.
Definition merge_config (m : gmap string ConfigJson) (c : KafkaTopicConfig) : KafkaTopicConfig :=
  {| kc_retention_ms := merge_int m "retentionMs" (kc_retention_ms c);
     kc_retention_bytes := merge_int m "retentionBytes" (kc_retention_bytes c);
     kc_segment_bytes := merge_int m "segmentBytes" (kc_segment_bytes c);
     kc_segment_ms := merge_int m "segmentMs" (kc_segment_ms c);
     kc_cleanup_policy :=
       match m !! "cleanupPolicy" with Some (CStr s) => s | Some CNull => "" | _ => kc_cleanup_policy c end;
     kc_min_compaction_lag_ms := merge_int m "minCompactionLagMs" (kc_min_compaction_lag_ms c);
     kc_delete_retention_ms := merge_int m "deleteRetentionMs" (kc_delete_retention_ms c);
     kc_flush_messages := merge_int m "flushMessages" (kc_flush_messages c) |}.

(** ** Names of resources *)

Definition lower_or_digit (c : ascii) : bool :=
  let n := N_of_ascii c in ((97 <=? n) && (n <=? 122) || (48 <=? n) && (n <=? 57))%N.

(** [split]: the pieces between the separators. *)
Fixpoint split_str (sep : ascii) (l : list ascii) : list (list ascii) :=
  match l with
  | [] => [[]]
  | c :: l' =>
    if bool_decide (c = sep) then [] :: split_str sep l'
    else match split_str sep l' with p :: ps => (c :: p) :: ps | [] => [[c]] end
  end.

Definition label_ok (l : list ascii) : bool :=
  match head l, last l with
  | Some a, Some z =>
    lower_or_digit a && lower_or_digit z && forallb (λ c, lower_or_digit c || bool_decide (c = "-"%char)) l
  | _, _ => false
  end.

Definition is_rfc1123_subdomain (s : string) : bool :=
  negb (String.eqb s "") && forallb label_ok (split_str "."%char (String.list_ascii_of_string s)).

Definition hex_digit (n : Z) : ascii := ascii_of_N (Z.to_N (if n <? 10 then 48 + n else 87 + n)).
Definition hex_byte (b : byte) : string :=
  String (hex_digit (b2z b / 16)) (String (hex_digit (b2z b mod 16)) "").
Definition hex_of (l : list byte) : string := foldr (λ b s, hex_byte b +:+ s) "" l.

Definition name_for_cr (sha1 : list byte → list byte) (kafka_name : string) : string * string :=
  if (String.length kafka_name <=? 253)%nat && is_rfc1123_subdomain kafka_name then (kafka_name, "")
  else ("kaas-topic-" +:+ hex_of (take 8 (sha1 (as_bytes kafka_name))), kafka_name).

(** ** The writer *)

(** A refusal or a failure of a call that the objects do not explain. *)
Inductive ApiFault := Fault403 | FaultOther.
Definition map_fault (f : ApiFault) : TopicWriteError := match f with Fault403 => Forbidden | FaultOther => OtherError end.

Definition Objects := gmap string KafkaTopic.

Definition with_config (t : KafkaTopic) (c : KafkaTopicConfig) : KafkaTopic :=
  {| kt_deleting := kt_deleting t; kt_topic_name := kt_topic_name t; kt_partitions := kt_partitions t; kt_config := c;
     kt_storage := kt_storage t; kt_status := kt_status t |}.
Definition with_partitions (t : KafkaTopic) (n : Z) : KafkaTopic :=
  {| kt_deleting := kt_deleting t; kt_topic_name := kt_topic_name t; kt_partitions := n; kt_config := kt_config t;
     kt_storage := kt_storage t; kt_status := kt_status t |}.
Definition with_status (t : KafkaTopic) (s : KafkaTopicStatus) : KafkaTopic :=
  {| kt_deleting := kt_deleting t; kt_topic_name := kt_topic_name t; kt_partitions := kt_partitions t;
     kt_config := kt_config t; kt_storage := kt_storage t; kt_status := Some s |}.

Section writer.
Context (sha1 : list byte → list byte).

Definition build_cr (name : string) (num_partitions : Z) (configs : list (string * string)) :
    result TopicWriteError (string * KafkaTopic) :=
  match create_configs_to_spec configs with
  | Err e => Err e
  | Ok m =>
    let '(meta_name, topic_name) := name_for_cr sha1 name in
    Ok (meta_name,
        {| kt_deleting := false; kt_topic_name := topic_name; kt_partitions := num_partitions;
           kt_config := merge_config m KafkaTopicConfig_default; kt_storage := None; kt_status := None |})
  end.

(** An object outside the schema is refused by the API server. *)
Definition create_topic (fault : option ApiFault) (objs : Objects) (name : string) (num_partitions : Z)
    (configs : list (string * string)) : Objects * result TopicWriteError unit :=
  match build_cr name num_partitions configs with
  | Err e => (objs, Err e)
  | Ok (meta_name, cr) =>
    match fault with
    | Some f => (objs, Err (map_fault f))
    | None =>
      if negb (schema_ok cr) then (objs, Err OtherError)
      else
        match objs !! meta_name with
        | Some _ => (objs, Err (AlreadyExists name))
        | None => (<[meta_name := cr]> objs, Ok tt)
        end
    end
  end.

(** A merge patch that the schema still admits. *)
Definition patch_object (fault : option ApiFault) (objs : Objects) (meta_name : string) (f : KafkaTopic → KafkaTopic)
    (missing : TopicWriteError) : Objects * result TopicWriteError unit :=
  match fault with
  | Some e => (objs, Err (map_fault e))
  | None =>
    match objs !! meta_name with
    | None => (objs, Err missing)
    | Some t => if schema_ok (f t) then (<[meta_name := f t]> objs, Ok tt) else (objs, Err OtherError)
    end
  end.

Definition expand_topic (fault_get fault_patch : option ApiFault) (objs : Objects) (name : string) (new_count : Z) :
    Objects * result TopicWriteError unit :=
  let meta_name := (name_for_cr sha1 name).1 in
  match fault_get with
  | Some f => (objs, Err (map_fault f))
  | None =>
    match objs !! meta_name with
    | None => (objs, Err (NoSuchTopic name))
    | Some t =>
      if new_count <? kt_partitions t then (objs, Err (InvalidPartitions (kt_partitions t) new_count))
      else patch_object fault_patch objs meta_name (λ t, with_partitions t new_count) (NoSuchTopic name)
    end
  end.

Definition update_topic_config (fault : option ApiFault) (objs : Objects) (name : string) (ops : list ConfigOpWithValue) :
    Objects * result TopicWriteError unit :=
  match ops_to_config_patch ops with
  | Err e => (objs, Err e)
  | Ok m =>
    patch_object fault objs (name_for_cr sha1 name).1 (λ t, with_config t (merge_config m (kt_config t))) (NoSuchTopic name)
  end.

(** Nothing holds an object back: it is gone at once. *)
Definition delete_topic (fault : option ApiFault) (objs : Objects) (name : string) : Objects * result TopicWriteError unit :=
  let meta_name := (name_for_cr sha1 name).1 in
  match fault with
  | Some f => (objs, Err (map_fault f))
  | None =>
    match objs !! meta_name with
    | None => (objs, Err (NoSuchTopic name))
    | Some _ => (delete meta_name objs, Ok tt)
    end
  end.

Definition set_partition_log_dir (fault : option ApiFault) (objs : Objects) (name : string) (partition : Z) (log_dir : string) :
    Objects * result TopicWriteError unit :=
  patch_object fault objs (name_for_cr sha1 name).1
    (λ t, let s := default KafkaTopicStatus_default (kt_status t) in
          with_status t {| ks_partition_count := ks_partition_count s; ks_topic_id := ks_topic_id s;
                           ks_volume_assignments := <[pretty partition := log_dir]> (ks_volume_assignments s);
                           ks_outside_spec := ks_outside_spec s |}) (NoSuchTopic name).

End writer.

(** ** Placement ([kafkatopic_controller.rs]) *)

Inductive BindingError := Exclusive | NoMatch | UnknownVolume (name : string) | AllCordoned.

Definition pool_find (pool : list LogDirInfo) (name : string) : option LogDirInfo :=
  find (λ d, bool_decide (ld_name d = name)) pool.

Definition selects (sel : gmap string string) (d : LogDirInfo) : bool :=
  forallb (λ kv, bool_decide (labels d !! kv.1 = Some kv.2)) (map_to_list sel).

Definition eligible_log_dirs (pool : list LogDirInfo) (spec : option KafkaTopicStorage) : result BindingError (list string) :=
  let requested := match spec with Some s => volumes s | None => [] end in
  let selector :=
    match spec with
    | Some s => match volume_selector s with Some m => if bool_decide (m = ∅) then None else Some m | None => None end
    | None => None
    end in
  match selector, requested with
  | Some _, _ :: _ => Err Exclusive
  | Some sel, [] =>
    match ld_name <$> filter (λ d, cordoned d = false ∧ selects sel d = true) pool with
    | [] => Err NoMatch
    | matched => Ok matched
    end
  | None, [] => Ok (DEFAULT_LOG_DIR_NAME :: (ld_name <$> filter (λ d, default_eligible d = true ∧ cordoned d = false) pool))
  | None, _ =>
    match find (λ n, negb (String.eqb n DEFAULT_LOG_DIR_NAME || bool_decide (is_Some (pool_find pool n)))) requested with
    | Some n => Err (UnknownVolume n)
    | None =>
      match filter (λ n, from_option cordoned false (pool_find pool n) = false) requested with
      | [] => Err AllCordoned
      | uncordoned => Ok uncordoned
      end
    end
  end.

(** Partitions without a place get one, in turn. *)
Definition extend_assignments (eligible : list string) (count : Z) (old : gmap string string) : gmap string string :=
  foldl (λ m p, match m !! (pretty p : string) with
                | Some _ => m
                | None => <[pretty p := default "" (eligible !! (Z.to_nat p mod length eligible)%nat)]> m
                end) old (seqZ 0 count).

Definition outside_spec (eligible : list string) (count : Z) (m : gmap string string) : Z :=
  Z.of_nat (length (filter (λ p, from_option (λ n, negb (bool_decide (n ∈ eligible))) false (m !! (pretty p : string)) = true) (seqZ 0 count))).

Definition root_of (cfg : EngineConfig) (name : string) : string :=
  if String.eqb name DEFAULT_LOG_DIR_NAME then data_dir cfg
  else match pool_find (extra_log_dirs cfg) name with Some d => ld_path d | None => data_dir cfg end.

(** The data directory and the roots of the assignments, each once. *)
Definition involved_roots (cfg : EngineConfig) (m : gmap string string) : list string :=
  foldl (λ rs n, let r := root_of cfg n in if bool_decide (r ∈ rs) then rs else rs ++ [r]) [data_dir cfg]
    (snd <$> map_to_list m).

(** ** One reconcile *)

(** The shared volumes: partition directories and stamps, and configuration files. *)
Record Shared := { volume : LogVolume; config_files : gmap (string * string) TopicConfigFile }.
Record World := { objects : Objects; shared : Shared }.

(** What a reconcile is about to do, decided from its copy of the object. *)
Record Plan := {
  pl_topic : string; pl_id : string; pl_count : Z; pl_assignments : gmap string string; pl_outside : Z;
  pl_roots : list string; pl_config : TopicConfigFile }.

Definition config_file_of (c : KafkaTopicConfig) : TopicConfigFile :=
  {| tc_retention_ms := kc_retention_ms c; tc_retention_bytes := kc_retention_bytes c;
     tc_segment_bytes := kc_segment_bytes c; tc_segment_ms := kc_segment_ms c; tc_cleanup_policy := kc_cleanup_policy c;
     tc_min_compaction_lag_ms := kc_min_compaction_lag_ms c; tc_delete_retention_ms := kc_delete_retention_ms c;
     tc_flush_messages := kc_flush_messages c |}.

(** [None]: nothing to do, or a condition to report: the object is on its way out,
    has no name, wants fewer partitions, or names volumes that will not do. *)
Definition plan_for (cfg : EngineConfig) (meta_name : string) (t : KafkaTopic) (fresh_id : string) : option Plan :=
  if kt_deleting t then None
  else
    let topic := effective_topic_name meta_name t in
    if String.eqb topic "" then None
    else
      let existing := match kt_status t with Some s => ks_partition_count s | None => 0 end in
      if (0 <? existing) && (kt_partitions t <? existing) then None
      else
        let id := match kt_status t with
                  | Some s => if String.eqb (ks_topic_id s) "" then fresh_id else ks_topic_id s
                  | None => fresh_id
                  end in
        match eligible_log_dirs (extra_log_dirs cfg) (kt_storage t) with
        | Err _ => None
        | Ok eligible =>
          let old := match kt_status t with Some s => ks_volume_assignments s | None => ∅ end in
          let m := extend_assignments eligible (kt_partitions t) old in
          Some {| pl_topic := topic; pl_id := id; pl_count := kt_partitions t; pl_assignments := m;
                  pl_outside := outside_spec eligible (kt_partitions t) m;
                  pl_roots := involved_roots cfg m; pl_config := config_file_of (kt_config t) |}
        end.

(** The verdict on one root; an unreadable stamp is nobody's. *)
Definition root_verdict (v : LogVolume) (root topic id : string) : IdentityVerdict :=
  if String.eqb id "" then Unstamped
  else match classify_identity v root topic id with Ok x => x | Err _ => Unstamped end.

(** The topic's directory renamed aside: everything below it is gone from its path. *)
Definition stage_topic_dir (s : Shared) (root topic : string) : Shared :=
  {| volume := {| dirs := filter (λ e, ¬ (e.1.1 = root ∧ e.1.2.1 = topic)) (dirs (volume s));
                  stamps := delete (root, topic) (stamps (volume s)) |};
     config_files := delete (root, topic) (config_files s) |}.

Definition reclaim_root (topic id : string) (s : Shared) (root : string) : Shared :=
  match root_verdict (volume s) root topic id with Stale => stage_topic_dir s root topic | _ => s end.

(** The last verdict that is not a match. *)
Definition plan_identity (pl : Plan) (v : LogVolume) : IdentityVerdict :=
  foldl (λ acc root, match root_verdict v root (pl_topic pl) (pl_id pl) with Match => acc | x => x end) Match (pl_roots pl).

Definition partition_place (cfg : EngineConfig) (pl : Plan) (p : Z) : string :=
  root_of cfg (default DEFAULT_LOG_DIR_NAME (pl_assignments pl !! (pretty p : string))).

Definition make_dir (cfg : EngineConfig) (pl : Plan) (v : LogVolume) (p : Z) : LogVolume :=
  let k := (partition_place cfg pl p, (pl_topic pl, p)) in
  match dirs v !! k with
  | Some _ => v
  | None => {| dirs := <[k := empty_dir]> (dirs v); stamps := stamps v |}
  end.

Definition write_stamp (id topic : string) (v : LogVolume) (root : string) : LogVolume :=
  {| dirs := dirs v; stamps := <[(root, topic) := Ok id]> (stamps v) |}.

Definition planned_status (pl : Plan) : KafkaTopicStatus :=
  {| ks_partition_count := pl_count pl; ks_topic_id := pl_id pl; ks_volume_assignments := pl_assignments pl;
     ks_outside_spec := pl_outside pl |}.

(** The stages in order; [identity] is known from the first. *)
Definition stage_reclaim (pl : Plan) (w : World) : World :=
  {| objects := objects w; shared := foldl (reclaim_root (pl_topic pl) (pl_id pl)) (shared w) (pl_roots pl) |}.
Definition stage_mkdir (cfg : EngineConfig) (pl : Plan) (w : World) : World :=
  {| objects := objects w;
     shared := {| volume := foldl (make_dir cfg pl) (volume (shared w)) (seqZ 0 (pl_count pl));
                  config_files := config_files (shared w) |} |}.
Definition stage_config (pl : Plan) (w : World) : World :=
  {| objects := objects w;
     shared := {| volume := volume (shared w);
                  config_files := foldl (λ m r, <[(r, pl_topic pl) := pl_config pl]> m) (config_files (shared w)) (pl_roots pl) |} |}.
(** [None]: the object is gone. *)
Definition stage_status (meta_name : string) (pl : Plan) (w : World) : option World :=
  match objects w !! meta_name with
  | None => None
  | Some t => Some {| objects := <[meta_name := with_status t (planned_status pl)]> (objects w); shared := shared w |}
  end.
Definition stage_stamp (pl : Plan) (identity : IdentityVerdict) (w : World) : World :=
  match identity with
  | Match => w
  | _ => {| objects := objects w;
            shared := {| volume := foldl (write_stamp (pl_id pl) (pl_topic pl)) (volume (shared w)) (pl_roots pl);
                         config_files := config_files (shared w) |} |}
  end.

(** The first [n] of the five stages of a plan: an error or a crash ends a
    reconcile between two of them. *)
Definition run_plan (cfg : EngineConfig) (meta_name : string) (pl : Plan) (n : nat) (w : World) : World :=
  let identity := plan_identity pl (volume (shared w)) in
  let w1 := if (1 <=? n)%nat then stage_reclaim pl w else w in
  let w2 := if (2 <=? n)%nat then stage_mkdir cfg pl w1 else w1 in
  let w3 := if (3 <=? n)%nat then stage_config pl w2 else w2 in
  if (4 <=? n)%nat then
    match stage_status meta_name pl w3 with
    | None => w3
    | Some w4 => if (5 <=? n)%nat then stage_stamp pl identity w4 else w4
    end
  else w3.

(** [snapshot]: the copy of the object the reconcile was handed. *)
Definition reconcile_prefix (cfg : EngineConfig) (meta_name : string) (snapshot : KafkaTopic) (fresh_id : string) (n : nat)
    (w : World) : World :=
  match plan_for cfg meta_name snapshot fresh_id with
  | None => w
  | Some pl => run_plan cfg meta_name pl n w
  end.

Definition reconcile (cfg : EngineConfig) (meta_name : string) (snapshot : KafkaTopic) (fresh_id : string) (w : World) : World :=
  reconcile_prefix cfg meta_name snapshot fresh_id 5 w.

(** ** Lemmas *)

Lemma verdict_stamp v v' r topic id :
  stamps v' !! (r, topic) = stamps v !! (r, topic) → root_verdict v' r topic id = root_verdict v r topic id.
Proof. intros H. unfold root_verdict, classify_identity, read_topic_identity. by rewrite H. Qed.

Lemma verdict_stale v r topic id :
  root_verdict v r topic id = Stale → ∃ old, stamps v !! (r, topic) = Some (Ok old) ∧ old ≠ "" ∧ old ≠ id.
Proof.
  unfold root_verdict, classify_identity, read_topic_identity. destruct (String.eqb id ""); [done|].
  destruct (stamps v !! (r, topic)) as [[old|]|]; [|done|done]. simpl.
  destruct (str_is_empty old) eqn:E; simpl; [done|].
  case_bool_decide; [done|]. intros _. exists old. split; [done|]. split; [by intros ->|done].
Qed.

Lemma verdict_match v r topic id : root_verdict v r topic id = Match → stamps v !! (r, topic) = Some (Ok id).
Proof.
  unfold root_verdict, classify_identity, read_topic_identity. destruct (String.eqb id ""); [done|].
  destruct (stamps v !! (r, topic)) as [[old|]|]; [|done|done]. simpl.
  destruct (str_is_empty old); simpl; [done|]. case_bool_decide; [by subst|done].
Qed.

Lemma stage_keeps s root topic r t p :
  r ≠ root ∨ t ≠ topic →
  dirs (volume (stage_topic_dir s root topic)) !! (r, (t, p)) = dirs (volume s) !! (r, (t, p)) ∧
  stamps (volume (stage_topic_dir s root topic)) !! (r, t) = stamps (volume s) !! (r, t).
Proof.
  intros H. simpl. split; [|rewrite lookup_delete_ne; [done|]; intros [= -> ->]; tauto].
  destruct (dirs (volume s) !! (r, (t, p))) as [d|] eqn:E.
  - apply map_lookup_filter_Some_2; [done|]. simpl. tauto.
  - by apply map_lookup_filter_None_2; left.
Qed.

(** Reclaiming leaves what is not of a stale incarnation of the topic. *)
Lemma reclaim_keeps topic id roots : ∀ s r t p,
  (t ≠ topic ∨ root_verdict (volume s) r t id ≠ Stale) →
  let s' := foldl (reclaim_root topic id) s roots in
  dirs (volume s') !! (r, (t, p)) = dirs (volume s) !! (r, (t, p)) ∧
  stamps (volume s') !! (r, t) = stamps (volume s) !! (r, t).
Proof.
  induction roots as [|root roots IH]; intros s r t p H; simpl; [done|].
  assert (r ≠ root ∨ t ≠ topic ∨ root_verdict (volume s) root topic id ≠ Stale) as Hcase.
  { destruct (decide (r = root)) as [->|]; [|by left]. destruct (decide (t = topic)) as [->|]; [|by right; left].
    right. right. by destruct H. }
  unfold reclaim_root at 2 4. destruct (root_verdict (volume s) root topic id) eqn:Ev; try by apply IH.
  assert (r ≠ root ∨ t ≠ topic) as Hne by tauto.
  destruct (stage_keeps s root topic r t p Hne) as [H1 H2].
  destruct (IH (stage_topic_dir s root topic) r t p) as [-> ->]; [|done].
  destruct H as [|H]; [by left|right]. by rewrite (verdict_stamp (volume s)).
Qed.

(** A stale incarnation is gone from every root looked at. *)
Lemma reclaim_removes topic id roots : ∀ s r,
  r ∈ roots → root_verdict (volume s) r topic id = Stale →
  let s' := foldl (reclaim_root topic id) s roots in
  stamps (volume s') !! (r, topic) = None ∧ ∀ p, dirs (volume s') !! (r, (topic, p)) = None.
Proof.
  induction roots as [|root roots IH]; intros s r Hin Hst; [by apply elem_of_nil in Hin|]. simpl.
  destruct (decide (root = r)) as [->|Hne].
  - unfold reclaim_root at 2 4. rewrite Hst. set (s1 := stage_topic_dir s r topic).
    assert (stamps (volume s1) !! (r, topic) = None) as Hs1 by apply lookup_delete_eq.
    assert (root_verdict (volume s1) r topic id ≠ Stale) as Hv by (intros (? & ? & _)%verdict_stale; congruence).
    split.
    + destruct (reclaim_keeps topic id roots s1 r topic 0) as [_ ->]; [by right|done].
    + intros p. destruct (reclaim_keeps topic id roots s1 r topic p) as [-> _]; [by right|].
      unfold s1. simpl. apply map_lookup_filter_None_2. right. intros x _ Hn. apply Hn. done.
  - apply elem_of_cons in Hin as [->|Hin]; [done|]. unfold reclaim_root at 2 4.
    destruct (root_verdict (volume s) root topic id); try by apply IH.
    apply IH; [done|]. rewrite <- Hst. apply verdict_stamp. by apply (stage_keeps s root topic r topic 0); left.
Qed.

Lemma make_dir_keeps cfg pl v p k d : dirs v !! k = Some d → dirs (make_dir cfg pl v p) !! k = Some d.
Proof.
  intros H. unfold make_dir. set (k' := (partition_place _ _ _, _)).
  destruct (dirs v !! k') as [x|] eqn:E; [exact H|]. simpl. rewrite lookup_insert_ne; [exact H|]. intros ->. congruence.
Qed.

Lemma make_dirs_keep cfg pl ps : ∀ v k d, dirs v !! k = Some d → dirs (foldl (make_dir cfg pl) v ps) !! k = Some d.
Proof. induction ps as [|p ps IH]; intros v k d H; simpl; [done|]. by apply IH, make_dir_keeps. Qed.

Lemma make_dirs_stamps cfg pl ps : ∀ v, stamps (foldl (make_dir cfg pl) v ps) = stamps v.
Proof. induction ps as [|p ps IH]; intros v; simpl; [done|]. rewrite IH. unfold make_dir. by case_match. Qed.

Lemma make_dirs_done cfg pl ps : ∀ v p, p ∈ ps →
  dirs (foldl (make_dir cfg pl) v ps) !! (partition_place cfg pl p, (pl_topic pl, p)) =
  Some (default empty_dir (dirs v !! (partition_place cfg pl p, (pl_topic pl, p)))).
Proof.
  induction ps as [|q ps IH]; intros v p Hin; [by apply elem_of_nil in Hin|]. simpl.
  set (k := (partition_place cfg pl p, (pl_topic pl, p))).
  assert (∀ d, dirs v !! k = Some d → dirs (foldl (make_dir cfg pl) (make_dir cfg pl v q) ps) !! k = Some d) as Hkeep.
  { intros d Hd. by apply make_dirs_keep, make_dir_keeps. }
  destruct (dirs v !! k) as [d|] eqn:E; [by apply Hkeep|]. simpl.
  destruct (decide (q = p)) as [->|Hne].
  - apply make_dirs_keep. unfold make_dir. fold k. rewrite E. simpl. apply lookup_insert_eq.
  - apply elem_of_cons in Hin as [->|Hin]; [done|]. unfold k. rewrite (IH _ _ Hin). fold k. unfold make_dir.
    set (k' := (partition_place cfg pl q, _)). destruct (dirs v !! k') as [x|]; [by rewrite E|]. simpl.
    rewrite lookup_insert_ne; [by rewrite E|]. unfold k, k'. congruence.
Qed.

Lemma write_stamps_lookup id topic roots : ∀ v r t,
  stamps (foldl (write_stamp id topic) v roots) !! (r, t) =
    (if decide (r ∈ roots ∧ t = topic) then Some (Ok id) else stamps v !! (r, t)) ∧
  dirs (foldl (write_stamp id topic) v roots) = dirs v.
Proof.
  induction roots as [|root roots IH]; intros v r t; cbn [foldl].
  { split; [|done]. destruct (decide (r ∈ [] ∧ t = topic)) as [[H _]|]; [by apply elem_of_nil in H|done]. }
  destruct (IH (write_stamp id topic v root) r t) as [-> ->]. split; [|done]. cbn [write_stamp stamps].
  destruct (decide (r ∈ roots ∧ t = topic)) as [[Hr Ht]|Hn].
  - rewrite decide_True; [done|]. split; [by right|done].
  - destruct (decide ((root, topic) = (r, t))) as [[= -> ->]|Hne].
    + rewrite lookup_insert_eq, decide_True; [done|]. split; [by left|done].
    + rewrite lookup_insert_ne by done. rewrite decide_False; [done|].
      intros [[->|Hr]%elem_of_cons ->]; [done|]. by apply Hn.
Qed.

(** What any part of a reconcile leaves of the directories. *)
Lemma run_plan_keeps cfg meta pl n w r t p d :
  dirs (volume (shared w)) !! (r, (t, p)) = Some d →
  t ≠ pl_topic pl ∨ root_verdict (volume (shared w)) r t (pl_id pl) ≠ Stale →
  dirs (volume (shared (run_plan cfg meta pl n w))) !! (r, (t, p)) = Some d.
Proof.
  intros Hd Hv. unfold run_plan.
  set (w1 := if (1 <=? n)%nat then stage_reclaim pl w else w).
  set (w2 := if (2 <=? n)%nat then stage_mkdir cfg pl w1 else w1).
  set (w3 := if (3 <=? n)%nat then stage_config pl w2 else w2).
  assert (dirs (volume (shared w1)) !! (r, (t, p)) = Some d) as H1.
  { unfold w1. destruct (1 <=? n)%nat; [|done]. simpl.
    by destruct (reclaim_keeps (pl_topic pl) (pl_id pl) (pl_roots pl) (shared w) r t p Hv) as [-> _]. }
  assert (dirs (volume (shared w2)) !! (r, (t, p)) = Some d) as H2.
  { unfold w2. destruct (2 <=? n)%nat; [|done]. simpl. by apply make_dirs_keep. }
  assert (dirs (volume (shared w3)) !! (r, (t, p)) = Some d) as H3.
  { unfold w3. by destruct (3 <=? n)%nat. }
  destruct (4 <=? n)%nat; [|done]. unfold stage_status. destruct (objects w3 !! meta); [|done].
  destruct (5 <=? n)%nat; [|done]. unfold stage_stamp. destruct (plan_identity _ _); simpl; try done.
  all: by destruct (write_stamps_lookup (pl_id pl) (pl_topic pl) (pl_roots pl) (volume (shared w3)) r t) as [_ ->].
Qed.

Lemma extend_spec eligible count old :
  let m := extend_assignments eligible count old in
  (∀ k n, old !! k = Some n → m !! k = Some n) ∧
  (∀ p, p ∈ seqZ 0 count → is_Some (m !! (pretty p : string))) ∧
  (eligible ≠ [] → ∀ k n, m !! k = Some n → old !! k = Some n ∨ n ∈ eligible).
Proof.
  unfold extend_assignments. induction (seqZ 0 count) as [|q l IH] using rev_ind; simpl.
  { split; [done|]. split; [by intros p ?%elem_of_nil|]. by intros _ k n H; left. }
  rewrite foldl_app. simpl. destruct IH as (H1 & H2 & H3). set (m := foldl _ old l) in *.
  destruct (m !! (pretty q : string)) as [x|] eqn:Eq.
  - split; [done|]. split; [|done]. intros p [Hp| ->%list_elem_of_singleton]%elem_of_app; [by apply H2|]. by rewrite Eq.
  - split; [|split].
    + intros k n Hk. rewrite lookup_insert_ne; [by apply H1|]. intros <-. apply H1 in Hk. congruence.
    + intros p Hp. destruct (decide ((pretty q : string) = pretty p)) as [<-|Hne]; [rewrite lookup_insert_eq; by eexists|].
      rewrite lookup_insert_ne by done. apply H2. apply elem_of_app in Hp as [?| ->%list_elem_of_singleton]; [done|]. by destruct Hne.
    + intros He k n. destruct (decide ((pretty q : string) = k)) as [<-|Hne].
      * rewrite lookup_insert_eq. intros [= <-]. right.
        destruct (lookup_lt_is_Some_2 eligible (Z.to_nat q mod length eligible)) as [y Hy].
        { apply Nat.mod_upper_bound. by destruct eligible. }
        rewrite Hy. simpl. by eapply list_elem_of_lookup_2.
      * rewrite lookup_insert_ne by done. by apply H3.
Qed.

Lemma pool_find_spec pool n d : pool_find pool n = Some d → d ∈ pool ∧ ld_name d = n.
Proof. intros [Hin Hd]%find_some. split; [by apply list_elem_of_In|]. by apply bool_decide_eq_true in Hd. Qed.

(** Eligible volumes exist and are not cordoned. *)
Lemma eligible_spec pool spec eligible n :
  eligible_log_dirs pool spec = Ok eligible → eligible ≠ [] ∧
  (n ∈ eligible → n = DEFAULT_LOG_DIR_NAME ∨ ∃ d, d ∈ pool ∧ ld_name d = n ∧ cordoned d = false).
Proof.
  unfold eligible_log_dirs. set (sel := match spec with Some s => _ | None => _ end).
  set (req := match spec with Some s => volumes s | None => [] end).
  destruct sel as [sel|], req as [|x req]; try done.
  - destruct (ld_name <$> _) as [|y l] eqn:E; [done|]. intros [= <-]. split; [done|]. rewrite <- E.
    intros (d & -> & [[Hc _] Hin]%list_elem_of_filter)%list_elem_of_fmap. right. by exists d.
  - intros [= <-]. split; [done|]. intros [->|(d & -> & [[_ Hc] Hin]%list_elem_of_filter)%list_elem_of_fmap]%elem_of_cons; [by left|].
    right. by exists d.
  - destruct (find _ (x :: req)) as [bad|] eqn:Ef; [done|]. destruct (filter _ (x :: req)) as [|y l] eqn:E; [done|].
    intros [= <-]. split; [done|]. rewrite <- E. intros [Hc Hin]%list_elem_of_filter.
    apply list_elem_of_In in Hin. pose proof (find_none _ _ Ef n Hin) as Hk. simpl in Hk. apply negb_false_iff in Hk.
    apply orb_true_iff in Hk as [->%String.eqb_eq|[d Hd]%bool_decide_eq_true]; [by left|]. right. exists d.
    rewrite Hd in Hc. destruct (pool_find_spec _ _ _ Hd). done.
Qed.

Lemma plan_for_spec cfg meta t fresh pl :
  plan_for cfg meta t fresh = Some pl →
  pl_topic pl = effective_topic_name meta t ∧ pl_count pl = kt_partitions t ∧ pl_config pl = config_file_of (kt_config t) ∧
  pl_id pl = (match kt_status t with Some s => if String.eqb (ks_topic_id s) "" then fresh else ks_topic_id s | None => fresh end) ∧
  pl_roots pl = involved_roots cfg (pl_assignments pl) ∧
  (match kt_status t with Some s => ks_partition_count s | None => 0 end ≤ pl_count pl ∨
   match kt_status t with Some s => ks_partition_count s | None => 0 end ≤ 0) ∧
  ∃ eligible, eligible_log_dirs (extra_log_dirs cfg) (kt_storage t) = Ok eligible ∧
    pl_assignments pl = extend_assignments eligible (kt_partitions t)
      (match kt_status t with Some s => ks_volume_assignments s | None => ∅ end).
Proof.
  unfold plan_for. destruct (kt_deleting t); [done|]. destruct (String.eqb _ ""); [done|].
  set (ex := match kt_status t with Some s => ks_partition_count s | None => 0 end).
  destruct (Z.ltb_spec 0 ex), (Z.ltb_spec (kt_partitions t) ex); simpl; try done.
  all: destruct (eligible_log_dirs _ _) as [eligible|] eqn:E; [|done]; intros [= <-]; simpl;
    (repeat split; try done); [by left + by right; lia|by exists eligible].
Qed.

Lemma involved_spec cfg m :
  data_dir cfg ∈ involved_roots cfg m ∧ ∀ k n, m !! k = Some n → root_of cfg n ∈ involved_roots cfg m.
Proof.
  unfold involved_roots.
  assert (∀ l rs, (∀ x, x ∈ rs → x ∈ foldl (λ rs n, let r := root_of cfg n in if bool_decide (r ∈ rs) then rs else rs ++ [r]) rs l) ∧
    ∀ n, n ∈ l → root_of cfg n ∈ foldl (λ rs n, let r := root_of cfg n in if bool_decide (r ∈ rs) then rs else rs ++ [r]) rs l) as Hl.
  { induction l as [|x l IH]; intros rs; simpl; [split; [done|by intros n ?%elem_of_nil]|].
    set (rs' := if bool_decide (root_of cfg x ∈ rs) then rs else rs ++ [root_of cfg x]).
    assert (∀ y, y ∈ rs → y ∈ rs') as Hsub by (intros y Hy; unfold rs'; case_bool_decide; [done|]; apply elem_of_app; by left).
    assert (root_of cfg x ∈ rs') as Hx.
    { unfold rs'. case_bool_decide; [done|]. apply elem_of_app. right. by apply list_elem_of_singleton. }
    destruct (IH rs') as [Ha Hb]. split; [intros y Hy; by apply Ha, Hsub|].
    intros n [->|Hn]%elem_of_cons; [by apply Ha|by apply Hb]. }
  destruct (Hl (snd <$> map_to_list m) [data_dir cfg]) as [Ha Hb]. split; [by apply Ha; left|].
  intros k n Hk. apply Hb. apply list_elem_of_fmap. exists (k, n). split; [done|]. by apply elem_of_map_to_list.
Qed.

Lemma place_involved cfg meta t fresh pl p :
  plan_for cfg meta t fresh = Some pl → p ∈ seqZ 0 (pl_count pl) → partition_place cfg pl p ∈ pl_roots pl.
Proof.
  intros (_ & Hc & _ & _ & Hr & _ & eligible & _ & Ha)%plan_for_spec Hp. rewrite Hc in Hp.
  destruct (extend_spec eligible (kt_partitions t) (match kt_status t with Some s => ks_volume_assignments s | None => ∅ end))
    as (_ & H2 & _). destruct (H2 p Hp) as [n Hn]. rewrite <- Ha in Hn. unfold partition_place. rewrite Hn. simpl.
  rewrite Hr. by eapply involved_spec.
Qed.

Lemma plan_identity_match pl v :
  plan_identity pl v = Match ↔ ∀ r, r ∈ pl_roots pl → root_verdict v r (pl_topic pl) (pl_id pl) = Match.
Proof.
  unfold plan_identity. induction (pl_roots pl) as [|x l IH] using rev_ind; simpl.
  { split; [by intros _ r ?%elem_of_nil|done]. }
  rewrite foldl_app. simpl. setoid_rewrite elem_of_app. setoid_rewrite list_elem_of_singleton.
  destruct (root_verdict v x (pl_topic pl) (pl_id pl)) eqn:Ex.
  - split; [done|]. intros H. rewrite <- (H x), Ex by by right. done.
  - rewrite IH. split; [intros H r [?| ->]; auto|intros H r Hr; apply H; by left].
  - split; [done|]. intros H. rewrite <- (H x), Ex by by right. done.
Qed.

(** ** Theorems *)

(** A reconcile touches no directory but those of a previous incarnation: however
    far it gets, a partition directory of another topic, or one on a root whose
    stamp is missing, unreadable or this incarnation's, is there afterwards,
    unchanged. *)
Theorem reconcile_keeps_live cfg meta t fresh pl n w r tp p d :
  plan_for cfg meta t fresh = Some pl →
  dirs (volume (shared w)) !! (r, (tp, p)) = Some d →
  (tp ≠ pl_topic pl ∨ ∀ old, stamps (volume (shared w)) !! (r, tp) = Some (Ok old) → old = "" ∨ old = pl_id pl) →
  dirs (volume (shared (reconcile_prefix cfg meta t fresh n w))) !! (r, (tp, p)) = Some d.
Proof.
  intros Hp Hd Hst. unfold reconcile_prefix. rewrite Hp. apply run_plan_keeps; [done|].
  destruct Hst as [|Hst]; [by left|right]. intros (old & Hs & H1 & H2)%verdict_stale. destruct (Hst old Hs); congruence.
Qed.

Lemma reconcile_result cfg meta t fresh pl w t0 :
  plan_for cfg meta t fresh = Some pl → objects w !! meta = Some t0 →
  let w' := reconcile cfg meta t fresh w in
  objects w' !! meta = Some (with_status t0 (planned_status pl)) ∧
  (∀ p, p ∈ seqZ 0 (kt_partitions t) →
     partition_place cfg pl p ∈ pl_roots pl ∧
     ∃ d, dirs (volume (shared w')) !! (partition_place cfg pl p, (pl_topic pl, p)) = Some d ∧
       (root_verdict (volume (shared w)) (partition_place cfg pl p) (pl_topic pl) (pl_id pl) = Stale → d = empty_dir)) ∧
  (∀ r, r ∈ pl_roots pl →
     stamps (volume (shared w')) !! (r, pl_topic pl) = Some (Ok (pl_id pl)) ∧
     config_files (shared w') !! (r, pl_topic pl) = Some (config_file_of (kt_config t))).
Proof.
  intros Hp H0. pose proof (plan_for_spec _ _ _ _ _ Hp) as (_ & Hc & Hcf & _).
  unfold reconcile, reconcile_prefix. rewrite Hp.
  set (s1 := foldl (reclaim_root (pl_topic pl) (pl_id pl)) (shared w) (pl_roots pl)).
  set (v2 := foldl (make_dir cfg pl) (volume s1) (seqZ 0 (pl_count pl))).
  set (cf := foldl (λ m r, <[(r, pl_topic pl) := pl_config pl]> m) (config_files s1) (pl_roots pl)).
  assert (run_plan cfg meta pl 5 w = stage_stamp pl (plan_identity pl (volume (shared w)))
    {| objects := <[meta := with_status t0 (planned_status pl)]> (objects w); shared := {| volume := v2; config_files := cf |} |}) as ->.
  { change (run_plan cfg meta pl 5 w) with
      (match stage_status meta pl {| objects := objects w; shared := {| volume := v2; config_files := cf |} |} with
       | None => {| objects := objects w; shared := {| volume := v2; config_files := cf |} |}
       | Some w4 => stage_stamp pl (plan_identity pl (volume (shared w))) w4
       end). unfold stage_status. simpl. by rewrite H0. }
  assert (∀ r, r ∈ pl_roots pl → cf !! (r, pl_topic pl) = Some (config_file_of (kt_config t))) as Hcfg.
  { unfold cf. rewrite <- Hcf. generalize (config_files s1). induction (pl_roots pl) as [|x l IH] using rev_ind; intros m r Hr.
    { by apply elem_of_nil in Hr. }
    rewrite foldl_app. simpl. destruct (decide (x = r)) as [->|Hne]; [apply lookup_insert_eq|].
    rewrite lookup_insert_ne by congruence. apply IH. apply elem_of_app in Hr as [?|?%list_elem_of_singleton]; congruence. }
  assert (∀ p, p ∈ seqZ 0 (kt_partitions t) → ∃ d, dirs v2 !! (partition_place cfg pl p, (pl_topic pl, p)) = Some d ∧
    (root_verdict (volume (shared w)) (partition_place cfg pl p) (pl_topic pl) (pl_id pl) = Stale → d = empty_dir)) as Hdir.
  { intros p Hpin. rewrite <- Hc in Hpin. unfold v2. rewrite (make_dirs_done cfg pl _ _ p Hpin). eexists. split; [done|].
    intros Hst. destruct (reclaim_removes (pl_topic pl) (pl_id pl) (pl_roots pl) (shared w) _
      (place_involved _ _ _ _ _ _ Hp Hpin) Hst) as [_ Hno]. fold s1 in Hno. by rewrite Hno. }
  assert (∀ p, p ∈ seqZ 0 (kt_partitions t) → partition_place cfg pl p ∈ pl_roots pl) as Hpl.
  { intros p Hpin. rewrite <- Hc in Hpin. by eapply place_involved. }
  destruct (plan_identity pl (volume (shared w))) eqn:Ei; cbn [stage_stamp objects shared volume config_files];
    (split; [apply lookup_insert_eq|]).
  2:{ split; [intros p Hpin; split; auto|]. intros r Hr. split; [|by apply Hcfg].
      pose proof (proj1 (plan_identity_match pl (volume (shared w))) Ei r Hr) as Hm.
      unfold v2. rewrite make_dirs_stamps.
      destruct (reclaim_keeps (pl_topic pl) (pl_id pl) (pl_roots pl) (shared w) r (pl_topic pl) 0) as [_ Hs]; [right; congruence|].
      fold s1 in Hs. rewrite Hs. by apply verdict_match. }
  all: split; [intros p Hpin; split; [by apply Hpl|]|].
  all: try (destruct (write_stamps_lookup (pl_id pl) (pl_topic pl) (pl_roots pl) v2 "" "") as [_ ->]; by apply Hdir).
  all: intros r Hr; split; [|by apply Hcfg];
    destruct (write_stamps_lookup (pl_id pl) (pl_topic pl) (pl_roots pl) v2 r (pl_topic pl)) as [-> _];
    by rewrite decide_True.
Qed.

(** Reconciling makes no directory but empty ones. *)
Lemma reclaim_origin topic id roots : ∀ s k d,
  dirs (volume (foldl (reclaim_root topic id) s roots)) !! k = Some d → dirs (volume s) !! k = Some d.
Proof.
  induction roots as [|r roots IH]; intros s k d Hl; [done|]. apply IH in Hl. unfold reclaim_root in Hl.
  case_match; [done..|]. simpl in Hl. by apply map_lookup_filter_Some in Hl as [Hl _].
Qed.

Lemma make_dirs_origin cfg pl ps : ∀ v k d,
  dirs (foldl (make_dir cfg pl) v ps) !! k = Some d → d = empty_dir ∨ dirs v !! k = Some d.
Proof.
  induction ps as [|p ps IH]; intros v k d Hl; [by right|]. destruct (IH _ _ _ Hl) as [|Hm]; [by left|].
  unfold make_dir in Hm. destruct (dirs v !! _) eqn:E; [by right|]. simpl in Hm. apply lookup_insert_Some in Hm as [[_ <-]|[_ Hm]]; auto.
Qed.

Lemma write_stamps_dirs id topic roots : ∀ v, dirs (foldl (write_stamp id topic) v roots) = dirs v.
Proof. induction roots as [|r roots IH]; intros v; [done|]. simpl. by rewrite IH. Qed.

Lemma reconcile_origin cfg meta t fresh w k d :
  dirs (volume (shared (reconcile cfg meta t fresh w))) !! k = Some d →
  d = empty_dir ∨ dirs (volume (shared w)) !! k = Some d.
Proof.
  unfold reconcile, reconcile_prefix. destruct (plan_for cfg meta t fresh) as [pl|]; [|by right]. simpl.
  assert (∀ v, dirs (foldl (make_dir cfg pl) (volume (foldl (reclaim_root (pl_topic pl) (pl_id pl)) (shared w) (pl_roots pl)))
      (seqZ 0 (pl_count pl))) !! k = Some d → v = dirs (volume (shared w)) → d = empty_dir ∨ v !! k = Some d) as H.
  { intros v [|Hl%reclaim_origin]%make_dirs_origin ->; auto. }
  unfold run_plan, stage_status. simpl. destruct (objects w !! meta); simpl; [|intros Hl; exact (H _ Hl eq_refl)].
  destruct (plan_identity pl (volume (shared w))); simpl; rewrite ?write_stamps_dirs; intros Hl; exact (H _ Hl eq_refl).
Qed.

(** A reconcile that completes leaves the topic ready: every partition has its
    directory where the object's status says, an empty one where a previous
    incarnation had left its own; every root involved carries this incarnation's
    stamp and the object's configuration; and the status records the partition
    count, the identity and the placement. *)
Theorem reconcile_prepares_topic cfg meta t fresh pl w t0 :
  plan_for cfg meta t fresh = Some pl → objects w !! meta = Some t0 →
  let w' := reconcile cfg meta t fresh w in
  objects w' !! meta = Some (with_status t0 (planned_status pl)) ∧
  (∀ p, p ∈ seqZ 0 (kt_partitions t) →
     partition_place cfg pl p ∈ pl_roots pl ∧
     ∃ d, dirs (volume (shared w')) !! (partition_place cfg pl p, (pl_topic pl, p)) = Some d ∧
       (root_verdict (volume (shared w)) (partition_place cfg pl p) (pl_topic pl) (pl_id pl) = Stale → d = empty_dir)) ∧
  (∀ r, r ∈ pl_roots pl →
     stamps (volume (shared w')) !! (r, pl_topic pl) = Some (Ok (pl_id pl)) ∧
     config_files (shared w') !! (r, pl_topic pl) = Some (config_file_of (kt_config t))).
Proof. apply reconcile_result. Qed.

(** Placement is sticky: a partition keeps the log directory its status names, a
    new one gets the data directory or a pool member that exists and is not
    cordoned, and the partition count never goes down. *)
Theorem placement_sticky cfg meta t fresh pl :
  plan_for cfg meta t fresh = Some pl →
  let old := match kt_status t with Some s => ks_volume_assignments s | None => ∅ end in
  (∀ k n, old !! k = Some n → pl_assignments pl !! k = Some n) ∧
  (∀ p, p ∈ seqZ 0 (kt_partitions t) → ∃ n, pl_assignments pl !! (pretty p : string) = Some n ∧
     (old !! (pretty p : string) = None →
      n = DEFAULT_LOG_DIR_NAME ∨ ∃ d, d ∈ extra_log_dirs cfg ∧ ld_name d = n ∧ cordoned d = false)) ∧
  match kt_status t with Some s => ks_partition_count s ≤ Z.max 0 (kt_partitions t) | None => True end.
Proof.
  intros (_ & Hc & _ & _ & _ & Hcount & eligible & He & Ha)%plan_for_spec old.
  destruct (extend_spec eligible (kt_partitions t) old) as (H1 & H2 & H3). fold old in Ha. rewrite <- Ha in H1, H2, H3.
  split; [done|]. split.
  - intros p Hp. destruct (H2 p Hp) as [n Hn]. exists n. split; [done|]. intros Hold.
    destruct (eligible_spec _ _ _ n He) as [Hne Hel]. apply Hel. destruct (H3 Hne _ _ Hn); [congruence|done].
  - destruct (kt_status t); [|done]. lia.
Qed.

(** ** A topic's life *)

(** Attempts to reconcile, each possibly cut short and with an identity of its own
    to hand, what brokers write meanwhile, and edits of the object. *)
Inductive TopicEv := TAttempt (n : nat) (fresh : string) | TWrite (root : string) (p : Z) (d : Dir) | TEdit (t : KafkaTopic).

Definition put_dir (w : World) (root topic : string) (p : Z) (d : Dir) : World :=
  {| objects := objects w;
     shared := {| volume := {| dirs := <[(root, (topic, p)) := d]> (dirs (volume (shared w))); stamps := stamps (volume (shared w)) |};
                  config_files := config_files (shared w) |} |}.

Definition topic_step (cfg : EngineConfig) (meta topic : string) (w : World) (e : TopicEv) : World :=
  match e with
  | TAttempt n fresh =>
    match objects w !! meta with Some t => reconcile_prefix cfg meta t fresh n w | None => w end
  | TWrite root p d => put_dir w root topic p d
  | TEdit t => {| objects := <[meta := t]> (objects w); shared := shared w |}
  end.

Definition status_id (t : KafkaTopic) : string := from_option ks_topic_id "" (kt_status t).

(** The object keeps its name and, once it has one, its identity. *)
Definition edit_ok (meta : string) (w : World) (e : TopicEv) : Prop :=
  match e with
  | TAttempt _ fresh => fresh ≠ ""
  | TWrite _ _ _ => True
  | TEdit t => ∃ t0, objects w !! meta = Some t0 ∧ effective_topic_name meta t = effective_topic_name meta t0 ∧
                     status_id t = status_id t0
  end.

Fixpoint life_ok (cfg : EngineConfig) (meta topic : string) (w : World) (evs : list TopicEv) : Prop :=
  match evs with
  | [] => True
  | e :: evs => edit_ok meta w e ∧ life_ok cfg meta topic (topic_step cfg meta topic w e) evs
  end.

(** Whatever is stamped is stamped with the identity the status holds. *)
Definition stamped_right (meta topic : string) (w : World) : Prop :=
  ∃ t, objects w !! meta = Some t ∧ effective_topic_name meta t = topic ∧
    ∀ r old, stamps (volume (shared w)) !! (r, topic) = Some (Ok old) → old = "" ∨ old = status_id t.

Lemma run_plan_stamps cfg meta pl n w t0 :
  objects w !! meta = Some t0 →
  (∀ r, root_verdict (volume (shared w)) r (pl_topic pl) (pl_id pl) ≠ Stale) →
  let w' := run_plan cfg meta pl n w in
  objects w' !! meta = Some (if (4 <=? n)%nat then with_status t0 (planned_status pl) else t0) ∧
  ∀ r, stamps (volume (shared w')) !! (r, pl_topic pl) = stamps (volume (shared w)) !! (r, pl_topic pl) ∨
       (4 <=? n)%nat = true ∧ stamps (volume (shared w')) !! (r, pl_topic pl) = Some (Ok (pl_id pl)).
Proof.
  intros H0 Hns. unfold run_plan.
  set (w1 := if (1 <=? n)%nat then stage_reclaim pl w else w).
  set (w2 := if (2 <=? n)%nat then stage_mkdir cfg pl w1 else w1).
  set (w3 := if (3 <=? n)%nat then stage_config pl w2 else w2).
  assert (objects w3 !! meta = Some t0 ∧ ∀ r, stamps (volume (shared w3)) !! (r, pl_topic pl) = stamps (volume (shared w)) !! (r, pl_topic pl))
    as [Ho3 Hs3].
  { assert (∀ r, stamps (volume (shared w1)) !! (r, pl_topic pl) = stamps (volume (shared w)) !! (r, pl_topic pl)) as Hs1.
    { intros r. unfold w1. destruct (1 <=? n)%nat; [|done]. simpl. apply (reclaim_keeps _ _ _ _ _ _ 0). by right. }
    split.
    - unfold w3, w2, w1. by destruct (3 <=? n)%nat, (2 <=? n)%nat, (1 <=? n)%nat.
    - intros r. rewrite <- Hs1. unfold w3, w2.
      destruct (3 <=? n)%nat, (2 <=? n)%nat; simpl; by rewrite ?make_dirs_stamps. }
  destruct (4 <=? n)%nat; [|by split; [|left]]. unfold stage_status. rewrite Ho3.
  destruct (5 <=? n)%nat.
  - unfold stage_stamp. destruct (plan_identity pl (volume (shared w))); simpl; (split; [apply lookup_insert_eq|]); intros r.
    2:{ left. apply Hs3. }
    all: destruct (write_stamps_lookup (pl_id pl) (pl_topic pl) (pl_roots pl) (volume (shared w3)) r (pl_topic pl)) as [-> _];
      (case_decide; [by right|left; apply Hs3]).
  - split; [apply lookup_insert_eq|]. intros r. left. apply Hs3.
Qed.

Lemma no_stale meta topic w t pl cfg fresh :
  objects w !! meta = Some t → fresh ≠ "" → plan_for cfg meta t fresh = Some pl → effective_topic_name meta t = topic →
  (∀ r old, stamps (volume (shared w)) !! (r, topic) = Some (Ok old) → old = "" ∨ old = status_id t) →
  pl_topic pl = topic ∧ (status_id t ≠ "" → pl_id pl = status_id t) ∧ pl_id pl ≠ "" ∧
  ∀ r, root_verdict (volume (shared w)) r topic (pl_id pl) ≠ Stale.
Proof.
  intros Ho Hf (Ht & _ & _ & Hid & _)%plan_for_spec He Hs.
  assert (status_id t ≠ "" → pl_id pl = status_id t) as Heq.
  { unfold status_id in *. destruct (kt_status t) as [s|]; [|done]. simpl. intros Hne. rewrite Hid.
    by rewrite (proj2 (String.eqb_neq _ _) Hne). }
  split; [congruence|]. split; [done|]. split.
  - rewrite Hid. destruct (kt_status t) as [s|]; [|done]. destruct (String.eqb_spec (ks_topic_id s) ""); done.
  - intros r (old & Ho' & H1 & H2)%verdict_stale. destruct (Hs r old Ho') as [?| ->]; [done|]. by rewrite Heq in H2.
Qed.

Lemma topic_step_inv cfg meta topic w e :
  stamped_right meta topic w → edit_ok meta w e → stamped_right meta topic (topic_step cfg meta topic w e).
Proof.
  intros (t & Ho & He & Hs) Hok. destruct e as [n fresh|root p d|t']; simpl.
  - rewrite Ho. unfold reconcile_prefix. destruct (plan_for cfg meta t fresh) as [pl|] eqn:Ep; [|by exists t].
    destruct (no_stale _ _ _ _ _ _ _ Ho Hok Ep He Hs) as (Htp & Hid & Hne & Hns). subst topic. rewrite <- Htp in *.
    destruct (run_plan_stamps cfg meta pl n w t Ho Hns) as [Ho' Hs']. eexists. split; [exact Ho'|].
    split; [by destruct (4 <=? n)%nat|]. intros r old Hr. destruct (Hs' r) as [Heq|[Hn Heq]].
    + rewrite Heq in Hr. destruct (Hs r old Hr) as [?| ->]; [by left|]. destruct (decide (status_id t = "")) as [|Hid']; [by left|].
      right. destruct (4 <=? n)%nat; [|done]. unfold status_id at 2. simpl. symmetry. by apply Hid.
    + rewrite Heq in Hr. injection Hr as <-. right. by rewrite Hn.
  - by exists t.
  - destruct Hok as (t0 & Ho0 & Hn & Hid). assert (t0 = t) as -> by congruence. exists t'.
    split; [apply lookup_insert_eq|]. split; [congruence|]. rewrite Hid. exact Hs.
Qed.

Lemma topic_step_keeps cfg meta topic w e r p d :
  stamped_right meta topic w → edit_ok meta w e → dirs (volume (shared w)) !! (r, (topic, p)) = Some d →
  match e with TWrite r' p' _ => (r', p') ≠ (r, p) | _ => True end →
  dirs (volume (shared (topic_step cfg meta topic w e))) !! (r, (topic, p)) = Some d.
Proof.
  intros (t & Ho & He & Hs) Hok Hd Hw. destruct e as [n fresh|root p' d'|t']; simpl.
  - rewrite Ho. unfold reconcile_prefix. destruct (plan_for cfg meta t fresh) as [pl|] eqn:Ep; [|done].
    destruct (no_stale _ _ _ _ _ _ _ Ho Hok Ep He Hs) as (Htp & _ & _ & Hns). apply run_plan_keeps; [done|]. by right.
  - rewrite lookup_insert_ne; [done|]. congruence.
  - done.
Qed.

(** A live topic is never reclaimed, however often its reconcile fails: from an
    object whose directories carry no stamp but its own, in every sequence of
    attempts (each cut short anywhere, each with a fresh identity to hand if the
    status has none), edits and writes, what a broker wrote last to a partition
    directory is still there. *)
Theorem retries_never_reclaim cfg meta topic w evs root p d evs' :
  stamped_right meta topic w → life_ok cfg meta topic w (evs ++ TWrite root p d :: evs') →
  Forall (λ e, match e with TWrite r' p' _ => (r', p') ≠ (root, p) | _ => True end) evs' →
  dirs (volume (shared (foldl (topic_step cfg meta topic) w (evs ++ TWrite root p d :: evs')))) !! (root, (topic, p)) = Some d.
Proof.
  intros Hinv Hok Hf. rewrite foldl_app. simpl.
  assert (stamped_right meta topic (foldl (topic_step cfg meta topic) w evs) ∧
          life_ok cfg meta topic (foldl (topic_step cfg meta topic) w evs) (TWrite root p d :: evs')) as [Hi [_ Hl]].
  { revert w Hinv Hok. induction evs as [|e evs IH]; intros w Hinv Hok; [done|]. destruct Hok as [He Hok].
    apply IH; [by apply topic_step_inv|done]. }
  assert (stamped_right meta topic (put_dir (foldl (topic_step cfg meta topic) w evs) root topic p d)) as Hi'.
  { by apply (topic_step_inv cfg _ _ _ (TWrite root p d)). }
  simpl in Hl. assert (dirs (volume (shared (put_dir (foldl (topic_step cfg meta topic) w evs) root topic p d))) !! (root, (topic, p)) = Some d)
    as Hd by apply lookup_insert_eq.
  revert Hi' Hl Hd. generalize (put_dir (foldl (topic_step cfg meta topic) w evs) root topic p d). clear Hi Hok Hinv w.
  induction Hf as [|e evs' He Hf IH]; intros w Hi Hl Hd; simpl; [done|]. destruct Hl as [Hok Hl].
  apply IH; [by apply topic_step_inv|done|by apply topic_step_keeps].
Qed.

(** ** Small topics *)

Definition two_volumes : EngineConfig :=
  with_extra_log_dirs "/data"
    [{| ld_name := "fast"; ld_path := "/fast"; default_eligible := true; cordoned := false; labels := ∅ |}].
Definition orders : KafkaTopic :=
  {| kt_deleting := false; kt_topic_name := ""; kt_partitions := 2; kt_config := KafkaTopicConfig_default;
     kt_storage := None; kt_status := None |}.
Definition marked_dir (n : Z) : Dir :=
  write_unchecked empty_dir {| m_epoch := n; m_high_watermark := 0; m_log_start_offset := 0 |}.
Definition bare_world : World :=
  {| objects := {[ "orders" := orders ]};
     shared := {| volume := {| dirs := {[ ("/data", ("orders", 0)) := marked_dir 1 ]}; stamps := ∅ |}; config_files := ∅ |} |}.
(** The directory of an incarnation that is gone. *)
Definition leftover_world : World :=
  {| objects := {[ "orders" := orders ]};
     shared := {| volume := {| dirs := {[ ("/data", ("orders", 0)) := marked_dir 1 ]}; stamps := {[ ("/data", "orders") := Ok "id-0" ]} |};
                  config_files := ∅ |} |}.
Definition orders_plan (id : string) : Plan :=
  {| pl_topic := "orders"; pl_id := id; pl_count := 2; pl_assignments := {[ "0" := "default"; "1" := "fast" ]};
     pl_outside := 0; pl_roots := ["/data"; "/fast"]; pl_config := config_file_of KafkaTopicConfig_default |}.

Lemma orders_planned id : plan_for two_volumes "orders" orders id = Some (orders_plan id).
Proof. vm_compute. reflexivity. Qed.

Lemma reconcile_keeps_live_witness :
  dirs (volume (shared (reconcile_prefix two_volumes "orders" orders "id-1" 3 bare_world))) !! ("/data", ("orders", 0)) = Some (marked_dir 1).
Proof.
  apply (reconcile_keeps_live two_volumes "orders" orders "id-1" (orders_plan "id-1") 3 bare_world "/data" "orders" 0 (marked_dir 1)).
  - exact (orders_planned "id-1").
  - vm_compute. reflexivity.
  - right. intros old H. vm_compute in H. discriminate.
Defined.

Lemma reconcile_prepares_topic_witness :
  let w' := reconcile two_volumes "orders" orders "id-1" leftover_world in
  dirs (volume (shared w')) !! ("/data", ("orders", 0)) = Some empty_dir ∧
  stamps (volume (shared w')) !! ("/fast", "orders") = Some (Ok "id-1").
Proof.
  destruct (reconcile_prepares_topic two_volumes "orders" orders "id-1" (orders_plan "id-1") leftover_world orders) as (_ & Hd & Hs).
  - exact (orders_planned "id-1").
  - reflexivity.
  - split.
    + destruct (Hd 0) as (_ & d & H1 & H2); [by apply elem_of_seqZ; simpl|]. rewrite <- H2 by (vm_compute; reflexivity). exact H1.
    + apply Hs. simpl. right. left.
Defined.

Lemma placement_sticky_witness :
  ∃ n, pl_assignments (orders_plan "id-1") !! (pretty 1 : string) = Some n ∧
    (n = DEFAULT_LOG_DIR_NAME ∨ ∃ d, d ∈ extra_log_dirs two_volumes ∧ ld_name d = n ∧ cordoned d = false).
Proof.
  destruct (placement_sticky two_volumes "orders" orders "id-1" (orders_plan "id-1")) as (_ & H & _).
  - exact (orders_planned "id-1").
  - destruct (H 1) as (n & Hn & Hel); [by apply elem_of_seqZ; simpl|]. exists n. split; [exact Hn|]. apply Hel. reflexivity.
Defined.

(** Two attempts that fail before the status is written, with different
    identities, and one that completes. *)
Definition hard_life : list TopicEv := [TAttempt 3 "id-1"; TWrite "/data" 0 (marked_dir 7); TAttempt 3 "id-2"; TAttempt 5 "id-3"; TAttempt 5 "id-4"].

Lemma retries_never_reclaim_witness :
  dirs (volume (shared (foldl (topic_step two_volumes "orders" "orders") bare_world hard_life))) !! ("/data", ("orders", 0)) = Some (marked_dir 7).
Proof.
  apply (retries_never_reclaim two_volumes "orders" "orders" bare_world [TAttempt 3 "id-1"] "/data" 0 (marked_dir 7)
    [TAttempt 3 "id-2"; TAttempt 5 "id-3"; TAttempt 5 "id-4"]).
  - exists orders. split; [vm_compute; reflexivity|]. split; [vm_compute; reflexivity|]. intros r old H. vm_compute in H. discriminate.
  - simpl. split; [done|]. split; [done|]. split; [done|]. split; [done|]. split; [done|exact I].
  - rewrite !Forall_cons, Forall_nil. done.
Defined.

Definition placed_orders (id : string) : KafkaTopic :=
  with_status orders {| ks_partition_count := 2; ks_topic_id := id;
                        ks_volume_assignments := {[ "0" := "default"; "1" := "fast" ]}; ks_outside_spec := 0 |}.

(** A reconcile writes the whole status from the copy it started with.  When a
    broker records the move of a partition in between, the status goes back to the
    old log directory; and when the topic is deleted and created again in between,
    the new object receives the identity of the old one, so that the next
    reconcile takes the old directories for its own. *)
Theorem stale_copy_overwrites_status :
  (let moved := (set_partition_log_dir (λ l, l) None {[ "orders" := placed_orders "id-0" ]} "orders" 0 "fast").1 in
   (kt_status <$> moved !! "orders") ≫= (fmap (λ s, ks_volume_assignments s !! "0")) = Some (Some "fast") ∧
   let w := reconcile two_volumes "orders" (placed_orders "id-0") "x" {| objects := moved; shared := shared leftover_world |} in
   (kt_status <$> objects w !! "orders") ≫= (fmap (λ s, ks_volume_assignments s !! "0")) = Some (Some "default")) ∧
  (let w := reconcile two_volumes "orders" (placed_orders "id-0") "x" leftover_world in
   (status_id <$> objects w !! "orders") = Some "id-0" ∧
   let w := reconcile two_volumes "orders" (default orders (objects w !! "orders")) "id-1" w in
   dirs (volume (shared w)) !! ("/data", ("orders", 0)) = Some (marked_dir 1)).
Proof. repeat split; vm_compute; reflexivity. Qed.

(** A created object is found again under the name it was created for. *)
Lemma build_cr_named sha1 name n configs meta cr :
  name ≠ "" → build_cr sha1 name n configs = Ok (meta, cr) → effective_topic_name meta cr = name ∧ meta = (name_for_cr sha1 name).1.
Proof.
  intros Hne. unfold build_cr. destruct (create_configs_to_spec configs); [|done]. unfold name_for_cr.
  destruct (_ && _) eqn:E; intros [= <- <-]; unfold effective_topic_name; simpl; [done|].
  by rewrite (proj2 (String.eqb_neq _ _) Hne).
Qed.
