(* ===== verification/TopicWatch.v ===== *)
(** * The topic watch

    How a broker's topic registry follows the [KafkaTopic] objects:
    [run_topic_watch] and [handle_topic_event] ([kaas-k8s/src/kube_watchers.rs])
    with the callbacks the server installs ([bins/kaas/src/main.rs]), and the
    change detector of [kaas-k8s/src/topic_watcher.rs].

    The API server is the map of objects; a stream first lists them and then
    reports every change in order, until it breaks and is opened again.  What the
    callbacks spawn (dropping a deleted topic's partitions and offsets, moving a
    topic to another volume) is kept in lists of tasks; [delete_task] is the
    first, the second is in [TopicAdmin]. *)

From stdpp Require Import base gmap strings list sorting pretty.
From S2P Require Import Prelude OffsetStore Manager Engine DataPlane TopicCr.

Local Open Scope Z_scope.

(** ** Events ([kube_watchers.rs]) *)

(** An object with its [kaas.rs/migrate-to-volume] annotation. *)
Record Watched := { ob_topic : KafkaTopic; ob_migrate : option string }.

Inductive Event :=
| Apply (meta_name : string) (o : Watched)
| InitApply (meta_name : string) (o : Watched)
| Delete (meta_name : string) (o : Watched)
| Init
| InitDone.

Record TopicApply := {
  ta_name : string; ta_partitions : Z; ta_volume_assignments : gmap string string;
  ta_migrate_to : option string; ta_topic_id : option string }.

Record TopicWatchState := { known : gset string; relist : option (gset string); ws_synced : bool }.
Definition TopicWatchState_default : TopicWatchState := {| known := ∅; relist := None; ws_synced := false |}.

Definition watched_name (meta_name : string) (o : Watched) : string := effective_topic_name meta_name (ob_topic o).

Definition topic_apply (meta_name : string) (o : Watched) : TopicApply :=
  let t := ob_topic o in
  {| ta_name := watched_name meta_name o; ta_partitions := kt_partitions t;
     ta_volume_assignments := from_option ks_volume_assignments ∅ (kt_status t);
     ta_migrate_to := ob_migrate o;
     ta_topic_id :=
       match kt_status t with
       | Some s => if String.eqb (ks_topic_id s) "" then None else Some (ks_topic_id s)
       | None => None
       end |}.

(** ** The callbacks ([main.rs]) *)

Inductive AssignmentReason := TopicCreated | TopicResized | TopicDeleted.

(** The registry, the reasons sent to the assignment loop, the deleted topics
    whose task is spawned, the migration drivers spawned and the topics that
    have one running. *)
Record WatchBroker := {
  wb_registry : TopicRegistry; wb_notices : list AssignmentReason; wb_deleted : list string;
  wb_drivers : list (string * Z * string); wb_in_flight : gset string }.

Definition with_registry (b : WatchBroker) (r : TopicRegistry) : WatchBroker :=
  {| wb_registry := r; wb_notices := wb_notices b; wb_deleted := wb_deleted b; wb_drivers := wb_drivers b;
     wb_in_flight := wb_in_flight b |}.

Definition on_apply (b : WatchBroker) (a : TopicApply) : WatchBroker :=
  let r := wb_registry b in
  let prev := partition_count <$> find (λ m, bool_decide (tm_name m = ta_name a)) (all r) in
  let r := insert_topic r {| tm_name := ta_name a; partition_count := ta_partitions a;
                             tm_topic_id := ApiData.Metadata.NULL_TOPIC_ID |} in
  let r := set_volume_assignments r (ta_name a) (ta_volume_assignments a) in
  let r := set_topic_id r (ta_name a) (ta_topic_id a) in
  let '(drivers, in_flight) :=
    match ta_migrate_to a with
    | Some target =>
      if bool_decide (ta_name a ∈ wb_in_flight b) then (wb_drivers b, wb_in_flight b)
      else (wb_drivers b ++ [(ta_name a, ta_partitions a, target)], {[ta_name a]} ∪ wb_in_flight b)
    | None => (wb_drivers b, wb_in_flight b)
    end in
  {| wb_registry := r;
     wb_notices :=
       match prev with
       | None => wb_notices b ++ [TopicCreated]
       | Some p => if p =? ta_partitions a then wb_notices b else wb_notices b ++ [TopicResized]
       end;
     wb_deleted := wb_deleted b; wb_drivers := drivers; wb_in_flight := in_flight |}.

Definition on_delete (b : WatchBroker) (name : string) : WatchBroker :=
  {| wb_registry := remove_topic (wb_registry b) name; wb_notices := wb_notices b ++ [TopicDeleted];
     wb_deleted := wb_deleted b ++ [name]; wb_drivers := wb_drivers b; wb_in_flight := wb_in_flight b |}.

(** A driver that ends gives its topic free. *)
Definition driver_done (b : WatchBroker) (name : string) : WatchBroker :=
  {| wb_registry := wb_registry b; wb_notices := wb_notices b; wb_deleted := wb_deleted b;
     wb_drivers := wb_drivers b; wb_in_flight := wb_in_flight b ∖ {[name]} |}.

(** The task of a deleted topic. *)
Definition delete_task `{GroupAssignmentSource A} (src : A) (e : Engine) (mgr : option Manager) (d : Disk)
    (topic : string) (ok : string → bool) : Engine * option Manager * Disk :=
  let e := (abandon_topic e topic).1 in
  match mgr with
  | None => (e, None, d)
  | Some m => let '(m, d, _) := purge_topic_offsets src m d topic ok in (e, Some m, d)
  end.

(** ** One event *)

Definition handle_apply (b : WatchBroker) (st : TopicWatchState) (meta_name : string) (o : Watched) :
    WatchBroker * TopicWatchState :=
  let name := watched_name meta_name o in
  if String.eqb name "" then (b, st)
  else (on_apply b (topic_apply meta_name o),
        {| known := {[name]} ∪ known st; relist := (λ r, {[name]} ∪ r) <$> relist st; ws_synced := ws_synced st |}).

Definition handle_topic_event (b : WatchBroker) (st : TopicWatchState) (e : Event) : WatchBroker * TopicWatchState :=
  match e with
  | Apply meta_name o | InitApply meta_name o => handle_apply b st meta_name o
  | Delete meta_name o =>
    let name := watched_name meta_name o in
    if String.eqb name "" then (b, st)
    else (on_delete b name, {| known := known st ∖ {[name]}; relist := relist st; ws_synced := ws_synced st |})
  | Init => (b, {| known := known st; relist := Some ∅; ws_synced := ws_synced st |})
  | InitDone =>
    match relist st with
    | None => (b, st)
    | Some r =>
      (foldl on_delete b (elements (known st ∖ r)), {| known := r; relist := None; ws_synced := true |})
    end
  end.

(** The loop: the first completed list is reported once. *)
Definition watch_event (s : WatchBroker * TopicWatchState) (e : Event) : WatchBroker * TopicWatchState :=
  let '(b, st) := handle_topic_event s.1 s.2 e in
  (if ws_synced st && negb (ws_synced s.2) then with_registry b (mark_synced (wb_registry b)) else b, st).

(** ** The watch and its API server *)

Notation Server := (gmap string Watched).

Record System := {
  sy_server : Server; sy_live : bool; sy_queue : list Event; sy_watch : WatchBroker * TopicWatchState }.

(** [SPut]: an object is written.  [SBreak ended]: the stream fails; one that ended
    is opened anew by the loop, another recovers by itself.  [SRemove]: the removal
    at the end of a DeleteTopics request, whose object is gone by then. *)
Inductive SysEv :=
| SPut (meta_name : string) (o : Watched) | SDel (meta_name : string) | SDeliver | SBreak (ended : bool) | SConnect
| SRemove (name : string).

Definition list_events (srv : Server) : list Event :=
  Init :: ((λ kv, InitApply kv.1 kv.2) <$> map_to_list srv) ++ [InitDone].

Definition enqueue (s : System) (srv : Server) (e : Event) : System :=
  {| sy_server := srv; sy_live := sy_live s; sy_queue := if sy_live s then sy_queue s ++ [e] else sy_queue s;
     sy_watch := sy_watch s |}.

Definition sys_step (s : System) (e : SysEv) : System :=
  match e with
  | SPut meta_name o => enqueue s (<[meta_name := o]> (sy_server s)) (Apply meta_name o)
  | SDel meta_name =>
    match sy_server s !! meta_name with
    | None => s
    | Some o => enqueue s (delete meta_name (sy_server s)) (Delete meta_name o)
    end
  | SDeliver =>
    match sy_queue s with
    | [] => s
    | e :: q => {| sy_server := sy_server s; sy_live := sy_live s; sy_queue := q; sy_watch := watch_event (sy_watch s) e |}
    end
  | SBreak ended =>
    {| sy_server := sy_server s; sy_live := false; sy_queue := [];
       sy_watch := (s.(sy_watch).1,
         let st := s.(sy_watch).2 in
         {| known := known st; relist := if ended then None else relist st; ws_synced := ws_synced st |}) |}
  | SConnect =>
    if sy_live s then s
    else {| sy_server := sy_server s; sy_live := true; sy_queue := list_events (sy_server s); sy_watch := sy_watch s |}
  | SRemove name =>
    {| sy_server := sy_server s; sy_live := sy_live s; sy_queue := sy_queue s;
       sy_watch := (with_registry s.(sy_watch).1 (remove_topic (wb_registry s.(sy_watch).1) name), s.(sy_watch).2) |}
  end.

(** ** The change detector ([topic_watcher.rs]) *)

Record CacheEntry := { ce_partitions : Z; ce_cleanup_policy : string; ce_topic_id : string }.
#[export] Instance CacheEntry_eq_dec : EqDecision CacheEntry.
Proof. solve_decision. Defined.

Record TopicObservation := {
  obs_name : string; obs_partitions : Z; obs_cleanup_policy : string; obs_topic_id : string; obs_terminating : bool }.

Inductive TopicEvent :=
| Added (name : string) (c : CacheEntry)
| Modified (name : string) (old_partitions : Z) (c : CacheEntry)
| Deleted (name : string) (last_partitions : Z).

Record TopicWatcherState := { cache : gmap string CacheEntry; terminating : gset string }.
Definition TopicWatcher_new : TopicWatcherState := {| cache := ∅; terminating := ∅ |}.

Definition prime (s : TopicWatcherState) (name : string) (partitions : Z) : TopicWatcherState :=
  {| cache := <[name := {| ce_partitions := partitions; ce_cleanup_policy := ""; ce_topic_id := "" |}]> (cache s);
     terminating := terminating s |}.

Definition obs_entry (o : TopicObservation) : CacheEntry :=
  {| ce_partitions := obs_partitions o; ce_cleanup_policy := obs_cleanup_policy o; ce_topic_id := obs_topic_id o |}.

Definition apply_obs (s : TopicWatcherState) (o : TopicObservation) : TopicWatcherState * option TopicEvent :=
  let name := obs_name o in
  if obs_terminating o then
    if bool_decide (name ∈ terminating s) then (s, None)
    else
      ({| cache := delete name (cache s); terminating := {[name]} ∪ terminating s |},
       Some (Deleted name (from_option ce_partitions (obs_partitions o) (cache s !! name))))
  else
    match cache s !! name with
    | Some entry =>
      if decide (entry = obs_entry o) then (s, None)
      else ({| cache := <[name := obs_entry o]> (cache s); terminating := terminating s |},
            Some (Modified name (ce_partitions entry) (obs_entry o)))
    | None =>
      ({| cache := <[name := obs_entry o]> (cache s); terminating := terminating s |}, Some (Added name (obs_entry o)))
    end.

Definition deleted (s : TopicWatcherState) (name : string) : TopicWatcherState * option TopicEvent :=
  ({| cache := delete name (cache s); terminating := terminating s ∖ {[name]} |},
   (λ c, Deleted name (ce_partitions c)) <$> cache s !! name).

Definition cached_names (s : TopicWatcherState) : list string := merge_sort String.le (map_to_list (cache s)).*1.

Inductive WatcherIn := WPrime (name : string) (partitions : Z) | WApply (o : TopicObservation) | WDeleted (name : string).

Definition watcher_step (s : TopicWatcherState) (i : WatcherIn) : TopicWatcherState * option TopicEvent :=
  match i with
  | WPrime name partitions => (prime s name partitions, None)
  | WApply o => apply_obs s o
  | WDeleted name => deleted s name
  end.

(** ** What the registry says of one name *)

Definition reg_view (r : TopicRegistry) (n : string) : option Z * gmap string string * option string :=
  (partition_count <$> get r n, default ∅ (volume_assignments r !! n), topic_ids r !! n).
Definition absent : option Z * gmap string string * option string := (None, ∅, None).

(** What it should say of an object. *)
Definition obj_view (meta_name : string) (o : Watched) : option Z * gmap string string * option string :=
  let a := topic_apply meta_name o in
  (Some (ta_partitions a), ta_volume_assignments a, Some (default "" (ta_topic_id a))).

Definition serves (srv : Server) (n meta_name : string) (o : Watched) : Prop :=
  srv !! meta_name = Some o ∧ watched_name meta_name o = n.

Definition agrees (srv : Server) (n : string) (s : WatchBroker * TopicWatchState) : Prop :=
  (∀ meta_name o, serves srv n meta_name o → reg_view (wb_registry s.1) n = obj_view meta_name o ∧ n ∈ known s.2) ∧
  ((∀ meta_name o, ¬ serves srv n meta_name o) → reg_view (wb_registry s.1) n = absent ∧ n ∉ known s.2).

(** Names are in use once; every object has one. *)
Definition server_ok (srv : Server) : Prop :=
  (∀ meta_name o, srv !! meta_name = Some o → watched_name meta_name o ≠ "") ∧
  (∀ m1 m2 o1 o2, srv !! m1 = Some o1 → srv !! m2 = Some o2 →
     watched_name m1 o1 = watched_name m2 o2 → m1 = m2).

(** ** Lemmas *)

Lemma reg_view_remove r n name : reg_view (remove_topic r name) n = if decide (n = name) then absent else reg_view r n.
Proof.
  unfold reg_view, get, remove_topic. simpl. case_decide as E; [subst|].
  - by rewrite !lookup_delete_eq.
  - by rewrite !lookup_delete_ne by done.
Qed.

Lemma reg_view_synced r n : reg_view (mark_synced r) n = reg_view r n.
Proof. done. Qed.

Lemma on_apply_registry b a :
  wb_registry (on_apply b a) =
  set_topic_id
    (set_volume_assignments
       (insert_topic (wb_registry b)
          {| tm_name := ta_name a; partition_count := ta_partitions a; tm_topic_id := ApiData.Metadata.NULL_TOPIC_ID |})
       (ta_name a) (ta_volume_assignments a)) (ta_name a) (ta_topic_id a).
Proof. unfold on_apply. by repeat case_match. Qed.

Lemma reg_view_apply b meta o n :
  reg_view (wb_registry (on_apply b (topic_apply meta o))) n =
  if decide (n = watched_name meta o) then obj_view meta o else reg_view (wb_registry b) n.
Proof.
  rewrite on_apply_registry. unfold reg_view, get, obj_view.
  change (watched_name meta o) with (ta_name (topic_apply meta o)). generalize (topic_apply meta o) as a. intros a.
  simpl. destruct (decide (n = ta_name a)) as [->|E].
  - rewrite !lookup_insert_eq. simpl. f_equal. f_equal. case_decide as E.
    + by rewrite lookup_delete_eq, E.
    + by rewrite lookup_insert_eq.
  - rewrite !lookup_insert_ne by done. f_equal. f_equal. case_decide.
    + by rewrite lookup_delete_ne.
    + by rewrite lookup_insert_ne.
Qed.

Lemma reg_view_deletes l : ∀ b n,
  reg_view (wb_registry (foldl on_delete b l)) n = if decide (n ∈ l) then absent else reg_view (wb_registry b) n.
Proof.
  induction l as [|x l IH]; intros b n; cbn [foldl]; [by rewrite decide_False by set_solver|].
  rewrite IH. cbn [on_delete wb_registry]. rewrite reg_view_remove. repeat case_decide; set_solver.
Qed.

(** What one event does to a name: the registry's answer, and whether it is known. *)
Lemma watch_event_view s e n :
  reg_view (wb_registry (watch_event s e).1) n = reg_view (wb_registry (handle_topic_event s.1 s.2 e).1) n ∧
  (watch_event s e).2 = (handle_topic_event s.1 s.2 e).2.
Proof. unfold watch_event. destruct (handle_topic_event s.1 s.2 e) as [b st]. simpl. by case_match. Qed.

Lemma handle_apply_view b st meta o n :
  watched_name meta o ≠ "" →
  let s' := handle_apply b st meta o in
  reg_view (wb_registry s'.1) n =
    (if decide (n = watched_name meta o) then obj_view meta o else reg_view (wb_registry b) n) ∧
  known s'.2 = {[watched_name meta o]} ∪ known st ∧
  relist s'.2 = (λ r, {[watched_name meta o]} ∪ r) <$> relist st.
Proof.
  intros Hn s'. subst s'. unfold handle_apply. apply String.eqb_neq in Hn. rewrite Hn.
  split; [|done]. cbn [fst]. apply reg_view_apply.
Qed.

(** An invariant of every state: what is in the registry and not a seed is known. *)
Definition covered (n : string) (s : WatchBroker * TopicWatchState) : Prop :=
  reg_view (wb_registry s.1) n ≠ absent → n ∈ known s.2.

Lemma covered_event n s e : covered n s → covered n (watch_event s e).
Proof.
  intros Hc. destruct (watch_event_view s e n) as [Hv Hst]. unfold covered. rewrite Hv, Hst. destruct s as [b st].
  unfold covered in Hc. cbn [fst snd] in *. destruct e as [m o|m o|m o| |]; simpl.
  1,2: destruct (decide (watched_name m o = "")) as [E|E];
    [unfold handle_apply; rewrite E; simpl; done|];
    destruct (handle_apply_view b st m o n E) as (->&->&_); case_decide; set_solver.
  - case_match; [done|]. simpl. rewrite reg_view_remove. case_decide; set_solver.
  - done.
  - destruct (relist st) as [r|]; [|done]. simpl. rewrite reg_view_deletes. case_decide as E; [done|].
    intros Hn%Hc. rewrite elem_of_elements in E. set_solver.
Qed.

(** A list of objects, delivered while a relist is open. *)
Lemma init_applies_view (l : list (string * Watched)) n : ∀ s rl,
  (∀ kv, kv ∈ l → watched_name kv.1 kv.2 ≠ "") → NoDup ((λ kv, watched_name kv.1 kv.2) <$> l) →
  relist s.2 = Some rl →
  let s' := foldl watch_event s ((λ kv, InitApply kv.1 kv.2) <$> l) in
  (∀ kv, kv ∈ l → watched_name kv.1 kv.2 = n → reg_view (wb_registry s'.1) n = obj_view kv.1 kv.2) ∧
  (n ∉ ((λ kv, watched_name kv.1 kv.2) <$> l) → reg_view (wb_registry s'.1) n = reg_view (wb_registry s.1) n) ∧
  known s'.2 = list_to_set ((λ kv, watched_name kv.1 kv.2) <$> l) ∪ known s.2 ∧
  relist s'.2 = Some (list_to_set ((λ kv, watched_name kv.1 kv.2) <$> l) ∪ rl).
Proof.
  induction l as [|[m o] l IH]; intros s rl Hne Hnd Hr; csimpl.
  { split_and!; [by intros ? []%elem_of_nil|done|set_solver|rewrite Hr; f_equal; set_solver]. }
  destruct (watch_event_view s (InitApply m o) n) as [Hv Hst].
  assert (watched_name m o ≠ "") as Hm by (apply (Hne (m, o)); left).
  destruct (handle_apply_view s.1 s.2 m o n Hm) as (Hv'&Hk'&Hr').
  cbn in Hv, Hst. rewrite Hv' in Hv.
  apply NoDup_cons in Hnd as [Hnotin Hnd].
  destruct (IH (watch_event s (InitApply m o)) ({[watched_name m o]} ∪ rl)) as (IH1&IH2&IH3&IH4).
  { intros kv Hkv. apply Hne. by right. }
  { done. }
  { by rewrite Hst, Hr', Hr. }
  split_and!.
  - intros kv [->|Hkv]%elem_of_cons Hn; [|by apply IH1].
    simpl in Hn. subst n. rewrite (IH2 Hnotin), Hv. by rewrite decide_True.
  - intros Hn. apply not_elem_of_cons in Hn as [Hn1 Hn2]. rewrite (IH2 Hn2), Hv. by rewrite decide_False.
  - rewrite IH3, Hst, Hk'. set_solver.
  - rewrite IH4. f_equal. set_solver.
Qed.

Lemma server_names srv : server_ok srv →
  NoDup ((λ kv : string * Watched, watched_name kv.1 kv.2) <$> map_to_list srv).
Proof.
  intros [_ Hinj]. apply NoDup_fmap_2_strong; [|apply NoDup_map_to_list].
  intros [m1 o1] [m2 o2] H1%elem_of_map_to_list H2%elem_of_map_to_list E. simpl in E.
  pose proof (Hinj _ _ _ _ H1 H2 E) as ->. congruence.
Qed.

(** The list a stream begins with brings the registry in step. *)
Lemma relist_agrees srv n s :
  server_ok srv → covered n s → agrees srv n (foldl watch_event s (list_events srv)).
Proof.
  intros Hok Hc. unfold list_events. simpl. rewrite foldl_app. simpl.
  set (s1 := watch_event s Init).
  assert (relist s1.2 = Some ∅ ∧ known s1.2 = known s.2 ∧ reg_view (wb_registry s1.1) n = reg_view (wb_registry s.1) n)
    as (Hr&Hk&Hv).
  { destruct (watch_event_view s Init n) as [Hv Hst]. subst s1. by rewrite Hv, Hst. }
  destruct (init_applies_view (map_to_list srv) n s1 ∅) as (H1&H2&H3&H4).
  { intros [m o] Hin%elem_of_map_to_list. by apply (proj1 Hok). }
  { by apply server_names. }
  { done. }
  set (s2 := foldl watch_event s1 ((λ kv, InitApply kv.1 kv.2) <$> map_to_list srv)) in *.
  destruct (watch_event_view s2 InitDone n) as [Hv' Hst']. simpl in Hv', Hst'. rewrite H4 in Hv', Hst'.
  simpl in Hv', Hst'. rewrite reg_view_deletes in Hv'.
  set (names := list_to_set ((λ kv : string * Watched, watched_name kv.1 kv.2) <$> map_to_list srv) : gset string) in *.
  assert (∀ m o, serves srv n m o → n ∈ names) as Hserv.
  { intros m o [Hl Hn]. apply elem_of_list_to_set, list_elem_of_fmap. exists (m, o).
    split; [by simpl|by apply elem_of_map_to_list]. }
  split.
  - intros m o Hs. pose proof (Hserv _ _ Hs) as Hin. destruct Hs as [Hl Hn].
    rewrite Hv', Hst'. simpl. rewrite decide_False by (rewrite elem_of_elements; set_solver).
    split; [|set_solver]. apply (H1 (m, o)); [by apply elem_of_map_to_list|done].
  - intros Hno. assert (n ∉ ((λ kv : string * Watched, watched_name kv.1 kv.2) <$> map_to_list srv)) as Hnot.
    { intros ([m o]&Hn&Hl%elem_of_map_to_list)%list_elem_of_fmap. apply (Hno m o). by split. }
    assert (n ∉ names) as Hnn by (subst names; by rewrite elem_of_list_to_set).
    rewrite Hv', Hst'. simpl. split; [|set_solver]. case_decide as E; [done|].
    rewrite (H2 Hnot), Hv. destruct (decide (reg_view (wb_registry s.1) n = absent)) as [|Hp]; [done|].
    exfalso. apply E. rewrite elem_of_elements. pose proof (Hc Hp). set_solver.
Qed.

Lemma agrees_apply srv n meta o s :
  server_ok srv → server_ok (<[meta := o]> srv) →
  (∀ o0, srv !! meta = Some o0 → watched_name meta o0 = n → watched_name meta o = n) →
  agrees srv n s → agrees (<[meta := o]> srv) n (watch_event s (Apply meta o)).
Proof.
  intros Hok Hok' Hsame [Hs Hn]. destruct (watch_event_view s (Apply meta o) n) as [Hv Hst].
  assert (watched_name meta o ≠ "") as Hne by (apply (proj1 Hok' meta o); by rewrite lookup_insert_eq).
  destruct (handle_apply_view s.1 s.2 meta o n Hne) as (Hv'&Hk'&_). simpl in Hv, Hst. rewrite Hv' in Hv.
  unfold agrees. rewrite Hv, Hst, Hk'. destruct (decide (n = watched_name meta o)) as [En|En].
  - split.
    + intros m2 o2 [Hl Hn2]. assert (m2 = meta) as ->.
      { apply (proj2 Hok' _ _ o2 o); [done|by rewrite lookup_insert_eq|congruence]. }
      rewrite lookup_insert_eq in Hl. simplify_eq. split; [done|set_solver].
    + intros Hno. destruct (Hno meta o). split; [by rewrite lookup_insert_eq|done].
  - split.
    + intros m2 o2 [Hl Hn2]. destruct (decide (m2 = meta)) as [->|Hm].
      { rewrite lookup_insert_eq in Hl. simplify_eq. }
      rewrite lookup_insert_ne in Hl by done. destruct (Hs m2 o2); [by split|]. split; [done|set_solver].
    + intros Hno. destruct Hn as [Hn1 Hn2]; [|split; [done|set_solver]].
      intros m2 o2 [Hl Hn2]. destruct (decide (m2 = meta)) as [->|Hm].
      { destruct En. symmetry. by eapply Hsame. }
      apply (Hno m2 o2). split; [by rewrite lookup_insert_ne|done].
Qed.

Lemma agrees_delete srv n meta o s :
  server_ok srv → srv !! meta = Some o →
  agrees srv n s → agrees (delete meta srv) n (watch_event s (Delete meta o)).
Proof.
  intros Hok Hl0 [Hs Hn]. destruct (watch_event_view s (Delete meta o) n) as [Hv Hst].
  pose proof (proj1 Hok _ _ Hl0) as Hne. apply String.eqb_neq in Hne. simpl in Hv, Hst. rewrite Hne in Hv, Hst.
  unfold agrees. rewrite Hv, Hst. simpl. rewrite reg_view_remove.
  destruct (decide (n = watched_name meta o)) as [En|En].
  - split.
    + intros m2 o2 [Hl Hn2]. destruct (decide (m2 = meta)) as [->|Hm]; [by rewrite lookup_delete_eq in Hl|].
      rewrite lookup_delete_ne in Hl by done. destruct Hm. apply (proj2 Hok _ _ o2 o); congruence.
    + intros _. split; [done|set_solver].
  - split.
    + intros m2 o2 [Hl Hn2]. destruct (decide (m2 = meta)) as [->|Hm]; [by rewrite lookup_delete_eq in Hl|].
      rewrite lookup_delete_ne in Hl by done. destruct (Hs m2 o2); [by split|]. split; [done|set_solver].
    + intros Hno. destruct Hn as [Hn1 Hn2]; [|split; [done|set_solver]].
      intros m2 o2 [Hl Hn2]. destruct (decide (m2 = meta)) as [->|Hm]; [congruence|].
      apply (Hno m2 o2). split; [by rewrite lookup_delete_ne|done].
Qed.

Lemma server_ok_delete srv meta : server_ok srv → server_ok (delete meta srv).
Proof.
  intros [H1 H2]. split.
  - intros m o [_ Hl]%lookup_delete_Some. eauto.
  - intros m1 m2 o1 o2 [_ Hl1]%lookup_delete_Some [_ Hl2]%lookup_delete_Some. eauto.
Qed.

(** ** The registry follows the server *)

(** The registry without one name, ahead of the same events: of that name it says
    the same in the end, or nothing. *)
Definition forgets (n : string) (s1 s2 : WatchBroker * TopicWatchState) : Prop :=
  s1.2 = s2.2 ∧ (reg_view (wb_registry s1.1) n = reg_view (wb_registry s2.1) n ∨ reg_view (wb_registry s1.1) n = absent).

Lemma forgets_event n s1 s2 e : forgets n s1 s2 → forgets n (watch_event s1 e) (watch_event s2 e).
Proof.
  intros [Hst Hv]. destruct (watch_event_view s1 e n) as [V1 S1], (watch_event_view s2 e n) as [V2 S2].
  unfold forgets. rewrite V1, V2, S1, S2, Hst. destruct s1 as [b1 st1], s2 as [b2 st2]. cbn [fst snd] in *.
  destruct e as [m o|m o|m o| |]; cbn [handle_topic_event].
  1,2: destruct (decide (watched_name m o = "")) as [E|E];
    [unfold handle_apply; rewrite E; simpl; done|];
    destruct (handle_apply_view b1 st2 m o n E) as [-> _], (handle_apply_view b2 st2 m o n E) as [-> _];
    split; [unfold handle_apply; by case_match|case_decide; auto].
  - case_match; [done|]. split; [done|]. simpl. rewrite !reg_view_remove. case_decide; auto.
  - done.
  - destruct (relist st2); [|done]. split; [done|]. simpl. rewrite !reg_view_deletes. case_decide; auto.
Qed.

Lemma forgets_events n q : ∀ s1 s2, forgets n s1 s2 → forgets n (foldl watch_event s1 q) (foldl watch_event s2 q).
Proof. induction q as [|e q IH]; intros s1 s2 H; simpl; [done|]. by apply IH, forgets_event. Qed.

(** A name the registry is rid of does not change the answer for another. *)
Lemma forgets_removed n name b st : forgets n (with_registry b (remove_topic (wb_registry b) name), st) (b, st).
Proof. split; [done|]. simpl. rewrite reg_view_remove. case_decide; auto. Qed.

Lemma same_view_events n q : ∀ s1 s2, s1.2 = s2.2 → reg_view (wb_registry s1.1) n = reg_view (wb_registry s2.1) n →
  (foldl watch_event s1 q).2 = (foldl watch_event s2 q).2 ∧
  reg_view (wb_registry (foldl watch_event s1 q).1) n = reg_view (wb_registry (foldl watch_event s2 q).1) n.
Proof.
  intros s1 s2 Hs Hv. destruct (forgets_events n q s1 s2) as [H1 [H2|H2]]; [by split; [|left]|done|].
  destruct (forgets_events n q s2 s1) as [_ [H3|H3]]; [by split; [|left]|done|]. split; [done|congruence].
Qed.

(** As far as the name [n] goes: a write keeps names in use once and does not rename
    an object away from [n], and the removal at the end of a DeleteTopics request for
    [n] comes before an object of that name is created again. *)
Definition ev_ok (n : string) (s : System) (e : SysEv) : Prop :=
  match e with
  | SPut meta o =>
    server_ok (<[meta := o]> (sy_server s)) ∧
    (∀ o0, sy_server s !! meta = Some o0 → watched_name meta o0 = n → watched_name meta o = n)
  | SRemove name => name = n → ∀ meta o, ¬ serves (sy_server s) n meta o
  | _ => True
  end.

Fixpoint history_ok (n : string) (s : System) (evs : list SysEv) : Prop :=
  match evs with [] => True | e :: evs => ev_ok n s e ∧ history_ok n (sys_step s e) evs end.

Definition in_step (n : string) (s : System) : Prop :=
  server_ok (sy_server s) ∧ covered n (sy_watch s) ∧
  (sy_live s = true → agrees (sy_server s) n (foldl watch_event (sy_watch s) (sy_queue s))).

Lemma in_step_remove n s name : ev_ok n s (SRemove name) → in_step n s → in_step n (sys_step s (SRemove name)).
Proof.
  intros He (Hok&Hc&Ha). destruct s as [srv live q [b st]]. cbn in *. split_and!; simpl; [done| |].
  - unfold covered in *. simpl in *. rewrite reg_view_remove. case_decide; [done|exact Hc].
  - intros Hlive. destruct (Ha Hlive) as [H1 H2].
    destruct (decide (name = n)) as [->|Hne].
    + destruct (H2 (He eq_refl)) as [Hv Hk].
      destruct (forgets_events n q _ _ (forgets_removed n n b st)) as [Hst Hview]. split.
      { intros m o Hs. by apply He in Hs. }
      intros _. rewrite Hst. split; [|done]. destruct Hview as [->|]; done.
    + destruct (same_view_events n q (with_registry b (remove_topic (wb_registry b) name), st) (b, st)) as [Hst Hv];
        [done|simpl; by rewrite reg_view_remove, decide_False by done|].
      unfold agrees. rewrite Hst, Hv. by split.
Qed.

Lemma in_step_step n s e : ev_ok n s e → in_step n s → in_step n (sys_step s e).
Proof.
  intros He Hin. destruct e as [meta o|meta| |ended| |name]; [| | | | |by apply in_step_remove];
    destruct Hin as (Hok&Hc&Ha); simpl in *.
  - destruct He as [Hok' Hsame]. split_and!; [done|done|]. simpl. intros Hlive. rewrite Hlive, foldl_app. simpl.
    apply agrees_apply; auto.
  - destruct (sy_server s !! meta) as [o|] eqn:Hl; [|by split_and!].
    split_and!; [by apply server_ok_delete|done|]. simpl. intros Hlive. rewrite Hlive, foldl_app. simpl.
    apply agrees_delete; auto.
  - destruct (sy_queue s) as [|e q] eqn:Eq; [by rewrite <- Eq in Ha; split_and!|].
    split_and!; simpl; [done|by apply covered_event|done].
  - by split_and!.
  - destruct (sy_live s) eqn:Hlive; [by split_and!; rewrite ?Hlive|].
    split_and!; simpl; [done|done|]. intros _. by apply relist_agrees.
Qed.

Lemma in_step_run n evs : ∀ s, history_ok n s evs → in_step n s → in_step n (foldl sys_step s evs).
Proof. induction evs as [|e evs IH]; simpl; [done|]. intros s [He Hh] Hs. apply IH; [done|by apply in_step_step]. Qed.

Lemma deliver_all s :
  foldl sys_step s (replicate (length (sy_queue s)) SDeliver) =
  {| sy_server := sy_server s; sy_live := sy_live s; sy_queue := [];
     sy_watch := foldl watch_event (sy_watch s) (sy_queue s) |}.
Proof.
  destruct s as [srv live q w]. simpl. revert w. induction q as [|e q IH]; intros w; simpl; [done|]. apply IH.
Qed.

Definition first_watch (srv : Server) (r : TopicRegistry) : System :=
  {| sy_server := srv; sy_live := false; sy_queue := [];
     sy_watch := ({| wb_registry := r; wb_notices := []; wb_deleted := []; wb_drivers := []; wb_in_flight := ∅ |},
                  TopicWatchState_default) |}.


(** *** Changes are announced *)

Definition keyed (r : TopicRegistry) : Prop := ∀ n m, inner r !! n = Some m → tm_name m = n.

Lemma find_all r name : keyed r → find (λ m, bool_decide (tm_name m = name)) (all r) = get r name.
Proof.
  intros Hk. unfold get. assert (∀ m, m ∈ all r ↔ inner r !! tm_name m = Some m) as Hin.
  { intros m. unfold all. rewrite (merge_sort_Permutation name_le), list_elem_of_fmap. split.
    - intros ([n m']&->&Hl%elem_of_map_to_list). simpl. by rewrite (Hk _ _ Hl).
    - intros Hl. exists (tm_name m, m). split; [done|by apply elem_of_map_to_list]. }
  destruct (find _ (all r)) as [m|] eqn:Ef.
  - apply List.find_some in Ef as [Hm%list_elem_of_In Hn]. apply bool_decide_eq_true in Hn as <-. symmetry. by apply Hin.
  - destruct (inner r !! name) as [m|] eqn:El; [|done]. pose proof (Hk _ _ El) as <-.
    apply List.find_none with (x := m) in Ef; [by rewrite bool_decide_eq_true_2 in Ef|]. by apply list_elem_of_In, Hin.
Qed.

Lemma on_apply_notices b a : keyed (wb_registry b) →
  wb_notices (on_apply b a) =
  match partition_count <$> get (wb_registry b) (ta_name a) with
  | None => wb_notices b ++ [TopicCreated]
  | Some p => if p =? ta_partitions a then wb_notices b else wb_notices b ++ [TopicResized]
  end.
Proof. intros Hk. unfold on_apply. rewrite find_all by done. by repeat case_match. Qed.

Lemma on_apply_counts b a n :
  partition_count <$> get (wb_registry (on_apply b a)) n =
  if decide (n = ta_name a) then Some (ta_partitions a) else partition_count <$> get (wb_registry b) n.
Proof.
  rewrite on_apply_registry. unfold get. simpl. case_decide as E; [subst; by rewrite lookup_insert_eq|].
  by rewrite lookup_insert_ne.
Qed.

Lemma on_apply_keyed b a : keyed (wb_registry b) → keyed (wb_registry (on_apply b a)).
Proof.
  intros Hk n m. rewrite on_apply_registry. simpl. rewrite lookup_insert_Some. intros [[<- <-]|[_ Hl]]; [done|by apply Hk].
Qed.

Lemma on_deletes_keyed l : ∀ b, keyed (wb_registry b) → keyed (wb_registry (foldl on_delete b l)).
Proof.
  induction l as [|x l IH]; intros b Hk; [done|]. apply IH. intros n m. simpl. intros [_ Hl]%lookup_delete_Some. by apply Hk.
Qed.

Lemma on_deletes_notices l : ∀ b, length (wb_notices (foldl on_delete b l)) = (length (wb_notices b) + length l)%nat.
Proof. induction l as [|x l IH]; intros b; simpl; [lia|]. rewrite IH. simpl. rewrite length_app. simpl. lia. Qed.

(** Whatever an event changes in the set of topics or in their partition counts is
    announced to the assignment loop. *)
Theorem no_silent_change s e :
  keyed (wb_registry s.1) →
  let s' := watch_event s e in
  keyed (wb_registry s'.1) ∧
  (∀ n, partition_count <$> get (wb_registry s'.1) n ≠ partition_count <$> get (wb_registry s.1) n →
     (length (wb_notices s.1) < length (wb_notices s'.1))%nat).
Proof.
  intros Hk s'. set (h := handle_topic_event s.1 s.2 e).
  assert (inner (wb_registry s'.1) = inner (wb_registry h.1) ∧ wb_notices s'.1 = wb_notices h.1) as [Ei En].
  { subst s' h. unfold watch_event. destruct (handle_topic_event s.1 s.2 e). simpl. by case_match. }
  unfold keyed, get. rewrite Ei, En. subst h. destruct s as [b st]. cbn [fst snd] in *. clear s' Ei En.
  assert (∀ m o, keyed (wb_registry (handle_apply b st m o).1) ∧
     (∀ n, partition_count <$> get (wb_registry (handle_apply b st m o).1) n ≠ partition_count <$> get (wb_registry b) n →
        (length (wb_notices b) < length (wb_notices (handle_apply b st m o).1))%nat)) as Happ.
  { intros m o. unfold handle_apply. case_match; [done|]. cbn [fst]. split; [by apply on_apply_keyed|].
    intros n. rewrite on_apply_counts, on_apply_notices by done. case_decide as E; [|done]. subst n.
    destruct (partition_count <$> get _ _) as [p|]; [|rewrite length_app; simpl; lia].
    destruct (Z.eqb_spec p (ta_partitions (topic_apply m o))) as [->|]; [done|]. rewrite length_app. simpl. lia. }
  destruct e as [m o|m o|m o| |]; simpl; try apply Happ.
  - case_match; [done|]. simpl. split.
    + intros n t [_ Hl]%lookup_delete_Some. by apply Hk.
    + intros n _. rewrite length_app. simpl. lia.
  - done.
  - destruct (relist st) as [r|]; [|done]. simpl. split; [by apply on_deletes_keyed|].
    intros n Hn. rewrite on_deletes_notices. destruct (elements (known st ∖ r)) as [|x l] eqn:E; [done|simpl; lia].
Qed.

(** ** The change detector *)

Definition follow (m : gmap string CacheEntry) (ev : TopicEvent) : gmap string CacheEntry :=
  match ev with Added n c | Modified n _ c => <[n := c]> m | Deleted n _ => delete n m end.

(** What an event says of the subscriber's picture is true of it. *)
Definition event_sound (m : gmap string CacheEntry) (ev : TopicEvent) : Prop :=
  match ev with
  | Added n _ => m !! n = None
  | Modified n old c => ∃ c0, m !! n = Some c0 ∧ ce_partitions c0 = old ∧ c0 ≠ c
  | Deleted n last => ∀ c0, m !! n = Some c0 → ce_partitions c0 = last
  end.

Lemma watcher_step_event s i :
  match i with WPrime _ _ => False | _ => True end →
  let '(s', ev) := watcher_step s i in
  cache s' = from_option (follow (cache s)) (cache s) ev ∧ from_option (event_sound (cache s)) True ev.
Proof.
  destruct i as [|o|name]; [done| |]; intros _; simpl.
  - unfold apply_obs. destruct (obs_terminating o).
    + case_bool_decide; [done|]. simpl. split; [done|]. intros c0 ->. done.
    + destruct (cache s !! obs_name o) as [c|] eqn:El; [|done]. case_decide as E; [done|]. simpl. eauto.
  - destruct (cache s !! name) as [c|] eqn:El; simpl.
    + split; [done|]. intros c0 Hc. rewrite El in Hc. by simplify_eq.
    + split; [|done]. by rewrite delete_id.
Qed.

Fixpoint watcher_run (s : TopicWatcherState) (ins : list WatcherIn) : TopicWatcherState * list TopicEvent :=
  match ins with
  | [] => (s, [])
  | i :: ins =>
    let '(s, ev) := watcher_step s i in
    let '(s, evs) := watcher_run s ins in (s, from_option (λ e, [e]) [] ev ++ evs)
  end.

Fixpoint all_sound (m : gmap string CacheEntry) (evs : list TopicEvent) : Prop :=
  match evs with [] => True | ev :: evs => event_sound m ev ∧ all_sound (follow m ev) evs end.

(** The change detector's events are all a subscriber needs: one that starts with
    the primed topics and applies the events in order has the watcher's picture
    after every sequence of observations, and each event is true of what it held:
    an addition is of a topic it did not have, a modification changes the entry. *)
Theorem subscriber_follows_cache s ins :
  (∀ name p, WPrime name p ∉ ins) →
  let r := watcher_run s ins in
  foldl follow (cache s) r.2 = cache r.1 ∧ all_sound (cache s) r.2.
Proof.
  revert s. induction ins as [|i ins IH]; intros s Hp; simpl; [done|].
  assert (match i with WPrime _ _ => False | _ => True end) as Hi.
  { destruct i as [name p| |]; [|done..]. apply (Hp name p). left. }
  pose proof (watcher_step_event s i Hi) as Hst. destruct (watcher_step s i) as [s1 ev]. destruct Hst as [Hc Hs].
  assert (∀ name p, WPrime name p ∉ ins) as Hp' by (intros name p Hin; apply (Hp name p); by right).
  pose proof (IH s1 Hp') as Hrun. destruct (watcher_run s1 ins) as [s' evs]. rewrite Hc in Hrun. destruct ev; simpl in *; tauto.
Qed.

(** ** Witnesses and races *)

Definition plain (partitions : Z) (id : string) : Watched :=
  {| ob_topic := {| kt_deleting := false; kt_topic_name := ""; kt_partitions := partitions;
                    kt_config := KafkaTopicConfig_default; kt_storage := None;
                    kt_status := Some {| ks_partition_count := partitions; ks_topic_id := id;
                                         ks_volume_assignments := ∅; ks_outside_spec := 0 |} |};
     ob_migrate := None |}.

(** A topic is deleted and another created while the stream is down. *)
Definition outage : list SysEv :=
  [SConnect; SDeliver; SDeliver; SDeliver; SBreak true; SDel "orders"; SPut "payments" (plain 3 "id-2"); SConnect].

Lemma plain_name m p i : watched_name m (plain p i) = m.
Proof. done. Qed.

Definition all_plain (srv : Server) : Prop := ∀ m o, srv !! m = Some o → m ≠ "" ∧ ∃ p i, o = plain p i.

Lemma all_plain_ok srv : all_plain srv → server_ok srv.
Proof.
  intros H. split.
  - intros m o Hl. destruct (H m o Hl) as (Hm&p&i&->). done.
  - intros m1 m2 o1 o2 H1 H2. destruct (H _ _ H1) as (_&p1&i1&->), (H _ _ H2) as (_&p2&i2&->). done.
Qed.

Lemma all_plain_one m p i : m ≠ "" → all_plain {[m := plain p i]}.
Proof. intros Hm m' o [<- <-]%lookup_singleton_Some. eauto. Qed.

Definition orders_srv : Server := {["orders" := plain 2 "id-1"]}.
Definition payments_srv : Server := {["payments" := plain 3 "id-2"]}.


Lemma no_silent_change_witness :
  let s := foldl watch_event (sy_watch (first_watch orders_srv TopicRegistry_new)) [Init; InitApply "orders" (plain 2 "id-1")] in
  (length (wb_notices s.1) < length (wb_notices (watch_event s (Apply "orders" (plain 4 "id-1"))).1))%nat.
Proof.
  apply (no_silent_change
    (foldl watch_event (sy_watch (first_watch orders_srv TopicRegistry_new)) [Init; InitApply "orders" (plain 2 "id-1")])
    (Apply "orders" (plain 4 "id-1"))) with (n := "orders").
  - intros n m Hl. change (({["orders" := {| tm_name := "orders"; partition_count := 2;
      tm_topic_id := ApiData.Metadata.NULL_TOPIC_ID |}]} : gmap string TopicMeta) !! n = Some m) in Hl.
    by apply lookup_singleton_Some in Hl as [<- <-].
  - done.
Defined.

Definition seen_orders (p : Z) (t : bool) : WatcherIn :=
  WApply {| obs_name := "orders"; obs_partitions := p; obs_cleanup_policy := ""; obs_topic_id := "id-1"; obs_terminating := t |}.

Lemma subscriber_follows_cache_witness :
  let r := watcher_run (prime TopicWatcher_new "orders" 2)
    [seen_orders 2 false; seen_orders 4 false; seen_orders 4 true; seen_orders 4 true; WDeleted "orders"] in
  length r.2 = 3%nat ∧ foldl follow (cache (prime TopicWatcher_new "orders" 2)) r.2 = cache r.1.
Proof.
  split; [reflexivity|].
  apply (subscriber_follows_cache (prime TopicWatcher_new "orders" 2)
    [seen_orders 2 false; seen_orders 4 false; seen_orders 4 true; seen_orders 4 true; WDeleted "orders"]).
  intros name p. rewrite !elem_of_cons, elem_of_nil. by intros [|[|[|[|[|]]]]].
Defined.

(** The removal at the end of a DeleteTopics request is not tied to the deletion it
    made: when the topic is created again and its event delivered in between, the
    registry loses the live topic, and no event is on its way that would bring
    it back. *)
Theorem late_remove_hides_topic :
  let s := foldl sys_step (first_watch orders_srv TopicRegistry_new)
    [SConnect; SDeliver; SDeliver; SDeliver; SDel "orders"; SDeliver; SPut "orders" (plain 2 "id-2"); SDeliver;
     SRemove "orders"] in
  sy_live s = true ∧ sy_queue s = [] ∧ sy_server s !! "orders" = Some (plain 2 "id-2") ∧
  reg_view (wb_registry (sy_watch s).1) "orders" = absent.
Proof. by vm_compute. Qed.

(** An object renamed through [spec.topicName] leaves its old name in the registry
    until the next list. *)
Definition renamed : Watched :=
  {| ob_topic := {| kt_deleting := false; kt_topic_name := "Orders"; kt_partitions := 2;
                    kt_config := KafkaTopicConfig_default; kt_storage := None; kt_status := None |};
     ob_migrate := None |}.
Lemma rename_keeps_old_name :
  let s := foldl sys_step (first_watch orders_srv TopicRegistry_new)
    [SConnect; SDeliver; SDeliver; SDeliver; SPut "orders" renamed; SDeliver] in
  sy_queue s = [] ∧ get (wb_registry (sy_watch s).1) "Orders" ≠ None ∧ get (wb_registry (sy_watch s).1) "orders" ≠ None.
Proof. by vm_compute. Qed.
