(* ===== verification/TopicAdmin.v ===== *)
(** * Topic administration

    The handlers of CreateTopics, DeleteTopics, CreatePartitions,
    IncrementalAlterConfigs, DescribeConfigs, AlterReplicaLogDirs and
    DescribeLogDirs ([kaas-broker/src/handlers/]), the table of defaults
    ([topic_config_defaults.rs]) and the migration driver of the server
    ([bins/kaas/src/main.rs]).

    The writer is [TopicCr]'s; a broker without a cluster has none.  The
    authorizer is its decision for the connection's principal.  Texts of error
    messages are parameters ([display]: [to_string] of an error, [message]: the
    text it carries), as are SHA-1 and the file system's capacities; [fault] says
    how the API server fails the call of the i-th entry of a request. *)

From stdpp Require Import base gmap strings list sorting pretty.
From Stdlib Require Import Strings.Byte.
From S2P Require Import Prelude Primitives ApiData ApiAdmin Recovery OffsetStore Cluster Engine Acls DataPlane TopicCr TopicWatch.

Local Open Scope Z_scope.

(** A handler's loop: every entry in turn, with its position. *)
Fixpoint serve_each {S A B} (f : nat → S → A → S * B) (i : nat) (s : S) (l : list A) : S * list B :=
  match l with
  | [] => (s, [])
  | a :: l =>
    let '(s, b) := f i s a in
    let '(s, bs) := serve_each f (i + 1) s l in (s, b :: bs)
  end.

Section handlers.
Context (sha1 : list byte → list byte) (display message : TopicWriteError → string).
Context (authz : Resource → Operation → bool).

Definition not_cluster : string := "broker is not running in cluster mode".

(** ** CreateTopics *)

Definition new_result (name : string) (error_code : Z) : CreateTopics.CreatableTopicResult :=
  {| CreateTopics.r_name := name; CreateTopics.topic_id := repeat x00 16; CreateTopics.error_code := error_code;
     CreateTopics.error_message := None; CreateTopics.r_num_partitions := 0; CreateTopics.r_replication_factor := 0;
     CreateTopics.r_configs := [] |}.
Definition with_error_message (r : CreateTopics.CreatableTopicResult) (msg : string) : CreateTopics.CreatableTopicResult :=
  {| CreateTopics.r_name := CreateTopics.r_name r; CreateTopics.topic_id := CreateTopics.topic_id r;
     CreateTopics.error_code := CreateTopics.error_code r; CreateTopics.error_message := Some msg;
     CreateTopics.r_num_partitions := CreateTopics.r_num_partitions r;
     CreateTopics.r_replication_factor := CreateTopics.r_replication_factor r; CreateTopics.r_configs := CreateTopics.r_configs r |}.
Definition with_created (r : CreateTopics.CreatableTopicResult) (num_partitions replication_factor : Z) :
    CreateTopics.CreatableTopicResult :=
  {| CreateTopics.r_name := CreateTopics.r_name r; CreateTopics.topic_id := CreateTopics.topic_id r;
     CreateTopics.error_code := CreateTopics.error_code r; CreateTopics.error_message := CreateTopics.error_message r;
     CreateTopics.r_num_partitions := num_partitions; CreateTopics.r_replication_factor := replication_factor;
     CreateTopics.r_configs := CreateTopics.r_configs r |}.

(** A null value asks for the default. *)
Definition given_configs (cs : list CreateTopics.CreatableTopicConfig) : list (string * string) :=
  omap (λ c, (λ v, (CreateTopics.name c, v)) <$> CreateTopics.value c) cs.

Definition or_one (n : Z) : Z := if n <=? 0 then 1 else n.

Definition create_one (writer validate_only : bool) (fault : nat → option ApiFault) (i : nat) (objs : Objects)
    (t : CreateTopics.CreatableTopic) : Objects * CreateTopics.CreatableTopicResult :=
  let name := CreateTopics.t_name t in
  let num_partitions := or_one (CreateTopics.num_partitions t) in
  let replication_factor := or_one (CreateTopics.replication_factor t) in
  if negb (authz (Resource_topic name) Create) then (objs, new_result name 29)
  else if negb writer then (objs, with_error_message (new_result name 31) not_cluster)
  else
    let configs := given_configs (CreateTopics.configs t) in
    match create_configs_to_spec configs with
    | Err e => (objs, with_error_message (new_result name 40) (display e))
    | Ok _ =>
      if validate_only then (objs, with_created (new_result name 0) num_partitions replication_factor)
      else
        let '(objs, r) := create_topic sha1 (fault i) objs name num_partitions configs in
        (objs,
         match r with
         | Ok _ => with_created (new_result name 0) num_partitions replication_factor
         | Err (AlreadyExists _) => with_error_message (new_result name 36) "topic already exists"
         | Err Forbidden => with_error_message (new_result name 31) (message Forbidden)
         | Err (InvalidConfig f) => with_error_message (new_result name 40) (message (InvalidConfig f))
         | Err _ => new_result name (-1)
         end)
    end.

Definition handle_create_topics (writer : bool) (fault : nat → option ApiFault) (objs : Objects) (version : Z)
    (body : list byte) : Objects * enc :=
  match CreateTopics.decode_request version body with
  | Err err => (objs, Err err)
  | Ok (req, _) =>
    let '(objs, rs) :=
      serve_each (create_one writer (CreateTopics.validate_only req) fault) 0 objs (CreateTopics.topics req) in
    (objs, CreateTopics.encode_response
       {| CreateTopics.throttle_time_ms := 0; CreateTopics.resp_topics := rs |} version)
  end.

(** ** DeleteTopics *)

Definition deletable (name : string) (code : Z) (msg : option string) : DeleteTopics.DeletableTopicResult :=
  {| DeleteTopics.name := name; DeleteTopics.error_code := code; DeleteTopics.error_message := msg |}.

Definition delete_one (writer : bool) (fault : nat → option ApiFault) (i : nat) (s : Objects * TopicRegistry)
    (name : string) : (Objects * TopicRegistry) * DeleteTopics.DeletableTopicResult :=
  let '(objs, r) := s in
  if negb (authz (Resource_topic name) Acls.Delete) then (s, deletable name 29 None)
  else if writer then
    match delete_topic sha1 (fault i) objs name with
    | (objs, Ok _) => ((objs, remove_topic r name), deletable name 0 None)
    | (objs, Err (NoSuchTopic _)) => ((objs, r), deletable name 3 None)
    | (objs, Err e) => ((objs, r), deletable name 42 (Some (display e)))
    end
  else ((objs, remove_topic r name), deletable name 0 None).

Definition handle_delete_topics (writer : bool) (fault : nat → option ApiFault) (s : Objects * TopicRegistry)
    (version : Z) (body : list byte) : (Objects * TopicRegistry) * enc :=
  match DeleteTopics.decode_request version body with
  | Err err => (s, Err err)
  | Ok (req, _) =>
    let '(s, rs) := serve_each (delete_one writer fault) 0 s (DeleteTopics.topic_names req) in
    (s, DeleteTopics.encode_response {| DeleteTopics.throttle_time_ms := 0; DeleteTopics.responses := rs |} version)
  end.

(** ** CreatePartitions *)

Definition success_result (name : string) : CreatePartitions.CreatePartitionsTopicResult :=
  {| CreatePartitions.r_name := name; CreatePartitions.r_error_code := 0; CreatePartitions.r_error_message := None |}.
Definition error_result (name : string) (code : Z) (msg : option string) : CreatePartitions.CreatePartitionsTopicResult :=
  {| CreatePartitions.r_name := name; CreatePartitions.r_error_code := code; CreatePartitions.r_error_message := msg |}.

Definition expand_one (writer validate_only : bool) (fault : nat → option ApiFault * option ApiFault) (i : nat)
    (objs : Objects) (t : CreatePartitions.CreatePartitionsTopic) :
    Objects * CreatePartitions.CreatePartitionsTopicResult :=
  let name := CreatePartitions.name t in
  if negb (authz (Resource_topic name) Alter) then (objs, error_result name 29 None)
  else if negb writer then (objs, error_result name 31 (Some not_cluster))
  else if validate_only then (objs, success_result name)
  else
    let '(objs, r) := expand_topic sha1 (fault i).1 (fault i).2 objs name (CreatePartitions.count t) in
    (objs,
     match r with
     | Ok _ => success_result name
     | Err (NoSuchTopic _) => error_result name 3 None
     | Err (InvalidPartitions a b) => error_result name 37 (Some (message (InvalidPartitions a b)))
     | Err Forbidden => error_result name 31 (Some (message Forbidden))
     | Err _ => error_result name (-1) None
     end).

Definition handle_create_partitions (writer : bool) (fault : nat → option ApiFault * option ApiFault) (objs : Objects)
    (version : Z) (body : list byte) : Objects * enc :=
  match CreatePartitions.decode_request version body with
  | Err err => (objs, Err err)
  | Ok (req, _) =>
    let '(objs, rs) :=
      serve_each (expand_one writer (CreatePartitions.validate_only req) fault) 0 objs (CreatePartitions.topics req) in
    (objs, CreatePartitions.encode_response
       {| CreatePartitions.throttle_time_ms := 0; CreatePartitions.results := rs |} version)
  end.

(** ** IncrementalAlterConfigs *)

Definition wire_op_to_kind (op : Z) : ConfigOpKind :=
  if op =? 0 then OpSet else if op =? 1 then OpDelete else if op =? 2 then OpAppend else if op =? 3 then OpSubtract
  else OpSet.

Definition RESOURCE_TOPIC : Z := 2.
Definition RESOURCE_BROKER : Z := 4.

Definition only_topic : string := "only Topic resource type is supported".

Definition response_for (r : IncrementalAlterConfigs.AlterConfigsResource) (code : Z) (msg : option string) :
    IncrementalAlterConfigs.AlterConfigsResourceResponse :=
  {| IncrementalAlterConfigs.error_code := code; IncrementalAlterConfigs.error_message := msg;
     IncrementalAlterConfigs.r_resource_type := IncrementalAlterConfigs.resource_type r;
     IncrementalAlterConfigs.r_resource_name := IncrementalAlterConfigs.resource_name r |}.

Definition wire_ops (cs : list IncrementalAlterConfigs.AlterConfigOp) : list ConfigOpWithValue :=
  (λ c, {| co_key := IncrementalAlterConfigs.name c; co_kind := wire_op_to_kind (IncrementalAlterConfigs.op c);
           co_value := IncrementalAlterConfigs.value c |}) <$> cs.

Definition alter_one (writer validate_only : bool) (fault : nat → option ApiFault) (i : nat) (objs : Objects)
    (r : IncrementalAlterConfigs.AlterConfigsResource) :
    Objects * IncrementalAlterConfigs.AlterConfigsResourceResponse :=
  let name := IncrementalAlterConfigs.resource_name r in
  if negb (IncrementalAlterConfigs.resource_type r =? RESOURCE_TOPIC)
  then (objs, response_for r 35 (Some only_topic))
  else if negb (authz (Resource_topic name) AlterConfigs) then (objs, response_for r 29 None)
  else if negb writer then (objs, response_for r 31 (Some not_cluster))
  else
    let ops := wire_ops (IncrementalAlterConfigs.configs r) in
    match ops_to_config_patch ops with
    | Err (UnsupportedOp k) => (objs, response_for r 35 (Some (message (UnsupportedOp k))))
    | Err e => (objs, response_for r 40 (Some (display e)))
    | Ok _ =>
      if validate_only then (objs, response_for r 0 None)
      else
        let '(objs, res) := update_topic_config sha1 (fault i) objs name ops in
        (objs,
         match res with
         | Ok _ => response_for r 0 None
         | Err (NoSuchTopic _) => response_for r 3 None
         | Err (UnsupportedOp k) => response_for r 35 (Some (message (UnsupportedOp k)))
         | Err (InvalidConfig f) => response_for r 40 (Some (message (InvalidConfig f)))
         | Err Forbidden => response_for r 31 (Some (message Forbidden))
         | Err _ => response_for r (-1) None
         end)
    end.

Definition handle_incremental_alter_configs (writer : bool) (fault : nat → option ApiFault) (objs : Objects)
    (version : Z) (body : list byte) : Objects * enc :=
  match IncrementalAlterConfigs.decode_request version body with
  | Err err => (objs, Err err)
  | Ok (req, _) =>
    let '(objs, rs) :=
      serve_each (alter_one writer (IncrementalAlterConfigs.validate_only req) fault) 0 objs
        (IncrementalAlterConfigs.resources req) in
    (objs, IncrementalAlterConfigs.encode_response
       {| IncrementalAlterConfigs.throttle_time_ms := 0; IncrementalAlterConfigs.responses := rs |} version)
  end.

End handlers.

(** ** DescribeConfigs *)

(** *** The defaults ([topic_config_defaults.rs]) *)

Definition TYPE_UNKNOWN : Z := 0.
Definition TYPE_STRING : Z := 2.
Definition TYPE_INT : Z := 3.
Definition TYPE_LONG : Z := 5.
Definition TYPE_LIST : Z := 7.
Definition SOURCE_UNKNOWN : Z := 0.
Definition SOURCE_DYNAMIC_TOPIC : Z := 1.
Definition SOURCE_DEFAULT : Z := 5.

Record Entry := {
  dotted_name : string; default_value : option string; en_type : Z; en_documentation : string }.

Definition ALL_KEYS : list Entry :=
  [ {| dotted_name := "retention.ms"; default_value := Some "604800000"; en_type := TYPE_LONG;
       en_documentation := "Maximum time before old log segments are deleted. -1 = retain forever." |};
    {| dotted_name := "retention.bytes"; default_value := Some "-1"; en_type := TYPE_LONG;
       en_documentation := "Maximum total bytes per partition before old segments are deleted. -1 = unlimited." |};
    {| dotted_name := "segment.bytes"; default_value := Some "1073741824"; en_type := TYPE_INT;
       en_documentation := "Bytes at which the active segment rolls." |};
    {| dotted_name := "segment.ms"; default_value := Some "604800000"; en_type := TYPE_LONG;
       en_documentation := "Time after which the active segment rolls, even if it is under segment.bytes. -1 = never roll on time." |};
    {| dotted_name := "cleanup.policy"; default_value := Some "delete"; en_type := TYPE_LIST;
       en_documentation := "Either 'delete' (size/age retention), 'compact' (log compaction), or 'compact,delete'." |};
    {| dotted_name := "min.compaction.lag.ms"; default_value := Some "0"; en_type := TYPE_LONG;
       en_documentation := "Minimum time a message must remain uncompacted (KIP-58). 0 = compact immediately." |};
    {| dotted_name := "delete.retention.ms"; default_value := Some "86400000"; en_type := TYPE_LONG;
       en_documentation := "Tombstone retention for compacted topics (KIP-354). 0 = tombstones live forever." |};
    {| dotted_name := "message.timestamp.type"; default_value := Some "CreateTime"; en_type := TYPE_STRING;
       en_documentation := "Always CreateTime — kaas never rewrites record timestamps (LogAppendTime is not supported)." |};
    {| dotted_name := "flush.messages"; default_value := None; en_type := TYPE_LONG;
       en_documentation := "Fsync the log after this many records (gh #213). 1 = every batch; 0 = only at segment roll. Unset = the broker-wide flush interval." |} ].

Definition lookup_key (name : string) : option Entry := find (λ e, String.eqb (dotted_name e) name) ALL_KEYS.

Definition default_retention_ms : Z :=
  match lookup_key "retention.ms" with
  | Some e => match default_value e with Some v => default 604800000 (parse_signed 0 u64_max v) | None => 604800000 end
  | None => 604800000
  end.

(** *** The handler *)

Definition override_value (c : TopicConfigFile) (key : string) : option string :=
  if String.eqb key "retention.ms" then pretty <$> tc_retention_ms c
  else if String.eqb key "retention.bytes" then pretty <$> tc_retention_bytes c
  else if String.eqb key "segment.bytes" then pretty <$> tc_segment_bytes c
  else if String.eqb key "segment.ms" then pretty <$> tc_segment_ms c
  else if String.eqb key "cleanup.policy"
  then if String.eqb (tc_cleanup_policy c) "" then None else Some (tc_cleanup_policy c)
  else if String.eqb key "min.compaction.lag.ms" then pretty <$> tc_min_compaction_lag_ms c
  else if String.eqb key "delete.retention.ms" then pretty <$> tc_delete_retention_ms c
  else if String.eqb key "flush.messages" then pretty <$> tc_flush_messages c
  else None.

Definition synonym (name : string) (value : option string) (source : Z) : DescribeConfigs.DescribeConfigsSynonym :=
  {| DescribeConfigs.s_name := name; DescribeConfigs.s_value := value; DescribeConfigs.s_source := source |}.

Definition make_config (e : Entry) (over : option string) (version : Z) : DescribeConfigs.DescribeConfigsResultConfig :=
  let value := match over with Some v => Some v | None => default_value e end in
  {| DescribeConfigs.name := dotted_name e; DescribeConfigs.value := value; DescribeConfigs.read_only := false;
     DescribeConfigs.is_default := bool_decide (over = None); DescribeConfigs.is_sensitive := false;
     DescribeConfigs.synonyms :=
       if 1 <=? version then
         match over with Some _ => [synonym (dotted_name e) value SOURCE_DYNAMIC_TOPIC] | None => [] end ++
         [synonym (dotted_name e) (default_value e) SOURCE_DEFAULT]
       else [];
     DescribeConfigs.config_type := if 2 <=? version then en_type e else TYPE_UNKNOWN;
     DescribeConfigs.config_source :=
       if 1 <=? version then match over with Some _ => SOURCE_DYNAMIC_TOPIC | None => SOURCE_DEFAULT end
       else SOURCE_UNKNOWN;
     DescribeConfigs.documentation := if 3 <=? version then Some (en_documentation e) else None |}.

(** The keys a resource asks for; none given: all. *)
Definition asked (keys : option (list string)) (name : string) : bool :=
  match keys with None => true | Some ks => bool_decide (name ∈ ks) end.

Definition broker_entries (broker_id : Z) : list (string * string) :=
  [("broker.id", pretty broker_id); ("auto.create.topics.enable", "true"); ("num.partitions", "1");
   ("default.replication.factor", "1"); ("inter.broker.protocol.version", "3.6"); ("kafka.version", "3.6.0")].

Definition broker_configs (broker_id : Z) (keys : option (list string)) (version : Z) :
    list DescribeConfigs.DescribeConfigsResultConfig :=
  (λ e, {| DescribeConfigs.name := e.1; DescribeConfigs.value := Some e.2; DescribeConfigs.read_only := true;
           DescribeConfigs.is_default := true; DescribeConfigs.is_sensitive := false; DescribeConfigs.synonyms := [];
           DescribeConfigs.config_type := if 2 <=? version then TYPE_STRING else TYPE_UNKNOWN;
           DescribeConfigs.config_source := if 1 <=? version then SOURCE_DEFAULT else SOURCE_UNKNOWN;
           DescribeConfigs.documentation := None |})
    <$> filter (λ e, asked keys e.1 = true) (broker_entries broker_id).

Definition empty_config_file : TopicConfigFile := config_file_of KafkaTopicConfig_default.

(** [DiskStorageEngine::topic_config]: the file in [topic_dir] of partition 0, on the
    volume the placement names, wherever the data of the partition lies. *)
Definition topic_config (cfg : EngineConfig) (placement : Key → option string) (s : Shared) (topic : string) :
    option TopicConfigFile :=
  config_files s !! (log_dir_root cfg placement (topic, 0), topic).

Definition describe_one (broker_id : Z) (authz : Resource → Operation → bool) (registry : TopicRegistry)
    (stored : string → option TopicConfigFile) (version : Z) (r : DescribeConfigs.DescribeConfigsResource) :
    DescribeConfigs.DescribeConfigsResult :=
  let name := DescribeConfigs.resource_name r in
  let answer code msg configs :=
    {| DescribeConfigs.error_code := code; DescribeConfigs.error_message := msg;
       DescribeConfigs.r_resource_type := DescribeConfigs.resource_type r; DescribeConfigs.r_resource_name := name;
       DescribeConfigs.configs := configs |} in
  if DescribeConfigs.resource_type r =? RESOURCE_BROKER
  then answer 0 None (broker_configs broker_id (DescribeConfigs.configuration_keys r) version)
  else if negb (DescribeConfigs.resource_type r =? RESOURCE_TOPIC) then answer 35 (Some only_topic) []
  else if negb (authz (Resource_topic name) DescribeConfigs) then answer 29 None []
  else
    match get registry name with
    | None => answer 3 None []
    | Some _ =>
      let overrides := default empty_config_file (stored name) in
      answer 0 None
        ((λ e, make_config e (override_value overrides (dotted_name e)) version)
           <$> filter (λ e, asked (DescribeConfigs.configuration_keys r) (dotted_name e) = true) ALL_KEYS)
    end.

Definition handle_describe_configs (broker_id : Z) (authz : Resource → Operation → bool) (registry : TopicRegistry)
    (stored : string → option TopicConfigFile) (version : Z) (body : list byte) : enc :=
  match DescribeConfigs.decode_request version body with
  | Err err => Err err
  | Ok (req, _) =>
    DescribeConfigs.encode_response
      {| DescribeConfigs.throttle_time_ms := 0;
         DescribeConfigs.results := describe_one broker_id authz registry stored version <$> DescribeConfigs.resources req |}
      version
  end.

(** ** Log directories *)

(** [StorageEngine::log_dirs]: the data directory first. *)
Definition log_dirs (cfg : EngineConfig) : list LogDirInfo :=
  {| ld_name := DEFAULT_LOG_DIR_NAME; ld_path := data_dir cfg; default_eligible := true; cordoned := false; labels := ∅ |}
  :: extra_log_dirs cfg.

(** The registry's placement, as the engine resolves it. *)
Definition placement_of (r : TopicRegistry) : Key → option string := λ k, volume_assignment r k.1 k.2.

(** What moving partitions works on: the engine, the placement records and the
    volumes. *)
Record Movers := { mv_engine : Engine; mv_placement : gmap Key string; mv_volume : LogVolume }.

(** Per move: whether closing syncs and whether the record is written. *)
Definition move_one (cfg : EngineConfig) (known owns : Key → bool) (outcome : nat → bool * bool) (i : nat) (m : Movers)
    (k : Key) (log_dir : string) : Movers * Z :=
  let '(e, pl, v, code) :=
    migrate_partition cfg (known k) (owns k) (mv_placement m) (mv_engine m) (mv_volume m) k log_dir
      (outcome i).1 (outcome i).2 in
  ({| mv_engine := e; mv_placement := pl; mv_volume := v |}, code).

Definition add_result (results : gmap string (list AlterReplicaLogDirs.ResponsePartition)) (topic : string)
    (partition code : Z) : gmap string (list AlterReplicaLogDirs.ResponsePartition) :=
  <[topic := default [] (results !! topic) ++
     [{| AlterReplicaLogDirs.partition_index := partition; AlterReplicaLogDirs.error_code := code |}]]> results.

(** Every (directory, topic, partition) of the request. *)
Definition wanted_moves (dirs : list AlterReplicaLogDirs.RequestDir) : list (string * Key) :=
  concat ((λ d, concat ((λ t, (λ p, (AlterReplicaLogDirs.path d, (AlterReplicaLogDirs.name t, p)))
                                <$> AlterReplicaLogDirs.partitions t) <$> AlterReplicaLogDirs.topics d)) <$> dirs).

Definition alter_dir_one (cfg : EngineConfig) (known owns : Key → bool) (outcome : nat → bool * bool) (i : nat)
    (s : Movers * gmap string (list AlterReplicaLogDirs.ResponsePartition)) (w : string * Key) :
    (Movers * gmap string (list AlterReplicaLogDirs.ResponsePartition)) * Z :=
  let '(m, results) := s in
  let k := w.2 in
  let '(m, code) :=
    match find (λ d, String.eqb (ld_path d) w.1) (log_dirs cfg) with
    | None => (m, 57)
    | Some d => if cordoned d then (m, 42) else move_one cfg known owns outcome i m k (ld_name d)
    end in
  ((m, add_result results k.1 k.2 code), code).

Definition handle_alter_replica_log_dirs (cfg : EngineConfig) (known owns : Key → bool) (outcome : nat → bool * bool)
    (m : Movers) (version : Z) (body : list byte) : Movers * enc :=
  match AlterReplicaLogDirs.decode_request version body with
  | Err err => (m, Err err)
  | Ok (req, _) =>
    let '((m, results), _) :=
      serve_each (alter_dir_one cfg known owns outcome) 0 (m, ∅) (wanted_moves (AlterReplicaLogDirs.dirs req)) in
    (m, AlterReplicaLogDirs.encode_response
       {| AlterReplicaLogDirs.throttle_time_ms := 0;
          AlterReplicaLogDirs.results :=
            (λ e, {| AlterReplicaLogDirs.topic_name := e.1; AlterReplicaLogDirs.r_partitions := e.2 |})
              <$> merge_sort (λ a b, String.le a.1 b.1) (map_to_list results) |} version)
  end.

(** The driver of the migrate-to-volume annotation: partitions in order, those
    already there skipped, stopping at an unknown log directory. *)
Fixpoint drive (cfg : EngineConfig) (known owns : Key → bool) (outcome : nat → bool * bool) (name target : string)
    (ps : list Z) (m : Movers) : Movers :=
  match ps with
  | [] => m
  | p :: ps =>
    let placed := default DEFAULT_LOG_DIR_NAME (mv_placement m !! (name, p)) in
    if String.eqb placed target then drive cfg known owns outcome name target ps m
    else
      let '(m, code) := move_one cfg known owns outcome (Z.to_nat p) m (name, p) target in
      if code =? 57 then m else drive cfg known owns outcome name target ps m
  end.

(** *** DescribeLogDirs *)

Definition wanted (r : TopicRegistry) (topics : option (list DescribeLogDirs.RequestTopic)) : list (string * list Z) :=
  match topics with
  | None => (λ t, (tm_name t, seqZ 0 (partition_count t))) <$> all r
  | Some ts =>
    omap (λ t, (λ known, (DescribeLogDirs.name t,
                          match DescribeLogDirs.partitions t with [] => seqZ 0 (partition_count known) | ps => ps end))
               <$> get r (DescribeLogDirs.name t)) ts
  end.

Definition engine_partition_size (e : Engine) (k : Key) : Z :=
  from_option (λ rp, Partition.partition_size rp.2) 0 (partitions e !! k).

Definition describe_dir (cfg : EngineConfig) (capacity : string → Z * Z) (e : Engine) (placement : Key → option string)
    (want : list (string * list Z)) (dir : LogDirInfo) : DescribeLogDirs.LogDirResult :=
  {| DescribeLogDirs.d_error_code := 0; DescribeLogDirs.d_log_dir := ld_path dir;
     DescribeLogDirs.d_topics :=
       omap (λ np : string * list Z,
         match filter (λ p, partition_log_dir cfg placement (np.1, p) = ld_name dir) np.2 with
         | [] => None
         | ps => Some {| DescribeLogDirs.t_name := np.1;
                         DescribeLogDirs.t_partitions :=
                           (λ p, {| DescribeLogDirs.partition_index := p;
                                    DescribeLogDirs.partition_size := engine_partition_size e (np.1, p);
                                    DescribeLogDirs.offset_lag := 0; DescribeLogDirs.is_future_key := false |}) <$> ps |}
         end) want;
     DescribeLogDirs.d_total_bytes := (capacity (ld_path dir)).1; DescribeLogDirs.d_usable_bytes := (capacity (ld_path dir)).2 |}.

Definition handle_describe_log_dirs (cfg : EngineConfig) (capacity : string → Z * Z) (e : Engine) (r : TopicRegistry)
    (version : Z) (body : list byte) : enc :=
  match DescribeLogDirs.decode_request version body with
  | Err err => Err err
  | Ok (req, _) =>
    DescribeLogDirs.encode_response
      {| DescribeLogDirs.throttle_time_ms := 0; DescribeLogDirs.error_code := 0;
         DescribeLogDirs.results :=
           describe_dir cfg capacity e (placement_of r) (wanted r (DescribeLogDirs.topics req)) <$> log_dirs cfg |}
      version
  end.

(** ** What the settings of a topic amount to

    The reference: of the operations on a key the last one counts, an integer is
    shown in its shortest form. *)

Definition canonical (field v : string) : string :=
  if String.eqb field "cleanupPolicy" then v else from_option pretty v (parse_signed (- i64_max - 1) i64_max v).

Definition setting (field : string) (op : ConfigOpWithValue) : option string :=
  match co_kind op, co_value op with OpSet, Some v => Some (canonical field v) | _, _ => None end.

Definition last_setting (field : string) (old : option string) (ops : list ConfigOpWithValue) : option string :=
  foldl (λ acc op, if decide (config_key_to_json_field (co_key op) = Some field) then setting field op else acc) old ops.

(** The same for a key as clients spell it; one that names no field is not settable. *)
Definition described (key : string) (old : option string) (ops : list ConfigOpWithValue) : option string :=
  match config_key_to_json_field key with Some f => last_setting f old ops | None => None end.

Definition set_ops (configs : list (string * string)) : list ConfigOpWithValue :=
  (λ kv, {| co_key := kv.1; co_kind := OpSet; co_value := Some kv.2 |}) <$> configs.

(** *** Lemmas on patches *)

Definition json_ok (field : string) (j : ConfigJson) : Prop :=
  match j with CNum _ => field ≠ "cleanupPolicy" | CStr s => field = "cleanupPolicy" ∧ s ≠ "" | CNull => True end.
Definition patch_ok (m : gmap string ConfigJson) : Prop := ∀ f j, m !! f = Some j → json_ok f j.

Definition shown (j : ConfigJson) : option string :=
  match j with CNum n => Some (pretty n) | CStr s => Some s | CNull => None end.
Definition patched (m : gmap string ConfigJson) (f : string) (old : option string) : option string :=
  from_option shown old (m !! f).

Definition fields : list string := Eval compute in key_table.*2.

Lemma field_in_table key f : config_key_to_json_field key = Some f → f ∈ fields.
Proof.
  change fields with key_table.*2.
  unfold config_key_to_json_field. destruct (find _ key_table) as [[a b]|] eqn:E; [|done]. intros [= <-].
  apply List.find_some in E as [Hin%list_elem_of_In _]. apply list_elem_of_fmap. by exists (a, b).
Qed.

Lemma accept_only_no_field key : is_accept_only_key key = true → config_key_to_json_field key = None.
Proof.
  unfold is_accept_only_key. intros H%bool_decide_eq_true. rewrite !elem_of_cons, elem_of_nil in H.
  by destruct H as [->|[->|[]]].
Qed.

Lemma value_json key v f j :
  config_key_to_json_field key = Some f → config_value_to_json key v = Ok j →
  json_ok f j ∧ shown j = Some (canonical f v).
Proof.
  intros Hf. unfold config_value_to_json. rewrite Hf. pose proof (field_in_table _ _ Hf) as Hin.
  destruct (String.eqb_spec f "cleanupPolicy") as [->|Hne].
  - case_bool_decide as Hv; [|done]. intros [= <-]. split; [|done]. split; [done|]. intros ->. set_solver.
  - unfold fields in Hin. rewrite !elem_of_cons, elem_of_nil in Hin. unfold canonical. apply String.eqb_neq in Hne as He. rewrite He.
    destruct Hin as [->|[->|[->|[->|[->|[->|[->|[->|[]]]]]]]]]; try done;
      (destruct (parse_signed _ _ v) as [n|]; [|done]; intros [= <-]; done).
Qed.

Lemma op_patch op r :
  op_to_patch op = Ok r →
  match r with
  | None => config_key_to_json_field (co_key op) = None
  | Some (f, j) => config_key_to_json_field (co_key op) = Some f ∧ json_ok f j ∧ shown j = setting f op
  end.
Proof.
  unfold op_to_patch, setting. destruct op as [key kind val]. simpl. destruct kind; try done.
  - destruct (is_accept_only_key key) eqn:Ea.
    { intros H. assert (r = None) as -> by (repeat case_match; congruence). by apply accept_only_no_field. }
    destruct (config_key_to_json_field key) as [f|] eqn:Ef; [|done].
    destruct val as [v|]; [|by intros [= <-]].
    destruct (config_value_to_json key v) as [j|] eqn:Ej; [|done]. intros [= <-]. split; [done|]. by eapply value_json.
  - destruct (is_accept_only_key key) eqn:Ea; [intros [= <-]; by apply accept_only_no_field|].
    destruct (config_key_to_json_field key) as [f|] eqn:Ef; [|done]. by intros [= <-].
Qed.

Lemma ops_patch ops : ∀ out m,
  ops_to_patch out ops = Ok m → patch_ok out →
  patch_ok m ∧ ∀ f old, patched m f old = last_setting f (patched out f old) ops.
Proof.
  induction ops as [|op ops IH]; simpl; intros out m H Hout; [by simplify_eq|].
  destruct (op_to_patch op) as [r|] eqn:Eop; [|done]. apply op_patch in Eop. destruct r as [[f j]|].
  - destruct Eop as (Hf&Hj&Hs). apply IH in H as [Hm Hp].
    2:{ intros f' j'. rewrite lookup_insert_Some. intros [[<- <-]|[_ Hl]]; [done|by apply Hout]. }
    split; [done|]. intros f' old. rewrite Hp. unfold last_setting. simpl. f_equal. unfold patched. rewrite Hf.
    case_decide as E; [simplify_eq; by rewrite lookup_insert_eq|]. by rewrite lookup_insert_ne by congruence.
  - apply IH in H as [Hm Hp]; [|done]. split; [done|]. intros f' old. rewrite Hp. unfold last_setting. simpl.
    by rewrite Eop.
Qed.

Lemma configs_as_ops configs : ∀ out, configs_to_spec out configs = ops_to_patch out (set_ops configs).
Proof.
  induction configs as [|[k v] configs IH]; intros out; [done|].
  cbn [configs_to_spec]. unfold set_ops. csimpl. cbn [ops_to_patch]. unfold op_to_patch. simpl.
  destruct (is_accept_only_key k); [destruct (validate_accept_only k v); [apply IH|done]|].
  destruct (config_key_to_json_field k) as [f|]; [|done]. destruct (config_value_to_json k v); [apply IH|done].
Qed.

(** A patched configuration, as DescribeConfigs shows it. *)
Lemma merged_override m c key f :
  patch_ok m → (key, f) ∈ key_table →
  override_value (config_file_of (merge_config m c)) key = patched m f (override_value (config_file_of c) key).
Proof.
  intros Hm Hin. unfold key_table in Hin. rewrite !elem_of_cons, elem_of_nil in Hin. pose proof (Hm f) as Hf. unfold patched.
  destruct Hin as [E|[E|[E|[E|[E|[E|[E|[E|[]]]]]]]]]; simplify_eq;
    unfold override_value, merge_config, merge_int, config_file_of; cbn -[pretty];
    destruct (m !! _) as [[n|s|]|]; cbn -[pretty]; try done;
    try (by destruct (Hf _ eq_refl)).
  destruct (Hf _ eq_refl) as [_ Hs]. apply String.eqb_neq in Hs. by rewrite Hs.
Qed.

Lemma described_keys e : e ∈ ALL_KEYS →
  (∃ f, config_key_to_json_field (dotted_name e) = Some f ∧ (dotted_name e, f) ∈ key_table) ∨
  (config_key_to_json_field (dotted_name e) = None ∧ ∀ c, override_value c (dotted_name e) = None).
Proof.
  intros He. unfold ALL_KEYS in He.
  repeat (apply elem_of_cons in He as [->|He];
    [first [left; eexists; split; [vm_compute; reflexivity|repeat first [apply list_elem_of_here|apply list_elem_of_further]]
           |by right]|]).
  by apply elem_of_nil in He.
Qed.

(** What an accepted list of operations makes of every key. *)
Lemma ops_described ops m c e :
  ops_to_config_patch ops = Ok m → e ∈ ALL_KEYS →
  override_value (config_file_of (merge_config m c)) (dotted_name e) =
  described (dotted_name e) (override_value (config_file_of c) (dotted_name e)) ops.
Proof.
  intros H He. apply ops_patch in H as [Hm Hp]; [|by intros f j]. unfold described.
  destruct (described_keys e He) as [(f&Hf&Hin)|[Hf Hno]]; rewrite Hf; [|apply Hno].
  rewrite (merged_override m c _ f), Hp by done. done.
Qed.

(** *** Where the settings are read *)

Section visible.
Context (cfg : EngineConfig).
Hypothesis pool_named : ∀ d, d ∈ extra_log_dirs cfg → ld_name d ≠ DEFAULT_LOG_DIR_NAME.

Lemma log_dir_root_of placement k n :
  placement k = Some n → log_dir_root cfg placement k = root_of cfg n.
Proof.
  intros Hp. unfold log_dir_root, root_of, pool_find. rewrite Hp.
  destruct (String.eqb_spec n DEFAULT_LOG_DIR_NAME) as [->|Hn].
  - destruct (list_find _ _) as [[i d]|] eqn:E; [|done]. apply list_find_Some in E as (Hl&Hd&_).
    by destruct (pool_named d); [eapply list_elem_of_lookup_2|].
  - generalize (extra_log_dirs cfg). intros l. induction l as [|d l IH]; [done|]. simpl.
    destruct (decide (ld_name d = n)) as [E|E]; [by rewrite bool_decide_eq_true_2|].
    rewrite bool_decide_eq_false_2 by done. rewrite <- IH. by destruct (list_find _ l) as [[i d']|].
Qed.

Lemma volume_assignment_view r t p :
  volume_assignment r t p = (reg_view r t).1.2 !! (pretty p : string).
Proof. unfold volume_assignment, reg_view. simpl. by destruct (volume_assignments r !! t). Qed.

Lemma plan_for_named meta o fresh pl : plan_for cfg meta o fresh = Some pl → pl_topic pl ≠ "".
Proof.
  intros Hp. pose proof (plan_for_spec _ _ _ _ _ Hp) as (->&_). revert Hp. unfold plan_for.
  destruct (kt_deleting o); [done|]. by destruct (String.eqb_spec (effective_topic_name meta o) "").
Qed.

(** Once an object is reconciled and its event delivered, a topic's configuration
    file is found and is the object's. *)
Lemma reconciled_config meta o o' fresh pl w ann s :
  plan_for cfg meta o fresh = Some pl → objects w !! meta = Some o → 1 ≤ kt_partitions o →
  let w' := reconcile cfg meta o fresh w in
  objects w' !! meta = Some o' →
  let r := wb_registry (watch_event s (Apply meta {| ob_topic := o'; ob_migrate := ann |})).1 in
  is_Some (get r (pl_topic pl)) ∧
  topic_config cfg (placement_of r) (shared w') (pl_topic pl) = Some (config_file_of (kt_config o)).
Proof.
  intros Hp Ho Hn w' Ho' r.
  destruct (reconcile_result cfg meta o fresh pl w o Hp Ho) as (Hobj&Hdirs&Hroots). fold w' in Hobj, Hdirs, Hroots.
  rewrite Hobj in Ho'. injection Ho' as <-.
  pose proof (plan_for_spec _ _ _ _ _ Hp) as (Ht&Hc&_&_&_&_&eligible&_&Ha).
  pose proof (plan_for_named _ _ _ _ Hp) as Hne.
  assert (0 ∈ seqZ 0 (kt_partitions o)) as H0 by (apply elem_of_seqZ; lia).
  set (ob := {| ob_topic := with_status o (planned_status pl); ob_migrate := ann |}) in *.
  assert (watched_name meta ob = pl_topic pl) as Hname by (rewrite Ht; done).
  assert (reg_view r (pl_topic pl) = obj_view meta ob) as Hv.
  { subst r. destruct (watch_event_view s (Apply meta ob) (pl_topic pl)) as [-> _]. simpl.
    destruct (handle_apply_view s.1 s.2 meta ob (pl_topic pl)) as [-> _]; [by rewrite Hname|].
    by rewrite decide_True by done. }
  assert (is_Some (pl_assignments pl !! (pretty 0 : string))) as [n Hpl].
  { rewrite Ha. by apply (extend_spec eligible (kt_partitions o)
      (match kt_status o with Some s => ks_volume_assignments s | None => ∅ end)). }
  split.
  { unfold reg_view in Hv. injection Hv as Hv _ _. apply fmap_Some in Hv as (m&Hg&_). by rewrite Hg. }
  assert (placement_of r (pl_topic pl, 0) = Some n) as Hplace.
  { unfold placement_of. rewrite volume_assignment_view. cbn [fst snd]. rewrite Hv. exact Hpl. }
  unfold topic_config. rewrite (log_dir_root_of _ _ n Hplace).
  replace (root_of cfg n) with (partition_place cfg pl 0) by (unfold partition_place; by rewrite Hpl).
  apply Hroots. by apply (Hdirs 0).
Qed.

End visible.

Lemma described_answer bid authz r stored version name keys c (over : Entry → option string) :
  authz (Resource_topic name) DescribeConfigs = true → is_Some (get r name) → stored name = Some c →
  (∀ e, e ∈ ALL_KEYS → override_value c (dotted_name e) = over e) →
  describe_one bid authz r stored version
    {| DescribeConfigs.resource_type := RESOURCE_TOPIC; DescribeConfigs.resource_name := name;
       DescribeConfigs.configuration_keys := keys |} =
  {| DescribeConfigs.error_code := 0; DescribeConfigs.error_message := None;
     DescribeConfigs.r_resource_type := RESOURCE_TOPIC; DescribeConfigs.r_resource_name := name;
     DescribeConfigs.configs :=
       (λ e, make_config e (over e) version) <$> filter (λ e, asked keys (dotted_name e) = true) ALL_KEYS |}.
Proof.
  intros Hauth [m Hm] Hs Hover. unfold describe_one. cbv zeta.
  cbn [DescribeConfigs.resource_type DescribeConfigs.resource_name DescribeConfigs.configuration_keys].
  change (RESOURCE_TOPIC =? RESOURCE_BROKER) with false. change (RESOURCE_TOPIC =? RESOURCE_TOPIC) with true.
  cbn [negb]. rewrite Hauth, Hm, Hs. cbn [negb default from_option id]. f_equal.
  apply list_fmap_ext. intros i e He. f_equal. apply Hover.
  apply list_elem_of_lookup_2, list_elem_of_filter in He. tauto.
Qed.

(** ** Creating and describing *)

Section admin.
Context (sha1 : list byte → list byte) (display message : TopicWriteError → string).
Context (authz : Resource → Operation → bool).

(** The object an accepted CreateTopics entry makes. *)
Lemma created_object fault i objs t objs' res :
  CreateTopics.t_name t ≠ "" →
  create_one sha1 display message authz true false fault i objs t = (objs', res) → CreateTopics.error_code res = 0 →
  ∃ m, let name := CreateTopics.t_name t in
    let meta := (name_for_cr sha1 name).1 in
    let o := {| kt_deleting := false; kt_topic_name := (name_for_cr sha1 name).2;
                kt_partitions := or_one (CreateTopics.num_partitions t);
                kt_config := merge_config m KafkaTopicConfig_default; kt_storage := None; kt_status := None |} in
    ops_to_config_patch (set_ops (given_configs (CreateTopics.configs t))) = Ok m ∧
    objs !! meta = None ∧ objs' = <[meta := o]> objs ∧
    effective_topic_name meta o = name.
Proof.
  intros Hname. unfold create_one. destruct (authz _ Create); simpl; [|intros [= <- <-]; done].
  set (configs := given_configs (CreateTopics.configs t)).
  destruct (create_configs_to_spec configs) as [m|e] eqn:Em; [|by intros [= <- <-]].
  unfold create_topic. destruct (build_cr sha1 _ _ configs) as [[meta cr]|e] eqn:Eb.
  2:{ unfold build_cr in Eb. rewrite Em in Eb. by destruct (name_for_cr sha1 _). }
  pose proof (build_cr_named _ _ _ _ _ _ Hname Eb) as [Hnamed _].
  unfold build_cr in Eb. rewrite Em in Eb.
  destruct (name_for_cr sha1 (CreateTopics.t_name t)) as [meta' tn] eqn:En. injection Eb as <- <-.
  destruct (fault i) as [[]|]; [by intros [= <- <-]..|].
  destruct (schema_ok _) eqn:Es; simpl; [|by intros [= <- <-]].
  destruct (objs !! meta') eqn:El; [by intros [= <- <-]|]. intros [= <- <-] _. exists m.
  unfold create_configs_to_spec in Em. rewrite configs_as_ops in Em. split_and!; try done.
Qed.

Lemma new_object_plan cfg meta o fresh name :
  kt_deleting o = false → kt_status o = None → kt_storage o = None → effective_topic_name meta o = name → name ≠ "" →
  ∃ pl, plan_for cfg meta o fresh = Some pl ∧ pl_topic pl = name.
Proof.
  intros Hd Hs Hst Hn Hne. unfold plan_for. rewrite Hd, Hs, Hst, Hn. apply String.eqb_neq in Hne. rewrite Hne. simpl. eauto.
Qed.

(** A topic's settings survive the trip through the cluster.  When CreateTopics
    answers a topic with success, its object can be reconciled; after that and the
    watch event of the reconciled object, DescribeConfigs answers the topic with
    exactly the settings of the request: of repeated keys the last counts, either
    spelling of a key is the same key, integers are shown in shortest form, and
    every key the request did not set is shown with its default. *)
Theorem created_configs_described cfg fault i w t objs' res fresh ann s bid version keys :
  let name := CreateTopics.t_name t in
  (∀ d, d ∈ extra_log_dirs cfg → ld_name d ≠ DEFAULT_LOG_DIR_NAME) →
  name ≠ "" → authz (Resource_topic name) DescribeConfigs = true →
  create_one sha1 display message authz true false fault i (objects w) t = (objs', res) →
  CreateTopics.error_code res = 0 →
  ∃ meta o o', let w' := reconcile cfg meta o fresh {| objects := objs'; shared := shared w |} in
    objects w !! meta = None ∧ objs' !! meta = Some o ∧ effective_topic_name meta o = name ∧
    kt_partitions o = CreateTopics.r_num_partitions res ∧ objects w' !! meta = Some o' ∧
    let r := wb_registry (watch_event s (Apply meta {| ob_topic := o'; ob_migrate := ann |})).1 in
    describe_one bid authz r (topic_config cfg (placement_of r) (shared w')) version
      {| DescribeConfigs.resource_type := RESOURCE_TOPIC; DescribeConfigs.resource_name := name;
         DescribeConfigs.configuration_keys := keys |} =
    {| DescribeConfigs.error_code := 0; DescribeConfigs.error_message := None;
       DescribeConfigs.r_resource_type := RESOURCE_TOPIC; DescribeConfigs.r_resource_name := name;
       DescribeConfigs.configs :=
         (λ e, make_config e
                 (described (dotted_name e) None (set_ops (given_configs (CreateTopics.configs t)))) version)
           <$> filter (λ e, asked keys (dotted_name e) = true) ALL_KEYS |}.
Proof.
  intros name Hpool Hne Hauth Hc Hcode.
  assert (CreateTopics.r_num_partitions res = or_one (CreateTopics.num_partitions t)) as Hn.
  { revert Hcode. revert Hc. unfold create_one. repeat case_match; intros; simplify_eq; done. }
  destruct (created_object _ _ _ _ _ _ Hne Hc Hcode) as (m&Hm&Hno&->&Heff). cbv zeta in *.
  set (o := {| kt_deleting := false |}) in *. set (meta := (name_for_cr sha1 (CreateTopics.t_name t)).1) in *.
  set (w1 := {| objects := <[meta := o]> (objects w); shared := shared w |}).
  destruct (new_object_plan cfg meta o fresh name) as (pl&Hp&Ht); [done..|].
  assert (objects w1 !! meta = Some o) as Ho by apply lookup_insert_eq.
  destruct (reconcile_result cfg meta o fresh pl w1 o Hp Ho) as (Hobj&_&_).
  exists meta, o, (with_status o (planned_status pl)).
  assert (1 ≤ kt_partitions o) as H1 by (simpl; unfold or_one; case_match; lia).
  destruct (reconciled_config cfg Hpool meta o (with_status o (planned_status pl)) fresh pl w1 ann s Hp Ho H1) as [Hget Hcfg]; [exact Hobj|].
  split_and!; [done|done|done|done|exact Hobj|].
  rewrite Ht in Hget, Hcfg. apply (described_answer _ _ _ _ _ _ _ _ _ Hauth Hget Hcfg).
  intros e He. change (kt_config o) with (merge_config m KafkaTopicConfig_default).
  rewrite (ops_described _ _ _ _ Hm He). unfold described. case_match; [|done]. f_equal.
  destruct (described_keys e He) as [(f&_&Hin)|[_ ->]]; [|done].
  unfold key_table in Hin. by repeat (apply elem_of_cons in Hin as [[= -> _]|Hin]; [done|]); apply elem_of_nil in Hin.
Qed.

(** The object an accepted IncrementalAlterConfigs entry leaves. *)
Lemma altered_object fault i objs r objs' res :
  alter_one sha1 display message authz true false fault i objs r = (objs', res) →
  IncrementalAlterConfigs.error_code res = 0 →
  ∃ m o, let meta := (name_for_cr sha1 (IncrementalAlterConfigs.resource_name r)).1 in
    ops_to_config_patch (wire_ops (IncrementalAlterConfigs.configs r)) = Ok m ∧ objs !! meta = Some o ∧
    objs' = <[meta := with_config o (merge_config m (kt_config o))]> objs.
Proof.
  unfold alter_one. destruct (_ =? _); simpl; [|by intros [= <- <-]].
  destruct (authz _ _); simpl; [|by intros [= <- <-]].
  set (ops := wire_ops (IncrementalAlterConfigs.configs r)).
  destruct (ops_to_config_patch ops) as [m|e] eqn:Em; [|by destruct e; intros [= <- <-]].
  unfold update_topic_config. rewrite Em. unfold patch_object.
  destruct (fault i) as [[]|]; [by intros [= <- <-]..|].
  destruct (objs !! _) as [o|] eqn:Eo; [|by intros [= <- <-]].
  destruct (schema_ok _); [|by intros [= <- <-]]. intros [= <- <-] _. by exists m, o.
Qed.

(** C34. Altered settings take effect and nothing else changes.  When
    IncrementalAlterConfigs answers a topic with success, then after the topic is
    reconciled and the event delivered DescribeConfigs shows of every key what the
    last operation on it says (set: the value; deleted or set to null: the default),
    and of every other key what it showed before, to a caller who may see them.  No
    volume of the pool has the name of the default one. *)
Theorem altered_configs_described cfg fault i w r o objs' res fresh ann s bid version keys :
  let name := IncrementalAlterConfigs.resource_name r in
  let meta := (name_for_cr sha1 name).1 in
  (∀ d, d ∈ extra_log_dirs cfg → ld_name d ≠ DEFAULT_LOG_DIR_NAME) →
  authz (Resource_topic name) DescribeConfigs = true →
  objects w !! meta = Some o → effective_topic_name meta o = name → 1 ≤ kt_partitions o →
  alter_one sha1 display message authz true false fault i (objects w) r = (objs', res) →
  IncrementalAlterConfigs.error_code res = 0 →
  ∃ o1, objs' = <[meta := o1]> (objects w) ∧ kt_partitions o1 = kt_partitions o ∧ kt_status o1 = kt_status o ∧
    ∀ pl, plan_for cfg meta o1 fresh = Some pl →
      let w' := reconcile cfg meta o1 fresh {| objects := objs'; shared := shared w |} in
      ∃ o', objects w' !! meta = Some o' ∧
        let r' := wb_registry (watch_event s (Apply meta {| ob_topic := o'; ob_migrate := ann |})).1 in
        describe_one bid authz r' (topic_config cfg (placement_of r') (shared w')) version
          {| DescribeConfigs.resource_type := RESOURCE_TOPIC; DescribeConfigs.resource_name := name;
             DescribeConfigs.configuration_keys := keys |} =
        {| DescribeConfigs.error_code := 0; DescribeConfigs.error_message := None;
           DescribeConfigs.r_resource_type := RESOURCE_TOPIC; DescribeConfigs.r_resource_name := name;
           DescribeConfigs.configs :=
             (λ e, make_config e
                     (described (dotted_name e) (override_value (config_file_of (kt_config o)) (dotted_name e))
                        (wire_ops (IncrementalAlterConfigs.configs r))) version)
               <$> filter (λ e, asked keys (dotted_name e) = true) ALL_KEYS |}.
Proof.
  intros name meta Hpool Hauth Ho Heff Hn Hc Hcode.
  destruct (altered_object _ _ _ _ _ _ Hc Hcode) as (m&o2&Hm&Ho2&->). fold name meta in Ho2 |- *.
  rewrite Ho in Ho2. injection Ho2 as <-. set (o1 := with_config o (merge_config m (kt_config o))).
  exists o1. split_and!; [done..|]. intros pl Hp.
  pose proof (plan_for_spec _ _ _ _ _ Hp) as (Ht&_). change (effective_topic_name meta o1) with (effective_topic_name meta o) in Ht.
  rewrite Heff in Ht. set (w1 := {| objects := <[meta := o1]> (objects w); shared := shared w |}).
  assert (objects w1 !! meta = Some o1) as Ho1 by apply lookup_insert_eq.
  destruct (reconcile_result cfg meta o1 fresh pl w1 o1 Hp Ho1) as (Hobj&_&_).
  exists (with_status o1 (planned_status pl)). split; [exact Hobj|].
  destruct (reconciled_config cfg Hpool meta o1 (with_status o1 (planned_status pl)) fresh pl w1 ann s Hp Ho1 Hn) as [Hget Hcfg];
    [exact Hobj|].
  rewrite Ht in Hget, Hcfg. apply (described_answer _ _ _ _ _ _ _ _ _ Hauth Hget Hcfg).
  intros e He. change (kt_config o1) with (merge_config m (kt_config o)). by apply ops_described.
Qed.

(** ** Refused requests *)

Lemma serve_each_changes {A B} (f : nat → Objects → A → Objects * B) (okb : B → Prop) (meta_of : A → string) :
  (∀ i objs a objs' b, f i objs a = (objs', b) → objs' = objs ∨ (okb b ∧ ∀ k, k ≠ meta_of a → objs' !! k = objs !! k)) →
  ∀ l i objs objs' bs, serve_each f i objs l = (objs', bs) →
  ∀ k, objs' !! k ≠ objs !! k → ∃ j a b, l !! j = Some a ∧ bs !! j = Some b ∧ meta_of a = k ∧ okb b.
Proof.
  intros Hf l. induction l as [|a l IH]; simpl; intros i objs objs' bs H k Hk; [by simplify_eq|].
  destruct (f i objs a) as [objs1 b] eqn:Ef. destruct (serve_each f (i + 1) objs1 l) as [objs2 bs'] eqn:Es.
  injection H as <- <-.
  assert (objs1 !! k = objs !! k ∨ (meta_of a = k ∧ okb b)) as [E|[Hm Hok]].
  { destruct (Hf _ _ _ _ _ Ef) as [->|[Hok Hne]]; [by left|].
    destruct (decide (meta_of a = k)) as [|Hm]; [by right|left]. by apply Hne. }
  - rewrite <- E in Hk. destruct (IH _ _ _ _ Es k Hk) as (j&a'&b'&?&?&?&?). by exists (S j), a', b'.
  - by exists 0%nat, a, b.
Qed.

Lemma patch_object_spec fault objs meta f e objs' r :
  patch_object fault objs meta f e = (objs', r) →
  (objs' = objs ∧ is_ok r = false) ∨ (is_ok r = true ∧ ∃ t, objs !! meta = Some t ∧ objs' = <[meta := f t]> objs).
Proof.
  unfold patch_object. destruct fault; [intros [= <- <-]; by left|].
  destruct (objs !! meta) as [t|]; [|intros [= <- <-]; by left].
  case_match; intros [= <- <-]; [right; eauto|by left].
Qed.

Definition cr_name (name : string) : string := (name_for_cr sha1 name).1.

(** Objects change only where the answer says so: after a CreateTopics,
    CreatePartitions or IncrementalAlterConfigs request an object that is not what
    it was belongs to an entry that was answered with success; a request that asks
    to validate only changes none. *)
Theorem no_change_without_success writer validate_only fault fault2 objs objs1 objs2 objs3 ts ps rs bs1 bs2 bs3 k :
  serve_each (create_one sha1 display message authz writer validate_only fault) 0 objs ts = (objs1, bs1) →
  serve_each (expand_one sha1 message authz writer validate_only fault2) 0 objs ps = (objs2, bs2) →
  serve_each (alter_one sha1 display message authz writer validate_only fault) 0 objs rs = (objs3, bs3) →
  (objs1 !! k ≠ objs !! k → validate_only = false ∧ ∃ j t b, ts !! j = Some t ∧ bs1 !! j = Some b ∧
     cr_name (CreateTopics.t_name t) = k ∧ CreateTopics.error_code b = 0) ∧
  (objs2 !! k ≠ objs !! k → validate_only = false ∧ ∃ j t b, ps !! j = Some t ∧ bs2 !! j = Some b ∧
     cr_name (CreatePartitions.name t) = k ∧ CreatePartitions.r_error_code b = 0) ∧
  (objs3 !! k ≠ objs !! k → validate_only = false ∧ ∃ j r b, rs !! j = Some r ∧ bs3 !! j = Some b ∧
     cr_name (IncrementalAlterConfigs.resource_name r) = k ∧ IncrementalAlterConfigs.error_code b = 0).
Proof.
  intros H1 H2 H3.
  assert (∀ i o t o' b, create_one sha1 display message authz writer validate_only fault i o t = (o', b) →
    o' = o ∨ (validate_only = false ∧ CreateTopics.error_code b = 0) ∧
             ∀ k, k ≠ cr_name (CreateTopics.t_name t) → o' !! k = o !! k) as C1.
  { intros i o t o' b. unfold create_one. cbv zeta. repeat (case_match; [by simpl; intros [=]; subst; left|]).
    destruct (create_configs_to_spec _); [|by simpl; intros [=]; subst; left]. destruct validate_only; [by simpl; intros [=]; subst; left|].
    unfold create_topic, build_cr. destruct (create_configs_to_spec _); [|by simpl; intros [=]; subst; left].
    destruct (name_for_cr sha1 (CreateTopics.t_name t)) as [meta tn] eqn:En.
    destruct (fault i); [by simpl; intros [=]; subst; left|]. destruct (schema_ok _); simpl; [|by intros [=]; subst; left].
    destruct (o !! meta) eqn:Eo; [by intros [=]; subst; left|]. simpl; intros [=]; subst. right. split; [done|].
    intros k' Hk. unfold cr_name in Hk. rewrite En in Hk. simpl in Hk. apply (lookup_insert_ne (M := gmap string)); unfold cr_name in *; congruence. }
  assert (∀ i o t o' b, expand_one sha1 message authz writer validate_only fault2 i o t = (o', b) →
    o' = o ∨ (validate_only = false ∧ CreatePartitions.r_error_code b = 0) ∧
             ∀ k, k ≠ cr_name (CreatePartitions.name t) → o' !! k = o !! k) as C2.
  { intros i o t o' b. unfold expand_one. cbv zeta. repeat (case_match; [by simpl; intros [=]; subst; left|]).
    unfold expand_topic. destruct (fault2 i).1; [by simpl; intros [=]; subst; left|].
    destruct (o !! _); [|by simpl; intros [=]; subst; left]. destruct (_ <? _); [by simpl; intros [=]; subst; left|].
    destruct (patch_object _ _ _ _ _) as [o2 r] eqn:Ep. simpl; intros [=]; subst.
    apply patch_object_spec in Ep as [[-> _]|(Hr&t'&_&->)]; [by left|]. right. destruct r; [|done].
    split; [done|]. intros k' Hk. apply (lookup_insert_ne (M := gmap string)); unfold cr_name in *; congruence. }
  assert (∀ i o t o' b, alter_one sha1 display message authz writer validate_only fault i o t = (o', b) →
    o' = o ∨ (validate_only = false ∧ IncrementalAlterConfigs.error_code b = 0) ∧
             ∀ k, k ≠ cr_name (IncrementalAlterConfigs.resource_name t) → o' !! k = o !! k) as C3.
  { intros i o t o' b. unfold alter_one. cbv zeta. repeat (case_match; [by simpl; intros [=]; subst; left|]).
    destruct (ops_to_config_patch _) as [m|e] eqn:Em; [|destruct e; by simpl; intros [=]; subst; left].
    destruct validate_only; [by simpl; intros [=]; subst; left|]. unfold update_topic_config. rewrite Em.
    destruct (patch_object _ _ _ _ _) as [o2 r] eqn:Ep. simpl; intros [=]; subst.
    apply patch_object_spec in Ep as [[-> _]|(Hr&t'&_&->)]; [by left|]. right. destruct r; [|done].
    split; [done|]. intros k' Hk. apply (lookup_insert_ne (M := gmap string)); unfold cr_name in *; congruence. }
  split_and!; intros Hk.
  - destruct (serve_each_changes _ _ _ C1 _ _ _ _ _ H1 k Hk) as (j&a&b&?&?&?&?&?). eauto 10.
  - destruct (serve_each_changes _ _ _ C2 _ _ _ _ _ H2 k Hk) as (j&a&b&?&?&?&?&?). eauto 10.
  - destruct (serve_each_changes _ _ _ C3 _ _ _ _ _ H3 k Hk) as (j&a&b&?&?&?&?&?). eauto 10.
Qed.

(** ** Deleting *)

Lemma delete_one_spec fault i s name s' b :
  delete_one sha1 display authz true fault i s name = (s', b) →
  (DeleteTopics.error_code b = 0 → s'.1 !! cr_name name = None ∧ get s'.2 name = None) ∧
  (DeleteTopics.error_code b ≠ 0 → s' = s) ∧
  (∀ k, s.1 !! k = None → s'.1 !! k = None) ∧ (∀ n, get s.2 n = None → get s'.2 n = None).
Proof.
  destruct s as [objs r]. unfold delete_one, delete_topic. destruct (authz _ _); simpl; [|by intros [= <- <-]].
  destruct (fault i) as [[]|]; [by intros [= <- <-]..|]. fold (cr_name name).
  destruct (objs !! cr_name name) eqn:Eo; [|by intros [= <- <-]]. intros [= <- <-]. simpl. split_and!; [|done| |].
  - intros _. split; [apply lookup_delete_eq|]. unfold get. simpl. apply lookup_delete_eq.
  - intros k' Hk. apply lookup_delete_None. by right.
  - intros n Hn. unfold get in *. simpl. apply lookup_delete_None. by right.
Qed.

Lemma deletes_keep_gone fault names : ∀ i s s' bs,
  serve_each (delete_one sha1 display authz true fault) i s names = (s', bs) →
  (∀ k, s.1 !! k = None → s'.1 !! k = None) ∧ (∀ n, get s.2 n = None → get s'.2 n = None).
Proof.
  induction names as [|name names IH]; simpl; intros i s s' bs H; [by simplify_eq|].
  destruct (delete_one _ _ _ _ _ _ _ _) as [s1 b] eqn:Ed. destruct (serve_each _ _ s1 names) as [s2 bs'] eqn:Es.
  injection H as <- <-. destruct (delete_one_spec _ _ _ _ _ _ Ed) as (_&_&H1&H2).
  destruct (IH _ _ _ _ Es) as [H3 H4]. split; auto.
Qed.

(** A topic DeleteTopics reports deleted is gone: its object does not exist, the
    registry does not have it, and produce and fetch requests for it are answered
    as unknown, whatever else the same request deletes. *)
Theorem deleted_topic_unserved fault objs r names s' bs j name b :
  serve_each (delete_one sha1 display authz true fault) 0 (objs, r) names = (s', bs) →
  names !! j = Some name → bs !! j = Some b → DeleteTopics.error_code b = 0 →
  s'.1 !! cr_name name = None ∧ get s'.2 name = None ∧
  ∀ c e now i, ProduceHandler.gate authz now {| db_topics := s'.2; db_cluster := c; db_engine := e |} name i = Some 3 ∧
    FetchHandler.gate authz {| db_topics := s'.2; db_cluster := c; db_engine := e |} name i = Some 3.
Proof.
  intros H Hj Hb Hc. assert (s'.1 !! cr_name name = None ∧ get s'.2 name = None) as [Ho Hg].
  { revert H Hj Hb. generalize 0%nat. generalize (objs, r). revert s' bs j.
    induction names as [|n names IH]; simpl; intros s' bs j s i H Hj Hb; [done|].
    destruct (delete_one _ _ _ _ _ _ _ _) as [s1 b1] eqn:Ed. destruct (serve_each _ _ s1 names) as [s2 bs'] eqn:Es.
    injection H as <- <-. destruct j as [|j]; simpl in Hj, Hb; [|by eapply IH].
    injection Hj as ->. injection Hb as ->. destruct (delete_one_spec _ _ _ _ _ _ Ed) as (H1&_).
    destruct (H1 Hc) as [H2 H3]. destruct (deletes_keep_gone _ _ _ _ _ _ Es) as [H4 H5]. split; auto. }
  split_and!; [done..|]. intros c e now i. unfold ProduceHandler.gate, FetchHandler.gate. simpl.
  by rewrite Hg.
Qed.

End admin.

(** ** Witnesses *)

Definition no_text (_ : TopicWriteError) : string := "".
Definition any_sha (_ : list byte) : list byte := repeat x00 20.
Definition no_fault (_ : nat) : option ApiFault := None.

Definition orders_topic (configs : list CreateTopics.CreatableTopicConfig) : CreateTopics.CreatableTopic :=
  {| CreateTopics.t_name := "orders"; CreateTopics.num_partitions := 2; CreateTopics.replication_factor := 1;
     CreateTopics.assignments := []; CreateTopics.configs := configs |}.
Definition wire_config (k v : string) : CreateTopics.CreatableTopicConfig :=
  {| CreateTopics.name := k; CreateTopics.value := Some v |}.
(** Both spellings of one key, the later one with leading zeros. *)
Definition orders_request : CreateTopics.CreatableTopic :=
  orders_topic [wire_config "retentionMs" "5"; wire_config "retention.ms" "007"; wire_config "cleanup.policy" "compact"].

Lemma two_volumes_named : ∀ d, d ∈ extra_log_dirs two_volumes → ld_name d ≠ DEFAULT_LOG_DIR_NAME.
Proof.
  intros d Hd. unfold two_volumes, with_extra_log_dirs in Hd. simpl in Hd. by apply list_elem_of_filter in Hd as [Hd _].
Qed.

Definition empty_shared : Shared := {| volume := {| dirs := ∅; stamps := ∅ |}; config_files := ∅ |}.

Definition described_value (rs : DescribeConfigs.DescribeConfigsResult) (i : nat) : option (option string * Z) :=
  (λ c, (DescribeConfigs.value c, DescribeConfigs.config_source c)) <$> DescribeConfigs.configs rs !! i.

Definition created_orders : Objects * CreateTopics.CreatableTopicResult :=
  create_one any_sha no_text no_text allow_all true false no_fault 0 ∅ orders_request.

Lemma created_configs_described_witness :
  ∃ w' r, described_value
    (describe_one 1 allow_all r (topic_config two_volumes (placement_of r) (shared w')) 4
       {| DescribeConfigs.resource_type := RESOURCE_TOPIC; DescribeConfigs.resource_name := CreateTopics.t_name orders_request;
          DescribeConfigs.configuration_keys := Some ["retention.ms"; "segment.ms"] |}) <$> [0%nat; 1%nat] =
    [Some (Some "7", SOURCE_DYNAMIC_TOPIC); Some (Some "604800000", SOURCE_DEFAULT)].
Proof.
  destruct (created_configs_described any_sha no_text no_text allow_all two_volumes no_fault 0
    {| objects := ∅; shared := empty_shared |} orders_request created_orders.1 created_orders.2 "id-1" None
    (sy_watch (first_watch ∅ TopicRegistry_new)) 1 4 (Some ["retention.ms"; "segment.ms"]))
    as (meta&o&o'&_&_&_&_&_&Hd).
  - exact two_volumes_named.
  - discriminate.
  - reflexivity.
  - reflexivity.
  - reflexivity.
  - exists (reconcile two_volumes meta o "id-1" {| objects := created_orders.1; shared := empty_shared |}),
      (wb_registry (watch_event (sy_watch (first_watch ∅ TopicRegistry_new))
         (Apply meta {| ob_topic := o'; ob_migrate := None |})).1).
    cbn [shared] in Hd. unfold described_value. cbn [fmap list_fmap]. rewrite Hd. vm_compute. reflexivity.
Defined.

Definition wire_op (k : string) (op : Z) (v : option string) : IncrementalAlterConfigs.AlterConfigOp :=
  {| IncrementalAlterConfigs.name := k; IncrementalAlterConfigs.op := op; IncrementalAlterConfigs.value := v |}.
Definition alter_orders : IncrementalAlterConfigs.AlterConfigsResource :=
  {| IncrementalAlterConfigs.resource_type := RESOURCE_TOPIC; IncrementalAlterConfigs.resource_name := "orders";
     IncrementalAlterConfigs.configs := [wire_op "cleanup.policy" 1 None; wire_op "segment.ms" 0 (Some "+9")] |}.
Definition orders_object : KafkaTopic := default orders (created_orders.1 !! "orders").
Definition altered_orders : Objects * IncrementalAlterConfigs.AlterConfigsResourceResponse :=
  alter_one any_sha no_text no_text allow_all true false no_fault 0 created_orders.1 alter_orders.

Lemma altered_configs_described_witness :
  ∃ w' r, described_value
    (describe_one 1 allow_all r (topic_config two_volumes (placement_of r) (shared w')) 4
       {| DescribeConfigs.resource_type := RESOURCE_TOPIC;
          DescribeConfigs.resource_name := IncrementalAlterConfigs.resource_name alter_orders;
          DescribeConfigs.configuration_keys := Some ["retention.ms"; "segment.ms"; "cleanup.policy"] |})
      <$> [0%nat; 1%nat; 2%nat] =
    [Some (Some "7", SOURCE_DYNAMIC_TOPIC); Some (Some "9", SOURCE_DYNAMIC_TOPIC); Some (Some "delete", SOURCE_DEFAULT)].
Proof.
  destruct (altered_configs_described any_sha no_text no_text allow_all two_volumes no_fault 0
    {| objects := created_orders.1; shared := empty_shared |} alter_orders orders_object altered_orders.1 altered_orders.2
    "id-1" None (sy_watch (first_watch ∅ TopicRegistry_new)) 1 4 (Some ["retention.ms"; "segment.ms"; "cleanup.policy"]))
    as (o1&Ho1&_&_&Hd).
  - exact two_volumes_named.
  - reflexivity.
  - reflexivity.
  - reflexivity.
  - vm_compute. congruence.
  - reflexivity.
  - reflexivity.
  - assert (altered_orders.1 !! "orders" = Some o1) as Ho by (rewrite Ho1; reflexivity).
    vm_compute in Ho. injection Ho as <-. edestruct Hd as (o'&Ho'&Hd'); [vm_compute; reflexivity|].
    eexists _, _. unfold described_value. cbn [fmap list_fmap]. erewrite Hd'. vm_compute. reflexivity.
Defined.

Definition no_faults (_ : nat) : option ApiFault * option ApiFault := (None, None).

Lemma no_change_without_success_witness :
  ∃ j t b, [orders_request; orders_request] !! j = Some t ∧
    (serve_each (create_one any_sha no_text no_text allow_all true false no_fault) 0 ∅ [orders_request; orders_request]).2 !! j = Some b ∧
    cr_name any_sha (CreateTopics.t_name t) = "orders" ∧ CreateTopics.error_code b = 0.
Proof.
  destruct (no_change_without_success any_sha no_text no_text allow_all true false no_fault no_faults ∅
    (serve_each (create_one any_sha no_text no_text allow_all true false no_fault) 0 ∅ [orders_request; orders_request]).1
    ∅ ∅ [orders_request; orders_request] [] []
    (serve_each (create_one any_sha no_text no_text allow_all true false no_fault) 0 ∅ [orders_request; orders_request]).2
    [] [] "orders") as (H&_&_).
  - apply surjective_pairing.
  - reflexivity.
  - reflexivity.
  - apply H. vm_compute. congruence.
Defined.

Definition orders_registry : TopicRegistry :=
  insert_topic TopicRegistry_new {| tm_name := "orders"; partition_count := 2; tm_topic_id := ApiData.Metadata.NULL_TOPIC_ID |}.
Definition two_deletes : (Objects * TopicRegistry) * list DeleteTopics.DeletableTopicResult :=
  serve_each (delete_one any_sha no_text allow_all true no_fault) 0 (created_orders.1, orders_registry) ["orders"; "orders"].

Lemma deleted_topic_unserved_witness :
  (λ b, DeleteTopics.error_code b) <$> two_deletes.2 = [0; 3] ∧ get two_deletes.1.2 "orders" = None.
Proof.
  split; [reflexivity|].
  apply (deleted_topic_unserved any_sha no_text allow_all no_fault created_orders.1 orders_registry ["orders"; "orders"]
    two_deletes.1 two_deletes.2 0 "orders" (deletable "orders" 0 None)).
  - apply surjective_pairing.
  - reflexivity.
  - reflexivity.
  - reflexivity.
Defined.

(** ** Where the handlers depart from what they say *)

(** A dry run is not an answer to the real request: creating a topic that exists
    and shrinking one are both answered with success when only validated. *)
Theorem validate_only_differs :
  let existing := created_orders.1 in
  let shrink := {| CreatePartitions.name := "orders"; CreatePartitions.count := 1; CreatePartitions.assignments := None |} in
  let create v := CreateTopics.error_code (create_one any_sha no_text no_text allow_all true v no_fault 0 existing orders_request).2 in
  let expand v := CreatePartitions.r_error_code (expand_one any_sha no_text allow_all true v no_faults 0 existing shrink).2 in
  (create true, create false) = (0, 36) ∧ (expand true, expand false) = (0, 37).
Proof. by vm_compute. Qed.

(** Topic names are not checked: one that climbs out of the data directory is
    created under that name (the operator joins it to the directory's path), and
    the empty name creates a topic of another name. *)
Theorem topic_names_unchecked sha1 display message :
  let named n := {| CreateTopics.t_name := n; CreateTopics.num_partitions := 1; CreateTopics.replication_factor := 1;
                    CreateTopics.assignments := []; CreateTopics.configs := [] |} in
  let run n := create_one sha1 display message allow_all true false no_fault 0 ∅ (named n) in
  (CreateTopics.error_code (run "../etc").2 = 0 ∧
   ∃ meta o, (run "../etc").1 !! meta = Some o ∧ effective_topic_name meta o = "../etc") ∧
  (CreateTopics.error_code (run "").2 = 0 ∧
   ∃ meta o, (run "").1 !! meta = Some o ∧ effective_topic_name meta o ≠ "").
Proof.
  split; split.
  - reflexivity.
  - eexists _, _. split; [apply (lookup_insert_eq (M := gmap string))|reflexivity].
  - reflexivity.
  - eexists _, _. split; [apply (lookup_insert_eq (M := gmap string))|discriminate].
Qed.

(** The driver of a migration deletes a partition that is already where it should
    be when its placement record says otherwise: the data is found on the target
    volume, and the handler removes the source of a move that did not happen. *)
Theorem drain_deletes_partition :
  let closed := dir_at demo_relinquished.2 "/d" demo_key in
  let m := {| mv_engine := Engine_new; mv_placement := {[demo_key := "default"]};
              mv_volume := {| dirs := {[("/f", demo_key) := closed]}; stamps := ∅ |} |} in
  let m' := drive demo_engine_cfg (λ _, true) (λ _, true) (λ _, (true, true)) "t" "fast" [0] m in
  partition_root demo_engine_cfg (λ k, mv_placement m !! k) (mv_volume m) demo_key = "/f" ∧
  manifest_file closed ≠ None ∧ dirs (mv_volume m') !! ("/f", demo_key) = None ∧ dirs (mv_volume m') !! ("/d", demo_key) = None.
Proof. vm_compute. by split_and!. Qed.
