(* ===== verification/Discovery.v ===== *)
(** * Discovery: Metadata and DescribeCluster

    [handlers/metadata.rs] and [handlers/describe_cluster.rs] over the shared
    catalogue of [listener_advert.rs], with the broker view of the server
    ([bins/kaas/src/cluster.rs]).

    A listener's address is what parsing it gives.  The authorizer is its decision
    for the connection's principal; the writer is [TopicCr]'s. *)

From stdpp Require Import base gmap strings list sorting pretty.
From Stdlib Require Import Strings.Byte.
From S2P Require Import Prelude Primitives Wire ApiData ApiAdmin OffsetStore Cluster Engine Acls DataPlane Controller TopicCr TopicWatch TopicAdmin.

Local Open Scope Z_scope.

(** ** Advertised endpoints ([listener_advert.rs]) *)

(** [le_addr]: address text, whether it is the unspecified one, and port. *)
Record ListenerEntry := {
  le_name : string; le_addr : option (string * bool * Z); advertised_host : option string }.
Record ListenerAdvert := { adv_name : string; adv_host : string; adv_port : Z }.

Definition advert_from (entry : ListenerEntry) : ListenerAdvert :=
  let '(ip, unspecified, port) := default ("127.0.0.1", false, 9092) (le_addr entry) in
  let fallback := if unspecified then "127.0.0.1" else ip in
  {| adv_name := le_name entry;
     adv_host := match advertised_host entry with
                 | Some h => if String.eqb h "" then fallback else h
                 | None => fallback
                 end;
     adv_port := port |}.

Definition for_listener (entries : list ListenerAdvert) (name : string) : ListenerAdvert :=
  match find (λ l, String.eqb (adv_name l) name) entries with
  | Some l => l
  | None => match entries with
            | l :: _ => l
            | [] => {| adv_name := "internal"; adv_host := "127.0.0.1"; adv_port := 9092 |}
            end
  end.

Record BrokerNode := { bn_id : Z; bn_host : string; bn_port : Z; bn_fenced : bool }.

(** [RegistryBrokerView::brokers]. *)
Definition registry_view (r : BrokerRegistry) : list BrokerNode :=
  (λ b, {| bn_id := node_id b; bn_host := host b; bn_port := port b; bn_fenced := negb (ready b) |}) <$> Controller.all r.

(** What the two handlers read of the broker. *)
Record Discovery := {
  di_broker_id : Z; di_cluster_id : string; di_topics : TopicRegistry; di_coordinator : option Coordinator;
  di_view : option (list BrokerNode) }.

Definition self_row (d : Discovery) (a : ListenerAdvert) : BrokerNode :=
  {| bn_id := di_broker_id d; bn_host := adv_host a; bn_port := adv_port a; bn_fenced := false |}.

Definition advertise (d : Discovery) (a : ListenerAdvert) (b : BrokerNode) : BrokerNode :=
  let self := bn_id b =? di_broker_id d in
  {| bn_id := bn_id b; bn_host := if self then adv_host a else bn_host b; bn_port := adv_port a;
     bn_fenced := bn_fenced b && negb self |}.

Definition advertised_brokers (d : Discovery) (a : ListenerAdvert) : list BrokerNode :=
  match di_view d with
  | Some view =>
    let v := advertise d a <$> view in
    if existsb (λ b, negb (bn_fenced b)) v then v
    else filter (λ b, bn_id b ≠ di_broker_id d) v ++ [self_row d a]
  | None => [self_row d a]
  end.

Definition trailing_ordinal (id : string) : option Z := parse_ordinal id.

Definition controller_of (d : Discovery) : Z :=
  match di_coordinator d with
  | Some c => match current c with
              | Some a => default (di_broker_id d) (trailing_ordinal (controller a))
              | None => di_broker_id d
              end
  | None => di_broker_id d
  end.

(** ** Metadata *)

Definition is_reserved_internal (name : string) : bool := String.prefix "__" name.

Record MetadataHandler := { listeners : list ListenerAdvert; auto_create : bool; mh_num_partitions : Z }.
Definition MetadataHandler_new (entries : list ListenerEntry) : MetadataHandler :=
  {| listeners := advert_from <$> entries; auto_create := false; mh_num_partitions := 1 |}.
Definition with_auto_create (h : MetadataHandler) (enabled : bool) (n : Z) : MetadataHandler :=
  {| listeners := listeners h; auto_create := enabled; mh_num_partitions := Z.max n 1 |}.

Section metadata.
Context (sha1 : list byte → list byte) (authz : Resource → Operation → bool).
Context (h : MetadataHandler) (d : Discovery).

Definition auto_create_topic (writer : bool) (fault : option ApiFault) (objs : Objects) (name : string) : Objects * Z :=
  if is_reserved_internal name then (objs, 3)
  else if negb (authz (Resource_topic name) Create) then (objs, 29)
  else if negb writer then (objs, 3)
  else match create_topic sha1 fault objs name (mh_num_partitions h) [] with
       | (objs, Ok _) | (objs, Err (AlreadyExists _)) => (objs, 5)
       | (objs, Err _) => (objs, 3)
       end.

Definition leader_id_of (name : string) (i : Z) : Z :=
  match di_coordinator d with
  | Some c => match leader_for c name i with
              | Some owner => default (di_broker_id d) (trailing_ordinal owner)
              | None => di_broker_id d
              end
  | None => di_broker_id d
  end.

Definition partition_row (name : string) (i : Z) : Metadata.Partition :=
  let leader_id := leader_id_of name i in
  {| Metadata.error_code := 0; Metadata.partition_index := i; Metadata.leader_id := leader_id;
     Metadata.leader_epoch := 0; Metadata.replica_nodes := [leader_id]; Metadata.isr_nodes := [leader_id];
     Metadata.offline_replicas := [] |}.

Definition topic_row (writer allow : bool) (fault : nat → option ApiFault) (i : nat) (objs : Objects) (name : string) :
    Objects * Metadata.Topic :=
  match get (di_topics d) name with
  | Some meta =>
    (objs,
     {| Metadata.t_error_code := 0; Metadata.name := tm_name meta; Metadata.topic_id := tm_topic_id meta;
        Metadata.is_internal := false; Metadata.partitions := partition_row name <$> seqZ 0 (partition_count meta);
        Metadata.topic_authorized_operations := 0 |})
  | None =>
    let '(objs, error_code) :=
      if auto_create h && allow then auto_create_topic writer (fault i) objs name else (objs, 3) in
    (objs,
     {| Metadata.t_error_code := error_code; Metadata.name := name; Metadata.topic_id := repeat x00 16;
        Metadata.is_internal := false; Metadata.partitions := []; Metadata.topic_authorized_operations := 0 |})
  end.

Definition metadata_brokers (a : ListenerAdvert) : list Metadata.Broker :=
  (λ b, {| Metadata.node_id := bn_id b; Metadata.host := bn_host b; Metadata.port := bn_port b; Metadata.rack := None |})
    <$> filter (λ b, bn_fenced b = false) (advertised_brokers d a).

(** An empty list asks for every topic. *)
Definition asked_topics (req : Metadata.Request) : list string :=
  match Metadata.topics req with [] => tm_name <$> DataPlane.all (di_topics d) | l => l end.

Definition metadata_answer (listener : string) (writer : bool) (fault : nat → option ApiFault) (objs : Objects)
    (req : Metadata.Request) : Objects * Metadata.Response :=
  let '(objs, topics) :=
    serve_each (topic_row writer (Metadata.allow_auto_topic_creation req) fault) 0 objs (asked_topics req) in
  (objs,
   {| Metadata.throttle_time_ms := 0; Metadata.brokers := metadata_brokers (for_listener (listeners h) listener);
      Metadata.cluster_id := Some (di_cluster_id d); Metadata.controller_id := controller_of d;
      Metadata.r_topics := topics; Metadata.cluster_authorized_operations := 0 |}).

Definition handle_metadata (listener : string) (writer : bool) (fault : nat → option ApiFault) (objs : Objects)
    (version : Z) (body : list byte) : Objects * enc :=
  match Metadata.decode_request version body with
  | Err err => (objs, Err err)
  | Ok (req, _) =>
    let '(objs, resp) := metadata_answer listener writer fault objs req in
    (objs, Metadata.encode_response resp version)
  end.

(** ** DescribeCluster *)

Definition CLUSTER_OPS : list (Operation * Z) :=
  [(Create, 5); (Alter, 7); (Describe, 8); (DescribeConfigs, 10); (AlterConfigs, 11)].

Definition NOT_REQUESTED : Z := -2147483648.

Definition authorized_operations (requested : bool) : Z :=
  if negb requested then NOT_REQUESTED
  else if negb (authz Resource_cluster Describe) then 0
  else foldl (λ bits oc, Z.lor bits (Z.shiftl 1 oc.2)) 0 (filter (λ oc, authz Resource_cluster oc.1 = true) CLUSTER_OPS).

Definition ENDPOINT_CONTROLLER : Z := 2.

Definition cluster_error (code : Z) (msg : string) : DescribeCluster.Response :=
  {| DescribeCluster.throttle_time_ms := 0; DescribeCluster.error_code := code;
     DescribeCluster.error_message := Some msg; DescribeCluster.r_endpoint_type := DescribeCluster.endpoint_type_BROKER;
     DescribeCluster.cluster_id := ""; DescribeCluster.controller_id := -1; DescribeCluster.brokers := [];
     DescribeCluster.cluster_authorized_operations := NOT_REQUESTED |}.

Definition cluster_answer (listener : string) (req : DescribeCluster.Request) : DescribeCluster.Response :=
  let t := DescribeCluster.endpoint_type req in
  if t =? DescribeCluster.endpoint_type_BROKER then
    {| DescribeCluster.throttle_time_ms := 0; DescribeCluster.error_code := 0; DescribeCluster.error_message := None;
       DescribeCluster.r_endpoint_type := DescribeCluster.endpoint_type_BROKER;
       DescribeCluster.cluster_id := di_cluster_id d; DescribeCluster.controller_id := controller_of d;
       DescribeCluster.brokers :=
         (λ b, {| DescribeCluster.broker_id := bn_id b; DescribeCluster.host := bn_host b;
                  DescribeCluster.port := bn_port b; DescribeCluster.rack := None; DescribeCluster.is_fenced := bn_fenced b |})
           <$> filter (λ b, DescribeCluster.include_fenced_brokers req || negb (bn_fenced b) = true)
                 (advertised_brokers d (for_listener (listeners h) listener));
       DescribeCluster.cluster_authorized_operations :=
         authorized_operations (DescribeCluster.include_cluster_authorized_operations req) |}
  else if t =? ENDPOINT_CONTROLLER
  then cluster_error 114 "This endpoint is of type BROKER, but the request asked for CONTROLLER"
  else cluster_error 115 ("Unsupported endpoint type " +:+ pretty t).

Definition handle_describe_cluster (listener : string) (version : Z) (body : list byte) : enc :=
  match DescribeCluster.decode_request version body with
  | Err err => Err err
  | Ok (req, _) => DescribeCluster.encode_response (cluster_answer listener req) version
  end.

End metadata.

(** ** The catalogue *)

Lemma advertised_rows d a b : b ∈ advertised_brokers d a → bn_port b = adv_port a ∧ (bn_id b = di_broker_id d → bn_fenced b = false).
Proof.
  assert (∀ view : list BrokerNode, b ∈ advertise d a <$> view → bn_port b = adv_port a ∧ (bn_id b = di_broker_id d → bn_fenced b = false)) as Hadv.
  { intros view (x&->&_)%list_elem_of_fmap. split; [done|]. simpl. intros ->. by rewrite Z.eqb_refl, andb_false_r. }
  unfold advertised_brokers. destruct (di_view d) as [view|]; [|by intros ->%list_elem_of_singleton].
  case_match; [apply Hadv|]. intros [Hin|Hin]%elem_of_app.
  - apply list_elem_of_filter in Hin as [_ Hin]. by eapply Hadv.
  - by apply list_elem_of_singleton in Hin as ->.
Qed.

Lemma advertised_serving d a : ∃ b, b ∈ advertised_brokers d a ∧ bn_fenced b = false.
Proof.
  unfold advertised_brokers. destruct (di_view d) as [view|]; [|exists (self_row d a); by split; [left|]].
  destruct (existsb _ _) eqn:E.
  - apply existsb_exists in E as (b&Hin%list_elem_of_In&Hb). exists b. split; [done|]. by destruct (bn_fenced b).
  - exists (self_row d a). split; [|done]. apply elem_of_app. right. left.
Qed.

(** The two catalogues agree.  A client is given the same controller and, unless it
    asks for fenced brokers, the same brokers at the same addresses by Metadata and
    by DescribeCluster; every row carries the port of the client's listener, the
    answering broker is never fenced, the list is never empty, and asking for
    fenced brokers only adds rows marked so. *)
Theorem catalogues_agree sha1 authz h d listener writer fault objs mreq creq :
  DescribeCluster.endpoint_type creq = DescribeCluster.endpoint_type_BROKER →
  let a := for_listener (listeners h) listener in
  let m := (metadata_answer sha1 authz h d listener writer fault objs mreq).2 in
  let c := cluster_answer authz h d listener creq in
  let served := filter (λ b, DescribeCluster.is_fenced b = false) (DescribeCluster.brokers c) in
  DescribeCluster.controller_id c = Metadata.controller_id m ∧
  (λ b, (DescribeCluster.broker_id b, DescribeCluster.host b, DescribeCluster.port b)) <$> served =
    (λ b, (Metadata.node_id b, Metadata.host b, Metadata.port b)) <$> Metadata.brokers m ∧
  Metadata.brokers m ≠ [] ∧
  (∀ b, b ∈ DescribeCluster.brokers c → DescribeCluster.port b = adv_port a ∧
     (DescribeCluster.is_fenced b = true →
        DescribeCluster.include_fenced_brokers creq = true ∧ DescribeCluster.broker_id b ≠ di_broker_id d)).
Proof.
  intros Ht a m c served. subst m c served. unfold metadata_answer, cluster_answer. rewrite Ht, Z.eqb_refl.
  destruct (serve_each _ _ _ _) as [o ts]. cbn [snd Metadata.controller_id Metadata.brokers DescribeCluster.controller_id
    DescribeCluster.brokers]. fold a. unfold metadata_brokers. split_and!.
  - done.
  - generalize (advertised_brokers d a). intros l. induction l as [|b l IH]; [done|].
    rewrite !filter_cons. destruct (bn_fenced b) eqn:Ef.
    + rewrite (decide_False (P := true = false)) by done. case_decide; [|exact IH].
      csimpl. rewrite filter_cons. rewrite decide_False by (simpl; congruence). exact IH.
    + rewrite (decide_True (P := false = false)) by done. rewrite decide_True by (by rewrite orb_true_r).
      csimpl. rewrite filter_cons. rewrite decide_True by done. csimpl. by f_equal.
  - destruct (advertised_serving d a) as (b&Hin&Hb). intros Hnil%fmap_nil_inv.
    assert (b ∈ filter (λ b, bn_fenced b = false) (advertised_brokers d a)) as Hf by (by apply list_elem_of_filter).
    rewrite Hnil in Hf. by apply elem_of_nil in Hf.
  - intros b (x&->&[Hx Hin]%list_elem_of_filter)%list_elem_of_fmap. apply advertised_rows in Hin as [Hp Hs]. simpl.
    split; [done|]. intros Hf. rewrite Hf, orb_false_r in Hx. split; [done|]. intros Hid. by rewrite Hs in Hf.
Qed.

(** ** Routing *)

(** C35. Following Metadata reaches the leader.  When two brokers have applied the same
    assignment and one owns a partition, the other names it as the partition's
    leader; and a producer that goes there passes the gate of its produce handler,
    given a known topic, a fresh heartbeat and the right to write. *)
Theorem metadata_routes_to_owner h d ida idb pollsa pollsb a t p n meta view now :
  di_coordinator d = Some (coord_run ida pollsa) →
  current (coord_run ida pollsa) = Some a → current (coord_run idb pollsb) = Some a →
  NoDup (row_key <$> Cluster.partitions a) → trailing_ordinal idb = Some n →
  owns (coord_run idb pollsb) t p = true →
  cv_coordinator view = coord_run idb pollsb → heartbeat_fresh_for_writes view now = true →
  get (di_topics d) t = Some meta → p ∈ seqZ 0 (partition_count meta) →
  (∀ sha1 authz writer allow fault i objs,
     ∃ row, row ∈ Metadata.partitions (topic_row sha1 authz h d writer allow fault i objs t).2 ∧
       Metadata.partition_index row = p ∧ Metadata.leader_id row = n) ∧
  (∀ authz topics e, is_Some (get topics t) → authz (Resource_topic t) Write = true →
     ProduceHandler.gate authz now {| db_topics := topics; db_cluster := Some view; db_engine := e |} t p = None).
Proof.
  intros Hd Ha Hb Hnd Hn Hown Hview Hfresh Hmeta Hp.
  destruct (coord_run_indices ida pollsa) as [_ Hia]. specialize (Hia a Ha).
  destruct (coord_run_indices idb pollsb) as [_ Hib]. specialize (Hib a Hb).
  destruct (build_indices_spec ida (Cluster.partitions a) Hnd) as [_ Hla]. rewrite <- Hia in Hla. simpl in Hla.
  destruct (build_indices_spec idb (Cluster.partitions a) Hnd) as [Hob _]. rewrite <- Hib in Hob. simpl in Hob.
  assert (leader_for (coord_run ida pollsa) t p = Some idb) as Hlead.
  { pose proof Hown as Hown'. unfold owns in Hown'. apply bool_decide_eq_true in Hown' as [e He].
    apply Hob in He as (r&?&?&?&?). apply Hla. by exists r. }
  split.
  - intros sha1 authz writer allow fault i objs. unfold topic_row. rewrite Hmeta. simpl.
    exists (partition_row d t p). split; [by apply list_elem_of_fmap_2|]. split; [done|]. simpl.
    unfold leader_id_of. by rewrite Hd, Hlead, Hn.
  - intros authz topics e [m Hm] Hauth. unfold ProduceHandler.gate. simpl. rewrite Hm.
    rewrite bool_decide_eq_false_2 by done. rewrite Hview, Hown, Hfresh, Hauth. done.
Qed.

(** ** Creation on first use *)

(** Metadata creates a topic only where CreateTopics could: after any request, an
    object that is not what it was is that of a topic the request named, with
    creation switched on and asked for, unknown to the registry, not in the
    reserved name space, that the principal may create; it is a new object, and
    the topic was answered with the retriable code.  A request for all topics
    creates nothing. *)
Theorem metadata_creates_guarded sha1 authz h d listener writer fault objs req objs' resp k :
  keyed (di_topics d) →
  metadata_answer sha1 authz h d listener writer fault objs req = (objs', resp) → objs' !! k ≠ objs !! k →
  Metadata.topics req ≠ [] ∧ auto_create h = true ∧ Metadata.allow_auto_topic_creation req = true ∧ objs !! k = None ∧
  ∃ j name row, Metadata.topics req !! j = Some name ∧ Metadata.r_topics resp !! j = Some row ∧
    cr_name sha1 name = k ∧ Metadata.t_error_code row = 5 ∧ get (di_topics d) name = None ∧
    String.prefix "__" name = false ∧ authz (Resource_topic name) Create = true.
Proof.
  intros Hkeyed. unfold metadata_answer.
  set (f := topic_row sha1 authz h d writer (Metadata.allow_auto_topic_creation req) fault).
  destruct (serve_each f 0 objs (asked_topics d req)) as [o ts] eqn:Es. intros [= <- <-] Hk.
  set (good name := auto_create h = true ∧ Metadata.allow_auto_topic_creation req = true ∧ get (di_topics d) name = None ∧
    String.prefix "__" name = false ∧ authz (Resource_topic name) Create = true).
  assert (∀ i ob name ob' row, f i ob name = (ob', row) →
    ob' = ob ∨ (good (Metadata.name row) ∧ Metadata.name row = name ∧ Metadata.t_error_code row = 5 ∧ ob !! cr_name sha1 name = None) ∧
      ∀ k, k ≠ cr_name sha1 name → ob' !! k = ob !! k) as Hf.
  { intros i ob name ob' row. unfold f, topic_row. destruct (get (di_topics d) name) eqn:Eg; [by intros [=]; subst; left|].
    destruct (auto_create h) eqn:E1; simpl; [|by intros [=]; subst; left].
    destruct (Metadata.allow_auto_topic_creation req) eqn:E2; simpl; [|by intros [=]; subst; left].
    unfold auto_create_topic. destruct (is_reserved_internal name) eqn:E3; [by intros [=]; subst; left|].
    destruct (authz (Resource_topic name) Create) eqn:E4; simpl; [|by intros [=]; subst; left].
    destruct writer; simpl; [|by intros [=]; subst; left].
    unfold create_topic, build_cr. simpl. destruct (name_for_cr sha1 name) as [meta tn] eqn:En.
    destruct (fault i) as [[]|]; [by intros [=]; subst; left..|].
    destruct (schema_ok _); simpl; [|by intros [=]; subst; left].
    destruct (ob !! meta) eqn:Eo; [by intros [=]; subst; left|]. intros [=]; subst. right. unfold cr_name. rewrite En. simpl.
    split; [done|]. intros k' Hk'. by apply (lookup_insert_ne (M := gmap string)). }
  assert (objs !! k = None ∧ ∃ j name row, asked_topics d req !! j = Some name ∧ ts !! j = Some row ∧ cr_name sha1 name = k ∧
    good name ∧ Metadata.t_error_code row = 5) as (Hnone&j&name&row&Hj&Hrow&Hname&Hgood&Hcode).
  { clear -Hf Es Hk. revert Es Hk. generalize 0%nat. revert objs ts. generalize (asked_topics d req) as l.
    induction l as [|x l IH]; simpl; intros objs ts i Es Hk; [by simplify_eq|].
    destruct (f i objs x) as [ob1 row] eqn:E1. destruct (serve_each f (i + 1) ob1 l) as [ob2 rows] eqn:E2.
    injection Es as <- <-. destruct (Hf _ _ _ _ _ E1) as [->|[(Hg&Hn&Hc&Ho) Hoth]].
    - destruct (IH _ _ _ E2 Hk) as (Hno&j&name&row'&?&?&?&?&?). split; [done|]. by exists (S j), name, row'.
    - destruct (decide (cr_name sha1 x = k)) as [<-|Hne].
      { split; [done|]. rewrite Hn in Hg. by exists 0%nat, x, row. }
      rewrite <- (Hoth k) in Hk |- * by done.
      destruct (IH _ _ _ E2 Hk) as (Hno&j&name&row'&?&?&?&?&?). split; [done|]. by exists (S j), name, row'. }
  destruct Hgood as (G1&G2&G3&G4&G5).
  assert (Metadata.topics req ≠ []) as Hne.
  { intros Hnil. unfold asked_topics in Hj. rewrite Hnil in Hj. apply list_elem_of_lookup_2, list_elem_of_fmap in Hj as (m&->&Hm).
    unfold DataPlane.all in Hm. rewrite (merge_sort_Permutation name_le) in Hm.
    apply list_elem_of_fmap in Hm as ([n m']&->&Hl%elem_of_map_to_list). simpl in G3. unfold get in G3.
    by rewrite (Hkeyed _ _ Hl), Hl in G3. }
  split_and!; [done..|]. exists j, name, row. unfold asked_topics in Hj. destruct (Metadata.topics req); [done|]. by split_and!.
Qed.

(** ** Witnesses *)

Definition demo_listener : ListenerEntry :=
  {| le_name := "authed"; le_addr := Some ("0.0.0.0", true, 9093); advertised_host := None |}.
Definition demo_handler : MetadataHandler := with_auto_create (MetadataHandler_new [demo_listener]) true 1.
Definition demo_discovery : Discovery :=
  {| di_broker_id := 0; di_cluster_id := "c"; di_topics := orders_registry; di_coordinator := None;
     di_view := Some [{| bn_id := 0; bn_host := "kaas-0.svc"; bn_port := 9092; bn_fenced := true |};
                      {| bn_id := 1; bn_host := "kaas-1.svc"; bn_port := 9092; bn_fenced := true |}] |}.
Definition ask (names : list string) (allow : bool) : Metadata.Request :=
  {| Metadata.topics := names; Metadata.allow_auto_topic_creation := allow;
     Metadata.include_cluster_authorized_operations := false; Metadata.include_topic_authorized_operations := false |}.
Definition ask_cluster (fenced : bool) : DescribeCluster.Request :=
  {| DescribeCluster.include_cluster_authorized_operations := true; DescribeCluster.endpoint_type := 1;
     DescribeCluster.include_fenced_brokers := fenced |}.

Lemma catalogues_agree_witness :
  let m := (metadata_answer any_sha allow_all demo_handler demo_discovery "authed" true no_fault ∅ (ask [] true)).2 in
  let c := cluster_answer allow_all demo_handler demo_discovery "authed" (ask_cluster true) in
  (λ b, (Metadata.node_id b, Metadata.host b, Metadata.port b)) <$> Metadata.brokers m = [(0, "127.0.0.1", 9093)] ∧
  length (DescribeCluster.brokers c) = 2%nat ∧ Metadata.brokers m ≠ [].
Proof.
  destruct (catalogues_agree any_sha allow_all demo_handler demo_discovery "authed" true no_fault ∅ (ask [] true) (ask_cluster true)
    eq_refl) as (_&_&H&_).
  split; [reflexivity|]. split; [reflexivity|]. exact H.
Defined.

Lemma orders_keyed : keyed orders_registry.
Proof.
  intros n m Hl. unfold orders_registry, insert_topic in Hl. simpl in Hl.
  by apply lookup_insert_Some in Hl as [[<- <-]|[_ Hl]].
Qed.

Definition asked_new : Objects * Metadata.Response :=
  metadata_answer any_sha allow_all demo_handler demo_discovery "authed" true no_fault ∅ (ask ["orders"; "new"; "__x"] true).

Lemma metadata_creates_guarded_witness :
  (Metadata.t_error_code <$> Metadata.r_topics asked_new.2) = [0; 5; 3] ∧ auto_create demo_handler = true ∧
  ∃ j name row, ["orders"; "new"; "__x"] !! j = Some name ∧ Metadata.r_topics asked_new.2 !! j = Some row ∧
    cr_name any_sha name = "new" ∧ Metadata.t_error_code row = 5.
Proof.
  destruct (metadata_creates_guarded any_sha allow_all demo_handler demo_discovery "authed" true no_fault ∅
    (ask ["orders"; "new"; "__x"] true) asked_new.1 asked_new.2 "new") as (_&Ha&_&_&j&name&row&?&?&?&?&_).
  - exact orders_keyed.
  - apply surjective_pairing.
  - vm_compute. congruence.
  - split; [reflexivity|]. split; [exact Ha|]. by exists j, name, row.
Defined.

(** ** Legacy requests *)

(** A request of a version without the flag is taken to ask for creation. *)
Theorem legacy_metadata_auto_creates :
  let body := bytes_of (Metadata.request_wire (ask ["new"] false) 3) in
  (handle_metadata any_sha allow_all demo_handler demo_discovery "authed" true no_fault ∅ 3 body).1 !! "new" ≠ None.
Proof. vm_compute. congruence. Qed.

Definition demo_polls : list (Z * option Assignment) := [(0, Some demo_assignment)].
Definition demo_topic : TopicRegistry :=
  insert_topic TopicRegistry_new {| tm_name := "t"; partition_count := 2; tm_topic_id := Metadata.NULL_TOPIC_ID |}.
Definition demo_member : Discovery :=
  {| di_broker_id := 0; di_cluster_id := "c"; di_topics := demo_topic; di_coordinator := Some (coord_run "kaas-0" demo_polls);
     di_view := None |}.
Definition demo_peer : ClusterView :=
  {| cv_coordinator := coord_run "kaas-1" demo_polls; self_fence := true; last_heartbeat := Some 1000 |}.

Lemma metadata_routes_to_owner_witness :
  Metadata.leader_id (partition_row demo_member "t" 1) = 1 ∧
  ProduceHandler.gate allow_all 1500 {| db_topics := demo_topic; db_cluster := Some demo_peer; db_engine := Engine_new |} "t" 1 = None.
Proof.
  split; [reflexivity|].
  apply (metadata_routes_to_owner demo_handler demo_member "kaas-0" "kaas-1" demo_polls demo_polls demo_assignment "t" 1 1
    {| tm_name := "t"; partition_count := 2; tm_topic_id := Metadata.NULL_TOPIC_ID |} demo_peer 1500).
  - reflexivity.
  - reflexivity.
  - reflexivity.
  - vm_compute. repeat (constructor; [set_solver|]). constructor.
  - reflexivity.
  - reflexivity.
  - reflexivity.
  - reflexivity.
  - reflexivity.
  - apply elem_of_seqZ. cbn. lia.
  - by vm_compute; eexists.
  - reflexivity.
Defined.
