(* ===== verification/UserAcls.v ===== *)
(** * User resources and their access rules

    The [KafkaUser] resource ([kaas-operator-api/src/kafkauser.rs]), the
    broker's writer of its access rules ([kaas-broker/src/acl_cr_writer.rs]),
    the operator's rules file ([kaas-operator-controllers/src/acls.rs]) and the
    handlers of CreateAcls, DeleteAcls and DescribeAcls
    ([kaas-broker/src/handlers/acls.rs]).

    The API server is its objects and its revision counter: a write carries the
    resource version of the object it was made from and is refused when the
    object has another one, or is outside the schema.  The calls of a request are
    separate definitions, so that other clients can come in between; [fault] says
    how the server fails a call.  Texts of error messages are parameters. *)

From stdpp Require Import base gmap strings list.
From Stdlib Require Import Strings.Byte.
From S2P Require Import Prelude Primitives Wire ApiAdmin Acls Auth TopicCr TopicAdmin.

Local Open Scope Z_scope.

(** ** The resource *)

Record KafkaUserAclResource := { rs_kind : string; rs_name : string; rs_pattern_type : string }.
Record KafkaUserAcl := {
  ua_resource : KafkaUserAclResource; ua_operations : list string; ua_kind : string; ua_host : string }.
Record KafkaUserAuthorization := { az_kind : string; az_acls : list KafkaUserAcl }.
Definition KafkaUserAuthorization_default : KafkaUserAuthorization := {| az_kind := ""; az_acls := [] |}.

Record SecretKeyRef := { sk_name : string; sk_key : string }.
Record LocalObjectRef := { lo_name : string }.
Record ServiceAccountRef := { sr_name : string; sr_namespace : string }.
Record KafkaUserScramCredential := {
  kc_salt : string; kc_stored_key : string; kc_server_key : string; kc_iterations : Z }.
Record KafkaUserAuthentication := {
  an_kind : string; an_password : option SecretKeyRef; an_scram : option KafkaUserScramCredential;
  an_certificate_ref : option LocalObjectRef; an_service_account_ref : option ServiceAccountRef }.
Record KafkaUserQuotas := {
  uq_producer : option Z; uq_consumer : option Z; uq_request_percentage : option Z }.

(** The metadata a reader sees, and the spec. *)
Record KafkaUser := {
  ku_deleting : bool; ku_version : Z;
  ku_authentication : option KafkaUserAuthentication;
  ku_authorization : option KafkaUserAuthorization; ku_quotas : option KafkaUserQuotas }.

Definition with_authorization (u : KafkaUser) (a : KafkaUserAuthorization) : KafkaUser :=
  {| ku_deleting := ku_deleting u; ku_version := ku_version u; ku_authentication := ku_authentication u;
     ku_authorization := Some a; ku_quotas := ku_quotas u |}.
Definition with_version (u : KafkaUser) (v : Z) : KafkaUser :=
  {| ku_deleting := ku_deleting u; ku_version := v; ku_authentication := ku_authentication u;
     ku_authorization := ku_authorization u; ku_quotas := ku_quotas u |}.

(** The constraints of the schema. *)
Definition one_of (s : string) (l : list string) : bool := bool_decide (s ∈ l).
Definition acl_schema_ok (e : KafkaUserAcl) : bool :=
  one_of (rs_kind (ua_resource e)) ["topic"; "group"; "cluster"; "transactionalId"] &&
  one_of (rs_pattern_type (ua_resource e)) [""; "literal"; "prefix"] &&
  one_of (ua_kind e) [""; "allow"; "deny"] && (1 <=? length (ua_operations e))%nat.
Definition authorization_schema_ok (a : KafkaUserAuthorization) : bool :=
  one_of (az_kind a) [""; "simple"] && forallb acl_schema_ok (az_acls a).
Definition quotas_schema_ok (q : KafkaUserQuotas) : bool :=
  from_option (λ v, 0 <=? v) true (uq_producer q) && from_option (λ v, 0 <=? v) true (uq_consumer q) &&
  from_option (λ v, (0 <=? v) && (v <=? 100)) true (uq_request_percentage q).
Definition user_schema_ok (u : KafkaUser) : bool :=
  from_option (λ a, one_of (an_kind a) ["scram-sha-512"; "tls"; "kubernetes-serviceaccount"]) true (ku_authentication u) &&
  from_option authorization_schema_ok true (ku_authorization u) && from_option quotas_schema_ok true (ku_quotas u).

(** ** The API server *)

Record UserServer := { sv_users : gmap string KafkaUser; sv_revision : Z }.

Definition store_user (s : UserServer) (name : string) (u : KafkaUser) : UserServer :=
  {| sv_users := <[name := with_version u (sv_revision s + 1)]> (sv_users s); sv_revision := sv_revision s + 1 |}.

Inductive PutError := PutFault (f : ApiFault) | PutMissing | PutConflict | PutInvalid.
Definition replace_user (fault : option ApiFault) (s : UserServer) (name : string) (u : KafkaUser) :
    UserServer * result PutError unit :=
  match fault with
  | Some f => (s, Err (PutFault f))
  | None =>
    match sv_users s !! name with
    | None => (s, Err PutMissing)
    | Some cur =>
      if negb (ku_version cur =? ku_version u) then (s, Err PutConflict)
      else if negb (user_schema_ok u) then (s, Err PutInvalid)
      else (store_user s name u, Ok tt)
    end
  end.

(** ** Bindings and filters ([acl_cr_writer.rs]) *)

Record AclBinding := {
  b_principal : string; b_resource_type : string; b_resource_name : string; b_pattern_type : string;
  b_operation : string; b_permission : string; b_host : string }.
Record AclFilter := {
  f_principal : string; f_resource_type : string; f_resource_name : string; f_pattern_type : string;
  f_operation : string; f_permission : string; f_host : string }.
Definition AclFilter_default : AclFilter :=
  {| f_principal := ""; f_resource_type := ""; f_resource_name := ""; f_pattern_type := ""; f_operation := "";
     f_permission := ""; f_host := "" |}.

Inductive AclWriteError := UnknownPrincipal (p : string) | InvalidPrincipal (p : string) | AclOther.

Definition match_string (filter value : string) : bool := str_is_empty filter || bool_decide (filter = value).
Definition match_pattern (filter value : string) : bool :=
  if str_is_empty filter || bool_decide (filter = "match")
  then bool_decide (value = "literal") || bool_decide (value = "prefix")
  else bool_decide (filter = value).
Definition match_binding (f : AclFilter) (b : AclBinding) : bool :=
  match_string (f_principal f) (b_principal b) && match_string (f_resource_type f) (b_resource_type b) &&
  match_string (f_resource_name f) (b_resource_name b) && match_pattern (f_pattern_type f) (b_pattern_type b) &&
  match_string (f_operation f) (b_operation b) && match_string (f_permission f) (b_permission b) &&
  match_string (f_host f) (b_host b).

Definition principal_to_user_name (p : string) : result AclWriteError string :=
  match strip_prefix (as_bytes "User:") (as_bytes p) with
  | Some (c :: rest) => Ok (of_bytes (c :: rest))
  | _ => Err (InvalidPrincipal p)
  end.

Definition to_ascii_lowercase (s : string) : string := of_bytes (ascii_lower <$> as_bytes s).
Definition normalise_permission (t : string) : string :=
  if eq_ignore_ascii_case (as_bytes t) (as_bytes "deny") then "Deny" else "Allow".

Definition entry_pattern (e : KafkaUserAcl) : string :=
  if str_is_empty (rs_pattern_type (ua_resource e)) then "literal" else rs_pattern_type (ua_resource e).

Definition same_acl_shape (e : KafkaUserAcl) (b : AclBinding) (pattern acl_type : string) : bool :=
  if bool_decide (rs_kind (ua_resource e) ≠ b_resource_type b) || bool_decide (rs_name (ua_resource e) ≠ b_resource_name b)
  then false
  else if bool_decide (entry_pattern e ≠ pattern) then false
  else
    let entry_type := if str_is_empty (ua_kind e) then "allow" else to_ascii_lowercase (ua_kind e) in
    bool_decide (entry_type = acl_type) && bool_decide (ua_host e = b_host b).

Definition acl_entry_to_binding (principal : string) (e : KafkaUserAcl) (op : string) : AclBinding :=
  {| b_principal := principal; b_resource_type := rs_kind (ua_resource e); b_resource_name := rs_name (ua_resource e);
     b_pattern_type := entry_pattern e; b_operation := op; b_permission := normalise_permission (ua_kind e);
     b_host := ua_host e |}.

Definition partition_ops (f : AclFilter) (ops : list string) : list string * list string :=
  let p op := str_is_empty (f_operation f) || bool_decide (op = f_operation f) in
  (List.filter p ops, List.filter (λ op, negb (p op)) ops).
Definition split_ops_by_filter (e : KafkaUserAcl) (f : AclFilter) (principal : string) : list string * list string :=
  let keep_all := ([], ua_operations e) in
  if negb (match_string (f_principal f) principal) || negb (match_string (f_resource_type f) (rs_kind (ua_resource e))) ||
     negb (match_string (f_resource_name f) (rs_name (ua_resource e)))
  then keep_all
  else if negb (match_pattern (f_pattern_type f) (entry_pattern e)) ||
          negb (match_string (f_permission f) (normalise_permission (ua_kind e))) ||
          negb (match_string (f_host f) (ua_host e))
  then keep_all
  else partition_ops f (ua_operations e).

(** *** Creating *)

Definition binding_pattern (b : AclBinding) : string :=
  if str_is_empty (b_pattern_type b) then "literal" else b_pattern_type b.
Definition binding_type (b : AclBinding) : string :=
  if str_is_empty (b_permission b) then "allow" else to_ascii_lowercase (b_permission b).
Definition with_operations (e : KafkaUserAcl) (ops : list string) : KafkaUserAcl :=
  {| ua_resource := ua_resource e; ua_operations := ops; ua_kind := ua_kind e; ua_host := ua_host e |}.
Definition new_acl (b : AclBinding) : KafkaUserAcl :=
  {| ua_resource := {| rs_kind := b_resource_type b; rs_name := b_resource_name b; rs_pattern_type := binding_pattern b |};
     ua_operations := [b_operation b]; ua_kind := binding_type b; ua_host := b_host b |}.

(** [None]: the operation is already there. *)
Fixpoint add_acl (b : AclBinding) (acls : list KafkaUserAcl) : option (list KafkaUserAcl) :=
  match acls with
  | [] => Some [new_acl b]
  | e :: acls' =>
    if same_acl_shape e b (binding_pattern b) (binding_type b) then
      if bool_decide (b_operation b ∈ ua_operations e) then None
      else Some (with_operations e (ua_operations e ++ [b_operation b]) :: acls')
    else cons e <$> add_acl b acls'
  end.

Definition create_edit (b : AclBinding) (u : KafkaUser) : option KafkaUser :=
  let authz := default KafkaUserAuthorization_default (ku_authorization u) in
  let kind := if str_is_empty (az_kind authz) then "simple" else az_kind authz in
  (λ acls, with_authorization u {| az_kind := kind; az_acls := acls |}) <$> add_acl b (az_acls authz).

Definition create_get (fault : option ApiFault) (s : UserServer) (b : AclBinding) :
    result AclWriteError (string * KafkaUser) :=
  match principal_to_user_name (b_principal b) with
  | Err e => Err e
  | Ok username =>
    match fault with
    | Some _ => Err AclOther
    | None =>
      match sv_users s !! username with
      | None => Err (UnknownPrincipal (b_principal b))
      | Some u => Ok (username, u)
      end
    end
  end.

Definition create_put (fault : option ApiFault) (s : UserServer) (b : AclBinding) (username : string) (u : KafkaUser) :
    UserServer * result AclWriteError unit :=
  match create_edit b u with
  | None => (s, Ok tt)
  | Some u' =>
    match replace_user fault s username u' with
    | (s', Ok _) => (s', Ok tt)
    | (s', Err _) => (s', Err AclOther)
    end
  end.

Definition create_acl (fault_get fault_put : option ApiFault) (s : UserServer) (b : AclBinding) :
    UserServer * result AclWriteError unit :=
  match create_get fault_get s b with
  | Err e => (s, Err e)
  | Ok (username, u) => create_put fault_put s b username u
  end.

(** *** Deleting *)

Definition delete_entry (f : AclFilter) (principal : string) (e : KafkaUserAcl) : list AclBinding * list KafkaUserAcl :=
  let '(matched, kept) := split_ops_by_filter e f principal in
  (acl_entry_to_binding principal e <$> matched,
   match matched, kept with
   | [], _ => [e]
   | _, [] => []
   | _, _ => [with_operations e kept]
   end).

(** What is taken out of a listed user, and the user to write if anything is. *)
Definition delete_edit (f : AclFilter) (name : string) (u : KafkaUser) : list AclBinding * option KafkaUser :=
  let principal := "User:" +:+ name in
  if ku_deleting u then ([], None)
  else if negb (match_string (f_principal f) principal) then ([], None)
  else
    match ku_authorization u with
    | None => ([], None)
    | Some authz =>
      let rows := delete_entry f principal <$> az_acls authz in
      let removed := concat rows.*1 in
      (removed,
       if bool_decide (removed = []) then None
       else Some (with_authorization u {| az_kind := az_kind authz; az_acls := concat rows.*2 |}))
    end.

Definition delete_put (fault : option ApiFault) (s : UserServer) (f : AclFilter) (name : string) (u : KafkaUser) :
    UserServer * result AclWriteError (list AclBinding) :=
  match delete_edit f name u with
  | (removed, None) => (s, Ok removed)
  | (removed, Some u') =>
    match replace_user fault s name u' with
    | (s', Ok _) => (s', Ok removed)
    | (s', Err _) => (s', Err AclOther)
    end
  end.

(** The first update that fails ends the request. *)
Fixpoint delete_loop (fault : nat → option ApiFault) (i : nat) (s : UserServer) (f : AclFilter)
    (users : list (string * KafkaUser)) : UserServer * result AclWriteError (list AclBinding) :=
  match users with
  | [] => (s, Ok [])
  | (name, u) :: users' =>
    match delete_put (fault i) s f name u with
    | (s, Err e) => (s, Err e)
    | (s, Ok removed) =>
      match delete_loop fault (i + 1) s f users' with
      | (s, Ok more) => (s, Ok (removed ++ more))
      | (s, Err e) => (s, Err e)
      end
    end
  end.

Definition delete_acls (fault_list : option ApiFault) (fault : nat → option ApiFault) (s : UserServer) (f : AclFilter) :
    UserServer * result AclWriteError (list AclBinding) :=
  match fault_list with
  | Some _ => (s, Err AclOther)
  | None => delete_loop fault 0 s f (map_to_list (sv_users s))
  end.

(** *** Listing *)

Definition user_rows (u : KafkaUser) : list KafkaUserAcl :=
  from_option az_acls [] (ku_authorization u).

Definition list_user (f : AclFilter) (name : string) (u : KafkaUser) : list AclBinding :=
  let principal := "User:" +:+ name in
  if ku_deleting u then []
  else if negb (match_string (f_principal f) principal) then []
  else
    List.filter (match_binding f)
      (e ← user_rows u; acl_entry_to_binding principal e <$> ua_operations e).

Definition list_acls (fault : option ApiFault) (s : UserServer) (f : AclFilter) : result AclWriteError (list AclBinding) :=
  match fault with
  | Some _ => Err AclOther
  | None => Ok (nu ← map_to_list (sv_users s); list_user f nu.1 nu.2)
  end.

(** ** The rules file ([kaas-operator-controllers/src/acls.rs]) *)

Definition acl_to_entry (principal : string) (acl : KafkaUserAcl) : AclEntry :=
  {| ae_principal := principal; ae_type := rs_kind (ua_resource acl); ae_name := rs_name (ua_resource acl);
     ae_pattern := if str_is_empty (rs_pattern_type (ua_resource acl)) then "literal" else rs_pattern_type (ua_resource acl);
     ae_operations := ua_operations acl;
     ae_permission := if eq_ignore_ascii_case (as_bytes (ua_kind acl)) (as_bytes "deny") then "Deny" else "Allow" |}.

Definition user_entries (name : string) (u : KafkaUser) : list AclEntry :=
  if ku_deleting u then [] else acl_to_entry ("User:" +:+ name) <$> user_rows u.

(** The file the brokers reload; [None]: it could not be written. *)
Definition reconcile_acls (fault : option ApiFault) (write_ok : bool) (s : UserServer) : option AclFile :=
  match fault with
  | Some _ => None
  | None =>
    if write_ok then Some (FileEntries (nu ← map_to_list (sv_users s); user_entries nu.1 nu.2)) else None
  end.

(** ** Wire shapes ([handlers/acls.rs]) *)

Section wire.
Context (unsupported : string → Z → string).

Definition wire_binding_to_acl (b : AclTypes.AclBinding) (version : Z) : result string AclBinding :=
  match AclTypes.resource_type_to_cr (AclTypes.resource_type b) with
  | None => Err (unsupported "resource type" (AclTypes.resource_type b))
  | Some rt =>
    let pattern_code := if version <? 1 then 3 else AclTypes.pattern_type b in
    match AclTypes.pattern_type_to_cr pattern_code with
    | None => Err (unsupported "pattern type" pattern_code)
    | Some pt =>
      if str_is_empty pt then Err "pattern type ANY not valid for create"
      else
        match AclTypes.operation_to_cr (AclTypes.operation b) with
        | Some op =>
          if str_is_empty op then Err (unsupported "operation" (AclTypes.operation b))
          else
            match AclTypes.permission_to_cr (AclTypes.permission b) with
            | Some perm =>
              if str_is_empty perm then Err (unsupported "permission" (AclTypes.permission b))
              else
                Ok {| b_principal := AclTypes.principal b; b_resource_type := rt;
                      b_resource_name := AclTypes.resource_name b; b_pattern_type := pt; b_operation := op;
                      b_permission := perm; b_host := AclTypes.host b |}
            | None => Err (unsupported "permission" (AclTypes.permission b))
            end
        | None => Err (unsupported "operation" (AclTypes.operation b))
        end
    end
  end.

(** A code of a filter: UNKNOWN and ANY are wildcards. *)
Definition filter_code (table : Z → option string) (what : string) (code : Z) : result string string :=
  if (code =? 0) || (code =? 1) then Ok ""
  else match table code with Some s => Ok s | None => Err (unsupported what code) end.

Definition wire_filter_to_acl (f : AclTypes.AclFilter) (version : Z) : result string AclFilter :=
  match filter_code AclTypes.resource_type_to_cr "resource type filter" (AclTypes.resource_type_filter f) with
  | Err m => Err m
  | Ok rt =>
    match filter_code AclTypes.pattern_type_to_cr "pattern type filter"
            (if version <? 1 then 3 else AclTypes.pattern_type_filter f) with
    | Err m => Err m
    | Ok pt =>
      match filter_code AclTypes.operation_to_cr "operation filter" (AclTypes.f_operation f) with
      | Err m => Err m
      | Ok op =>
        match filter_code AclTypes.permission_to_cr "permission filter" (AclTypes.permission_type f) with
        | Err m => Err m
        | Ok perm =>
          Ok {| f_principal := default "" (AclTypes.principal_filter f); f_resource_type := rt;
                f_resource_name := default "" (AclTypes.resource_name_filter f); f_pattern_type := pt;
                f_operation := op; f_permission := perm; f_host := default "" (AclTypes.host_filter f) |}
        end
      end
    end
  end.

End wire.

Definition acl_to_wire_binding (b : AclBinding) : AclTypes.AclBinding :=
  {| AclTypes.resource_type := AclTypes.resource_type_from_cr (b_resource_type b);
     AclTypes.resource_name := b_resource_name b; AclTypes.pattern_type := AclTypes.pattern_type_from_cr (b_pattern_type b);
     AclTypes.principal := b_principal b; AclTypes.host := b_host b;
     AclTypes.operation := AclTypes.operation_from_cr (b_operation b);
     AclTypes.permission := AclTypes.permission_from_cr (b_permission b) |}.

(** One row per resource, in the order the resources appear, found by the
    binding's own strings. *)
Definition resource_key (b : AclBinding) : string * string * string :=
  (b_resource_type b, b_resource_name b, b_pattern_type b).
Definition matching_acl (b : AclBinding) : DescribeAcls.MatchingAcl :=
  {| DescribeAcls.principal := b_principal b; DescribeAcls.host := b_host b;
     DescribeAcls.operation := AclTypes.operation_from_cr (b_operation b);
     DescribeAcls.permission := AclTypes.permission_from_cr (b_permission b) |}.
Definition empty_row (b : AclBinding) : DescribeAcls.DescribeAclsResource :=
  {| DescribeAcls.resource_type := AclTypes.resource_type_from_cr (b_resource_type b);
     DescribeAcls.resource_name := b_resource_name b;
     DescribeAcls.pattern_type := AclTypes.pattern_type_from_cr (b_pattern_type b); DescribeAcls.acls := [] |}.
Definition push_acl (m : DescribeAcls.MatchingAcl) (r : DescribeAcls.DescribeAclsResource) : DescribeAcls.DescribeAclsResource :=
  {| DescribeAcls.resource_type := DescribeAcls.resource_type r; DescribeAcls.resource_name := DescribeAcls.resource_name r;
     DescribeAcls.pattern_type := DescribeAcls.pattern_type r; DescribeAcls.acls := DescribeAcls.acls r ++ [m] |}.
Definition group_step (st : list DescribeAcls.DescribeAclsResource * gmap (string * string * string) nat) (b : AclBinding) :
    list DescribeAcls.DescribeAclsResource * gmap (string * string * string) nat :=
  let '(out, idx) := st in
  let '(out, idx, i) :=
    match idx !! resource_key b with
    | Some i => (out, idx, i)
    | None => (out ++ [empty_row b], <[resource_key b := length out]> idx, length out)
    end in
  (alter (push_acl (matching_acl b)) i out, idx).
Definition group_bindings_by_resource (bs : list AclBinding) : list DescribeAcls.DescribeAclsResource :=
  (foldl group_step ([], ∅) bs).1.

(** ** The handlers *)

Section handlers.
Context (unsupported : string → Z → string) (display : AclWriteError → string).
Context (authz : Resource → Operation → bool).

Definition describe_acls_answer (writer : bool) (fault : option ApiFault) (s : UserServer) (version : Z)
    (req : DescribeAcls.Request) : DescribeAcls.Response :=
  let reply code msg rows := {| DescribeAcls.throttle_time_ms := 0; DescribeAcls.error_code := code;
                                DescribeAcls.error_message := msg; DescribeAcls.resources := rows |} in
  if negb (authz Resource_cluster Describe) then reply 31 None []
  else if negb writer then reply 0 None []
  else
    match wire_filter_to_acl unsupported (DescribeAcls.filter req) version with
    | Err msg => reply 42 (Some msg) []
    | Ok f =>
      match list_acls fault s f with
      | Ok bs => reply 0 None (group_bindings_by_resource bs)
      | Err e => reply (-1) (Some (display e)) []
      end
    end.

Definition handle_describe_acls (writer : bool) (fault : option ApiFault) (s : UserServer) (version : Z)
    (body : list byte) : enc :=
  match DescribeAcls.decode_request version body with
  | Err err => Err err
  | Ok (req, _) => DescribeAcls.encode_response (describe_acls_answer writer fault s version req) version
  end.

Definition create_error_code (e : AclWriteError) : Z :=
  match e with UnknownPrincipal _ | InvalidPrincipal _ => 42 | AclOther => -1 end.
Definition created (code : Z) (msg : option string) : CreateAcls.CreateAclsResult :=
  {| CreateAcls.error_code := code; CreateAcls.error_message := msg |}.

Definition create_acl_one (writer : bool) (fault : nat → option ApiFault * option ApiFault) (version : Z) (i : nat)
    (s : UserServer) (b : AclTypes.AclBinding) : UserServer * CreateAcls.CreateAclsResult :=
  if negb (authz Resource_cluster Alter) then (s, created 31 None)
  else if negb writer then (s, created 0 None)
  else
    match wire_binding_to_acl unsupported b version with
    | Err msg => (s, created 42 (Some msg))
    | Ok binding =>
      match create_acl (fault i).1 (fault i).2 s binding with
      | (s, Ok _) => (s, created 0 None)
      | (s, Err e) => (s, created (create_error_code e) (Some (display e)))
      end
    end.

Definition create_acls_answer (writer : bool) (fault : nat → option ApiFault * option ApiFault) (version : Z)
    (s : UserServer) (req : CreateAcls.Request) : UserServer * CreateAcls.Response :=
  let '(s, results) := serve_each (create_acl_one writer fault version) 0 s (CreateAcls.creations req) in
  (s, {| CreateAcls.throttle_time_ms := 0; CreateAcls.results := results |}).

Definition handle_create_acls (writer : bool) (fault : nat → option ApiFault * option ApiFault) (s : UserServer)
    (version : Z) (body : list byte) : UserServer * enc :=
  match CreateAcls.decode_request version body with
  | Err err => (s, Err err)
  | Ok (req, _) =>
    let '(s, resp) := create_acls_answer writer fault version s req in (s, CreateAcls.encode_response resp version)
  end.

Definition filter_result (code : Z) (msg : option string) (ms : list AclBinding) : DeleteAcls.DeleteAclsFilterResult :=
  {| DeleteAcls.error_code := code; DeleteAcls.error_message := msg;
     DeleteAcls.matching_acls :=
       (λ m, {| DeleteAcls.m_error_code := 0; DeleteAcls.m_error_message := None;
                DeleteAcls.m_binding := acl_to_wire_binding m |}) <$> ms |}.

Definition delete_acls_one (writer : bool) (fault : nat → option ApiFault * (nat → option ApiFault)) (version : Z) (i : nat)
    (s : UserServer) (f : AclTypes.AclFilter) : UserServer * DeleteAcls.DeleteAclsFilterResult :=
  if negb (authz Resource_cluster Alter) then (s, filter_result 31 None [])
  else if negb writer then (s, filter_result 0 None [])
  else
    match wire_filter_to_acl unsupported f version with
    | Err msg => (s, filter_result 42 (Some msg) [])
    | Ok flt =>
      match delete_acls (fault i).1 (fault i).2 s flt with
      | (s, Ok ms) => (s, filter_result 0 None ms)
      | (s, Err e) => (s, filter_result (-1) (Some (display e)) [])
      end
    end.

Definition delete_acls_answer (writer : bool) (fault : nat → option ApiFault * (nat → option ApiFault)) (version : Z)
    (s : UserServer) (req : DeleteAcls.Request) : UserServer * DeleteAcls.Response :=
  let '(s, results) := serve_each (delete_acls_one writer fault version) 0 s (DeleteAcls.filters req) in
  (s, {| DeleteAcls.throttle_time_ms := 0; DeleteAcls.filter_results := results |}).

Definition handle_delete_acls (writer : bool) (fault : nat → option ApiFault * (nat → option ApiFault)) (s : UserServer)
    (version : Z) (body : list byte) : UserServer * enc :=
  match DeleteAcls.decode_request version body with
  | Err err => (s, Err err)
  | Ok (req, _) =>
    let '(s, resp) := delete_acls_answer writer fault version s req in (s, DeleteAcls.encode_response resp version)
  end.

End handlers.

(** ** What the users' objects grant

    One binding for every entry and operation of the users that are not being
    deleted. *)
Definition bindings_of (name : string) (u : KafkaUser) : list AclBinding :=
  if ku_deleting u then []
  else e ← user_rows u; acl_entry_to_binding ("User:" +:+ name) e <$> ua_operations e.
Definition bindings (s : UserServer) : list AclBinding := nu ← map_to_list (sv_users s); bindings_of nu.1 nu.2.

Lemma elem_of_bindings s b :
  b ∈ bindings s ↔ ∃ n u, sv_users s !! n = Some u ∧ b ∈ bindings_of n u.
Proof.
  unfold bindings. rewrite list_elem_of_bind. split.
  - intros ([n u] & Hb & Hu%elem_of_map_to_list). eauto.
  - intros (n & u & Hu & Hb). exists (n, u). split; [done|]. by apply elem_of_map_to_list.
Qed.

Lemma filter_bind {A B} (P : B → bool) (g : A → list B) l :
  List.filter P (x ← l; g x) = (x ← l; List.filter P (g x)).
Proof. induction l as [|a l IH]; [done|]. rewrite !bind_cons, List.filter_app. by f_equal. Qed.

Lemma filter_fmap {A B} (P : B → bool) (g : A → B) l : List.filter P (g <$> l) = g <$> List.filter (λ x, P (g x)) l.
Proof. induction l as [|a l IH]; [done|]. rewrite fmap_cons. simpl. destruct (P (g a)); [rewrite fmap_cons|]; by rewrite IH. Qed.

Lemma filter_none {A} (P : A → bool) l : (∀ x, x ∈ l → P x = false) → List.filter P l = [].
Proof.
  induction l as [|a l IH]; [done|]. intros H. simpl. rewrite (H a) by (by left).
  apply IH. intros x Hx. apply H. by right.
Qed.

Lemma filter_all {A} (P : A → bool) l : (∀ x, x ∈ l → P x = true) → List.filter P l = l.
Proof.
  induction l as [|a l IH]; [done|]. intros H. simpl. rewrite (H a) by (by left).
  f_equal. apply IH. intros x Hx. apply H. by right.
Qed.

Lemma bind_nil {A B} (l : list A) : (x ← l; ([] : list B)) = [].
Proof. by induction l. Qed.

Lemma bindings_principal n u b : b ∈ bindings_of n u → b_principal b = "User:" +:+ n.
Proof.
  unfold bindings_of. destruct (ku_deleting u); [by intros ?%not_elem_of_nil|].
  intros (e & (op & -> & _)%list_elem_of_fmap & _)%list_elem_of_bind. done.
Qed.

Lemma list_user_spec f n u : list_user f n u = List.filter (match_binding f) (bindings_of n u).
Proof.
  unfold list_user. destruct (match_string (f_principal f) ("User:" +:+ n)) eqn:Em.
  - unfold bindings_of. by destruct (ku_deleting u).
  - cbn [negb]. rewrite filter_none; [by destruct (ku_deleting u)|].
    intros b Hb%bindings_principal. unfold match_binding. by rewrite Hb, Em.
Qed.

Lemma list_acls_spec s f : list_acls None s f = Ok (List.filter (match_binding f) (bindings s)).
Proof.
  unfold list_acls, bindings. rewrite filter_bind. f_equal. apply list_bind_ext; [|done].
  intros [n u]. apply list_user_spec.
Qed.

Lemma split_ops_spec e f p :
  split_ops_by_filter e f p =
    (List.filter (λ op, match_binding f (acl_entry_to_binding p e op)) (ua_operations e),
     List.filter (λ op, negb (match_binding f (acl_entry_to_binding p e op))) (ua_operations e)).
Proof.
  unfold split_ops_by_filter, match_binding, acl_entry_to_binding. simpl.
  destruct (match_string (f_principal f) p), (match_string (f_resource_type f) (rs_kind (ua_resource e))),
    (match_string (f_resource_name f) (rs_name (ua_resource e))), (match_pattern (f_pattern_type f) (entry_pattern e)),
    (match_string (f_permission f) (normalise_permission (ua_kind e))), (match_string (f_host f) (ua_host e)); simpl.
  all: try (by f_equal; symmetry; [apply filter_none|apply filter_all]; intros op _; rewrite ?andb_false_r).
  unfold partition_ops, match_string. f_equal; apply List.filter_ext; intros op; rewrite !andb_true_r;
    f_equal; f_equal; apply bool_decide_ext; split; congruence.
Qed.

Lemma delete_entry_spec f p e :
  (delete_entry f p e).1 = List.filter (match_binding f) (acl_entry_to_binding p e <$> ua_operations e) ∧
  (e' ← (delete_entry f p e).2; acl_entry_to_binding p e' <$> ua_operations e') =
    List.filter (λ b, negb (match_binding f b)) (acl_entry_to_binding p e <$> ua_operations e).
Proof.
  unfold delete_entry. rewrite split_ops_spec, !filter_fmap. cbn [fst snd]. split; [done|].
  set (P := λ op, match_binding f (acl_entry_to_binding p e op)).
  destruct (List.filter P (ua_operations e)) as [|op ops] eqn:Em.
  - cbn [mbind list_bind]. rewrite app_nil_r. f_equal. symmetry. apply filter_all. intros x Hx.
    destruct (P x) eqn:Ex; [|unfold P in Ex; by rewrite Ex].
    assert (x ∈ List.filter P (ua_operations e)) as Hf.
    { apply list_elem_of_In, List.filter_In. split; [by apply list_elem_of_In|done]. }
    rewrite Em in Hf. by apply not_elem_of_nil in Hf.
  - fold (P op). change (λ x, negb (match_binding f (acl_entry_to_binding p e x))) with (λ x, negb (P x)).
    destruct (List.filter (λ x, negb (P x)) (ua_operations e)); [done|].
    cbn [mbind list_bind]. by rewrite app_nil_r.
Qed.

Lemma delete_rows_spec f p acls :
  concat (delete_entry f p <$> acls).*1 =
    List.filter (match_binding f) (e ← acls; acl_entry_to_binding p e <$> ua_operations e) ∧
  (e ← concat (delete_entry f p <$> acls).*2; acl_entry_to_binding p e <$> ua_operations e) =
    List.filter (λ b, negb (match_binding f b)) (e ← acls; acl_entry_to_binding p e <$> ua_operations e).
Proof.
  induction acls as [|e l [IH1 IH2]]; [done|]. rewrite !fmap_cons, !bind_cons, !List.filter_app. cbn [concat].
  rewrite bind_app, IH1, IH2. by destruct (delete_entry_spec f p e) as [-> ->].
Qed.

Lemma delete_edit_spec f n u :
  (delete_edit f n u).1 = List.filter (match_binding f) (bindings_of n u) ∧
  match (delete_edit f n u).2 with
  | None => (delete_edit f n u).1 = []
  | Some u' => bindings_of n u' = List.filter (λ b, negb (match_binding f b)) (bindings_of n u) ∧
      ku_version u' = ku_version u ∧ ku_deleting u' = ku_deleting u
  end.
Proof.
  unfold delete_edit. destruct (ku_deleting u) eqn:Ed.
  { unfold bindings_of. by rewrite Ed. }
  destruct (match_string (f_principal f) ("User:" +:+ n)) eqn:Em; cbn [negb].
  2: { split; [|done]. symmetry. apply filter_none. intros b Hb%bindings_principal. unfold match_binding.
       by rewrite Hb, Em. }
  unfold bindings_of, user_rows. rewrite Ed. destruct (ku_authorization u) as [a|] eqn:Ea; [|done].
  destruct (delete_rows_spec f ("User:" +:+ n) (az_acls a)) as [H1 H2]. cbn [from_option fst snd].
  split; [done|]. case_bool_decide as Hr; [done|].
  cbn [with_authorization ku_deleting ku_version ku_authorization from_option az_acls]. by rewrite Ed.
Qed.

(** *** Writes on the server *)

Lemma replace_user_spec fault s n u' s' r :
  replace_user fault s n u' = (s', r) →
  match r with
  | Err _ => s' = s
  | Ok _ => s' = store_user s n u' ∧ fault = None ∧ user_schema_ok u' = true ∧
      ∃ cur, sv_users s !! n = Some cur ∧ ku_version cur = ku_version u'
  end.
Proof.
  unfold replace_user. destruct fault; [by intros [= <- <-]|]. destruct (sv_users s !! n) as [cur|]; [|by intros [= <- <-]].
  destruct (Z.eqb_spec (ku_version cur) (ku_version u')); cbn [negb]; [|by intros [= <- <-]].
  destruct (user_schema_ok u') eqn:Es; cbn [negb]; intros [= <- <-]; [|done]. eauto 6.
Qed.

Lemma bindings_with_version n u v : bindings_of n (with_version u v) = bindings_of n u.
Proof. done. Qed.

Lemma lookup_store s n u m :
  sv_users (store_user s n u) !! m = if decide (m = n) then Some (with_version u (sv_revision s + 1)) else sv_users s !! m.
Proof. unfold store_user. cbn [sv_users]. case_decide; [subst; apply lookup_insert_eq|by apply lookup_insert_ne]. Qed.

(** Bindings of two servers, user by user. *)
Lemma bindings_filter P s s' :
  (∀ n, match sv_users s !! n, sv_users s' !! n with
        | Some u, Some u' => bindings_of n u' = List.filter P (bindings_of n u)
        | None, None => True
        | _, _ => False
        end) →
  bindings s' ≡ₚ List.filter P (bindings s).
Proof.
  destruct s as [m v], s' as [m' v']. unfold bindings. cbn [sv_users]. rewrite filter_bind.
  revert m'. induction m as [|n u m Hn IH] using map_ind; intros m' H.
  { assert (m' = ∅) as ->; [|done]. apply map_eq. intros k. specialize (H k). rewrite lookup_empty in H |- *.
    by destruct (m' !! k). }
  pose proof (H n) as Hu. rewrite lookup_insert_eq in Hu. destruct (m' !! n) as [u'|] eqn:Eu; [|done].
  rewrite <- (insert_delete_id m' n u' Eu), !map_to_list_insert by (by rewrite ?lookup_delete_eq).
  rewrite !bind_cons. cbn [fst snd]. rewrite Hu. f_equiv. apply IH. intros k. specialize (H k).
  destruct (decide (k = n)) as [->|Hne]; [by rewrite Hn, lookup_delete_eq|].
  by rewrite lookup_insert_ne in H by done; rewrite lookup_delete_ne.
Qed.

Lemma delete_put_spec fault s f n u s' r :
  sv_users s !! n = Some u → delete_put fault s f n u = (s', r) →
  (∀ k, k ≠ n → sv_users s' !! k = sv_users s !! k) ∧
  match r with
  | Err _ => s' = s
  | Ok removed => removed = List.filter (match_binding f) (bindings_of n u) ∧
      ∃ u', sv_users s' !! n = Some u' ∧ bindings_of n u' = List.filter (λ b, negb (match_binding f b)) (bindings_of n u)
  end.
Proof.
  intros Hu. unfold delete_put. destruct (delete_edit_spec f n u) as [H1 H2].
  destruct (delete_edit f n u) as [removed [u'|]]; cbn [fst snd] in H1, H2.
  - destruct (replace_user fault s n u') as [s1 r1] eqn:Er. apply replace_user_spec in Er.
    destruct r1; intros [= <- <-]; [|by subst].
    destruct Er as (-> & _ & _ & _). split; [intros k Hk; rewrite lookup_store; by case_decide|].
    split; [done|]. rewrite lookup_store. case_decide; [|done]. eexists. split; [done|]. apply H2.
  - intros [= <- <-]. split; [done|]. split; [done|]. exists u. split; [done|]. symmetry. apply filter_all.
    intros b Hb. destruct (match_binding f b) eqn:Em; [|done].
    assert (b ∈ List.filter (match_binding f) (bindings_of n u)) as Hin
      by (by apply list_elem_of_In, List.filter_In; split; [apply list_elem_of_In|]).
    rewrite <- H1, H2 in Hin. by apply not_elem_of_nil in Hin.
Qed.

Lemma delete_loop_spec fault f users : ∀ i s s' r,
  NoDup users.*1 → (∀ n u, (n, u) ∈ users → sv_users s !! n = Some u) →
  delete_loop fault i s f users = (s', r) →
  ∃ gone todo, users = gone ++ todo ∧
    (∀ n u, (n, u) ∈ gone → ∃ u', sv_users s' !! n = Some u' ∧
       bindings_of n u' = List.filter (λ b, negb (match_binding f b)) (bindings_of n u)) ∧
    (∀ n, n ∉ gone.*1 → sv_users s' !! n = sv_users s !! n) ∧
    match r with
    | Ok ms => todo = [] ∧ ms = List.filter (match_binding f) (nu ← users; bindings_of nu.1 nu.2)
    | Err _ => todo ≠ []
    end.
Proof.
  induction users as [|[n u] users IH]; intros i s s' r Hnd Hin Hd; cbn [delete_loop] in Hd.
  { injection Hd as <- <-. exists [], []. split_and!; try done. intros n u H. by apply not_elem_of_nil in H. }
  rewrite fmap_cons, NoDup_cons in Hnd. destruct Hnd as [Hn Hnd]. cbn [fst] in Hn.
  destruct (delete_put (fault i) s f n u) as [s1 r1] eqn:Ep.
  apply delete_put_spec in Ep as [Hother Hr]; [|apply Hin; by left].
  destruct r1 as [removed|e]; [|injection Hd as <- <-; subst s1].
  2: { exists [], ((n, u) :: users). split_and!; try done. intros k v H. by apply not_elem_of_nil in H. }
  destruct Hr as (-> & u' & Hu' & Hb).
  destruct (delete_loop fault (i + 1) s1 f users) as [s2 r2] eqn:El.
  apply IH in El as (gone & todo & -> & Hdone & Hrest & Hr2); [|done|].
  2: { intros k v Hkv. rewrite Hother; [by apply Hin; right|]. intros ->. apply Hn. by apply (list_elem_of_fmap_2 fst) in Hkv. }
  assert (s2 = s') as <- by (destruct r2; by injection Hd).
  exists ((n, u) :: gone), todo. split; [done|]. split_and!.
  - intros k v [[= -> ->]|H]%elem_of_cons; [|by apply Hdone]. exists u'. split; [|done]. rewrite Hrest; [done|].
    intros H. apply Hn. rewrite fmap_app. apply elem_of_app. by left.
  - intros k Hk. rewrite fmap_cons, not_elem_of_cons in Hk. destruct Hk as [Hk1 Hk2]. rewrite Hrest by done. by apply Hother.
  - destruct r2 as [more|e]; injection Hd as <-; [|done]. destruct Hr2 as [-> ->]. split; [done|].
    rewrite bind_cons, List.filter_app. done.
Qed.

Definition keeps (f : AclFilter) (b : AclBinding) : bool := negb (match_binding f b).

Lemma delete_acls_spec fl fault s f s' r :
  delete_acls fl fault s f = (s', r) →
  (∀ b, b ∈ bindings s' → b ∈ bindings s) ∧
  (∀ b, b ∈ bindings s → match_binding f b = false → b ∈ bindings s') ∧
  match r with
  | Ok ms => ms = List.filter (match_binding f) (bindings s) ∧ bindings s' ≡ₚ List.filter (keeps f) (bindings s)
  | Err _ => True
  end.
Proof.
  unfold delete_acls. destruct fl; [by intros [= <- <-]|]. intros Hd.
  apply delete_loop_spec in Hd as (gone & todo & Heq & Hgone & Hrest & Hr);
    [|apply NoDup_fst_map_to_list|by intros n u Hu%elem_of_map_to_list].
  assert (∀ n u, sv_users s !! n = Some u → ∃ u', sv_users s' !! n = Some u' ∧
    ((n, u) ∈ gone ∧ bindings_of n u' = List.filter (keeps f) (bindings_of n u) ∨ u' = u)) as Hpt.
  { intros n u Hu. destruct (decide (n ∈ gone.*1)) as [([k v] & -> & Hkv)%list_elem_of_fmap|Hni].
    - cbn [fst] in *. assert ((k, v) ∈ map_to_list (sv_users s)) as Hm by (rewrite Heq; apply elem_of_app; by left).
      apply elem_of_map_to_list in Hm. assert (v = u) as -> by congruence.
      destruct (Hgone k u Hkv) as (u' & Hu' & Hb). eauto.
    - exists u. rewrite Hrest by done. auto. }
  assert (∀ n, sv_users s !! n = None → sv_users s' !! n = None) as Hnone.
  { intros n Hn. rewrite Hrest; [done|]. intros ([k v] & -> & Hkv)%list_elem_of_fmap. cbn [fst] in *.
    assert ((k, v) ∈ map_to_list (sv_users s)) as Hm by (rewrite Heq; apply elem_of_app; by left).
    apply elem_of_map_to_list in Hm. congruence. }
  split_and!.
  - intros b (n & u' & Hu' & Hb)%elem_of_bindings. apply elem_of_bindings.
    destruct (sv_users s !! n) as [u|] eqn:Hu; [|rewrite Hnone in Hu'; congruence].
    exists n, u. split; [done|]. destruct (Hpt n u Hu) as (u2 & Hu2 & [[_ Hb2]| -> ]); simplify_eq; [|done].
    rewrite Hb2 in Hb. by apply list_elem_of_In, List.filter_In in Hb as [Hb%list_elem_of_In _].
  - intros b (n & u & Hu & Hb)%elem_of_bindings Hm. apply elem_of_bindings.
    destruct (Hpt n u Hu) as (u' & Hu' & [[_ Hb']| -> ]); exists n; eexists; (split; [done|]); [|done].
    rewrite Hb'. apply list_elem_of_In, List.filter_In. split; [by apply list_elem_of_In|]. unfold keeps. by rewrite Hm.
  - destruct r as [ms|]; [|done]. destruct Hr as [-> ->]. split; [done|]. apply bindings_filter. intros n.
    destruct (sv_users s !! n) as [u|] eqn:Hu; [|by rewrite Hnone].
    rewrite app_nil_r in Heq. apply elem_of_map_to_list in Hu as Hg. rewrite Heq in Hg.
    destruct (Hgone n u Hg) as (u' & -> & Hb). done.
Qed.

(** *** Answers of DescribeAcls *)

Definition row_bindings (r : DescribeAcls.DescribeAclsResource) : list AclTypes.AclBinding :=
  (λ m, {| AclTypes.resource_type := DescribeAcls.resource_type r; AclTypes.resource_name := DescribeAcls.resource_name r;
           AclTypes.pattern_type := DescribeAcls.pattern_type r; AclTypes.principal := DescribeAcls.principal m;
           AclTypes.host := DescribeAcls.host m; AclTypes.operation := DescribeAcls.operation m;
           AclTypes.permission := DescribeAcls.permission m |}) <$> DescribeAcls.acls r.
Definition described (rows : list DescribeAcls.DescribeAclsResource) : list AclTypes.AclBinding := rows ≫= row_bindings.

(** The index knows, of every key seen, the row that belongs to it. *)
Definition row_of (k : string * string * string) (r : DescribeAcls.DescribeAclsResource) : Prop :=
  DescribeAcls.resource_type r = AclTypes.resource_type_from_cr k.1.1 ∧ DescribeAcls.resource_name r = k.1.2 ∧
  DescribeAcls.pattern_type r = AclTypes.pattern_type_from_cr k.2.

Lemma described_alter m i rows r :
  rows !! i = Some r →
  described (alter (push_acl m) i rows) ≡ₚ
  described rows ++ row_bindings {| DescribeAcls.resource_type := DescribeAcls.resource_type r;
    DescribeAcls.resource_name := DescribeAcls.resource_name r; DescribeAcls.pattern_type := DescribeAcls.pattern_type r;
    DescribeAcls.acls := [m] |}.
Proof.
  revert i. induction rows as [|r0 rows IH]; intros [|i] Hr; try done; simpl in Hr.
  - injection Hr as ->. unfold described. cbn [alter list_alter]. rewrite !bind_cons. unfold row_bindings at 1. cbn [push_acl DescribeAcls.acls].
    rewrite fmap_app, <- app_assoc, (Permutation_app_comm (_ <$> [m])), app_assoc. done.
  - change (alter (push_acl m) (S i) (r0 :: rows)) with (r0 :: alter (push_acl m) i rows).
    unfold described in *. rewrite !bind_cons, IH by done. by rewrite app_assoc.
Qed.

Lemma group_bindings_spec bs :
  described (group_bindings_by_resource bs) ≡ₚ acl_to_wire_binding <$> bs.
Proof.
  unfold group_bindings_by_resource.
  assert (∀ bs st, (∀ k i, st.2 !! k = Some i → ∃ r, st.1 !! i = Some r ∧ row_of k r) →
    described (foldl group_step st bs).1 ≡ₚ described st.1 ++ (acl_to_wire_binding <$> bs)) as H.
  2: { rewrite H; [done|]. intros k i. cbn [snd]. by rewrite lookup_empty. }
  clear bs. induction bs as [|b bs IH]; intros [out idx] Hidx; [by rewrite app_nil_r|]. cbn [foldl].
  assert (∃ out1 idx1 i r, group_step (out, idx) b = (alter (push_acl (matching_acl b)) i out1, idx1) ∧
    described out1 = described out ∧ out1 !! i = Some r ∧ row_of (resource_key b) r ∧
    ∀ k j, idx1 !! k = Some j → ∃ r, out1 !! j = Some r ∧ row_of k r)
    as (out1 & idx1 & i & r & -> & Hd & Hr & Hk & Hidx1).
  { unfold group_step. destruct (idx !! resource_key b) as [i|] eqn:Ei.
    - destruct (Hidx _ _ Ei) as (r & Hr & Hk). exists out, idx, i, r. done.
    - exists (out ++ [empty_row b]), (<[resource_key b := length out]> idx), (length out), (empty_row b).
      split_and!; try done; [unfold described; by rewrite bind_app, app_nil_r|by rewrite list_lookup_middle|].
      intros k j. destruct (decide (k = resource_key b)) as [->|Hne].
      + rewrite lookup_insert_eq. intros [= <-]. exists (empty_row b). by rewrite list_lookup_middle.
      + rewrite lookup_insert_ne by done. intros (r & Hr & Hk)%Hidx. exists r. split; [|done].
        by apply lookup_app_l_Some. }
  rewrite IH.
  - cbn [fst]. rewrite (described_alter _ _ _ _ Hr), Hd, <- app_assoc, fmap_cons. f_equiv.
    destruct Hk as (H1 & H2 & H3). unfold row_bindings. cbn [DescribeAcls.acls fmap list_fmap app].
    unfold acl_to_wire_binding at 2. by rewrite H1, H2, H3.
  - cbn [fst snd]. intros k j Hj. destruct (Hidx1 _ _ Hj) as (r' & Hr' & Hk').
    destruct (decide (j = i)) as [->|Hne].
    + exists (push_acl (matching_acl b) r'). by rewrite list_lookup_alter_eq, Hr'.
    + exists r'. by rewrite list_lookup_alter_ne.
Qed.

(** *** Whole requests *)

Definition deleted_rows (rs : list DeleteAcls.DeleteAclsFilterResult) : list AclTypes.AclBinding :=
  r ← rs; DeleteAcls.m_binding <$> DeleteAcls.matching_acls r.

Lemma filter_result_rows code msg ms :
  DeleteAcls.m_binding <$> DeleteAcls.matching_acls (filter_result code msg ms) = acl_to_wire_binding <$> ms.
Proof. unfold filter_result. cbn [DeleteAcls.matching_acls]. by rewrite <- list_fmap_compose. Qed.

Section requests.
Context (unsupported : string → Z → string) (display : AclWriteError → string) (authz : Resource → Operation → bool).

Lemma delete_filter_spec fault version i s wf s' r :
  delete_acls_one unsupported display authz true fault version i s wf = (s', r) →
  (∀ b, b ∈ bindings s' → b ∈ bindings s) ∧
  (∀ b, b ∈ bindings s →
     (∀ f, wire_filter_to_acl unsupported wf version = Ok f → match_binding f b = false) → b ∈ bindings s') ∧
  (DeleteAcls.error_code r = 0 → ∃ f, wire_filter_to_acl unsupported wf version = Ok f ∧
     DeleteAcls.m_binding <$> DeleteAcls.matching_acls r = acl_to_wire_binding <$> List.filter (match_binding f) (bindings s) ∧
     bindings s' ≡ₚ List.filter (keeps f) (bindings s)).
Proof.
  unfold delete_acls_one. destruct (authz Resource_cluster Alter); cbn [negb]; [|by intros [= <- <-]].
  destruct (wire_filter_to_acl unsupported wf version) as [f|msg]; [|by intros [= <- <-]].
  destruct (delete_acls (fault i).1 (fault i).2 s f) as [s1 [ms|e]] eqn:Ed; apply delete_acls_spec in Ed as (H1 & H2 & H3);
    intros [= <- <-]; (split_and!; [done|by auto|]); [|done].
  destruct H3 as [-> H3]. intros _. exists f. by rewrite filter_result_rows.
Qed.

Lemma filter_perm {A} (P : A → bool) l l' : l ≡ₚ l' → List.filter P l ≡ₚ List.filter P l'.
Proof.
  induction 1 as [|a l l' _ IH|a b l|l1 l2 l3 _ IH1 _ IH2]; simpl; [done| | |by transitivity (List.filter P l2)].
  - destruct (P a); [by constructor|done].
  - destruct (P a), (P b); try done. constructor.
Qed.

Lemma filter_split {A} (P Q : A → bool) l :
  List.filter P l ++ List.filter Q (List.filter (λ x, negb (P x)) l) ≡ₚ List.filter (λ x, P x || Q x) l.
Proof.
  induction l as [|a l IH]; [done|]. simpl. destruct (P a); simpl; [by rewrite IH|].
  destruct (Q a); [|done]. rewrite <- Permutation_middle. by rewrite IH.
Qed.

Lemma filter_filter {A} (P Q : A → bool) l : List.filter Q (List.filter P l) = List.filter (λ x, P x && Q x) l.
Proof. induction l as [|a l IH]; [done|]. simpl. destruct (P a); simpl; [destruct (Q a)|]; by rewrite IH. Qed.

Definition hit (fs : list AclFilter) (b : AclBinding) : bool := existsb (λ f, match_binding f b) fs.

Lemma delete_each_spec fault version wfs : ∀ i s s' rs,
  serve_each (delete_acls_one unsupported display authz true fault version) i s wfs = (s', rs) →
  (∀ b, b ∈ bindings s' → b ∈ bindings s) ∧
  (∀ b, b ∈ bindings s →
     (∀ wf f, wf ∈ wfs → wire_filter_to_acl unsupported wf version = Ok f → match_binding f b = false) →
     b ∈ bindings s') ∧
  (Forall (λ r, DeleteAcls.error_code r = 0) rs →
   ∃ fs, Forall2 (λ wf f, wire_filter_to_acl unsupported wf version = Ok f) wfs fs ∧
     bindings s' ≡ₚ List.filter (λ b, negb (hit fs b)) (bindings s) ∧
     deleted_rows rs ≡ₚ acl_to_wire_binding <$> List.filter (hit fs) (bindings s)).
Proof.
  induction wfs as [|wf wfs IH]; intros i s s' rs Hs; cbn [serve_each] in Hs.
  { injection Hs as <- <-. split_and!; [done|done|]. intros _. exists []. split; [constructor|].
    rewrite filter_all by done. by rewrite filter_none. }
  destruct (delete_acls_one unsupported display authz true fault version i s wf) as [s1 r] eqn:E1.
  destruct (serve_each _ (i + 1) s1 wfs) as [s2 rs2] eqn:E2. injection Hs as <- <-.
  apply delete_filter_spec in E1 as (A1 & A2 & A3). apply IH in E2 as (B1 & B2 & B3). split_and!.
  - auto.
  - intros b Hb Hno. apply B2; [apply A2; [done|]|]; intros; eapply Hno; eauto; [by left|by right].
  - intros [Hr Hrs]%Forall_cons. destruct (A3 Hr) as (f & Hf & Hms & Hp). destruct (B3 Hrs) as (fs & Hfs & Hp2 & Hms2).
    exists (f :: fs). split; [by constructor|]. split.
    + rewrite Hp2, (filter_perm _ _ _ Hp), filter_filter. apply reflexive_eq, List.filter_ext. intros b.
      cbn [hit existsb]. unfold keeps. by rewrite negb_orb.
    + unfold deleted_rows in *. rewrite bind_cons, Hms, Hms2, (filter_perm _ _ _ Hp), <- fmap_app. apply fmap_Permutation.
      apply filter_split.
Qed.

(** DeleteAcls deletes what DescribeAcls lists, and nothing else.  Whatever
    fails on the way, only bindings that some filter of the request matches are
    gone afterwards and none is added.  When every filter is answered with success,
    the bindings left are those no filter matches, the rows of the answer are
    exactly the others, each once; and for a single filter they are the ones
    DescribeAcls answered with that filter before. *)
Theorem acls_deleted_exact fault version s req s' resp :
  delete_acls_answer unsupported display authz true fault version s req = (s', resp) →
  (∀ b, b ∈ bindings s' → b ∈ bindings s) ∧
  (∀ b, b ∈ bindings s →
     (∀ wf f, wf ∈ DeleteAcls.filters req → wire_filter_to_acl unsupported wf version = Ok f → match_binding f b = false) →
     b ∈ bindings s') ∧
  (Forall (λ r, DeleteAcls.error_code r = 0) (DeleteAcls.filter_results resp) →
   (∃ fs, Forall2 (λ wf f, wire_filter_to_acl unsupported wf version = Ok f) (DeleteAcls.filters req) fs ∧
     bindings s' ≡ₚ List.filter (λ b, negb (hit fs b)) (bindings s) ∧
     deleted_rows (DeleteAcls.filter_results resp) ≡ₚ acl_to_wire_binding <$> List.filter (hit fs) (bindings s)) ∧
   ∀ wf, DeleteAcls.filters req = [wf] → authz Resource_cluster Describe = true →
     described (DescribeAcls.resources
       (describe_acls_answer unsupported display authz true None s version {| DescribeAcls.filter := wf |})) ≡ₚ
     deleted_rows (DeleteAcls.filter_results resp)).
Proof.
  unfold delete_acls_answer. destruct (serve_each _ 0 s (DeleteAcls.filters req)) as [s1 rs] eqn:Es. intros [= <- <-].
  apply delete_each_spec in Es as (H1 & H2 & H3). split_and!; [done|done|]. intros Hok. cbn [DeleteAcls.filter_results].
  specialize (H3 Hok). split; [done|]. intros wf Hwf Hd. destruct H3 as (fs & Hfs & _ & Hrows). rewrite Hwf in Hfs.
  apply Forall2_cons_inv_l in Hfs as (f & fs' & Hf & Hnil & ->). apply Forall2_nil_inv_l in Hnil as ->.
  unfold describe_acls_answer. rewrite Hd. cbn [negb DescribeAcls.filter]. rewrite Hf, list_acls_spec.
  cbn [DescribeAcls.resources]. rewrite group_bindings_spec, Hrows. apply fmap_Permutation, reflexive_eq, List.filter_ext.
  intros b. unfold hit. cbn [existsb]. by rewrite orb_false_r.
Qed.

End requests.

(** *** Creating *)

Definition rows_of (p : string) (acls : list KafkaUserAcl) : list AclBinding :=
  e ← acls; acl_entry_to_binding p e <$> ua_operations e.

Definition with_op (b : AclBinding) (op : string) : AclBinding :=
  {| b_principal := b_principal b; b_resource_type := b_resource_type b; b_resource_name := b_resource_name b;
     b_pattern_type := b_pattern_type b; b_operation := op; b_permission := b_permission b; b_host := b_host b |}.

(** The bindings a request can create. *)
Definition concrete (b : AclBinding) : Prop :=
  b_pattern_type b ≠ "" ∧ (b_permission b = "Allow" ∨ b_permission b = "Deny").

Lemma with_op_id b : with_op b (b_operation b) = b.
Proof. by destruct b. Qed.

Lemma binding_pattern_concrete b : concrete b → binding_pattern b = b_pattern_type b.
Proof. intros [H _]. unfold binding_pattern. by destruct (b_pattern_type b). Qed.

Lemma normalise_lower t perm :
  (perm = "Allow" ∨ perm = "Deny") →
  (if str_is_empty t then "allow" else to_ascii_lowercase t) = to_ascii_lowercase perm → normalise_permission t = perm.
Proof.
  intros Hp Ht. destruct (str_is_empty t) eqn:Et.
  - destruct t; [|done]. destruct Hp as [-> | ->]; [done|]. by vm_compute in Ht.
  - unfold normalise_permission, eq_ignore_ascii_case. unfold to_ascii_lowercase in Ht.
    apply (f_equal as_bytes) in Ht. rewrite !as_of_bytes in Ht. rewrite Ht. by destruct Hp as [-> | ->].
Qed.

Lemma binding_type_concrete b : concrete b → binding_type b = to_ascii_lowercase (b_permission b).
Proof. intros [_ [H|H]]; unfold binding_type; by rewrite H. Qed.

Lemma same_shape_binding e b op :
  concrete b → same_acl_shape e b (binding_pattern b) (binding_type b) = true →
  acl_entry_to_binding (b_principal b) e op = with_op b op.
Proof.
  intros Hc. unfold same_acl_shape.
  rewrite binding_pattern_concrete, binding_type_concrete by done.
  repeat (case_bool_decide; try done). cbn [orb andb]. intros Hs.
  unfold acl_entry_to_binding, with_op. rewrite (normalise_lower (ua_kind e) (b_permission b)) by (apply Hc || done).
  f_equal; try done; by apply dec_stable.
Qed.

Lemma new_acl_binding b : concrete b → rows_of (b_principal b) [new_acl b] = [b].
Proof.
  intros Hc. unfold rows_of. cbn [mbind list_bind new_acl ua_operations fmap list_fmap app].
  f_equal. unfold acl_entry_to_binding, entry_pattern. cbn [new_acl ua_resource ua_kind ua_host rs_kind rs_name rs_pattern_type].
  rewrite binding_pattern_concrete, binding_type_concrete by done.
  destruct b, Hc as [H1 H2]. cbn in *. f_equal; [by destruct b_pattern_type0|]. by destruct H2 as [-> | ->].
Qed.

Lemma add_acl_spec b acls :
  concrete b →
  match add_acl b acls with
  | None => b ∈ rows_of (b_principal b) acls
  | Some acls' => ∀ x, x ∈ rows_of (b_principal b) acls' ↔ x ∈ rows_of (b_principal b) acls ∨ x = b
  end.
Proof.
  intros Hc. induction acls as [|e acls IH]; cbn [add_acl].
  { rewrite new_acl_binding by done. intros x. rewrite list_elem_of_singleton. unfold rows_of. simpl. set_solver. }
  destruct (same_acl_shape e b (binding_pattern b) (binding_type b)) eqn:Es.
  - assert (∀ ops, acl_entry_to_binding (b_principal b) e <$> ops = with_op b <$> ops) as He
      by (intros ops; apply list_fmap_ext; intros ? op _; by apply same_shape_binding).
    case_bool_decide as Hop.
    + unfold rows_of. rewrite bind_cons, He. apply elem_of_app. left. rewrite <- (with_op_id b) at 1.
      by apply (list_elem_of_fmap_2 (with_op b)).
    + intros x. unfold rows_of. rewrite !bind_cons. cbn [with_operations ua_operations].
      change (acl_entry_to_binding (b_principal b) (with_operations e (ua_operations e ++ [b_operation b])))
        with (acl_entry_to_binding (b_principal b) e).
      rewrite He, fmap_app. cbn [fmap list_fmap]. rewrite with_op_id, He, !elem_of_app, list_elem_of_singleton. tauto.
  - destruct (add_acl b acls) as [acls'|]; cbn [fmap option_fmap option_map].
    + intros x. unfold rows_of in *. rewrite !bind_cons, !elem_of_app, IH. tauto.
    + unfold rows_of in *. rewrite bind_cons. apply elem_of_app. by right.
Qed.

Lemma user_name_principal p n : principal_to_user_name p = Ok n → p = "User:" +:+ n.
Proof.
  unfold principal_to_user_name, strip_prefix. destruct (starts_with (as_bytes "User:") (as_bytes p)) eqn:Es; [|done].
  destruct (drop (length (as_bytes "User:")) (as_bytes p)) as [|c rest] eqn:Ed; [done|]. intros [= <-].
  rewrite <- (of_as_bytes p). unfold starts_with in Es.
  assert (as_bytes p = as_bytes "User:" ++ (c :: rest)) as ->.
  { apply bool_decide_eq_true in Es. rewrite <- Ed, <- Es at 1. symmetry. apply take_drop. }
  done.
Qed.

Lemma wire_binding_concrete unsupported wb version b :
  wire_binding_to_acl unsupported wb version = Ok b → concrete b ∧ b_principal b = AclTypes.principal wb.
Proof.
  unfold wire_binding_to_acl, AclTypes.permission_to_cr. destruct (AclTypes.resource_type_to_cr _); [|done].
  destruct (AclTypes.pattern_type_to_cr _) as [pt|]; [|done]. destruct (str_is_empty pt) eqn:Ep; [done|].
  destruct (AclTypes.operation_to_cr _) as [op|]; [|done]. destruct (str_is_empty op); [done|].
  repeat (case_match; simplify_eq/=; try done); intros [= <-]; (split; [|done]); (split; [by destruct pt|]); eauto.
Qed.

Definition none_deleting (s : UserServer) : Prop := ∀ n u, sv_users s !! n = Some u → ku_deleting u = false.

Lemma create_acl_spec fg fp s b s' r :
  concrete b → none_deleting s → create_acl fg fp s b = (s', r) →
  none_deleting s' ∧
  match r with
  | Err _ => s' = s
  | Ok _ => ∀ x, x ∈ bindings s' ↔ x ∈ bindings s ∨ x = b
  end.
Proof.
  intros Hc Hdel. unfold create_acl, create_get. destruct (principal_to_user_name (b_principal b)) as [n|e] eqn:En;
    [|by intros [= <- <-]].
  apply user_name_principal in En. destruct fg; [by intros [= <- <-]|].
  destruct (sv_users s !! n) as [u|] eqn:Eu; [|by intros [= <- <-]]. unfold create_put, create_edit.
  pose proof (Hdel n u Eu) as Hu.
  pose proof (add_acl_spec b (az_acls (default KafkaUserAuthorization_default (ku_authorization u))) Hc) as Ha.
  assert (bindings_of n u = rows_of (b_principal b) (az_acls (default KafkaUserAuthorization_default (ku_authorization u))))
    as Hrows by (unfold bindings_of, rows_of, user_rows; rewrite Hu, En; by destruct (ku_authorization u)).
  rewrite <- Hrows in Ha.
  destruct (add_acl b _) as [acls|]; cbn [fmap option_fmap option_map].
  2: { intros [= <- <-]. split; [done|]. intros x. split; [by left|]. intros [H| ->]; [done|]. apply elem_of_bindings. eauto. }
  set (u' := with_authorization u _).
  destruct (replace_user fp s n u') as [s1 [[]|e]] eqn:Er; apply replace_user_spec in Er; intros [= <- <-]; [|by subst].
  destruct Er as (-> & _). split.
  { intros k v. rewrite lookup_store. case_decide; [|apply Hdel]. by intros [= <-]. }
  assert (bindings_of n u' = rows_of (b_principal b) acls) as Hu'
    by (unfold bindings_of, u', user_rows; cbn [with_authorization ku_deleting ku_authorization]; by rewrite Hu, En).
  rewrite <- Hu' in Ha. intros x. rewrite !elem_of_bindings. split.
  - intros (k & v & Hk & Hx). rewrite lookup_store in Hk. case_decide; [|left; eauto]. subst k. injection Hk as <-.
    rewrite bindings_with_version in Hx. apply Ha in Hx as [Hx| ->]; [left; eauto|by right].
  - intros [(k & v & Hk & Hx)| ->].
    + destruct (decide (k = n)) as [->|Hne]; exists k || exists n.
      * exists (with_version u' (sv_revision s + 1)). rewrite lookup_store, decide_True by done. split; [done|].
        rewrite bindings_with_version. apply Ha. left. congruence.
      * exists v. by rewrite lookup_store, decide_False.
    + exists n, (with_version u' (sv_revision s + 1)). rewrite lookup_store, decide_True by done. split; [done|].
      rewrite bindings_with_version. apply Ha. by right.
Qed.

Definition server_ok (s : UserServer) : Prop := ∀ n u, sv_users s !! n = Some u → user_schema_ok u = true.

Lemma replace_user_ok fault s n u' : server_ok s → server_ok (replace_user fault s n u').1.
Proof.
  intros Hs. destruct (replace_user fault s n u') as [s' r] eqn:Er. apply replace_user_spec in Er. cbn [fst].
  destruct r; [|by subst]. destruct Er as (-> & _ & Hok & _). intros k v. rewrite lookup_store.
  case_decide; [|apply Hs]. by intros [= <-].
Qed.

Lemma create_acl_ok fg fp s b : server_ok s → server_ok (create_acl fg fp s b).1.
Proof.
  intros Hs. unfold create_acl. destruct (create_get fg s b) as [[n u]|]; [|done]. unfold create_put.
  destruct (create_edit b u) as [u'|]; [|done]. pose proof (replace_user_ok fp s n u' Hs).
  by destruct (replace_user fp s n u') as [s' [[]|]].
Qed.

(** What a created binding looks like when it is described. *)
Definition as_stored (version : Z) (wb : AclTypes.AclBinding) : AclTypes.AclBinding :=
  if version <? 1 then
    {| AclTypes.resource_type := AclTypes.resource_type wb; AclTypes.resource_name := AclTypes.resource_name wb;
       AclTypes.pattern_type := 3; AclTypes.principal := AclTypes.principal wb; AclTypes.host := AclTypes.host wb;
       AclTypes.operation := AclTypes.operation wb; AclTypes.permission := AclTypes.permission wb |}
  else wb.

Lemma wire_binding_roundtrip unsupported wb version b :
  wire_binding_to_acl unsupported wb version = Ok b → acl_to_wire_binding b = as_stored version wb.
Proof.
  unfold wire_binding_to_acl, as_stored. destruct (AclTypes.resource_type_to_cr _) as [rt|] eqn:E1; [|done].
  set (pc := if version <? 1 then 3 else AclTypes.pattern_type wb).
  destruct (AclTypes.pattern_type_to_cr pc) as [pt|] eqn:E2; [|done]. destruct (str_is_empty pt) eqn:N2; [done|].
  destruct (AclTypes.operation_to_cr _) as [op|] eqn:E3; [|done]. destruct (str_is_empty op) eqn:N3; [done|].
  destruct (AclTypes.permission_to_cr _) as [pm|] eqn:E4; [|done]. destruct (str_is_empty pm) eqn:N4; [done|]. intros [= <-].
  unfold acl_to_wire_binding. cbn [b_resource_type b_resource_name b_pattern_type b_principal b_host b_operation b_permission].
  apply AclTypes.acl_names_roundtrip in E1. apply AclTypes.acl_names_roundtrip in E2; [|by destruct pt].
  apply AclTypes.acl_names_roundtrip in E3; [|by destruct op]. apply AclTypes.acl_names_roundtrip in E4; [|by destruct pm].
  rewrite E1, E2, E3, E4. unfold pc. destruct wb. by destruct (version <? 1).
Qed.

Section create.
Context (unsupported : string → Z → string) (display : AclWriteError → string) (authz : Resource → Operation → bool).

(** The bindings of the entries of a request that were answered with success. *)
Definition accepted (version : Z) (wbs : list AclTypes.AclBinding) (rs : list CreateAcls.CreateAclsResult)
    (b : AclBinding) : Prop :=
  ∃ i wb r, wbs !! i = Some wb ∧ rs !! i = Some r ∧ CreateAcls.error_code r = 0 ∧
    wire_binding_to_acl unsupported wb version = Ok b.

Lemma create_one_spec fault version i s wb s' r :
  none_deleting s → server_ok s → create_acl_one unsupported display authz true fault version i s wb = (s', r) →
  none_deleting s' ∧ server_ok s' ∧
  ∀ b, b ∈ bindings s' ↔
    b ∈ bindings s ∨ (CreateAcls.error_code r = 0 ∧ wire_binding_to_acl unsupported wb version = Ok b).
Proof.
  intros Hd Hok. unfold create_acl_one. destruct (authz Resource_cluster Alter); cbn [negb].
  2: { intros [= <- <-]. split_and!; try done. cbn. naive_solver. }
  destruct (wire_binding_to_acl unsupported wb version) as [b|msg] eqn:Ew.
  2: { intros [= <- <-]. split_and!; try done. cbn. naive_solver. }
  apply wire_binding_concrete in Ew as [Hc _].
  pose proof (create_acl_ok (fault i).1 (fault i).2 s b Hok) as Hok'.
  destruct (create_acl (fault i).1 (fault i).2 s b) as [s1 [[]|e]] eqn:Ec; apply create_acl_spec in Ec as [Hd' Hb]; try done;
    intros [= <- <-]; (split_and!; [done|done|]); cbn [created CreateAcls.error_code].
  - intros x. rewrite Hb. naive_solver.
  - subst s1. intros x. split; [by left|]. intros [H|[H _]]; [done|]. by destruct e.
Qed.

Lemma create_each_spec fault version wbs : ∀ i s s' rs,
  none_deleting s → server_ok s →
  serve_each (create_acl_one unsupported display authz true fault version) i s wbs = (s', rs) →
  none_deleting s' ∧ server_ok s' ∧ length rs = length wbs ∧
  ∀ b, b ∈ bindings s' ↔ b ∈ bindings s ∨ accepted version wbs rs b.
Proof.
  induction wbs as [|wb wbs IH]; intros i s s' rs Hd Hok Hs; cbn [serve_each] in Hs.
  { injection Hs as <- <-. split_and!; try done. intros b. split; [by left|]. by intros [H|(j & wb & r & Hj & _)]. }
  destruct (create_acl_one unsupported display authz true fault version i s wb) as [s1 r] eqn:E1.
  destruct (serve_each _ (i + 1) s1 wbs) as [s2 rs2] eqn:E2. injection Hs as <- <-.
  apply create_one_spec in E1 as (Hd1 & Hok1 & H1); [|done..]. apply IH in E2 as (Hd2 & Hok2 & Hl & H2); [|done..].
  split_and!; [done|done|by simpl; rewrite Hl|]. intros b. rewrite H2, H1. split.
  - intros [[H|[Hr Hw]]|(j & wb' & r' & Hj & Hrest)]; [by left|right; exists 0%nat, wb, r; done|].
    right. exists (S j), wb', r'. done.
  - intros [H|([|j] & wb' & r' & Hj & Hr' & Hc & Hw)]; [auto| |]; simpl in Hj, Hr'; simplify_eq; [auto|].
    right. exists j, wb', r'. done.
Qed.

End create.

(** *** The decision *)

(** What a binding says about a request, in the terms of the admin API. *)
Definition speaks_of (b : AclBinding) (p : Principal) (res : Resource) (op : Operation) : Prop :=
  (b_principal b = as_principal_string p ∨ b_principal b = "User:*") ∧
  b_resource_type b = ResourceKind_as_str (r_kind res) ∧
  (if decide (b_pattern_type b = "prefix") then String.prefix (b_resource_name b) (r_name res) = true
   else b_resource_name b = r_name res ∨ b_resource_name b = "*") ∧
  (b_operation b = "All" ∨ b_operation b = Operation_as_str op).

Lemma parse_inv x op : parse x = Some op → x = Operation_as_str op.
Proof. unfold parse. repeat (case_decide; [by intros [= <-]|]). done. Qed.

Lemma rule_operation a op :
  operation_all (rule_of a) || bool_decide (op ∈ operations (rule_of a)) = true ↔
  ∃ o, o ∈ ae_operations a ∧ (o = "All" ∨ o = Operation_as_str op).
Proof.
  unfold rule_of. cbn [operation_all operations]. rewrite orb_true_iff, !bool_decide_eq_true, elem_of_list_to_set, list_elem_of_omap.
  split.
  - intros [H|(x & (Hne & Hx)%list_elem_of_filter & Hp)]; [eauto|]. apply parse_inv in Hp. eauto.
  - intros (o & Ho & [-> | ->]); [by left|]. right. exists (Operation_as_str op). split; [|apply parse_as_str].
    apply list_elem_of_filter. split; [by destruct op|done].
Qed.

Lemma schema_row s n u e :
  server_ok s → sv_users s !! n = Some u → e ∈ user_rows u → acl_schema_ok e = true.
Proof.
  intros Hs Hu He. specialize (Hs n u Hu). unfold user_schema_ok in Hs. unfold user_rows in He.
  destruct (ku_authorization u) as [a|]; [|by apply not_elem_of_nil in He]. cbn [from_option] in *.
  apply andb_true_iff in Hs as [[_ Hs]%andb_true_iff _]. unfold authorization_schema_ok in Hs.
  apply andb_true_iff in Hs as [_ Hs]. rewrite List.forallb_forall in Hs. by apply Hs, list_elem_of_In.
Qed.

Lemma matches_user n pstr :
  matches_principal ("User:" +:+ n) pstr = true ↔ "User:" +:+ n = pstr ∨ "User:" +:+ n = "User:*".
Proof. unfold matches_principal. rewrite bool_decide_eq_true. naive_solver. Qed.

Lemma entry_pattern_cases e : acl_schema_ok e = true → entry_pattern e = "literal" ∨ entry_pattern e = "prefix".
Proof.
  unfold acl_schema_ok, one_of. rewrite !andb_true_iff, !bool_decide_eq_true, !elem_of_cons.
  intros [[[_ H] _] _]. unfold entry_pattern. destruct H as [H|[H|[H|H]]]; [rewrite H; auto..|]. by apply not_elem_of_nil in H.
Qed.

Lemma matches_row p e kind name :
  acl_schema_ok e = true →
  matches_resource (rule_of (acl_to_entry p e)) kind name = true ↔
  rs_kind (ua_resource e) = kind ∧
  (if decide (entry_pattern e = "prefix") then String.prefix (rs_name (ua_resource e)) name = true
   else rs_name (ua_resource e) = name ∨ rs_name (ua_resource e) = "*").
Proof.
  intros Hs. destruct (entry_pattern_cases e Hs) as [Hp|Hp].
  all: assert (pattern_type (rule_of (acl_to_entry p e)) = entry_pattern e) as Hpt
    by (unfold rule_of, acl_to_entry, entry_pattern in *; cbn [pattern_type ae_pattern]; rewrite Hp; done).
  all: unfold matches_resource; rewrite Hpt, Hp; cbn [rule_of acl_to_entry res_type res_name ae_type ae_name].
  all: assert (rs_kind (ua_resource e) ≠ "*") as Hk
    by (unfold acl_schema_ok, one_of in Hs; rewrite !andb_true_iff, !bool_decide_eq_true, !elem_of_cons in Hs;
        intros Heq; rewrite Heq in Hs; naive_solver (set_solver)).
  all: case_bool_decide as Hc; [split; [done|]; intros [Hx _]; exfalso; apply (proj2 Hc); done|].
  all: assert (rs_kind (ua_resource e) = kind) as Hkind by (destruct (decide (rs_kind (ua_resource e) = kind)); [done|tauto]).
  - rewrite decide_True by done. rewrite bool_decide_eq_true. rewrite decide_False by done. tauto.
  - rewrite decide_False by done. rewrite !decide_True by done. tauto.
Qed.

Lemma entry_speaks e n p res op :
  acl_schema_ok e = true →
  applies (rule_of (acl_to_entry ("User:" +:+ n) e)) (as_principal_string p) (ResourceKind_as_str (r_kind res)) (r_name res) op
    = true ↔
  ∃ o, o ∈ ua_operations e ∧ speaks_of (acl_entry_to_binding ("User:" +:+ n) e o) p res op.
Proof.
  intros Hs. unfold applies. rewrite !andb_true_iff, rule_operation, matches_row by done.
  change (principal (rule_of (acl_to_entry ("User:" +:+ n) e))) with ("User:" +:+ n). rewrite matches_user.
  unfold speaks_of. cbn [acl_entry_to_binding b_principal b_resource_type b_resource_name b_pattern_type b_operation].
  cbn [acl_to_entry ae_operations]. naive_solver.
Qed.

Lemma rebuilt_rules s e :
  e ∈ (nu ← map_to_list (sv_users s); user_entries nu.1 nu.2) ↔
  ∃ n u r, sv_users s !! n = Some u ∧ ku_deleting u = false ∧ r ∈ user_rows u ∧ e = acl_to_entry ("User:" +:+ n) r.
Proof.
  rewrite list_elem_of_bind. split.
  - intros ([n u] & He & Hu%elem_of_map_to_list). unfold user_entries in He. cbn [fst snd] in *.
    destruct (ku_deleting u) eqn:Ed; [by apply not_elem_of_nil in He|].
    apply list_elem_of_fmap in He as (r & -> & Hr). eauto 8.
  - intros (n & u & r & Hu & Hd & Hr & ->). exists (n, u). split; [|by apply elem_of_map_to_list].
    unfold user_entries. cbn [fst snd]. rewrite Hd. by apply (list_elem_of_fmap_2 (acl_to_entry _)).
Qed.

Lemma binding_rows s b :
  b ∈ bindings s ↔
  ∃ n u r o, sv_users s !! n = Some u ∧ ku_deleting u = false ∧ r ∈ user_rows u ∧ o ∈ ua_operations r ∧
    b = acl_entry_to_binding ("User:" +:+ n) r o.
Proof.
  rewrite elem_of_bindings. unfold bindings_of. split.
  - intros (n & u & Hu & Hb). destruct (ku_deleting u) eqn:Ed; [by apply not_elem_of_nil in Hb|].
    apply list_elem_of_bind in Hb as (r & (o & -> & Ho)%list_elem_of_fmap & Hr). naive_solver.
  - intros (n & u & r & o & Hu & Hd & Hr & Ho & ->). exists n, u. split; [done|]. rewrite Hd.
    apply list_elem_of_bind. exists r. split; [|done]. by apply list_elem_of_fmap_2.
Qed.

(** The decision of an engine that loaded the rebuilt rules file. *)
Definition granted (holds : AclBinding → Prop) (p : Principal) (res : Resource) (op : Operation) : Prop :=
  (∃ b, holds b ∧ speaks_of b p res op ∧ b_permission b = "Allow") ∧
  ¬ ∃ b, holds b ∧ speaks_of b p res op ∧ b_permission b = "Deny".

Lemma rebuilt_decision s f e p res op now :
  server_ok s → reconcile_acls None true s = Some f →
  (authorize (reload e f) p res op now).2 = true ↔ granted (λ b, b ∈ bindings s) p res op.
Proof.
  intros Hs [= <-]. unfold authorize, acl_authorizer, authorize_start, reload. cbn [cache rules].
  rewrite lookup_empty. cbn [snd]. rewrite evaluate_spec. unfold permitted, granted.
  assert (∀ q r, deny (rule_of (acl_to_entry q r)) = bool_decide (normalise_permission (ua_kind r) = "Deny")) as Hdeny by done.
  assert (∀ k, normalise_permission k = "Allow" ∨ normalise_permission k = "Deny") as Hperm
    by (intros k; unfold normalise_permission; case_match; auto).
  split.
  - intros [(x & Hx & Ha) Hno].
    apply list_elem_of_fmap in Hx as (en & -> & (n & u & r & Hu & Hd & Hr & ->)%rebuilt_rules).
    pose proof (schema_row s n u r Hs Hu Hr) as Hsr.
    assert (normalise_permission (ua_kind r) = "Allow") as Hal.
    { destruct (Hperm (ua_kind r)) as [H|H]; [done|]. exfalso.
      assert (deny (rule_of (acl_to_entry ("User:" +:+ n) r)) = false) as Hf.
      { apply Hno; [|done]. apply list_elem_of_fmap_2, rebuilt_rules. eauto 8. }
      rewrite Hdeny in Hf. apply bool_decide_eq_false in Hf. done. }
    apply entry_speaks in Ha as (o & Ho & Hsp); [|done]. split.
    + exists (acl_entry_to_binding ("User:" +:+ n) r o). split_and!; try done. apply binding_rows. eauto 10.
    + intros (b & Hb & Hsb & Hden). apply binding_rows in Hb as (n' & u' & r' & o' & Hu' & Hd' & Hr' & Ho' & ->).
      assert (deny (rule_of (acl_to_entry ("User:" +:+ n') r')) = false) as Hf.
      { apply Hno; [apply list_elem_of_fmap_2, rebuilt_rules; eauto 8|]. apply entry_speaks; [by eapply schema_row|]. eauto. }
      rewrite Hdeny in Hf. by apply bool_decide_eq_false in Hf.
  - intros [(b & Hb & Hsb & Hal) Hno]. apply binding_rows in Hb as (n & u & r & o & Hu & Hd & Hr & Ho & ->). split.
    + exists (rule_of (acl_to_entry ("User:" +:+ n) r)). split; [apply list_elem_of_fmap_2, rebuilt_rules; eauto 8|].
      apply entry_speaks; [by eapply schema_row|]. eauto.
    + intros x Hx Ha. apply list_elem_of_fmap in Hx as (en & -> & (n' & u' & r' & Hu' & Hd' & Hr' & ->)%rebuilt_rules).
      apply entry_speaks in Ha as (o' & Ho' & Hsp); [|by eapply schema_row].
      rewrite Hdeny. apply bool_decide_eq_false. intros Hden. apply Hno.
      exists (acl_entry_to_binding ("User:" +:+ n') r' o'). split_and!; try done. apply binding_rows. eauto 10.
Qed.

(** C23. A rule created over the wire is a rule enforced.  After CreateAcls was
    answered, the operator rebuilt the rules file and a broker reloaded it, a
    request is allowed exactly when a binding that was there or that the answer
    reports as created allows it, and none of these denies it: entries that were
    refused change nothing, and every other decision is what it was. *)
Theorem created_acls_enforced unsupported display authz fault version s req s' resp f e p res op now :
  none_deleting s → server_ok s →
  create_acls_answer unsupported display authz true fault version s req = (s', resp) →
  reconcile_acls None true s' = Some f →
  (authorize (reload e f) p res op now).2 = true ↔
  granted (λ b, b ∈ bindings s ∨ accepted unsupported version (CreateAcls.creations req) (CreateAcls.results resp) b) p res op.
Proof.
  unfold create_acls_answer. intros Hd Hok Hc Hf. destruct (serve_each _ 0 s (CreateAcls.creations req)) as [s1 rs] eqn:Es.
  injection Hc as <- <-. apply create_each_spec in Es as (_ & Hok1 & _ & Hb); [|done..].
  rewrite (rebuilt_decision s1 f e p res op now Hok1 Hf). unfold granted. cbn [CreateAcls.results]. by setoid_rewrite Hb.
Qed.

(** What was created is described as it was asked for.  An entry of a CreateAcls
    request that was answered with success is in the answer of every later
    DescribeAcls whose filter matches it, with the codes of the request (the
    literal pattern where the version has none), and what DescribeAcls lists is
    what the objects hold. *)
Theorem created_acls_described unsupported display authz fault version s req s' resp i wb r dversion dreq f b :
  none_deleting s → server_ok s → authz Resource_cluster Describe = true →
  create_acls_answer unsupported display authz true fault version s req = (s', resp) →
  CreateAcls.creations req !! i = Some wb → CreateAcls.results resp !! i = Some r → CreateAcls.error_code r = 0 →
  wire_binding_to_acl unsupported wb version = Ok b →
  wire_filter_to_acl unsupported (DescribeAcls.filter dreq) dversion = Ok f → match_binding f b = true →
  as_stored version wb ∈ described (DescribeAcls.resources
    (describe_acls_answer unsupported display authz true None s' dversion dreq)) ∧
  described (DescribeAcls.resources (describe_acls_answer unsupported display authz true None s' dversion dreq)) ≡ₚ
    acl_to_wire_binding <$> List.filter (match_binding f) (bindings s').
Proof.
  unfold create_acls_answer. intros Hd Hok Hdesc Hc Hi Hr Hcode Hw Hf Hm.
  destruct (serve_each _ 0 s (CreateAcls.creations req)) as [s1 rs] eqn:Es.
  injection Hc as <- <-. apply create_each_spec in Es as (_ & _ & _ & Hb); [|done..].
  assert (described (DescribeAcls.resources (describe_acls_answer unsupported display authz true None s1 dversion dreq)) ≡ₚ
    acl_to_wire_binding <$> List.filter (match_binding f) (bindings s1)) as Hrows.
  { unfold describe_acls_answer. rewrite Hdesc. cbn [negb]. rewrite Hf, list_acls_spec. apply group_bindings_spec. }
  split; [|done]. rewrite Hrows. rewrite <- (wire_binding_roundtrip _ _ _ _ Hw). apply list_elem_of_fmap_2.
  apply list_elem_of_In, List.filter_In. split; [|done]. apply list_elem_of_In, Hb. right. exists i, wb, r. done.
Qed.

(** ** Requests of several clients at once

    Brokers serve requests concurrently and people edit the objects: the calls of
    one request are separate steps.  A create that finds the operation in the
    object it read is answered at once. *)
Inductive AclClient :=
| CCreate (b : AclBinding) (name : string) (copy : KafkaUser)
| CDelete (f : AclFilter) (rest : list (string * KafkaUser)).

Inductive AclEv :=
| EvCreateGet (i : nat) (fault : option ApiFault) (b : AclBinding)
| EvCreatePut (i : nat) (fault : option ApiFault)
| EvDeleteList (i : nat) (f : AclFilter)
| EvDeletePut (i : nat) (fault : option ApiFault)
| EvForeign (name : string) (o : option KafkaUser).

Record AclWorld := { aw_server : UserServer; aw_clients : gmap nat AclClient }.

Definition foreign_write (s : UserServer) (name : string) (o : option KafkaUser) : UserServer :=
  match o with
  | Some u => store_user s name u
  | None => {| sv_users := delete name (sv_users s); sv_revision := sv_revision s + 1 |}
  end.

(** The binding whose creation the step acknowledges, if it does. *)
Definition acl_world_step (w : AclWorld) (ev : AclEv) : AclWorld * option AclBinding :=
  let s := aw_server w in
  match ev with
  | EvCreateGet i fault b =>
    match create_get fault s b with
    | Err _ => (w, None)
    | Ok (name, u) =>
      match create_edit b u with
      | None => (w, Some b)
      | Some _ => ({| aw_server := s; aw_clients := <[i := CCreate b name u]> (aw_clients w) |}, None)
      end
    end
  | EvCreatePut i fault =>
    match aw_clients w !! i with
    | Some (CCreate b name u) =>
      let '(s', r) := create_put fault s b name u in
      ({| aw_server := s'; aw_clients := delete i (aw_clients w) |}, match r with Ok _ => Some b | Err _ => None end)
    | _ => (w, None)
    end
  | EvDeleteList i f => ({| aw_server := s; aw_clients := <[i := CDelete f (map_to_list (sv_users s))]> (aw_clients w) |}, None)
  | EvDeletePut i fault =>
    match aw_clients w !! i with
    | Some (CDelete f ((name, u) :: rest)) =>
      let '(s', r) := delete_put fault s f name u in
      ({| aw_server := s';
          aw_clients := match r with Ok _ => <[i := CDelete f rest]> (aw_clients w) | Err _ => delete i (aw_clients w) end |}, None)
    | _ => (w, None)
    end
  | EvForeign name o => ({| aw_server := foreign_write s name o; aw_clients := aw_clients w |}, None)
  end.

Definition acl_run (w : AclWorld) (evs : list AclEv) : AclWorld := foldl (λ w ev, (acl_world_step w ev).1) w evs.

(** A copy of a user is as old as its version says. *)
Definition copy_ok (s : UserServer) (name : string) (u : KafkaUser) : Prop :=
  ku_version u ≤ sv_revision s ∧
  ∀ cur, sv_users s !! name = Some cur → ku_version cur = ku_version u → cur = u.
Definition copies (c : AclClient) : list (string * KafkaUser) :=
  match c with CCreate _ n u => [(n, u)] | CDelete _ rest => rest end.
Definition acl_world_ok (w : AclWorld) : Prop :=
  (∀ n u, sv_users (aw_server w) !! n = Some u → ku_version u ≤ sv_revision (aw_server w)) ∧
  ∀ i c n u, aw_clients w !! i = Some c → (n, u) ∈ copies c → copy_ok (aw_server w) n u.

(** Nobody is about to delete the binding; nobody will, or touches the user. *)
Definition spares (b : AclBinding) (w : AclWorld) : Prop :=
  ∀ i f rest, aw_clients w !! i = Some (CDelete f rest) → match_binding f b = false.
Definition harmless (b : AclBinding) (name : string) (ev : AclEv) : Prop :=
  match ev with
  | EvDeleteList _ f => match_binding f b = false
  | EvForeign n _ => n ≠ name
  | _ => True
  end.

Lemma copy_ok_store s name u n v : copy_ok s n v → copy_ok (store_user s name u) n v.
Proof.
  intros [Hle Heq]. split; [cbn [store_user sv_revision]; lia|]. intros cur. rewrite lookup_store.
  case_decide; [|apply Heq]. intros [= <-]. cbn [with_version ku_version]. lia.
Qed.

(** A write of somebody's copy is a write of the object as it is. *)
Lemma replace_copy fault s name u u' s' :
  copy_ok s name u → ku_version u' = ku_version u → replace_user fault s name u' = (s', Ok tt) →
  sv_users s !! name = Some u ∧ s' = store_user s name u'.
Proof.
  intros [_ Heq] Hv Hr. apply replace_user_spec in Hr as (-> & _ & _ & cur & Hcur & Hvc). split; [|done].
  rewrite Hcur. f_equal. apply Heq; [done|congruence].
Qed.

Inductive evolves (s : UserServer) : UserServer → Prop :=
| evolves_same : evolves s s
| evolves_write n o : evolves s (foreign_write s n o).

Lemma copy_ok_evolves s s' n v : evolves s s' → copy_ok s n v → copy_ok s' n v.
Proof.
  intros [|k [u|]] Hc; [done|by apply copy_ok_store|]. destruct Hc as [Hle Heq]. split; [cbn; lia|].
  intros cur. cbn [foreign_write sv_users]. intros [_ H]%lookup_delete_Some. by apply Heq.
Qed.

Lemma versions_evolve s s' :
  evolves s s' → (∀ n u, sv_users s !! n = Some u → ku_version u ≤ sv_revision s) →
  ∀ n u, sv_users s' !! n = Some u → ku_version u ≤ sv_revision s'.
Proof.
  intros [|k [u|]] H n v; [apply H| |]; cbn [foreign_write].
  - rewrite lookup_store. case_decide; [intros [= <-]; cbn; lia|]. intros Hv%H. cbn. lia.
  - cbn [sv_users sv_revision]. intros [_ Hv%H]%lookup_delete_Some. lia.
Qed.

Lemma create_put_evolves fault s b n u : evolves s (create_put fault s b n u).1.
Proof.
  unfold create_put. destruct (create_edit b u) as [u'|]; [|constructor].
  destruct (replace_user fault s n u') as [s' [[]|e]] eqn:Er; apply replace_user_spec in Er; cbn [fst].
  - destruct Er as [-> _]. apply (evolves_write s n (Some u')).
  - subst. constructor.
Qed.

Lemma delete_put_evolves fault s f n u : evolves s (delete_put fault s f n u).1.
Proof.
  unfold delete_put. destruct (delete_edit f n u) as [removed [u'|]]; [|constructor].
  destruct (replace_user fault s n u') as [s' [[]|e]] eqn:Er; apply replace_user_spec in Er; cbn [fst].
  - destruct Er as [-> _]. apply (evolves_write s n (Some u')).
  - subst. constructor.
Qed.

Lemma fresh_copy s n u :
  (∀ n u, sv_users s !! n = Some u → ku_version u ≤ sv_revision s) → sv_users s !! n = Some u → copy_ok s n u.
Proof. intros H Hu. split; [by eapply H|]. intros cur Hcur _. congruence. Qed.

Lemma create_get_lookup fault s b n u :
  create_get fault s b = Ok (n, u) → b_principal b = "User:" +:+ n ∧ sv_users s !! n = Some u.
Proof.
  unfold create_get. destruct (principal_to_user_name (b_principal b)) eqn:En; [|done]. destruct fault; [done|].
  destruct (sv_users s !! _) eqn:Eu; [|done]. intros [= <- <-]. split; [by apply user_name_principal|done].
Qed.

Lemma acl_world_step_ok w ev : acl_world_ok w → acl_world_ok (acl_world_step w ev).1.
Proof.
  intros [Hv Hc]. destruct ev as [i fault b|i fault|i f|i fault|n o]; cbn [acl_world_step].
  - destruct (create_get fault (aw_server w) b) as [[n u]|] eqn:Eg; [|done]. apply create_get_lookup in Eg as [_ Hu].
    destruct (create_edit b u) as [u'|]; [|done]. split; [done|]. cbn [fst aw_server aw_clients]. intros j c k v.
    intros [[<- <-]|[_ Hj]]%lookup_insert_Some; [|by eapply Hc].
    intros [= -> ->]%list_elem_of_singleton. by apply fresh_copy.
  - destruct (aw_clients w !! i) as [[b n u|]|] eqn:Ei; try done.
    pose proof (create_put_evolves fault (aw_server w) b n u) as He.
    destruct (create_put fault (aw_server w) b n u) as [s' r]. cbn [fst] in *.
    split; [by eapply versions_evolve|]. cbn [aw_server aw_clients]. intros j c k v [_ Hj]%lookup_delete_Some Hk.
    eapply copy_ok_evolves; [done|]. by eapply Hc.
  - split; [done|]. cbn [fst aw_server aw_clients]. intros j c k v [[<- <-]|[_ Hj]]%lookup_insert_Some; [|by eapply Hc].
    intros Hk%elem_of_map_to_list. by apply fresh_copy.
  - destruct (aw_clients w !! i) as [[|f [|[n u] rest]]|] eqn:Ei; try done.
    pose proof (delete_put_evolves fault (aw_server w) f n u) as He.
    destruct (delete_put fault (aw_server w) f n u) as [s' r]. cbn [fst] in *.
    split; [by eapply versions_evolve|]. cbn [aw_server aw_clients]. intros j c k v Hj Hk.
    eapply copy_ok_evolves; [done|]. destruct r.
    + apply lookup_insert_Some in Hj as [[<- <-]|[_ Hj]]; [|by eapply Hc]. eapply Hc; [exact Ei|]. by right.
    + apply lookup_delete_Some in Hj as [_ Hj]. by eapply Hc.
  - cbn [fst]. pose proof (evolves_write (aw_server w) n o) as He. split; [by eapply versions_evolve|].
    intros j c k v Hj Hk. eapply copy_ok_evolves; [done|]. by eapply Hc.
Qed.

(** The binding is in the user's object. *)
Definition holds (b : AclBinding) (name : string) (s : UserServer) : Prop :=
  ∃ u, sv_users s !! name = Some u ∧ b ∈ bindings_of name u.

Lemma add_acl_mono p b acls acls' x : add_acl b acls = Some acls' → x ∈ rows_of p acls → x ∈ rows_of p acls'.
Proof.
  revert acls'. induction acls as [|e acls IH]; intros acls'; cbn [add_acl]; [by intros _ ?%not_elem_of_nil|].
  unfold rows_of in *. rewrite bind_cons, elem_of_app. destruct (same_acl_shape e b _ _).
  - case_bool_decide; [done|]. intros [= <-]. rewrite bind_cons, elem_of_app. cbn [with_operations ua_operations].
    change (acl_entry_to_binding p (with_operations e (ua_operations e ++ [b_operation b]))) with (acl_entry_to_binding p e).
    rewrite fmap_app, elem_of_app. tauto.
  - destruct (add_acl b acls) as [l|]; [|done]. intros [= <-]. rewrite bind_cons, elem_of_app.
    intros [?|?]; [by left|]. right. by apply IH.
Qed.

Lemma create_edit_mono b u u' n x :
  create_edit b u = Some u' → x ∈ bindings_of n u → x ∈ bindings_of n u' ∧ ku_version u' = ku_version u.
Proof.
  unfold create_edit. destruct (add_acl b _) as [acls|] eqn:Ea; [|done]. intros [= <-]. unfold bindings_of.
  cbn [with_authorization ku_deleting ku_version]. destruct (ku_deleting u); [by intros ?%not_elem_of_nil|].
  intros Hx. split; [|done]. apply (add_acl_mono ("User:" +:+ n) _ _ _ x Ea).
  unfold user_rows, rows_of in *. by destruct (ku_authorization u).
Qed.

Lemma holds_store b n s m u : (m = n → b ∈ bindings_of n u) → holds b n s → holds b n (store_user s m u).
Proof.
  intros Hu (v & Hv & Hb). unfold holds. rewrite lookup_store. case_decide as Hd; [|by eauto].
  eexists. split; [done|]. rewrite bindings_with_version. by apply Hu.
Qed.

Lemma holds_step b n w ev :
  acl_world_ok w → spares b w → harmless b n ev → holds b n (aw_server w) →
  holds b n (aw_server (acl_world_step w ev).1) ∧ spares b (acl_world_step w ev).1.
Proof.
  intros [_ Hc] Hsp Hh Hb. destruct ev as [i fault b'|i fault|i f|i fault|m o]; cbn [acl_world_step].
  - destruct (create_get fault (aw_server w) b') as [[m u]|]; [|done]. destruct (create_edit b' u) as [u'|]; [|done].
    split; [done|]. intros j f rest. cbn [fst aw_clients]. intros [[_ ?]|[_ Hj]]%lookup_insert_Some; [done|by eapply Hsp].
  - destruct (aw_clients w !! i) as [[b' m u|]|] eqn:Ei; try done.
    assert (copy_ok (aw_server w) m u) as Hcopy by (eapply Hc; [exact Ei|by left]).
    destruct (create_put fault (aw_server w) b' m u) as [s' r] eqn:Ep. cbn [fst aw_server aw_clients]. split.
    2: { intros j f rest. cbn [aw_clients]. intros [_ Hj]%lookup_delete_Some. by eapply Hsp. }
    unfold create_put in Ep. destruct (create_edit b' u) as [u'|] eqn:Eu; [|by injection Ep as <-].
    destruct (replace_user fault (aw_server w) m u') as [s1 [[]|e]] eqn:Er; injection Ep as <- <-.
    + assert (ku_version u' = ku_version u) as Hv
        by (unfold create_edit in Eu; destruct (add_acl b' _); [by injection Eu as <-|done]).
      destruct (replace_copy _ _ _ _ _ _ Hcopy Hv Er) as [Hcur ->]. apply holds_store; [|done]. intros ->.
      destruct Hb as (v & Hv' & Hb). assert (v = u) as -> by congruence. by apply (create_edit_mono b' u).
    + apply replace_user_spec in Er as ->. done.
  - split; [done|]. intros j f' rest. cbn [fst aw_clients]. intros [[_ [= <- _]]|[_ Hj]]%lookup_insert_Some; [done|by eapply Hsp].
  - destruct (aw_clients w !! i) as [[|f [|[m u] rest]]|] eqn:Ei; try done.
    assert (copy_ok (aw_server w) m u) as Hcopy by (eapply Hc; [exact Ei|by left]).
    assert (match_binding f b = false) as Hm by (by eapply Hsp).
    destruct (delete_put fault (aw_server w) f m u) as [s' r] eqn:Ep. cbn [fst aw_server aw_clients]. split.
    2: { intros j f' rest'. cbn [aw_clients]. destruct r; [intros [[_ [= <- _]]|[_ Hj]]%lookup_insert_Some|intros [_ Hj]%lookup_delete_Some];
         [done|by eapply Hsp..]. }
    unfold delete_put in Ep. destruct (delete_edit_spec f m u) as [_ Hed].
    destruct (delete_edit f m u) as [removed [u'|]]; [|by injection Ep as <- <-]. cbn [snd] in Hed.
    destruct (replace_user fault (aw_server w) m u') as [s1 [[]|e]] eqn:Er; injection Ep as <- <-.
    + destruct Hed as (Hbs & Hv & _). destruct (replace_copy _ _ _ _ _ _ Hcopy Hv Er) as [Hcur ->].
      apply holds_store; [|done]. intros ->. destruct Hb as (v & Hv' & Hb). assert (v = u) as -> by congruence.
      rewrite Hbs. apply list_elem_of_In, List.filter_In. split; [by apply list_elem_of_In|]. by rewrite Hm.
    + apply replace_user_spec in Er as ->. done.
  - split; [|done]. cbn [fst aw_server]. destruct o as [u|]; cbn [foreign_write].
    + by apply holds_store.
    + destruct Hb as (v & Hv & Hb). exists v. split; [|done]. cbn [sv_users]. by rewrite lookup_delete_ne.
Qed.

(** A create under way has something to write. *)
Definition creates_ok (w : AclWorld) : Prop :=
  ∀ i b n u, aw_clients w !! i = Some (CCreate b n u) → b_principal b = "User:" +:+ n ∧ is_Some (create_edit b u).

Lemma creates_step w ev : creates_ok w → creates_ok (acl_world_step w ev).1.
Proof.
  intros Hc. destruct ev as [i fault b|i fault|i f|i fault|m o]; cbn [acl_world_step].
  - destruct (create_get fault (aw_server w) b) as [[m u]|] eqn:Eg; [|done]. apply create_get_lookup in Eg as [Hp _].
    destruct (create_edit b u) as [u'|] eqn:Eu; [|done]. intros j b' n' v. cbn [fst aw_clients].
    intros [[_ [= <- <- <-]]|[_ Hj]]%lookup_insert_Some; [|by eapply Hc]. by rewrite Eu.
  - destruct (aw_clients w !! i) as [[b n u|]|]; try done. destruct (create_put _ _ _ _ _) as [s' r].
    intros j b' n' v. cbn [fst aw_clients]. intros [_ Hj]%lookup_delete_Some. by eapply Hc.
  - intros j b' n' v. cbn [fst aw_clients]. intros [[_ ?]|[_ Hj]]%lookup_insert_Some; [done|by eapply Hc].
  - destruct (aw_clients w !! i) as [[|f [|[m u] rest]]|]; try done. destruct (delete_put _ _ _ _ _) as [s' r].
    intros j b' n' v. cbn [fst aw_clients].
    destruct r; [intros [[_ ?]|[_ Hj]]%lookup_insert_Some; [done|]|intros [_ Hj]%lookup_delete_Some]; by eapply Hc.
  - done.
Qed.

Lemma acl_run_ok w evs : acl_world_ok w → creates_ok w → acl_world_ok (acl_run w evs) ∧ creates_ok (acl_run w evs).
Proof.
  revert w. induction evs as [|ev evs IH]; intros w H1 H2; [done|]. apply IH; [by apply acl_world_step_ok|by apply creates_step].
Qed.

Lemma bindings_of_rows n u : ku_deleting u = false → bindings_of n u = rows_of ("User:" +:+ n) (user_rows u).
Proof. intros H. unfold bindings_of. by rewrite H. Qed.

Lemma create_edit_holds b n u :
  concrete b → b_principal b = "User:" +:+ n →
  match create_edit b u with
  | None => ku_deleting u = false → b ∈ bindings_of n u
  | Some u' => ku_deleting u' = false → b ∈ bindings_of n u'
  end.
Proof.
  intros Hc Hp. unfold create_edit.
  pose proof (add_acl_spec b (az_acls (default KafkaUserAuthorization_default (ku_authorization u))) Hc) as Ha.
  rewrite Hp in Ha. destruct (add_acl b _) as [acls|]; cbn [fmap option_fmap option_map]; intros Hd.
  - rewrite bindings_of_rows by done. apply Ha. by right.
  - rewrite bindings_of_rows by done. unfold user_rows. by destruct (ku_authorization u).
Qed.

Lemma acked_holds w ev b n :
  acl_world_ok w → creates_ok w → concrete b → b_principal b = "User:" +:+ n →
  (acl_world_step w ev).2 = Some b →
  (∀ u, sv_users (aw_server (acl_world_step w ev).1) !! n = Some u → ku_deleting u = false) →
  holds b n (aw_server (acl_world_step w ev).1).
Proof.
  intros [_ Hc] Hcr Hb Hp. destruct ev as [i fault b'|i fault|i f|i fault|m o]; cbn [acl_world_step]; try done.
  - destruct (create_get fault (aw_server w) b') as [[m u]|] eqn:Eg; [|done]. apply create_get_lookup in Eg as [Hm Hu].
    destruct (create_edit b' u) as [u'|] eqn:Eu; [done|]. cbn [fst snd]. intros [= ->] Hd.
    assert (m = n) as -> by (rewrite Hp in Hm; by injection Hm).
    pose proof (create_edit_holds b n u Hb Hp) as Hh. rewrite Eu in Hh. exists u. auto.
  - destruct (aw_clients w !! i) as [[b' m u|]|] eqn:Ei; try done.
    destruct (Hcr _ _ _ _ Ei) as [Hm [u' Eu]].
    assert (copy_ok (aw_server w) m u) as Hcopy by (eapply Hc; [exact Ei|by left]).
    unfold create_put. rewrite Eu. destruct (replace_user fault (aw_server w) m u') as [s1 [[]|e]] eqn:Er; [|done].
    cbn [fst snd aw_server]. intros [= ->] Hd. assert (m = n) as -> by (rewrite Hp in Hm; by injection Hm).
    assert (ku_version u' = ku_version u) as Hv
      by (unfold create_edit in Eu; destruct (add_acl b _); [by injection Eu as <-|done]).
    destruct (replace_copy _ _ _ _ _ _ Hcopy Hv Er) as [Hcur ->].
    pose proof (create_edit_holds b n u Hb Hp) as Hh. rewrite Eu in Hh.
    setoid_rewrite lookup_store in Hd. rewrite decide_True in Hd by done. specialize (Hd _ eq_refl).
    exists (with_version u' (sv_revision (aw_server w) + 1)). rewrite lookup_store, decide_True by done.
    split; [done|]. rewrite bindings_with_version. by apply Hh.
  - destruct (aw_clients w !! i) as [[|f [|[m u] rest]]|]; try done. by destruct (delete_put _ _ _ _ _).
Qed.

(** An acknowledged rule is not lost to concurrent edits.  In every interleaving
    of CreateAcls and DeleteAcls requests and other writes to the objects, cut into
    their calls and failed anywhere, once the creation of a binding was
    acknowledged for a user that is not being deleted, the binding is in the
    objects as long as nobody deletes it: no delete whose filter matches it is
    under way or starts, and nobody else writes that user.  A request made from a
    stale copy of the object is refused instead of undoing it. *)
Theorem acked_acl_survives s evs ev b name evs' :
  (∀ n u, sv_users s !! n = Some u → ku_version u ≤ sv_revision s) →
  concrete b → b_principal b = "User:" +:+ name →
  let w := acl_world_step (acl_run {| aw_server := s; aw_clients := ∅ |} evs) ev in
  w.2 = Some b →
  (∀ u, sv_users (aw_server w.1) !! name = Some u → ku_deleting u = false) →
  spares b w.1 → Forall (harmless b name) evs' →
  b ∈ bindings (aw_server (acl_run w.1 evs')).
Proof.
  intros Hv Hb Hp w Hack Hd Hsp Hev.
  destruct (acl_run_ok {| aw_server := s; aw_clients := ∅ |} evs) as [H1 H2].
  { split; [done|]. intros i c n u. cbn [aw_clients]. by rewrite lookup_empty. }
  { intros i b' n u. cbn [aw_clients]. by rewrite lookup_empty. }
  assert (holds b name (aw_server w.1)) as Hh by (by apply acked_holds).
  assert (acl_world_ok w.1) as Hok by (by apply acl_world_step_ok).
  clearbody w. destruct w as [w ack]. cbn [fst snd] in *. clear - Hh Hok Hsp Hev. revert w Hh Hok Hsp.
  induction Hev as [|e evs' He _ IH]; intros w Hh Hok Hsp.
  - destruct Hh as (u & Hu & Hb). apply elem_of_bindings. eauto.
  - destruct (holds_step b name w e) as [Hh' Hsp']; [done..|]. apply IH; [done|by apply acl_world_step_ok|done].
Qed.

(** ** Concrete runs *)

Definition read_orders : KafkaUserAcl :=
  {| ua_resource := {| rs_kind := "topic"; rs_name := "orders"; rs_pattern_type := "" |}; ua_operations := ["Read"];
     ua_kind := ""; ua_host := "*" |}.
Definition demo_user (acls : list KafkaUserAcl) : KafkaUser :=
  {| ku_deleting := false; ku_version := 1; ku_authentication := None;
     ku_authorization := Some {| az_kind := "simple"; az_acls := acls |}; ku_quotas := None |}.
Definition demo_users : UserServer := {| sv_users := {[ "alice" := demo_user [read_orders] ]}; sv_revision := 1 |}.

Lemma demo_users_lookup n u : sv_users demo_users !! n = Some u → u = demo_user [read_orders].
Proof. unfold demo_users. cbn [sv_users]. rewrite lookup_singleton_Some. by intros [_ <-]. Qed.
Lemma demo_none_deleting : none_deleting demo_users.
Proof. by intros n u ->%demo_users_lookup. Qed.
Lemma demo_server_ok : server_ok demo_users.
Proof. by intros n u ->%demo_users_lookup. Qed.

Definition demo_text : string → Z → string := λ what _, what.
Definition demo_display : AclWriteError → string := λ _, "failed".
Definition demo_authz : Resource → Operation → bool := λ _ _, true.
Definition no_faults : nat → option ApiFault * option ApiFault := λ _, (None, None).
Definition no_delete_faults : nat → option ApiFault * (nat → option ApiFault) := λ _, (None, λ _, None).

(** alice may write topics that start with [ord]; mallory is not a user. *)
Definition grant (who : string) : AclTypes.AclBinding :=
  {| AclTypes.resource_type := 2; AclTypes.resource_name := "ord"; AclTypes.pattern_type := 4; AclTypes.principal := who;
     AclTypes.host := "*"; AclTypes.operation := 4; AclTypes.permission := 3 |}.
Definition grant_request : CreateAcls.Request := {| CreateAcls.creations := [grant "User:alice"; grant "User:mallory"] |}.
Definition any_filter : AclTypes.AclFilter :=
  {| AclTypes.resource_type_filter := 1; AclTypes.resource_name_filter := None; AclTypes.pattern_type_filter := 1;
     AclTypes.principal_filter := Some "User:alice"; AclTypes.host_filter := None; AclTypes.f_operation := 1;
     AclTypes.permission_type := 1 |}.
Definition after_grant : UserServer * CreateAcls.Response :=
  create_acls_answer demo_text demo_display demo_authz true no_faults 2 demo_users grant_request.
Definition grant_alice : AclBinding :=
  {| b_principal := "User:alice"; b_resource_type := "topic"; b_resource_name := "ord"; b_pattern_type := "prefix";
     b_operation := "Write"; b_permission := "Allow"; b_host := "*" |}.

Lemma created_acls_enforced_witness :
  CreateAcls.error_code <$> CreateAcls.results after_grant.2 = [0; 42] ∧
  ∀ f, reconcile_acls None true after_grant.1 = Some f →
  (authorize (reload AclEngine_new f) Acls.alice Acls.orders Write 0).2 = true ↔
  granted (λ b, b ∈ bindings demo_users ∨
    accepted demo_text 2 (CreateAcls.creations grant_request) (CreateAcls.results after_grant.2) b) Acls.alice Acls.orders Write.
Proof.
  split; [vm_compute; reflexivity|]. intros f Hf.
  apply (created_acls_enforced demo_text demo_display demo_authz no_faults 2 demo_users grant_request after_grant.1 after_grant.2
    f AclEngine_new Acls.alice Acls.orders Write 0).
  - exact demo_none_deleting.
  - exact demo_server_ok.
  - unfold after_grant. by destruct (create_acls_answer _ _ _ _ _ _ _ _).
  - exact Hf.
Defined.

Lemma created_acls_described_witness :
  grant "User:alice" ∈ described (DescribeAcls.resources
    (describe_acls_answer demo_text demo_display demo_authz true None after_grant.1 2 {| DescribeAcls.filter := any_filter |})).
Proof.
  refine (proj1 (created_acls_described demo_text demo_display demo_authz no_faults 2 demo_users grant_request after_grant.1
    after_grant.2 0 (grant "User:alice") (created 0 None) 2 {| DescribeAcls.filter := any_filter |}
    {| f_principal := "User:alice"; f_resource_type := ""; f_resource_name := ""; f_pattern_type := ""; f_operation := "";
       f_permission := ""; f_host := "" |} grant_alice _ _ _ _ _ _ _ _ _ _)).
  - exact demo_none_deleting.
  - exact demo_server_ok.
  - reflexivity.
  - unfold after_grant. by destruct (create_acls_answer _ _ _ _ _ _ _ _).
  - reflexivity.
  - vm_compute. reflexivity.
  - reflexivity.
  - vm_compute. reflexivity.
  - vm_compute. reflexivity.
  - vm_compute. reflexivity.
Defined.

Definition revoke : UserServer * DeleteAcls.Response :=
  delete_acls_answer demo_text demo_display demo_authz true no_delete_faults 2 after_grant.1 {| DeleteAcls.filters := [any_filter] |}.

Lemma acls_deleted_exact_witness :
  length (deleted_rows (DeleteAcls.filter_results revoke.2)) = 2%nat ∧ bindings revoke.1 = [] ∧
  described (DescribeAcls.resources
    (describe_acls_answer demo_text demo_display demo_authz true None after_grant.1 2 {| DescribeAcls.filter := any_filter |})) ≡ₚ
  deleted_rows (DeleteAcls.filter_results revoke.2).
Proof.
  split; [vm_compute; reflexivity|]. split; [vm_compute; reflexivity|].
  refine (proj2 (proj2 (proj2 (acls_deleted_exact demo_text demo_display demo_authz no_delete_faults 2 after_grant.1
    {| DeleteAcls.filters := [any_filter] |} revoke.1 revoke.2 _)) _) any_filter eq_refl eq_refl).
  - unfold revoke. by destruct (delete_acls_answer _ _ _ _ _ _ _ _).
  - vm_compute. repeat constructor.
Defined.

(** Two brokers serve requests for alice at once: the second's write is made from
    an older copy and refused. *)
Definition other_grant : AclBinding :=
  {| b_principal := "User:alice"; b_resource_type := "group"; b_resource_name := "g"; b_pattern_type := "literal";
     b_operation := "Read"; b_permission := "Allow"; b_host := "*" |}.
Definition race_before : list AclEv := [EvCreateGet 0 None grant_alice; EvCreateGet 1 None other_grant].
Definition race_after : list AclEv := [EvCreatePut 1 None; EvForeign "bob" (Some (demo_user []))].

Lemma acked_acl_survives_witness :
  (acl_world_step (acl_run {| aw_server := demo_users; aw_clients := ∅ |} race_before) (EvCreatePut 0 None)).2 = Some grant_alice ∧
  grant_alice ∈ bindings (aw_server
    (acl_run (acl_world_step (acl_run {| aw_server := demo_users; aw_clients := ∅ |} race_before) (EvCreatePut 0 None)).1 race_after)).
Proof.
  split; [vm_compute; reflexivity|].
  apply (acked_acl_survives demo_users race_before (EvCreatePut 0 None) grant_alice "alice" race_after).
  - intros n u ->%demo_users_lookup. vm_compute. discriminate.
  - split; [discriminate|by left].
  - reflexivity.
  - vm_compute. reflexivity.
  - intros u Hu. vm_compute in Hu. by injection Hu as <-.
  - intros i f rest. destruct i as [|[|i]]; [vm_compute; discriminate|vm_compute; discriminate|].
    assert ((acl_world_step (acl_run {| aw_server := demo_users; aw_clients := ∅ |} race_before) (EvCreatePut 0 None)).1
      = {| aw_server := aw_server (acl_world_step (acl_run {| aw_server := demo_users; aw_clients := ∅ |} race_before) (EvCreatePut 0 None)).1;
           aw_clients := {[ 1%nat := CCreate other_grant "alice" (demo_user [read_orders]) ]} |}) as -> by (vm_compute; reflexivity).
    cbn [aw_clients]. rewrite lookup_singleton_ne by lia. discriminate.
  - repeat constructor. discriminate.
Defined.
