(* ===== verification/UserCreds.v ===== *)
(** * User credentials

    The operator's controller of [KafkaUser] resources
    ([kaas-operator-controllers/src/kafkauser_controller.rs]) with the
    credentials file it keeps ([credentials.rs]) and the sweep of stale entries
    ([sweep.rs]); the broker's writer of a rotated credential
    ([kaas-broker/src/user_cr_writer.rs]) and the handlers of
    AlterUserScramCredentials and DescribeUserScramCredentials.

    PBKDF2 is the parameter [hi] (password, salt, iterations), the other
    primitives are [Auth]'s; random bytes are arguments.  A call that fails is
    chosen by the fields of [UserFaults].  The Ready condition stands for the
    conditions of a status: the controller sets no other. *)

From stdpp Require Import base gmap strings list sorting pretty.
From Stdlib Require Import Strings.Byte.
From S2P Require Import Prelude Primitives Wire ApiAdmin Acls Auth TopicCr TopicAdmin UserAcls.

Local Open Scope Z_scope.

(** ** The credentials file ([credentials.rs]) *)

Definition SCRAM_ITERATIONS : Z := 8192.

Record ScramCredential := { sc_salt : string; sc_stored_key : string; sc_server_key : string; sc_iterations : Z }.
Record SaCredential := { sac_name : string; sac_namespace : string }.
Record CredQuotas := { cq_producer : option Z; cq_consumer : option Z; cq_request_percentage : option Z }.
Record UserCredential := {
  uc_username : string; uc_auth_type : string; uc_scram : option ScramCredential; uc_tls_cn : string;
  uc_sa : option SaCredential; uc_quotas : option CredQuotas }.
Notation CredentialsFile := (list UserCredential) (only parsing).

Fixpoint upsert_user (cf : CredentialsFile) (cred : UserCredential) : CredentialsFile :=
  match cf with
  | [] => [cred]
  | slot :: cf' =>
    if decide (uc_username slot = uc_username cred) then cred :: cf' else slot :: upsert_user cf' cred
  end.
Definition remove_user (cf : CredentialsFile) (username : string) : CredentialsFile * bool :=
  let cf' := filter (λ u, uc_username u ≠ username) cf in
  (cf', negb (length cf' =? length cf)%nat).
Definition has_user (cf : CredentialsFile) (username : string) : bool :=
  existsb (λ u, bool_decide (uc_username u = username)) cf.

(** What is on the volume. *)
Inductive CredDisk := CredAbsent | CredBroken | CredStored (cf : CredentialsFile).
Definition read_credentials (d : CredDisk) : option CredentialsFile :=
  match d with CredAbsent => Some [] | CredBroken => None | CredStored cf => Some cf end.

(** The file as the broker's loader reads it: an empty common name is left out,
    and no static password is ever written. *)
Definition loader_row (u : UserCredential) : CredUser :=
  {| cu_username := uc_username u; cu_auth_type := uc_auth_type u;
     cu_scram := (λ s, {| sj_salt := sc_salt s; sj_stored_key := sc_stored_key s; sj_server_key := sc_server_key s;
                          sj_iterations := sc_iterations s |}) <$> uc_scram u;
     cu_tls_cn := if str_is_empty (uc_tls_cn u) then None else Some (uc_tls_cn u);
     cu_sa := (λ s, {| sa_name := sac_name s; sa_namespace := sac_namespace s |}) <$> uc_sa u;
     cu_quotas := (λ q, {| producer_rate := cq_producer q; consumer_rate := cq_consumer q;
                           request_percentage := cq_request_percentage q |}) <$> uc_quotas u;
     cu_plain_password := None |}.
Definition loader_file (d : CredDisk) : CredFile :=
  match d with CredAbsent => CredMissing | CredBroken => CredMalformed | CredStored cf => CredUsers (loader_row <$> cf) end.

(** *** Generated passwords *)

Definition ALPHABET : list byte := as_bytes "ABCDEFGHIJKLMNOPQRSTUVWXYZabcdefghijklmnopqrstuvwxyz0123456789".
Definition CUTOFF : Z := 256 - 256 `mod` Z.of_nat (length ALPHABET).

Definition pick (b : byte) : byte := nth (Z.to_nat (b2z b `mod` Z.of_nat (length ALPHABET))) ALPHABET x41.

(** Rejection sampling over the random bytes; [None]: they do not suffice. *)
Fixpoint generate_alphanum_password (len : nat) (random : list byte) : option (list byte) :=
  match len with
  | O => Some []
  | S len' =>
    (fix skip (random : list byte) : option (list byte) :=
       match random with
       | [] => None
       | b :: random' =>
         if CUTOFF <=? b2z b then skip random'
         else cons (pick b) <$> generate_alphanum_password len' random'
       end) random
  end.

Section crypto.
Context (C : Crypto) (hi : list byte → list byte → Z → list byte).

Definition b64 (l : list byte) : string := of_bytes (b64_encode C l).

(** [salt] is what the random generator gave. *)
Definition compute_scram (salt password : list byte) : ScramCredential :=
  let '(stored, server) := keys_from_salted_password C (hi password salt SCRAM_ITERATIONS) in
  {| sc_salt := b64 salt; sc_stored_key := b64 stored; sc_server_key := b64 server; sc_iterations := SCRAM_ITERATIONS |}.

Definition scram_passthrough (s : KafkaUserScramCredential) : ScramCredential :=
  {| sc_salt := kc_salt s; sc_stored_key := kc_stored_key s; sc_server_key := kc_server_key s;
     sc_iterations := if kc_iterations s <? 0 then SCRAM_ITERATIONS else kc_iterations s |}.

(** ** The controller ([kafkauser_controller.rs]) *)

(** A secret has a data block or none. *)
Notation Secrets := (gmap string (option (gmap string (list byte)))) (only parsing).
Record KafkaUserStatus := { us_secret : string; us_ready : bool; us_reason : string }.
Record UserWorld := {
  uw_server : UserServer; uw_secrets : Secrets; uw_status : gmap string KafkaUserStatus;
  uw_creds : CredDisk; uw_acls : AclFile }.
Record UserFaults := {
  ft_secret_get : bool; ft_rng : bool; ft_secret_put : bool; ft_cred_write : bool; ft_list : bool;
  ft_acl_write : bool; ft_status : bool }.
Definition no_user_faults : UserFaults :=
  {| ft_secret_get := false; ft_rng := false; ft_secret_put := false; ft_cred_write := false; ft_list := false;
     ft_acl_write := false; ft_status := false |}.
Record Random := { rn_salt : list byte; rn_password : list byte }.

Inductive OpError := SecretNotFound | MalformedCredential | UnsupportedAuthType | OpOther.

Definition utf8_password (l : list byte) : result OpError (list byte) :=
  if valid_utf8 l then Ok l else Err MalformedCredential.

Definition resolve_scram_password (ft : UserFaults) (rn : Random) (w : UserWorld) (auth : KafkaUserAuthentication)
    (out_secret : string) : result OpError (list byte) :=
  let generate :=
    if ft_rng ft then Err OpOther
    else match generate_alphanum_password 32 (rn_password rn) with Some p => utf8_password p | None => Err OpOther end in
  match an_password auth with
  | Some ref =>
    if ft_secret_get ft then Err OpOther
    else
      match uw_secrets w !! sk_name ref with
      | None => Err SecretNotFound
      | Some None => Err MalformedCredential
      | Some (Some data) =>
        match data !! sk_key ref with None => Err MalformedCredential | Some bytes => utf8_password bytes end
      end
  | None =>
    if ft_secret_get ft then Err OpOther
    else
      match uw_secrets w !! out_secret ≫= (λ d, d ≫= lookup "password"%string) with
      | Some (b :: bytes) => utf8_password (b :: bytes)
      | _ => generate
      end
  end.

(** The API server moves the string data into the data block. *)
Definition ensure_client_secret (ft : UserFaults) (w : UserWorld) (secret username : string) (password : list byte) :
    UserWorld * result OpError unit :=
  if ft_secret_put ft then (w, Err OpOther)
  else
    let old := default ∅ (default None (uw_secrets w !! secret)) in
    ({| uw_server := uw_server w;
        uw_secrets := <[secret := Some (<["username"%string := as_bytes username]> (<["password"%string := password]> old))]> (uw_secrets w);
        uw_status := uw_status w; uw_creds := uw_creds w; uw_acls := uw_acls w |}, Ok tt).

Definition with_scram (c : UserCredential) (s : ScramCredential) : UserCredential :=
  {| uc_username := uc_username c; uc_auth_type := uc_auth_type c; uc_scram := Some s; uc_tls_cn := uc_tls_cn c;
     uc_sa := uc_sa c; uc_quotas := uc_quotas c |}.
Definition base_credential (name : string) (u : KafkaUser) (auth : KafkaUserAuthentication) : UserCredential :=
  {| uc_username := name; uc_auth_type := an_kind auth; uc_scram := None; uc_tls_cn := ""; uc_sa := None;
     uc_quotas := (λ q, {| cq_producer := uq_producer q; cq_consumer := uq_consumer q;
                           cq_request_percentage := uq_request_percentage q |}) <$> ku_quotas u |}.

Definition build_credential (ft : UserFaults) (rn : Random) (w : UserWorld) (name : string) (u : KafkaUser)
    (auth : KafkaUserAuthentication) : UserWorld * result OpError (UserCredential * string) :=
  let cred := base_credential name u auth in
  if decide (an_kind auth = "scram-sha-512"%string) then
    match an_scram auth with
    | Some s => (w, Ok (with_scram cred (scram_passthrough s), ""%string))
    | None =>
      let out_secret := name +:+ "-kafka-credentials" in
      match resolve_scram_password ft rn w auth out_secret with
      | Err e => (w, Err e)
      | Ok password =>
        if ft_rng ft then (w, Err OpOther)
        else
          match ensure_client_secret ft w out_secret name password with
          | (w, Err e) => (w, Err e)
          | (w, Ok _) => (w, Ok (with_scram cred (compute_scram (rn_salt rn) password), out_secret))
          end
      end
    end
  else if decide (an_kind auth = "tls"%string) then
    let cn := match an_certificate_ref auth with
              | Some r => if str_is_empty (lo_name r) then name else lo_name r
              | None => name
              end in
    (w, Ok ({| uc_username := uc_username cred; uc_auth_type := uc_auth_type cred; uc_scram := None; uc_tls_cn := cn;
               uc_sa := None; uc_quotas := uc_quotas cred |}, ""%string))
  else if decide (an_kind auth = "kubernetes-serviceaccount"%string) then
    match an_service_account_ref auth with
    | None => (w, Err MalformedCredential)
    | Some sa =>
      (w, Ok ({| uc_username := uc_username cred; uc_auth_type := uc_auth_type cred; uc_scram := None; uc_tls_cn := "";
                 uc_sa := Some {| sac_name := sr_name sa; sac_namespace := sr_namespace sa |};
                 uc_quotas := uc_quotas cred |}, ""%string))
    end
  else (w, Err UnsupportedAuthType).

Definition with_creds (w : UserWorld) (d : CredDisk) : UserWorld :=
  {| uw_server := uw_server w; uw_secrets := uw_secrets w; uw_status := uw_status w; uw_creds := d; uw_acls := uw_acls w |}.
Definition with_acls (w : UserWorld) (f : AclFile) : UserWorld :=
  {| uw_server := uw_server w; uw_secrets := uw_secrets w; uw_status := uw_status w; uw_creds := uw_creds w; uw_acls := f |}.

Definition patch_status (ft : UserFaults) (w : UserWorld) (name : string) (secret : option string) (ready : bool)
    (reason : string) : UserWorld * result OpError unit :=
  if ft_status ft then (w, Err OpOther)
  else
    let old := default {| us_secret := ""; us_ready := false; us_reason := "" |} (uw_status w !! name) in
    ({| uw_server := uw_server w; uw_secrets := uw_secrets w;
        uw_status := <[name := {| us_secret := default (us_secret old) secret; us_ready := ready; us_reason := reason |}]> (uw_status w);
        uw_creds := uw_creds w; uw_acls := uw_acls w |}, Ok tt).

Definition write_credentials (ft : UserFaults) (w : UserWorld) (cf : CredentialsFile) : UserWorld * result OpError unit :=
  if ft_cred_write ft then (w, Err OpOther) else (with_creds w (CredStored cf), Ok tt).

(** The entry of the credentials file: the name of the output secret, or [None]
    when the reconcile ends here with the given answer. *)
Definition reconcile_credential (ft : UserFaults) (rn : Random) (w : UserWorld) (name : string) (u : KafkaUser) :
    UserWorld * (string + result OpError unit) :=
  match ku_authentication u with
  | None =>
    match read_credentials (uw_creds w) with
    | None => (w, inr (Err OpOther))
    | Some cf =>
      let '(cf', removed) := remove_user cf name in
      if removed then
        match write_credentials ft w cf' with
        | (w, Err e) => (w, inr (Err e))
        | (w, Ok _) => (w, inl ""%string)
        end
      else (w, inl ""%string)
    end
  | Some auth =>
    match build_credential ft rn w name u auth with
    | (w, Err e) =>
      let reason := match e with SecretNotFound => "SecretNotFound" | _ => "CredentialError" end%string in
      match patch_status ft w name None false reason with
      | (w, Err e') => (w, inr (Err e'))
      | (w, Ok _) => (w, inr (match e with SecretNotFound => Ok tt | _ => Err e end))
      end
    | (w, Ok (cred, secret)) =>
      match read_credentials (uw_creds w) with
      | None => (w, inr (Err OpOther))
      | Some cf =>
        match write_credentials ft w (upsert_user cf cred) with
        | (w, Err e) => (w, inr (Err e))
        | (w, Ok _) => (w, inl secret)
        end
      end
    end
  end.

Definition rebuild_acls (ft : UserFaults) (w : UserWorld) : UserWorld * result OpError unit :=
  match reconcile_acls (if ft_list ft then Some FaultOther else None) (negb (ft_acl_write ft)) (uw_server w) with
  | Some f => (with_acls w f, Ok tt)
  | None => (w, Err OpOther)
  end.

Definition reconcile_user (ft : UserFaults) (rn : Random) (w : UserWorld) (name : string) (u : KafkaUser) :
    UserWorld * result OpError unit :=
  if ku_deleting u then (w, Ok tt)
  else
    match reconcile_credential ft rn w name u with
    | (w, inr answer) => (w, answer)
    | (w, inl secret) =>
      match rebuild_acls ft w with
      | (w, Err e) => (w, Err e)
      | (w, Ok _) => patch_status ft w name (Some secret) true "CredentialWritten"
      end
    end.

(** [handle_not_found]; the controller has no event that calls it. *)
Definition handle_not_found (ft : UserFaults) (w : UserWorld) (name : string) : UserWorld * result OpError unit :=
  match read_credentials (uw_creds w) with
  | None => (w, Err OpOther)
  | Some cf =>
    let '(w, r) := if has_user cf name then write_credentials ft w (remove_user cf name).1 else (w, Ok tt) in
    match r with Err e => (w, Err e) | Ok _ => rebuild_acls ft w end
  end.

(** ** The sweep ([sweep.rs])

    It lists the users first and reads the file afterwards. *)
Definition sweep_credentials (ft : UserFaults) (listed : UserServer) (w : UserWorld) : UserWorld * result OpError (list string) :=
  match read_credentials (uw_creds w) with
  | None => (w, Err OpOther)
  | Some cf =>
    let keep n := bool_decide (is_Some (sv_users listed !! n)) in
    let removed := uc_username <$> List.filter (λ u, negb (keep (uc_username u))) cf in
    match removed with
    | [] => (w, Ok [])
    | _ =>
      match write_credentials ft w (List.filter (λ u, keep (uc_username u)) cf) with
      | (w, Err e) => (w, Err e)
      | (w, Ok _) => (w, Ok (merge_sort String.le removed))
      end
    end
  end.

(** ** Rotation over the wire ([user_cr_writer.rs]) *)

Record ScramCredentialSpec := {
  ss_salt : list byte; ss_stored_key : list byte; ss_server_key : list byte; ss_iterations : Z }.
Inductive UserWriteError := UserNotFound | InvalidTarget | UserForbidden | UserOther.
Definition map_kube_err (f : ApiFault) : UserWriteError := match f with Fault403 => UserForbidden | FaultOther => UserOther end.

Definition rotate (cred : ScramCredentialSpec) (u : KafkaUser) (auth : KafkaUserAuthentication) : KafkaUser :=
  {| ku_deleting := ku_deleting u; ku_version := ku_version u;
     ku_authentication := Some {| an_kind := "scram-sha-512"; an_password := an_password auth;
       an_scram := Some {| kc_salt := b64 (ss_salt cred); kc_stored_key := b64 (ss_stored_key cred);
                           kc_server_key := b64 (ss_server_key cred); kc_iterations := ss_iterations cred |};
       an_certificate_ref := an_certificate_ref auth; an_service_account_ref := an_service_account_ref auth |};
     ku_authorization := ku_authorization u; ku_quotas := ku_quotas u |}.

Definition set_scram_credential (fault_get fault_patch : option ApiFault) (s : UserServer) (username : string)
    (cred : ScramCredentialSpec) : UserServer * result UserWriteError unit :=
  match fault_get with
  | Some f => (s, Err (map_kube_err f))
  | None =>
    match sv_users s !! username with
    | None => (s, Err UserNotFound)
    | Some u =>
      match ku_authentication u with
      | None => (s, Err InvalidTarget)
      | Some auth =>
        if negb (one_of (an_kind auth) ["scram-sha-512"; ""]) then (s, Err InvalidTarget)
        else
          match fault_patch with
          | Some f => (s, Err (map_kube_err f))
          | None =>
            if user_schema_ok (rotate cred u auth) then (store_user s username (rotate cred u auth), Ok tt)
            else (s, Err UserOther)
          end
      end
    end
  end.

(** ** AlterUserScramCredentials *)

Definition MIN_ITERATIONS : Z := 4096.
Definition SCRAM_SHA_512 : Z := 2.

Section handlers.
Context (text : UserWriteError → string) (authz : Resource → Operation → bool).

Definition user_result (name : string) (code : Z) (msg : option string) : AlterUserScramCredentials.AlterUserResult :=
  {| AlterUserScramCredentials.user := name; AlterUserScramCredentials.error_code := code;
     AlterUserScramCredentials.error_message := msg |}.
Definition denied (name : string) : AlterUserScramCredentials.AlterUserResult := user_result name 31 None.

Definition delete_credential (d : AlterUserScramCredentials.ScramCredentialDeletion) : AlterUserScramCredentials.AlterUserResult :=
  let name := AlterUserScramCredentials.name d in
  if authz Resource_cluster Alter then
    user_result name 35 (Some "kaas does not support SCRAM credential deletion over the wire: the credential lifecycle belongs to the KafkaUser CR (delete the CR or change spec.authentication.type)")
  else denied name.

Definition upsert_one (writer : bool) (fault : nat → option ApiFault * option ApiFault) (i : nat) (s : UserServer)
    (u : AlterUserScramCredentials.ScramCredentialUpsertion) : UserServer * AlterUserScramCredentials.AlterUserResult :=
  let name := AlterUserScramCredentials.u_name u in
  if negb (authz Resource_cluster Alter) then (s, denied name)
  else if negb (AlterUserScramCredentials.u_mechanism u =? SCRAM_SHA_512)
  then (s, user_result name 33 (Some "kaas supports SCRAM-SHA-512 only"))
  else if (AlterUserScramCredentials.iterations u <? MIN_ITERATIONS) || bool_decide (AlterUserScramCredentials.salt u = []) ||
          bool_decide (AlterUserScramCredentials.salted_password u = [])
  then (s, user_result name 93 (Some "salt and saltedPassword must be non-empty and iterations >= 4096"))
  else if negb writer then (s, user_result name 31 (Some "broker is not running in cluster mode"))
  else
    let '(stored, server) := keys_from_salted_password C (AlterUserScramCredentials.salted_password u) in
    match set_scram_credential (fault i).1 (fault i).2 s name
            {| ss_salt := AlterUserScramCredentials.salt u; ss_stored_key := stored; ss_server_key := server;
               ss_iterations := AlterUserScramCredentials.iterations u |} with
    | (s, Ok _) => (s, user_result name 0 None)
    | (s, Err UserNotFound) => (s, user_result name 83 (Some "no KafkaUser with this name"))
    | (s, Err InvalidTarget) => (s, user_result name 42 (Some (text InvalidTarget)))
    | (s, Err UserForbidden) => (s, user_result name 31 (Some (text UserForbidden)))
    | (s, Err UserOther) => (s, user_result name (-1) None)
    end.

Definition alter_scram_answer (writer : bool) (fault : nat → option ApiFault * option ApiFault) (s : UserServer)
    (req : AlterUserScramCredentials.Request) : UserServer * AlterUserScramCredentials.Response :=
  let '(s, upserted) := serve_each (upsert_one writer fault) 0 s (AlterUserScramCredentials.upsertions req) in
  (s, {| AlterUserScramCredentials.throttle_time_ms := 0;
         AlterUserScramCredentials.results := (delete_credential <$> AlterUserScramCredentials.deletions req) ++ upserted |}).

Definition handle_alter_user_scram_credentials (writer : bool) (fault : nat → option ApiFault * option ApiFault)
    (s : UserServer) (version : Z) (body : list byte) : UserServer * enc :=
  match AlterUserScramCredentials.decode_request version body with
  | Err err => (s, Err err)
  | Ok (req, _) =>
    let '(s, resp) := alter_scram_answer writer fault s req in (s, AlterUserScramCredentials.encode_response resp version)
  end.

(** ** DescribeUserScramCredentials *)

Definition scram_row (name : string) (code : Z) (msg : option string) (infos : list Z) :
    DescribeUserScramCredentials.DescribeUserResult :=
  {| DescribeUserScramCredentials.u_user := name; DescribeUserScramCredentials.u_error_code := code;
     DescribeUserScramCredentials.u_error_message := msg;
     DescribeUserScramCredentials.u_credential_infos :=
       (λ n, {| DescribeUserScramCredentials.mechanism := SCRAM_SHA_512; DescribeUserScramCredentials.iterations := n |}) <$> infos |}.

(** The names in the order of their first occurrence. *)
Fixpoint first_occurrences (seen : gset string) (l : list string) : list string :=
  match l with
  | [] => []
  | x :: l' => if decide (x ∈ seen) then first_occurrences seen l' else x :: first_occurrences ({[x]} ∪ seen) l'
  end.
Definition occurs_twice (l : list string) (x : string) : bool := (2 <=? length (filter (λ y, y = x) l))%nat.

Definition describe_one_scram (all : gmap string ScramInfo) (requested : list string) (name : string) :
    DescribeUserScramCredentials.DescribeUserResult :=
  if occurs_twice requested name then scram_row name 81 (Some "user appears more than once in the request") []
  else
    match all !! name with
    | Some info => scram_row name 0 None [si_iterations info]
    | None => scram_row name 83 (Some "attempt to describe a user with no SCRAM credentials") []
    end.

Definition describe_scram_answer (creds : option CredState) (req : DescribeUserScramCredentials.Request) :
    DescribeUserScramCredentials.Response :=
  let reply code msg rows :=
    {| DescribeUserScramCredentials.throttle_time_ms := 0; DescribeUserScramCredentials.error_code := code;
       DescribeUserScramCredentials.error_message := msg; DescribeUserScramCredentials.results := rows |} in
  if negb (authz Resource_cluster Describe) then reply 31 (Some "Cluster authorization failed.") []
  else
    let all := default ∅ (list_all_scram_users <$> creds) in
    reply 0 None
      match DescribeUserScramCredentials.users req with
      | None =>
        (λ p : string * ScramInfo, scram_row p.1 0 None [si_iterations p.2])
          <$> merge_sort (λ a b : string * ScramInfo, String.le a.1 b.1) (map_to_list all)
      | Some requested => describe_one_scram all requested <$> first_occurrences ∅ requested
      end.

Definition handle_describe_user_scram_credentials (creds : option CredState) (version : Z) (body : list byte) : enc :=
  match DescribeUserScramCredentials.decode_request version body with
  | Err err => Err err
  | Ok (req, _) => DescribeUserScramCredentials.encode_response (describe_scram_answer creds req) version
  end.

End handlers.
End crypto.

(** ** The file and what a broker loads from it *)

Definition names (cf : list UserCredential) : list string := uc_username <$> cf.

Lemma elem_of_upsert cf cred u :
  NoDup (names cf) →
  u ∈ upsert_user cf cred ↔ u = cred ∨ u ∈ cf ∧ uc_username u ≠ uc_username cred.
Proof.
  unfold names. induction cf as [|x cf IH]; cbn [upsert_user]; intros Hnd.
  { rewrite list_elem_of_singleton. split; [by left|]. intros [H|[H%not_elem_of_nil _]]; done. }
  rewrite fmap_cons, NoDup_cons in Hnd. destruct Hnd as [Hx Hnd]. case_decide as Hd; rewrite !elem_of_cons.
  - split; [|naive_solver]. intros [->|Hu]; [by left|]. right. split; [by right|]. intros Heq. apply Hx.
    rewrite Hd, <- Heq. by apply list_elem_of_fmap_2.
  - rewrite IH by done. naive_solver.
Qed.

Lemma names_upsert cf cred :
  names (upsert_user cf cred) = if decide (uc_username cred ∈ names cf) then names cf else names cf ++ [uc_username cred].
Proof.
  unfold names. induction cf as [|x cf IH]; cbn [upsert_user]; [by rewrite decide_False by apply not_elem_of_nil|].
  assert (uc_username cred ∈ uc_username <$> x :: cf ↔ uc_username cred = uc_username x ∨ uc_username cred ∈ uc_username <$> cf)
    as Hiff by (by rewrite fmap_cons, elem_of_cons).
  destruct (decide (uc_username x = uc_username cred)) as [Hd|Hd]; rewrite !fmap_cons.
  - rewrite decide_True by (apply Hiff; by left). by rewrite Hd.
  - rewrite IH. destruct (decide (uc_username cred ∈ uc_username <$> cf)); case_decide; naive_solver.
Qed.

Lemma NoDup_upsert cf cred : NoDup (names cf) → NoDup (names (upsert_user cf cred)).
Proof.
  intros H. rewrite names_upsert. case_decide; [done|]. apply NoDup_app. split_and!; [done| |apply NoDup_singleton].
  intros x Hx ->%list_elem_of_singleton. done.
Qed.

Section loading.
Context (C : Crypto).

(** The keys of an entry, if they can be decoded. *)
Definition decoded (s : ScramJson) : option ScramCreds :=
  stored ← b64_decode C (as_bytes (sj_stored_key s)); server ← b64_decode C (as_bytes (sj_server_key s));
  slt ← b64_decode C (as_bytes (sj_salt s));
  Some {| stored_key := stored; server_key := server; salt := slt; iterations := sj_iterations s |}.
Definition loadable (u : CredUser) : Prop :=
  cu_auth_type u = "scram-sha-512"%string → ∀ s, cu_scram u = Some s → is_Some (decoded s).
Definition scram_of (u : CredUser) : option ScramCreds :=
  if decide (cu_auth_type u = "scram-sha-512"%string) then cu_scram u ≫= decoded else None.

Lemma load_user_spec st u :
  match load_user C st u with
  | Ok st' => loadable u ∧ (∃ c, by_username st' !! cu_username u = Some c ∧ auth_type c = cu_auth_type u ∧
      (if decide (auth_type c = "scram-sha-512"%string) then lc_scram c else None) = scram_of u) ∧
      ∀ n, n ≠ cu_username u → by_username st' !! n = by_username st !! n
  | Err _ => ¬ loadable u
  end.
Proof.
  unfold load_user, scram_of, loadable. cbv beta zeta. case_decide as Ht.
  - destruct (cu_scram u) as [s|] eqn:Es.
    + assert (is_Some (decoded s) ↔ is_Some (b64_decode C (as_bytes (sj_stored_key s))) ∧
        is_Some (b64_decode C (as_bytes (sj_server_key s))) ∧ is_Some (b64_decode C (as_bytes (sj_salt s)))) as Hdec.
      { unfold decoded. destruct (b64_decode C (as_bytes (sj_stored_key s))), (b64_decode C (as_bytes (sj_server_key s))),
          (b64_decode C (as_bytes (sj_salt s))); simpl; rewrite ?is_Some_alt; naive_solver. }
      unfold b64_str. destruct (b64_decode C (as_bytes (sj_stored_key s))) as [k1|] eqn:E1; simpl.
      2: { intros Hl. specialize (Hl Ht s eq_refl). apply Hdec in Hl as (H & _). by destruct H. }
      destruct (b64_decode C (as_bytes (sj_server_key s))) as [k2|] eqn:E2; simpl.
      2: { intros Hl. specialize (Hl Ht s eq_refl). apply Hdec in Hl as (_ & H & _). by destruct H. }
      destruct (b64_decode C (as_bytes (sj_salt s))) as [k3|] eqn:E3; simpl.
      2: { intros Hl. specialize (Hl Ht s eq_refl). apply Hdec in Hl as (_ & _ & H). by destruct H. }
      split_and!.
      * intros _ s' [= <-]. apply Hdec. eauto.
      * eexists. split; [apply lookup_insert_eq|]. split; [done|]. cbn [auth_type lc_scram].
        rewrite decide_True by done. unfold decoded. rewrite E1, E2, E3. done.
      * intros n Hn. by rewrite lookup_insert_ne.
    + cbn [by_username]. split_and!; [done| |intros n Hn; cbn [by_username]; by rewrite lookup_insert_ne].
      eexists. split; [apply lookup_insert_eq|]. split; [done|]. cbn [auth_type lc_scram]. by rewrite decide_True by done.
  - assert (∀ c s, auth_type c = cu_auth_type u →
      (if decide (auth_type c = "scram-sha-512"%string) then s else None) = (None : option ScramCreds)) as Hno.
    { intros c s' ->. by rewrite decide_False. }
    destruct (decide (cu_auth_type u = "tls"%string));
      [|destruct (decide (cu_auth_type u = "kubernetes-serviceaccount"%string)); [destruct (cu_sa u)|]];
      cbn [by_username]; (split_and!; [done| |intros k Hk; cbn [by_username]; by rewrite lookup_insert_ne]).
    all: eexists; (split; [apply lookup_insert_eq|]); (split; [done|]); by apply Hno.
Qed.

Lemma load_users_spec us : ∀ st,
  NoDup (cu_username <$> us) → Forall loadable us →
  ∃ st', load_users C st us = Ok st' ∧
    (∀ u, u ∈ us → lookup_scram st' (cu_username u) = scram_of u) ∧
    (∀ n, n ∉ cu_username <$> us → by_username st' !! n = by_username st !! n).
Proof.
  induction us as [|u us IH]; intros st Hnd Hl; [exists st; split; [done|]; split; [by intros u ?%not_elem_of_nil|done]|].
  rewrite fmap_cons, NoDup_cons in Hnd. destruct Hnd as [Hu Hnd]. apply Forall_cons in Hl as [Hlu Hl].
  pose proof (load_user_spec st u) as Hs. cbn [load_users]. destruct (load_user C st u) as [st1|]; [|done].
  destruct Hs as (_ & (c & Hc & Ht & Hsc) & Hother). destruct (IH st1 Hnd Hl) as (st' & Hst' & Hin & Hout).
  exists st'. split; [done|]. split.
  - intros x [->|Hx]%elem_of_cons; [|by apply Hin]. unfold lookup_scram. rewrite Hout, Hc by done. cbn. done.
  - intros n Hn. rewrite fmap_cons, not_elem_of_cons in Hn. destruct Hn. rewrite Hout by done. by apply Hother.
Qed.

Lemma load_users_fails us : ∀ st, ¬ Forall loadable us → ∃ e, load_users C st us = Err e.
Proof.
  induction us as [|u us IH]; intros st Hl; [by exfalso; apply Hl|]. cbn [load_users].
  pose proof (load_user_spec st u) as Hs. destruct (load_user C st u) as [st1|e]; [|by exists e].
  destruct Hs as (Hlu & _ & _). cbn. apply IH. intros H. apply Hl. by constructor.
Qed.

(** A file the operator left and every broker can load. *)
Definition creds_ok (d : CredDisk) : Prop :=
  ∃ cf, read_credentials d = Some cf ∧ NoDup (names cf) ∧ Forall (λ u, loadable (loader_row u)) cf.

Lemma loader_names cf : cu_username <$> (loader_row <$> cf) = names cf.
Proof. unfold names. by rewrite <- list_fmap_compose. Qed.

Lemma reload_stored st cf :
  NoDup (names cf) → Forall (λ u, loadable (loader_row u)) cf →
  ∃ st', reload_credentials C st (loader_file (CredStored cf)) = (st', Ok tt) ∧
    (∀ u, u ∈ cf → lookup_scram st' (uc_username u) = scram_of (loader_row u)) ∧
    (∀ n, n ∉ names cf → lookup_scram st' n = None).
Proof.
  intros Hnd Hl. cbn [loader_file reload_credentials].
  destruct (load_users_spec (loader_row <$> cf) CredState_empty) as (st' & -> & Hin & Hout);
    [by rewrite loader_names|by apply Forall_fmap|].
  exists st'. split; [done|]. split.
  - intros u Hu. rewrite <- Hin by (by apply list_elem_of_fmap_2). done.
  - intros n Hn. unfold lookup_scram. rewrite Hout by (by rewrite loader_names). cbn. by rewrite lookup_empty.
Qed.

End loading.

(** ** What a reconcile leaves behind *)

Section reconcile.
Context (C : Crypto) (hi : list byte → list byte → Z → list byte).

Lemma build_frame ft rn w name u auth w1 r :
  build_credential C hi ft rn w name u auth = (w1, r) →
  uw_creds w1 = uw_creds w ∧ uw_server w1 = uw_server w ∧ uw_acls w1 = uw_acls w ∧
  (∀ cred secret, r = Ok (cred, secret) → uc_username cred = name) ∧
  ∀ k, k ≠ name +:+ "-kafka-credentials" → uw_secrets w1 !! k = uw_secrets w !! k.
Proof.
  unfold build_credential, ensure_client_secret. cbv zeta.
  destruct (decide (an_kind auth = "scram-sha-512"%string)) as [Hkind|Hkind].
  - destruct (an_scram auth) as [s|]; [intros [= <- <-]; naive_solver|].
    destruct (resolve_scram_password ft rn w auth _) as [p|e]; [|intros [= <- <-]; naive_solver].
    destruct (ft_rng ft); [intros [= <- <-]; naive_solver|].
    destruct (ft_secret_put ft); intros [= <- <-]; (split_and!; [done..| |]); cbn [uw_secrets]; try done.
    + naive_solver.
    + intros k Hk. by rewrite lookup_insert_ne.
  - destruct (decide (an_kind auth = "tls"%string)); [intros [= <- <-]; naive_solver|].
    destruct (decide (an_kind auth = "kubernetes-serviceaccount"%string)); [|intros [= <- <-]; naive_solver].
    destruct (an_service_account_ref auth); intros [= <- <-]; naive_solver.
Qed.

(** Secrets are written while a credential is built, and nowhere else. *)
Lemma reconcile_secrets ft rn w name u w' r :
  reconcile_user C hi ft rn w name u = (w', r) →
  uw_server w' = uw_server w ∧
  (uw_secrets w' = uw_secrets w ∨
   ∃ auth w1 r1, ku_authentication u = Some auth ∧ build_credential C hi ft rn w name u auth = (w1, r1) ∧
     uw_secrets w' = uw_secrets w1).
Proof.
  unfold reconcile_user, reconcile_credential, write_credentials, rebuild_acls, patch_status, with_creds, with_acls.
  destruct (ku_deleting u); [intros [= <- <-]; by auto|]. destruct (ku_authentication u) as [auth|].
  - destruct (build_credential C hi ft rn w name u auth) as [w1 r1] eqn:Eb.
    apply build_frame in Eb as Hf. destruct Hf as (_ & Hs & _). intros Hrun.
    assert (uw_server w' = uw_server w1 ∧ uw_secrets w' = uw_secrets w1) as [-> ->]; [|eauto 8]. revert Hrun.
    destruct r1 as [[cred secret]|e]; [|destruct (ft_status ft); by intros [= <- <-]].
    destruct (read_credentials (uw_creds w1)); [|by intros [= <- <-]].
    destruct (ft_cred_write ft); [by intros [= <- <-]|].
    destruct (reconcile_acls _ _ _); [|by intros [= <- <-]]. destruct (ft_status ft); by intros [= <- <-].
  - intros Hrun. assert (uw_server w' = uw_server w ∧ uw_secrets w' = uw_secrets w) as [-> ->]; [|by auto]. revert Hrun.
    destruct (read_credentials (uw_creds w)) as [cf|]; [|by intros [= <- <-]].
    destruct (remove_user cf name) as [cf' [|]]; [destruct (ft_cred_write ft); [by intros [= <- <-]|]|].
    all: destruct (reconcile_acls _ _ _); [|by intros [= <- <-]]; destruct (ft_status ft); by intros [= <- <-].
Qed.

Lemma reconcile_built ft rn w name u auth w1 cred secret w' :
  ku_deleting u = false → ku_authentication u = Some auth →
  build_credential C hi ft rn w name u auth = (w1, Ok (cred, secret)) →
  reconcile_user C hi ft rn w name u = (w', Ok tt) →
  ∃ cf, read_credentials (uw_creds w) = Some cf ∧ uw_creds w' = CredStored (upsert_user cf cred) ∧
    uw_secrets w' = uw_secrets w1.
Proof.
  intros Hd Ha Eb. unfold reconcile_user, reconcile_credential, write_credentials, rebuild_acls, patch_status, with_creds, with_acls.
  rewrite Hd, Ha, Eb. apply build_frame in Eb as (Hc & _ & _ & _). rewrite <- Hc.
  destruct (read_credentials (uw_creds w1)) as [cf|] eqn:Er; [|done]. destruct (ft_cred_write ft); [done|].
  destruct (reconcile_acls _ _ _); [|done]. destruct (ft_status ft); [done|]. intros [= <-]. exists cf. done.
Qed.

(** A reconcile that ends well has built a credential; one that waits for a
    secret has said so in the status. *)
Lemma reconcile_ready ft rn w name u auth w' :
  ku_deleting u = false → ku_authentication u = Some auth →
  reconcile_user C hi ft rn w name u = (w', Ok tt) →
  us_ready <$> uw_status w' !! name = Some true →
  ∃ w1 cred secret, build_credential C hi ft rn w name u auth = (w1, Ok (cred, secret)).
Proof.
  intros Hd Ha. unfold reconcile_user, reconcile_credential, patch_status. rewrite Hd, Ha.
  destruct (build_credential C hi ft rn w name u auth) as [w1 [[cred secret]|e]]; [by eauto|].
  destruct (ft_status ft); [done|]. destruct e; try done. intros [= <-]. cbn [uw_status]. by rewrite lookup_insert_eq.
Qed.

(** Storing a credential that decodes: what the brokers then load. *)
Lemma stored_credential d cf cred st :
  creds_ok C d → read_credentials d = Some cf → loadable C (loader_row cred) →
  creds_ok C (CredStored (upsert_user cf cred)) ∧
  ∃ old new, reload_credentials C st (loader_file d) = (old, Ok tt) ∧
    reload_credentials C st (loader_file (CredStored (upsert_user cf cred))) = (new, Ok tt) ∧
    lookup_scram new (uc_username cred) = scram_of C (loader_row cred) ∧
    ∀ n, n ≠ uc_username cred → lookup_scram new n = lookup_scram old n.
Proof.
  intros (cf0 & Hr0 & Hnd & Hl) Hr Hc. assert (cf0 = cf) as -> by congruence.
  assert (Forall (λ u, loadable C (loader_row u)) (upsert_user cf cred)) as Hl'.
  { apply Forall_forall. intros u. rewrite elem_of_upsert by done. intros [->|[Hu _]]; [done|].
    by eapply Forall_forall in Hl. }
  pose proof (NoDup_upsert cf cred Hnd) as Hnd'. split; [by exists (upsert_user cf cred)|].
  destruct (reload_stored C st cf Hnd Hl) as (old & Hold & Hin & Hout).
  destruct (reload_stored C st (upsert_user cf cred) Hnd' Hl') as (new & Hnew & Hin' & Hout').
  assert (∃ old', reload_credentials C st (loader_file d) = (old', Ok tt) ∧ ∀ n, lookup_scram old' n = lookup_scram old n)
    as (old' & Hold' & Hsame).
  { destruct d as [| |cf1]; [|done|injection Hr as ->; by exists old]. injection Hr as <-.
    exists CredState_empty. split; [done|]. intros n. rewrite Hout by apply not_elem_of_nil.
    unfold lookup_scram, CredState_empty. cbn [by_username]. by rewrite lookup_empty. }
  exists old', new. split_and!; [done|done| |].
  - apply Hin'. apply elem_of_upsert; [done|by left].
  - intros n Hn. rewrite Hsame. destruct (decide (n ∈ names cf)) as [(u & -> & Hu)%list_elem_of_fmap|Hni].
    + rewrite Hin by done. apply Hin'. apply elem_of_upsert; [done|]. by right.
    + rewrite Hout by done. apply Hout'. rewrite names_upsert. case_decide; [done|].
      rewrite elem_of_app, list_elem_of_singleton. naive_solver.
Qed.

End reconcile.

(** ** Rotation *)

Section rotation.
Context `{CL : CryptoLaws C} (hi : list byte → list byte → Z → list byte).
Context (text : UserWriteError → string) (authz : Resource → Operation → bool).

Definition rotated (up : AlterUserScramCredentials.ScramCredentialUpsertion) : KafkaUserScramCredential :=
  let '(stored, server) := keys_from_salted_password C (AlterUserScramCredentials.salted_password up) in
  {| kc_salt := b64 C (AlterUserScramCredentials.salt up); kc_stored_key := b64 C stored; kc_server_key := b64 C server;
     kc_iterations := AlterUserScramCredentials.iterations up |}.
Definition carries (s : UserServer) (up : AlterUserScramCredentials.ScramCredentialUpsertion) : Prop :=
  MIN_ITERATIONS ≤ AlterUserScramCredentials.iterations up ∧
  ∃ u auth, sv_users s !! AlterUserScramCredentials.u_name up = Some u ∧ ku_authentication u = Some auth ∧
    an_kind auth = "scram-sha-512"%string ∧ an_scram auth = Some (rotated up).

Lemma upsert_one_spec writer fault i s up s' r :
  upsert_one C text authz writer fault i s up = (s', r) →
  (∀ n, n ≠ AlterUserScramCredentials.u_name up → sv_users s' !! n = sv_users s !! n) ∧
  (AlterUserScramCredentials.error_code r = 0 → carries s' up).
Proof.
  unfold upsert_one, set_scram_credential. cbv zeta.
  destruct (authz Resource_cluster Alter); cbn [negb]; [|by intros [= <- <-]].
  destruct (_ =? SCRAM_SHA_512); cbn [negb]; [|by intros [= <- <-]].
  destruct (Z.ltb_spec (AlterUserScramCredentials.iterations up) MIN_ITERATIONS) as [Hit|Hit]; [by intros [= <- <-]|].
  cbn [orb]. destruct (bool_decide _ || bool_decide _); [by intros [= <- <-]|].
  destruct writer; cbn [negb]; [|by intros [= <- <-]].
  destruct (keys_from_salted_password C _) as [stored server] eqn:Ek.
  destruct (fault i).1 as [f|]; [destruct f; by intros [= <- <-]|].
  destruct (sv_users s !! _) as [u|] eqn:Eu; [|by intros [= <- <-]].
  destruct (ku_authentication u) as [auth|]; [|by intros [= <- <-]].
  destruct (one_of (an_kind auth) _); cbn [negb]; [|by intros [= <- <-]].
  destruct (fault i).2 as [f|]; [destruct f; by intros [= <- <-]|].
  destruct (user_schema_ok _); [|by intros [= <- <-]]. intros [= <- <-]. split.
  - intros n Hn. rewrite lookup_store. by case_decide.
  - intros _. split; [done|]. rewrite lookup_store, decide_True by done. eexists _, _. split; [done|].
    split; [done|]. split; [done|]. cbn [an_scram]. unfold rotated. by rewrite Ek.
Qed.

Lemma upsert_each_spec writer fault ups : ∀ i s s' rs,
  serve_each (upsert_one C text authz writer fault) i s ups = (s', rs) →
  length rs = length ups ∧
  (∀ n, (∀ up, up ∈ ups → AlterUserScramCredentials.u_name up ≠ n) → sv_users s' !! n = sv_users s !! n) ∧
  ∀ k up r, ups !! k = Some up → rs !! k = Some r → AlterUserScramCredentials.error_code r = 0 →
    (∀ j up', (k < j)%nat → ups !! j = Some up' → AlterUserScramCredentials.u_name up' ≠ AlterUserScramCredentials.u_name up) →
    carries s' up.
Proof.
  induction ups as [|up0 ups IH]; intros i s s' rs Hs; cbn [serve_each] in Hs; [by injection Hs as <- <-|].
  destruct (upsert_one C text authz writer fault i s up0) as [s1 r1] eqn:E1.
  destruct (serve_each _ (i + 1) s1 ups) as [s2 rs2] eqn:E2. injection Hs as <- <-.
  apply upsert_one_spec in E1 as [A1 A2]. apply IH in E2 as (Hl & B1 & B2). split; [by simpl; rewrite Hl|]. split.
  - intros n Hn. rewrite B1 by (intros up Hup; apply Hn; by right). apply A1. intros ->. by eapply Hn; [left|].
  - intros [|k] up r Hk Hr Hc Hlast; simpl in Hk, Hr; simplify_eq.
    + destruct (A2 Hc) as (Hit & u & auth & Hu & Hrest). split; [done|]. exists u, auth. rewrite B1; [done|].
      intros up' (j & Hj)%list_elem_of_lookup. apply (Hlast (S j) up'); [lia|done].
    + eapply B2; [done|done|done|]. intros j up' Hj Hup'. apply (Hlast (S j)); [lia|done].
Qed.

Lemma passthrough_scram u auth up name :
  MIN_ITERATIONS ≤ AlterUserScramCredentials.iterations up →
  an_kind auth = "scram-sha-512"%string →
  let cred := with_scram (base_credential name u auth) (scram_passthrough (rotated up)) in
  let keys := keys_from_salted_password C (AlterUserScramCredentials.salted_password up) in
  loadable C (loader_row cred) ∧
  scram_of C (loader_row cred) = Some {| stored_key := keys.1; server_key := keys.2; salt := AlterUserScramCredentials.salt up;
                                         iterations := AlterUserScramCredentials.iterations up |}.
Proof.
  intros Hit Hk cred keys.
  assert (decoded C {| sj_salt := sc_salt (scram_passthrough (rotated up));
    sj_stored_key := sc_stored_key (scram_passthrough (rotated up)); sj_server_key := sc_server_key (scram_passthrough (rotated up));
    sj_iterations := sc_iterations (scram_passthrough (rotated up)) |} =
    Some {| stored_key := keys.1; server_key := keys.2; salt := AlterUserScramCredentials.salt up;
            iterations := AlterUserScramCredentials.iterations up |}) as Hdec.
  { unfold decoded, scram_passthrough, rotated, keys. destruct (keys_from_salted_password C _) as [stored server].
    cbn [sj_salt sj_stored_key sj_server_key sj_iterations sc_salt sc_stored_key sc_server_key sc_iterations
         kc_salt kc_stored_key kc_server_key kc_iterations fst snd].
    unfold b64. rewrite !as_of_bytes, !b64_roundtrip. cbn. unfold MIN_ITERATIONS in Hit.
    destruct (Z.ltb_spec (AlterUserScramCredentials.iterations up) 0); [lia|done]. }
  split.
  - intros _ s Hs. injection Hs as <-. eexists. exact Hdec.
  - unfold scram_of, cred. cbn [loader_row with_scram base_credential uc_auth_type cu_auth_type cu_scram uc_scram fmap option_fmap option_map].
    rewrite decide_True by done. exact Hdec.
Qed.

Lemma described_scram st name creds :
  authz Resource_cluster Describe = true → lookup_scram st name = Some creds →
  DescribeUserScramCredentials.results
    (describe_scram_answer authz (Some st) {| DescribeUserScramCredentials.users := Some [name] |})
  = [scram_row name 0 None [iterations creds]].
Proof.
  intros Ha Hl. unfold describe_scram_answer. rewrite Ha.
  cbn [negb DescribeUserScramCredentials.results DescribeUserScramCredentials.users first_occurrences].
  rewrite decide_False by set_solver. cbn [fmap list_fmap option_fmap option_map default]. f_equal.
  unfold describe_one_scram, occurs_twice. rewrite filter_cons_True by done. rewrite filter_nil. cbn [length Nat.leb].
  unfold id, list_all_scram_users. rewrite lookup_omap. unfold lookup_scram in Hl.
  destruct (by_username st !! name) as [c|]; [|done]. cbn in Hl |- *.
  case_decide; [|done]. rewrite Hl. done.
Qed.

(** A rotated password works.  When AlterUserScramCredentials answers a user with
    success (and does not name the user again), then after the operator reconciled
    the user and a broker reloaded the file, a client that logs in with the
    password behind the salted one of the request is authenticated as that user;
    DescribeUserScramCredentials shows the iterations of the request; and the
    keys of every other user are what they were. *)
Theorem rotated_password_logs_in fault s req s' resp k up r password w ft rn w' u st nonce suffix :
  alter_scram_answer C text authz true fault s req = (s', resp) →
  AlterUserScramCredentials.upsertions req !! k = Some up →
  AlterUserScramCredentials.results resp !! (length (AlterUserScramCredentials.deletions req) + k)%nat = Some r →
  AlterUserScramCredentials.error_code r = 0 →
  (∀ j up', (k < j)%nat → AlterUserScramCredentials.upsertions req !! j = Some up' →
     AlterUserScramCredentials.u_name up' ≠ AlterUserScramCredentials.u_name up) →
  AlterUserScramCredentials.salted_password up =
    hi password (AlterUserScramCredentials.salt up) (AlterUserScramCredentials.iterations up) →
  i32_ok (AlterUserScramCredentials.iterations up) →
  creds_ok C (uw_creds w) → uw_server w = s' →
  sv_users s' !! AlterUserScramCredentials.u_name up = Some u → ku_deleting u = false →
  reconcile_user C hi ft rn w (AlterUserScramCredentials.u_name up) u = (w', Ok tt) →
  valid_utf8 (as_bytes (AlterUserScramCredentials.u_name up)) = true → comma_free (as_bytes (AlterUserScramCredentials.u_name up)) →
  plain_ascii nonce → authz Resource_cluster Describe = true →
  ∃ old new x1 m1 m2 x2 v,
    reload_credentials C st (loader_file (uw_creds w)) = (old, Ok tt) ∧
    reload_credentials C st (loader_file (uw_creds w')) = (new, Ok tt) ∧
    scram_step C new suffix ScramExchange_new (client_first (as_bytes (AlterUserScramCredentials.u_name up)) nonce)
      = (x1, Ok (m1, false)) ∧
    client_final C hi password (as_bytes (AlterUserScramCredentials.u_name up)) nonce m1 = Some (m2, v) ∧
    scram_step C new suffix x1 m2 = (x2, Ok (v, true)) ∧
    sx_principal x2 = Some (user (as_bytes (AlterUserScramCredentials.u_name up))) ∧
    DescribeUserScramCredentials.results
      (describe_scram_answer authz (Some new) {| DescribeUserScramCredentials.users := Some [AlterUserScramCredentials.u_name up] |})
      = [scram_row (AlterUserScramCredentials.u_name up) 0 None [AlterUserScramCredentials.iterations up]] ∧
    (∀ n, n ≠ AlterUserScramCredentials.u_name up → lookup_scram new n = lookup_scram old n).
Proof.
  unfold alter_scram_answer. destruct (serve_each _ 0 s _) as [s1 rs] eqn:Es.
  intros [= <- <-] Hup Hr Hcode Hlast Hsalted Hi32 Hcreds Hw Hu Hdel Hrec Hutf Hcomma Hnonce Hauth.
  cbn [AlterUserScramCredentials.results] in Hr.
  rewrite lookup_app_r in Hr by (rewrite length_fmap; lia). rewrite length_fmap in Hr.
  replace (_ + k - _)%nat with k in Hr by lia.
  apply upsert_each_spec in Es as (_ & _ & Hcarry).
  destruct (Hcarry k up r Hup Hr Hcode Hlast) as (Hit & u0 & auth & Hu0 & Ha & Hk & Hsc).
  assert (u0 = u) as -> by congruence. set (name := AlterUserScramCredentials.u_name up) in *.
  set (cred := with_scram (base_credential name u auth) (scram_passthrough (rotated up))).
  assert (build_credential C hi ft rn w name u auth = (w, Ok (cred, ""%string))) as Hb.
  { unfold build_credential. rewrite decide_True by done. by rewrite Hsc. }
  destruct (reconcile_built C hi ft rn w name u auth w cred "" w' Hdel Ha Hb Hrec) as (cf & Hcf & Hw' & _).
  destruct (passthrough_scram u auth up name Hit Hk) as [Hload Hscram].
  destruct (stored_credential C (uw_creds w) cf cred st Hcreds Hcf Hload) as (_ & old & new & Hold & Hnew & Hl & Hother).
  rewrite <- Hw' in Hnew. fold cred in Hscram. rewrite Hscram in Hl.
  change (uc_username cred) with name in Hl, Hother.
  destruct (scram_exchange_completes hi new (as_bytes name) password nonce suffix
    {| stored_key := (keys_from_salted_password C (AlterUserScramCredentials.salted_password up)).1;
       server_key := (keys_from_salted_password C (AlterUserScramCredentials.salted_password up)).2;
       salt := AlterUserScramCredentials.salt up; iterations := AlterUserScramCredentials.iterations up |})
    as (x1 & m1 & m2 & x2 & v & H1 & H2 & H3 & H4); try done.
  { by rewrite of_as_bytes. }
  { cbn [salt iterations stored_key server_key]. rewrite <- Hsalted. by destruct (keys_from_salted_password C _). }
  exists old, new, x1, m1, m2, x2, v. split_and!; try done.
  by rewrite (described_scram new name _ Hauth Hl).
Qed.

End rotation.

(** ** Generated passwords *)

Definition is_alphanum (b : byte) : Prop := b ∈ ALPHABET.

Lemma generated_shape len : ∀ random p,
  generate_alphanum_password len random = Some p → length p = len ∧ Forall is_alphanum p.
Proof.
  induction len as [|len IH]; intros random p; cbn [generate_alphanum_password]; [by intros [= <-]|].
  induction random as [|b random IHr]; [done|]. destruct (Z.leb_spec CUTOFF (b2z b)); [apply IHr|].
  destruct (generate_alphanum_password len random) as [q|] eqn:Eq; [|done]. intros [= <-].
  destruct (IH _ _ Eq) as [Hl Hf]. split; [exact (f_equal S Hl)|]. constructor; [|done].
  unfold is_alphanum, pick. apply list_elem_of_In, nth_In.
  assert (0 <= b2z b `mod` Z.of_nat (length ALPHABET) < Z.of_nat (length ALPHABET)) as Hm
    by (apply Z.mod_pos_bound; by vm_compute).
  lia.
Qed.

(** The bytes it accepts spread evenly over the alphabet. *)
Lemma cutoff_even : CUTOFF = 4 * Z.of_nat (length ALPHABET).
Proof. by vm_compute. Qed.

Definition secret_password (w : UserWorld) (secret : string) : option (list byte) :=
  uw_secrets w !! secret ≫= (λ d, d ≫= lookup "password"%string).

Section passwords.
Context `{CL : CryptoLaws C} (hi : list byte → list byte → Z → list byte).

(** What building a SCRAM credential does to the output secret. *)
Lemma build_scram ft rn w name u auth w1 r :
  an_kind auth = "scram-sha-512"%string → an_scram auth = None →
  build_credential C hi ft rn w name u auth = (w1, r) →
  (w1 = w ∧ ∃ e, r = Err e) ∨
  ∃ password, resolve_scram_password ft rn w auth (name +:+ "-kafka-credentials") = Ok password ∧
    secret_password w1 (name +:+ "-kafka-credentials") = Some password ∧
    r = Ok (with_scram (base_credential name u auth) (compute_scram C hi (rn_salt rn) password), name +:+ "-kafka-credentials").
Proof.
  intros Hk Hs. unfold build_credential. rewrite decide_True by done. rewrite Hs. cbv zeta.
  destruct (resolve_scram_password ft rn w auth _) as [p|e]; [|intros [= <- <-]; by eauto].
  destruct (ft_rng ft); [intros [= <- <-]; by eauto|]. unfold ensure_client_secret.
  destruct (ft_secret_put ft); [intros [= <- <-]; by eauto|]. intros [= <- <-]. right. exists p. split; [done|]. split; [|done].
  unfold secret_password. cbn [uw_secrets]. rewrite lookup_insert_eq. cbn [mbind option_bind].
  by rewrite lookup_insert_ne, lookup_insert_eq.
Qed.

Lemma resolve_reuses ft rn w auth secret p q :
  an_password auth = None → secret_password w secret = Some p → p ≠ [] →
  resolve_scram_password ft rn w auth secret = Ok q → q = p.
Proof.
  intros Ha Hs Hp. unfold resolve_scram_password. rewrite Ha. destruct (ft_secret_get ft); [done|].
  unfold secret_password in Hs. rewrite Hs. destruct p as [|b p]; [done|]. unfold utf8_password.
  by destruct (valid_utf8 (b :: p)); [intros [= <-]|].
Qed.

Lemma string_length_app (a c : string) : String.length (a +:+ c) = (String.length a + String.length c)%nat.
Proof. induction a as [|x a IH]; [done|]. change (S (String.length (a +:+ c)) = S (String.length a + String.length c)). by rewrite IH. Qed.

Lemma string_app_inj_r (a b c : string) : a +:+ c = b +:+ c → a = b.
Proof.
  revert b. induction a as [|x a IH]; intros [|y b] H; try done.
  - apply (f_equal String.length) in H. rewrite !string_length_app in H. cbn [String.length] in H. lia.
  - apply (f_equal String.length) in H. rewrite !string_length_app in H. cbn [String.length] in H. lia.
  - injection H as -> H. f_equal. by apply IH.
Qed.

Lemma build_other ft rn w name u auth w1 r :
  an_kind auth ≠ "scram-sha-512"%string ∨ is_Some (an_scram auth) →
  build_credential C hi ft rn w name u auth = (w1, r) → w1 = w.
Proof.
  unfold build_credential. cbv zeta. intros Hno. destruct (decide (an_kind auth = "scram-sha-512"%string)) as [Hk|Hk].
  - destruct Hno as [?|[s ->]]; [done|]. by intros [= <- _].
  - destruct (decide (an_kind auth = "tls"%string)); [by intros [= <- _]|].
    destruct (decide (an_kind auth = "kubernetes-serviceaccount"%string)); [|by intros [= <- _]].
    destruct (an_service_account_ref auth); by intros [= <- _].
Qed.

Lemma reconcile_keeps_password ft rn w name u w' r other p :
  (∀ auth, other = name → ku_authentication u = Some auth → an_password auth = None) →
  secret_password w (other +:+ "-kafka-credentials") = Some p → p ≠ [] →
  reconcile_user C hi ft rn w name u = (w', r) →
  secret_password w' (other +:+ "-kafka-credentials") = Some p.
Proof.
  intros Hno Hs Hp Hrec. apply reconcile_secrets in Hrec as [_ [Heq|(auth & w1 & r1 & Ha & Hb & Heq)]];
    unfold secret_password; rewrite Heq; [done|].
  change (secret_password w1 (other +:+ "-kafka-credentials") = Some p).
  destruct (decide (other = name)) as [->|Hne].
  2: { apply build_frame in Hb as (_ & _ & _ & _ & Hk). unfold secret_password. rewrite Hk; [done|].
       intros Heq'. apply Hne. by eapply string_app_inj_r. }
  destruct (decide (an_kind auth = "scram-sha-512"%string)) as [Hk|Hk]; [|apply build_other in Hb as ->; by auto].
  destruct (an_scram auth) eqn:Esc; [apply build_other in Hb as ->; by eauto|].
  apply build_scram in Hb as [[-> _]|(q & Hq & Hsq & _)]; [done| |done..].
  rewrite Hsq. f_equal. by eapply resolve_reuses; [apply Hno| | |].
Qed.

Lemma computed_scram name u auth slt password :
  an_kind auth = "scram-sha-512"%string →
  let cred := with_scram (base_credential name u auth) (compute_scram C hi slt password) in
  let keys := keys_from_salted_password C (hi password slt SCRAM_ITERATIONS) in
  loadable C (loader_row cred) ∧
  scram_of C (loader_row cred) = Some {| stored_key := keys.1; server_key := keys.2; salt := slt; iterations := SCRAM_ITERATIONS |}.
Proof.
  intros Hk cred keys.
  assert (uc_scram cred = Some {| sc_salt := b64 C slt; sc_stored_key := b64 C keys.1; sc_server_key := b64 C keys.2;
    sc_iterations := SCRAM_ITERATIONS |}) as Hsc
    by (unfold cred, compute_scram, keys; by destruct (keys_from_salted_password C _)).
  assert (decoded C {| sj_salt := b64 C slt; sj_stored_key := b64 C keys.1; sj_server_key := b64 C keys.2;
    sj_iterations := SCRAM_ITERATIONS |} =
    Some {| stored_key := keys.1; server_key := keys.2; salt := slt; iterations := SCRAM_ITERATIONS |}) as Hdec.
  { unfold decoded, b64. cbn [sj_salt sj_stored_key sj_server_key sj_iterations]. by rewrite !as_of_bytes, !b64_roundtrip. }
  clearbody keys. split.
  - intros _ s. unfold loader_row. cbn [cu_scram]. rewrite Hsc. intros Hs. injection Hs as <-. by eexists.
  - unfold scram_of, loader_row. cbn [cu_auth_type cu_scram]. rewrite Hsc. rewrite decide_True by done. exact Hdec.
Qed.

(** Later reconciles, of any users, with whatever faults and random bytes. *)
Definition attempt (w : UserWorld) (a : UserFaults * Random * string * KafkaUser) : UserWorld :=
  let '(ft, rn, n, u) := a in (reconcile_user C hi ft rn w n u).1.
Definition without_own_secret (name : string) (a : UserFaults * Random * string * KafkaUser) : Prop :=
  ∀ auth, name = a.1.2 → ku_authentication a.2 = Some auth → an_password auth = None.

Lemma attempts_keep_password attempts w name p :
  secret_password w (name +:+ "-kafka-credentials") = Some p → p ≠ [] → Forall (without_own_secret name) attempts →
  secret_password (foldl attempt w attempts) (name +:+ "-kafka-credentials") = Some p.
Proof.
  intros Hs Hp Hf. revert w Hs. induction Hf as [|[[[ft rn] n] u] l Ha _ IH]; intros w Hs; [done|].
  cbn [foldl attempt]. apply IH. destruct (reconcile_user C hi ft rn w n u) as [w' r] eqn:Er.
  by eapply reconcile_keeps_password.
Qed.

(** C31. A password the operator issued works, and stays.  When a SCRAM user without
    keys of its own is reconciled and reported ready, its secret holds a password
    (its own secret's, the one that was there, or 32 fresh letters and digits), a
    client that logs in with it after the brokers reloaded is authenticated as that
    user, and no later reconcile of any user, failed or not, changes it while the
    user names no other secret. *)
Theorem issued_password_logs_in ft rn w name u auth w' st nonce suffix attempts :
  creds_ok C (uw_creds w) → ku_deleting u = false → ku_authentication u = Some auth →
  an_kind auth = "scram-sha-512"%string → an_scram auth = None →
  reconcile_user C hi ft rn w name u = (w', Ok tt) → us_ready <$> uw_status w' !! name = Some true →
  valid_utf8 (as_bytes name) = true → comma_free (as_bytes name) → plain_ascii nonce →
  Forall (without_own_secret name) attempts →
  ∃ password new x1 m1 m2 x2 v,
    secret_password w' (name +:+ "-kafka-credentials") = Some password ∧
    (an_password auth = None →
       (secret_password w (name +:+ "-kafka-credentials") = Some password ∨
        length password = 32%nat ∧ Forall is_alphanum password) ∧
       secret_password (foldl attempt w' attempts) (name +:+ "-kafka-credentials") = Some password) ∧
    reload_credentials C st (loader_file (uw_creds w')) = (new, Ok tt) ∧
    scram_step C new suffix ScramExchange_new (client_first (as_bytes name) nonce) = (x1, Ok (m1, false)) ∧
    client_final C hi password (as_bytes name) nonce m1 = Some (m2, v) ∧
    scram_step C new suffix x1 m2 = (x2, Ok (v, true)) ∧ sx_principal x2 = Some (user (as_bytes name)).
Proof.
  intros Hcreds Hd Ha Hk Hs Hrec Hready Hutf Hcomma Hnonce Hatt.
  destruct (reconcile_ready C hi ft rn w name u auth w' Hd Ha Hrec Hready) as (w1 & cred & secret & Hb).
  destruct (reconcile_built C hi ft rn w name u auth w1 cred secret w' Hd Ha Hb Hrec) as (cf & Hcf & Hw' & Hsec).
  apply build_scram in Hb as [[_ [e ?]]|(password & Hres & Hpw & [= -> ->])]; [done| |done..].
  set (cred := with_scram _ _) in *.
  destruct (computed_scram name u auth (rn_salt rn) password Hk) as [Hload Hscram].
  destruct (stored_credential C (uw_creds w) cf cred st Hcreds Hcf Hload) as (_ & old & new & _ & Hnew & Hl & _).
  rewrite <- Hw' in Hnew. fold cred in Hscram. rewrite Hscram in Hl. change (uc_username cred) with name in Hl.
  assert (secret_password w' (name +:+ "-kafka-credentials") = Some password) as Hpw'
    by (unfold secret_password; rewrite Hsec; exact Hpw).
  destruct (scram_exchange_completes hi new (as_bytes name) password nonce suffix
    {| stored_key := (keys_from_salted_password C (hi password (rn_salt rn) SCRAM_ITERATIONS)).1;
       server_key := (keys_from_salted_password C (hi password (rn_salt rn) SCRAM_ITERATIONS)).2;
       salt := rn_salt rn; iterations := SCRAM_ITERATIONS |})
    as (x1 & m1 & m2 & x2 & v & H1 & H2 & H3 & H4); try done.
  { by rewrite of_as_bytes. }
  exists password, new, x1, m1, m2, x2, v. split_and!; try done.
  intros Hno. assert (password ≠ [] ∧ (secret_password w (name +:+ "-kafka-credentials") = Some password ∨
    length password = 32%nat ∧ Forall is_alphanum password)) as [Hne Hwhere].
  { unfold resolve_scram_password in Hres. rewrite Hno in Hres. destruct (ft_secret_get ft); [done|].
    fold (secret_password w (name +:+ "-kafka-credentials")) in Hres.
    assert (∀ q, (if ft_rng ft then Err OpOther else match generate_alphanum_password 32 (rn_password rn) with
      Some p => utf8_password p | None => Err OpOther end) = Ok q → length q = 32%nat ∧ Forall is_alphanum q) as Hgen.
    { intros q. destruct (ft_rng ft); [done|]. destruct (generate_alphanum_password 32 _) as [p|] eqn:Eg; [|done].
      unfold utf8_password. destruct (valid_utf8 p); [|done]. intros [= <-]. by eapply generated_shape. }
    destruct (secret_password w _) as [[|b q]|] eqn:Eq.
    - apply Hgen in Hres as [Hlen Hf]. split; [by intros ->|]. by right.
    - unfold utf8_password in Hres. destruct (valid_utf8 (b :: q)); [|done]. injection Hres as <-. by auto.
    - apply Hgen in Hres as [Hlen Hf]. split; [by intros ->|]. by right. }
  split; [done|]. by apply attempts_keep_password.
Qed.

End passwords.

(** ** The sweep, and what the controller misses *)

(** The sweep removes exactly the entries whose user was not listed. *)
Lemma sweep_exact ft listed w w' removed cf :
  read_credentials (uw_creds w) = Some cf → sweep_credentials ft listed w = (w', Ok removed) →
  read_credentials (uw_creds w') = Some (List.filter (λ u, bool_decide (is_Some (sv_users listed !! uc_username u))) cf) ∧
  ∀ n, n ∈ removed ↔ n ∈ names cf ∧ sv_users listed !! n = None.
Proof.
  intros Hr. unfold sweep_credentials, write_credentials. rewrite Hr. cbv zeta.
  set (keep := λ u, bool_decide (is_Some (sv_users listed !! uc_username u))).
  change (λ u, bool_decide (is_Some (sv_users listed !! uc_username u))) with keep.
  change (λ u, negb (bool_decide (is_Some (sv_users listed !! uc_username u)))) with (λ u, negb (keep u)).
  assert (∀ n, n ∈ uc_username <$> List.filter (λ u, negb (keep u)) cf ↔ n ∈ names cf ∧ sv_users listed !! n = None) as Hin.
  { intros n. unfold names. rewrite !list_elem_of_fmap. setoid_rewrite list_elem_of_In. setoid_rewrite List.filter_In.
    unfold keep. setoid_rewrite negb_true_iff. setoid_rewrite bool_decide_eq_false. setoid_rewrite <- eq_None_not_Some. naive_solver. }
  destruct (uc_username <$> List.filter (λ u, negb (keep u)) cf) as [|x l] eqn:El.
  - intros [= <- <-]. split; [|done]. rewrite Hr. f_equal. symmetry. apply filter_all. intros u Hu.
    destruct (keep u) eqn:Ek; [done|]. exfalso. apply fmap_nil_inv in El.
    assert (u ∈ List.filter (λ u, negb (keep u)) cf) as Hf
      by (apply list_elem_of_In, List.filter_In; split; [by apply list_elem_of_In|by rewrite Ek]).
    rewrite El in Hf. by apply not_elem_of_nil in Hf.
  - destruct (ft_cred_write ft); [done|]. intros [= <- <-]. split; [done|]. intros n. rewrite <- Hin.
    by rewrite (merge_sort_Permutation String.le (x :: l)).
Qed.

Definition oauth_user (acls : list KafkaUserAcl) : KafkaUser :=
  {| ku_deleting := false; ku_version := 1; ku_authentication := None;
     ku_authorization := Some {| az_kind := "simple"; az_acls := acls |}; ku_quotas := None |}.
Definition scram_user (scram : option KafkaUserScramCredential) : KafkaUser :=
  {| ku_deleting := false; ku_version := 1;
     ku_authentication := Some {| an_kind := "scram-sha-512"; an_password := None; an_scram := scram;
                                  an_certificate_ref := None; an_service_account_ref := None |};
     ku_authorization := None; ku_quotas := None |}.
Definition user_world (users : gmap string KafkaUser) : UserWorld :=
  {| uw_server := {| sv_users := users; sv_revision := 1 |}; uw_secrets := ∅; uw_status := ∅; uw_creds := CredAbsent;
     uw_acls := FileMissing |}.
Definition demo_random : Random := {| rn_salt := [x07; x2c]; rn_password := replicate 40 x29 |}.
Definition with_server (w : UserWorld) (users : gmap string KafkaUser) : UserWorld :=
  {| uw_server := {| sv_users := users; sv_revision := sv_revision (uw_server w) + 1 |}; uw_secrets := uw_secrets w;
     uw_status := uw_status w; uw_creds := uw_creds w; uw_acls := uw_acls w |}.
Definition may_read (w : UserWorld) : bool := (authorize (reload AclEngine_new (uw_acls w)) Acls.alice Acls.orders Read 0).2.

(** A deleted user keeps its rights: the rules file is rebuilt only when some user
    is reconciled, a user that is gone (or going) is not, and the sweep looks at
    credentials alone.  Alice, who logs in with tokens, may read before and after
    her object is deleted and swept; the clean-up that nobody calls would have
    taken the right away, and so does the next reconcile of anybody else. *)
Theorem deleted_user_keeps_access :
  let alice := oauth_user [read_orders] in
  let w1 := (reconcile_user toy toy_hi no_user_faults demo_random (user_world {[ "alice"%string := alice ]}) "alice" alice).1 in
  let going := {| ku_deleting := true; ku_version := 2; ku_authentication := None;
                  ku_authorization := ku_authorization alice; ku_quotas := None |} in
  let w2 := (reconcile_user toy toy_hi no_user_faults demo_random (with_server w1 {[ "alice"%string := going ]}) "alice" going).1 in
  let w3 := (sweep_credentials no_user_faults (uw_server (with_server w2 ∅)) (with_server w2 ∅)).1 in
  may_read w1 = true ∧ may_read w3 = true ∧ bindings (uw_server w3) = [] ∧
  may_read (handle_not_found no_user_faults w3 "alice").1 = false ∧
  may_read (reconcile_user toy toy_hi no_user_faults demo_random w3 "bob" (oauth_user [])).1 = false.
Proof. vm_compute. done. Qed.

(** Two rebuilds at once lose a rule: a rebuild lists the users and writes the
    file later; one that listed before alice was granted her right and writes after
    the rebuild that her change caused leaves the file without it, until somebody
    is reconciled again. *)
Theorem overlapping_rebuilds_lose_rule :
  let before := user_world {[ "alice"%string := oauth_user [] ]} in
  let after := user_world {[ "alice"%string := oauth_user [read_orders] ]} in
  ∃ f_old f_new, reconcile_acls None true (uw_server before) = Some f_old ∧
    reconcile_acls None true (uw_server after) = Some f_new ∧
    may_read (with_acls after f_new) = true ∧ may_read (with_acls (with_acls after f_new) f_old) = false.
Proof. eexists _, _. split; [reflexivity|]. split; [reflexivity|]. vm_compute. done. Qed.

(** The sweep can take a new user's credential: it lists the users before it reads
    the file, so a user created and reconciled in between is not on its list. *)
Theorem sweep_removes_new_user :
  let empty := user_world ∅ in
  let bob := scram_user None in
  let w := with_server empty {[ "bob"%string := bob ]} in
  let '(w1, r1) := reconcile_user toy toy_hi no_user_faults demo_random w "bob" bob in
  let '(w2, r2) := sweep_credentials no_user_faults (uw_server empty) w1 in
  r1 = Ok tt ∧ r2 = Ok ["bob"%string] ∧ uw_creds w2 = CredStored [] ∧ is_Some (sv_users (uw_server w2) !! "bob"%string).
Proof. vm_compute. repeat split; try done. by eexists. Qed.

(** One user's bad key blocks everybody: keys in a user's object are written to the
    file as they are, and a broker that cannot decode one entry refuses the file
    and keeps the credentials it had, for all users. *)
Theorem bad_credential_blocks_reload C hi ft rn w name u auth s w' st :
  ku_deleting u = false → ku_authentication u = Some auth → an_kind auth = "scram-sha-512"%string →
  an_scram auth = Some s → b64_decode C (as_bytes (kc_salt s)) = None →
  reconcile_user C hi ft rn w name u = (w', Ok tt) →
  ∃ e, reload_credentials C st (loader_file (uw_creds w')) = (st, Err e).
Proof.
  intros Hd Ha Hk Hs Hbad Hrec.
  set (cred := with_scram (base_credential name u auth) (scram_passthrough s)).
  assert (build_credential C hi ft rn w name u auth = (w, Ok (cred, ""%string))) as Hb.
  { unfold build_credential. rewrite decide_True by done. by rewrite Hs. }
  destruct (reconcile_built C hi ft rn w name u auth w cred "" w' Hd Ha Hb Hrec) as (cf & _ & -> & _).
  cbn [loader_file reload_credentials].
  destruct (load_users_fails C (loader_row <$> upsert_user cf cred) CredState_empty) as [e ->]; [|by exists e].
  assert (cred ∈ upsert_user cf cred) as Hin.
  { clear. induction cf as [|x cf IH]; cbn [upsert_user]; [by left|]. case_decide; [by left|by right]. }
  intros Hall. apply (list_elem_of_fmap_2 loader_row) in Hin. pose proof (proj1 (Forall_forall _ _) Hall _ Hin) as Hl.
  destruct (Hl Hk _ eq_refl) as [k Hdec]. unfold decoded in Hdec.
  cbn [sj_salt sj_stored_key sj_server_key sc_salt sc_stored_key sc_server_key scram_passthrough] in Hdec.
  cbn -[b64_decode] in Hdec.
  destruct (b64_decode C (as_bytes (kc_stored_key s))); [|done]. destruct (b64_decode C (as_bytes (kc_server_key s))); [|done].
  cbn in Hdec. by rewrite Hbad in Hdec.
Qed.

(** ** Concrete runs *)

Definition bob_upsertion : AlterUserScramCredentials.ScramCredentialUpsertion :=
  {| AlterUserScramCredentials.u_name := "bob"; AlterUserScramCredentials.u_mechanism := 2;
     AlterUserScramCredentials.iterations := 4096; AlterUserScramCredentials.salt := [x01];
     AlterUserScramCredentials.salted_password := toy_hi (as_bytes "new") [x01] 4096 |}.
Definition rotate_request : AlterUserScramCredentials.Request :=
  {| AlterUserScramCredentials.deletions := [{| AlterUserScramCredentials.name := "eve"; AlterUserScramCredentials.mechanism := 2 |}];
     AlterUserScramCredentials.upsertions := [bob_upsertion] |}.
Definition bob_server : UserServer := {| sv_users := {[ "bob"%string := scram_user None ]}; sv_revision := 1 |}.
Definition rotation : UserServer * AlterUserScramCredentials.Response :=
  alter_scram_answer toy (λ _, ""%string) demo_authz true no_faults bob_server rotate_request.
Definition bob_after : KafkaUser := default (scram_user None) (sv_users rotation.1 !! "bob"%string).
Definition rotated_world : UserWorld :=
  {| uw_server := rotation.1; uw_secrets := ∅; uw_status := ∅; uw_creds := CredAbsent; uw_acls := FileMissing |}.
Definition bob_reconciled : UserWorld * result OpError unit :=
  reconcile_user toy toy_hi no_user_faults demo_random rotated_world "bob" bob_after.

Lemma rotated_password_logs_in_witness :
  AlterUserScramCredentials.error_code <$> AlterUserScramCredentials.results rotation.2 = [35; 0] ∧
  ∃ new x2 x1 m2 v, reload_credentials toy CredState_empty (loader_file (uw_creds bob_reconciled.1)) = (new, Ok tt) ∧
    scram_step toy new [x01; x02] x1 m2 = (x2, Ok (v, true)) ∧ sx_principal x2 = Some (user (as_bytes "bob")).
Proof.
  split; [vm_compute; reflexivity|].
  destruct (rotated_password_logs_in toy_hi (λ _, ""%string) demo_authz no_faults bob_server rotate_request rotation.1 rotation.2
    0 bob_upsertion (user_result "bob" 0 None) (as_bytes "new") rotated_world no_user_faults demo_random bob_reconciled.1
    bob_after CredState_empty (as_bytes "nonce") [x01; x02])
    as (old & new & x1 & m1 & m2 & x2 & v & _ & H2 & _ & _ & H5 & H6 & _).
  - unfold rotation. by destruct (alter_scram_answer _ _ _ _ _ _ _).
  - reflexivity.
  - vm_compute. reflexivity.
  - reflexivity.
  - intros j up' Hj Hl. apply lookup_lt_Some in Hl. simpl in Hl. lia.
  - reflexivity.
  - by vm_compute.
  - exists []. split; [reflexivity|]. split; [apply NoDup_nil_2|constructor].
  - reflexivity.
  - vm_compute. reflexivity.
  - vm_compute. reflexivity.
  - vm_compute. reflexivity.
  - vm_compute. reflexivity.
  - by repeat constructor.
  - by repeat constructor.
  - reflexivity.
  - exists new, x2, x1, m2, v. split; [exact H2|]. split; [exact H5|exact H6].
Defined.

Definition carol : KafkaUser := scram_user None.
Definition carol_auth : KafkaUserAuthentication :=
  {| an_kind := "scram-sha-512"; an_password := None; an_scram := None; an_certificate_ref := None;
     an_service_account_ref := None |}.
Definition carol_world : UserWorld := user_world {[ "carol"%string := carol ]}.
Definition carol_done : UserWorld * result OpError unit :=
  reconcile_user toy toy_hi no_user_faults demo_random carol_world "carol" carol.
Definition later_attempts : list (UserFaults * Random * string * KafkaUser) :=
  [(no_user_faults, {| rn_salt := [x09]; rn_password := replicate 40 x30 |}, "carol"%string, carol);
   (no_user_faults, demo_random, "bob"%string, oauth_user [])].

Lemma issued_password_logs_in_witness :
  ∃ password, secret_password carol_done.1 "carol-kafka-credentials" = Some password ∧
    (secret_password carol_world "carol-kafka-credentials" = Some password ∨ length password = 32%nat ∧ Forall is_alphanum password) ∧
    secret_password (foldl (attempt (C := toy) toy_hi) carol_done.1 later_attempts) "carol-kafka-credentials" = Some password.
Proof.
  destruct (issued_password_logs_in toy_hi no_user_faults demo_random carol_world "carol" carol carol_auth carol_done.1
    CredState_empty (as_bytes "nonce") [x01] later_attempts)
    as (password & new & x1 & m1 & m2 & x2 & v & H1 & H2 & _).
  - exists []. split; [reflexivity|]. split; [apply NoDup_nil_2|constructor].
  - reflexivity.
  - reflexivity.
  - reflexivity.
  - reflexivity.
  - vm_compute. reflexivity.
  - vm_compute. reflexivity.
  - vm_compute. reflexivity.
  - by repeat constructor.
  - by repeat constructor.
  - apply Forall_cons. split; [intros auth _ Ha; by injection Ha as <-|].
    apply Forall_cons. split; [intros auth Hn; discriminate|]. by apply Forall_nil.
  - exists password. split; [exact H1|]. apply H2. reflexivity.
Defined.

Definition broken_keys : KafkaUserScramCredential :=
  {| kc_salt := "!"; kc_stored_key := ""; kc_server_key := ""; kc_iterations := 4096 |}.
Lemma bad_credential_blocks_reload_witness :
  ∃ e, reload_credentials toy demo_creds
    (loader_file (uw_creds (reconcile_user toy toy_hi no_user_faults demo_random (user_world ∅) "mallory" (scram_user (Some broken_keys))).1))
    = (demo_creds, Err e).
Proof.
  apply (bad_credential_blocks_reload toy toy_hi no_user_faults demo_random (user_world ∅) "mallory" (scram_user (Some broken_keys))
    {| an_kind := "scram-sha-512"; an_password := None; an_scram := Some broken_keys; an_certificate_ref := None;
       an_service_account_ref := None |} broken_keys).
  - reflexivity.
  - reflexivity.
  - reflexivity.
  - reflexivity.
  - vm_compute. reflexivity.
  - vm_compute. reflexivity.
Defined.
