(* ===== verification/Quota.v ===== *)
(** * Client quotas

    [kaas-auth/src/quota.rs]: the token buckets of a broker, one per user and
    direction, with the runtime overrides of AlterClientQuotas on top of the
    values of the credentials file; the handlers of AlterClientQuotas and
    DescribeClientQuotas ([kaas-broker/src/handlers/alter_client_quotas.rs],
    [describe_client_quotas.rs]); the charge of a Produce and of a Fetch.

    The arithmetic is [Float64]'s, operation by operation as the source has it.
    An [Instant] is a number of nanoseconds, an argument of every check. *)

From stdpp Require Import base gmap strings list.
From Stdlib Require Import Strings.Byte Floats.SpecFloat.
From S2P Require Import Prelude Primitives Wire ApiData ApiAdmin Partition OffsetStore Recovery Engine Acls ApiTxn TxnFlow Auth DataPlane Float64.
Import Common.

Local Open Scope Z_scope.

Definition I32_MAX : Z := 2147483647.
Definition I32_MIN : Z := - 2147483648.
Definition I64_MAX : Z := 9223372036854775807.
Definition I64_MIN : Z := - 9223372036854775808.

(** ** Token buckets *)

Record TokenBucket := {
  producer_tokens : f64; consumer_tokens : f64; last_refill : Z; b_producer_rate : f64; b_consumer_rate : f64 }.

Definition rate_of (limit : option Z) : f64 := from_option f64_of_Z (S754_zero false) limit.

Definition apply_quotas (b : TokenBucket) (q : option Quotas) : TokenBucket :=
  {| producer_tokens := producer_tokens b; consumer_tokens := consumer_tokens b; last_refill := last_refill b;
     b_producer_rate := rate_of (q ≫= producer_rate); b_consumer_rate := rate_of (q ≫= consumer_rate) |}.

Definition new_bucket (now : Z) (q : option Quotas) : TokenBucket :=
  let b := apply_quotas
    {| producer_tokens := S754_zero false; consumer_tokens := S754_zero false; last_refill := now;
       b_producer_rate := S754_zero false; b_consumer_rate := S754_zero false |} q in
  {| producer_tokens := b_producer_rate b; consumer_tokens := b_consumer_rate b; last_refill := last_refill b;
     b_producer_rate := b_producer_rate b; b_consumer_rate := b_consumer_rate b |}.

(** [Duration::as_secs_f64] of a duration in nanoseconds. *)
Definition duration_secs (ns : Z) : f64 :=
  fadd (f64_of_Z (ns / 1000000000)) (fdiv (f64_of_Z (ns mod 1000000000)) (f64_of_Z 1000000000)).

(** The balance after a refill and a deduction, and the delay it asks for. *)
Definition charge (rate tokens elapsed : f64) (bytes : Z) : f64 * Z :=
  let tokens := fadd tokens (fmul rate elapsed) in
  let tokens := if flt rate tokens then rate else tokens in
  let tokens := fsub tokens (f64_of_Z bytes) in
  if fle (S754_zero false) tokens then (tokens, 0)
  else
    let throttle_secs := fdiv (fneg tokens) rate in
    let throttle_ms := fceil (fmul throttle_secs (f64_of_Z 1000)) in
    (tokens,
     if fle throttle_ms (S754_zero false) then 0
     else if fle (f64_of_Z I32_MAX) throttle_ms then I32_MAX
     else f64_as_int I32_MIN I32_MAX throttle_ms).

Definition check_bucket (now bytes : Z) (producer : bool) (b : TokenBucket) : TokenBucket * Z :=
  let elapsed := duration_secs (Z.max 0 (now - last_refill b)) in
  let rate := if producer then b_producer_rate b else b_consumer_rate b in
  let tokens := if producer then producer_tokens b else consumer_tokens b in
  let put t :=
    {| producer_tokens := if producer then t else producer_tokens b;
       consumer_tokens := if producer then consumer_tokens b else t; last_refill := now;
       b_producer_rate := b_producer_rate b; b_consumer_rate := b_consumer_rate b |} in
  if feq rate (S754_zero false) then (put tokens, 0)
  else let '(tokens, throttle) := charge rate tokens elapsed bytes in (put tokens, throttle).

(** ** The enforcer *)

Record QuotaEnforcer := { buckets : gmap string TokenBucket; overrides : gmap string Quotas }.
Definition QuotaEnforcer_new : QuotaEnforcer := {| buckets := ∅; overrides := ∅ |}.

Section enforcer.
Context (store : CredState).

Definition describe_user_quota (e : QuotaEnforcer) (username : string) : option Quotas :=
  match overrides e !! username with Some q => Some q | None => lookup_quotas store username end.

Definition set_user_quota (e : QuotaEnforcer) (username : string) (q : option Quotas) : QuotaEnforcer :=
  let overrides := match q with None => delete username (overrides e) | Some q => <[username := q]> (overrides e) end in
  let effective := match q with Some q => Some q | None => lookup_quotas store username end in
  {| buckets := alter (λ b, apply_quotas b effective) username (buckets e); overrides := overrides |}.

Definition list_user_quotas (e : QuotaEnforcer) : gmap string Quotas := overrides e ∪ list_all_quotas store.

Definition check (now : Z) (e : QuotaEnforcer) (username : string) (bytes : Z) (producer : bool) : QuotaEnforcer * Z :=
  let bucket := match buckets e !! username with Some b => b | None => new_bucket now (describe_user_quota e username) end in
  let '(bucket, throttle) := check_bucket now bytes producer bucket in
  ({| buckets := <[username := bucket]> (buckets e); overrides := overrides e |}, throttle).

Definition check_produce_quota (now : Z) (e : QuotaEnforcer) (username : string) (bytes : Z) : QuotaEnforcer * Z :=
  check now e username bytes true.
Definition check_fetch_quota (now : Z) (e : QuotaEnforcer) (username : string) (bytes : Z) : QuotaEnforcer * Z :=
  check now e username bytes false.

End enforcer.

(** ** The charge of the two data handlers

    Both charge after the work is done, whatever became of the partitions, and
    hand the delay to the client in the response. *)
Definition produce_bytes (req : Produce.Request) : Z :=
  foldr Z.add 0 ((λ p, from_option (λ b, Z.of_nat (length b)) 0 (Produce.records p))
    <$> (Produce.topic_data req ≫= Produce.partition_data)).
Definition fetch_bytes (rs : list Fetch.TopicResponse) : Z :=
  foldr Z.add 0 ((λ p, from_option (λ b, Z.of_nat (length b)) 0 (Fetch.records p)) <$> (rs ≫= Fetch.t_partitions)).

Definition produce_charged (store : CredState) (instant : Z) (q : QuotaEnforcer) (username : string)
    (env : StorageEnv) (max_message_bytes : Z) (authz : Resource → Operation → bool) (now : Z)
    (b : DataBroker) (v : LogVolume) (version : Z) (body : list byte) : QuotaEnforcer * (DataBroker * LogVolume * enc) :=
  match Produce.decode_request version body with
  | Err err => (q, (b, v, Err err))
  | Ok (req, _) =>
    let '(q, throttle) := check_produce_quota store instant q username (produce_bytes req) in
    (q, ProduceHandler.handle env max_message_bytes authz now throttle b v version body)
  end.

Definition fetch_charged (store : CredState) (instant : Z) (q : QuotaEnforcer) (username : string)
    (fault : Key → option StorageError) (authz : Resource → Operation → bool) (b : DataBroker) (version : Z)
    (body : list byte) : QuotaEnforcer * enc :=
  match Fetch.decode_request version body with
  | Err err => (q, Err err)
  | Ok (req, _) =>
    let read_committed := Fetch.isolation_level req =? 1 in
    let rs := (λ t, {| Fetch.t_name := Fetch.name t;
                       Fetch.t_partitions :=
                         (λ p, FetchHandler.read_one fault authz b (Fetch.name t) p read_committed) <$> Fetch.partitions t |})
                <$> Fetch.topics req in
    let '(q, throttle) := check_fetch_quota store instant q username (fetch_bytes rs) in
    (q, FetchHandler.handle fault authz throttle b version body)
  end.

(** ** AlterClientQuotas *)

Module AlterQuotas.
Import AlterClientQuotas.

(** [9_223_372_036_854_775_807.0] is the nearest double, [2^63]. *)
Definition i64_max_f64 : f64 := f64_of_Z I64_MAX.
Definition i64_min_f64 : f64 := f64_of_Z I64_MIN.

Definition f64_to_i64 (v : f64) : Z :=
  if is_nan v then 0
  else if fle i64_max_f64 v then I64_MAX
  else if fle v i64_min_f64 then I64_MIN
  else f64_as_int I64_MIN I64_MAX (ftrunc v).
Definition f64_to_i32 (v : f64) : Z :=
  if is_nan v then 0
  else if fle (f64_of_Z I32_MAX) v then I32_MAX
  else if fle v (f64_of_Z I32_MIN) then I32_MIN
  else f64_as_int I32_MIN I32_MAX (ftrunc v).

Definition Quotas_default : Quotas := {| producer_rate := None; consumer_rate := None; request_percentage := None |}.

(** [None] for a key the broker does not know. *)
Definition apply_op (q : Quotas) (op : OpData) : option Quotas :=
  let v := f64_of_bits <$> value op in
  if decide (key op = "producer_byte_rate"%string) then
    Some {| producer_rate := f64_to_i64 <$> v; consumer_rate := consumer_rate q; request_percentage := request_percentage q |}
  else if decide (key op = "consumer_byte_rate"%string) then
    Some {| producer_rate := producer_rate q; consumer_rate := f64_to_i64 <$> v; request_percentage := request_percentage q |}
  else if decide (key op = "request_percentage"%string) then
    Some {| producer_rate := producer_rate q; consumer_rate := consumer_rate q; request_percentage := f64_to_i32 <$> v |}
  else None.

(** The merged quotas, or the first unknown key. *)
Fixpoint apply_ops (q : Quotas) (ops : list OpData) : result string Quotas :=
  match ops with
  | [] => Ok q
  | op :: ops' => match apply_op q op with Some q' => apply_ops q' ops' | None => Err (key op) end
  end.

Definition exact_user (axes : list EntityData) : option string :=
  match filter (λ a, entity_type a = "user"%string) axes with
  | [] => None
  | first :: rest =>
    if decide (rest ≠ []) then None
    else if existsb (λ a, bool_decide (entity_type a ≠ "user"%string)) axes then None
    else entity_name first
  end.

Definition quotas_is_empty (q : Quotas) : bool :=
  bool_decide (producer_rate q = None) && bool_decide (consumer_rate q = None) &&
  bool_decide (request_percentage q = None).

Definition ok_entry (entry : EntryData) : EntryResponseData :=
  {| error_code := 0; error_message := None; r_entity := entity entry |}.
Definition error_entry (entry : EntryData) (code : Z) (msg : option string) : EntryResponseData :=
  {| error_code := code; error_message := msg; r_entity := entity entry |}.

Section handler.
Context (store : CredState) (authz : Resource → Operation → bool).

Definition alter_entry (validate_only : bool) (enforcer : option QuotaEnforcer) (entry : EntryData) :
    option QuotaEnforcer * EntryResponseData :=
  if negb (authz Resource_cluster AlterConfigs) then (enforcer, error_entry entry 31 None)
  else
    match enforcer with
    | None => (enforcer, error_entry entry 35 (Some "broker has no quota enforcer"))
    | Some enf =>
      match exact_user (entity entry) with
      | None => (enforcer, error_entry entry 42 (Some "only 'user' entity_type with an explicit name is supported"))
      | Some username =>
        match apply_ops (default Quotas_default (describe_user_quota store enf username)) (ops entry) with
        | Err k => (enforcer, error_entry entry 40 (Some ("unknown quota key: " +:+ k)))
        | Ok current =>
          if validate_only then (enforcer, ok_entry entry)
          else
            (Some (set_user_quota store enf username (if quotas_is_empty current then None else Some current)),
             ok_entry entry)
        end
      end
    end.

Fixpoint alter_entries (validate_only : bool) (enforcer : option QuotaEnforcer) (es : list EntryData) :
    option QuotaEnforcer * list EntryResponseData :=
  match es with
  | [] => (enforcer, [])
  | e :: es' =>
    let '(enforcer, r) := alter_entry validate_only enforcer e in
    let '(enforcer, rs) := alter_entries validate_only enforcer es' in
    (enforcer, r :: rs)
  end.

Definition handle_alter_client_quotas (enforcer : option QuotaEnforcer) (version : Z) (body : list byte) :
    option QuotaEnforcer * enc :=
  match decode_request version body with
  | Err err => (enforcer, Err err)
  | Ok (req, _) =>
    let '(enforcer, rs) := alter_entries (validate_only req) enforcer (entries req) in
    (enforcer, encode_response {| throttle_time_ms := 0; r_entries := rs |} version)
  end.

End handler.
End AlterQuotas.

(** ** DescribeClientQuotas *)

Module DescribeQuotas.
Import DescribeClientQuotas.

Inductive UserFilter := Exact (name : string) | Any | Unsupported.

Definition resolve_user_filter (components : list ComponentData) : UserFilter :=
  if decide (components = []) then Any
  else
    match filter (λ c, entity_type c = "user"%string) components with
    | [c] =>
      if match_type c =? 0 then match match_ c with Some n => Exact n | None => Unsupported end
      else if match_type c =? 2 then Any else Unsupported
    | _ => Unsupported
    end.

Definition value_row (k : string) (v : option Z) : list ValueData :=
  from_option (λ n, [{| key := k; value := f64_to_bits (f64_of_Z n) |}]) [] v.

Definition user_entry (username : string) (q : Quotas) : EntryData :=
  {| entity := [{| e_entity_type := "user"; entity_name := Some username |}];
     values := value_row "producer_byte_rate" (producer_rate q) ++ value_row "consumer_byte_rate" (consumer_rate q) ++
               value_row "request_percentage" (request_percentage q) |}.

Definition reply (code : Z) (msg : option string) (rows : list EntryData) : Response :=
  {| throttle_time_ms := 0; error_code := code; error_message := msg; entries := rows |}.

Section handler.
Context (store : CredState) (authz : Resource → Operation → bool).

Definition describe_answer (enforcer : option QuotaEnforcer) (req : Request) : Response :=
  if negb (authz Resource_cluster DescribeConfigs) then reply 31 (Some "denied") []
  else
    match enforcer with
    | None => reply 0 None []
    | Some e =>
      reply 0 None
        match resolve_user_filter (components req) with
        | Exact username => from_option (λ q, [user_entry username q]) [] (describe_user_quota store e username)
        | Any => (λ p : string * Quotas, user_entry p.1 p.2) <$> map_to_list (list_user_quotas store e)
        | Unsupported => []
        end
    end.

Definition handle_describe_client_quotas (enforcer : option QuotaEnforcer) (version : Z) (body : list byte) : enc :=
  match decode_request version body with
  | Err err => Err err
  | Ok (req, _) => encode_response (describe_answer enforcer req) version
  end.

End handler.
End DescribeQuotas.

(** ** The balance of a bucket *)

(** Every delay fits the field of a response. *)
Lemma charge_range rate tokens elapsed bytes : 0 ≤ (charge rate tokens elapsed bytes).2 ≤ I32_MAX.
Proof.
  unfold charge. set (t := fsub _ _). clearbody t. destruct (fle _ t); [cbn; unfold I32_MAX; lia|]. cbn [snd].
  set (x := fceil _). clearbody x. destruct (fle x (S754_zero false)) eqn:E; [unfold I32_MAX; lia|].
  destruct (fle (f64_of_Z I32_MAX) x); [unfold I32_MAX; lia|].
  destruct x as [s|s| |s m e]; cbn [f64_as_int]; [unfold I32_MAX; lia| |unfold I32_MAX; lia|].
  - destruct s; [discriminate E|unfold I32_MAX; lia].
  - destruct s; [discriminate E|].
    assert (0 ≤ trunc_Z false m e).
    { unfold trunc_Z, cond_Zopp. destruct (Z.leb_spec 0 e); [pose proof (Z.pow_nonneg 2 e); nia|].
      apply Z.div_pos; [lia|]. apply Z.pow_pos_nonneg; lia. }
    unfold I32_MAX, I32_MIN. lia.
Qed.

(** The bucket the code implements, in integers: balances count [2^d]ths of a byte
    and time runs in ticks of [2^d]ths of a second, of [tick d] nanoseconds. *)
Definition tick (d : Z) : Z := 1000000000 / 2 ^ d.
Definition spec_balance (d rate tokens ticks bytes : Z) : Z :=
  if rate =? 0 then tokens else Z.min (rate * 2 ^ d) (tokens + rate * ticks) - bytes * 2 ^ d.

Definition tick_scale (d : Z) : Prop := 0 ≤ d ≤ 9.

Lemma tick_scale_cases d : tick_scale d → d ∈ seqZ 0 10.
Proof. unfold tick_scale. intros. apply elem_of_seqZ. lia. Qed.

Lemma tick_second d : tick_scale d → tick d * 2 ^ d = 1000000000 ∧ 1 ≤ 2 ^ d ≤ 512.
Proof.
  intros H%tick_scale_cases. revert d H. apply Forall_forall. unfold tick.
  repeat (apply Forall_cons; split; [vm_compute; intuition congruence|]). apply Forall_nil. done.
Qed.

Lemma tick_scaling d : tick_scale d → scaling d ∧ scaling (- d).
Proof. unfold tick_scale, scaling. lia. Qed.

Lemma duration_ticks d n : tick_scale d → 0 ≤ n < 2 ^ 53 → duration_secs (n * tick d) = dyadic d n.
Proof.
  intros Hd Hn. destruct (tick_second d Hd) as [Ht Hp]. destruct (tick_scaling d Hd) as [Hs Hs'].
  unfold duration_secs. rewrite <- Ht. assert (0 < tick d) by nia.
  rewrite (Z.mul_comm (tick d)), Z.div_mul_cancel_r, Z.mul_mod_distr_r by lia.
  pose proof (Z.mod_pos_bound n (2 ^ d) ltac:(lia)). pose proof (Z.div_mod n (2 ^ d) ltac:(lia)).
  assert (fdiv (f64_of_Z (n mod 2 ^ d * tick d)) (f64_of_Z (2 ^ d * tick d)) = dyadic d (n mod 2 ^ d)) as ->.
  { rewrite Z.mul_comm with (n := 2 ^ d). destruct (decide (n mod 2 ^ d = 0)) as [->|Hne].
    - rewrite Z.mul_0_l, Ht. reflexivity.
    - rewrite (f64_of_Z_dyadic (tick d * 2 ^ d)). replace 0 with (- d + d) by lia.
      rewrite dyadic_shift, f64_of_Z_dyadic, dyadic_div by (auto using scaling_0; unfold small, scaling, tick_scale in *; nia).
      f_equal. lia. }
  rewrite f64_of_Z_dyadic, <- (dyadic_shift 0 d) by (auto using scaling_0; unfold small, tick_scale in *; nia).
  rewrite Z.add_0_l, dyadic_add by (auto; unfold small; nia). f_equal. lia.
Qed.

Record exact_range (d rate tokens ticks bytes : Z) : Prop := {
  er_rate : 0 ≤ rate;
  er_cap : rate * 2 ^ d < 2 ^ 52;
  er_tokens : - 2 ^ 52 < tokens ≤ rate * 2 ^ d;
  er_ticks : 0 ≤ ticks < 2 ^ 52;
  er_refill : rate * ticks < 2 ^ 52;
  er_bytes : 0 ≤ bytes;
  er_balance : - 2 ^ 43 < spec_balance d rate tokens ticks bytes }.

Definition ceil_div (a b : Z) : Z := - (- a / b).

(** What a delay says of a balance: none when the bucket is not in debt or the
    rate is zero, and the time to earn a debt of [k] ticks, rounded up to
    milliseconds. *)
Definition delay_of (d rate balance throttle : Z) : Prop :=
  (throttle = 0 ↔ rate = 0 ∨ 0 ≤ balance) ∧ 0 ≤ throttle ≤ I32_MAX ∧
  ∀ k, 0 < k → 0 < rate → balance = - (k * rate) → throttle = Z.min (ceil_div (1000 * k) (2 ^ d)) I32_MAX.

Lemma throttle_exact d rate t : tick_scale d → 0 < rate < 2 ^ 52 → - 2 ^ 43 < t < 0 →
  let ms := fceil (fmul (fdiv (fneg (dyadic d t)) (f64_of_Z rate)) (f64_of_Z 1000)) in
  let thr := if fle ms (S754_zero false) then 0
     else if fle (f64_of_Z I32_MAX) ms then I32_MAX
     else f64_as_int I32_MIN I32_MAX ms in
  thr ≠ 0 ∧ ∀ k, 0 < k → t = - (k * rate) → thr = Z.min (ceil_div (1000 * k) (2 ^ d)) I32_MAX.
Proof.
  intros Hd Hr Ht ms. destruct (tick_scaling d Hd) as [Hs _]. subst ms.
  rewrite dyadic_neg by (auto; unfold small; lia). change (S754_zero false) with (f64_of_Z 0). split.
  - assert (Hpos : pos_normal (- 105 - d) (55 - d) (fmul (fdiv (dyadic d (- t)) (f64_of_Z rate)) (f64_of_Z 1000))).
    { assert (pos_normal (- 105 - d) (1 - d) (fdiv (dyadic d (- t)) (f64_of_Z rate))).
      { pose proof (dyadic_pos_normal d (- t) Hs ltac:(lia)) as P1.
        pose proof (dyadic_pos_normal 0 rate scaling_0 ltac:(lia)) as P2.
        pose proof (fdiv_pos _ _ _ _ _ _ P1 P2) as P3. unfold tick_scale in Hd.
        destruct P3 as (m & e & E & L & R); [lia..|]. exists m, e. split_and!; auto; lia. }
      pose proof (dyadic_pos_normal 0 1000 scaling_0 ltac:(lia)) as P2.
      destruct (fmul_pos _ _ _ _ _ _ H P2) as (m & e & E & L & R); [unfold tick_scale in *; lia..|].
      exists m, e. split_and!; auto; lia. }
    destruct (fceil_pos _ _ _ Hpos) as [-> Hi]. destruct (fle _ _); [unfold I32_MAX; lia|].
    specialize (Hi I32_MAX ltac:(unfold I32_MAX; lia)). revert Hi. unfold f64_as_int.
    destruct (fceil _) as [s|[]| |s m e]; unfold I32_MAX, I32_MIN; lia.
  - intros k Hk ->. rewrite Z.opp_involutive. assert (k < 2 ^ 43) by nia.
    rewrite f64_of_Z_dyadic, dyadic_div by (auto using scaling_0; rewrite ?Z.sub_0_r; auto; lia).
    rewrite Z.sub_0_r. rewrite (f64_of_Z_dyadic 1000), dyadic_mul by (auto using scaling_0; rewrite ?Z.add_0_r; auto; lia).
    rewrite Z.add_0_r, fceil_dyadic by (unfold tick_scale in Hd; auto; lia).
    destruct (tick_second d Hd) as [_ Hp]. rewrite Z.mul_comm. fold (ceil_div (1000 * k) (2 ^ d)).
    assert (1 ≤ ceil_div (1000 * k) (2 ^ d) ≤ 1000 * k).
    { unfold ceil_div. pose proof (Z.div_lt_upper_bound (- (1000 * k)) (2 ^ d) 0 ltac:(lia) ltac:(lia)).
      pose proof (Z.div_le_lower_bound (- (1000 * k)) (2 ^ d) (- (1000 * k)) ltac:(lia) ltac:(nia)). lia. }
    rewrite !fle_exact by (unfold small, I32_MAX; lia).
    rewrite (proj2 (Z.leb_gt _ 0)) by lia.
    destruct (Z.leb_spec I32_MAX (ceil_div (1000 * k) (2 ^ d))); [lia|].
    rewrite as_int_exact by (unfold small, I32_MAX, I32_MIN in *; lia). lia.
Qed.

Lemma balance_exact d rate tokens ticks bytes :
  tick_scale d → 0 < rate → exact_range d rate tokens ticks bytes →
  let refilled := fadd (dyadic d tokens) (fmul (f64_of_Z rate) (dyadic d ticks)) in
  fsub (if flt (f64_of_Z rate) refilled then f64_of_Z rate else refilled) (f64_of_Z bytes) =
    dyadic d (spec_balance d rate tokens ticks bytes).
Proof.
  intros Hd Hr [_ Hcap Ht Hs Hrs Hb Hbal]. destruct (tick_scaling d Hd) as [Hsc _].
  destruct (tick_second d Hd) as [_ Hp]. assert (0 ≤ rate * ticks) by nia. assert (rate < 2 ^ 52) by nia.
  assert (∀ z, small z → f64_of_Z z = dyadic d (z * 2 ^ d)) as Hz.
  { intros z Hz. rewrite f64_of_Z_dyadic, <- (dyadic_shift 0 d) by (auto using scaling_0; unfold tick_scale in Hd; lia). done. }
  unfold spec_balance in *. rewrite (proj2 (Z.eqb_neq rate 0)) in * by lia.
  assert (fmul (f64_of_Z rate) (dyadic d ticks) = dyadic d (rate * ticks)) as ->
    by (apply (dyadic_mul 0 d); auto using scaling_0; lia).
  rewrite dyadic_add by (auto; unfold small; lia). rewrite (Hz rate), (Hz bytes) by (unfold small; nia).
  rewrite dyadic_flt by (auto; unfold small; lia).
  replace (if rate * 2 ^ d <? tokens + rate * ticks then _ else _)
    with (dyadic d (Z.min (rate * 2 ^ d) (tokens + rate * ticks)))
    by (destruct (Z.ltb_spec (rate * 2 ^ d) (tokens + rate * ticks)); f_equal; lia).
  apply dyadic_sub; auto; unfold small; lia.
Qed.

Lemma charge_exact d rate tokens ticks bytes :
  tick_scale d → 0 < rate → exact_range d rate tokens ticks bytes →
  let t := spec_balance d rate tokens ticks bytes in
  let r := charge (f64_of_Z rate) (dyadic d tokens) (dyadic d ticks) bytes in
  r.1 = dyadic d t ∧ delay_of d rate t r.2.
Proof.
  intros Hd Hr He t r. destruct (tick_second d Hd) as [_ Hp]. destruct (tick_scaling d Hd) as [Hsc _].
  pose proof (charge_range (f64_of_Z rate) (dyadic d tokens) (dyadic d ticks) bytes) as Hrange. fold r in Hrange.
  pose proof (er_balance _ _ _ _ _ He) as Hbal. pose proof (er_cap _ _ _ _ _ He).
  assert (t ≤ 2 ^ 52).
  { subst t. unfold spec_balance. rewrite (proj2 (Z.eqb_neq rate 0)) by lia. pose proof (er_bytes _ _ _ _ _ He). nia. }
  subst r. unfold charge in *. rewrite (balance_exact d rate tokens ticks bytes) in * by auto. fold t in Hrange, Hbal |- *.
  assert (fle (S754_zero false) (dyadic d t) = (0 <=? t)) as Hle
    by (change (S754_zero false) with (dyadic d 0); apply dyadic_fle; auto; unfold small; lia).
  rewrite Hle in *. destruct (Z.leb_spec 0 t); cbn [fst snd] in *; (split; [reflexivity|]).
  - split_and!; try lia.
  - destruct (throttle_exact d rate t Hd) as [Hne Hk]; [nia|lia|]. split_and!; [split; [done|lia]|lia|lia|].
    intros k ? _ ?. by apply Hk.
Qed.

Definition side_rate (producer : bool) (b : TokenBucket) : f64 := if producer then b_producer_rate b else b_consumer_rate b.
Definition side_tokens (producer : bool) (b : TokenBucket) : f64 :=
  if producer then producer_tokens b else consumer_tokens b.

(** The bucket a check of [u] works on. *)
Definition bucket_of (store : CredState) (now : Z) (e : QuotaEnforcer) (u : string) : TokenBucket :=
  match buckets e !! u with Some b => b | None => new_bucket now (describe_user_quota store e u) end.

(** What a check leaves behind. *)
Record checked (d : Z) (producer : bool) (now balance : Z) (b b' : TokenBucket) : Prop := {
  ck_balance : side_tokens producer b' = dyadic d balance;
  ck_other : side_tokens (negb producer) b' = side_tokens (negb producer) b;
  ck_instant : last_refill b' = now;
  ck_rates : ∀ side, side_rate side b' = side_rate side b }.

Lemma check_bucket_exact d producer now bytes b rate tokens ticks : tick_scale d →
  side_rate producer b = f64_of_Z rate → side_tokens producer b = dyadic d tokens →
  now = last_refill b + ticks * tick d → exact_range d rate tokens ticks bytes →
  let r := check_bucket now bytes producer b in
  checked d producer now (spec_balance d rate tokens ticks bytes) b r.1 ∧
  delay_of d rate (spec_balance d rate tokens ticks bytes) r.2.
Proof.
  intros Hd Hr Ht -> He r. pose proof He as [Hr0 Hcap _ Hs _ _ _]. destruct (tick_second d Hd) as [Htk Hp].
  subst r. unfold check_bucket. fold (side_rate producer b) (side_tokens producer b). rewrite Hr.
  change (S754_zero false) with (f64_of_Z 0). rewrite feq_exact by (unfold small; nia).
  destruct (Z.eqb_spec rate 0) as [->|Hne].
  { unfold spec_balance. cbn. split.
    - destruct producer; split; cbn; try reflexivity; try exact Ht; intros []; reflexivity.
    - split_and!; unfold I32_MAX; lia. }
  rewrite Ht. destruct (charge_exact d rate tokens ticks bytes Hd ltac:(lia) He) as [C1 C2].
  replace (Z.max 0 (last_refill b + ticks * tick d - last_refill b)) with (ticks * tick d) by nia.
  rewrite duration_ticks by (auto; lia).
  destruct (charge _ _ _ _) as [t' thr]. cbn [fst snd] in *. subst t'. split; [|exact C2].
  destruct producer; split; try reflexivity; intros []; reflexivity.
Qed.

Lemma check_spec d store now e u bytes producer rate tokens ticks : tick_scale d →
  let b := bucket_of store now e u in
  side_rate producer b = f64_of_Z rate → side_tokens producer b = dyadic d tokens →
  now = last_refill b + ticks * tick d → exact_range d rate tokens ticks bytes →
  let r := check store now e u bytes producer in
  ∃ b', buckets r.1 = <[u := b']> (buckets e) ∧ overrides r.1 = overrides e ∧
    checked d producer now (spec_balance d rate tokens ticks bytes) b b' ∧
    delay_of d rate (spec_balance d rate tokens ticks bytes) r.2.
Proof.
  intros Hd b Hr Ht Hn He r. pose proof (check_bucket_exact d producer now bytes b _ _ _ Hd Hr Ht Hn He) as [Hc Hdl].
  subst r. unfold check. fold (bucket_of store now e u). fold b.
  destruct (check_bucket now bytes producer b) as [b' thr]. cbn [fst snd] in *. exists b'. auto.
Qed.

(** Requests of one user charged at one instant, whoever sends them. *)
Fixpoint charge_all (store : CredState) (now : Z) (u : string) (producer : bool) (e : QuotaEnforcer) (sizes : list Z) :
    list Z :=
  match sizes with
  | [] => []
  | n :: sizes' => let '(e, thr) := check store now e u n producer in thr :: charge_all store now u producer e sizes'
  end.

Definition sum (l : list Z) : Z := foldr Z.add 0 l.

Lemma charge_all_exact store now u producer rate sizes : 0 < rate < 2 ^ 52 → ∀ e tokens,
  let b := bucket_of store now e u in
  side_rate producer b = f64_of_Z rate → side_tokens producer b = f64_of_Z tokens → last_refill b = now →
  tokens ≤ rate → Forall (λ n, 0 ≤ n) sizes → - 2 ^ 43 < tokens - sum sizes →
  ∀ i n, sizes !! i = Some n → ∃ thr, charge_all store now u producer e sizes !! i = Some thr ∧
    delay_of 0 rate (tokens - sum (take (S i) sizes)) thr.
Proof.
  intros Hrate. assert (tick_scale 0) as H0 by (unfold tick_scale; lia).
  induction sizes as [|s sizes IH]; intros e tokens b Hr Ht Hl Hle Hpos Hsum i n Hi; [done|].
  apply Forall_cons in Hpos as [Hs Hpos]. cbn [sum foldr] in Hsum. fold (sum sizes) in Hsum.
  assert (0 ≤ sum sizes) by (clear -Hpos; induction Hpos; cbn; [lia|]; fold (sum l) in *; lia).
  assert (spec_balance 0 rate tokens 0 s = tokens - s) as Hb.
  { unfold spec_balance. rewrite (proj2 (Z.eqb_neq rate 0)) by lia. lia. }
  destruct (check_spec 0 store now e u s producer rate tokens 0 H0 Hr Ht) as (b' & Hbk & _ & Hc & Hd);
    [subst b; lia|split; rewrite ?Hb; lia|]. subst b. rewrite Hb in Hc, Hd.
  cbn [charge_all]. destruct (check store now e u s producer) as [e' thr]. cbn [fst snd] in Hbk, Hd.
  destruct i as [|i]; cbn [lookup list_lookup] in *.
  - exists thr. split; [reflexivity|]. cbn. rewrite Z.add_0_r. exact Hd.
  - assert (Hb' : bucket_of store now e' u = b') by (unfold bucket_of; rewrite Hbk, lookup_insert_eq; reflexivity).
    destruct (IH e' (tokens - s)) with (i := i) (n := n) as (thr' & E & D); rewrite ?Hb'; try (destruct Hc; auto; fail); try lia.
    + rewrite (ck_rates _ _ _ _ _ _ Hc). exact Hr.
    + exists thr'. split; [exact E|]. cbn [take sum foldr]. fold (sum (take (S i) sizes)).
      replace (tokens - (s + sum (take (S i) sizes))) with (tokens - s - sum (take (S i) sizes)) by lia. exact D.
Qed.

(** The requests of one user share one budget, whichever connection they
    come on: of those charged at one instant, each is answered without delay
    exactly when the bytes up to and including it are within the configured rate,
    and when they exceed it by [k] times the rate the delay is [k] seconds
    (capped at the largest [i32]). *)
Theorem quota_budget_shared store now u (producer : bool) e q rate sizes i n :
  buckets e !! u = None → describe_user_quota store e u = Some q →
  (if producer then producer_rate q else consumer_rate q) = Some rate → 0 < rate < 2 ^ 52 →
  Forall (λ s, 0 ≤ s) sizes → sum sizes < 2 ^ 43 → sizes !! i = Some n →
  ∃ thr, charge_all store now u producer e sizes !! i = Some thr ∧ 0 ≤ thr ≤ I32_MAX ∧
    let used := sum (take (S i) sizes) in
    (thr = 0 ↔ used ≤ rate) ∧ ∀ k, 0 < k → used = (k + 1) * rate → thr = Z.min (1000 * k) I32_MAX.
Proof.
  intros Hb Hq Hrate Hr Hpos Hsum Hi.
  assert (E : bucket_of store now e u = new_bucket now (Some q)) by (unfold bucket_of; rewrite Hb, Hq; reflexivity).
  destruct (charge_all_exact store now u producer rate sizes Hr e rate) with (i := i) (n := n)
    as (thr & A & B & R & K); rewrite ?E; auto; try lia.
  1, 2: destruct producer; cbn; rewrite Hrate; reflexivity.
  exists thr. split; [exact A|]. split; [exact R|]. cbv zeta. split; [lia|].
  intros k Hk Hu. rewrite (K k) by lia. f_equal. unfold ceil_div. rewrite Z.div_1_r. lia.
Qed.

Lemma quota_budget_shared_witness :
  ∃ thr, charge_all CredState_empty 0 "u" true
    {| buckets := ∅; overrides := {["u" := {| producer_rate := Some 1000; consumer_rate := None; request_percentage := None |}]} |}
    [1000; 1000; 1000] !! 2%nat = Some thr ∧ 0 ≤ thr ≤ I32_MAX ∧
    let used := sum (take 3 [1000; 1000; 1000]) in
    (thr = 0 ↔ used ≤ 1000) ∧ ∀ k, 0 < k → used = (k + 1) * 1000 → thr = Z.min (1000 * k) I32_MAX.
Proof.
  apply (quota_budget_shared CredState_empty 0 "u" true _
    {| producer_rate := Some 1000; consumer_rate := None; request_percentage := None |} 1000 [1000; 1000; 1000] 2 1000);
    try reflexivity; [lia|]. repeat constructor; lia.
Defined.

(** C37. A check refines an integer token bucket.  Count balances in [2^d]ths of a
    byte and time in [2^d]ths of a second, for any [d] up to 9 (a 512th of a second
    is the finest such unit that is a whole number of nanoseconds), and let rate,
    balance and refill stay within the exact range of doubles.  Then with a rate the
    new balance is the old one plus the rate times the elapsed time, capped at one
    second's worth, less the bytes of the request, negative balances included;
    without a rate it is the old one.  The delay is zero exactly when there is no
    rate or the balance is not negative, and the time that earns the debt, rounded
    up to a millisecond, when that is a whole number of units.  The refill instant,
    which both directions share, moves to now; the balance of the other direction,
    the rates, the overrides and every other user's bucket stay as they were. *)
Theorem quota_refines_bucket d store now e u bytes producer rate tokens ticks e' throttle :
  let b := bucket_of store now e u in
  0 ≤ d ≤ 9 → side_rate producer b = f64_of_Z rate → side_tokens producer b = dyadic d tokens →
  now = last_refill b + ticks * tick d → exact_range d rate tokens ticks bytes →
  check store now e u bytes producer = (e', throttle) →
  (∃ b', buckets e' = <[u := b']> (buckets e) ∧ checked d producer now (spec_balance d rate tokens ticks bytes) b b') ∧
  overrides e' = overrides e ∧ delay_of d rate (spec_balance d rate tokens ticks bytes) throttle.
Proof.
  intros b Hd Hr Ht Hn He Hc. destruct (check_spec d store now e u bytes producer rate tokens ticks Hd Hr Ht Hn He)
    as (b' & A & B & C & D). rewrite Hc in *. eauto.
Qed.

Definition demo_bucket : TokenBucket :=
  {| producer_tokens := f64_of_Z (- 500); consumer_tokens := f64_of_Z 200; last_refill := 7;
     b_producer_rate := f64_of_Z 1000; b_consumer_rate := f64_of_Z 200 |}.
Definition demo_enforcer : QuotaEnforcer := {| buckets := {["u" := demo_bucket]}; overrides := ∅ |}.

(** Three eighths of a second after a debt of 500 bytes, at 1000 bytes a second, a
    request of 250 bytes leaves a debt of 375 and waits 375 ms. *)
Lemma quota_refines_bucket_witness :
  let r := check CredState_empty 375000007 demo_enforcer "u" 250 true in
  ((∃ b', buckets r.1 = <["u" := b']> (buckets demo_enforcer) ∧
     checked 3 true 375000007 (- 3000) (bucket_of CredState_empty 375000007 demo_enforcer "u") b') ∧
   overrides r.1 = overrides demo_enforcer ∧ delay_of 3 1000 (- 3000) r.2) ∧ r.2 = 375.
Proof.
  intros r. split; [|vm_compute; reflexivity].
  apply (quota_refines_bucket 3 CredState_empty 375000007 demo_enforcer "u" 250 true 1000 (- 4000) 3 r.1 r.2);
    try reflexivity; try apply surjective_pairing; [lia|].
  split; vm_compute; intuition congruence.
Defined.

(** The two directions share one refill instant: a check of either moves it, so
    the other loses what it had accrued. *)
Theorem produce_discards_fetch_refill d store e u b rp tp rc tc n1 n2 sent fetched :
  0 ≤ d ≤ 9 → buckets e !! u = Some b →
  b_producer_rate b = f64_of_Z rp → producer_tokens b = dyadic d tp →
  b_consumer_rate b = f64_of_Z rc → consumer_tokens b = dyadic d tc →
  exact_range d rp tp n1 sent → exact_range d rc tc n2 fetched →
  let t1 := last_refill b + n1 * tick d in
  let t2 := t1 + n2 * tick d in
  let e1 := (check_produce_quota store t1 e u sent).1 in
  ∃ b2, buckets (check_fetch_quota store t2 e1 u fetched).1 !! u = Some b2 ∧
    consumer_tokens b2 = dyadic d (spec_balance d rc tc n2 fetched).
Proof.
  intros Hd Hb Hrp Htp Hrc Htc He1 He2 t1 t2 e1.
  assert (B0 : bucket_of store t1 e u = b) by (unfold bucket_of; rewrite Hb; reflexivity).
  destruct (check_spec d store t1 e u sent true rp tp n1) as (b1 & E1 & _ & C1 & _); rewrite ?B0; auto.
  rewrite B0 in C1. destruct C1 as [_ Ko Ki Kr].
  assert (B1 : bucket_of store t2 e1 u = b1)
    by (unfold bucket_of, e1, check_produce_quota; rewrite E1, lookup_insert_eq; reflexivity).
  destruct (check_spec d store t2 e1 u fetched false rc tc n2) as (b2 & E2 & _ & C2 & _); rewrite ?B1; auto.
  - rewrite Kr. exact Hrc.
  - cbn in Ko. cbn. rewrite Ko. exact Htc.
  - subst t2. rewrite Ki. reflexivity.
  - exists b2. unfold check_fetch_quota. rewrite E2, lookup_insert_eq. split; [reflexivity|].
    apply (ck_balance _ _ _ _ _ _ C2).
Qed.

(** Half a second of fetch refill is lost to a produce of no bytes: the fetch
    that comes a second after the debt arose is still delayed. *)
Definition interleaved_demo : Z * Z :=
  let q := {| producer_rate := Some 1000; consumer_rate := Some 1000; request_percentage := None |} in
  let e := {| buckets := ∅; overrides := {["u" := q]} |} in
  let e1 := (check_fetch_quota CredState_empty 0 e "u" 2000).1 in
  let alone := (check_fetch_quota CredState_empty 1000000000 e1 "u" 0).2 in
  let e2 := (check_produce_quota CredState_empty 500000000 e1 "u" 0).1 in
  (alone, (check_fetch_quota CredState_empty 1000000000 e2 "u" 0).2).
Lemma produce_delays_fetch : interleaved_demo = (0, 500).
Proof. vm_compute. reflexivity. Qed.

(** A negative rate, which AlterClientQuotas accepts, is no limit at all. *)
Definition negative_demo : QuotaEnforcer :=
  {| buckets := ∅;
     overrides := {["u" := {| producer_rate := Some (- 1); consumer_rate := None; request_percentage := None |}]} |}.
Lemma negative_rate_unlimited : (check_produce_quota CredState_empty 0 negative_demo "u" 1000000).2 = 0.
Proof. vm_compute. reflexivity. Qed.

(** A bucket keeps the rates it was created with when the credentials file
    changes: only AlterClientQuotas updates a live bucket. *)
Lemma reload_ignored_by_bucket store store' now e u bytes producer :
  is_Some (buckets e !! u) → check store now e u bytes producer = check store' now e u bytes producer.
Proof. intros [b Hb]. unfold check. rewrite Hb. reflexivity. Qed.

(** ** What AlterClientQuotas sets, DescribeClientQuotas shows *)

Inductive QuotaKey := ProducerByteRate | ConsumerByteRate | RequestPercentage.
Definition key_name (k : QuotaKey) : string :=
  match k with
  | ProducerByteRate => "producer_byte_rate"
  | ConsumerByteRate => "consumer_byte_rate"
  | RequestPercentage => "request_percentage"
  end.

(** A change sets a key to an integer or removes it. *)
Definition change_ok (c : QuotaKey * option Z) : Prop :=
  ∀ n, c.2 = Some n → small n ∧ (c.1 = RequestPercentage → I32_MIN ≤ n ≤ I32_MAX).
Definition change_op (c : QuotaKey * option Z) : AlterClientQuotas.OpData :=
  {| AlterClientQuotas.key := key_name c.1; AlterClientQuotas.value := (λ n, f64_to_bits (f64_of_Z n)) <$> c.2 |}.
Definition merge1 (q : Quotas) (c : QuotaKey * option Z) : Quotas :=
  match c.1 with
  | ProducerByteRate => {| producer_rate := c.2; consumer_rate := consumer_rate q; request_percentage := request_percentage q |}
  | ConsumerByteRate => {| producer_rate := producer_rate q; consumer_rate := c.2; request_percentage := request_percentage q |}
  | RequestPercentage => {| producer_rate := producer_rate q; consumer_rate := consumer_rate q; request_percentage := c.2 |}
  end.

Lemma bits_of_small n : small n → f64_of_bits (f64_to_bits (f64_of_Z n)) = f64_of_Z n.
Proof. intros [Hv Hn]%f64_of_Z_valid. by apply f64_bits_roundtrip. Qed.

Lemma to_i64_small n : small n → AlterQuotas.f64_to_i64 (f64_of_Z n) = n.
Proof.
  intros Hn. unfold AlterQuotas.f64_to_i64. rewrite (proj2 (f64_of_Z_valid n Hn)).
  replace (fle AlterQuotas.i64_max_f64 (f64_of_Z n)) with false.
  2: { destruct (decide (n = 0)) as [->|Hz]; [reflexivity|].
       destruct (norm_shape n) as (m & e & -> & _ & _ & He); auto.
       change AlterQuotas.i64_max_f64 with (S754_finite false 4503599627370496 11). unfold fle, SFleb, SFcompare. destruct (n <? 0); [reflexivity|].
       replace (11 ?= e) with Gt; [reflexivity|]. symmetry. apply Z.compare_gt_iff. lia. }
  replace (fle (f64_of_Z n) AlterQuotas.i64_min_f64) with false.
  2: { destruct (decide (n = 0)) as [->|Hz]; [reflexivity|].
       destruct (norm_shape n) as (m & e & -> & _ & _ & He); auto.
       change AlterQuotas.i64_min_f64 with (S754_finite true 4503599627370496 11). unfold fle, SFleb, SFcompare. destruct (n <? 0); [|reflexivity].
       replace (e ?= 11) with Lt; [reflexivity|]. symmetry. apply Z.compare_lt_iff. lia. }
  rewrite ftrunc_exact, as_int_exact; auto. unfold small, I64_MIN, I64_MAX in *. lia.
Qed.

Lemma to_i32_small n : small n → I32_MIN ≤ n ≤ I32_MAX → AlterQuotas.f64_to_i32 (f64_of_Z n) = n.
Proof.
  intros Hn Hr. unfold AlterQuotas.f64_to_i32. rewrite (proj2 (f64_of_Z_valid n Hn)).
  rewrite !fle_exact by (auto; unfold small, I32_MIN, I32_MAX; lia).
  destruct (Z.leb_spec I32_MAX n); [lia|]. destruct (Z.leb_spec n I32_MIN); [lia|].
  rewrite ftrunc_exact, as_int_exact; auto.
Qed.

Lemma apply_op_change q c : change_ok c → AlterQuotas.apply_op q (change_op c) = Some (merge1 q c).
Proof.
  destruct c as [k [n|]]; intros Hc.
  - destruct (Hc n eq_refl) as [Hn Hp]. cbn [fst snd] in *. destruct k; unfold AlterQuotas.apply_op, merge1, change_op;
      cbn [AlterClientQuotas.key AlterClientQuotas.value key_name fst snd fmap option_fmap option_map];
      rewrite bits_of_small by auto; cbn [decide].
    + rewrite to_i64_small by auto. reflexivity.
    + rewrite to_i64_small by auto. reflexivity.
    + rewrite to_i32_small by auto. reflexivity.
  - destruct k; reflexivity.
Qed.

Lemma apply_ops_changes cs q : Forall change_ok cs →
  AlterQuotas.apply_ops q (change_op <$> cs) = Ok (foldl merge1 q cs).
Proof.
  revert q. induction cs as [|c cs IH]; intros q Hc; [reflexivity|].
  apply Forall_cons in Hc as [Hc Hcs]. cbn [AlterQuotas.apply_ops fmap list_fmap foldl].
  rewrite apply_op_change by auto. by apply IH.
Qed.

(** The requests: the changes of one user, and the question about it. *)
Definition user_axis (u : string) : AlterClientQuotas.EntityData :=
  {| AlterClientQuotas.entity_type := "user"; AlterClientQuotas.entity_name := Some u |}.
Definition alter_one (u : string) (cs : list (QuotaKey * option Z)) : AlterClientQuotas.Request :=
  {| AlterClientQuotas.entries := [{| AlterClientQuotas.entity := [user_axis u]; AlterClientQuotas.ops := change_op <$> cs |}];
     AlterClientQuotas.validate_only := false |}.
Definition describe_one (u : string) : DescribeClientQuotas.Request :=
  {| DescribeClientQuotas.components :=
       [{| DescribeClientQuotas.entity_type := "user"; DescribeClientQuotas.match_type := 0; DescribeClientQuotas.match_ := Some u |}];
     DescribeClientQuotas.strict := false |}.

(** The quotas in force after the changes: an empty result clears the override. *)
Definition quotas_after (store : CredState) (e : QuotaEnforcer) (u : string) (cs : list (QuotaKey * option Z)) : option Quotas :=
  let merged := foldl merge1 (default AlterQuotas.Quotas_default (describe_user_quota store e u)) cs in
  if AlterQuotas.quotas_is_empty merged then lookup_quotas store u else Some merged.

Lemma alter_one_ok version u cs :
  Forall change_ok cs → wire_str u → wire_len cs → AlterClientQuotas.request_ok version (alter_one u cs).
Proof.
  intros Hc Hu Hl. split; [vm_compute; done|]. apply Forall_singleton. split_and!.
  - vm_compute. done.
  - apply Forall_singleton. split; [vm_compute; done|]. intros s [= <-]. exact Hu.
  - unfold wire_len in *. cbn. rewrite length_fmap. exact Hl.
  - cbn. apply Forall_fmap. eapply Forall_impl; [exact Hc|]. intros [k [n|]] Hk; (split; [destruct k; vm_compute; done|]).
    + apply f64_to_bits_u64. by apply f64_of_Z_valid, (Hk n).
    + vm_compute. done.
Qed.

Lemma describe_one_ok version u : wire_str u → DescribeClientQuotas.request_ok version (describe_one u).
Proof.
  intros Hu. split; [vm_compute; done|]. apply Forall_singleton. split_and!; try (vm_compute; done).
  intros s [= <-]. exact Hu.
Qed.

Lemma set_then_describe store e u q v :
  describe_user_quota store (set_user_quota store e u q) v =
  if decide (v = u) then match q with Some q => Some q | None => lookup_quotas store u end else describe_user_quota store e v.
Proof.
  unfold describe_user_quota, set_user_quota. cbn [overrides]. destruct q as [q|]; case_decide as Hd.
  - subst. rewrite lookup_insert_eq. reflexivity.
  - rewrite lookup_insert_ne by done. reflexivity.
  - subst. rewrite lookup_delete_eq. reflexivity.
  - rewrite lookup_delete_ne by done. reflexivity.
Qed.

(** Quotas a client sets or removes over the wire, as integers a double holds
    exactly, are what DescribeClientQuotas answers next and what the live bucket
    charges at from then on, its balances kept; keys not named keep their values;
    when none is left the credentials file's values are back in force; no other
    user is affected. *)
Theorem altered_quotas_described store authz e u cs version body dbody :
  authz Resource_cluster AlterConfigs = true → authz Resource_cluster DescribeConfigs = true →
  Forall change_ok cs → wire_str u → wire_len cs →
  AlterClientQuotas.encode_request (alter_one u cs) version = Ok body →
  DescribeClientQuotas.encode_request (describe_one u) version = Ok dbody →
  ∃ e', AlterQuotas.handle_alter_client_quotas store authz (Some e) version body =
      (Some e', AlterClientQuotas.encode_response
         {| AlterClientQuotas.throttle_time_ms := 0;
            AlterClientQuotas.r_entries := [{| AlterClientQuotas.error_code := 0; AlterClientQuotas.error_message := None;
                                               AlterClientQuotas.r_entity := [user_axis u] |}] |} version) ∧
    DescribeQuotas.handle_describe_client_quotas store authz (Some e') version dbody =
      DescribeClientQuotas.encode_response
        (DescribeQuotas.reply 0 None
           (from_option (λ q, [DescribeQuotas.user_entry u q]) [] (quotas_after store e u cs))) version ∧
    buckets e' = alter (λ b, apply_quotas b (quotas_after store e u cs)) u (buckets e) ∧
    ∀ v, v ≠ u → describe_user_quota store e' v = describe_user_quota store e v.
Proof.
  intros Ha Hd Hc Hu Hl Hb Hdb.
  pose proof (msg_decode version (alter_one u cs) body (alter_one_ok version u cs Hc Hu Hl) Hb) as Ed.
  pose proof (msg_decode version (describe_one u) dbody (describe_one_ok version u Hu) Hdb) as Edd.
  change decode with AlterClientQuotas.decode_request in Ed. change decode with DescribeClientQuotas.decode_request in Edd.
  unfold AlterQuotas.handle_alter_client_quotas, DescribeQuotas.handle_describe_client_quotas. rewrite Ed, Edd.
  cbn [alter_one AlterClientQuotas.entries AlterClientQuotas.validate_only AlterQuotas.alter_entries].
  unfold AlterQuotas.alter_entry. rewrite Ha. cbn [negb AlterClientQuotas.entity AlterClientQuotas.ops].
  change (AlterQuotas.exact_user [user_axis u]) with (Some u). cbv iota beta.
  rewrite apply_ops_changes by exact Hc. eexists. split; [reflexivity|].
  unfold DescribeQuotas.describe_answer. rewrite Hd. cbn [negb].
  change (DescribeQuotas.resolve_user_filter (DescribeClientQuotas.components (describe_one u))) with (DescribeQuotas.Exact u).
  cbv iota. rewrite set_then_describe, decide_True by reflexivity. unfold quotas_after.
  split_and!.
  - destruct (AlterQuotas.quotas_is_empty _); reflexivity.
  - destruct (AlterQuotas.quotas_is_empty _); reflexivity.
  - intros v Hv. rewrite set_then_describe, decide_False by exact Hv. reflexivity.
Qed.

Definition demo_store : CredState :=
  {| by_username := {["u" := {| auth_type := "scram-sha-512"; lc_scram := None; lc_tls_cn := None; lc_sa_namespace := "";
       lc_sa_name := ""; lc_plain_password := None;
       lc_quotas := Some {| producer_rate := Some 5000; consumer_rate := None; request_percentage := None |} |}]};
     by_cn := ∅; by_sa := ∅ |}.
Definition demo_changes : list (QuotaKey * option Z) := [(ProducerByteRate, None); (ConsumerByteRate, Some 1048576)].

Lemma altered_quotas_described_witness :
  ∃ body dbody, AlterClientQuotas.encode_request (alter_one "u" demo_changes) 1 = Ok body ∧
    DescribeClientQuotas.encode_request (describe_one "u") 1 = Ok dbody ∧
    ∃ e', (AlterQuotas.handle_alter_client_quotas demo_store (λ _ _, true) (Some demo_enforcer) 1 body).1 = Some e' ∧
      DescribeQuotas.handle_describe_client_quotas demo_store (λ _ _, true) (Some e') 1 dbody =
      DescribeClientQuotas.encode_response
        (DescribeQuotas.reply 0 None
           [DescribeQuotas.user_entry "u" {| producer_rate := None; consumer_rate := Some 1048576; request_percentage := None |}]) 1.
Proof.
  do 2 eexists. split; [vm_compute; reflexivity|]. split; [vm_compute; reflexivity|].
  edestruct (altered_quotas_described demo_store (λ _ _, true) demo_enforcer "u" demo_changes 1) as (e' & H1 & H2 & _);
    [reflexivity|reflexivity| |vm_compute; done|vm_compute; done|vm_compute; reflexivity|vm_compute; reflexivity|].
  - apply Forall_forall. intros c Hc n Hn. unfold demo_changes in Hc. set_unfold in Hc. destruct Hc as [->|[->|[]]]; [done|].
    injection Hn as <-. split; [unfold small; lia|done].
  - exists e'. split; [rewrite H1; reflexivity|]. etransitivity; [exact H2|]. vm_compute. reflexivity.
Defined.

(** A removal cannot take away what the credentials file grants: it is answered
    with success and the value stays. *)
Lemma removed_store_quota_stays :
  quotas_after demo_store QuotaEnforcer_new "u" [(ProducerByteRate, None)] = lookup_quotas demo_store "u" ∧
  lookup_quotas demo_store "u" = Some {| producer_rate := Some 5000; consumer_rate := None; request_percentage := None |}.
Proof. split; vm_compute; reflexivity. Qed.

(** Whatever the numbers, also infinities and NaN, the delay a check answers fits
    the field of the response. *)
Theorem quota_delay_bounds store now e u bytes producer : 0 ≤ (check store now e u bytes producer).2 ≤ I32_MAX.
Proof.
  unfold check, check_bucket. set (b := match buckets e !! u with Some _ => _ | None => _ end). clearbody b.
  destruct (feq _ _); [cbn; unfold I32_MAX; lia|].
  match goal with |- context [charge ?r ?t ?x bytes] => pose proof (charge_range r t x bytes) end.
  destruct (charge _ _ _ _). cbn in *. assumption.
Qed.

Lemma produce_charged_wire store instant q username env max authz now b v topic i acks timeout batch pv body :
  wire_str topic → i32_ok i → i16_ok acks → i32_ok timeout → wire_len batch →
  Produce.request_wire (one_produce topic i acks timeout batch) pv = Ok body →
  produce_charged store instant q username env max authz now b v pv body =
    let '(q', throttle) := check_produce_quota store instant q username (Z.of_nat (length batch)) in
    (q', ProduceHandler.handle env max authz now throttle b v pv body).
Proof.
  intros Ht Hi Ha Hto Hb He. unfold produce_charged.
  rewrite (one_produce_decodes pv topic i acks timeout batch body) by assumption.
  change (produce_bytes (one_produce topic i acks timeout batch)) with (Z.of_nat (length batch) + 0).
  rewrite Z.add_0_r. reflexivity.
Qed.

(** A quota never refuses a produce: whatever the balance, the batch goes through
    the same append as without quotas, and only the delay in the response says
    that the user is over its rate. *)
Theorem over_quota_produce_served store instant q username env max authz now b v topic i acks timeout batch pv body :
  wire_str topic → i32_ok i → i16_ok acks → i32_ok timeout → wire_len batch →
  Produce.request_wire (one_produce topic i acks timeout batch) pv = Ok body →
  let '(b', v', r) := ProduceHandler.append_one env max authz now b v topic
                        {| Produce.index := i; Produce.records := Some batch |} acks in
  (produce_charged store instant q username env max authz now b v pv body).2 =
    (b', v', Produce.encode_response
       (one_produced topic (check_produce_quota store instant q username (Z.of_nat (length batch))).2 r) pv).
Proof.
  intros Ht Hi Ha Hto Hb He.
  rewrite (produce_charged_wire store instant q username env max authz now b v topic i acks timeout batch) by assumption.
  destruct (check_produce_quota _ _ _ _ _) as [q' thr]. cbn [snd].
  rewrite (produce_one_wire env max authz now thr b v topic i acks timeout batch) by assumption.
  destruct (ProduceHandler.append_one _ _ _ _ _ _ _ _ _) as [[??]?]. reflexivity.
Qed.
