(* ===== verification/MemoryEngine.v ===== *)
(** * The in-memory engine, and what every engine promises

    [kaas-storage/src/memory.rs], the engine of the development mode and of the
    unit tests: batches of a partition in a vector, no files, no epochs.  The
    class [LogEngine] states what the handlers rely on in an engine
    ([kaas-storage/src/engine.rs], trait [StorageEngine], the operations on the
    log): its state represents a list of batches between two offsets, and append,
    read and delete do to it what they do to that list.  The in-memory partition
    and the partition on disk ([Partition]) are its instances; any program of
    operations then gets the same answers from both. *)

From stdpp Require Import base gmap strings list.
From Stdlib Require Import Strings.Byte.
From S2P Require Import Prelude Idempotence TxnIndex Segment ControlBatch Partition Engine DataPlane.

Local Open Scope Z_scope.

(** ** [memory.rs] *)

Definition MEMORY_DATA_DIR : string := "memory://".

Record MemoryBatch := { mb_base_offset : Z; mb_last_offset_delta : Z; mb_raw : list byte }.
Record MemoryPartition := { mp_batches : list MemoryBatch; mp_high_water : Z; mp_log_start : Z }.
Definition MemoryPartition_default : MemoryPartition := {| mp_batches := []; mp_high_water := 0; mp_log_start := 0 |}.

Definition mb_last (b : MemoryBatch) : Z := wrap_s 64 (mb_base_offset b + mb_last_offset_delta b).

(** One partition, under its mutex. *)
Definition mp_append (batch : list byte) (m : MemoryPartition) : MemoryPartition * result StorageError Z :=
  match batch with
  | [] => (m, Ok (mp_high_water m))
  | _ =>
    if (length batch <? 27)%nat then (m, Err (IoErr InvalidData))
    else
      let assigned := mp_high_water m in
      let owned := rewrite_base batch assigned in
      let last_offset_delta := sbe (slice 23 4 owned) in
      ({| mp_batches := mp_batches m ++
            [{| mb_base_offset := assigned; mb_last_offset_delta := last_offset_delta; mb_raw := owned |}];
          mp_high_water := wrap_s 64 (assigned + last_offset_delta + 1); mp_log_start := mp_log_start m |}, Ok assigned)
  end.

Fixpoint mp_read_loop (start log_start : Z) (max_bytes : nat) (out : list byte) (bs : list MemoryBatch) : list byte :=
  match bs with
  | [] => out
  | b :: bs' =>
    if mb_last b <? start then mp_read_loop start log_start max_bytes out bs'
    else if mb_last b <? log_start then mp_read_loop start log_start max_bytes out bs'
    else
      let out := out ++ mb_raw b in
      if (max_bytes <=? length out)%nat then out else mp_read_loop start log_start max_bytes out bs'
  end.
Definition mp_read (m : MemoryPartition) (start_offset : Z) (max_bytes : nat) : list byte :=
  mp_read_loop start_offset (mp_log_start m) max_bytes [] (mp_batches m).

Definition mp_delete_records (m : MemoryPartition) (target_offset : Z) : MemoryPartition * result StorageError Z :=
  let put new_start :=
    let s := if mp_log_start m <? new_start then new_start else mp_log_start m in
    ({| mp_batches := mp_batches m; mp_high_water := mp_high_water m; mp_log_start := s |}, Ok s) in
  if target_offset <? 0 then put (mp_high_water m)
  else if mp_high_water m <? target_offset then (m, Err OffsetOutOfRange)
  else put target_offset.

(** The engine: partitions by topic and index. *)
Notation MemoryStorage := (gmap (string * Z) MemoryPartition).

Definition ensure (s : MemoryStorage) (k : Key) : MemoryStorage :=
  match s !! k with Some _ => s | None => <[k := MemoryPartition_default]> s end.

Definition mem_high_watermark (s : MemoryStorage) (k : Key) : Z := from_option mp_high_water 0 (s !! k).
Definition mem_log_start_offset (s : MemoryStorage) (k : Key) : Z := from_option mp_log_start 0 (s !! k).

Definition mem_append (s : MemoryStorage) (k : Key) (batch : list byte) : MemoryStorage * result StorageError Z :=
  match batch with
  | [] => (s, Ok (mem_high_watermark s k))
  | _ =>
    if (length batch <? 27)%nat then (s, Err (IoErr InvalidData))
    else
      let s := ensure s k in
      match s !! k with
      | None => (s, Err UnknownTopicOrPartition)
      | Some m => let '(m, r) := mp_append batch m in (<[k := m]> s, r)
      end
  end.
Definition mem_read (s : MemoryStorage) (k : Key) (start_offset : Z) (max_bytes : nat) : list byte :=
  match s !! k with None => [] | Some m => mp_read m start_offset max_bytes end.
Definition mem_offset_for_timestamp (s : MemoryStorage) (k : Key) (timestamp_ms : Z) : Z * Z := (-1, -1).
Definition mem_offset_for_leader_epoch (s : MemoryStorage) (k : Key) (leader_epoch : Z) : Z * Z := (-1, -1).
Definition mem_delete_records (s : MemoryStorage) (k : Key) (target : Z) : MemoryStorage * result StorageError Z :=
  let s := ensure s k in
  match s !! k with
  | None => (s, Err UnknownTopicOrPartition)
  | Some m => let '(m, r) := mp_delete_records m target in (<[k := m]> s, r)
  end.
Definition mem_create_partition (s : MemoryStorage) (k : Key) : MemoryStorage := ensure s k.
Definition mem_delete_partition (s : MemoryStorage) (k : Key) : MemoryStorage := delete k s.
Definition mem_abandon_topic (s : MemoryStorage) (topic : string) : MemoryStorage * nat :=
  let keys := filter (λ k : Key, k.1 = topic) (map_to_list s).*1 in
  (foldl (λ s k, delete k s) s keys, length keys).
Definition mem_take_over (s : MemoryStorage) (k : Key) (epoch : Z) : MemoryStorage * Z :=
  let s := ensure s k in (s, mem_high_watermark s k).
Definition mem_open_partition_keys (s : MemoryStorage) : list Key := (map_to_list s).*1.

(** The defaults of the trait an engine without files keeps. *)
Definition mem_log_dirs : list LogDirInfo :=
  [{| ld_name := DEFAULT_LOG_DIR_NAME; ld_path := MEMORY_DATA_DIR; default_eligible := true; cordoned := false;
      labels := ∅ |}].
Definition mem_last_stable_offset (s : MemoryStorage) (k : Key) : Z := mem_high_watermark s k.

(** ** What an engine promises of a log *)

(** A log: its batches, where it starts and ends, and a bound on its bytes. *)
Record ALog := { al_batches : list (list byte); al_start : Z; al_end : Z; al_bytes : Z }.

(** Batches the producer handler lets through, of producers without an id, in a
    log of fewer than [2^31] offsets and bytes. *)
Definition plain_batch (b : list byte) : Prop :=
  valid_batch b ∧ ∀ info, prod_info b = Some info → producer_id info < 0.
Definition fits (a : ALog) (b : list byte) : Prop :=
  al_end a + delta_of b < 2147483647 ∧ al_bytes a + Z.of_nat (length b) < 2147483647.

Definition al_append (a : ALog) (b : list byte) : ALog :=
  {| al_batches := al_batches a ++ [rewrite_base b (al_end a)]; al_start := al_start a;
     al_end := al_end a + delta_of b + 1; al_bytes := al_bytes a + Z.of_nat (length b) |}.
Definition al_read (a : ALog) (start : Z) (max : nat) : list byte :=
  take max (fill max [] (wanted (Z.max start (al_start a)) (al_batches a))).
Definition delete_start (a : ALog) (t : Z) : Z := Z.max (al_start a) (if t <? 0 then al_end a else t).
Definition al_delete (a : ALog) (t : Z) : ALog :=
  {| al_batches := wanted (delete_start a t) (al_batches a); al_start := delete_start a t; al_end := al_end a;
     al_bytes := al_bytes a |}.

Class LogEngine (S : Type) := {
  le_append : list byte → S → S * result StorageError Z;
  le_read : S → Z → nat → list byte;
  le_delete : S → Z → S * result StorageError Z;
  le_high_water : S → Z;
  le_log_start : S → Z;
  le_models : S → ALog → Prop;
  le_append_ok s a b : le_models s a → plain_batch b → fits a b →
    ∃ s', le_append b s = (s', Ok (al_end a)) ∧ le_models s' (al_append a b);
  le_read_ok s a start max : le_models s a → start ≤ i64_max → take max (le_read s start max) = al_read a start max;
  le_delete_ok s a t : le_models s a → t ≤ al_end a →
    ∃ s', le_delete s t = (s', Ok (delete_start a t)) ∧ le_models s' (al_delete a t);
  le_delete_refused s a t : le_models s a → al_end a < t → le_delete s t = (s, Err OffsetOutOfRange);
  le_ends s a : le_models s a → le_high_water s = al_end a ∧ le_log_start s = al_start a }.

(** *** Shared facts *)

Lemma wanted_wanted s1 s2 l : s1 ≤ s2 → wanted s2 (wanted s1 l) = wanted s2 l.
Proof.
  intros H. unfold wanted. rewrite list_filter_filter. apply list_filter_iff. intros b. lia.
Qed.

Lemma wanted_snoc_last s l b : s ≤ last_off b → wanted s (l ++ [b]) = wanted s l ++ [b].
Proof. intros H. rewrite wanted_app. f_equal. unfold wanted. rewrite filter_cons_True by exact H. reflexivity. Qed.

Lemma wanted_below s l : Forall (λ b, s ≤ last_off b) l → wanted s l = l.
Proof. intros H. unfold wanted. induction H; [done|]. rewrite filter_cons_True by assumption. by f_equal. Qed.

(** ** The in-memory partition *)

Definition mb_ok (b : MemoryBatch) : Prop := mb_last b = last_off (mb_raw b).

Definition mp_models (m : MemoryPartition) (a : ALog) : Prop :=
  mp_high_water m = al_end a ∧ mp_log_start m = al_start a ∧ 0 ≤ al_start a ≤ al_end a ∧ 0 ≤ al_bytes a ∧
  Forall mb_ok (mp_batches m) ∧ al_batches a = wanted (al_start a) (mb_raw <$> mp_batches m).

Lemma mp_read_fill st ls max bs out : Forall mb_ok bs → (length out < max)%nat →
  mp_read_loop st ls max out bs = fill max out (wanted (Z.max st ls) (mb_raw <$> bs)).
Proof.
  intros Hb. revert out. induction Hb as [|b bs Hb Hbs IH]; intros out Ho; [done|].
  cbn [mp_read_loop fmap list_fmap]. fold (mb_raw <$> bs). rewrite Hb. unfold wanted.
  destruct (Z.ltb_spec (last_off (mb_raw b)) st).
  { rewrite filter_cons_False by lia. by apply IH. }
  destruct (Z.ltb_spec (last_off (mb_raw b)) ls).
  { rewrite filter_cons_False by lia. by apply IH. }
  rewrite filter_cons_True by lia. fold (wanted (Z.max st ls) (mb_raw <$> bs)). cbn [fill].
  rewrite (proj2 (Nat.ltb_lt _ _)) by exact Ho.
  destruct (Nat.leb_spec max (length (out ++ mb_raw b))) as [Hm|Hm]; [by rewrite fill_full|]. by apply IH.
Qed.

Lemma mp_append_ok m a b : mp_models m a → plain_batch b → fits a b →
  ∃ m', mp_append b m = (m', Ok (al_end a)) ∧ mp_models m' (al_append a b).
Proof.
  intros (Hh & Hs & Hr & Hn & Hf & Hb) [Hv _] [Hfit _]. pose proof Hv as (Hlen & _ & Hd). fold (delta_of b) in Hd.
  destruct (rewrite_base_offsets b (al_end a) Hv) as (_ & Hfo & Hlo); [lia|unfold i64_max; lia|].
  unfold mp_append. destruct b as [|x b']; [cbn in Hlen; lia|]. set (b := x :: b') in *.
  destruct (Nat.ltb_spec (length b) 27); [lia|].
  rewrite Hh, slice_rewrite_base by lia. fold (delta_of b).
  eexists. split; [reflexivity|]. unfold mp_models. cbn [mp_high_water mp_log_start mp_batches al_append al_end al_start al_bytes al_batches].
  split_and!; [apply wrap_s_small; lia|exact Hs|lia|lia|lia| |].
  - apply Forall_app. split; [exact Hf|]. apply Forall_singleton. unfold mb_ok, mb_last.
    cbn [mb_raw mb_base_offset mb_last_offset_delta]. rewrite Hlo. apply wrap_s_small; lia.
  - rewrite fmap_app, Hb. symmetry. apply wanted_snoc_last.
    cbn [mb_raw]. lia.
Qed.

Lemma mp_delete_ok m a t : mp_models m a → t ≤ al_end a →
  ∃ m', mp_delete_records m t = (m', Ok (delete_start a t)) ∧ mp_models m' (al_delete a t).
Proof.
  intros (Hh & Hs & Hr & Hn & Hf & Hb) Ht. unfold mp_delete_records, al_delete, mp_models, delete_start. cbn.
  destruct (Z.ltb_spec t 0).
  - eexists. split; [do 2 f_equal; rewrite Hh, Hs; destruct (Z.ltb_spec (al_start a) (al_end a)); lia|]. cbn.
    rewrite Hh, Hs. split_and!; auto; try lia.
    + destruct (Z.ltb_spec (al_start a) (al_end a)); lia.
    + rewrite Hb. apply wanted_wanted. lia.
  - destruct (Z.ltb_spec (mp_high_water m) t); [lia|].
    eexists. split; [do 2 f_equal; rewrite Hs; destruct (Z.ltb_spec (al_start a) t); lia|]. cbn.
    rewrite Hs. split_and!; auto; try lia.
    + destruct (Z.ltb_spec (al_start a) t); lia.
    + rewrite Hb. apply wanted_wanted. lia.
Qed.

#[export] Instance memory_engine : LogEngine MemoryPartition.
Proof.
  refine {| le_append := mp_append; le_read := mp_read; le_delete := mp_delete_records;
            le_high_water := mp_high_water; le_log_start := mp_log_start; le_models := mp_models |}.
  - exact mp_append_ok.
  - intros s a start max (Hh & Hs & Hr & Hn & Hf & Hb) Hst. unfold al_read, mp_read.
    destruct (decide (max = 0%nat)) as [->|]; [reflexivity|].
    rewrite mp_read_fill, Hs, Hb, wanted_wanted by (auto; simpl; lia). reflexivity.
  - exact mp_delete_ok.
  - intros s a t (Hh & Hs & Hr & _) Ht. unfold mp_delete_records.
    destruct (Z.ltb_spec t 0); [lia|]. destruct (Z.ltb_spec (mp_high_water s) t); [reflexivity|lia].
  - intros s a (Hh & Hs & _). auto.
Defined.

(** ** The partition on disk *)

Section disk.
Context (cfg : PartitionConfig) (age epoch : Z).

Definition disk_models (p : Partition) (a : ALog) : Prop :=
  ∃ l, well_formed p l ∧ flush_err p = false ∧ p_epoch p ≤ epoch ∧
    high_water p = al_end a ∧ log_start p = al_start a ∧ al_batches a = wanted (al_start a) l ∧
    Z.of_nat (length (concat l)) ≤ al_bytes a ∧ al_end a ≤ 2147483647.

(** The verdict and the new offset of an append, without the flush flag. *)
Definition disk_append (b : list byte) (p : Partition) : Partition * result StorageError Z :=
  let '(p', r) := append cfg age epoch b p in
  (p', match r with Ok (o, _) => Ok o | Err e => Err e end).

Lemma append_batch_succeeds s bs raw interval :
  segment_ok s bs → 0 ≤ meta_base s → (43 ≤ length raw)%nat → meta_base s ≤ first_off raw < 2147483648 →
  Z.of_nat (length (concat bs)) < 2147483648 → ∃ s', append_batch s raw interval = (s', Ok tt).
Proof.
  intros (Hop & _ & Hsz & _) H0 Hl Hf Hb. unfold append_batch, parse_batch_offsets.
  destruct (Nat.ltb_spec (length raw) 43); [lia|]. rewrite Hop. unfold index_entry.
  change (sbe (slice 0 8 raw)) with (first_off raw).
  destruct (interval <=? _); [|eauto].
  rewrite wrap_s_small by lia.
  destruct (Z.ltb_spec (first_off raw - meta_base s) (-2147483648)); [lia|].
  destruct (Z.ltb_spec 2147483647 (first_off raw - meta_base s)); [lia|]. cbn [orb].
  destruct (Z.ltb_spec 4294967295 (log_size s)); [lia|]. eauto.
Qed.

Lemma commit_succeeds q b acc l :
  holds q l → valid_batch b → high_water q + delta_of b < 2147483647 →
  Z.of_nat (length (concat l) + length b) < 2147483647 →
  ∃ p' t, commit_batch cfg q b acc = (p', Ok (high_water q, t)) ∧ flush_err p' = flush_err q ∧ p_epoch p' = p_epoch q.
Proof.
  intros (lc & la & -> & Hc & Ha & H0 & Hhw) Hv Hmax Hlen. pose proof Hv as (Hl & _ & Hd). fold (delta_of b) in Hd.
  assert (in_order (meta_base (active q)) la) as Ho by apply Ha. pose proof (log_end_ge _ _ Ho) as Hge.
  destruct (rewrite_base_offsets b (high_water q) Hv) as (_ & Hfo & _); [lia|unfold i64_max; lia|].
  unfold commit_batch. destruct (Nat.ltb_spec (length b) 8); [lia|].
  unfold parse_batch_offsets at 1. rewrite length_rewrite_base by lia.
  destruct (Nat.ltb_spec (length b) 43); [lia|].
  destruct (append_batch_succeeds (active q) la (rewrite_base b (high_water q)) (index_interval_bytes cfg)) as [a ->];
    auto; [rewrite length_rewrite_base; lia|lia|rewrite concat_app, length_app in Hlen; lia|].
  destruct (txn_bookkeeping _ _ _ _). do 2 eexists. split; [reflexivity|]. done.
Qed.

Lemma append_plain_succeeds p b l :
  well_formed p l → flush_err p = false → p_epoch p ≤ epoch → plain_batch b →
  high_water p + delta_of b < 2147483647 → Z.of_nat (length (concat l) + length b) < 2147483647 →
  ∃ p' t, append cfg age epoch b p = (p', Ok (high_water p, t)) ∧ well_formed p' (l ++ [rewrite_base b (high_water p)]) ∧
    high_water p' = high_water p + delta_of b + 1 ∧ log_start p' = log_start p ∧ flush_err p' = false ∧ p_epoch p' ≤ epoch.
Proof.
  intros (Hh & Hls & Hob) Hfe Hep [Hv Hpl] Hmax Hlen.
  destruct (roll_if_needed_holds cfg age p b l Hh) as [Hr Hw].
  assert (flush_err (roll_if_needed cfg age p b) = false ∧ p_epoch (roll_if_needed cfg age p b) = p_epoch p) as [Hrf Hre]
    by (unfold roll_if_needed; case_match; done).
  destruct (commit_succeeds (roll_if_needed cfg age p b) b None l) as (p' & t & Hc & Hf & He); auto; [rewrite Hw; lia|].
  assert (Ha : append cfg age epoch b p = (p', Ok (high_water p, t))).
  { unfold append. rewrite Hfe, (proj2 (Z.ltb_ge epoch (p_epoch p))) by lia. rewrite <- Hw, <- Hc.
    destruct (prod_info b) as [info|] eqn:Ei; [|reflexivity]. specialize (Hpl info eq_refl).
    unfold classify. rewrite (proj2 (Z.ltb_lt _ 0)) by lia. reflexivity. }
  exists p', t. split; [exact Ha|]. pose proof (proj2 (proj2 Hv)) as Hd. fold (delta_of b) in Hd.
  destruct (append_next_base _ _ _ _ _ _ _ Hv Ha) as [_ Hls'].
  destruct (append_holds _ _ _ _ _ _ _ _ _ Hh Hv ltac:(unfold i64_max; lia) ltac:(unfold u64_max; lia) Ha)
    as [[-> (info & Hi & Hcl)]|(_ & Hh' & Hw')].
  { exfalso. specialize (Hpl info Hi). unfold classify in Hcl. rewrite (proj2 (Z.ltb_lt _ 0)) in Hcl by lia. done. }
  assert (high_water p + delta_of b < i64_max) by (unfold i64_max; lia).
  split; [split; [done|]; split; [lia|]; by eapply open_below_step, ps_append|].
  repeat split; [exact Hw'|exact Hls'|congruence|lia].
Qed.

Lemma disk_append_ok p a b : disk_models p a → plain_batch b → fits a b →
  ∃ p', disk_append b p = (p', Ok (al_end a)) ∧ disk_models p' (al_append a b).
Proof.
  intros (l & Hwf & Hfe & Hep & Hh & Hs & Hb & Hn & Hm) Hp [F1 F2].
  pose proof (proj2 (proj2 (proj1 Hp))) as Hd. fold (delta_of b) in Hd.
  destruct (append_plain_succeeds p b l) as (p' & t & Ha & Hwf' & Hw' & Hls' & Hf' & He'); auto; try lia.
  exists p'. unfold disk_append. rewrite Ha, Hh. split; [reflexivity|]. exists (l ++ [rewrite_base b (al_end a)]).
  cbn [al_append al_end al_start al_batches al_bytes]. rewrite <- Hh. split_and!; auto; try lia.
  - rewrite Hb, Hh. symmetry. apply wanted_snoc_last.
    destruct Hwf as (_ & [? ?] & _).
    destruct (rewrite_base_offsets b (al_end a)) as (_ & _ & ->); [apply Hp|lia|unfold i64_max; lia|lia].
  - rewrite concat_app, length_app. cbn [concat]. rewrite app_nil_r, length_rewrite_base; [lia|].
    destruct Hp as [[? _] _]. lia.
Qed.

Lemma disk_read_ok p a start max : disk_models p a → start ≤ i64_max →
  take max (read p start max) = al_read a start max.
Proof.
  intros (l & (Hh & Hls & _) & _ & _ & Hhw & Hs & Hb & _ & Hm) Hst.
  assert (0 ≤ next_base (closed p) (meta_base (active p))) as Hnb.
  { destruct Hh as (lc & la & _ & Hc & _ & H0 & _). destruct Hc; cbn; auto. }
  rewrite (read_ok p l 0); auto; try lia; [|unfold i64_max in *; lia].
  unfold al_read. rewrite take_take, Nat.min_id, Hb, wanted_wanted, Hs by lia. reflexivity.
Qed.

Lemma disk_delete_ok p a t : disk_models p a → t ≤ al_end a →
  ∃ p', delete_records p t = (p', Ok (delete_start a t)) ∧ disk_models p' (al_delete a t).
Proof.
  intros (l & Hwf & Hfe & Hep & Hh & Hs & Hb & Hn & Hm) Ht.
  destruct (delete_records p t) as [p' r] eqn:Ed.
  destruct (delete_holds _ _ _ _ _ Hwf Ed) as (l1 & l2 & -> & Hwf' & Hl1).
  destruct (delete_records_spec p t p' r) as [(? & _)|(_ & -> & Hst)]; [apply Hwf|exact Ed|lia|].
  assert (log_start p' = delete_start a t) as Hds by (unfold delete_start; rewrite <- Hs, <- Hh; exact Hst).
  assert (high_water p' = high_water p ∧ flush_err p' = flush_err p ∧ p_epoch p' = p_epoch p) as (E1 & E2 & E3)
    by (revert Ed; unfold delete_records; repeat case_match; intros [= <- _]; done).
  exists p'. rewrite Hds. split; [reflexivity|]. exists l2. unfold al_delete. cbn [al_end al_start al_batches al_bytes].
  rewrite E1, E2, E3. split_and!; auto; try lia.
  - rewrite Hb, wanted_wanted by (unfold delete_start; lia). apply wanted_drop. rewrite <- Hds. exact Hl1.
  - rewrite concat_app, length_app in Hn. lia.
Qed.

Definition disk_engine : LogEngine Partition.
Proof.
  refine {| le_append := disk_append; le_read := read; le_delete := delete_records;
            le_high_water := high_water; le_log_start := log_start; le_models := disk_models |}.
  - exact disk_append_ok.
  - exact disk_read_ok.
  - exact disk_delete_ok.
  - intros p a t (l & (_ & Hls & _) & _ & _ & Hh & _) Ht. unfold delete_records.
    rewrite (proj2 (Z.leb_le 0 t)), (proj2 (Z.ltb_lt (high_water p) t)) by lia. reflexivity.
  - intros p a (l & _ & _ & _ & Hh & Hs & _). auto.
Defined.

End disk.

(** ** Programs *)

Inductive LogOp := OpAppend (b : list byte) | OpRead (start : Z) (max : nat) | OpDelete (t : Z) | OpEnds.
Inductive LogOut := OutOffset (r : result StorageError Z) | OutBytes (b : list byte) | OutEnds (hw start : Z).

(** The answers of an engine; of a read, what the byte limit lets through. *)
Fixpoint run {S} (E : LogEngine S) (s : S) (ops : list LogOp) : list LogOut :=
  match ops with
  | [] => []
  | OpAppend b :: ops' => let '(s', r) := le_append b s in OutOffset r :: run E s' ops'
  | OpRead start max :: ops' => OutBytes (take max (le_read s start max)) :: run E s ops'
  | OpDelete t :: ops' => let '(s', r) := le_delete s t in OutOffset r :: run E s' ops'
  | OpEnds :: ops' => OutEnds (le_high_water s) (le_log_start s) :: run E s ops'
  end.

(** The answers of the log itself, and the programs in its range. *)
Fixpoint spec_run (a : ALog) (ops : list LogOp) : list LogOut :=
  match ops with
  | [] => []
  | OpAppend b :: ops' => OutOffset (Ok (al_end a)) :: spec_run (al_append a b) ops'
  | OpRead start max :: ops' => OutBytes (al_read a start max) :: spec_run a ops'
  | OpDelete t :: ops' =>
    if al_end a <? t then OutOffset (Err OffsetOutOfRange) :: spec_run a ops'
    else OutOffset (Ok (delete_start a t)) :: spec_run (al_delete a t) ops'
  | OpEnds :: ops' => OutEnds (al_end a) (al_start a) :: spec_run a ops'
  end.
Fixpoint in_range (a : ALog) (ops : list LogOp) : Prop :=
  match ops with
  | [] => True
  | OpAppend b :: ops' => plain_batch b ∧ fits a b ∧ in_range (al_append a b) ops'
  | OpRead start _ :: ops' => start ≤ i64_max ∧ in_range a ops'
  | OpDelete t :: ops' => in_range (if al_end a <? t then a else al_delete a t) ops'
  | OpEnds :: ops' => in_range a ops'
  end.

Lemma run_refines {S} (E : LogEngine S) ops : ∀ s a, le_models s a → in_range a ops → run E s ops = spec_run a ops.
Proof.
  induction ops as [|[b|st mx|t|] ops IH]; intros s a Hm; cbn [in_range run spec_run]; [done| | | |].
  - intros (Hp & Hf & Hr). destruct (le_append_ok s a b Hm Hp Hf) as (s' & -> & Hm'). f_equal. by apply IH.
  - intros [Hst Hr]. rewrite (le_read_ok s a st mx Hm Hst). f_equal. by apply IH.
  - destruct (Z.ltb_spec (al_end a) t) as [Ht|Ht]; intros Hr.
    + rewrite (le_delete_refused s a t Hm Ht). f_equal. by apply IH.
    + destruct (le_delete_ok s a t Hm Ht) as (s' & -> & Hm'). f_equal. by apply IH.
  - intros Hr. destruct (le_ends s a Hm) as [-> ->]. f_equal. by apply IH.
Qed.

Definition empty_log : ALog := {| al_batches := []; al_start := 0; al_end := 0; al_bytes := 0 |}.

Lemma memory_starts : mp_models MemoryPartition_default empty_log.
Proof. unfold mp_models. cbn. split_and!; try lia; [constructor|reflexivity]. Qed.

Lemma disk_starts epoch : 1 ≤ epoch → disk_models epoch empty_partition empty_log.
Proof.
  intros He. exists []. split_and!; try done; try lia. split; [apply empty_partition_holds|]. split; [cbn; lia|].
  split; [cbn; lia|]. intros pid f H. done.
Qed.


Definition demo_program : list LogOp :=
  [OpAppend (mk_batch 9); OpAppend (mk_batch 4); OpRead 0 100; OpRead 1 1; OpDelete 1; OpRead 0 1000; OpDelete 7; OpEnds].

Lemma mk_batch_plain : plain_batch (mk_batch 9) ∧ plain_batch (mk_batch 4).
Proof.
  assert (∀ n, valid_batch (mk_batch n) → prod_info (mk_batch n) = None → plain_batch (mk_batch n)) as H.
  { intros n Hv Hn. split; [exact Hv|]. rewrite Hn. discriminate. }
  split; apply H; try (vm_compute; reflexivity); split_and!; vm_compute; congruence || lia.
Qed.


(** ** The map of partitions *)

Lemma delete_keys (s : MemoryStorage) keys k : foldl (λ s k, delete k s) s keys !! k = if decide (k ∈ keys) then None else s !! k.
Proof.
  revert s. induction keys as [|x keys IH]; intros s; [done|]. cbn [foldl]. rewrite IH.
  destruct (decide (k ∈ keys)) as [Hk|Hk].
  - rewrite decide_True by (by right). done.
  - destruct (decide (k = x)) as [->|Hx].
    + rewrite decide_True by (by left). apply lookup_delete_eq.
    + rewrite decide_False by (rewrite not_elem_of_cons; done). by apply lookup_delete_ne.
Qed.

Lemma filter_keys {V} (P : Key → Prop) `{!∀ k, Decision (P k)} (l : list (Key * V)) :
  filter P l.*1 = (filter (λ kv, P kv.1) l).*1.
Proof.
  induction l as [|[k v] l IH]; [done|]. rewrite fmap_cons, !filter_cons. cbn [fst]. case_decide; [|exact IH].
  rewrite fmap_cons, IH. done.
Qed.

(** A deleted topic leaves nothing behind: after [abandon_topic] every partition
    of the topic reads empty and starts at offset zero again, the partitions of
    other topics are untouched, and the number returned is that of the partitions
    dropped. *)
Theorem abandon_topic_exact (s : MemoryStorage) topic s' n :
  mem_abandon_topic s topic = (s', n) →
  (∀ k, s' !! k = if decide (k.1 = topic) then None else s !! k) ∧
  n = base.size (filter (λ kv : Key * MemoryPartition, kv.1.1 = topic) s) ∧
  ∀ i start max, mem_read s' (topic, i) start max = [] ∧ mem_high_watermark s' (topic, i) = 0.
Proof.
  unfold mem_abandon_topic. intros [= <- <-].
  assert (Hl : ∀ k, foldl (λ s k, delete k s) s (filter (λ k : Key, k.1 = topic) (map_to_list s).*1) !! k =
    if decide (k.1 = topic) then None else s !! k).
  { intros k. rewrite delete_keys. destruct (decide (k.1 = topic)) as [Hk|Hk].
    - destruct (decide (k ∈ _)) as [|Hn]; [done|]. destruct (s !! k) as [m|] eqn:Em; [|done].
      destruct Hn. apply list_elem_of_filter. split; [exact Hk|]. apply list_elem_of_fmap. exists (k, m).
      split; [done|]. by apply elem_of_map_to_list.
    - rewrite decide_False; [done|]. intros [H _]%list_elem_of_filter. done. }
  split; [exact Hl|]. pose proof (NoDup_fst_map_to_list s) as Hnd. split.
  - rewrite <- length_map_to_list, map_filter_alt, map_to_list_to_map.
    + rewrite filter_keys, length_fmap. done.
    + apply (NoDup_filter (λ k : Key, k.1 = topic)) with (l := (map_to_list s).*1) in Hnd.
      by rewrite (filter_keys (λ k : Key, k.1 = topic)) in Hnd.
  - intros i start max. unfold mem_read, mem_high_watermark. rewrite Hl, decide_True by done. done.
Qed.

Lemma abandon_topic_exact_witness :
  let s := {[("t"%string, 0) := MemoryPartition_default; ("u"%string, 0) := MemoryPartition_default]} : MemoryStorage in
  mem_abandon_topic s "t" = (delete ("t"%string, 0) s, 1%nat) ∧
  (delete ("t"%string, 0) s : MemoryStorage) !! ("u"%string, 0) = Some MemoryPartition_default ∧
  mem_read (delete ("t"%string, 0) s) ("t"%string, 0) 0 10 = [].
Proof.
  intros s. assert (E : mem_abandon_topic s "t" = (delete ("t"%string, 0) s, 1%nat)) by (vm_compute; reflexivity).
  destruct (abandon_topic_exact s "t" _ _ E) as (H1 & _ & H3). split_and!; [exact E|reflexivity|apply H3].
Defined.
