(* ===== verification/Server.v ===== *)
(** * The server

    [kaas-protocol/src/server.rs]: the listeners, and a connection from the
    accepted socket to its end: the TLS handshake, the stamp of a client
    certificate, and the loop that reads a request, dispatches it and writes the
    response before it reads the next one.  [build_dispatcher] of
    [bins/kaas/src/main.rs] is the table of handlers the loop runs on.

    A socket is the bytes the client sends and the bytes the server wrote; the
    cancellation token, the clock and the failures of a write are oracles on the
    number of the request. *)

From stdpp Require Import base gmap strings list.
From Stdlib Require Import Strings.Byte.
From S2P Require Import Prelude Primitives Wire ApiAdmin Protocol.

Local Open Scope Z_scope.

(** ** Listeners *)

(** A listener's address is whatever [bind] understands. *)
Record ListenerConfig (addr : Type) := { lc_name : string; lc_addr : addr; lc_tls : bool; lc_mtls : bool }.
Arguments lc_name {addr}. Arguments lc_addr {addr}. Arguments lc_tls {addr}. Arguments lc_mtls {addr}.
Record BoundListener (sock : Type) := {
  bl_name : string; bl_listener : sock; bl_max_frame_bytes : Z; bl_tls : bool; bl_mtls : bool }.

Inductive BindError := MissingName | BindFailed.

Fixpoint bind_all {addr sock} (bind : addr → option sock) (max_frame_bytes : Z) (ls : list (ListenerConfig addr)) :
    result BindError (list (BoundListener sock)) :=
  match ls with
  | [] => Ok []
  | lc :: ls' =>
    if decide (lc_name lc = ""%string) then Err MissingName
    else
      match bind (lc_addr lc) with
      | None => Err BindFailed
      | Some ln =>
        match bind_all bind max_frame_bytes ls' with
        | Err e => Err e
        | Ok out =>
          Ok ({| bl_name := lc_name lc; bl_listener := ln; bl_max_frame_bytes := max_frame_bytes;
                 bl_tls := lc_tls lc; bl_mtls := lc_mtls lc |} :: out)
        end
      end
  end.

(** ** A connection *)

Inductive ConnEnd := EndOk | EndProto (e : ProtoError) | EndIo | EndFuel.

Section conn.
Context {W : Type} (d : Dispatcher W) (max_frame_bytes : Z).
(** Of request [i]: whether the token fired before it was read, the time it is
    dispatched at, and after how many bytes the write of its response fails, if it
    does: the size and the body go out in two writes, each of which may send a part
    before it fails. *)
Context (cancelled : nat → bool) (clock : nat → Z) (write_fails : nat → option nat).

(** [fuel] bounds the number of requests; every request takes four bytes at
    least. *)
Fixpoint request_loop (fuel i : nat) (cs : ConnState) (w : W) (inp out : list byte) :
    (ConnState * W) * list byte * ConnEnd :=
  match fuel with
  | O => (cs, w, out, EndFuel)
  | S fuel =>
    if cancelled i then (cs, w, out, EndOk)
    else
      match read_request max_frame_bytes inp with
      | Err (FrameErr Disconnected) => (cs, w, out, EndOk)
      | Err e => (cs, w, out, EndProto e)
      | Ok (hdr, body, rest) =>
        let '((cs, w), (resp, hv)) := dispatch d (clock i) cs w hdr body in
        match write_response (correlation_id hdr) resp hv with
        | None => (cs, w, out, EndIo)
        | Some frame =>
          match write_fails i with
          | Some sent => (cs, w, out ++ take sent frame, EndIo)
          | None => request_loop fuel (S i) cs w rest (out ++ frame)
          end
        end
      end
  end.

(** [stamp] is what the certificate of the handshake gives, [None] when there is
    no certificate or it does not resolve. *)
Definition extract_and_stamp_mtls (cs : ConnState) (stamp : option string) : ConnState :=
  match stamp with
  | None => cs
  | Some p =>
    {| listener_name := listener_name cs; is_tls := is_tls cs; principal := Some p; sasl_done := true;
       sasl_mechanism := sasl_mechanism cs; session_deadline := session_deadline cs |}
  end.

Definition fresh_conn (listener : string) (tls : bool) : ConnState :=
  let cs := ConnState_new listener in
  {| listener_name := listener_name cs; is_tls := tls; principal := principal cs; sasl_done := sasl_done cs;
     sasl_mechanism := sasl_mechanism cs; session_deadline := session_deadline cs |}.

(** [tls]: [None] for a plain listener, otherwise whether the handshake succeeds. *)
Definition serve_conn (listener : string) (tls : option bool) (mtls : bool) (stamp : option string) (w : W)
    (inp : list byte) : (ConnState * W) * list byte * ConnEnd :=
  let cs := fresh_conn listener (bool_decide (is_Some tls)) in
  match tls with
  | Some false => (cs, w, [], EndIo)
  | Some true =>
    let cs := if mtls then extract_and_stamp_mtls cs stamp else cs in
    request_loop (S (length inp)) 0 cs w inp []
  | None => request_loop (S (length inp)) 0 cs w inp []
  end.

End conn.

(** ** The table of handlers *)

(** The keys and version ranges [build_dispatcher] registers, in its order. *)
Definition registrations : list (Z * Z * Z) :=
  [(0, 3, 9); (1, 4, 12); (2, 1, 7); (3, 1, 10); (8, 2, 8); (9, 1, 8); (10, 0, 4); (11, 2, 9); (12, 0, 4); (13, 0, 5);
   (14, 0, 5); (15, 0, 5); (16, 0, 4); (20, 0, 5); (21, 0, 2); (29, 0, 3); (30, 0, 3); (31, 0, 3); (34, 0, 2);
   (35, 0, 4); (60, 0, 2); (17, 0, 1); (18, 0, 4); (22, 0, 4); (24, 0, 3); (25, 0, 3); (26, 0, 3); (27, 0, 1);
   (28, 0, 3); (36, 0, 2); (42, 0, 2); (32, 0, 4); (19, 0, 7); (37, 0, 3); (44, 0, 1); (48, 0, 1); (49, 0, 1);
   (50, 0, 0); (51, 0, 0); (47, 0, 0)].

Definition register_all {W} (d : Dispatcher W) (handlers : Z → handler W) (rows : list (Z * Z * Z)) :
    option (Dispatcher W) :=
  foldl (λ d '(k, lo, hi), d ≫= λ d, register d k lo hi (handlers k)) (Some d) rows.

Definition build_dispatcher {W} (handlers : Z → handler W) (engines : string → bool) : option (Dispatcher W) :=
  d ← register_all Dispatcher_new handlers registrations;
  Some {| slots := slots d; Protocol.engines := Some engines |}.

(** ** What a client sees *)

(** The requests in a stream of bytes, up to the first that cannot be read. *)
Fixpoint requests_of (max : Z) (fuel : nat) (inp : list byte) : list RequestHeader :=
  match fuel with
  | O => []
  | S fuel =>
    match read_request max inp with
    | Ok (hdr, _, rest) => hdr :: requests_of max fuel rest
    | Err _ => []
    end
  end.

(** The frames of a stream of bytes, [None] when the last one is not whole. *)
Fixpoint frames_of (fuel : nat) (inp : list byte) : option (list (list byte)) :=
  match fuel, inp with
  | _, [] => Some []
  | O, _ => None
  | S fuel, _ =>
    match read_frame_with_limit i32_max inp with
    | Ok (frame, rest) => fs ← frames_of fuel rest; Some (frame :: fs)
    | Err _ => None
    end
  end.

Lemma read_frame_shrinks max inp frame rest :
  read_frame_with_limit max inp = Ok (frame, rest) → (length rest + 4 ≤ length inp)%nat.
Proof.
  unfold read_frame_with_limit, read_exact. destruct (Nat.leb_spec 4 (length inp)); [|done].
  destruct (_ <? 0); [done|]. destruct (max <? _); [done|].
  destruct (_ <=? _)%nat; [|done]. intros [= _ <-]. rewrite !length_drop. lia.
Qed.

Lemma read_request_shrinks max inp h b rest :
  read_request max inp = Ok (h, b, rest) → (length rest + 4 ≤ length inp)%nat.
Proof.
  unfold read_request. destruct (read_frame_with_limit max inp) as [[f r]|] eqn:E; [|done].
  destruct (_ <? _)%nat; [done|]. destruct (decode_request_header _ _) as [[??]|]; [|done].
  intros [= _ _ <-]. by eapply read_frame_shrinks.
Qed.

Lemma write_response_frame c resp hv bs :
  write_response c resp hv = Some bs →
  ∃ body, write_frame body = Some bs ∧ take 4 body = be 4 c ∧ Z.of_nat (length body) ≤ i32_max.
Proof.
  unfold write_response, encode_response_header, write_i32. cbn [resp_correlation_id].
  destruct (when_enc _ _) as [t|e]; unfold seq_enc; [|done]. intros H. eexists. split; [exact H|].
  split; [rewrite <- app_assoc, take_app_length' by (by rewrite length_be); done|].
  revert H. unfold write_frame. destruct (Z.leb_spec (Z.of_nat (length ((be 4 c ++ t) ++ resp))) i32_max); done.
Qed.

Lemma frames_of_snoc fuel out fs bs body :
  frames_of fuel out = Some fs → write_frame body = Some bs → Z.of_nat (length body) ≤ i32_max →
  (length fs < fuel)%nat →
  frames_of fuel (out ++ bs) = Some (fs ++ [body]).
Proof.
  intros Hf Hw Hl. revert out fs Hf. induction fuel as [|fuel IH]; intros out fs Hf Hn; [lia|].
  assert (bs ≠ []) as Hbs by (revert Hw; unfold write_frame; case_match; [|done]; intros [= <-]; done).
  destruct out as [|x out].
  { cbn in Hf. injection Hf as <-. rewrite app_nil_l. cbn [frames_of].
    destruct bs as [|y bs]; [done|]. pose proof (read_written_frame i32_max body (y :: bs) [] Hw Hl) as Hr.
    rewrite app_nil_r in Hr. rewrite Hr. cbn. destruct fuel; done. }
  cbn [frames_of app] in Hf |- *.
  destruct (read_frame_with_limit i32_max (x :: out)) as [[f r]|] eqn:E; [|done].
  destruct (frames_of fuel r) as [fs'|] eqn:E'; [|done]. cbn in Hf. injection Hf as <-.
  assert (read_frame_with_limit i32_max (x :: out ++ bs) = Ok (f, r ++ bs)) as ->.
  { revert E. change (x :: out ++ bs) with ((x :: out) ++ bs). generalize (x :: out). intros l.
    unfold read_frame_with_limit, read_exact. rewrite length_app.
    destruct (Nat.leb_spec 4 (length l)); [|done].
    destruct (Nat.leb_spec 4 (length l + length bs)); [|lia].
    rewrite take_app_le, drop_app_le by lia.
    destruct (_ <? 0); [done|]. destruct (_ <? _); [done|].
    destruct (Nat.leb_spec (Z.to_nat (sbe (take 4 l))) (length (drop 4 l))); [|done].
    rewrite length_app.
    destruct (Nat.leb_spec (Z.to_nat (sbe (take 4 l))) (length (drop 4 l) + length bs)); [|lia].
    intros [= <- <-]. rewrite take_app_le, drop_app_le by lia. done. }
  rewrite (IH r fs') by (auto; cbn in Hn; lia). done.
Qed.

(** The start of the answer to request [h]. *)
Definition answer_start (h : RequestHeader) (tail : list byte) : Prop :=
  ∃ body frame, write_frame body = Some frame ∧ take 4 body = be 4 (correlation_id h) ∧ tail `prefix_of` frame.

(** What the server has written when [k] of the requests [reqs] are answered: their
    frames, and possibly the start of the next one if a write failed. *)
Definition answered (reqs : list RequestHeader) (e : ConnEnd) (k : nat) (frames : list (list byte))
    (tail : list byte) : Prop :=
  length frames = k ∧ (take 4 <$> frames) = ((λ h, be 4 (correlation_id h)) <$> take k reqs) ∧ (k ≤ length reqs)%nat ∧
  (tail = [] ∨ e = EndIo ∧ ∃ h, reqs !! k = Some h ∧ answer_start h tail).

Lemma answered_none reqs e : answered reqs e 0 [] [].
Proof. split_and!; auto. cbn. lia. Qed.

Lemma answered_cons h reqs e k frames tail body :
  take 4 body = be 4 (correlation_id h) → answered reqs e k frames tail →
  answered (h :: reqs) e (S k) (body :: frames) tail.
Proof.
  intros Hb (A1 & A2 & A3 & A4). split_and!; [cbn; lia|cbn; by rewrite Hb, A2|cbn; lia|exact A4].
Qed.

Section loop.
Context {W : Type} (d : Dispatcher W) (max : Z).
Context (cancelled : nat → bool) (clock : nat → Z) (write_fails : nat → option nat).

(** The loop from any point on: what it adds is the frames of a prefix of the
    requests that are left, and what a failing write got out. *)
Lemma request_loop_spec fuel : ∀ i cs w inp out fs st out' e N,
  (length inp < fuel)%nat → frames_of N out = Some fs → (length fs + fuel ≤ N)%nat →
  request_loop d max cancelled clock write_fails fuel i cs w inp out = (st, out', e) →
  e ≠ EndFuel ∧
  ∃ k fs' whole tail, out' = whole ++ tail ∧ frames_of N whole = Some (fs ++ fs') ∧
    answered (requests_of max fuel inp) e k fs' tail ∧
    ((∀ i, cancelled i = false) → e = EndOk ∨ (∃ p, e = EndProto p) → k = length (requests_of max fuel inp)).
Proof.
  induction fuel as [|fuel IH]; intros i cs w inp out fs st out' e N Hlen Hfs HN; [lia|].
  cbn [request_loop requests_of].
  assert (Hstop : ∀ (st1 : ConnState * W) e1 tail, e1 ≠ EndFuel →
    (st1, out ++ tail, e1) = (st, out', e) → ∀ l : list RequestHeader, answered l e1 0 [] tail →
    ((∀ i, cancelled i = false) → e1 = EndOk ∨ (∃ p, e1 = EndProto p) → 0%nat = length l) →
    e ≠ EndFuel ∧ ∃ k fs' whole tail, out' = whole ++ tail ∧ frames_of N whole = Some (fs ++ fs') ∧
      answered l e k fs' tail ∧
      ((∀ i, cancelled i = false) → e = EndOk ∨ (∃ p, e = EndProto p) → k = length l)).
  { intros st1 e1 tail He [= -> <- <-] l Ha Hl. split; [exact He|]. exists 0%nat, [], out, tail. rewrite app_nil_r. auto. }
  pose proof (λ st1 e1, Hstop st1 e1 []) as Hend. rewrite app_nil_r in Hend.
  destruct (cancelled i) eqn:Ec.
  { intros H. eapply Hend; [|exact H|apply answered_none|]; [done|]. intros Hn. by rewrite Hn in Ec. }
  destruct (read_request max inp) as [[[hdr body] rest]|err] eqn:Er.
  2: { intros H. destruct err as [[]| |]; (eapply Hend; [|exact H|apply answered_none|]; [done|]); done. }
  pose proof (read_request_shrinks _ _ _ _ _ Er) as Hsh.
  destruct (dispatch d (clock i) cs w hdr body) as [[cs1 w1] [resp hv]].
  destruct (write_response (correlation_id hdr) resp hv) as [frame|] eqn:Ew.
  2: { intros H. eapply Hend; [|exact H|apply answered_none|]; [done|]. intros _ [|[? ?]]; done. }
  destruct (write_response_frame _ _ _ _ Ew) as (fb & Hwf & Ht & Hfl).
  destruct (write_fails i) as [sent|].
  { intros H. eapply Hstop; [|exact H| |intros _ [|[? ?]]; done]; [done|]. split_and!; [done|done|cbn; lia|]. right.
    split; [done|]. exists hdr. split; [done|]. exists fb, frame. split_and!; auto. apply prefix_take. }
  intros H. destruct (IH (S i) cs1 w1 rest (out ++ frame) (fs ++ [fb]) st out' e N)
    as (He & k & fs' & whole & tail & A1 & A2 & A3 & A4).
  - lia.
  - apply frames_of_snoc; auto. lia.
  - rewrite length_app. cbn. lia.
  - exact H.
  - split; [exact He|]. exists (S k), (fb :: fs'), whole, tail. rewrite <- app_assoc in A2.
    split_and!; [exact A1|exact A2|by apply answered_cons|]. intros Hc Hp. cbn. f_equal. by apply A4.
Qed.

End loop.

(** C36. A client that pipelines requests can match the answers by their order: the
    bytes the server has written on a connection are whole frames, one for each of
    the first [k] requests of the stream, in order, each starting with the
    correlation id of its request, whatever the handlers do and whenever the
    server is cancelled; only a write that fails can leave more, and that is the
    start of the frame that answers the next request.  If the connection ends by
    the client's side or by bytes that are no request, every request before that
    point has been answered.  The loop always ends. *)
Theorem responses_in_order {W} (d : Dispatcher W) max cancelled clock write_fails cs w inp st out e :
  request_loop d max cancelled clock write_fails (S (length inp)) 0 cs w inp [] = (st, out, e) →
  let reqs := requests_of max (S (length inp)) inp in
  e ≠ EndFuel ∧
  ∃ k frames whole tail, out = whole ++ tail ∧ frames_of (S (length inp)) whole = Some frames ∧ length frames = k ∧
    (take 4 <$> frames) = ((λ h, be 4 (correlation_id h)) <$> take k reqs) ∧ (k ≤ length reqs)%nat ∧
    (tail = [] ∨ e = EndIo ∧ ∃ h, reqs !! k = Some h ∧ answer_start h tail) ∧
    ((∀ i, cancelled i = false) → e = EndOk ∨ (∃ p, e = EndProto p) → k = length reqs).
Proof.
  intros H reqs. destruct (request_loop_spec d max cancelled clock write_fails (S (length inp)) 0 cs w inp [] [] st out e
    (S (length inp))) as (He & k & fs & whole & tail & A1 & A2 & (A3 & A4 & A5 & A6) & A7); [lia|done|cbn; lia|exact H|].
  split; [exact He|]. exists k, fs, whole, tail. auto 10.
Qed.

(** Two ApiVersions requests sent back to back, then half of a third. *)
Definition demo_frame (c : Z) : list byte := be 4 10 ++ be 2 18 ++ be 2 0 ++ be 4 c ++ be 2 65535.
Definition demo_input : list byte := demo_frame 7 ++ demo_frame 8 ++ take 6 (demo_frame 9).
Definition demo_table : Dispatcher unit :=
  {| slots := {[18%nat := {| slot_handler := λ cs w v b, ((cs, w), Some b); slot_min := 0; slot_max := 4 |}]};
     engines := None |}.

(** The write of the second answer fails after its size and the first byte. *)
Definition demo_fails (i : nat) : option nat := if decide (i = 1%nat) then Some 5%nat else None.

Lemma responses_in_order_witness :
  let r := request_loop demo_table 100 (λ _, false) (λ _, 0) demo_fails (S (length demo_input)) 0
             (ConnState_new "l") tt demo_input [] in
  r.2 = EndIo ∧
  ∃ frames whole tail, r.1.2 = whole ++ tail ∧ frames_of (S (length demo_input)) whole = Some frames ∧
    (length frames ≤ 2)%nat ∧
    (take 4 <$> frames) = ((λ c, be 4 c) <$> take (length frames) [7; 8]).
Proof.
  intros r. assert (E : r.2 = EndIo) by (vm_compute; reflexivity). split; [exact E|].
  destruct (responses_in_order demo_table 100 (λ _, false) (λ _, 0) demo_fails (ConnState_new "l") tt demo_input r.1.1 r.1.2 r.2)
    as (_ & k & fs & whole & tail & H0 & H1 & <- & H3 & H4 & _); [vm_compute; reflexivity|].
  exists fs, whole, tail. split_and!; [exact H0|exact H1|exact H4|]. rewrite H3, !fmap_take. f_equal.
Defined.

(** ** The table is the registry *)

Lemma registered_rows {W} (handlers : Z → handler W) rows d :
  Forall (λ '(k, lo, hi), 0 ≤ k < SLOT_COUNT ∧ lo ≤ hi) rows → NoDup (fst ∘ fst <$> rows) →
  ∃ d', register_all d handlers rows = Some d' ∧ engines d' = engines d ∧
    ∀ n, slots d' !! n =
      match list_find (λ '(k, _, _), Z.to_nat k = n) rows with
      | Some (_, (k, lo, hi)) => Some {| slot_handler := handlers k; slot_min := lo; slot_max := hi |}
      | None => slots d !! n
      end.
Proof.
  unfold register_all. revert d. induction rows as [|[[k lo] hi] rows IH]; intros d Hr Hn; [eexists; done|].
  apply Forall_cons in Hr as [[Hk Hle] Hr]. rewrite fmap_cons, NoDup_cons in Hn. destruct Hn as [Hk' Hn].
  cbn [foldl option_bind mbind]. unfold register at 2.
  rewrite (proj2 (Z.leb_le 0 k)), (proj2 (Z.ltb_lt k SLOT_COUNT)), (proj2 (Z.leb_le lo hi)) by lia. cbn [andb].
  destruct (IH {| slots := <[Z.to_nat k := {| slot_handler := handlers k; slot_min := lo; slot_max := hi |}]> (slots d);
                  engines := engines d |} Hr Hn) as (d' & Hd & He & Hs).
  exists d'. split; [exact Hd|]. split; [exact He|]. intros n. rewrite Hs. cbn [slots list_find].
  destruct (decide (Z.to_nat k = n)) as [Hkn|Hkn].
  - subst n. destruct (list_find _ rows) as [[j [[k2 lo2] hi2]]|] eqn:Ef.
    + apply list_find_Some in Ef as (Ej & Ek & _). exfalso. apply Hk'.
      assert (k2 = k) as ->.
      { apply list_elem_of_lookup_2 in Ej. rewrite Forall_forall in Hr. destruct (Hr _ Ej) as [? _]. lia. }
      apply list_elem_of_lookup_2 in Ej. apply (list_elem_of_fmap_2 (fst ∘ fst)) in Ej. exact Ej.
    + apply lookup_insert_eq.
  - destruct (list_find _ rows) as [[j [[k2 lo2] hi2]]|]; [done|]. by apply lookup_insert_ne.
Qed.

Lemma registry_rows :
  Forall (λ s, list_find (λ '(k, _, _), Z.to_nat k = Z.to_nat (key s)) registrations ≫=
               (λ p, Some p.2) = Some (key s, min_version s, max_version s)) ALL ∧
  Forall (λ '(k, lo, hi), 0 ≤ k < SLOT_COUNT ∧ lo ≤ hi ∧ is_Some (lookup_api k)) registrations ∧
  NoDup (fst ∘ fst <$> registrations).
Proof.
  split_and!.
  - repeat (apply Forall_cons; split; [vm_compute; reflexivity|]). constructor.
  - repeat (apply Forall_cons; split; [split_and!; [vm_compute; congruence|vm_compute; congruence|vm_compute; congruence|eexists; vm_compute; reflexivity]|]).
    constructor.
  - apply (bool_decide_unpack _). vm_compute. exact I.
Qed.

(** Every API the broker advertises is served, and nothing else is: the table the
    server is started with has a handler for exactly the keys of the registry that
    answers ApiVersions, with exactly its version ranges; so a request of an
    advertised version that passes the authentication gate reaches the handler of
    its key at the version the client asked for. *)
Theorem advertised_apis_served {W} (handlers : Z → handler W) (eng : string → bool) :
  ∃ d, build_dispatcher handlers eng = Some d ∧
    (∀ k spec, lookup_api k = Some spec →
       slots d !! Z.to_nat k =
         Some {| slot_handler := handlers k; slot_min := min_version spec; slot_max := max_version spec |}) ∧
    (∀ n s, slots d !! n = Some s → ∃ k, is_Some (lookup_api k) ∧ n = Z.to_nat k) ∧
    (∀ now cs w h body spec, lookup_api (api_key h) = Some spec →
       min_version spec ≤ api_version h ≤ max_version spec → gate d now cs (api_key h) = None →
       dispatch d now cs w h body =
         match handlers (api_key h) cs w (api_version h) body with
         | (st, Some resp) => (st, (resp, response_hdr spec (api_version h)))
         | (st, None) => (st, error_body (Some spec) (api_version h) ERR_UNSUPPORTED_VERSION)
         end).
Proof.
  destruct registry_rows as (R1 & R2 & R3).
  destruct (registered_rows handlers registrations Dispatcher_new) as (d0 & Hd & _ & Hs); auto.
  { eapply Forall_impl; [exact R2|]. intros [[??]?]. tauto. }
  unfold build_dispatcher. rewrite Hd. eexists. split; [reflexivity|]. cbn [slots].
  assert (Hserved : ∀ k spec, lookup_api k = Some spec → 0 ≤ k < SLOT_COUNT ∧ slots d0 !! Z.to_nat k =
    Some {| slot_handler := handlers k; slot_min := min_version spec; slot_max := max_version spec |}).
  { intros k spec Hl. apply lookup_api_row in Hl as [Hin <-]. rewrite Forall_forall in R1. specialize (R1 _ Hin). rewrite Hs.
    destruct (list_find _ registrations) as [[j p]|] eqn:Ef; [|done]. cbn in R1. injection R1 as ->.
    split; [|reflexivity]. apply list_find_Some in Ef as (Ej & _ & _). apply list_elem_of_lookup_2 in Ej.
    rewrite Forall_forall in R2. destruct (R2 _ Ej) as [? _]. done. }
  split_and!.
  - intros k spec Hl. apply (Hserved k spec Hl).
  - intros n s Hn. rewrite Hs in Hn.
    destruct (list_find _ registrations) as [[j [[k lo] hi]]|] eqn:Ef; [|done].
    apply list_find_Some in Ef as (Ej & <- & _). apply list_elem_of_lookup_2 in Ej.
    rewrite Forall_forall in R2. destruct (R2 _ Ej) as (_ & _ & ?). exists k. done.
  - intros now cs w h body spec Hl Hv Hg. destruct (Hserved _ _ Hl) as [Hk Hsl].
    unfold dispatch. rewrite Hg, Hl. cbn [slots]. rewrite Hsl. cbn [slot_min slot_max slot_handler].
    rewrite (proj2 (Z.leb_le 0 (api_key h))), (proj2 (Z.ltb_lt (api_key h) SLOT_COUNT)) by lia. cbn [andb].
    rewrite (proj2 (Z.ltb_ge (api_version h) (min_version spec))), (proj2 (Z.ltb_ge (max_version spec) (api_version h))) by lia.
    cbn [orb andb]. reflexivity.
Qed.
