(* ===== verification/AtomicWrite.v ===== *)
(** * Writing a metadata file

    [atomic_write_json] of [kaas-storage/src/atomic_write.rs] (on the file-system
    trait of [fs.rs]) and of [kaas-coordinator/src/atomic_write.rs], through which
    every manifest, snapshot, offset, transaction, assignment, credential and rule
    file goes: the bytes go to [<name>.tmp], which is synced and then renamed over
    [<name>].

    The volume keeps names and inodes apart.  What a crash leaves of an inode is
    its content if that was synced, any bytes otherwise; of the directory, any of
    the states it went through, since the directory itself is never synced.  A
    call is a sequence of actions of its own, so that a crash, or another call on
    the same file, can come between any two of them. *)

From stdpp Require Import base gmap strings list relations.
From Stdlib Require Import Strings.Byte.
From S2P Require Import Prelude Segment.

Local Open Scope Z_scope.

(** ** The volume *)

Record Volume := {
  v_names : gmap string nat;          (* the directory *)
  v_data : gmap nat (list byte);      (* what a reader sees of an inode *)
  v_synced : gmap nat (list byte);    (* what was last synced of it *)
  v_history : list (gmap string nat); (* directories a crash may bring back *)
  v_next : nat }.                     (* the next free inode *)

Definition read_file (v : Volume) (name : string) : option (list byte) := i ← v_names v !! name; v_data v !! i.

Definition set_names (v : Volume) (names : gmap string nat) : Volume :=
  {| v_names := names; v_data := v_data v; v_synced := v_synced v; v_history := names :: v_history v; v_next := v_next v |}.
Definition set_data (v : Volume) (i : nat) (bs : list byte) : Volume :=
  {| v_names := v_names v; v_data := <[i := bs]> (v_data v); v_synced := v_synced v; v_history := v_history v; v_next := v_next v |}.

(** [Fs::create]: opens and truncates, or makes a new file. *)
Definition fs_create (v : Volume) (name : string) : Volume * nat :=
  match v_names v !! name with
  | Some i => (set_data v i [], i)
  | None =>
    let i := v_next v in
    (set_names
       {| v_names := v_names v; v_data := <[i := []]> (v_data v); v_synced := v_synced v; v_history := v_history v;
          v_next := S i |} (<[name := i]> (v_names v)), i)
  end.
(** A write through a handle. *)
Definition fs_write (v : Volume) (i : nat) (chunk : list byte) (pos : nat) : Volume :=
  set_data v i (write_at (default [] (v_data v !! i)) chunk pos).
(** [File::sync_all] of a handle. *)
Definition fs_sync (v : Volume) (i : nat) : Volume :=
  {| v_names := v_names v; v_data := v_data v; v_synced := <[i := default [] (v_data v !! i)]> (v_synced v);
     v_history := v_history v; v_next := v_next v |}.
(** [fsync_path]: opens by name. *)
Definition fsync_path (v : Volume) (name : string) : option Volume := fs_sync v <$> v_names v !! name.
Definition fs_rename (v : Volume) (from to : string) : option Volume :=
  match v_names v !! from with
  | Some i => Some (set_names v (<[to := i]> (delete from (v_names v))))
  | None => None
  end.
Definition fs_remove (v : Volume) (name : string) : Volume :=
  match v_names v !! name with Some _ => set_names v (delete name (v_names v)) | None => v end.

(** What a file may be after a crash. *)
Inductive after_crash (v : Volume) (name : string) : option (list byte) → Prop :=
| crash_absent names : names ∈ v_history v → names !! name = None → after_crash v name None
| crash_synced names i bs :
    names ∈ v_history v → names !! name = Some i → v_data v !! i = Some bs → v_synced v !! i = Some bs →
    after_crash v name (Some bs)
| crash_torn names i bs :
    names ∈ v_history v → names !! name = Some i → v_synced v !! i ≠ v_data v !! i → after_crash v name (Some bs).

(** ** A call *)

Definition tmp_name (name : string) : string := (name +:+ ".tmp")%string.

(** Where a call is; [PWriting i n]: [n] bytes are through the handle on [i]. *)
Inductive Pc := PStart | PWriting (i n : nat) | PClosed | PSynced | PFailed | PDone (ok : bool).

(** What happens next: [AWrite n] brings the written part to [n] bytes, [AFail]
    makes the next operation fail. *)
Inductive Act := ANext | AWrite (n : nat) | AFail.

(** One action of a call.  The storage crate syncs by name after it closed the
    handle ([by_path]), the coordinator through the handle. *)
Definition aw_exec (by_path : bool) (name : string) (data : list byte) (a : Act) (pc : Pc) (v : Volume) :
    option (Pc * Volume) :=
  match pc, a with
  | PStart, ANext => let '(v, i) := fs_create v (tmp_name name) in Some (PWriting i 0, v)
  | PStart, AFail => Some (PDone false, v)
  | PWriting i n, AWrite m =>
    if (n <? m)%nat && (m <=? length data)%nat
    then Some (PWriting i m, fs_write v i (take (m - n) (drop n data)) n) else None
  | PWriting i n, ANext =>
    if (n =? length data)%nat then (if by_path then Some (PClosed, v) else Some (PSynced, fs_sync v i)) else None
  | PWriting _ _, AFail => Some (PFailed, v)
  | PClosed, ANext =>
    match fsync_path v (tmp_name name) with Some v => Some (PSynced, v) | None => Some (PFailed, v) end
  | PClosed, AFail => Some (PFailed, v)
  | PSynced, ANext =>
    match fs_rename v (tmp_name name) name with Some v => Some (PDone true, v) | None => Some (PFailed, v) end
  | PSynced, AFail => Some (PFailed, v)
  | PFailed, ANext => Some (PDone false, fs_remove v (tmp_name name))
  | PFailed, AFail => Some (PDone false, v)
  | _, _ => None
  end.

Definition aw_step (by_path : bool) (name : string) (data : list byte) (s s' : Pc * Volume) : Prop :=
  ∃ a, aw_exec by_path name data a s.1 s.2 = Some s'.

(** A call that meets no failure, its bytes in one write. *)
Definition atomic_write_json (by_path : bool) (v : Volume) (name : string) (data : list byte) : option Volume :=
  '(pc, v) ← aw_exec by_path name data ANext PStart v;
  '(pc, v) ← (if (length data =? 0)%nat then Some (pc, v) else aw_exec by_path name data (AWrite (length data)) pc v);
  '(pc, v) ← aw_exec by_path name data ANext pc v;
  '(pc, v) ← (if by_path then aw_exec by_path name data ANext pc v else Some (pc, v));
  '(pc, v) ← aw_exec by_path name data ANext pc v;
  Some v.

(** The coordinator's files and the controller's assignment, synced through the
    handle. *)
Definition coordinator_write (v : Volume) (name : string) (data : list byte) : option Volume :=
  atomic_write_json false v name data.
Definition assignment_write (v : Volume) (data : list byte) : option Volume :=
  atomic_write_json false v "assignment.json" data.

(** ** One writer *)

Lemma length_tmp (s t : string) : String.length (s +:+ t)%string = (String.length s + String.length t)%nat.
Proof. induction s as [|c s IH]; [done|]. cbn. by rewrite <- IH. Qed.

Lemma tmp_ne name : tmp_name name ≠ name.
Proof. intros H. apply (f_equal String.length) in H. unfold tmp_name in H. rewrite length_tmp in H. cbn in H. lia. Qed.

Lemma write_at_end (bs chunk : list byte) n : length bs = n → write_at bs chunk n = bs ++ chunk.
Proof.
  intros <-. unfold write_at. rewrite take_ge by lia. rewrite Nat.sub_diag. cbn [replicate app].
  rewrite drop_ge by lia. by rewrite app_nil_r.
Qed.

Section one_writer.
Context (by_path : bool) (name : string) (data : list byte) (old : option (list byte)).

(** What the volume keeps through a call: the file, on the disk and in every
    directory a crash may bring back, is the old one or the new one; the
    temporary name never leads to an inode the file's name has led to. *)
Record kept (allow_new : bool) (v : Volume) : Prop := {
  k_crash : ∀ names, names ∈ v_history v →
    match names !! name with
    | None => old = None
    | Some i => ∃ bs, v_data v !! i = Some bs ∧ v_synced v !! i = Some bs ∧ (Some bs = old ∨ allow_new = true ∧ bs = data)
    end;
  k_now : v_names v ∈ v_history v;
  k_tmp : ∀ names i, names ∈ v_history v → v_names v !! tmp_name name = Some i → names !! name ≠ Some i;
  k_fresh : ∀ i, is_Some (v_data v !! i) → (i < v_next v)%nat;
  k_tmp_data : ∀ i, v_names v !! tmp_name name = Some i → is_Some (v_data v !! i) }.

(** The state of a call at each of its points. *)
Definition aw_inv (s : Pc * Volume) : Prop :=
  let v := s.2 in
  match s.1 with
  | PStart | PFailed | PDone false => kept false v ∧ read_file v name = old
  | PWriting i n =>
    kept false v ∧ read_file v name = old ∧ v_names v !! tmp_name name = Some i ∧ v_data v !! i = Some (take n data) ∧
    (n ≤ length data)%nat
  | PClosed =>
    kept false v ∧ read_file v name = old ∧ ∃ i, v_names v !! tmp_name name = Some i ∧ v_data v !! i = Some data
  | PSynced =>
    kept false v ∧ read_file v name = old ∧
    ∃ i, v_names v !! tmp_name name = Some i ∧ v_data v !! i = Some data ∧ v_synced v !! i = Some data
  | PDone true => kept true v ∧ read_file v name = Some data
  end.

Lemma kept_set_data b v i bs :
  kept b v → v_names v !! tmp_name name = Some i → kept b (set_data v i bs) ∧ read_file (set_data v i bs) name = read_file v name.
Proof.
  intros [K1 K2 K3 K4 K5] Hi. pose proof (K3 _ _ K2 Hi) as Hni.
  assert (∀ names j, names ∈ v_history v → names !! name = Some j → i ≠ j) as Hij.
  { intros names j Hn Hj ->. by apply (K3 names j Hn Hi). }
  split; [split|].
  - intros names Hn. specialize (K1 names Hn). cbn in *. destruct (names !! name) as [j|] eqn:Ej; [|done].
    rewrite lookup_insert_ne by (by eapply Hij). exact K1.
  - exact K2.
  - exact K3.
  - intros j. cbn. destruct (decide (i = j)) as [<-|]; [intros _; apply K4, (K5 i Hi)|].
    rewrite lookup_insert_ne by done. apply K4.
  - intros j Hj. cbn in *. rewrite Hi in Hj. injection Hj as <-. by rewrite lookup_insert_eq.
  - unfold read_file. cbn. destruct (v_names v !! name) as [j|] eqn:Ej; [|done]. cbn.
    by rewrite lookup_insert_ne by (by eapply Hij).
Qed.

Lemma kept_create v : kept false v → read_file v name = old →
  let '(v', i) := fs_create v (tmp_name name) in
  kept false v' ∧ read_file v' name = old ∧ v_names v' !! tmp_name name = Some i ∧ v_data v' !! i = Some [].
Proof.
  intros K Hr. unfold fs_create. destruct (v_names v !! tmp_name name) as [i|] eqn:Ei.
  { destruct (kept_set_data false v i [] K Ei) as [K' ->]. split_and!; auto. cbn. apply lookup_insert_eq. }
  destruct K as [K1 K2 K3 K4 K5].
  assert (∀ names j, names ∈ v_history v → names !! name = Some j → v_next v ≠ j) as Hne.
  { intros names j Hn Hj <-. specialize (K1 names Hn). rewrite Hj in K1. destruct K1 as (bs & Hd & _).
    pose proof (K4 (v_next v) (mk_is_Some _ _ Hd)). lia. }
  assert (<[tmp_name name := v_next v]> (v_names v) !! name = v_names v !! name) as Hsame
    by (apply lookup_insert_ne, tmp_ne).
  split_and!; cbn.
  - split; cbn.
    + intros names Hn. assert (∃ n2, n2 ∈ v_history v ∧ names !! name = n2 !! name) as (n2 & Hn2 & ->).
      { apply elem_of_cons in Hn as [->|Hn]; [exists (v_names v); auto|exists names; auto]. }
      specialize (K1 n2 Hn2). destruct (n2 !! name) as [j|] eqn:Ej; [|done].
      rewrite lookup_insert_ne by (by eapply Hne). exact K1.
    + left.
    + intros names j Hn. rewrite lookup_insert_eq. intros [= <-] Hj.
      apply elem_of_cons in Hn as [->|Hn]; [rewrite Hsame in Hj; by eapply Hne|by eapply Hne].
    + intros j. destruct (decide (v_next v = j)) as [<-|]; [lia|]. rewrite lookup_insert_ne by done.
      intros H%K4. lia.
    + intros j. rewrite lookup_insert_eq. intros [= <-]. by rewrite lookup_insert_eq.
  - unfold read_file. cbn. rewrite Hsame. rewrite <- Hr. unfold read_file.
    destruct (v_names v !! name) as [j|] eqn:Ej; [|done]. cbn. by rewrite lookup_insert_ne by (by eapply Hne).
  - apply lookup_insert_eq.
  - apply lookup_insert_eq.
Qed.

Lemma kept_sync v i : kept false v → v_names v !! tmp_name name = Some i →
  kept false (fs_sync v i) ∧ read_file (fs_sync v i) name = read_file v name.
Proof.
  intros [K1 K2 K3 K4 K5] Hi. split; [|done]. split; auto.
  intros names Hn. specialize (K1 names Hn). cbn. destruct (names !! name) as [j|] eqn:Ej; [|done].
  rewrite lookup_insert_ne by (intros ->; by apply (K3 names j Hn Hi)). exact K1.
Qed.

Lemma kept_remove v : kept false v → read_file v name = old →
  kept false (fs_remove v (tmp_name name)) ∧ read_file (fs_remove v (tmp_name name)) name = old.
Proof.
  intros K Hr. unfold fs_remove. destruct (v_names v !! tmp_name name) as [i|] eqn:Ei; [|done].
  destruct K as [K1 K2 K3 K4 K5]. assert (delete (tmp_name name) (v_names v) !! name = v_names v !! name) as Hs
    by (apply lookup_delete_ne, tmp_ne).
  split; [split; cbn; auto|].
  - intros names [->|Hn]%elem_of_cons; [rewrite Hs; apply (K1 _ K2)|by apply K1].
  - left.
  - intros names j _. by rewrite lookup_delete_eq.
  - intros j. by rewrite lookup_delete_eq.
  - unfold read_file in *. cbn. by rewrite Hs.
Qed.

Lemma kept_rename v i : kept false v → v_names v !! tmp_name name = Some i →
  v_data v !! i = Some data → v_synced v !! i = Some data →
  ∃ v', fs_rename v (tmp_name name) name = Some v' ∧ kept true v' ∧ read_file v' name = Some data.
Proof.
  intros [K1 K2 K3 K4 K5] Hi Hd Hs. unfold fs_rename. rewrite Hi. eexists. split; [reflexivity|]. split.
  - split; cbn; auto.
    + intros names [->|Hn]%elem_of_cons; [rewrite lookup_insert_eq; eauto 6|].
      specialize (K1 names Hn). destruct (names !! name); [|done]. destruct K1 as (bs & ? & ? & [?|[? _]]); [|done]. eauto 6.
    + left.
    + intros names j _. rewrite lookup_insert_ne by (apply not_eq_sym, tmp_ne). by rewrite lookup_delete_eq.
    + intros j. rewrite lookup_insert_ne by (apply not_eq_sym, tmp_ne). by rewrite lookup_delete_eq.
  - unfold read_file. cbn. by rewrite lookup_insert_eq.
Qed.

Lemma aw_inv_step s s' : aw_inv s → aw_step by_path name data s s' → aw_inv s'.
Proof.
  destruct s as [pc v], s' as [pc' v']. intros Hinv [a Ha]. cbn [fst snd] in Ha. unfold aw_exec in Ha.
  destruct pc as [|i n| | | |[]], a as [|m|]; try discriminate Ha; cbn [aw_inv fst snd] in Hinv.
  - destruct Hinv as [K Hr]. pose proof (kept_create v K Hr) as Hc. destruct (fs_create v _) as [v1 i].
    injection Ha as <- <-. destruct Hc as (? & ? & ? & ?). cbn [aw_inv fst snd]. split_and!; auto. lia.
  - injection Ha as <- <-. exact Hinv.
  - destruct Hinv as (K & Hr & Ht & Hd & Hn). destruct (Nat.eqb_spec n (length data)) as [->|]; [|done].
    rewrite take_ge in Hd by lia. destruct by_path; injection Ha as <- <-; cbn [aw_inv fst snd].
    + eauto 6.
    + destruct (kept_sync v i K Ht) as [K' Hr']. split; [exact K'|]. split; [congruence|].
      exists i. cbn. rewrite lookup_insert_eq, Hd. auto.
  - destruct Hinv as (K & Hr & Ht & Hd & Hn). destruct ((n <? m)%nat && (m <=? length data)%nat) eqn:E; [|done].
    apply andb_true_iff in E as [E1%Nat.ltb_lt E2%Nat.leb_le]. injection Ha as <- <-. cbn [aw_inv fst snd].
    unfold fs_write. destruct (kept_set_data false v i (write_at (default [] (v_data v !! i)) (take (m - n) (drop n data)) n) K Ht)
      as [K' Hr']. split; [exact K'|]. split; [congruence|]. split; [exact Ht|]. split; [|lia].
    cbn. rewrite lookup_insert_eq, Hd. cbn [from_option id]. f_equal.
    rewrite write_at_end by (rewrite length_take; lia).
    replace m with (n + (m - n))%nat at 2 by lia. by rewrite take_take_drop.
  - injection Ha as <- <-. cbn. tauto.
  - destruct Hinv as (K & Hr & i & Ht & Hd). unfold fsync_path in Ha. rewrite Ht in Ha. cbn in Ha. injection Ha as <- <-.
    cbn [aw_inv fst snd]. destruct (kept_sync v i K Ht) as [K' Hr']. split; [exact K'|]. split; [congruence|].
    exists i. cbn. rewrite lookup_insert_eq, Hd. auto.
  - injection Ha as <- <-. cbn. tauto.
  - destruct Hinv as (K & Hr & i & Ht & Hd & Hs). destruct (kept_rename v i K Ht Hd Hs) as (v1 & E & K' & Hr').
    rewrite E in Ha. injection Ha as <- <-. cbn. auto.
  - injection Ha as <- <-. cbn. tauto.
  - injection Ha as <- <-. cbn [aw_inv fst snd]. destruct Hinv as [K Hr]. by apply kept_remove.
  - injection Ha as <- <-. exact Hinv.
Qed.

End one_writer.

(** A volume at rest: the file is synced, and no temporary file of the name is the
    file itself. *)
Definition settled (v : Volume) (name : string) : Prop :=
  v_history v = [v_names v] ∧
  (∀ i, v_names v !! name = Some i → ∃ bs, v_data v !! i = Some bs ∧ v_synced v !! i = Some bs) ∧
  (∀ i, v_names v !! tmp_name name = Some i → v_names v !! name ≠ Some i ∧ is_Some (v_data v !! i)) ∧
  (∀ i, is_Some (v_data v !! i) → (i < v_next v)%nat).

Lemma settled_inv v name data : settled v name → aw_inv name data (read_file v name) (PStart, v).
Proof.
  intros (Hh & Hf & Ht & Hn). cbn. split; [|reflexivity]. split.
  - intros names. rewrite Hh. intros ->%list_elem_of_singleton. unfold read_file.
    destruct (v_names v !! name) as [i|] eqn:E; [|done]. destruct (Hf i eq_refl) as (bs & Hd & Hs).
    exists bs. cbn. rewrite Hd. auto.
  - rewrite Hh. apply list_elem_of_singleton. done.
  - intros names i. rewrite Hh. intros ->%list_elem_of_singleton Hi. apply (Ht i Hi).
  - exact Hn.
  - intros i Hi. apply (Ht i Hi).
Qed.

(** C6. A crash never tears a metadata file: at every point of a call, whichever
    operation fails, what a crash leaves under the name is the whole old content
    or the whole new content; a reader meanwhile sees one of the two; after a call
    that reports success it reads the new content, after one that reports an error
    the old. *)
Theorem atomic_write_never_torn by_path name data v pc v' :
  settled v name → rtc (aw_step by_path name data) (PStart, v) (pc, v') →
  (∀ c, after_crash v' name c → c = read_file v name ∨ c = Some data) ∧
  (read_file v' name = read_file v name ∨ read_file v' name = Some data) ∧
  (pc = PDone true → read_file v' name = Some data) ∧ (pc = PDone false → read_file v' name = read_file v name).
Proof.
  intros Hs Hr. assert (Hinv : aw_inv name data (read_file v name) (pc, v')).
  { pose proof (settled_inv v name data Hs) as H0. revert Hr H0. generalize (PStart, v) (pc, v'). intros s s' Hr.
    induction Hr; [done|]. intros ?. apply IHHr. by eapply aw_inv_step. }
  assert (∃ b, kept name data (read_file v name) b v') as (b & K)
    by (destruct pc as [| | | | |[]]; cbn in Hinv; destruct Hinv as [K _]; eauto).
  split_and!.
  - intros c Hc. destruct Hc as [names Hn H|names i bs Hn H Hd Hsy|names i bs Hn H Hne];
      pose proof (k_crash _ _ _ _ _ K names Hn) as Kc; rewrite H in Kc.
    + left. done.
    + destruct Kc as (bs' & Hd' & _ & Ho). rewrite Hd in Hd'. injection Hd' as ->. destruct Ho as [<-|[_ ->]]; auto.
    + destruct Kc as (bs' & Hd' & Hs' & _). congruence.
  - destruct pc as [| | | | |[]]; cbn in Hinv; tauto.
  - intros ->. cbn in Hinv. tauto.
  - intros ->. cbn in Hinv. tauto.
Qed.

(** A call that meets no failure succeeds. *)
Lemma atomic_write_succeeds by_path name data v :
  settled v name → ∃ v', atomic_write_json by_path v name data = Some v' ∧
    rtc (aw_step by_path name data) (PStart, v) (PDone true, v').
Proof.
  intros Hs. pose proof (settled_inv v name data Hs) as H0. unfold atomic_write_json.
  assert (Hgo : ∀ a pc v1 r, aw_exec by_path name data a pc v1 = Some r → aw_step by_path name data (pc, v1) r)
    by (intros a pc v1 r H; exists a; exact H).
  cbn [aw_exec]. destruct (fs_create v (tmp_name name)) as [v1 i] eqn:Ec. cbn [mbind option_bind].
  assert (S1 : aw_step by_path name data (PStart, v) (PWriting i 0, v1))
    by (apply (Hgo ANext); cbn; rewrite Ec; reflexivity).
  pose proof (aw_inv_step _ _ _ _ _ _ H0 S1) as I1.
  assert (∃ v2, (if (length data =? 0)%nat then Some (PWriting i 0, v1)
      else aw_exec by_path name data (AWrite (length data)) (PWriting i 0) v1) = Some (PWriting i (length data), v2) ∧
    rtc (aw_step by_path name data) (PWriting i 0, v1) (PWriting i (length data), v2) ∧
    aw_inv name data (read_file v name) (PWriting i (length data), v2)) as (v2 & E2 & R2 & I2).
  { destruct (Nat.eqb_spec (length data) 0) as [Hz|Hz]; [rewrite Hz; exists v1; split_and!; auto; reflexivity|].
    eexists. assert (E : aw_exec by_path name data (AWrite (length data)) (PWriting i 0) v1 =
      Some (PWriting i (length data), fs_write v1 i (take (length data - 0) (drop 0 data)) 0)).
    { cbn [aw_exec]. rewrite (proj2 (Nat.ltb_lt _ _)), (proj2 (Nat.leb_le _ _)) by lia. reflexivity. }
    split; [exact E|]. pose proof (Hgo _ _ _ _ E) as S2. split; [by apply rtc_once|]. by eapply aw_inv_step. }
  rewrite E2. cbn [mbind option_bind aw_exec]. rewrite Nat.eqb_refl.
  destruct I2 as (K2 & Hr2 & Ht2 & Hd2 & _). cbn [fst snd] in *. rewrite take_ge in Hd2 by lia.
  assert (Hsync : ∃ v3, (if by_path then fsync_path v2 (tmp_name name) = Some v3 else fs_sync v2 i = v3) ∧ v3 = fs_sync v2 i)
    by (exists (fs_sync v2 i); unfold fsync_path; rewrite Ht2; by destruct by_path).
  destruct Hsync as (v3 & E3 & Hv3).
  destruct (kept_sync name data (read_file v name) v2 i K2 Ht2) as [K3 _]. rewrite <- Hv3 in K3.
  destruct (kept_rename name data (read_file v name) v3 i K3) as (v4 & E4 & _).
  { subst v3. exact Ht2. } { subst v3. exact Hd2. } { subst v3. cbn. by rewrite lookup_insert_eq, Hd2. }
  exists v4. split.
  - destruct by_path; cbn [mbind option_bind aw_exec]; rewrite ?E3; cbn [mbind option_bind aw_exec]; rewrite E4; reflexivity.
  - eapply rtc_l; [exact S1|]. etransitivity; [exact R2|].
    destruct by_path.
    + eapply rtc_l; [apply (Hgo ANext); cbn; rewrite Nat.eqb_refl; reflexivity|].
      eapply rtc_l; [apply (Hgo ANext); cbn; rewrite E3; reflexivity|].
      apply rtc_once, (Hgo ANext). cbn. rewrite E4. reflexivity.
    + eapply rtc_l; [apply (Hgo ANext); cbn; rewrite Nat.eqb_refl, E3; reflexivity|].
      apply rtc_once, (Hgo ANext). cbn. rewrite E4. reflexivity.
Qed.

Definition demo_volume : Volume :=
  {| v_names := {["f" := 0%nat]}; v_data := {[0%nat := [x01; x02]]}; v_synced := {[0%nat := [x01; x02]]};
     v_history := [{["f" := 0%nat]}]; v_next := 1 |}.

Lemma demo_settled : settled demo_volume "f".
Proof.
  split; [reflexivity|]. split_and!.
  - intros i [= <-]. exists [x01; x02]. done.
  - intros i H. vm_compute in H. discriminate.
  - intros i [bs H]. cbn in *. apply lookup_singleton_Some in H as [<- _]. lia.
Qed.

Lemma atomic_write_never_torn_witness :
  ∃ v', atomic_write_json true demo_volume "f" [x07] = Some v' ∧ read_file v' "f" = Some [x07] ∧
    (∀ c, after_crash v' "f" c → c = Some [x01; x02] ∨ c = Some [x07]).
Proof.
  destruct (atomic_write_succeeds true "f" [x07] demo_volume demo_settled) as (v' & E & R).
  destruct (atomic_write_never_torn true "f" [x07] demo_volume _ _ demo_settled R) as (H1 & _ & H3 & _).
  exists v'. split; [exact E|]. split; [by apply H3|exact H1].
Defined.

(** Success does not mean that the new content survives: the directory is not
    synced, so a crash of the volume right after may bring the old file back. *)
Lemma renamed_file_may_revert :
  ∃ v', atomic_write_json true demo_volume "f" [x07] = Some v' ∧ after_crash v' "f" (Some [x01; x02]).
Proof.
  eexists. split; [vm_compute; reflexivity|].
  apply (crash_synced _ _ {["f" := 0%nat]} 0); [|reflexivity|reflexivity|reflexivity].
  do 2 right. left.
Qed.

(** ** Two writers of one file *)

(** A schedule: who acts, and how. *)
Fixpoint race (by_path : bool) (name : string) (d1 d2 : list byte) (sched : list (bool * Act)) (p1 p2 : Pc) (v : Volume) :
    option (Pc * Pc * Volume) :=
  match sched with
  | [] => Some (p1, p2, v)
  | (true, a) :: sched' => '(p1, v) ← aw_exec by_path name d1 a p1 v; race by_path name d1 d2 sched' p1 p2 v
  | (false, a) :: sched' => '(p2, v) ← aw_exec by_path name d2 a p2 v; race by_path name d1 d2 sched' p1 p2 v
  end.

(** Both use the same temporary name: the first call is complete up to its rename
    when the second truncates the temporary file and writes half of its bytes;
    the rename then publishes that half, which is neither content, and the first
    caller is told that it succeeded. *)
Lemma shared_tmp_publishes_half :
  race true "f" [x07; x08] [x09; x0a]
    [(true, ANext); (true, AWrite 2); (true, ANext); (true, ANext);
     (false, ANext); (false, AWrite 1); (true, ANext)] PStart PStart demo_volume
  ≫= (λ '(p1, p2, v), Some (p1, read_file v "f")) = Some (PDone true, Some [x09]).
Proof. vm_compute. reflexivity. Qed.
