(* ===== verification/TopicSweep.v ===== *)
(** * The sweep of topic directories

    [sweep_topics] of [kaas-operator-controllers/src/sweep.rs]: at start-up and
    every few minutes the operator removes, on every volume, the topic directories
    no [KafkaTopic] names, and those its controller renamed aside for deletion.
    The listing of a root, and what becomes of each removal, are arguments: a
    removal may fail with part of the directory already gone. *)

From stdpp Require Import base gmap strings list sorting.
From S2P Require Import Prelude SegmentDir Recovery Engine TopicCr.

Local Open Scope Z_scope.

Definition CLUSTER_FILES_DIR : string := "__cluster".
Definition STAGED_DELETE_PREFIX : string := ".deleting-".

(** An entry of a root: its name if it is UTF-8, whether it is a directory if that
    can be told. *)
Record Entry := { en_name : option string; en_is_dir : option bool }.
Inductive Listing := LMissing | LUnreadable | LEntries (es : list Entry).

(** [NotRemoved]: the partition directories the attempt had already removed, and
    whether the topic's own files were among them. *)
Inductive Removal := Removed | Gone | NotRemoved (lost : Z → bool) (lost_files : bool).

Record SweepReport := { removed : list string; failed : list string }.
Definition SweepReport_default : SweepReport := {| removed := []; failed := [] |}.

Definition base_keep_set : gset string := {[CLUSTER_FILES_DIR]}.
Definition keep_set (topics : Objects) : gset string :=
  base_keep_set ∪ list_to_set ((λ p : string * KafkaTopic, effective_topic_name p.1 p.2) <$> map_to_list topics).

Definition drop_some (s : Shared) (root topic : string) (lost : Z → bool) (lost_files : bool) : Shared :=
  {| volume := {| dirs := filter (λ e, ¬ (e.1.1 = root ∧ e.1.2.1 = topic ∧ lost e.1.2.2 = true)) (dirs (volume s));
                  stamps := if lost_files then delete (root, topic) (stamps (volume s)) else stamps (volume s) |};
     config_files := if lost_files then delete (root, topic) (config_files s) else config_files s |}.

Definition remove_orphan (remove : string → string → Removal) (root name : string) (st : Shared * SweepReport) :
    Shared * SweepReport :=
  let '(s, r) := st in
  match remove root name with
  | Removed => (stage_topic_dir s root name, {| removed := removed r ++ [name]; failed := failed r |})
  | Gone => (s, r)
  | NotRemoved lost lost_files => (drop_some s root name lost lost_files, {| removed := removed r; failed := failed r ++ [name] |})
  end.

(** Whether the sweep takes an entry. *)
Definition swept (keep : gset string) (e : Entry) : option string :=
  match en_is_dir e with
  | Some true =>
    match en_name e with
    | Some name =>
      if String.prefix STAGED_DELETE_PREFIX name then Some name
      else if String.prefix "." name || bool_decide (name ∈ keep) then None
      else Some name
    | None => None
    end
  | _ => None
  end.

Definition sort_names (l : list string) : list string := merge_sort String.le l.

Definition reclaim_orphan_dirs (remove : string → string → Removal) (keep : gset string) (root : string) (l : Listing)
    (s : Shared) : option (Shared * SweepReport) :=
  match l with
  | LMissing => Some (s, SweepReport_default)
  | LUnreadable => None
  | LEntries es =>
    let '(s, r) :=
      foldl (λ st e, match swept keep e with Some name => remove_orphan remove root name st | None => st end)
        (s, SweepReport_default) es in
    Some (s, {| removed := sort_names (removed r); failed := sort_names (failed r) |})
  end.

(** The loop over the roots; an unreadable root ends the pass, what was removed
    before it stays removed. *)
Fixpoint sweep_roots (remove : string → string → Removal) (list_root : string → Listing) (keep : gset string)
    (roots : list string) (s : Shared) (r : SweepReport) : Shared * option SweepReport :=
  match roots with
  | [] => (s, Some r)
  | root :: roots' =>
    match reclaim_orphan_dirs remove keep root (list_root root) s with
    | None => (s, None)
    | Some (s, r1) =>
      sweep_roots remove list_root keep roots' s
        {| removed := removed r ++ removed r1; failed := failed r ++ failed r1 |}
    end
  end.

(** [topics]: what the API server listed when the pass began. *)
Definition sweep_topics (remove : string → string → Removal) (list_root : string → Listing) (topics : Objects)
    (roots : list string) (s : Shared) : Shared * option SweepReport :=
  let '(s, r) := sweep_roots remove list_root (keep_set topics) roots s SweepReport_default in
  (s, (λ r, {| removed := sort_names (removed r); failed := sort_names (failed r) |}) <$> r).

(** ** Properties *)

Definition staged (name : string) : bool := String.prefix STAGED_DELETE_PREFIX name.

(** What is below the directory of a topic on a root. *)
Definition below (s : Shared) (root topic : string) : gmap (string * Key) Dir :=
  filter (λ e, e.1.1 = root ∧ e.1.2.1 = topic) (dirs (volume s)).

(** A step on one name leaves every other directory alone. *)
Definition untouched (name : string) (s s' : Shared) : Prop :=
  ∀ root p, dirs (volume s') !! (root, (name, p)) = dirs (volume s) !! (root, (name, p)) ∧
    stamps (volume s') !! (root, name) = stamps (volume s) !! (root, name) ∧
    config_files s' !! (root, name) = config_files s !! (root, name).

Lemma sweep_untouched_trans name s1 s2 s3 : untouched name s1 s2 → untouched name s2 s3 → untouched name s1 s3.
Proof.
  intros H1 H2 root p. destruct (H1 root p) as (A1 & A2 & A3), (H2 root p) as (B1 & B2 & B3).
  rewrite B1, B2, B3. auto.
Qed.

Lemma filter_other {V} (P : string * Key * V → Prop) `{!∀ e, Decision (P e)} (m : gmap (string * Key) V) k :
  (∀ v, P (k, v)) → filter P m !! k = m !! k.
Proof.
  intros HP. destruct (m !! k) as [v|] eqn:E.
  - apply map_lookup_filter_Some. auto.
  - apply map_lookup_filter_None. auto.
Qed.

Lemma remove_orphan_untouched remove root name st name' :
  name' ≠ name → untouched name' st.1 (remove_orphan remove root name st).1.
Proof.
  destruct st as [s r]. intros Hn root' p. unfold remove_orphan.
  destruct (remove root name) as [| |lost []]; cbn; [|done| |];
    rewrite ?filter_other by (intros ?; cbn; tauto); rewrite ?lookup_delete_ne by congruence; auto.
Qed.

Lemma remove_orphan_shrinks remove root name st :
  dirs (volume (remove_orphan remove root name st).1) ⊆ dirs (volume st.1).
Proof.
  destruct st as [s r]. unfold remove_orphan. destruct (remove root name); cbn; [apply map_filter_subseteq|done|apply map_filter_subseteq].
Qed.

(** One root: the entries it takes, and nothing else. *)
Definition reclaim_step (remove : string → string → Removal) (keep : gset string) (root : string)
    (st : Shared * SweepReport) (e : Entry) : Shared * SweepReport :=
  match swept keep e with Some name => remove_orphan remove root name st | None => st end.

Lemma reclaim_untouched remove keep root es name : (∀ e, e ∈ es → swept keep e ≠ Some name) → ∀ st,
  untouched name st.1 (foldl (reclaim_step remove keep root) st es).1.
Proof.
  induction es as [|e es IH]; intros Hn st; [intros ??; done|]. cbn [foldl].
  eapply sweep_untouched_trans; [|apply IH; intros e' He'; apply Hn; by right].
  unfold reclaim_step. destruct (swept keep e) as [n|] eqn:E; [|intros ??; done].
  apply remove_orphan_untouched. intros <-. by apply (Hn e (list_elem_of_here _ _)).
Qed.

Lemma reclaim_shrinks remove keep root es : ∀ st,
  dirs (volume (foldl (reclaim_step remove keep root) st es).1) ⊆ dirs (volume st.1).
Proof.
  induction es as [|e es IH]; intros st; [done|]. cbn [foldl]. etransitivity; [apply IH|].
  unfold reclaim_step. destruct (swept keep e); [apply remove_orphan_shrinks|done].
Qed.

Lemma remove_orphan_grows remove root name st :
  removed st.2 ⊆ removed (remove_orphan remove root name st).2 ∧ failed st.2 ⊆ failed (remove_orphan remove root name st).2.
Proof. destruct st as [s r]. unfold remove_orphan. destruct (remove root name); cbn; set_solver. Qed.

Lemma reclaim_grows remove keep root es : ∀ st,
  removed st.2 ⊆ removed (foldl (reclaim_step remove keep root) st es).2 ∧
  failed st.2 ⊆ failed (foldl (reclaim_step remove keep root) st es).2.
Proof.
  induction es as [|e es IH]; intros st; [done|]. cbn [foldl]. destruct (IH (reclaim_step remove keep root st e)) as [A B].
  unfold reclaim_step in A at 1, B at 1. destruct (swept keep e) as [n|]; [|done].
  destruct (remove_orphan_grows remove root n st). set_solver.
Qed.

(** What became of a name the sweep takes. *)
Definition reclaimed (remove : string → string → Removal) (root name : string) (s : Shared) (rem fail : list string) : Prop :=
  match remove root name with
  | Removed => below s root name = ∅ ∧ name ∈ rem
  | Gone => True
  | NotRemoved _ _ => name ∈ fail
  end.

Lemma below_empty s s' root name : dirs (volume s') ⊆ dirs (volume s) → below s root name = ∅ → below s' root name = ∅.
Proof.
  intros Hsub He. unfold below in *. apply map_eq. intros k. rewrite lookup_empty. apply map_lookup_filter_None.
  destruct (dirs (volume s') !! k) as [d|] eqn:E; [right|by left]. intros d' [= <-] Hk.
  assert (filter (λ e : string * Key * Dir, e.1.1 = root ∧ e.1.2.1 = name) (dirs (volume s)) !! k = Some d) as Hf.
  { apply map_lookup_filter_Some. split; [|exact Hk]. by eapply lookup_weaken. }
  rewrite He, lookup_empty in Hf. done.
Qed.

Lemma remove_orphan_reclaimed remove root name st :
  let st' := remove_orphan remove root name st in reclaimed remove root name st'.1 (removed st'.2) (failed st'.2).
Proof.
  destruct st as [s r]. unfold reclaimed, remove_orphan. destruct (remove root name); cbn; [|done|set_solver].
  split; [|set_solver]. unfold below. cbn. apply map_eq. intros k. rewrite lookup_empty. apply map_lookup_filter_None.
  destruct (filter _ (dirs (volume s)) !! k) as [d|] eqn:E; [right|by left]. intros d' [= <-] Hk.
  apply map_lookup_filter_Some in E as [_ E]. done.
Qed.

Lemma reclaimed_later remove root name s s' rem rem' fail fail' :
  dirs (volume s') ⊆ dirs (volume s) → rem ⊆ rem' → fail ⊆ fail' →
  reclaimed remove root name s rem fail → reclaimed remove root name s' rem' fail'.
Proof.
  unfold reclaimed. intros Hd Hr Hf. destruct (remove root name); [|done|set_solver].
  intros [H1 H2]. split; [by eapply below_empty|set_solver].
Qed.

Lemma reclaim_takes remove keep root es name e : ∀ st, e ∈ es → swept keep e = Some name →
  let st' := foldl (reclaim_step remove keep root) st es in reclaimed remove root name st'.1 (removed st'.2) (failed st'.2).
Proof.
  induction es as [|x es IH]; intros st He Hs; [by apply not_elem_of_nil in He|]. cbn [foldl].
  apply elem_of_cons in He as [<-|He]; [|by apply IH].
  unfold reclaim_step at 2 4 6. rewrite Hs.
  destruct (reclaim_grows remove keep root es (remove_orphan remove root name st)) as [A B].
  eapply reclaimed_later; [apply reclaim_shrinks|exact A|exact B|apply remove_orphan_reclaimed].
Qed.

Lemma sort_names_in l n : n ∈ sort_names l ↔ n ∈ l.
Proof. unfold sort_names. by rewrite (merge_sort_Permutation String.le l). Qed.

Lemma sweep_roots_untouched remove list_root keep name : (∀ e, swept keep e ≠ Some name) → ∀ roots s r,
  untouched name s (sweep_roots remove list_root keep roots s r).1.
Proof.
  intros Hn roots. induction roots as [|root roots IH]; intros s r; [intros ??; done|]. cbn [sweep_roots].
  unfold reclaim_orphan_dirs. destruct (list_root root) as [| |es]; [apply IH|intros ??; done|].
  fold (reclaim_step remove keep root). pose proof (reclaim_untouched remove keep root es name (λ e _, Hn e) (s, SweepReport_default)) as Hu.
  destruct (foldl _ _ es) as [s1 r1]. eapply sweep_untouched_trans; [exact Hu|apply IH].
Qed.

Lemma sweep_roots_takes remove list_root keep roots : ∀ s r s' r',
  sweep_roots remove list_root keep roots s r = (s', Some r') →
  dirs (volume s') ⊆ dirs (volume s) ∧ removed r ⊆ removed r' ∧ failed r ⊆ failed r' ∧
  ∀ root es e name, root ∈ roots → list_root root = LEntries es → e ∈ es → swept keep e = Some name →
    reclaimed remove root name s' (removed r') (failed r').
Proof.
  induction roots as [|root roots IH]; intros s r s' r'; cbn [sweep_roots].
  { intros [= <- <-]. split_and!; auto. intros ? ? ? ? H. by apply not_elem_of_nil in H. }
  unfold reclaim_orphan_dirs. destruct (list_root root) as [| |es] eqn:El; [|done|].
  - intros H. destruct (IH _ _ _ _ H) as (A & B & C & D). cbn in B, C. rewrite !app_nil_r in B, C. split_and!; auto.
    intros root' es e name [->|Hr]%elem_of_cons He; [congruence|]. eauto.
  - fold (reclaim_step remove keep root).
    pose proof (reclaim_shrinks remove keep root es (s, SweepReport_default)) as Hsh.
    pose proof (λ e name, reclaim_takes remove keep root es name e (s, SweepReport_default)) as Hta. cbv zeta in Hta.
    destruct (foldl _ _ es) as [s1 r1]. cbn [fst snd] in *. intros H. destruct (IH _ _ _ _ H) as (A & B & C & D). cbn in B, C.
    split_and!; [by etransitivity|intros n Hn; apply B, elem_of_app; by left|intros n Hn; apply C, elem_of_app; by left|].
    intros root' es' e name [->|Hr]%elem_of_cons He Hin Hsw; [|by eapply D].
    rewrite El in He. injection He as <-. eapply reclaimed_later; [exact A| | |exact (Hta e name Hin Hsw)].
    + intros n Hn. apply B. apply elem_of_app. right. by apply sort_names_in.
    + intros n Hn. apply C. apply elem_of_app. right. by apply sort_names_in.
Qed.

(** The sweep takes exactly the orphans: a topic the API server listed keeps every
    partition directory, stamp and configuration file on every volume, whatever
    fails and wherever the pass stops, and so do the broker's cluster files; and
    when the pass completes, every directory that is neither of these nor hidden,
    and every directory staged for deletion, has been removed and reported, or is
    reported as failed, one failure not keeping the others from being removed. *)
Theorem topic_sweep_exact remove list_root topics roots s s' r :
  sweep_topics remove list_root topics roots s = (s', r) →
  (∀ name, staged name = false →
     (name = CLUSTER_FILES_DIR ∨ ∃ meta t, topics !! meta = Some t ∧ effective_topic_name meta t = name) →
     untouched name s s') ∧
  (∀ rep, r = Some rep → ∀ root es e name, root ∈ roots → list_root root = LEntries es → e ∈ es →
     en_is_dir e = Some true → en_name e = Some name →
     (staged name = true ∨
        String.prefix "." name = false ∧ name ≠ CLUSTER_FILES_DIR ∧
        ∀ meta t, topics !! meta = Some t → effective_topic_name meta t ≠ name) →
     reclaimed remove root name s' (removed rep) (failed rep)).
Proof.
  unfold sweep_topics. destruct (sweep_roots _ _ _ _ _ _) as [s1 r1] eqn:E. intros [= <- <-].
  assert (Hkeep : ∀ name, name ∈ keep_set topics ↔
    name = CLUSTER_FILES_DIR ∨ ∃ meta t, topics !! meta = Some t ∧ effective_topic_name meta t = name).
  { intros name. unfold keep_set, base_keep_set. rewrite elem_of_union, elem_of_singleton, elem_of_list_to_set, list_elem_of_fmap.
    split; (intros [H|H]; [by left|right]).
    - destruct H as ([meta t] & -> & Hin%elem_of_map_to_list). eauto.
    - destruct H as (meta & t & Hl & <-). exists (meta, t). split; [done|]. by apply elem_of_map_to_list. }
  split.
  - intros name Hst Hk%Hkeep. pose proof (sweep_roots_untouched remove list_root (keep_set topics) name) as Hu.
    specialize (Hu ltac:(intros e; unfold swept; unfold staged in Hst; destruct (en_is_dir e) as [[]|]; try done;
      destruct (en_name e) as [n|]; [|done];
      destruct (decide (n = name)) as [->|Hne]; [rewrite Hst, (bool_decide_eq_true_2 _ Hk), orb_true_r; done|];
      repeat case_match; congruence) roots s SweepReport_default). rewrite E in Hu. exact Hu.
  - intros rep Hrep root es e name Hroot Hlist Hin Hdir Hname Hcase. destruct r1 as [r1|]; [|done].
    cbn in Hrep. injection Hrep as <-. cbn [removed failed].
    destruct (sweep_roots_takes _ _ _ _ _ _ _ _ E) as (_ & _ & _ & Ht).
    eapply (reclaimed_later _ _ _ s1 s1 (removed r1) _ (failed r1)); [done| | |].
    1, 2: intros n Hn; by apply sort_names_in.
    eapply Ht; eauto. unfold swept. rewrite Hdir, Hname. fold (staged name).
    destruct Hcase as [->|(Hp & Hc & Hl)]; [done|]. destruct (staged name); [done|]. rewrite Hp. cbn [orb].
    rewrite bool_decide_eq_false_2; [done|]. rewrite Hkeep. naive_solver.
Qed.

(** A volume with a live topic, an orphan, a staged deletion and the cluster
    files. *)
Definition sweep_volume (names : list string) : Shared :=
  {| volume := {| dirs := list_to_map ((λ t, (("/d0", (t, 0)), empty_dir)) <$> names); stamps := ∅ |}; config_files := ∅ |}.
Definition sweep_listing (names : list string) : Listing :=
  LEntries ((λ n, {| en_name := Some n; en_is_dir := Some true |}) <$> names).
Definition four_names : list string := ["keep"; "gone"; ".deleting-old.1"; "__cluster"].
Definition swept_volume : Shared * option SweepReport :=
  sweep_topics (λ _ name, if String.eqb name "gone" then NotRemoved (λ _, false) false else Removed)
    (λ _, sweep_listing four_names) {[ "keep" := orders ]} ["/d0"] (sweep_volume four_names).

Lemma topic_sweep_exact_witness :
  untouched "keep" (sweep_volume four_names) swept_volume.1 ∧ below swept_volume.1 "/d0" ".deleting-old.1" = ∅ ∧
  swept_volume.2 = Some {| removed := [".deleting-old.1"]; failed := ["gone"] |}.
Proof.
  destruct (topic_sweep_exact (λ _ name, if String.eqb name "gone" then NotRemoved (λ _, false) false else Removed)
    (λ _, sweep_listing four_names) {[ "keep" := orders ]} ["/d0"] (sweep_volume four_names) swept_volume.1 swept_volume.2)
    as [Hk Ht]; [reflexivity|]. split; [|split; [|vm_compute; reflexivity]].
  - apply Hk; [reflexivity|]. right. exists "keep", orders. split; reflexivity.
  - apply (Ht {| removed := [".deleting-old.1"]; failed := ["gone"] |} ltac:(vm_compute; reflexivity) "/d0" _
      {| en_name := Some ".deleting-old.1"; en_is_dir := Some true |} ".deleting-old.1" (list_elem_of_here _ _) eq_refl
      ltac:(do 2 right; left) eq_refl eq_refl). left. reflexivity.
Defined.

(** The prefix test comes before the test on live topics, and nothing refuses the
    name: a topic a client created as [.deleting-orders] loses its data at the
    next pass. *)
Lemma live_staged_name_swept sha1 :
  let name := ".deleting-orders" in
  ∃ objs, create_topic sha1 None ∅ name 1 [] = (objs, Ok tt) ∧
    (∃ meta t, objs !! meta = Some t ∧ effective_topic_name meta t = name) ∧
    below (sweep_volume [name]) "/d0" name ≠ ∅ ∧
    below (sweep_topics (λ _ _, Removed) (λ _, sweep_listing [name]) objs ["/d0"] (sweep_volume [name])).1 "/d0" name = ∅.
Proof.
  cbv zeta. set (cr := {| kt_deleting := false; kt_topic_name := ".deleting-orders"; kt_partitions := 1;
    kt_config := KafkaTopicConfig_default; kt_storage := None; kt_status := None |}).
  assert (Hb : build_cr sha1 ".deleting-orders" 1 [] = Ok ((name_for_cr sha1 ".deleting-orders").1, cr)) by reflexivity.
  exists (<[(name_for_cr sha1 ".deleting-orders").1 := cr]> ∅). split; [|split; [|split]].
  - unfold create_topic. rewrite Hb. change (schema_ok cr) with true. cbn [negb]. generalize (name_for_cr sha1 ".deleting-orders").1. intros m. reflexivity.
  - exists (name_for_cr sha1 ".deleting-orders").1, cr. split; [apply lookup_insert_eq|reflexivity].
  - intros He. assert (Hd : below (sweep_volume [".deleting-orders"]) "/d0" ".deleting-orders" !! ("/d0", (".deleting-orders", 0)) = Some empty_dir)
      by (vm_compute; reflexivity). rewrite He, lookup_empty in Hd. discriminate.
  - apply (remove_orphan_reclaimed (λ _ _, Removed) "/d0" ".deleting-orders" (sweep_volume [".deleting-orders"], SweepReport_default)).
Qed.
