(* ===== verification/ClusterCr.v ===== *)
(** * The external listener of a cluster

    [kafkacluster_controller.rs], [conditions.rs] and [observer.rs] of
    [kaas-operator-controllers], with the objects of
    [kaas-operator-api/src/kafkacluster.rs]: from a [KafkaCluster] the operator
    makes one certificate, one Service and one TLSRoute per broker, and reports in
    the status.  The API server is a store of objects; a call is answered, refused,
    or carried out with its answer lost. *)

From stdpp Require Import base gmap strings list pretty numbers relations.
From S2P Require Import Prelude SegmentDir.

Local Open Scope Z_scope.

(** ** The resource *)

Module Api.

Record IssuerRef := { ir_name : string; ir_kind : string }.
Record CertManagerConfig := { cm_enabled : bool; issuer_ref : IssuerRef }.
Record GatewayRef := { gr_name : string; gr_namespace : string }.
Record GatewayConfig := { gw_enabled : bool; gateway_ref : GatewayRef }.
Record ExternalListener := {
  enabled : bool; port : Z; hostname_pattern : string; bootstrap_hostname : string;
  cert_manager : CertManagerConfig; gateway : GatewayConfig; service_annotations : gmap string string }.

Definition default_internal_port : Z := 9092.
Definition default_external_port : Z := 9093.
Definition ExternalListener_default : ExternalListener :=
  {| enabled := false; port := default_external_port; hostname_pattern := ""; bootstrap_hostname := "";
     cert_manager := {| cm_enabled := false; issuer_ref := {| ir_name := ""; ir_kind := "" |} |};
     gateway := {| gw_enabled := false; gateway_ref := {| gr_name := ""; gr_namespace := "" |} |};
     service_annotations := ∅ |}.

Record Condition := {
  c_type : string; c_status : string; c_observed_generation : option Z; c_last_transition_time : string;
  c_reason : string; c_message : string }.
Record KafkaClusterStatus := { bootstrap_servers : list string; conditions : list Condition }.
Definition KafkaClusterStatus_default : KafkaClusterStatus := {| bootstrap_servers := []; conditions := [] |}.

Record KafkaCluster := {
  kc_name : option string; kc_namespace : option string; kc_uid : option string; kc_generation : option Z;
  kc_deleting : bool; kc_replicas : Z; kc_internal_port : Z; kc_external : ExternalListener;
  kc_status : option KafkaClusterStatus }.

(** ** The objects the operator writes *)

Record OwnerReference := { or_api_version : string; or_kind : string; or_name : string; or_uid : string;
  or_controller : option bool; or_block_owner_deletion : option bool }.
Record ServicePort := { sp_name : string; sp_port : Z; sp_target : string }.
(** [svc_rest] and [dy_rest]: the fields the operator carries over. *)
Record Service := {
  svc_owners : option (list OwnerReference); svc_selector : option (gmap string string); svc_ports : option (list ServicePort);
  svc_rest : gmap string string }.
Record Dynamic (S : Type) := {
  dy_labels : option (gmap string string); dy_owners : option (list OwnerReference); dy_spec : S; dy_rest : gmap string string }.
Record CertificateSpec := { secret_name : string; dns_names : list string; cert_issuer : IssuerRef }.
Record TlsRouteSpec := { hostnames : list string; parent_name : string; parent_namespace : option string;
  backend_name : string; backend_port : Z }.

End Api.
Export Api.
Arguments dy_labels {S}.
Arguments dy_owners {S}.
Arguments dy_spec {S}.
Arguments dy_rest {S}.

(** ** Conditions and counters *)

Definition READY : string := "Ready".
Definition STATUS_TRUE : string := "True".
Definition STATUS_FALSE : string := "False".

Definition stamped (c : Condition) (t : string) : Condition :=
  {| c_type := c_type c; c_status := c_status c; c_observed_generation := c_observed_generation c;
     c_last_transition_time := t; c_reason := c_reason c; c_message := c_message c |}.

Fixpoint set_condition_with_now (conds : list Condition) (cond : Condition) (now : string) : list Condition :=
  match conds with
  | [] => [stamped cond now]
  | e :: rest =>
    if String.eqb (c_type e) (c_type cond)
    then stamped cond (if String.eqb (c_status e) (c_status cond) then c_last_transition_time e else now) :: rest
    else e :: set_condition_with_now rest cond now
  end.

Record ReconcileObserver := { ok_count : Z; error_count : Z; requeue_count : Z }.
Definition ReconcileObserver_new : ReconcileObserver := {| ok_count := 0; error_count := 0; requeue_count := 0 |}.

(** ** Names and shapes *)

Definition cluster_name (c : KafkaCluster) : string := default "" (kc_name c).
Definition ordinal_name (c : KafkaCluster) (i : Z) : string := cluster_name c +:+ "-broker-" +:+ pretty i.
Definition cert_name (c : KafkaCluster) : string := cluster_name c +:+ "-broker-tls".
Definition pod_name (c : KafkaCluster) (i : Z) : string := cluster_name c +:+ "-" +:+ pretty i.

Definition nonzero_or (v fallback : Z) : Z := if v =? 0 then fallback else v.
Definition external_port (c : KafkaCluster) : Z := nonzero_or (port (kc_external c)) 9093.

(** The pattern around its first [%d]. *)
Fixpoint split_verb (pattern : string) : option (string * string) :=
  match pattern with
  | "" => None
  | String a rest =>
    match rest with
    | String b tail =>
      if String.prefix "%d" pattern then Some ("", tail)
      else '(h, t) ← split_verb rest; Some (String a h, t)
    | _ => None
    end
  end.
Definition format_hostname (pattern : string) (ordinal : Z) : string :=
  match split_verb pattern with
  | Some (head, tail) => head +:+ pretty ordinal +:+ tail
  | None => pattern
  end.

Definition broker_hostnames (c : KafkaCluster) : list string :=
  format_hostname (hostname_pattern (kc_external c)) <$> seqZ 0 (kc_replicas c).
Definition endpoint (host : string) (port : Z) : string := host +:+ ":" +:+ pretty port.
Definition build_bootstrap_servers (c : KafkaCluster) : list string :=
  (λ h, endpoint h (external_port c)) <$> broker_hostnames c.

Definition effective_fanout (cr_replicas : Z) (sts_replicas : option Z) : Z * option Z :=
  match sts_replicas with
  | Some sts => if negb (sts =? cr_replicas) then (Z.min cr_replicas sts, Some sts) else (cr_replicas, None)
  | None => (cr_replicas, None)
  end.

Definition owner_ref_for (c : KafkaCluster) : OwnerReference :=
  {| or_api_version := "kaas.rs/v1alpha1"; or_kind := "KafkaCluster"; or_name := cluster_name c;
     or_uid := default "" (kc_uid c); or_controller := Some true; or_block_owner_deletion := Some true |}.
Definition has_controller_owner (refs : option (list OwnerReference)) (c : KafkaCluster) : bool :=
  match refs with
  | None => false
  | Some refs => existsb (λ r, String.eqb (or_uid r) (default "" (kc_uid c)) && default false (or_controller r)) refs
  end.

Definition selector_for (c : KafkaCluster) (i : Z) : gmap string string :=
  <["statefulset.kubernetes.io/pod-name" := pod_name c i]>
    (<["app.kubernetes.io/instance" := cluster_name c]> {["app.kubernetes.io/name" := "kaas"]}).
Definition ports_for (c : KafkaCluster) : list ServicePort :=
  [{| sp_name := "kafka-tls"; sp_port := external_port c; sp_target := "kafka-tls" |}].
Definition managed_labels (c : KafkaCluster) : gmap string string :=
  <["kaas.rs/cluster" := cluster_name c]> {["app.kubernetes.io/managed-by" := "kaas-operator"]}.

Definition certificate_spec (c : KafkaCluster) : CertificateSpec :=
  let bootstrap := bootstrap_hostname (kc_external c) in
  {| secret_name := cert_name c;
     dns_names := broker_hostnames c ++ (if String.eqb bootstrap "" then [] else [bootstrap]);
     cert_issuer := issuer_ref (cert_manager (kc_external c)) |}.
Definition route_spec (c : KafkaCluster) (i : Z) : TlsRouteSpec :=
  let gw := gateway_ref (gateway (kc_external c)) in
  {| hostnames := [format_hostname (hostname_pattern (kc_external c)) i]; parent_name := gr_name gw;
     parent_namespace := if String.eqb (gr_namespace gw) "" then None else Some (gr_namespace gw);
     backend_name := ordinal_name c i; backend_port := external_port c |}.

(** ** The API server *)

Record Kube := {
  services : gmap (string * string) Service;
  certificates : gmap (string * string) (Dynamic CertificateSpec);
  routes : gmap (string * string) (Dynamic TlsRouteSpec);
  statuses : gmap (string * string) KafkaClusterStatus;
  statefulsets : gmap (string * string) (option Z) }.

Inductive Reply := Served | Refused (text : string) | Lost (text : string).

(** The reconciler: the two cells it fills once, its counters, and the number of
    calls made. *)
Record World := { kube : Kube; cell_routes : option bool; cell_certs : option bool; observer : ReconcileObserver; calls : nat }.

Inductive Action := AwaitChange | Requeue (secs : Z).

Definition M (A : Type) : Type := World → World * result string A.
#[global] Instance M_ret : MRet M := λ A a w, (w, Ok a).
#[global] Instance M_bind : MBind M := λ A B f m w, match m w with (w, Ok a) => f a w | (w, Err e) => (w, Err e) end.
Definition throw {A} (e : string) : M A := λ w, (w, Err e).

Definition set_kube (w : World) (k : Kube) : World :=
  {| kube := k; cell_routes := cell_routes w; cell_certs := cell_certs w; observer := observer w; calls := calls w |}.
Definition next_call (w : World) : World :=
  {| kube := kube w; cell_routes := cell_routes w; cell_certs := cell_certs w; observer := observer w; calls := S (calls w) |}.
Definition bump (f : ReconcileObserver → ReconcileObserver) : M unit := λ w,
  ({| kube := kube w; cell_routes := cell_routes w; cell_certs := cell_certs w; observer := f (observer w); calls := calls w |}, Ok tt).
Definition bump_success : M unit :=
  bump (λ o, {| ok_count := ok_count o + 1; error_count := error_count o; requeue_count := requeue_count o |}).
Definition bump_error : M unit :=
  bump (λ o, {| ok_count := ok_count o; error_count := error_count o + 1; requeue_count := requeue_count o |}).
Definition bump_requeue : M unit :=
  bump (λ o, {| ok_count := ok_count o; error_count := error_count o; requeue_count := requeue_count o + 1 |}).

Fixpoint for_each (l : list Z) (f : Z → M unit) : M unit :=
  match l with [] => mret tt | i :: l => _ ← f i; for_each l f end.

Definition set_services (k : Kube) (s : gmap (string * string) Service) : Kube :=
  {| services := s; certificates := certificates k; routes := routes k; statuses := statuses k; statefulsets := statefulsets k |}.
Definition set_certificates (k : Kube) (s : gmap (string * string) (Dynamic CertificateSpec)) : Kube :=
  {| services := services k; certificates := s; routes := routes k; statuses := statuses k; statefulsets := statefulsets k |}.
Definition set_routes (k : Kube) (s : gmap (string * string) (Dynamic TlsRouteSpec)) : Kube :=
  {| services := services k; certificates := certificates k; routes := s; statuses := statuses k; statefulsets := statefulsets k |}.
Definition set_statuses (k : Kube) (s : gmap (string * string) KafkaClusterStatus) : Kube :=
  {| services := services k; certificates := certificates k; routes := routes k; statuses := s; statefulsets := statefulsets k |}.

(** ** The reconciler *)

Section reconciler.
(** The answer to call [n], the time at call [n], the namespace of the operator,
    whether the server has the two optional kinds. *)
Context (reply : nat → Reply) (clock : nat → string) (namespace : string) (has_routes has_certs : bool).

Definition text_of (e : string) : string := "kube api error: " +:+ e.
(** A call for a kind the server does not have is an error whatever it asks. *)
Definition call {A} (served : bool) (effect : Kube → Kube) (value : Kube → A) : M A := λ w,
  let n := calls w in
  let w1 := next_call w in
  if negb served then (w1, Err (text_of "404 page not found"))
  else
    match reply n with
    | Served => (set_kube w1 (effect (kube w)), Ok (value (kube w)))
    | Refused e => (w1, Err (text_of e))
    | Lost e => (set_kube w1 (effect (kube w)), Err (text_of e))
    end.
Definition fetch {A} (served : bool) (value : Kube → A) : M A := call served (λ k, k) value.
Definition store (served : bool) (effect : Kube → Kube) : M unit := call served effect (λ _, tt).

Definition ns_of (c : KafkaCluster) : string := default namespace (kc_namespace c).

(** Asked once; an error other than 404 counts as served. *)
Definition resource_served (actual : bool) : M bool := λ w,
  let n := calls w in
  (next_call w, Ok (match reply n with Served => actual | _ => true end)).
Definition tls_routes_served : M bool := λ w,
  match cell_routes w with
  | Some b => (w, Ok b)
  | None =>
    match resource_served has_routes w with
    | (w, Ok b) => ({| kube := kube w; cell_routes := Some b; cell_certs := cell_certs w; observer := observer w; calls := calls w |}, Ok b)
    | r => r
    end
  end.
Definition certificates_served : M bool := λ w,
  match cell_certs w with
  | Some b => (w, Ok b)
  | None =>
    match resource_served has_certs w with
    | (w, Ok b) => ({| kube := kube w; cell_routes := cell_routes w; cell_certs := Some b; observer := observer w; calls := calls w |}, Ok b)
    | r => r
    end
  end.

Definition set_condition (conds : list Condition) (cond : Condition) (n : nat) : list Condition :=
  set_condition_with_now conds cond (clock n).

(** The status the cache had, changed and applied whole. *)
Definition patch_status (c : KafkaCluster) (mutate : nat → KafkaClusterStatus → KafkaClusterStatus) : M unit := λ w,
  match kc_name c with
  | None => (w, Ok tt)
  | Some name =>
    let status := mutate (calls w) (default KafkaClusterStatus_default (kc_status c)) in
    store true (λ k, set_statuses k (<[(ns_of c, name) := status]> (statuses k))) w
  end.
Definition ready_condition (c : KafkaCluster) (status reason message : string) : Condition :=
  {| c_type := READY; c_status := status; c_observed_generation := kc_generation c; c_last_transition_time := "";
     c_reason := reason; c_message := message |}.
Definition with_condition (cond : Condition) (n : nat) (st : KafkaClusterStatus) : KafkaClusterStatus :=
  {| bootstrap_servers := bootstrap_servers st; conditions := set_condition (conditions st) cond n |}.
Definition set_ready (c : KafkaCluster) (reason message : string) : M unit :=
  patch_status c (with_condition (ready_condition c STATUS_TRUE reason message)).
Definition fail_ready (c : KafkaCluster) (reason message : string) : M unit :=
  patch_status c (with_condition (ready_condition c STATUS_FALSE reason message)).

(** An unreadable StatefulSet counts as absent. *)
Definition statefulset_replicas (c : KafkaCluster) : M (option Z) := λ w,
  match kc_name c with
  | None => (w, Ok None)
  | Some name =>
    match fetch true (λ k, statefulsets k !! (ns_of c, name) ≫= id) w with
    | (w, Ok sts) => (w, Ok sts)
    | (w, Err _) => (w, Ok None)
    end
  end.

(** The object as it is written over what is there; a new one is owned by the
    cluster. *)
Definition service_over (c : KafkaCluster) (i : Z) (old : option Service) : Service :=
  match old with
  | Some s => {| svc_owners := svc_owners s; svc_selector := Some (selector_for c i); svc_ports := Some (ports_for c); svc_rest := svc_rest s |}
  | None =>
    {| svc_owners := Some [owner_ref_for c]; svc_selector := Some (selector_for c i); svc_ports := Some (ports_for c);
       svc_rest := {["type" := "ClusterIP"]} |}
  end.
Definition dynamic_over {S} (c : KafkaCluster) (spec : S) (old : option (Dynamic S)) : Dynamic S :=
  match old with
  | Some d =>
    {| dy_labels := Some (managed_labels c);
       dy_owners := if has_controller_owner (dy_owners d) c then dy_owners d
                    else Some (default [] (dy_owners d) ++ [owner_ref_for c]);
       dy_spec := spec; dy_rest := dy_rest d |}
  | None =>
    {| dy_labels := Some (managed_labels c); dy_owners := Some [owner_ref_for c]; dy_spec := spec; dy_rest := ∅ |}
  end.

Definition put_service (c : KafkaCluster) (i : Z) (k : Kube) : Kube :=
  let key := (ns_of c, ordinal_name c i) in
  set_services k (<[key := service_over c i (services k !! key)]> (services k)).
Definition put_certificate (c : KafkaCluster) (k : Kube) : Kube :=
  let key := (ns_of c, cert_name c) in
  set_certificates k (<[key := dynamic_over c (certificate_spec c) (certificates k !! key)]> (certificates k)).
Definition put_route (c : KafkaCluster) (i : Z) (k : Kube) : Kube :=
  let key := (ns_of c, ordinal_name c i) in
  set_routes k (<[key := dynamic_over c (route_spec c i) (routes k !! key)]> (routes k)).

(** A read, then the replacement of what was read or a creation. *)
Definition reconcile_broker_service (c : KafkaCluster) (i : Z) : M unit :=
  _ ← fetch true (λ k, services k !! (ns_of c, ordinal_name c i));
  store true (put_service c i).
Definition apply_unstructured (served : bool) (put : Kube → Kube) : M unit :=
  _ ← fetch served (λ _, tt);
  store served put.
Definition reconcile_certificate (c : KafkaCluster) : M unit := apply_unstructured has_certs (put_certificate c).
Definition reconcile_broker_tls_route (c : KafkaCluster) (i : Z) : M unit := apply_unstructured has_routes (put_route c i).

Definition delete_if_present (served : bool) (effect : Kube → Kube) : M unit := store served effect.
Definition del_service (c : KafkaCluster) (i : Z) (k : Kube) : Kube :=
  set_services k (delete (ns_of c, ordinal_name c i) (services k)).
Definition del_route (c : KafkaCluster) (i : Z) (k : Kube) : Kube :=
  set_routes k (delete (ns_of c, ordinal_name c i) (routes k)).
Definition del_certificate (c : KafkaCluster) (k : Kube) : Kube :=
  set_certificates k (delete (ns_of c, cert_name c) (certificates k)).

Definition delete_external_resources (c : KafkaCluster) : M unit :=
  certs ← certificates_served;
  _ ← (if certs : bool then delete_if_present has_certs (del_certificate c) else mret tt);
  routes_served ← tls_routes_served;
  for_each (seqZ 0 (Z.max (kc_replicas c) 10)) (λ i,
    _ ← delete_if_present true (del_service c i);
    if routes_served : bool then delete_if_present has_routes (del_route c i) else mret tt).

(** A failed step is reported before it is returned. *)
Definition or_fail (c : KafkaCluster) (reason : string) (step : M unit) : M unit := λ w,
  match step w with
  | (w, Ok tt) => (w, Ok tt)
  | (w, Err e) => (_ ← fail_ready c reason e; _ ← bump_error; throw e) w
  end.

Definition mismatch_message (c : KafkaCluster) (sts fanout : Z) : string :=
  "CR replicas=" +:+ pretty (kc_replicas c) +:+ ", StatefulSet replicas=" +:+ pretty sts +:+
  " — run helm upgrade; per-broker resources capped at " +:+ pretty fanout.

Definition advertise (c : KafkaCluster) (n : nat) (st : KafkaClusterStatus) : KafkaClusterStatus :=
  {| bootstrap_servers := build_bootstrap_servers c;
     conditions := set_condition (conditions st)
       (ready_condition c STATUS_TRUE "ExternalListenerReady" (pretty (kc_replicas c) +:+ " brokers advertised via external listener")) n |}.

(** The objects of [fanout] brokers, then the status. *)
Definition fan_out (c : KafkaCluster) (fanout : Z) (drifted : option Z) : M Action :=
  let ext := kc_external c in
  _ ← (if cm_enabled (cert_manager ext) then or_fail c "CertificateError" (reconcile_certificate c) else mret tt);
  _ ← for_each (seqZ 0 fanout) (λ i, or_fail c "ServiceError" (reconcile_broker_service c i));
  _ ← (if gw_enabled (gateway ext)
       then for_each (seqZ 0 fanout) (λ i, or_fail c "TLSRouteError" (reconcile_broker_tls_route c i))
       else mret tt);
  match drifted with
  | Some sts =>
    _ ← fail_ready c "ReplicasMismatch" (mismatch_message c sts fanout);
    _ ← bump_requeue;
    mret (Requeue 30)
  | None =>
    _ ← patch_status c (advertise c);
    _ ← bump_success;
    mret (Requeue 300)
  end.

Definition tear_down (c : KafkaCluster) : M Action :=
  _ ← delete_external_resources c;
  _ ← set_ready c "ExternalDisabled" "external listener disabled";
  _ ← bump_success;
  mret (Requeue 300).

Definition reconcile (c : KafkaCluster) : M Action :=
  if kc_deleting c then _ ← bump_requeue; mret AwaitChange
  else if negb (enabled (kc_external c)) then tear_down c
  else
    sts ← statefulset_replicas c;
    let '(fanout, drifted) := effective_fanout (kc_replicas c) sts in
    fan_out c fanout drifted.

(** The runtime: an error is counted and retried. *)
Definition error_policy : M Action := _ ← bump_error; mret (Requeue 10).
Definition reconcile_cluster (c : KafkaCluster) : M Action := λ w,
  match reconcile c w with
  | (w, Ok a) => (w, Ok a)
  | (w, Err _) => error_policy w
  end.

End reconciler.

(** ** What a reconcile may write *)

Section proofs.
Context (reply : nat → Reply) (clock : nat → string) (namespace : string) (has_routes has_certs : bool).
Notation ns_of := (ns_of namespace).

Inductive writes (c : KafkaCluster) (fan : Z) : Kube → Kube → Prop :=
| W_service i k : 0 ≤ i < fan → writes c fan k (put_service namespace c i k)
| W_route i k : gw_enabled (gateway (kc_external c)) = true → 0 ≤ i < fan → writes c fan k (put_route namespace c i k)
| W_certificate k : cm_enabled (cert_manager (kc_external c)) = true → writes c fan k (put_certificate namespace c k)
| W_status name st k : kc_name c = Some name → writes c fan k (set_statuses k (<[(ns_of c, name) := st]> (statuses k))).

(** [m] writes by [R] whatever is refused or lost; when it returns, [Q] holds. *)
Definition hoare {A} (R : Kube → Kube → Prop) (m : M A) (Q : A → Kube → Prop) : Prop :=
  ∀ w w' r, m w = (w', r) → rtc R (kube w) (kube w') ∧ ∀ a, r = Ok a → Q a (kube w').
Definition stable (R : Kube → Kube → Prop) (P : Kube → Prop) : Prop := ∀ k k', R k k' → P k → P k'.

Lemma stable_rtc R P k k' : stable R P → rtc R k k' → P k → P k'.
Proof. intros Hs. induction 1; eauto. Qed.

Lemma hoare_ret {A} R (a : A) : hoare R (mret a) (λ b _, b = a).
Proof. intros w w' r [= <- <-]. split; [done|]. by intros ? [= <-]. Qed.

Lemma hoare_throw {A} R e : hoare (A := A) R (throw e) (λ _ _, False).
Proof. intros w w' r [= <- <-]. split; [done|]. discriminate. Qed.

Lemma hoare_bump R f : hoare R (bump f) (λ _ _, True).
Proof. intros w w' r [= <- <-]. split; [apply rtc_refl|done]. Qed.

Lemma hoare_weaken {A} R (m : M A) (Q Q' : A → Kube → Prop) :
  hoare R m Q → (∀ a k, Q a k → Q' a k) → hoare R m Q'.
Proof. intros Hm Hq w w' r E. destruct (Hm _ _ _ E). eauto. Qed.

(** The post-condition of the first part is carried over what follows it. *)
Lemma hoare_bind {A B} R (m : M A) (f : A → M B) (P : A → Kube → Prop) (Q : B → Kube → Prop) (Q' : A → B → Kube → Prop) :
  hoare R m P → (∀ a, stable R (P a)) → (∀ a, hoare R (f a) (Q' a)) → (∀ a b k, P a k → Q' a b k → Q b k) →
  hoare R (m ≫= f) Q.
Proof.
  intros Hm Hs Hf HQ w w' r. unfold mbind, M_bind. destruct (m w) as [w1 [a|e]] eqn:E; intros H.
  - destruct (Hm _ _ _ E) as [R1 P1], (Hf a _ _ _ H) as [R2 P2].
    split; [by etransitivity|]. intros b ->. apply (HQ a); [|by apply P2]. eapply stable_rtc; eauto.
  - injection H as <- <-. destruct (Hm _ _ _ E) as [R1 _]. split; [done|]. discriminate.
Qed.

Lemma stable_const R (P : Prop) : stable R (λ _, P).
Proof. intros k k' _ H. exact H. Qed.

Lemma hoare_seq {A B} R (m : M A) (f : A → M B) (Q : B → Kube → Prop) :
  hoare R m (λ _ _, True) → (∀ a, hoare R (f a) Q) → hoare R (m ≫= f) Q.
Proof. intros Hm Hf. eapply hoare_bind; [exact Hm|intros a k k' _ _; exact I|exact Hf|]. auto. Qed.

Lemma hoare_then_bump {A B} R (m : M A) f (b : B) P :
  hoare R m P → hoare R (_ ← m; _ ← bump f; mret b) (λ x k, x = b ∧ ∃ a, P a k).
Proof.
  intros Hm w w' r. unfold mbind, M_bind, bump, mret, M_ret. destruct (m w) as [w1 [a|e]] eqn:E;
    destruct (Hm _ _ _ E) as [R1 P1]; intros [= <- <-]; (split; [exact R1|]); [|discriminate]. intros ? [= <-]. eauto.
Qed.

Lemma hoare_for_each R f (P : Z → Kube → Prop) l :
  (∀ i, i ∈ l → hoare R (f i) (λ _, P i)) → (∀ i, stable R (P i)) → hoare R (for_each l f) (λ _ k, ∀ i, i ∈ l → P i k).
Proof.
  intros Hf Hs. induction l as [|i l IH]; cbn [for_each].
  { eapply hoare_weaken; [apply hoare_ret|]. intros _ k _ i Hi. by apply not_elem_of_nil in Hi. }
  eapply hoare_bind; [apply Hf; by left|intros ?; apply Hs|intros ?; apply IH; intros j Hj; apply Hf; by right|].
  intros ? ? k Hi Hl j [->|Hj]%elem_of_cons; auto.
Qed.

Lemma hoare_call {A} R served effect (value : Kube → A) (Q : A → Kube → Prop) :
  (∀ k, rtc R k (effect k)) → (∀ k, Q (value k) (effect k)) → hoare R (call reply served effect value) Q.
Proof.
  intros HR HQ w w' r. unfold call. destruct served; cbn [negb]; [|by intros [= <- <-]].
  destruct (reply (calls w)) as [| |]; intros [= <- <-]; split; try done; try apply HR. by intros ? [= <-].
Qed.

Lemma hoare_fetch {A} R served (value : Kube → A) : hoare R (fetch reply served value) (λ _ _, True).
Proof. by apply hoare_call. Qed.

Lemma hoare_or_fail R c reason step (P : Kube → Prop) :
  hoare R step (λ _, P) → (∀ reason text, hoare R (fail_ready reply clock namespace c reason text) (λ _ _, True)) →
  hoare R (or_fail reply clock namespace c reason step) (λ _, P).
Proof.
  intros Hs Hf w w' r. unfold or_fail. destruct (step w) as [w1 [[]|e]] eqn:E; destruct (Hs _ _ _ E) as [R1 P1].
  - intros [= <- <-]. eauto.
  - intros H. assert (Hh : hoare R (_ ← fail_ready reply clock namespace c reason e; _ ← bump_error; throw (A := unit) e) (λ _ _, False)).
    { apply hoare_seq; [apply Hf|]. intros _. apply hoare_seq; [apply hoare_bump|]. intros _. apply hoare_throw. }
    destruct (Hh _ _ _ H) as [R2 P2]. split; [by etransitivity|]. intros a ->. by destruct (P2 a).
Qed.

(** What a completed reconcile leaves for an ordinal. *)
Definition service_at (c : KafkaCluster) (i : Z) (k : Kube) : Prop :=
  ∃ s, services k !! (ns_of c, ordinal_name c i) = Some s ∧ svc_selector s = Some (selector_for c i) ∧ svc_ports s = Some (ports_for c).
Definition dynamic_at {S} (c : KafkaCluster) (spec : S) (o : option (Dynamic S)) : Prop :=
  ∃ d, o = Some d ∧ dy_spec d = spec ∧ dy_labels d = Some (managed_labels c) ∧ has_controller_owner (dy_owners d) c = true.
Definition route_at (c : KafkaCluster) (i : Z) (k : Kube) : Prop :=
  dynamic_at c (route_spec c i) (routes k !! (ns_of c, ordinal_name c i)).
Definition certificate_at (c : KafkaCluster) (k : Kube) : Prop :=
  dynamic_at c (certificate_spec c) (certificates k !! (ns_of c, cert_name c)).

Lemma append_inj (s t1 t2 : string) : s +:+ t1 = s +:+ t2 → t1 = t2.
Proof. induction s as [|a s IH]; cbn; [done|]. intros [= H]. auto. Qed.

Lemma ordinal_name_inj c i j : ordinal_name c i = ordinal_name c j → i = j.
Proof. unfold ordinal_name. intros H%append_inj%append_inj. by apply (inj pretty). Qed.

Lemma owner_ref_owns c : has_controller_owner (Some [owner_ref_for c]) c = true.
Proof. cbn. by rewrite String.eqb_refl. Qed.

Lemma dynamic_over_at {S} c (spec : S) o : dynamic_at c spec (Some (dynamic_over c spec o)).
Proof.
  eexists. split; [done|]. destruct o as [d|]; cbn; [|by rewrite String.eqb_refl].
  destruct (has_controller_owner (dy_owners d) c) eqn:E; [done|]. split; [done|]. split; [done|].
  cbn. rewrite existsb_app. cbn. by rewrite String.eqb_refl, orb_true_r.
Qed.

Lemma service_at_stable c fan i : stable (writes c fan) (service_at c i).
Proof.
  intros k k' Hw. destruct Hw as [j k Hj|j k Hg Hj|k Hc|name st k Hn]; try done. intros (s & Hs & H). unfold service_at, put_service. cbn.
  destruct (decide (j = i)) as [->|Hne].
  - rewrite lookup_insert_eq, Hs. eexists. split; [done|]. done.
  - rewrite lookup_insert_ne by (intros [= E%ordinal_name_inj]; done). eauto.
Qed.

Lemma route_at_stable c fan i : stable (writes c fan) (route_at c i).
Proof.
  intros k k' Hw. destruct Hw as [j k Hj|j k Hg Hj|k Hc|name st k Hn]; try done. unfold route_at, put_route. cbn. intros H.
  destruct (decide (j = i)) as [->|Hne].
  - rewrite lookup_insert_eq. apply dynamic_over_at.
  - rewrite lookup_insert_ne by (intros [= E%ordinal_name_inj]; done). done.
Qed.

Lemma certificate_at_stable c fan : stable (writes c fan) (certificate_at c).
Proof.
  intros k k' Hw. destruct Hw as [j k Hj|j k Hg Hj|k Hc|name st k Hn]; try done. intros _. unfold certificate_at, put_certificate. cbn.
  rewrite lookup_insert_eq. apply dynamic_over_at.
Qed.

Lemma hoare_patch_status c fan mutate :
  hoare (writes c fan) (patch_status reply namespace c mutate)
    (λ _ k, ∀ name, kc_name c = Some name →
       ∃ n, statuses k !! (ns_of c, name) = Some (mutate n (default KafkaClusterStatus_default (kc_status c)))).
Proof.
  intros w w' r. unfold patch_status. destruct (kc_name c) as [name|] eqn:En.
  - intros H. refine (hoare_call (writes c fan) true _ (λ _, tt) (λ _ k, ∀ name', Some name = Some name' →
      ∃ n, statuses k !! (ns_of c, name') = Some (mutate n (default KafkaClusterStatus_default (kc_status c)))) _ _ w w' r H).
    + intros k. apply rtc_once, W_status, En.
    + intros k name' [= <-]. cbn. rewrite lookup_insert_eq. eauto.
  - intros [= <- <-]. split; [apply rtc_refl|]. discriminate.
Qed.

Lemma hoare_fail_ready c fan reason text : hoare (writes c fan) (fail_ready reply clock namespace c reason text) (λ _ _, True).
Proof. eapply hoare_weaken; [apply hoare_patch_status|done]. Qed.

Lemma hoare_put c fan served effect (P : Kube → Prop) {A} (value : Kube → A) :
  (∀ k, writes c fan k (effect k)) → (∀ k, P (effect k)) →
  hoare (writes c fan) (_ ← fetch reply served value; store reply served effect) (λ _, P).
Proof.
  intros Hw HP. apply hoare_seq; [apply hoare_fetch|]. intros _. apply hoare_call; [|done]. intros k. by apply rtc_once.
Qed.

(** What [fan_out] leaves when it returns. *)
Record fanned (c : KafkaCluster) (fan : Z) (k : Kube) : Prop := {
  fn_cert : cm_enabled (cert_manager (kc_external c)) = true → certificate_at c k;
  fn_services : ∀ i, 0 ≤ i < fan → service_at c i k;
  fn_routes : gw_enabled (gateway (kc_external c)) = true → ∀ i, 0 ≤ i < fan → route_at c i k }.
Definition advertised (c : KafkaCluster) (k : Kube) : Prop :=
  ∀ name, kc_name c = Some name →
    ∃ n, statuses k !! (ns_of c, name) = Some (advertise clock c n (default KafkaClusterStatus_default (kc_status c))).

Lemma hoare_certificate c fan :
  hoare (writes c fan) (if cm_enabled (cert_manager (kc_external c))
    then or_fail reply clock namespace c "CertificateError" (reconcile_certificate reply namespace has_certs c) else mret tt)
    (λ _ k, cm_enabled (cert_manager (kc_external c)) = true → certificate_at c k).
Proof.
  destruct (cm_enabled _) eqn:Ec; [|eapply hoare_weaken; [apply hoare_ret|done]].
  eapply hoare_weaken; [apply (hoare_or_fail _ _ _ _ (certificate_at c)); [|intros; apply hoare_fail_ready]|auto].
  apply hoare_put; [intros k; by apply W_certificate|]. intros k. unfold certificate_at, put_certificate. cbn.
  rewrite lookup_insert_eq. apply dynamic_over_at.
Qed.

Lemma hoare_services c fan :
  hoare (writes c fan) (for_each (seqZ 0 fan) (λ i, or_fail reply clock namespace c "ServiceError" (reconcile_broker_service reply namespace c i)))
    (λ _ k, ∀ i, 0 ≤ i < fan → service_at c i k).
Proof.
  eapply hoare_weaken; [apply (hoare_for_each _ _ (service_at c))|].
  - intros i Hi%elem_of_seqZ. apply hoare_or_fail; [|intros; apply hoare_fail_ready].
    apply hoare_put; [intros k; apply W_service; lia|]. intros k. unfold service_at, put_service. cbn.
    rewrite lookup_insert_eq. eexists. split; [done|]. by destruct (services k !! _).
  - intros i. apply service_at_stable.
  - intros ? k H i Hi. apply H, elem_of_seqZ. lia.
Qed.

Lemma hoare_routes c fan :
  hoare (writes c fan) (if gw_enabled (gateway (kc_external c)) then for_each (seqZ 0 fan) (λ i, or_fail reply clock namespace c "TLSRouteError" (reconcile_broker_tls_route reply namespace has_routes c i)) else mret tt)
    (λ _ k, gw_enabled (gateway (kc_external c)) = true → ∀ i, 0 ≤ i < fan → route_at c i k).
Proof.
  destruct (gw_enabled _) eqn:Eg; [|eapply hoare_weaken; [apply hoare_ret|done]].
  eapply hoare_weaken; [apply (hoare_for_each _ _ (route_at c))|].
  - intros i Hi%elem_of_seqZ. apply hoare_or_fail; [|intros; apply hoare_fail_ready].
    apply hoare_put; [intros k; apply W_route; [done|lia]|]. intros k. unfold route_at, put_route. cbn.
    rewrite lookup_insert_eq. apply dynamic_over_at.
  - intros i. apply route_at_stable.
  - intros ? k H _ i Hi. apply H, elem_of_seqZ. lia.
Qed.

Lemma stable_imp R (H : Prop) P : stable R P → stable R (λ k, H → P k).
Proof. intros Hs k k' Hw HP HH. eauto. Qed.

Lemma stable_all {A} R (P : A → Kube → Prop) : (∀ a, stable R (P a)) → stable R (λ k, ∀ a, P a k).
Proof. intros Hs k k' Hw HP a. eapply Hs; eauto. Qed.

Lemma hoare_fan_out c fan drifted :
  hoare (writes c fan) (fan_out reply clock namespace has_routes has_certs c fan drifted)
    (λ a k, fanned c fan k ∧ match drifted with None => a = Requeue 300 ∧ advertised c k | Some _ => a = Requeue 30 end).
Proof.
  unfold fan_out. eapply hoare_bind; [apply hoare_certificate| |intros ?|].
  { intros ?. apply stable_imp, certificate_at_stable. }
  { eapply hoare_bind; [apply hoare_services| |intros ?|].
    - intros ?. apply stable_all. intros i. apply stable_imp, service_at_stable.
    - eapply hoare_bind; [apply hoare_routes| |intros ?|].
      + intros ?. apply stable_imp, stable_all. intros i. apply stable_imp, route_at_stable.
      + instantiate (1 := λ _ a k, match drifted with None => a = Requeue 300 ∧ advertised c k | Some _ => a = Requeue 30 end).
        destruct drifted as [sts|].
        * apply hoare_seq; [apply hoare_fail_ready|]. intros _. apply hoare_seq; [apply hoare_bump|]. intros _. apply hoare_ret.
        * eapply hoare_weaken; [apply hoare_then_bump, hoare_patch_status|]. intros ? k [-> [_ Hp]]. split; [done|exact Hp].
      + intros ? b k H1 H2. exact (conj H1 H2).
    - intros ? b k H1 H2. exact (conj H1 H2). }
  intros ? b k H1 [H2 [H3 H4]]. split; [by split|done].
Qed.

(** ** Theorems on a reconcile with the listener on *)

Definition seen_replicas (c : KafkaCluster) (w : World) : option Z :=
  name ← kc_name c; statefulsets (kube w) !! (ns_of c, name) ≫= id.

Lemma statefulset_read c w :
  ∃ w1 sts, statefulset_replicas reply namespace c w = (w1, Ok sts) ∧ kube w1 = kube w ∧
    (sts = None ∨ sts = seen_replicas c w) ∧ (reply (calls w) = Served → sts = seen_replicas c w).
Proof.
  unfold statefulset_replicas, seen_replicas. destruct (kc_name c) as [name|]; [|by eauto 10].
  unfold fetch, call. cbn [negb]. destruct (reply (calls w)) eqn:E; do 2 eexists; (split; [done|]); cbn; naive_solver.
Qed.

Lemma reconcile_on c w w' r :
  kc_deleting c = false → enabled (kc_external c) = true →
  reconcile reply clock namespace has_routes has_certs c w = (w', r) →
  ∃ sts fan drifted, (sts = None ∨ sts = seen_replicas c w) ∧ (reply (calls w) = Served → sts = seen_replicas c w) ∧
    effective_fanout (kc_replicas c) sts = (fan, drifted) ∧ rtc (writes c fan) (kube w) (kube w') ∧
    ∀ a, r = Ok a → fanned c fan (kube w') ∧
      match drifted with None => a = Requeue 300 ∧ advertised c (kube w') | Some _ => a = Requeue 30 end.
Proof.
  unfold reconcile. intros -> ->. cbn [negb]. unfold mbind, M_bind.
  destruct (statefulset_read c w) as (w1 & sts & -> & Hk & Hs & Hv). destruct (effective_fanout _ _) as [fan drifted] eqn:E.
  intros H. destruct (hoare_fan_out _ _ _ _ _ _ H) as [Hw Hq]. rewrite Hk in Hw. exists sts, fan, drifted. auto.
Qed.

Lemma fanout_bound n sts fan drifted : effective_fanout n sts = (fan, drifted) →
  fan ≤ n ∧ (∀ m, sts = Some m → fan ≤ m) ∧ (drifted = None → fan = n).
Proof.
  unfold effective_fanout. destruct sts as [m|]; [destruct (m =? n) eqn:E; cbn [negb]|]; intros [= <- <-];
    try apply Z.eqb_eq in E; split_and!; intros; simplify_eq; lia.
Qed.

Lemma writes_services c fan k k' key : rtc (writes c fan) k k' →
  services k' !! key = services k !! key ∨ ∃ i, 0 ≤ i < fan ∧ key = (ns_of c, ordinal_name c i) ∧ service_at c i k'.
Proof.
  induction 1 as [k|k k1 k2 Hw Hr IH]; [by left|]. destruct IH as [IH|IH]; [|by right]. rewrite IH.
  destruct Hw as [j k Hj|j k Hg Hj|k Hc|name st k Hn]; try by left.
  destruct (decide (key = (ns_of c, ordinal_name c j))) as [->|Hne]; [|left; unfold put_service; cbn; by rewrite lookup_insert_ne].
  right. exists j. split_and!; [lia|lia|done|]. eapply stable_rtc; [apply service_at_stable|exact Hr|].
  unfold service_at, put_service. cbn. rewrite lookup_insert_eq. eexists. split; [done|]. by destruct (services k !! _).
Qed.

Lemma writes_routes c fan k k' key : rtc (writes c fan) k k' →
  routes k' !! key = routes k !! key ∨
  gw_enabled (gateway (kc_external c)) = true ∧ ∃ i, 0 ≤ i < fan ∧ key = (ns_of c, ordinal_name c i) ∧ route_at c i k'.
Proof.
  induction 1 as [k|k k1 k2 Hw Hr IH]; [by left|]. destruct IH as [IH|IH]; [|by right]. rewrite IH.
  destruct Hw as [j k Hj|j k Hg Hj|k Hc|name st k Hn]; try by left.
  destruct (decide (key = (ns_of c, ordinal_name c j))) as [->|Hne]; [|left; unfold put_route; cbn; by rewrite lookup_insert_ne].
  right. split; [done|]. exists j. split_and!; [lia|lia|done|]. eapply stable_rtc; [apply route_at_stable|exact Hr|].
  unfold route_at, put_route. cbn. rewrite lookup_insert_eq. apply dynamic_over_at.
Qed.

Lemma writes_certificates c fan k k' key : rtc (writes c fan) k k' →
  certificates k' !! key = certificates k !! key ∨
  cm_enabled (cert_manager (kc_external c)) = true ∧ key = (ns_of c, cert_name c) ∧ certificate_at c k'.
Proof.
  induction 1 as [k|k k1 k2 Hw Hr IH]; [by left|]. destruct IH as [IH|IH]; [|by right]. rewrite IH.
  destruct Hw as [j k Hj|j k Hg Hj|k Hc|name st k Hn]; try by left.
  destruct (decide (key = (ns_of c, cert_name c))) as [->|Hne]; [|left; unfold put_certificate; cbn; by rewrite lookup_insert_ne].
  right. split; [done|]. split; [done|]. eapply stable_rtc; [apply certificate_at_stable|exact Hr|].
  unfold certificate_at, put_certificate. cbn. rewrite lookup_insert_eq. apply dynamic_over_at.
Qed.

Lemma dynamic_over_id {S} c (spec : S) d : dynamic_at c spec (Some d) → dynamic_over c spec (Some d) = d.
Proof. intros (d' & [= <-] & Hs & Hl & Ho). destruct d as [l o sp rest]. cbn in *. subst. by rewrite Ho. Qed.

Lemma fanned_fixed c n fan k k' : fanned c n k → fan ≤ n → writes c fan k k' →
  services k' = services k ∧ routes k' = routes k ∧ certificates k' = certificates k.
Proof.
  intros Hf Hn. destruct 1 as [j k Hj|j k Hg Hj|k Hc|name st k Hname]; cbn; split_and!; try done; apply insert_id.
  - destruct (fn_services _ _ _ Hf j ltac:(lia)) as (s & -> & Hs & Hp). destruct s. cbn in *. by subst.
  - destruct (fn_routes _ _ _ Hf Hg j ltac:(lia)) as (d & Hd & H). rewrite Hd. f_equal. symmetry. apply dynamic_over_id. by exists d.
  - destruct (fn_cert _ _ _ Hf Hc) as (d & Hd & H). rewrite Hd. f_equal. symmetry. apply dynamic_over_id. by exists d.
Qed.

Lemma fanned_objects c n k k' :
  services k' = services k → routes k' = routes k → certificates k' = certificates k → fanned c n k → fanned c n k'.
Proof. intros Es Er Ec [H1 H2 H3]. split; unfold certificate_at, service_at, route_at in *; by rewrite ?Es, ?Er, ?Ec. Qed.

Lemma fanned_settled c n fan k k' : fan ≤ n → rtc (writes c fan) k k' → fanned c n k →
  services k' = services k ∧ routes k' = routes k ∧ certificates k' = certificates k.
Proof.
  intros Hn. induction 1 as [k|k k1 k2 Hw Hr IH]; [done|]. intros Hf.
  destruct (fanned_fixed _ _ _ _ _ Hf Hn Hw) as (E1 & E2 & E3).
  destruct IH as (F1 & F2 & F3); [by eapply fanned_objects|]. split_and!; congruence.
Qed.

Lemma format_hostname_inj pattern i j :
  is_Some (split_verb pattern) → format_hostname pattern i = format_hostname pattern j → i = j.
Proof.
  unfold format_hostname. intros [[h t] ->] H%append_inj%SegmentDir.append_inj_l. by apply (inj pretty).
Qed.

Lemma set_condition_in conds cond now : ∃ t, stamped cond t ∈ set_condition_with_now conds cond now.
Proof.
  induction conds as [|e rest [t IH]]; cbn; [eexists; by left|].
  destruct (String.eqb _ _); [eexists; by left|]. exists t. by right.
Qed.

End proofs.

(** With any answers of the API server, and wherever the reconcile ends, every
    Service, TLSRoute and Certificate is as it was or is the one wanted for an
    ordinal that the resource has, and that the StatefulSet has when it could be
    read: no Service selects a pod that cannot exist, nothing is written under
    another name, no TLSRoute when the gateway is off and no certificate when
    cert-manager is. *)
Theorem external_writes_scoped reply clock namespace has_routes has_certs c w w' r :
  reconcile reply clock namespace has_routes has_certs c w = (w', r) →
  kc_deleting c = false → enabled (kc_external c) = true →
  ∃ fan, fan ≤ kc_replicas c ∧
    (∀ n, reply (calls w) = Served → seen_replicas namespace c w = Some n → fan ≤ n) ∧
    ∀ key,
      (services (kube w') !! key = services (kube w) !! key ∨
        ∃ i, 0 ≤ i < fan ∧ key = (ns_of namespace c, ordinal_name c i) ∧ service_at namespace c i (kube w')) ∧
      (routes (kube w') !! key = routes (kube w) !! key ∨
        gw_enabled (gateway (kc_external c)) = true ∧
        ∃ i, 0 ≤ i < fan ∧ key = (ns_of namespace c, ordinal_name c i) ∧ route_at namespace c i (kube w')) ∧
      (certificates (kube w') !! key = certificates (kube w) !! key ∨
        cm_enabled (cert_manager (kc_external c)) = true ∧ key = (ns_of namespace c, cert_name c) ∧
        certificate_at namespace c (kube w')).
Proof.
  intros H Hd He. destruct (reconcile_on _ _ _ _ _ _ _ _ _ Hd He H) as (sts & fan & drifted & Hs & Hv & Hf & Hw & _).
  destruct (fanout_bound _ _ _ _ Hf) as (H1 & H2 & _). exists fan. split; [done|]. split.
  - intros n Hr Hn. apply H2. rewrite <-Hn. by apply Hv.
  - intros key. split; [|split]; [by eapply writes_services|by eapply writes_routes|by eapply writes_certificates].
Qed.

(** C38. With the external listener on, a reconcile that reports success has made the
    advertised endpoints reach their brokers: entry [i] of the bootstrap servers is
    the host of the pattern for [i] and the resource is Ready; a Service on the
    external port selects pod [i]; with cert-manager on, the host is in the
    certificate; with the gateway on, a TLSRoute of that host leads to that Service;
    and when the pattern has a [%d], no other broker's TLSRoute has the host.  (What
    a listener that is off leaves behind is [disabled_listener_removed] and
    [shrunk_cluster_keeps_services].) *)
Theorem external_endpoint_reaches_broker reply clock namespace has_routes has_certs c w w' name i :
  reconcile reply clock namespace has_routes has_certs c w = (w', Ok (Requeue 300)) →
  enabled (kc_external c) = true → kc_name c = Some name → 0 ≤ i < kc_replicas c →
  let k := kube w' in let ns := ns_of namespace c in let host := format_hostname (hostname_pattern (kc_external c)) i in
  (∃ st cond, statuses k !! (ns, name) = Some st ∧
     bootstrap_servers st !! Z.to_nat i = Some (endpoint host (external_port c)) ∧
     cond ∈ conditions st ∧ c_type cond = READY ∧ c_status cond = STATUS_TRUE) ∧
  (∃ s sel, services k !! (ns, ordinal_name c i) = Some s ∧
     svc_ports s = Some [{| sp_name := "kafka-tls"; sp_port := external_port c; sp_target := "kafka-tls" |}] ∧
     svc_selector s = Some sel ∧ sel !! "statefulset.kubernetes.io/pod-name" = Some (pod_name c i)) ∧
  (cm_enabled (cert_manager (kc_external c)) = true →
     ∃ cert, certificates k !! (ns, cert_name c) = Some cert ∧ host ∈ dns_names (dy_spec cert)) ∧
  (gw_enabled (gateway (kc_external c)) = true →
     (∃ route, routes k !! (ns, ordinal_name c i) = Some route ∧ hostnames (dy_spec route) = [host] ∧
        backend_name (dy_spec route) = ordinal_name c i ∧ backend_port (dy_spec route) = external_port c) ∧
     (is_Some (split_verb (hostname_pattern (kc_external c))) → ∀ j, 0 ≤ j < kc_replicas c → j ≠ i →
        ∃ route, routes k !! (ns, ordinal_name c j) = Some route ∧ host ∉ hostnames (dy_spec route))).
Proof.
  intros H He Hn Hi. assert (Hd : kc_deleting c = false).
  { destruct (kc_deleting c) eqn:Ed; [|done]. unfold reconcile in H. rewrite Ed in H. discriminate H. }
  destruct (reconcile_on _ _ _ _ _ _ _ _ _ Hd He H) as (sts & fan & drifted & _ & _ & Hf & _ & Hq).
  destruct (Hq _ eq_refl) as [[Hcert Hsvc Hroute] Hdr]. destruct drifted as [|]; [discriminate Hdr|]. destruct Hdr as [_ Hadv].
  destruct (fanout_bound _ _ _ _ Hf) as (_ & _ & Hfan). specialize (Hfan eq_refl). subst fan. cbv zeta.
  destruct (Hadv name Hn) as [n Hst].
  assert (Hhost : broker_hostnames c !! Z.to_nat i = Some (format_hostname (hostname_pattern (kc_external c)) i)).
  { unfold broker_hostnames. rewrite list_lookup_fmap, lookup_seqZ_lt by lia. cbn. do 2 f_equal. lia. }
  split; [|split; [|split]].
  - destruct (set_condition_in (conditions (default KafkaClusterStatus_default (kc_status c)))
      (ready_condition c STATUS_TRUE "ExternalListenerReady" (pretty (kc_replicas c) +:+ " brokers advertised via external listener")) (clock n)) as [t Ht].
    do 2 eexists. split; [exact Hst|]. split; [|split; [exact Ht|done]].
    cbn. unfold build_bootstrap_servers. by rewrite list_lookup_fmap, Hhost.
  - destruct (Hsvc i Hi) as (s & Hs1 & Hs2 & Hs3). exists s, (selector_for c i). split_and!; done.
  - intros Hc. destruct (Hcert Hc) as (d & Hd' & Hs & _). exists d. split; [done|]. rewrite Hs. cbn.
    apply elem_of_app. left. by eapply list_elem_of_lookup_2.
  - intros Hg. specialize (Hroute Hg). split.
    + destruct (Hroute i Hi) as (d & Hd' & Hs & _). exists d. rewrite Hs. by cbn.
    + intros Hp j Hj Hne. destruct (Hroute j Hj) as (d & Hd' & Hs & _). exists d. split; [done|]. rewrite Hs. cbn.
      intros E%list_elem_of_singleton. by apply Hne, (format_hostname_inj _ _ _ Hp).
Qed.

(** ** A settled listener *)

Definition with_status (c : KafkaCluster) (st : option KafkaClusterStatus) : KafkaCluster :=
  {| kc_name := kc_name c; kc_namespace := kc_namespace c; kc_uid := kc_uid c; kc_generation := kc_generation c;
     kc_deleting := kc_deleting c; kc_replicas := kc_replicas c; kc_internal_port := kc_internal_port c;
     kc_external := kc_external c; kc_status := st |}.

(** The reconcile has a fixed point: after one that reported success, a later one of
    the same resource, by this operator or by another, whatever it is answered and
    whatever the status has become, leaves every Service, TLSRoute and Certificate
    of the namespace as it is. *)
Theorem external_settles reply1 clock1 reply2 clock2 namespace has_routes has_certs c st w1 w1' w2 w2' r :
  reconcile reply1 clock1 namespace has_routes has_certs c w1 = (w1', Ok (Requeue 300)) →
  kc_deleting c = false → enabled (kc_external c) = true →
  services (kube w2) = services (kube w1') → routes (kube w2) = routes (kube w1') →
  certificates (kube w2) = certificates (kube w1') →
  reconcile reply2 clock2 namespace has_routes has_certs (with_status c st) w2 = (w2', r) →
  services (kube w2') = services (kube w2) ∧ routes (kube w2') = routes (kube w2) ∧
  certificates (kube w2') = certificates (kube w2).
Proof.
  intros H1 Hd He Es Er Ec H2.
  destruct (reconcile_on _ _ _ _ _ _ _ _ _ Hd He H1) as (sts1 & fan1 & drifted1 & _ & _ & Hf1 & _ & Hq).
  destruct (Hq _ eq_refl) as [Hfan Hdr]. destruct drifted1 as [|]; [discriminate Hdr|].
  destruct (fanout_bound _ _ _ _ Hf1) as (_ & _ & E1). specialize (E1 eq_refl).
  destruct (reconcile_on _ _ _ _ _ (with_status c st) _ _ _ Hd He H2) as (sts2 & fan2 & drifted2 & _ & _ & Hf2 & Hw & _).
  destruct (fanout_bound _ _ _ _ Hf2) as (Hle & _ & _). cbn in Hle.
  eapply (fanned_settled _ (with_status c st) fan1 fan2); [lia|exact Hw|].
  eapply (fanned_objects _ (with_status c st)); [exact Es|exact Er|exact Ec|].
  destruct Hfan as [F1 F2 F3]. split; [exact F1|exact F2|exact F3].
Qed.

(** ** When every call is answered *)

Section answered.
Context (reply : nat → Reply) (clock : nat → string) (namespace : string) (has_routes has_certs : bool).
Hypothesis answered : ∀ n, reply n = Served.

Definition returns {A} (m : M A) (Q : A → Prop) : Prop := ∀ w, ∃ w' a, m w = (w', Ok a) ∧ Q a.

Lemma returns_ret {A} (a : A) (Q : A → Prop) : Q a → returns (mret a) Q.
Proof. intros HQ w. by exists w, a. Qed.

Lemma returns_bind {A B} (m : M A) (f : A → M B) P Q : returns m P → (∀ a, P a → returns (f a) Q) → returns (m ≫= f) Q.
Proof. intros Hm Hf w. unfold mbind, M_bind. destruct (Hm w) as (w1 & a & -> & Ha). by apply Hf. Qed.

Lemma returns_then {A B} (m : M A) (f : A → M B) Q : returns m (λ _, True) → (∀ a, returns (f a) Q) → returns (m ≫= f) Q.
Proof. intros Hm Hf. eapply returns_bind; [exact Hm|auto]. Qed.

Lemma returns_call {A} effect (value : Kube → A) : returns (call reply true effect value) (λ _, True).
Proof. intros w. unfold call. cbn [negb]. rewrite answered. eauto. Qed.

Lemma returns_for_each l f : (∀ i, returns (f i) (λ _, True)) → returns (for_each l f) (λ _, True).
Proof. intros Hf. induction l as [|i l IH]; [by apply returns_ret|]. cbn [for_each]. by apply returns_then. Qed.

Lemma returns_or_fail c reason step : returns step (λ _, True) → returns (or_fail reply clock namespace c reason step) (λ _, True).
Proof. intros Hs w. unfold or_fail. destruct (Hs w) as (w1 & [] & -> & _). eauto. Qed.

Lemma returns_bump f : returns (bump f) (λ _, True).
Proof. intros w. unfold bump. eauto. Qed.

Lemma returns_patch_status c mutate : returns (patch_status reply namespace c mutate) (λ _, True).
Proof. intros w. unfold patch_status. destruct (kc_name c); [apply returns_call|eauto]. Qed.

Create HintDb calls.
#[local] Hint Resolve returns_ret returns_then returns_call returns_for_each returns_or_fail returns_bump returns_patch_status : calls.

Lemma returns_fan_out c fan drifted :
  (gw_enabled (gateway (kc_external c)) = true → has_routes = true) →
  (cm_enabled (cert_manager (kc_external c)) = true → has_certs = true) →
  returns (fan_out reply clock namespace has_routes has_certs c fan drifted)
    (λ a, a = match drifted with None => Requeue 300 | Some _ => Requeue 30 end).
Proof.
  intros Hr Hc. unfold fan_out. apply returns_then.
  { destruct (cm_enabled _); [|by apply returns_ret]. rewrite Hc by done.
    apply returns_or_fail. unfold reconcile_certificate, apply_unstructured, fetch, store. auto with calls. }
  intros _. apply returns_then.
  { apply returns_for_each. intros i. apply returns_or_fail. unfold reconcile_broker_service, fetch, store. auto with calls. }
  intros _. apply returns_then.
  { destruct (gw_enabled _); [|by apply returns_ret]. rewrite Hr by done.
    apply returns_for_each. intros i. apply returns_or_fail. unfold reconcile_broker_tls_route, apply_unstructured, fetch, store. auto with calls. }
  intros _. destruct drifted; unfold fail_ready, bump_requeue, bump_success; auto 10 with calls.
Qed.

Lemma reconcile_answered c w :
  kc_deleting c = false → enabled (kc_external c) = true →
  (gw_enabled (gateway (kc_external c)) = true → has_routes = true) →
  (cm_enabled (cert_manager (kc_external c)) = true → has_certs = true) →
  ∃ w', reconcile reply clock namespace has_routes has_certs c w =
    (w', Ok (match (effective_fanout (kc_replicas c) (seen_replicas namespace c w)).2 with None => Requeue 300 | Some _ => Requeue 30 end)).
Proof.
  intros Hd He Hr Hc. unfold reconcile. rewrite Hd, He. cbn [negb]. unfold mbind, M_bind.
  destruct (statefulset_read reply namespace c w) as (w1 & sts & -> & _ & _ & ->); [|apply answered].
  destruct (effective_fanout _ _) as [fan drifted]. destruct (returns_fan_out c fan drifted Hr Hc w1) as (w' & a & -> & ->). by exists w'.
Qed.

End answered.

(** ** The listener switched off *)

Section off.
Context (reply : nat → Reply) (clock : nat → string) (namespace : string).

Inductive deletes (c : KafkaCluster) : Kube → Kube → Prop :=
| D_service i k : 0 ≤ i < Z.max (kc_replicas c) 10 → deletes c k (del_service namespace c i k)
| D_route i k : 0 ≤ i < Z.max (kc_replicas c) 10 → deletes c k (del_route namespace c i k)
| D_certificate k : deletes c k (del_certificate namespace c k)
| D_status name st k : deletes c k (set_statuses k (<[(ns_of namespace c, name) := st]> (statuses k))).

Definition ordinal_gone (c : KafkaCluster) (i : Z) (k : Kube) : Prop :=
  services k !! (ns_of namespace c, ordinal_name c i) = None ∧ routes k !! (ns_of namespace c, ordinal_name c i) = None.
Definition certificate_gone (c : KafkaCluster) (k : Kube) : Prop :=
  certificates k !! (ns_of namespace c, cert_name c) = None.

Lemma service_gone_stable c i : stable (deletes c) (λ k, services k !! (ns_of namespace c, ordinal_name c i) = None).
Proof. intros k k' Hw H. destruct Hw; try done. cbn. apply lookup_delete_None. auto. Qed.

Lemma ordinal_gone_stable c i : stable (deletes c) (ordinal_gone c i).
Proof.
  intros k k' Hw [H1 H2]. split; [by eapply service_gone_stable|].
  destruct Hw; try done. cbn. apply lookup_delete_None. auto.
Qed.

Lemma certificate_gone_stable c : stable (deletes c) (certificate_gone c).
Proof. intros k k' Hw H. destruct Hw; try done. apply lookup_delete_eq. Qed.

Lemma hoare_delete c effect (P : Kube → Prop) :
  (∀ k, deletes c k (effect k)) → (∀ k, P (effect k)) → hoare (deletes c) (delete_if_present reply true effect) (λ _, P).
Proof. intros Hw HP. apply hoare_call; [|done]. intros k. by apply rtc_once. Qed.

Lemma hoare_tear_ordinals c :
  hoare (deletes c) (for_each (seqZ 0 (Z.max (kc_replicas c) 10)) (λ i,
    _ ← delete_if_present reply true (del_service namespace c i); delete_if_present reply true (del_route namespace c i)))
    (λ _ k, ∀ i, 0 ≤ i < Z.max (kc_replicas c) 10 → ordinal_gone c i k).
Proof.
  eapply hoare_weaken; [apply (hoare_for_each _ _ (ordinal_gone c))|].
  - intros i Hi%elem_of_seqZ. eapply hoare_bind.
    + apply (hoare_delete _ _ (λ k, services k !! (ns_of namespace c, ordinal_name c i) = None)); intros k; [apply D_service; lia|].
      apply lookup_delete_eq.
    + intros ?. apply service_gone_stable.
    + intros ?. apply (hoare_delete _ _ (λ k, routes k !! (ns_of namespace c, ordinal_name c i) = None)); intros k; [apply D_route; lia|].
      apply lookup_delete_eq.
    + intros ? ? k H1 H2. by split.
  - intros i. apply ordinal_gone_stable.
  - intros ? k H i Hi. apply H, elem_of_seqZ. lia.
Qed.

Lemma cells_read w : cell_routes w ≠ Some false → cell_certs w ≠ Some false →
  (∃ w1, tls_routes_served reply true w = (w1, Ok true) ∧ kube w1 = kube w ∧ cell_certs w1 = cell_certs w) ∧
  (∃ w1, certificates_served reply true w = (w1, Ok true) ∧ kube w1 = kube w ∧ cell_routes w1 = cell_routes w).
Proof.
  intros Hr Hc. unfold tls_routes_served, certificates_served, resource_served.
  split; [destruct (cell_routes w) as [[]|]|destruct (cell_certs w) as [[]|]]; try done; try (by exists w);
    (eexists; split; [destruct (reply (calls w)); reflexivity|done]).
Qed.

Lemma bind_inv {A B} (m : M A) (f : A → M B) w w' r : (m ≫= f) w = (w', r) →
  ∃ w1 x, m w = (w1, x) ∧ match x with Ok a => f a w1 = (w', r) | Err e => w1 = w' ∧ r = Err e end.
Proof. unfold mbind, M_bind. destruct (m w) as [w1 [a|e]]; intros H; do 2 eexists; (split; [done|]); [done|]. by injection H as <- <-. Qed.

Lemma call_cells {A} served effect (value : Kube → A) w w' r : call reply served effect value w = (w', r) → cell_routes w' = cell_routes w.
Proof. unfold call. destruct (negb served); [|destruct (reply (calls w))]; by intros [= <- <-]. Qed.

Lemma hoare_report c : hoare (deletes c)
  (_ ← set_ready reply clock namespace c "ExternalDisabled" "external listener disabled"; _ ← bump_success; mret (Requeue 300)) (λ _ _, True).
Proof.
  apply hoare_seq.
  - intros w w' r. unfold set_ready, patch_status. destruct (kc_name c) as [name|]; [|intros [= <- <-]; split; [apply rtc_refl|done]].
    refine (hoare_call reply (deletes c) true _ (λ _, tt) (λ _ _, True) _ _ w w' r); [|done]. intros k. apply rtc_once, D_status.
  - intros _. apply hoare_seq; [apply hoare_bump|]. intros _. eapply hoare_weaken; [apply hoare_ret|done].
Qed.

Lemma tear_down_gone c w w' r :
  cell_routes w ≠ Some false → cell_certs w ≠ Some false → tear_down reply clock namespace true true c w = (w', r) →
  rtc (deletes c) (kube w) (kube w') ∧
  ∀ a, r = Ok a → certificate_gone c (kube w') ∧ ∀ i, 0 ≤ i < Z.max (kc_replicas c) 10 → ordinal_gone c i (kube w').
Proof.
  intros Hr Hc H. apply bind_inv in H as (w5 & x5 & H & H5). apply bind_inv in H as (w1 & x1 & H1 & H).
  destruct (cells_read w Hr Hc) as [_ (w1' & E1 & Hk1 & Hr1)]. rewrite E1 in H1. injection H1 as <- <-.
  apply bind_inv in H as (w2 & x2 & H2 & H). rewrite <-Hk1, <-Hr1 in *.
  destruct (hoare_delete c (del_certificate namespace c) (certificate_gone c)
    (λ k, D_certificate c k) (λ k, lookup_delete_eq _ _) _ _ _ H2) as [R2 P2].
  destruct x2 as [u|e]; [|destruct H as [<- ->]; cbn in H5; destruct H5 as [<- ->]; split; [done|discriminate]].
  apply bind_inv in H as (w3 & x3 & H3 & H).
  assert (Hr2 : cell_routes w2 ≠ Some false) by (rewrite (call_cells _ _ _ _ _ _ H2); exact Hr).
  unfold tls_routes_served in H3.
  assert (Hw3 : kube w3 = kube w2 ∧ x3 = Ok true).
  { destruct (cell_routes w2) as [[]|]; [|done|]; cbn in H3; injection H3 as <- <-; [done|]. split; [done|].
    by destruct (reply (calls w2)). }
  destruct Hw3 as [Hk3 ->]. destruct (hoare_tear_ordinals c _ _ _ H) as [R3 P3]. rewrite Hk3 in R3.
  assert (R : rtc (deletes c) (kube w1') (kube w5)) by by etransitivity.
  destruct x5 as [u5|e]; [|destruct H5 as [<- ->]; split; [done|discriminate]].
  destruct (hoare_report c _ _ _ H5) as [R5 _]. split; [by etransitivity|]. intros a ->. split.
  - eapply stable_rtc; [apply certificate_gone_stable|exact R5|]. eapply stable_rtc; [apply certificate_gone_stable|exact R3|eauto].
  - intros i Hi. eapply stable_rtc; [apply ordinal_gone_stable|exact R5|]. eauto.
Qed.

Lemma deletes_keep c k k' key : rtc (deletes c) k k' →
  ((∀ i, 0 ≤ i < Z.max (kc_replicas c) 10 → key ≠ (ns_of namespace c, ordinal_name c i)) →
     services k' !! key = services k !! key ∧ routes k' !! key = routes k !! key) ∧
  (key ≠ (ns_of namespace c, cert_name c) → certificates k' !! key = certificates k !! key).
Proof.
  induction 1 as [k|k k1 k2 Hw Hr [IH1 IH2]]; [done|]. split.
  - intros Hk. destruct (IH1 Hk) as [-> ->]. destruct Hw; try done; cbn; rewrite lookup_delete_ne; [done|by apply not_eq_sym, Hk|done|by apply not_eq_sym, Hk].
  - intros Hk. rewrite (IH2 Hk). destruct Hw; try done. cbn. by rewrite lookup_delete_ne.
Qed.

End off.

(** Switching the listener off removes the certificate and the Service and TLSRoute
    of every ordinal below the larger of ten and the replica count, and nothing
    else, unless the operator had found one of the two kinds missing when it first
    asked; a pass that stops early has removed some of these only. *)
Theorem disabled_listener_removed reply clock namespace c w w' r :
  reconcile reply clock namespace true true c w = (w', r) →
  kc_deleting c = false → enabled (kc_external c) = false →
  cell_routes w ≠ Some false → cell_certs w ≠ Some false →
  (∀ a, r = Ok a → certificates (kube w') !! (ns_of namespace c, cert_name c) = None ∧
     ∀ i, 0 ≤ i < Z.max (kc_replicas c) 10 →
       services (kube w') !! (ns_of namespace c, ordinal_name c i) = None ∧
       routes (kube w') !! (ns_of namespace c, ordinal_name c i) = None) ∧
  (∀ key, (∀ i, 0 ≤ i < Z.max (kc_replicas c) 10 → key ≠ (ns_of namespace c, ordinal_name c i)) →
     services (kube w') !! key = services (kube w) !! key ∧ routes (kube w') !! key = routes (kube w) !! key) ∧
  (∀ key, key ≠ (ns_of namespace c, cert_name c) → certificates (kube w') !! key = certificates (kube w) !! key).
Proof.
  unfold reconcile. intros H Hd He Hr Hc. rewrite Hd, He in H. cbn [negb] in H.
  destruct (tear_down_gone _ _ _ _ _ _ _ Hr Hc H) as [Hw Hq]. split; [exact Hq|].
  split; intros key; by apply (deletes_keep _ _ _ _ _ Hw).
Qed.

(** ** Examples *)

Definition demo_external (on : bool) : ExternalListener :=
  {| enabled := on; port := 0; hostname_pattern := "b%d.kafka"; bootstrap_hostname := "kafka";
     cert_manager := {| cm_enabled := true; issuer_ref := {| ir_name := "ca"; ir_kind := "" |} |};
     gateway := {| gw_enabled := true; gateway_ref := {| gr_name := "gw"; gr_namespace := "" |} |};
     service_annotations := ∅ |}.
Definition demo_cluster (replicas : Z) (on : bool) (st : option KafkaClusterStatus) : KafkaCluster :=
  {| kc_name := Some "sk"; kc_namespace := Some "ns"; kc_uid := Some "uid-1"; kc_generation := Some 1; kc_deleting := false;
     kc_replicas := replicas; kc_internal_port := default_internal_port; kc_external := demo_external on; kc_status := st |}.
Definition empty_kube : Kube :=
  {| services := ∅; certificates := ∅; routes := ∅; statuses := ∅; statefulsets := ∅ |}.
Definition fresh_world (k : Kube) : World :=
  {| kube := k; cell_routes := None; cell_certs := None; observer := ReconcileObserver_new; calls := 0 |}.
Definition all_served (n : nat) : Reply := Served.
Definition noon (n : nat) : string := "12:00".
Definition demo_reconcile (reply : nat → Reply) (c : KafkaCluster) (w : World) : World * result string Action :=
  reconcile reply noon "kaas" true true c w.
Definition demo_on : World * result string Action := demo_reconcile all_served (demo_cluster 2 true None) (fresh_world empty_kube).

Lemma external_endpoint_reaches_broker_witness :
  (∃ st, statuses (kube demo_on.1) !! ("ns", "sk") = Some st ∧ bootstrap_servers st !! 1%nat = Some "b1.kafka:9093") ∧
  ∃ route, routes (kube demo_on.1) !! ("ns", ordinal_name (demo_cluster 2 true None) 1) = Some route ∧
    hostnames (dy_spec route) = ["b1.kafka"].
Proof.
  destruct (external_endpoint_reaches_broker all_served noon "kaas" true true (demo_cluster 2 true None)
    (fresh_world empty_kube) demo_on.1 "sk" 1) as ((st & cond & Hs & Hb & _) & _ & _ & Hg).
  - vm_compute. reflexivity.
  - reflexivity.
  - reflexivity.
  - split; [discriminate|reflexivity].
  - split; [exists st; split; [exact Hs|exact Hb]|].
    destruct Hg as [(route & Hr & Hh & _) _]; [reflexivity|]. exists route. split; [exact Hr|exact Hh].
Defined.

(** The third call, the write of the certificate, is refused. *)
Definition third_refused (n : nat) : Reply := if (n =? 2)%nat then Refused "conflict" else Served.

Lemma external_writes_scoped_witness :
  ∀ key, services (kube (demo_reconcile third_refused (demo_cluster 2 true None) (fresh_world empty_kube)).1) !! key = None ∨
    ∃ i, 0 ≤ i < 2 ∧ key = ("ns", ordinal_name (demo_cluster 2 true None) i).
Proof.
  intros key. destruct (external_writes_scoped third_refused noon "kaas" true true (demo_cluster 2 true None) (fresh_world empty_kube)
    (demo_reconcile third_refused (demo_cluster 2 true None) (fresh_world empty_kube)).1
    (demo_reconcile third_refused (demo_cluster 2 true None) (fresh_world empty_kube)).2) as (fan & Hf & _ & Hk).
  - unfold demo_reconcile. apply surjective_pairing.
  - reflexivity.
  - reflexivity.
  - destruct (Hk key) as [[H|(i & Hi & He & _)] _].
    + left. rewrite H. apply lookup_empty.
    + right. exists i. cbn in Hf. split; [lia|exact He].
Defined.

Definition demo_again : World * result string Action :=
  demo_reconcile third_refused (with_status (demo_cluster 2 true None) (statuses (kube demo_on.1) !! ("ns", "sk"))) demo_on.1.

Lemma external_settles_witness : services (kube demo_again.1) = services (kube demo_on.1).
Proof.
  destruct (external_settles all_served noon third_refused noon "kaas" true true (demo_cluster 2 true None)
    (statuses (kube demo_on.1) !! ("ns", "sk")) (fresh_world empty_kube) demo_on.1 demo_on.1 demo_again.1 demo_again.2) as [H _].
  - vm_compute. reflexivity.
  - reflexivity.
  - reflexivity.
  - reflexivity.
  - reflexivity.
  - reflexivity.
  - unfold demo_again, demo_reconcile. apply surjective_pairing.
  - exact H.
Defined.

Definition demo_off : World * result string Action := demo_reconcile all_served (demo_cluster 2 false None) (fresh_world (kube demo_on.1)).

Lemma disabled_listener_removed_witness :
  services (kube demo_on.1) !! ("ns", "sk-broker-1") ≠ None ∧ services (kube demo_off.1) !! ("ns", "sk-broker-1") = None.
Proof.
  split; [vm_compute; discriminate|].
  destruct (disabled_listener_removed all_served noon "kaas" (demo_cluster 2 false None) (fresh_world (kube demo_on.1)) demo_off.1 demo_off.2)
    as [H _].
  - unfold demo_off, demo_reconcile. apply surjective_pairing.
  - reflexivity.
  - reflexivity.
  - discriminate.
  - discriminate.
  - destruct (H (Requeue 300)) as [_ Ho]; [vm_compute; reflexivity|]. destruct (Ho 1) as [Hs _]; [split; [discriminate|reflexivity]|].
    exact Hs.
Defined.

(** Twelve brokers, then three, then the listener off: nothing removes what the
    last two ordinals had, and the status still advertises the three. *)
Definition grown : World := (demo_reconcile all_served (demo_cluster 12 true None) (fresh_world empty_kube)).1.
Definition shrunk : World :=
  (demo_reconcile all_served (demo_cluster 3 true (statuses (kube grown) !! ("ns", "sk"))) grown).1.
Definition switched_off : World * result string Action :=
  demo_reconcile all_served (demo_cluster 3 false (statuses (kube shrunk) !! ("ns", "sk"))) shrunk.

Lemma shrunk_cluster_keeps_services :
  is_Some (services (kube shrunk) !! ("ns", "sk-broker-3")) ∧
  switched_off.2 = Ok (Requeue 300) ∧
  is_Some (services (kube switched_off.1) !! ("ns", "sk-broker-10")) ∧
  is_Some (routes (kube switched_off.1) !! ("ns", "sk-broker-11")) ∧
  bootstrap_servers <$> (statuses (kube switched_off.1) !! ("ns", "sk")) = Some ["b0.kafka:9093"; "b1.kafka:9093"; "b2.kafka:9093"].
Proof. split_and!; try (eexists; vm_compute; reflexivity); vm_compute; reflexivity. Qed.

(** A Service that was there without an owner stays without one, where a TLSRoute
    or a certificate is given one. *)
Lemma adopted_service_unowned c i s : svc_owners (service_over c i (Some s)) = svc_owners s.
Proof. reflexivity. Qed.

(** A failed reconcile counts two errors. *)
Lemma failure_counted_twice :
  error_count (observer (reconcile_cluster third_refused noon "kaas" true true (demo_cluster 2 true None) (fresh_world empty_kube)).1) = 2.
Proof. vm_compute. reflexivity. Qed.
