(* ===== verification/ControlPlane.v ===== *)
(** * The control plane of a broker

    [kaas-broker/src/heartbeat_client.rs] (the stream to the controller, whose last
    message the write fence looks at), the readiness answer of
    [kaas-observability/src/health.rs] with [BrokerRuntimeState] of
    [bins/kaas/src/main.rs], and the controller stack of [bins/kaas/src/cluster.rs]:
    the grace period, the broker-set watcher and the slot topic changes are
    announced through. *)

From stdpp Require Import base gmap strings list pretty numbers.
From Stdlib Require Import Strings.Byte.
From S2P Require Import Prelude SegmentDir Recovery Cluster Balancer DataPlane Controller.

Local Open Scope Z_scope.

(** ** Process flags ([health.rs]) *)

Module Health.

Definition MAIN_LIVENESS_THRESHOLD_MS : Z := 5000.

Record Flags := { READY_SNAPSHOT : bool; MAIN_TICK_MS : Z; DRAINING : bool }.
Definition Flags_new : Flags := {| READY_SNAPSHOT := false; MAIN_TICK_MS := 0; DRAINING := false |}.

(** [now]: milliseconds of the monotonic clock. *)
Definition set_ready (v : bool) (f : Flags) : Flags :=
  {| READY_SNAPSHOT := v; MAIN_TICK_MS := MAIN_TICK_MS f; DRAINING := DRAINING f |}.
Definition record_main_tick (now : Z) (f : Flags) : Flags :=
  {| READY_SNAPSHOT := READY_SNAPSHOT f; MAIN_TICK_MS := Z.max now 1; DRAINING := DRAINING f |}.
Definition main_alive (now : Z) (f : Flags) : bool :=
  (0 <? MAIN_TICK_MS f) && (now - MAIN_TICK_MS f <? MAIN_LIVENESS_THRESHOLD_MS).
Definition mark_draining (f : Flags) : Flags :=
  {| READY_SNAPSHOT := READY_SNAPSHOT f; MAIN_TICK_MS := MAIN_TICK_MS f; DRAINING := true |}.

(** What the readiness handler was built with: the two environment variables, the
    mode, and the coordinator with the open partitions of the engine if there is
    one. *)
Record HealthConfig := {
  KAAS_TLS_PORT : string; EXTERNAL_HOSTNAME_PATTERN : string; cluster_mode : bool;
  source : option (option Coordinator * list (string * Z)) }.

Definition serving (s : option Coordinator * list (string * Z)) : bool :=
  match s.1 with Some c => is_serving c s.2 | None => true end.

Definition compute_ready (cfg : HealthConfig) (now : Z) (f : Flags) : bool :=
  if negb (READY_SNAPSHOT f) then false
  else if negb (String.eqb (KAAS_TLS_PORT cfg) "") && String.eqb (EXTERNAL_HOSTNAME_PATTERN cfg) "" then false
  else if negb (main_alive now f) then false
  else if cluster_mode cfg then match source cfg with Some s => serving s | None => false end
  else true.

Definition readyz (cfg : HealthConfig) (now : Z) (f : Flags) : Z := if compute_ready cfg now f then 200 else 503.

(** What [/healthz] says of the partitions. *)
Definition mine (c : Coordinator) : list PartitionAssignment :=
  match current c with Some a => filter (λ p, pa_broker p = self_id c) (partitions a) | None => [] end.
Definition count_i32 (n : nat) : Z := Z.min (Z.of_nat n) 2147483647.
Definition partitions_assigned (c : Coordinator) : Z := count_i32 (length (mine c)).
Definition partitions_led (c : Coordinator) (open : list (string * Z)) : Z :=
  count_i32 (length (filter (λ p, (pa_topic p, pa_partition p) ∈ open) (mine c))).
Definition partitions_recovering (c : Coordinator) (open : list (string * Z)) : Z :=
  Z.max (partitions_assigned c - partitions_led c open) 0.
Definition is_controller (c : Coordinator) : bool :=
  match current c with Some a => bool_decide (controller a = self_id c) | None => false end.

End Health.
Import Health.

(** ** The client ([heartbeat_client.rs]) *)

Module Client.

Inductive SendError := Disconnected | OutboxFull.
Definition RECONNECT_INITIAL_BACKOFF : Z := 500.
Definition RECONNECT_MAX_BACKOFF : Z := 5000.
Definition SEND_BUFFER : nat := 32.

(** The outbox: what is queued, and whether its receiving end is still held. *)
Record Outbox := { queue : list BrokerStatus; receiver : bool }.

(** Times in nanoseconds of the monotonic clock. *)
Record HeartbeatClient := { broker_id : string; outbox : option Outbox; last_received_ms : Z; reference_instant : Z }.
Definition HeartbeatClient_new (id : string) (now : Z) : HeartbeatClient :=
  {| broker_id := id; outbox := None; last_received_ms := 0; reference_instant := now |}.

Definition set_outbox (c : HeartbeatClient) (o : option Outbox) : HeartbeatClient :=
  {| broker_id := broker_id c; outbox := o; last_received_ms := last_received_ms c; reference_instant := reference_instant c |}.

(** [try_send]: full and closed are the same error. *)
Definition try_send_status (o : Outbox) (s : BrokerStatus) : option Outbox :=
  if receiver o && (length (queue o) <? SEND_BUFFER)%nat then Some {| queue := queue o ++ [s]; receiver := true |} else None.

Definition stamp_id (c : HeartbeatClient) (s : BrokerStatus) : BrokerStatus :=
  if String.eqb (bs_broker_id s) "" then
    {| bs_broker_id := broker_id c; bs_timestamp_ms := bs_timestamp_ms s; bs_version := bs_version s;
       bs_active_groups := bs_active_groups s; bs_healthy := bs_healthy s; bs_draining := bs_draining s |}
  else s.

Definition send (c : HeartbeatClient) (s : BrokerStatus) : HeartbeatClient * result SendError unit :=
  match outbox c with
  | None => (c, Err Disconnected)
  | Some o =>
    match try_send_status o (stamp_id c s) with
    | Some o => (set_outbox c (Some o), Ok tt)
    | None => (c, Err OutboxFull)
    end
  end.

Definition is_connected (c : HeartbeatClient) : bool := bool_decide (is_Some (outbox c)).

Definition i64_of_u128 (v : Z) : Z := Z.min v 9223372036854775807.
Definition record_received (now : Z) (c : HeartbeatClient) : HeartbeatClient :=
  {| broker_id := broker_id c; outbox := outbox c;
     last_received_ms := Z.max (i64_of_u128 (Z.max 0 (now - reference_instant c) / 1000000)) 1;
     reference_instant := reference_instant c |}.
Definition last_received (c : HeartbeatClient) : option Z :=
  if last_received_ms c =? 0 then None else Some (reference_instant c + last_received_ms c * 1000000).

Definition backoff_next (current : Z) : Z :=
  let next := current * 2 in if RECONNECT_MAX_BACKOFF <? next then RECONNECT_MAX_BACKOFF else next.

(** Where [run] is. *)
Inductive Phase := Resolving | Dialing (target : string) | Opening | Streaming | Sleeping | Stopped.
Record Runner := { client : HeartbeatClient; phase : Phase; backoff : Z }.
Definition Runner_new (c : HeartbeatClient) : Runner := {| client := c; phase := Resolving; backoff := RECONNECT_INITIAL_BACKOFF |}.
Definition at_phase (r : Runner) (c : HeartbeatClient) (p : Phase) : Runner := {| client := c; phase := p; backoff := backoff r |}.

(** What the loop and the tasks beside it meet: the resolver's answer, the outcome
    of the dial (with the wall clock and the flags of the moment) and of the opening
    of the stream, a command, the end of the stream, the end of a sleep, the
    cancellation, a status of the pump, the transport taking one or letting go. *)
Inductive Event :=
| EResolve (target : option string)
| EDial (ok : bool) (wall now_ms : Z) (f : Flags)
| EOpen (ok : bool)
| ECommand (now : Z)
| EEnd
| ESlept
| ECancel
| ESend (s : BrokerStatus)
| ETake
| EDrop.

(** The first message of a stream. *)
Definition initial (c : HeartbeatClient) (wall now_ms : Z) (f : Flags) : BrokerStatus :=
  {| bs_broker_id := broker_id c; bs_timestamp_ms := wall; bs_version := 0; bs_active_groups := [];
     bs_healthy := main_alive now_ms f; bs_draining := DRAINING f |}.

Definition close_receiver (c : HeartbeatClient) : HeartbeatClient :=
  set_outbox c ((λ o, {| queue := []; receiver := false |}) <$> outbox c).

(** [run] with [run_once] and [recv_loop].  A dial and an opening are not cut short
    by the cancellation; a stream that cannot be opened returns before the outbox
    is cleared, the receiving end going with it. *)
Definition step (r : Runner) (e : Event) : Runner :=
  match phase r, e with
  | Resolving, ECancel => at_phase r (client r) Stopped
  | Resolving, EResolve (Some t) =>
    if String.eqb t "" then at_phase r (client r) Sleeping else at_phase r (client r) (Dialing t)
  | Resolving, EResolve None => at_phase r (client r) Sleeping
  | Dialing _, EDial false _ _ _ => at_phase r (client r) Sleeping
  | Dialing _, EDial true wall now_ms f =>
    at_phase r (set_outbox (client r) (Some {| queue := [initial (client r) wall now_ms f]; receiver := true |})) Opening
  | Opening, EOpen true => at_phase r (client r) Streaming
  | Opening, EOpen false => at_phase r (close_receiver (client r)) Sleeping
  | Streaming, ECommand now => at_phase r (record_received now (client r)) Streaming
  | Streaming, EEnd => at_phase r (set_outbox (client r) None) Sleeping
  | Streaming, ECancel => at_phase r (set_outbox (client r) None) Stopped
  | Sleeping, ESlept => {| client := client r; phase := Resolving; backoff := backoff_next (backoff r) |}
  | Sleeping, ECancel => at_phase r (client r) Stopped
  | p, ESend s => at_phase r (send (client r) s).1 p
  | (Opening | Streaming) as p, ETake =>
    at_phase r (set_outbox (client r) ((λ o, {| queue := tail (queue o); receiver := receiver o |}) <$> outbox (client r))) p
  | (Opening | Streaming) as p, EDrop => at_phase r (close_receiver (client r)) p
  | _, _ => r
  end.

Definition run (r : Runner) (evs : list Event) : Runner := foldl step r evs.

End Client.
Import Client.

(** The periodic status of the pump ([control_plane]). *)
Definition pump_status (c : Coordinator) (groups : list string) (wall now_ms : Z) (f : Flags) : BrokerStatus :=
  {| bs_broker_id := ""; bs_timestamp_ms := wall;
     bs_version := match current c with Some a => Z.max 0 (assignment_version a) | None => 0 end;
     bs_active_groups := groups; bs_healthy := main_alive now_ms f; bs_draining := DRAINING f |}.

(** The address the client dials: the holder of the lease ([prepare_cluster_wiring]). *)
Definition resolve_target (hb_port : Z) (holder : option string) (r : BrokerRegistry) : option string :=
  h ← holder;
  if String.eqb h "" then None
  else
    ord ← parse_ordinal h;
    let host := match find (λ b, bool_decide (node_id b = ord)) (all r) with Some b => host b | None => fqdn (dns r) ord end in
    Some (host +:+ ":" +:+ pretty hb_port).

(** ** The controller stack ([run_controller]) *)

Module Stack.

Inductive AssignmentReason :=
  BrokerJoined | BrokerLeaving | BrokerDead | TopicCreated | TopicDeleted | TopicResized | AdminRebalance | InitialRecompute.

(** The wait for the brokers to dial in: poll [i] sees [connected i] of them, at
    [clock i] milliseconds; [fuel] polls at most. *)
Definition GRACE_MS : Z := 7000.
Definition POLL_MS : Z := 250.
Fixpoint grace (fuel i : nat) (want : nat) (connected : nat → nat) (cancelled : nat → bool) (clock : nat → Z) (grace_end : Z) : option nat :=
  match fuel with
  | O => None
  | S fuel =>
    if (connected i <? want)%nat
    then if cancelled i || (grace_end <=? clock i) then Some i
         else grace fuel (S i) want connected cancelled clock grace_end
    else Some i
  end.

(** The slot topic changes are announced through: the stint whose channel it
    holds, with what is queued there. *)
Record TopicChangeNotifier := { tx : option nat; queued : list (nat * AssignmentReason) }.
Definition TopicChangeNotifier_default : TopicChangeNotifier := {| tx := None; queued := [] |}.
Definition set_tx (n : TopicChangeNotifier) (t : option nat) : TopicChangeNotifier := {| tx := t; queued := queued n |}.
Definition notify (n : TopicChangeNotifier) (r : AssignmentReason) : TopicChangeNotifier :=
  match tx n with
  | Some s =>
    if (length (filter (λ q, q.1 = s) (queued n)) <? 32)%nat then {| tx := tx n; queued := queued n ++ [(s, r)] |} else n
  | None => n
  end.

(** A stint in office: the loop, the file, the heartbeat server, and the broker set
    last looked at. *)
Record Stint := { st_loop : AssignmentLoop; st_file : option Assignment; st_server : HeartbeatServer; st_prev : gset string }.

(** Of a trigger: the sources read, the time, whether the write succeeds. *)
Inductive Trigger := TTopic (reason : AssignmentReason) (src : Sources) (now : string) (ok : bool)
| TTick (src : Sources) (now : string) (ok : bool).

Definition alive_set (src : Sources) : gset string := list_to_set (s_alive src).
Definition tick_reason (prev cur : gset string) : option AssignmentReason :=
  if bool_decide (cur = prev) then None
  else Some (if bool_decide (prev ∖ cur = ∅) then BrokerJoined else BrokerDead).

Section stint.
Context (xxh64 : list byte → Z) (dir : string → Z → Dir).

Definition recompute (s : Stint) (src : Sources) (now : string) (ok : bool) : Stint :=
  match update_assignment xxh64 dir now src ok (st_loop s) (st_file s) with
  | (l, f, Ok v) => {| st_loop := l; st_file := f; st_server := push_assignment_changed (st_server s) (Z.max 0 v); st_prev := st_prev s |}
  | (l, f, Err _) => {| st_loop := l; st_file := f; st_server := st_server s; st_prev := st_prev s |}
  end.
Definition with_prev (s : Stint) (p : gset string) : Stint :=
  {| st_loop := st_loop s; st_file := st_file s; st_server := st_server s; st_prev := p |}.

Definition stint_step (s : Stint) (t : Trigger) : Stint :=
  match t with
  | TTopic _ src now ok => recompute s src now ok
  | TTick src now ok =>
    match tick_reason (st_prev s) (alive_set src) with
    | None => s
    | Some _ => recompute (with_prev s (alive_set src)) src now ok
    end
  end.

(** [None]: the first write failed and the office is given up. *)
Definition take_office (id : string) (epoch : Z) (h : HeartbeatServer) (file : option Assignment) (src : Sources) (now : string)
    (ok : bool) (after : Sources) : option Stint :=
  match loop_start xxh64 dir now src ok epoch (AssignmentLoop_new id) file with
  | (l, f, Ok v) => Some {| st_loop := l; st_file := f; st_server := push_assignment_changed h (Z.max 0 v); st_prev := alive_set after |}
  | (_, _, Err _) => None
  end.

Definition leave_office (s : Stint) : Stint :=
  {| st_loop := st_loop s; st_file := st_file s; st_server := push_leaving (st_server s); st_prev := st_prev s |}.

End stint.

End Stack.
Import Stack.

(** ** The write fence *)

(** The sleeps a run has finished. *)
Fixpoint sleeps (r : Runner) (evs : list Event) : nat :=
  match evs with
  | [] => 0
  | e :: evs => (match phase r, e with Sleeping, ESlept => 1 | _, _ => 0 end + sleeps (step r e) evs)%nat
  end.

Lemma backoff_step r e :
  backoff (step r e) = match phase r, e with Sleeping, ESlept => backoff_next (backoff r) | _, _ => backoff r end.
Proof. unfold step. destruct (phase r), e as [[t|]|[]| []| | | | | | |]; cbn; try done. by destruct (String.eqb t ""). Qed.

Lemma backoff_next_form n : backoff_next (Z.min 5000 (500 * 2 ^ Z.of_nat n)) = Z.min 5000 (500 * 2 ^ Z.of_nat (S n)).
Proof.
  unfold backoff_next, RECONNECT_MAX_BACKOFF. rewrite Nat2Z.inj_succ, Z.pow_succ_r by lia.
  assert (0 < 2 ^ Z.of_nat n) by lia. destruct (Z.ltb_spec 5000 (Z.min 5000 (500 * 2 ^ Z.of_nat n) * 2)); lia.
Qed.

Lemma backoff_run evs : ∀ r n, backoff r = Z.min 5000 (500 * 2 ^ Z.of_nat n) →
  backoff (run r evs) = Z.min 5000 (500 * 2 ^ Z.of_nat (n + sleeps r evs)).
Proof.
  induction evs as [|e evs IH]; intros r n Hb; cbn [sleeps run foldl]; [by rewrite Nat.add_0_r|].
  pose proof (backoff_step r e) as Hs. fold (run (step r e) evs).
  destruct (phase r) eqn:Ep; try (by rewrite (IH _ n) by congruence).
  destruct e; try (by rewrite (IH _ n) by congruence).
  rewrite (IH _ (S n)); [do 4 f_equal; lia|]. rewrite Hs, Hb. apply backoff_next_form.
Qed.

(** The wait before the client dials again depends on how many waits the process
    has been through and on nothing else: half a second doubled each time up to five
    seconds; streams that worked in between do not bring it down. *)
Theorem backoff_counts_failures id now evs :
  let r := Runner_new (HeartbeatClient_new id now) in
  backoff (run r evs) = Z.min 5000 (500 * 2 ^ Z.of_nat (sleeps r evs)).
Proof. cbv zeta. by rewrite (backoff_run evs _ 0). Qed.

(** The last command a run received. *)
Fixpoint last_command (r : Runner) (evs : list Event) : option Z :=
  match evs with
  | [] => None
  | e :: evs =>
    match last_command (step r e) evs with
    | Some t => Some t
    | None => match phase r, e with Streaming, ECommand t => Some t | _, _ => None end
    end
  end.

Lemma received_step r e :
  reference_instant (client (step r e)) = reference_instant (client r) ∧
  last_received_ms (client (step r e)) =
    match phase r, e with
    | Streaming, ECommand t => last_received_ms (record_received t (client r))
    | _, _ => last_received_ms (client r)
    end.
Proof.
  unfold step. destruct (phase r), e as [[t|]|[]| []| | | | | | |]; cbn; try done; try (by destruct (String.eqb t "")).
  all: unfold send; destruct (outbox (client r)) as [o|]; [|done]; by destruct (try_send_status _ _).
Qed.

Lemma received_run evs : ∀ r,
  reference_instant (client (run r evs)) = reference_instant (client r) ∧
  last_received_ms (client (run r evs)) =
    match last_command r evs with
    | Some t => Z.max (i64_of_u128 (Z.max 0 (t - reference_instant (client r)) / 1000000)) 1
    | None => last_received_ms (client r)
    end.
Proof.
  induction evs as [|e evs IH]; intros r; cbn [run foldl last_command]; [done|]. fold (run (step r e) evs).
  destruct (IH (step r e)) as [-> ->], (received_step r e) as [-> ->]. split; [done|].
  destruct (last_command (step r e) evs); [done|]. by destruct (phase r), e.
Qed.

Lemma last_command_in evs : ∀ r t, last_command r evs = Some t → ECommand t ∈ evs.
Proof.
  induction evs as [|e evs IH]; intros r t; cbn [last_command]; [done|].
  destruct (last_command (step r e) evs) as [t'|] eqn:E.
  - intros [= <-]. right. by eapply IH.
  - destruct (phase r), e; try done. intros [= <-]. by left.
Qed.

Definition FENCE_NS : Z := DEFAULT_HEARTBEAT_TIMEOUT * 1000000.

(** C28. The fence follows the commands of the controller to the millisecond, through
    any number of reconnects: a broker that never received one is fenced, one that
    received its last at [t] takes writes until three seconds after [t] and no
    longer. *)
Theorem write_fence_window id ref evs now :
  (∀ t, ECommand t ∈ evs → ref ≤ t < ref + 2 ^ 62) →
  let r := Runner_new (HeartbeatClient_new id ref) in
  let fresh := is_heartbeat_fresh (last_received (client (run r evs))) FENCE_NS now in
  match last_command r evs with
  | None => fresh = false
  | Some t => (fresh = true → now ≤ t + FENCE_NS + 1000000) ∧ (now ≤ t + FENCE_NS - 1000000 → fresh = true)
  end.
Proof.
  intros Ht r. cbv zeta. destruct (received_run evs r) as [E1 E2]. unfold last_received. rewrite E1, E2.
  destruct (last_command r evs) as [t|] eqn:El; [|done].
  specialize (Ht t (last_command_in _ _ _ El)). cbn [r Runner_new client HeartbeatClient_new reference_instant].
  unfold i64_of_u128. rewrite (Z.max_r 0 (t - ref)) by lia.
  pose proof (Z.div_mod (t - ref) 1000000 ltac:(lia)). pose proof (Z.mod_pos_bound (t - ref) 1000000 ltac:(lia)).
  destruct (Z.eqb_spec (Z.max (Z.min ((t - ref) / 1000000) 9223372036854775807) 1) 0); [lia|].
  unfold is_heartbeat_fresh, FENCE_NS, DEFAULT_HEARTBEAT_TIMEOUT. rewrite Z.leb_le. lia.
Qed.

Definition demo_run : list Event :=
  [EResolve (Some "kaas-0:9094"); EDial true 0 0 Flags_new; EOpen true; ECommand 2000000000; EEnd; ESlept].

Lemma write_fence_window_witness :
  is_heartbeat_fresh (last_received (client (run (Runner_new (HeartbeatClient_new "kaas-1" 0)) demo_run))) FENCE_NS 4000000000 = true.
Proof.
  assert (Ht : ∀ t, ECommand t ∈ demo_run → 0 ≤ t < 0 + 2 ^ 62).
  { intros t H. unfold demo_run in H. repeat (apply elem_of_cons in H as [H|H]; [try discriminate; injection H as ->; lia|]).
    by apply not_elem_of_nil in H. }
  pose proof (write_fence_window "kaas-1" 0 demo_run 4000000000 Ht) as H. cbn -[is_heartbeat_fresh] in H. apply H. vm_compute. discriminate.
Defined.

(** Four reconnects into the life of the process, the wait alone outlasts the
    fence. *)
Lemma late_reconnect_fences id now evs :
  let r := Runner_new (HeartbeatClient_new id now) in (4 ≤ sleeps r evs)%nat → DEFAULT_HEARTBEAT_TIMEOUT < backoff (run r evs).
Proof.
  intros r Hs. unfold r. rewrite (backoff_run evs _ 0) by done. fold r. cbn [Nat.add].
  assert (2 ^ 4 ≤ 2 ^ Z.of_nat (sleeps r evs)) by (apply Z.pow_le_mono_r; lia). unfold DEFAULT_HEARTBEAT_TIMEOUT. lia.
Qed.

(** A stream that could not be opened leaves the client claiming a connection, and
    every status refused as if the controller were slow. *)
Lemma failed_open_looks_connected s :
  let r := run (Runner_new (HeartbeatClient_new "kaas-1" 0)) [EResolve (Some "kaas-0:9094"); EDial true 0 0 Flags_new; EOpen false] in
  phase r = Sleeping ∧ is_connected (client r) = true ∧ (send (client r) s).2 = Err OutboxFull.
Proof. split_and!; try reflexivity. Qed.

(** ** What the controller learns *)

(** What can happen to a stream that stays up. *)
Definition in_stream (e : Event) : Prop :=
  match e with ESend _ | ETake | ECommand _ | EOpen true => True | _ => False end.

(** The statuses a run accepted for sending, and those the transport took. *)
Fixpoint accepted (r : Runner) (evs : list Event) : list BrokerStatus :=
  match evs with
  | [] => []
  | e :: evs =>
    match e with
    | ESend s => match (send (client r) s).2 with Ok _ => [stamp_id (client r) s] | Err _ => [] end
    | _ => []
    end ++ accepted (step r e) evs
  end.
Definition queue_of (r : Runner) : list BrokerStatus := from_option queue [] (outbox (client r)).
Fixpoint taken (r : Runner) (evs : list Event) : list BrokerStatus :=
  match evs with
  | [] => []
  | e :: evs =>
    match phase r, e with (Opening | Streaming), ETake => take 1 (queue_of r) | _, _ => [] end ++ taken (step r e) evs
  end.

Definition up (r : Runner) : Prop := (phase r = Opening ∨ phase r = Streaming) ∧ is_Some (outbox (client r)).

Lemma stream_step r e : up r → in_stream e →
  up (step r e) ∧ broker_id (client (step r e)) = broker_id (client r) ∧
  queue_of r ++ accepted r [e] = taken r [e] ++ queue_of (step r e).
Proof.
  intros [Hp [o Ho]] He. unfold up, queue_of, step. cbn [accepted taken]. unfold queue_of, send. rewrite !app_nil_r, Ho.
  destruct Hp as [Hp|Hp]; rewrite Hp; destruct e as [|?|[]| | | | |s| |]; try done; cbn; rewrite ?Ho; cbn; rewrite ?app_nil_r;
    try (split_and!; eauto; destruct (queue o); reflexivity).
  all: destruct (try_send_status o (stamp_id (client r) s)) as [o'|] eqn:E; cbn; rewrite ?Ho, ?app_nil_r; split_and!; eauto;
    unfold try_send_status in E; destruct (_ && _); [|done]; injection E as <-; reflexivity.
Qed.

(** Nothing is lost, repeated or reordered on a stream that stays up. *)
Lemma stream_conserves evs : ∀ r, up r → Forall in_stream evs →
  broker_id (client (run r evs)) = broker_id (client r) ∧
  queue_of r ++ accepted r evs = taken r evs ++ queue_of (run r evs).
Proof.
  induction evs as [|e evs IH]; intros r Hu Hf; cbn [run foldl]; [by rewrite app_nil_r|].
  apply Forall_cons in Hf as [He Hf]. destruct (stream_step r e Hu He) as (Hu' & Hid & Hq), (IH _ Hu' Hf) as [IH1 IH2].
  fold (run (step r e) evs). split; [congruence|]. cbn [accepted taken] in *. rewrite !app_nil_r in Hq.
  by rewrite app_assoc, Hq, <-!app_assoc, IH2.
Qed.

Lemma accepted_named evs : ∀ r, broker_id (client r) ≠ "" → up r → Forall in_stream evs →
  Forall (λ s, bs_broker_id s ≠ "") (accepted r evs).
Proof.
  induction evs as [|e evs IH]; intros r Hid Hu Hf; cbn [accepted]; [done|]. apply Forall_cons in Hf as [He Hf].
  destruct (stream_step r e Hu He) as (Hu' & Hid' & _). apply Forall_app. split; [|apply IH; congruence].
  destruct e; try done. destruct ((send (client r) s).2); [|done]. apply Forall_singleton. unfold stamp_id.
  destruct (String.eqb_spec (bs_broker_id s) ""); [done|done].
Qed.

Lemma last_status_list sid first l now :
  last_status sid first ((λ m, HStatus sid m now) <$> l) = default first (last l).
Proof.
  induction l as [|m l IH] using rev_ind; [done|]. rewrite fmap_app. unfold last_status in *. rewrite foldl_app, last_snoc. cbn.
  by rewrite bool_decide_eq_true_2.
Qed.

(** From the moment the stream is being opened, what the controller knows of the
    broker is what the broker last said: the first message names the broker, so the
    stream is accepted; the statuses the client accepted arrive in their order, each
    once; and once the outbox is empty the controller lists the broker with the
    health and the drain flag of the last of them. *)
Theorem status_reaches_controller id ref target wall now_ms f evs h sid at_ :
  id ≠ "" → Forall in_stream evs →
  let r := run (Runner_new (HeartbeatClient_new id ref)) [EResolve (Some target); EDial true wall now_ms f] in
  target ≠ "" → queue_of (run r evs) = [] →
  ∃ rest, taken r evs = initial (client r) wall now_ms f :: rest ∧ rest = accepted r evs ∧
    let st := default (initial (client r) wall now_ms f) (last rest) in
    {| bl_id := id; bl_healthy := bs_healthy st; bl_draining := bs_draining st |} ∈
      broker_liveness (foldl heart_step h
        (HOpen sid (initial (client r) wall now_ms f) at_ :: ((λ m, HStatus sid m at_) <$> rest))).
Proof.
  intros Hid Hf r Ht Hq. assert (Er : phase r = Opening ∧ queue_of r = [initial (client r) wall now_ms f] ∧ up r ∧ broker_id (client r) = id).
  { unfold r, run. cbn [foldl step phase Runner_new]. destruct (String.eqb_spec target ""); [done|]. cbn.
    unfold up. cbn. split_and!; eauto. }
  destruct Er as (Hp & Hq0 & Hu & Hb). clearbody r. destruct (stream_conserves evs r Hu Hf) as [_ Hc]. rewrite Hq, Hq0, app_nil_r in Hc.
  exists (accepted r evs). split; [by rewrite <-Hc|]. split; [done|]. cbv zeta.
  destruct (reconnect_wins h sid (initial (client r) wall now_ms f) at_ ((λ m, HStatus sid m at_) <$> accepted r evs)) as (_ & Hl & _).
  - cbn. by rewrite Hb.
  - apply Forall_fmap, Forall_true. done.
  - rewrite last_status_list in Hl. cbn [initial bs_broker_id] in Hl. rewrite Hb in Hl. exact Hl.
Qed.

(** A broker that falls silent without its stream ending stays in the alive set:
    the time it was last heard of is kept and nothing asks for it. *)
Lemma silent_broker_stays_alive h sid first now evs r self :
  bs_broker_id first ≠ "" → bs_healthy first = true → bs_draining first = false →
  Forall (leaves_alone (bs_broker_id first) sid) evs → Forall (λ e, ∀ m t, e ≠ HStatus sid m t) evs →
  bs_broker_id first ∈ alive_brokers r (foldl heart_step h (HOpen sid first now :: evs)) self.
Proof.
  intros Hid Hh Hd Hf Hs. destruct (reconnect_wins h sid first now evs Hid Hf) as (_ & Hl & _).
  assert (last_status sid first evs = first) as Hst.
  { clear -Hs. unfold last_status. induction evs as [|e evs IH] using rev_ind; [done|]. apply Forall_app in Hs as [H1 H2].
    rewrite foldl_app, IH by done. cbn. rewrite Forall_singleton in H2. destruct e; try done.
    case_bool_decide; [subst; by destruct (H2 msg now)|done]. }
  rewrite Hst, Hh, Hd in Hl. unfold alive_brokers, decide_alive.
  destruct (broker_liveness _) as [|b l] eqn:E; [by apply not_elem_of_nil in Hl|]. rewrite <-E in Hl. rewrite <-E.
  apply elem_add. left. apply list_elem_of_fmap. eexists. split; [|apply list_elem_of_filter; split; [|exact Hl]]; done.
Qed.

(** ** Readiness *)

(** A broker of a cluster answers ready only when it has opened every partition the
    applied assignment gives it, so none is counted as recovering, and its main
    runtime made progress within the last five seconds. *)
Theorem ready_means_serving cfg now f :
  readyz cfg now f = 200 → cluster_mode cfg = true →
  READY_SNAPSHOT f = true ∧ now - MAIN_TICK_MS f < 5000 ∧ 0 < MAIN_TICK_MS f ∧
  ∃ oc open, source cfg = Some (oc, open) ∧ ∀ c, oc = Some c →
    is_Some (current c) ∧ partitions_recovering c open = 0 ∧ partitions_led c open = partitions_assigned c ∧
    ∀ a p, current c = Some a → p ∈ partitions a → pa_broker p = self_id c → (pa_topic p, pa_partition p) ∈ open.
Proof.
  unfold readyz. destruct (compute_ready cfg now f) eqn:E; [|done]. intros _ Hm. unfold compute_ready, main_alive, MAIN_LIVENESS_THRESHOLD_MS in E.
  destruct (READY_SNAPSHOT f); [|done]. cbn [negb] in E. destruct (_ && String.eqb _ _) in E; [done|].
  destruct (Z.ltb_spec 0 (MAIN_TICK_MS f)); [|done]. destruct (Z.ltb_spec (now - MAIN_TICK_MS f) 5000); [|done]. cbn [negb andb] in E.
  rewrite Hm in E. destruct (source cfg) as [[oc open]|]; [|done]. split_and!; try done. exists oc, open. split; [done|].
  intros c ->. unfold serving, is_serving in E. cbn in E. unfold partitions_recovering, partitions_led, partitions_assigned, mine.
  destruct (current c) as [a|]; [|done]. rewrite forallb_forall in E.
  assert (Ho : ∀ p, p ∈ filter (λ p, pa_broker p = self_id c) (partitions a) → (pa_topic p, pa_partition p) ∈ open).
  { intros p Hp. apply list_elem_of_In in Hp. specialize (E p Hp). by apply bool_decide_eq_true in E. }
  assert (Hf : filter (λ p, (pa_topic p, pa_partition p) ∈ open) (filter (λ p, pa_broker p = self_id c) (partitions a)) =
    filter (λ p, pa_broker p = self_id c) (partitions a)).
  { generalize dependent (filter (λ p, pa_broker p = self_id c) (partitions a)). intros l _ Ho.
    induction l as [|p l IH]; [done|]. rewrite filter_cons_True by (apply Ho; by left). f_equal. apply IH. intros q Hq. apply Ho. by right. }
  rewrite Hf. split_and!; [by eexists|lia|done|]. intros a' p [= <-] Hp Hb. apply Ho. by apply list_elem_of_filter.
Qed.

Definition demo_flags : Flags := record_main_tick 100 (set_ready true Flags_new).
Definition demo_status1 : BrokerStatus := pump_status (Coordinator_new "kaas-1") ["g"] 7 200 demo_flags.
Definition demo_dialled : Runner :=
  run (Runner_new (HeartbeatClient_new "kaas-1" 0)) [EResolve (Some "kaas-0:9094"); EDial true 5 0 Flags_new].

Lemma status_reaches_controller_witness :
  {| bl_id := "kaas-1"; bl_healthy := true; bl_draining := false |} ∈
    broker_liveness (foldl heart_step HeartbeatServer_new
      [HOpen 1 (initial (client demo_dialled) 5 0 Flags_new) 9; HStatus 1 (stamp_id (client demo_dialled) demo_status1) 9]).
Proof.
  destruct (status_reaches_controller "kaas-1" 0 "kaas-0:9094" 5 0 Flags_new [EOpen true; ESend demo_status1; ETake; ETake]
    HeartbeatServer_new 1 9) as (rest & _ & Hr & Hl).
  - discriminate.
  - repeat constructor.
  - discriminate.
  - reflexivity.
  - subst rest. exact Hl.
Defined.

Definition demo_serving : Coordinator :=
  {| self_id := "kaas-1"; ownership := ∅; leaders := ∅; last_applied_version := 1;
     current := Some {| controller_epoch := 1; assignment_version := 1; generated_at := ""; controller := "kaas-0"; brokers := [];
       partitions := [{| pa_topic := "t"; pa_partition := 0; pa_broker := "kaas-1"; role := Leader; pa_epoch := 1 |};
                      {| pa_topic := "t"; pa_partition := 1; pa_broker := "kaas-0"; role := Leader; pa_epoch := 1 |}];
       consumer_groups := [] |} |}.
Definition demo_config : HealthConfig :=
  {| KAAS_TLS_PORT := ""; EXTERNAL_HOSTNAME_PATTERN := ""; cluster_mode := true; source := Some (Some demo_serving, [("t", 0)]) |}.

Lemma ready_means_serving_witness :
  readyz demo_config 5099 demo_flags = 200 ∧ readyz demo_config 5100 demo_flags = 503 ∧
  partitions_recovering demo_serving [("t", 0)] = 0.
Proof.
  split; [reflexivity|]. split; [reflexivity|].
  destruct (ready_means_serving demo_config 5099 demo_flags eq_refl eq_refl) as (_ & _ & _ & oc & open & Hs & Hc).
  injection Hs as <- <-. apply (Hc demo_serving eq_refl).
Defined.

(** ** The stint of a controller *)

(** The wait for the brokers ends: after at most twenty-nine looks, whoever dials
    in, when a look comes at least every quarter of a second after the one before;
    and it ends at the first look that sees enough of them. *)
Theorem grace_ends want connected cancelled clock :
  (∀ i, clock 0%nat + 250 * Z.of_nat i ≤ clock i) →
  ∃ i, grace 29 0 want connected cancelled clock (clock 0%nat + GRACE_MS) = Some i ∧ (i ≤ 28)%nat ∧
    (∀ j, (j < i)%nat → (connected j < want)%nat ∧ cancelled j = false) ∧
    ((want ≤ connected i)%nat ∨ cancelled i = true ∨ clock 0%nat + GRACE_MS ≤ clock i).
Proof.
  intros Hc. enough (Hg : ∀ fuel i, (i + fuel = 29)%nat → (i ≤ 28)%nat → (∀ j, (j < i)%nat → (connected j < want)%nat ∧ cancelled j = false) →
    ∃ k, grace fuel i want connected cancelled clock (clock 0%nat + GRACE_MS) = Some k ∧ (k ≤ 28)%nat ∧
      (∀ j, (j < k)%nat → (connected j < want)%nat ∧ cancelled j = false) ∧
      ((want ≤ connected k)%nat ∨ cancelled k = true ∨ clock 0%nat + GRACE_MS ≤ clock k)).
  { apply (Hg 29%nat 0%nat); [lia|lia|]. intros j Hj. lia. }
  induction fuel as [|fuel IH]; intros i Hi Hle Hj; [lia|]. cbn [grace].
  destruct (Nat.ltb_spec (connected i) want) as [Hlt|Hge]; [|by eauto 10].
  destruct (cancelled i) eqn:Ec; [by cbn; eauto 10|]. cbn [orb].
  destruct (Z.leb_spec (clock 0%nat + GRACE_MS) (clock i)) as [Ht|Ht]; [by eauto 10|].
  assert (i < 28)%nat by (specialize (Hc i); unfold GRACE_MS in Ht; lia).
  apply IH; [lia|lia|]. intros j Hj'. destruct (decide (j = i)) as [->|Hne]; [done|]. apply Hj. lia.
Qed.

Lemma grace_ends_witness : ∃ i, grace 29 0 3 (λ i, i) (λ _, false) (λ i, 250 * Z.of_nat i) 7000 = Some i ∧ (i ≤ 28)%nat.
Proof.
  destruct (grace_ends 3 (λ i, i) (λ _, false) (λ i, 250 * Z.of_nat i)) as (i & H & Hle & _); [intros i; lia|].
  exists i. split; [exact H|exact Hle].
Defined.

Section stints.
Context (xxh64 : list byte → Z) (dir : string → Z → Dir).
Notation stint_step := (stint_step xxh64 dir).

(** A write that succeeds after a change of the broker set publishes the
    assignment for the new set and tells the connected brokers its version. *)
Lemma tick_publishes s src now :
  alive_set src ≠ st_prev s →
  let s' := stint_step s (TTick src now true) in
  st_file s' = Some (next_assignment xxh64 dir now src (st_loop s)) ∧ st_prev s' = alive_set src ∧
  pending_version (st_server s') = Z.max 0 (version_counter (st_loop s) + 1).
Proof. intros Hne. cbn. unfold tick_reason. rewrite bool_decide_eq_false_2 by done. done. Qed.

(** A write that fails is not tried again: the set is remembered as dealt with, and
    as long as it does not change the file stays as it was. *)
Lemma failed_recompute_not_retried s src now ticks :
  Forall (λ t, ∃ src' now' ok, t = TTick src' now' ok ∧ alive_set src' = alive_set src) ticks →
  st_file (foldl stint_step (stint_step s (TTick src now false)) ticks) = st_file s.
Proof.
  intros Hf. assert (Hs : st_prev (stint_step s (TTick src now false)) = alive_set src ∧ st_file (stint_step s (TTick src now false)) = st_file s).
  { cbn. unfold tick_reason. by case_bool_decide. }
  destruct Hs as [Hp <-]. revert Hp. generalize (stint_step s (TTick src now false)). intros s1 Hp.
  induction ticks as [|t ticks IH]; [done|]. apply Forall_cons in Hf as [(src' & now' & ok & -> & Ha) Hf].
  cbn [foldl]. replace (stint_step s1 (TTick src' now' ok)) with s1; [by apply IH|].
  cbn. unfold tick_reason. by rewrite bool_decide_eq_true_2 by congruence.
Qed.

(** A topic change recomputes for the brokers of the moment without remembering
    them: a broker seen by that recompute only, gone again at the next tick, keeps
    what it was given. *)
Lemma flap_keeps_assignment s reason src_now src_back now now' ok :
  alive_set src_back = st_prev s →
  stint_step (stint_step s (TTopic reason src_now now true)) (TTick src_back now' ok) =
  stint_step s (TTopic reason src_now now true) ∧
  st_file (stint_step s (TTopic reason src_now now true)) = Some (next_assignment xxh64 dir now src_now (st_loop s)).
Proof.
  intros Hb. split; [|done]. assert (Hp : st_prev (stint_step s (TTopic reason src_now now true)) = st_prev s) by done.
  unfold Stack.stint_step at 1. unfold tick_reason. by rewrite Hp, Hb, bool_decide_eq_true_2.
Qed.

End stints.

(** A topic announced between the recompute of a taking of office and the parking
    of the channel is announced to nobody. *)
Lemma announcement_before_parking r : queued (set_tx (notify TopicChangeNotifier_default r) (Some 1%nat)) = [].
Proof. done. Qed.

(** A stint that ends late empties the slot of the next one, which hears of no topic
    change from then on. *)
Lemma late_teardown_silences r :
  let n := set_tx (set_tx (set_tx TopicChangeNotifier_default (Some 1%nat)) (Some 2%nat)) None in notify n r = n.
Proof. done. Qed.
