(* ===== verification/Config.v ===== *)
(** * Configuration of a broker

    [kaas-broker/src/cli.rs] (the environment), [build_auth] and [parse_listeners]
    of [bins/kaas/src/main.rs]: which listener gets which authentication engine,
    which authorizer decides, which broker id the process takes.  The environment
    is a map; the JSON reader, the parsing of a socket address and the loading of
    certificate files are arguments. *)

From stdpp Require Import base gmap strings list pretty.
From Stdlib Require Import Strings.Byte Strings.Ascii.
From S2P Require Import Prelude Wire SegmentDir Protocol OffsetStore Engine Acls Auth Sasl Controller UserAcls Quota Server.

Local Open Scope Z_scope.

(** ** The environment ([cli.rs]) *)

Module Cli.

Inductive ConfigError :=
| Listeners (text : string) | NoListeners | BrokerId | FlushInterval | RetentionCheckInterval | TxnNumSlots
| MaxMessageBytes | FsyncMaxLatency | LogDirs (text : string).

Record TlsConfig := { cert_path : string; key_path : string; client_ca_path : option string }.
Record ListenerEntry := {
  le_name : string; le_addr : string; advertised_host : option string; le_tls : option TlsConfig;
  authentication_type : option string; oauth : option OauthConfig }.

(** What the JSON reader makes of an entry. *)
Inductive TlsField := TlsBool (b : bool) | TlsCfg (c : TlsConfig).
Record OauthRaw := {
  or_valid_issuer_uri : option string; or_jwks_endpoint_uri : option string; or_user_name_claim : option string;
  or_fallback_user_name_claim : option string; or_check_audience : bool; or_client_id : option string;
  or_jwks_refresh_seconds : option Z; or_max_seconds_without_reauthentication : option Z }.
Definition OauthRaw_default : OauthRaw :=
  {| or_valid_issuer_uri := None; or_jwks_endpoint_uri := None; or_user_name_claim := None; or_fallback_user_name_claim := None;
     or_check_audience := false; or_client_id := None; or_jwks_refresh_seconds := None; or_max_seconds_without_reauthentication := None |}.
Record AuthField := { af_type : string; af_oauth : OauthRaw }.
Record Raw := {
  raw_name : string; raw_addr : option string; raw_port : option Z; raw_advertised_host : option string;
  raw_tls : option TlsField; raw_authentication : option AuthField; raw_authentication_type : option string }.

Definition Env := gmap string string.
Definition filled (s : string) : option string := if str_is_empty s then None else Some s.
Definition trimmed (s : string) : string := of_bytes (trim (as_bytes s)).

(** The parsed entry; an oauth listener that lacks a field is refused here. *)
Definition require (name : string) (field : option string) (what : string) : result string string :=
  match field ≫= filled with
  | Some v => Ok v
  | None => Err ("listener " +:+ name +:+ ": authentication.type oauth requires " +:+ what)
  end.

Definition oauth_of (name : string) (o : OauthRaw) : result string OauthConfig :=
  issuer ← require name (or_valid_issuer_uri o) "validIssuerUri";
  jwks ← require name (or_jwks_endpoint_uri o) "jwksEndpointUri";
  let cfg := {| valid_issuer_uri := issuer; jwks_endpoint_uri := jwks; user_name_claim := or_user_name_claim o;
                fallback_user_name_claim := or_fallback_user_name_claim o; check_audience := or_check_audience o;
                client_id := or_client_id o; jwks_refresh_seconds := default 300 (or_jwks_refresh_seconds o);
                max_seconds_without_reauthentication := or_max_seconds_without_reauthentication o |} in
  if check_audience cfg && negb (bool_decide (is_Some (client_id cfg)))
  then Err ("listener " +:+ name +:+ ": checkAudience requires clientId") else Ok cfg.

Definition deserialize (env : Env) (raw : Raw) : result string ListenerEntry :=
  addr ← match raw_addr raw, raw_port raw with
         | Some a, _ => Ok a
         | None, Some p => Ok ("0.0.0.0:" +:+ pretty p)
         | None, None => Err "listener needs either `addr` (host:port) or `port` (int)"
         end;
  let tls :=
    match raw_tls raw with
    | None | Some (TlsBool false) => None
    | Some (TlsBool true) =>
      Some {| cert_path := default "/tls/tls.crt" (env !! "KAAS_TLS_CERT_FILE");
              key_path := default "/tls/tls.key" (env !! "KAAS_TLS_KEY_FILE");
              client_ca_path := env !! "KAAS_TLS_CLIENT_CA_FILE" ≫= filled |}
    | Some (TlsCfg cfg) => Some cfg
    end in
  let '(ty, oauth_raw) :=
    match raw_authentication raw with
    | Some a =>
      (match raw_authentication_type raw with Some t => Some t | None => Some (af_type a) end, Some (af_oauth a))
    | None => (raw_authentication_type raw, None)
    end in
  let ty := ty ≫= λ s, if String.eqb s "none" then None else Some s in
  o ← (if bool_decide (ty = Some "oauth")
       then (cfg ← oauth_of (raw_name raw) (default OauthRaw_default oauth_raw); Ok (Some cfg)) else Ok None);
  Ok {| le_name := raw_name raw; le_addr := addr; advertised_host := raw_advertised_host raw; le_tls := tls;
        authentication_type := ty; oauth := o |}.

Fixpoint deserialize_all (env : Env) (raws : list Raw) : result string (list ListenerEntry) :=
  match raws with
  | [] => Ok []
  | r :: rs => x ← deserialize env r; xs ← deserialize_all env rs; Ok (x :: xs)
  end.

(** The default, read. *)
Definition default_listeners : list Raw :=
  [{| raw_name := "internal"; raw_addr := Some "0.0.0.0:9092"; raw_port := None; raw_advertised_host := None; raw_tls := None;
      raw_authentication := None; raw_authentication_type := None |}].

Definition derive_advertised_host (env : Env) : option string :=
  pod ← env !! "MY_POD_NAME" ≫= filled;
  svc ← env !! "KAAS_HEADLESS_SVC" ≫= filled;
  ns ← env !! "KAAS_NAMESPACE" ≫= filled;
  Some (pod +:+ "." +:+ svc +:+ "." +:+ ns +:+ ".svc.cluster.local").

Definition with_host (host : option string) (l : ListenerEntry) : ListenerEntry :=
  match host, advertised_host l with
  | Some h, None =>
    {| le_name := le_name l; le_addr := le_addr l; advertised_host := Some h; le_tls := le_tls l;
       authentication_type := authentication_type l; oauth := oauth l |}
  | _, _ => l
  end.

Definition DEFAULT_MAX_MESSAGE_BYTES : Z := 1048588.

Definition u64_max : Z := 18446744073709551615.
(** [str::parse::<u64>]. *)
Definition parse_u64 (s : string) : option Z :=
  v ← match s with String "+"%char s' => parse_digits s' | _ => parse_digits s end;
  if v <=? u64_max then Some v else None.

Definition parse_bool_env (env : Env) (name : string) : option bool :=
  (λ s, bool_decide (to_ascii_lowercase (trimmed s) ∈ ["1"; "true"; "yes"; "on"])) <$> env !! name.

(** A number, its default when it is unset, an error when it does not parse. *)
Definition number (v : option string) (parse : string → option Z) (dflt : Z) (e : ConfigError) : result ConfigError Z :=
  match v with
  | None => Ok dflt
  | Some s => match parse s with Some n => Ok n | None => Err e end
  end.
Definition blank_unset (env : Env) (name : string) : option string :=
  s ← env !! name; if str_is_empty (trimmed s) then None else Some (trimmed s).

(** [split(',')]. *)
Fixpoint split_commas (cur s : string) : list string :=
  match s with
  | "" => [cur]
  | String c s' => if Ascii.eqb c ","%char then cur :: split_commas "" s' else split_commas (cur +:+ String c "") s'
  end.

Record Cli := {
  listeners : list ListenerEntry; data_dir : option string; cluster_dir : option string; log_dirs : list LogDirInfo;
  flush_interval_messages : Z; retention_check_interval_secs : Z; cluster_id : string; cli_broker_id : Z;
  topics_seed : string; log_level : string; auth_disabled : bool; authorization_type : string; super_users : list string;
  ssl_principal_mapping_rules : string; auto_create_topics : bool; num_partitions : Z; require_sasl : bool;
  txn_num_slots : Z; max_message_bytes : Z; fsync_max_latency_ms : Z }.

(** The JSON readers: of the listeners and of the log dirs. *)
Section from_env.
Context (listeners_json : string → result string (list Raw)) (dirs_json : string → result string (list LogDirInfo)).

Definition parse_log_dirs_json (json : string) : result string (list LogDirInfo) :=
  if str_is_empty (trimmed json) then Ok []
  else
    dirs ← match dirs_json json with Ok d => Ok d | Err e => Err ("KAAS_LOG_DIRS: " +:+ e) end;
    match find (λ d, bool_decide (ld_name d = DEFAULT_LOG_DIR_NAME)) dirs with
    | Some d => Err ("KAAS_LOG_DIRS: entry '" +:+ ld_path d +:+ "' uses the reserved name 'default'")
    | None => Ok dirs
    end.

Definition broker_id_of (env : Env) : result ConfigError Z :=
  match env !! "KAAS_BROKER_ID" ≫= filled with
  | Some s => match parse_i32 s with Some n => Ok n | None => Err BrokerId end
  | None => Ok (default 0 (pod ← env !! "MY_POD_NAME" ≫= filled; parse_i32 (last_piece "-"%char "" pod)))
  end.

Definition read_listeners (env : Env) : result ConfigError (list ListenerEntry) :=
  ls ← match (raws ← from_option listeners_json (Ok default_listeners) (env !! "KAAS_LISTENERS"); deserialize_all env raws) with
       | Ok ls => Ok ls
       | Err e => Err (Listeners e)
       end;
  match ls with
  | [] => Err NoListeners
  | _ => Ok (with_host (derive_advertised_host env) <$> ls)
  end.

Definition from_env (env : Env) : result ConfigError Cli :=
  ls ← read_listeners env;
  dirs ← match parse_log_dirs_json (default "" (env !! "KAAS_LOG_DIRS")) with Ok d => Ok d | Err e => Err (LogDirs e) end;
  flush ← number (env !! "KAAS_FLUSH_INTERVAL_MESSAGES") parse_i64 1 FlushInterval;
  retention ← number (env !! "KAAS_RETENTION_CHECK_INTERVAL") parse_u64 300 RetentionCheckInterval;
  id ← broker_id_of env;
  let partitions := (s ← env !! "KAAS_NUM_PARTITIONS"; parse_i32 (trimmed s)) ≫= λ n, if 0 <? n then Some n else None in
  slots ← number (blank_unset env "KAAS_TXN_NUM_SLOTS") parse_u64 0 TxnNumSlots;
  max_bytes ← number (blank_unset env "KAAS_MAX_MESSAGE_BYTES") parse_u64 DEFAULT_MAX_MESSAGE_BYTES MaxMessageBytes;
  fsync ← number (blank_unset env "KAAS_FSYNC_MAX_LATENCY_MS") parse_u64 30000 FsyncMaxLatency;
  Ok {| listeners := ls; data_dir := env !! "KAAS_DATA_DIR" ≫= filled; cluster_dir := env !! "KAAS_CLUSTER_DIR" ≫= filled;
        log_dirs := dirs; flush_interval_messages := flush; retention_check_interval_secs := retention;
        cluster_id := default "kaas-rust-dev" (env !! "KAAS_CLUSTER_ID"); cli_broker_id := id;
        topics_seed := default "" (env !! "KAAS_TOPICS");
        log_level := default "info" (match env !! "RUST_LOG" with Some s => Some s | None => env !! "KAAS_LOG_LEVEL" end ≫= filled);
        auth_disabled := default false (parse_bool_env env "KAAS_AUTH_DISABLED");
        authorization_type := default "" (env !! "KAAS_AUTHORIZATION_TYPE");
        super_users := omap filled (trimmed <$> split_commas "" (default "" (env !! "KAAS_SUPER_USERS")));
        ssl_principal_mapping_rules := default "" (env !! "KAAS_SSL_PRINCIPAL_MAPPING_RULES");
        auto_create_topics := default true (parse_bool_env env "KAAS_AUTO_CREATE_TOPICS_ENABLE");
        num_partitions := default 1 partitions; require_sasl := default false (parse_bool_env env "KAAS_REQUIRE_SASL");
        txn_num_slots := slots; max_message_bytes := max_bytes; fsync_max_latency_ms := fsync |}.

End from_env.

Definition resolved_cluster_dir (c : Cli) : option string :=
  match cluster_dir c with Some d => Some d | None => (λ d, d +:+ "/__cluster") <$> data_dir c end.

End Cli.
Import Cli.

(** ** Engines and authorizers ([build_auth]) *)

Module Setup.

(** The base authorizer: everyone, or the rules. *)
Inductive BaseAuthorizer := BaseAllow | BaseAcl (e : AclEngine).
#[global] Instance base_authorizer : Authorizer BaseAuthorizer := λ a p res op now,
  match a with
  | BaseAllow => (BaseAllow, true)
  | BaseAcl e => let '(e, b) := authorize e p res op now in (BaseAcl e, b)
  end.
Inductive AnyAuthorizer := Plain (a : BaseAuthorizer) | Super (s : SuperUserAuthorizer BaseAuthorizer).
#[global] Instance any_authorizer : Authorizer AnyAuthorizer := λ a p res op now,
  match a with
  | Plain a => let '(a, b) := authorize a p res op now in (Plain a, b)
  | Super s => let '(s, b) := authorize s p res op now in (Super s, b)
  end.

(** The authorizer, whether quotas are enforced, the engines, and the validators
    whose keys are to be fetched. *)
Record AuthSetup := { authorizer : AnyAuthorizer; quotas_enforced : bool; engines : Selector; oauth_validators : list OauthValidator }.

Definition credentials_path (c : Cli) : string := default "/data/__cluster" (resolved_cluster_dir c) +:+ "/credentials.json".
Definition acls_path (c : Cli) : string := default "/data/__cluster" (resolved_cluster_dir c) +:+ "/acls.json".

(** [None]: an oauth listener without its configuration. *)
Definition engine_for (creds : CredState) (require_sasl : bool) (l : ListenerEntry) : option AuthEngine :=
  let anonymous_engine := if require_sasl then RealAuthEngine creds else AllowAllAuthEngine in
  let ty := default "none" (authentication_type l) in
  if String.eqb ty "none" then Some anonymous_engine
  else if bool_decide (ty ∈ ["scram-sha-512"; "plain"; "mtls"]) then Some (RealAuthEngine creds)
  else if String.eqb ty "oauth" then (λ o, OauthEngine (OauthValidator_new o)) <$> oauth l
  else Some anonymous_engine.

Fixpoint engines_of (creds : CredState) (require_sasl : bool) (ls : list ListenerEntry) (s : Selector) (vs : list OauthValidator) :
    option (Selector * list OauthValidator) :=
  match ls with
  | [] => Some (s, vs)
  | l :: ls =>
    e ← engine_for creds require_sasl l;
    engines_of creds require_sasl ls {| sel_map := <[le_name l := e]> (sel_map s); sel_default := sel_default s |}
      (match e with OauthEngine v => vs ++ [v] | _ => vs end)
  end.

Definition base_for (authorization_type : string) (acls : AclEngine) : BaseAuthorizer :=
  if String.eqb authorization_type "simple" then BaseAcl acls else BaseAllow.

(** [rules_ok]: whether the principal mapping rules parse; [creds], [acls]: the
    files as loaded at start. *)
Definition build_auth (rules_ok : bool) (creds : CredState) (acls : AclEngine) (c : Cli) : option AuthSetup :=
  if negb rules_ok then None
  else if auth_disabled c
  then Some {| authorizer := Plain BaseAllow; quotas_enforced := false;
               engines := {| sel_map := ∅; sel_default := AllowAllAuthEngine |}; oauth_validators := [] |}
  else
    let fallback := if require_sasl c then RealAuthEngine creds else AllowAllAuthEngine in
    '(s, vs) ← engines_of creds (require_sasl c) (listeners c) {| sel_map := ∅; sel_default := fallback |} [];
    let base := base_for (authorization_type c) acls in
    Some {| authorizer := match super_users c with
                          | [] => Plain base
                          | us => Super {| supers := list_to_set us; inner := base |}
                          end;
            quotas_enforced := true; engines := s; oauth_validators := vs |}.

(** [None]: an address that does not parse or certificate files that do not load. *)
Definition listener_config {addr} (parse_addr : string → option addr) (load_tls : TlsConfig → bool) (e : ListenerEntry) :
    option (ListenerConfig addr) :=
  a ← parse_addr (le_addr e);
  _ ← match le_tls e with Some t => if load_tls t then Some tt else None | None => Some tt end;
  Some {| lc_name := le_name e; lc_addr := a; lc_tls := bool_decide (is_Some (le_tls e));
          lc_mtls := bool_decide (authentication_type e = Some "mtls") |}.
Definition parse_listeners {addr} (parse_addr : string → option addr) (load_tls : TlsConfig → bool) (es : list ListenerEntry) :
    option (list (ListenerConfig addr)) := mapM (listener_config parse_addr load_tls) es.

End Setup.
Import Setup.

(** ** Which listeners are guarded *)

Definition recognised (ty : option string) : Prop := ∃ t, ty = Some t ∧ t ∈ ["scram-sha-512"; "plain"; "mtls"; "oauth"].

Lemma engine_for_guard creds rs l e : engine_for creds rs l = Some e →
  requires_pre_auth e = true ↔ rs = true ∨ recognised (authentication_type l).
Proof.
  unfold engine_for, recognised. destruct (authentication_type l) as [t|]; cbn [default id from_option].
  2:{ cbn. intros [= <-]. destruct rs; cbn; naive_solver. }
  destruct (String.eqb_spec t "none") as [->|Hn].
  { intros [= <-]. destruct rs; cbn; [naive_solver|]. split; [done|]. intros [|(t & [= <-] & Ht)]; [done|]. set_solver. }
  case_bool_decide as Ht.
  { intros [= <-]. cbn. split; [|done]. intros _. right. exists t. split; [done|]. set_solver. }
  destruct (String.eqb_spec t "oauth") as [->|Ho].
  { destruct (oauth l); [|done]. intros [= <-]. cbn. split; [|done]. intros _. right. exists "oauth". split; [done|]. set_solver. }
  intros [= <-]. destruct rs; cbn; [naive_solver|]. split; [done|]. intros [|(t' & [= <-] & Ht')]; [done|]. set_solver.
Qed.

(** The entry that decides for its name: the last one that has it. *)
Definition decides (ls : list ListenerEntry) (l : ListenerEntry) : Prop :=
  ∃ pre post, ls = pre ++ l :: post ∧ le_name l ∉ (le_name <$> post).

Lemma decides_cons l0 ls l : decides (l0 :: ls) l → decides ls l ∨ l = l0 ∧ le_name l ∉ (le_name <$> ls).
Proof.
  intros ([|x pre] & post & [= -> ->] & Hn); [by right|]. left. by exists pre, post.
Qed.

Lemma decides_nodup ls l : NoDup (le_name <$> ls) → l ∈ ls → decides ls l.
Proof.
  intros Hn (pre & post & ->)%list_elem_of_split. exists pre, post. split; [done|].
  rewrite fmap_app, fmap_cons in Hn. apply NoDup_app in Hn as (_ & _ & Hn). by apply NoDup_cons in Hn as [? _].
Qed.

Lemma engines_of_spec creds rs ls : ∀ s vs s' vs', engines_of creds rs ls s vs = Some (s', vs') →
  (∀ l, decides ls l → ∃ e, engine_for creds rs l = Some e ∧ for_listener s' (le_name l) = e) ∧
  (∀ n, n ∉ (le_name <$> ls) → for_listener s' n = for_listener s n).
Proof.
  induction ls as [|l ls IH]; intros s vs s' vs'; cbn [engines_of].
  { intros [= <- <-]. split; [by intros l ([] & ? & ? & _)|done]. }
  destruct (engine_for creds rs l) as [e|] eqn:Ee; [|done]. cbn [mbind option_bind]. intros H.
  destruct (IH _ _ _ _ H) as [H1 H2]. split.
  - intros l' [Hl|[-> Hn]]%decides_cons; [by apply H1|]. exists e. split; [done|]. rewrite H2 by done.
    unfold for_listener. cbn. by rewrite lookup_insert_eq.
  - intros n [Hne Hn']%not_elem_of_cons. rewrite H2 by done. unfold for_listener. cbn. by rewrite lookup_insert_ne.
Qed.

Lemma deserialize_oauth env raw l : deserialize env raw = Ok l →
  authentication_type l = Some "oauth" →
  ∃ o, oauth l = Some o ∧ valid_issuer_uri o ≠ "" ∧ jwks_endpoint_uri o ≠ "" ∧
    (check_audience o = true → is_Some (client_id o)).
Proof.
  unfold deserialize. destruct (match raw_addr raw with Some _ => _ | None => _ end) as [addr|e]; [|done]. cbn [mbind result_bind].
  destruct (match raw_authentication raw with Some _ => _ | None => _ end) as [ty oraw]. cbn zeta.
  set (ty' := ty ≫= _). clearbody ty'. case_bool_decide as Ht.
  2:{ intros [= <-]. cbn. done. }
  unfold oauth_of, require. destruct (or_valid_issuer_uri _ ≫= filled) as [issuer|] eqn:E1; [|done].
  destruct (or_jwks_endpoint_uri _ ≫= filled) as [jwks|] eqn:E2; [|done]. cbn.
  assert (Hf : ∀ (o : option string) v, o ≫= filled = Some v → v ≠ "").
  { intros [s|] v; [|done]. cbn. unfold filled, str_is_empty. destruct s; [done|]. by intros [= <-]. }
  destruct (or_check_audience _ && _) eqn:Ec; [done|]. intros [= <-] _. cbn. eexists. split; [done|]. cbn.
  split; [by eapply Hf|]. split; [by eapply Hf|]. intros Hc. rewrite Hc in Ec. cbn in Ec.
  apply negb_false_iff, bool_decide_eq_true in Ec. exact Ec.
Qed.

Lemma deserialize_all_in env raws ls : deserialize_all env raws = Ok ls → ∀ l, l ∈ ls → ∃ raw, deserialize env raw = Ok l.
Proof.
  revert ls. induction raws as [|r rs IH]; intros ls; cbn [deserialize_all].
  { intros [= <-] l H. by apply not_elem_of_nil in H. }
  destruct (deserialize env r) as [x|] eqn:E; [|done]. cbn. destruct (deserialize_all env rs) as [xs|]; [|done].
  intros [= <-] l [->|Hl]%elem_of_cons; [by exists r|by eapply IH].
Qed.

(** What reading the environment promises of every listener. *)
Definition entry_ok (l : ListenerEntry) : Prop :=
  authentication_type l = Some "oauth" →
  ∃ o, oauth l = Some o ∧ valid_issuer_uri o ≠ "" ∧ jwks_endpoint_uri o ≠ "" ∧ (check_audience o = true → is_Some (client_id o)).

Lemma read_listeners_ok lj env ls : read_listeners lj env = Ok ls → ls ≠ [] ∧ Forall entry_ok ls.
Proof.
  unfold read_listeners. destruct (from_option _ _ _) as [raws|]; [|done]. cbn [mbind result_bind].
  destruct (deserialize_all env raws) as [l0|] eqn:E; [|done]. destruct l0 as [|x xs]; [done|].
  intros [= <-]. split; [done|]. change (Forall entry_ok (with_host (derive_advertised_host env) <$> x :: xs)).
  apply Forall_fmap, Forall_forall. intros l Hl. destruct (deserialize_all_in _ _ _ E l Hl) as [raw Hr].
  intros Ht. unfold with_host in Ht |- *. destruct (derive_advertised_host env), (advertised_host l); cbn in *; by eapply deserialize_oauth.
Qed.

Lemma from_env_listeners lj dj env c : from_env lj dj env = Ok c → read_listeners lj env = Ok (listeners c).
Proof.
  unfold from_env, mbind, result_bind. destruct (read_listeners lj env) as [ls|]; [|done].
  repeat (match goal with |- match ?x with Ok _ => _ | Err _ => _ end = _ → _ => destruct x; [|done] end).
  by intros [= <-].
Qed.

Lemma engines_of_total creds rs ls : Forall entry_ok ls → ∀ s vs, is_Some (engines_of creds rs ls s vs).
Proof.
  induction 1 as [|l ls Hl _ IH]; intros s vs; cbn [engines_of]; [by eexists|].
  assert (is_Some (engine_for creds rs l)) as [e ->]; [|apply IH].
  unfold engine_for. destruct (String.eqb _ "none"); [by eexists|]. case_bool_decide; [by eexists|].
  destruct (String.eqb_spec (default "none" (authentication_type l)) "oauth") as [Ho|]; [|by eexists].
  destruct (Hl ltac:(destruct (authentication_type l); [by f_equal|done])) as (o & -> & _). by eexists.
Qed.

(** What the environment asks of a listener: a login, unless authentication is
    switched off. *)
Definition demands_login (c : Cli) (l : ListenerEntry) : Prop :=
  auth_disabled c = false ∧ (require_sasl c = true ∨ recognised (authentication_type l)).

Lemma built_engines lj dj env c creds acls : from_env lj dj env = Ok c →
  ∃ a, build_auth true creds acls c = Some a ∧ ∀ l, decides (listeners c) l →
    (requires_pre_auth (for_listener (Setup.engines a) (le_name l)) = true ↔ demands_login c l).
Proof.
  intros He. destruct (read_listeners_ok _ _ _ (from_env_listeners _ _ _ _ He)) as [_ Hok].
  unfold build_auth, demands_login. cbn [negb]. destruct (auth_disabled c).
  { eexists. split; [reflexivity|]. intros l _. cbn. naive_solver. }
  set (s0 := {| sel_map := ∅; sel_default := _ |}). destruct (engines_of_total creds (require_sasl c) _ Hok s0 []) as [[s vs] Hs].
  rewrite Hs. eexists. split; [reflexivity|]. cbn [Setup.engines]. intros l Hl.
  destruct (engines_of_spec _ _ _ _ _ _ _ Hs) as [Hsel _]. destruct (Hsel l Hl) as (e & Hf & ->).
  rewrite (engine_for_guard _ _ _ _ Hf). naive_solver.
Qed.

(** C30. From the environment to the wire.  Of an environment that reads: if the
    principal mapping rules do not parse the broker gets no engines and does not
    start; otherwise it gets them, and a listener demands authentication exactly
    when it is not switched off and either the SASL requirement is on or the last
    entry of that name spells one of the four types (so a type that is misspelt
    leaves the listener open, and of two entries with one name the last decides).
    On a listener that demands it, a request of a connection that has not
    authenticated is answered with an authorization error and changes nothing,
    except for the three calls a login needs. *)
Theorem configured_listener_guarded {W} lj dj env c creds acls :
  from_env lj dj env = Ok c →
  build_auth false creds acls c = None ∧
  ∃ a, build_auth true creds acls c = Some a ∧ ∀ l, decides (listeners c) l →
    (requires_pre_auth (for_listener (Setup.engines a) (le_name l)) = true ↔
       auth_disabled c = false ∧ (require_sasl c = true ∨ recognised (authentication_type l))) ∧
    ∀ (d : Dispatcher W) now cs w header body,
      auth_disabled c = false → require_sasl c = true ∨ recognised (authentication_type l) →
      Protocol.engines d = Some (λ n, requires_pre_auth (for_listener (Setup.engines a) n)) →
      listener_name cs = le_name l → sasl_done cs = false → is_pre_auth (api_key header) = false →
      dispatch d now cs w header body =
        ((cs, w), error_body (lookup_api (api_key header)) (api_version header) ERR_CLUSTER_AUTHORIZATION_FAILED).
Proof.
  intros He. split; [done|]. destruct (built_engines _ _ _ _ creds acls He) as (a & Ha & Hl).
  exists a. split; [done|]. intros l Hd. specialize (Hl l Hd). split; [exact Hl|].
  intros d now cs w header body Hdis Hr Heng Hname Hdone Hpre.
  unfold dispatch, gate. by rewrite Heng, Hname, (proj2 Hl (conj Hdis Hr)), Hdone, Hpre.
Qed.

Definition demo_env : Env := {["KAAS_LISTENERS" := "json"; "MY_POD_NAME" := "kaas-2"]}.
Definition demo_raw (n : string) (ty : string) : Raw :=
  {| raw_name := n; raw_addr := None; raw_port := Some 9092; raw_advertised_host := None; raw_tls := Some (TlsBool false);
     raw_authentication := Some {| af_type := ty; af_oauth := OauthRaw_default |}; raw_authentication_type := None |}.
Definition demo_json (_ : string) : result string (list Raw) :=
  Ok [demo_raw "authed" "scram-sha-512"; demo_raw "open" "none"; demo_raw "typo" "SCRAM-SHA-512"].
Definition no_json (_ : string) : result string (list LogDirInfo) := Err "no pool".
Definition demo_cli : result ConfigError Cli := from_env demo_json no_json demo_env.

Lemma configured_listener_guarded_witness :
  ∃ c a, demo_cli = Ok c ∧ build_auth true CredState_empty AclEngine_new c = Some a ∧
    requires_pre_auth (for_listener (Setup.engines a) "authed") = true.
Proof.
  destruct demo_cli as [c|] eqn:E; [|vm_compute in E; discriminate]. pose proof E as E'. vm_compute in E'. injection E' as Ec.
  destruct (configured_listener_guarded (W := unit) demo_json no_json demo_env c CredState_empty AclEngine_new E)
    as (_ & a & Ha & Hl).
  exists c, a. split; [reflexivity|]. split; [exact Ha|]. clear E. subst c.
  edestruct Hl as [Hg _].
  { apply decides_nodup; [apply (bool_decide_unpack _); vm_compute; exact I|]. apply list_elem_of_here. }
  apply Hg. split; [reflexivity|]. right. exists "scram-sha-512". split; [reflexivity|]. left.
Defined.

(** A type that is misspelt, or spelt in capitals, leaves the listener open. *)
Lemma misspelt_type_is_open :
  ∃ c a, demo_cli = Ok c ∧ build_auth true CredState_empty AclEngine_new c = Some a ∧
    for_listener (Setup.engines a) "typo" = AllowAllAuthEngine.
Proof. do 2 eexists. split; [vm_compute; reflexivity|]. split; [vm_compute; reflexivity|]. vm_compute. reflexivity. Qed.

(** Of two listeners of one name the second decides for both. *)
Lemma duplicate_name_overrides creds l1 l2 s vs s' vs' :
  le_name l1 = le_name l2 → engines_of creds false [l1; l2] s vs = Some (s', vs') →
  Some (for_listener s' (le_name l1)) = engine_for creds false l2.
Proof.
  intros Hn. cbn [engines_of]. destruct (engine_for creds false l1); [|done]. cbn.
  destruct (engine_for creds false l2) as [e|]; [|done]. cbn. intros [= <- _].
  unfold for_listener. cbn. by rewrite Hn, lookup_insert_eq.
Qed.

(** An authorization type other than [simple] lets everyone do everything. *)
Lemma unknown_authorization_allows t acls p res op now : t ≠ "simple" → (authorize (base_for t acls) p res op now).2 = true.
Proof. intros Ht. unfold base_for. by rewrite (proj2 (String.eqb_neq _ _) Ht). Qed.

(** On a pod, a listener whose entry names no host, as those of the chart do not,
    advertises the name the pod has inside the cluster, whatever the pattern of
    external host names says. *)
Lemma pod_listener_advertises_pod lj env ls l pod svc ns :
  env !! "MY_POD_NAME" = Some pod → env !! "KAAS_HEADLESS_SVC" = Some svc → env !! "KAAS_NAMESPACE" = Some ns →
  pod ≠ "" → svc ≠ "" → ns ≠ "" →
  (∀ raws, from_option lj (Ok default_listeners) (env !! "KAAS_LISTENERS") = Ok raws → Forall (λ r, raw_advertised_host r = None) raws) →
  read_listeners lj env = Ok ls → l ∈ ls → advertised_host l = Some (pod +:+ "." +:+ svc +:+ "." +:+ ns +:+ ".svc.cluster.local").
Proof.
  intros Hp Hs Hn Np Ns Nn Hraw. assert (Hf : ∀ s : string, s ≠ "" → filled s = Some s).
  { intros s H. unfold filled, str_is_empty. by destruct s. }
  assert (Hd : derive_advertised_host env = Some (pod +:+ "." +:+ svc +:+ "." +:+ ns +:+ ".svc.cluster.local")).
  { unfold derive_advertised_host. rewrite Hp, Hs, Hn. cbn [mbind option_bind]. rewrite (Hf pod Np), (Hf svc Ns), (Hf ns Nn). done. }
  unfold read_listeners. destruct (from_option _ _ _) as [raws|]; [|done]. specialize (Hraw raws eq_refl). cbn [mbind result_bind].
  destruct (deserialize_all env raws) as [l0|] eqn:E; [|done].
  assert (Hnone : Forall (λ l, advertised_host l = None) l0).
  { clear -E Hraw. revert l0 E. induction Hraw as [|r rs Hr _ IH]; intros l0; cbn [deserialize_all]; [by intros [= <-]|].
    destruct (deserialize env r) as [x|] eqn:Ex; [|done]. cbn. destruct (deserialize_all env rs) as [xs|]; [|done]. intros [= <-].
    constructor; [|by apply IH]. unfold deserialize, mbind, result_bind in Ex.
    destruct (match raw_addr r with Some _ => _ | None => _ end); [|done].
    destruct (match raw_authentication r with Some _ => _ | None => _ end) as [ty oraw].
    repeat (match type of Ex with context [match ?x with Ok _ => _ | Err _ => _ end] => destruct x; [|done] end).
    injection Ex as <-. exact Hr. }
  assert (Hcase : match l0 with [] => Err NoListeners | _ => Ok (with_host (derive_advertised_host env) <$> l0) end = Ok ls →
    ls = with_host (derive_advertised_host env) <$> l0) by (destruct l0; [done|congruence]).
  intros Hls. rewrite (Hcase Hls), Hd. intros [y [-> Hy]]%list_elem_of_fmap.
  rewrite Forall_forall in Hnone. unfold with_host. by rewrite (Hnone y Hy).
Qed.

(** ** Broker identity *)

Lemma append_assoc_str (a b c : string) : (a +:+ b) +:+ c = a +:+ b +:+ c.
Proof.
  induction a as [|x a IH]; [done|]. change (String x ((a +:+ b) +:+ c) = String x (a +:+ b +:+ c)). by rewrite IH.
Qed.

Lemma append_nil_str (a : string) : a +:+ "" = a.
Proof. induction a as [|x a IH]; [done|]. change (String x (a +:+ "") = String x a). by rewrite IH. Qed.

Lemma last_piece_digits s : ∀ acc v cur, digits_value acc s = Some v → last_piece "-"%char cur s = cur +:+ s.
Proof.
  induction s as [|c s IH]; intros acc v cur; cbn [digits_value last_piece].
  - intros _. symmetry. apply append_nil_str.
  - destruct (is_digit c) eqn:Ed; [|done]. intros H. rewrite bool_decide_eq_false_2 by (intros ->; done).
    rewrite (IH _ _ _ H), append_assoc_str. done.
Qed.

Lemma last_piece_base base s cur v : digits_value 0 s = Some v → last_piece "-"%char cur (base +:+ "-" +:+ s) = s.
Proof.
  intros Hv. revert cur. induction base as [|c base IH]; intros cur.
  - change ("" +:+ "-" +:+ s) with (String "-" s). cbn. by rewrite (last_piece_digits _ _ _ _ Hv).
  - change (String c base +:+ "-" +:+ s) with (String c (base +:+ "-" +:+ s)). cbn [last_piece]. by case_bool_decide.
Qed.

Lemma pretty_digits i : 0 ≤ i → digits_value 0 (pretty i) = Some i.
Proof.
  intros Hi. destruct i as [|p|p]; [done| |lia]. pose proof (parse_digits_pos p) as Hp. unfold parse_digits in Hp.
  change (pretty (Z.pos p)) with (pretty_N_go (N.pos p) ""). by destruct (pretty_N_go (N.pos p) "").
Qed.

(** The pods of a StatefulSet come up as different brokers: with no id set
    explicitly, the pod of ordinal [i] of a StatefulSet of any name is broker [i],
    under any environment that reads; and an id that is set and is not a number is
    refused. *)
Theorem pod_is_its_broker lj dj env base i c :
  env !! "KAAS_BROKER_ID" = None → env !! "MY_POD_NAME" = Some (base +:+ "-" +:+ pretty i) → 0 ≤ i ≤ i32_max →
  from_env lj dj env = Ok c → cli_broker_id c = i ∧ parse_ordinal (base +:+ "-" +:+ pretty i) = Some i.
Proof.
  intros Hb Hp Hi. assert (Hl : last_piece "-"%char "" (base +:+ "-" +:+ pretty i) = pretty i) by (eapply last_piece_base, pretty_digits; lia).
  assert (Hparse : parse_i32 (pretty i) = Some i) by (apply parse_pretty; range).
  assert (Hid : broker_id_of env = Ok i).
  { unfold broker_id_of. rewrite Hb, Hp. cbn [mbind option_bind]. unfold filled.
    assert (str_is_empty (base +:+ "-" +:+ pretty i) = false) as He by by destruct base. rewrite He. cbn [mbind option_bind].
    by rewrite Hl, Hparse. }
  unfold from_env, mbind, result_bind. rewrite Hid.
  repeat (match goal with |- match ?x with Ok _ => _ | Err _ => _ end = _ → _ => destruct x; [|done] end).
  intros [= <-]. split; [done|]. unfold parse_ordinal. by rewrite Hl.
Qed.

Lemma pod_is_its_broker_witness : ∃ c, demo_cli = Ok c ∧ cli_broker_id c = 2.
Proof.
  destruct demo_cli as [c|] eqn:E; [|vm_compute in E; discriminate]. exists c. split; [reflexivity|].
  apply (pod_is_its_broker demo_json no_json demo_env "kaas" 2 c); [reflexivity|reflexivity|range|exact E].
Defined.

(** ** The keys of the oauth listeners ([spawn_jwks_refreshers]) *)

Module Jwks.

Definition BOOT_RETRY_SECS : Z := 10.
Definition HINT_POLL_SECS : Z := 2.
Definition HINT_MIN_PAUSE_SECS : Z := 10.

(** What a fetch brought: the text of a response of success, or nothing. *)
Definition fetch (C : Crypto) (body : option (list byte)) (v : OauthValidator) : OauthValidator * bool :=
  match body with
  | None => (v, false)
  | Some text => let '(v, r) := install_jwks C v text in (v, match r with Ok _ => true | Err _ => false end)
  end.

Definition wait_of (fetched : bool) (v : OauthValidator) : Z :=
  1000 * (if fetched || has_keys v then jwks_refresh_seconds (cfg v) else BOOT_RETRY_SECS).

(** When the next fetch starts, in milliseconds: a sleep asked to end at [t] ends
    at [wake t], and [hint t] is whether an unknown key was met by then. *)
Fixpoint wait_loop (fuel : nat) (now fetch_done deadline : Z) (wake : Z → Z) (hint : Z → bool) : option Z :=
  match fuel with
  | O => None
  | S fuel =>
    if deadline <=? now then Some now
    else
      let now := wake (now + Z.min (1000 * HINT_POLL_SECS) (deadline - now)) in
      if (1000 * HINT_MIN_PAUSE_SECS <=? now - fetch_done) && hint now then Some now
      else wait_loop fuel now fetch_done deadline wake hint
  end.

End Jwks.
Import Jwks.

Lemma wait_loop_paced wake hint fetch_done wait slack fuel : (∀ t, t ≤ wake t ≤ t + slack) → ∀ now,
  fetch_done ≤ now ≤ fetch_done + wait + slack → fetch_done + wait - now ≤ 2000 * Z.of_nat fuel - 2000 → (0 < fuel)%nat →
  ∃ t, wait_loop fuel now fetch_done (fetch_done + wait) wake hint = Some t ∧
    fetch_done + Z.min wait 10000 ≤ t ≤ fetch_done + wait + slack.
Proof.
  intros Hw. induction fuel as [|fuel IH]; intros now Hn Hf Hpos; [lia|]. cbn [wait_loop].
  destruct (Z.leb_spec (fetch_done + wait) now) as [Hd|Hd]; [exists now; split; [done|lia]|].
  unfold HINT_POLL_SECS, HINT_MIN_PAUSE_SECS. cbv zeta.
  destruct (Hw (now + Z.min (1000 * 2) (fetch_done + wait - now))) as [H1 H2].
  set (now' := wake (now + Z.min (1000 * 2) (fetch_done + wait - now))) in *. clearbody now'.
  destruct (Z.leb_spec (1000 * 10) (now' - fetch_done)) as [Hp|Hp]; cbn [andb].
  - destruct (hint now'); [exists now'; split; [done|lia]|]. destruct (IH now') as (t & Ht & Hb); [lia| |lia|by exists t].
    destruct (Z.min_spec (1000 * 2) (fetch_done + wait - now)); lia.
  - destruct (IH now') as (t & Ht & Hb); [lia| |lia|by exists t]. destruct (Z.min_spec (1000 * 2) (fetch_done + wait - now)); lia.
Qed.

(** Between two fetches of the keys lies at least the smaller of the interval and
    ten seconds, however many unknown keys clients present, and at most the interval
    and the time a sleep overruns. *)
Theorem jwks_fetches_paced wake hint fetch_done slack fetched v :
  (∀ t, t ≤ wake t ≤ t + slack) → 0 ≤ jwks_refresh_seconds (cfg v) →
  let wait := wait_of fetched v in
  ∃ t, wait_loop (Z.to_nat (wait / 2000) + 3) fetch_done fetch_done (fetch_done + wait) wake hint = Some t ∧
    fetch_done + Z.min wait 10000 ≤ t ≤ fetch_done + wait + slack.
Proof.
  intros Hw Hr wait. assert (Hwait : 0 ≤ wait) by (unfold wait, wait_of, BOOT_RETRY_SECS; destruct (_ || _); lia).
  apply wait_loop_paced; [exact Hw| | |lia].
  - specialize (Hw 0). lia.
  - pose proof (Z.div_mod wait 2000 ltac:(lia)). pose proof (Z.mod_pos_bound wait 2000 ltac:(lia)).
    pose proof (Z.div_pos wait 2000 Hwait ltac:(lia)). lia.
Qed.

Definition hourly : OauthValidator :=
  OauthValidator_new {| valid_issuer_uri := "https://issuer"; jwks_endpoint_uri := "https://issuer/jwks"; user_name_claim := None;
    fallback_user_name_claim := None; check_audience := false; client_id := None; jwks_refresh_seconds := 3600;
    max_seconds_without_reauthentication := None |}.

Lemma jwks_fetches_paced_witness :
  ∃ t, wait_loop (Z.to_nat (wait_of true hourly / 2000) + 3) 0 0 (0 + wait_of true hourly) (λ t, t + 1) (λ _, true) = Some t ∧ 10000 ≤ t.
Proof.
  destruct (jwks_fetches_paced (λ t, t + 1) (λ _, true) 0 1 true hourly) as (t & Ht & Hb); [intros t; lia|discriminate|].
  exists t. split; [exact Ht|]. change (wait_of true hourly) with 3600000 in Hb. lia.
Defined.

(** An interval of zero, which the configuration accepts, fetches without pause
    once a fetch has succeeded. *)
Lemma zero_interval_spins wake hint now v :
  jwks_refresh_seconds (cfg v) = 0 → wait_loop 1 now now (now + wait_of true v) wake hint = Some now.
Proof. intros Hz. cbn [wait_loop]. unfold wait_of. cbn [orb]. by rewrite Hz, Z.mul_0_r, Z.add_0_r, Z.leb_refl. Qed.
